(* ===== verification/_CoqProject ===== *)
-Q . S2P
Prelude.v
Utils.v
CacheBase.v
CacheBlock.v
CacheSet.v
Replacement.v
Policies.v
Srrip.v
Mplru.v
Chirp.v
SetFactory.v
BranchPredictor.v
BranchProps.v
Prefetch.v
Cache.v
CacheLines.v
CacheProps.v
Buddy.v
Sync.v
PageTable.v
PageFault.v
Timing.v
Contention.v
Directory.v
DirCntlr.v
DirProps.v
DirRefine.v
DirRuns.v
CntlrState.v
Dram.v
CacheCntlr.v
CntlrView.v
CntlrProps.v
CntlrAccess.v
DramProps.v
CntlrRuns.v
CntlrCorrect.v
Nuca.v
Tlb.v
TlbProps.v
Mmu.v
MmuProps.v
Threads.v
ThreadProps.v
ThreadOps.v
ThreadPolicy.v
ThreadBarrier.v
ThreadPinned.v
ThreadRuns.v
ThreadSafety.v
SiftFormat.v
SiftWriter.v
SiftReader.v
SiftProps.v
SiftSpec.v
SiftLink.v
SiftConnection.v
SiftChampSim.v
