(* ===== verification/Prelude.v ===== *)
(** * Verification of the Sniper multi-core simulator

    Sniper simulates a multi-core processor for a program trace. This fork adds the
    simulation of virtual memory: an operating system model with physical memory
    allocators, page tables and page faults, TLBs built on the cache model, and the
    power-gating of cache ways at run time. The library models the memory system (caches,
    coherence, DRAM, address translation), the branch predictors, and the system that runs
    simulated threads (synchronisation, schedulers, barrier of the clocks, system calls), and the
    SIFT connection through which a traced program feeds the simulator, and proves what makes
    them correct.

    ** The parts of the program and their files

    The files below are listed in dependency order. Names under [common/] and
    [include/] are directories of the repository's [src/].

    - Prelude (this file): the error monad [res] with the ways the simulator can stop
      ([fault]), bounded loops, wrapped machine integers, the tactics and the hint
      database [sniper], and lemmas on results, lists and bit fields.
    - Utils: [common/misc/utils.cc] (logarithms, bit counts), [rng.h], [random.h] and
      [modulo_num.cc], with their agreement with [Z.log2], [Z.log2_up] and the number of
      one bits.
    - CacheBase: [address_home_lookup.cc] and [cache/cache_base.cc], the splitting of
      addresses into tag, set index and offset with all hash functions.
    - CacheBlock: [cache/cache_state.h] and the cache block classes of
      [cache_block_info.cc], [pr_l1_cache_block_info.h], [pr_l2_cache_block_info.cc] and
      [shared_cache_block_info.cc] (without the sharer tracking its header disables).
    - CacheSet: [cache/cache_set.cc], one set with its blocks and data; a class
      [ReplacementPolicy] stands for the virtual functions of a policy, the classes
      [ReplacementPolicyLaws], [FillsFreeWays] and [SafeVictims] state what a policy
      promises, and the set's theorems are proved from these promises.
    - Replacement (shared code, LRU with query-based selection), Policies (MRU, NMRU, NRU,
      tree PLRU, random, round robin) and Srrip: [cache/cache_set_*.cc], each with its
      invariant, its functional specification and its instances of the classes.
    - Mplru and Chirp: [cache_set_mplru.cc] and [cache_set_chirp.cc], the policies that
      extend LRU with a shared state of their own; MPLRU's controller is the class
      [IMPLRUController]. SetFactory: the factory of [cache_set.cc], which builds every
      policy by name.
    - BranchPredictor: [performance_model/branch_predictor.cc] and [branch_predictors/], the
      one-bit, Pentium M and A53 predictors and their tables; BranchProps: their theorems.
    - Prefetch: the data prefetchers [simple_prefetcher.cc], [ghb_prefetcher.cc] and
      [a53prefetcher.cc] of [parametric_dram_directory_msi/], with their theorems.
    - Cache: [cache/cache.cc], the whole cache with its operations on lines and on TLB
      entries, its counters and power-gating, the invariant [cache_wf], the abstract cache
      (a set of resident lines) and the refinement of every operation. CacheProps: the
      theorems about caches. CacheLines: the operations in terms of the block that a line
      is held in, for the clients of the cache.
    - Buddy: [include/memory_management/physical_memory_allocators/buddy.h], the buddy
      allocator of physical pages.
    - Sync: [common/system/sync_server.cc], mutexes, condition variables and barriers of
      the simulated threads. A call either completes or blocks, and reports which threads
      it stalled and resumed.
    - PageTable: [common/system/memory_management/page_tables/pagetable_radix.cc], walks,
      mappings and deletions of a radix page table.
    - PageFault: [physical_memory_allocator.h], [baseline.h] and
      [exception_handling/sniper_space_exception_handler.cc]: the page fault handler, which
      connects page tables to allocators. Its theorems are proved against the class
      [BasePageAllocator], which the baseline allocator over the buddy allocator implements.
    - Directory: [common/core/memory_subsystem/directory_schemes/] and
      [pr_l1_pr_l2_dram_directory_msi/dram_directory_cache.cc], the entries of the full-map,
      limited and limitless directories and their set-associative store, with the abstract
      view of a line that lookups, replacements and invalidations preserve.
    - DirCntlr: [dram_directory_cntlr.cc] with [shmem_msg.cc], [shmem_req.cc],
      [req_queue_list_template.h] and the delivery of messages in [memory_manager.cc]: every
      handler of the directory's MSI, MESI and MESIF protocols, in a state and error monad.
      The NUCA cache is the class [NucaCache].
    - DirProps: the specification automaton of a line's traffic, the invariant of a line
      and the calculus ([wp]) with which every handler is proved; DirRefine: replies,
      delivery, runs of the controller and the theorems; DirRuns: runs made executable.
    - Timing: [common/misc/subsecond_time.h] and [moving_average.h], the arithmetic of
      simulated time and moving means. Contention: [performance_model/contention_model.cc]
      and the queue models [queue_model_basic.cc], [queue_model_contention.cc] and
      [queue_model_history_list.cc].
    - CntlrState: the state of the private and shared caches of a simulated machine
      ([cache_cntlr.h], [setlock.cc], the performance models, tag directories and DRAM
      interfaces that they use) in a state and error monad. CacheCntlr: every operation of
      [parametric_dram_directory_msi/cache_cntlr.cc]. CntlrView: the relation of the caches
      to sets of resident lines per cache and the calculus for the monad; CntlrProps: the
      specification of every operation up to insertion; CntlrAccess: misses, evictions,
      prefetches and whole accesses; CntlrCorrect: sequences of accesses; CntlrRuns:
      executable machines and the computations on them.
    - Dram: [shmem_perf.cc], [fault_injection/], [dram_perf_model_constant.cc],
      [dram_perf_model_readwrite.cc], [dram_perf_model_normal.cc], [dram_cntlr.cc],
      [dram_cntlr_interface.cc] and [dram_cache.cc]; DramProps: their theorems, and the
      instance of the class [DramCntlrLaws] that the caches' theorems are proved against.
    - Nuca: [parametric_dram_directory_msi/nuca_cache.cc], the slice of the last-level cache
      that implements the class [NucaCache] of the directory controller; [QueueLaws] states
      what the queue model of its data array promises.
    - Tlb: [translation_components/], the TLB over the cache model with its prefetch queue,
      the TLB prefetchers, the hierarchy of TLBs, the page size predictor, page walk caches
      with their filters, and the holding registers of walks. The order of equal elements
      of [std::priority_queue] is open (class [PriorityQueue]). TlbProps: their invariants
      and theorems, for policies that are instances of [StandaloneVictims].
    - Mmu: [mmu_base.cc] and [mmu_designs/mmu.cc], the translation of an address, in a state
      and error monad; the data caches are the class [MMUCacheInterface]. MmuProps: the
      invariant [mmu_ok], which ties TLBs, page table, allocator and consistency maps
      together, the calculus for the unit's monad, and the theorems, proved against
      [MMUCacheLaws] and [BasePageAllocator].
    - Threads: [core/thread.cc], [system/thread_manager.cc], the schedulers of
      [common/scheduler/] except the sequential one, [system/barrier_sync_server.cc],
      [barrier_sync_client.cc] and the futexes and sleeps of [system/syscall_server.cc], in a
      state and error monad; they call each other through the hooks of [hooks_manager.cc].
      Condition variables are the numbers of host threads that wait on them. The order of the
      hash table of futexes, the translation of futex addresses and [std::shuffle] are
      parameters. ThreadProps: the calculus of the monad, the invariant of scheduler,
      threads, cores and barrier, and rescheduling; ThreadOps and ThreadPolicy: every other
      operation of threads and schedulers; ThreadBarrier: the release of the barrier;
      ThreadPinned: the searches of the pinned scheduler; ThreadRuns: sequences of
      operations; ThreadSafety: the theorems and the computations on a concrete machine.
    - SiftFormat: [sift/sift_format.h] and the monad of the two ends of a connection.
      SiftWriter: [sift/sift_writer.cc], the end in the traced program; SiftReader:
      [sift/sift_reader.cc] with the streams of [sift/zfstream.h], the end in the simulator,
      which also reads ChampSim traces. The memory of the program, its code, its page map,
      the handlers of the front end and the decompression are parameters. SiftProps: what the
      reader makes of bytes; SiftSpec: the requests of a program and the specification of a
      connection, direct calls; SiftLink: every request implements its direct call;
      SiftConnection: whole sessions and the end of a trace; SiftChampSim: ChampSim traces.

    ** What the theorems show

    - Caches: for any policy that keeps its promises, every run of accesses, insertions
      and invalidations is a run of the abstract cache that holds a set of lines
      ([cache_refines_lines]); an inserted line hits; nothing is evicted while the set has
      room; gating ways never loses data; TLB invalidation finds every copy; data written
      is read back; the set index of every hash is in range except for the configuration
      [xor_mod_out_of_range] exhibits.
    - Policies: each returns a victim that its specification determines (the least or most
      recently used way, the first unmarked way from a pointer, the leaf of a tree, the
      greatest prediction counter, the oldest block of a preferred kind, the oldest entry
      predicted dead), with the termination of every search; MPLRU does so for the settings on
      which its comments and its code agree. The factory builds for each name the class that
      the name stands for, in a state that satisfies its invariant, and rejects other names.
    - Physical memory: pages are conserved by every operation of the buddy allocator, are
      never handed out twice, and artificial fragmentation ends at its target.
    - Virtual memory: the radix tree implements a map from pages to frames; a walk reports
      that map; a page fault is resolved in one replay, uses exactly the missing page table
      frames, and never maps two virtual pages to one frame.
    - Coherence: every run of the directory controller is a run of a specification that
      grants exclusive copies only when nobody else holds one and shared copies only when
      nobody may write, in the order of the requests; in every reachable state a writer is
      the only holder and the directory lists every holder; the mutual recursion of the
      handlers ends. The hypothesis [permitted] says what caches and DRAM send: replies come
      from holders, answers follow questions, and a core has one request outstanding.
    - Private caches: any sequence of loads and stores of any cores keeps inclusion (a line in
      a level is in the next), with every lock released and every dirty line backed by the
      next level ([accesses_keep_inclusion]); after an access the line is in the first level
      in a state that allows the operation ([access_then_hit]). These are for stacks that
      are connected to memory, and for accesses of data or of page tables that the first level
      keeps ([metadata_miss_keeps_locks] shows what the others do). The calculus leaves two
      faults open: the 64 bits of simulated time overflow, or the clean-up of the miss holding
      registers does not end because all of them complete at the last representable time
      ([ClockEnd]).
    - DRAM: data read is data last written; the latency breakdown of a request adds up to
      its time; the DRAM cache serves no request.
    - Prefetchers: the GHB prefetcher stays in its buffers; the simple prefetcher follows
      strides.
    - Translation: every translation of a data access, or of an instruction fetch from a mapped
      page, returns what the page table holds, through TLB hits, walks and page faults
      ([translation_correct]); fetches from other pages get frames that data pages can get too
      ([instruction_frame_reused]); a sequence of accesses implements one
      injective map of pages ([translations_consistent]); an inserted translation hits. The
      code's features that do nothing are shown as such: prefetchers prefetch nothing, the
      registers of walks delay nothing, walks are free without page walk caches.
    - Branches: the loop predictor learns every constant trip count from one loop; the
      Pentium M predictor never leaves its tables and its statistics are exact, except with
      a target buffer that was resized below the range of its index.
    - Contention: a resource serves no request before it arrives and never more than it has
      units; the slots that the history list hands out do not overlap as long as its analytical
      model is off and no request is longer than the minimal processing time.
    - NUCA: a written line is read back, and a hit leaves the eviction variables of the
      directory controller uninitialised.
    - Synchronisation: no wake-up is lost or duplicated, mutexes and broadcasts are served in
      order, barriers release everybody once, and the server stops only on calls that break
      the protocol.
    - Threads: with the pinned or the roaming scheduler, when the host runs as many threads
      as there are cores, scheduler, threads, cores and barrier describe one assignment of
      threads to cores after any sequence of operations, and every permitted operation
      completes ([threads_run_safely]); the pinned scheduler leaves no core free that a
      thread may use and waits for; a core goes to the thread that
      left its core first among those that may run on it, or stays with the thread on it if
      that has run for less; the
      barrier releases exactly the cores that are due and loses no wake-up; advancing it
      ends with a thread that runs. A thread that starts sixteen or more places past the end
      of the array of runnable threads is written out of bounds
      ([late_start_out_of_bounds]).

    - Traces: over an uncompressed connection a program and the simulator interact as by direct
      calls ([connection_transparent]): outcomes, instructions with their code, operands and
      translations, system calls, memory accesses of the simulator, and the agreement of what
      each end sends with what the other consumes. A file of ChampSim records is read as the
      instructions it encodes ([champsim_trace_read]); asked again after the end of a trace, the
      reader claims that there is another instruction ([trace_end_handled]).

    Several theorems exhibit defects: each is a closed computation that shows the behaviour
    of the code on a small input.

    ** Conventions and bounds

    Machine integers are in [Z] with explicit wrap-around; indices into arrays are natural
    numbers, and an access out of range is the fault [OutOfBounds]. The simulator is built
    with assertions enabled. Counting loops are folds over their range and need no fuel.
    Fuel appears where the source does not bound a recursion: the retries of the random
    policy have 2^32 steps, the period of its generator; the round-robin recursion one step
    per way, after which it repeats; the fragmentation loop one step per large block; the
    replay of a page walk is bounded by the caller, two passes being shown to suffice; the
    directory controller's recursion over the requests of a line has one step more than the
    queue is long, which is shown to suffice; the loop of walks and faults of the MMU has
    two passes, which are shown to suffice; the loop that completes TLB prefetches takes one
    entry off its queue per pass; rescheduling, which calls itself through the stall of a
    thread, has one step more than there are cores, the searches of the pinned scheduler and
    the loop that advances the barrier as many, and the release of the barrier as many as the
    times that cores and sleeping threads wait for take, all of which are shown to suffice. The
    loops of the two ends of a connection have a step more than the bytes that are left to
    read, and the code of an instruction lies in at most two pages.
    The theorems of PageTable and PageFault are for tables of four levels of 512 entries with
    pages of 4 KB and 2 MB, which is how the simulator configures them.

    ** Not modelled

    Logging, statistics registration and configuration parsing have no effect on the modelled
    state. The transition statistics of the cache controllers are not compiled in, and the
    breakdown of latencies is modelled for DRAM but not where the controllers call it. The nested unit of virtual machines is not modelled with
    the MMU. Not modelled yet: the controllers of MPLRU's adaptive mode (floating point;
    MPLRU is proved for any controller), the ratio-based (floating point) fragmentation of
    [Buddy], the theorems of private caches that are connected to a tag directory (their
    operations are modelled), the detailed DDR and CXL models of DRAM, the reservation-based
    allocators, range tables and swap, the windowed M/G/1 queue (floating point), core timing
    models, the networks, the sequential scheduler, the threads that read traces
    ([trace_thread.cc], [trace_manager.cc]) and the tool that records them. *)

From stdpp Require Import base tactics list gmap numbers.
From Stdlib Require Import ZArith Lia.

(** ** Faults and results

    C++ code that can stop the simulator is modelled in the error monad [res].
    The simulator is built without [NDEBUG], so [assert] and
    [LOG_ASSERT_ERROR] are live and [LOG_PRINT_ERROR] ends the process. *)

Inductive fault : Type :=
| AssertFailed   (** [assert(e)] with [e] false *)
| LogError       (** [LOG_PRINT_ERROR], or [LOG_ASSERT_ERROR] with a false condition *)
| OutOfBounds    (** an access outside an array or vector: undefined behaviour *)
| NullDeref      (** a null pointer is dereferenced: undefined behaviour *)
| BadCast        (** an unchecked cast to the wrong dynamic class: undefined behaviour *)
| DivByZero      (** integer division by zero: undefined behaviour *)
| BadShift       (** a shift by a count outside the operand: undefined behaviour *)
| UseAfterFree   (** memory that was deleted is read: undefined behaviour *)
| Indeterminate  (** an uninitialised value is read: undefined behaviour *)
| ClockOverflow  (** a simulated time, in 64 bits of femtoseconds, would wrap: [LOG_ASSERT_ERROR] *)
| Blocked        (** the thread waits for a lock or a semaphore that nobody else will release *)
| BadUnlock      (** a mutex that is not held is released: undefined behaviour *)
| Hangs          (** a loop repeats in the same state for ever *)
| ClockEnd       (** a loop repeats for ever because simulated times stand at their maximum *)
| Exits          (** the process ends itself with [exit(0)] *)
| Diverges.      (** the fuel of a recursion that the source does not bound ran out *)

Inductive res (A : Type) : Type :=
| Ok (a : A)
| Err (f : fault).
Arguments Ok {_} _.
Arguments Err {_} _.

#[global] Instance fault_eq_dec : EqDecision fault.
Proof. solve_decision. Defined.
#[global] Instance res_ret : MRet res := fun A a => Ok a.
#[global] Instance res_bind : MBind res := fun A B k m =>
  match m with Ok a => k a | Err f => Err f end.
#[global] Instance res_fmap : FMap res := fun A B g m =>
  match m with Ok a => Ok (g a) | Err f => Err f end.

(** [check b f] continues when [b] holds and stops with the fault [f] otherwise. *)
Definition check (b : bool) (f : fault) : res unit :=
  if b then Ok tt else Err f.

(** Array reads and writes; an index outside the array is undefined behaviour. *)
Definition rd {A} (l : list A) (i : nat) : res A :=
  match l !! i with Some x => Ok x | None => Err OutOfBounds end.
Definition wr {A} (l : list A) (i : nat) (x : A) : res (list A) :=
  if decide (i < length l)%nat then Ok (<[i := x]> l) else Err OutOfBounds.

(** [deref p] follows a pointer that may be null. *)
Definition deref {A} (p : option A) : res A :=
  match p with Some x => Ok x | None => Err NullDeref end.

(** A counting loop that leaves at the first index on which the test holds. *)
Fixpoint find_loop (p : nat -> res bool) (idx : list nat) : res (option nat) :=
  match idx with
  | [] => Ok None
  | i :: idx' => b ← p i; if b : bool then Ok (Some i) else find_loop p idx'
  end.

(** A counting loop with an accumulator. *)
Fixpoint fold_loop {A} (f : A -> nat -> res A) (acc : A) (idx : list nat) : res A :=
  match idx with
  | [] => Ok acc
  | i :: idx' => acc' ← f acc i; fold_loop f acc' idx'
  end.

(** The first element of a list of indices on which a pure test holds. *)
Fixpoint first_such (p : nat -> bool) (idx : list nat) : option nat :=
  match idx with
  | [] => None
  | i :: idx' => if p i then Some i else first_such p idx'
  end.

(** ** Machine integers

    A [w]-bit unsigned value is an integer of [Z] in [0, 2^w); the operations
    that can leave the range are followed by the wrap-around written out. *)

Declare Scope mach_scope.
Delimit Scope mach_scope with mach.

Definition wrap (w z : Z) : Z := z `mod` 2 ^ w.
Abbreviation u8 := (wrap 8).
Abbreviation u16 := (wrap 16).
Abbreviation u32 := (wrap 32).
Abbreviation u64 := (wrap 64).
(** Two's complement reinterpretation of the low [w] bits. *)
Definition swrap (w z : Z) : Z := (z + 2 ^ (w - 1)) `mod` 2 ^ w - 2 ^ (w - 1).
Abbreviation s32 := (swrap 32).

Notation "x +64 y" := (u64 (x + y)) (at level 50, left associativity) : mach_scope.
Notation "x -64 y" := (u64 (x - y)) (at level 50, left associativity) : mach_scope.
Notation "x *64 y" := (u64 (x * y)) (at level 40, left associativity) : mach_scope.

(** [in_range w z]: [z] is a value of the [w]-bit unsigned type. *)
Definition in_range (w z : Z) : Prop := (0 <= z < 2 ^ w)%Z.

(** ** Tactics *)

Create HintDb sniper.

(** Case analysis on the monadic binds of a hypothesis [_ = Ok _]. *)
Ltac inv_res :=
  repeat match goal with
  | H : Ok _ = Ok _ |- _ => injection H as H; try subst
  | H : Ok _ = Err _ |- _ => discriminate H
  | H : Err _ = Ok _ |- _ => discriminate H
  | H : Err _ = Err _ |- _ => injection H as H; try subst
  | H : mbind _ (check ?b _) = Ok _ |- _ =>
      let E := fresh "E" in
      destruct b eqn:E; cbn [check mbind res_bind] in H; [|discriminate H]
  | H : mbind _ ?m = Ok _ |- _ =>
      let E := fresh "E" in
      destruct m eqn:E; cbn [mbind res_bind] in H; [|discriminate H]
  | H : fmap _ ?m = Ok _ |- _ =>
      let E := fresh "E" in
      destruct m eqn:E; cbn [fmap res_fmap] in H; [|discriminate H]
  | H : check ?b _ = Ok _ |- _ =>
      let E := fresh "E" in
      unfold check in H; destruct b eqn:E; [|discriminate H]
  end.

(** Split the boolean or decidable tests of the goal. *)
Ltac case_tests :=
  repeat match goal with
  | |- context [if decide ?P then _ else _] => destruct (decide P)
  | |- context [if ?b then _ else _] =>
      let E := fresh "E" in destruct b eqn:E
  end.

(** ** Lemmas on results *)

Section res_lemmas.
Context {A : Type}.
Implicit Types (l : list A) (x : A).

Lemma rd_Ok l i x : rd l i = Ok x <-> l !! i = Some x.
Proof. unfold rd. destruct (l !! i); split; intros; congruence. Qed.

Lemma rd_lookup l i : (i < length l)%nat -> exists x, rd l i = Ok x /\ l !! i = Some x.
Proof.
  intros H. destruct (lookup_lt_is_Some_2 l i H) as [x Hx].
  exists x. by rewrite rd_Ok.
Qed.

Lemma wr_lt l i x : (i < length l)%nat -> wr l i x = Ok (<[i := x]> l).
Proof. intros H. unfold wr. by rewrite decide_True. Qed.

Lemma wr_Ok l i x l' : wr l i x = Ok l' <-> (i < length l)%nat /\ l' = <[i := x]> l.
Proof.
  unfold wr. case_decide; split.
  - by intros [= <-].
  - by intros [_ ->].
  - done.
  - by intros [? _].
Qed.

Lemma deref_Ok (p : option A) x : deref p = Ok x <-> p = Some x.
Proof. destruct p; split; intros; naive_solver. Qed.

End res_lemmas.

Lemma check_Ok b f : check b f = Ok tt <-> b = true.
Proof. destruct b; split; intros; naive_solver. Qed.

(** A loop whose test never fails on the indices it visits is a pure search. *)
Lemma find_loop_pure p q idx :
  (forall i, i ∈ idx -> p i = Ok (q i)) -> find_loop p idx = Ok (first_such q idx).
Proof.
  induction idx as [|i idx IH]; intros H; [done|]. cbn.
  rewrite (H i) by apply list_elem_of_here. cbn.
  destruct (q i); [done|]. apply IH. intros j Hj. apply H. by right.
Qed.

Lemma fold_loop_pure {A} (f : A -> nat -> res A) (g : A -> nat -> A) acc idx :
  (forall a i, i ∈ idx -> f a i = Ok (g a i)) ->
  fold_loop f acc idx = Ok (foldl g acc idx).
Proof.
  revert acc. induction idx as [|i idx IH]; intros acc H; [done|]. cbn.
  rewrite H by apply list_elem_of_here. cbn. apply IH. intros a j Hj. apply H. by right.
Qed.

Lemma fold_loop_app {A} (f : A -> nat -> res A) acc l1 l2 :
  fold_loop f acc (l1 ++ l2) = (a ← fold_loop f acc l1; fold_loop f a l2).
Proof.
  revert acc. induction l1 as [|i l1 IH]; intros acc; [done|]. cbn.
  destruct (f acc i); cbn; [apply IH|done].
Qed.

(** An invariant of the body holds after the loop. *)
Lemma fold_loop_keeps {A} (I : A -> Prop) (f : A -> nat -> res A) a idx r :
  (forall a i a', f a i = Ok a' -> I a -> I a') -> I a -> fold_loop f a idx = Ok r -> I r.
Proof.
  intros Hf. revert a. induction idx as [|i idx IH]; intros a Ha H; cbn [fold_loop] in H; [by injection H as <-|].
  destruct (f a i) as [a'|] eqn:E; cbn [mbind res_bind] in H; [|done]. eapply IH; [|done]. by eapply Hf.
Qed.

(** A counting loop keeps an invariant indexed by the number of iterations done. *)
Lemma fold_loop_inv {A} (I : nat -> A -> Prop) (f : A -> nat -> res A) n a :
  I 0 a -> (forall k x, (k < n)%nat -> I k x -> exists y, f x k = Ok y /\ I (S k) y) ->
  exists y, fold_loop f a (seq 0 n) = Ok y /\ I n y.
Proof.
  intros H0 Hs. induction n as [|n IH]; [by exists a|].
  destruct IH as (y & E & Hy); [intros k x Hk; apply Hs; lia|].
  destruct (Hs n y ltac:(lia) Hy) as (z & Ez & Hz). exists z.
  by rewrite seq_S, fold_loop_app, E, Nat.add_0_l; cbn; rewrite Ez.
Qed.

Lemma first_such_Some q idx i :
  first_such q idx = Some i -> i ∈ idx /\ q i = true.
Proof.
  induction idx as [|j idx IH]; cbn; [done|]. destruct (q j) eqn:E.
  - intros [= ->]. split; [apply list_elem_of_here|done].
  - intros H. destruct (IH H). split; [by right|done].
Qed.

Lemma first_such_None q idx :
  first_such q idx = None <-> forall i, i ∈ idx -> q i = false.
Proof.
  induction idx as [|j idx IH]; cbn.
  - split; [intros _ i Hi; by apply not_elem_of_nil in Hi|done].
  - destruct (q j) eqn:E; split.
    + done.
    + intros H. specialize (H j ltac:(apply list_elem_of_here)). congruence.
    + rewrite IH. intros H i [->|Hi]%elem_of_cons; [done|auto].
    + intros H. apply IH. intros i Hi. apply H. by right.
Qed.

(** On an initial segment of the indices the search returns the least index. *)
Lemma first_such_seq_min q a n i :
  first_such q (seq a n) = Some i ->
  (a <= i < a + n)%nat /\ q i = true /\ forall j, (a <= j < i)%nat -> q j = false.
Proof.
  revert a. induction n as [|n IH]; intros a; cbn; [done|]. destruct (q a) eqn:E.
  - intros [= ->]. split_and!; [lia|lia|done|lia].
  - intros H. destruct (IH _ H) as (? & ? & Hm). split_and!; [lia|lia|done|].
    intros j ?. destruct (decide (j = a)) as [->|]; [done|]. apply Hm. lia.
Qed.

(** ** Lemmas on lists *)

Lemma filter_id {A} (P : A -> Prop) `{Hdec : !forall x, Decision (P x)} (l : list A) :
  (forall x, x ∈ l -> P x) -> filter P l = l.
Proof.
  induction l as [|x l IH]; intros H; [done|]. rewrite filter_cons, decide_True by (apply H; left).
  f_equal. apply IH. intros y Hy. apply H. by right.
Qed.

Lemma filter_none {A} (P : A -> Prop) `{Hdec : !forall x, Decision (P x)} (l : list A) :
  (forall x, x ∈ l -> ~ P x) -> filter P l = [].
Proof.
  induction l as [|x l IH]; intros H; [done|]. rewrite filter_cons, decide_False by (apply H; left).
  apply IH. intros y Hy. apply H. by right.
Qed.

(** ** Lemmas on machine integers *)

Section mach_lemmas.
Open Scope Z_scope.

Lemma wrap_range w z : 0 <= w -> in_range w (wrap w z).
Proof. intros. apply Z.mod_pos_bound. by apply Z.pow_pos_nonneg. Qed.

Lemma wrap_small w z : in_range w z -> wrap w z = z.
Proof. intros. by apply Z.mod_small. Qed.

Lemma wrap_range' w z : 0 <= w -> 0 <= wrap w z < 2 ^ w.
Proof. apply wrap_range. Qed.

Lemma swrap_small w z : 0 < w -> - 2 ^ (w - 1) <= z < 2 ^ (w - 1) -> swrap w z = z.
Proof.
  intros Hw H. unfold swrap. assert (2 ^ w = 2 * 2 ^ (w - 1)).
  { rewrite <- Z.pow_succ_r by lia. f_equal. lia. }
  rewrite Z.mod_small by lia. lia.
Qed.

Lemma in_range_mono w w' z : w <= w' -> in_range w z -> in_range w' z.
Proof.
  intros Hw [? H]. split; [done|]. eapply Z.lt_le_trans; [done|].
  apply Z.pow_le_mono_r; lia.
Qed.

(** Masking with [2^k - 1] keeps the remainder modulo [2^k]. *)
Lemma land_pow2_pred k z : 0 <= k -> Z.land z (2 ^ k - 1) = z `mod` 2 ^ k.
Proof. intros. rewrite <- Z.land_ones by done. by rewrite Z.ones_equiv. Qed.

Lemma land_ones_range k z : 0 <= k -> in_range k (Z.land z (2 ^ k - 1)).
Proof.
  intros. rewrite land_pow2_pred by done.
  apply Z.mod_pos_bound. by apply Z.pow_pos_nonneg.
Qed.

Lemma shiftr_range w k z : 0 <= k -> in_range w z -> in_range w (Z.shiftr z k).
Proof.
  intros Hk [H1 H2]. split; [by apply Z.shiftr_nonneg|].
  rewrite Z.shiftr_div_pow2 by done.
  eapply Z.le_lt_trans; [|exact H2]. apply Z.div_le_upper_bound.
  - by apply Z.pow_pos_nonneg.
  - assert (0 < 2 ^ k) by (by apply Z.pow_pos_nonneg). nia.
Qed.

(** A value is [w] bits wide when it is its own remainder modulo [2^w], that is
    when none of its bits from [w] on is set. *)
Lemma in_range_mod w z : 0 <= w -> in_range w z <-> z `mod` 2 ^ w = z.
Proof.
  intros Hw. assert (0 < 2 ^ w) by (by apply Z.pow_pos_nonneg). split.
  - apply Z.mod_small.
  - intros <-. by apply Z.mod_pos_bound.
Qed.

Lemma in_range_bits w z :
  0 <= w -> in_range w z <-> forall i, w <= i -> Z.testbit z i = false.
Proof.
  intros Hw. rewrite in_range_mod by done. split.
  - intros <- i Hi. by apply Z.mod_pow2_bits_high.
  - intros H. apply Z.bits_inj'. intros i Hi. destruct (decide (i < w)).
    + by rewrite Z.mod_pow2_bits_low.
    + rewrite Z.mod_pow2_bits_high, H by lia. done.
Qed.

Lemma lxor_range w a b :
  0 <= w -> in_range w a -> in_range w b -> in_range w (Z.lxor a b).
Proof.
  intros Hw. rewrite !in_range_bits by done. intros Ha Hb i Hi.
  by rewrite Z.lxor_spec, Ha, Hb.
Qed.

Lemma lor_range w a b :
  0 <= w -> in_range w a -> in_range w b -> in_range w (Z.lor a b).
Proof.
  intros Hw. rewrite !in_range_bits by done. intros Ha Hb i Hi.
  by rewrite Z.lor_spec, Ha, Hb.
Qed.

Lemma land_range w a b : 0 <= w -> in_range w a -> in_range w (Z.land a b).
Proof.
  intros Hw. rewrite !in_range_bits by done. intros Ha i Hi.
  by rewrite Z.land_spec, Ha.
Qed.

(** The mask of the pages of 4096 bytes. *)
Lemma page_mask z : in_range 64 z -> Z.land z (2 ^ 64 - 4096) = z - z `mod` 4096.
Proof.
  intros Hz. replace (z - z `mod` 4096) with (Z.shiftl (Z.shiftr z 12) 12).
  2: { rewrite Z.shiftl_mul_pow2, Z.shiftr_div_pow2 by lia. change (2 ^ 12) with 4096. pose proof (Z.div_mod z 4096 ltac:(lia)). lia. }
  apply Z.bits_inj'. intros i Hi. change (2 ^ 64 - 4096) with (Z.shiftl (Z.ones 52) 12). rewrite Z.land_spec, !Z.shiftl_spec by lia.
  destruct (decide (i < 12)).
  - rewrite !(Z.testbit_neg_r _ (i - 12)) by lia. by rewrite andb_false_r.
  - rewrite Z.shiftr_spec by lia. replace (i - 12 + 12) with i by lia. destruct (decide (i < 64)).
    + rewrite Z.ones_spec_low by lia. by rewrite andb_true_r.
    + by rewrite (proj1 (in_range_bits 64 z ltac:(lia)) Hz) by lia.
Qed.

End mach_lemmas.

#[export] Hint Resolve wrap_range wrap_range' shiftr_range lxor_range lor_range
  land_range land_ones_range : sniper.
