(* ===== verification/Utils.v ===== *)
(** * Arithmetic helpers of [common/misc]

    [utils.cc] ([isPower2], [floorLog2], [ceilLog2], [countBits]), the inlined
    generator of [rng.h], the [Random] class of [random.h] and [ModuloNum]. *)

From stdpp Require Import base tactics list numbers.
From Stdlib Require Import ZArith Lia.
From S2P Require Import Prelude.
Local Open Scope Z_scope.

(** ** Bit tricks of utils.cc *)

Definition isPower2 (n : Z) : bool := Z.land n (u32 (n - 1)) =? 0.

Definition floorLog2 (n : Z) : Z :=
  if n =? 0 then -1 else
  let p := 0 in
  let '(p, n) := if negb (Z.land n 0xffff0000 =? 0) then (p + 16, Z.shiftr n 16) else (p, n) in
  let '(p, n) := if negb (Z.land n 0x0000ff00 =? 0) then (p + 8, Z.shiftr n 8) else (p, n) in
  let '(p, n) := if negb (Z.land n 0x000000f0 =? 0) then (p + 4, Z.shiftr n 4) else (p, n) in
  let '(p, n) := if negb (Z.land n 0x0000000c =? 0) then (p + 2, Z.shiftr n 2) else (p, n) in
  if negb (Z.land n 0x00000002 =? 0) then p + 1 else p.

Definition ceilLog2 (n : Z) : Z := floorLog2 (u32 (n - 1)) + 1.

(** [for (result = 1; n &= n - 1; ++result)]: 64 rounds of fuel are enough, each
    round clears one bit of a 64-bit value. *)
Fixpoint countBits_loop (fuel : nat) (n result : Z) : Z :=
  match fuel with
  | O => result
  | S fuel' =>
      let n' := Z.land n (u64 (n - 1)) in
      if n' =? 0 then result else countBits_loop fuel' n' (u64 (result + 1))
  end.

Definition countBits (n : Z) : Z :=
  if n =? 0 then 0 else countBits_loop 64 n 1.

(** ** The drand48-style generator of rng.h *)

Definition RNG_A : Z := 0x5DEECE66D.
Definition RNG_C : Z := 0xB.
Definition RNG_M : Z := 2 ^ 48 - 1.

(** [rng_next state] is the new state and the value returned. *)
Definition rng_next (state : Z) : Z * Z :=
  let state' := Z.land (u64 (u64 (RNG_A * state) + RNG_C)) RNG_M in
  (state', Z.shiftr state' 16).

Definition rng_seed (seed : Z) : Z := u64 (u64 (Z.shiftl seed 16) + 0x330E).

(** ** The Random class of random.h *)

Record Random := mkRandom { r_seed : Z }.

Definition Random_init : Random := mkRandom 1.
Definition Random_set_seed (s : Z) (_ : Random) : Random := mkRandom s.

Definition Random_next (limit : Z) (r : Random) : res (Z * Random) :=
  let s := u32 (u32 (r_seed r * 1103515245) + 12345) in
  check (negb (limit =? 0)) DivByZero;;
  Ok ((s / 65536) `mod` limit, mkRandom s).

(** ** ModuloNum *)

Record ModuloNum := mkModuloNum { mn_value : Z; mn_max_value : Z }.

Definition mn_add (a b : ModuloNum) : res ModuloNum :=
  check (mn_max_value a =? mn_max_value b) AssertFailed;;
  check (negb (mn_max_value a =? 0)) DivByZero;;
  Ok (mkModuloNum (u32 (mn_value a + mn_value b) `mod` mn_max_value a) (mn_max_value a)).

Definition mn_sub (a b : ModuloNum) : res ModuloNum :=
  check (mn_max_value a =? mn_max_value b) AssertFailed;;
  if mn_value b <=? mn_value a
  then Ok (mkModuloNum (u32 (mn_value a - mn_value b)) (mn_max_value a))
  else Ok (mkModuloNum (u32 (u32 (mn_max_value a - mn_value b) + mn_value a)) (mn_max_value a)).

Definition mn_add_int (a : ModuloNum) (v : Z) : res ModuloNum :=
  check (negb (mn_max_value a =? 0)) DivByZero;;
  mn_add a (mkModuloNum (v `mod` mn_max_value a) (mn_max_value a)).

Definition mn_sub_int (a : ModuloNum) (v : Z) : res ModuloNum :=
  check (negb (mn_max_value a =? 0)) DivByZero;;
  mn_sub a (mkModuloNum (v `mod` mn_max_value a) (mn_max_value a)).

Definition mn_eqb (a b : ModuloNum) : bool :=
  (mn_value a =? mn_value b) && (mn_max_value a =? mn_max_value b).

(** ** Lemmas *)

(** One halving step of [floorLog2]: the mask selects the upper half of a
    [2k]-bit value, and the step moves to that half when it is not empty. *)
Lemma log2_half_step k n :
  0 < k -> 0 < n < 2 ^ (2 * k) ->
  let hi := negb (Z.land n (Z.shiftl (Z.ones k) k) =? 0) in
  let n' := if hi then Z.shiftr n k else n in
  0 < n' < 2 ^ k /\ Z.log2 n = (if hi then k else 0) + Z.log2 n'.
Proof.
  intros Hk Hn. cbn zeta.
  assert (Hp : 0 < 2 ^ k) by (apply Z.pow_pos_nonneg; lia).
  assert (H2k : 2 ^ (2 * k) = 2 ^ k * 2 ^ k) by (rewrite <- Z.pow_add_r by lia; f_equal; lia).
  assert (E : Z.land n (Z.shiftl (Z.ones k) k) = Z.shiftl (Z.shiftr n k) k).
  { apply Z.bits_inj'. intros i Hi. rewrite Z.land_spec, !Z.shiftl_spec by done.
    destruct (decide (i < k)).
    - rewrite !(Z.testbit_neg_r _ (i - k)) by lia. by rewrite andb_false_r.
    - rewrite Z.shiftr_spec by lia. replace (i - k + k) with i by lia.
      destruct (decide (i - k < k)).
      + by rewrite Z.ones_spec_low, andb_true_r by lia.
      + rewrite Z.ones_spec_high, andb_false_r by lia. symmetry.
        apply (proj1 (in_range_bits (2 * k) n ltac:(lia))); [split; lia|lia]. }
  rewrite E, Z.shiftl_mul_pow2, Z.shiftr_div_pow2 by lia.
  pose proof (Z.div_mod n (2 ^ k) ltac:(lia)) as Hd.
  pose proof (Z.mod_pos_bound n (2 ^ k) Hp).
  destruct (Z.eqb_spec (n / 2 ^ k * 2 ^ k) 0) as [H0|H0]; cbn.
  - assert (n / 2 ^ k = 0) by nia. split; [nia|done].
  - assert (0 < n / 2 ^ k) by (assert (0 <= n / 2 ^ k) by (apply Z.div_pos; lia); nia).
    split. { split; [done|]. apply Z.div_lt_upper_bound; lia. }
    pose proof (Z.log2_shiftr n k ltac:(lia)) as Hl. rewrite Z.shiftr_div_pow2 in Hl by lia.
    rewrite Hl. assert (k <= Z.log2 n); [|lia].
    apply Z.log2_le_pow2; [lia|]. nia.
Qed.

(** Run one halving step: [mask] selects the upper [k] bits of [n < 2^(2k)]. *)
Ltac halve k mask n :=
  match goal with
  | H : 0 < n < _ |- _ =>
      let H' := fresh "Hn" in let E := fresh "E" in
      pose proof (log2_half_step k n ltac:(lia) H) as [H' E];
      change (Z.shiftl (Z.ones k) k) with mask in *;
      destruct (negb (Z.land n mask =? 0)); cbv iota in H', E |- *; rewrite E; clear E
  end.

Lemma floorLog2_log2 n : 0 < n < 2 ^ 32 -> floorLog2 n = Z.log2 n.
Proof.
  intros H. unfold floorLog2. destruct (Z.eqb_spec n 0); [lia|]. cbn zeta.
  halve 16 0xffff0000 n.
  all: match goal with H : 0 < ?m < 2 ^ 16 |- _ => halve 8 0x0000ff00 m end.
  all: match goal with H : 0 < ?m < 2 ^ 8 |- _ => halve 4 0x000000f0 m end.
  all: match goal with H : 0 < ?m < 2 ^ 4 |- _ => halve 2 0x0000000c m end.
  all: match goal with H : 0 < ?m < 2 ^ 2 |- _ => halve 1 0x00000002 m end.
  all: match goal with H : 0 < ?m < 2 ^ 1 |- _ =>
         assert (m = 1) as -> by (change (2 ^ 1) with 2 in H; lia) end; cbn; lia.
Qed.

Lemma floorLog2_pow2 k : 0 <= k < 32 -> floorLog2 (2 ^ k) = k.
Proof.
  intros. rewrite floorLog2_log2; [apply Z.log2_pow2; lia|].
  split; [apply Z.pow_pos_nonneg; lia|]. apply Z.pow_lt_mono_r; lia.
Qed.

Lemma ceilLog2_log2_up n : 0 < n < 2 ^ 32 -> ceilLog2 n = Z.log2_up n.
Proof.
  intros H. unfold ceilLog2. rewrite wrap_small by (split; lia).
  destruct (decide (n = 1)) as [->|]; [done|].
  rewrite floorLog2_log2 by lia. unfold Z.log2_up.
  destruct (Z.compare_spec 1 n); try lia. by rewrite <- Z.sub_1_r.
Qed.

(** Number of set bits of a non-negative integer. *)
Fixpoint pos_popcount (p : positive) : Z :=
  match p with xH => 1 | xO q => pos_popcount q | xI q => 1 + pos_popcount q end.
Definition popcount (n : Z) : Z := match n with Zpos p => pos_popcount p | _ => 0 end.

Lemma popcount_double n : 0 <= n -> popcount (2 * n) = popcount n.
Proof. by destruct n. Qed.

Lemma popcount_nonneg n : 0 <= popcount n.
Proof. destruct n as [|p|]; cbn; try lia. induction p; cbn; lia. Qed.

Lemma popcount_0 n : 0 <= n -> popcount n = 0 -> n = 0.
Proof.
  destruct n as [|p|]; cbn; try lia. intros _. enough (0 < pos_popcount p) by lia.
  induction p; cbn; lia.
Qed.

Lemma land_double a b : Z.land (2 * a) (2 * b) = 2 * Z.land a b.
Proof.
  rewrite !(Z.mul_comm 2), <- !(Z.shiftl_mul_pow2 _ 1) by lia. by rewrite Z.shiftl_land.
Qed.

(** [n & (n - 1)] clears the least significant set bit. *)
Lemma popcount_clear_lowest p :
  0 <= Z.land (Zpos p) (Zpos p - 1) /\
  popcount (Z.land (Zpos p) (Zpos p - 1)) = popcount (Zpos p) - 1.
Proof.
  induction p as [p IH|p IH|].
  - replace (Zpos p~1 - 1) with (Zpos p~0) by lia.
    assert (E : Z.land (Zpos p~1) (Zpos p~0) = Zpos p~0).
    { replace (Zpos p~1) with (2 * Zpos p + 1) by lia. replace (Zpos p~0) with (2 * Zpos p) by lia.
      apply Z.bits_inj'. intros i Hi. rewrite Z.land_spec. destruct (decide (i = 0)) as [->|].
      - by rewrite Z.testbit_even_0, andb_false_r.
      - replace i with (Z.succ (i - 1)) by lia.
        rewrite Z.testbit_odd_succ, Z.testbit_even_succ by lia. apply andb_diag. }
    rewrite E. cbn. lia.
  - destruct IH as [IH1 IH2]. replace (Zpos p~0) with (2 * Zpos p) by lia.
    assert (E : Z.land (2 * Zpos p) (2 * Zpos p - 1) = 2 * Z.land (Zpos p) (Zpos p - 1)).
    { apply Z.bits_inj'. intros i Hi. rewrite Z.land_spec.
      destruct (decide (i = 0)) as [->|].
      - by rewrite !Z.testbit_even_0.
      - replace i with (Z.succ (i - 1)) by lia. rewrite !Z.testbit_even_succ by lia.
        replace (2 * Zpos p - 1) with (2 * (Zpos p - 1) + 1) by lia.
        rewrite Z.testbit_odd_succ by lia. by rewrite <- Z.land_spec. }
    rewrite E, !popcount_double by lia. split; lia.
  - done.
Qed.

Lemma clear_lowest_u64 n :
  0 < n < 2 ^ 64 ->
  let n' := Z.land n (u64 (n - 1)) in
  0 <= n' < 2 ^ 64 /\ popcount n' = popcount n - 1.
Proof.
  intros H n'. unfold n'. rewrite wrap_small by (split; lia).
  destruct n as [|p|]; try lia. destruct (popcount_clear_lowest p) as [H1 H2].
  split; [|done]. assert (in_range 64 (Z.land (Zpos p) (Zpos p - 1))) as [? ?]; [|lia].
  apply land_range; [lia|split; lia].
Qed.

Lemma countBits_loop_popcount fuel n r :
  0 < n < 2 ^ 64 -> popcount n <= Z.of_nat fuel -> 0 <= r -> r + popcount n <= 2 ^ 64 ->
  countBits_loop fuel n r = r + popcount n - 1.
Proof.
  revert n r. induction fuel as [|fuel IH]; intros n r Hn Hf Hr Hb.
  { pose proof (popcount_nonneg n). pose proof (popcount_0 n). lia. }
  cbn [countBits_loop]. destruct (clear_lowest_u64 n Hn) as [H1 H2].
  destruct (Z.eqb_spec (Z.land n (u64 (n - 1))) 0) as [E|E].
  - rewrite E in H2. cbn in H2. lia.
  - assert (0 < popcount (Z.land n (u64 (n - 1)))).
    { pose proof (popcount_nonneg (Z.land n (u64 (n - 1)))).
      pose proof (popcount_0 (Z.land n (u64 (n - 1)))). lia. }
    rewrite (wrap_small 64 (r + 1)) by (split; lia). rewrite IH by lia. lia.
Qed.

Lemma popcount_bound n k : 0 <= n < 2 ^ Z.of_nat k -> popcount n <= Z.of_nat k.
Proof.
  revert n. induction k as [|k IH]; intros n H; [by replace n with 0 by (cbn in H; lia)|].
  rewrite Nat2Z.inj_succ, Z.pow_succ_r in H by lia.
  destruct n as [|p|]; try (cbn; lia). destruct p as [q|q|]; cbn.
  - specialize (IH (Zpos q) ltac:(lia)). cbn in IH. lia.
  - specialize (IH (Zpos q) ltac:(lia)). cbn in IH. lia.
  - lia.
Qed.

Lemma countBits_popcount n : 0 <= n < 2 ^ 64 -> countBits n = popcount n.
Proof.
  intros H. unfold countBits. destruct (Z.eqb_spec n 0) as [->|]; [done|].
  pose proof (popcount_bound n 64 H).
  rewrite countBits_loop_popcount by lia. lia.
Qed.

Lemma rng_next_range s : in_range 32 (snd (rng_next s)).
Proof.
  unfold rng_next. cbn [snd].
  pose proof (land_ones_range 48 (u64 (u64 (RNG_A * s) + RNG_C)) ltac:(lia)) as [H1 H2].
  fold RNG_M in *. split; [by apply Z.shiftr_nonneg|].
  rewrite Z.shiftr_div_pow2 by lia. apply Z.div_lt_upper_bound; [lia|].
  by change (2 ^ 16 * 2 ^ 32) with (2 ^ 48).
Qed.

Lemma Random_next_Ok limit r :
  0 < limit -> exists v r', Random_next limit r = Ok (v, r') /\ 0 <= v < limit.
Proof.
  intros. unfold Random_next. destruct (Z.eqb_spec limit 0); [lia|]. cbn.
  eexists _, _. split; [done|]. by apply Z.mod_pos_bound.
Qed.

(** A [ModuloNum] is well formed when its value is below its modulus. *)
Definition mn_wf (a : ModuloNum) : Prop :=
  0 <= mn_value a < mn_max_value a /\ mn_max_value a <= 2 ^ 31.

Lemma mn_add_wf a b :
  mn_wf a -> mn_wf b -> mn_max_value a = mn_max_value b ->
  mn_add a b = Ok (mkModuloNum ((mn_value a + mn_value b) `mod` mn_max_value a) (mn_max_value a)).
Proof.
  intros [Ha ?] [Hb ?] E. unfold mn_add. rewrite E, Z.eqb_refl. cbn.
  destruct (Z.eqb_spec (mn_max_value b) 0); [lia|]. cbn.
  by rewrite wrap_small by (split; lia).
Qed.

Lemma mn_sub_wf a b :
  mn_wf a -> mn_wf b -> mn_max_value a = mn_max_value b ->
  mn_sub a b = Ok (mkModuloNum ((mn_value a - mn_value b) `mod` mn_max_value a) (mn_max_value a)).
Proof.
  intros [Ha ?] [Hb ?] E. unfold mn_sub. rewrite E, Z.eqb_refl. cbn.
  destruct (Z.leb_spec (mn_value b) (mn_value a)); do 2 f_equal.
  - rewrite wrap_small, Z.mod_small by (split; lia). done.
  - rewrite (wrap_small _ (mn_max_value b - mn_value b)) by (split; lia).
    rewrite wrap_small by (split; lia).
    apply Z.mod_unique with (-1); lia.
Qed.
