(* ===== verification/CacheBase.v ===== *)
(** * Address arithmetic of the caches

    [AddressHomeLookup] ([address_home_lookup.cc]) distributes the blocks of
    the address space over the home nodes; [CacheBase] ([cache_base.cc]) splits
    an address into tag, set index and block offset, with seven set-index hash
    functions. *)

From stdpp Require Import base tactics list numbers strings.
From Stdlib Require Import ZArith Lia.
From S2P Require Import Prelude Utils.
Local Open Scope Z_scope.

(** ** AddressHomeLookup *)

Record AddressHomeLookup := mkAHL {
  m_ahl_param : Z;
  m_ahl_mask : Z;
  m_core_list : list Z;
  m_total_modules : Z;
  ahl_cache_block_size : Z
}.

Definition AddressHomeLookup_new (ahl_param : Z) (core_list : list Z) (cache_block_size : Z)
  : res AddressHomeLookup :=
  check ((0 <=? ahl_param) && (ahl_param <? 31)) BadShift;;
  check (s32 cache_block_size <=? Z.shiftl 1 ahl_param) LogError;;
  Ok (mkAHL ahl_param (u64 (u64 (Z.shiftl 1 ahl_param) - 1)) core_list
        (u32 (Z.of_nat (length core_list))) cache_block_size).

Definition getHome (a : AddressHomeLookup) (address : Z) : res Z :=
  check (negb (m_total_modules a =? 0)) DivByZero;;
  let module_num := s32 (Z.shiftr address (m_ahl_param a) `mod` m_total_modules a) in
  check ((0 <=? module_num) && (module_num <? s32 (m_total_modules a))) LogError;;
  rd (m_core_list a) (Z.to_nat module_num).

Definition getLinearBlock (a : AddressHomeLookup) (address : Z) : res Z :=
  check (negb (m_total_modules a =? 0)) DivByZero;;
  Ok (Z.shiftr address (m_ahl_param a) / m_total_modules a).

Definition getLinearAddress (a : AddressHomeLookup) (address : Z) : res Z :=
  blk ← getLinearBlock a address;
  Ok (Z.lor (u64 (Z.shiftl blk (m_ahl_param a))) (Z.land address (m_ahl_mask a))).

(** ** CacheBase *)

Inductive access_t := INVALID_ACCESS_TYPE | LOAD | STORE.
Inductive cache_t := INVALID_CACHE_TYPE | PR_L1_CACHE | PR_L2_CACHE | SHARED_CACHE.
Inductive hash_t :=
| INVALID_HASH_TYPE | HASH_MASK | HASH_MOD | HASH_RNG1_MOD | HASH_RNG2_MOD
| HASH_PRIME_DIS | HASH_XOR_MOD | HASH_MER_MOD.
Inductive ReplacementPolicy_t :=
| ROUND_ROBIN | LRU | LRU_QBS | NRU | MRU | NMRU | PLRU | SRRIP | SRRIP_QBS | RANDOM
| MPLRU | CHIRP.

#[global] Instance access_t_eq_dec : EqDecision access_t.
Proof. solve_decision. Defined.
#[global] Instance hash_t_eq_dec : EqDecision hash_t.
Proof. solve_decision. Defined.

Record CacheBase := mkCacheBase {
  m_name : string;
  m_cache_size : Z;
  cb_associativity : Z;
  m_blocksize : Z;
  m_hash : hash_t;
  m_num_sets : Z;
  m_ahl : option AddressHomeLookup;
  m_log_blocksize : Z;
  m_log_num_sets : Z
}.

Definition CacheBase_new (name : string) (num_sets associativity cache_block_size : Z)
    (hash : hash_t) (ahl : option AddressHomeLookup) : res CacheBase :=
  check (negb (num_sets =? 0)) BadShift;;
  check ((num_sets =? u64 (Z.shiftl 1 (floorLog2 num_sets)))
         || negb (bool_decide (hash = HASH_MASK))) LogError;;
  Ok (mkCacheBase name (u64 (u64 (num_sets * associativity) * cache_block_size))
        associativity cache_block_size hash num_sets ahl
        (u32 (floorLog2 cache_block_size)) (u32 (floorLog2 num_sets))).

Definition parseAddressHash (hash_name : string) : res hash_t :=
  if bool_decide (hash_name = "mask"%string) then Ok HASH_MASK
  else if bool_decide (hash_name = "mod"%string) then Ok HASH_MOD
  else if bool_decide (hash_name = "rng1_mod"%string) then Ok HASH_RNG1_MOD
  else if bool_decide (hash_name = "rng2_mod"%string) then Ok HASH_RNG2_MOD
  else if bool_decide (hash_name = "prime_dis"%string) then Ok HASH_PRIME_DIS
  else if bool_decide (hash_name = "xor_mod"%string) then Ok HASH_XOR_MOD
  else if bool_decide (hash_name = "mersenne_mod"%string) then Ok HASH_MER_MOD
  else Err LogError.

(** C++ [%] on unsigned operands. *)
Definition umod (x y : Z) : res Z := check (negb (y =? 0)) DivByZero;; Ok (x `mod` y).

(** The switch on [m_hash] that computes [set_index] from the block number. *)
Definition hash_set_index (c : CacheBase) (block_num : Z) : res Z :=
  let num_sets := m_num_sets c in
  match m_hash c with
  | HASH_MASK => Ok (u32 (Z.land block_num (u32 (num_sets - 1))))
  | HASH_MOD => r ← umod block_num num_sets; Ok (u32 r)
  | HASH_RNG1_MOD =>
      let state := rng_seed block_num in
      r ← umod (snd (rng_next state)) num_sets; Ok (u32 r)
  | HASH_RNG2_MOD =>
      let state := rng_seed block_num in
      let state := fst (rng_next state) in
      r ← umod (snd (rng_next state)) num_sets; Ok (u32 r)
  | HASH_PRIME_DIS =>
      si ← umod block_num num_sets;
      let Ti := Z.shiftr block_num (m_log_num_sets c) in
      let rho := 3 in
      r ← umod (u64 (u64 (rho * Ti) + si)) num_sets; Ok (u32 r)
  | HASH_XOR_MOD =>
      si ← umod block_num num_sets;
      ti ← umod (Z.shiftr block_num (m_log_num_sets c)) num_sets;
      Ok (u32 (Z.lxor si ti))
  | HASH_MER_MOD => r ← umod block_num (u32 (num_sets - 1)); Ok (u32 r)
  | INVALID_HASH_TYPE => Err LogError
  end.

(** [splitAddress(addr, tag, set_index)] *)
Definition splitAddress (c : CacheBase) (addr : Z) : res (Z * Z) :=
  check (m_log_blocksize c <? 64) BadShift;;
  let tag := Z.shiftr addr (m_log_blocksize c) in
  linearAddress ← match m_ahl c with Some a => getLinearAddress a addr | None => Ok addr end;
  let block_num := Z.shiftr linearAddress (m_log_blocksize c) in
  set_index ← hash_set_index c block_num;
  Ok (tag, set_index).

(** [splitAddressTLB(addr, tag, set_index, page_size)] *)
Definition splitAddressTLB (c : CacheBase) (addr : Z) (page_size : Z) : res (Z * Z) :=
  check ((0 <=? page_size) && (page_size <? 64)) BadShift;;
  let tag := Z.shiftr addr page_size in
  let linearAddress := addr in
  let block_num := Z.shiftr linearAddress page_size in
  set_index ← hash_set_index c block_num;
  Ok (tag, set_index).

(** The overload that also returns the block offset. *)
Definition splitAddressOffset (c : CacheBase) (addr : Z) : res (Z * Z * Z) :=
  let block_offset := u32 (Z.land addr (u32 (m_blocksize c - 1))) in
  ts ← splitAddress c addr;
  Ok (ts, block_offset).

Definition splitAddressTLBOffset (c : CacheBase) (addr page_size : Z) : res (Z * Z * Z) :=
  let block_offset := 0 in
  ts ← splitAddressTLB c addr page_size;
  Ok (ts, block_offset).

Definition tagToAddress (c : CacheBase) (tag : Z) : Z := u64 (Z.shiftl tag (m_log_blocksize c)).
Definition tagToAddressTLB (tag pagesize : Z) : Z := u64 (Z.shiftl tag pagesize).

(** ** Well-formed parameters *)

(** The look-up table of a home lookup with at least one module and a shift that
    fits the address. *)
Record ahl_wf (a : AddressHomeLookup) : Prop := {
  ahl_wf_param : 0 <= m_ahl_param a < 31;
  ahl_wf_mask : m_ahl_mask a = 2 ^ m_ahl_param a - 1;
  ahl_wf_total : m_total_modules a = Z.of_nat (length (m_core_list a));
  ahl_wf_nonempty : 0 < m_total_modules a < 2 ^ 31
}.

(** Parameters a [CacheBase] constructor call leaves behind for a power-of-two
    block size. *)
Record cb_wf (c : CacheBase) : Prop := {
  cb_wf_block : exists b, 0 <= b < 32 /\ m_blocksize c = 2 ^ b /\ m_log_blocksize c = b;
  cb_wf_sets : 0 < m_num_sets c < 2 ^ 32;
  cb_wf_logsets : m_log_num_sets c = Z.log2 (m_num_sets c);
  cb_wf_mask : m_hash c = HASH_MASK -> m_num_sets c = 2 ^ Z.log2 (m_num_sets c);
  cb_wf_valid : m_hash c <> INVALID_HASH_TYPE;
  cb_wf_ahl : forall a, m_ahl c = Some a -> ahl_wf a /\ m_log_blocksize c <= m_ahl_param a
}.

(** The configurations in which the hash is a function into the sets: XOR
    indexing needs a power of two, Mersenne indexing at least two sets. *)
Definition hash_total (c : CacheBase) : Prop :=
  match m_hash c with
  | HASH_XOR_MOD => m_num_sets c = 2 ^ Z.log2 (m_num_sets c)
  | HASH_MER_MOD => 2 <= m_num_sets c
  | _ => True
  end.

(** ** Lemmas *)

Lemma AddressHomeLookup_new_wf p cores bs a :
  0 < Z.of_nat (length cores) < 2 ^ 31 ->
  AddressHomeLookup_new p cores bs = Ok a -> ahl_wf a.
Proof.
  unfold AddressHomeLookup_new. intros Hl H. inv_res.
  apply andb_true_iff in E as [E1 E2]. apply Z.leb_le in E1. apply Z.ltb_lt in E2.
  assert (0 < 2 ^ p < 2 ^ 31).
  { split; [by apply Z.pow_pos_nonneg|]. apply Z.pow_lt_mono_r; lia. }
  assert (Z.shiftl 1 p = 2 ^ p) as Hs by (rewrite Z.shiftl_mul_pow2 by done; lia).
  split; cbn.
  - lia.
  - rewrite Hs. by rewrite !wrap_small by (unfold in_range; rewrite ?wrap_small by (split; lia); lia).
  - rewrite wrap_small by (split; lia). done.
  - rewrite wrap_small by (split; lia). lia.
Qed.

Lemma umod_Ok x y : y <> 0 -> umod x y = Ok (x `mod` y).
Proof. intros. unfold umod. by destruct (Z.eqb_spec y 0). Qed.

Lemma mod_u32_bound x n : 0 < n < 2 ^ 32 -> u32 (x `mod` n) = x `mod` n /\ 0 <= x `mod` n < n.
Proof.
  intros. pose proof (Z.mod_pos_bound x n ltac:(lia)). split; [|done].
  apply wrap_small. split; lia.
Qed.

(** Every hash function yields an index of a set. *)
Lemma hash_set_index_bound c b :
  cb_wf c -> hash_total c ->
  exists s, hash_set_index c b = Ok s /\ 0 <= s < m_num_sets c.
Proof.
  intros Hc Ht. pose proof (cb_wf_sets c Hc) as Hn. unfold hash_set_index, hash_total in *.
  assert (Hm : forall x, umod x (m_num_sets c) = Ok (x `mod` m_num_sets c))
    by (intros; apply umod_Ok; lia).
  destruct (m_hash c) eqn:Eh; repeat (rewrite Hm; cbn [mbind res_bind]).
  all: try (match goal with |- context [u32 (?x `mod` _)] =>
    destruct (mod_u32_bound x _ Hn) as [-> ?] end; by eexists).
  - by destruct (cb_wf_valid c Hc).
  - eexists; split; [done|]. pose proof (cb_wf_mask c Hc Eh) as Hp.
    set (k := Z.log2 (m_num_sets c)) in *. assert (0 <= k) by apply Z.log2_nonneg.
    rewrite (wrap_small 32 (m_num_sets c - 1)) by (split; lia). rewrite Hp.
    rewrite land_pow2_pred by done. rewrite <- Hp.
    by destruct (mod_u32_bound b _ Hn) as [-> ?].
  - eexists; split; [done|]. set (k := Z.log2 (m_num_sets c)) in *.
    assert (0 <= k) by apply Z.log2_nonneg.
    match goal with |- context [Z.lxor ?x ?y] => assert (in_range k (Z.lxor x y)) as [? ?] end.
    { apply lxor_range; [done|..]; unfold in_range; rewrite <- Ht; apply Z.mod_pos_bound; lia. }
    rewrite <- Ht in *. rewrite wrap_small by (split; lia). lia.
  - rewrite (wrap_small 32 (m_num_sets c - 1)) by (split; lia).
    rewrite umod_Ok by lia. cbn. eexists; split; [done|].
    destruct (mod_u32_bound b (m_num_sets c - 1) ltac:(lia)) as [-> ?]. lia.
Qed.

(** Adding two values whose bits do not overlap. *)
Lemma lor_shift_add x y p : 0 <= p -> 0 <= y < 2 ^ p -> Z.lor (x * 2 ^ p) y = x * 2 ^ p + y.
Proof.
  intros Hp Hy. symmetry. rewrite <- Z.shiftl_mul_pow2 by done.
  apply Z.add_nocarry_lor, Z.bits_inj'. intros i Hi.
  rewrite Z.land_spec, Z.shiftl_spec, Z.testbit_0_l by done.
  destruct (decide (i < p)).
  - by rewrite Z.testbit_neg_r by lia.
  - rewrite (proj1 (in_range_bits p y Hp) Hy i) by lia. apply andb_false_r.
Qed.

(** The linear address keeps the offset below [2^ahl_param] and divides the
    block number by the number of modules. *)
Lemma getLinearAddress_eq a addr :
  ahl_wf a -> in_range 64 addr ->
  let p := m_ahl_param a in
  getLinearAddress a addr =
    Ok (addr / 2 ^ p / m_total_modules a * 2 ^ p + addr `mod` 2 ^ p).
Proof.
  intros [Hp Hmask _ Ht] Haddr p. fold p in Hp, Hmask.
  assert (H2p : 0 < 2 ^ p) by (apply Z.pow_pos_nonneg; lia).
  unfold getLinearAddress, getLinearBlock. destruct (Z.eqb_spec (m_total_modules a) 0); [lia|].
  cbn. f_equal. fold p. rewrite Hmask, land_pow2_pred by lia.
  rewrite Z.shiftr_div_pow2, Z.shiftl_mul_pow2 by lia.
  pose proof (Z.mod_pos_bound addr (2 ^ p) H2p).
  assert (0 <= addr / 2 ^ p) by (apply Z.div_pos; [apply Haddr|done]).
  assert (0 <= addr / 2 ^ p / m_total_modules a) by (apply Z.div_pos; lia).
  assert (addr / 2 ^ p / m_total_modules a <= addr / 2 ^ p) by (apply Z.div_le_upper_bound; nia).
  pose proof (Z.div_mod addr (2 ^ p) ltac:(lia)). destruct Haddr.
  rewrite wrap_small by (split; nia). by apply lor_shift_add; lia.
Qed.

(** Addresses of one block have one linear block number. *)
Lemma linear_block_same a l addr1 addr2 :
  ahl_wf a -> 0 <= l <= m_ahl_param a -> in_range 64 addr1 -> in_range 64 addr2 ->
  addr1 / 2 ^ l = addr2 / 2 ^ l ->
  exists x y, getLinearAddress a addr1 = Ok x /\ getLinearAddress a addr2 = Ok y /\
    Z.shiftr x l = Z.shiftr y l.
Proof.
  intros Ha Hl H1 H2 E. rewrite !getLinearAddress_eq by done.
  eexists _, _. split_and!; [done..|]. rewrite !Z.shiftr_div_pow2 by lia.
  set (p := m_ahl_param a) in *. set (n := m_total_modules a).
  assert (0 < 2 ^ l) by (apply Z.pow_pos_nonneg; lia).
  assert (0 < 2 ^ (p - l)) by (apply Z.pow_pos_nonneg; lia).
  assert (Hpl : 2 ^ p = 2 ^ (p - l) * 2 ^ l) by (rewrite <- Z.pow_add_r by lia; f_equal; lia).
  assert (Hd : forall z, z / 2 ^ p = z / 2 ^ l / 2 ^ (p - l)).
  { intros. rewrite Z.div_div by lia. f_equal. lia. }
  assert (Hm : forall z, z `mod` 2 ^ p / 2 ^ l = (z / 2 ^ l) `mod` 2 ^ (p - l)).
  { intros. rewrite Hpl, (Z.mul_comm (2 ^ (p - l))). rewrite Z.rem_mul_r by lia.
    rewrite (Z.mul_comm (2 ^ l)), Z.div_add by lia.
    rewrite Z.div_small by (by apply Z.mod_pos_bound). lia. }
  assert (Hs : forall z b, (b * 2 ^ p + z `mod` 2 ^ p) / 2 ^ l =
                 b * 2 ^ (p - l) + (z / 2 ^ l) `mod` 2 ^ (p - l)).
  { intros z b. rewrite <- Hm. replace (b * 2 ^ p) with (b * 2 ^ (p - l) * 2 ^ l) by (rewrite Hpl; lia).
    by rewrite Z.add_comm, Z.div_add, Z.add_comm by lia. }
  by rewrite !Hs, !Hd, E.
Qed.

Lemma splitAddress_total c addr :
  cb_wf c -> hash_total c -> in_range 64 addr ->
  exists s, splitAddress c addr = Ok (Z.shiftr addr (m_log_blocksize c), s) /\
    0 <= s < m_num_sets c.
Proof.
  intros Hc Ht Ha. unfold splitAddress.
  destruct (cb_wf_block c Hc) as (b & Hb & _ & ->).
  rewrite (proj2 (Z.ltb_lt b 64)) by lia. cbn [check mbind res_bind].
  assert (exists x, match m_ahl c with Some a => getLinearAddress a addr | None => Ok addr end = Ok x)
    as [x ->].
  { destruct (m_ahl c) as [a|] eqn:Ea; [|by eexists].
    destruct (cb_wf_ahl c Hc a Ea). rewrite getLinearAddress_eq by done. by eexists. }
  cbn [mbind res_bind].
  destruct (hash_set_index_bound c (Z.shiftr x b) Hc Ht) as (s & -> & Hs). by exists s.
Qed.

Lemma splitAddressTLB_total c addr ps :
  cb_wf c -> hash_total c -> 0 <= ps < 64 ->
  exists s, splitAddressTLB c addr ps = Ok (Z.shiftr addr ps, s) /\ 0 <= s < m_num_sets c.
Proof.
  intros Hc Ht Hps. unfold splitAddressTLB.
  rewrite (proj2 (Z.leb_le 0 ps)), (proj2 (Z.ltb_lt ps 64)) by lia. cbn [check mbind res_bind andb].
  destruct (hash_set_index_bound c (Z.shiftr addr ps) Hc Ht) as (s & -> & Hs). by exists s.
Qed.

Lemma CacheBase_new_wf name sets assoc b hash c :
  0 <= b < 32 -> 0 < sets < 2 ^ 32 -> hash <> INVALID_HASH_TYPE ->
  CacheBase_new name sets assoc (2 ^ b) hash None = Ok c ->
  cb_wf c /\ m_num_sets c = sets /\ m_log_blocksize c = b /\ m_hash c = hash.
Proof.
  intros Hb Hs Hh H. unfold CacheBase_new in H. inv_res.
  assert (0 <= Z.log2 sets < 32).
  { split; [apply Z.log2_nonneg|]. apply Z.log2_lt_pow2; lia. }
  rewrite (floorLog2_log2 sets) in * by lia. rewrite (floorLog2_pow2 b) in * by done.
  split_and!; cbn; rewrite ?wrap_small by (split; lia); try done.
  split; cbn; rewrite ?wrap_small by (split; lia); try done; try lia.
  - by exists b.
  - intros ->. apply orb_true_iff in E0 as [E0|E0]; [|by rewrite bool_decide_true in E0].
    apply Z.eqb_eq in E0. rewrite Z.shiftl_mul_pow2, Z.mul_1_l in E0 by lia.
    rewrite wrap_small in E0; [done|]. split; [apply Z.pow_nonneg; lia|].
    apply Z.pow_lt_mono_r; lia.
Qed.

(** ** Properties *)

(** [AddressHomeLookup] gives every address of its node a unique linear
    address: two 64-bit addresses with the same home and the same linear
    address are the same address, when no core is listed twice. *)
Theorem home_linear_unique a addr1 addr2 h l :
  ahl_wf a -> NoDup (m_core_list a) -> in_range 64 addr1 -> in_range 64 addr2 ->
  getHome a addr1 = Ok h -> getHome a addr2 = Ok h ->
  getLinearAddress a addr1 = Ok l -> getLinearAddress a addr2 = Ok l ->
  addr1 = addr2.
Proof.
  intros Ha Hnd H1 H2 Hh1 Hh2. rewrite !getLinearAddress_eq by done. intros L1 L2.
  injection L1 as L1. injection L2 as L2.
  destruct Ha as [Hp _ Hlen Ht]. set (p := m_ahl_param a) in *. set (n := m_total_modules a) in *.
  assert (H2p : 0 < 2 ^ p) by (apply Z.pow_pos_nonneg; lia).
  assert (Hmod : forall ad, getHome a ad = Ok h ->
    m_core_list a !! Z.to_nat ((ad / 2 ^ p) `mod` n) = Some h).
  { intros ad Hg. unfold getHome in Hg. fold p n in Hg. inv_res. apply rd_Ok in Hg.
    rewrite Z.shiftr_div_pow2 in Hg by lia. pose proof (Z.mod_pos_bound (ad / 2 ^ p) n ltac:(lia)).
    rewrite swrap_small in Hg by (change (2 ^ (32 - 1)) with (2 ^ 31); lia). done. }
  apply Hmod in Hh1, Hh2. pose proof (NoDup_lookup _ _ _ _ Hnd Hh1 Hh2) as Heq.
  pose proof (Z.mod_pos_bound (addr1 / 2 ^ p) n ltac:(lia)).
  pose proof (Z.mod_pos_bound (addr2 / 2 ^ p) n ltac:(lia)).
  apply Z2Nat.inj in Heq; [|lia..].
  pose proof (Z.mod_pos_bound addr1 (2 ^ p) H2p). pose proof (Z.mod_pos_bound addr2 (2 ^ p) H2p).
  assert (addr1 / 2 ^ p / n = addr2 / 2 ^ p / n) by nia.
  pose proof (Z.div_mod (addr1 / 2 ^ p) n ltac:(lia)). pose proof (Z.div_mod (addr2 / 2 ^ p) n ltac:(lia)).
  pose proof (Z.div_mod addr1 (2 ^ p) ltac:(lia)). pose proof (Z.div_mod addr2 (2 ^ p) ltac:(lia)).
  nia.
Qed.

(** A home lookup over three nodes interleaved at 64-byte blocks. *)
Definition ahl3 : AddressHomeLookup := mkAHL 6 63 [10; 20; 30] 3 64.

Lemma ahl3_wf : ahl_wf ahl3.
Proof. split; cbn; lia. Qed.

Lemma home_linear_unique_witness :
  getHome ahl3 0x1234 = Ok 10 /\ getLinearAddress ahl3 0x1234 = Ok 0x634 /\ 0x1234 = 0x1234.
Proof.
  split_and!; [by vm_compute..|].
  apply (home_linear_unique ahl3 0x1234 0x1234 10 0x634);
    [apply ahl3_wf|by apply (bool_decide_unpack _)|by vm_compute..].
Defined.

(** Every set-index hash maps every address to a set of the cache, so no
    cache operation indexes [m_sets] out of range. The hypothesis [hash_total] is
    what the constructor does not check: a power of two for XOR indexing and two
    sets for Mersenne indexing. *)
Theorem splitAddress_in_range c addr :
  cb_wf c -> hash_total c -> in_range 64 addr ->
  exists tag s, splitAddress c addr = Ok (tag, s) /\ 0 <= s < m_num_sets c /\
    tag = Z.shiftr addr (m_log_blocksize c).
Proof.
  intros Hc Ht Ha. destruct (splitAddress_total c addr Hc Ht Ha) as (s & E & Hs). eauto.
Qed.

(** A 3-set and a 64-set cache of 64-byte blocks. *)
Definition cb3 (h : hash_t) : CacheBase := mkCacheBase "L1-D" 3072 16 64 h 3 None 6 1.
Definition cb64 (h : hash_t) : CacheBase := mkCacheBase "L1-D" 32768 8 64 h 64 None 6 6.

Lemma cb64_wf h : h <> INVALID_HASH_TYPE -> cb_wf (cb64 h).
Proof. split; cbn; try done. exists 6. lia. Qed.

Lemma splitAddress_in_range_witness :
  exists tag s, splitAddress (cb64 HASH_XOR_MOD) 0xdeadbeef = Ok (tag, s) /\ 0 <= s < 64 /\
    tag = Z.shiftr 0xdeadbeef 6.
Proof. apply (splitAddress_in_range (cb64 HASH_XOR_MOD)); [by apply cb64_wf|done|done]. Defined.

(** XOR indexing of a cache whose number of sets is not a power of two, which
    the constructor accepts, yields a set index past the last set: block number 4
    of a 3-set cache is sent to set 3 of sets 0..2. *)
Theorem xor_mod_out_of_range :
  exists c addr tag s,
    CacheBase_new "L1-D" 3 16 64 HASH_XOR_MOD None = Ok c /\
    splitAddress c addr = Ok (tag, s) /\ m_num_sets c <= s.
Proof. eexists _, 256, 4, 3. split_and!; [by vm_compute..|done]. Qed.

(** The tag and the block offset of an address determine it: shifting the tag
    back and adding the offset gives the address, whatever the hash. *)
Theorem split_tag_offset_roundtrip c addr tag s off :
  cb_wf c -> in_range 64 addr -> splitAddressOffset c addr = Ok (tag, s, off) ->
  tagToAddress c tag + off = addr /\ 0 <= off < m_blocksize c.
Proof.
  intros Hc Ha H. unfold splitAddressOffset, splitAddress in H. inv_res.
  destruct (cb_wf_block c Hc) as (b & Hb & Ebs & El). unfold tagToAddress. rewrite El, Ebs in *.
  assert (0 < 2 ^ b) by (apply Z.pow_pos_nonneg; lia).
  assert (2 ^ b <= 2 ^ 31) by (apply Z.pow_le_mono_r; lia).
  rewrite (wrap_small 32 (2 ^ b - 1)) by (split; lia). rewrite land_pow2_pred by lia.
  pose proof (Z.mod_pos_bound addr (2 ^ b) ltac:(lia)).
  rewrite (wrap_small 32) by (split; lia). rewrite Z.shiftl_mul_pow2, Z.shiftr_div_pow2 by lia.
  pose proof (Z.div_mod addr (2 ^ b) ltac:(lia)). destruct Ha.
  assert (0 <= addr / 2 ^ b) by (apply Z.div_pos; lia).
  rewrite wrap_small by (split; nia). lia.
Qed.

Lemma split_tag_offset_roundtrip_witness :
  splitAddressOffset (cb64 HASH_MASK) 0x12345 = Ok (0x48d, 13, 5) /\
  tagToAddress (cb64 HASH_MASK) 0x48d + 5 = 0x12345 /\ 0 <= 5 < 64.
Proof.
  split; [by vm_compute|].
  apply (split_tag_offset_roundtrip (cb64 HASH_MASK) 0x12345 0x48d 13 5);
    [by apply cb64_wf|done|by vm_compute].
Defined.

(** The tag and the set of an address depend on its block only. *)
Lemma splitAddress_same_block c addr1 addr2 :
  cb_wf c -> in_range 64 addr1 -> in_range 64 addr2 ->
  Z.shiftr addr1 (m_log_blocksize c) = Z.shiftr addr2 (m_log_blocksize c) ->
  splitAddress c addr1 = splitAddress c addr2.
Proof.
  intros Hc H1 H2 E. destruct (cb_wf_block c Hc) as (b & Hb & _ & El).
  unfold splitAddress. rewrite E. destruct (m_ahl c) as [a|] eqn:Ea.
  - destruct (cb_wf_ahl c Hc a Ea) as [Hwf Hle]. rewrite El in *.
    rewrite !Z.shiftr_div_pow2 in E by lia.
    destruct (linear_block_same a b addr1 addr2 Hwf ltac:(lia) H1 H2 E) as (x & y & -> & -> & Exy).
    cbn [mbind res_bind]. by rewrite Exy.
  - cbn [mbind res_bind]. by rewrite E.
Qed.

(** All addresses of one block are sent to the same set with the same tag, also
    when the set index is computed from the home node's linear address. *)
Theorem splitAddress_block_uniform c addr1 addr2 :
  cb_wf c -> in_range 64 addr1 -> in_range 64 addr2 ->
  Z.shiftr addr1 (m_log_blocksize c) = Z.shiftr addr2 (m_log_blocksize c) ->
  splitAddress c addr1 = splitAddress c addr2.
Proof. apply splitAddress_same_block. Qed.

Definition cb64_ahl : CacheBase := mkCacheBase "nuca" 32768 8 64 HASH_MOD 64 (Some ahl3) 6 6.

Lemma splitAddress_block_uniform_witness :
  splitAddress cb64_ahl 0x1200 = splitAddress cb64_ahl 0x123f.
Proof.
  apply splitAddress_block_uniform; try by vm_compute.
  split; cbn; try done; try lia; [exists 6; lia|].
  intros a [= <-]. split; [apply ahl3_wf|done].
Defined.
