(* ===== verification/CacheBlock.v ===== *)
(** * Cache block state and metadata

    [CacheState] ([cache_state.h]), [CacheBlockInfo] ([cache_block_info.h/.cc])
    and its subclasses [PrL1CacheBlockInfo], [PrL2CacheBlockInfo] and
    [SharedCacheBlockInfo] (built without [ENABLE_TRACK_SHARING_PREVCACHES]). *)

From stdpp Require Import base tactics list numbers.
From Stdlib Require Import ZArith Lia String Ascii.
From S2P Require Import Prelude CacheBase.
Local Open Scope Z_scope.

(** ** CacheState *)

Inductive cstate_t :=
| INVALID | SHARED | SHARED_UPGRADING | EXCLUSIVE | OWNED | MODIFIED
| INVALID_COLD | INVALID_EVICT | INVALID_COHERENCY.

#[global] Instance cstate_t_eq_dec : EqDecision cstate_t.
Proof. solve_decision. Defined.

Definition readable (cstate : cstate_t) : bool :=
  bool_decide (cstate = MODIFIED) || bool_decide (cstate = OWNED)
  || bool_decide (cstate = SHARED) || bool_decide (cstate = EXCLUSIVE).
Definition writable (cstate : cstate_t) : bool := bool_decide (cstate = MODIFIED).

Definition CStateString (cstate : cstate_t) : ascii :=
  match cstate with
  | INVALID => "I" | SHARED => "S" | SHARED_UPGRADING => "u" | MODIFIED => "M"
  | EXCLUSIVE => "E" | OWNED => "O" | INVALID_COLD => "_" | INVALID_EVICT => "e"
  | INVALID_COHERENCY => "c"
  end.

(** ** Options and block types *)

Inductive option_t := PREFETCH | WARMUP.
Definition option_bit (o : option_t) : Z := match o with PREFETCH => 0 | WARMUP => 1 end.
Definition getOptionName (o : option_t) : string :=
  match o with PREFETCH => "prefetch" | WARMUP => "warmup" end.

Inductive block_type_t := PAGE_TABLE_DATA | PAGE_TABLE_INSTRUCTION | INSTRUCTION | DATA.
#[global] Instance block_type_t_eq_dec : EqDecision block_type_t.
Proof. solve_decision. Defined.

Definition isMetadataBlockType (b : block_type_t) : bool :=
  bool_decide (b = PAGE_TABLE_DATA) || bool_decide (b = PAGE_TABLE_INSTRUCTION).

(** ** CacheBlockInfo

    The dynamic class of a block: only [PrL2CacheBlockInfo] adds a field, the
    bit vector of the first-level caches that hold the line. *)

Inductive block_class :=
| PrL1CacheBlockInfo
| PrL2CacheBlockInfo (m_cached_loc_bitvec : Z)
| SharedCacheBlockInfo.

Record CacheBlockInfo := mkBlock {
  ppn : Z;
  m_tlb_entry : bool;
  m_page_size : Z;
  m_tag : Z;
  m_cstate : cstate_t;
  m_owner : Z;
  m_used : Z;
  m_options : Z;
  m_block_type : block_type_t;
  m_reuse : Z;
  utilization : Z;
  m_class : block_class
}.

(** The tag [(IntPtr) ~0] of a block that holds nothing. *)
Definition INVALID_TAG : Z := 2 ^ 64 - 1.

Definition CacheBlockInfo_new (cls : block_class) : CacheBlockInfo :=
  mkBlock 0 false 0 INVALID_TAG INVALID 0 0 0 DATA 0 0 cls.

Definition CacheBlockInfo_create (cache_type : cache_t) : res CacheBlockInfo :=
  match cache_type with
  | PR_L1_CACHE => Ok (CacheBlockInfo_new PrL1CacheBlockInfo)
  | PR_L2_CACHE => Ok (CacheBlockInfo_new (PrL2CacheBlockInfo 0))
  | SHARED_CACHE => Ok (CacheBlockInfo_new SharedCacheBlockInfo)
  | INVALID_CACHE_TYPE => Err LogError
  end.

Definition isValid (b : CacheBlockInfo) : bool := negb (m_tag b =? INVALID_TAG).

Definition setTag (t : Z) (b : CacheBlockInfo) : CacheBlockInfo :=
  mkBlock (ppn b) (m_tlb_entry b) (m_page_size b) t (m_cstate b) (m_owner b) (m_used b)
    (m_options b) (m_block_type b) (m_reuse b) (utilization b) (m_class b).
Definition setCState (s : cstate_t) (b : CacheBlockInfo) : CacheBlockInfo :=
  mkBlock (ppn b) (m_tlb_entry b) (m_page_size b) (m_tag b) s (m_owner b) (m_used b)
    (m_options b) (m_block_type b) (m_reuse b) (utilization b) (m_class b).
Definition setPPN (p : Z) (b : CacheBlockInfo) : CacheBlockInfo :=
  mkBlock p (m_tlb_entry b) (m_page_size b) (m_tag b) (m_cstate b) (m_owner b) (m_used b)
    (m_options b) (m_block_type b) (m_reuse b) (utilization b) (m_class b).
Definition setPageSize (ps : Z) (b : CacheBlockInfo) : CacheBlockInfo :=
  mkBlock (ppn b) (m_tlb_entry b) ps (m_tag b) (m_cstate b) (m_owner b) (m_used b)
    (m_options b) (m_block_type b) (m_reuse b) (utilization b) (m_class b).
Definition setBlockType (bt : block_type_t) (b : CacheBlockInfo) : CacheBlockInfo :=
  mkBlock (ppn b) (m_tlb_entry b) (m_page_size b) (m_tag b) (m_cstate b) (m_owner b) (m_used b)
    (m_options b) bt (m_reuse b) (utilization b) (m_class b).
Definition setUsed (u : Z) (b : CacheBlockInfo) : CacheBlockInfo :=
  mkBlock (ppn b) (m_tlb_entry b) (m_page_size b) (m_tag b) (m_cstate b) (m_owner b) u
    (m_options b) (m_block_type b) (m_reuse b) (utilization b) (m_class b).
Definition setOptions (o : Z) (b : CacheBlockInfo) : CacheBlockInfo :=
  mkBlock (ppn b) (m_tlb_entry b) (m_page_size b) (m_tag b) (m_cstate b) (m_owner b) (m_used b)
    o (m_block_type b) (m_reuse b) (utilization b) (m_class b).
Definition setClass (cl : block_class) (b : CacheBlockInfo) : CacheBlockInfo :=
  mkBlock (ppn b) (m_tlb_entry b) (m_page_size b) (m_tag b) (m_cstate b) (m_owner b) (m_used b)
    (m_options b) (m_block_type b) (m_reuse b) (utilization b) cl.

Definition hasOption (o : option_t) (b : CacheBlockInfo) : bool :=
  negb (Z.land (m_options b) (Z.shiftl 1 (option_bit o)) =? 0).
Definition setOption (o : option_t) (b : CacheBlockInfo) : CacheBlockInfo :=
  setOptions (u8 (Z.lor (m_options b) (Z.shiftl 1 (option_bit o)))) b.
Definition clearOption (o : option_t) (b : CacheBlockInfo) : CacheBlockInfo :=
  setOptions (u8 (Z.land (m_options b) (u64 (Z.lnot (Z.shiftl 1 (option_bit o)))))) b.

Definition isPageTableBlock (b : CacheBlockInfo) : bool := isMetadataBlockType (m_block_type b).
Definition isInstructionBlock (b : CacheBlockInfo) : bool :=
  bool_decide (m_block_type b = INSTRUCTION).
Definition isDataBlock (b : CacheBlockInfo) : bool := bool_decide (m_block_type b = DATA).

(** [CacheBlockInfo::invalidate], overridden in [PrL2CacheBlockInfo] to clear the
    sharer bits first. *)
Definition block_invalidate (b : CacheBlockInfo) : CacheBlockInfo :=
  let b := match m_class b with
           | PrL2CacheBlockInfo _ => setClass (PrL2CacheBlockInfo 0) b
           | _ => b
           end in
  setCState INVALID (setTag INVALID_TAG b).

(** The fields [CacheBlockInfo::clone] copies; [m_tlb_entry], [utilization] and the
    dynamic class are those of the destination. *)
Definition base_clone (dst src : CacheBlockInfo) : CacheBlockInfo :=
  mkBlock (ppn src) (m_tlb_entry dst) (m_page_size src) (m_tag src) (m_cstate src) (m_owner src)
    (m_used src) (m_options src) (m_block_type src) (m_reuse src) (utilization dst) (m_class dst).

(** [clone], dispatched on the destination; [PrL2CacheBlockInfo::clone] casts its
    argument unchecked. *)
Definition clone (dst src : CacheBlockInfo) : res CacheBlockInfo :=
  match m_class dst with
  | PrL2CacheBlockInfo _ =>
      match m_class src with
      | PrL2CacheBlockInfo bits => Ok (base_clone (setClass (PrL2CacheBlockInfo bits) dst) src)
      | _ => Err BadCast
      end
  | _ => Ok (base_clone dst src)
  end.

(** [updateUsage(BitsUsedType used)]: whether a bit was new, and the block. *)
Definition updateUsage_mask (used : Z) (b : CacheBlockInfo) : bool * CacheBlockInfo :=
  let new_bits_set := negb (Z.land used (Z.lnot (m_used b)) =? 0) in
  (new_bits_set, setUsed (u8 (Z.lor (m_used b) used)) b).

Definition BitsUsedOffset : Z := 3.

(** [updateUsage(offset, size)]; the mask is truncated to the 8-bit argument of the
    other overload. *)
Definition updateUsage (offset size : Z) (b : CacheBlockInfo) : bool * CacheBlockInfo :=
  let first := Z.shiftr offset BitsUsedOffset in
  let last := Z.shiftr (u32 (u32 (offset + size) - 1)) BitsUsedOffset in
  let first_mask := u64 (u64 (Z.shiftl 1 first) - 1) in
  let last_mask := u64 (u64 (Z.shiftl 1 (last + 1)) - 1) in
  let usage_mask := Z.land last_mask (u64 (Z.lnot first_mask)) in
  updateUsage_mask (u8 usage_mask) b.

Definition increaseReuse (b : CacheBlockInfo) : CacheBlockInfo :=
  mkBlock (ppn b) (m_tlb_entry b) (m_page_size b) (m_tag b) (m_cstate b) (m_owner b) (m_used b)
    (m_options b) (m_block_type b) (m_reuse b + 1) (utilization b) (m_class b).

(** ** PrL2CacheBlockInfo: locations of a line in the first-level caches *)

Definition INVALID_MEM_COMPONENT : Z := 0.
Definition L1_ICACHE : Z := 2.
Definition L1_DCACHE : Z := 3.

Definition getCachedLoc (bits : Z) : res Z :=
  check (negb (bits =? Z.lor (Z.shiftl 1 L1_ICACHE) (Z.shiftl 1 L1_DCACHE))) LogError;;
  if bits =? Z.shiftl 1 L1_ICACHE then Ok L1_ICACHE
  else if bits =? Z.shiftl 1 L1_DCACHE then Ok L1_DCACHE
  else if bits =? 0 then Ok INVALID_MEM_COMPONENT
  else Err LogError.

Definition setCachedLoc (bits cached_loc : Z) : res Z :=
  check (negb (cached_loc =? INVALID_MEM_COMPONENT)) LogError;;
  check (Z.land bits (Z.shiftl 1 cached_loc) =? 0) LogError;;
  Ok (Z.lor bits (u32 (Z.shiftl 1 cached_loc))).

Definition clearCachedLoc (bits cached_loc : Z) : res Z :=
  check (negb (cached_loc =? INVALID_MEM_COMPONENT)) LogError;;
  check (negb (Z.land bits (Z.shiftl 1 cached_loc) =? 0)) LogError;;
  Ok (Z.land bits (u32 (Z.lnot (u32 (Z.shiftl 1 cached_loc))))).

(** ** Lemmas *)

Lemma isValid_tag b : isValid b = true <-> m_tag b <> INVALID_TAG.
Proof. unfold isValid. rewrite negb_true_iff, Z.eqb_neq. done. Qed.

Lemma isValid_invalidate b : isValid (block_invalidate b) = false.
Proof. unfold isValid, block_invalidate. destruct (m_class b); by cbn. Qed.

Lemma m_tag_invalidate b : m_tag (block_invalidate b) = INVALID_TAG.
Proof. unfold block_invalidate. by destruct (m_class b). Qed.

Lemma m_page_size_invalidate b : m_page_size (block_invalidate b) = m_page_size b.
Proof. unfold block_invalidate. by destruct (m_class b). Qed.

(** Two blocks made by one [create] call have classes that [clone] accepts. *)
Definition same_kind (b1 b2 : CacheBlockInfo) : Prop :=
  match m_class b1, m_class b2 with
  | PrL2CacheBlockInfo _, PrL2CacheBlockInfo _ => True
  | PrL2CacheBlockInfo _, _ => False
  | _, _ => True
  end.

Lemma clone_Ok dst src :
  same_kind dst src ->
  exists b, clone dst src = Ok b /\ m_tag b = m_tag src /\ m_cstate b = m_cstate src /\
    m_page_size b = m_page_size src /\ ppn b = ppn src /\ m_block_type b = m_block_type src /\
    m_reuse b = m_reuse src /\ m_used b = m_used src.
Proof.
  unfold same_kind, clone. destruct (m_class dst), (m_class src); try done; intros _;
    eexists; (split; [done|]); by cbn.
Qed.

Lemma clone_fields dst src b :
  clone dst src = Ok b ->
  m_tag b = m_tag src /\ m_cstate b = m_cstate src /\ m_page_size b = m_page_size src /\
  ppn b = ppn src /\ m_block_type b = m_block_type src.
Proof.
  unfold clone. destruct (m_class dst), (m_class src); intros [= <-]; by cbn.
Qed.

Lemma isValid_clone dst src b : clone dst src = Ok b -> isValid b = isValid src.
Proof. intros H. unfold isValid. by destruct (clone_fields _ _ _ H) as [-> _]. Qed.

#[export] Hint Resolve isValid_invalidate m_tag_invalidate clone_fields : sniper.
