(* ===== verification/CacheSet.v ===== *)
(** * Cache sets

    [CacheSet] ([cache_set.h/.cc]): the blocks of one set, their data when fault
    injection is on, and the operations that the replacement policies specialise
    through two virtual methods. The virtual methods are the typeclass
    [ReplacementPolicy]; the theorems on a set are proved against the laws of
    [ReplacementPolicyLaws] and discharged per policy in [Replacement]. *)

From stdpp Require Import base tactics list numbers gmap sets.
From Stdlib Require Import ZArith Lia.
From S2P Require Import Prelude CacheBase CacheBlock.
Local Open Scope nat_scope.

(** ** State *)

Record CacheSetBase := mkSet {
  m_cache_block_info_array : list CacheBlockInfo;
  m_blocks : option (list Z);
  m_associativity : nat;
  m_num_active_ways : nat;
  cs_blocksize : Z;
  m_is_tlb_set : bool;
  inserts : Z;
  evictions : Z;
  invalidations : Z
}.

Definition set_array (a : list CacheBlockInfo) (s : CacheSetBase) : CacheSetBase :=
  mkSet a (m_blocks s) (m_associativity s) (m_num_active_ways s) (cs_blocksize s)
    (m_is_tlb_set s) (inserts s) (evictions s) (invalidations s).
Definition set_blocks (d : option (list Z)) (s : CacheSetBase) : CacheSetBase :=
  mkSet (m_cache_block_info_array s) d (m_associativity s) (m_num_active_ways s) (cs_blocksize s)
    (m_is_tlb_set s) (inserts s) (evictions s) (invalidations s).
Definition count_insert (s : CacheSetBase) : CacheSetBase :=
  mkSet (m_cache_block_info_array s) (m_blocks s) (m_associativity s) (m_num_active_ways s)
    (cs_blocksize s) (m_is_tlb_set s) (u32 (inserts s + 1)) (evictions s) (invalidations s).
Definition count_eviction (s : CacheSetBase) : CacheSetBase :=
  mkSet (m_cache_block_info_array s) (m_blocks s) (m_associativity s) (m_num_active_ways s)
    (cs_blocksize s) (m_is_tlb_set s) (inserts s) (u32 (evictions s + 1)) (invalidations s).
Definition count_invalidation (s : CacheSetBase) : CacheSetBase :=
  mkSet (m_cache_block_info_array s) (m_blocks s) (m_associativity s) (m_num_active_ways s)
    (cs_blocksize s) (m_is_tlb_set s) (inserts s) (evictions s) (u32 (invalidations s + 1)).
Definition set_setActiveWays (n : nat) (s : CacheSetBase) : CacheSetBase :=
  mkSet (m_cache_block_info_array s) (m_blocks s) (m_associativity s) n
    (cs_blocksize s) (m_is_tlb_set s) (inserts s) (evictions s) (invalidations s).

(** The constructor: [with_data] is [Sim()->getFaultinjectionManager() != NULL]. *)
Definition CacheSet_new (cache_type : cache_t) (associativity : nat) (blocksize : Z)
    (is_tlb_set with_data : bool) : res CacheSetBase :=
  b ← CacheBlockInfo_create cache_type;
  Ok (mkSet (replicate associativity b)
        (if with_data then Some (replicate (associativity * Z.to_nat blocksize) 0%Z) else None)
        associativity associativity blocksize is_tlb_set 0 0 0).

Definition isValidReplacement (s : CacheSetBase) (index : nat) : res bool :=
  if m_num_active_ways s <=? index then Ok false
  else
    b ← rd (m_cache_block_info_array s) index;
    if bool_decide (m_cstate b = SHARED_UPGRADING) then Ok false else Ok true.

Definition peekBlock (s : CacheSetBase) (way : nat) : res CacheBlockInfo :=
  rd (m_cache_block_info_array s) way.

(** Ways are visited from the highest to the lowest. *)
Definition ways_down (s : CacheSetBase) : list nat := rev (seq 0 (m_associativity s)).

(** [find]: the way that holds the tag (the pointer returned is to its block). *)
Definition set_find (s : CacheSetBase) (tag : Z) : res (option nat) :=
  find_loop (fun index => b ← rd (m_cache_block_info_array s) index; Ok (m_tag b =? tag)%Z)
    (ways_down s).

Definition set_findTLB (s : CacheSetBase) (tag page_size : Z) : res (option nat) :=
  find_loop (fun index => b ← rd (m_cache_block_info_array s) index;
               Ok ((m_tag b =? tag)%Z && (m_page_size b =? page_size)%Z)) (ways_down s).

(** [invalidate]: leaves at the first match; the statement after [return true] that
    would count the invalidation is never executed. *)
Definition set_invalidate (s : CacheSetBase) (tag : Z) : res (bool * CacheSetBase) :=
  o ← set_find s tag;
  match o with
  | Some index =>
      b ← rd (m_cache_block_info_array s) index;
      a ← wr (m_cache_block_info_array s) index (block_invalidate b);
      Ok (true, set_array a s)
  | None => Ok (false, s)
  end.

(** One step of the loop of [invalidateTLB]. *)
Definition invalidateTLB_step (tag ps : Z) (acc : bool * CacheSetBase) (index : nat)
  : res (bool * CacheSetBase) :=
  let '(found_any, s) := acc in
  b ← rd (m_cache_block_info_array s) index;
  if (m_tag b =? tag)%Z && (m_page_size b =? ps)%Z then
    a ← wr (m_cache_block_info_array s) index (block_invalidate b);
    Ok (true, count_invalidation (set_array a s))
  else Ok (found_any, s).

(** [invalidateTLB]: every matching way is invalidated and counted. *)
Definition set_invalidateTLB (s : CacheSetBase) (tag page_size : Z) : res (bool * CacheSetBase) :=
  fold_loop (invalidateTLB_step tag page_size) (false, s) (ways_down s).

Definition countPageWalkCacheBlocks (s : CacheSetBase) : res Z :=
  fold_loop (fun count index =>
      b ← rd (m_cache_block_info_array s) index;
      if isPageTableBlock b then Ok (u64 (count + 1)) else Ok count)
    0%Z (ways_down s).

(** [memcpy] out of and into the data array. *)
Definition slice (l : list Z) (from n : nat) : res (list Z) :=
  if decide (from + n <= length l) then Ok (take n (drop from l)) else Err OutOfBounds.
Definition splice (l : list Z) (from : nat) (d : list Z) : res (list Z) :=
  if decide (from + length d <= length l)
  then Ok (take from l ++ d ++ drop (from + length d) l) else Err OutOfBounds.

(** ** The interface to the replacement policies *)

(** [CacheSetInfoLRU]: hit-position and query-attempt histograms of one cache. *)
Record CacheSetInfoLRU := mkInfo {
  si_associativity : nat;
  m_access : list Z;
  m_attempts : option (list Z)
}.

Definition CacheSetInfoLRU_new (associativity num_attempts : nat) : CacheSetInfoLRU :=
  mkInfo associativity (replicate associativity 0%Z)
    (if 1 <? num_attempts then Some (replicate num_attempts 0%Z) else None).

Definition info_increment (index : nat) (si : CacheSetInfoLRU) : res CacheSetInfoLRU :=
  check (index <? si_associativity si) LogError;;
  x ← rd (m_access si) index;
  a ← wr (m_access si) index (u64 (x + 1));
  Ok (mkInfo (si_associativity si) a (m_attempts si)).

Definition info_incrementAttempt (attempt : nat) (si : CacheSetInfoLRU) : res CacheSetInfoLRU :=
  match m_attempts si with
  | Some at_ =>
      x ← rd at_ attempt;
      a ← wr at_ attempt (u64 (x + 1));
      Ok (mkInfo (si_associativity si) (m_access si) (Some a))
  | None => check (attempt =? 0) LogError;; Ok si
  end.

(** The cache controller passed to a replacement decision: its query whether a
    block is in a lower-level cache, and the number of queries charged to it. *)
Record CacheCntlr := mkCntlr {
  isInLowerLevelCache : CacheBlockInfo -> bool;
  qbs_lookups : Z
}.
Definition incrementQBSLookupCost (c : CacheCntlr) : CacheCntlr :=
  mkCntlr (isInLowerLevelCache c) (qbs_lookups c + 1).

(** What a policy reads and writes besides its own state. *)
Record ReplEnv := mkEnv { set_info : option CacheSetInfoLRU; cntlr : option CacheCntlr }.

Class ReplacementPolicy (P : Type) := {
  getReplacementIndex : CacheSetBase -> P -> ReplEnv -> res (nat * P * ReplEnv);
  updateReplacementIndex : CacheSetBase -> nat -> P -> ReplEnv -> res (P * ReplEnv);
  getRecencyBits : P -> nat -> res Z
}.

Definition block_kind (ty : cache_t) (b : CacheBlockInfo) : Prop :=
  match ty, m_class b with
  | PR_L1_CACHE, PrL1CacheBlockInfo => True
  | PR_L2_CACHE, PrL2CacheBlockInfo _ => True
  | SHARED_CACHE, SharedCacheBlockInfo => True
  | _, _ => False
  end.

(** The representation invariant of a set of blocks of class [ty]. *)
Record set_wf (ty : cache_t) (s : CacheSetBase) : Prop := {
  set_wf_array : length (m_cache_block_info_array s) = m_associativity s;
  set_wf_ways : 0 < m_num_active_ways s <= m_associativity s;
  set_wf_kind : Forall (block_kind ty) (m_cache_block_info_array s);
  set_wf_size : (0 <= cs_blocksize s < 2 ^ 32)%Z;
  set_wf_data : forall d, m_blocks s = Some d ->
    length d = m_associativity s * Z.to_nat (cs_blocksize s)
}.

(** A way that may be filled without evicting: active and without valid tag. *)
Definition free_way (s : CacheSetBase) (i : nat) : bool :=
  (i <? m_num_active_ways s) &&
  match m_cache_block_info_array s !! i with Some b => negb (isValid b) | None => false end.
(** A way whose block may be evicted. *)
Definition evictable_way (s : CacheSetBase) (i : nat) : bool :=
  (i <? m_num_active_ways s) &&
  match m_cache_block_info_array s !! i with
  | Some b => negb (bool_decide (m_cstate b = SHARED_UPGRADING)) | None => false end.

(** The statistics object is shared by the sets of a cache: the methods of a policy may
    count in it but not change its shape. *)
Definition info_shape (a b : option CacheSetInfoLRU) : Prop :=
  match a, b with
  | None, None => True
  | Some x, Some y =>
      si_associativity y = si_associativity x /\ length (m_access y) = length (m_access x) /\
      match m_attempts x, m_attempts y with
      | None, None => True | Some l, Some l' => length l' = length l | _, _ => False end
  | _, _ => False
  end.

#[global] Instance info_shape_preorder : PreOrder info_shape.
Proof.
  split.
  - intros [x|]; cbn; [|done]. by destruct (m_attempts x).
  - intros [x|] [y|] [z|]; cbn; try done. intros (-> & -> & H1) (-> & -> & H2). split_and!; try done.
    destruct (m_attempts x), (m_attempts y), (m_attempts z); try done. by rewrite H2.
Qed.

(** What every policy promises to the set: a victim within the set, and an
    invariant of its own state that its two methods keep. *)
Class ReplacementPolicyLaws (P : Type) `{!ReplacementPolicy P} := {
  policy_wf : CacheSetBase -> P -> option CacheSetInfoLRU -> Prop;
  policy_wf_ext : forall s s' p si si',
    m_associativity s = m_associativity s' -> info_shape si si' ->
    policy_wf s p si -> policy_wf s' p si';
  getReplacementIndex_range : forall ty s p e i p' e',
    set_wf ty s -> policy_wf s p (set_info e) ->
    getReplacementIndex s p e = Ok (i, p', e') ->
    i < m_associativity s /\ policy_wf s p' (set_info e') /\ info_shape (set_info e) (set_info e');
  updateReplacementIndex_total : forall ty s p e i,
    set_wf ty s -> policy_wf s p (set_info e) -> i < m_associativity s ->
    exists p' e', updateReplacementIndex s i p e = Ok (p', e') /\ policy_wf s p' (set_info e') /\
      info_shape (set_info e) (set_info e')
}.

(** Policies that fill the first free way before they evict anything. *)
Class FillsFreeWays (P : Type) `{!ReplacementPolicy P} `{!ReplacementPolicyLaws P} :=
  fills_free_way : forall ty s p e i,
    set_wf ty s -> policy_wf s p (set_info e) ->
    first_such (free_way s) (seq 0 (m_num_active_ways s)) = Some i ->
    exists p' e', getReplacementIndex s p e = Ok (i, p', e').

(** Policies that never evict a block in transition or a power-gated way. *)
Class SafeVictims (P : Type) `{!ReplacementPolicy P} `{!ReplacementPolicyLaws P} :=
  safe_victim : forall ty s p e i p' e',
    set_wf ty s -> policy_wf s p (set_info e) ->
    getReplacementIndex s p e = Ok (i, p', e') -> free_way s i = true \/ evictable_way s i = true.

(** Policies that always return a victim, under a condition on the set and the
    environment that the policy states. *)
Class AlwaysVictim (P : Type) `{!ReplacementPolicy P} `{!ReplacementPolicyLaws P} := {
  victim_ready : CacheSetBase -> P -> ReplEnv -> Prop;
  always_victim : forall ty s p e,
    set_wf ty s -> policy_wf s p (set_info e) -> victim_ready s p e ->
    exists i p' e', getReplacementIndex s p e = Ok (i, p', e')
}.

(** ** Operations of a set with its policy *)

Record CacheSet (P : Type) := mkCacheSet { base : CacheSetBase; policy : P }.
Arguments mkCacheSet {_} _ _.
Arguments base {_} _.
Arguments policy {_} _.

(** The part of [insert] that hands the victim's block to the caller. *)
Definition evict_victim (s : CacheSetBase) (index : nat) (old evict_info : CacheBlockInfo)
    (want_evict_data : bool) : res (bool * CacheBlockInfo * option (list Z) * CacheSetBase) :=
  let n := Z.to_nat (cs_blocksize s) in
  if isValid old then
    info ← clone evict_info old;
    data ← match want_evict_data, m_blocks s with
           | true, Some d => x ← slice d (index * n) n; Ok (Some x)
           | _, _ => Ok None
           end;
    Ok (true, info, data, count_eviction s)
  else Ok (false, evict_info, None, s).

(** The part of [insert] that copies the fill buffer into the set's data. *)
Definition fill_line (s : CacheSetBase) (index : nat) (fill_buff : option (list Z))
  : res CacheSetBase :=
  let n := Z.to_nat (cs_blocksize s) in
  match fill_buff, m_blocks s with
  | Some src, Some d =>
      x ← slice src 0 n;
      d' ← splice d (index * n) x;
      Ok (set_blocks (Some d') s)
  | _, _ => Ok s
  end.

Section operations.
Context {P : Type} `{!ReplacementPolicy P}.

(** The data copied to [out_buff] (when it is not null and the set holds data), and
    the set after the access. *)
Definition read_line (c : CacheSet P) (line_index : nat) (offset : Z) (out_buff : bool) (bytes : Z)
    (update_replacement : bool) (e : ReplEnv) : res (option (list Z) * CacheSet P * ReplEnv) :=
  check (u32 (offset + bytes) <=? cs_blocksize (base c))%Z AssertFailed;;
  data ← match out_buff, m_blocks (base c) with
         | true, Some d =>
             x ← slice d (line_index * Z.to_nat (cs_blocksize (base c)) + Z.to_nat offset)
                   (Z.to_nat bytes); Ok (Some x)
         | _, _ => Ok None
         end;
  if update_replacement then
    '(p, e') ← updateReplacementIndex (base c) line_index (policy c) e;
    Ok (data, mkCacheSet (base c) p, e')
  else Ok (data, c, e).

Definition write_line (c : CacheSet P) (line_index : nat) (offset : Z) (in_buff : option (list Z))
    (bytes : Z) (update_replacement : bool) (e : ReplEnv) : res (CacheSet P * ReplEnv) :=
  check (u32 (offset + bytes) <=? cs_blocksize (base c))%Z AssertFailed;;
  b ← match in_buff, m_blocks (base c) with
      | Some src, Some d =>
          x ← slice src 0 (Z.to_nat bytes);
          d' ← splice d (line_index * Z.to_nat (cs_blocksize (base c)) + Z.to_nat offset) x;
          Ok (set_blocks (Some d') (base c))
      | _, _ => Ok (base c)
      end;
  if update_replacement then
    '(p, e') ← updateReplacementIndex b line_index (policy c) e;
    Ok (mkCacheSet b p, e')
  else Ok (mkCacheSet b (policy c), e).

(** The outputs of [insert]. *)
Record insert_result := mkInsert {
  eviction : bool;
  evict_block_info : CacheBlockInfo;
  evict_buff : option (list Z);
  ins_set : CacheSet P;
  ins_env : ReplEnv
}.

Definition set_insert (c : CacheSet P) (cache_block_info : CacheBlockInfo)
    (fill_buff : option (list Z)) (evict_info : CacheBlockInfo) (want_evict_data : bool)
    (e : ReplEnv) : res insert_result :=
  '(index, p, e') ← getReplacementIndex (base c) (policy c) e;
  let s := base c in
  check (index <? m_associativity s) AssertFailed;;
  old ← rd (m_cache_block_info_array s) index;
  '(ev, info, data, s) ← evict_victim s index old evict_info want_evict_data;
  new ← clone old cache_block_info;
  a ← wr (m_cache_block_info_array s) index new;
  s ← fill_line (set_array a s) index fill_buff;
  Ok (mkInsert ev info data (mkCacheSet (count_insert s) p) e').

End operations.
Arguments insert_result P : clear implicits.

Definition getDataPtr (s : CacheSetBase) (line_index : nat) (offset : Z) : res nat :=
  d ← deref (m_blocks s);
  let i := line_index * Z.to_nat (cs_blocksize s) + Z.to_nat offset in
  check (i <? length d) OutOfBounds;; Ok i.

(** ** Abstraction of a set: the tags it holds *)

Definition valid_tags (s : CacheSetBase) : gset Z :=
  list_to_set (m_tag <$> filter (fun b => isValid b = true) (m_cache_block_info_array s)).

(** No tag is held by two ways. *)
Definition unique_tags (s : CacheSetBase) : Prop :=
  forall i j bi bj, m_cache_block_info_array s !! i = Some bi ->
    m_cache_block_info_array s !! j = Some bj ->
    isValid bi = true -> m_tag bi = m_tag bj -> i = j.

Lemma elem_of_valid_tags s t :
  t ∈ valid_tags s <->
  exists i b, m_cache_block_info_array s !! i = Some b /\ isValid b = true /\ m_tag b = t.
Proof.
  unfold valid_tags. rewrite elem_of_list_to_set, list_elem_of_fmap. split.
  - intros (b & -> & [Hv Hb]%list_elem_of_filter). apply list_elem_of_lookup in Hb as [i Hi]. eauto.
  - intros (i & b & Hi & Hv & <-). exists b. split; [done|]. apply list_elem_of_filter.
    split; [done|]. apply list_elem_of_lookup. eauto.
Qed.

Lemma valid_tags_ext s s' :
  m_cache_block_info_array s = m_cache_block_info_array s' -> valid_tags s = valid_tags s'.
Proof. unfold valid_tags. by intros ->. Qed.

Lemma unique_tags_ext s s' :
  m_cache_block_info_array s = m_cache_block_info_array s' -> unique_tags s -> unique_tags s'.
Proof. unfold unique_tags. by intros ->. Qed.

Lemma same_kind_block_kind ty b1 b2 : block_kind ty b1 -> block_kind ty b2 -> same_kind b1 b2.
Proof.
  unfold block_kind, same_kind. by destruct ty, (m_class b1), (m_class b2).
Qed.

Lemma block_kind_clone ty dst src b : block_kind ty dst -> clone dst src = Ok b -> block_kind ty b.
Proof.
  unfold block_kind, clone.
  destruct ty, (m_class dst) eqn:E, (m_class src); intros ? [= <-]; cbn; by rewrite ?E.
Qed.

Lemma block_kind_invalidate ty b : block_kind ty b -> block_kind ty (block_invalidate b).
Proof. unfold block_kind, block_invalidate. by destruct ty, (m_class b) eqn:E; cbn; rewrite ?E. Qed.

Section set_lemmas.
Context (ty : cache_t) (s : CacheSetBase) (Hwf : set_wf ty s).

Lemma array_lookup i : i < m_associativity s ->
  exists b, m_cache_block_info_array s !! i = Some b /\ block_kind ty b.
Proof.
  intros Hi. destruct (lookup_lt_is_Some_2 (m_cache_block_info_array s) i) as [b Hb].
  { by rewrite (set_wf_array _ _ Hwf). }
  exists b. split; [done|]. eapply Forall_lookup_1; [apply Hwf|done].
Qed.

Lemma isValidReplacement_pure i : isValidReplacement s i = Ok (evictable_way s i).
Proof.
  unfold isValidReplacement, evictable_way.
  destruct (Nat.leb_spec (m_num_active_ways s) i).
  - by rewrite (proj2 (Nat.ltb_ge _ _)).
  - rewrite (proj2 (Nat.ltb_lt _ _)) by done. pose proof (set_wf_ways _ _ Hwf).
    destruct (array_lookup i ltac:(lia)) as (b & Hb & _). unfold rd. rewrite Hb. cbn.
    by case_bool_decide.
Qed.

Lemma elem_of_ways_down i : i ∈ ways_down s <-> i < m_associativity s.
Proof. unfold ways_down. rewrite list_elem_of_In, <- in_rev, <- list_elem_of_In, elem_of_seq. lia. Qed.

(** The pure tests of [find] and [findTLB] on one way. *)
Definition has_tag (tag : Z) (i : nat) : bool :=
  match m_cache_block_info_array s !! i with Some b => (m_tag b =? tag)%Z | None => false end.
Definition has_tag_size (tag ps : Z) (i : nat) : bool :=
  match m_cache_block_info_array s !! i with
  | Some b => (m_tag b =? tag)%Z && (m_page_size b =? ps)%Z | None => false end.

Lemma set_find_pure tag : set_find s tag = Ok (first_such (has_tag tag) (ways_down s)).
Proof.
  apply find_loop_pure. intros i Hi%elem_of_ways_down.
  destruct (array_lookup i Hi) as (b & Hb & _). unfold rd, has_tag. by rewrite Hb.
Qed.

Lemma set_findTLB_pure tag ps :
  set_findTLB s tag ps = Ok (first_such (has_tag_size tag ps) (ways_down s)).
Proof.
  apply find_loop_pure. intros i Hi%elem_of_ways_down.
  destruct (array_lookup i Hi) as (b & Hb & _). unfold rd, has_tag_size. by rewrite Hb.
Qed.

Lemma set_find_Some tag i :
  set_find s tag = Ok (Some i) ->
  i < m_associativity s /\ exists b, m_cache_block_info_array s !! i = Some b /\ m_tag b = tag.
Proof.
  rewrite set_find_pure. intros [= H]. apply first_such_Some in H as [Hi Ht].
  apply elem_of_ways_down in Hi. split; [done|]. unfold has_tag in Ht.
  destruct (m_cache_block_info_array s !! i) as [b|]; [|done]. exists b. split; [done|].
  by apply Z.eqb_eq.
Qed.

(** [find] fails exactly on the tags the set does not hold. *)
Lemma set_find_None tag :
  tag <> INVALID_TAG -> set_find s tag = Ok None <-> tag ∉ valid_tags s.
Proof.
  intros Hne. rewrite set_find_pure. split.
  - intros [= H]. rewrite first_such_None in H. intros (i & b & Hb & Hv & <-)%elem_of_valid_tags.
    assert (i < m_associativity s).
    { rewrite <- (set_wf_array _ _ Hwf). by apply lookup_lt_Some in Hb. }
    specialize (H i (proj2 (elem_of_ways_down i) H0)). unfold has_tag in H.
    by rewrite Hb, Z.eqb_refl in H.
  - intros H. f_equal. apply first_such_None. intros i _. unfold has_tag.
    destruct (m_cache_block_info_array s !! i) as [b|] eqn:Hb; [|done].
    apply Z.eqb_neq. intros E. apply H, elem_of_valid_tags. exists i, b. split_and!; [done| |done].
    apply isValid_tag. congruence.
Qed.

Lemma set_find_is_Some tag :
  tag ∈ valid_tags s -> exists i, set_find s tag = Ok (Some i).
Proof.
  intros H. assert (tag <> INVALID_TAG) as Hne.
  { apply elem_of_valid_tags in H as (i & b & _ & Hv & <-). by apply isValid_tag. }
  destruct (first_such (has_tag tag) (ways_down s)) as [i|] eqn:E.
  - exists i. by rewrite set_find_pure, E.
  - exfalso. apply (proj1 (set_find_None tag Hne)); [|done]. by rewrite set_find_pure, E.
Qed.

Lemma set_wf_replace i b :
  block_kind ty b -> set_wf ty (set_array (<[i := b]> (m_cache_block_info_array s)) s).
Proof.
  intros Hb. destruct Hwf as [H1 H2 H3 H4 H5]. split; cbn; try done.
  - by rewrite length_insert.
  - by apply Forall_insert.
Qed.

(** Replacing the block of one way. *)
Lemma valid_tags_replace i old b t :
  unique_tags s -> m_cache_block_info_array s !! i = Some old ->
  t ∈ valid_tags (set_array (<[i := b]> (m_cache_block_info_array s)) s) <->
  (isValid b = true /\ t = m_tag b) \/
  (t ∈ valid_tags s /\ ~ (isValid old = true /\ t = m_tag old)).
Proof.
  intros Hu Hold. pose proof (lookup_lt_Some _ _ _ Hold) as Hlt.
  rewrite !elem_of_valid_tags. cbn. split.
  - intros (j & bj & Hj & Hv & <-). destruct (decide (i = j)) as [<-|Hne].
    + rewrite list_lookup_insert_eq in Hj by done. injection Hj as <-. by left.
    + rewrite list_lookup_insert_ne in Hj by done. right. split; [by exists j, bj|].
      intros [Hov Ht]. apply Hne. symmetry. by eapply Hu.
  - intros [[Hv ->]|[(j & bj & Hj & Hv & <-) Hn]].
    + exists i, b. by rewrite list_lookup_insert_eq.
    + exists j, bj. assert (i <> j) by (intros ->; apply Hn; naive_solver).
      by rewrite list_lookup_insert_ne.
Qed.

Lemma unique_tags_replace i b :
  unique_tags s -> i < m_associativity s ->
  (isValid b = true -> m_tag b ∉ valid_tags s) ->
  unique_tags (set_array (<[i := b]> (m_cache_block_info_array s)) s).
Proof.
  intros Hu Hi Hb j k bj bk. cbn. rewrite !list_lookup_insert.
  intros Hj Hk Hv Ht.
  assert (Hv' : isValid bk = true) by (unfold isValid in *; by rewrite <- Ht).
  assert (Hin : forall x bx, m_cache_block_info_array s !! x = Some bx -> isValid bx = true ->
            m_tag bx = m_tag b -> isValid b = true -> False).
  { intros x bx Hx Hvx Hxt Hvb. apply (Hb Hvb), elem_of_valid_tags. eauto. }
  repeat case_decide; destruct_and?; simplify_eq; try done; try (by eapply Hu).
  - exfalso. by eapply Hin.
  - exfalso. by eapply Hin.
Qed.

End set_lemmas.

(** An object that can receive the clone of any block of the set. *)
Definition receives (ty : cache_t) (ev : CacheBlockInfo) : Prop :=
  forall b, block_kind ty b -> same_kind ev b.

Lemma slice_Ok l from n : from + n <= length l -> exists x, slice l from n = Ok x /\ length x = n.
Proof.
  intros. unfold slice. rewrite decide_True by done. eexists. split; [done|].
  rewrite length_take, length_drop. lia.
Qed.

Lemma splice_Ok l from d :
  from + length d <= length l -> exists x, splice l from d = Ok x /\ length x = length l.
Proof.
  intros. unfold splice. rewrite decide_True by done. eexists. split; [done|].
  rewrite !length_app, length_take, length_drop. lia.
Qed.

(** Two states of a set that differ in data and counters only. *)
Definition same_blocks (s s' : CacheSetBase) : Prop :=
  m_cache_block_info_array s' = m_cache_block_info_array s /\
  m_associativity s' = m_associativity s /\ m_num_active_ways s' = m_num_active_ways s /\
  cs_blocksize s' = cs_blocksize s.

Lemma evict_victim_spec ty s i old ev want :
  set_wf ty s -> i < m_associativity s -> m_cache_block_info_array s !! i = Some old ->
  receives ty ev ->
  exists info data s', evict_victim s i old ev want = Ok (isValid old, info, data, s') /\
    same_blocks s s' /\ set_wf ty s' /\ (isValid old = true -> clone ev old = Ok info).
Proof.
  intros Hwf Hi Hold Hr. unfold evict_victim.
  assert (Hk : block_kind ty old) by (eapply Forall_lookup_1; [apply Hwf|done]).
  destruct (isValid old); [|by eexists _, _, s].
  destruct (clone_Ok ev old (Hr old Hk)) as (info & Hc & _). rewrite Hc. cbn [mbind res_bind].
  assert (set_wf ty (count_eviction s)) by (destruct Hwf; by split).
  destruct want, (m_blocks s) as [d|] eqn:Hd; cbn [mbind res_bind]; try by eexists _, _, _.
  destruct (slice_Ok d (i * Z.to_nat (cs_blocksize s)) (Z.to_nat (cs_blocksize s))) as (x & -> & _).
  - rewrite (set_wf_data _ _ Hwf d Hd). nia.
  - by eexists _, _, _.
Qed.

Lemma fill_line_spec ty s i fill :
  set_wf ty s -> i < m_associativity s ->
  (forall d, fill = Some d -> Z.to_nat (cs_blocksize s) <= length d) ->
  exists s', fill_line s i fill = Ok s' /\ same_blocks s s' /\ set_wf ty s'.
Proof.
  intros Hwf Hi Hf. unfold fill_line.
  destruct fill as [src|], (m_blocks s) as [d|] eqn:Hd; try by exists s.
  destruct (slice_Ok src 0 (Z.to_nat (cs_blocksize s))) as (x & -> & Hx); [by apply Hf|].
  pose proof (set_wf_data _ _ Hwf d Hd) as Hl. cbn [mbind res_bind].
  destruct (splice_Ok d (i * Z.to_nat (cs_blocksize s)) x) as (d' & -> & Hd'); [rewrite Hx; nia|].
  cbn [mbind res_bind]. eexists. split_and!; [done..|].
  destruct Hwf. split; cbn; try done. intros y [= <-]. by rewrite Hd'.
Qed.

Section insert_lemmas.
Context {P : Type} `{!ReplacementPolicy P} `{!ReplacementPolicyLaws P}.
Implicit Types (c : CacheSet P) (e : ReplEnv) (r : insert_result P).

(** [insert] succeeds whenever the policy returns a victim, and replaces exactly
    the victim's block by a clone of the new one. *)
Lemma set_insert_spec ty c info fill ev want e i p' e' :
  set_wf ty (base c) -> policy_wf (base c) (policy c) (set_info e) ->
  block_kind ty info -> receives ty ev ->
  (forall d, fill = Some d -> Z.to_nat (cs_blocksize (base c)) <= length d) ->
  getReplacementIndex (base c) (policy c) e = Ok (i, p', e') ->
  exists old new r,
    m_cache_block_info_array (base c) !! i = Some old /\ clone old info = Ok new /\
    set_insert c info fill ev want e = Ok r /\
    eviction r = isValid old /\ (isValid old = true -> clone ev old = Ok (evict_block_info r)) /\
    same_blocks (set_array (<[i := new]> (m_cache_block_info_array (base c))) (base c))
      (base (ins_set r)) /\
    policy (ins_set r) = p' /\ ins_env r = e' /\ set_wf ty (base (ins_set r)).
Proof.
  intros Hwf Hp Hk Hr Hf Hg.
  destruct (getReplacementIndex_range _ _ _ _ _ _ _ Hwf Hp Hg) as [Hi _].
  destruct (array_lookup _ _ Hwf i Hi) as (old & Hold & Hkold).
  destruct (clone_Ok old info (same_kind_block_kind _ _ _ Hkold Hk)) as (new & Hnew & _).
  destruct (evict_victim_spec _ _ _ _ ev want Hwf Hi Hold Hr)
    as (info' & data & s1 & Hev & (Ea & Eas & Eac & Ebs) & Hw1 & Hinfo).
  assert (Hw2 : set_wf ty (set_array (<[i := new]> (m_cache_block_info_array s1)) s1)).
  { apply (set_wf_replace _ _ Hw1). by eapply block_kind_clone. }
  destruct (fill_line_spec _ _ i fill Hw2) as (s2 & Hfill & (Fa & Fas & Fac & Fbs) & Hw3).
  { cbn. by rewrite Eas. }
  { cbn. by rewrite Ebs. }
  exists old, new, (mkInsert (isValid old) info' data (mkCacheSet (count_insert s2) p') e').
  split_and!; try done.
  - unfold set_insert. rewrite Hg. cbn [mbind res_bind].
    rewrite (proj2 (Nat.ltb_lt _ _) Hi). cbn [check mbind res_bind].
    rewrite (proj2 (rd_Ok _ _ _) Hold). cbn [mbind res_bind]. rewrite Hev. cbn [mbind res_bind].
    rewrite Hnew. cbn [mbind res_bind].
    rewrite wr_lt by (by rewrite Ea, (set_wf_array _ _ Hwf)). cbn [mbind res_bind]. by rewrite Hfill.
  - unfold same_blocks in *. cbn in *. by rewrite Fa, Fas, Fac, Fbs, Ea, Eas, Eac, Ebs.
  - cbn. destruct Hw3. by split.
Qed.

(** The abstract effect of an insertion: the new tag enters, and exactly the
    reported victim, if any, leaves. *)
Lemma set_insert_tags ty c info fill ev want e i p' e' :
  set_wf ty (base c) -> policy_wf (base c) (policy c) (set_info e) -> unique_tags (base c) ->
  block_kind ty info -> receives ty ev ->
  (forall d, fill = Some d -> Z.to_nat (cs_blocksize (base c)) <= length d) ->
  isValid info = true -> m_tag info ∉ valid_tags (base c) ->
  getReplacementIndex (base c) (policy c) e = Ok (i, p', e') ->
  exists r, set_insert c info fill ev want e = Ok r /\
    valid_tags (base (ins_set r)) =
      {[m_tag info]} ∪ (if eviction r then valid_tags (base c) ∖ {[m_tag (evict_block_info r)]}
                        else valid_tags (base c)) /\
    (eviction r = true -> m_tag (evict_block_info r) ∈ valid_tags (base c)) /\
    unique_tags (base (ins_set r)) /\ set_wf ty (base (ins_set r)) /\
    policy_wf (base (ins_set r)) (policy (ins_set r)) (set_info (ins_env r)) /\
    info_shape (set_info e) (set_info (ins_env r)) /\
    m_associativity (base (ins_set r)) = m_associativity (base c) /\
    m_num_active_ways (base (ins_set r)) = m_num_active_ways (base c).
Proof.
  intros Hwf Hp Hu Hk Hr Hf Hv Hnin Hg.
  destruct (set_insert_spec _ _ _ _ _ want _ _ _ _ Hwf Hp Hk Hr Hf Hg)
    as (old & new & r & Hold & Hnew & Hins & Hev & Hinfo & (Sa & Sas & Sac & _) & Hpol & Henv & Hw').
  destruct (getReplacementIndex_range _ _ _ _ _ _ _ Hwf Hp Hg) as (Hi & Hp' & Hsh).
  destruct (clone_fields _ _ _ Hnew) as (Htag & _).
  assert (Hvn : isValid new = true) by (by rewrite (isValid_clone _ _ _ Hnew)).
  exists r. split_and!; try done.
  - rewrite (valid_tags_ext _ _ Sa). apply set_eq. intros t.
    rewrite (valid_tags_replace _ _ old _ _ Hu Hold), Htag, Hev.
    destruct (isValid old) eqn:Eo.
    + destruct (clone_fields _ _ _ (Hinfo eq_refl)) as (-> & _). set_solver.
    + set_solver.
  - rewrite Hev. intros Eo. destruct (clone_fields _ _ _ (Hinfo Eo)) as (-> & _).
    apply elem_of_valid_tags. eauto.
  - eapply unique_tags_ext; [symmetry; exact Sa|]. apply unique_tags_replace; try done.
    intros _. by rewrite Htag.
  - rewrite Hpol, Henv. by eapply policy_wf_ext; [| |exact Hp'].
  - by rewrite Henv.
Qed.

End insert_lemmas.

(** [invalidate] removes exactly the tag it is given. *)
Lemma set_invalidate_spec ty s tag :
  set_wf ty s -> unique_tags s -> tag <> INVALID_TAG ->
  exists s', set_invalidate s tag = Ok (bool_decide (tag ∈ valid_tags s), s') /\
    valid_tags s' = valid_tags s ∖ {[tag]} /\ unique_tags s' /\ set_wf ty s' /\
    m_associativity s' = m_associativity s /\ m_num_active_ways s' = m_num_active_ways s /\
    cs_blocksize s' = cs_blocksize s.
Proof.
  intros Hwf Hu Hne. unfold set_invalidate. destruct (decide (tag ∈ valid_tags s)) as [Hin|Hin].
  - destruct (set_find_is_Some _ _ Hwf tag Hin) as [i Hf]. rewrite Hf. cbn [mbind res_bind].
    destruct (set_find_Some _ _ Hwf tag i Hf) as (Hi & b & Hb & Ht).
    rewrite (proj2 (rd_Ok _ _ _) Hb). cbn [mbind res_bind].
    rewrite wr_lt by (by rewrite (set_wf_array _ _ Hwf)). cbn [mbind res_bind].
    eexists. rewrite bool_decide_true by done. split_and!; try done.
    + apply set_eq. intros t. rewrite (valid_tags_replace _ _ b _ _ Hu Hb).
      rewrite isValid_invalidate, Ht, isValid_tag, Ht. set_solver.
    + by apply unique_tags_replace; rewrite ?isValid_invalidate.
    + apply set_wf_replace; [done|]. apply block_kind_invalidate.
      eapply Forall_lookup_1; [apply Hwf|done].
  - rewrite (proj2 (set_find_None _ _ Hwf tag Hne) Hin). cbn [mbind res_bind].
    exists s. rewrite bool_decide_false by done. split_and!; try done. set_solver.
Qed.

(** The block left in a way by [invalidateTLB]. *)
Definition tlb_invalidated (tag ps : Z) (b : CacheBlockInfo) : CacheBlockInfo :=
  if (m_tag b =? tag)%Z && (m_page_size b =? ps)%Z then block_invalidate b else b.

Lemma tlb_invalidated_idem tag ps b :
  tag <> INVALID_TAG -> tlb_invalidated tag ps (tlb_invalidated tag ps b) = tlb_invalidated tag ps b.
Proof.
  intros Hne. unfold tlb_invalidated.
  destruct ((m_tag b =? tag)%Z && (m_page_size b =? ps)%Z) eqn:E; [|by rewrite E].
  rewrite m_tag_invalidate. apply not_eq_sym, Z.eqb_neq in Hne. by rewrite Hne.
Qed.

Lemma block_kind_tlb_invalidated ty tag ps b :
  block_kind ty b -> block_kind ty (tlb_invalidated tag ps b).
Proof. unfold tlb_invalidated. destruct (_ && _); [apply block_kind_invalidate|done]. Qed.

Lemma set_wf_count_invalidation ty s : set_wf ty s -> set_wf ty (count_invalidation s).
Proof. intros []. by split. Qed.

Lemma invalidateTLB_step_eq ty tag ps f s k bk :
  set_wf ty s -> m_cache_block_info_array s !! k = Some bk ->
  invalidateTLB_step tag ps (f, s) k =
    if has_tag_size s tag ps k
    then Ok (true, count_invalidation
               (set_array (<[k := block_invalidate bk]> (m_cache_block_info_array s)) s))
    else Ok (f, s).
Proof.
  intros Hwf Hbk. unfold invalidateTLB_step, has_tag_size. rewrite (proj2 (rd_Ok _ _ _) Hbk), Hbk.
  cbn [mbind res_bind]. destruct (_ && _); [|done].
  by rewrite wr_lt by (by eapply lookup_lt_Some).
Qed.

Lemma invalidateTLB_loop ty tag ps idx f s :
  tag <> INVALID_TAG -> set_wf ty s -> (forall i, i ∈ idx -> i < m_associativity s) ->
  exists f' s', fold_loop (invalidateTLB_step tag ps) (f, s) idx = Ok (f', s') /\ set_wf ty s' /\
    m_associativity s' = m_associativity s /\ m_num_active_ways s' = m_num_active_ways s /\
    f' = f || existsb (has_tag_size s tag ps) idx /\
    forall i b, m_cache_block_info_array s !! i = Some b ->
      m_cache_block_info_array s' !! i =
        Some (if bool_decide (i ∈ idx) then tlb_invalidated tag ps b else b).
Proof.
  intros Hne. revert f s. induction idx as [|k idx IH]; intros f s Hwf Hin.
  { exists f, s. cbn [existsb]. by rewrite orb_false_r. }
  assert (Hk : k < m_associativity s) by (apply Hin, list_elem_of_here).
  destruct (array_lookup _ _ Hwf k Hk) as (bk & Hbk & Hkind). cbn [fold_loop existsb].
  rewrite (invalidateTLB_step_eq ty tag ps f s k bk Hwf Hbk).
  assert (Eh : has_tag_size s tag ps k = (m_tag bk =? tag)%Z && (m_page_size bk =? ps)%Z).
  { unfold has_tag_size. by rewrite Hbk. }
  destruct (has_tag_size s tag ps k) eqn:Et; symmetry in Eh; cbn [mbind res_bind].
  - set (s1 := count_invalidation _).
    assert (Hs1 : set_wf ty s1).
    { apply set_wf_count_invalidation, set_wf_replace; [done|]. by apply block_kind_invalidate. }
    destruct (IH true s1 Hs1) as (f' & s' & -> & Hw' & Ha & Hn & Hf & Hb).
    { intros i Hi. cbn. apply Hin. by right. }
    exists f', s'. split_and!; try done; [by rewrite Hf, orb_true_r|].
    assert (Einv : block_invalidate bk = tlb_invalidated tag ps bk) by (unfold tlb_invalidated; by rewrite Eh).
    intros i b Hib. destruct (decide (i = k)) as [->|Hik].
    + rewrite Hbk in Hib. injection Hib as <-.
      rewrite (Hb k (tlb_invalidated tag ps bk)) by (cbn; rewrite list_lookup_insert_eq, Einv; [done|];
        by rewrite (set_wf_array _ _ Hwf)).
      rewrite tlb_invalidated_idem by done.
      rewrite (bool_decide_true (k ∈ k :: idx)) by apply list_elem_of_here. by case_bool_decide.
    + rewrite (Hb i b) by (cbn; by rewrite list_lookup_insert_ne).
      f_equal. erewrite bool_decide_ext; [done|]. rewrite elem_of_cons. naive_solver.
  - cbn [mbind res_bind]. destruct (IH f s Hwf) as (f' & s' & -> & Hw' & Ha & Hn & Hf & Hb).
    { intros i Hi. apply Hin. by right. }
    exists f', s'. split_and!; try done. intros i b Hib. rewrite (Hb i b Hib).
    destruct (decide (i = k)) as [->|Hik].
    + rewrite Hbk in Hib. injection Hib as <-.
      assert (tlb_invalidated tag ps bk = bk) as -> by (unfold tlb_invalidated; by rewrite Eh).
      by repeat case_bool_decide.
    + f_equal. erewrite bool_decide_ext; [done|]. rewrite elem_of_cons. naive_solver.
Qed.

(** [invalidateTLB] invalidates every way that holds the pair and no other way. *)
Lemma set_invalidateTLB_spec ty s tag ps :
  tag <> INVALID_TAG -> set_wf ty s ->
  exists s', set_invalidateTLB s tag ps = Ok (existsb (has_tag_size s tag ps) (ways_down s), s') /\
    set_wf ty s' /\ m_associativity s' = m_associativity s /\
    m_cache_block_info_array s' = tlb_invalidated tag ps <$> m_cache_block_info_array s.
Proof.
  intros Hne Hwf.
  destruct (invalidateTLB_loop ty tag ps (ways_down s) false s Hne Hwf)
    as (f' & s' & Hl & Hw' & Ha & _ & Hf & Hb).
  { intros i. by rewrite elem_of_ways_down. }
  exists s'. split_and!; try done.
  - unfold set_invalidateTLB. rewrite Hl, Hf. done.
  - apply list_eq. intros i. rewrite list_lookup_fmap.
    destruct (m_cache_block_info_array s !! i) as [b|] eqn:Hi; cbn.
    + rewrite (Hb i b Hi), bool_decide_true; [done|]. apply elem_of_ways_down.
      rewrite <- (set_wf_array _ _ Hwf). by eapply lookup_lt_Some.
    + apply lookup_ge_None in Hi. apply lookup_ge_None.
      by rewrite (set_wf_array _ _ Hw'), Ha, <- (set_wf_array _ _ Hwf).
Qed.
