(* ===== verification/Replacement.v ===== *)
(** * Replacement policies

    One module per policy of [memory_subsystem/cache]: [CacheSetLRU] (with
    query-based selection), [CacheSetMRU], [CacheSetNMRU], [CacheSetNRU],
    [CacheSetPLRU], [CacheSetSRRIP], [CacheSetRandom] and [CacheSetRoundRobin].
    Each is an instance of [CacheSet.ReplacementPolicy] and of its laws, so that
    the theorems on sets and caches hold of every policy. *)

From Stdlib Require Import ZArith Lia.
From stdpp Require Import base tactics numbers list.
From S2P Require Import Prelude Utils CacheBase CacheBlock CacheSet.
Local Open Scope nat_scope.

(** ** Shared by the policies *)

(** The loop over the active ways that looks for a block without valid tag. *)
Definition find_invalid (s : CacheSetBase) : res (option nat) :=
  find_loop (fun i => b ← rd (m_cache_block_info_array s) i; Ok (negb (isValid b)))
    (seq 0 (m_num_active_ways s)).

(** Truncation of an index to [UInt8]. *)
Definition byte_of (i : nat) : nat := i `mod` 256.

(** [m_lru_bits[i] = i]. *)
Definition init_bits (associativity : nat) : list Z :=
  (fun i => u8 (Z.of_nat i)) <$> seq 0 associativity.

(** Age the ways younger than the accessed one, then make that one the youngest. *)
Definition age_step (accessed_index : nat) (bits : list Z) (i : nat) : res (list Z) :=
  x ← rd bits i;
  a ← rd bits accessed_index;
  if (x <? a)%Z then wr bits i (u8 (x + 1)) else Ok bits.
Definition make_youngest (associativity : nat) (bits : list Z) (accessed_index : nat)
  : res (list Z) :=
  bits ← fold_loop (age_step accessed_index) bits (seq 0 associativity);
  wr bits accessed_index 0%Z.

Lemma find_invalid_pure ty s :
  set_wf ty s -> find_invalid s = Ok (first_such (free_way s) (seq 0 (m_num_active_ways s))).
Proof.
  intros Hwf. apply find_loop_pure. intros i Hi%elem_of_seq. pose proof (set_wf_ways _ _ Hwf).
  destruct (array_lookup _ _ Hwf i ltac:(lia)) as (b & Hb & _). unfold rd, free_way.
  rewrite Hb, (proj2 (Nat.ltb_lt _ _)) by lia. done.
Qed.

(** [find_invalid] as a case analysis: the first free way, or none. *)
Lemma find_invalid_cases ty s :
  set_wf ty s ->
  (exists i, find_invalid s = Ok (Some i) /\ free_way s i = true /\ i < m_num_active_ways s /\
     first_such (free_way s) (seq 0 (m_num_active_ways s)) = Some i) \/
  (find_invalid s = Ok None /\ first_such (free_way s) (seq 0 (m_num_active_ways s)) = None).
Proof.
  intros Hwf. rewrite (find_invalid_pure _ _ Hwf).
  destruct (first_such _ _) as [i|] eqn:E; [left|right; done]. exists i.
  apply first_such_Some in E as H. destruct H as [Hi%elem_of_seq Hf]. split_and!; try done. lia.
Qed.

(** ** The recency order

    The abstract state of the policies that age counters: the ways from the most to
    the least recently used. The counter of a way is its position in that order. *)

Definition recency (bits : list Z) (order : list nat) : Prop :=
  order ≡ₚ seq 0 (length bits) /\
  forall pos way, order !! pos = Some way -> bits !! way = Some (Z.of_nat pos).

(** An access moves the way to the front. *)
Definition touch (way : nat) (order : list nat) : list nat :=
  way :: filter (fun v => v <> way) order.

Section recency.
Implicit Types (bits : list Z) (order : list nat).

Lemma recency_NoDup bits order : recency bits order -> NoDup order.
Proof. intros [-> _]. apply NoDup_seq. Qed.

Lemma recency_length bits order : recency bits order -> length order = length bits.
Proof. intros [H _]. by rewrite H, length_seq. Qed.

Lemma recency_elem bits order w : recency bits order -> w ∈ order <-> w < length bits.
Proof. intros [H _]. rewrite H, elem_of_seq. lia. Qed.

Lemma recency_lookup bits order w z :
  recency bits order -> bits !! w = Some z ->
  exists pos, z = Z.of_nat pos /\ order !! pos = Some w /\ pos < length bits.
Proof.
  intros Hr Hw. pose proof (lookup_lt_Some _ _ _ Hw) as Hlt.
  apply (recency_elem _ _ _ Hr) in Hlt. apply list_elem_of_lookup in Hlt as [pos Hp].
  exists pos. destruct Hr as [Hperm Hl]. rewrite (Hl _ _ Hp) in Hw. split_and!; [congruence|done|].
  rewrite <- (recency_length bits order) by (by split). by eapply lookup_lt_Some.
Qed.

Lemma init_bits_recency n : n <= 256 -> recency (init_bits n) (seq 0 n).
Proof.
  intros Hn. split; [unfold init_bits; by rewrite length_fmap, length_seq|].
  intros pos way H. apply lookup_seq in H as [-> Hp]. unfold init_bits.
  rewrite list_lookup_fmap, lookup_seq_lt by done. cbn. f_equal. apply wrap_small. split; lia.
Qed.

(** The last element with a property, from a position on. *)
Lemma last_filter_drop (P : nat -> Prop) `{!forall w, Decision (P w)} (l : list nat) n pos w :
  l !! pos = Some w -> n <= pos -> P w -> (forall q v, pos < q -> l !! q = Some v -> ~ P v) ->
  last (filter P (drop n l)) = Some w.
Proof.
  intros Hw Hn HP Hafter. assert (Hd : drop n l !! (pos - n) = Some w) by (rewrite lookup_drop, <- Hw; f_equal; lia).
  assert (Ha : forall q v, pos - n < q -> drop n l !! q = Some v -> ~ P v).
  { intros q v Hq Hv. rewrite lookup_drop in Hv. apply (Hafter (n + q)); [lia|done]. }
  revert Hd Ha. generalize (pos - n), (drop n l). clear - HP. intros k l Hk Ha.
  apply list_elem_of_split_length in Hk as (l1 & l2 & -> & ->).
  rewrite list.filter_app, list.filter_cons, decide_True, (filter_none _ l2) by
    (done || (intros v [q Hq]%list_elem_of_lookup; apply (Ha (length l1 + S q)); [lia|];
      rewrite lookup_app_r by lia; by replace (_ - _) with (S q) by lia)).
  by rewrite last_snoc.
Qed.

(** The counters after ageing, as a map over the counters. *)
Definition aged (a x : Z) : Z := if (x <? a)%Z then u8 (x + 1) else x.

Lemma age_loop bits acc a k :
  bits !! acc = Some a -> k <= length bits ->
  fold_loop (age_step acc) bits (seq 0 k) = Ok ((aged a <$> take k bits) ++ drop k bits).
Proof.
  intros Ha. induction k as [|k IH]; intros Hk; [done|].
  rewrite seq_S, Nat.add_0_l, fold_loop_app, IH by lia. cbn [mbind res_bind fold_loop].
  destruct (lookup_lt_is_Some_2 bits k ltac:(lia)) as [x Hx].
  set (l := (aged a <$> take k bits) ++ drop k bits).
  assert (Hlen : length (aged a <$> take k bits) = k).
  { rewrite length_fmap, length_take. lia. }
  assert (Hlk : l !! k = Some x).
  { unfold l. rewrite lookup_app_r by lia. rewrite Hlen, lookup_drop, Nat.sub_diag, Nat.add_0_r. done. }
  assert (Hla : l !! acc = Some a).
  { unfold l. destruct (decide (acc < k)).
    - rewrite lookup_app_l by lia. rewrite list_lookup_fmap, lookup_take_lt, Ha by done. cbn.
      unfold aged. by rewrite Z.ltb_irrefl.
    - rewrite lookup_app_r by lia. rewrite Hlen, lookup_drop, <- Ha. f_equal. lia. }
  assert (Hll : length l = length bits).
  { unfold l. rewrite length_app, Hlen, length_drop. lia. }
  assert (Hl' : <[k := aged a x]> l = (aged a <$> take (S k) bits) ++ drop (S k) bits).
  { unfold l. rewrite insert_app_r_alt by lia. rewrite Hlen, Nat.sub_diag.
    rewrite (drop_S bits x k Hx), (take_S_r bits k x Hx), fmap_app. cbn. by rewrite <- app_assoc. }
  unfold age_step. rewrite (proj2 (rd_Ok _ _ _) Hlk), (proj2 (rd_Ok _ _ _) Hla). cbn [mbind res_bind].
  rewrite <- Hl'. unfold aged at 1. destruct (x <? a)%Z.
  - by rewrite wr_lt by lia.
  - cbn. f_equal. by rewrite list_insert_id.
Qed.

Lemma make_youngest_eq bits acc a :
  bits !! acc = Some a ->
  make_youngest (length bits) bits acc = Ok (<[acc := 0%Z]> (aged a <$> bits)).
Proof.
  intros Ha. unfold make_youngest. rewrite (age_loop bits acc a) by done. cbn [mbind res_bind].
  rewrite take_ge, drop_ge, app_nil_r by done.
  rewrite wr_lt; [done|]. rewrite length_fmap. by eapply lookup_lt_Some.
Qed.

Lemma touch_split w l1 l2 : NoDup (l1 ++ w :: l2) -> touch w (l1 ++ w :: l2) = w :: l1 ++ l2.
Proof.
  intros Hnd. unfold touch. f_equal. apply list.NoDup_app in Hnd as (H1 & H2 & H3).
  apply list.NoDup_cons in H3 as [H3 H4]. rewrite list.filter_app, list.filter_cons.
  destruct (decide (w <> w)); [done|].
  rewrite !filter_id; [done| |]; intros x Hx ->; [done|].
  apply (H2 w Hx). apply list_elem_of_here.
Qed.

(** Ageing implements the move to the front. *)
Lemma make_youngest_touch bits order w :
  recency bits order -> length bits <= 256 -> w < length bits ->
  exists bits', make_youngest (length bits) bits w = Ok bits' /\ recency bits' (touch w order) /\
    length bits' = length bits.
Proof.
  intros Hr Hn Hw. pose proof (recency_NoDup _ _ Hr) as Hnd.
  assert (Hin : w ∈ order) by (by apply (recency_elem _ _ _ Hr)).
  apply list_elem_of_split in Hin as (l1 & l2 & ->). destruct Hr as [Hperm Hl].
  pose proof (Permutation_length Hperm) as Hlen. rewrite length_app, length_seq in Hlen. cbn in Hlen.
  pose proof (Hl (length l1) w ltac:(by apply list_lookup_middle)) as Hbw.
  rewrite (make_youngest_eq _ _ _ Hbw). eexists. split; [done|].
  rewrite length_insert, length_fmap. split; [|done]. rewrite touch_split by done. split.
  { rewrite length_insert, length_fmap, <- Hperm. by rewrite Permutation_middle. }
  intros [|q] v Hv; [cbn in Hv|change ((l1 ++ l2) !! q = Some v) in Hv].
  { injection Hv as <-. rewrite list_lookup_insert_eq; [done|]. by rewrite length_fmap. }
  assert (Hne : v <> w).
  { intros ->. apply list_elem_of_lookup_2, elem_of_app in Hv.
    apply list.NoDup_app in Hnd as (_ & H2 & [H3 _]%list.NoDup_cons). destruct Hv as [Hv|Hv]; [|done].
    apply (H2 w Hv). apply list_elem_of_here. }
  rewrite list_lookup_insert_ne, list_lookup_fmap by done. destruct (decide (q < length l1)) as [Hq|Hq].
  - rewrite lookup_app_l in Hv by done. rewrite (Hl q v) by (by rewrite lookup_app_l).
    cbn. unfold aged. rewrite (proj2 (Z.ltb_lt _ _)) by lia. f_equal. rewrite wrap_small by (split; lia). lia.
  - rewrite lookup_app_r in Hv by lia.
    rewrite (Hl (S q) v). { cbn. unfold aged. by rewrite (proj2 (Z.ltb_ge _ _)) by lia. }
    rewrite lookup_app_r by lia. by replace (S q - length l1) with (S (q - length l1)) by lia.
Qed.

End recency.

(** ** The statistics shared by the sets of one cache *)

Record info_wf (associativity attempts : nat) (si : CacheSetInfoLRU) : Prop := {
  info_wf_assoc : si_associativity si = associativity;
  info_wf_access : length (m_access si) = associativity;
  info_wf_attempts : match m_attempts si with
                     | Some a => length a = attempts | None => attempts <= 1 end
}.

(** What [LRU] and [SRRIP] need: the statistics object exists, and to choose a victim also
    the controller when query-based selection is on. *)
Definition info_ok (associativity attempts : nat) (si : option CacheSetInfoLRU) : Prop :=
  exists x, si = Some x /\ info_wf associativity attempts x.
Definition cntlr_ok (attempts : nat) (e : ReplEnv) : Prop := 1 < attempts -> is_Some (cntlr e).

(** The calls through [m_set_info]. *)
Definition env_increment (index : nat) (e : ReplEnv) : res ReplEnv :=
  si ← deref (set_info e);
  si ← info_increment index si;
  Ok (mkEnv (Some si) (cntlr e)).
Definition env_incrementAttempt (attempt : nat) (e : ReplEnv) : res ReplEnv :=
  si ← deref (set_info e);
  si ← info_incrementAttempt attempt si;
  Ok (mkEnv (Some si) (cntlr e)).

(** The query to the controller made by an attempt that is not the last one. *)
Definition qbs_query (s : CacheSetBase) (index : nat) (asked : bool) (e : ReplEnv) : res bool :=
  if asked then
    check (bool_decide (is_Some (cntlr e))) LogError;;
    c ← deref (cntlr e);
    b ← rd (m_cache_block_info_array s) index;
    Ok (isInLowerLevelCache c b)
  else Ok false.
Definition env_charge (e : ReplEnv) : res ReplEnv :=
  c ← deref (cntlr e);
  Ok (mkEnv (set_info e) (Some (incrementQBSLookupCost c))).

Section env_lemmas.
Context (n att : nat).

Lemma info_ok_shape si si' : info_shape si si' -> info_ok n att si -> info_ok n att si'.
Proof.
  intros Hsh (x & -> & [H1 H2 H3]). destruct si' as [y|]; [|done]. destruct Hsh as (E1 & E2 & E3).
  exists y. split; [done|]. split; [lia|lia|]. destruct (m_attempts x), (m_attempts y); try done. lia.
Qed.

Lemma env_increment_total e i :
  info_ok n att (set_info e) -> i < n ->
  exists e', env_increment i e = Ok e' /\ info_shape (set_info e) (set_info e') /\ cntlr e' = cntlr e.
Proof.
  intros (si & Hs & [H1 H2 H3]) Hi. unfold env_increment, info_increment.
  rewrite Hs. cbn [deref mbind res_bind]. rewrite H1, (proj2 (Nat.ltb_lt _ _)) by done. cbn [check mbind res_bind].
  destruct (rd_lookup (m_access si) i ltac:(lia)) as (x & -> & _). cbn [mbind res_bind].
  rewrite wr_lt by lia. eexists. split; [done|]. split; [|done]. cbn. rewrite length_insert.
  by destruct (m_attempts si).
Qed.

Lemma env_incrementAttempt_total e a :
  info_ok n att (set_info e) -> a < att ->
  exists e', env_incrementAttempt a e = Ok e' /\ info_shape (set_info e) (set_info e') /\ cntlr e' = cntlr e.
Proof.
  intros (si & Hs & [H1 H2 H3]) Ha. unfold env_incrementAttempt, info_incrementAttempt.
  rewrite Hs. cbn [deref mbind res_bind]. destruct (m_attempts si) as [l|] eqn:El.
  - destruct (rd_lookup l a ltac:(lia)) as (x & -> & _). cbn [mbind res_bind].
    rewrite wr_lt by lia. eexists. split; [done|]. split; [|done]. cbn. by rewrite El, length_insert.
  - rewrite (proj2 (Nat.eqb_eq a 0)) by lia. eexists. split; [done|]. split; [|done]. cbn. by rewrite El.
Qed.

Lemma qbs_query_total e s ty i (asked : bool) :
  cntlr_ok att e -> set_wf ty s -> i < m_associativity s -> (asked = true -> 1 < att) ->
  exists r, qbs_query s i asked e = Ok r.
Proof.
  intros Hc Hs Hi Ha. unfold qbs_query. destruct asked; [|by exists false].
  destruct (Hc (Ha eq_refl)) as [c Hc'].
  rewrite Hc'. rewrite bool_decide_true by done. cbn [check deref mbind res_bind].
  destruct (array_lookup _ _ Hs i Hi) as (b & Hb & _).
  rewrite (proj2 (rd_Ok _ _ _) Hb). cbn. by eexists.
Qed.

(** Only a query can reject, and it needs a controller to charge. *)
Lemma qbs_query_true e s i asked :
  qbs_query s i asked e = Ok true -> asked = true /\ is_Some (cntlr e).
Proof.
  unfold qbs_query. destruct asked; [|done]. intros H. split; [done|]. inv_res.
  by apply bool_decide_eq_true in E.
Qed.

Lemma env_charge_total e :
  is_Some (cntlr e) -> exists e', env_charge e = Ok e' /\ set_info e' = set_info e /\ is_Some (cntlr e').
Proof. intros [c Hc]. unfold env_charge. rewrite Hc. by eexists. Qed.

End env_lemmas.

(** Example sets: an L1 set of four valid blocks, and one whose blocks all wait for an
    upgrade. *)
Definition l1_blk (c : cstate_t) (t : Z) : CacheBlockInfo :=
  setCState c (setTag t (CacheBlockInfo_new PrL1CacheBlockInfo)).
Definition l1_set (active : nat) (blocks : list CacheBlockInfo) : CacheSetBase :=
  mkSet blocks None (length blocks) active 64 false 0 0 0.
Definition full4 : list CacheBlockInfo := l1_blk SHARED <$> [10; 11; 12; 13]%Z.
Definition upgrading4 : list CacheBlockInfo := l1_blk SHARED_UPGRADING <$> [10; 11; 12; 13]%Z.
Definition lru_env (n : nat) : ReplEnv := mkEnv (Some (CacheSetInfoLRU_new n 1)) None.

Lemma full4_wf : set_wf PR_L1_CACHE (l1_set 4 full4).
Proof. split; cbn; [done|lia|repeat constructor|lia|done]. Qed.

Lemma lru_env_wf n : info_ok n 1 (set_info (lru_env n)).
Proof. eexists. split; [done|]. split; cbn; [done|by rewrite length_replicate|lia]. Qed.

(** ** LRU, with query-based selection *)

Module LRU.

Record CacheSetLRU := mkLRU { m_num_attempts : nat; m_lru_bits : list Z }.

Definition new (associativity num_attempts : nat) : CacheSetLRU :=
  mkLRU num_attempts (init_bits associativity).

Definition moveToMRU (s : CacheSetBase) (accessed_index : nat) (p : CacheSetLRU) : res CacheSetLRU :=
  bits ← make_youngest (m_associativity s) (m_lru_bits p) accessed_index;
  Ok (mkLRU (m_num_attempts p) bits).

(** One step of the search for the largest counter among the valid replacements. *)
Definition lru_step (s : CacheSetBase) (bits : list Z) (acc : nat * Z) (i : nat) : res (nat * Z) :=
  let '(index, max_bits) := acc in
  x ← rd bits i;
  if (max_bits <? x)%Z then
    v ← isValidReplacement s i;
    if v : bool then Ok (i, x) else Ok (index, max_bits)
  else Ok (index, max_bits).

Definition lru_search (s : CacheSetBase) (bits : list Z) : res nat :=
  '(index, _) ← fold_loop (lru_step s bits) (0, 0%Z) (seq 0 (m_associativity s));
  Ok index.

(** The attempts at evicting the block at the LRU position; all but the last one ask
    the controller first. *)
Fixpoint evict_attempts (s : CacheSetBase) (attempts : list nat) (p : CacheSetLRU) (e : ReplEnv)
  : res (nat * CacheSetLRU * ReplEnv) :=
  match attempts with
  | [] => Err LogError
  | attempt :: rest =>
      index ← lru_search s (m_lru_bits p);
      check (index <? m_associativity s) LogError;;
      qbs_reject ← qbs_query s index (S attempt <? m_num_attempts p) e;
      if qbs_reject : bool then
        p ← moveToMRU s index p;
        e ← env_charge e;
        evict_attempts s rest p e
      else
        p ← moveToMRU s index p;
        e ← env_incrementAttempt attempt e;
        Ok (index, p, e)
  end.

Definition getReplacementIndex (s : CacheSetBase) (p : CacheSetLRU) (e : ReplEnv)
  : res (nat * CacheSetLRU * ReplEnv) :=
  o ← find_invalid s;
  match o with
  | Some i => p ← moveToMRU s i p; Ok (i, p, e)
  | None => evict_attempts s (seq 0 (m_num_attempts p)) p e
  end.

Definition updateReplacementIndex (s : CacheSetBase) (accessed_index : nat) (p : CacheSetLRU)
    (e : ReplEnv) : res (CacheSetLRU * ReplEnv) :=
  x ← rd (m_lru_bits p) accessed_index;
  e ← env_increment (Z.to_nat x) e;
  p ← moveToMRU s accessed_index p;
  Ok (p, e).

Definition getRecencyBits (p : CacheSetLRU) (way : nat) : res Z := rd (m_lru_bits p) way.

#[global] Instance LRU_policy : ReplacementPolicy CacheSetLRU := {
  CacheSet.getReplacementIndex := getReplacementIndex;
  CacheSet.updateReplacementIndex := updateReplacementIndex;
  CacheSet.getRecencyBits := getRecencyBits
}.

(** The invariant: the counters are the positions of an order of all the ways. *)
Record wf (s : CacheSetBase) (p : CacheSetLRU) (si : option CacheSetInfoLRU) : Prop := {
  wf_length : length (m_lru_bits p) = m_associativity s;
  wf_byte : m_associativity s <= 256;
  wf_order : exists order, recency (m_lru_bits p) order;
  wf_attempts : 0 < m_num_attempts p;
  wf_env : info_ok (m_associativity s) (m_num_attempts p) si
}.

(** The victim in terms of the recency order: the least recently used way that may be
    evicted, the most recently used way never being considered; way 0 when there is none. *)
Definition lru_victim (s : CacheSetBase) (order : list nat) : nat :=
  default 0 (last (filter (fun w => evictable_way s w = true) (tail order))).

Section lemmas.
Context (ty : cache_t) (s : CacheSetBase) (Hs : set_wf ty s).

Lemma moveToMRU_touch p order w :
  length (m_lru_bits p) = m_associativity s -> m_associativity s <= 256 ->
  recency (m_lru_bits p) order -> w < m_associativity s ->
  exists p', moveToMRU s w p = Ok p' /\ recency (m_lru_bits p') (touch w order) /\
    length (m_lru_bits p') = m_associativity s /\ m_num_attempts p' = m_num_attempts p.
Proof.
  intros Hl Hn Hr Hw. unfold moveToMRU. rewrite <- Hl in *.
  destruct (make_youngest_touch _ _ w Hr Hn Hw) as (b & -> & Hb & Hlb). by eexists.
Qed.

(** The loop invariant of the search. *)
Lemma lru_loop bits k :
  length bits = m_associativity s -> k <= m_associativity s -> Forall (fun z => (0 <= z)%Z) bits ->
  exists i m, fold_loop (lru_step s bits) (0, 0%Z) (seq 0 k) = Ok (i, m) /\
    ((i = 0 /\ m = 0%Z) \/ (evictable_way s i = true /\ bits !! i = Some m /\ (0 < m)%Z)) /\
    forall j x, j < k -> bits !! j = Some x -> evictable_way s j = true -> (x <= m)%Z.
Proof.
  intros Hl. induction k as [|k IH]; intros Hk Hpos.
  { exists 0, 0%Z. split_and!; [done|by left|lia]. }
  destruct (IH ltac:(lia) Hpos) as (i & m & Hf & Hi & Hmax).
  rewrite seq_S, Nat.add_0_l, fold_loop_app, Hf. cbn [mbind res_bind fold_loop]. unfold lru_step.
  destruct (lookup_lt_is_Some_2 bits k ltac:(lia)) as [x Hx].
  rewrite (proj2 (rd_Ok _ _ _) Hx). cbn [mbind res_bind].
  rewrite (isValidReplacement_pure _ _ Hs). cbn [mbind res_bind].
  assert (Hm : (0 <= m)%Z) by (destruct Hi as [[_ ->]|(_ & _ & ?)]; lia).
  destruct (Z.ltb_spec m x); [destruct (evictable_way s k) eqn:Ev|]; cbn [mbind res_bind];
    eexists _, _; (split; [done|]).
  - split; [right; split_and!; [done|done|lia]|].
    intros j y Hj Hy Hev. destruct (decide (j = k)) as [->|].
    + rewrite Hx in Hy. injection Hy as ->. lia.
    + assert (y <= m)%Z by (apply (Hmax j); [lia|done|done]). lia.
  - split; [done|]. intros j y Hj Hy Hev. destruct (decide (j = k)) as [->|]; [congruence|].
    apply (Hmax j); [lia|done|done].
  - split; [done|]. intros j y Hj Hy Hev. destruct (decide (j = k)) as [->|].
    + rewrite Hx in Hy. injection Hy as ->. lia.
    + apply (Hmax j); [lia|done|done].
Qed.

Lemma recency_pos bits order : recency bits order -> Forall (fun z => (0 <= z)%Z) bits.
Proof.
  intros Hr. apply Forall_lookup. intros i x Hx.
  destruct (recency_lookup _ _ _ _ Hr Hx) as (pos & -> & _). lia.
Qed.

(** The search computes the abstract victim. *)
Lemma lru_search_victim bits order :
  recency bits order -> length bits = m_associativity s ->
  lru_search s bits = Ok (lru_victim s order).
Proof.
  intros Hr Hl. unfold lru_search.
  destruct (lru_loop bits (m_associativity s) Hl (le_n _) (recency_pos _ _ Hr))
    as (i & m & -> & Hi & Hmax). cbn [mbind res_bind]. f_equal. unfold lru_victim.
  destruct Hi as [[-> ->]|(Hev & Hb & Hm)].
  - rewrite filter_none; [done|]. intros w Hw Hev.
    apply list_elem_of_lookup in Hw as [q Hq]. rewrite lookup_tail in Hq.
    pose proof (proj2 Hr _ _ Hq) as Hb. apply lookup_lt_Some in Hb as Hlt.
    specialize (Hmax w _ ltac:(lia) Hb Hev). lia.
  - destruct (recency_lookup _ _ _ _ Hr Hb) as (pos & -> & Ho & _).
    replace (tail order) with (drop 1 order) by (by destruct order). erewrite last_filter_drop; [done|exact Ho|lia|done|].
    intros q v Hq Hv Hev'. pose proof (proj2 Hr _ _ Hv) as Hbv. apply lookup_lt_Some in Hbv as Hlt.
    specialize (Hmax v _ ltac:(lia) Hbv Hev'). lia.
Qed.

Lemma lru_victim_range order :
  order ≡ₚ seq 0 (m_associativity s) -> lru_victim s order < m_associativity s.
Proof.
  intros Hp. unfold lru_victim. pose proof (set_wf_ways _ _ Hs).
  destruct (last _) as [w|] eqn:E; cbn; [|lia]. apply last_Some in E as [l El].
  assert (Hw : w ∈ filter (fun w => evictable_way s w = true) (tail order)).
  { rewrite El. apply elem_of_app. right. apply list_elem_of_here. }
  apply list_elem_of_filter in Hw as [_ Hw].
  assert (w ∈ order) as Hin by (destruct order; [done|by right]).
  rewrite Hp, elem_of_seq in Hin. lia.
Qed.

Lemma wf_moved p p' w order si :
  moveToMRU s w p = Ok p' -> w < m_associativity s -> recency (m_lru_bits p) order -> wf s p si ->
  wf s p' si /\ recency (m_lru_bits p') (touch w order) /\ m_num_attempts p' = m_num_attempts p.
Proof.
  intros Hm Hw Hr [Hl Hn _ Ha He].
  destruct (moveToMRU_touch p order w Hl Hn Hr Hw) as (q & Eq & Hr' & Hl' & Ha').
  rewrite Hm in Eq. injection Eq as <-. split_and!; [|done|done].
  split; [done|done|by eexists|lia|by rewrite Ha'].
Qed.

(** One attempt: it either returns a victim or starts the next one in a state that
    satisfies the invariant again. *)
Lemma evict_attempt p e k rest :
  wf s p (set_info e) -> k < m_num_attempts p ->
  exists i p', i < m_associativity s /\ wf s p' (set_info e) /\ m_num_attempts p' = m_num_attempts p /\
    evict_attempts s (k :: rest) p e =
      (rej ← qbs_query s i (S k <? m_num_attempts p) e;
       if rej : bool then e ← env_charge e; evict_attempts s rest p' e
       else e ← env_incrementAttempt k e; Ok (i, p', e)).
Proof.
  intros Hwf Hk. pose proof Hwf as [Hl Hn [order Hr] Ha He]. exists (lru_victim s order).
  assert (Hv : lru_victim s order < m_associativity s).
  { apply lru_victim_range. rewrite <- Hl. apply Hr. }
  destruct (moveToMRU_touch p order _ Hl Hn Hr Hv) as (p' & Hmv & _ & _ & _).
  destruct (wf_moved _ _ _ _ _ Hmv Hv Hr Hwf) as (Hwf' & _ & Ha').
  exists p'. split_and!; [done|done|done|]. cbn [evict_attempts].
  rewrite (lru_search_victim _ _ Hr Hl). cbn [mbind res_bind].
  rewrite (proj2 (Nat.ltb_lt _ _) Hv). cbn [check mbind res_bind].
  destruct (qbs_query _ _ _ _) as [[]|]; [| |done]; cbn [mbind res_bind]; by rewrite Hmv.
Qed.

(** Whatever the attempts return satisfies the laws. *)
Lemma evict_attempts_ok r k p e i p' e' :
  wf s p (set_info e) -> k + r = m_num_attempts p ->
  evict_attempts s (seq k r) p e = Ok (i, p', e') ->
  i < m_associativity s /\ wf s p' (set_info e') /\ info_shape (set_info e) (set_info e').
Proof.
  revert k p e. induction r as [|r IH]; intros k p e Hwf Hk; [done|]. cbn [seq].
  destruct (evict_attempt p e k (seq (S k) r) Hwf ltac:(lia)) as (j & q & Hj & Hq & Ha' & ->).
  destruct (qbs_query _ _ _ _) as [[]|] eqn:Eq; cbn [mbind res_bind]; [| |done].
  - apply qbs_query_true in Eq as [_ Hc]. destruct (env_charge_total _ Hc) as (f & -> & Ef & _).
    cbn [mbind res_bind]. intros H. rewrite <- Ef in Hq |- *. eapply (IH (S k)); [exact Hq|lia|exact H].
  - destruct (env_incrementAttempt_total _ _ e k (wf_env _ _ _ Hwf) ltac:(lia)) as (f & -> & Hsh & _).
    cbn [mbind res_bind]. intros [= <- <- <-]. split_and!; [done| |done].
    destruct Hq as [? ? ? ? He]. split; try done. by eapply info_ok_shape.
Qed.

(** The attempts always find a victim when the controller can be asked. *)
Lemma evict_attempts_total r k p e :
  wf s p (set_info e) -> cntlr_ok (m_num_attempts p) e -> k + S r = m_num_attempts p ->
  exists i p' e', evict_attempts s (seq k (S r)) p e = Ok (i, p', e').
Proof.
  revert k p e. induction r as [|r IH]; intros k p e Hwf Hc Hk.
  all: cbn [seq]; edestruct (evict_attempt p e k) as (j & q & Hj & Hq & Ha' & ->); [done|lia|].
  all: destruct (qbs_query_total _ e s ty j (S k <? m_num_attempts p) Hc Hs Hj) as [rej Er];
    [intros ?%Nat.ltb_lt; lia|]; rewrite Er; cbn [mbind res_bind].
  all: destruct (env_incrementAttempt_total _ _ e k (wf_env _ _ _ Hwf) ltac:(lia)) as (f & Ef & _).
  - rewrite (proj2 (Nat.ltb_ge _ _)) in Er by lia. injection Er as <-. rewrite Ef. by eexists _, _, _.
  - destruct rej; [|rewrite Ef; by eexists _, _, _].
    apply qbs_query_true in Er as [_ Hc']. destruct (env_charge_total _ Hc') as (g & -> & Eg & Hg).
    cbn [mbind res_bind]. apply (IH (S k)); [by rewrite Eg|by intros _|lia].
Qed.

Lemma getReplacementIndex_ok p e i p' e' :
  wf s p (set_info e) -> getReplacementIndex s p e = Ok (i, p', e') ->
  i < m_associativity s /\ wf s p' (set_info e') /\ info_shape (set_info e) (set_info e').
Proof.
  intros Hwf. unfold getReplacementIndex. pose proof (set_wf_ways _ _ Hs). pose proof Hwf as [Hl Hn [order Hr] Ha He].
  destruct (find_invalid_cases _ _ Hs) as [(j & -> & _ & Hi & _)|[-> _]]; cbn [mbind res_bind].
  - destruct (moveToMRU s j p) as [q|] eqn:Em; [|done]. cbn [mbind res_bind]. intros [= <- <- <-].
    destruct (wf_moved _ _ _ _ _ Em ltac:(lia) Hr Hwf) as (Hq & _). split_and!; [lia|done|done].
  - by apply evict_attempts_ok.
Qed.

Lemma getReplacementIndex_total p e :
  wf s p (set_info e) -> cntlr_ok (m_num_attempts p) e ->
  exists i p' e', getReplacementIndex s p e = Ok (i, p', e').
Proof.
  intros Hwf Hc. unfold getReplacementIndex. pose proof (set_wf_ways _ _ Hs). pose proof Hwf as [Hl Hn [order Hr] Ha He].
  destruct (find_invalid_cases _ _ Hs) as [(i & -> & _ & Hi & _)|[-> _]]; cbn [mbind res_bind].
  - destruct (moveToMRU_touch p order i Hl Hn Hr ltac:(lia)) as (p' & -> & _). by eexists _, _, _.
  - destruct (m_num_attempts p) as [|r] eqn:Er; [lia|]. rewrite <- Er in Hc.
    by apply evict_attempts_total.
Qed.

End lemmas.

#[global] Instance LRU_laws : ReplacementPolicyLaws CacheSetLRU.
Proof.
  refine {| policy_wf := wf |}.
  - intros s s' p si si' E Hsh [? ? ? ? He]. split; rewrite <- ?E; try done. by eapply info_ok_shape.
  - intros ty s p e i p' e' Hs. by apply getReplacementIndex_ok with ty.
  - intros ty s p e i Hs Hwf Hi. cbn. unfold updateReplacementIndex. pose proof Hwf as [Hl Hn [order Hr] Ha He].
    destruct (rd_lookup (m_lru_bits p) i ltac:(lia)) as (x & -> & Hx). cbn [mbind res_bind].
    destruct (recency_lookup _ _ _ _ Hr Hx) as (pos & -> & _ & Hp). rewrite Nat2Z.id.
    destruct (env_increment_total _ _ e pos He ltac:(lia)) as (e' & -> & Hsh & _). cbn [mbind res_bind].
    destruct (moveToMRU_touch s p order i Hl Hn Hr Hi) as (p' & Em & Hr' & Hl' & Ha'). rewrite Em.
    destruct (wf_moved s _ _ _ _ _ Em Hi Hr Hwf) as ([] & _).
    eexists _, _. split_and!; [done| |done]. split; try done. by eapply info_ok_shape.
Defined.

#[global] Instance LRU_fills : FillsFreeWays CacheSetLRU.
Proof.
  intros ty s p e i Hs [Hl Hn [order Hr] Ha He] Hf. cbn. unfold getReplacementIndex.
  rewrite (find_invalid_pure _ _ Hs), Hf. cbn [mbind res_bind].
  apply first_such_Some in Hf as [Hi%elem_of_seq _]. pose proof (set_wf_ways _ _ Hs).
  destruct (moveToMRU_touch s p order i Hl Hn Hr ltac:(lia)) as (p' & -> & _). by eexists _, _.
Qed.

(** LRU needs a controller only for query-based selection. *)
#[global] Instance LRU_always : AlwaysVictim CacheSetLRU := {|
  victim_ready s p e := cntlr_ok (m_num_attempts p) e;
  always_victim ty s p e Hs Hw Hc := getReplacementIndex_total ty s Hs p e Hw Hc
|}.

(** C22: [moveToMRU] implements the move to the front of the recency order: from counters
    that are the positions of the ways in [order] it computes, without fault and without
    overflow of the [UInt8] counters, the positions in [order] with the accessed way first. *)
Theorem moveToMRU_refines s p order w :
  length (m_lru_bits p) = m_associativity s -> m_associativity s <= 256 ->
  recency (m_lru_bits p) order -> w < m_associativity s ->
  exists p', moveToMRU s w p = Ok p' /\ recency (m_lru_bits p') (touch w order).
Proof.
  intros Hl Hn Hr Hw. destruct (moveToMRU_touch s p order w Hl Hn Hr Hw) as (p' & ? & ? & _). eauto.
Qed.

Lemma moveToMRU_refines_witness :
  exists p', moveToMRU (l1_set 4 full4) 2 (new 4 1) = Ok p' /\ recency (m_lru_bits p') [2; 0; 1; 3].
Proof.
  apply (moveToMRU_refines (l1_set 4 full4) (new 4 1) (seq 0 4) 2);
    [reflexivity|cbn; lia|apply init_bits_recency; lia|cbn; lia].
Defined.

(** The replacement decision without query-based selection. *)
Lemma lru_replaces ty s p e order :
  set_wf ty s -> wf s p (set_info e) -> m_num_attempts p = 1 -> recency (m_lru_bits p) order ->
  let victim := default (lru_victim s order)
                  (first_such (free_way s) (seq 0 (m_num_active_ways s))) in
  exists p' e', getReplacementIndex s p e = Ok (victim, p', e') /\
    recency (m_lru_bits p') (touch victim order).
Proof.
  intros Hs Hw Ha Hr. destruct Hw as [Hl Hn _ _ He]. cbn zeta. unfold getReplacementIndex.
  rewrite (find_invalid_pure _ _ Hs), Ha. cbn [mbind res_bind]. pose proof (set_wf_ways _ _ Hs).
  destruct (first_such _ _) as [i|] eqn:Ef; cbn [default].
  - apply first_such_Some in Ef as [Hi%elem_of_seq _].
    destruct (moveToMRU_touch s p order i Hl Hn Hr ltac:(lia)) as (p' & -> & Hr' & _). by eexists _, _.
  - cbn [seq evict_attempts]. rewrite (lru_search_victim _ _ Hs _ _ Hr Hl). cbn [mbind res_bind].
    assert (Hv : lru_victim s order < m_associativity s).
    { apply (lru_victim_range _ _ Hs). rewrite <- Hl. apply Hr. }
    rewrite (proj2 (Nat.ltb_lt _ _) Hv), Ha. cbn [check mbind res_bind qbs_query Nat.ltb Nat.leb].
    destruct (moveToMRU_touch s p order _ Hl Hn Hr Hv) as (p' & -> & Hr' & _). cbn [mbind res_bind].
    destruct (env_incrementAttempt_total _ _ e 0 He ltac:(lia)) as (e' & -> & _). by eexists _, _.
Qed.

(** Without query-based selection [getReplacementIndex] is LRU: it always returns; it
    returns the first free active way if there is one, otherwise the least recently used
    way among those that may be evicted; and the way it returns becomes the most recently
    used. *)
Theorem getReplacementIndex_lru ty s p e order :
  set_wf ty s -> wf s p (set_info e) -> m_num_attempts p = 1 -> recency (m_lru_bits p) order ->
  let victim := default (lru_victim s order)
                  (first_such (free_way s) (seq 0 (m_num_active_ways s))) in
  exists p' e', getReplacementIndex s p e = Ok (victim, p', e') /\
    recency (m_lru_bits p') (touch victim order).
Proof. apply lru_replaces. Qed.

Lemma new_wf ty s si att :
  set_wf ty s -> m_associativity s <= 256 -> 0 < att -> info_ok (m_associativity s) att si ->
  wf s (new (m_associativity s) att) si.
Proof.
  intros Hs Hn Ha He. split; try done.
  - cbn. unfold init_bits. by rewrite length_fmap, length_seq.
  - eexists. by apply init_bits_recency.
Qed.

Lemma getReplacementIndex_lru_witness :
  exists p' e', getReplacementIndex (l1_set 4 full4) (new 4 1) (lru_env 4) = Ok (3, p', e') /\
    recency (m_lru_bits p') [3; 0; 1; 2].
Proof.
  apply (getReplacementIndex_lru PR_L1_CACHE (l1_set 4 full4) (new 4 1) (lru_env 4) (seq 0 4)).
  - apply full4_wf.
  - apply (new_wf PR_L1_CACHE); [apply full4_wf|cbn; lia|lia|apply lru_env_wf].
  - reflexivity.
  - apply init_bits_recency. lia.
Defined.

(** Query-based selection terminates: whatever the controller answers, one of the
    [m_num_attempts] attempts returns a way of the set, and the counters remain the
    positions of the ways in some order. *)
Theorem getReplacementIndex_qbs_returns ty s p e :
  set_wf ty s -> wf s p (set_info e) -> cntlr_ok (m_num_attempts p) e ->
  exists i p' e', getReplacementIndex s p e = Ok (i, p', e') /\ i < m_associativity s /\
    wf s p' (set_info e').
Proof.
  intros Hs Hwf Hc. destruct (getReplacementIndex_total ty s Hs p e Hwf Hc) as (i & p' & e' & E).
  destruct (getReplacementIndex_ok ty s Hs _ _ _ _ _ Hwf E) as (? & ? & _). by eexists _, _, _.
Qed.

(** A controller that finds every block in a lower-level cache, asked three times. *)
Definition qbs_env : ReplEnv :=
  mkEnv (Some (CacheSetInfoLRU_new 4 3)) (Some (mkCntlr (fun _ => true) 0)).

Lemma getReplacementIndex_qbs_returns_witness :
  exists i p' e', getReplacementIndex (l1_set 4 full4) (new 4 3) qbs_env = Ok (i, p', e') /\
    i < 4 /\ wf (l1_set 4 full4) p' (set_info e').
Proof.
  apply (getReplacementIndex_qbs_returns PR_L1_CACHE (l1_set 4 full4) (new 4 3) qbs_env).
  - apply full4_wf.
  - apply (new_wf PR_L1_CACHE); [apply full4_wf|cbn; lia|lia|].
    eexists. split; [reflexivity|by split].
  - intros _. by eexists.
Defined.

(** The victims of the two rejected attempts are charged and become recently used. *)
Example qbs_third_choice :
  (fun r => r.1.1) <$> getReplacementIndex (l1_set 4 full4) (new 4 3) qbs_env = Ok 1.
Proof. vm_compute. reflexivity. Qed.

(** The most recently used way is evicted only as the fallback: when some other way may
    be evicted, the victim is a way that may be evicted, and no way that may be
    evicted is older in the recency order. *)
Theorem lru_victim_oldest s order w :
  w ∈ tail order -> evictable_way s w = true ->
  evictable_way s (lru_victim s order) = true /\
  exists l1 l2, order = l1 ++ lru_victim s order :: l2 /\
    Forall (fun v => evictable_way s v = false) l2.
Proof.
  intros Hw Hev. unfold lru_victim. destruct order as [|o order]; [by apply not_elem_of_nil in Hw|].
  cbn [tail] in *. induction order as [|x order IH] using rev_ind; [by apply not_elem_of_nil in Hw|].
  rewrite list.filter_app, list.filter_cons, list.filter_nil.
  destruct (decide (evictable_way s x = true)) as [Hx|Hx].
  - rewrite last_snoc. cbn. split; [done|]. exists (o :: order), []. by split.
  - rewrite app_nil_r. apply elem_of_app in Hw as [Hw|Hw].
    + destruct (IH Hw) as (H1 & l1 & l2 & E & H2). split; [done|]. exists l1, (l2 ++ [x]).
      rewrite app_comm_cons, E. split; [by rewrite <- app_assoc|]. apply Forall_app. split; [done|].
      apply Forall_singleton. by apply not_true_is_false.
    + apply list_elem_of_singleton in Hw. by subst.
Qed.

Lemma lru_victim_oldest_witness :
  evictable_way (l1_set 4 full4) (lru_victim (l1_set 4 full4) [0; 1; 2; 3]) = true /\
  exists l1 l2, [0; 1; 2; 3] = l1 ++ lru_victim (l1_set 4 full4) [0; 1; 2; 3] :: l2 /\
    Forall (fun v => evictable_way (l1_set 4 full4) v = false) l2.
Proof.
  apply (lru_victim_oldest (l1_set 4 full4) [0; 1; 2; 3] 1).
  - cbn. left.
  - reflexivity.
Defined.

(** The fallback to way 0 ignores [isValidReplacement]: in a set whose ways are all
    waiting for an upgrade the policy returns way 0, whose block is in transition. *)
Theorem lru_evicts_upgrading_block :
  exists p' e', getReplacementIndex (l1_set 4 upgrading4) (new 4 1) (lru_env 4) = Ok (0, p', e') /\
    isValidReplacement (l1_set 4 upgrading4) 0 = Ok false.
Proof. eexists _, _. split; vm_compute; reflexivity. Qed.

End LRU.
