(* ===== verification/Policies.v ===== *)
(** * The other replacement policies

    [CacheSetMRU], [CacheSetNMRU], [CacheSetNRU], [CacheSetPLRU], [CacheSetRandom] and
    [CacheSetRoundRobin], one module each, as instances of
    [CacheSet.ReplacementPolicy] and its laws. All but [CacheSetRoundRobin] fill
    free ways first and never evict a block in transition. *)

From Stdlib Require Import ZArith Lia.
From stdpp Require Import base tactics numbers list.
From S2P Require Import Prelude Utils CacheBase CacheBlock CacheSet Replacement.
Local Open Scope nat_scope.

(** The cyclic walk of [NMRU] and [NRU] over the ways: from the replacement pointer, the
    first way that passes the test, and the pointer after the walk. *)
Fixpoint pointer_walk (associativity : nat) (test : nat -> res bool) (rounds ptr : nat)
  : res (nat * nat) :=
  match rounds with
  | O => Err LogError
  | S rounds' =>
      b ← test ptr;
      if b : bool then
        check (negb (associativity =? 0)) DivByZero;;
        Ok (byte_of ptr, byte_of ((ptr + 1) `mod` associativity))
      else
        check (negb (associativity =? 0)) DivByZero;;
        pointer_walk associativity test rounds' (byte_of ((ptr + 1) `mod` associativity))
  end.

Section pointer_walk.
Context (n : nat) (test : nat -> res bool) (q : nat -> bool).
Context (Hn : 0 < n <= 256) (Htest : forall i, i < n -> test i = Ok (q i)).

Lemma next_pointer ptr : ptr < n ->
  byte_of ptr = ptr /\ byte_of ((ptr + 1) `mod` n) = (ptr + 1) `mod` n /\ (ptr + 1) `mod` n < n.
Proof.
  intros H. unfold byte_of. pose proof (Nat.mod_upper_bound (ptr + 1) n ltac:(lia)).
  rewrite !Nat.mod_small by lia. done.
Qed.

(** The walk visits [ptr], [ptr + 1], ... modulo [n]; it returns the first way that
    passes and leaves the pointer on the way after it. *)
Lemma pointer_walk_spec rounds ptr :
  ptr < n ->
  match pointer_walk n test rounds ptr with
  | Ok (i, ptr') => exists k, k < rounds /\ i = (ptr + k) `mod` n /\ ptr' = (i + 1) `mod` n /\
      q i = true /\ forall j, j < k -> q ((ptr + j) `mod` n) = false
  | Err f => f = LogError /\ forall j, j < rounds -> q ((ptr + j) `mod` n) = false
  end.
Proof.
  revert ptr. induction rounds as [|rounds IH]; intros ptr Hp; cbn [pointer_walk].
  { split; [done|lia]. }
  rewrite (Htest ptr Hp). cbn [mbind res_bind]. destruct (next_pointer ptr Hp) as (E1 & E2 & Hlt).
  rewrite (proj2 (Nat.eqb_neq n 0)) by lia. cbn [negb check mbind res_bind].
  assert (Hshift : forall j, ((ptr + 1) `mod` n + j) `mod` n = (ptr + S j) `mod` n).
  { intros j. rewrite Nat.Div0.add_mod_idemp_l. f_equal. lia. }
  destruct (q ptr) eqn:Eq; cbn [mbind res_bind].
  - rewrite E1, E2. exists 0. rewrite Nat.add_0_r, Nat.mod_small by lia. split_and!; [lia|done|done|done|lia].
  - rewrite E2. specialize (IH _ Hlt).
    assert (H0 : q ((ptr + 0) `mod` n) = false) by (rewrite Nat.add_0_r, Nat.mod_small by lia; done).
    destruct (pointer_walk n test rounds ((ptr + 1) `mod` n)) as [[i ptr']|f].
    + destruct IH as (k & Hk & -> & -> & Hq & Hmin). exists (S k). rewrite <- (Hshift k).
      split_and!; [lia|done|done|done|]. intros [|j] Hj; [done|]. rewrite <- Hshift. apply Hmin. lia.
    + destruct IH as [-> Hmin]. split; [done|]. intros [|j] Hj; [done|].
      rewrite <- Hshift. apply Hmin. lia.
Qed.

(** Every way is visited within [n] rounds. *)
Lemma walk_covers ptr i : ptr < n -> i < n -> exists j, j < n /\ (ptr + j) `mod` n = i.
Proof.
  intros Hp Hi. destruct (decide (ptr <= i)).
  - exists (i - ptr). split; [lia|]. replace (ptr + (i - ptr)) with i by lia. by apply Nat.mod_small.
  - exists (i + n - ptr). split; [lia|]. replace (ptr + (i + n - ptr)) with (i + 1 * n) by lia.
    rewrite Nat.Div0.mod_add. by apply Nat.mod_small.
Qed.

Lemma pointer_walk_finds ptr i :
  ptr < n -> i < n -> q i = true -> exists v ptr', pointer_walk n test n ptr = Ok (v, ptr').
Proof.
  intros Hp Hi Hq. pose proof (pointer_walk_spec n ptr Hp) as H.
  destruct (pointer_walk n test n ptr) as [[v ptr']|f]; [by eexists _, _|].
  destruct H as [_ H]. destruct (walk_covers ptr i Hp Hi) as (j & Hj & E).
  specialize (H j Hj). rewrite E in H. congruence.
Qed.

Lemma pointer_walk_Ok rounds ptr v ptr' :
  ptr < n -> pointer_walk n test rounds ptr = Ok (v, ptr') -> v < n /\ ptr' < n /\ q v = true.
Proof.
  intros Hp E. pose proof (pointer_walk_spec rounds ptr Hp) as H. rewrite E in H.
  destruct H as (k & _ & -> & -> & Hq & _).
  split_and!; [apply Nat.mod_upper_bound; lia|apply Nat.mod_upper_bound; lia|done].
Qed.

End pointer_walk.

(** ** MRU *)

Module MRU.

Record CacheSetMRU := mkMRU { m_lru_bits : list Z }.

Definition new (associativity : nat) : CacheSetMRU := mkMRU (init_bits associativity).

Definition update (s : CacheSetBase) (accessed_index : nat) (p : CacheSetMRU) : res CacheSetMRU :=
  bits ← make_youngest (m_associativity s) (m_lru_bits p) accessed_index;
  Ok (mkMRU bits).

(** [while (target < m_associativity)]: the way at recency position [target], if it may be
    evicted. *)
Fixpoint mru_search (s : CacheSetBase) (bits : list Z) (targets : list nat) : res (option nat) :=
  match targets with
  | [] => Ok None
  | target :: rest =>
      o ← find_loop (fun i => x ← rd bits i;
             if (x =? Z.of_nat target)%Z then isValidReplacement s i else Ok false)
            (seq 0 (m_associativity s));
      match o with Some i => Ok (Some i) | None => mru_search s bits rest end
  end.

Definition getReplacementIndex (s : CacheSetBase) (p : CacheSetMRU) (e : ReplEnv)
  : res (nat * CacheSetMRU * ReplEnv) :=
  o ← find_invalid s;
  match o with
  | Some i => p ← update s i p; Ok (i, p, e)
  | None =>
      o ← mru_search s (m_lru_bits p) (seq 0 (m_associativity s));
      match o with
      | Some i => p ← update s i p; Ok (i, p, e)
      | None => Err LogError
      end
  end.

Definition updateReplacementIndex (s : CacheSetBase) (accessed_index : nat) (p : CacheSetMRU)
    (e : ReplEnv) : res (CacheSetMRU * ReplEnv) :=
  p ← update s accessed_index p; Ok (p, e).

Definition getRecencyBits (p : CacheSetMRU) (way : nat) : res Z := rd (m_lru_bits p) way.

#[global] Instance MRU_policy : ReplacementPolicy CacheSetMRU := {
  CacheSet.getReplacementIndex := getReplacementIndex;
  CacheSet.updateReplacementIndex := updateReplacementIndex;
  CacheSet.getRecencyBits := getRecencyBits
}.

Record wf (s : CacheSetBase) (p : CacheSetMRU) : Prop := {
  wf_length : length (m_lru_bits p) = m_associativity s;
  wf_byte : m_associativity s <= 256;
  wf_order : exists order, recency (m_lru_bits p) order
}.

Section lemmas.
Context (ty : cache_t) (s : CacheSetBase) (Hs : set_wf ty s).

Lemma update_touch p order w :
  length (m_lru_bits p) = m_associativity s -> m_associativity s <= 256 ->
  recency (m_lru_bits p) order -> w < m_associativity s ->
  exists p', update s w p = Ok p' /\ recency (m_lru_bits p') (touch w order) /\
    length (m_lru_bits p') = m_associativity s.
Proof.
  intros Hl Hn Hr Hw. unfold update. rewrite <- Hl in *.
  destruct (make_youngest_touch _ _ w Hr Hn Hw) as (b & -> & Hb & Hlb). by eexists.
Qed.

Lemma mru_update_wf p w : wf s p -> w < m_associativity s -> exists p', update s w p = Ok p' /\ wf s p'.
Proof.
  intros [Hl Hn [order Hr]] Hw. destruct (update_touch p order w Hl Hn Hr Hw) as (p' & E & Hr' & Hl').
  exists p'. split; [done|]. split; try done. by eexists.
Qed.

(** The inner loop finds the way at position [target] of the order. *)
Lemma mru_target bits order target w :
  recency bits order -> length bits = m_associativity s -> order !! target = Some w ->
  find_loop (fun i => x ← rd bits i;
      if (x =? Z.of_nat target)%Z then isValidReplacement s i else Ok false)
    (seq 0 (m_associativity s)) = Ok (if evictable_way s w then Some w else None).
Proof.
  intros Hr Hl Hw.
  rewrite (find_loop_pure _ (fun i => bool_decide (i = w) && evictable_way s i)).
  - f_equal. pose proof (proj2 Hr _ _ Hw) as Hbw. apply lookup_lt_Some in Hbw.
    destruct (evictable_way s w) eqn:Ev.
    + destruct (first_such _ _) as [i|] eqn:E.
      * apply first_such_Some in E as [_ [Hi _]%andb_prop]. by apply bool_decide_eq_true in Hi as ->.
      * rewrite first_such_None in E. specialize (E w ltac:(apply elem_of_seq; lia)).
        by rewrite bool_decide_true, Ev in E by done.
    + apply first_such_None. intros i _. case_bool_decide; [subst; by rewrite Ev|done].
  - intros i Hi%elem_of_seq. destruct (rd_lookup bits i ltac:(lia)) as (x & -> & Hx).
    cbn [mbind res_bind]. rewrite (isValidReplacement_pure _ _ Hs).
    destruct (recency_lookup _ _ _ _ Hr Hx) as (pos & -> & Ho & _).
    destruct (Z.eqb_spec (Z.of_nat pos) (Z.of_nat target)) as [E|E].
    + apply Nat2Z.inj in E. subst. rewrite bool_decide_true by congruence. done.
    + rewrite bool_decide_false; [done|]. intros ->. apply E. f_equal.
      by apply (NoDup_lookup order _ _ w (recency_NoDup _ _ Hr)).
Qed.

Lemma mru_search_first bits order a k :
  recency bits order -> length bits = m_associativity s -> a + k <= m_associativity s ->
  mru_search s bits (seq a k) = Ok (first_such (evictable_way s) (take k (drop a order))).
Proof.
  intros Hr Hl. revert a. induction k as [|k IH]; intros a Ha; [done|]. cbn [seq mru_search].
  pose proof (recency_length _ _ Hr). destruct (lookup_lt_is_Some_2 order a ltac:(lia)) as [w Hw].
  rewrite (mru_target _ _ _ _ Hr Hl Hw). rewrite (drop_S order w a Hw). cbn.
  destruct (evictable_way s w); [done|]. apply IH. lia.
Qed.

(** The victim in terms of the recency order: the most recently used way that may be
    evicted. *)
Lemma mru_search_victim bits order :
  recency bits order -> length bits = m_associativity s ->
  mru_search s bits (seq 0 (m_associativity s)) = Ok (first_such (evictable_way s) order).
Proof.
  intros Hr Hl. rewrite (mru_search_first _ order) by done.
  rewrite drop_0, take_ge; [done|]. rewrite (recency_length _ _ Hr). lia.
Qed.

End lemmas.

#[global] Instance MRU_laws : ReplacementPolicyLaws CacheSetMRU.
Proof.
  refine {| policy_wf := fun s p _ => wf s p |}.
  - intros s s' p si si' E _ []. by split; rewrite <- ?E.
  - intros ty s p e i p' e' Hs Hwf. cbn. unfold getReplacementIndex. pose proof (set_wf_ways _ _ Hs).
    assert (Hfin : forall w, w < m_associativity s ->
              (p ← update s w p; Ok (w, p, e)) = Ok (i, p', e') ->
              i < m_associativity s /\ wf s p' /\ info_shape (set_info e) (set_info e')).
    { intros w Hw Hi. destruct (mru_update_wf s p w Hwf Hw) as (q & Eq & Hq). rewrite Eq in Hi.
      by injection Hi as <- <- <-. }
    destruct (find_invalid_cases _ _ Hs) as [(w & -> & _ & Hw & _)|[-> _]]; cbn [mbind res_bind].
    + apply Hfin. lia.
    + destruct Hwf as [Hl Hn [order Hr]]. rewrite (mru_search_victim _ _ Hs _ order Hr Hl). cbn [mbind res_bind].
      destruct (first_such _ _) as [w|] eqn:E; [|done]. apply Hfin.
      apply first_such_Some in E as [Ho _]. rewrite <- Hl. by apply (recency_elem _ _ _ Hr).
  - intros ty s p e i Hs Hwf Hi. cbn. unfold updateReplacementIndex.
    destruct (mru_update_wf s p i Hwf Hi) as (q & -> & Hq). by eexists _, _.
Defined.

(** [CacheSetMRU] is MRU: the victim is the first free active way if there is one,
    otherwise the most recently used way among those that may be evicted, and the
    policy stops with an error exactly when no way may be evicted. *)
Theorem getReplacementIndex_mru ty s p e order :
  set_wf ty s -> wf s p -> recency (m_lru_bits p) order ->
  match first_such (free_way s) (seq 0 (m_num_active_ways s)) with
  | Some w => exists p', getReplacementIndex s p e = Ok (w, p', e)
  | None =>
      match first_such (evictable_way s) order with
      | Some w => exists p', getReplacementIndex s p e = Ok (w, p', e) /\
                    recency (m_lru_bits p') (touch w order)
      | None => getReplacementIndex s p e = Err LogError
      end
  end.
Proof.
  intros Hs [Hl Hn _] Hr. unfold getReplacementIndex. rewrite (find_invalid_pure _ _ Hs).
  pose proof (set_wf_ways _ _ Hs). cbn [mbind res_bind].
  destruct (first_such (free_way s) _) as [w|] eqn:Ef.
  - apply first_such_Some in Ef as [Hi%elem_of_seq _].
    destruct (update_touch s p order w Hl Hn Hr ltac:(lia)) as (p' & -> & _). by eexists.
  - rewrite (mru_search_victim _ _ Hs _ order Hr Hl). cbn [mbind res_bind].
    destruct (first_such (evictable_way s) order) as [w|] eqn:Ev; [|done].
    apply first_such_Some in Ev as [Ho%(recency_elem _ _ _ Hr) _].
    destruct (update_touch s p order w Hl Hn Hr ltac:(lia)) as (p' & -> & Hr' & _). by eexists.
Qed.

Lemma getReplacementIndex_mru_witness :
  exists p', getReplacementIndex (l1_set 4 full4) (new 4) (lru_env 4) = Ok (0, p', lru_env 4) /\
    recency (m_lru_bits p') (touch 0 (seq 0 4)).
Proof.
  apply (getReplacementIndex_mru PR_L1_CACHE (l1_set 4 full4) (new 4) (lru_env 4) (seq 0 4)).
  - apply full4_wf.
  - split; [done|cbn; lia|exists (seq 0 4); apply init_bits_recency; lia].
  - apply init_bits_recency. lia.
Defined.

End MRU.

(** ** NMRU *)

Module NMRU.

Record CacheSetNMRU := mkNMRU { m_lru_bits : list Z; m_replacement_pointer : nat }.

Definition new (associativity : nat) : CacheSetNMRU := mkNMRU (init_bits associativity) 0.

Definition update (s : CacheSetBase) (accessed_index : nat) (p : CacheSetNMRU) : res CacheSetNMRU :=
  bits ← make_youngest (m_associativity s) (m_lru_bits p) accessed_index;
  Ok (mkNMRU bits (m_replacement_pointer p)).

(** The test of the walk: not the most recently used way, and a valid replacement. *)
Definition nmru_test (s : CacheSetBase) (bits : list Z) (i : nat) : res bool :=
  x ← rd bits i;
  if negb (x =? 0)%Z then isValidReplacement s i else Ok false.

Definition getReplacementIndex (s : CacheSetBase) (p : CacheSetNMRU) (e : ReplEnv)
  : res (nat * CacheSetNMRU * ReplEnv) :=
  o ← find_invalid s;
  match o with
  | Some i => p ← update s i p; Ok (i, p, e)
  | None =>
      '(index, ptr) ← pointer_walk (m_associativity s) (nmru_test s (m_lru_bits p))
                        (m_associativity s) (m_replacement_pointer p);
      p ← update s index (mkNMRU (m_lru_bits p) ptr);
      Ok (index, p, e)
  end.

Definition updateReplacementIndex (s : CacheSetBase) (accessed_index : nat) (p : CacheSetNMRU)
    (e : ReplEnv) : res (CacheSetNMRU * ReplEnv) :=
  p ← update s accessed_index p; Ok (p, e).

Definition getRecencyBits (p : CacheSetNMRU) (way : nat) : res Z := rd (m_lru_bits p) way.

#[global] Instance NMRU_policy : ReplacementPolicy CacheSetNMRU := {
  CacheSet.getReplacementIndex := getReplacementIndex;
  CacheSet.updateReplacementIndex := updateReplacementIndex;
  CacheSet.getRecencyBits := getRecencyBits
}.

Record wf (s : CacheSetBase) (p : CacheSetNMRU) : Prop := {
  wf_length : length (m_lru_bits p) = m_associativity s;
  wf_byte : m_associativity s <= 256;
  wf_order : exists order, recency (m_lru_bits p) order;
  wf_pointer : m_replacement_pointer p < m_associativity s
}.

(** The pure form of the test. *)
Definition not_mru (s : CacheSetBase) (bits : list Z) (i : nat) : bool :=
  match bits !! i with Some x => negb (x =? 0)%Z && evictable_way s i | None => false end.

Section lemmas.
Context (ty : cache_t) (s : CacheSetBase) (Hs : set_wf ty s).

Lemma nmru_test_pure bits i :
  length bits = m_associativity s -> i < m_associativity s ->
  nmru_test s bits i = Ok (not_mru s bits i).
Proof.
  intros Hl Hi. unfold nmru_test, not_mru. destruct (rd_lookup bits i ltac:(lia)) as (x & -> & ->).
  cbn [mbind res_bind]. rewrite (isValidReplacement_pure _ _ Hs). by destruct (x =? 0)%Z.
Qed.

Lemma nmru_update_wf p w : wf s p -> w < m_associativity s ->
  exists p', update s w p = Ok p' /\ wf s p' /\ m_replacement_pointer p' = m_replacement_pointer p.
Proof.
  intros [Hl Hn [order Hr] Hp] Hw. unfold update. rewrite <- Hl in *.
  destruct (make_youngest_touch _ _ w Hr Hn Hw) as (b & -> & Hb & Hlb). eexists. split; [done|].
  split; [|done]. split; cbn; [lia|lia|by eexists|lia].
Qed.

End lemmas.

#[global] Instance NMRU_laws : ReplacementPolicyLaws CacheSetNMRU.
Proof.
  refine {| policy_wf := fun s p _ => wf s p |}.
  - intros s s' p si si' E _ []. by split; rewrite <- ?E.
  - intros ty s p e i p' e' Hs Hwf. cbn. unfold getReplacementIndex. pose proof (set_wf_ways _ _ Hs) as Hways.
    assert (Hfin : forall q w, wf s q -> w < m_associativity s ->
              (p ← update s w q; Ok (w, p, e)) = Ok (i, p', e') ->
              i < m_associativity s /\ wf s p' /\ info_shape (set_info e) (set_info e')).
    { intros q w Hq Hw H. destruct (nmru_update_wf s q w Hq Hw) as (q' & Eq & Hq' & _). rewrite Eq in H.
      by injection H as <- <- <-. }
    destruct (find_invalid_cases _ _ Hs) as [(w & -> & _ & Hw & _)|[-> _]]; cbn [mbind res_bind].
    + apply Hfin; [done|lia].
    + destruct Hwf as [Hl Hn Hr Hp].
      destruct (pointer_walk _ _ _ _) as [[v ptr]|f] eqn:E; [|done]. cbn [mbind res_bind].
      eapply (pointer_walk_Ok _ _ (not_mru s (m_lru_bits p))) in E as (Hv & Hptr & _);
        [|lia|intros; by apply (nmru_test_pure ty)|done].
      apply Hfin; [|done]. by split.
  - intros ty s p e i Hs Hwf Hi. cbn. unfold updateReplacementIndex.
    destruct (nmru_update_wf s p i Hwf Hi) as (q & -> & Hq & _). by eexists _, _.
Defined.

(** [CacheSetNMRU] never evicts the most recently used way: when no way is free, the
    victim is the first way at or after the replacement pointer (cyclically) that is
    not the most recently used one and may be evicted, and the policy stops with an
    error exactly when there is none. *)
Theorem getReplacementIndex_nmru ty s p e :
  set_wf ty s -> wf s p -> first_such (free_way s) (seq 0 (m_num_active_ways s)) = None ->
  let n := m_associativity s in
  let ptr := m_replacement_pointer p in
  match getReplacementIndex s p e with
  | Ok (v, p', _) => not_mru s (m_lru_bits p) v = true /\ m_replacement_pointer p' = (v + 1) `mod` n /\
      exists k, v = (ptr + k) `mod` n /\ forall j, j < k -> not_mru s (m_lru_bits p) ((ptr + j) `mod` n) = false
  | Err f => f = LogError /\ forall v, v < n -> not_mru s (m_lru_bits p) v = false
  end.
Proof.
  intros Hs Hwf Hfree n ptr. unfold getReplacementIndex. pose proof (set_wf_ways _ _ Hs) as Hways.
  rewrite (find_invalid_pure _ _ Hs), Hfree. cbn [mbind res_bind]. destruct Hwf as [Hl Hn Hr Hp].
  pose proof (pointer_walk_spec n (nmru_test s (m_lru_bits p)) (not_mru s (m_lru_bits p)) ltac:(lia)
    (fun i => nmru_test_pure ty s Hs _ i Hl) n ptr Hp) as H. fold n ptr.
  destruct (pointer_walk n _ n ptr) as [[v ptr']|f]; cbn [mbind res_bind].
  - destruct H as (k & Hk & Hv & Hptr' & Hq & Hmin).
    assert (Hvn : v < n) by (rewrite Hv; apply Nat.mod_upper_bound; lia).
    destruct (nmru_update_wf s (mkNMRU (m_lru_bits p) ptr') v) as (q & -> & _ & Hq').
    { split; try done. cbn. rewrite Hptr'. apply Nat.mod_upper_bound. lia. }
    { done. }
    cbn. split_and!; [done|by rewrite Hq'|by exists k].
  - destruct H as [-> H]. split; [done|]. intros v Hv.
    destruct (walk_covers n ltac:(lia) ptr v Hp Hv) as (j & Hj & <-). by apply H.
Qed.

Lemma getReplacementIndex_nmru_witness :
  match getReplacementIndex (l1_set 4 full4) (new 4) (lru_env 4) with
  | Ok (v, p', _) => not_mru (l1_set 4 full4) (init_bits 4) v = true /\
      m_replacement_pointer p' = (v + 1) `mod` 4 /\
      exists k, v = (0 + k) `mod` 4 /\
        forall j, j < k -> not_mru (l1_set 4 full4) (init_bits 4) ((0 + j) `mod` 4) = false
  | Err f => f = LogError /\ forall v, v < 4 -> not_mru (l1_set 4 full4) (init_bits 4) v = false
  end.
Proof.
  apply (getReplacementIndex_nmru PR_L1_CACHE (l1_set 4 full4) (new 4) (lru_env 4)).
  - apply full4_wf.
  - split; [done|cbn; lia|exists (seq 0 4); apply init_bits_recency; lia|cbn; lia].
  - reflexivity.
Defined.

Example nmru_victim :
  (fun r => r.1.1) <$> getReplacementIndex (l1_set 4 full4) (new 4) (lru_env 4) = Ok 1.
Proof. vm_compute. reflexivity. Qed.

End NMRU.

(** ** NRU *)

Module NRU.

Record CacheSetNRU := mkNRU {
  m_lru_bits : list Z; m_num_bits_set : Z; m_replacement_pointer : nat }.

Definition new (associativity : nat) : CacheSetNRU := mkNRU (replicate associativity 0%Z) 0 0.

(** [updateReplacementIndex]: mark the way; after [m_associativity] marks clear them all. *)
Definition update (s : CacheSetBase) (accessed_index : nat) (p : CacheSetNRU) : res CacheSetNRU :=
  bits ← wr (m_lru_bits p) accessed_index 1%Z;
  let set := u8 (m_num_bits_set p + 1) in
  if (set =? Z.of_nat (m_associativity s))%Z then
    bits ← fold_loop (fun bits i => wr bits i 0%Z) bits (seq 0 (m_associativity s));
    Ok (mkNRU bits 0 (m_replacement_pointer p))
  else Ok (mkNRU bits set (m_replacement_pointer p)).

(** The first loop: leaves at a free way, otherwise reports whether an unmarked way may be
    evicted. *)
Fixpoint nru_scan (s : CacheSetBase) (bits : list Z) (have_zero_bit : bool) (idx : list nat)
  : res (nat + bool) :=
  match idx with
  | [] => Ok (inr have_zero_bit)
  | i :: rest =>
      free ← (if i <? m_num_active_ways s
              then b ← rd (m_cache_block_info_array s) i; Ok (negb (isValid b)) else Ok false);
      if free : bool then Ok (inl i)
      else
        x ← rd bits i;
        z ← (if (x =? 0)%Z then isValidReplacement s i else Ok false);
        nru_scan s bits (if z : bool then true else have_zero_bit) rest
  end.

Definition nru_test (s : CacheSetBase) (bits : list Z) (have_zero_bit : bool) (i : nat) : res bool :=
  x ← rd bits i;
  if (x =? 0)%Z || negb have_zero_bit then isValidReplacement s i else Ok false.

Definition getReplacementIndex (s : CacheSetBase) (p : CacheSetNRU) (e : ReplEnv)
  : res (nat * CacheSetNRU * ReplEnv) :=
  o ← nru_scan s (m_lru_bits p) false (seq 0 (m_associativity s));
  match o with
  | inl i => p ← update s i p; Ok (i, p, e)
  | inr have_zero_bit =>
      '(index, ptr) ← pointer_walk (m_associativity s) (nru_test s (m_lru_bits p) have_zero_bit)
                        (m_associativity s) (m_replacement_pointer p);
      p ← update s index (mkNRU (m_lru_bits p) (m_num_bits_set p) ptr);
      Ok (index, p, e)
  end.

Definition updateReplacementIndex (s : CacheSetBase) (accessed_index : nat) (p : CacheSetNRU)
    (e : ReplEnv) : res (CacheSetNRU * ReplEnv) :=
  p ← update s accessed_index p; Ok (p, e).

Definition getRecencyBits (p : CacheSetNRU) (way : nat) : res Z := rd (m_lru_bits p) way.

#[global] Instance NRU_policy : ReplacementPolicy CacheSetNRU := {
  CacheSet.getReplacementIndex := getReplacementIndex;
  CacheSet.updateReplacementIndex := updateReplacementIndex;
  CacheSet.getRecencyBits := getRecencyBits
}.

(** The number of marked ways. *)
Definition marked (bits : list Z) : nat := length (filter (fun z => z <> 0%Z) bits).

(** The counter bounds the number of marked ways and stays below the associativity, so an
    unmarked way always exists. *)
Record wf (s : CacheSetBase) (p : CacheSetNRU) : Prop := {
  wf_length : length (m_lru_bits p) = m_associativity s;
  wf_byte : m_associativity s <= 255;
  wf_marked : (Z.of_nat (marked (m_lru_bits p)) <= m_num_bits_set p)%Z;
  wf_count : (0 <= m_num_bits_set p < Z.of_nat (m_associativity s))%Z;
  wf_pointer : m_replacement_pointer p < m_associativity s
}.

Lemma marked_insert bits i x : marked (<[i := x]> bits) <= S (marked bits).
Proof.
  unfold marked. revert i. induction bits as [|y bits IH]; intros i; [destruct i; cbn; lia|].
  destruct i as [|i]; [change (<[0 := x]> (y :: bits)) with (x :: bits)|
    change (<[S i := x]> (y :: bits)) with (y :: <[i := x]> bits); specialize (IH i)];
    rewrite !list.filter_cons; repeat case_decide; cbn [length]; lia.
Qed.

Lemma marked_zero n : marked (replicate n 0%Z) = 0.
Proof.
  unfold marked. rewrite filter_none; [done|]. by intros x [-> _]%elem_of_replicate ?.
Qed.

Lemma clear_loop (bits : list Z) k :
  k <= length bits ->
  fold_loop (fun bits i => wr bits i 0%Z) bits (seq 0 k) = Ok (replicate k 0%Z ++ drop k bits).
Proof.
  induction k as [|k IH]; intros Hk; [done|].
  rewrite seq_S, Nat.add_0_l, fold_loop_app, IH by lia. cbn [mbind res_bind fold_loop].
  destruct (lookup_lt_is_Some_2 bits k ltac:(lia)) as [x Hx].
  rewrite wr_lt by (rewrite length_app, length_replicate, length_drop; lia). cbn [mbind res_bind]. f_equal.
  rewrite insert_app_r_alt by (rewrite length_replicate; lia).
  rewrite length_replicate, Nat.sub_diag, (drop_S bits x k Hx). cbn [insert list_insert].
  rewrite replicate_S_end, <- app_assoc. done.
Qed.

Section lemmas.
Context (ty : cache_t) (s : CacheSetBase) (Hs : set_wf ty s).

Lemma nru_update_wf p w : wf s p -> w < m_associativity s ->
  exists p', update s w p = Ok p' /\ wf s p' /\ m_replacement_pointer p' = m_replacement_pointer p.
Proof.
  intros [Hl Hn Hm Hc Hp] Hw. unfold update. rewrite wr_lt by lia. cbn [mbind res_bind].
  rewrite wrap_small by (split; lia). destruct (Z.eqb_spec (m_num_bits_set p + 1) (Z.of_nat (m_associativity s))).
  - rewrite clear_loop by (rewrite length_insert; lia). cbn [mbind res_bind].
    rewrite drop_ge, app_nil_r by (rewrite length_insert; lia).
    eexists. split; [done|]. split; [|done]. split; cbn [m_lru_bits m_num_bits_set m_replacement_pointer]; try done; [by rewrite length_replicate| |lia].
    rewrite marked_zero. lia.
  - eexists. split; [done|]. split; [|done]. split; cbn [m_lru_bits m_num_bits_set m_replacement_pointer]; try done; [by rewrite length_insert| |lia].
    pose proof (marked_insert (m_lru_bits p) w 1). lia.
Qed.

(** An unmarked way that may be evicted. *)
Definition unmarked_evictable (bits : list Z) (i : nat) : bool :=
  match bits !! i with Some x => (x =? 0)%Z && evictable_way s i | None => false end.

Lemma nru_scan_spec bits z a k :
  length bits = m_associativity s -> a + k <= m_associativity s ->
  nru_scan s bits z (seq a k) =
    Ok match first_such (free_way s) (seq a k) with
       | Some i => inl i
       | None => inr (z || existsb (unmarked_evictable bits) (seq a k))
       end.
Proof.
  intros Hl. revert a z. induction k as [|k IH]; intros a z Ha; cbn [seq nru_scan first_such existsb].
  { by rewrite orb_false_r. }
  destruct (array_lookup _ _ Hs a ltac:(lia)) as (b & Hb & _).
  destruct (rd_lookup bits a ltac:(lia)) as (x & Hx & Hx').
  unfold free_way at 1, unmarked_evictable at 1. rewrite Hb, Hx', Hx, (proj2 (rd_Ok _ _ _) Hb). cbn [mbind res_bind].
  rewrite (isValidReplacement_pure _ _ Hs).
  assert (Hrest : (z0 ← (if (x =? 0)%Z then Ok (evictable_way s a) else Ok false);
      nru_scan s bits (if z0 : bool then true else z) (seq (S a) k)) =
    nru_scan s bits (z || ((x =? 0)%Z && evictable_way s a)) (seq (S a) k)).
  { destruct (x =? 0)%Z, (evictable_way s a), z; done. }
  destruct (a <? m_num_active_ways s); [destruct (isValid b)|]; cbn [mbind res_bind negb andb];
    [|done|]; rewrite Hrest, IH by lia; by rewrite orb_assoc.
Qed.

Lemma free_way_inactive i : m_num_active_ways s <= i -> free_way s i = false.
Proof. intros H. unfold free_way. by rewrite (proj2 (Nat.ltb_ge _ _)). Qed.

Lemma first_such_app q l1 l2 :
  first_such q (l1 ++ l2) = match first_such q l1 with Some i => Some i | None => first_such q l2 end.
Proof. induction l1 as [|x l1 IH]; cbn; [done|]. by destruct (q x). Qed.

(** Scanning all the ways for a free one is scanning the active ones. *)
Lemma first_free_all :
  first_such (free_way s) (seq 0 (m_associativity s)) =
  first_such (free_way s) (seq 0 (m_num_active_ways s)).
Proof.
  pose proof (set_wf_ways _ _ Hs).
  replace (m_associativity s) with (m_num_active_ways s + (m_associativity s - m_num_active_ways s)) at 1 by lia.
  rewrite seq_app, first_such_app. destruct (first_such _ (seq 0 _)); [done|].
  apply first_such_None. intros i Hi%elem_of_seq. apply free_way_inactive. lia.
Qed.

(** The pure form of the test of the walk. *)
Definition nru_ok (bits : list Z) (have_zero_bit : bool) (i : nat) : bool :=
  match bits !! i with
  | Some x => ((x =? 0)%Z || negb have_zero_bit) && evictable_way s i | None => false end.

Lemma nru_test_pure bits z i :
  length bits = m_associativity s -> i < m_associativity s -> nru_test s bits z i = Ok (nru_ok bits z i).
Proof.
  intros Hl Hi. unfold nru_test, nru_ok. destruct (rd_lookup bits i ltac:(lia)) as (x & -> & ->).
  cbn [mbind res_bind]. rewrite (isValidReplacement_pure _ _ Hs). by destruct (_ || _).
Qed.

End lemmas.

#[global] Instance NRU_laws : ReplacementPolicyLaws CacheSetNRU.
Proof.
  refine {| policy_wf := fun s p _ => wf s p |}.
  - intros s s' p si si' E _ []. by split; rewrite <- ?E.
  - intros ty s p e i p' e' Hs Hwf. cbn. unfold getReplacementIndex. pose proof (set_wf_ways _ _ Hs) as Hways.
    assert (Hfin : forall q w, wf s q -> w < m_associativity s ->
              (p ← update s w q; Ok (w, p, e)) = Ok (i, p', e') ->
              i < m_associativity s /\ wf s p' /\ info_shape (set_info e) (set_info e')).
    { intros q w Hq Hw H. destruct (nru_update_wf s q w Hq Hw) as (q' & Eq & Hq' & _). rewrite Eq in H.
      by injection H as <- <- <-. }
    pose proof (wf_length _ _ Hwf) as Hl.
    rewrite (nru_scan_spec _ _ Hs), (first_free_all _ _ Hs) by (done || lia). cbn [mbind res_bind].
    destruct (first_such _ _) as [w|] eqn:Ef.
    + apply first_such_Some in Ef as [Hi%elem_of_seq _]. apply Hfin; [done|lia].
    + destruct Hwf as [_ Hn Hm Hc Hp].
      destruct (pointer_walk _ _ _ _) as [[v ptr]|f] eqn:E; [|done]. cbn [mbind res_bind].
      eapply (pointer_walk_Ok _ _ (nru_ok s (m_lru_bits p) _)) in E as (Hv & Hptr & _);
        [|lia|intros; by apply (nru_test_pure ty)|done].
      apply Hfin; [|done]. by split.
  - intros ty s p e i Hs Hwf Hi. cbn. unfold updateReplacementIndex.
    destruct (nru_update_wf s p i Hwf Hi) as (q & -> & Hq & _). by eexists _, _.
Defined.

(** [CacheSetNRU] prefers unmarked ways: when no way is free, the victim is the first way
    from the replacement pointer (cyclically) that may be evicted and is unmarked, or
    the first that may be evicted if all those are marked; the policy stops with an
    error exactly when no way may be evicted. *)
Theorem getReplacementIndex_nru ty s p e :
  set_wf ty s -> wf s p -> first_such (free_way s) (seq 0 (m_num_active_ways s)) = None ->
  let n := m_associativity s in
  let bits := m_lru_bits p in
  let wanted i := unmarked_evictable s bits i ||
    (evictable_way s i && negb (existsb (unmarked_evictable s bits) (seq 0 n))) in
  match getReplacementIndex s p e with
  | Ok (v, p', _) => wanted v = true /\ wf s p' /\
      exists k, v = (m_replacement_pointer p + k) `mod` n /\
        forall j, j < k -> wanted ((m_replacement_pointer p + j) `mod` n) = false
  | Err f => f = LogError /\ forall v, v < n -> evictable_way s v = false
  end.
Proof.
  intros Hs Hwf Hfree n bits wanted. unfold getReplacementIndex. pose proof (set_wf_ways _ _ Hs) as Hways.
  pose proof (wf_length _ _ Hwf) as Hl.
  rewrite (nru_scan_spec _ _ Hs), (first_free_all _ _ Hs), Hfree by (done || lia). cbn [mbind res_bind orb].
  fold bits n. set (z := existsb (unmarked_evictable s bits) (seq 0 n)).
  assert (Hok : forall i, i < n -> nru_test s bits z i = Ok (wanted i)).
  { intros i Hi. rewrite (nru_test_pure ty) by done. f_equal. unfold wanted. fold z.
    unfold nru_ok, unmarked_evictable.
    destruct (lookup_lt_is_Some_2 bits i ltac:(unfold bits; lia)) as [x ->].
    by destruct (x =? 0)%Z, z, (evictable_way s i). }
  destruct Hwf as [_ Hn Hm Hc Hp].
  pose proof (pointer_walk_spec n _ wanted ltac:(lia) Hok n _ Hp) as H.
  destruct (pointer_walk n _ n _) as [[v ptr']|f]; cbn [mbind res_bind].
  - destruct H as (k & Hk & Hv & Hptr' & Hq & Hmin).
    assert (Hvn : v < n) by (rewrite Hv; apply Nat.mod_upper_bound; lia).
    destruct (nru_update_wf s (mkNRU bits (m_num_bits_set p) ptr') v) as (q & -> & Hq' & _).
    { split; try done. cbn. rewrite Hptr'. apply Nat.mod_upper_bound. lia. }
    { done. }
    cbn. split_and!; [done|done|by exists k].
  - destruct H as [-> H]. split; [done|]. intros v Hv.
    assert (Hall : forall i, i < n -> wanted i = false).
    { intros i Hi. destruct (walk_covers n ltac:(lia) _ i Hp Hi) as (j & Hj & <-). by apply H. }
    pose proof (Hall v Hv) as Hw. unfold wanted in Hw. apply orb_false_iff in Hw as [_ Hw].
    destruct (evictable_way s v); [|done]. cbn in Hw. apply negb_false_iff in Hw.
    apply existsb_exists in Hw as (i & Hi & Hu). apply list_elem_of_In, elem_of_seq in Hi.
    specialize (Hall i ltac:(lia)). unfold wanted in Hall. by rewrite Hu in Hall.
Qed.

Lemma getReplacementIndex_nru_witness :
  exists v p' e', getReplacementIndex (l1_set 4 full4) (new 4) (lru_env 4) = Ok (v, p', e') /\
    wf (l1_set 4 full4) p'.
Proof.
  pose proof (getReplacementIndex_nru PR_L1_CACHE (l1_set 4 full4) (new 4) (lru_env 4) full4_wf
    ltac:(split; vm_compute; (reflexivity || lia || (split; [discriminate|reflexivity]) || discriminate))
    ltac:(reflexivity)) as H.
  destruct (getReplacementIndex (l1_set 4 full4) (new 4) (lru_env 4)) as [[[v p'] e']|f] eqn:E.
  - exists v, p', e'. split; [reflexivity|apply H].
  - discriminate E.
Defined.

(** The invariant of [CacheSetNRU]: after any sequence of accesses fewer ways are marked
    than the set has, so an unmarked way always exists. *)
Theorem nru_unmarked_way_exists s p accesses :
  wf s p -> Forall (fun w => w < m_associativity s) accesses ->
  exists p', fold_loop (fun p w => update s w p) p accesses = Ok p' /\ wf s p' /\
    exists w, m_lru_bits p' !! w = Some 0%Z.
Proof.
  intros Hwf Hacc. revert p Hwf. induction Hacc as [|w l Hw _ IH]; intros p Hwf; cbn [fold_loop].
  - exists p. split_and!; [done|done|]. destruct Hwf as [Hl _ Hm Hc _].
    destruct (decide (Exists (fun z => z = 0%Z) (m_lru_bits p))) as [(z & Hz & ->)%list.Exists_exists|H].
    + apply list_elem_of_lookup in Hz as [i Hi]. by exists i.
    + exfalso. assert (marked (m_lru_bits p) = length (m_lru_bits p)); [|lia].
      unfold marked. rewrite filter_id; [done|]. intros x Hx ->. apply H, list.Exists_exists. by exists 0%Z.
  - destruct (nru_update_wf s p w Hwf Hw) as (p' & -> & Hwf' & _). cbn [mbind res_bind]. by apply IH.
Qed.

Lemma nru_unmarked_way_exists_witness :
  exists p', fold_loop (fun p w => update (l1_set 4 full4) w p) (new 4) [0; 0; 3; 1; 2] = Ok p' /\
    wf (l1_set 4 full4) p' /\ exists w, m_lru_bits p' !! w = Some 0%Z.
Proof.
  apply (nru_unmarked_way_exists (l1_set 4 full4) (new 4)).
  - split; vm_compute; (reflexivity || lia || (split; [discriminate|reflexivity]) || discriminate).
  - repeat constructor; cbn; lia.
Defined.

(** [m_num_bits_set] counts accesses, not marked ways: four accesses to one way of a
    four-way set clear all the marks although only one way was marked. *)
Theorem nru_clears_early :
  fold_loop (fun p w => update (l1_set 4 full4) w p) (new 4) [2; 2; 2] =
    Ok (mkNRU [0; 0; 1; 0]%Z 3 0) /\
  fold_loop (fun p w => update (l1_set 4 full4) w p) (new 4) [2; 2; 2; 2] =
    Ok (mkNRU [0; 0; 0; 0]%Z 0 0).
Proof. split; vm_compute; reflexivity. Qed.

End NRU.

(** ** Tree PLRU *)

Module PLRU.

Record CacheSetPLRU := mkPLRU { tree : list Z }.

(** The constructor accepts 4 and 8 ways only. *)
Definition new (associativity : nat) : res CacheSetPLRU :=
  check ((associativity =? 4) || (associativity =? 8)) LogError;;
  Ok (mkPLRU (replicate 8 0%Z)).

(** [b[i] == 0]. *)
Definition b0 (p : CacheSetPLRU) (i : nat) : res bool := x ← rd (tree p) i; Ok (x =? 0)%Z.

(** The walk down the tree. *)
Definition victim (s : CacheSetBase) (p : CacheSetPLRU) : res nat :=
  if m_associativity s =? 4 then
    z0 ← b0 p 0;
    if z0 : bool then z1 ← b0 p 1; Ok (if z1 : bool then 0 else 1)
    else z2 ← b0 p 2; Ok (if z2 : bool then 2 else 3)
  else if m_associativity s =? 8 then
    z0 ← b0 p 0;
    if z0 : bool then
      z1 ← b0 p 1;
      if z1 : bool then z2 ← b0 p 2; Ok (if z2 : bool then 0 else 1)
      else z3 ← b0 p 3; Ok (if z3 : bool then 2 else 3)
    else
      z4 ← b0 p 4;
      if z4 : bool then z5 ← b0 p 5; Ok (if z5 : bool then 4 else 5)
      else z6 ← b0 p 6; Ok (if z6 : bool then 6 else 7)
  else Err LogError.

(** A sequence of assignments to the tree bits. *)
Fixpoint assign (l : list (nat * Z)) (t : list Z) : res (list Z) :=
  match l with
  | [] => Ok t
  | (i, x) :: rest => t ← wr t i x; assign rest t
  end.

(** The assignments made for an accessed way; none for an index outside the set. *)
Definition tree_updates (associativity accessed_index : nat) : res (list (nat * Z)) :=
  if associativity =? 4 then
    Ok match accessed_index with
       | 0 => [(0, 1%Z); (1, 1%Z)] | 1 => [(0, 1%Z); (1, 0%Z)]
       | 2 => [(0, 0%Z); (2, 1%Z)] | 3 => [(0, 0%Z); (2, 0%Z)] | _ => [] end
  else if associativity =? 8 then
    Ok match accessed_index with
       | 0 => [(0, 1%Z); (1, 1%Z); (2, 1%Z)] | 1 => [(0, 1%Z); (1, 1%Z); (2, 0%Z)]
       | 2 => [(0, 1%Z); (1, 0%Z); (3, 1%Z)] | 3 => [(0, 1%Z); (1, 0%Z); (3, 0%Z)]
       | 4 => [(0, 0%Z); (4, 1%Z); (5, 1%Z)] | 5 => [(0, 0%Z); (4, 1%Z); (5, 0%Z)]
       | 6 => [(0, 0%Z); (4, 0%Z); (6, 1%Z)] | 7 => [(0, 0%Z); (4, 0%Z); (6, 0%Z)] | _ => [] end
  else Err LogError.

Definition update (s : CacheSetBase) (accessed_index : nat) (p : CacheSetPLRU) : res CacheSetPLRU :=
  l ← tree_updates (m_associativity s) accessed_index;
  t ← assign l (tree p);
  Ok (mkPLRU t).

Definition getReplacementIndex (s : CacheSetBase) (p : CacheSetPLRU) (e : ReplEnv)
  : res (nat * CacheSetPLRU * ReplEnv) :=
  o ← find_invalid s;
  match o with
  | Some i => p ← update s i p; Ok (i, p, e)
  | None =>
      retValue ← victim s p;
      v ← isValidReplacement s retValue;
      check v LogError;;
      p ← update s retValue p;
      Ok (retValue, p, e)
  end.

Definition updateReplacementIndex (s : CacheSetBase) (accessed_index : nat) (p : CacheSetPLRU)
    (e : ReplEnv) : res (CacheSetPLRU * ReplEnv) :=
  p ← update s accessed_index p; Ok (p, e).

(** The base class's [getRecencyBits]. *)
Definition getRecencyBits (p : CacheSetPLRU) (way : nat) : res Z := Ok (u8 (Z.of_nat way)).

#[global] Instance PLRU_policy : ReplacementPolicy CacheSetPLRU := {
  CacheSet.getReplacementIndex := getReplacementIndex;
  CacheSet.updateReplacementIndex := updateReplacementIndex;
  CacheSet.getRecencyBits := getRecencyBits
}.

Record wf (s : CacheSetBase) (p : CacheSetPLRU) : Prop := {
  wf_ways : m_associativity s = 4 \/ m_associativity s = 8;
  wf_tree : length (tree p) = 8
}.

(** Expose the eight bits of the tree. *)
Ltac tree_bits p :=
  match goal with
  | H : length (tree p) = 8 |- _ =>
      destruct p as [t]; cbn [tree] in H;
      do 8 (destruct t as [|? t]; [discriminate H|]); destruct t; [|discriminate H]; clear H
  end.

(** The walk always ends on a way of the set. *)
Lemma victim_total s p : wf s p -> exists v, victim s p = Ok v /\ v < m_associativity s.
Proof.
  intros [Hw Ht]. tree_bits p. unfold victim, b0. cbn [tree rd lookup list_lookup mbind res_bind].
  destruct Hw as [-> | ->]; cbn [Nat.eqb]; repeat case_match; eexists; (split; [done|lia]).
Qed.

(** The access of a way of the set assigns the bits on its path. *)
Lemma update_total s w p : wf s p -> exists p', update s w p = Ok p' /\ wf s p'.
Proof.
  intros [Hw Ht]. tree_bits p. unfold update, tree_updates.
  destruct Hw as [E|E]; rewrite E; cbn [Nat.eqb mbind res_bind];
    do 8 (destruct w as [|w]; [by eexists; (split; [done|split; [auto|done]])|]);
    by eexists; (split; [done|split; [auto|done]]).
Qed.

#[global] Instance PLRU_laws : ReplacementPolicyLaws CacheSetPLRU.
Proof.
  refine {| policy_wf := fun s p _ => wf s p |}.
  - intros s s' p si si' E _ []. by split; rewrite <- ?E.
  - intros ty s p e i p' e' Hs Hwf. cbn. unfold getReplacementIndex. pose proof (set_wf_ways _ _ Hs).
    destruct (find_invalid_cases _ _ Hs) as [(w & -> & _ & Hw & _)|[-> _]]; cbn [mbind res_bind].
    + destruct (update_total s w p Hwf) as (q & -> & Hq). intros [= <- <- <-]. split_and!; [lia|done|done].
    + destruct (victim_total s p Hwf) as (v & -> & Hv). cbn [mbind res_bind].
      rewrite (isValidReplacement_pure _ _ Hs). cbn [mbind res_bind]. destruct (evictable_way s v); [|done].
      cbn [check mbind res_bind].
      destruct (update_total s v p Hwf) as (q & -> & Hq). by intros [= <- <- <-].
  - intros ty s p e i Hs Hwf Hi. cbn. unfold updateReplacementIndex.
    destruct (update_total s i p Hwf) as (q & -> & Hq). by eexists _, _.
Defined.

(** Tree PLRU protects the way just accessed: after an access to a way, the walk down the
    tree does not end on that way. *)
Theorem plru_protects_accessed s p w :
  wf s p -> w < m_associativity s ->
  exists p', update s w p = Ok p' /\
    exists v, victim s p' = Ok v /\ v < m_associativity s /\ v <> w.
Proof.
  intros [Hw Ht] Hlt. tree_bits p. unfold update, tree_updates, victim, b0.
  destruct Hw as [E|E]; rewrite E in *; cbn [Nat.eqb mbind res_bind];
    do 8 (destruct w as [|w];
      [first [lia | eexists; split; [reflexivity|]; cbn; repeat case_match; eexists;
       (split; [reflexivity|lia])]|]); lia.
Qed.

Lemma plru_protects_accessed_witness :
  exists p', update (l1_set 4 full4) 2 (mkPLRU (replicate 8 0%Z)) = Ok p' /\
    exists v, victim (l1_set 4 full4) p' = Ok v /\ v < 4 /\ v <> 2.
Proof.
  apply (plru_protects_accessed (l1_set 4 full4) (mkPLRU (replicate 8 0%Z)) 2).
  - split; [by left|reflexivity].
  - cbn. lia.
Defined.

(** [k] successive replacements: each way chosen by the tree is the next one accessed. *)
Fixpoint sweep (s : CacheSetBase) (k : nat) (p : CacheSetPLRU) : res (list nat) :=
  match k with
  | O => Ok []
  | S k' => v ← victim s p; p ← update s v p; l ← sweep s k' p; Ok (v :: l)
  end.

(** Only whether a tree bit is zero matters. *)
Definition norm_bit (z : Z) : Z := if (z =? 0)%Z then 0%Z else 1%Z.
Definition norm (p : CacheSetPLRU) : CacheSetPLRU := mkPLRU (norm_bit <$> tree p).

Lemma norm_bit_zero z : (norm_bit z =? 0)%Z = (z =? 0)%Z.
Proof. unfold norm_bit. by destruct (z =? 0)%Z. Qed.

Lemma victim_norm s p : wf s p -> victim s (norm p) = victim s p.
Proof.
  intros [_ Ht]. tree_bits p. unfold victim, b0, norm. cbn. by rewrite !norm_bit_zero.
Qed.

Lemma update_norm s w p :
  wf s p -> update s w (norm p) = norm <$> update s w p.
Proof.
  intros [Hw Ht]. tree_bits p. unfold update, tree_updates.
  destruct Hw as [E|E]; rewrite E; cbn [Nat.eqb mbind res_bind]; by do 8 (destruct w as [|w]; [done|]).
Qed.

Lemma sweep_norm s k p : wf s p -> sweep s k (norm p) = sweep s k p.
Proof.
  revert p. induction k as [|k IH]; intros p Hp; [done|]. cbn [sweep]. rewrite (victim_norm _ _ Hp).
  destruct (victim s p) as [v|]; [|done]. cbn [mbind res_bind]. rewrite (update_norm _ _ _ Hp).
  destruct (update_total s v p Hp) as (p' & -> & Hp'). cbn [fmap res_fmap mbind res_bind]. by rewrite IH.
Qed.

Lemma sweep_ext s s' k p : m_associativity s = m_associativity s' -> sweep s k p = sweep s' k p.
Proof.
  intros E. revert p. induction k as [|k IH]; intros p; [done|]. cbn [sweep].
  unfold victim, update. rewrite E. destruct (if _ =? 4 then _ else _) as [v|]; [|done]. cbn [mbind res_bind].
  destruct (tree_updates _ v); [|done]. cbn [mbind res_bind]. destruct (assign _ _); [|done].
  cbn [mbind res_bind]. by rewrite IH.
Qed.

(** All trees of zeroes and ones. *)
Fixpoint bit_lists (k : nat) : list (list Z) :=
  match k with
  | O => [[]]
  | S k' => ((fun l => 0%Z :: l) <$> bit_lists k') ++ ((fun l => 1%Z :: l) <$> bit_lists k')
  end.

Lemma elem_of_bit_lists l : norm_bit <$> l ∈ bit_lists (length l).
Proof.
  induction l as [|z l IH]; cbn [fmap list_fmap length bit_lists]; [left|].
  apply elem_of_app. assert (norm_bit z = 0%Z \/ norm_bit z = 1%Z) as [-> | ->].
  { unfold norm_bit. destruct (z =? 0)%Z; auto. }
  - left. by apply (list_elem_of_fmap_2 (fun l => 0%Z :: l)).
  - right. by apply (list_elem_of_fmap_2 (fun l => 1%Z :: l)).
Qed.

(** The sweep from every such tree, by evaluation. *)
Definition fair_from (n : nat) (t : list Z) : bool :=
  match sweep (mkSet [] None n n 64 false 0 0 0) n (mkPLRU t) with
  | Ok l => bool_decide (l ≡ₚ seq 0 n)
  | Err _ => false
  end.

Lemma fair_everywhere : forallb (fair_from 4) (bit_lists 8) && forallb (fair_from 8) (bit_lists 8) = true.
Proof. vm_compute. reflexivity. Qed.

(** C25: tree PLRU is fair: from any state of the tree, as many successive replacements as the
    set has ways choose every way exactly once. *)
Theorem plru_sweep_permutation s p :
  wf s p -> exists l, sweep s (m_associativity s) p = Ok l /\ l ≡ₚ seq 0 (m_associativity s).
Proof.
  intros Hp. rewrite <- sweep_norm by done.
  assert (H : fair_from (m_associativity s) (tree (norm p)) = true).
  { destruct Hp as [Hw Ht]. pose proof (elem_of_bit_lists (tree p)) as Hin. rewrite Ht in Hin.
    pose proof fair_everywhere as [H4 H8]%andb_prop. rewrite forallb_forall in H4, H8.
    apply list_elem_of_In in Hin. destruct Hw as [-> | ->]; auto. }
  unfold fair_from in H.
  rewrite (sweep_ext s (mkSet [] None (m_associativity s) (m_associativity s) 64 false 0 0 0)) by done.
  destruct (sweep _ _ _) as [l|]; [|done]. exists l. split; [done|]. by apply bool_decide_eq_true in H.
Qed.

Lemma plru_sweep_permutation_witness :
  exists l, sweep (l1_set 4 full4) 4 (mkPLRU [1; 0; 1; 0; 0; 0; 0; 0]%Z) = Ok l /\ l ≡ₚ seq 0 4.
Proof.
  apply (plru_sweep_permutation (l1_set 4 full4) (mkPLRU [1; 0; 1; 0; 0; 0; 0; 0]%Z)).
  split; [by left|reflexivity].
Defined.

End PLRU.

(** ** Unbounded recursion

    [iter_until fuel step a] runs [step] until it returns a result; the fuel is binary, so
    that a bound of [2^32] steps can be written down and evaluated. *)

Fixpoint iter_until {A B} (fuel : positive) (step : A -> A + B) (a : A) : A + B :=
  match fuel with
  | xH => step a
  | xO f => match iter_until f step a with inl a' => iter_until f step a' | inr b => inr b end
  | xI f =>
      match step a with
      | inl a1 => match iter_until f step a1 with
                  | inl a' => iter_until f step a' | inr b => inr b end
      | inr b => inr b
      end
  end.

Lemma iter_until_first {A B} fuel (step : A -> A + B) a b :
  step a = inr b -> iter_until fuel step a = inr b.
Proof. intros H. induction fuel as [f IH|f IH|]; cbn; [by rewrite H|by rewrite IH|done]. Qed.

(** ** Random *)

Module RandomPolicy.

Record CacheSetRandom := mkRandomSet { m_rand : Random }.

Definition new (time : Z) : CacheSetRandom := mkRandomSet (Random_set_seed (u32 time) Random_init).

(** One call of [getReplacementIndex]: [inl] is the recursive call. *)
Definition random_step (s : CacheSetBase) (r : Random) : Random + res (nat * Random) :=
  match find_invalid s with
  | Err f => inr (Err f)
  | Ok (Some i) => inr (Ok (i, r))
  | Ok None =>
      match Random_next 32768 r with
      | Err f => inr (Err f)
      | Ok (v, r') =>
          if m_num_active_ways s =? 0 then inr (Err DivByZero)
          else
            let index := Z.to_nat (v `mod` Z.of_nat (m_num_active_ways s)) in
            match isValidReplacement s index with
            | Err f => inr (Err f)
            | Ok true => inr (Ok (index, r'))
            | Ok false => inl r'
            end
      end
  end.

(** The generator has at most [2^32] states: a longer run repeats itself. *)
Definition getReplacementIndex (s : CacheSetBase) (p : CacheSetRandom) (e : ReplEnv)
  : res (nat * CacheSetRandom * ReplEnv) :=
  match iter_until 4294967296 (random_step s) (m_rand p) with
  | inl _ => Err Diverges
  | inr r => '(i, r) ← r; Ok (i, mkRandomSet r, e)
  end.

Definition updateReplacementIndex (s : CacheSetBase) (accessed_index : nat) (p : CacheSetRandom)
    (e : ReplEnv) : res (CacheSetRandom * ReplEnv) := Ok (p, e).

Definition getRecencyBits (p : CacheSetRandom) (way : nat) : res Z := Ok (u8 (Z.of_nat way)).

#[global] Instance Random_policy : ReplacementPolicy CacheSetRandom := {
  CacheSet.getReplacementIndex := getReplacementIndex;
  CacheSet.updateReplacementIndex := updateReplacementIndex;
  CacheSet.getRecencyBits := getRecencyBits
}.

Section lemmas.
Context (ty : cache_t) (s : CacheSetBase) (Hs : set_wf ty s).

(** The result of a run is a free way or a way that may be evicted. *)
Definition good_way (r : res (nat * Random)) : Prop :=
  exists i q, r = Ok (i, q) /\ i < m_num_active_ways s /\
    (free_way s i = true \/ evictable_way s i = true).

Lemma random_step_good r : match random_step s r with inl _ => True | inr b => good_way b end.
Proof.
  unfold random_step. pose proof (set_wf_ways _ _ Hs) as Hw.
  destruct (find_invalid_cases _ _ Hs) as [(i & -> & Hf & Hi & _)|[-> _]].
  { exists i, r. auto. }
  destruct (Random_next_Ok 32768 r ltac:(lia)) as (v & r' & -> & Hv).
  rewrite (proj2 (Nat.eqb_neq _ 0)) by lia. rewrite (isValidReplacement_pure _ _ Hs).
  destruct (evictable_way s _) eqn:Ev; [|done]. eexists _, r'. split; [done|]. split; [|by right].
  pose proof (Z.mod_pos_bound v (Z.of_nat (m_num_active_ways s)) ltac:(lia)). lia.
Qed.

Lemma random_run_good fuel r :
  match iter_until fuel (random_step s) r with inl _ => True | inr b => good_way b end.
Proof.
  revert r. induction fuel as [f IH|f IH|]; intros r; cbn [iter_until].
  - pose proof (random_step_good r). destruct (random_step s r) as [r1|]; [|done].
    specialize (IH r1) as H1. destruct (iter_until f _ r1); [apply IH|done].
  - specialize (IH r) as H1. destruct (iter_until f _ r); [apply IH|done].
  - apply random_step_good.
Qed.

Lemma random_victim p e i p' e' :
  getReplacementIndex s p e = Ok (i, p', e') -> free_way s i = true \/ evictable_way s i = true.
Proof.
  unfold getReplacementIndex. pose proof (random_run_good 4294967296 (m_rand p)) as Hg.
  destruct (iter_until _ _ _) as [|r]; [done|]. destruct Hg as (j & q & -> & _ & Hj).
  by intros [= <- <- <-].
Qed.

End lemmas.

#[global] Instance Random_laws : ReplacementPolicyLaws CacheSetRandom.
Proof.
  refine {| policy_wf := fun _ _ _ => True |}.
  - done.
  - intros ty s p e i p' e' Hs _. cbn. unfold getReplacementIndex. pose proof (set_wf_ways _ _ Hs) as Hw.
    pose proof (random_run_good _ _ Hs 4294967296 (m_rand p)) as H.
    destruct (iter_until _ _ _) as [|r]; [done|]. destruct H as (j & q & -> & Hj & _).
    intros [= <- <- <-]. split_and!; [lia|done|done].
  - intros. by eexists _, _.
Defined.

(** [CacheSetRandom] returns at once when no active way is in transition, and its victim is
    always an active way, free or not in transition. *)
Theorem getReplacementIndex_random ty s p e :
  set_wf ty s -> (forall i, i < m_num_active_ways s -> evictable_way s i = true) ->
  exists i p', getReplacementIndex s p e = Ok (i, p', e) /\ i < m_num_active_ways s /\
    (free_way s i = true \/ evictable_way s i = true).
Proof.
  intros Hs Hall. unfold getReplacementIndex. pose proof (set_wf_ways _ _ Hs) as Hw.
  pose proof (random_step_good _ _ Hs (m_rand p)) as Hg.
  destruct (random_step s (m_rand p)) as [r'|b] eqn:E.
  - exfalso. unfold random_step in E.
    destruct (find_invalid_cases _ _ Hs) as [(i & Ei & _)|[Ei _]]; rewrite Ei in E; [done|].
    destruct (Random_next_Ok 32768 (m_rand p) ltac:(lia)) as (v & r & Er & Hv). rewrite Er in E.
    rewrite (proj2 (Nat.eqb_neq _ 0)) in E by lia. rewrite (isValidReplacement_pure _ _ Hs), Hall in E; [done|].
    pose proof (Z.mod_pos_bound v (Z.of_nat (m_num_active_ways s)) ltac:(lia)). lia.
  - rewrite (iter_until_first _ _ _ _ E). destruct Hg as (i & q & -> & Hi & Hgood). by eexists _, _.
Qed.

Lemma getReplacementIndex_random_witness :
  exists i p', getReplacementIndex (l1_set 4 full4) (new 1) (lru_env 4) = Ok (i, p', lru_env 4) /\
    i < 4 /\ (free_way (l1_set 4 full4) i = true \/ evictable_way (l1_set 4 full4) i = true).
Proof.
  apply (getReplacementIndex_random PR_L1_CACHE (l1_set 4 full4) (new 1) (lru_env 4)).
  - apply full4_wf.
  - intros i Hi. cbn in Hi. do 4 (destruct i as [|i]; [reflexivity|]). lia.
Defined.

End RandomPolicy.

(** ** Round robin *)

Module RoundRobin.

Record CacheSetRoundRobin := mkRoundRobin { m_replacement_index : nat }.

Definition new (associativity : nat) : CacheSetRoundRobin := mkRoundRobin (associativity - 1).

(** The recursion of [getReplacementIndex]: the test is made on the next index and the
    current one is returned. *)
Fixpoint rr_loop (fuel : nat) (s : CacheSetBase) (index : nat) : res (nat * nat) :=
  match fuel with
  | O => Err Diverges
  | S fuel' =>
      let next := if index =? 0 then m_associativity s - 1 else index - 1 in
      v ← isValidReplacement s next;
      if negb v then rr_loop fuel' s next else Ok (index, next)
  end.

(** One round over the ways is enough: after it the index repeats. *)
Definition getReplacementIndex (s : CacheSetBase) (p : CacheSetRoundRobin) (e : ReplEnv)
  : res (nat * CacheSetRoundRobin * ReplEnv) :=
  '(i, next) ← rr_loop (m_associativity s) s (m_replacement_index p);
  Ok (i, mkRoundRobin next, e).

Definition updateReplacementIndex (s : CacheSetBase) (accessed_index : nat) (p : CacheSetRoundRobin)
    (e : ReplEnv) : res (CacheSetRoundRobin * ReplEnv) := Ok (p, e).

Definition getRecencyBits (p : CacheSetRoundRobin) (way : nat) : res Z := Ok (u8 (Z.of_nat way)).

#[global] Instance RoundRobin_policy : ReplacementPolicy CacheSetRoundRobin := {
  CacheSet.getReplacementIndex := getReplacementIndex;
  CacheSet.updateReplacementIndex := updateReplacementIndex;
  CacheSet.getRecencyBits := getRecencyBits
}.

Section lemmas.
Context (ty : cache_t) (s : CacheSetBase) (Hs : set_wf ty s).
Let n := m_associativity s.

(** The index after [k] steps down from [index]. *)
Definition down (index k : nat) : nat := (index + k * (n - 1)) `mod` n.

Lemma down_next index k :
  index < n ->
  down (if index =? 0 then n - 1 else index - 1) k = down index (S k).
Proof.
  intros Hi. unfold down. cbn [Nat.mul]. destruct (Nat.eqb_spec index 0) as [->|].
  - f_equal; lia.
  - replace (index + (n - 1 + k * (n - 1))) with (index - 1 + k * (n - 1) + 1 * n) by lia.
    by rewrite Nat.Div0.mod_add.
Qed.

Lemma down_0 index : index < n -> down index 0 = index.
Proof. intros. unfold down. cbn. rewrite Nat.add_0_r. by apply Nat.mod_small. Qed.

Lemma rr_loop_spec fuel index :
  index < n ->
  match rr_loop fuel s index with
  | Ok (i, next) => exists k, k < fuel /\ i = down index k /\ next = down index (S k) /\
      evictable_way s next = true /\ forall j, j < k -> evictable_way s (down index (S j)) = false
  | Err f => f = Diverges /\ forall j, j < fuel -> evictable_way s (down index (S j)) = false
  end.
Proof.
  revert index. induction fuel as [|fuel IH]; intros index Hi; cbn [rr_loop]; [split; [done|lia]|].
  fold n. set (next := if index =? 0 then n - 1 else index - 1).
  assert (Hnext : next < n) by (unfold next; destruct (Nat.eqb_spec index 0); lia).
  assert (E1 : down index 1 = next) by (rewrite <- down_next by done; by apply down_0).
  assert (Hsh : forall k, down next k = down index (S k)) by (intros; by apply down_next).
  rewrite (isValidReplacement_pure _ _ Hs). cbn [mbind res_bind]. destruct (evictable_way s next) eqn:Ev; cbn [negb].
  - exists 0. rewrite down_0, E1 by done. split_and!; [lia|done|done|done|lia].
  - specialize (IH next Hnext). destruct (rr_loop fuel s next) as [[i nx]|f].
    + destruct IH as (k & Hk & -> & -> & Hq & Hmin). exists (S k). rewrite <- !Hsh.
      split_and!; [lia|done|done|done|]. intros [|j] Hj; [by rewrite E1|]. rewrite <- Hsh. apply Hmin. lia.
    + destruct IH as [-> Hmin]. split; [done|]. intros [|j] Hj; [by rewrite E1|].
      rewrite <- Hsh. apply Hmin. lia.
Qed.

(** Every way is the next one within one round. *)
Lemma down_covers index w : index < n -> w < n -> exists j, j < n /\ down index (S j) = w.
Proof.
  intros Hi Hw.
  assert (Hd : forall k, k <= n -> down index k = (index + (n - k)) `mod` n).
  { intros k Hk. unfold down. destruct k as [|k].
    - cbn. rewrite Nat.add_0_r, Nat.sub_0_r. replace (index + n) with (index + 1 * n) by lia.
      by rewrite Nat.Div0.mod_add.
    - replace (index + S k * (n - 1)) with (index + (n - S k) + k * n) by nia.
      by rewrite Nat.Div0.mod_add. }
  destruct (decide (w < index)).
  - exists (index - w - 1). split; [lia|]. rewrite Hd by lia.
    replace (index + (n - S (index - w - 1))) with (w + 1 * n) by lia.
    rewrite Nat.Div0.mod_add. by apply Nat.mod_small.
  - exists (index + n - w - 1). split; [lia|]. rewrite Hd by lia.
    replace (index + (n - S (index + n - w - 1))) with w by lia. by apply Nat.mod_small.
Qed.

End lemmas.

#[global] Instance RoundRobin_laws : ReplacementPolicyLaws CacheSetRoundRobin.
Proof.
  refine {| policy_wf := fun s p _ => m_replacement_index p < m_associativity s |}.
  - intros s s' p si si' E _. by rewrite E.
  - intros ty s p e i p' e' Hs Hwf. cbn. unfold getReplacementIndex.
    pose proof (rr_loop_spec _ _ Hs (m_associativity s) _ Hwf) as H.
    destruct (rr_loop _ _ _) as [[v next]|]; [|done]. cbn. intros [= <- <- <-].
    destruct H as (k & _ & -> & -> & _). unfold down. cbn [m_replacement_index].
    split_and!; [apply Nat.mod_upper_bound; lia|apply Nat.mod_upper_bound; lia|done].
  - intros. by eexists _, _.
Defined.

(** [CacheSetRoundRobin] returns when some way may be evicted, and recurses for ever
    otherwise; the way it returns is the cyclic successor of a way that may be
    evicted, the first such way going down from the last one returned. *)
Theorem getReplacementIndex_round_robin ty s p e :
  set_wf ty s -> m_replacement_index p < m_associativity s ->
  match getReplacementIndex s p e with
  | Ok (v, p', _) => evictable_way s (m_replacement_index p') = true /\
      v = (m_replacement_index p' + 1) `mod` m_associativity s
  | Err f => f = Diverges /\ forall w, w < m_associativity s -> evictable_way s w = false
  end.
Proof.
  intros Hs Hp. unfold getReplacementIndex.
  pose proof (rr_loop_spec _ _ Hs (m_associativity s) _ Hp) as H.
  destruct (rr_loop _ _ _) as [[v next]|f]; cbn [mbind res_bind].
  - destruct H as (k & Hk & -> & -> & Hev & _). cbn [m_replacement_index]. split; [done|].
    unfold down. rewrite Nat.Div0.add_mod_idemp_l.
    replace (m_replacement_index p + S k * (m_associativity s - 1) + 1) with
      (m_replacement_index p + k * (m_associativity s - 1) + 1 * m_associativity s) by lia.
    by rewrite Nat.Div0.mod_add.
  - destruct H as [-> H]. split; [done|]. intros w Hw.
    destruct (down_covers s _ w Hp Hw) as (j & Hj & <-). by apply H.
Qed.

Lemma getReplacementIndex_round_robin_witness :
  exists v p' e', getReplacementIndex (l1_set 4 full4) (new 4) (lru_env 4) = Ok (v, p', e') /\
    v = (m_replacement_index p' + 1) `mod` 4.
Proof.
  pose proof (getReplacementIndex_round_robin PR_L1_CACHE (l1_set 4 full4) (new 4) (lru_env 4) full4_wf
    ltac:(cbn; lia)) as H.
  destruct (getReplacementIndex (l1_set 4 full4) (new 4) (lru_env 4)) as [[[v p'] e']|f] eqn:E.
  - exists v, p', e'. split; [reflexivity|apply H].
  - discriminate E.
Defined.

(** The test of [CacheSetRoundRobin] is made on the wrong way: with three of four ways
    active, a set whose next index is active returns the power-gated way 3. *)
Theorem round_robin_returns_gated_way :
  exists p', getReplacementIndex (l1_set 3 full4) (new 4) (lru_env 4) = Ok (3, p', lru_env 4) /\
    isValidReplacement (l1_set 3 full4) 3 = Ok false.
Proof. eexists. split; reflexivity. Qed.

End RoundRobin.

(** ** The policies that fill free ways first and never evict a block in transition *)

(** Start a proof of [FillsFreeWays]: the scan of the policy finds the way [i]. *)
Ltac fills_start :=
  intros ty s p e i Hs Hwf Hf; cbn;
  let Hi := fresh "Hi" in
  assert (Hi : i < m_associativity s) by
    (apply first_such_Some in Hf as [?%elem_of_seq _]; pose proof (set_wf_ways _ _ Hs); lia).

#[global] Instance MRU_fills : FillsFreeWays MRU.CacheSetMRU.
Proof.
  fills_start. unfold MRU.getReplacementIndex. rewrite (find_invalid_pure _ _ Hs), Hf. cbn [mbind res_bind].
  destruct (MRU.mru_update_wf s p i Hwf Hi) as (q & -> & _). by eexists _, _.
Qed.

#[global] Instance NMRU_fills : FillsFreeWays NMRU.CacheSetNMRU.
Proof.
  fills_start. unfold NMRU.getReplacementIndex. rewrite (find_invalid_pure _ _ Hs), Hf. cbn [mbind res_bind].
  destruct (NMRU.nmru_update_wf s p i Hwf Hi) as (q & -> & _). by eexists _, _.
Qed.

#[global] Instance NRU_fills : FillsFreeWays NRU.CacheSetNRU.
Proof.
  fills_start. unfold NRU.getReplacementIndex. pose proof (NRU.wf_length _ _ Hwf).
  rewrite (NRU.nru_scan_spec _ _ Hs), (NRU.first_free_all _ _ Hs), Hf by (done || lia). cbn [mbind res_bind].
  destruct (NRU.nru_update_wf s p i Hwf Hi) as (q & -> & _). by eexists _, _.
Qed.

#[global] Instance PLRU_fills : FillsFreeWays PLRU.CacheSetPLRU.
Proof.
  fills_start. unfold PLRU.getReplacementIndex. rewrite (find_invalid_pure _ _ Hs), Hf. cbn [mbind res_bind].
  destruct (PLRU.update_total s i p Hwf) as (q & -> & _). by eexists _, _.
Qed.

#[global] Instance Random_fills : FillsFreeWays RandomPolicy.CacheSetRandom.
Proof.
  fills_start. unfold RandomPolicy.getReplacementIndex. rewrite (iter_until_first _ _ _ (Ok (i, RandomPolicy.m_rand p))); [by eexists _, _|].
  unfold RandomPolicy.random_step. by rewrite (find_invalid_pure _ _ Hs), Hf.
Qed.

#[global] Instance MRU_safe : SafeVictims MRU.CacheSetMRU.
Proof.
  intros ty s p e i p' e' Hs [Hl Hn [order Hr]] H. cbn in H. unfold MRU.getReplacementIndex in H.
  destruct (find_invalid_cases _ _ Hs) as [(w & Ew & Hw & _)|[Ew _]]; rewrite Ew in H; cbn [mbind res_bind] in H.
  - inv_res. by left.
  - rewrite (MRU.mru_search_victim _ _ Hs _ order Hr Hl) in H. cbn [mbind res_bind] in H.
    destruct (first_such _ _) as [w|] eqn:E; [|done]. inv_res. right. by apply first_such_Some in E as [_ ?].
Qed.

#[global] Instance NMRU_safe : SafeVictims NMRU.CacheSetNMRU.
Proof.
  intros ty s p e i p' e' Hs [Hl Hn Hr Hp] H. cbn in H. unfold NMRU.getReplacementIndex in H.
  pose proof (set_wf_ways _ _ Hs).
  destruct (find_invalid_cases _ _ Hs) as [(w & Ew & Hw & _)|[Ew _]]; rewrite Ew in H; cbn [mbind res_bind] in H.
  - inv_res. by left.
  - destruct (pointer_walk _ _ _ _) as [[v ptr]|f] eqn:E; [|done]. cbn [mbind res_bind] in H.
    eapply (pointer_walk_Ok _ _ (NMRU.not_mru s (NMRU.m_lru_bits p))) in E as (_ & _ & Hq);
      [|lia|intros; by apply (NMRU.nmru_test_pure ty)|done].
    inv_res. right. unfold NMRU.not_mru in Hq. destruct (_ !! i); [|done]. by apply andb_prop in Hq as [_ ?].
Qed.

#[global] Instance NRU_safe : SafeVictims NRU.CacheSetNRU.
Proof.
  intros ty s p e i p' e' Hs [Hl Hn Hm Hc Hp] H. cbn in H. unfold NRU.getReplacementIndex in H.
  pose proof (set_wf_ways _ _ Hs).
  rewrite (NRU.nru_scan_spec _ _ Hs), (NRU.first_free_all _ _ Hs) in H by (done || lia). cbn [mbind res_bind] in H.
  destruct (first_such _ _) as [w|] eqn:Ef.
  - inv_res. left. by apply first_such_Some in Ef as [_ ?].
  - destruct (pointer_walk _ _ _ _) as [[v ptr]|f] eqn:E; [|done]. cbn [mbind res_bind] in H.
    eapply (pointer_walk_Ok _ _ (NRU.nru_ok s (NRU.m_lru_bits p) _)) in E as (_ & _ & Hq);
      [|lia|intros; by apply (NRU.nru_test_pure ty)|done].
    inv_res. right. unfold NRU.nru_ok in Hq. destruct (_ !! i); [|done]. by apply andb_prop in Hq as [_ ?].
Qed.

#[global] Instance PLRU_safe : SafeVictims PLRU.CacheSetPLRU.
Proof.
  intros ty s p e i p' e' Hs Hwf H. cbn in H. unfold PLRU.getReplacementIndex in H.
  destruct (find_invalid_cases _ _ Hs) as [(w & Ew & Hw & _)|[Ew _]]; rewrite Ew in H; cbn [mbind res_bind] in H.
  - inv_res. by left.
  - destruct (PLRU.victim s p) as [v|]; [|done]. cbn [mbind res_bind] in H.
    rewrite (isValidReplacement_pure _ _ Hs) in H. cbn [mbind res_bind] in H. inv_res. by right.
Qed.

#[global] Instance Random_safe : SafeVictims RandomPolicy.CacheSetRandom.
Proof. intros ty s p e i p' e' Hs _. exact (RandomPolicy.random_victim ty s Hs p e i p' e'). Qed.
