(* ===== verification/Srrip.v ===== *)
(** * SRRIP

    [CacheSetSRRIP] ([cache_set_srrip.cc]): re-reference interval prediction with
    optional query-based selection and the page-table variant that keeps blocks of
    page-table data. Besides the laws of a policy, the file shows that the search with
    repeated ageing computes the way with the largest counter directly. *)

From Stdlib Require Import ZArith Lia.
From stdpp Require Import base tactics numbers list.
From S2P Require Import Prelude Utils CacheBase CacheBlock CacheSet Replacement Policies.
Local Open Scope nat_scope.

Record CacheSetSRRIP := mkSRRIP {
  m_rrip_max : Z;
  m_rrip_insert : Z;
  m_num_attempts : nat;
  m_rrip_bits : list Z;
  m_replacement_pointer : nat;
  m_srrip_tlb_enabled : bool
}.

Definition set_bits (b : list Z) (p : CacheSetSRRIP) : CacheSetSRRIP :=
  mkSRRIP (m_rrip_max p) (m_rrip_insert p) (m_num_attempts p) b (m_replacement_pointer p)
    (m_srrip_tlb_enabled p).
Definition set_pointer (i : nat) (p : CacheSetSRRIP) : CacheSetSRRIP :=
  mkSRRIP (m_rrip_max p) (m_rrip_insert p) (m_num_attempts p) (m_rrip_bits p) i
    (m_srrip_tlb_enabled p).

(** The constructor: [numbits] and [tlb_enabled] are read from the configuration. *)
Definition SRRIP_new (numbits : Z) (tlb_enabled : bool) (associativity num_attempts : nat)
  : res CacheSetSRRIP :=
  let m_rrip_numbits := u8 numbits in
  check (m_rrip_numbits <? 32)%Z BadShift;;
  let rrip_max := u8 (Z.shiftl 1 m_rrip_numbits - 1) in
  let rrip_insert := u8 (rrip_max - 1) in
  Ok (mkSRRIP rrip_max rrip_insert num_attempts (replicate associativity rrip_insert) 0 tlb_enabled).

(** The page-table test of the variant. *)
Definition keeps (s : CacheSetBase) (p : CacheSetSRRIP) (i : nat) : res bool :=
  b ← rd (m_cache_block_info_array s) i;
  Ok (isPageTableBlock b && m_srrip_tlb_enabled p).

Definition next_way (s : CacheSetBase) (p : CacheSetSRRIP) : res CacheSetSRRIP :=
  check (negb (m_associativity s =? 0)) DivByZero;;
  Ok (set_pointer (byte_of ((m_replacement_pointer p + 1) `mod` m_associativity s)) p).

(** A round over the ways either returns a victim or goes on. *)
Inductive outcome :=
| Return (index : nat) (p : CacheSetSRRIP) (e : ReplEnv)
| Continue (p : CacheSetSRRIP) (attempt : nat) (e : ReplEnv).

(** One iteration of the inner loop. *)
Definition srrip_step (s : CacheSetBase) (p : CacheSetSRRIP) (attempt : nat) (e : ReplEnv)
  : res outcome :=
  x ← rd (m_rrip_bits p) (m_replacement_pointer p);
  if (m_rrip_max p <=? x)%Z then
    let index := byte_of (m_replacement_pointer p) in
    let asked := S attempt <? m_num_attempts p in
    qbs_reject ← qbs_query s index asked e;
    if qbs_reject : bool then
      bits ← wr (m_rrip_bits p) index 0%Z;
      e ← env_charge e;
      Ok (Continue (set_bits bits p) (byte_of (attempt + 1)) e)
    else
      kept ← keeps s p index;
      if kept && asked then
        bits ← wr (m_rrip_bits p) index 0%Z;
        e ← env_charge e;
        Ok (Continue (set_bits bits p) (byte_of (attempt + 1)) e)
      else
        p ← next_way s p;
        bits ← wr (m_rrip_bits p) index (m_rrip_insert p);
        e ← env_incrementAttempt attempt e;
        v ← isValidReplacement s index;
        check v LogError;;
        Ok (Return index (set_bits bits p) e)
  else
    p ← next_way s p;
    Ok (Continue p attempt e).

(** The inner loop: [rounds] iterations. *)
Fixpoint srrip_inner (s : CacheSetBase) (rounds : nat) (p : CacheSetSRRIP) (attempt : nat)
    (e : ReplEnv) : res outcome :=
  match rounds with
  | O => Ok (Continue p attempt e)
  | S rounds' =>
      o ← srrip_step s p attempt e;
      match o with
      | Return i p e => Ok (Return i p e)
      | Continue p attempt e => srrip_inner s rounds' p attempt e
      end
  end.

(** Increment the counters that are below the maximum. *)
Definition age (p : CacheSetSRRIP) : CacheSetSRRIP :=
  set_bits ((fun x => if (x <? m_rrip_max p)%Z then u8 (x + 1) else x) <$> m_rrip_bits p) p.

(** The outer loop: [for (j = 0; j <= m_rrip_max; ++j)]. *)
Fixpoint srrip_outer (s : CacheSetBase) (fuel : nat) (p : CacheSetSRRIP) (attempt : nat)
    (e : ReplEnv) : res (nat * CacheSetSRRIP * ReplEnv) :=
  match fuel with
  | O => Err LogError
  | S fuel' =>
      o ← srrip_inner s (m_associativity s) p attempt e;
      match o with
      | Return i p e => Ok (i, p, e)
      | Continue p attempt e => srrip_outer s fuel' (age p) attempt e
      end
  end.

Definition SRRIP_getReplacementIndex (s : CacheSetBase) (p : CacheSetSRRIP) (e : ReplEnv)
  : res (nat * CacheSetSRRIP * ReplEnv) :=
  o ← find_invalid s;
  match o with
  | Some i =>
      bits ← wr (m_rrip_bits p) i (m_rrip_insert p);
      kept ← keeps s p i;
      bits ← (if kept : bool then wr bits i 0%Z else Ok bits);
      Ok (i, set_bits bits p, e)
  | None => srrip_outer s (Z.to_nat (m_rrip_max p + 1)) p 0 e
  end.

Definition SRRIP_updateReplacementIndex (s : CacheSetBase) (accessed_index : nat)
    (p : CacheSetSRRIP) (e : ReplEnv) : res (CacheSetSRRIP * ReplEnv) :=
  x ← rd (m_rrip_bits p) accessed_index;
  e ← env_increment (Z.to_nat x) e;
  kept ← keeps s p accessed_index;
  if kept : bool then
    bits ← wr (m_rrip_bits p) accessed_index 0%Z;
    Ok (set_bits bits p, e)
  else if (0 <? x)%Z then
    bits ← wr (m_rrip_bits p) accessed_index (x - 1)%Z;
    Ok (set_bits bits p, e)
  else Ok (p, e).

Definition SRRIP_getRecencyBits (p : CacheSetSRRIP) (way : nat) : res Z := rd (m_rrip_bits p) way.

#[global] Instance SRRIP_policy : ReplacementPolicy CacheSetSRRIP := {
  getReplacementIndex := SRRIP_getReplacementIndex;
  updateReplacementIndex := SRRIP_updateReplacementIndex;
  getRecencyBits := SRRIP_getRecencyBits
}.

(** The invariant. The counters stay in range of the access histogram only when the maximum
    is below the associativity. *)
Record wf (s : CacheSetBase) (p : CacheSetSRRIP) (si : option CacheSetInfoLRU) : Prop := {
  wf_length : length (m_rrip_bits p) = m_associativity s;
  wf_ways : m_associativity s <= 256;
  wf_max : (1 <= m_rrip_max p < Z.of_nat (m_associativity s))%Z;
  wf_insert : m_rrip_insert p = (m_rrip_max p - 1)%Z;
  wf_bits : Forall (fun x => 0 <= x <= m_rrip_max p)%Z (m_rrip_bits p);
  wf_pointer : m_replacement_pointer p < m_associativity s;
  wf_attempts : 0 < m_num_attempts p <= 255;
  wf_env : info_ok (m_associativity s) (m_num_attempts p) si
}.

Section lemmas.
Context (ty : cache_t) (s : CacheSetBase) (Hs : set_wf ty s).

Lemma wf_set_bits p si i x si' :
  wf s p si -> (0 <= x <= m_rrip_max p)%Z -> info_shape si si' ->
  wf s (set_bits (<[i := x]> (m_rrip_bits p)) p) si'.
Proof.
  intros [] Hx Hsh. split; cbn; try done; [by rewrite length_insert|by apply Forall_insert|].
  by eapply info_ok_shape.
Qed.

Lemma next_way_wf p e :
  wf s p e -> exists p', next_way s p = Ok p' /\ wf s p' e /\
    p' = set_pointer ((m_replacement_pointer p + 1) `mod` m_associativity s) p.
Proof.
  intros Hwf. unfold next_way. pose proof (set_wf_ways _ _ Hs). destruct Hwf.
  rewrite (proj2 (Nat.eqb_neq _ 0)) by lia. cbn [negb check mbind res_bind].
  destruct (next_pointer (m_associativity s) ltac:(lia) (m_replacement_pointer p) ltac:(done)) as (_ & -> & Hlt).
  eexists. split_and!; [done| |done]. by split.
Qed.

Lemma keeps_total p i : i < m_associativity s -> exists k, keeps s p i = Ok k.
Proof.
  intros Hi. unfold keeps. destruct (array_lookup _ _ Hs i Hi) as (b & Hb & _).
  rewrite (proj2 (rd_Ok _ _ _) Hb). by eexists.
Qed.

Lemma wf_byte_pointer p e : wf s p e -> byte_of (m_replacement_pointer p) = m_replacement_pointer p.
Proof. intros []. unfold byte_of. apply Nat.mod_small. lia. Qed.

(** What a step keeps. *)
Definition outcome_ok (si : option CacheSetInfoLRU) (o : outcome) : Prop :=
  match o with
  | Return i p e => i < m_associativity s /\ evictable_way s i = true /\ wf s p (set_info e) /\
      info_shape si (set_info e)
  | Continue p attempt e => wf s p (set_info e) /\ attempt < m_num_attempts p /\
      info_shape si (set_info e)
  end.

(** A way rejected by an attempt that is not the last one. *)
Lemma rejected_ok p attempt e e' :
  wf s p (set_info e) -> S attempt < m_num_attempts p -> set_info e' = set_info e ->
  outcome_ok (set_info e)
    (Continue (set_bits (<[m_replacement_pointer p := 0%Z]> (m_rrip_bits p)) p) (byte_of (attempt + 1)) e').
Proof.
  intros Hwf Ha E. split_and!; [| |by rewrite E].
  - eapply wf_set_bits; [exact Hwf|destruct Hwf; lia|by rewrite E].
  - pose proof (wf_attempts _ _ _ Hwf). unfold byte_of. rewrite Nat.mod_small by lia. cbn. lia.
Qed.

(** A way that is chosen. *)
Lemma chosen_ok p e attempt i o :
  wf s p (set_info e) -> attempt < m_num_attempts p -> i < m_associativity s ->
  (bits ← wr (m_rrip_bits p) i (m_rrip_insert p);
   e ← env_incrementAttempt attempt e;
   v ← isValidReplacement s i;
   check v LogError;;
   Ok (Return i (set_bits bits p) e)) = Ok o -> outcome_ok (set_info e) o.
Proof.
  intros Hwf Ha Hi. pose proof (wf_length _ _ _ Hwf). rewrite wr_lt by lia. cbn [mbind res_bind].
  destruct (env_incrementAttempt_total _ _ e attempt (wf_env _ _ _ Hwf) Ha) as (e' & -> & Hsh & _).
  rewrite (isValidReplacement_pure _ _ Hs). cbn [mbind res_bind].
  destruct (evictable_way s i) eqn:Ev; [|done]. intros [= <-]. split_and!; [done|done| |done].
  eapply wf_set_bits; [done|destruct Hwf; lia|done].
Qed.

Lemma srrip_step_ok p attempt e o :
  wf s p (set_info e) -> attempt < m_num_attempts p -> srrip_step s p attempt e = Ok o ->
  outcome_ok (set_info e) o.
Proof.
  intros Hwf Ha. pose proof (wf_pointer _ _ _ Hwf) as Hp. pose proof (wf_length _ _ _ Hwf) as Hl.
  unfold srrip_step. destruct (rd_lookup (m_rrip_bits p) (m_replacement_pointer p) ltac:(lia)) as (x & -> & Hx).
  cbn [mbind res_bind]. rewrite (wf_byte_pointer _ _ Hwf).
  destruct (next_way_wf _ _ Hwf) as (p' & -> & Hwf' & Ep'). cbn [mbind res_bind].
  assert (Ha' : attempt < m_num_attempts p') by (by subst p').
  destruct (m_rrip_max p <=? x)%Z; [|by intros [= <-]].
  destruct (qbs_query _ _ _ _) as [rej|] eqn:Eq; [|done]. cbn [mbind res_bind].
  destruct (keeps_total p _ Hp) as [k ->]. rewrite (wr_lt (m_rrip_bits p)) by lia. cbn [mbind res_bind].
  assert (Hrej : forall r, (S attempt <? m_num_attempts p) = true ->
    (e ← env_charge e; Ok (Continue (set_bits (<[m_replacement_pointer p := 0%Z]> (m_rrip_bits p)) p)
       (byte_of (attempt + 1)) e)) = Ok r -> outcome_ok (set_info e) r).
  { intros r Easked%Nat.ltb_lt. destruct (env_charge e) as [e1|] eqn:Ec; [|done]. cbn [mbind res_bind].
    intros [= <-]. apply rejected_ok; [done|done|]. unfold env_charge in Ec. by inv_res. }
  destruct rej.
  { apply qbs_query_true in Eq as [Easked _]. by apply Hrej. }
  destruct (k && _) eqn:Ek; [apply andb_prop in Ek as [_ Easked]; by apply Hrej|].
  by apply chosen_ok.
Qed.

Lemma outcome_ok_shape si si' o : info_shape si si' -> outcome_ok si' o -> outcome_ok si o.
Proof. intros H. destruct o; cbn; intros; destruct_and!; split_and!; try done; by etrans. Qed.

Lemma srrip_inner_ok rounds p attempt e o :
  wf s p (set_info e) -> attempt < m_num_attempts p -> srrip_inner s rounds p attempt e = Ok o ->
  outcome_ok (set_info e) o.
Proof.
  revert p attempt e. induction rounds as [|rounds IH]; intros p attempt e Hwf Ha; cbn [srrip_inner].
  { by intros [= <-]. }
  destruct (srrip_step s p attempt e) as [o'|] eqn:E; [|done]. cbn [mbind res_bind].
  pose proof (srrip_step_ok _ _ _ _ Hwf Ha E) as Ho. destruct o' as [i q f|q a f]; [by intros [= <-]|].
  destruct Ho as (H1 & H2 & H3). intros H. eapply outcome_ok_shape; [exact H3|]. by eapply IH.
Qed.

Lemma age_wf p e : wf s p e -> wf s (age p) e.
Proof.
  intros [H1 H2 H3 H4 H5 H6 H7]. split; cbn; try done; [by rewrite length_fmap|].
  apply Forall_fmap. eapply Forall_impl; [exact H5|]. intros x Hx. cbn in Hx |- *.
  destruct (Z.ltb_spec x (m_rrip_max p)); [|done]. rewrite wrap_small by (split; lia). lia.
Qed.

Lemma srrip_outer_ok fuel p attempt e i p' e' :
  wf s p (set_info e) -> attempt < m_num_attempts p ->
  srrip_outer s fuel p attempt e = Ok (i, p', e') -> outcome_ok (set_info e) (Return i p' e').
Proof.
  revert p attempt e. induction fuel as [|fuel IH]; intros p attempt e Hwf Ha; cbn [srrip_outer]; [done|].
  destruct (srrip_inner _ _ _ _ _) as [o|] eqn:E; [|done]. cbn [mbind res_bind].
  pose proof (srrip_inner_ok _ _ _ _ _ Hwf Ha E) as Ho. destruct o as [j q f|q a f].
  - intros [= <- <- <-]. exact Ho.
  - destruct Ho as (H1 & H2 & H3). intros H. eapply outcome_ok_shape; [exact H3|].
    eapply (IH (age q)); [by apply age_wf|done|exact H].
Qed.

(** The free way is prepared for the new line. *)
Lemma srrip_fill p e i :
  wf s p (set_info e) -> i < m_associativity s -> find_invalid s = Ok (Some i) ->
  exists p', SRRIP_getReplacementIndex s p e = Ok (i, p', e) /\ wf s p' (set_info e).
Proof.
  intros Hwf Hi Hf. unfold SRRIP_getReplacementIndex. rewrite Hf. cbn [mbind res_bind].
  pose proof (wf_length _ _ _ Hwf). rewrite wr_lt by lia. cbn [mbind res_bind].
  destruct (keeps_total p i Hi) as [k ->]. cbn [mbind res_bind].
  destruct k.
  - rewrite wr_lt by (rewrite length_insert; lia). cbn [mbind res_bind]. eexists. split; [done|].
    rewrite list_insert_insert_eq. eapply wf_set_bits; [done|destruct Hwf; lia|done].
  - eexists. split; [done|]. eapply wf_set_bits; [done|destruct Hwf; lia|done].
Qed.

End lemmas.

#[global] Instance SRRIP_laws : ReplacementPolicyLaws CacheSetSRRIP.
Proof.
  refine {| policy_wf := wf |}.
  - intros s s' p si si' E Hsh []. split; rewrite <- ?E; try done. by eapply info_ok_shape.
  - intros ty s p e i p' e' Hs Hwf H. cbn in H. pose proof (set_wf_ways _ _ Hs).
    destruct (find_invalid_cases _ _ Hs) as [(w & Ew & _ & Hw & _)|[Ew _]].
    + destruct (srrip_fill ty s Hs p e w Hwf ltac:(lia) Ew) as (q & E & Hq). rewrite E in H.
      injection H as <- <- <-. split_and!; [lia|done|done].
    + unfold SRRIP_getReplacementIndex in H. rewrite Ew in H. cbn [mbind res_bind] in H.
      apply (srrip_outer_ok ty s Hs) in H as (? & ? & ? & ?); [done|done|apply Hwf].
  - intros ty s p e i Hs Hwf Hi. cbn. unfold SRRIP_updateReplacementIndex.
    pose proof (wf_length _ _ _ Hwf) as Hl. destruct (rd_lookup (m_rrip_bits p) i ltac:(lia)) as (x & -> & Hx).
    cbn [mbind res_bind]. pose proof (Forall_lookup_1 _ _ _ _ (wf_bits _ _ _ Hwf) Hx) as Hb. cbn in Hb.
    destruct (env_increment_total _ _ e (Z.to_nat x) (wf_env _ _ _ Hwf)) as (e' & -> & He' & _).
    { destruct Hwf. lia. }
    destruct (keeps_total ty s Hs p i Hi) as [k ->]. rewrite !wr_lt by lia. cbn [mbind res_bind].
    destruct k; [|destruct (Z.ltb_spec 0 x)]; eexists _, _; (split; [done|]); (split; [|done]).
    + eapply wf_set_bits; [done|lia|done].
    + eapply wf_set_bits; [done|lia|done].
    + destruct Hwf. split; try done. by eapply info_ok_shape.
Defined.

#[global] Instance SRRIP_fills : FillsFreeWays CacheSetSRRIP.
Proof.
  fills_start. destruct (srrip_fill ty s Hs p e i Hwf Hi) as (q & -> & _); [|by eexists _, _].
  by rewrite (find_invalid_pure _ _ Hs), Hf.
Qed.

#[global] Instance SRRIP_safe : SafeVictims CacheSetSRRIP.
Proof.
  intros ty s p e i p' e' Hs Hwf H. cbn in H. pose proof (set_wf_ways _ _ Hs).
  destruct (find_invalid_cases _ _ Hs) as [(w & Ew & Hf & Hw & _)|[Ew _]].
  - destruct (srrip_fill ty s Hs p e w Hwf ltac:(lia) Ew) as (q & E & Hq). rewrite E in H.
    injection H as <- <- <-. by left.
  - unfold SRRIP_getReplacementIndex in H. rewrite Ew in H. cbn [mbind res_bind] in H.
    apply (srrip_outer_ok ty s Hs) in H as (? & ? & ? & ?); [by right|done|apply Hwf].
Qed.

(** ** The search computes the largest counter *)

(** The counters all raised by [d]. *)
Definition raise (d : Z) (bits : list Z) : list Z := (fun x => (x + d)%Z) <$> bits.

(** [is_victim n bits ptr m v]: going up cyclically from [ptr], [v] is the first way whose
    counter is [m]. *)
Definition is_victim (n : nat) (bits : list Z) (ptr : nat) (m : Z) (v : nat) : Prop :=
  bits !! v = Some m /\
  exists k, k < n /\ v = (ptr + k) `mod` n /\ forall j, j < k -> bits !! ((ptr + j) `mod` n) <> Some m.

Lemma is_victim_exists n bits ptr m w :
  length bits = n -> n <= 256 -> ptr < n -> bits !! w = Some m ->
  exists v, is_victim n bits ptr m v.
Proof.
  intros Hl Hn Hp Hw. pose proof (lookup_lt_Some _ _ _ Hw).
  set (q k := bool_decide (bits !! ((ptr + k) `mod` n) = Some m)).
  destruct (walk_covers n ltac:(lia) ptr w Hp ltac:(lia)) as (j & Hj & Ej).
  destruct (first_such q (seq 0 n)) as [k|] eqn:E.
  - apply first_such_seq_min in E as (Hk & Hq & Hmin). exists ((ptr + k) `mod` n).
    split; [by apply bool_decide_eq_true in Hq|]. exists k. split_and!; [lia|done|].
    intros i Hi. specialize (Hmin i ltac:(lia)). by apply bool_decide_eq_false in Hmin.
  - exfalso. rewrite first_such_None in E. specialize (E j ltac:(apply elem_of_seq; lia)).
    apply bool_decide_eq_false in E. apply E. by rewrite Ej.
Qed.

Section search.
Context (ty : cache_t) (s : CacheSetBase) (Hs : set_wf ty s) (e e' : ReplEnv).
Let n := m_associativity s.
Context (He : env_incrementAttempt 0 e = Ok e').

(** The state after a victim is chosen. *)
Definition chosen (p : CacheSetSRRIP) (v : nat) : CacheSetSRRIP :=
  set_bits (<[v := m_rrip_insert p]> (m_rrip_bits p)) (set_pointer ((v + 1) `mod` n) p).

Lemma step_single p x :
  wf s p (set_info e) -> m_num_attempts p = 1 -> m_rrip_bits p !! m_replacement_pointer p = Some x ->
  srrip_step s p 0 e =
    if (m_rrip_max p <=? x)%Z then
      if evictable_way s (m_replacement_pointer p)
      then Ok (Return (m_replacement_pointer p) (chosen p (m_replacement_pointer p)) e') else Err LogError
    else Ok (Continue (set_pointer ((m_replacement_pointer p + 1) `mod` n) p) 0 e).
Proof.
  intros Hwf Ha Hx. pose proof (wf_pointer _ _ _ Hwf) as Hp. pose proof (wf_length _ _ _ Hwf) as Hl.
  unfold srrip_step. rewrite (proj2 (rd_Ok _ _ _) Hx), (wf_byte_pointer _ _ _ Hwf), Ha. cbn [mbind res_bind].
  destruct (next_way_wf _ _ Hs _ _ Hwf) as (p' & -> & _ & ->). cbn [mbind res_bind].
  destruct (m_rrip_max p <=? x)%Z; [|done]. change (1 <? 1) with false. cbn [qbs_query mbind res_bind].
  destruct (keeps_total ty s Hs p _ Hp) as [k ->]. cbn [mbind res_bind]. rewrite andb_false_r.
  rewrite wr_lt by (cbn; lia). rewrite He, (isValidReplacement_pure _ _ Hs). cbn [mbind res_bind].
  by destruct (evictable_way s _).
Qed.

(** A round over [k] ways none of which has a maximal counter, then a way that has. *)
Lemma inner_single k rounds p :
  wf s p (set_info e) -> m_num_attempts p = 1 -> k < rounds ->
  let ptr := m_replacement_pointer p in
  (forall j, j < k -> m_rrip_bits p !! ((ptr + j) `mod` n) <> Some (m_rrip_max p)) ->
  m_rrip_bits p !! ((ptr + k) `mod` n) = Some (m_rrip_max p) ->
  let v := (ptr + k) `mod` n in
  srrip_inner s rounds p 0 e =
    if evictable_way s v then Ok (Return v (chosen p v) e') else Err LogError.
Proof.
  revert rounds p. induction k as [|k IH]; intros rounds p Hwf Ha Hk ptr Hno Hm v;
    (destruct rounds as [|rounds]; [lia|]); pose proof (wf_pointer _ _ _ Hwf) as Hp; cbn [srrip_inner].
  - unfold v. rewrite Nat.add_0_r, Nat.mod_small in Hm |- * by done.
    rewrite (step_single p _ Hwf Ha Hm), Z.leb_refl. fold ptr. by destruct (evictable_way s ptr).
  - assert (Hp' : ptr < n) by done.
    assert (Hsh : forall j, ((ptr + 1) `mod` n + j) `mod` n = (ptr + S j) `mod` n).
    { intros j. rewrite Nat.Div0.add_mod_idemp_l. f_equal. lia. }
    destruct (lookup_lt_is_Some_2 (m_rrip_bits p) ptr) as [x Hx].
    { rewrite (wf_length _ _ _ Hwf). done. }
    rewrite (step_single p _ Hwf Ha Hx). fold ptr.
    pose proof (Forall_lookup_1 _ _ _ _ (wf_bits _ _ _ Hwf) Hx) as Hb. cbn in Hb.
    pose proof (Hno 0 ltac:(lia)) as H0. rewrite Nat.add_0_r, Nat.mod_small, Hx in H0 by done.
    rewrite (proj2 (Z.leb_gt _ _)) by (assert (x <> m_rrip_max p) by congruence; lia). cbn [mbind res_bind].
    destruct (next_way_wf _ _ Hs _ _ Hwf) as (p' & _ & Hwf' & Ep'). fold ptr n in Ep'.
    rewrite <- Ep'.
    rewrite (IH rounds p' Hwf'); [|by rewrite Ep'|lia| |]; rewrite Ep'; cbn [m_replacement_pointer set_pointer m_rrip_bits m_rrip_max].
    + rewrite Hsh. fold v. done.
    + intros j Hj. rewrite Hsh. apply Hno. lia.
    + by rewrite Hsh.
Qed.

(** A round over ways none of which has a maximal counter moves the pointer only. *)
Lemma inner_skip rounds p :
  wf s p (set_info e) -> m_num_attempts p = 1 -> (forall x, x ∈ m_rrip_bits p -> x <> m_rrip_max p) ->
  srrip_inner s rounds p 0 e =
    Ok (Continue (set_pointer ((m_replacement_pointer p + rounds) `mod` n) p) 0 e).
Proof.
  revert p. induction rounds as [|rounds IH]; intros p Hwf Ha Hno; cbn [srrip_inner];
    pose proof (wf_pointer _ _ _ Hwf) as Hp.
  - rewrite Nat.add_0_r, Nat.mod_small by done. by destruct p.
  - destruct (lookup_lt_is_Some_2 (m_rrip_bits p) (m_replacement_pointer p)) as [x Hx].
    { by rewrite (wf_length _ _ _ Hwf). }
    rewrite (step_single p _ Hwf Ha Hx).
    pose proof (Forall_lookup_1 _ _ _ _ (wf_bits _ _ _ Hwf) Hx) as Hb. cbn in Hb.
    pose proof (Hno x (list_elem_of_lookup_2 _ _ _ Hx)).
    rewrite (proj2 (Z.leb_gt _ _)) by lia. cbn [mbind res_bind].
    destruct (next_way_wf _ _ Hs _ _ Hwf) as (p' & _ & Hwf' & Ep'). fold n in Ep'. rewrite <- Ep'.
    rewrite IH; [|done|by rewrite Ep'|by rewrite Ep']. rewrite Ep'. cbn.
    do 2 f_equal. rewrite Nat.Div0.add_mod_idemp_l. unfold set_pointer. cbn. do 2 f_equal. lia.
Qed.

Lemma age_raise p :
  wf s p (set_info e) -> (forall x, x ∈ m_rrip_bits p -> x <> m_rrip_max p) ->
  age p = set_bits (raise 1 (m_rrip_bits p)) p.
Proof.
  intros Hwf Hno. unfold age, raise. f_equal. apply list_fmap_ext. intros i x Hx.
  pose proof (Forall_lookup_1 _ _ _ _ (wf_bits _ _ _ Hwf) Hx) as Hb. cbn in Hb.
  pose proof (Hno x (list_elem_of_lookup_2 _ _ _ Hx)). destruct Hwf.
  rewrite (proj2 (Z.ltb_lt _ _)) by lia. apply wrap_small. split; lia.
Qed.

Lemma raise_0 bits : raise 0 bits = bits.
Proof. unfold raise. rewrite <- (list_fmap_id bits) at 2. apply list_fmap_ext. intros. cbn. lia. Qed.

Lemma raise_add d d' bits : raise d (raise d' bits) = raise (d' + d) bits.
Proof. unfold raise. rewrite <- list_fmap_compose. apply list_fmap_ext. intros. cbn. lia. Qed.

(** The outer loop, by induction on the distance from the largest counter to the maximum. *)
Lemma outer_single d fuel p v :
  wf s p (set_info e) -> m_num_attempts p = 1 -> d < fuel ->
  (forall x, x ∈ m_rrip_bits p -> x <= m_rrip_max p - Z.of_nat d)%Z ->
  is_victim n (m_rrip_bits p) (m_replacement_pointer p) (m_rrip_max p - Z.of_nat d) v ->
  srrip_outer s fuel p 0 e =
    if evictable_way s v
    then Ok (v, chosen (set_bits (raise (Z.of_nat d) (m_rrip_bits p)) p) v, e') else Err LogError.
Proof.
  revert fuel p. induction d as [|d IH]; intros fuel p Hwf Ha Hf Hle [Hv (k & Hk & -> & Hno)];
    (destruct fuel as [|fuel]; [lia|]); cbn [srrip_outer].
  - rewrite Z.sub_0_r in *. fold n. rewrite (inner_single k n p Hwf Ha Hk Hno Hv).
    rewrite raise_0. replace (set_bits (m_rrip_bits p) p) with p by (by destruct p).
    by destruct (evictable_way s _).
  - assert (Hne : forall x, x ∈ m_rrip_bits p -> x <> m_rrip_max p).
    { intros x Hx. specialize (Hle x Hx). lia. }
    rewrite (inner_skip _ _ Hwf Ha Hne). fold n. cbn [mbind res_bind].
    assert (E : set_pointer ((m_replacement_pointer p + n) `mod` n) p = p).
    { replace (m_replacement_pointer p + n) with (m_replacement_pointer p + 1 * n) by lia.
      rewrite Nat.Div0.mod_add, Nat.mod_small by (by apply (wf_pointer _ _ _ Hwf)). by destruct p. }
    rewrite E. rewrite (IH fuel (age p)); [| |done|lia| |].
    + rewrite (age_raise _ Hwf Hne). cbn [set_bits m_rrip_bits m_rrip_max]. rewrite raise_add.
      replace (1 + Z.of_nat d)%Z with (Z.of_nat (S d)) by lia. done.
    + by apply age_wf.
    + rewrite (age_raise _ Hwf Hne). cbn. intros x (y & -> & Hy)%list_elem_of_fmap.
      specialize (Hle y Hy). lia.
    + rewrite (age_raise _ Hwf Hne). cbn [set_bits m_rrip_bits m_rrip_max m_replacement_pointer].
      unfold raise. split.
      { rewrite list_lookup_fmap, Hv. cbn. f_equal. lia. }
      exists k. split_and!; [done|done|]. intros j Hj. rewrite list_lookup_fmap.
      specialize (Hno j Hj). destruct (m_rrip_bits p !! ((m_replacement_pointer p + j) `mod` n)) as [y|];
        cbn; [|done]. intros [= Ey]. apply Hno. f_equal. lia.
Qed.

End search.

(** The largest counter. *)
Definition bits_max (bits : list Z) : Z := foldr Z.max 0%Z bits.

Lemma bits_max_le bits x : x ∈ bits -> (x <= bits_max bits)%Z.
Proof. intros H. unfold bits_max. induction H; cbn; lia. Qed.

Lemma bits_max_elem bits :
  bits <> [] -> Forall (fun x => 0 <= x)%Z bits -> bits_max bits ∈ bits.
Proof.
  induction bits as [|x bits IH]; intros Hne Hp; [done|]. apply Forall_cons in Hp as [Hx Hp].
  destruct bits as [|y bits]; [cbn; rewrite Z.max_l by done; left|].
  change (bits_max (x :: y :: bits)) with (Z.max x (bits_max (y :: bits))).
  destruct (Z.max_spec x (bits_max (y :: bits))) as [[_ ->]|[_ ->]]; [right; by apply IH|left].
Qed.

(** C31: without query-based selection SRRIP's search with repeated ageing equals the direct
    choice: the victim is the first way from the replacement pointer (cyclically) with
    the largest counter, the other counters grow by the distance of that counter to
    the maximum, and the policy stops with an error exactly when that way must not
    be evicted. *)
Theorem srrip_search_is_max ty s p e :
  set_wf ty s -> wf s p (set_info e) -> m_num_attempts p = 1 ->
  first_such (free_way s) (seq 0 (m_num_active_ways s)) = None ->
  let m := bits_max (m_rrip_bits p) in
  exists v e', is_victim (m_associativity s) (m_rrip_bits p) (m_replacement_pointer p) m v /\
    SRRIP_getReplacementIndex s p e =
      if evictable_way s v
      then Ok (v, chosen s (set_bits (raise (m_rrip_max p - m) (m_rrip_bits p)) p) v, e')
      else Err LogError.
Proof.
  intros Hs Hwf Ha Hfree m. unfold SRRIP_getReplacementIndex.
  rewrite (find_invalid_pure _ _ Hs), Hfree. cbn [mbind res_bind].
  pose proof (wf_bits _ _ _ Hwf) as Hbits. pose proof (set_wf_ways _ _ Hs) as Hways.
  pose proof (wf_length _ _ _ Hwf) as Hl. pose proof (wf_max _ _ _ Hwf) as Hmax.
  assert (Hin : m ∈ m_rrip_bits p).
  { apply bits_max_elem; [intros E; rewrite E in Hl; cbn in Hl; lia|].
    eapply Forall_impl; [exact Hbits|]. intros x Hx. cbn in Hx. lia. }
  pose proof (proj1 (Forall_forall _ _) Hbits _ Hin) as Hm. cbn in Hm.
  apply list_elem_of_lookup in Hin as [w Hw].
  destruct (is_victim_exists _ _ _ _ _ Hl (wf_ways _ _ _ Hwf) (wf_pointer _ _ _ Hwf) Hw) as [v Hv].
  destruct (env_incrementAttempt_total _ _ e 0 (wf_env _ _ _ Hwf) ltac:(lia)) as (e' & He & _).
  exists v, e'. split; [done|].
  set (d := Z.to_nat (m_rrip_max p - m)). assert (Hd : (m_rrip_max p - m = Z.of_nat d)%Z) by lia.
  rewrite (outer_single ty s Hs e e' He d _ p v Hwf Ha); [by rewrite Hd|lia| |].
  - intros x Hx. pose proof (bits_max_le _ _ Hx). unfold m in *. lia.
  - by replace (m_rrip_max p - Z.of_nat d)%Z with m by lia.
Qed.

Definition srrip4 : CacheSetSRRIP := mkSRRIP 3 2 1 [0; 1; 1; 0]%Z 2 false.

Lemma srrip_search_is_max_witness :
  exists v e', is_victim 4 [0; 1; 1; 0]%Z 2 1 v /\
    SRRIP_getReplacementIndex (l1_set 4 full4) srrip4 (lru_env 4) =
      if evictable_way (l1_set 4 full4) v
      then Ok (v, chosen (l1_set 4 full4) (set_bits (raise 2 [0; 1; 1; 0]%Z) srrip4) v, e')
      else Err LogError.
Proof.
  apply (srrip_search_is_max PR_L1_CACHE (l1_set 4 full4) srrip4 (lru_env 4)).
  - apply full4_wf.
  - split; cbn; try lia; try reflexivity; [repeat constructor; lia|apply lru_env_wf].
  - reflexivity.
  - reflexivity.
Defined.

Example srrip4_victim :
  (fun r => (r.1.1, m_rrip_bits r.1.2)) <$> SRRIP_getReplacementIndex (l1_set 4 full4) srrip4 (lru_env 4)
  = Ok (2, [2; 3; 2; 2]%Z).
Proof. vm_compute. reflexivity. Qed.

(** The access histogram is indexed by the counter and sized by the associativity: the
    first access to a line of a freshly created two-way set with two-bit counters
    fails the assertion in [CacheSetInfoLRU::increment]. *)
Theorem srrip_two_way_access_fails :
  (p ← SRRIP_new 2 false 2 1;
   SRRIP_updateReplacementIndex (l1_set 2 (take 2 full4)) 0 p (lru_env 2)) = Err LogError.
Proof. vm_compute. reflexivity. Qed.
