(* ===== verification/Mplru.v ===== *)
(** * Metadata priority replacement

    [CacheSetMPLRU] ([cache_set_mplru.cc]): LRU with a preference for evicting data or
    page-table blocks, selected by a mode or by a controller ([mplru_controller_iface.h]).
    The part of the shared statistics object that is inherited from [CacheSetInfoLRU] is in
    the environment, as for [LRU]; the part that [CacheSetInfoMPLRU] adds is a state of its
    own. *)

From Stdlib Require Import ZArith Lia.
From stdpp Require Import base tactics numbers list strings.
From S2P Require Import Prelude Utils CacheBase CacheBlock CacheSet Replacement.
Local Open Scope nat_scope.

Module Mplru.

Inductive MetadataPriorityMode := ALWAYS | ADAPTIVE | DISABLED.

Definition parse_mode (mode_str : string) : MetadataPriorityMode :=
  if bool_decide (mode_str = "always"%string) then ALWAYS
  else if bool_decide (mode_str = "adaptive"%string) then ADAPTIVE else DISABLED.

(** What [CacheSetInfoMPLRU] adds to [CacheSetInfoLRU]. *)
Record CacheSetInfoMPLRU := mkInfoMPLRU {
  m_core_id : Z;
  mi_associativity : nat;
  m_mode : MetadataPriorityMode;
  m_metadata_protected : Z;
  m_data_evicted : Z;
  m_metadata_evicted : Z;
  m_data_protected : Z;
  m_metadata_evicted_for_data : Z
}.

Definition CacheSetInfoMPLRU_new (core_id : Z) (associativity : nat) (mode_str : string) : CacheSetInfoMPLRU :=
  mkInfoMPLRU core_id associativity (parse_mode mode_str) 0 0 0 0 0.

Section counters.
Implicit Type m : CacheSetInfoMPLRU.
Definition incrementMetadataProtected m : CacheSetInfoMPLRU :=
  mkInfoMPLRU (m_core_id m) (mi_associativity m) (m_mode m) (u64 (m_metadata_protected m + 1)) (m_data_evicted m)
    (m_metadata_evicted m) (m_data_protected m) (m_metadata_evicted_for_data m).
Definition incrementDataEvicted m : CacheSetInfoMPLRU :=
  mkInfoMPLRU (m_core_id m) (mi_associativity m) (m_mode m) (m_metadata_protected m) (u64 (m_data_evicted m + 1))
    (m_metadata_evicted m) (m_data_protected m) (m_metadata_evicted_for_data m).
Definition incrementMetadataEvicted m : CacheSetInfoMPLRU :=
  mkInfoMPLRU (m_core_id m) (mi_associativity m) (m_mode m) (m_metadata_protected m) (m_data_evicted m)
    (u64 (m_metadata_evicted m + 1)) (m_data_protected m) (m_metadata_evicted_for_data m).
Definition incrementDataProtected m : CacheSetInfoMPLRU :=
  mkInfoMPLRU (m_core_id m) (mi_associativity m) (m_mode m) (m_metadata_protected m) (m_data_evicted m)
    (m_metadata_evicted m) (u64 (m_data_protected m + 1)) (m_metadata_evicted_for_data m).
Definition incrementMetadataEvictedForData m : CacheSetInfoMPLRU :=
  mkInfoMPLRU (m_core_id m) (mi_associativity m) (m_mode m) (m_metadata_protected m) (m_data_evicted m)
    (m_metadata_evicted m) (m_data_protected m) (u64 (m_metadata_evicted_for_data m + 1)).
End counters.

(** The controller that the factory of controllers holds ([mplru_controller_iface.h]). *)
Class IMPLRUController (K : Type) := {
  isInitialized : K -> bool;
  tryProcessEpoch : Z -> K -> res K;
  getMetaLevel : Z -> K -> Z
}.

(** The state a replacement decision works on. *)
Record MState (K : Type) := mkM {
  mp_lru : LRU.CacheSetLRU;
  mp_info : CacheSetInfoMPLRU;
  mp_env : ReplEnv;
  controller : option K
}.
Arguments mkM {_}.
Arguments mp_lru {_}.
Arguments mp_info {_}.
Arguments mp_env {_}.
Arguments controller {_}.

(** *** The searches *)

(** The loop that the searches share: the largest counter, from [threshold_bits] on, of the
    valid blocks of one kind that may be replaced. *)
Definition find_step (s : CacheSetBase) (kind : CacheBlockInfo -> bool) (threshold_bits : Z) (bits : list Z)
    (acc : nat * Z) (i : nat) : res (nat * Z) :=
  let '(_, max_bits) := acc in
  b ← rd (m_cache_block_info_array s) i;
  if isValid b && kind b then
    x ← rd bits i;
    if (threshold_bits <=? x)%Z && (max_bits <? x)%Z then
      v ← isValidReplacement s i;
      Ok (if v : bool then (i, x) else acc)
    else Ok acc
  else Ok acc.
(** The associativity when there is none. *)
Definition find_lru (s : CacheSetBase) (kind : CacheBlockInfo -> bool) (threshold_bits : Z) (bits : list Z) : res nat :=
  '(index, _) ← fold_loop (find_step s kind threshold_bits bits) (m_associativity s, 0%Z) (seq 0 (m_associativity s));
  Ok index.

Definition is_data (b : CacheBlockInfo) : bool := negb (isPageTableBlock b).
Definition threshold (s : CacheSetBase) (percentile : Z) : Z :=
  u8 (u32 (Z.of_nat (m_associativity s) * (100 - percentile)) / 100).

Definition findLRUDataBlock (s : CacheSetBase) (bits : list Z) : res nat := find_lru s is_data 0 bits.
Definition findLRUMetadataBlock (s : CacheSetBase) (bits : list Z) : res nat := find_lru s isPageTableBlock 0 bits.
Definition findLRUDataBlockInPercentile (percentile : Z) (s : CacheSetBase) (bits : list Z) : res nat :=
  find_lru s is_data (threshold s percentile) bits.
Definition findLRUDataBlockInBottomHalf (s : CacheSetBase) (bits : list Z) : res nat :=
  findLRUDataBlockInPercentile 50 s bits.
Definition findLRUMetadataBlockInPercentile (percentile : Z) (s : CacheSetBase) (bits : list Z) : res nat :=
  find_lru s isPageTableBlock (threshold s percentile) bits.

Section policy.
Context {K : Type} `{!IMPLRUController K}.
Implicit Type x : MState K.

(** A victim is counted and becomes the most recently used way. *)
Definition evict (s : CacheSetBase) (count : CacheSetInfoMPLRU -> CacheSetInfoMPLRU) (index : nat) x
  : res (nat * MState K) :=
  p ← LRU.moveToMRU s index (mp_lru x);
  Ok (index, mkM p (count (mp_info x)) (mp_env x) (controller x)).

Definition evicted_data (m : CacheSetInfoMPLRU) : CacheSetInfoMPLRU := incrementDataEvicted (incrementMetadataProtected m).
Definition evicted_metadata (m : CacheSetInfoMPLRU) : CacheSetInfoMPLRU :=
  incrementMetadataEvictedForData (incrementDataProtected m).

(** [CacheSetLRU::getReplacementIndex], with the controller or with [nullptr]. *)
Definition vanilla (s : CacheSetBase) (c : option CacheCntlr) x : res (nat * MState K) :=
  '(i, p, e) ← LRU.getReplacementIndex s (mp_lru x) (mkEnv (set_info (mp_env x)) c);
  Ok (i, mkM p (mp_info x) (mkEnv (set_info e) (match c with Some _ => cntlr e | None => cntlr (mp_env x) end))
           (controller x)).

(** The first search that finds a block decides. *)
Definition evict_or (s : CacheSetBase) (find : CacheSetBase -> list Z -> res nat)
    (count : CacheSetInfoMPLRU -> CacheSetInfoMPLRU) (otherwise : MState K -> res (nat * MState K)) x : res (nat * MState K) :=
  index ← find s (LRU.m_lru_bits (mp_lru x));
  if index <? m_associativity s then evict s count index x else otherwise x.

Definition count_kind (s : CacheSetBase) (kind : CacheBlockInfo -> bool) : res nat :=
  fold_loop (fun n i => b ← rd (m_cache_block_info_array s) i; Ok (if isValid b && kind b then S n else n))
    0 (seq 0 (m_associativity s)).

Definition getReplacementIndexWithReservation (s : CacheSetBase) (reserved_ways : nat) x : res (nat * MState K) :=
  meta_count ← count_kind s isPageTableBlock;
  let above := evict_or s findLRUDataBlock evicted_data
                 (evict_or s findLRUMetadataBlock incrementMetadataEvicted (vanilla s None)) in
  if meta_count <? reserved_ways then evict_or s findLRUDataBlock evicted_data above x else above x.

Definition getReplacementIndexWithDataReservation (s : CacheSetBase) (reserved_ways : nat) x : res (nat * MState K) :=
  data_count ← count_kind s is_data;
  let above := evict_or s findLRUMetadataBlock evicted_metadata
                 (evict_or s findLRUDataBlock incrementDataEvicted (vanilla s None)) in
  if data_count <? reserved_ways then evict_or s findLRUMetadataBlock evicted_metadata above x else above x.

Definition clamp (v lo hi : Z) : Z := if (v <? lo)%Z then lo else if (hi <? v)%Z then hi else v.

Definition getPolicyId x : res (Z * MState K) :=
  match m_mode (mp_info x) with
  | DISABLED => Ok (0%Z, x)
  | ALWAYS => Ok (3%Z, x)
  | ADAPTIVE =>
      match controller x with
      | Some k =>
          if isInitialized k then
            k ← tryProcessEpoch (m_core_id (mp_info x)) k;
            Ok (clamp (getMetaLevel (m_core_id (mp_info x)) k) 0 11,
                mkM (mp_lru x) (mp_info x) (mp_env x) (Some k))
          else Ok (0%Z, x)
      | None => Ok (0%Z, x)
      end
  end.

(** The twelve arms of the policy. *)
Definition replace_by (s : CacheSetBase) (policy_id : Z) x : res (nat * MState K) :=
  let lru := vanilla s (cntlr (mp_env x)) in
  let protect_metadata := (policy_id <=? 5)%Z in
  let level := if protect_metadata then policy_id else (policy_id - 6)%Z in
  if protect_metadata then
    if (level =? 0)%Z then lru x
    else if (level =? 1)%Z then evict_or s (findLRUDataBlockInPercentile 25) evicted_data lru x
    else if (level =? 2)%Z then evict_or s (findLRUDataBlockInPercentile 50) evicted_data lru x
    else if (level =? 3)%Z then
      evict_or s findLRUDataBlock evicted_data (evict_or s findLRUMetadataBlock incrementMetadataEvicted lru) x
    else if (level =? 4)%Z then getReplacementIndexWithReservation s (mi_associativity (mp_info x) / 4) x
    else if (level =? 5)%Z then getReplacementIndexWithReservation s (mi_associativity (mp_info x) / 2) x
    else lru x
  else
    if (level =? 0)%Z then lru x
    else if (level =? 1)%Z then evict_or s (findLRUMetadataBlockInPercentile 25) evicted_metadata lru x
    else if (level =? 2)%Z then evict_or s (findLRUMetadataBlockInPercentile 50) evicted_metadata lru x
    else if (level =? 3)%Z then
      evict_or s findLRUMetadataBlock evicted_metadata (evict_or s findLRUDataBlock incrementDataEvicted lru) x
    else if (level =? 4)%Z then getReplacementIndexWithDataReservation s (mi_associativity (mp_info x) / 4) x
    else if (level =? 5)%Z then getReplacementIndexWithDataReservation s (mi_associativity (mp_info x) / 2) x
    else lru x.

(** The loop over the free ways does not skip power-gated ways. *)
Definition find_any_invalid (s : CacheSetBase) : res (option nat) :=
  find_loop (fun i => b ← rd (m_cache_block_info_array s) i; Ok (negb (isValid b))) (seq 0 (m_associativity s)).

Definition getReplacementIndex (s : CacheSetBase) x : res (nat * MState K) :=
  o ← find_any_invalid s;
  match o with
  | Some i => evict s id i x
  | None => '(policy_id, x) ← getPolicyId x; replace_by s policy_id x
  end.

End policy.

(** *** The victim in terms of the recency order *)

Definition has_kind (s : CacheSetBase) (kind : CacheBlockInfo -> bool) (i : nat) : bool :=
  match m_cache_block_info_array s !! i with Some b => isValid b && kind b | None => false end.
Definition candidate (s : CacheSetBase) (kind : CacheBlockInfo -> bool) (i : nat) : bool :=
  has_kind s kind i && evictable_way s i.
(** The oldest block of a kind that may be evicted, from a position of the order on; the most
    recently used way is never considered. *)
Definition oldest (s : CacheSetBase) (kind : CacheBlockInfo -> bool) (from : nat) (order : list nat) : option nat :=
  last (filter (fun w => candidate s kind w = true) (drop (Nat.max 1 from) order)).

(** The victim that each arm prefers. *)
Definition choice (s : CacheSetBase) (policy_id : Z) (order : list nat) : nat :=
  let lru := LRU.lru_victim s order in
  let '(first, second) := if (policy_id <=? 5)%Z then (is_data, isPageTableBlock) else (isPageTableBlock, is_data) in
  match (policy_id `mod` 6)%Z with
  | 0 => lru
  | 1 => default lru (oldest s first (m_associativity s * 75 / 100) order)
  | 2 => default lru (oldest s first (m_associativity s * 50 / 100) order)
  | _ => default (default lru (oldest s second 0 order)) (oldest s first 0 order)
  end%Z.

Section lemmas.
Context (ty : cache_t) (s : CacheSetBase) (Hs : set_wf ty s).

Lemma find_loop_max kind th bits k :
  length bits = m_associativity s -> k <= m_associativity s ->
  exists i m, fold_loop (find_step s kind th bits) (m_associativity s, 0%Z) (seq 0 k) = Ok (i, m) /\
    ((i = m_associativity s /\ m = 0%Z) \/ (candidate s kind i = true /\ bits !! i = Some m /\ (0 < m)%Z /\ (th <= m)%Z)) /\
    forall j y, j < k -> bits !! j = Some y -> candidate s kind j = true -> (th <= y)%Z -> (y <= m)%Z \/ (y <= 0)%Z.
Proof.
  intros Hl. induction k as [|k IH]; intros Hk; [exists (m_associativity s), 0%Z; split_and!; [done|by left|lia]|].
  destruct (IH ltac:(lia)) as (i & m & Hf & Hi & Hmax). rewrite seq_S, Nat.add_0_l, fold_loop_app, Hf.
  cbn [mbind res_bind fold_loop]. unfold find_step.
  destruct (array_lookup _ _ Hs k ltac:(lia)) as (b & Hb & _). rewrite (proj2 (rd_Ok _ _ _) Hb). cbn [mbind res_bind].
  destruct (lookup_lt_is_Some_2 bits k ltac:(lia)) as [y Hy].
  assert (Hstay : candidate s kind k = false \/ (y < th)%Z \/ (y <= m)%Z ->
    forall j z, j < S k -> bits !! j = Some z -> candidate s kind j = true -> (th <= z)%Z -> (z <= m)%Z \/ (z <= 0)%Z).
  { intros Hor j z Hj Hz Hc Ht. destruct (decide (j = k)) as [->|]; [|apply (Hmax j); [lia|done|done|done]].
    rewrite Hy in Hz. injection Hz as ->. destruct Hor as [Hor|[Hor|Hor]]; [congruence|lia|by left]. }
  assert (Hk' : candidate s kind k = isValid b && kind b && evictable_way s k) by (unfold candidate, has_kind; by rewrite Hb).
  destruct (isValid b && kind b); [|exists i, m; split_and!; [done|done|apply Hstay; left; by rewrite Hk']].
  rewrite (proj2 (rd_Ok _ _ _) Hy). cbn [mbind res_bind].
  destruct (Z.leb_spec th y); cbn [andb]; [|exists i, m; split_and!; [done|done|apply Hstay; lia]].
  destruct (Z.ltb_spec m y); [|exists i, m; split_and!; [done|done|apply Hstay; lia]].
  rewrite (isValidReplacement_pure _ _ Hs). cbn [mbind res_bind].
  destruct (evictable_way s k) eqn:Ev; [|exists i, m; split_and!; [done|done|apply Hstay; left; by rewrite Hk']].
  exists k, y. split; [done|]. assert (0 <= m)%Z by (destruct Hi as [[_ ->]|(_ & _ & ? & _)]; lia).
  split; [right; split_and!; [done|done|lia|lia]|]. intros j z Hj Hz Hc Ht.
  destruct (decide (j = k)) as [->|]; [rewrite Hy in Hz; injection Hz as ->; left; lia|].
  destruct (Hmax j z ltac:(lia) Hz Hc Ht); [left|right]; lia.
Qed.

(** A search finds the oldest block of its kind. *)
Lemma find_lru_oldest kind th bits order :
  recency bits order -> length bits = m_associativity s ->
  find_lru s kind (Z.of_nat th) bits = Ok (default (m_associativity s) (oldest s kind th order)).
Proof.
  intros Hr Hl. unfold find_lru. destruct (find_loop_max kind (Z.of_nat th) bits _ Hl (le_n _)) as (i & m & -> & Hi & Hmax).
  cbn [mbind res_bind]. f_equal. unfold oldest. destruct Hi as [[-> ->]|(Hc & Hb & Hm & Ht)].
  - rewrite filter_none; [done|]. intros w [q Hq]%list_elem_of_lookup Hc. rewrite lookup_drop in Hq.
    pose proof (proj2 Hr _ _ Hq) as Hb. apply lookup_lt_Some in Hb as Hlt.
    destruct (Hmax w _ ltac:(lia) Hb Hc ltac:(lia)); lia.
  - destruct (recency_lookup _ _ _ _ Hr Hb) as (pos & -> & Ho & _). erewrite last_filter_drop; [done|exact Ho|lia|done|].
    intros q v Hq Hv Hc'. pose proof (proj2 Hr _ _ Hv) as Hbv. apply lookup_lt_Some in Hbv as Hlt.
    destruct (Hmax v _ ltac:(lia) Hbv Hc' ltac:(lia)); lia.
Qed.

Lemma oldest_range kind th order w :
  order ≡ₚ seq 0 (m_associativity s) -> oldest s kind th order = Some w -> w < m_associativity s.
Proof.
  intros Hp [l E]%last_Some. assert (Hw : w ∈ drop (Nat.max 1 th) order).
  { eapply (list_elem_of_filter (fun w => candidate s kind w = true)). rewrite E. apply elem_of_app. right. left. }
  assert (Hin : w ∈ order) by (rewrite <- (take_drop (Nat.max 1 th) order); apply elem_of_app; by right).
  rewrite Hp, elem_of_seq in Hin. lia.
Qed.

End lemmas.

Section victims.
Context {K : Type} `{!IMPLRUController K} (ty : cache_t) (s : CacheSetBase) (order : list nat).

(** What the decisions start from: a full set, whose counters are the positions in [order]. *)
Record ready (x : MState K) : Prop := {
  rd_set : set_wf ty s;
  rd_full : Forall (fun b => isValid b = true) (m_cache_block_info_array s);
  rd_lru : LRU.wf s (mp_lru x) (set_info (mp_env x));
  rd_attempts : LRU.m_num_attempts (mp_lru x) = 1;
  rd_order : recency (LRU.m_lru_bits (mp_lru x)) order
}.

(** The outcome is the victim [v], which becomes the most recently used way. *)
Definition replaces (v : nat) (r : res (nat * MState K)) : Prop :=
  exists x', r = Ok (v, x') /\ recency (LRU.m_lru_bits (mp_lru x')) (touch v order).

Lemma full_no_free i : Forall (fun b => isValid b = true) (m_cache_block_info_array s) -> free_way s i = false.
Proof.
  intros Hf. unfold free_way. destruct (_ !! i) as [b|] eqn:E; [|apply andb_false_r].
  rewrite Forall_lookup in Hf. rewrite (Hf _ _ E). apply andb_false_r.
Qed.

Lemma evict_replaces c v x : ready x -> v < m_associativity s -> replaces v (evict s c v x).
Proof.
  intros [_ _ [Hl Hn _ _ _] _ Hr] Hv. unfold evict.
  destruct (LRU.moveToMRU_touch s _ order v Hl Hn Hr Hv) as (p & -> & Hp & _). eexists. by split.
Qed.

Lemma vanilla_replaces c x : ready x -> replaces (LRU.lru_victim s order) (vanilla s c x).
Proof.
  intros [Hs Hf Hw Ha Hr]. unfold vanilla.
  destruct (LRU.lru_replaces ty s (mp_lru x) (mkEnv (set_info (mp_env x)) c) order Hs Hw Ha Hr) as (p & e & E & Hp).
  destruct (first_such _ _) as [i|] eqn:Ef in E, Hp; cbn [default] in E, Hp.
  { apply first_such_Some in Ef as [_ Ef]. rewrite full_no_free in Ef by done. done. }
  rewrite E. eexists. by split.
Qed.

Lemma evict_or_replaces find kind th c other v x :
  ready x -> find s (LRU.m_lru_bits (mp_lru x)) = Ok (default (m_associativity s) (oldest s kind th order)) ->
  replaces v (other x) -> replaces (default v (oldest s kind th order)) (evict_or s find c other x).
Proof.
  intros Hx Hf Ho. unfold evict_or. rewrite Hf. cbn [mbind res_bind]. destruct (oldest _ _ _ _) as [w|] eqn:E; cbn [default from_option id].
  - assert (Hw : w < m_associativity s).
    { eapply oldest_range; [|exact E]. destruct Hx as [_ _ [Hl _ _ _ _] _ [Hp _]]. by rewrite <- Hl. }
    rewrite (proj2 (Nat.ltb_lt _ _) Hw). by apply evict_replaces.
  - by rewrite Nat.ltb_irrefl.
Qed.

Lemma search_kind kind x : ready x ->
  find_lru s kind 0 (LRU.m_lru_bits (mp_lru x)) = Ok (default (m_associativity s) (oldest s kind 0 order)).
Proof. intros [Hs _ [Hl _ _ _ _] _ Hr]. apply (find_lru_oldest _ _ Hs kind 0 _ _ Hr Hl). Qed.

Lemma search_percentile kind p x : ready x -> (0 < p <= 100)%Z ->
  find_lru s kind (threshold s p) (LRU.m_lru_bits (mp_lru x)) =
    Ok (default (m_associativity s) (oldest s kind (m_associativity s * Z.to_nat (100 - p) / 100) order)).
Proof.
  intros [Hs _ [Hl Hn _ _ _] _ Hr] Hp. rewrite <- (find_lru_oldest _ _ Hs kind _ _ _ Hr Hl). f_equal. unfold threshold.
  assert (E : Z.of_nat (m_associativity s * Z.to_nat (100 - p) / 100) = (Z.of_nat (m_associativity s) * (100 - p) / 100)%Z)
    by (rewrite Nat2Z.inj_div, Nat2Z.inj_mul, Z2Nat.id by lia; done).
  assert (H0 : (0 <= Z.of_nat (m_associativity s) * (100 - p) < 2 ^ 16)%Z) by nia.
  rewrite E, (wrap_small _ (_ * _)%Z), wrap_small; [done| |split; lia].
  split; [apply Z.div_pos; lia|]. apply Z.div_lt_upper_bound; [lia|]. change (2 ^ 8)%Z with 256%Z. nia.
Qed.

Lemma count_kind_total kind x : ready x -> exists n, count_kind s kind = Ok n.
Proof.
  intros [Hs _ _ _ _]. unfold count_kind. eexists.
  apply (fold_loop_pure _ (fun n i => if has_kind s kind i then S n else n)). intros n i Hi%elem_of_seq. cbn in Hi.
  destruct (array_lookup _ _ Hs i ltac:(lia)) as (b & Hb & _). rewrite (proj2 (rd_Ok _ _ _) Hb). unfold has_kind. by rewrite Hb.
Qed.

(** A search that found nothing finds nothing again. *)
Lemma evict_or_twice find c other (x : MState K) :
  evict_or s find c (evict_or s find c other) x = evict_or s find c other x.
Proof.
  unfold evict_or at 1. destruct (find s _) as [i|] eqn:E; cbn [mbind res_bind]; [|unfold evict_or; by rewrite E].
  destruct (i <? m_associativity s) eqn:Ei; [|done]. unfold evict_or. rewrite E. cbn [mbind res_bind]. by rewrite Ei.
Qed.

(** Every arm, on a full set. *)
Lemma replace_by_choice policy_id x :
  ready x -> (0 <= policy_id <= 11)%Z -> replaces (choice s policy_id order) (replace_by s policy_id x).
Proof.
  intros Hx Hp. destruct (count_kind_total isPageTableBlock x Hx) as [nm Em], (count_kind_total is_data x Hx) as [nd Ed].
  pose proof (fun c => vanilla_replaces c x Hx) as Hv.
  assert (Hbias : forall find kind p c, find s (LRU.m_lru_bits (mp_lru x)) = find_lru s kind (threshold s p) (LRU.m_lru_bits (mp_lru x)) ->
    (0 < p <= 100)%Z -> replaces (default (LRU.lru_victim s order) (oldest s kind (m_associativity s * Z.to_nat (100 - p) / 100) order))
      (evict_or s find c (vanilla s (cntlr (mp_env x))) x)).
  { intros find kind p c Ef Hpp. apply evict_or_replaces; [done|by rewrite Ef, search_percentile|apply Hv]. }
  assert (Hhard : forall f1 f2 k1 k2 c1 c2 c, f1 s (LRU.m_lru_bits (mp_lru x)) = find_lru s k1 0 (LRU.m_lru_bits (mp_lru x)) ->
    f2 s (LRU.m_lru_bits (mp_lru x)) = find_lru s k2 0 (LRU.m_lru_bits (mp_lru x)) ->
    replaces (default (default (LRU.lru_victim s order) (oldest s k2 0 order)) (oldest s k1 0 order))
      (evict_or s f1 c1 (evict_or s f2 c2 (vanilla s c)) x)).
  { intros f1 f2 k1 k2 c1 c2 c E1 E2. apply evict_or_replaces; [done|by rewrite E1, search_kind|].
    apply evict_or_replaces; [done|by rewrite E2, search_kind|apply Hv]. }
  assert (Hcases : policy_id ∈ [0; 1; 2; 3; 4; 5; 6; 7; 8; 9; 10; 11]%Z) by (rewrite !elem_of_cons; lia).
  unfold replace_by, getReplacementIndexWithReservation, getReplacementIndexWithDataReservation. rewrite Em, Ed.
  rewrite !elem_of_cons in Hcases. cbn [mbind res_bind].
  destruct Hcases as [->|[->|[->|[->|[->|[->|[->|[->|[->|[->|[->|[->|H%elem_of_nil]]]]]]]]]]]]; [..|done].
  all: unfold choice; match goal with |- context [(?a `mod` 6)%Z] =>
      let v := eval vm_compute in (a `mod` 6)%Z in change (a `mod` 6)%Z with v end.
  all: repeat match goal with |- context [(?a - 6)%Z] => let v := eval vm_compute in (a - 6)%Z in change (a - 6)%Z with v end.
  all: cbn -[evict_or vanilla replaces oldest LRU.lru_victim Nat.div Nat.mul findLRUDataBlockInPercentile findLRUMetadataBlockInPercentile].
  all: try (apply Hv); try (by apply Hhard).
  all: try (by apply (Hbias _ _ 25%Z)); try (by apply (Hbias _ _ 50%Z)).
  all: case_match; rewrite ?evict_or_twice; by apply Hhard.
Qed.

Lemma clamp_range v lo hi : (lo <= hi)%Z -> (lo <= clamp v lo hi <= hi)%Z.
Proof. intros H. unfold clamp. destruct (Z.ltb_spec v lo); [lia|]. destruct (Z.ltb_spec hi v); lia. Qed.

Lemma getPolicyId_range x id x' : getPolicyId x = Ok (id, x') ->
  (0 <= id <= 11)%Z /\ mp_lru x' = mp_lru x /\ mp_env x' = mp_env x.
Proof.
  unfold getPolicyId. intros H. destruct (m_mode _); [injection H as <- <-; done| |injection H as <- <-; done].
  destruct (controller x) as [k|]; [|injection H as <- <-; done]. destruct (isInitialized k); [|injection H as <- <-; done].
  inv_res. cbn. split; [|done]. apply clamp_range. lia.
Qed.

(** On a full set the victim is that of the arm. *)
Lemma victim_choice x id x1 :
  ready x -> getPolicyId x = Ok (id, x1) ->
  exists x', getReplacementIndex s x = Ok (choice s id order, x') /\
    recency (LRU.m_lru_bits (mp_lru x')) (touch (choice s id order) order).
Proof.
  intros Hx Hid. destruct (getPolicyId_range _ _ _ Hid) as (Hr & El & Ee). unfold getReplacementIndex, find_any_invalid.
  rewrite (find_loop_pure _ (fun _ => false)).
  - assert (E : first_such (fun _ => false) (seq 0 (m_associativity s)) = None)
      by (destruct (first_such _ _) eqn:E; [by apply first_such_Some in E as [_ ?]|done]).
    rewrite E. cbn [mbind res_bind]. rewrite Hid. cbn [mbind res_bind]. apply replace_by_choice; [|done].
    destruct Hx. split; try done; rewrite ?El, ?Ee; done.
  - intros i Hi%elem_of_seq. destruct Hx as [Hs Hf _ _ _]. destruct (array_lookup _ _ Hs i ltac:(lia)) as (b & Hb & _).
    rewrite (proj2 (rd_Ok _ _ _) Hb). cbn. rewrite Forall_lookup in Hf. by rewrite (Hf _ _ Hb).
Qed.


(** *** What the comments describe *)

(** The oldest block of a kind that may be evicted, from a position of the order on. *)
Definition oldest_block (s : CacheSetBase) (kind : CacheBlockInfo -> bool) (from : nat) (order : list nat) : option nat :=
  last (filter (fun w => candidate s kind w = true) (drop from order)).
Definition described (s : CacheSetBase) (policy_id : Z) (order : list nat) : nat :=
  let lru := LRU.lru_victim s order in
  let n := m_associativity s in
  match policy_id with
  | 1 => default lru (oldest_block s is_data (n * 75 / 100) order)
  | 2 => default lru (oldest_block s is_data (n * 50 / 100) order)
  | 3 => default (default lru (oldest_block s isPageTableBlock 0 order)) (oldest_block s is_data 0 order)
  | 7 => default lru (oldest_block s isPageTableBlock (n * 75 / 100) order)
  | 8 => default lru (oldest_block s isPageTableBlock (n * 50 / 100) order)
  | 9 => default (default lru (oldest_block s is_data 0 order)) (oldest_block s isPageTableBlock 0 order)
  | _ => lru
  end%Z.
(** The most recently used way does not have the only block of the kind. *)
Definition not_last (s : CacheSetBase) (kind : CacheBlockInfo -> bool) (order : list nat) : Prop :=
  forall w, head order = Some w -> candidate s kind w = true -> exists w', w' ∈ drop 1 order /\ candidate s kind w' = true.

Lemma oldest_from kind n : 1 <= n -> oldest s kind n order = oldest_block s kind n order.
Proof. intros Hn. unfold oldest, oldest_block. by rewrite Nat.max_r. Qed.
Lemma oldest_all kind : not_last s kind order -> oldest s kind 0 order = oldest_block s kind 0 order.
Proof.
  unfold not_last, oldest, oldest_block. change (Nat.max 1 0) with 1. destruct order as [|w l]; [done|]. cbn [drop head]. rewrite drop_0, filter_cons.
  destruct (decide (candidate s kind w = true)) as [E|E]; [|done]. intros H. destruct (H w eq_refl E) as (w' & Hw & E').
  destruct (filter (fun w => candidate s kind w = true) l) as [|z l'] eqn:El; [|reflexivity]. exfalso. apply (not_elem_of_nil w'). rewrite <- El. by apply list_elem_of_filter.
Qed.
Lemma choice_described id : 2 <= m_associativity s -> (0 <= id <= 11)%Z -> id ∉ [4; 5; 10; 11]%Z ->
  (id ∈ [3; 9]%Z -> not_last s is_data order /\ not_last s isPageTableBlock order) -> choice s id order = described s id order.
Proof.
  intros Ha Hr Hnr Hnl. assert (H75 : 1 <= m_associativity s * 75 / 100) by (apply Nat.div_le_lower_bound; lia).
  assert (H50 : 1 <= m_associativity s * 50 / 100) by (apply Nat.div_le_lower_bound; lia).
  assert (Hcases : id ∈ [0; 1; 2; 3; 6; 7; 8; 9]%Z) by (rewrite !elem_of_cons in *; rewrite elem_of_nil in *; lia).
  rewrite !elem_of_cons in Hcases. destruct Hcases as [->|[->|[->|[->|[->|[->|[->|[->|H%elem_of_nil]]]]]]]]; [..|done]; unfold choice, described;
    match goal with |- context [(?a `mod` 6)%Z] => let v := eval vm_compute in (a `mod` 6)%Z in change (a `mod` 6)%Z with v end; cbn [Z.leb Z.compare Pos.compare Pos.compare_cont];
    rewrite ?oldest_from by done; try done. all: (destruct Hnl as [H1 H2]; [by rewrite !elem_of_cons; auto|]; by rewrite !oldest_all).
Qed.

(** C26: The metadata priority policy picks the victim that the comments describe for its arm: on
    a full set [getReplacementIndex] returns, for the arm that the mode or the controller
    selects, the LRU way when the arm is off, for the arms of 25% and 50% the oldest block of
    the kind that is not protected if it is in that part of the order and else the LRU way,
    and for the hard arms the oldest block of that kind, else of the other kind; the victim becomes the most
    recently used way. This is not claimed of the arms that reserve ways, nor of hard arms
    when the most recently used way has the only block of a kind, where code and comments
    differ. *)
Theorem mplru_victim x id x1 :
  ready x -> getPolicyId x = Ok (id, x1) -> 2 <= m_associativity s ->
  id ∉ [4; 5; 10; 11]%Z -> (id ∈ [3; 9]%Z -> not_last s is_data order /\ not_last s isPageTableBlock order) ->
  exists x', getReplacementIndex s x = Ok (described s id order, x') /\
    recency (LRU.m_lru_bits (mp_lru x')) (touch (described s id order) order).
Proof.
  intros Hx Hid Ha Hnr Hnl. destruct (getPolicyId_range _ _ _ Hid) as (Hr & _). rewrite <- (choice_described id) by done. by apply (victim_choice x id x1).
Qed.

(** The reservation of ways reserves nothing: whatever number of ways the arms M4 and M5
    reserve for metadata, and D4 and D5 for data, the decision is the one without a
    reservation, because the branch below the threshold does what the code does above it. *)
Theorem reservation_reserves_nothing x ways :
  ready x ->
  getReplacementIndexWithReservation s ways x = getReplacementIndexWithReservation s 0 x /\
  getReplacementIndexWithDataReservation s ways x = getReplacementIndexWithDataReservation s 0 x.
Proof.
  intros Hx. unfold getReplacementIndexWithReservation, getReplacementIndexWithDataReservation.
  destruct (count_kind_total isPageTableBlock x Hx) as [nm ->], (count_kind_total is_data x Hx) as [nd ->].
  cbn [mbind res_bind Nat.ltb Nat.leb]. split; case_match; by rewrite ?evict_or_twice.
Qed.

End victims.

(** A full set of four ways whose first block is data and the others page tables; the data
    block is the most recently used. *)
Definition mixed4 : list CacheBlockInfo :=
  setBlockType DATA (l1_blk SHARED 10) :: map (fun t => setBlockType PAGE_TABLE_DATA (l1_blk SHARED t)) [11; 12; 13]%Z.
#[local] Instance no_controller : IMPLRUController unit :=
  {| isInitialized _ := false; tryProcessEpoch _ k := Ok k; getMetaLevel _ _ := 0%Z |}.
(** The same with the data block in the second way. *)
Definition other4 : list CacheBlockInfo :=
  setBlockType PAGE_TABLE_DATA (l1_blk SHARED 10) :: setBlockType DATA (l1_blk SHARED 11) ::
  map (fun t => setBlockType PAGE_TABLE_DATA (l1_blk SHARED t)) [12; 13]%Z.
Definition mixed_state (mode : string) : MState unit :=
  mkM (LRU.new 4 1) (CacheSetInfoMPLRU_new 0 4 mode) (lru_env 4) None.

Lemma some_ready l mode : l = mixed4 \/ l = other4 -> ready PR_L1_CACHE (l1_set 4 l) (seq 0 4) (mixed_state mode).
Proof.
  intros Hl. assert (Hs : set_wf PR_L1_CACHE (l1_set 4 l)) by (destruct Hl as [-> | ->]; (split; cbn; [done|lia|repeat constructor|lia|done])).
  split; [done|destruct Hl as [-> | ->]; repeat constructor| |done|apply init_bits_recency; lia].
  destruct Hl as [-> | ->]; [apply (LRU.new_wf PR_L1_CACHE (l1_set 4 mixed4))|apply (LRU.new_wf PR_L1_CACHE (l1_set 4 other4))];
    first [done|apply lru_env_wf|cbn; lia|lia].
Qed.
Lemma mixed_ready mode : ready PR_L1_CACHE (l1_set 4 mixed4) (seq 0 4) (mixed_state mode).
Proof. apply some_ready. by left. Qed.

(** The hard arm evicts the data block, which is neither the oldest nor the youngest. *)
Lemma mplru_victim_witness :
  exists x', getReplacementIndex (l1_set 4 other4) (mixed_state "always") = Ok (1, x') /\
    recency (LRU.m_lru_bits (mp_lru x')) [1; 0; 2; 3].
Proof.
  apply (mplru_victim PR_L1_CACHE (l1_set 4 other4) (seq 0 4) (mixed_state "always") 3 (mixed_state "always"));
    [apply some_ready; by right|reflexivity|cbn; lia|by rewrite !elem_of_cons, elem_of_nil; lia|].
  intros _. split; intros w [= <-].
  - intros [=].
  - intros _. exists 2. split; [cbn; rewrite !elem_of_cons; auto|reflexivity].
Defined.

Lemma reservation_reserves_nothing_witness :
  getReplacementIndexWithReservation (l1_set 4 mixed4) 2 (mixed_state "always") =
    getReplacementIndexWithReservation (l1_set 4 mixed4) 0 (mixed_state "always") /\
  getReplacementIndexWithDataReservation (l1_set 4 mixed4) 2 (mixed_state "always") =
    getReplacementIndexWithDataReservation (l1_set 4 mixed4) 0 (mixed_state "always").
Proof.
  apply (reservation_reserves_nothing PR_L1_CACHE (l1_set 4 mixed4) (seq 0 4) (mixed_state "always") 2). apply mixed_ready.
Defined.

(** The arm that always evicts data first evicts a page table when the only data block is
    the most recently used one. *)
Theorem mplru_always_evicts_metadata :
  fst <$> getReplacementIndex (l1_set 4 mixed4) (mixed_state "always") = Ok 3.
Proof. vm_compute. reflexivity. Qed.

(** A power-gated way without a block is filled. *)
Theorem mplru_fills_gated_way :
  fst <$> getReplacementIndex (l1_set 2 (take 2 mixed4 ++ replicate 2 (CacheBlockInfo_new PrL1CacheBlockInfo)))
            (mixed_state "disabled") = Ok 2.
Proof. vm_compute. reflexivity. Qed.

End Mplru.
