(* ===== verification/Chirp.v ===== *)
(** * Dead-entry prediction

    [CacheSetCHiRP] ([cache_set_chirp.cc]): LRU that prefers the entries that a table of
    saturating counters, indexed by a signature of the control flow, predicts dead. The
    predictor is shared by the sets of a TLB. *)

From Stdlib Require Import ZArith Lia.
From stdpp Require Import base tactics numbers list strings.
From S2P Require Import Prelude Utils CacheBase CacheBlock CacheSet Replacement.
Local Open Scope nat_scope.

Module Chirp.

(** What [CacheSetInfoCHiRP] adds to [CacheSetInfoLRU]. *)
Record CacheSetInfoCHiRP := mkInfoCHiRP {
  m_table_size : Z;
  m_threshold : Z;
  m_prediction_table : list Z;
  m_path_hist : Z;
  m_cond_hist : Z;
  m_uncond_ind_hist : Z;
  m_stat_dead_correct : Z;
  m_stat_dead_incorrect : Z;
  m_stat_alive_correct : Z;
  m_stat_alive_incorrect : Z;
  m_stat_bypass_lru : Z
}.

Definition CacheSetInfoCHiRP_new (table_size threshold : Z) : CacheSetInfoCHiRP :=
  mkInfoCHiRP table_size threshold (replicate (Z.to_nat table_size) 0%Z) 0 0 0 0 0 0 0 0.

Section info.
Implicit Type c : CacheSetInfoCHiRP.

Definition with_table (t : list Z) c : CacheSetInfoCHiRP :=
  mkInfoCHiRP (m_table_size c) (m_threshold c) t (m_path_hist c) (m_cond_hist c) (m_uncond_ind_hist c)
    (m_stat_dead_correct c) (m_stat_dead_incorrect c) (m_stat_alive_correct c) (m_stat_alive_incorrect c)
    (m_stat_bypass_lru c).

Definition incrementCounter (index : nat) c : res CacheSetInfoCHiRP :=
  x ← rd (m_prediction_table c) index;
  if (x <? 3)%Z then t ← wr (m_prediction_table c) index (u8 (x + 1)); Ok (with_table t c) else Ok c.
Definition decrementCounter (index : nat) c : res CacheSetInfoCHiRP :=
  x ← rd (m_prediction_table c) index;
  if (0 <? x)%Z then t ← wr (m_prediction_table c) index (u8 (x - 1)); Ok (with_table t c) else Ok c.
Definition predictDead (index : nat) c : res bool :=
  x ← rd (m_prediction_table c) index; Ok (m_threshold c <=? x)%Z.

Definition recordEviction (predicted_dead actually_dead bypassed_lru : bool) c : CacheSetInfoCHiRP :=
  let add (b : bool) (n : Z) : Z := if b then u64 (n + 1) else n in
  mkInfoCHiRP (m_table_size c) (m_threshold c) (m_prediction_table c) (m_path_hist c) (m_cond_hist c) (m_uncond_ind_hist c)
    (add (predicted_dead && actually_dead) (m_stat_dead_correct c))
    (add (predicted_dead && negb actually_dead) (m_stat_dead_incorrect c))
    (add (negb predicted_dead && negb actually_dead) (m_stat_alive_correct c))
    (add (negb predicted_dead && actually_dead) (m_stat_alive_incorrect c))
    (add bypassed_lru (m_stat_bypass_lru c)).

Definition hash16 (raw : Z) : Z :=
  let raw := Z.lxor raw (Z.shiftr raw 32) in
  let raw := Z.lxor raw (Z.shiftr raw 16) in
  Z.land raw 0xFFFF.

Definition updateHistories (pc : Z) (is_cond_branch is_uncond_ind_branch : bool) c : CacheSetInfoCHiRP :=
  mkInfoCHiRP (m_table_size c) (m_threshold c) (m_prediction_table c)
    (Z.lxor (u64 (Z.shiftl (m_path_hist c) 1)) (Z.shiftr pc 2))
    (if is_cond_branch then Z.lor (u64 (Z.shiftl (m_cond_hist c) 1)) 1 else m_cond_hist c)
    (if is_uncond_ind_branch then Z.lxor (u64 (Z.shiftl (m_uncond_ind_hist c) 1)) (Z.shiftr pc 2) else m_uncond_ind_hist c)
    (m_stat_dead_correct c) (m_stat_dead_incorrect c) (m_stat_alive_correct c) (m_stat_alive_incorrect c)
    (m_stat_bypass_lru c).

Definition computeSignature (pc : Z) c : Z :=
  hash16 (Z.lxor (Z.lxor (Z.lxor (Z.shiftr pc 2) (m_path_hist c)) (m_cond_hist c)) (m_uncond_ind_hist c)).

(** [sig % table_size]. *)
Definition table_slot (sig : Z) c : res nat := i ← umod sig (m_table_size c); Ok (Z.to_nat i).

End info.

Record CacheSetCHiRP := mkCHiRP {
  chirp_lru : LRU.CacheSetLRU;
  m_chirp_sig : list Z;
  m_chirp_pred_dead : list bool;
  m_chirp_first_hit : list bool
}.

Definition CacheSetCHiRP_new (associativity : nat) : CacheSetCHiRP :=
  mkCHiRP (LRU.new associativity 1) (replicate associativity 0%Z) (replicate associativity false)
    (replicate associativity true).

(** The metadata of an entry that comes in. *)
Definition init_entry (pc : Z) (i : nat) (c : CacheSetInfoCHiRP) (p : CacheSetCHiRP) : res CacheSetCHiRP :=
  let sig := computeSignature pc c in
  tbl_idx ← table_slot sig c;
  sigs ← wr (m_chirp_sig p) i sig;
  dead ← predictDead tbl_idx c;
  preds ← wr (m_chirp_pred_dead p) i dead;
  hits ← wr (m_chirp_first_hit p) i true;
  Ok (mkCHiRP (chirp_lru p) sigs preds hits).

Definition move (s : CacheSetBase) (i : nat) (p : CacheSetCHiRP) : res CacheSetCHiRP :=
  l ← LRU.moveToMRU s i (chirp_lru p);
  Ok (mkCHiRP l (m_chirp_sig p) (m_chirp_pred_dead p) (m_chirp_first_hit p)).

(** The scan for the oldest dead entry and the oldest entry, with their counters. *)
Definition scan_step (s : CacheSetBase) (p : CacheSetCHiRP) (acc : (nat * Z) * (nat * Z)) (i : nat)
  : res ((nat * Z) * (nat * Z)) :=
  let '(dead, lru) := acc in
  v ← isValidReplacement s i;
  if v : bool then
    d ← rd (m_chirp_pred_dead p) i;
    x ← rd (LRU.m_lru_bits (chirp_lru p)) i;
    Ok (if d && (snd dead <=? x)%Z then (i, x) else dead, if (snd lru <=? x)%Z then (i, x) else lru)
  else Ok acc.

Definition getReplacementIndex (s : CacheSetBase) (pc : Z) (p : CacheSetCHiRP) (c : CacheSetInfoCHiRP)
  : res (nat * CacheSetCHiRP * CacheSetInfoCHiRP) :=
  o ← find_invalid s;
  match o with
  | Some i => p ← init_entry pc i c p; p ← move s i p; Ok (i, p, c)
  | None =>
      '((dead_victim, _), (lru_victim, _)) ←
         fold_loop (scan_step s p) ((m_associativity s, 0%Z), (0, 0%Z)) (seq 0 (m_associativity s));
      let victim := if dead_victim <? m_associativity s then dead_victim else lru_victim in
      let bypassed_lru := (dead_victim <? m_associativity s) && negb (victim =? lru_victim) in
      sig ← rd (m_chirp_sig p) victim;
      evict_tbl_idx ← table_slot sig c;
      was_never_reused ← rd (m_chirp_first_hit p) victim;
      was_predicted_dead ← rd (m_chirp_pred_dead p) victim;
      c ← (if was_never_reused : bool then incrementCounter evict_tbl_idx c else Ok c);
      let c := recordEviction was_predicted_dead was_never_reused bypassed_lru c in
      p ← init_entry pc victim c p;
      p ← move s victim p;
      Ok (victim, p, c)
  end.

Definition updateReplacementIndex (s : CacheSetBase) (accessed_index : nat) (pc : Z) (p : CacheSetCHiRP)
    (c : CacheSetInfoCHiRP) (e : ReplEnv) : res (CacheSetCHiRP * CacheSetInfoCHiRP * ReplEnv) :=
  first ← rd (m_chirp_first_hit p) accessed_index;
  '(p, c) ← (if first : bool then
               sig ← rd (m_chirp_sig p) accessed_index;
               old_tbl_idx ← table_slot sig c;
               c ← decrementCounter old_tbl_idx c;
               hits ← wr (m_chirp_first_hit p) accessed_index false;
               Ok (mkCHiRP (chirp_lru p) (m_chirp_sig p) (m_chirp_pred_dead p) hits, c)
             else Ok (p, c));
  let new_sig := computeSignature pc c in
  new_tbl_idx ← table_slot new_sig c;
  sigs ← wr (m_chirp_sig p) accessed_index new_sig;
  dead ← predictDead new_tbl_idx c;
  preds ← wr (m_chirp_pred_dead p) accessed_index dead;
  '(l, e) ← LRU.updateReplacementIndex s accessed_index (chirp_lru p) e;
  Ok (mkCHiRP l sigs preds (m_chirp_first_hit p), c, e).

(** The virtual functions have no program counter. *)
Definition virtual_getReplacementIndex (s : CacheSetBase) (p : CacheSetCHiRP) (c : CacheSetInfoCHiRP)
  : res (nat * CacheSetCHiRP * CacheSetInfoCHiRP) := getReplacementIndex s 0 p c.
Definition virtual_updateReplacementIndex (s : CacheSetBase) (accessed_index : nat) (p : CacheSetCHiRP)
    (c : CacheSetInfoCHiRP) (e : ReplEnv) : res (CacheSetCHiRP * CacheSetInfoCHiRP * ReplEnv) :=
  updateReplacementIndex s accessed_index 0 p c e.

(** *** The invariant *)

(** The prediction table has a two-bit counter per slot. *)
Record info_ok (c : CacheSetInfoCHiRP) : Prop := {
  io_size : (0 < m_table_size c)%Z;
  io_length : length (m_prediction_table c) = Z.to_nat (m_table_size c);
  io_counters : Forall (fun x => (0 <= x <= 3)%Z) (m_prediction_table c)
}.

Record wf (s : CacheSetBase) (p : CacheSetCHiRP) (si : option CacheSetInfoLRU) : Prop := {
  wf_sig : length (m_chirp_sig p) = m_associativity s;
  wf_pred : length (m_chirp_pred_dead p) = m_associativity s;
  wf_first : length (m_chirp_first_hit p) = m_associativity s;
  wf_range : Forall (fun x => (0 <= x)%Z) (m_chirp_sig p);
  wf_lru : LRU.wf s (chirp_lru p) si
}.

Lemma signature_range pc c : (0 <= computeSignature pc c)%Z.
Proof. unfold computeSignature, hash16. apply Z.land_nonneg. right. lia. Qed.

Lemma table_slot_total sig c : info_ok c -> (0 <= sig)%Z ->
  exists i x, table_slot sig c = Ok i /\ m_prediction_table c !! i = Some x /\ (0 <= x <= 3)%Z.
Proof.
  intros [Hs Hl Hc] H0. unfold table_slot. rewrite umod_Ok by lia. cbn [mbind res_bind].
  pose proof (Z.mod_pos_bound sig (m_table_size c) Hs).
  destruct (lookup_lt_is_Some_2 (m_prediction_table c) (Z.to_nat (sig `mod` m_table_size c)) ltac:(lia)) as [x Hx].
  eexists _, x. split_and!; [done|done| |]; rewrite Forall_lookup in Hc; apply (Hc _ _ Hx).
Qed.

(** The counters saturate at 0 and 3. *)
Lemma incrementCounter_ok i x c : info_ok c -> m_prediction_table c !! i = Some x ->
  exists c', incrementCounter i c = Ok c' /\ info_ok c' /\ m_prediction_table c' = <[i := Z.min 3 (x + 1)]> (m_prediction_table c) /\
    m_table_size c' = m_table_size c.
Proof.
  intros [Hs Hl Hc] Hx. unfold incrementCounter. rewrite (proj2 (rd_Ok _ _ _) Hx). cbn [mbind res_bind].
  pose proof (proj1 (Forall_lookup _ _) Hc _ _ Hx) as Hr. cbn in Hr. destruct (Z.ltb_spec x 3).
  - rewrite wr_lt by (by eapply lookup_lt_Some). eexists. split; [done|]. cbn. rewrite wrap_small, Z.min_r by (lia || (split; lia)).
    split; [|done]. split; cbn; [done|by rewrite length_insert|]. apply Forall_insert; [done|lia].
  - eexists. split; [done|]. split; [done|]. rewrite Z.min_l, list_insert_id by (done || lia || (rewrite Hx; f_equal; lia)). done.
Qed.

Lemma decrementCounter_ok i x c : info_ok c -> m_prediction_table c !! i = Some x ->
  exists c', decrementCounter i c = Ok c' /\ info_ok c' /\ m_prediction_table c' = <[i := Z.max 0 (x - 1)]> (m_prediction_table c).
Proof.
  intros [Hs Hl Hc] Hx. unfold decrementCounter. rewrite (proj2 (rd_Ok _ _ _) Hx). cbn [mbind res_bind].
  pose proof (proj1 (Forall_lookup _ _) Hc _ _ Hx) as Hr. cbn in Hr. destruct (Z.ltb_spec 0 x).
  - rewrite wr_lt by (by eapply lookup_lt_Some). eexists. split; [done|]. cbn. rewrite wrap_small, Z.max_r by (lia || (split; lia)).
    split; [|done]. split; cbn; [done|by rewrite length_insert|]. apply Forall_insert; [done|lia].
  - eexists. split; [done|]. split; [done|]. rewrite Z.max_l, list_insert_id by (done || lia || (rewrite Hx; f_equal; lia)). done.
Qed.

Lemma recordEviction_ok a b d c : info_ok c -> info_ok (recordEviction a b d c).
Proof. by intros []. Qed.

Lemma init_entry_ok s pc i c p si : info_ok c -> wf s p si -> i < m_associativity s ->
  exists p', init_entry pc i c p = Ok p' /\ wf s p' si /\ chirp_lru p' = chirp_lru p /\ m_chirp_first_hit p' !! i = Some true.
Proof.
  intros Hc [H1 H2 H3 H4 H5] Hi. unfold init_entry.
  destruct (table_slot_total (computeSignature pc c) c Hc (signature_range _ _)) as (j & x & -> & Hx & _). cbn [mbind res_bind].
  rewrite (wr_lt (m_chirp_sig p)) by lia. cbn [mbind res_bind]. unfold predictDead. rewrite (proj2 (rd_Ok _ _ _) Hx). cbn [mbind res_bind].
  rewrite !wr_lt by lia. eexists. split; [done|]. split; [|split; [done|]].
  - split; cbn; rewrite ?length_insert; try done. apply Forall_insert; [done|apply signature_range].
  - cbn. apply list_lookup_insert_eq. lia.
Qed.

Lemma move_ok s i p si order : wf s p si -> recency (LRU.m_lru_bits (chirp_lru p)) order -> i < m_associativity s ->
  exists p', move s i p = Ok p' /\ wf s p' si /\ recency (LRU.m_lru_bits (chirp_lru p')) (touch i order) /\
    m_chirp_first_hit p' = m_chirp_first_hit p.
Proof.
  intros [H1 H2 H3 H4 H5] Hr Hi. pose proof H5 as [Hl Hn _ _ _]. unfold move.
  destruct (LRU.moveToMRU_touch s _ order i Hl Hn Hr Hi) as (l & E & _).
  destruct (LRU.wf_moved s _ _ _ _ _ E Hi Hr H5) as (Hw & Hr' & _). rewrite E. eexists. split; [done|]. by split.
Qed.

(** *** The victim *)

Definition dead_way (s : CacheSetBase) (p : CacheSetCHiRP) (w : nat) : bool :=
  evictable_way s w && default false (m_chirp_pred_dead p !! w).
(** The last way of the order with a property. *)
Definition oldest_way (good : nat -> bool) (order : list nat) : option nat := last (filter (fun w => good w = true) order).
Definition victim_of (s : CacheSetBase) (p : CacheSetCHiRP) (order : list nat) : nat :=
  default (default 0 (oldest_way (evictable_way s) order)) (oldest_way (dead_way s p) order).

Section scan.
Context (bits : list Z) (order : list nat) (Hr : recency bits order) (good : nat -> bool).

Definition best (acc : nat * Z) (i : nat) : nat * Z :=
  if good i && (snd acc <=? default 0 (bits !! i))%Z then (i, default 0%Z (bits !! i)) else acc.

Lemma best_loop d k : k <= length bits ->
  let r := foldl best (d, 0%Z) (seq 0 k) in
  (r = (d, 0%Z) /\ (forall j, j < k -> good j = false)) \/
  (good (fst r) = true /\ bits !! fst r = Some (snd r) /\
     forall j y, j < k -> good j = true -> bits !! j = Some y -> (y <= snd r)%Z).
Proof.
  cbn zeta. induction k as [|k IH]; intros Hk; [left; split; [done|lia]|].
  rewrite seq_S, foldl_app. cbn [foldl Nat.add]. specialize (IH ltac:(lia)).
  destruct (foldl best (d, 0%Z) (seq 0 k)) as [i m] eqn:E. cbn [fst snd] in IH.
  destruct (lookup_lt_is_Some_2 bits k ltac:(lia)) as [x Hx]. destruct (recency_lookup _ _ _ _ Hr Hx) as (pos & -> & _).
  assert (Eb : best (i, m) k = if good k && (m <=? Z.of_nat pos)%Z then (k, Z.of_nat pos) else (i, m))
    by (unfold best; by rewrite Hx). rewrite Eb. clear E Eb. destruct (good k) eqn:Eg; cbn [andb].
  - destruct IH as [[[= -> ->] Hno]|(Hg & Hb & Hmax)].
    + rewrite (proj2 (Z.leb_le _ _)) by lia. right. cbn [fst snd]. split_and!; [done|done|]. intros j y Hj Hgj Hy.
      destruct (decide (j = k)) as [->|]; [rewrite Hx in Hy; injection Hy as <-; lia|]. rewrite Hno in Hgj by lia. done.
    + right. destruct (Z.leb_spec m (Z.of_nat pos)); cbn [fst snd]; (split_and!; [done|done|]); intros j y Hj Hgj Hy;
        (destruct (decide (j = k)) as [->|]; [rewrite Hx in Hy; injection Hy as <-; lia|]);
        specialize (Hmax j y ltac:(lia) Hgj Hy); lia.
  - destruct IH as [[[= -> ->] Hno]|(Hg & Hb & Hmax)]; [left|right]; cbn [fst snd].
    + split; [done|]. intros j Hj. destruct (decide (j = k)) as [->|]; [done|apply Hno; lia].
    + split_and!; [done|done|]. intros j y Hj Hgj Hy. destruct (decide (j = k)) as [->|]; [congruence|apply (Hmax j); [lia|done|done]].
Qed.

Lemma best_oldest d : fst (foldl best (d, 0%Z) (seq 0 (length bits))) = default d (oldest_way good order).
Proof.
  destruct (best_loop d (length bits) (le_n _)) as [[-> Hno]|(Hg & Hb & Hmax)]; unfold oldest_way.
  - rewrite filter_none; [done|]. intros w Hw. apply (recency_elem _ _ _ Hr) in Hw. by rewrite (Hno w Hw).
  - destruct (foldl _ _ _) as [i m]. cbn [fst snd] in *. destruct (recency_lookup _ _ _ _ Hr Hb) as (pos & -> & Ho & _).
    rewrite <- (drop_0 order). erewrite last_filter_drop; [done|exact Ho|lia|done|]. intros q v Hq Hv Hgv.
    pose proof (proj2 Hr _ _ Hv) as Hbv. specialize (Hmax v _ ltac:(by eapply lookup_lt_Some) Hgv Hbv). lia.
Qed.

End scan.

Lemma scan_pure ty s p si d : set_wf ty s -> wf s p si ->
  fold_loop (scan_step s p) ((d, 0%Z), (0, 0%Z)) (seq 0 (m_associativity s)) =
    Ok (foldl (best (LRU.m_lru_bits (chirp_lru p)) (dead_way s p)) (d, 0%Z) (seq 0 (m_associativity s)),
        foldl (best (LRU.m_lru_bits (chirp_lru p)) (evictable_way s)) (0, 0%Z) (seq 0 (m_associativity s))).
Proof.
  intros Hs [H1 H2 H3 H4 [Hl _ _ _ _]]. generalize (d, 0%Z), (0, 0%Z).
  assert (Hall : forall i, i ∈ seq 0 (m_associativity s) -> i < m_associativity s) by (intros i Hi%elem_of_seq; lia).
  revert Hall. generalize (seq 0 (m_associativity s)). intros l. induction l as [|i l IH]; intros Hall a b; [done|].
  cbn [fold_loop foldl]. specialize (Hall i ltac:(left)) as Hi.
  destruct (lookup_lt_is_Some_2 (m_chirp_pred_dead p) i ltac:(lia)) as [w Hw].
  destruct (lookup_lt_is_Some_2 (LRU.m_lru_bits (chirp_lru p)) i ltac:(lia)) as [x Hx].
  assert (E : scan_step s p (a, b) i = Ok (best (LRU.m_lru_bits (chirp_lru p)) (dead_way s p) a i,
                                          best (LRU.m_lru_bits (chirp_lru p)) (evictable_way s) b i)).
  { unfold scan_step, best, dead_way. rewrite (isValidReplacement_pure _ _ Hs), Hw, Hx. cbn [mbind res_bind default from_option id].
    destruct (evictable_way s i); cbn [andb]; [|done]. by rewrite (proj2 (rd_Ok _ _ _) Hw), (proj2 (rd_Ok _ _ _) Hx). }
  rewrite E. cbn [mbind res_bind]. apply IH. intros; apply Hall; by right.
Qed.

Lemma oldest_way_spec good order w : oldest_way good order = Some w -> w ∈ order /\ good w = true.
Proof.
  intros [l E]%last_Some. assert (H : w ∈ filter (fun w => good w = true) order) by (rewrite E; apply elem_of_app; right; left).
  by apply list_elem_of_filter in H as [? ?].
Qed.

Lemma victim_range ty s p order :
  set_wf ty s -> order ≡ₚ seq 0 (m_associativity s) -> victim_of s p order < m_associativity s.
Proof.
  intros Hs Hp. pose proof (set_wf_ways _ _ Hs).
  assert (Hin : forall good w, oldest_way good order = Some w -> w < m_associativity s).
  { intros good w [Hw _]%oldest_way_spec. rewrite Hp, elem_of_seq in Hw. lia. }
  unfold victim_of. destruct (oldest_way (dead_way s p) order) eqn:E1; cbn; [by eapply Hin|].
  destruct (oldest_way (evictable_way s) order) eqn:E2; cbn; [by eapply Hin|lia].
Qed.

(** The training of the table on an evicted entry. *)
Lemma train_ok (unused : bool) slot x c : info_ok c -> m_prediction_table c !! slot = Some x ->
  exists c', (if unused then incrementCounter slot c else Ok c) = Ok c' /\ info_ok c' /\
    m_prediction_table c' = (if unused then alter (fun x => Z.min 3 (x + 1)) slot (m_prediction_table c) else m_prediction_table c).
Proof.
  intros Hc Hx. destruct unused; [|by exists c]. destruct (incrementCounter_ok slot x c Hc Hx) as (c' & -> & Hc' & E & _).
  exists c'. split_and!; [done|done|]. rewrite E, list_insert_alter. apply list_alter_ext; [|done]. intros y Hy. congruence.
Qed.

(** The victim's way is filled. *)
Lemma fill_ok s pc v c p si order :
  info_ok c -> wf s p si -> recency (LRU.m_lru_bits (chirp_lru p)) order -> v < m_associativity s ->
  exists p1 p2, init_entry pc v c p = Ok p1 /\ move s v p1 = Ok p2 /\ wf s p2 si /\
    recency (LRU.m_lru_bits (chirp_lru p2)) (touch v order) /\ m_chirp_first_hit p2 !! v = Some true.
Proof.
  intros Hc Hw Hr Hv. destruct (init_entry_ok s pc v c p si Hc Hw Hv) as (p1 & -> & Hw1 & El & Ef).
  destruct (move_ok s v p1 si order Hw1 ltac:(by rewrite El) Hv) as (p2 & E & Hw2 & Hr2 & Ef2).
  exists p1, p2. by rewrite Ef2.
Qed.

(** C27: CHiRP replacement: in a set and a predictor that satisfy their invariants
    [getReplacementIndex] returns the first free active way, or else the oldest way that may
    be evicted among those predicted dead, or else the oldest way that may be evicted; the
    victim becomes the most recently used way and starts unreused; the counter of the
    victim's signature goes up by one, to at most 3, exactly if the victim was never
    reused, and no other counter changes; the invariants are kept. *)
Theorem chirp_victim ty s pc p c si order :
  set_wf ty s -> wf s p si -> info_ok c -> recency (LRU.m_lru_bits (chirp_lru p)) order ->
  let free := first_such (free_way s) (seq 0 (m_num_active_ways s)) in
  let v := default (victim_of s p order) free in
  exists p' c', getReplacementIndex s pc p c = Ok (v, p', c') /\ wf s p' si /\ info_ok c' /\
    recency (LRU.m_lru_bits (chirp_lru p')) (touch v order) /\ m_chirp_first_hit p' !! v = Some true /\
    m_prediction_table c' =
      match free, m_chirp_first_hit p !! v, m_chirp_sig p !! v with
      | None, Some true, Some sig =>
          alter (fun x => Z.min 3 (x + 1)) (Z.to_nat (sig `mod` m_table_size c)) (m_prediction_table c)
      | _, _, _ => m_prediction_table c
      end.
Proof.
  intros Hs Hw Hc Hr. cbn zeta. unfold getReplacementIndex. pose proof (set_wf_ways _ _ Hs).
  destruct (find_invalid_cases _ _ Hs) as [(i & -> & _ & Hi & ->)|[-> ->]]; cbn [mbind res_bind default from_option id].
  { destruct (fill_ok s pc i c p si order Hc Hw Hr ltac:(lia)) as (p1 & p2 & -> & E2 & Hw2 & Hr2 & Ef). cbn [mbind res_bind].
    rewrite E2. by eexists _, _. }
  pose proof Hw as [H1 H2 H3 H4 [Hl _ _ _ _]]. rewrite (scan_pure ty s p si _ Hs Hw), <- Hl. cbn [mbind res_bind].
  pose proof (best_oldest _ _ Hr (dead_way s p) (length (LRU.m_lru_bits (chirp_lru p)))) as Ed.
  pose proof (best_oldest _ _ Hr (evictable_way s) 0) as Ee.
  destruct (foldl _ _ _) as [dv dm], (foldl _ _ _) as [lv lm]. cbn [fst] in Ed, Ee. subst dv lv.
  assert (Ev : forall o : option nat, o = oldest_way (dead_way s p) order ->
    (if default (length (LRU.m_lru_bits (chirp_lru p))) o <? length (LRU.m_lru_bits (chirp_lru p))
     then default (length (LRU.m_lru_bits (chirp_lru p))) o
     else default 0 (oldest_way (evictable_way s) order)) = victim_of s p order).
  { intros [w|] E; unfold victim_of; rewrite <- E; cbn [default from_option id]; [|by rewrite Nat.ltb_irrefl].
    symmetry in E. apply oldest_way_spec in E as [Hin _]. apply (recency_elem _ _ _ Hr) in Hin. by rewrite (proj2 (Nat.ltb_lt _ _) Hin). }
  rewrite (Ev _ eq_refl). clear Ev. set (v := victim_of s p order).
  assert (Hv : v < m_associativity s) by (apply (victim_range ty); [done|]; rewrite <- Hl; apply Hr).
  destruct (rd_lookup (m_chirp_sig p) v ltac:(lia)) as (sig & -> & Hsig). cbn [mbind res_bind].
  pose proof (proj1 (Forall_lookup _ _) H4 _ _ Hsig) as H0. cbn in H0.
  destruct (table_slot_total sig c Hc H0) as (slot & x & Eslot & Hx & _). rewrite Eslot. cbn [mbind res_bind].
  destruct (rd_lookup (m_chirp_first_hit p) v ltac:(lia)) as (reused & -> & Hf). cbn [mbind res_bind].
  destruct (rd_lookup (m_chirp_pred_dead p) v ltac:(lia)) as (dead & -> & Hd). cbn [mbind res_bind].
  rewrite Hf, Hsig. unfold table_slot in Eslot. rewrite umod_Ok in Eslot by (destruct Hc; lia). injection Eslot as <-.
  destruct (train_ok reused _ _ c Hc Hx) as (c1 & -> & Hc1 & <-). cbn [mbind res_bind].
  match goal with |- context [recordEviction dead reused ?b c1] => pose proof (recordEviction_ok dead reused b c1 Hc1) as Hc2 end.
  destruct (fill_ok s pc v _ p si order Hc2 Hw Hr Hv) as (p1 & p2 & -> & E2 & Hw2 & Hr2 & Ef). cbn [mbind res_bind]. rewrite E2.
  eexists _, _. split_and!; [done|done|done|done|done|]. by destruct reused.
Qed.

(** A hit: the counter of the entry's signature goes down by one at the first hit after the
    fill, to at least 0, and the invariants are kept. *)
Lemma chirp_hit ty s pc p c e i :
  set_wf ty s -> wf s p (set_info e) -> info_ok c -> i < m_associativity s ->
  exists p' c' e', updateReplacementIndex s i pc p c e = Ok (p', c', e') /\ wf s p' (set_info e') /\ info_ok c' /\
    m_chirp_first_hit p' !! i = Some false.
Proof.
  intros Hs Hw Hc Hi. pose proof Hw as [H1 H2 H3 H4 H5]. unfold updateReplacementIndex.
  destruct (rd_lookup (m_chirp_first_hit p) i ltac:(lia)) as (first & -> & Hf). cbn [mbind res_bind].
  assert (Hfirst : exists p1 c1, (if first then
      sig ← rd (m_chirp_sig p) i; old_tbl_idx ← table_slot sig c; c ← decrementCounter old_tbl_idx c;
      hits ← wr (m_chirp_first_hit p) i false; Ok (mkCHiRP (chirp_lru p) (m_chirp_sig p) (m_chirp_pred_dead p) hits, c)
      else Ok (p, c)) = Ok (p1, c1) /\ wf s p1 (set_info e) /\ info_ok c1 /\ m_chirp_first_hit p1 !! i = Some false).
  { destruct first; [|by eexists _, _]. destruct (rd_lookup (m_chirp_sig p) i ltac:(lia)) as (sig & -> & Hsig). cbn [mbind res_bind].
    destruct (table_slot_total sig c Hc (proj1 (Forall_lookup _ _) H4 _ _ Hsig)) as (slot & x & -> & Hx & _). cbn [mbind res_bind].
    destruct (decrementCounter_ok slot x c Hc Hx) as (c1 & -> & Hc1 & _). cbn [mbind res_bind]. rewrite wr_lt by lia.
    eexists _, _. split; [done|]. split; [split; cbn; rewrite ?length_insert; done|]. split; [done|]. cbn. apply list_lookup_insert_eq. lia. }
  destruct Hfirst as (p1 & c1 & -> & Hw1 & Hc1 & Hf1). cbn [mbind res_bind]. pose proof Hw1 as [K1 K2 K3 K4 K5].
  destruct (table_slot_total (computeSignature pc c1) c1 Hc1 (signature_range _ _)) as (j & x & -> & Hx & _). cbn [mbind res_bind].
  rewrite (wr_lt (m_chirp_sig p1)) by lia. unfold predictDead. rewrite (proj2 (rd_Ok _ _ _) Hx). cbn [mbind res_bind].
  rewrite wr_lt by lia. cbn [mbind res_bind].
  destruct (@updateReplacementIndex_total _ _ LRU.LRU_laws ty s (chirp_lru p1) e i Hs K5 Hi) as (l & e' & E & Hl & _). cbn in E. rewrite E.
  eexists _, _, _. split; [done|]. split; [|by split]. split; cbn; rewrite ?length_insert; try done.
  apply Forall_insert; [done|apply signature_range].
Qed.

(** An L2 TLB set of four valid ways, of which ways 1 and 2 are predicted dead. *)
Definition predicted4 : CacheSetCHiRP :=
  mkCHiRP (LRU.new 4 1) [5; 6; 7; 8]%Z [false; true; true; false] [true; true; true; false].

Lemma predicted4_wf : wf (l1_set 4 full4) predicted4 (set_info (lru_env 4)).
Proof.
  split; [done|done|done|repeat constructor; lia|].
  apply (LRU.new_wf PR_L1_CACHE (l1_set 4 full4)); [apply full4_wf|cbn; lia|lia|apply lru_env_wf].
Qed.

Lemma chirp_victim_witness :
  exists p' c', getReplacementIndex (l1_set 4 full4) 0x400 predicted4 (CacheSetInfoCHiRP_new 16 2) = Ok (2, p', c') /\
    wf (l1_set 4 full4) p' (set_info (lru_env 4)) /\ info_ok c' /\
    recency (LRU.m_lru_bits (chirp_lru p')) [2; 0; 1; 3] /\ m_chirp_first_hit p' !! 2 = Some true /\
    m_prediction_table c' = <[7 := 1%Z]> (replicate 16 0%Z).
Proof.
  apply (chirp_victim PR_L1_CACHE (l1_set 4 full4) 0x400 predicted4 (CacheSetInfoCHiRP_new 16 2) (set_info (lru_env 4)) (seq 0 4)).
  - apply full4_wf.
  - apply predicted4_wf.
  - split; cbn; [lia|done|repeat constructor; lia].
  - apply init_bits_recency. lia.
Defined.

(** Through the virtual functions the predictor sees one signature: neither the program
    counter nor the histories ever change. *)
Theorem chirp_single_signature table_size threshold :
  computeSignature 0 (CacheSetInfoCHiRP_new table_size threshold) = 0%Z.
Proof. reflexivity. Qed.

End Chirp.
