(* ===== verification/SetFactory.v ===== *)
(** * The factory of cache sets

    [CacheSet::createCacheSet] and [CacheSet::createCacheSetInfo] ([cache_set.cc]), which
    build a set and the shared statistics object of a policy from its name, with the casts
    between the classes of statistics objects. *)

From Stdlib Require Import ZArith Lia.
From stdpp Require Import base tactics numbers list strings.
From S2P Require Import Prelude Utils CacheBase CacheBlock CacheSet Replacement Policies Srrip Mplru Chirp.
Local Open Scope nat_scope.

Module Factory.

Definition parsePolicyType (policy : string) : res ReplacementPolicy_t :=
  let named (n : string) := bool_decide (policy = n) in
  if named "round_robin"%string then Ok ROUND_ROBIN
  else if named "lru"%string then Ok LRU
  else if named "lru_qbs"%string then Ok LRU_QBS
  else if named "nru"%string then Ok NRU
  else if named "mru"%string then Ok MRU
  else if named "nmru"%string then Ok NMRU
  else if named "plru"%string then Ok PLRU
  else if named "srrip"%string then Ok SRRIP
  else if named "srrip_qbs"%string then Ok SRRIP_QBS
  else if named "random"%string then Ok RANDOM
  else if named "mplru"%string then Ok MPLRU
  else if named "chirp"%string then Ok CHIRP
  else Err LogError.

(** What the factory reads from the configuration, and the time that seeds the random
    policy. *)
Record FactoryConfig := mkFactoryConfig {
  cfg_qbs_attempts : Z;
  cfg_mplru_mode : string;
  cfg_chirp_table_size : option Z;
  cfg_chirp_threshold : option Z;
  cfg_srrip_bits : Z;
  cfg_srrip_tlb : bool;
  cfg_time : Z;
  cfg_core : Z
}.

Definition getNumQBSAttempts (policy : ReplacementPolicy_t) (cfg : FactoryConfig) : nat :=
  match policy with
  | LRU_QBS | SRRIP_QBS => Z.to_nat (u8 (cfg_qbs_attempts cfg))
  | _ => 1
  end.

(** The dynamic class of a statistics object; every one of them derives from
    [CacheSetInfoLRU]. *)
Inductive CacheSetInfo :=
| InfoLRU (i : CacheSetInfoLRU)
| InfoMPLRU (i : CacheSetInfoLRU) (m : Mplru.CacheSetInfoMPLRU)
| InfoCHiRP (i : CacheSetInfoLRU) (c : Chirp.CacheSetInfoCHiRP).
Definition cast_lru (i : CacheSetInfo) : CacheSetInfoLRU :=
  match i with InfoLRU i | InfoMPLRU i _ | InfoCHiRP i _ => i end.
Definition cast_mplru (i : CacheSetInfo) : option Mplru.CacheSetInfoMPLRU :=
  match i with InfoMPLRU _ m => Some m | _ => None end.
Definition cast_chirp (i : CacheSetInfo) : option Chirp.CacheSetInfoCHiRP :=
  match i with InfoCHiRP _ c => Some c | _ => None end.

Definition createCacheSetInfo (cfg : FactoryConfig) (replacement_policy : string) (associativity : nat)
  : res (option CacheSetInfo) :=
  policy ← parsePolicyType replacement_policy;
  Ok (match policy with
      | LRU | LRU_QBS | SRRIP | SRRIP_QBS => Some (InfoLRU (CacheSetInfoLRU_new associativity (getNumQBSAttempts policy cfg)))
      | MPLRU => Some (InfoMPLRU (CacheSetInfoLRU_new associativity 1)
                         (Mplru.CacheSetInfoMPLRU_new (cfg_core cfg) associativity (cfg_mplru_mode cfg)))
      | CHIRP => Some (InfoCHiRP (CacheSetInfoLRU_new associativity 1)
                         (Chirp.CacheSetInfoCHiRP_new (u32 (default 1024%Z (cfg_chirp_table_size cfg)))
                            (u8 (default 2%Z (cfg_chirp_threshold cfg)))))
      | _ => None
      end).

(** The dynamic class of a set: its policy, with the pointer to the statistics that it
    keeps, which is null when the cast fails. *)
Inductive CacheSetPolicy :=
| SetRoundRobin (p : RoundRobin.CacheSetRoundRobin)
| SetLRU (p : LRU.CacheSetLRU) (i : option CacheSetInfoLRU)
| SetNRU (p : NRU.CacheSetNRU)
| SetMRU (p : MRU.CacheSetMRU)
| SetNMRU (p : NMRU.CacheSetNMRU)
| SetPLRU (p : PLRU.CacheSetPLRU)
| SetSRRIP (p : CacheSetSRRIP) (i : option CacheSetInfoLRU)
| SetRandom (p : RandomPolicy.CacheSetRandom)
| SetMPLRU (p : LRU.CacheSetLRU) (i : option CacheSetInfoLRU) (m : option Mplru.CacheSetInfoMPLRU)
| SetCHiRP (p : Chirp.CacheSetCHiRP) (i : option CacheSetInfoLRU) (c : option Chirp.CacheSetInfoCHiRP).

Definition createCacheSet (cfg : FactoryConfig) (replacement_policy : string) (cache_type : cache_t)
    (associativity : nat) (blocksize : Z) (set_info : option CacheSetInfo) (is_tlb_set with_data : bool)
  : res (CacheSetBase * CacheSetPolicy) :=
  policy ← parsePolicyType replacement_policy;
  s ← CacheSet_new cache_type associativity blocksize is_tlb_set with_data;
  p ← match policy with
      | ROUND_ROBIN => Ok (SetRoundRobin (RoundRobin.new associativity))
      | LRU | LRU_QBS => Ok (SetLRU (LRU.new associativity (getNumQBSAttempts policy cfg)) (cast_lru <$> set_info))
      | NRU => Ok (SetNRU (NRU.new associativity))
      | MRU => Ok (SetMRU (MRU.new associativity))
      | NMRU => Ok (SetNMRU (NMRU.new associativity))
      | PLRU => p ← PLRU.new associativity; Ok (SetPLRU p)
      | SRRIP | SRRIP_QBS =>
          p ← SRRIP_new (cfg_srrip_bits cfg) (cfg_srrip_tlb cfg) associativity (getNumQBSAttempts policy cfg);
          Ok (SetSRRIP p (cast_lru <$> set_info))
      | RANDOM => Ok (SetRandom (RandomPolicy.new (cfg_time cfg)))
      | MPLRU =>
          let m := set_info ≫= cast_mplru in
          Ok (SetMPLRU (LRU.new associativity 1) (i ← set_info; _ ← m; Some (cast_lru i)) m)
      | CHIRP =>
          let c := set_info ≫= cast_chirp in
          Ok (SetCHiRP (Chirp.CacheSetCHiRP_new associativity) (i ← set_info; _ ← c; Some (cast_lru i)) c)
      end;
  Ok (s, p).

(** The invariant of each policy, with the statistics that it keeps. *)
Definition policy_ok (s : CacheSetBase) (p : CacheSetPolicy) : Prop :=
  match p with
  | SetRoundRobin p => policy_wf s p None
  | SetLRU p i => policy_wf s p i
  | SetNRU p => policy_wf s p None
  | SetMRU p => policy_wf s p None
  | SetNMRU p => policy_wf s p None
  | SetPLRU p => policy_wf s p None
  | SetSRRIP p i => policy_wf s p i
  | SetRandom p => policy_wf s p None
  | SetMPLRU p i m => policy_wf s p i /\ LRU.m_num_attempts p = 1 /\ exists m', m = Some m' /\ Mplru.mi_associativity m' = m_associativity s
  | SetCHiRP p i c => Chirp.wf s p i /\ exists c', c = Some c' /\ Chirp.info_ok c'
  end.

(** The configurations that a policy supports. *)
Definition supports (policy : ReplacementPolicy_t) (cfg : FactoryConfig) (associativity : nat) : Prop :=
  let srrip := (1 <= cfg_srrip_bits cfg <= 7)%Z /\ (2 ^ cfg_srrip_bits cfg <= Z.of_nat associativity)%Z in
  match policy with
  | PLRU => associativity = 4 \/ associativity = 8
  | LRU_QBS => (0 < u8 (cfg_qbs_attempts cfg))%Z
  | SRRIP => srrip
  | SRRIP_QBS => (0 < u8 (cfg_qbs_attempts cfg))%Z /\ srrip
  | CHIRP => (0 < u32 (default 1024 (cfg_chirp_table_size cfg)))%Z
  | _ => True
  end.

Lemma new_set_wf ty n bs tlb wd : ty <> INVALID_CACHE_TYPE -> 0 < n -> (0 <= bs < 2 ^ 32)%Z ->
  exists s, CacheSet_new ty n bs tlb wd = Ok s /\ set_wf ty s /\ m_associativity s = n.
Proof.
  intros Hty Hn Hbs. unfold CacheSet_new.
  assert (exists b, CacheBlockInfo_create ty = Ok b /\ block_kind ty b) as (b & -> & Hk) by (destruct ty; [done|..]; by eexists).
  cbn [mbind res_bind]. eexists. split; [done|]. split; [|done].
  split; cbn; [apply length_replicate|lia|by apply Forall_replicate|done|]. destruct wd; [|done]. intros d [= <-]. apply length_replicate.
Qed.

Lemma info_new_ok n att : Replacement.info_ok n att (Some (CacheSetInfoLRU_new n att)).
Proof.
  eexists. split; [done|]. split; [done|apply length_replicate|]. unfold CacheSetInfoLRU_new. cbn [m_attempts].
  destruct (Nat.ltb_spec 1 att); [apply length_replicate|lia].
Qed.

Lemma SRRIP_new_ok s bits tlb att : m_associativity s <= 256 -> (1 <= bits <= 7)%Z -> (2 ^ bits <= Z.of_nat (m_associativity s))%Z ->
  0 < att <= 255 -> exists p, SRRIP_new bits tlb (m_associativity s) att = Ok p /\
    policy_wf s p (Some (CacheSetInfoLRU_new (m_associativity s) att)).
Proof.
  intros Hn Hb H2 Ha. unfold SRRIP_new. rewrite (wrap_small 8 bits) by (split; lia). rewrite (proj2 (Z.ltb_lt _ _)) by lia.
  assert (Hp : (2 <= 2 ^ bits <= 128)%Z).
  { split; [apply (Z.pow_le_mono_r 2 1); lia|]. change 128%Z with (2 ^ 7)%Z. apply Z.pow_le_mono_r; lia. }
  cbn [check mbind res_bind]. rewrite Z.shiftl_1_l. rewrite (wrap_small 8 (2 ^ bits - 1)), wrap_small by (split; lia).
  eexists. split; [done|]. split; cbn; [apply length_replicate|done|lia|done|apply Forall_replicate; lia|lia|done|apply info_new_ok].
Qed.

Lemma SRRIP_attempts bits tlb n att p : SRRIP_new bits tlb n att = Ok p -> m_num_attempts p = att.
Proof. unfold SRRIP_new, check. destruct (_ <? _)%Z; [|done]. by intros [= <-]. Qed.

Lemma NRU_new_ok s n : m_associativity s = n -> 0 < n <= 255 -> policy_wf s (NRU.new n) None.
Proof.
  intros Hn H. assert (Hm : NRU.marked (replicate n 0%Z) = 0).
  { unfold NRU.marked. rewrite filter_none; [done|]. intros x [-> _]%elem_of_replicate H0. by apply H0. }
  split; cbn [NRU.m_lru_bits NRU.m_num_bits_set NRU.m_replacement_pointer NRU.new]; rewrite ?Hm; [rewrite length_replicate; lia|lia..].
Qed.

Lemma chirp_new_ok s n : m_associativity s = n -> policy_wf s (LRU.new n 1) (Some (CacheSetInfoLRU_new n 1)) ->
  Chirp.wf s (Chirp.CacheSetCHiRP_new n) (Some (CacheSetInfoLRU_new n 1)).
Proof. intros Hn H. split; cbn; rewrite ?length_replicate; try done. by apply Forall_replicate. Qed.

Lemma chirp_info_ok size th : (0 < size)%Z -> Chirp.info_ok (Chirp.CacheSetInfoCHiRP_new size th).
Proof. intros H. split; cbn; [done|apply length_replicate|apply Forall_replicate; lia]. Qed.

(** ** What each name stands for *)

Inductive policy_class_t := RoundRobin_ | LRU_ | NRU_ | MRU_ | NMRU_ | PLRU_ | SRRIP_ | Random_ | MPLRU_ | CHiRP_.
Definition class_of (p : CacheSetPolicy) : policy_class_t :=
  match p with
  | SetRoundRobin _ => RoundRobin_ | SetLRU _ _ => LRU_ | SetNRU _ => NRU_ | SetMRU _ => MRU_ | SetNMRU _ => NMRU_
  | SetPLRU _ => PLRU_ | SetSRRIP _ _ => SRRIP_ | SetRandom _ => Random_ | SetMPLRU _ _ _ => MPLRU_ | SetCHiRP _ _ _ => CHiRP_
  end.
(** How often a set asks the controller before it evicts a block. *)
Definition attempts_of (p : CacheSetPolicy) : nat :=
  match p with
  | SetLRU p _ | SetMPLRU p _ _ => LRU.m_num_attempts p
  | SetSRRIP p _ => m_num_attempts p
  | SetCHiRP p _ _ => LRU.m_num_attempts (Chirp.chirp_lru p)
  | _ => 1
  end.
(** The class of the set, and whether the number of queries is configured. *)
Definition policies : list (string * (policy_class_t * bool)) :=
  [("round_robin", (RoundRobin_, false)); ("lru", (LRU_, false)); ("lru_qbs", (LRU_, true)); ("nru", (NRU_, false));
   ("mru", (MRU_, false)); ("nmru", (NMRU_, false)); ("plru", (PLRU_, false)); ("srrip", (SRRIP_, false));
   ("srrip_qbs", (SRRIP_, true)); ("random", (Random_, false)); ("mplru", (MPLRU_, false)); ("chirp", (CHiRP_, false))]%string.
(** The configurations that they support. *)
Definition supported (class : policy_class_t) (qbs : bool) (cfg : FactoryConfig) (associativity : nat) : Prop :=
  (qbs = true -> (0 < u8 (cfg_qbs_attempts cfg))%Z) /\
  match class with
  | PLRU_ => associativity = 4 \/ associativity = 8
  | SRRIP_ => (1 <= cfg_srrip_bits cfg <= 7)%Z /\ (2 ^ cfg_srrip_bits cfg <= Z.of_nat associativity)%Z
  | CHiRP_ => (0 < u32 (default 1024 (cfg_chirp_table_size cfg)))%Z
  | _ => True
  end.

Definition policy_class (policy : ReplacementPolicy_t) : policy_class_t :=
  match policy with
  | ROUND_ROBIN => RoundRobin_ | LRU | LRU_QBS => LRU_ | NRU => NRU_ | MRU => MRU_ | NMRU => NMRU_ | PLRU => PLRU_
  | SRRIP | SRRIP_QBS => SRRIP_ | RANDOM => Random_ | MPLRU => MPLRU_ | CHIRP => CHiRP_
  end.
Definition policy_qbs (policy : ReplacementPolicy_t) : bool := match policy with LRU_QBS | SRRIP_QBS => true | _ => false end.

(** By the policy that the name is parsed as. *)
Lemma policy_builds cfg name policy ty n bs tlb wd :
  ty <> INVALID_CACHE_TYPE -> 0 < n <= 255 -> (0 <= bs < 2 ^ 32)%Z -> parsePolicyType name = Ok policy -> supports policy cfg n ->
  exists info s p, createCacheSetInfo cfg name n = Ok info /\
    createCacheSet cfg name ty n bs info tlb wd = Ok (s, p) /\ set_wf ty s /\ policy_ok s p /\
    class_of p = policy_class policy /\ attempts_of p = (if policy_qbs policy then Z.to_nat (u8 (cfg_qbs_attempts cfg)) else 1).
Proof.
  intros Hty Hn Hbs E Hsup. unfold createCacheSetInfo, createCacheSet. rewrite E. cbn [mbind res_bind]. destruct (new_set_wf ty n bs tlb wd Hty ltac:(lia) Hbs) as (s & -> & Hs & Hsn). cbn [mbind res_bind].
  assert (Hlru : forall att, 0 < att -> policy_wf s (LRU.new n att) (Some (CacheSetInfoLRU_new n att))).
  { intros att Ha. rewrite <- Hsn. apply (LRU.new_wf ty); [done|lia|done|apply info_new_ok]. }
  assert (Hbits : exists order, recency (init_bits n) order) by (exists (seq 0 n); apply init_bits_recency; lia).
  assert (Hlen : length (init_bits n) = n) by (unfold init_bits; by rewrite length_fmap, length_seq).
  assert (Hatt : (0 < u8 (cfg_qbs_attempts cfg))%Z -> 0 < Z.to_nat (u8 (cfg_qbs_attempts cfg)) <= 255).
  { pose proof (wrap_range' 8 (cfg_qbs_attempts cfg) ltac:(lia)). lia. }
  pose proof (fun att => SRRIP_new_ok s (cfg_srrip_bits cfg) (cfg_srrip_tlb cfg) att ltac:(lia)) as Hsrrip. rewrite Hsn in Hsrrip.
  destruct policy; unfold supports in Hsup; cbn [getNumQBSAttempts mbind res_bind].
  - eexists _, _, _. split; [done|]. split; [done|]. split; [done|]. split; [cbn; lia|done].
  - eexists _, _, _. split; [done|]. split; [done|]. split; [done|]. split; [apply Hlru; lia|done].
  - eexists _, _, _. split; [done|]. split; [done|]. split; [done|]. split; [apply Hlru; lia|done].
  - eexists _, _, _. split; [done|]. split; [done|]. split; [done|]. split; [apply NRU_new_ok; lia|done].
  - eexists _, _, _. split; [done|]. split; [done|]. split; [done|]. split; [split; cbn; [lia|lia|done]|done].
  - eexists _, _, _. split; [done|]. split; [done|]. split; [done|]. split; [split; cbn; [lia|lia|done|lia]|done].
  - eexists None, _, _. split; [done|]. unfold PLRU.new.
    assert (Eb : (n =? 4) || (n =? 8) = true) by (apply orb_true_iff; rewrite !Nat.eqb_eq; done).
    rewrite Eb. cbn [check mbind res_bind]. split; [done|]. split; [done|]. split; [split; cbn; [by rewrite Hsn|done]|done].
  - destruct (Hsrrip 1) as (p & Ep & Hp); [tauto|tauto|lia|]. eexists _, _, _. rewrite Ep. split; [done|]. split; [done|]. split; [done|]. split; [exact Hp|].
    split; [done|]. exact (SRRIP_attempts _ _ _ _ _ Ep).
  - destruct (Hsrrip (Z.to_nat (u8 (cfg_qbs_attempts cfg)))) as (p & Ep & Hp); [tauto|tauto|apply Hatt; tauto|].
    eexists _, _, _. rewrite Ep. split; [done|]. split; [done|]. split; [done|]. split; [exact Hp|].
    split; [done|]. exact (SRRIP_attempts _ _ _ _ _ Ep).
  - eexists _, _, _. split_and!; done.
  - eexists _, _, _. split; [done|]. split; [done|]. split; [done|]. split; [split; [apply Hlru; lia|]; split; [done|]; eexists; by split|done].
  - eexists _, _, _. split; [done|]. split; [done|]. split; [done|]. split; [split; [apply chirp_new_ok; [done|apply Hlru; lia]|]; eexists; split; [done|]; by apply chirp_info_ok|done].
Qed.

(** A name of the table is parsed as a policy of its class; no other name is known. *)
Lemma parse_known name class qbs : (name, (class, qbs)) ∈ policies ->
  exists policy, parsePolicyType name = Ok policy /\ policy_class policy = class /\ policy_qbs policy = qbs /\
    forall cfg n, supported class qbs cfg n -> supports policy cfg n.
Proof.
  unfold policies. rewrite !elem_of_cons. intros H.
  repeat (destruct H as [[= -> -> ->]|H]; [eexists; split; [vm_compute; reflexivity|]; split; [done|]; split; [done|]; unfold supported, supports; naive_solver|]).
  by apply elem_of_nil in H.
Qed.
Lemma parse_unknown name : name ∉ policies.*1 -> parsePolicyType name = Err LogError.
Proof.
  intros H. unfold parsePolicyType. cbn in H. rewrite !not_elem_of_cons in H. repeat (rewrite bool_decide_eq_false_2 by tauto). done.
Qed.

(** C28: The factory builds, for each of the twelve policy names, a set of the class that the name
    stands for, with the number of queries that is configured for the names that end in _qbs
    and one for the others: for a configuration that the class supports
    the statistics object that [createCacheSetInfo] makes passes the dynamic cast that
    [createCacheSet] applies to it, both return, and the new set satisfies the invariant of
    its policy; any other name stops the simulator. *)
Theorem factory_builds cfg name ty n bs tlb wd :
  ty <> INVALID_CACHE_TYPE -> 0 < n <= 255 -> (0 <= bs < 2 ^ 32)%Z ->
  (forall class qbs, (name, (class, qbs)) ∈ policies -> supported class qbs cfg n ->
    exists info s p, createCacheSetInfo cfg name n = Ok info /\
      createCacheSet cfg name ty n bs info tlb wd = Ok (s, p) /\ set_wf ty s /\ policy_ok s p /\
      class_of p = class /\ attempts_of p = (if qbs then Z.to_nat (u8 (cfg_qbs_attempts cfg)) else 1)) /\
  (name ∉ policies.*1 ->
    createCacheSetInfo cfg name n = Err LogError /\ forall info, createCacheSet cfg name ty n bs info tlb wd = Err LogError).
Proof.
  intros Hty Hn Hbs. split.
  - intros class qbs (policy & E & <- & <- & Hsup)%parse_known Hs. apply policy_builds; auto.
  - intros E%parse_unknown. unfold createCacheSetInfo, createCacheSet. by rewrite E.
Qed.

Definition tlb_config : FactoryConfig := mkFactoryConfig 3 "always" (Some 512%Z) None 2 false 42 0.

Lemma factory_builds_witness :
  exists info s p, createCacheSetInfo tlb_config "srrip_qbs" 16 = Ok info /\
    createCacheSet tlb_config "srrip_qbs" PR_L1_CACHE 16 8 info true false = Ok (s, p) /\ set_wf PR_L1_CACHE s /\ policy_ok s p /\
    class_of p = SRRIP_ /\ attempts_of p = 3.
Proof.
  destruct (factory_builds tlb_config "srrip_qbs" PR_L1_CACHE 16 8 true false) as [H _]; [discriminate|lia|lia|].
  apply (H SRRIP_ true).
  - unfold policies. rewrite !elem_of_cons. tauto.
  - split; [reflexivity|]. cbn. lia.
Defined.

End Factory.
