(* ===== verification/BranchPredictor.v ===== *)
(** * Branch predictors

    [performance_model/branch_predictor.cc] and [branch_predictors/]: the one-bit, Pentium M
    and Cortex-A53 predictors with the structures they are made of (saturating counters,
    bimodal table, global predictor, branch target buffers and the loop predictor). The
    vectors that a way keeps in parallel are one vector of entries. *)

From stdpp Require Import base tactics list numbers strings.
From Stdlib Require Import ZArith Lia.
From S2P Require Import Prelude Utils CacheBase.
Local Open Scope Z_scope.
Local Open Scope mach_scope.

(** ** Saturating counters *)

Module Saturating.

Definition pow (n : nat) : Z := 2 ^ Z.of_nat n.

(** [SaturatingPredictor<n>], whose counter is an [int8_t]. *)
Definition new (initial_value : Z) : Z := swrap 8 initial_value.
Definition predict (m_counter : Z) : bool := 0 <=? m_counter.
Definition reset (n : nat) (prediction : bool) : Z := if prediction then pow (n - 1) - 1 else - pow (n - 1).
Definition increment (n : nat) (m_counter : Z) : Z :=
  if m_counter =? pow (n - 1) - 1 then m_counter else swrap 8 (m_counter + 1).
Definition decrement (n : nat) (m_counter : Z) : Z :=
  if m_counter =? - pow (n - 1) then m_counter else swrap 8 (m_counter - 1).
Definition update (n : nat) (actual : bool) (m_counter : Z) : Z :=
  if actual then increment n m_counter else decrement n m_counter.

End Saturating.

(** ** Set-associative tables *)

Section ways.
Context {E : Type}.

(** [m_ways[w].x[index]] *)
Definition entry_at (ways : list (list E)) (w index : nat) : res E := l ← rd ways w; rd l index.
Definition set_entry (ways : list (list E)) (w index : nat) (e : E) : res (list (list E)) :=
  l ← rd ways w; l ← wr l index e; wr ways w l.

(** The loop over the ways of a look-up: the first that matches. *)
Definition find_way (match_ : E -> bool) (ways : list (list E)) (num_ways index : nat) : res (option nat) :=
  find_loop (fun w => e ← entry_at ways w index; Ok (match_ e)) (seq 0 num_ways).

(** The loop of an update: the first way that matches, or the least recently used one. *)
Fixpoint match_or_lru (match_ : E -> bool) (lru : E -> Z) (ways : list (list E)) (index : nat) (ws : list nat) (lru_way : nat)
  : res (nat * bool) :=
  match ws with
  | [] => Ok (lru_way, false)
  | w :: ws =>
      e ← entry_at ways w index;
      if match_ e then Ok (w, true)
      else
        l ← entry_at ways lru_way index;
        match_or_lru match_ lru ways index ws (if lru e <? lru l then w else lru_way)
  end.

End ways.

Inductive BranchType := InvalidBranch | DirectBranch | IndirectBranch | UnconditionalBranch | ConditionalBranch.
#[global] Instance BranchType_eq_dec : EqDecision BranchType.
Proof. solve_decision. Defined.
Record BranchPredictorReturnValue := mkReturn { prediction : bool; hit : bool; br_target : Z; br_type : BranchType }.

(** ** The bimodal table *)

Module Bimodal.

Record SimpleBimodalTable := mkBimodal { m_num_entries : Z; m_mask : Z; m_table : list Z }.

(** The number of shifts to zero, less one. *)
Definition ilog2 (n : Z) : Z := u32 (Z.of_nat (length (filter (fun i => Z.shiftr n (Z.of_nat i) <> 0) (seq 0 32))) - 1).
Definition new (entries : Z) : SimpleBimodalTable :=
  mkBimodal entries
    (foldl (fun mask i => Z.lor mask (Z.shiftl 1 (Z.of_nat i))) 0 (seq 0 (Z.to_nat (ilog2 entries))))
    (replicate (Z.to_nat entries) (Saturating.reset 2 false)).

Definition predict (ip : Z) (b : SimpleBimodalTable) : res bool :=
  x ← rd (m_table b) (Z.to_nat (u32 (Z.land ip (m_mask b)))); Ok (Saturating.predict x).
Definition update (actual : bool) (ip : Z) (b : SimpleBimodalTable) : res SimpleBimodalTable :=
  let index := Z.to_nat (u32 (Z.land ip (m_mask b))) in
  x ← rd (m_table b) index;
  t ← wr (m_table b) index (if actual then Saturating.increment 2 x else Saturating.decrement 2 x);
  Ok (mkBimodal (m_num_entries b) (m_mask b) t).

End Bimodal.

(** ** The global predictor *)

Module Global.

Record entry := mkEntry { m_valid : bool; m_tag : Z; m_predictor : Z; m_lru : Z }.
Record GlobalPredictor := mkGlobal { m_lru_use_count : Z; m_num_ways : nat; m_ways : list (list entry) }.

Definition new (entries ways : Z) : res GlobalPredictor :=
  check (negb (ways =? 0)) DivByZero;;
  Ok (mkGlobal 0 (Z.to_nat ways)
        (replicate (Z.to_nat ways) (replicate (Z.to_nat (entries / ways)) (mkEntry false 0 (Saturating.new 0) 0)))).

Definition gen_index (ip pir : Z) : nat := Z.to_nat (Z.land (Z.lxor (Z.shiftr ip 4) (Z.shiftr pir 6)) 0x1FF).
Definition gen_tag (ip pir : Z) : Z := Z.land (Z.lxor (Z.shiftr ip 13) pir) 0x3F.
Definition matches (tag : Z) (e : entry) : bool := m_valid e && (m_tag e =? tag).

Definition predict (ip pir : Z) (g : GlobalPredictor) : res bool :=
  o ← find_way (matches (gen_tag ip pir)) (m_ways g) (m_num_ways g) (gen_index ip pir);
  Ok (bool_decide (is_Some o)).

Definition lookup (ip pir : Z) (g : GlobalPredictor) : res BranchPredictorReturnValue :=
  let index := gen_index ip pir in
  o ← find_way (matches (gen_tag ip pir)) (m_ways g) (m_num_ways g) index;
  match o with
  | Some w => e ← entry_at (m_ways g) w index; Ok (mkReturn (Saturating.predict (m_predictor e)) true 0 InvalidBranch)
  | None => Ok (mkReturn false false 0 InvalidBranch)
  end.

Definition update (actual : bool) (ip pir : Z) (g : GlobalPredictor) : res GlobalPredictor :=
  let index := gen_index ip pir in
  let tag := gen_tag ip pir in
  '(w, found) ← match_or_lru (matches tag) m_lru (m_ways g) index (seq 0 (m_num_ways g)) 0;
  e ← entry_at (m_ways g) w index;
  let e := if found : bool
           then mkEntry (m_valid e) (m_tag e) (Saturating.update 2 actual (m_predictor e)) (m_lru_use_count g)
           else mkEntry true tag (Saturating.reset 2 actual) (m_lru_use_count g) in
  ways ← set_entry (m_ways g) w index e;
  Ok (mkGlobal (m_lru_use_count g +64 1) (m_num_ways g) ways).

Definition evict (ip pir : Z) (g : GlobalPredictor) : res GlobalPredictor :=
  let index := gen_index ip pir in
  o ← find_way (matches (gen_tag ip pir)) (m_ways g) (m_num_ways g) index;
  match o with
  | Some w =>
      e ← entry_at (m_ways g) w index;
      ways ← set_entry (m_ways g) w index (mkEntry false (m_tag e) (m_predictor e) (m_lru e));
      Ok (mkGlobal (m_lru_use_count g) (m_num_ways g) ways)
  | None => Ok g
  end.

End Global.

(** ** The branch target buffer *)

Module Btb.

Record entry := mkEntry { m_tag_offset : Z; m_plru : Z }.
Record PentiumMBranchTargetBuffer := mkBtb {
  m_num_ways : nat; m_num_entries : Z; m_ways : list (list entry); m_lru_use_count : Z }.

Definition make_ways (num_ways : nat) (num_entries : Z) : list (list entry) :=
  replicate num_ways (replicate (Z.to_nat num_entries) (mkEntry 0 0)).
(** The constructor and [initialize]; the configuration gives both numbers. *)
Definition initialize (num_ways : nat) (num_entries : Z) : PentiumMBranchTargetBuffer :=
  mkBtb num_ways num_entries (make_ways num_ways num_entries) 0.
Definition resize (new_entries : Z) (b : PentiumMBranchTargetBuffer) : PentiumMBranchTargetBuffer :=
  mkBtb (m_num_ways b) new_entries (make_ways (m_num_ways b) new_entries) (m_lru_use_count b).

Definition ip_to_index (ip : Z) : nat := Z.to_nat (Z.land (Z.shiftr ip 4) 0x1ff).
Definition ip_to_tagoff (ip : Z) : Z := Z.land ip 0x3fe00f.

Definition lookup (ip : Z) (b : PentiumMBranchTargetBuffer) : res BranchPredictorReturnValue :=
  o ← find_way (fun e => m_tag_offset e =? ip_to_tagoff ip) (m_ways b) (m_num_ways b) (ip_to_index ip);
  Ok (mkReturn false (bool_decide (is_Some o)) 0 InvalidBranch).

Definition update (ip : Z) (b : PentiumMBranchTargetBuffer) : res PentiumMBranchTargetBuffer :=
  let index := ip_to_index ip in
  '(w, _) ← match_or_lru (fun e => m_tag_offset e =? ip_to_tagoff ip) m_plru (m_ways b) index (seq 0 (m_num_ways b)) 0;
  ways ← set_entry (m_ways b) w index (mkEntry (ip_to_tagoff ip) (m_lru_use_count b));
  Ok (mkBtb (m_num_ways b) (m_num_entries b) ways (m_lru_use_count b +64 1)).

End Btb.

(** ** The indirect branch target buffer *)

Module Ibtb.

Record IndirectBranchTargetBuffer := mkIbtb { m_num_entries : Z; history : Z; lru : nat; m_table : list (Z * Z) }.
Definition new (entries : Z) : IndirectBranchTargetBuffer :=
  mkIbtb entries 0xFFF 0 (replicate (Z.to_nat entries) (0, 0)).

(** The table is searched for the low half of the address. *)
Definition predict (ip target : Z) (b : IndirectBranchTargetBuffer) : bool :=
  match filter (fun e : Z * Z => fst e = u32 ip) (m_table b) with
  | e :: _ => snd e =? target
  | [] => false
  end.

(** Every entry with the address, or without one, is written. *)
Definition update (actual : bool) (ip target : Z) (b : IndirectBranchTargetBuffer) : res IndirectBranchTargetBuffer :=
  if actual then
    let index := u32 ip in
    let takes (e : Z * Z) : bool := (fst e =? index) || (fst e =? 0) in
    let h := Z.lor (Z.shiftr (history b) 1) 0x800 in
    if existsb takes (m_table b) then
      Ok (mkIbtb (m_num_entries b) h (lru b) (map (fun e => if takes e then (index, target) else e) (m_table b)))
    else
      t ← wr (m_table b) (lru b) (index, target);
      next ← umod (Z.of_nat (lru b) + 1) (m_num_entries b);
      Ok (mkIbtb (m_num_entries b) h (Z.to_nat next) t)
  else Ok (mkIbtb (m_num_entries b) (Z.shiftr (history b) 1) (lru b) (m_table b)).

End Ibtb.

(** ** The loop predictor *)

Module Loop.

Record entry := mkEntry {
  m_tag : Z; m_previous_actual : bool; m_enabled : bool; m_predictor : Z; m_lru : Z; m_count : Z; m_limit : Z }.
Record LoopBranchPredictor := mkLoop { m_lru_use_count : Z; m_num_ways : nat; m_ways : list (list entry) }.

Definition new (entries ways : Z) : res LoopBranchPredictor :=
  check (negb (ways =? 0)) DivByZero;;
  Ok (mkLoop 0 (Z.to_nat ways)
        (replicate (Z.to_nat ways) (replicate (Z.to_nat (entries / ways)) (mkEntry 0 false false (Saturating.new 0) 0 0 0)))).

Definition gen_index (ip : Z) : nat := Z.to_nat (Z.land (Z.shiftr ip 4) 0x3F).
Definition gen_tag (ip : Z) : Z := Z.land (Z.shiftr ip 10) 0x3F.

(** What an enabled entry predicts: its direction, and the other one at the limit. *)
Definition predicts (e : entry) : bool :=
  if m_count e =? m_limit e then negb (Saturating.predict (m_predictor e)) else Saturating.predict (m_predictor e).

Definition lookup (ip : Z) (p : LoopBranchPredictor) : res (BranchPredictorReturnValue * LoopBranchPredictor) :=
  let index := gen_index ip in
  o ← find_way (fun e => m_enabled e && (m_tag e =? gen_tag ip)) (m_ways p) (m_num_ways p) index;
  match o with
  | Some w =>
      e ← entry_at (m_ways p) w index;
      ways ← set_entry (m_ways p) w index
               (mkEntry (m_tag e) (m_previous_actual e) (m_enabled e) (m_predictor e) (m_lru_use_count p) (m_count e) (m_limit e));
      Ok (mkReturn (predicts e) true 0 InvalidBranch, mkLoop (m_lru_use_count p +64 1) (m_num_ways p) ways)
  | None => Ok (mkReturn false false 0 InvalidBranch, p)
  end.

Definition prediction_match (actual : bool) (e : entry) : bool :=
  let prediction := Saturating.predict (m_predictor e) in
  if m_count e =? m_limit e then negb (eqb prediction actual) else eqb prediction actual.

(** The next counter, limit and enabled bit while the direction stays the same. *)
Definition same_direction (actual : bool) (e : entry) : Z * Z * bool :=
  if negb (prediction_match actual e) then
    if m_count e <? m_limit e then (0, m_count e, m_enabled e)
    else (u32 (m_count e + 1), u32 (m_count e + 1), false)
  else ((if m_count e =? m_limit e then 0 else u32 (m_count e + 1)), m_limit e, m_enabled e).

(** The entry of a branch after an outcome, except its time of use. *)
Definition next_entry (actual : bool) (e : entry) : entry :=
  let current_prediction := Saturating.predict (m_predictor e) in
  let '(counter, limit, enabled) := same_direction actual e in
  if eqb (m_previous_actual e) actual && eqb actual (negb current_prediction) then
    mkEntry (m_tag e) actual false (Saturating.update 1 actual (m_predictor e)) (m_lru e) 1 1
  else if negb (eqb (m_previous_actual e) actual) && eqb actual (negb current_prediction) && negb (m_enabled e) then
    mkEntry (m_tag e) actual true (m_predictor e) (m_lru e) 0 (m_limit e)
  else mkEntry (m_tag e) actual enabled (m_predictor e) (m_lru e) counter limit.

(** A replaced entry keeps its enabled bit. *)
Definition allocated (tag : Z) (actual : bool) (e : entry) : entry :=
  mkEntry tag actual (m_enabled e) (Saturating.reset 1 actual) (m_lru e) 1 1.

Definition used_at (time : Z) (e : entry) : entry :=
  mkEntry (m_tag e) (m_previous_actual e) (m_enabled e) (m_predictor e) time (m_count e) (m_limit e).

Definition update (actual : bool) (ip : Z) (p : LoopBranchPredictor) : res LoopBranchPredictor :=
  let index := gen_index ip in
  '(w, found) ← match_or_lru (fun e => m_tag e =? gen_tag ip) m_lru (m_ways p) index (seq 0 (m_num_ways p)) 0;
  e ← entry_at (m_ways p) w index;
  ways ← set_entry (m_ways p) w index
           (used_at (m_lru_use_count p) (if found : bool then next_entry actual e else allocated (gen_tag ip) actual e));
  Ok (mkLoop (m_lru_use_count p +64 1) (m_num_ways p) ways).

End Loop.

(** ** The predictors *)

(** The counters of the base class. *)
Record BranchCounters := mkCounters { m_correct_predictions : Z; m_incorrect_predictions : Z }.
Definition updateCounters (predicted actual : bool) (c : BranchCounters) : BranchCounters :=
  if eqb predicted actual then mkCounters (m_correct_predictions c +64 1) (m_incorrect_predictions c)
  else mkCounters (m_correct_predictions c) (m_incorrect_predictions c +64 1).
Definition resetCounters : BranchCounters := mkCounters 0 0.

Module OneBit.

Record OneBitBranchPredictor := mkOneBit { base : BranchCounters; m_bits : list bool }.
Definition new (size : Z) : OneBitBranchPredictor := mkOneBit resetCounters (replicate (Z.to_nat size) false).
Definition predict (ip : Z) (p : OneBitBranchPredictor) : res bool :=
  i ← umod ip (Z.of_nat (length (m_bits p))); rd (m_bits p) (Z.to_nat (u32 i)).
Definition update (predicted actual : bool) (ip : Z) (p : OneBitBranchPredictor) : res OneBitBranchPredictor :=
  i ← umod ip (Z.of_nat (length (m_bits p)));
  bits ← wr (m_bits p) (Z.to_nat (u32 i)) actual;
  Ok (mkOneBit (updateCounters predicted actual (base p)) bits).
Definition resizeBTB (new_entries : Z) (p : OneBitBranchPredictor) : OneBitBranchPredictor :=
  mkOneBit (base p) (replicate (Z.to_nat new_entries) false).

End OneBit.

Module A53.

Inductive State := StronglyNotTaken | WeakelyTaken | WeakelyNotTaken | StronglyTaken.
Definition nextState (currentState : State) (input : bool) : State :=
  match currentState with
  | StronglyNotTaken => if input then WeakelyTaken else StronglyNotTaken
  | WeakelyNotTaken => if input then WeakelyTaken else StronglyNotTaken
  | WeakelyTaken => if input then StronglyTaken else WeakelyNotTaken
  | StronglyTaken => if input then StronglyTaken else WeakelyTaken
  end.
Definition statePrediction (state : State) : bool :=
  match state with StronglyNotTaken | WeakelyNotTaken => false | _ => true end.

Record A53BranchPredictor := mkA53 {
  base : BranchCounters;
  m_num_registers : Z;
  size : Z;
  ibtb : Ibtb.IndirectBranchTargetBuffer;
  m_pattern_history_table : list State;
  m_branch_history_register : list Z
}.

Definition new (num_registers size : Z) : A53BranchPredictor :=
  mkA53 resetCounters num_registers size (Ibtb.new 256)
    (replicate (Z.to_nat (num_registers * size)) StronglyNotTaken) (replicate (Z.to_nat num_registers) 0).

(** [m_v[i]] with a signed index. *)
Definition rdz {A} (l : list A) (i : Z) : res A := check (0 <=? i) OutOfBounds;; rd l (Z.to_nat i).
Definition wrz {A} (l : list A) (i : Z) (x : A) : res (list A) := check (0 <=? i) OutOfBounds;; wr l (Z.to_nat i) x.

(** The index of the register is a [char]. *)
Definition registerIndex (ip : Z) (p : A53BranchPredictor) : res Z :=
  i ← umod ip (u64 (m_num_registers p)); Ok (swrap 8 i).
Definition registerValue (i : Z) (p : A53BranchPredictor) : res Z :=
  v ← rdz (m_branch_history_register p) i; Ok (Z.land v (size p - 1)).

Definition predict (indirect : bool) (ip target : Z) (p : A53BranchPredictor) : res bool :=
  if indirect then Ok (Ibtb.predict ip target (ibtb p))
  else
    i ← registerIndex ip p;
    v ← registerValue i p;
    s ← rdz (m_pattern_history_table p) (v + i * size p);
    Ok (statePrediction s).

Definition update (predicted actual indirect : bool) (ip target : Z) (p : A53BranchPredictor) : res A53BranchPredictor :=
  let c := updateCounters predicted actual (base p) in
  if indirect then
    b ← Ibtb.update actual ip target (ibtb p);
    Ok (mkA53 c (m_num_registers p) (size p) b (m_pattern_history_table p) (m_branch_history_register p))
  else
    i ← registerIndex ip p;
    v ← registerValue i p;
    s ← rdz (m_pattern_history_table p) (v + i * size p);
    t ← wrz (m_pattern_history_table p) (v + i * size p) (nextState s actual);
    r ← wrz (m_branch_history_register p) i (Z.lor (Z.shiftl v 1) (Z.b2z actual));
    Ok (mkA53 c (m_num_registers p) (size p) (ibtb p) t r).

End A53.

Module PentiumM.

Record PentiumMBranchPredictor := mkPentiumM {
  base : BranchCounters;
  m_global_predictor : Global.GlobalPredictor;
  m_btb : Btb.PentiumMBranchTargetBuffer;
  m_bimodal_table : Bimodal.SimpleBimodalTable;
  m_lpb : Loop.LoopBranchPredictor;
  ibtb : Ibtb.IndirectBranchTargetBuffer;
  m_pir : Z;
  m_last_gp_hit : bool;
  m_last_bm_pred : bool;
  m_last_lpb_hit : bool
}.

(** [junk] is the value of [m_last_bm_pred], which the constructor does not set. *)
Definition new (btb_ways : nat) (btb_entries : Z) (junk : bool) : res PentiumMBranchPredictor :=
  g ← Global.new 2048 4;
  l ← Loop.new 128 2;
  Ok (mkPentiumM resetCounters g (Btb.initialize btb_ways btb_entries) (Bimodal.new 4096) l (Ibtb.new 256)
        0 false junk false).

Definition predict (ip target : Z) (p : PentiumMBranchPredictor) : res (bool * PentiumMBranchPredictor) :=
  global_pred_out ← Global.lookup ip (m_pir p) (m_global_predictor p);
  btb_out ← Btb.lookup ip (m_btb p);
  '(lpb_out, lpb) ← Loop.lookup ip (m_lpb p);
  bimodal_out ← Bimodal.predict ip (m_bimodal_table p);
  let result := if hit global_pred_out then prediction global_pred_out
                else if hit lpb_out && hit btb_out then prediction lpb_out else bimodal_out in
  let result := if result then Ibtb.predict ip target (ibtb p) else result in
  Ok (result, mkPentiumM (base p) (m_global_predictor p) (m_btb p) (m_bimodal_table p) lpb (ibtb p) (m_pir p)
                (hit global_pred_out) bimodal_out (hit lpb_out && hit btb_out)).

Definition update_pir (actual : bool) (ip target : Z) (branch_type : BranchType) (m_pir : Z) : Z :=
  let shifted rhs := Z.land (Z.lxor (u64 (Z.shiftl m_pir 2)) rhs) 0x7fff in
  if bool_decide (branch_type = ConditionalBranch) && actual then shifted (Z.shiftr ip 4)
  else if bool_decide (branch_type = IndirectBranch) then shifted (Z.lor (Z.shiftr ip 4) target)
  else m_pir.

Definition update (predicted actual : bool) (ip target : Z) (p : PentiumMBranchPredictor) : res PentiumMBranchPredictor :=
  ibtb ← Ibtb.update actual ip target (ibtb p);
  btb ← Btb.update ip (m_btb p);
  lpb ← Loop.update actual ip (m_lpb p);
  bm ← (if negb (m_last_gp_hit p) && negb (m_last_lpb_hit p) then Bimodal.update actual ip (m_bimodal_table p)
        else Ok (m_bimodal_table p));
  let lpb_or_bm_hit := m_last_lpb_hit p || eqb (m_last_bm_pred p) actual in
  g ← (if m_last_gp_hit p then
         if negb (eqb predicted actual) && lpb_or_bm_hit then Global.evict ip (m_pir p) (m_global_predictor p)
         else Global.update actual ip (m_pir p) (m_global_predictor p)
       else if negb (eqb predicted actual) && (m_last_gp_hit p || negb lpb_or_bm_hit)
       then Global.update actual ip (m_pir p) (m_global_predictor p)
       else Ok (m_global_predictor p));
  Ok (mkPentiumM (updateCounters predicted actual (base p)) g btb bm lpb ibtb (update_pir actual ip target ConditionalBranch (m_pir p))
        (m_last_gp_hit p) (m_last_bm_pred p) (m_last_lpb_hit p)).

Definition resizeBTB (new_entries : Z) (p : PentiumMBranchPredictor) : PentiumMBranchPredictor :=
  mkPentiumM (base p) (m_global_predictor p) (Btb.resize (u32 new_entries) (m_btb p)) (m_bimodal_table p) (m_lpb p) (ibtb p)
    (m_pir p) (m_last_gp_hit p) (m_last_bm_pred p) (m_last_lpb_hit p).

End PentiumM.

(** [BranchPredictor::create]: the predictor of a type, with the configuration of the core. *)
Inductive BranchPredictor :=
| NoPredictor
| OneBitP (p : OneBit.OneBitBranchPredictor)
| PentiumMP (p : PentiumM.PentiumMBranchPredictor)
| A53P (p : A53.A53BranchPredictor).

Definition create_predictor (type : string) (size num_registers : Z) (btb_ways : nat) (btb_entries : Z) (junk : bool)
  : res BranchPredictor :=
  if bool_decide (type = "none"%string) then Ok NoPredictor
  else if bool_decide (type = "one_bit"%string) then Ok (OneBitP (OneBit.new (u32 size)))
  else if bool_decide (type = "pentium_m"%string) then p ← PentiumM.new btb_ways (u32 btb_entries) junk; Ok (PentiumMP p)
  else if bool_decide (type = "a53"%string) then Ok (A53P (A53.new (swrap 32 num_registers) (swrap 32 size)))
  else Err LogError.
