(* ===== verification/BranchProps.v ===== *)
(** * Properties of the branch predictors

    The loop predictor learns loops of a constant trip count; the target buffer finds the
    target it was given last; the Pentium M predictor runs on any sequence of branches
    without leaving its tables; and the configurations that do leave them. *)

From stdpp Require Import base tactics list numbers strings.
From Stdlib Require Import ZArith Lia.
From S2P Require Import Prelude Utils CacheBase BranchPredictor.
Local Open Scope Z_scope.
Local Open Scope mach_scope.

(** ** Tables of ways *)

Section ways.
Context {E : Type}.
Implicit Type ways : list (list E).

(** A table of [n] ways, all with the slot [index]. *)
Definition has_slot (n index : nat) ways : Prop := length ways = n /\ Forall (fun l => (index < length l)%nat) ways.

Lemma entry_at_total n index ways w : has_slot n index ways -> (w < n)%nat ->
  exists l e, ways !! w = Some l /\ l !! index = Some e /\ entry_at ways w index = Ok e.
Proof.
  intros [Hn Hl] Hw. destruct (lookup_lt_is_Some_2 ways w ltac:(lia)) as [l El].
  pose proof (proj1 (Forall_lookup _ _) Hl _ _ El) as Hi. destruct (lookup_lt_is_Some_2 l index Hi) as [e Ee].
  exists l, e. unfold entry_at. rewrite (proj2 (rd_Ok _ _ _) El). cbn [mbind res_bind]. by rewrite (proj2 (rd_Ok _ _ _) Ee).
Qed.

Lemma entry_at_Ok ways w index e : entry_at ways w index = Ok e <-> exists l, ways !! w = Some l /\ l !! index = Some e.
Proof.
  unfold entry_at. split.
  - destruct (rd ways w) as [l|] eqn:El; cbn [mbind res_bind]; [|done]. intros He. apply rd_Ok in El, He. eauto.
  - intros (l & Hl & He). rewrite (proj2 (rd_Ok _ _ _) Hl). cbn [mbind res_bind]. by apply rd_Ok.
Qed.

(** A write of one slot. *)
Lemma set_entry_total n index ways w e : has_slot n index ways -> (w < n)%nat ->
  exists ways', set_entry ways w index e = Ok ways' /\ length ways' = n /\
    (forall m j, has_slot m j ways -> has_slot m j ways') /\ entry_at ways' w index = Ok e /\
    (forall w', w' <> w -> entry_at ways' w' index = entry_at ways w' index) /\
    (forall (P : E -> Prop), Forall (Forall P) ways -> P e -> Forall (Forall P) ways').
Proof.
  intros Hs Hw. pose proof Hs as [Hn Hl]. destruct (entry_at_total _ _ _ _ Hs Hw) as (l & x & El & Ex & _).
  pose proof (lookup_lt_Some _ _ _ Ex) as Hi. unfold set_entry. rewrite (proj2 (rd_Ok _ _ _) El). cbn [mbind res_bind].
  rewrite wr_lt by done. cbn [mbind res_bind]. rewrite wr_lt by lia. eexists. split; [done|]. split; [by rewrite length_insert|].
  split_and!.
  - intros m j [Hm Hj]. split; [by rewrite length_insert|]. apply Forall_insert; [done|]. rewrite length_insert.
    exact (proj1 (Forall_lookup _ _) Hj _ _ El).
  - apply entry_at_Ok. exists (<[index:=e]> l). by rewrite !list_lookup_insert_eq by lia.
  - intros w' Hne. unfold entry_at, rd. by rewrite list_lookup_insert_ne.
  - intros P HP He. apply Forall_insert; [done|]. apply Forall_insert; [|done]. exact (proj1 (Forall_lookup _ _) HP _ _ El).
Qed.

Lemma find_way_spec match_ ways n index : has_slot n index ways ->
  exists o, find_way match_ ways n index = Ok o /\
    match o with
    | Some w => (w < n)%nat /\ exists e, entry_at ways w index = Ok e /\ match_ e = true
    | None => forall w e, (w < n)%nat -> entry_at ways w index = Ok e -> match_ e = false
    end.
Proof.
  intros Hs. unfold find_way.
  set (q := fun w => match entry_at ways w index with Ok e => match_ e | Err _ => false end).
  rewrite (find_loop_pure _ q).
  2: { intros w Hw%elem_of_seq. destruct (entry_at_total _ _ _ w Hs ltac:(lia)) as (l & e & _ & _ & Ee). unfold q. by rewrite Ee. }
  eexists. split; [done|]. destruct (first_such q (seq 0 n)) as [w|] eqn:Ef.
  - apply first_such_Some in Ef as [Hw%elem_of_seq Hq]. split; [lia|]. destruct (entry_at_total _ _ _ w Hs ltac:(lia)) as (l & e & _ & _ & Ee).
    exists e. split; [done|]. unfold q in Hq. by rewrite Ee in Hq.
  - intros w e Hw Ee. pose proof (proj1 (first_such_None _ _) Ef w ltac:(apply elem_of_seq; lia)) as Hq. unfold q in Hq. by rewrite Ee in Hq.
Qed.

Lemma match_or_lru_spec match_ lru ways n index ws : forall start,
  has_slot n index ways -> Forall (fun w => (w < n)%nat) ws -> (start < n)%nat ->
  exists w found, match_or_lru match_ lru ways index ws start = Ok (w, found) /\ (w < n)%nat /\
    if found : bool then exists e, entry_at ways w index = Ok e /\ match_ e = true
    else Forall (fun w => forall e, entry_at ways w index = Ok e -> match_ e = false) ws.
Proof.
  induction ws as [|x ws IH]; intros start Hs Hws Hst; [by exists start, false|]. apply Forall_cons in Hws as [Hx Hws].
  destruct (entry_at_total _ _ _ x Hs Hx) as (l & e & _ & _ & Ex). cbn [match_or_lru]. rewrite Ex. cbn [mbind res_bind].
  destruct (match_ e) eqn:Em; [exists x, true; split_and!; [done|done|eauto]|].
  destruct (entry_at_total _ _ _ start Hs Hst) as (l' & e' & _ & _ & ->). cbn [mbind res_bind].
  destruct (IH (if lru e <? lru e' then x else start) Hs Hws ltac:(by destruct (_ <? _))) as (w & found & -> & Hw & Hf).
  exists w, found. split_and!; [done|done|]. destruct found; [done|]. constructor; [|done]. intros e1 E1. congruence.
Qed.

End ways.

(** ** The loop predictor learns loops *)

Module LoopProps.
Import Loop.

(** *** One entry *)

Section entry.
Context (d : bool) (k : Z) (Hk : 1 <= k < 2 ^ 32 - 1).

(** An entry with direction [d] that has counted [j] outcomes of its first loop. *)
Definition learning (j : Z) (e : entry) : Prop :=
  m_previous_actual e = d /\ Saturating.predict (m_predictor e) = d /\ m_count e = j /\ m_limit e = j.
(** An enabled entry that knows the trip count and is [c] outcomes into the loop. *)
Definition trained (c : Z) (e : entry) : Prop :=
  m_previous_actual e = (if c =? 0 then negb d else d) /\ m_enabled e = true /\ Saturating.predict (m_predictor e) = d /\
  m_count e = c /\ m_limit e = k.

Lemma learning_allocated tag e : learning 1 (allocated tag d e).
Proof. unfold learning. cbn. by destruct d. Qed.

Lemma learning_step j e : learning j e -> 1 <= j < k -> learning (j + 1) (next_entry d e).
Proof.
  intros (Hp & Hd & Hc & Hl) Hj. unfold next_entry, same_direction, prediction_match.
  rewrite Hp, Hd, Hc, Hl, Z.eqb_refl, Z.ltb_irrefl, eqb_reflx. rewrite (wrap_small 32 (j + 1)) by (split; lia).
  assert (Ed : eqb d (negb d) = false) by (by destruct d). cbn [negb andb]. rewrite Ed. cbn [andb]. split_and!; cbn; done.
Qed.

Lemma learning_end e : learning k e -> trained 0 (next_entry (negb d) e).
Proof.
  intros (Hp & Hd & Hc & Hl). unfold next_entry, same_direction, prediction_match. rewrite Hp, Hd, Hc, Hl, Z.eqb_refl, !eqb_reflx.
  assert (Ed : eqb d (negb d) = false) by (by destruct d). rewrite Ed. cbn [negb andb]. destruct (m_enabled e) eqn:Ee; cbn [negb]; split_and!; cbn; done.
Qed.

Lemma trained_step c e : trained c e -> 0 <= c < k -> predicts e = d /\ trained (c + 1) (next_entry d e).
Proof.
  intros (Hp & He & Hd & Hc & Hl) Hj. unfold predicts, next_entry, same_direction, prediction_match. rewrite Hd, Hc, Hl.
  rewrite (proj2 (Z.eqb_neq c k)) by lia. split; [done|]. rewrite eqb_reflx. cbn [negb]. rewrite (wrap_small 32 (c + 1)) by (split; lia).
  assert (Ed : eqb d (negb d) = false) by (by destruct d). rewrite Ed, !andb_false_r. cbn [andb].
  unfold trained. rewrite (proj2 (Z.eqb_neq (c + 1) 0)) by lia. cbn. done.
Qed.

Lemma trained_end e : trained k e -> predicts e = negb d /\ trained 0 (next_entry (negb d) e).
Proof.
  intros (Hp & He & Hd & Hc & Hl). unfold predicts, next_entry, same_direction, prediction_match. rewrite Hd, Hc, Hl, Z.eqb_refl.
  split; [done|]. rewrite (proj2 (Z.eqb_neq k 0)) in Hp by lia. rewrite Hp, He, eqb_reflx.
  assert (Ed : eqb d (negb d) = false) by (by destruct d). rewrite Ed. cbn [negb andb]. split_and!; cbn; done.
Qed.

Lemma trained_used c t e : trained c e -> trained c (used_at t e).
Proof. done. Qed.
Lemma learning_used j t e : learning j e -> learning j (used_at t e).
Proof. done. Qed.

End entry.

(** *** The table *)

Definition table_ok (ip : Z) (p : LoopBranchPredictor) : Prop := (0 < m_num_ways p)%nat /\ has_slot (m_num_ways p) (gen_index ip) (m_ways p).

(** Exactly one way holds the tag of the branch. *)
Record owns (ip : Z) (w : nat) (e : entry) (p : LoopBranchPredictor) : Prop := {
  ow_table : table_ok ip p;
  ow_way : (w < m_num_ways p)%nat;
  ow_entry : entry_at (m_ways p) w (gen_index ip) = Ok e;
  ow_tag : m_tag e = gen_tag ip;
  ow_only : forall w' e', (w' < m_num_ways p)%nat -> w' <> w -> entry_at (m_ways p) w' (gen_index ip) = Ok e' -> m_tag e' <> gen_tag ip
}.
Definition fresh (ip : Z) (p : LoopBranchPredictor) : Prop :=
  forall w e, (w < m_num_ways p)%nat -> entry_at (m_ways p) w (gen_index ip) = Ok e -> m_tag e <> gen_tag ip.

(** Writing the entry of the branch keeps the ownership. *)
Lemma owns_write ip w p e' count : table_ok ip p -> (w < m_num_ways p)%nat -> m_tag e' = gen_tag ip ->
  (forall w' x, (w' < m_num_ways p)%nat -> w' <> w -> entry_at (m_ways p) w' (gen_index ip) = Ok x -> m_tag x <> gen_tag ip) ->
  exists ways, set_entry (m_ways p) w (gen_index ip) e' = Ok ways /\ owns ip w e' (mkLoop count (m_num_ways p) ways).
Proof.
  intros [H0 Hs] Hw Ht Hother. destruct (set_entry_total _ _ _ w e' Hs Hw) as (ways & E & Hl & Hk & He & Ho & _).
  exists ways. split; [done|]. split; cbn; [split; cbn; [done|by apply Hk]|done|done|done|].
  intros w' x Hw' Hne Ex. rewrite Ho in Ex by done. by apply (Hother w').
Qed.

Lemma lookup_owned ip w e p : owns ip w e p -> m_enabled e = true ->
  exists p' t, lookup ip p = Ok (mkReturn (predicts e) true 0 InvalidBranch, p') /\ owns ip w (used_at t e) p'.
Proof.
  intros [[H0 Hs] Hw He Ht Ho] Hen. unfold lookup.
  destruct (find_way_spec (fun e => m_enabled e && (m_tag e =? gen_tag ip)) _ _ _ Hs) as (o & -> & Hfound). cbn [mbind res_bind].
  destruct o as [w'|]; [|exfalso; specialize (Hfound w e Hw He); cbn in Hfound; by rewrite Hen, Ht, Z.eqb_refl in Hfound].
  destruct Hfound as (Hw' & x & Ex & Hm). apply andb_true_iff in Hm as [_ Hm%Z.eqb_eq].
  destruct (decide (w' = w)) as [->|Hne]; [|by destruct (Ho w' x Hw' Hne Ex)]. rewrite He. cbn [mbind res_bind].
  destruct (owns_write ip w p (used_at (m_lru_use_count p) e) (m_lru_use_count p +64 1) (conj H0 Hs) Hw Ht Ho) as (ways & Ew & Hown).
  unfold used_at in Ew. rewrite Ew. cbn [mbind res_bind]. eexists _, _. by split.
Qed.

Lemma lookup_any ip w e p : owns ip w e p -> exists r p' t, lookup ip p = Ok (r, p') /\ owns ip w (used_at t e) p'.
Proof.
  intros Hp. destruct (m_enabled e) eqn:Hen.
  { destruct (lookup_owned _ _ _ _ Hp Hen) as (p' & t & E & Ho). by eexists _, p', t. }
  pose proof Hp as [[H0 Hs] Hw He Ht Ho]. unfold lookup.
  destruct (find_way_spec (fun e => m_enabled e && (m_tag e =? gen_tag ip)) _ _ _ Hs) as (o & -> & Hfound). cbn [mbind res_bind].
  destruct o as [w'|]; [|eexists _, p, (m_lru e); split; [done|by destruct e]]. destruct Hfound as (Hw' & x & Ex & Hm).
  apply andb_true_iff in Hm as [Hx Hm%Z.eqb_eq]. destruct (decide (w' = w)) as [->|Hne]; [congruence|by destruct (Ho w' x Hw' Hne Ex)].
Qed.

Lemma lookup_fresh ip p : table_ok ip p -> fresh ip p -> exists r, lookup ip p = Ok (r, p).
Proof.
  intros [H0 Hs] Hf. unfold lookup.
  destruct (find_way_spec (fun e => m_enabled e && (m_tag e =? gen_tag ip)) _ _ _ Hs) as (o & -> & Hfound). cbn [mbind res_bind].
  destruct o as [w|]; [|by eexists]. destruct Hfound as (Hw & x & Ex & [_ Hm%Z.eqb_eq]%andb_true_iff). by destruct (Hf w x Hw Ex).
Qed.

Lemma update_owned ip w e p a : owns ip w e p -> exists p' t, update a ip p = Ok p' /\ owns ip w (used_at t (next_entry a e)) p'.
Proof.
  intros [[H0 Hs] Hw He Ht Ho]. unfold update.
  destruct (match_or_lru_spec (fun e => m_tag e =? gen_tag ip) m_lru (m_ways p) _ _ (seq 0 (m_num_ways p)) 0%nat Hs) as (w' & found & -> & Hw' & Hf);
    [apply Forall_forall; intros x Hx%elem_of_seq; lia|done|]. cbn [mbind res_bind]. destruct found.
  - destruct Hf as (x & Ex & Hm%Z.eqb_eq). destruct (decide (w' = w)) as [->|Hne]; [|by destruct (Ho w' x Hw' Hne Ex)]. rewrite He. cbn [mbind res_bind].
    assert (Hn : m_tag (next_entry a e) = gen_tag ip).
    { unfold next_entry. destruct (same_direction a e) as [[? ?] ?]. rewrite <- Ht. by repeat case_match. }
    destruct (owns_write ip w p (used_at (m_lru_use_count p) (next_entry a e)) (m_lru_use_count p +64 1) (conj H0 Hs) Hw Hn Ho) as (ways & -> & Hown).
    eexists _, _. by split.
  - exfalso. rewrite Forall_forall in Hf. specialize (Hf w ltac:(apply elem_of_seq; lia) e He). cbn in Hf. by rewrite Ht, Z.eqb_refl in Hf.
Qed.

Lemma update_fresh ip p a : table_ok ip p -> fresh ip p ->
  exists p' w t e, update a ip p = Ok p' /\ owns ip w (used_at t (allocated (gen_tag ip) a e)) p'.
Proof.
  intros [H0 Hs] Hf0. unfold update.
  destruct (match_or_lru_spec (fun e => m_tag e =? gen_tag ip) m_lru (m_ways p) _ _ (seq 0 (m_num_ways p)) 0%nat Hs) as (w & found & -> & Hw & Hf);
    [apply Forall_forall; intros x Hx%elem_of_seq; lia|done|]. cbn [mbind res_bind]. destruct found.
  - exfalso. destruct Hf as (x & Ex & Hm%Z.eqb_eq). by apply (Hf0 w x).
  - destruct (entry_at_total _ _ _ w Hs Hw) as (l & e & _ & _ & ->). cbn [mbind res_bind].
    destruct (owns_write ip w p (used_at (m_lru_use_count p) (allocated (gen_tag ip) a e)) (m_lru_use_count p +64 1) (conj H0 Hs) Hw eq_refl)
      as (ways & -> & Hown); [intros w' x Hw' _ Ex; by apply (Hf0 w' x)|]. eexists _, w, _, e. by split.
Qed.

(** *** Runs of one branch *)

(** A branch is looked up and then updated with its outcome; the result says for each outcome
    whether the look-up hit with the right prediction. *)
Fixpoint run (ip : Z) (outcomes : list bool) (p : LoopBranchPredictor) : res (list bool * LoopBranchPredictor) :=
  match outcomes with
  | [] => Ok ([], p)
  | a :: outcomes =>
      '(r, p) ← lookup ip p;
      p ← update a ip p;
      '(h, p) ← run ip outcomes p;
      Ok ((hit r && eqb (prediction r) a) :: h, p)
  end.

Lemma run_app ip l1 l2 p h1 p1 h2 p2 : run ip l1 p = Ok (h1, p1) -> run ip l2 p1 = Ok (h2, p2) -> run ip (l1 ++ l2) p = Ok (h1 ++ h2, p2).
Proof.
  revert p h1. induction l1 as [|a l1 IH]; intros p h1 H1 H2; [by injection H1 as <- <-|]. cbn [run app] in *.
  destruct (lookup ip p) as [[r q]|]; [|done]. cbn [mbind res_bind] in *. destruct (update a ip q) as [q'|]; [|done]. cbn [mbind res_bind] in *.
  destruct (run ip l1 q') as [[h q'']|] eqn:E; [|done]. cbn [mbind res_bind] in H1. injection H1 as <- <-. by rewrite (IH _ _ E H2).
Qed.

(** A branch that is taken [k] times and then not, or the other way round. *)
Definition one_loop (d : bool) (k : nat) : list bool := replicate k d ++ [negb d].

Lemma learn_loop ip w d k m : forall j e p, 1 <= j -> j + Z.of_nat m = k -> k < 2 ^ 32 - 1 -> owns ip w e p -> learning d j e ->
  exists h p' e', run ip (one_loop d m) p = Ok (h, p') /\ length h = S m /\ owns ip w e' p' /\ trained d k 0 e'.
Proof.
  induction m as [|m IH]; intros j e p Hj Hm Hk Ho Hl; destruct (lookup_any _ _ _ _ Ho) as (r & p1 & t & El & Ho1);
    cbn [one_loop replicate app run]; rewrite El; cbn [mbind res_bind].
  - destruct (update_owned _ _ _ _ (negb d) Ho1) as (p2 & t2 & -> & Ho2). cbn [mbind res_bind].
    eexists _, p2, _. split; [done|]. split; [done|]. split; [exact Ho2|]. apply trained_used, learning_end, learning_used.
    by replace k with j by lia.
  - destruct (update_owned _ _ _ _ d Ho1) as (p2 & t2 & -> & Ho2). cbn [mbind res_bind].
    destruct (IH (j + 1) _ p2 ltac:(lia) ltac:(lia) Hk Ho2) as (h & p' & e' & E & Hh & Ho' & Ht').
    { apply learning_used, (learning_step d k); [lia|by apply learning_used|lia]. }
    unfold one_loop in E. rewrite E. cbn [mbind res_bind]. eexists _, p', e'. split; [done|]. cbn. by rewrite Hh.
Qed.

Lemma trained_loop ip w d k m : forall c e p, 0 <= c -> c + Z.of_nat m = k -> 1 <= k < 2 ^ 32 - 1 -> owns ip w e p -> trained d k c e ->
  exists p' e', run ip (one_loop d m) p = Ok (replicate (S m) true, p') /\ owns ip w e' p' /\ trained d k 0 e'.
Proof.
  induction m as [|m IH]; intros c e p Hc Hm Hk Ho Ht; destruct (lookup_owned _ _ _ _ Ho) as (p1 & t & El & Ho1); try apply Ht;
    cbn [one_loop replicate app run]; rewrite El; cbn [mbind res_bind].
  - replace c with k in Ht by lia. destruct (trained_end d k Hk _ Ht) as [Ep Ht']. rewrite Ep.
    destruct (update_owned _ _ _ _ (negb d) Ho1) as (p2 & t2 & -> & Ho2). cbn [mbind res_bind prediction hit]. rewrite eqb_reflx.
    eexists p2, _. split; [done|]. split; [exact Ho2|]. by apply trained_used, (trained_end d k Hk), trained_used.
  - destruct (trained_step d k Hk _ _ Ht ltac:(lia)) as [Ep Ht']. rewrite Ep.
    destruct (update_owned _ _ _ _ d Ho1) as (p2 & t2 & -> & Ho2). cbn [mbind res_bind prediction hit]. rewrite eqb_reflx.
    destruct (IH (c + 1) _ p2 ltac:(lia) ltac:(lia) Hk Ho2) as (p' & e' & E & Ho' & Ht2).
    { apply trained_used, (trained_step d k Hk); [by apply trained_used|lia]. }
    unfold one_loop in E. rewrite E. by eexists p', e'.
Qed.

Lemma trained_loops ip w d k n : forall e p, (1 <= k)%nat -> Z.of_nat k < 2 ^ 32 - 1 -> owns ip w e p -> trained d (Z.of_nat k) 0 e ->
  exists p', run ip (concat (replicate n (one_loop d k))) p = Ok (replicate (n * S k) true, p').
Proof.
  induction n as [|n IH]; intros e p Hk1 Hk Ho Ht; [by exists p|]. cbn [replicate concat].
  destruct (trained_loop ip w d (Z.of_nat k) k 0 e p ltac:(lia) ltac:(lia) ltac:(lia) Ho Ht) as (p1 & e1 & E1 & Ho1 & Ht1).
  destruct (IH e1 p1 Hk1 Hk Ho1 Ht1) as (p2 & E2). exists p2. rewrite (run_app _ _ _ _ _ _ _ _ E1 E2). by rewrite <- replicate_add.
Qed.

(** C29: The loop predictor learns loops: for a branch that no way of the table holds and that
    repeats a loop of a constant trip count [k] ([k] outcomes in one direction, then one in
    the other), after one execution of the loop every look-up hits and predicts the outcome
    correctly, the exit included, for as many executions as follow; no call faults. *)
Theorem loop_predictor_learns ip d k n p :
  (1 <= k)%nat -> Z.of_nat k < 2 ^ 32 - 1 -> table_ok ip p -> fresh ip p ->
  exists h p', run ip (concat (replicate (S n) (one_loop d k))) p = Ok (h, p') /\ drop (S k) h = replicate (n * S k) true.
Proof.
  intros Hk1 Hk Ht Hf. destruct k as [|k]; [lia|].
  assert (Hfirst : exists h w e p1, run ip (one_loop d (S k)) p = Ok (h, p1) /\ length h = S (S k) /\ owns ip w e p1 /\ trained d (Z.of_nat (S k)) 0 e).
  { destruct (lookup_fresh ip p Ht Hf) as [r Er]. destruct (update_fresh ip p d Ht Hf) as (p1 & w & t & e & Eu & Ho).
    destruct (learn_loop ip w d (Z.of_nat (S k)) k 1 _ p1 ltac:(lia) ltac:(lia) ltac:(lia) Ho) as (h & p2 & e2 & E & Hh & Ho2 & Ht2).
    { apply learning_used, learning_allocated. }
    unfold one_loop in E |- *. cbn [replicate app run]. rewrite Er. cbn [mbind res_bind]. rewrite Eu. cbn [mbind res_bind]. rewrite E.
    cbn [mbind res_bind]. eexists _, w, e2, p2. split; [done|]. cbn. by rewrite Hh. }
  destruct Hfirst as (h & w & e & p1 & E1 & Hh & Ho & Htr). destruct (trained_loops ip w d (S k) n e p1 Hk1 Hk Ho Htr) as (p2 & E2).
  exists (h ++ replicate (n * S (S k)) true), p2. cbn [replicate concat]. rewrite (run_app _ _ _ _ _ _ _ _ E1 E2). split; [done|].
  by rewrite <- Hh, drop_app_length.
Qed.

(** The predictor of the Pentium M, empty, and a branch whose tag is not zero. *)
Definition empty_table : LoopBranchPredictor := match Loop.new 128 2 with Ok p => p | Err _ => mkLoop 0 0 [] end.

Lemma loop_predictor_learns_witness :
  exists h p', run 0x401234 (concat (replicate 4 (one_loop true 3))) empty_table = Ok (h, p') /\ drop 4 h = replicate 12 true.
Proof.
  apply (loop_predictor_learns 0x401234 true 3 3 empty_table); [lia|lia| |].
  - split; [vm_compute; lia|]. split; [reflexivity|]. repeat constructor; cbn; lia.
  - intros w e Hw E. apply entry_at_Ok in E as (l & Hl & He). cbn in Hl.
    apply (lookup_replicate 2 (replicate 64 _)) in Hl as [-> _]. apply lookup_replicate in He as [-> _]. vm_compute. discriminate.
Defined.

(** A replaced entry keeps the enabled bit of the branch it belonged to: three branches that
    share a slot, of which the third is predicted although it was seen once. *)
Theorem loop_entry_inherits_enabled :
  match (p ← update true 0x401234 empty_table; p ← update false 0x401234 p;
         p ← update true 0x501634 p; p ← update true 0x601a34 p; lookup 0x601a34 p) with
  | Ok (r, _) => hit r = true
  | Err _ => False
  end.
Proof. vm_compute. reflexivity. Qed.

End LoopProps.

(** ** Target buffers *)

Module TargetProps.

Record ibtb_ok (b : Ibtb.IndirectBranchTargetBuffer) : Prop := {
  ib_length : length (Ibtb.m_table b) = Z.to_nat (Ibtb.m_num_entries b);
  ib_lru : (Ibtb.lru b < Z.to_nat (Ibtb.m_num_entries b))%nat
}.

(** The first entry of an address, in terms of any entry: they all have one target. *)
Lemma filter_agree (P : Z * Z -> Prop) `{!forall x, Decision (P x)} (l : list (Z * Z)) t :
  (exists x, x ∈ l /\ P x) -> (forall x, x ∈ l -> P x -> snd x = t) ->
  exists e rest, filter P l = e :: rest /\ snd e = t.
Proof.
  intros (x & Hx & HP) Hall. destruct (filter P l) as [|e rest] eqn:E.
  - assert (Hin : x ∈ filter P l) by (by apply list_elem_of_filter). rewrite E in Hin. by apply not_elem_of_nil in Hin.
  - exists e, rest. split; [done|]. assert (Hin : e ∈ filter P l) by (rewrite E; left). apply list_elem_of_filter in Hin as [? ?]. auto.
Qed.

Lemma ibtb_update_spec ip target b : ibtb_ok b ->
  exists b', Ibtb.update true ip target b = Ok b' /\ ibtb_ok b' /\ Ibtb.predict ip target b' = true.
Proof.
  intros [Hl Hr]. unfold Ibtb.update. set (takes := fun e : Z * Z => (fst e =? u32 ip) || (fst e =? 0)).
  assert (Hpred : forall h r t, (exists x, x ∈ t /\ fst x = u32 ip) -> (forall x, x ∈ t -> fst x = u32 ip -> snd x = target) ->
    Ibtb.predict ip target (Ibtb.mkIbtb (Ibtb.m_num_entries b) h r t) = true).
  { intros h r t H1 H2. unfold Ibtb.predict. cbn [Ibtb.m_table].
    destruct (filter_agree (fun e : Z * Z => fst e = u32 ip) t target H1 H2) as (e & rest & -> & ->). apply Z.eqb_refl. }
  destruct (existsb takes (Ibtb.m_table b)) eqn:Ex.
  - eexists. split; [done|]. split; [split; cbn; [by rewrite length_map|done]|]. apply existsb_exists in Ex as (x & Hx & Htx).
    apply Hpred; [exists (u32 ip, target); split; [|done]; apply list_elem_of_In, in_map_iff; exists x; split; [|done]; unfold takes in Htx; by rewrite Htx|].
    intros y Hy Hfy. apply list_elem_of_In, in_map_iff in Hy as (z & <- & _). destruct ((fst z =? u32 ip) || (fst z =? 0)) eqn:Ez; [done|].
    rewrite Hfy, Z.eqb_refl in Ez. done.
  - rewrite wr_lt by lia. cbn [mbind res_bind]. rewrite umod_Ok by lia. cbn [mbind res_bind]. eexists. split; [done|].
    pose proof (Z.mod_pos_bound (Z.of_nat (Ibtb.lru b) + 1) (Ibtb.m_num_entries b) ltac:(lia)).
    split; [split; cbn; [by rewrite length_insert|lia]|].
    assert (Hno : forall y, y ∈ Ibtb.m_table b -> fst y <> u32 ip).
    { intros y Hy Hfy. assert (existsb takes (Ibtb.m_table b) = true) as Hc; [|congruence]. apply existsb_exists. exists y.
      split; [by apply list_elem_of_In|]. unfold takes. by rewrite Hfy, Z.eqb_refl. }
    apply Hpred; [exists (u32 ip, target); split; [|done]; apply list_elem_of_lookup; exists (Ibtb.lru b); apply list_lookup_insert_eq; lia|].
    intros y [i Hi]%list_elem_of_lookup Hfy. destruct (decide (i = Ibtb.lru b)) as [->|Hne].
    + rewrite list_lookup_insert_eq in Hi by lia. by injection Hi as <-.
    + rewrite list_lookup_insert_ne in Hi by done. apply list_elem_of_lookup_2 in Hi. by destruct (Hno _ Hi).
Qed.

Lemma ibtb_update_total actual ip target b : ibtb_ok b -> exists b', Ibtb.update actual ip target b = Ok b' /\ ibtb_ok b'.
Proof.
  intros Hb. destruct actual; [destruct (ibtb_update_spec ip target b Hb) as (b' & E & Hb' & _); eauto|].
  eexists. split; [done|]. by destruct Hb.
Qed.

(** The target buffer predicts the target of the last taken execution of a branch. *)
Theorem ibtb_roundtrip ip target b :
  ibtb_ok b -> exists b', Ibtb.update true ip target b = Ok b' /\ Ibtb.predict ip target b' = true.
Proof. intros Hb. destruct (ibtb_update_spec ip target b Hb) as (b' & ? & _ & ?). eauto. Qed.

Lemma land_mask_range x n : 0 <= n -> 0 <= Z.land x (2 ^ n - 1) < 2 ^ n.
Proof.
  intros Hn. replace (2 ^ n - 1) with (Z.ones n) by (rewrite Z.ones_equiv; lia). rewrite Z.land_ones by done.
  apply Z.mod_pos_bound. lia.
Qed.

End TargetProps.

(** ** The Pentium M predictor *)

Module PentiumProps.
Import PentiumM TargetProps.

(** A two-bit counter, and a one-bit one. *)
Definition counter_ok (n : nat) (x : Z) : Prop := - Saturating.pow (n - 1) <= x <= Saturating.pow (n - 1) - 1.

Lemma saturating_update n a x : (1 <= n <= 8)%nat -> counter_ok n x -> counter_ok n (Saturating.update n a x).
Proof.
  intros Hn. unfold counter_ok, Saturating.update, Saturating.increment, Saturating.decrement. intros Hx.
  assert (Hp : 1 <= Saturating.pow (n - 1) <= 128).
  { unfold Saturating.pow. change 128 with (2 ^ 7). split; [change 1 with (2 ^ 0)|]; apply Z.pow_le_mono_r; lia. }
  destruct a; case_match; try done; rewrite swrap_small by lia; lia.
Qed.
Lemma saturating_reset n a : counter_ok n (Saturating.reset n a).
Proof.
  unfold counter_ok, Saturating.reset. assert (0 < Saturating.pow (n - 1)) by (unfold Saturating.pow; apply Z.pow_pos_nonneg; lia).
  destruct a; lia.
Qed.

Lemma has_slot_le {E} n i j (ways : list (list E)) : (i <= j)%nat -> has_slot n j ways -> has_slot n i ways.
Proof. intros Hij [Hn Hl]. split; [done|]. eapply Forall_impl; [exact Hl|]. cbn. lia. Qed.

(** *** The parts *)

Record global_ok (g : Global.GlobalPredictor) : Prop := {
  go_slots : has_slot (Global.m_num_ways g) 511 (Global.m_ways g);
  go_ways : (0 < Global.m_num_ways g)%nat;
  go_counters : Forall (Forall (fun e => counter_ok 2 (Global.m_predictor e))) (Global.m_ways g)
}.
Record btb_ok (b : Btb.PentiumMBranchTargetBuffer) : Prop := {
  bo_slots : has_slot (Btb.m_num_ways b) 511 (Btb.m_ways b);
  bo_ways : (0 < Btb.m_num_ways b)%nat
}.
Record bimodal_ok (b : Bimodal.SimpleBimodalTable) : Prop := {
  bi_mask : Bimodal.m_mask b = 2 ^ 12 - 1;
  bi_length : length (Bimodal.m_table b) = Z.to_nat (2 ^ 12);
  bi_counters : Forall (counter_ok 2) (Bimodal.m_table b)
}.
Record loop_ok (p : Loop.LoopBranchPredictor) : Prop := {
  lo_slots : has_slot (Loop.m_num_ways p) 63 (Loop.m_ways p);
  lo_ways : (0 < Loop.m_num_ways p)%nat
}.

Lemma ways_below n : Forall (fun w => (w < n)%nat) (seq 0 n).
Proof. apply Forall_forall. intros x Hx%elem_of_seq. lia. Qed.

Lemma global_slots ip pir g : global_ok g -> has_slot (Global.m_num_ways g) (Global.gen_index ip pir) (Global.m_ways g).
Proof.
  intros [Hs _ _]. eapply has_slot_le; [|exact Hs]. unfold Global.gen_index.
  pose proof (land_mask_range (Z.lxor (Z.shiftr ip 4) (Z.shiftr pir 6)) 9 ltac:(lia)) as Hr. change (2 ^ 9 - 1) with 0x1FF in Hr. lia.
Qed.

Lemma global_counter g w i e : global_ok g -> entry_at (Global.m_ways g) w i = Ok e -> counter_ok 2 (Global.m_predictor e).
Proof.
  intros [_ _ Hc] (l & Hl & He)%entry_at_Ok.
  exact (proj1 (Forall_lookup _ _) (proj1 (Forall_lookup _ _) Hc _ _ Hl) _ _ He).
Qed.

(** A write of one entry keeps the invariant. *)
Lemma global_write ip pir g w e n : global_ok g -> (w < Global.m_num_ways g)%nat -> counter_ok 2 (Global.m_predictor e) ->
  exists ways, set_entry (Global.m_ways g) w (Global.gen_index ip pir) e = Ok ways /\ global_ok (Global.mkGlobal n (Global.m_num_ways g) ways).
Proof.
  intros Hg Hw He. destruct (set_entry_total _ _ _ w e (global_slots ip pir g Hg) Hw) as (ways & E & _ & Hk & _ & _ & HP).
  exists ways. split; [done|]. destruct Hg as [Hs H0 Hc]. split; cbn; [by apply Hk|done|by apply HP].
Qed.

Lemma global_lookup_total ip pir g : global_ok g -> exists r, Global.lookup ip pir g = Ok r.
Proof.
  intros Hg. unfold Global.lookup. destruct (find_way_spec (Global.matches (Global.gen_tag ip pir)) _ _ _ (global_slots ip pir g Hg)) as (o & -> & Ho).
  cbn [mbind res_bind]. destruct o as [w|]; [|by eexists]. destruct Ho as (_ & e & -> & _). by eexists.
Qed.

Lemma global_update_total a ip pir g : global_ok g -> exists g', Global.update a ip pir g = Ok g' /\ global_ok g'.
Proof.
  intros Hg. unfold Global.update. pose proof (go_ways _ Hg) as H0.
  destruct (match_or_lru_spec (Global.matches (Global.gen_tag ip pir)) Global.m_lru _ _ _ _ 0%nat (global_slots ip pir g Hg) (ways_below _) H0)
    as (w & found & -> & Hw & _). cbn [mbind res_bind].
  destruct (entry_at_total _ _ _ w (global_slots ip pir g Hg) Hw) as (_ & e & _ & _ & Ee). rewrite Ee. cbn [mbind res_bind].
  edestruct (global_write ip pir g w) as (ways & -> & Hg'); [done|done| |cbn [mbind res_bind]; eexists; split; [done|exact Hg']].
  destruct found; cbn; [apply saturating_update; [lia|by eapply global_counter]|apply saturating_reset].
Qed.

Lemma global_evict_total ip pir g : global_ok g -> exists g', Global.evict ip pir g = Ok g' /\ global_ok g'.
Proof.
  intros Hg. unfold Global.evict. destruct (find_way_spec (Global.matches (Global.gen_tag ip pir)) _ _ _ (global_slots ip pir g Hg)) as (o & -> & Ho).
  cbn [mbind res_bind]. destruct o as [w|]; [|by eexists]. destruct Ho as (Hw & e & Ee & _). rewrite Ee. cbn [mbind res_bind].
  destruct (global_write ip pir g w (Global.mkEntry false (Global.m_tag e) (Global.m_predictor e) (Global.m_lru e)) (Global.m_lru_use_count g) Hg Hw)
    as (ways & -> & Hg'); [exact (global_counter _ _ _ _ Hg Ee)|]. by eexists.
Qed.

Lemma btb_slots ip b : btb_ok b -> has_slot (Btb.m_num_ways b) (Btb.ip_to_index ip) (Btb.m_ways b).
Proof.
  intros [Hs _]. eapply has_slot_le; [|exact Hs]. unfold Btb.ip_to_index.
  pose proof (land_mask_range (Z.shiftr ip 4) 9 ltac:(lia)) as Hr. change (2 ^ 9 - 1) with 0x1ff in Hr. lia.
Qed.

Lemma btb_lookup_total ip b : btb_ok b -> exists r, Btb.lookup ip b = Ok r.
Proof.
  intros Hb. unfold Btb.lookup. destruct (find_way_spec (fun e => Btb.m_tag_offset e =? Btb.ip_to_tagoff ip) _ _ _ (btb_slots ip b Hb)) as (o & -> & _).
  by eexists.
Qed.

Lemma btb_update_total ip b : btb_ok b -> exists b', Btb.update ip b = Ok b' /\ btb_ok b'.
Proof.
  intros Hb. unfold Btb.update. pose proof (bo_ways _ Hb) as H0.
  destruct (match_or_lru_spec (fun e => Btb.m_tag_offset e =? Btb.ip_to_tagoff ip) Btb.m_plru _ _ _ _ 0%nat (btb_slots ip b Hb) (ways_below _) H0)
    as (w & found & -> & Hw & _). cbn [mbind res_bind].
  destruct (set_entry_total _ _ _ w (Btb.mkEntry (Btb.ip_to_tagoff ip) (Btb.m_lru_use_count b)) (btb_slots ip b Hb) Hw) as (ways & -> & _ & Hk & _).
  eexists. split; [done|]. split; cbn; [apply Hk, Hb|done].
Qed.

Lemma bimodal_slot ip b : bimodal_ok b -> exists x,
  Bimodal.m_table b !! Z.to_nat (u32 (Z.land ip (Bimodal.m_mask b))) = Some x /\ counter_ok 2 x.
Proof.
  intros [Hm Hl Hc]. rewrite Hm. pose proof (land_mask_range ip 12 ltac:(lia)) as Hr.
  rewrite wrap_small by (split; [lia|]; eapply Z.lt_trans; [apply Hr|lia]).
  destruct (lookup_lt_is_Some_2 (Bimodal.m_table b) (Z.to_nat (Z.land ip (2 ^ 12 - 1))) ltac:(lia)) as [x Hx].
  exists x. split; [done|]. exact (proj1 (Forall_lookup _ _) Hc _ _ Hx).
Qed.

Lemma bimodal_predict_total ip b : bimodal_ok b -> exists r, Bimodal.predict ip b = Ok r.
Proof. intros Hb. destruct (bimodal_slot ip b Hb) as (x & Hx & _). unfold Bimodal.predict. rewrite (proj2 (rd_Ok _ _ _) Hx). by eexists. Qed.

Lemma bimodal_update_total a ip b : bimodal_ok b -> exists b', Bimodal.update a ip b = Ok b' /\ bimodal_ok b'.
Proof.
  intros Hb. destruct (bimodal_slot ip b Hb) as (x & Hx & Hcx). unfold Bimodal.update. rewrite (proj2 (rd_Ok _ _ _) Hx). cbn [mbind res_bind].
  rewrite wr_lt by (by eapply lookup_lt_Some). eexists. split; [done|]. destruct Hb as [Hm Hl Hc].
  split; cbn [Bimodal.m_mask Bimodal.m_table]; [done|by rewrite length_insert|]. apply Forall_insert; [done|].
  by apply (saturating_update 2 a x ltac:(lia)).
Qed.

Lemma loop_slots ip p : loop_ok p -> LoopProps.table_ok ip p.
Proof.
  intros [Hs H0]. split; [done|]. eapply has_slot_le; [|exact Hs]. unfold Loop.gen_index.
  pose proof (land_mask_range (Z.shiftr ip 4) 6 ltac:(lia)) as Hr. change (2 ^ 6 - 1) with 0x3F in Hr. lia.
Qed.

Lemma loop_write ip p w e n : loop_ok p -> (w < Loop.m_num_ways p)%nat ->
  exists ways, set_entry (Loop.m_ways p) w (Loop.gen_index ip) e = Ok ways /\ loop_ok (Loop.mkLoop n (Loop.m_num_ways p) ways).
Proof.
  intros Hp Hw. destruct (loop_slots ip p Hp) as [H0 Hs]. destruct (set_entry_total _ _ _ w e Hs Hw) as (ways & E & _ & Hk & _).
  exists ways. split; [done|]. split; cbn; [apply Hk, Hp|done].
Qed.

Lemma loop_lookup_total ip p : loop_ok p -> exists r p', Loop.lookup ip p = Ok (r, p') /\ loop_ok p'.
Proof.
  intros Hp. destruct (loop_slots ip p Hp) as [H0 Hs]. unfold Loop.lookup.
  destruct (find_way_spec (fun e => Loop.m_enabled e && (Loop.m_tag e =? Loop.gen_tag ip)) _ _ _ Hs) as (o & -> & Ho). cbn [mbind res_bind].
  destruct o as [w|]; [|by eexists _, p]. destruct Ho as (Hw & e & -> & _). cbn [mbind res_bind].
  edestruct (loop_write ip p w) as (ways & -> & Hp'); [done|done|]. cbn [mbind res_bind]. eexists _, _. split; [done|exact Hp'].
Qed.

Lemma loop_update_total a ip p : loop_ok p -> exists p', Loop.update a ip p = Ok p' /\ loop_ok p'.
Proof.
  intros Hp. destruct (loop_slots ip p Hp) as [H0 Hs]. unfold Loop.update.
  destruct (match_or_lru_spec (fun e => Loop.m_tag e =? Loop.gen_tag ip) Loop.m_lru _ _ _ _ 0%nat Hs (ways_below _) H0) as (w & found & -> & Hw & _).
  cbn [mbind res_bind]. destruct (entry_at_total _ _ _ w Hs Hw) as (_ & e & _ & _ & ->). cbn [mbind res_bind].
  edestruct (loop_write ip p w) as (ways & -> & Hp'); [done|done|]. cbn [mbind res_bind]. eexists. split; [done|exact Hp'].
Qed.

(** *** The whole predictor *)

Record ok (p : PentiumMBranchPredictor) : Prop := {
  ok_global : global_ok (m_global_predictor p);
  ok_btb : btb_ok (m_btb p);
  ok_bimodal : bimodal_ok (m_bimodal_table p);
  ok_loop : loop_ok (m_lpb p);
  ok_ibtb : ibtb_ok (ibtb p)
}.

Lemma predict_total ip target p : ok p -> exists r p', predict ip target p = Ok (r, p') /\ ok p' /\ base p' = base p.
Proof.
  intros [Hg Hb Hm Hl Hi]. unfold predict. destruct (global_lookup_total ip (m_pir p) _ Hg) as [g ->]. cbn [mbind res_bind].
  destruct (btb_lookup_total ip _ Hb) as [b ->]. cbn [mbind res_bind]. destruct (loop_lookup_total ip _ Hl) as (r & l & -> & Hl'). cbn [mbind res_bind].
  destruct (bimodal_predict_total ip _ Hm) as [m ->]. cbn [mbind res_bind]. eexists _, _. split; [done|]. split; [|done]. by split.
Qed.

Lemma pentium_update_total predicted actual ip target p : ok p ->
  exists p', update predicted actual ip target p = Ok p' /\ ok p' /\ base p' = updateCounters predicted actual (base p).
Proof.
  intros [Hg Hb Hm Hl Hi]. unfold update. destruct (ibtb_update_total actual ip target _ Hi) as (i & -> & Hi'). cbn [mbind res_bind].
  destruct (btb_update_total ip _ Hb) as (b & -> & Hb'). cbn [mbind res_bind].
  destruct (loop_update_total actual ip _ Hl) as (l & -> & Hl'). cbn [mbind res_bind].
  destruct (bimodal_update_total actual ip _ Hm) as (m & Em & Hm').
  destruct (global_update_total actual ip (m_pir p) _ Hg) as (g & Eg & Hg'), (global_evict_total ip (m_pir p) _ Hg) as (g2 & Eg2 & Hg2).
  rewrite Em, Eg, Eg2. destruct (negb (m_last_gp_hit p) && _); cbn [mbind res_bind]; repeat (case_match; cbn [mbind res_bind]);
    (eexists; split; [done|]; split; [by split|done]).
Qed.

(** A branch is its address, its target and its outcome; the result says which predictions
    were right. *)
Fixpoint execute (branches : list (Z * Z * bool)) (p : PentiumMBranchPredictor) : res (list bool * PentiumMBranchPredictor) :=
  match branches with
  | [] => Ok ([], p)
  | (ip, target, actual) :: branches =>
      '(r, p) ← predict ip target p;
      p ← update r actual ip target p;
      '(h, p) ← execute branches p;
      Ok (eqb r actual :: h, p)
  end.
Definition hits (h : list bool) : Z := Z.of_nat (length (filter (fun b => b = true) h)).

Lemma updateCounters_count predicted actual c :
  0 <= m_correct_predictions c -> 0 <= m_incorrect_predictions c -> m_correct_predictions c + m_incorrect_predictions c + 1 < 2 ^ 64 ->
  m_correct_predictions (updateCounters predicted actual c) = m_correct_predictions c + Z.b2z (eqb predicted actual) /\
  m_incorrect_predictions (updateCounters predicted actual c) = m_incorrect_predictions c + Z.b2z (negb (eqb predicted actual)).
Proof. intros H1 H2 H. unfold updateCounters. destruct (eqb predicted actual); cbn; rewrite wrap_small by (split; lia); lia. Qed.

Lemma execute_spec branches : forall p, ok p -> 0 <= m_correct_predictions (base p) -> 0 <= m_incorrect_predictions (base p) ->
  m_correct_predictions (base p) + m_incorrect_predictions (base p) + Z.of_nat (length branches) < 2 ^ 64 ->
  exists h p', execute branches p = Ok (h, p') /\ ok p' /\ length h = length branches /\
    m_correct_predictions (base p') = m_correct_predictions (base p) + hits h /\
    m_correct_predictions (base p') + m_incorrect_predictions (base p') =
      m_correct_predictions (base p) + m_incorrect_predictions (base p) + Z.of_nat (length branches).
Proof.
  induction branches as [|[[ip target] actual] l IH]; intros p Hp H1 H2 H.
  { exists [], p. unfold hits. cbn. split_and!; [done|done|done|lia|lia]. }
  cbn [length] in H. destruct (predict_total ip target p Hp) as (r & p1 & E1 & Hp1 & Eb1).
  destruct (pentium_update_total r actual ip target p1 Hp1) as (p2 & E2 & Hp2 & Eb2). rewrite Eb1 in Eb2.
  destruct (updateCounters_count r actual (base p) H1 H2 ltac:(lia)) as [C1 C2]. rewrite <- Eb2 in C1, C2.
  pose proof (Z.b2z_bit0 (eqb r actual)). assert (Hsum : Z.b2z (eqb r actual) + Z.b2z (negb (eqb r actual)) = 1) by (by destruct (eqb r actual)).
  assert (0 <= Z.b2z (eqb r actual) /\ 0 <= Z.b2z (negb (eqb r actual))) as [B1 B2] by (destruct (eqb r actual); cbn; lia).
  destruct (IH p2 Hp2 ltac:(lia) ltac:(lia) ltac:(lia)) as (h & p3 & E3 & Hp3 & Hl & D1 & D2).
  exists (eqb r actual :: h), p3. cbn [execute]. rewrite E1. cbn [mbind res_bind]. rewrite E2. cbn [mbind res_bind]. rewrite E3.
  assert (Hh : hits (eqb r actual :: h) = Z.b2z (eqb r actual) + hits h).
  { unfold hits. rewrite list.filter_cons. destruct (eqb r actual); cbn [Z.b2z]; [rewrite decide_True by done; cbn [length]; lia|].
    rewrite decide_False by done. lia. }
  split_and!; [done|done|cbn; lia|lia|cbn [length]; lia].
Qed.

Lemma replicate_slots {E} n m i (e : E) : (i < m)%nat -> has_slot n i (replicate n (replicate m e)).
Proof. intros H. split; [apply length_replicate|]. apply Forall_replicate. by rewrite length_replicate. Qed.

Lemma bimodal_new_ok : bimodal_ok (Bimodal.new 4096).
Proof.
  split; [reflexivity|cbn [Bimodal.m_table Bimodal.new]; by rewrite length_replicate|].
  cbn [Bimodal.m_table Bimodal.new]. apply Forall_replicate, saturating_reset.
Qed.

Lemma new_ok ways entries junk : (0 < ways)%nat -> 512 <= entries ->
  exists p, PentiumM.new ways entries junk = Ok p /\ ok p /\ base p = resetCounters.
Proof.
  intros Hw He. unfold PentiumM.new. cbn [Global.new Loop.new check Z.eqb negb mbind res_bind]. eexists. split; [done|]. split; [|done].
  split; cbn [m_global_predictor m_btb m_bimodal_table m_lpb ibtb].
  - split; cbn [Global.m_num_ways Global.m_ways]; [apply replicate_slots; change (Z.to_nat (2048 / 4)) with 512%nat; lia|lia|]. do 2 apply Forall_replicate. cbn. split; done.
  - split; cbn [Btb.m_num_ways Btb.m_ways Btb.initialize]; [apply replicate_slots; lia|done].
  - apply bimodal_new_ok.
  - split; cbn [Loop.m_num_ways Loop.m_ways]; [apply replicate_slots; change (Z.to_nat (128 / 2)) with 64%nat; lia|lia].
  - split; cbn; [by rewrite length_replicate|lia].
Qed.

(** C30: The Pentium M predictor is safe on every program: from the constructor with a target
    buffer of at least 512 entries per way, any sequence of branches is predicted and
    learned without an access outside its tables, all two-bit counters stay in their range,
    and the two statistics count exactly the right and the wrong predictions. *)
Theorem pentium_m_runs ways entries junk branches :
  (0 < ways)%nat -> 512 <= entries -> Z.of_nat (length branches) < 2 ^ 64 ->
  exists p0 h p, PentiumM.new ways entries junk = Ok p0 /\ execute branches p0 = Ok (h, p) /\ ok p /\
    length h = length branches /\ m_correct_predictions (base p) = hits h /\
    m_correct_predictions (base p) + m_incorrect_predictions (base p) = Z.of_nat (length branches).
Proof.
  intros Hw He Hl. destruct (new_ok ways entries junk Hw He) as (p0 & E0 & Hp0 & Eb).
  destruct (execute_spec branches p0 Hp0) as (h & p & E & Hp & Hh & H1 & H2); [rewrite Eb; cbn; lia..|].
  rewrite Eb in H1, H2. exists p0, h, p. cbn in H1, H2. split_and!; [done|done|done|done|lia|lia].
Qed.

Lemma pentium_m_runs_witness :
  exists p0 h p, PentiumM.new 4 512 false = Ok p0 /\ execute [(0x400010, 0x400000, true); (0x400010, 0x400000, true)] p0 = Ok (h, p) /\ ok p /\
    length h = 2%nat /\ m_correct_predictions (base p) = hits h /\ m_correct_predictions (base p) + m_incorrect_predictions (base p) = 2.
Proof. apply (pentium_m_runs 4 512 false [(0x400010, 0x400000, true); (0x400010, 0x400000, true)]); [lia|lia|cbn; lia]. Defined.

(** Shrinking the branch target buffer at run time leaves its tables: the index keeps nine
    bits whatever the number of entries, so after a resize to 256 entries, as when the
    configuration has fewer than 512, a branch with a larger index is read out of bounds. *)
Theorem btb_resize_out_of_bounds :
  match PentiumM.new 4 512 false with
  | Ok p => exists r p', PentiumM.predict 0x401ff0 0x400000 p = Ok (r, p') /\
      PentiumM.predict 0x401ff0 0x400000 (PentiumM.resizeBTB 256 p) = Err OutOfBounds
  | Err _ => False
  end.
Proof.
  destruct (new_ok 4 512 false ltac:(lia) ltac:(lia)) as (p & E & Hp & _). rewrite E.
  destruct (predict_total 0x401ff0 0x400000 p Hp) as (r & p' & Er & _). exists r, p'. split; [done|].
  vm_compute in E. injection E as <-. vm_compute. reflexivity.
Qed.

End PentiumProps.

(** The A53 predictor keeps the index of a history register in a [char]: with more than 128
    registers the index becomes negative. *)
Theorem a53_register_out_of_bounds :
  A53.predict false 150 0 (A53.new 200 4) = Err OutOfBounds /\ exists b, A53.predict false 150 0 (A53.new 128 4) = Ok b.
Proof. split; [vm_compute; reflexivity|]. eexists. vm_compute. reflexivity. Qed.

(** The one-bit predictor predicts the last outcome of a branch. *)
Theorem one_bit_roundtrip ip predicted actual p :
  0 < Z.of_nat (length (OneBit.m_bits p)) < 2 ^ 32 ->
  exists p', OneBit.update predicted actual ip p = Ok p' /\ OneBit.predict ip p' = Ok actual.
Proof.
  intros H. unfold OneBit.update, OneBit.predict. rewrite umod_Ok by lia. cbn [mbind res_bind].
  pose proof (Z.mod_pos_bound ip (Z.of_nat (length (OneBit.m_bits p))) ltac:(lia)).
  rewrite wrap_small by (split; lia). rewrite wr_lt by lia. eexists. split; [done|]. cbn [OneBit.m_bits]. rewrite length_insert, umod_Ok by lia.
  cbn [mbind res_bind]. rewrite wrap_small by (split; lia). apply rd_Ok, list_lookup_insert_eq. lia.
Qed.
