(* ===== verification/Prefetch.v ===== *)
(** * Data prefetchers

    [parametric_dram_directory_msi/prefetcher.cc] and the three prefetchers it creates: the
    flow-based stride prefetcher, the global history buffer and the prefetcher of the
    Cortex-A53. A prefetcher is trained with the address of an access and returns the
    addresses to prefetch. *)

From stdpp Require Import base tactics list numbers strings.
From Stdlib Require Import ZArith Lia.
From S2P Require Import Prelude Utils CacheBase.
Local Open Scope Z_scope.
Local Open Scope mach_scope.

Abbreviation s64 := (swrap 64).

(** ** The simple prefetcher *)

Module Simple.

Definition PAGE_SIZE : Z := 4096.
Definition PAGE_MASK : Z := 2 ^ 64 - 4096.

Record SimplePrefetcher := mkSimple {
  core_id : Z;
  shared_cores : Z;
  n_flows : Z;
  flows_per_core : bool;
  num_prefetches : nat;
  stop_at_page : bool;
  n_flow_next : nat;
  m_prev_address : list (list Z)
}.

Definition new (core_id shared_cores n_flows : Z) (flows_per_core : bool) (num_prefetches : nat) (stop_at_page : bool)
  : SimplePrefetcher :=
  mkSimple core_id shared_cores n_flows flows_per_core num_prefetches stop_at_page 0
    (replicate (if flows_per_core then Z.to_nat shared_cores else 1%nat) (replicate (Z.to_nat n_flows) 0)).

(** The flow nearest to the address, closer than a page, or the one to be replaced. *)
Definition nearest_step (current_address : Z) (prev_address : list Z) (acc : nat * Z) (i : nat) : res (nat * Z) :=
  p ← rd prev_address i;
  let dist := u64 (Z.abs (s64 (current_address - p))) in
  Ok (if dist <? acc.2 then (i, dist) else acc).

(** The addresses that continue a stride; the first one is the current address. *)
Definition stride_addresses (current_address stride : Z) (p : SimplePrefetcher) : list Z :=
  filter (fun a => stop_at_page p = false \/ Z.land a PAGE_MASK = Z.land current_address PAGE_MASK)
    (map (fun i => current_address +64 (Z.of_nat i *64 stride)) (seq 0 (num_prefetches p))).

Definition getNextAddress (current_address core : Z) (p : SimplePrefetcher) : res (list Z * SimplePrefetcher) :=
  let k := if flows_per_core p then core - core_id p else 0 in
  check (0 <=? k) OutOfBounds;;
  prev_address ← rd (m_prev_address p) (Z.to_nat k);
  next ← umod (u32 (Z.of_nat (n_flow_next p) + 1)) (n_flows p);
  '(n_flow, _) ← fold_loop (nearest_step current_address prev_address) (n_flow_next p, PAGE_SIZE) (seq 0 (Z.to_nat (n_flows p)));
  old ← rd prev_address n_flow;
  let stride := current_address -64 old in
  prev_address ← wr prev_address n_flow current_address;
  flows ← wr (m_prev_address p) (Z.to_nat k) prev_address;
  let p' := mkSimple (core_id p) (shared_cores p) (n_flows p) (flows_per_core p) (num_prefetches p) (stop_at_page p)
              (Z.to_nat next) flows in
  Ok (if stride =? 0 then [] else stride_addresses current_address stride p, p').

End Simple.

(** ** The global history buffer *)

Module Ghb.

Definition INVALID_DELTA : Z := 2 ^ 63 - 1.
Definition INVALID_INDEX : Z := 2 ^ 32 - 1.
Definition INVALID_ADDRESS : Z := 2 ^ 64 - 1.

Record GHBEntry := mkGHB { nextIndex : Z; g_delta : Z; g_generation : Z }.
Record TableEntry := mkTable { ghbIndex : Z; t_delta : Z; t_generation : Z }.

Record GhbPrefetcher := mkGhbP {
  m_prefetchWidth : nat;
  m_prefetchDepth : nat;
  m_lastAddress : Z;
  m_ghbSize : Z;
  m_ghbHead : Z;
  m_generation : Z;
  m_ghb : list GHBEntry;
  m_tableSize : Z;
  m_tableHead : Z;
  m_ghbTable : list TableEntry
}.

Definition new (width depth : nat) (ghb_size table_size : Z) : GhbPrefetcher :=
  mkGhbP width depth INVALID_ADDRESS ghb_size 0 0 (replicate (Z.to_nat ghb_size) (mkGHB INVALID_INDEX INVALID_DELTA 0))
    table_size 0 (replicate (Z.to_nat table_size) (mkTable INVALID_INDEX INVALID_DELTA 0)).

(** [m_ghb[i]] *)
Definition ghb_at (p : GhbPrefetcher) (i : Z) : res GHBEntry := rd (m_ghb p) (Z.to_nat i).

(** The position of a delta in the table: of the delta or of the first free entry. *)
Definition find_delta (delta : Z) (p : GhbPrefetcher) : res (option nat) :=
  find_loop (fun i => e ← rd (m_ghbTable p) i; Ok ((t_delta e =? INVALID_DELTA) || (t_delta e =? delta)))
    (seq 0 (Z.to_nat (m_tableSize p))).

(** The deltas that followed an entry of the buffer, added to the address. *)
Fixpoint follow (p : GhbPrefetcher) (ghbIndex : Z) (steps : nat) (depth : Z) (newAddress : Z) (prefetchList : list Z) : res (list Z) :=
  match steps with
  | O => Ok prefetchList
  | S steps =>
      i ← umod (u32 (ghbIndex + depth)) (m_ghbSize p);
      e ← ghb_at p i;
      if g_delta e =? INVALID_DELTA then Ok prefetchList
      else
        let newAddress := newAddress +64 g_delta e in
        follow p ghbIndex steps (depth + 1) newAddress
          (if decide (newAddress ∈ prefetchList) then prefetchList else prefetchList ++ [newAddress])
  end.

(** The previous entry of the list of a delta, unless it has been overwritten. *)
Definition next_index (p : GhbPrefetcher) (ghbIndex nextIndex : Z) : Z :=
  if ((ghbIndex <? nextIndex) || (m_ghbHead p <? ghbIndex)) && (nextIndex <? m_ghbHead p) then INVALID_INDEX else nextIndex.

(** The entries of the buffer with the same delta, the most recent first. *)
Fixpoint chains (p : GhbPrefetcher) (currentAddress : Z) (width : nat) (ghbIndex : Z) (prefetchList : list Z) : res (list Z) :=
  match width with
  | O => Ok prefetchList
  | S width =>
      if ghbIndex =? INVALID_INDEX then Ok prefetchList
      else
        l ← follow p ghbIndex (m_prefetchDepth p) 0 currentAddress prefetchList;
        e ← ghb_at p ghbIndex;
        chains p currentAddress width (next_index p ghbIndex (nextIndex e)) l
  end.

Definition predict (delta currentAddress : Z) (p : GhbPrefetcher) : res (list Z) :=
  o ← find_delta delta p;
  match o with
  | None => Ok []
  | Some i =>
      t ← rd (m_ghbTable p) i;
      if t_delta t =? delta then
        e ← ghb_at p (ghbIndex t);
        if t_generation t =? g_generation e then chains p currentAddress (m_prefetchWidth p) (ghbIndex t) [] else Ok []
      else Ok []
  end.

Definition with_ghb (l : list GHBEntry) (p : GhbPrefetcher) : GhbPrefetcher :=
  mkGhbP (m_prefetchWidth p) (m_prefetchDepth p) (m_lastAddress p) (m_ghbSize p) (m_ghbHead p) (m_generation p) l
    (m_tableSize p) (m_tableHead p) (m_ghbTable p).
Definition with_table (head : Z) (l : list TableEntry) (p : GhbPrefetcher) : GhbPrefetcher :=
  mkGhbP (m_prefetchWidth p) (m_prefetchDepth p) (m_lastAddress p) (m_ghbSize p) (m_ghbHead p) (m_generation p) (m_ghb p)
    (m_tableSize p) head l.
Definition with_last (a : Z) (p : GhbPrefetcher) : GhbPrefetcher :=
  mkGhbP (m_prefetchWidth p) (m_prefetchDepth p) a (m_ghbSize p) (m_ghbHead p) (m_generation p) (m_ghb p)
    (m_tableSize p) (m_tableHead p) (m_ghbTable p).
Definition with_head (h g : Z) (p : GhbPrefetcher) : GhbPrefetcher :=
  mkGhbP (m_prefetchWidth p) (m_prefetchDepth p) (m_lastAddress p) (m_ghbSize p) h g (m_ghb p)
    (m_tableSize p) (m_tableHead p) (m_ghbTable p).

(** The table entry of the delta before the head is made to point to the head. *)
Definition link (prevDelta : Z) (p : GhbPrefetcher) : res GhbPrefetcher :=
  let h := Z.to_nat (m_ghbHead p) in
  o ← find_delta prevDelta p;
  t ← match o with Some i => t ← rd (m_ghbTable p) i; Ok (if t_delta t =? prevDelta then Some (i, t) else None) | None => Ok None end;
  match t with
  | Some (i, t) =>
      old ← ghb_at p (ghbIndex t);
      new ← rd (m_ghb p) h;
      g ← wr (m_ghb p) h (mkGHB (if t_generation t =? g_generation old then ghbIndex t else INVALID_INDEX) (g_delta new) (g_generation new));
      l ← wr (m_ghbTable p) i (mkTable (m_ghbHead p) (t_delta t) (m_generation p));
      Ok (with_table (m_tableHead p) l (with_ghb g p))
  | None =>
      l ← wr (m_ghbTable p) (Z.to_nat (m_tableHead p)) (mkTable (m_ghbHead p) prevDelta (m_generation p));
      next ← umod (u32 (m_tableHead p + 1)) (m_tableSize p);
      Ok (with_table next l p)
  end.

(** The new delta enters the buffer. *)
Definition record_delta (delta : Z) (p : GhbPrefetcher) : res GhbPrefetcher :=
  g ← wr (m_ghb p) (Z.to_nat (m_ghbHead p)) (mkGHB INVALID_INDEX delta (m_generation p));
  let p := with_ghb g p in
  let prevHead := if 0 <? m_ghbHead p then m_ghbHead p - 1 else u32 (m_ghbSize p - 1) in
  prev ← ghb_at p prevHead;
  p ← (if g_delta prev =? INVALID_DELTA then Ok p else link (g_delta prev) p);
  let h := u32 (m_ghbHead p + 1) in
  Ok (if h =? m_ghbSize p then with_head 0 ((m_generation p + 1) `mod` 4) p else with_head h (m_generation p) p).

Definition getNextAddress (currentAddress : Z) (p : GhbPrefetcher) : res (list Z * GhbPrefetcher) :=
  if m_lastAddress p =? INVALID_ADDRESS then Ok ([], with_last currentAddress p)
  else
    let delta := s64 (currentAddress - m_lastAddress p) in
    let p := with_last currentAddress p in
    l ← predict delta currentAddress p;
    p ← record_delta delta p;
    Ok (l, p).

End Ghb.

(** ** The prefetcher of the Cortex-A53 *)

Module A53p.

Record A53Prefetcher := mkA53p {
  m_cacheLineSize : Z;
  m_patternLength : Z;
  m_consecutivePatternLength : Z;
  m_numPrefetches : nat;
  firstAddress : bool;
  stride : Z;
  prevAddress : Z;
  currentPatternLength : Z;
  currentConsecutivePatternLength : Z
}.

(** [junk] is the value of [prevAddress], which the constructor does not set. *)
Definition new (line pattern consecutive : Z) (num_prefetches : nat) (junk : Z) : A53Prefetcher :=
  mkA53p line (u32 (pattern - 1)) (u32 (consecutive - 1)) num_prefetches true 0 junk 0 0.

Definition getNextAddress (currentAddress : Z) (p : A53Prefetcher) : list Z * A53Prefetcher :=
  let next first stride pattern consecutive :=
    mkA53p (m_cacheLineSize p) (m_patternLength p) (m_consecutivePatternLength p) (m_numPrefetches p) first stride currentAddress
      pattern consecutive in
  let same := next false (stride p) (currentPatternLength p) (currentConsecutivePatternLength p) in
  let ahead step := map (fun i => currentAddress +64 step (Z.of_nat i)) (seq 1 (m_numPrefetches p)) in
  if firstAddress p then ([], same)
  else
    let dist := s64 (currentAddress - prevAddress p) in
    if dist =? 0 then ([], same)
    else if s64 (Z.abs dist) =? m_cacheLineSize p then
      let n := if dist =? stride p then u32 (currentConsecutivePatternLength p + 1) else 1 in
      (if m_consecutivePatternLength p <=? n then ahead (fun i => u32 (m_cacheLineSize p * i)) else [],
       next false dist (currentPatternLength p) n)
    else
      let n := if dist =? stride p then u32 (currentPatternLength p + 1) else 1 in
      (if m_patternLength p <=? n then ahead (fun i => dist * i) else [],
       next false dist n (currentConsecutivePatternLength p)).

End A53p.

(** ** Any prefetcher *)

Inductive Prefetcher :=
| SimpleP (p : Simple.SimplePrefetcher)
| GhbP (p : Ghb.GhbPrefetcher)
| A53Pf (p : A53p.A53Prefetcher).

Definition getNextAddress (address core : Z) (p : Prefetcher) : res (list Z * Prefetcher) :=
  match p with
  | SimpleP p => '(l, p) ← Simple.getNextAddress address core p; Ok (l, SimpleP p)
  | GhbP p => '(l, p) ← Ghb.getNextAddress address p; Ok (l, GhbP p)
  | A53Pf p => let '(l, p) := A53p.getNextAddress address p in Ok (l, A53Pf p)
  end.

(** The configuration of a core's prefetcher. *)
Record PrefetchConfig := mkPrefetchConfig {
  pc_flows : Z; pc_flows_per_core : bool; pc_num_prefetches : nat; pc_stop_at_page : bool;
  pc_width : nat; pc_depth : nat; pc_ghb_size : Z; pc_table_size : Z;
  pc_line : Z; pc_pattern : Z; pc_consecutive : Z; pc_a53_num : nat; pc_junk : Z
}.

Definition createPrefetcher (type : string) (cfg : PrefetchConfig) (core_id shared_cores : Z) : res (option Prefetcher) :=
  if bool_decide (type = "none"%string) then Ok None
  else if bool_decide (type = "simple"%string) then
    Ok (Some (SimpleP (Simple.new core_id shared_cores (pc_flows cfg) (pc_flows_per_core cfg) (pc_num_prefetches cfg) (pc_stop_at_page cfg))))
  else if bool_decide (type = "ghb"%string) then Ok (Some (GhbP (Ghb.new (pc_width cfg) (pc_depth cfg) (pc_ghb_size cfg) (pc_table_size cfg))))
  else if bool_decide (type = "a53prefetcher"%string) then
    Ok (Some (A53Pf (A53p.new (pc_line cfg) (pc_pattern cfg) (pc_consecutive cfg) (pc_a53_num cfg) (pc_junk cfg))))
  else Err LogError.

(** ** The global history buffer is safe *)

Module GhbProps.
Import Ghb.

Definition index_ok (size i : Z) : Prop := i = INVALID_INDEX \/ 0 <= i < size.

Record ghb_ok (p : GhbPrefetcher) : Prop := {
  go_size : 0 < m_ghbSize p < INVALID_INDEX;
  go_ghb : length (m_ghb p) = Z.to_nat (m_ghbSize p);
  go_table_size : 0 < m_tableSize p < 2 ^ 32;
  go_table : length (m_ghbTable p) = Z.to_nat (m_tableSize p);
  go_head : 0 <= m_ghbHead p < m_ghbSize p;
  go_table_head : 0 <= m_tableHead p < m_tableSize p;
  go_links : Forall (fun e => index_ok (m_ghbSize p) (nextIndex e)) (m_ghb p);
  go_entries : Forall (fun t => t_delta t = INVALID_DELTA \/ 0 <= ghbIndex t < m_ghbSize p) (m_ghbTable p)
}.

Section step.
Context (p : GhbPrefetcher) (Hp : ghb_ok p).

Lemma ghb_at_ok i : 0 <= i < m_ghbSize p -> exists e, ghb_at p i = Ok e /\ index_ok (m_ghbSize p) (nextIndex e).
Proof.
  intros Hi. pose proof (go_ghb _ Hp). destruct (rd_lookup (m_ghb p) (Z.to_nat i) ltac:(lia)) as (e & E & El).
  exists e. split; [exact E|]. exact (proj1 (Forall_lookup _ _) (go_links _ Hp) _ _ El).
Qed.

Lemma find_delta_ok delta : exists o, find_delta delta p = Ok o /\
  forall i, o = Some i -> exists t, m_ghbTable p !! i = Some t /\ (t_delta t = INVALID_DELTA \/ 0 <= ghbIndex t < m_ghbSize p).
Proof.
  unfold find_delta. pose proof (go_table _ Hp) as Hl.
  set (q := fun i => match m_ghbTable p !! i with Some e => (t_delta e =? INVALID_DELTA) || (t_delta e =? delta) | None => false end).
  rewrite (find_loop_pure _ q).
  2: { intros i [_ Hi]%elem_of_seq. destruct (rd_lookup (m_ghbTable p) i ltac:(lia)) as (e & -> & El). unfold q. by rewrite El. }
  eexists. split; [done|]. intros i [Hi%elem_of_seq _]%first_such_Some.
  destruct (lookup_lt_is_Some_2 (m_ghbTable p) i ltac:(lia)) as [t Ht]. exists t. split; [done|].
  exact (proj1 (Forall_lookup _ _) (go_entries _ Hp) _ _ Ht).
Qed.

Lemma follow_ok i steps : 0 <= i < m_ghbSize p -> forall depth a l, NoDup l ->
  exists l', follow p i steps depth a l = Ok l' /\ NoDup l' /\ (length l' <= length l + steps)%nat.
Proof.
  intros Hi. induction steps as [|steps IH]; intros depth a l Hl; cbn [follow]; [exists l; split_and!; [done|done|lia]|].
  pose proof (go_size _ Hp). rewrite umod_Ok by lia. cbn [mbind res_bind].
  destruct (ghb_at_ok (u32 (i + depth) `mod` m_ghbSize p)) as (e & -> & _); [apply Z.mod_pos_bound; lia|]. cbn [mbind res_bind].
  destruct (_ =? _); [exists l; split_and!; [done|done|lia]|].
  destruct (decide (_ ∈ l)) as [Hin|Hin].
  - destruct (IH (depth + 1) (a +64 g_delta e) l Hl) as (l' & -> & ? & ?). exists l'. split_and!; [done|done|lia].
  - destruct (IH (depth + 1) (a +64 g_delta e) (l ++ [a +64 g_delta e])) as (l' & -> & ? & Hlen).
    { apply NoDup_app. split_and!; [done| |apply NoDup_singleton]. intros x Hx ->%list_elem_of_singleton. done. }
    rewrite length_app in Hlen. cbn in Hlen. exists l'. split_and!; [done|done|lia].
Qed.

Lemma chains_ok width : forall i a l, index_ok (m_ghbSize p) i -> NoDup l ->
  exists l', chains p a width i l = Ok l' /\ NoDup l' /\ (length l' <= length l + width * m_prefetchDepth p)%nat.
Proof.
  induction width as [|width IH]; intros i a l Hi Hl; cbn [chains]; [exists l; split_and!; [done|done|lia]|].
  destruct (Z.eqb_spec i INVALID_INDEX) as [|Hne]; [exists l; split_and!; [done|done|lia]|]. destruct Hi as [|Hi]; [done|].
  destruct (follow_ok i (m_prefetchDepth p) Hi 0 a l Hl) as (l1 & -> & Hl1 & Hlen). cbn [mbind res_bind].
  destruct (ghb_at_ok i Hi) as (e & -> & He). cbn [mbind res_bind].
  destruct (IH (next_index p i (nextIndex e)) a l1) as (l2 & -> & ? & ?); [|done|exists l2; split_and!; [done|done|lia]].
  unfold next_index. destruct (_ && _); [by left|done].
Qed.

Lemma predict_ok delta a : delta <> INVALID_DELTA ->
  exists l, predict delta a p = Ok l /\ NoDup l /\ (length l <= m_prefetchWidth p * m_prefetchDepth p)%nat.
Proof.
  intros Hd. unfold predict. destruct (find_delta_ok delta) as (o & -> & Ho). cbn [mbind res_bind].
  assert (Hnil : exists l : list Z, Ok [] = Ok l /\ NoDup l /\ (length l <= m_prefetchWidth p * m_prefetchDepth p)%nat).
  { exists []. split_and!; [done|apply NoDup_nil_2|cbn; lia]. }
  destruct o as [i|]; [|done]. destruct (Ho i eq_refl) as (t & Ht & Hcase). rewrite (proj2 (rd_Ok _ _ _) Ht). cbn [mbind res_bind].
  destruct (Z.eqb_spec (t_delta t) delta) as [Hdel|]; [|done]. destruct Hcase as [|Hi]; [congruence|].
  destruct (ghb_at_ok _ Hi) as (e & -> & _). cbn [mbind res_bind]. destruct (_ =? _); [|done].
  destruct (chains_ok (m_prefetchWidth p) (ghbIndex t) a [] ltac:(by right) (NoDup_nil_2)) as (l & -> & ? & ?). by exists l.
Qed.

End step.

Lemma with_ghb_ok p i e : ghb_ok p -> index_ok (m_ghbSize p) (nextIndex e) -> ghb_ok (with_ghb (<[i:=e]> (m_ghb p)) p).
Proof. intros [] He. split; cbn; try done; [by rewrite length_insert|by apply Forall_insert]. Qed.

Lemma with_table_ok p h i t : ghb_ok p -> 0 <= h < m_tableSize p -> 0 <= ghbIndex t < m_ghbSize p ->
  ghb_ok (with_table h (<[i:=t]> (m_ghbTable p)) p).
Proof. intros [] Hh Ht. split; cbn; try done; [by rewrite length_insert|apply Forall_insert; [done|by right]]. Qed.

Lemma link_ok p d : ghb_ok p -> d <> INVALID_DELTA -> exists p', link d p = Ok p' /\ ghb_ok p'.
Proof.
  intros Hp Hd. pose proof (go_ghb _ Hp). pose proof (go_head _ Hp) as Hh. pose proof (go_table_head _ Hp) as Hth.
  pose proof (go_table _ Hp). pose proof (go_table_size _ Hp).
  unfold link. destruct (find_delta_ok p Hp d) as (o & -> & Ho). cbn [mbind res_bind].
  assert (Hnew : exists p', (l ← wr (m_ghbTable p) (Z.to_nat (m_tableHead p)) (mkTable (m_ghbHead p) d (m_generation p));
      next ← umod (u32 (m_tableHead p + 1)) (m_tableSize p); Ok (with_table next l p)) = Ok p' /\ ghb_ok p').
  { rewrite wr_lt by lia. cbn [mbind res_bind]. rewrite umod_Ok by lia. cbn [mbind res_bind]. eexists. split; [done|].
    apply with_table_ok; [done|apply Z.mod_pos_bound; lia|done]. }
  destruct o as [i|]; [|exact Hnew]. destruct (Ho i eq_refl) as (t & Ht & Hcase). rewrite (proj2 (rd_Ok _ _ _) Ht). cbn [mbind res_bind].
  destruct (Z.eqb_spec (t_delta t) d) as [Hdel|]; [|exact Hnew]. destruct Hcase as [|Hi]; [congruence|].
  destruct (ghb_at_ok p Hp _ Hi) as (old & -> & _). cbn [mbind res_bind].
  destruct (rd_lookup (m_ghb p) (Z.to_nat (m_ghbHead p)) ltac:(lia)) as (new & -> & _). cbn [mbind res_bind].
  rewrite (wr_lt (m_ghb p)) by lia. cbn [mbind res_bind]. rewrite wr_lt by (by eapply lookup_lt_Some). eexists. split; [done|].
  apply (with_table_ok (with_ghb _ p)); [|done|done]. apply with_ghb_ok; [done|]. cbn. destruct (_ =? _); [by right|by left].
Qed.

Lemma record_delta_ok p d : ghb_ok p -> exists p', record_delta d p = Ok p' /\ ghb_ok p'.
Proof.
  intros Hp. pose proof (go_ghb _ Hp). pose proof (go_head _ Hp). pose proof (go_size _ Hp) as Hs. unfold INVALID_INDEX in Hs.
  unfold record_delta. rewrite wr_lt by lia. cbn [mbind res_bind].
  set (p1 := with_ghb _ p). assert (H1 : ghb_ok p1) by (apply with_ghb_ok; [done|by left]).
  destruct (ghb_at_ok p1 H1 (if 0 <? m_ghbHead p1 then m_ghbHead p1 - 1 else u32 (m_ghbSize p1 - 1))) as (e & -> & _).
  { cbn. destruct (Z.ltb_spec 0 (m_ghbHead p)); [lia|]. rewrite wrap_small; [lia|split; lia]. }
  cbn [mbind res_bind].
  assert (H2 : exists p2, (if g_delta e =? INVALID_DELTA then Ok p1 else link (g_delta e) p1) = Ok p2 /\ ghb_ok p2).
  { destruct (Z.eqb_spec (g_delta e) INVALID_DELTA); [by exists p1|by apply link_ok]. }
  destruct H2 as (p2 & -> & Hp2). cbn [mbind res_bind]. eexists. split; [done|]. pose proof (go_head _ Hp2). pose proof (go_size _ Hp2) as Hs2.
  unfold INVALID_INDEX in Hs2. rewrite wrap_small by (split; lia).
  destruct (Z.eqb_spec (m_ghbHead p2 + 1) (m_ghbSize p2)); destruct Hp2; split; cbn; try done; lia.
Qed.

Lemma link_keeps p d p' : link d p = Ok p' ->
  m_lastAddress p' = m_lastAddress p /\ m_prefetchWidth p' = m_prefetchWidth p /\ m_prefetchDepth p' = m_prefetchDepth p.
Proof. unfold link. intros H. inv_res. destruct a0 as [[i t]|]; inv_res; done. Qed.

Lemma record_delta_keeps p d p' : record_delta d p = Ok p' ->
  m_lastAddress p' = m_lastAddress p /\ m_prefetchWidth p' = m_prefetchWidth p /\ m_prefetchDepth p' = m_prefetchDepth p.
Proof.
  unfold record_delta. intros H. inv_res.
  assert (Hk : m_lastAddress a1 = m_lastAddress p /\ m_prefetchWidth a1 = m_prefetchWidth p /\ m_prefetchDepth a1 = m_prefetchDepth p)
    by (destruct (_ =? _); [inv_res; done|by apply link_keeps in E1]).
  by destruct (_ =? m_ghbSize a1).
Qed.

Lemma ghb_step p a : ghb_ok p -> m_lastAddress p = INVALID_ADDRESS \/ s64 (a - m_lastAddress p) <> INVALID_DELTA ->
  exists l p', getNextAddress a p = Ok (l, p') /\ ghb_ok p' /\ m_lastAddress p' = a /\ NoDup l /\
    (length l <= m_prefetchWidth p * m_prefetchDepth p)%nat /\ m_prefetchWidth p' = m_prefetchWidth p /\ m_prefetchDepth p' = m_prefetchDepth p.
Proof.
  intros Hp Ha. unfold getNextAddress. assert (Hl : ghb_ok (with_last a p)) by (destruct Hp; by split).
  destruct (Z.eqb_spec (m_lastAddress p) INVALID_ADDRESS) as [|Hne].
  { eexists _, _. split_and!; [done|done|done|apply NoDup_nil_2|cbn; lia|done|done]. }
  destruct Ha as [|Ha]; [done|]. destruct (predict_ok _ Hl _ a Ha) as (l & -> & Hnd & Hlen). cbn [mbind res_bind].
  destruct (record_delta_ok _ (s64 (a - m_lastAddress p)) Hl) as (p' & Er & Hp'). rewrite Er. cbn [mbind res_bind].
  eexists _, _. split; [done|]. split; [done|].
  destruct (record_delta_keeps _ _ _ Er) as (E1 & E2 & E3). by split_and!.
Qed.

(** Training with a sequence of addresses, with the lists of prefetches. *)
Fixpoint train (addresses : list Z) (p : GhbPrefetcher) : res (list (list Z) * GhbPrefetcher) :=
  match addresses with
  | [] => Ok ([], p)
  | a :: addresses => '(l, p) ← getNextAddress a p; '(ls, p) ← train addresses p; Ok (l :: ls, p)
  end.

Lemma even_delta a b : Z.even a = true -> Z.even b = true -> s64 (a - b) <> INVALID_DELTA.
Proof.
  intros Ha Hb H. assert (He : Z.even (s64 (a - b)) = true); [|by rewrite H in He].
  unfold swrap. rewrite Z.even_sub. rewrite Z.mod_eq by lia. rewrite Z.even_sub, Z.even_mul, Z.even_add, Z.even_sub, Ha, Hb. done.
Qed.

Lemma ghb_train_ok addresses : forall p, ghb_ok p -> Forall (fun a => Z.even a = true) addresses ->
  m_lastAddress p = INVALID_ADDRESS \/ Z.even (m_lastAddress p) = true ->
  exists ls p', train addresses p = Ok (ls, p') /\ ghb_ok p' /\ length ls = length addresses /\
    Forall (fun l => NoDup l /\ (length l <= m_prefetchWidth p * m_prefetchDepth p)%nat) ls.
Proof.
  induction addresses as [|a addresses IH]; intros p Hp Ha Hl; [by exists [], p|]. apply Forall_cons in Ha as [Ha Has]. cbn [train].
  destruct (ghb_step p a Hp) as (l & p1 & -> & Hp1 & E1 & Hnd & Hlen & Ew & Ed).
  { destruct Hl as [Hl|Hl]; [by left|right; by apply even_delta]. }
  cbn [mbind res_bind]. destruct (IH p1 Hp1 Has) as (ls & p2 & -> & Hp2 & Hls & Hall); [right; congruence|]. cbn [mbind res_bind].
  rewrite Ew, Ed in Hall. eexists _, _. split; [done|]. split_and!; [done|cbn; lia|by constructor].
Qed.

Lemma new_ghb_ok width depth size table : 0 < size < INVALID_INDEX -> 0 < table < 2 ^ 32 -> ghb_ok (new width depth size table).
Proof. intros Hs Ht. split; cbn; try done; try lia; try (by rewrite length_replicate); apply Forall_replicate; by left. Qed.

(** The global history buffer prefetcher is safe: trained from its constructor with any
    sequence of even addresses, as the addresses of lines are, it always returns, never
    leaves its buffer or its table, and every list of prefetches is without repetitions and
    at most as long as width times depth. *)
Theorem ghb_runs width depth size table addresses :
  0 < size < INVALID_INDEX -> 0 < table < 2 ^ 32 -> Forall (fun a => Z.even a = true) addresses ->
  exists ls p, train addresses (new width depth size table) = Ok (ls, p) /\ ghb_ok p /\ length ls = length addresses /\
    Forall (fun l => NoDup l /\ (length l <= width * depth)%nat) ls.
Proof. intros Hs Ht Ha. apply (ghb_train_ok addresses (new width depth size table)); [by apply new_ghb_ok|done|by left]. Qed.

Lemma ghb_runs_witness :
  exists ls p, train [0; 64; 192; 256; 384] (new 2 2 4 4) = Ok (ls, p) /\ ghb_ok p /\ length ls = 5%nat /\
    Forall (fun l => NoDup l /\ (length l <= 2 * 2)%nat) ls.
Proof.
  apply (ghb_runs 2 2 4 4 [0; 64; 192; 256; 384]); [unfold INVALID_INDEX; lia|lia|repeat constructor].
Defined.

(** An access at a distance of [INT64_MAX], the mark of a free entry, is taken for a match of
    the free entry and reads the buffer at [UINT32_MAX]. *)
Theorem ghb_invalid_delta_out_of_bounds : train [0; 2 ^ 63 - 1] (new 2 2 4 4) = Err OutOfBounds.
Proof. reflexivity. Qed.

End GhbProps.

(** ** The simple prefetcher follows strides *)

Module SimpleProps.
Import Simple.

Definition dist (a b : Z) : Z := u64 (Z.abs (s64 (a - b))).

(** The search returns a minimum of the distances and of the start value. *)
Lemma nearest_min current prev idx : forall start, (forall i, i ∈ idx -> (i < length prev)%nat) ->
  exists k, fold_loop (nearest_step current prev) start idx = Ok k /\ k.2 <= start.2 /\
    (forall i x, i ∈ idx -> prev !! i = Some x -> k.2 <= dist current x) /\
    (k = start \/ exists x, k.1 ∈ idx /\ prev !! k.1 = Some x /\ k.2 = dist current x).
Proof.
  induction idx as [|i idx IH]; intros start Hlt; cbn [fold_loop].
  { exists start. split_and!; [done|lia| |by left]. intros i x H. by apply not_elem_of_nil in H. }
  destruct (rd_lookup prev i) as (p & Erd & Ep); [apply Hlt; by left|].
  set (start' := if dist current p <? start.2 then (i, dist current p) else start).
  assert (Hstep : nearest_step current prev start i = Ok start') by (unfold nearest_step; by rewrite Erd). rewrite Hstep. cbn [mbind res_bind].
  assert (Hs : start'.2 <= start.2 /\ start'.2 <= dist current p) by (unfold start'; destruct (Z.ltb_spec (dist current p) start.2); cbn; lia).
  destruct (IH start') as (k & -> & Hk & Hmin & Hor); [intros x Hx; apply Hlt; by right|].
  exists k. split_and!; [done|lia| |].
  - intros j x [->|Hj]%elem_of_cons Hx; [|by eapply Hmin]. assert (x = p) as -> by congruence. lia.
  - destruct Hor as [->|(x & Hx & Ex & E2)]; [|right; exists x; split_and!; [by right|done|done]].
    unfold start'. destruct (_ <? _); [|by left]. right. exists p. split_and!; [by left|done|done].
Qed.

(** The simple prefetcher follows strides: when the flow that is nearest to an access, nearer
    than a page and nearer than every other flow, lies one stride behind, the access is
    stored in that flow and the list of prefetches continues the stride, beginning with the
    address accessed and cut at the page boundary if so configured. *)
Theorem simple_follows_stride core a stride j prev p :
  m_prev_address p !! (if flows_per_core p then Z.to_nat (core - core_id p) else 0%nat) = Some prev ->
  (flows_per_core p = true -> core_id p <= core) ->
  0 < n_flows p < 2 ^ 32 -> length prev = Z.to_nat (n_flows p) ->
  prev !! j = Some (a -64 stride) -> in_range 64 a -> 0 < stride < 2 ^ 64 ->
  dist a (a -64 stride) < PAGE_SIZE ->
  (forall i x, i <> j -> prev !! i = Some x -> dist a (a -64 stride) < dist a x) ->
  exists p', getNextAddress a core p = Ok (stride_addresses a stride p, p') /\
    m_prev_address p' !! (if flows_per_core p then Z.to_nat (core - core_id p) else 0%nat) = Some (<[j := a]> prev).
Proof.
  intros Hprev Hcore Hn Hlen Hj Ha Hs Hnear Hmin. unfold getNextAddress.
  assert (Hk : (if flows_per_core p then Z.to_nat (core - core_id p) else 0%nat) = Z.to_nat (if flows_per_core p then core - core_id p else 0))
    by (by destruct (flows_per_core p)).
  rewrite (proj2 (Z.leb_le _ _)) by (destruct (flows_per_core p); [specialize (Hcore eq_refl)|]; lia). rewrite Hk in *.
  cbn [check mbind res_bind]. rewrite (proj2 (rd_Ok _ _ _) Hprev). cbn [mbind res_bind]. rewrite umod_Ok by lia. cbn [mbind res_bind].
  destruct (nearest_min a prev (seq 0 (Z.to_nat (n_flows p))) (n_flow_next p, PAGE_SIZE)) as ([k d] & E & Hd & Hle & Hor);
    [intros i Hi%elem_of_seq; lia|]. rewrite E. cbn [mbind res_bind fst snd] in *.
  pose proof (lookup_lt_Some _ _ _ Hj) as Hjl. assert (Hdj : d <= dist a (a -64 stride)) by (apply (Hle j); [apply elem_of_seq; lia|done]).
  assert (k = j) as ->.
  { destruct Hor as [[= -> ->]|(x & _ & Ex & ->)]; [lia|]. destruct (decide (k = j)) as [|Hne]; [done|]. specialize (Hmin k x Hne Ex). lia. }
  rewrite (proj2 (rd_Ok _ _ _) Hj). cbn [mbind res_bind]. rewrite (wr_lt prev) by lia. cbn [mbind res_bind].
  rewrite wr_lt by (by eapply lookup_lt_Some). cbn [mbind res_bind].
  assert (Est : a -64 (a -64 stride) = stride).
  { unfold wrap. rewrite Zminus_mod_idemp_r. replace (a - (a - stride)) with stride by lia. apply Z.mod_small. lia. }
  rewrite Est, (proj2 (Z.eqb_neq _ _)) by lia. eexists. split; [done|]. cbn [m_prev_address].
  apply list_lookup_insert_eq. by eapply lookup_lt_Some.
Qed.

Lemma simple_follows_stride_witness :
  exists p', getNextAddress 8320 0 (mkSimple 0 1 2 false 3 true 0 [[8192; 65536]]) = Ok ([8320; 8448; 8576], p') /\
    m_prev_address p' !! 0%nat = Some [8320; 65536].
Proof.
  apply (simple_follows_stride 0 8320 128 0%nat [8192; 65536] (mkSimple 0 1 2 false 3 true 0 [[8192; 65536]]));
    [reflexivity|done|cbn; lia|reflexivity|reflexivity|split; lia|lia|vm_compute; reflexivity|].
  intros [|[|i]] x Hi Hx; cbn in Hx; [done|injection Hx as <-; vm_compute; reflexivity|discriminate Hx].
Defined.

End SimpleProps.

(** The prefetcher of the A53 prefetches in ascending order along a descending stream: after
    lines 3, 2 and 1 it asks for lines 2 and 3, which it has just seen. *)
Theorem a53_descending_prefetches_ascending :
  let '(_, p1) := A53p.getNextAddress 192 (A53p.new 64 3 3 2 0) in
  let '(_, p2) := A53p.getNextAddress 128 p1 in
  fst (A53p.getNextAddress 64 p2) = [128; 192].
Proof. reflexivity. Qed.
