(* ===== verification/Cache.v ===== *)
(** * The cache

    [Cache] ([cache.h/.cc]): an array of sets behind the address hash, the extra
    one-way set that stands in for metadata an L2 cache must not hold, the TLB
    variants of the operations that try every page size, the reuse statistics and
    the power gating of ways. The replacement policy is a parameter constrained by
    [ReplacementPolicyLaws]; the model covers caches without fault injector. *)

From Stdlib Require Import ZArith Lia String.
From stdpp Require Import base tactics numbers gmap sets list strings.
From S2P Require Import Prelude Utils CacheBase CacheBlock CacheSet.
Local Open Scope nat_scope.

(** ** State *)

(** Reuse and utilisation counters of the evicted blocks of one kind. *)
Record ReuseStats := mkReuse {
  reuse : list Z;
  util : list Z;
  sum_reuse : Z;
  sum_utilization : Z;
  number_of_reuse : Z
}.

Record Cache (P : Type) := mkCache {
  cb : CacheBase;
  m_enabled : bool;
  m_num_accesses : Z;
  m_num_hits : Z;
  m_cache_type : cache_t;
  m_sets : list (CacheSet P);
  m_fake_set : option (CacheSet P);
  m_set_info : option CacheSetInfoLRU;
  m_pagesizes : list Z;
  metadata_passthrough_loc : Z;
  data_stats : ReuseStats;
  metadata_stats : ReuseStats;
  m_page_walk_cacheblocks : list Z
}.
Arguments mkCache {_}.
Arguments cb {_}.
Arguments m_enabled {_}.
Arguments m_num_accesses {_}.
Arguments m_num_hits {_}.
Arguments m_cache_type {_}.
Arguments m_sets {_}.
Arguments m_fake_set {_}.
Arguments m_set_info {_}.
Arguments m_pagesizes {_}.
Arguments metadata_passthrough_loc {_}.
Arguments data_stats {_}.
Arguments metadata_stats {_}.
Arguments m_page_walk_cacheblocks {_}.

(** [reuse_levels]. *)
Definition reuse_bucket (reuse_value : Z) : nat :=
  if (reuse_value =? 0)%Z then 0 else if (reuse_value <=? 5)%Z then 1
  else if (reuse_value <=? 10)%Z then 2 else if (reuse_value <=? 20)%Z then 3 else 4.

Definition bits_set (x : Z) : Z := popcount x.

Definition bump (l : list Z) (i : nat) : res (list Z) :=
  x ← rd l i; wr l i (u64 (x + 1)).

(** The counters of an evicted block. *)
Definition count_evicted (b : CacheBlockInfo) (r : ReuseStats) : res ReuseStats :=
  ru ← bump (reuse r) (reuse_bucket (m_reuse b));
  let set_bits := if (7 <? bits_set (m_used b))%Z then 7%Z else bits_set (m_used b) in
  ut ← bump (util r) (Z.to_nat set_bits);
  Ok (mkReuse ru ut (u64 (sum_reuse r + m_reuse b)) (u64 (sum_utilization r + m_used b))
        (u64 (number_of_reuse r + 1))).

Definition ReuseStats_new : ReuseStats := mkReuse (replicate 5 0%Z) (replicate 8 0%Z) 0 0 0.

Section cache.
Context {P : Type} `{!ReplacementPolicy P}.
Implicit Types (c : Cache P).

Definition set_sets (s : list (CacheSet P)) (si : option CacheSetInfoLRU) c : Cache P :=
  mkCache (cb c) (m_enabled c) (m_num_accesses c) (m_num_hits c) (m_cache_type c) s (m_fake_set c) si
    (m_pagesizes c) (metadata_passthrough_loc c) (data_stats c) (metadata_stats c)
    (m_page_walk_cacheblocks c).
Definition set_fake (s : CacheSet P) (si : option CacheSetInfoLRU) c : Cache P :=
  mkCache (cb c) (m_enabled c) (m_num_accesses c) (m_num_hits c) (m_cache_type c) (m_sets c) (Some s) si
    (m_pagesizes c) (metadata_passthrough_loc c) (data_stats c) (metadata_stats c)
    (m_page_walk_cacheblocks c).
Definition set_stats (d m : ReuseStats) c : Cache P :=
  mkCache (cb c) (m_enabled c) (m_num_accesses c) (m_num_hits c) (m_cache_type c) (m_sets c)
    (m_fake_set c) (m_set_info c) (m_pagesizes c) (metadata_passthrough_loc c) d m
    (m_page_walk_cacheblocks c).
Definition set_counters (a h : Z) c : Cache P :=
  mkCache (cb c) (m_enabled c) a h (m_cache_type c) (m_sets c)
    (m_fake_set c) (m_set_info c) (m_pagesizes c) (metadata_passthrough_loc c) (data_stats c)
    (metadata_stats c) (m_page_walk_cacheblocks c).

(** [m_name == "L2" && metadata_passthrough_loc > 2]. *)
Definition bypasses_metadata c : bool :=
  bool_decide (m_name (cb c) = "L2"%string) && (2 <? metadata_passthrough_loc c)%Z.

(** The sets of a cache whose policy is created by [create associativity]; [with_data] is
    whether the simulator has a fault-injection manager. *)
Fixpoint make_sets (create : nat -> res P) (cache_type : cache_t) (associativity : nat)
    (blocksize : Z) (with_data : bool) (n : nat) : res (list (CacheSet P)) :=
  match n with
  | O => Ok []
  | S n' =>
      s ← CacheSet_new cache_type associativity blocksize false with_data;
      p ← create associativity;
      rest ← make_sets create cache_type associativity blocksize with_data n';
      Ok (mkCacheSet s p :: rest)
  end.

Definition Cache_new (name : string) (num_sets associativity cache_block_size : Z)
    (create : nat -> res P) (info : option CacheSetInfoLRU) (cache_type : cache_t) (hash : hash_t)
    (ahl : option AddressHomeLookup) (page_size : list Z) (passthrough_loc : Z) (with_data : bool)
  : res (Cache P) :=
  b ← CacheBase_new name num_sets associativity cache_block_size hash ahl;
  sets ← make_sets create cache_type (Z.to_nat associativity) cache_block_size with_data
           (Z.to_nat num_sets);
  fake ← (if bool_decide (name = "L2"%string) && (2 <? passthrough_loc)%Z
          then l ← make_sets create cache_type 1 cache_block_size with_data 1; Ok (head l)
          else Ok None);
  Ok (mkCache b false 0 0 cache_type sets fake info page_size passthrough_loc
        ReuseStats_new ReuseStats_new []).

(** [m_sets[set_index]] *)
Definition get_set c (set_index : Z) : res (CacheSet P) := rd (m_sets c) (Z.to_nat set_index).
Definition put_set c (set_index : Z) (s : CacheSet P) (si : option CacheSetInfoLRU) : res (Cache P) :=
  l ← wr (m_sets c) (Z.to_nat set_index) s; Ok (set_sets l si c).

(** ** Lines *)

Definition invalidateSingleLine c (addr : Z) : res (bool * Cache P) :=
  '(tag, set_index) ← splitAddress (cb c) addr;
  check (set_index <? m_num_sets (cb c))%Z AssertFailed;;
  '(fake_result, c) ← (if bypasses_metadata c then
      f ← deref (m_fake_set c);
      '(r, b) ← set_invalidate (base f) tag;
      Ok (r, set_fake (mkCacheSet b (policy f)) (m_set_info c) c)
    else Ok (false, c));
  s ← get_set c set_index;
  '(result, b) ← set_invalidate (base s) tag;
  c ← put_set c set_index (mkCacheSet b (policy s)) (m_set_info c);
  Ok (result || fake_result, c).

(** The block an access returns, by the pointer's target: a way of a set of the cache or of
    the extra set; with the data read. *)
Inductive location := InSet (set_index : Z) (way : nat) | InFake (way : nat).
Record access_result := mkAccess { ar_loc : location; ar_block : CacheBlockInfo; ar_data : option (list Z) }.

(** Read or write of a line that was found. *)
Definition touch_line (s : CacheSet P) (line_index : nat) (block_offset : Z) (access_type : access_t)
    (buff : option (list Z)) (bytes : Z) (update_replacement : bool) (si : option CacheSetInfoLRU)
  : res (option (list Z) * CacheSet P * option CacheSetInfoLRU) :=
  if bool_decide (access_type = LOAD) then
    '(d, s, e) ← read_line s line_index block_offset (bool_decide (is_Some buff)) bytes
                   update_replacement (mkEnv si None);
    Ok (d, s, set_info e)
  else
    '(s, e) ← write_line s line_index block_offset buff bytes update_replacement (mkEnv si None);
    Ok (None, s, set_info e).

Definition accessSingleLine c (addr : Z) (access_type : access_t) (buff : option (list Z))
    (bytes : Z) (update_replacement tlb_entry : bool) : res (option access_result * Cache P) :=
  '(tag, set_index, block_offset) ← splitAddressOffset (cb c) addr;
  s ← get_set c set_index;
  o ← set_find (base s) tag;
  match o with
  | Some line_index =>
      b ← rd (m_cache_block_info_array (base s)) line_index;
      if tlb_entry && negb (isPageTableBlock b) then Ok (None, c)
      else
        '(d, s, si) ← touch_line s line_index block_offset access_type buff bytes
                        update_replacement (m_set_info c);
        c ← put_set c set_index s si;
        Ok (Some (mkAccess (InSet set_index line_index) b d), c)
  | None =>
      if bypasses_metadata c then
        f ← deref (m_fake_set c);
        o ← set_find (base f) tag;
        match o with
        | None => Ok (None, c)
        | Some line_index =>
            b ← rd (m_cache_block_info_array (base f)) line_index;
            if tlb_entry && negb (isPageTableBlock b) then Ok (None, c)
            else
              '(d, f, si) ← touch_line f line_index block_offset access_type buff bytes
                              update_replacement (m_set_info c);
              Ok (Some (mkAccess (InFake line_index) b d), set_fake f si c)
        end
      else Ok (None, c)
  end.

(** The outputs of an insertion. *)
Record insertion := mkInsertion {
  in_eviction : bool;
  in_evict_addr : Z;
  in_evict_info : CacheBlockInfo;
  in_evict_buff : option (list Z);
  in_cntlr : option CacheCntlr;
  in_cache : Cache P
}.

(** The statistics of [insertSingleLine]. *)
Definition count_insertion (eviction : bool) (b : CacheBlockInfo) c : res (Cache P) :=
  if eviction then
    if bool_decide (m_block_type b = DATA) || bool_decide (m_block_type b = INSTRUCTION) then
      d ← count_evicted b (data_stats c); Ok (set_stats d (metadata_stats c) c)
    else if isMetadataBlockType (m_block_type b) then
      m ← count_evicted b (metadata_stats c); Ok (set_stats (data_stats c) m c)
    else Ok c
  else Ok c.

Definition insertSingleLine c (addr : Z) (fill_buff : option (list Z)) (evict_info : CacheBlockInfo)
    (want_evict_data : bool) (ctl : option CacheCntlr) (btype : block_type_t) : res insertion :=
  '(tag, set_index) ← splitAddress (cb c) addr;
  b ← CacheBlockInfo_create (m_cache_type c);
  let info := setBlockType btype (setTag tag b) in
  let e := mkEnv (m_set_info c) ctl in
  '(r, c) ← (if bypasses_metadata c && isMetadataBlockType btype then
      f ← deref (m_fake_set c);
      r ← set_insert f info fill_buff evict_info want_evict_data e;
      Ok (r, set_fake (ins_set r) (set_info (ins_env r)) c)
    else
      s ← get_set c set_index;
      r ← set_insert s info fill_buff evict_info want_evict_data e;
      c ← put_set c set_index (ins_set r) (set_info (ins_env r));
      Ok (r, c));
  let evict_addr := tagToAddress (cb c) (m_tag (evict_block_info r)) in
  c ← count_insertion (eviction r) (evict_block_info r) c;
  Ok (mkInsertion (eviction r) evict_addr (evict_block_info r) (evict_buff r) (cntlr (ins_env r)) c).

Definition peekSingleLine c (addr : Z) : res (option location) :=
  '(tag, set_index) ← splitAddress (cb c) addr;
  s ← get_set c set_index;
  o ← set_find (base s) tag;
  match o with
  | Some w => Ok (Some (InSet set_index w))
  | None =>
      if bypasses_metadata c then
        f ← deref (m_fake_set c);
        o ← set_find (base f) tag; Ok (option_map InFake o)
      else Ok None
  end.

(** A change through the pointer to a block that a look-up returned. *)
Definition modify_block (f : CacheBlockInfo -> CacheBlockInfo) (l : location) c : res (Cache P) :=
  match l with
  | InSet set_index w =>
      s ← get_set c set_index;
      b ← rd (m_cache_block_info_array (base s)) w;
      a ← wr (m_cache_block_info_array (base s)) w (f b);
      put_set c set_index (mkCacheSet (set_array a (base s)) (policy s)) (m_set_info c)
  | InFake w =>
      s ← deref (m_fake_set c);
      b ← rd (m_cache_block_info_array (base s)) w;
      a ← wr (m_cache_block_info_array (base s)) w (f b);
      Ok (set_fake (mkCacheSet (set_array a (base s)) (policy s)) (m_set_info c) c)
  end.

(** The block that such a pointer points to. *)
Definition read_block (l : location) c : res CacheBlockInfo :=
  match l with
  | InSet set_index w => s ← get_set c set_index; rd (m_cache_block_info_array (base s)) w
  | InFake w => s ← deref (m_fake_set c); rd (m_cache_block_info_array (base s)) w
  end.

(** [line_index] keeps its initial value -1 when the tag is not found. *)
Definition updateSetReplacement c (addr : Z) : res (Cache P) :=
  '(tag, set_index, block_offset) ← splitAddressOffset (cb c) addr;
  s ← get_set c set_index;
  o ← set_find (base s) tag;
  let line_index := default (Z.to_nat (2 ^ 32 - 1)) o in
  '(_, s, e) ← read_line s line_index block_offset false 8 true (mkEnv (m_set_info c) None);
  put_set c set_index s (set_info e).

(** ** TLB entries *)

Definition containsTLB c (addr : Z) : res bool :=
  o ← find_loop (fun ps =>
        current_page_size ← rd (m_pagesizes c) ps;
        '(tag, set_index) ← splitAddressTLB (cb c) addr current_page_size;
        check (set_index <? m_num_sets (cb c))%Z AssertFailed;;
        s ← get_set c set_index;
        o ← set_findTLB (base s) tag current_page_size;
        Ok (bool_decide (is_Some o))) (seq 0 (length (m_pagesizes c)));
  Ok (bool_decide (is_Some o)).

Definition invalidateTLB_at (addr : Z) (acc : bool * Cache P) (ps : nat) : res (bool * Cache P) :=
  let '(result, c) := acc in
  current_page_size ← rd (m_pagesizes c) ps;
  '(tag, set_index) ← splitAddressTLB (cb c) addr current_page_size;
  check (set_index <? m_num_sets (cb c))%Z AssertFailed;;
  s ← get_set c set_index;
  '(r, b) ← set_invalidateTLB (base s) tag current_page_size;
  c ← put_set c set_index (mkCacheSet b (policy s)) (m_set_info c);
  Ok (if r : bool then true else result, c).

Definition invalidateSingleLineTLB c (addr : Z) : res (bool * Cache P) :=
  '(result, c) ← fold_loop (invalidateTLB_at addr) (false, c) (seq 0 (length (m_pagesizes c)));
  present ← containsTLB c addr;
  check (negb present) AssertFailed;;
  Ok (result, c).

(** The loop over the page sizes leaves at the first valid entry. *)
Fixpoint accessTLB_loop c (addr : Z) (access_type : access_t) (buff : option (list Z)) (bytes : Z)
    (update_replacement : bool) (sizes : list Z) : res (option access_result * Cache P) :=
  match sizes with
  | [] => Ok (None, c)
  | current_page_size :: rest =>
      '(tag, set_index, block_offset) ← splitAddressTLBOffset (cb c) addr current_page_size;
      s ← get_set c set_index;
      o ← set_findTLB (base s) tag current_page_size;
      match o with
      | None => accessTLB_loop c addr access_type buff bytes update_replacement rest
      | Some line_index =>
          b ← rd (m_cache_block_info_array (base s)) line_index;
          if bool_decide (m_cstate b = INVALID)
          then accessTLB_loop c addr access_type buff bytes update_replacement rest
          else
            '(d, s, si) ← touch_line s line_index block_offset access_type buff bytes
                            update_replacement (m_set_info c);
            c ← put_set c set_index s si;
            Ok (Some (mkAccess (InSet set_index line_index) b d), c)
      end
  end.

Definition accessSingleLineTLB c (addr : Z) (access_type : access_t) (buff : option (list Z))
    (bytes : Z) (update_replacement : bool) : res (option access_result * Cache P) :=
  accessTLB_loop c addr access_type buff bytes update_replacement (m_pagesizes c).

Definition insertSingleLineTLB c (addr : Z) (fill_buff : option (list Z)) (evict_info : CacheBlockInfo)
    (want_evict_data : bool) (ctl : option CacheCntlr) (btype : block_type_t) (page_size ppn : Z)
  : res insertion :=
  '(tag, set_index) ← splitAddressTLB (cb c) addr page_size;
  b ← CacheBlockInfo_create (m_cache_type c);
  let info := setCState SHARED (setPPN ppn (setPageSize page_size (setBlockType btype (setTag tag b)))) in
  s ← get_set c set_index;
  r ← set_insert s info fill_buff evict_info want_evict_data (mkEnv (m_set_info c) ctl);
  c ← put_set c set_index (ins_set r) (set_info (ins_env r));
  let page_size := if eviction r then m_page_size (evict_block_info r) else page_size in
  check ((0 <=? page_size) && (page_size <? 64))%Z BadShift;;
  Ok (mkInsertion (eviction r) (tagToAddressTLB (m_tag (evict_block_info r)) page_size)
        (evict_block_info r) (evict_buff r) (cntlr (ins_env r)) c).

(** ** Counters, power gating, statistics *)

Definition updateCounters (cache_hit : bool) c : Cache P :=
  if m_enabled c then
    set_counters (u64 (m_num_accesses c + 1))
      (if cache_hit then u64 (m_num_hits c + 1) else m_num_hits c) c
  else c.

Definition updateHits (hits : Z) c : Cache P :=
  if m_enabled c then
    set_counters (u64 (m_num_accesses c + hits)) (u64 (m_num_hits c + hits)) c
  else c.

Definition cache_peekBlock c (set_index way : nat) : res CacheBlockInfo :=
  s ← rd (m_sets c) set_index; peekBlock (base s) way.

Definition cache_associativity c : nat := Z.to_nat (cb_associativity (cb c)).

(** The loops over sets and ways that find the highest way in use. *)
Definition max_used_ways c : res nat :=
  fold_loop (fun m set_index =>
      fold_loop (fun m way =>
          b ← cache_peekBlock c set_index way;
          if isValid b && (m <? way + 1) then Ok (way + 1) else Ok m)
        m (seq 0 (cache_associativity c)))
    0 (seq 0 (Z.to_nat (m_num_sets (cb c)))).

Definition gate (n : nat) (s : CacheSet P) : CacheSet P :=
  mkCacheSet (set_setActiveWays n (base s)) (policy s).

Definition setActiveWays c (target_ways : nat) : res (nat * Cache P) :=
  used ← max_used_ways c;
  let effective_ways := target_ways in
  let effective_ways := if effective_ways <? used then used else effective_ways in
  let effective_ways := if effective_ways <? 1 then 1 else effective_ways in
  let effective_ways := if cache_associativity c <? effective_ways then cache_associativity c
                        else effective_ways in
  sets ← fold_loop (fun l i => s ← rd l i; wr l i (gate effective_ways s))
           (m_sets c) (seq 0 (Z.to_nat (m_num_sets (cb c))));
  Ok (effective_ways, set_sets sets (m_set_info c) c).

Definition getActiveWays c : res nat :=
  if (0 <? m_num_sets (cb c))%Z then s ← rd (m_sets c) 0; Ok (m_num_active_ways (base s)) else Ok 0.

Definition measureStats c : res (Cache P) :=
  accum ← fold_loop (fun accum i =>
            s ← rd (m_sets c) i;
            n ← countPageWalkCacheBlocks (base s);
            Ok (u64 (accum + n))) 0%Z (seq 0 (Z.to_nat (m_num_sets (cb c))));
  Ok (mkCache (cb c) (m_enabled c) (m_num_accesses c) (m_num_hits c) (m_cache_type c) (m_sets c)
    (m_fake_set c) (m_set_info c) (m_pagesizes c) (metadata_passthrough_loc c) (data_stats c)
    (metadata_stats c) (m_page_walk_cacheblocks c ++ [accum])).

(** [markMetadata]: the first way from the bottom that holds the tag. *)
Definition markMetadata c (address : Z) (blocktype : block_type_t) : res (Cache P) :=
  '(tag, set_index) ← splitAddress (cb c) address;
  s ← get_set c set_index;
  o ← find_loop (fun i => b ← rd (m_cache_block_info_array (base s)) i; Ok (m_tag b =? tag)%Z)
        (seq 0 (m_associativity (base s)));
  match o with
  | Some i =>
      b ← rd (m_cache_block_info_array (base s)) i;
      a ← wr (m_cache_block_info_array (base s)) i (setBlockType blocktype b);
      put_set c set_index (mkCacheSet (set_array a (base s)) (policy s)) (m_set_info c)
  | None => Ok c
  end.

(** Snapshot of one block: validity, type, recency and reuse count. *)
Record CacheBlockSnapshot := mkSnapshot {
  valid : bool; block_type : block_type_t; recency_bits : Z; reuse_count : Z }.

Definition snapshot_set c (s : CacheSet P) : res (list CacheBlockSnapshot) :=
  fold_loop (fun l way =>
      b ← peekBlock (base s) way;
      r ← getRecencyBits (policy s) way;
      Ok (l ++ [mkSnapshot (isValid b) (m_block_type b) r (m_reuse b)]))
    [] (seq 0 (cache_associativity c)).

Definition getCacheSnapshot c : res (list (list CacheBlockSnapshot)) :=
  fold_loop (fun l i => s ← rd (m_sets c) i; row ← snapshot_set c s; Ok (l ++ [row]))
    [] (seq 0 (Z.to_nat (m_num_sets (cb c)))).

End cache.
Arguments insertion P : clear implicits.

(** ** The abstract cache: a set of resident lines *)

(** The tag of the line of an address. *)
Definition line_of (b : CacheBase) (addr : Z) : Z := Z.shiftr addr (m_log_blocksize b).

Section invariant.
Context {P : Type} `{!ReplacementPolicy P} `{!ReplacementPolicyLaws P}.
Implicit Types (c : Cache P).

(** The lines the sets of the cache hold. *)
Definition resident c : gset Z := ⋃ ((fun s => valid_tags (base s)) <$> m_sets c).

(** A tag is held by the set its addresses are mapped to. *)
Definition placed (b : CacheBase) (i : nat) (t : Z) : Prop :=
  exists a s, in_range 64 a /\ t = line_of b a /\ splitAddress b a = Ok (t, s) /\ Z.to_nat s = i.

Record line_set_wf c (i : nat) (s : CacheSet P) (si : option CacheSetInfoLRU) : Prop := {
  lw_set : set_wf (m_cache_type c) (base s);
  lw_unique : unique_tags (base s);
  lw_policy : policy_wf (base s) (policy s) si;
  lw_block : cs_blocksize (base s) = m_blocksize (cb c);
  lw_assoc : m_associativity (base s) = cache_associativity c;
  lw_placed : forall t, t ∈ valid_tags (base s) -> placed (cb c) i t
}.

Definition stats_wf (r : ReuseStats) : Prop := length (reuse r) = 5 /\ length (util r) = 8.

(** The representation invariant of a cache. *)
Record cache_wf c : Prop := {
  cw_cb : cb_wf (cb c);
  cw_hash : hash_total (cb c);
  cw_log : (1 <= m_log_blocksize (cb c))%Z;
  cw_type : m_cache_type c <> INVALID_CACHE_TYPE;
  cw_len : length (m_sets c) = Z.to_nat (m_num_sets (cb c));
  cw_sets : forall i s, m_sets c !! i = Some s -> line_set_wf c i s (m_set_info c);
  cw_data_stats : stats_wf (data_stats c);
  cw_metadata_stats : stats_wf (metadata_stats c)
}.

Lemma elem_of_resident c t :
  t ∈ resident c <-> exists i s, m_sets c !! i = Some s /\ t ∈ valid_tags (base s).
Proof.
  unfold resident. rewrite elem_of_union_list. split.
  - intros (X & HX & Ht). apply list_elem_of_fmap in HX as (s & -> & Hs).
    apply list_elem_of_lookup in Hs as [i Hi]. eauto.
  - intros (i & s & Hi & Ht). exists (valid_tags (base s)). split; [|done].
    apply list_elem_of_fmap. exists s. split; [done|]. apply list_elem_of_lookup. eauto.
Qed.

Section at_address.
Context (c : Cache P) (Hc : cache_wf c) (addr : Z) (Haddr : in_range 64 addr).

(** The set an address is mapped to. *)
Lemma address_set :
  exists si s, splitAddress (cb c) addr = Ok (line_of (cb c) addr, si) /\
    (0 <= si < m_num_sets (cb c))%Z /\ m_sets c !! Z.to_nat si = Some s /\
    get_set c si = Ok s /\ line_set_wf c (Z.to_nat si) s (m_set_info c).
Proof.
  destruct (splitAddress_total (cb c) addr (cw_cb _ Hc) (cw_hash _ Hc) Haddr) as (si & E & Hsi).
  destruct (lookup_lt_is_Some_2 (m_sets c) (Z.to_nat si)) as [s Hs].
  { rewrite (cw_len _ Hc). lia. }
  exists si, s. split_and!; try done; try lia; [by apply rd_Ok|by apply (cw_sets _ Hc)].
Qed.

Lemma line_of_range : (0 <= line_of (cb c) addr < INVALID_TAG)%Z.
Proof.
  destruct Haddr as [H1 H2]. unfold line_of. pose proof (cw_log _ Hc) as Hl.
  split; [by apply Z.shiftr_nonneg|]. rewrite Z.shiftr_div_pow2 by lia.
  assert (2 ^ 1 <= 2 ^ m_log_blocksize (cb c))%Z by (apply Z.pow_le_mono_r; lia).
  apply Z.div_lt_upper_bound; [lia|]. unfold INVALID_TAG. nia.
Qed.

Lemma line_of_valid : line_of (cb c) addr <> INVALID_TAG.
Proof. pose proof line_of_range. lia. Qed.

(** The tag of an address is placed in its set only. *)
Lemma placed_unique i si :
  splitAddress (cb c) addr = Ok (line_of (cb c) addr, si) -> placed (cb c) i (line_of (cb c) addr) ->
  i = Z.to_nat si.
Proof.
  intros E (a & s & Ha & Et & Es & <-).
  rewrite (splitAddress_same_block (cb c) addr a (cw_cb _ Hc) Haddr Ha Et) in E. congruence.
Qed.

Lemma resident_at_set si s :
  splitAddress (cb c) addr = Ok (line_of (cb c) addr, si) -> m_sets c !! Z.to_nat si = Some s ->
  line_of (cb c) addr ∈ resident c <-> line_of (cb c) addr ∈ valid_tags (base s).
Proof.
  intros E Hs. rewrite elem_of_resident. split; [|by eauto]. intros (i & s' & Hi & Ht).
  assert (i = Z.to_nat si) as -> by (apply placed_unique; [done|]; by apply (cw_sets _ Hc _ _ Hi)).
  congruence.
Qed.

End at_address.

(** Replacing one set. *)
Section replace_set.
Context (c : Cache P) (Hc : cache_wf c) (si : Z) (s s' : CacheSet P).
Context (Hs : m_sets c !! Z.to_nat si = Some s) (info : option CacheSetInfoLRU).
Context (Hinfo : info_shape (m_set_info c) info).
Context (Hs' : line_set_wf c (Z.to_nat si) s' info).

Lemma put_set_Ok : exists c', put_set c si s' info = Ok c' /\ cache_wf c' /\
  c' = set_sets (<[Z.to_nat si := s']> (m_sets c)) info c.
Proof.
  unfold put_set. rewrite wr_lt by (by eapply lookup_lt_Some). eexists. split; [done|].
  split; [|done]. destruct Hc as [H1 H2 H3 H4 H5 H6 H7 H8]. split; cbn; try done.
  - by rewrite length_insert.
  - intros i s1. rewrite list_lookup_insert. case_decide as E.
    + destruct E as [<- _]. intros [= <-]. destruct Hs'. by split.
    + intros Hi. destruct (H6 i s1 Hi). split; try done. by eapply policy_wf_ext.
Qed.

Lemma resident_put_set t :
  t ∈ resident (set_sets (<[Z.to_nat si := s']> (m_sets c)) info c) <->
  t ∈ valid_tags (base s') \/ (t ∈ resident c /\ t ∉ valid_tags (base s)).
Proof.
  rewrite !elem_of_resident. cbn. pose proof (lookup_lt_Some _ _ _ Hs) as Hlt. split.
  - intros (i & s1 & Hi & Ht). rewrite list_lookup_insert in Hi. case_decide as E.
    + left. by injection Hi as <-.
    + right. split; [by eauto|]. intros Ht'.
      destruct (lw_placed _ _ _ _ (cw_sets _ Hc _ _ Hi) t Ht) as (a & z & Ha & -> & Ez & <-).
      pose proof (lw_placed _ _ _ _ (cw_sets _ Hc _ _ Hs) _ Ht') as Hp.
      apply E. split; [|done]. by apply (placed_unique c Hc a Ha).
  - intros [Ht|[(i & s1 & Hi & Ht) Hn]].
    + exists (Z.to_nat si), s'. by rewrite list_lookup_insert_eq.
    + exists i, s1. rewrite list_lookup_insert_ne; [done|]. intros <-. rewrite Hs in Hi. by injection Hi as <-.
Qed.

End replace_set.

(** A set that differs from a well-formed one in data only. *)
Lemma line_set_wf_same c i s s' si si' :
  line_set_wf c i s si -> info_shape si si' -> set_wf (m_cache_type c) (base s') ->
  policy_wf (base s') (policy s') si' -> same_blocks (base s) (base s') -> line_set_wf c i s' si'.
Proof.
  intros [H1 H2 H3 H4 H5 H6] Hsh Hw Hp (Ea & Eas & Eac & Ebs). split; try done.
  - by eapply unique_tags_ext.
  - by rewrite Ebs.
  - by rewrite Eas.
  - intros t. rewrite <- (valid_tags_ext _ _ (eq_sym Ea)). apply H6.
Qed.

(** The update of the replacement state of a way of a set. *)
Lemma touch_policy c i s si w :
  line_set_wf c i s si -> w < m_associativity (base s) ->
  exists p' e', updateReplacementIndex (base s) w (policy s) (mkEnv si None) = Ok (p', e') /\
    policy_wf (base s) p' (set_info e') /\ info_shape si (set_info e').
Proof.
  intros Hw Hlt. exact (updateReplacementIndex_total _ _ _ (mkEnv si None) w (lw_set _ _ _ _ Hw)
    (lw_policy _ _ _ _ Hw) Hlt).
Qed.

(** Accesses within the line succeed and change data and replacement state only. *)
Lemma touch_line_Ok c i s si w off acc buff bytes upd :
  line_set_wf c i s si -> w < m_associativity (base s) ->
  (0 <= off)%Z -> (0 <= bytes)%Z -> (off + bytes <= cs_blocksize (base s))%Z ->
  (forall d, buff = Some d -> (bytes <= Z.of_nat (length d))%Z) ->
  exists d s' si', touch_line s w off acc buff bytes upd si = Ok (d, s', si') /\
    same_blocks (base s) (base s') /\ line_set_wf c i s' si' /\ info_shape si si'.
Proof.
  intros Hw Hlt Ho Hb Hle Hbuf. pose proof (lw_set _ _ _ _ Hw) as Hset.
  pose proof (set_wf_size _ _ Hset). pose proof (set_wf_data _ _ Hset) as Hdata.
  assert (Hu : u32 (off + bytes) = (off + bytes)%Z) by (apply wrap_small; split; lia).
  destruct (touch_policy _ _ _ _ w Hw Hlt) as (p' & e' & Hup & Hp' & Hsh).
  assert (Hrange : forall d, m_blocks (base s) = Some d ->
    w * Z.to_nat (cs_blocksize (base s)) + Z.to_nat off + Z.to_nat bytes <= length d).
  { intros d Hd. rewrite (Hdata d Hd). nia. }
  unfold touch_line. destruct (bool_decide (acc = LOAD)).
  - unfold read_line. rewrite Hu, (proj2 (Z.leb_le _ _)) by done. cbn [check mbind res_bind].
    set (q := match bool_decide (is_Some buff), m_blocks (base s) with true, Some d => _ | _, _ => _ end).
    assert (Hq : exists d, q = Ok d).
    { unfold q. destruct (bool_decide _), (m_blocks (base s)) as [d|] eqn:Ed; eauto.
      destruct (slice_Ok d (w * Z.to_nat (cs_blocksize (base s)) + Z.to_nat off) (Z.to_nat bytes)
        (Hrange d eq_refl)) as (x & -> & _). eauto. }
    destruct Hq as [d ->]. cbn [mbind res_bind]. destruct upd.
    + rewrite Hup. eexists _, _, _. split_and!; try done. by eapply line_set_wf_same.
    + by eexists _, _, _.
  - unfold write_line. rewrite Hu, (proj2 (Z.leb_le _ _)) by done. cbn [check mbind res_bind].
    set (q := match buff, m_blocks (base s) with Some src, Some d => _ | _, _ => _ end).
    assert (Hq : exists b, q = Ok b /\ same_blocks (base s) b /\ set_wf (m_cache_type c) b).
    { unfold q. destruct buff as [src|], (m_blocks (base s)) as [d|] eqn:Ed; try by exists (base s).
      specialize (Hbuf src eq_refl).
      destruct (slice_Ok src 0 (Z.to_nat bytes) ltac:(lia)) as (x & -> & Hx). cbn [mbind res_bind].
      destruct (splice_Ok d (w * Z.to_nat (cs_blocksize (base s)) + Z.to_nat off) x) as (d' & -> & Hd').
      { rewrite Hx. by apply Hrange. }
      eexists. split_and!; [done..|]. destruct Hset. split; cbn; try done. intros y [= <-].
      rewrite Hd'. by apply Hdata. }
    destruct Hq as (b & -> & Hsame & Hb'). cbn [mbind res_bind].
    assert (Hlw : line_set_wf c i (mkCacheSet b (policy s)) si).
    { eapply line_set_wf_same; [exact Hw|done|done| |done]. cbn.
      eapply policy_wf_ext; [|reflexivity|apply (lw_policy _ _ _ _ Hw)]. symmetry. apply Hsame. }
    destruct upd; [|by eexists _, _, _].
    destruct (touch_policy _ _ _ _ w Hlw) as (p2 & e2 & Hup2 & Hp2 & Hsh2).
    { destruct Hsame as (_ & E & _). cbn. by rewrite E. }
    cbn in Hup2. rewrite Hup2. eexists _, _, _. split_and!; try done.
    eapply (line_set_wf_same _ _ (mkCacheSet b (policy s))); [exact Hlw|done|done|done|done].
Qed.

End invariant.

(** ** Every operation refines its effect on the resident lines *)

Section operations_refine.
Context {P : Type} `{!ReplacementPolicy P} `{!ReplacementPolicyLaws P}.
Implicit Types (c : Cache P).

Lemma bump_Ok l i : i < length l -> exists l', bump l i = Ok l' /\ length l' = length l.
Proof.
  intros Hi. unfold bump. destruct (rd_lookup l i Hi) as (x & -> & _). cbn [mbind res_bind].
  rewrite wr_lt by done. eexists. split; [done|]. by rewrite length_insert.
Qed.

Lemma count_evicted_Ok b r : stats_wf r -> exists r', count_evicted b r = Ok r' /\ stats_wf r'.
Proof.
  intros [H1 H2]. unfold count_evicted.
  destruct (bump_Ok (reuse r) (reuse_bucket (m_reuse b))) as (l1 & -> & E1).
  { rewrite H1. unfold reuse_bucket. case_tests; lia. }
  cbn [mbind res_bind]. set (k := if (7 <? _)%Z then 7%Z else _).
  assert (Hk : (0 <= k <= 7)%Z).
  { unfold k. destruct (Z.ltb_spec 7 (bits_set (m_used b))); [lia|].
    split; [apply popcount_nonneg|lia]. }
  destruct (bump_Ok (util r) (Z.to_nat k)) as (l2 & -> & E2); [lia|].
  cbn [mbind res_bind]. eexists. split; [done|]. split; cbn; lia.
Qed.

Lemma count_insertion_Ok c ev b :
  cache_wf c -> exists c', count_insertion ev b c = Ok c' /\ cache_wf c' /\
    resident c' = resident c /\ cb c' = cb c /\ bypasses_metadata c' = bypasses_metadata c.
Proof.
  intros Hc. pose proof Hc as [H1 H2 H3 H4 H5 H6 Hd Hm]. unfold count_insertion.
  assert (Hset : forall d m, stats_wf d -> stats_wf m -> cache_wf (set_stats d m c)).
  { intros d m Hd' Hm'. split; cbn; try done. intros i s Hi. destruct (H6 i s Hi). by split. }
  destruct ev; [|by exists c].
  destruct (count_evicted_Ok b _ Hd) as (d & -> & Hd'), (count_evicted_Ok b _ Hm) as (m & -> & Hm').
  destruct (_ || _); cbn [mbind res_bind]; [|destruct (isMetadataBlockType _); cbn [mbind res_bind]];
    eexists; (split; [done|]); split; try done; by apply Hset.
Qed.

(** The offset of an address in its line. *)
Definition line_offset (b : CacheBase) (addr : Z) : Z := u32 (Z.land addr (u32 (m_blocksize b - 1))).

(** The effect of storing a set with the same blocks. *)
Lemma put_same c si s s' info :
  cache_wf c -> m_sets c !! Z.to_nat si = Some s -> info_shape (m_set_info c) info ->
  line_set_wf c (Z.to_nat si) s' info -> valid_tags (base s') = valid_tags (base s) ->
  exists c', put_set c si s' info = Ok c' /\ cache_wf c' /\ resident c' = resident c /\ cb c' = cb c /\
    bypasses_metadata c' = bypasses_metadata c.
Proof.
  intros Hc Hs Hi Hw Hv. destruct (put_set_Ok c Hc si s s' Hs info Hi Hw) as (c' & -> & Hc' & ->).
  eexists. split_and!; try done. apply set_eq. intros t. rewrite (resident_put_set c Hc si s s' Hs info), Hv.
  split; [intros [Ht|[Ht _]]; [|done]|intros Ht].
  - apply elem_of_resident. eauto.
  - destruct (decide (t ∈ valid_tags (base s))); [by left|by right].
Qed.

Lemma access_effect c addr acc buff bytes upd :
  cache_wf c -> bypasses_metadata c = false -> in_range 64 addr -> (0 <= bytes)%Z ->
  (line_offset (cb c) addr + bytes <= m_blocksize (cb c))%Z ->
  (forall d, buff = Some d -> (bytes <= Z.of_nat (length d))%Z) ->
  exists r c', accessSingleLine c addr acc buff bytes upd false = Ok (r, c') /\
    bool_decide (is_Some r) = bool_decide (line_of (cb c) addr ∈ resident c) /\
    cache_wf c' /\ resident c' = resident c /\ cb c' = cb c /\ bypasses_metadata c' = false.
Proof.
  intros Hc Hby Ha Hb Hle Hbuf. unfold accessSingleLine, splitAddressOffset.
  destruct (address_set c Hc addr Ha) as (si & s & E & Hsi & Hs & Hget & Hw). rewrite E. cbn [mbind res_bind].
  rewrite Hget. cbn [mbind res_bind]. pose proof (lw_set _ _ _ _ Hw) as Hset.
  rewrite (bool_decide_ext _ _ (resident_at_set c Hc addr Ha si s E Hs)).
  pose proof (line_of_valid c Hc addr Ha) as Hne.
  destruct (decide (line_of (cb c) addr ∈ valid_tags (base s))) as [Hin|Hin].
  - rewrite (bool_decide_true (_ ∈ _)) by done.
    destruct (set_find_is_Some _ _ Hset _ Hin) as [w Hf]. rewrite Hf. cbn [mbind res_bind].
    destruct (set_find_Some _ _ Hset _ _ Hf) as (Hw' & b & Hbk & _).
    rewrite (proj2 (rd_Ok _ _ _) Hbk). cbn [mbind res_bind andb].
    destruct (touch_line_Ok c _ s _ w (line_offset (cb c) addr) acc buff bytes upd Hw Hw')
      as (d & s' & si' & Ht & Hsame & Hw2 & Hsh); try done.
    { by apply wrap_range'. }
    { by rewrite (lw_block _ _ _ _ Hw). }
    unfold line_offset in Ht. rewrite Ht. cbn [mbind res_bind].
    destruct (put_same c si s s' si' Hc Hs Hsh Hw2) as (c' & -> & Hc' & Hr & Hcb & Hby').
    { apply valid_tags_ext, Hsame. }
    cbn [mbind res_bind]. eexists _, _. split; [done|]. rewrite Hby'. by split_and!.
  - rewrite (bool_decide_false (_ ∈ _)) by done.
    rewrite (proj2 (set_find_None _ _ Hset _ Hne) Hin). cbn [mbind res_bind].
    rewrite Hby. by eexists _, _.
Qed.

Lemma invalidate_effect c addr :
  cache_wf c -> bypasses_metadata c = false -> in_range 64 addr ->
  exists c', invalidateSingleLine c addr = Ok (bool_decide (line_of (cb c) addr ∈ resident c), c') /\
    cache_wf c' /\ resident c' = resident c ∖ {[line_of (cb c) addr]} /\ cb c' = cb c /\
    bypasses_metadata c' = false.
Proof.
  intros Hc Hby Ha. unfold invalidateSingleLine.
  destruct (address_set c Hc addr Ha) as (si & s & E & Hsi & Hs & Hget & Hw). rewrite E. cbn [mbind res_bind].
  rewrite (proj2 (Z.ltb_lt _ _)) by lia. rewrite Hby. cbn [check mbind res_bind]. rewrite Hget. cbn [mbind res_bind].
  pose proof (line_of_valid c Hc addr Ha) as Hne.
  destruct (set_invalidate_spec _ (base s) (line_of (cb c) addr) (lw_set _ _ _ _ Hw) (lw_unique _ _ _ _ Hw) Hne)
    as (b & -> & Hv & Hu & Hwf & Has & Hac & Hbs). cbn [mbind res_bind].
  assert (Hw' : line_set_wf c (Z.to_nat si) (mkCacheSet b (policy s)) (m_set_info c)).
  { destruct Hw as [W1 W2 W3 W4 W5 W6]. split; cbn; try done; [|congruence|congruence|].
    - by eapply policy_wf_ext; [|reflexivity|exact W3].
    - intros t. rewrite Hv. intros [Ht _]%elem_of_difference. by apply W6. }
  destruct (put_set_Ok c Hc si s _ Hs (m_set_info c) ltac:(reflexivity) Hw') as (c' & -> & Hc' & ->).
  cbn [mbind res_bind]. rewrite orb_false_r, (bool_decide_ext _ _ (resident_at_set c Hc addr Ha si s E Hs)).
  eexists. split_and!; try done. apply set_eq. intros t.
  rewrite (resident_put_set c Hc si s _ Hs (m_set_info c)). cbn [base].
  rewrite Hv, !elem_of_difference, !elem_of_singleton. split.
  - intros [[Ht Hn]|[Ht Hn]].
    + split; [|done]. apply elem_of_resident. eauto.
    + split; [done|]. intros ->. apply Hn. by apply (resident_at_set c Hc addr Ha si s E Hs).
  - intros [Ht Hn]. destruct (decide (t ∈ valid_tags (base s))); [by left|by right].
Qed.

(** The victim, if any. *)
Definition evicted (r : insertion P) : option Z :=
  if in_eviction r then Some (m_tag (in_evict_info r)) else None.

(** What leaves the cache. *)
Definition without (v : option Z) (R : gset Z) : gset Z :=
  match v with Some t => R ∖ {[t]} | None => R end.

Lemma resident_insert c si s s' info line (v : option Z) :
  cache_wf c -> m_sets c !! Z.to_nat si = Some s -> line ∉ valid_tags (base s) ->
  valid_tags (base s') = {[line]} ∪ without v (valid_tags (base s)) ->
  (forall t, v = Some t -> t ∈ valid_tags (base s)) ->
  resident (set_sets (<[Z.to_nat si := s']> (m_sets c)) info c) = {[line]} ∪ without v (resident c).
Proof.
  intros Hc Hs Hn Hv Hin. apply set_eq. intros t. rewrite (resident_put_set c Hc si s s' Hs info), Hv.
  assert (Hsub : valid_tags (base s) ⊆ resident c).
  { intros x Hx. apply elem_of_resident. eauto. }
  destruct v as [v|]; cbn [without].
  - specialize (Hin v eq_refl). destruct (decide (t ∈ valid_tags (base s))); set_solver.
  - destruct (decide (t ∈ valid_tags (base s))); set_solver.
Qed.

(** The block a line is inserted as. *)
Lemma create_kind c t btype :
  cache_wf c -> exists b, CacheBlockInfo_create (m_cache_type c) = Ok b /\
    block_kind (m_cache_type c) (setBlockType btype (setTag t b)).
Proof. intros Hc. pose proof (cw_type _ Hc). destruct (m_cache_type c); [done|..]; by eexists. Qed.

Lemma insert_effect c addr fill ev want ctl btype :
  cache_wf c -> bypasses_metadata c = false -> in_range 64 addr ->
  line_of (cb c) addr ∉ resident c -> receives (m_cache_type c) ev ->
  (forall d, fill = Some d -> Z.to_nat (m_blocksize (cb c)) <= length d) ->
  exists si s, splitAddress (cb c) addr = Ok (line_of (cb c) addr, si) /\
    m_sets c !! Z.to_nat si = Some s /\
    match getReplacementIndex (base s) (policy s) (mkEnv (m_set_info c) ctl) with
    | Err f => insertSingleLine c addr fill ev want ctl btype = Err f
    | Ok (i, _, _) => exists r, insertSingleLine c addr fill ev want ctl btype = Ok r /\
        cache_wf (in_cache r) /\ cb (in_cache r) = cb c /\ bypasses_metadata (in_cache r) = false /\
        resident (in_cache r) = {[line_of (cb c) addr]} ∪ without (evicted r) (resident c) /\
        (forall t, evicted r = Some t -> t ∈ resident c) /\
        in_evict_addr r = tagToAddress (cb c) (m_tag (in_evict_info r)) /\
        in_eviction r = match m_cache_block_info_array (base s) !! i with
                        | Some b => isValid b | None => false end
    end.
Proof.
  intros Hc Hby Ha Hnin Hrec Hfill. unfold insertSingleLine.
  destruct (address_set c Hc addr Ha) as (si & s & E & Hsi & Hs & Hget & Hw). rewrite E.
  exists si, s. split; [done|]. split; [done|]. cbn [mbind res_bind].
  destruct (create_kind c (line_of (cb c) addr) btype Hc) as (b & -> & Hk). cbn [mbind res_bind].
  rewrite Hby. cbn [andb]. rewrite Hget. cbn [mbind res_bind].
  set (info := setBlockType btype (setTag (line_of (cb c) addr) b)) in *.
  set (e := mkEnv (m_set_info c) ctl).
  destruct (getReplacementIndex (base s) (policy s) e) as [[[i p'] e']|f] eqn:Eg.
  2: { unfold set_insert. rewrite Eg. done. }
  assert (Hv : isValid info = true) by (apply isValid_tag; by apply line_of_valid).
  assert (Hnin' : m_tag info ∉ valid_tags (base s)).
  { intros Hin. apply Hnin. by apply (resident_at_set c Hc addr Ha si s E Hs). }
  assert (Hfill' : forall d, fill = Some d -> Z.to_nat (cs_blocksize (base s)) <= length d).
  { rewrite (lw_block _ _ _ _ Hw). exact Hfill. }
  destruct (set_insert_spec (m_cache_type c) s info fill ev want e i p' e' (lw_set _ _ _ _ Hw)
    (lw_policy _ _ _ _ Hw) Hk Hrec Hfill' Eg) as (old & new & r & Hold & _ & Hins & Hev & _ & (_ & Eas & _ & Ebs) & _).
  destruct (set_insert_tags (m_cache_type c) s info fill ev want e i p' e' (lw_set _ _ _ _ Hw)
    (lw_policy _ _ _ _ Hw) (lw_unique _ _ _ _ Hw) Hk Hrec Hfill' Hv Hnin' Eg)
    as (r2 & Hins2 & Htags & Hevin & Hu & Hwf & Hpol & Hsh & _ & _).
  rewrite Hins in Hins2. injection Hins2 as <-. rewrite Hins. cbn [mbind res_bind].
  set (v := if eviction r then Some (m_tag (evict_block_info r)) else None).
  assert (Hv1 : valid_tags (base (ins_set r)) = {[line_of (cb c) addr]} ∪ without v (valid_tags (base s))).
  { rewrite Htags. unfold v. by destruct (eviction r). }
  assert (Hv2 : forall t, v = Some t -> t ∈ valid_tags (base s)).
  { unfold v. destruct (eviction r) eqn:Er; [|done]. intros t [= <-]. by apply Hevin. }
  assert (Hw' : line_set_wf c (Z.to_nat si) (ins_set r) (set_info (ins_env r))).
  { split; try done; [by rewrite Ebs, <- (lw_block _ _ _ _ Hw)|by rewrite Eas, <- (lw_assoc _ _ _ _ Hw)|].
    intros t. rewrite Hv1. intros [->%elem_of_singleton|Ht]%elem_of_union.
    - exists addr, si. done.
    - apply (lw_placed _ _ _ _ Hw). destruct v; set_solver. }
  destruct (put_set_Ok c Hc si s (ins_set r) Hs _ Hsh Hw') as (c1 & -> & Hc1 & Ec1). cbn [mbind res_bind].
  assert (Hres : resident c1 = {[line_of (cb c) addr]} ∪ without v (resident c)).
  { rewrite Ec1. apply (resident_insert c si s); [done|done|exact Hnin'|done|done]. }
  destruct (count_insertion_Ok c1 (eviction r) (evict_block_info r) Hc1) as (c2 & -> & Hc2 & Hr2 & Hcb2 & Hby2).
  cbn [mbind res_bind]. eexists. split; [done|]. cbn [in_cache in_evict_addr in_evict_info in_eviction].
  unfold evicted. cbn [in_eviction in_evict_info]. fold v.
  split_and!; [done|by rewrite Hcb2, Ec1|by rewrite Hby2, Ec1|by rewrite Hr2| |by rewrite Ec1|by rewrite Hold].
  intros t Ht. apply elem_of_resident. eauto.
Qed.

End operations_refine.

(** ** A new cache satisfies the invariant *)

Section new_cache.
Context {P : Type} `{!ReplacementPolicy P} `{!ReplacementPolicyLaws P}.
Context (create : nat -> res P) (info : option CacheSetInfoLRU) (ty : cache_t) (n : nat).
Context (Hty : ty <> INVALID_CACHE_TYPE) (Hn : 0 < n).
Context (Hcreate : forall s, m_associativity s = n -> set_wf ty s ->
  exists p, create n = Ok p /\ policy_wf s p info).

Lemma CacheSet_new_wf bs with_data :
  (0 <= bs < 2 ^ 32)%Z -> exists s, CacheSet_new ty n bs false with_data = Ok s /\ set_wf ty s /\
    m_associativity s = n /\ cs_blocksize s = bs /\ valid_tags s = ∅ /\ unique_tags s.
Proof.
  intros Hbs. unfold CacheSet_new.
  assert (exists b, CacheBlockInfo_create ty = Ok b /\ block_kind ty b /\ isValid b = false) as (b & -> & Hk & Hv).
  { destruct ty; [done|..]; by eexists. }
  cbn [mbind res_bind]. eexists. split; [done|]. split_and!; try done.
  - split; cbn; [apply length_replicate|lia|by apply Forall_replicate|done|].
    destruct with_data; [|done]. intros d [= <-]. apply length_replicate.
  - apply set_eq. intros t. rewrite elem_of_valid_tags. cbn. split; [|set_solver].
    intros (i & b' & Hb & Hv' & _). apply lookup_replicate in Hb as [-> _]. congruence.
  - intros i j bi bj Hi _ Hvi. cbn in Hi. apply lookup_replicate in Hi as [-> _]. congruence.
Qed.

Lemma make_sets_wf bs with_data k :
  (0 <= bs < 2 ^ 32)%Z ->
  exists l, make_sets create ty n bs with_data k = Ok l /\ length l = k /\
    forall s, s ∈ l -> set_wf ty (base s) /\ m_associativity (base s) = n /\ cs_blocksize (base s) = bs /\
      valid_tags (base s) = ∅ /\ unique_tags (base s) /\ policy_wf (base s) (policy s) info.
Proof.
  intros Hbs. induction k as [|k IH]; cbn [make_sets].
  { exists []. split_and!; try done. intros s Hs. by apply not_elem_of_nil in Hs. }
  destruct (CacheSet_new_wf bs with_data Hbs) as (s & -> & Hs & Ha & Hb & Hv & Hu). cbn [mbind res_bind].
  destruct (Hcreate s Ha Hs) as (p & -> & Hp). cbn [mbind res_bind].
  destruct IH as (l & -> & Hl & Hall). cbn [mbind res_bind].
  eexists. split; [done|]. split; [cbn; by rewrite Hl|]. intros s' [->|Hs']%elem_of_cons; [done|auto].
Qed.

Lemma Cache_new_wf name sets b hash pages loc with_data c :
  (1 <= b < 32)%Z -> (0 < sets < 2 ^ 32)%Z -> hash <> INVALID_HASH_TYPE ->
  bool_decide (name = "L2"%string) && (2 <? loc)%Z = false ->
  (match hash with HASH_XOR_MOD => sets = 2 ^ Z.log2 sets | HASH_MER_MOD => 2 <= sets | _ => True end)%Z ->
  Cache_new name sets (Z.of_nat n) (2 ^ b) create info ty hash None pages loc with_data = Ok c ->
  cache_wf c /\ resident c = ∅ /\ bypasses_metadata c = false /\ m_cache_type c = ty.
Proof.
  intros Hb Hs Hh Hby Ht. unfold Cache_new. intros H.
  assert (0 < 2 ^ b < 2 ^ 32)%Z by (split; [apply Z.pow_pos_nonneg; lia|apply Z.pow_lt_mono_r; lia]).
  destruct (CacheBase_new _ _ _ _ _ _) as [cbase|] eqn:Ecb; [|done]. cbn [mbind res_bind] in H.
  destruct (CacheBase_new_wf name sets (Z.of_nat n) b hash cbase ltac:(lia) Hs Hh Ecb) as (Hcb & E1 & E2 & E3).
  assert (E4 : m_blocksize cbase = (2 ^ b)%Z /\ cb_associativity cbase = Z.of_nat n /\ m_name cbase = name).
  { unfold CacheBase_new in Ecb. by inv_res. }
  destruct E4 as (E4 & E5 & E6). rewrite Nat2Z.id in H.
  destruct (make_sets_wf (2 ^ b) with_data (Z.to_nat sets) ltac:(lia)) as (l & El & Hl & Hall).
  rewrite El in H. cbn [mbind res_bind] in H. rewrite Hby in H. cbn [mbind res_bind] in H.
  injection H as <-.
  assert (Hin : forall i s, l !! i = Some s -> s ∈ l) by (intros; by eapply list_elem_of_lookup_2).
  split_and!; [split; cbn; try done| |unfold bypasses_metadata; cbn; by rewrite E6|done].
  - unfold hash_total. rewrite E1, E3. by destruct hash.
  - rewrite E2. lia.
  - by rewrite Hl, E1.
  - intros i s Hi. destruct (Hall s (Hin i s Hi)) as (W1 & W2 & W3 & W4 & W5 & W6). split; cbn; try done.
    + by rewrite W3, E4.
    + rewrite W2. unfold cache_associativity. cbn. by rewrite E5, Nat2Z.id.
    + intros t. rewrite W4. set_solver.
  - apply set_eq. intros t. rewrite elem_of_resident. cbn. split; [|set_solver].
    intros (i & s & Hi & Ht'). destruct (Hall s (Hin i s Hi)) as (_ & _ & _ & W4 & _). by rewrite W4 in Ht'.
Qed.

End new_cache.

(** ** Traces *)

(** The requests a controller makes to a cache. *)
Inductive request :=
| Access (addr : Z) (access_type : access_t) (buff : option (list Z)) (bytes : Z) (update : bool)
| Invalidate (addr : Z)
| Insert (addr : Z) (fill : option (list Z)) (evict_info : CacheBlockInfo) (want_data : bool)
    (ctl : option CacheCntlr) (btype : block_type_t).

Inductive response := Hit (h : bool) | Invalidated (h : bool) | Inserted (victim : option Z).

(** The abstract cache: a hit is residence, an invalidation removes the line, and an
    insertion adds the line and may evict one resident line. *)
Inductive line_step (b : CacheBase) : gset Z -> request -> response -> gset Z -> Prop :=
| LAccess R addr acc buff bytes upd :
    line_step b R (Access addr acc buff bytes upd) (Hit (bool_decide (line_of b addr ∈ R))) R
| LInvalidate R addr :
    line_step b R (Invalidate addr) (Invalidated (bool_decide (line_of b addr ∈ R)))
      (R ∖ {[line_of b addr]})
| LInsert R addr fill ev want ctl btype v :
    (forall t, v = Some t -> t ∈ R) ->
    line_step b R (Insert addr fill ev want ctl btype) (Inserted v) ({[line_of b addr]} ∪ without v R).

Section traces.
Context {P : Type} `{!ReplacementPolicy P} `{!ReplacementPolicyLaws P}.
Implicit Types (c : Cache P).

(** The concrete step. *)
Definition serve c (r : request) : res (response * Cache P) :=
  match r with
  | Access addr acc buff bytes upd =>
      '(o, c) ← accessSingleLine c addr acc buff bytes upd false;
      Ok (Hit (bool_decide (is_Some o)), c)
  | Invalidate addr =>
      '(h, c) ← invalidateSingleLine c addr; Ok (Invalidated h, c)
  | Insert addr fill ev want ctl btype =>
      r ← insertSingleLine c addr fill ev want ctl btype; Ok (Inserted (evicted r), in_cache r)
  end.

(** Requests within a line; a line is inserted after it missed. *)
Definition legal c (r : request) : Prop :=
  match r with
  | Access addr _ buff bytes _ =>
      in_range 64 addr /\ (0 <= bytes)%Z /\ (line_offset (cb c) addr + bytes <= m_blocksize (cb c))%Z /\
      (forall d, buff = Some d -> (bytes <= Z.of_nat (length d))%Z)
  | Invalidate addr => in_range 64 addr
  | Insert addr fill ev _ _ _ =>
      in_range 64 addr /\ (line_of (cb c) addr ∉ resident c) /\ receives (m_cache_type c) ev /\
      (forall d, fill = Some d -> Z.to_nat (m_blocksize (cb c)) <= length d)
  end.

Lemma serve_refines c r o c' :
  cache_wf c -> bypasses_metadata c = false -> legal c r -> serve c r = Ok (o, c') ->
  line_step (cb c) (resident c) r o (resident c') /\ cache_wf c' /\ cb c' = cb c /\
  bypasses_metadata c' = false.
Proof.
  intros Hc Hby Hl H. destruct r as [addr acc buff bytes upd|addr|addr fill ev want ctl btype]; cbn in H, Hl.
  - destruct Hl as (Ha & Hb & Hle & Hbuf).
    destruct (access_effect c addr acc buff bytes upd Hc Hby Ha Hb Hle Hbuf) as (x & c1 & E & Ho & Hc1 & Hr & Hcb & Hby1).
    rewrite E in H. injection H as <- <-. rewrite Ho, Hr. split_and!; try done. constructor.
  - destruct (invalidate_effect c addr Hc Hby Hl) as (c1 & E & Hc1 & Hr & Hcb & Hby1).
    rewrite E in H. injection H as <- <-. rewrite Hr. split_and!; try done. constructor.
  - destruct Hl as (Ha & Hn & Hrec & Hfill).
    destruct (insert_effect c addr fill ev want ctl btype Hc Hby Ha Hn Hrec Hfill) as (si & s & _ & _ & Hm).
    destruct (getReplacementIndex _ _ _) as [[[i p'] e']|]; [|by rewrite Hm in H].
    destruct Hm as (x & E & Hc1 & Hcb & Hby1 & Hr & Hev & _). rewrite E in H. injection H as <- <-.
    rewrite Hr. split_and!; try done. by constructor.
Qed.

(** Runs of the cache and of the abstract cache. *)
Inductive run : Cache P -> list (request * response) -> Cache P -> Prop :=
| run_nil c : run c [] c
| run_cons c r o c1 tr c2 :
    legal c r -> serve c r = Ok (o, c1) -> run c1 tr c2 -> run c ((r, o) :: tr) c2.

Inductive line_run (b : CacheBase) : gset Z -> list (request * response) -> gset Z -> Prop :=
| line_nil R : line_run b R [] R
| line_cons R r o R1 tr R2 :
    line_step b R r o R1 -> line_run b R1 tr R2 -> line_run b R ((r, o) :: tr) R2.

End traces.
