(* ===== verification/CacheLines.v ===== *)
(** * The lines of a cache, with their blocks

    The operations of [Cache.v] seen through the block that an address finds: where it is
    and what it contains. The controllers are proved on this view. *)

From stdpp Require Import base tactics numbers gmap sets list strings.
From Stdlib Require Import ZArith Lia.
From S2P Require Import Prelude Utils CacheBase CacheBlock CacheSet Cache.
Local Open Scope nat_scope.

Section lines.
Context {P : Type} `{!ReplacementPolicy P} `{!ReplacementPolicyLaws P}.
Implicit Types (c : Cache P) (s : CacheSet P) (l : location) (b : CacheBlockInfo) (a : Z).

(** The block that an address finds. *)
Definition slot c a : option (location * CacheBlockInfo) :=
  match peekSingleLine c a with
  | Ok (Some l) => match read_block l c with Ok b => Some (l, b) | Err _ => None end
  | _ => None
  end.

Abbreviation blocks_of s := (m_cache_block_info_array (base s)).

(** Where a block is found. *)
Definition found c a l b : Prop :=
  exists si s w, splitAddress (cb c) a = Ok (line_of (cb c) a, si) /\ m_sets c !! Z.to_nat si = Some s /\
    blocks_of s !! w = Some b /\ m_tag b = line_of (cb c) a /\ l = InSet si w.

Section one_cache.
Context c (Hc : cache_wf c) (Hby : bypasses_metadata c = false).

(** The set of an address, and the search in it. *)
Lemma find_in_set a si s :
  in_range 64 a -> splitAddress (cb c) a = Ok (line_of (cb c) a, si) -> m_sets c !! Z.to_nat si = Some s ->
  peekSingleLine c a = (o ← set_find (base s) (line_of (cb c) a); Ok (option_map (InSet si) o)).
Proof.
  intros Ha E Hs. unfold peekSingleLine, get_set. rewrite E. cbn [mbind res_bind].
  rewrite (proj2 (rd_Ok _ _ _) Hs). cbn [mbind res_bind].
  destruct (set_find _ _) as [[w|]|f]; cbn [mbind res_bind option_map]; [done| |done]. by rewrite Hby.
Qed.

Lemma slot_found a l b : in_range 64 a -> slot c a = Some (l, b) <-> found c a l b.
Proof.
  intros Ha. destruct (address_set c Hc a Ha) as (si & s & E & Hsi & Hs & Hget & Hw).
  pose proof (lw_set _ _ _ _ Hw) as Hset. pose proof (line_of_valid c Hc a Ha) as Hne.
  unfold slot. rewrite (find_in_set a si s Ha E Hs). split.
  - destruct (set_find _ _) as [[w|]|f] eqn:Ef; cbn [mbind res_bind option_map]; try done.
    cbn [read_block]. rewrite Hget. cbn [mbind res_bind].
    destruct (set_find_Some _ _ Hset _ _ Ef) as (Hlt & b' & Hb & Ht).
    rewrite (proj2 (rd_Ok _ _ _) Hb). intros [= <- <-]. exists si, s, w. by split_and!.
  - intros (si' & s' & w & E' & Hs' & Hb & Ht & ->). rewrite E in E'. injection E' as <-.
    rewrite Hs in Hs'. injection Hs' as <-.
    assert (Hv : line_of (cb c) a ∈ valid_tags (base s)).
    { apply elem_of_valid_tags. exists w, b. split_and!; try done. apply isValid_tag. by rewrite Ht. }
    destruct (set_find_is_Some _ _ Hset _ Hv) as [w' Hf]. rewrite Hf. cbn [mbind res_bind option_map read_block].
    destruct (set_find_Some _ _ Hset _ _ Hf) as (Hlt & b' & Hb' & Ht').
    assert (w' = w) as ->.
    { eapply (lw_unique _ _ _ _ Hw); [exact Hb'|exact Hb| |congruence]. apply isValid_tag. congruence. }
    rewrite Hget. cbn [mbind res_bind]. rewrite (proj2 (rd_Ok _ _ _) Hb). done.
Qed.

Lemma peek_slot a : in_range 64 a -> peekSingleLine c a = Ok (fst <$> slot c a).
Proof.
  intros Ha. destruct (address_set c Hc a Ha) as (si & s & E & Hsi & Hs & Hget & Hw).
  pose proof (lw_set _ _ _ _ Hw) as Hset. unfold slot. rewrite (find_in_set a si s Ha E Hs).
  rewrite (set_find_pure _ _ Hset). cbn [mbind res_bind].
  destruct (first_such _ _) as [w|] eqn:Ef; cbn [option_map]; [|done]. cbn [read_block]. rewrite Hget. cbn [mbind res_bind].
  destruct (set_find_Some _ _ Hset (line_of (cb c) a) w) as (Hlt & b & Hb & _).
  { by rewrite (set_find_pure _ _ Hset), Ef. }
  by rewrite (proj2 (rd_Ok _ _ _) Hb).
Qed.

Lemma slot_resident a : in_range 64 a -> is_Some (slot c a) <-> line_of (cb c) a ∈ resident c.
Proof.
  intros Ha. destruct (address_set c Hc a Ha) as (si & s & E & Hsi & Hs & Hget & Hw).
  rewrite (resident_at_set c Hc a Ha si s E Hs), elem_of_valid_tags. split.
  - intros [[l b] H]. apply slot_found in H as (si' & s' & w & E' & Hs' & Hb & Ht & _); [|done].
    rewrite E in E'. injection E' as <-. rewrite Hs in Hs'. injection Hs' as <-. exists w, b. split_and!; try done.
    apply isValid_tag. rewrite Ht. by apply line_of_valid.
  - intros (w & b & Hb & _ & Ht). exists (InSet si w, b). apply slot_found; [done|]. exists si, s, w. by split_and!.
Qed.

Lemma slot_read a l b : slot c a = Some (l, b) -> read_block l c = Ok b.
Proof.
  unfold slot. destruct (peekSingleLine c a) as [[l'|]|]; try done.
  destruct (read_block l' c) eqn:E; [|done]. by intros [= -> ->].
Qed.

(** The same line has the same block. *)
Lemma slot_same_line a a' :
  in_range 64 a -> in_range 64 a' -> line_of (cb c) a = line_of (cb c) a' -> slot c a = slot c a'.
Proof.
  intros Ha Ha' El. unfold slot, peekSingleLine.
  by rewrite (splitAddress_same_block (cb c) a a' (cw_cb _ Hc) Ha Ha' El).
Qed.

End one_cache.

(** Two caches agree on an address when the sets hold the same blocks of its line. *)
Lemma slot_ext c c' a :
  cache_wf c -> cache_wf c' -> bypasses_metadata c = false -> bypasses_metadata c' = false -> cb c' = cb c ->
  in_range 64 a -> (forall l b, found c' a l b <-> found c a l b) -> slot c' a = slot c a.
Proof.
  intros H1 H2 B1 B2 E Ha Hf. apply option_eq. intros [l b]. rewrite !slot_found by done. apply Hf.
Qed.

(** A cache in which one set was replaced. *)
Record replaced c (si : Z) s s' c' : Prop := {
  rp_wf : cache_wf c';
  rp_plain : bypasses_metadata c' = false;
  rp_cb : cb c' = cb c;
  rp_type : m_cache_type c' = m_cache_type c;
  rp_old : m_sets c !! Z.to_nat si = Some s;
  rp_sets : m_sets c' = <[Z.to_nat si := s']> (m_sets c);
  rp_index : (0 <= si)%Z
}.

Lemma replaced_found c si s s' c' a l b :
  replaced c si s s' c' ->
  found c' a l b <-> exists si' w, splitAddress (cb c) a = Ok (line_of (cb c) a, si') /\ m_tag b = line_of (cb c) a /\
    l = InSet si' w /\ (if decide (Z.to_nat si' = Z.to_nat si) then blocks_of s' !! w = Some b
                        else exists x, m_sets c !! Z.to_nat si' = Some x /\ blocks_of x !! w = Some b).
Proof.
  intros [? ? Ecb _ Ho Es _]. unfold found. rewrite Ecb, Es. pose proof (lookup_lt_Some _ _ _ Ho) as Hlt. split.
  - intros (si' & x & w & E & Hx & Hb & Ht & ->). exists si', w. split_and!; try done.
    destruct (decide (Z.to_nat si' = Z.to_nat si)) as [D|D].
    + rewrite D, list_lookup_insert_eq in Hx by done. by injection Hx as <-.
    + rewrite list_lookup_insert_ne in Hx by congruence. eauto.
  - intros (si' & w & E & Ht & -> & H). case_decide as D.
    + exists si', s', w. rewrite D, list_lookup_insert_eq by done. by split_and!.
    + destruct H as (x & Hx & Hb). exists si', x, w. rewrite list_lookup_insert_ne by congruence. by split_and!.
Qed.

(** An address whose blocks are the same in the replaced set finds the same block. *)
Lemma replaced_same c si s s' c' a :
  cache_wf c -> bypasses_metadata c = false -> replaced c si s s' c' -> in_range 64 a ->
  (forall w b, m_tag b = line_of (cb c) a -> blocks_of s' !! w = Some b <-> blocks_of s !! w = Some b) ->
  slot c' a = slot c a.
Proof.
  intros Hc Hby Hr Ha Hb. apply slot_ext; try done; try apply Hr. intros l b.
  rewrite (replaced_found _ _ _ _ _ _ _ _ Hr). unfold found. split.
  - intros (si' & w & E & Ht & -> & H). case_decide as D.
    + exists si', s, w. rewrite D. split_and!; try done; [apply Hr|by apply Hb].
    + destruct H as (x & Hx & Hxb). exists si', x, w. by split_and!.
  - intros (si' & x & w & E & Hx & Hxb & Ht & ->). exists si', w. split_and!; try done. case_decide as D.
    + rewrite D, (rp_old _ _ _ _ _ Hr) in Hx. injection Hx as <-. by apply Hb.
    + by exists x.
Qed.

Lemma put_set_replaced c si s s' info c' :
  cache_wf c -> bypasses_metadata c = false -> (0 <= si)%Z -> m_sets c !! Z.to_nat si = Some s ->
  info_shape (m_set_info c) info -> line_set_wf c (Z.to_nat si) s' info -> put_set c si s' info = Ok c' ->
  replaced c si s s' c'.
Proof.
  intros Hc Hby Hsi Hs Hi Hw E. destruct (put_set_Ok c Hc si s s' Hs info Hi Hw) as (c1 & E1 & Hc1 & Ec1).
  rewrite E in E1. injection E1 as <-. subst c'. by split.
Qed.

(** ** The operations *)

(** A change of a block that keeps tag and class. *)
Definition keeps_tag (f : CacheBlockInfo -> CacheBlockInfo) : Prop :=
  forall b, m_tag (f b) = m_tag b /\ m_class (f b) = m_class b.

Lemma line_set_wf_retag c i s si w b b' :
  line_set_wf c i s si -> m_cache_block_info_array (base s) !! w = Some b ->
  m_tag b' = m_tag b -> m_class b' = m_class b ->
  let s' := mkCacheSet (set_array (<[w := b']> (m_cache_block_info_array (base s))) (base s))
              (policy s) in
  line_set_wf c i s' si /\ valid_tags (base s') = valid_tags (base s).
Proof.
  intros [H1 H2 H3 H4 H5 H6] Hb Ht Hk s'.
  assert (Hsame : forall j x, m_cache_block_info_array (base s') !! j = Some x ->
    exists y, m_cache_block_info_array (base s) !! j = Some y /\ m_tag x = m_tag y /\ m_class x = m_class y).
  { intros j x. cbn. rewrite list_lookup_insert. case_decide as Hi; [|by eauto].
    destruct Hi as [<- _]. intros [= <-]. by exists b. }
  assert (Hback : forall j y, m_cache_block_info_array (base s) !! j = Some y ->
    exists x, m_cache_block_info_array (base s') !! j = Some x /\ m_tag x = m_tag y).
  { intros j y Hy. cbn. rewrite list_lookup_insert. case_decide as Hi; [|by eauto].
    destruct Hi as [<- _]. exists b'. rewrite Hb in Hy. by injection Hy as <-. }
  assert (Hv : valid_tags (base s') = valid_tags (base s)).
  { apply set_eq. intros t. rewrite !elem_of_valid_tags. setoid_rewrite isValid_tag.
    split; intros (j & x & Hx & Hn & <-).
    - destruct (Hsame j x Hx) as (y & Hy & E & _). exists j, y. by rewrite <- E.
    - destruct (Hback j x Hx) as (y & Hy & E). exists j, y. by rewrite E. }
  split; [|done]. split; try done.
  - destruct H1 as [W1 W2 W3 W4 W5]. split; cbn; try done; [by rewrite length_insert|].
    apply Forall_lookup. intros j x Hx. destruct (Hsame j x Hx) as (y & Hy & _ & E).
    rewrite Forall_lookup in W3. specialize (W3 j y Hy). unfold block_kind in *. by rewrite E.
  - intros j k x y Hx Hy Hvx E. destruct (Hsame j x Hx) as (x' & Hx' & Ex & _), (Hsame k y Hy) as (y' & Hy' & Ey & _).
    apply (H2 j k x' y' Hx' Hy'); [|congruence]. apply isValid_tag. rewrite <- Ex. by apply isValid_tag.
  - eapply policy_wf_ext; [|reflexivity|exact H3]. done.
  - intros t. rewrite Hv. apply H6.
Qed.

Lemma put_set_type c i s si c' : put_set c i s si = Ok c' -> m_cache_type c' = m_cache_type c.
Proof. unfold put_set. intros H. by inv_res. Qed.

Lemma access_type_kept c a acc buff bytes upd r c' :
  bypasses_metadata c = false -> accessSingleLine c a acc buff bytes upd false = Ok (r, c') ->
  m_cache_type c' = m_cache_type c.
Proof.
  unfold accessSingleLine. intros Hby H. rewrite Hby in H. inv_res.
  repeat match goal with
  | H : context [match ?x with _ => _ end] |- _ => destruct x eqn:?; inv_res
  end; naive_solver eauto using put_set_type.
Qed.

Lemma insert_type_kept c a fill ev want ctl bt r :
  bypasses_metadata c = false -> insertSingleLine c a fill ev want ctl bt = Ok r ->
  m_cache_type (in_cache r) = m_cache_type c.
Proof.
  unfold insertSingleLine, count_insertion. intros Hby H. rewrite Hby in H. cbn [andb] in H. inv_res.
  repeat match goal with
  | H : context [match ?x with _ => _ end] |- _ => destruct x eqn:?; inv_res
  end; cbn; eauto using put_set_type.
Qed.

Lemma modify_slot c a l b f :
  cache_wf c -> bypasses_metadata c = false -> in_range 64 a -> keeps_tag f -> slot c a = Some (l, b) ->
  exists c', modify_block f l c = Ok c' /\ cache_wf c' /\ bypasses_metadata c' = false /\ cb c' = cb c /\
    m_cache_type c' = m_cache_type c /\ slot c' a = Some (l, f b) /\
    forall a', in_range 64 a' -> line_of (cb c) a' <> line_of (cb c) a -> slot c' a' = slot c a'.
Proof.
  intros Hc Hby Ha Hf Hslot.
  destruct (proj1 (slot_found c Hc Hby a l b Ha) Hslot) as (si & s & w & E & Hs & Hb & Ht & ->).
  destruct (address_set c Hc a Ha) as (si' & s' & E' & Hsi & Hs' & Hget & Hw).
  rewrite E in E'. injection E' as <-. rewrite Hs in Hs'. injection Hs' as <-.
  destruct (Hf b) as [Hft Hfc]. cbn [modify_block]. rewrite Hget. cbn [mbind res_bind].
  rewrite (proj2 (rd_Ok _ _ _) Hb). cbn [mbind res_bind]. rewrite wr_lt by (by eapply lookup_lt_Some). cbn [mbind res_bind].
  destruct (line_set_wf_retag c _ s _ w b (f b) Hw Hb Hft Hfc) as [Hw' _].
  destruct (put_set_Ok c Hc si s _ Hs (m_set_info c) ltac:(reflexivity) Hw') as (c' & Ep & Hc' & Ec').
  pose proof (put_set_replaced c si s _ _ c' Hc Hby (proj1 Hsi) Hs ltac:(reflexivity) Hw' Ep) as Hr.
  exists c'. split; [done|]. split_and!; try apply Hr.
  - apply slot_found; try done; try apply Hr. rewrite (replaced_found _ _ _ _ _ _ _ _ Hr).
    exists si, w. rewrite decide_True by done. cbn. rewrite list_lookup_insert_eq by (by eapply lookup_lt_Some).
    split_and!; try done. by rewrite Hft.
  - intros a' Ha' Hne. eapply replaced_same; [exact Hc|exact Hby|exact Hr|done|]. intros w' b' Ht'. cbn.
    rewrite list_lookup_insert. case_decide as D; [|done]. destruct D as [<- _].
    split; intros X; [injection X as <-|rewrite Hb in X; injection X as <-]; congruence.
Qed.

(** The data read by an access. *)
Lemma touch_line_data s w off acc buff bytes upd si d s' si' :
  (0 <= bytes)%Z -> touch_line s w off acc buff bytes upd si = Ok (Some d, s', si') -> Z.of_nat (length d) = bytes.
Proof.
  intros Hb. unfold touch_line. destruct (bool_decide (acc = LOAD)).
  - destruct (read_line _ _ _ _ _ _ _) as [[[d0 s0] e0]|f] eqn:E; [|done]. cbn [mbind res_bind]. intros [= -> <- <-].
    revert E. unfold read_line. destruct (check _ _); [|done]. cbn [mbind res_bind].
    destruct (match _ with true => _ | false => _ end) as [d1|] eqn:Ed; [|done]. cbn [mbind res_bind].
    intros E. assert (d1 = Some d) as ->.
    { destruct upd; [|by simplify_eq]. destruct (updateReplacementIndex _ _ _ _) as [[]|]; by simplify_eq/=. }
    destruct (bool_decide _), (m_blocks (base s)); try done. unfold slice in Ed. case_decide; simplify_eq/=.
    rewrite length_take, length_drop. lia.
  - destruct (write_line _ _ _ _ _ _ _) as [[]|]; [|done]. done.
Qed.

(** An access changes no block. *)
Lemma access_slot c a acc buff bytes upd :
  cache_wf c -> bypasses_metadata c = false -> in_range 64 a -> (0 <= bytes)%Z ->
  (line_offset (cb c) a + bytes <= m_blocksize (cb c))%Z ->
  (forall d, buff = Some d -> (bytes <= Z.of_nat (length d))%Z) ->
  exists r c', accessSingleLine c a acc buff bytes upd false = Ok (r, c') /\ cache_wf c' /\
    bypasses_metadata c' = false /\ cb c' = cb c /\ m_cache_type c' = m_cache_type c /\
    (fun x => (ar_loc x, ar_block x)) <$> r = slot c a /\
    (forall x d, r = Some x -> ar_data x = Some d -> Z.of_nat (length d) = bytes) /\
    forall a', in_range 64 a' -> slot c' a' = slot c a'.
Proof.
  intros Hc Hby Ha Hb Hle Hbuf. unfold accessSingleLine, splitAddressOffset.
  destruct (address_set c Hc a Ha) as (si & s & E & Hsi & Hs & Hget & Hw). rewrite E. cbn [mbind res_bind].
  rewrite Hget. cbn [mbind res_bind]. pose proof (lw_set _ _ _ _ Hw) as Hset.
  unfold slot at 1. rewrite (find_in_set c Hby a si s Ha E Hs).
  rewrite (set_find_pure _ _ Hset). cbn [mbind res_bind].
  destruct (first_such _ _) as [w|] eqn:Ef; cbn [option_map].
  2: { rewrite Hby. eexists _, _. split; [done|]. by split_and!. }
  destruct (set_find_Some _ _ Hset (line_of (cb c) a) w) as (Hw' & b & Hbk & _).
  { by rewrite (set_find_pure _ _ Hset), Ef. }
  rewrite (proj2 (rd_Ok _ _ _) Hbk). cbn [mbind res_bind andb read_block]. rewrite Hget. cbn [mbind res_bind].
  rewrite (proj2 (rd_Ok _ _ _) Hbk).
  destruct (touch_line_Ok c _ s _ w (line_offset (cb c) a) acc buff bytes upd Hw Hw')
    as (d & s' & si' & Ht & Hsame & Hw2 & Hsh); try done.
  { by apply wrap_range'. }
  { by rewrite (lw_block _ _ _ _ Hw). }
  unfold line_offset in Ht. rewrite Ht. cbn [mbind res_bind].
  destruct (put_set_Ok c Hc si s s' Hs si' Hsh Hw2) as (c' & Ep & Hc' & Ec'). rewrite Ep. cbn [mbind res_bind].
  pose proof (put_set_replaced c si s s' si' c' Hc Hby (proj1 Hsi) Hs Hsh Hw2 Ep) as Hr.
  eexists _, _. split; [done|]. split_and!; try apply Hr; [done| |].
  - intros x d' [= <-]. cbn. intros ->. by eapply touch_line_data.
  - intros a' Ha'. eapply replaced_same; [exact Hc|exact Hby|exact Hr|done|]. intros. by rewrite (proj1 Hsame).
Qed.

(** An invalidation removes the line. *)
Lemma invalidate_slot c a :
  cache_wf c -> bypasses_metadata c = false -> in_range 64 a ->
  exists r c', invalidateSingleLine c a = Ok (r, c') /\ cache_wf c' /\ bypasses_metadata c' = false /\ cb c' = cb c /\
    m_cache_type c' = m_cache_type c /\ slot c' a = None /\
    forall a', in_range 64 a' -> line_of (cb c) a' <> line_of (cb c) a -> slot c' a' = slot c a'.
Proof.
  intros Hc Hby Ha. destruct (invalidate_effect c a Hc Hby Ha) as (c' & E & Hc' & Hr & Hcb & Hby').
  exists (bool_decide (line_of (cb c) a ∈ resident c)), c'. split; [done|]. split; [done|]. split; [done|].
  split; [done|]. revert E. unfold invalidateSingleLine.
  destruct (address_set c Hc a Ha) as (si & s & Es & Hsi & Hs & Hget & Hw). rewrite Es. cbn [mbind res_bind].
  rewrite (proj2 (Z.ltb_lt _ _)) by lia. cbn [check mbind res_bind]. rewrite Hby. cbn [mbind res_bind]. rewrite Hget.
  cbn [mbind res_bind]. destruct (set_invalidate _ _) as [[r b]|f] eqn:Ei; [|done]. cbn [mbind res_bind].
  destruct (put_set c si _ _) as [c2|] eqn:Ep; [|done]. cbn [mbind res_bind]. intros [= _ <-].
  split; [by eapply put_set_type|]. split.
  - apply eq_None_not_Some. rewrite slot_resident by done. rewrite Hcb, Hr. set_solver.
  - intros a' Ha' Hne. assert (Hre : replaced c si s (mkCacheSet b (policy s)) c2).
    { unfold put_set in Ep. inv_res. apply wr_Ok in E as [_ ->]. by split; try lia. }
    eapply replaced_same; [exact Hc|exact Hby|exact Hre|done|]. intros w x Hx. cbn [base].
    revert Ei. unfold set_invalidate. destruct (set_find _ _) as [[i|]|] eqn:Ef; [| |done]; cbn [mbind res_bind];
      [|intros [= _ <-]; done].
    destruct (set_find_Some _ _ (lw_set _ _ _ _ Hw) _ _ Ef) as (Hi & old & Hold & Htag).
    rewrite (proj2 (rd_Ok _ _ _) Hold). cbn [mbind res_bind]. rewrite wr_lt by (by eapply lookup_lt_Some). cbn [mbind res_bind].
    intros [= _ <-]. cbn. rewrite list_lookup_insert. case_decide as D; [|done]. destruct D as [<- _].
    pose proof (line_of_valid c Hc a' Ha') as Hva. split; intros X.
    + injection X as <-. rewrite m_tag_invalidate in Hx. congruence.
    + rewrite Hold in X. injection X as <-. congruence.
Qed.

(** The block that held the line is invalid afterwards. *)
Lemma invalidated_block c a l b r c' :
  cache_wf c -> bypasses_metadata c = false -> in_range 64 a -> slot c a = Some (l, b) ->
  invalidateSingleLine c a = Ok (r, c') -> exists b', read_block l c' = Ok b' /\ m_cstate b' = INVALID.
Proof.
  intros Hc Hby Ha Hslot. destruct (proj1 (slot_found c Hc Hby a l b Ha) Hslot) as (si & s & w & E & Hs & Hb & Ht & ->).
  unfold invalidateSingleLine.
  destruct (address_set c Hc a Ha) as (si' & s' & E' & Hsi & Hs' & Hget & Hw). rewrite E'. cbn [mbind res_bind].
  rewrite E in E'. injection E' as <-. rewrite Hs in Hs'. injection Hs' as <-.
  rewrite (proj2 (Z.ltb_lt _ _)) by lia. cbn [check mbind res_bind]. rewrite Hby. cbn [mbind res_bind]. rewrite Hget.
  cbn [mbind res_bind]. unfold set_invalidate. pose proof (lw_set _ _ _ _ Hw) as Hset.
  assert (Hv : line_of (cb c) a ∈ valid_tags (base s)).
  { apply elem_of_valid_tags. exists w, b. split_and!; try done. apply isValid_tag. rewrite Ht. by apply line_of_valid. }
  destruct (set_find_is_Some _ _ Hset _ Hv) as [w' Hf]. rewrite Hf. cbn [mbind res_bind].
  destruct (set_find_Some _ _ Hset _ _ Hf) as (Hlt & b' & Hb' & Ht').
  assert (w' = w) as ->.
  { eapply (lw_unique _ _ _ _ Hw); [exact Hb'|exact Hb| |congruence]. apply isValid_tag. rewrite Ht'. by apply line_of_valid. }
  rewrite (proj2 (rd_Ok _ _ _) Hb). cbn [mbind res_bind]. rewrite wr_lt by (by eapply lookup_lt_Some). cbn [mbind res_bind].
  unfold put_set. rewrite wr_lt by (by eapply lookup_lt_Some). cbn [mbind res_bind]. intros [= _ <-].
  exists (block_invalidate b). split; [|by destruct b].
  cbn [read_block]. unfold get_set. cbn [m_sets]. erewrite (proj2 (rd_Ok _ _ _)) by (apply list_lookup_insert_eq; by eapply lookup_lt_Some).
  cbn [mbind res_bind base]. apply rd_Ok. cbn. by rewrite list_lookup_insert_eq by (by eapply lookup_lt_Some).
Qed.

(** The address of a tag that the cache holds. *)
Lemma line_tag_address c t :
  cache_wf c -> t ∈ resident c ->
  in_range 64 (tagToAddress (cb c) t) /\ line_of (cb c) (tagToAddress (cb c) t) = t /\
  tagToAddress (cb c) t = (t * 2 ^ m_log_blocksize (cb c))%Z.
Proof.
  intros Hc (i & s & Hs & Ht)%elem_of_resident.
  destruct (lw_placed _ _ _ _ (cw_sets _ Hc _ _ Hs) t Ht) as (a & si & Ha & -> & _). pose proof (cw_log _ Hc) as Hl.
  unfold tagToAddress, line_of. set (k := m_log_blocksize (cb c)) in *. destruct Ha as [H1 H2].
  assert (Hp : (0 < 2 ^ k)%Z) by (apply Z.pow_pos_nonneg; lia).
  rewrite Z.shiftl_mul_pow2, !Z.shiftr_div_pow2 by lia.
  assert (Hle : (a / 2 ^ k * 2 ^ k <= a)%Z) by (rewrite Z.mul_comm; apply Z.mul_div_le; lia).
  assert (0 <= a / 2 ^ k)%Z by (apply Z.div_pos; lia).
  rewrite (wrap_small 64) by (split; nia). split; [split; nia|]. by rewrite Z.div_mul by lia.
Qed.

(** What an insertion does to the addresses. *)
Record inserted c a (r : insertion P) : Prop := {
  is_wf : cache_wf (in_cache r);
  is_plain : bypasses_metadata (in_cache r) = false;
  is_cb : cb (in_cache r) = cb c;
  is_type : m_cache_type (in_cache r) = m_cache_type c;
  is_new : exists l b, slot (in_cache r) a = Some (l, b);
  is_victim : in_eviction r = true -> exists l b, slot c (in_evict_addr r) = Some (l, b) /\
    m_cstate (in_evict_info r) = m_cstate b /\ slot (in_cache r) (in_evict_addr r) = None;
  is_victim_address : in_eviction r = true ->
    in_range 64 (in_evict_addr r) /\ exists t, in_evict_addr r = (t * 2 ^ m_log_blocksize (cb c))%Z;
  is_other : forall a', in_range 64 a' -> line_of (cb c) a' <> line_of (cb c) a ->
    (in_eviction r = true -> line_of (cb c) a' <> line_of (cb c) (in_evict_addr r)) -> slot (in_cache r) a' = slot c a'
}.

Lemma insert_slot c a fill ev want ctl btype r :
  cache_wf c -> bypasses_metadata c = false -> in_range 64 a -> slot c a = None -> receives (m_cache_type c) ev ->
  (forall d, fill = Some d -> Z.to_nat (m_blocksize (cb c)) <= length d) ->
  insertSingleLine c a fill ev want ctl btype = Ok r -> inserted c a r.
Proof.
  intros Hc Hby Ha Hnone Hrec Hfill E.
  assert (Hnin : line_of (cb c) a ∉ resident c).
  { rewrite <- (slot_resident c Hc Hby a Ha), Hnone. by intros []. }
  destruct (insert_effect c a fill ev want ctl btype Hc Hby Ha Hnin Hrec Hfill) as (si & s & Es & Hs & Hm).
  destruct (getReplacementIndex (base s) (policy s) (mkEnv (m_set_info c) ctl)) as [[[i p'] e']|f] eqn:Eg; [|congruence].
  destruct Hm as (r' & E' & Hc' & Hcb & Hby' & Hres & Hevin & Haddr & Hev). rewrite E in E'. injection E' as <-.
  destruct (address_set c Hc a Ha) as (si' & s' & Es' & Hsi & Hs' & Hget & Hw).
  rewrite Es in Es'. injection Es' as <-. rewrite Hs in Hs'. injection Hs' as <-.
  revert E. unfold insertSingleLine. rewrite Es. cbn [mbind res_bind].
  destruct (create_kind c (line_of (cb c) a) btype Hc) as (nb & -> & Hk). cbn [mbind res_bind]. rewrite Hby.
  cbn [andb]. rewrite Hget. cbn [mbind res_bind].
  assert (Hfill' : forall d, fill = Some d -> Z.to_nat (cs_blocksize (base s)) <= length d)
    by (by rewrite (lw_block _ _ _ _ Hw)).
  destruct (set_insert_spec (m_cache_type c) s _ fill ev want (mkEnv (m_set_info c) ctl) i p' e' (lw_set _ _ _ _ Hw) (lw_policy _ _ _ _ Hw) Hk Hrec
    Hfill' Eg) as (old & new & q & Hold & Hnew & -> & Heo & Hclone & (Sa & _) & _).
  cbn [mbind res_bind]. destruct (put_set c si _ _) as [c1|] eqn:Ep; [|done]. cbn [mbind res_bind].
  destruct (count_insertion _ _ _) as [c2|] eqn:Ec2; [|done]. cbn [mbind res_bind]. intros [= <-].
  cbn [in_cache in_eviction in_evict_addr in_evict_info] in *.
  destruct (clone_fields _ _ _ Hnew) as (Htag & _). cbn in Htag.
  assert (E2 : m_sets c2 = m_sets c1 /\ m_cache_type c2 = m_cache_type c1).
  { revert Ec2. unfold count_insertion. repeat case_match; intros H'; inv_res; done. }
  assert (Hre : replaced c si s (ins_set q) c2).
  { destruct E2 as [E2 E3]. split; try done; try lia.
    - rewrite E3. by eapply put_set_type.
    - rewrite E2. unfold put_set in Ep. destruct (wr _ _ _) as [x|] eqn:Ew; [|done]. apply wr_Ok in Ew as [_ ->].
      by injection Ep as <-. }
  rewrite Heo in *. assert (Hvic : isValid old = true -> m_tag (evict_block_info q) = m_tag old /\
    m_cstate (evict_block_info q) = m_cstate old).
  { intros Hv. destruct (clone_fields _ _ _ (Hclone Hv)) as (? & ? & _). done. }
  split; cbn [in_cache in_eviction in_evict_addr in_evict_info]; try done; try apply Hre.
  - exists (InSet si i), new. apply slot_found; try done. rewrite (replaced_found _ _ _ _ _ _ _ _ Hre).
    exists si, i. rewrite decide_True by done. rewrite Sa. cbn.
    rewrite list_lookup_insert_eq by (by eapply lookup_lt_Some). done.
  - intros Hv. destruct (Hvic Hv) as [Hvt Hvs]. rewrite Haddr, Hvt.
    assert (Hin : m_tag old ∈ resident c).
    { apply elem_of_resident. exists (Z.to_nat si), s. split; [done|]. apply elem_of_valid_tags. eauto. }
    destruct (line_tag_address c _ Hc Hin) as (Hr & Hl & _).
    exists (InSet si i), old. split_and!; [|done|].
    + apply slot_found; try done. destruct (lw_placed _ _ _ _ Hw (m_tag old)) as (y & z & Hy & Ey & Ez & Hz).
      { apply elem_of_valid_tags. eauto. }
      exists z, s, i. rewrite Hl, Hz. split_and!; try done.
      * rewrite <- Ez. apply (splitAddress_same_block (cb c) _ y (cw_cb _ Hc)); try done.
        unfold line_of in *. congruence.
      * f_equal. apply Z2Nat.inj; try lia.
        destruct (splitAddress_total (cb c) y (cw_cb _ Hc) (cw_hash _ Hc) Hy) as (z' & Ez' & ?).
        rewrite Ez in Ez'. injection Ez' as ? <-. lia.
    + apply eq_None_not_Some. rewrite slot_resident by (by rewrite ?Hcb). rewrite Hcb, Hl, Hres.
      unfold evicted. cbn. rewrite Hv, Hvt. cbn. intros [H'|H']%elem_of_union; [|set_solver].
      apply elem_of_singleton in H'. apply Hnin. by rewrite <- H'.
  - intros Hv. destruct (Hvic Hv) as [Hvt _]. rewrite Haddr, Hvt.
    assert (Hin : m_tag old ∈ resident c).
    { apply elem_of_resident. exists (Z.to_nat si), s. split; [done|]. apply elem_of_valid_tags. eauto. }
    destruct (line_tag_address c _ Hc Hin) as (Hr & _ & ->). split; [by rewrite <- (proj2 (proj2 (line_tag_address c _ Hc Hin)))|eauto].
  - intros a' Ha' Hne Hnv. eapply replaced_same; [exact Hc|exact Hby|exact Hre|done|]. intros w b Hb. rewrite Sa. cbn.
    rewrite list_lookup_insert. case_decide as D; [|done]. destruct D as [<- _].
    split; intros X; [injection X as <-; congruence|]. rewrite Hold in X. injection X as <-.
    assert (Hv : isValid old = true) by (apply isValid_tag; rewrite Hb; by apply line_of_valid).
    exfalso. apply (Hnv Hv). destruct (Hvic Hv) as [Hvt _]. rewrite Haddr, Hvt.
    assert (Hin : m_tag old ∈ resident c).
    { apply elem_of_resident. exists (Z.to_nat si), s. split; [done|]. apply elem_of_valid_tags. eauto. }
    by rewrite (proj1 (proj2 (line_tag_address c _ Hc Hin))).
Qed.

(** The data of the victim fills a block. *)
Lemma insert_evict_data c a fill ev want ctl btype r d :
  cache_wf c -> bypasses_metadata c = false -> in_range 64 a ->
  insertSingleLine c a fill ev want ctl btype = Ok r -> in_evict_buff r = Some d ->
  Z.of_nat (length d) = m_blocksize (cb c).
Proof.
  intros Hc Hby Ha. unfold insertSingleLine.
  destruct (address_set c Hc a Ha) as (si & s & -> & Hsi & Hs & Hget & Hw). cbn [mbind res_bind].
  destruct (CacheBlockInfo_create _); [|done]. cbn [mbind res_bind]. rewrite Hby. cbn [andb]. rewrite Hget. cbn [mbind res_bind].
  destruct (set_insert _ _ _ _ _ _) as [q|] eqn:Eq; [|done]. cbn [mbind res_bind].
  destruct (put_set _ _ _ _); [|done]. cbn [mbind res_bind]. destruct (count_insertion _ _ _); [|done]. cbn [mbind res_bind].
  intros [= <-]. cbn. intros Ed. revert Eq. unfold set_insert.
  destruct (getReplacementIndex _ _ _) as [[[i p'] e']|]; [|done]. cbn [mbind res_bind].
  destruct (check _ _); [|done]. cbn [mbind res_bind]. destruct (rd _ _) as [old|]; [|done]. cbn [mbind res_bind].
  destruct (evict_victim _ _ _ _ _) as [[[[v info] dd] s1]|] eqn:Ev; [|done]. cbn [mbind res_bind].
  destruct (clone _ _); [|done]. cbn [mbind res_bind]. destruct (wr _ _ _); [|done]. cbn [mbind res_bind].
  destruct (fill_line _ _ _); [|done]. cbn [mbind res_bind]. intros [= <-]. cbn in Ed. subst dd. revert Ev.
  unfold evict_victim. destruct (isValid old); [|done]. destruct (clone _ _); [|done]. cbn [mbind res_bind].
  destruct want, (m_blocks (base s)) as [x|]; try done. unfold slice. case_decide; [|done]. cbn [mbind res_bind].
  intros H'. injection H' as _ _ <- _. rewrite length_take, length_drop, <- (lw_block _ _ _ _ Hw).
  pose proof (set_wf_size _ _ (lw_set _ _ _ _ Hw)). lia.
Qed.

(** With a policy that finds a victim an insertion returns. *)
Lemma insert_returns `{!AlwaysVictim P} c a fill ev want ctl btype :
  cache_wf c -> bypasses_metadata c = false -> in_range 64 a -> slot c a = None -> receives (m_cache_type c) ev ->
  (forall d, fill = Some d -> Z.to_nat (m_blocksize (cb c)) <= length d) ->
  (forall (sb : CacheSetBase) p si, victim_ready sb p (mkEnv si ctl)) -> exists r, insertSingleLine c a fill ev want ctl btype = Ok r.
Proof.
  intros Hc Hby Ha Hnone Hrec Hfill Hready.
  assert (Hnin : line_of (cb c) a ∉ resident c).
  { rewrite <- (slot_resident c Hc Hby a Ha), Hnone. by intros []. }
  destruct (insert_effect c a fill ev want ctl btype Hc Hby Ha Hnin Hrec Hfill) as (si & s & _ & Hs & Hm).
  pose proof (cw_sets _ Hc _ _ Hs) as Hw.
  destruct (always_victim (m_cache_type c) (base s) (policy s) (mkEnv (m_set_info c) ctl) (lw_set _ _ _ _ Hw) (lw_policy _ _ _ _ Hw))
    as (i & p' & e' & Ei); [apply Hready|]. rewrite Ei in Hm. destruct Hm as (r & -> & _). eauto.
Qed.

End lines.
