(* ===== verification/CacheProps.v ===== *)
(** * Theorems on caches

    The refinement of a cache to the set of its resident lines, what an insertion and
    an invalidation leave behind, TLB invalidation over all page sizes, and the power
    gating of ways, for every replacement policy that satisfies the laws. The
    witnesses use an L1 cache with LRU replacement. *)

From Stdlib Require Import ZArith Lia String.
From stdpp Require Import base tactics numbers gmap sets list strings.
From S2P Require Import Prelude Utils CacheBase CacheBlock CacheSet Replacement Cache.
Local Open Scope nat_scope.

(** ** A concrete cache for the witnesses: four sets of two ways, LRU *)

Definition lru_info : option CacheSetInfoLRU := Some (CacheSetInfoLRU_new 2 1).
Definition tiny_res : res (Cache LRU.CacheSetLRU) :=
  Cache_new "L1-D" 4 2 64 (fun n => Ok (LRU.new n 1)) lru_info PR_L1_CACHE HASH_MASK None
    [12; 21]%Z 0 false.
Definition tiny : Cache LRU.CacheSetLRU :=
  match tiny_res with
  | Ok c => c
  | Err _ => mkCache (cb64 HASH_MASK) false 0 0 PR_L1_CACHE [] None None [] 0 ReuseStats_new ReuseStats_new []
  end.

Lemma tiny_wf : cache_wf tiny /\ resident tiny = ∅ /\ bypasses_metadata tiny = false /\
  m_cache_type tiny = PR_L1_CACHE.
Proof.
  apply (Cache_new_wf (fun n => Ok (LRU.new n 1)) lru_info PR_L1_CACHE 2) with
    (name := "L1-D"%string) (sets := 4%Z) (b := 6%Z) (hash := HASH_MASK) (pages := [12; 21]%Z)
    (loc := 0%Z) (with_data := false); try done; try lia.
  intros s Ha Hs. eexists. split; [done|]. rewrite <- Ha.
  apply (LRU.new_wf PR_L1_CACHE); [done|lia|lia|]. rewrite Ha. eexists. split; [done|split; cbn; [done|done|lia]].
Qed.

(** The object that receives evicted blocks of an L1 cache. *)
Definition evict_obj : CacheBlockInfo := CacheBlockInfo_new PrL1CacheBlockInfo.
Lemma evict_obj_receives : receives PR_L1_CACHE evict_obj.
Proof. by intros b. Qed.

Section theorems.
Context {P : Type} `{!ReplacementPolicy P} `{!ReplacementPolicyLaws P}.
Implicit Types (c : Cache P).

(** C1: a cache of any modelled replacement policy refines the abstract cache: every run of
    accesses, invalidations and insertions is a run of the set of resident lines with
    the same responses, and the invariant holds at its end. *)
Theorem cache_refines_lines c tr c' :
  cache_wf c -> bypasses_metadata c = false -> run c tr c' ->
  line_run (cb c) (resident c) tr (resident c') /\ cache_wf c'.
Proof.
  intros Hc Hby H. induction H as [c|c r o c1 tr c2 Hl Hs Hr IH]; [split; [constructor|done]|].
  destruct (serve_refines _ _ _ _ Hc Hby Hl Hs) as (Hstep & Hc1 & Hcb & Hby1).
  destruct (IH Hc1 Hby1) as [IH1 IH2]. rewrite Hcb in IH1. split; [|done]. by econstructor.
Qed.

End theorems.

Definition acc (addr : Z) : request := Access addr LOAD None 0 true.
Definition ins (addr : Z) : request := Insert addr None evict_obj false None DATA.

(** Miss, insert, hit, invalidate, miss. *)
Definition tiny_trace : list (request * response) :=
  [(acc 0x1040, Hit false); (ins 0x1040, Inserted None); (acc 0x107f, Hit true);
   (Invalidate 0x1040, Invalidated true); (acc 0x1040, Hit false)].

Lemma tiny_run : exists c', run tiny tiny_trace c'.
Proof.
  eexists. unfold tiny_trace.
  repeat (eapply run_cons; [|vm_compute; reflexivity|]); [..|constructor].
  all: unfold legal, acc, ins, in_range; repeat split; try (intros ? [=]); try (vm_compute; congruence).
Qed.

Lemma cache_refines_lines_witness :
  exists c', line_run (cb tiny) (resident tiny) tiny_trace (resident c') /\ cache_wf c'.
Proof.
  destruct tiny_run as [c' Hr]. exists c'.
  apply (cache_refines_lines tiny tiny_trace c'); [apply tiny_wf|apply tiny_wf|exact Hr].
Defined.

(** ** Insertion, hit, eviction *)

Section insertion.
Context {P : Type} `{!ReplacementPolicy P} `{!ReplacementPolicyLaws P}.
Implicit Types (c : Cache P).

(** C2: the cache answers every legal request: with a policy that always finds a victim, an
    access, an invalidation or an insertion of an absent line returns, its response and
    its effect are those of the abstract cache, and the invariant holds afterwards. *)
Theorem cache_serves_legal `{!AlwaysVictim P} c r :
  cache_wf c -> bypasses_metadata c = false -> legal c r ->
  (forall addr fill ev want ctl btype, r = Insert addr fill ev want ctl btype ->
     forall i s, m_sets c !! i = Some s -> victim_ready (base s) (policy s) (mkEnv (m_set_info c) ctl)) ->
  exists o c', serve c r = Ok (o, c') /\ line_step (cb c) (resident c) r o (resident c') /\ cache_wf c'.
Proof.
  intros Hc Hby Hl Hv. assert (exists o c', serve c r = Ok (o, c')) as (o & c' & E).
  { destruct r as [addr at_ buff bytes upd|addr|addr fill ev want ctl btype]; cbn [serve legal] in *.
    - destruct Hl as (Ha & Hb & Hle & Hbuf).
      destruct (access_effect c addr at_ buff bytes upd Hc Hby Ha Hb Hle Hbuf) as (x & c1 & -> & _). by eexists _, _.
    - destruct (invalidate_effect c addr Hc Hby Hl) as (c1 & -> & _). by eexists _, _.
    - destruct Hl as (Ha & Hn & Hrec & Hfill).
      destruct (insert_effect c addr fill ev want ctl btype Hc Hby Ha Hn Hrec Hfill) as (si & s & _ & Hs & Hm).
      pose proof (cw_sets _ Hc _ _ Hs) as Hw.
      destruct (always_victim (m_cache_type c) (base s) (policy s) (mkEnv (m_set_info c) ctl) (lw_set _ _ _ _ Hw) (lw_policy _ _ _ _ Hw))
        as (i & p' & e' & Ei); [by eapply Hv|]. rewrite Ei in Hm. destruct Hm as (x & -> & _). by eexists _, _. }
  exists o, c'. destruct (serve_refines c r o c' Hc Hby Hl E) as (? & ? & _). done.
Qed.

(** An inserted line hits: after [insertSingleLine] of an absent line, an access to any
    address of that line returns its block, whatever was evicted. *)
Theorem insert_then_hit c addr fill ev want ctl btype r addr' acc buff bytes upd :
  cache_wf c -> bypasses_metadata c = false ->
  legal c (Insert addr fill ev want ctl btype) ->
  insertSingleLine c addr fill ev want ctl btype = Ok r ->
  line_of (cb c) addr' = line_of (cb c) addr ->
  legal (in_cache r) (Access addr' acc buff bytes upd) ->
  exists x c', accessSingleLine (in_cache r) addr' acc buff bytes upd false = Ok (Some x, c').
Proof.
  intros Hc Hby (Ha & Hn & Hrec & Hfill) Hins Hline (Ha' & Hb & Hle & Hbuf).
  destruct (insert_effect c addr fill ev want ctl btype Hc Hby Ha Hn Hrec Hfill) as (si & s & _ & _ & Hm).
  destruct (getReplacementIndex _ _ _) as [[[i p'] e']|]; [|by rewrite Hm in Hins].
  destruct Hm as (x & E & Hc1 & Hcb & Hby1 & Hr & _). rewrite E in Hins. injection Hins as <-.
  destruct (access_effect (in_cache x) addr' acc buff bytes upd Hc1 Hby1 Ha' Hb Hle Hbuf)
    as (o & c' & Eacc & Ho & _).
  rewrite Hcb, Hr, Hline, (bool_decide_true (_ ∈ _)) in Ho by set_solver.
  apply bool_decide_eq_true in Ho as [y ->]. eauto.
Qed.

(** Nothing is evicted while the set has room: with a policy that fills free ways first,
    inserting an absent line into a set with an active way that holds no valid block
    succeeds and evicts nothing. *)
Theorem insert_uses_free_way `{!FillsFreeWays P} c addr fill ev want ctl btype si s way :
  cache_wf c -> bypasses_metadata c = false ->
  legal c (Insert addr fill ev want ctl btype) ->
  splitAddress (cb c) addr = Ok (line_of (cb c) addr, si) -> m_sets c !! Z.to_nat si = Some s ->
  free_way (base s) way = true ->
  exists r, insertSingleLine c addr fill ev want ctl btype = Ok r /\ in_eviction r = false /\
    resident (in_cache r) = {[line_of (cb c) addr]} ∪ resident c.
Proof.
  intros Hc Hby (Ha & Hn & Hrec & Hfill) Hsplit Hs Hfree.
  destruct (insert_effect c addr fill ev want ctl btype Hc Hby Ha Hn Hrec Hfill) as (si' & s' & E & Hs' & Hm).
  assert (si' = si) as -> by congruence. assert (s' = s) as -> by congruence.
  destruct (first_such (free_way (base s)) (seq 0 (m_num_active_ways (base s)))) as [i|] eqn:Ef.
  - destruct (fills_free_way _ _ _ (mkEnv (m_set_info c) ctl) i (lw_set _ _ _ _ (cw_sets _ Hc _ _ Hs))
      (lw_policy _ _ _ _ (cw_sets _ Hc _ _ Hs)) Ef) as (p' & e' & Eg). rewrite Eg in Hm.
    destruct Hm as (r & Hr & _ & _ & _ & Hres & _ & _ & Hev). exists r.
    apply first_such_Some in Ef as [_ Hi]. unfold free_way in Hi. apply andb_prop in Hi as [_ Hi].
    assert (in_eviction r = false) as Hno.
    { rewrite Hev. destruct (_ !! i); [|done]. by apply negb_true_iff in Hi. }
    split_and!; [done|done|]. rewrite Hres. unfold evicted. by rewrite Hno.
  - rewrite first_such_None in Ef. rewrite Ef in Hfree; [done|]. apply elem_of_seq.
    unfold free_way in Hfree. apply andb_prop in Hfree as [Hlt%Nat.ltb_lt _]. lia.
Qed.

End insertion.

Lemma cache_serves_legal_witness :
  exists o c', serve tiny (ins 0x1040) = Ok (o, c') /\ line_step (cb tiny) (resident tiny) (ins 0x1040) o (resident c') /\ cache_wf c'.
Proof.
  apply (cache_serves_legal tiny (ins 0x1040)); [apply tiny_wf|apply tiny_wf| |].
  - unfold legal, ins, in_range. repeat split; try (intros ? [=]); try (vm_compute; congruence).
  - intros addr fill ev want ctl btype [= <- <- <- <- <- <-] i s Hs. cbn [victim_ready LRU.LRU_always].
    assert (Forall (fun s => LRU.m_num_attempts (policy s) = 1) (m_sets tiny)) as Hf by (vm_compute; repeat constructor).
    rewrite (Forall_lookup_1 _ _ _ _ Hf Hs). intros H. lia.
Defined.

Lemma tiny_legal_insert addr : in_range 64 addr -> legal tiny (ins addr).
Proof.
  intros Ha. destruct tiny_wf as (_ & Hr & _ & Ht). unfold legal, ins. rewrite Hr, Ht.
  split_and!; [done|set_solver|apply evict_obj_receives|done].
Qed.

Lemma insert_then_hit_witness :
  exists r x c', insertSingleLine tiny 0x1040 None evict_obj false None DATA = Ok r /\
    accessSingleLine (in_cache r) 0x107f LOAD None 0 true false = Ok (Some x, c').
Proof.
  destruct (insertSingleLine tiny 0x1040 None evict_obj false None DATA) as [r|] eqn:E; [|discriminate E].
  destruct (insert_then_hit tiny 0x1040 None evict_obj false None DATA r 0x107f LOAD None 0 true) as (x & c' & H).
  - apply tiny_wf.
  - apply tiny_wf.
  - by apply tiny_legal_insert.
  - exact E.
  - reflexivity.
  - vm_compute in E. injection E as <-. unfold legal. repeat split; vm_compute; congruence.
  - by exists r, x, c'.
Defined.

Lemma insert_uses_free_way_witness :
  exists r, insertSingleLine tiny 0x1040 None evict_obj false None DATA = Ok r /\
    in_eviction r = false /\ resident (in_cache r) = {[0x41%Z]} ∪ resident tiny.
Proof.
  destruct (m_sets tiny !! 1) as [s|] eqn:Es; [|discriminate Es].
  apply (insert_uses_free_way tiny 0x1040 None evict_obj false None DATA 1 s 0).
  - apply tiny_wf.
  - apply tiny_wf.
  - by apply tiny_legal_insert.
  - reflexivity.
  - exact Es.
  - vm_compute in Es. injection Es as <-. reflexivity.
Defined.

(** ** TLB invalidation *)

Section tlb.
Context {P : Type}.
Implicit Types (c : Cache P).

(** What a cache used as a TLB must satisfy: the hash is into the sets, the sets are well
    formed, and the page sizes are proper shift counts. *)
Record tlb_wf c : Prop := {
  tw_cb : cb_wf (cb c);
  tw_hash : hash_total (cb c);
  tw_len : length (m_sets c) = Z.to_nat (m_num_sets (cb c));
  tw_sets : forall i s, m_sets c !! i = Some s -> set_wf (m_cache_type c) (base s);
  tw_sizes : Forall (fun ps => 1 <= ps < 64)%Z (m_pagesizes c)
}.

(** No way holds the entry of an address at a page size. *)
Definition absent c (addr ps : Z) : Prop :=
  forall si s i b, splitAddressTLB (cb c) addr ps = Ok (Z.shiftr addr ps, si) ->
    m_sets c !! Z.to_nat si = Some s -> m_cache_block_info_array (base s) !! i = Some b ->
    ~ (m_tag b = Z.shiftr addr ps /\ m_page_size b = ps).

Section at_size.
Context (c : Cache P) (Hc : tlb_wf c) (addr : Z) (Ha : in_range 64 addr).
Context (k : nat) (ps : Z) (Hk : m_pagesizes c !! k = Some ps).

Lemma size_range : (1 <= ps < 64)%Z.
Proof. exact (Forall_lookup_1 _ _ _ _ (tw_sizes _ Hc) Hk). Qed.

Lemma tlb_tag_valid : Z.shiftr addr ps <> INVALID_TAG.
Proof.
  destruct Ha as [H1 H2]. pose proof size_range. rewrite Z.shiftr_div_pow2 by lia.
  assert (2 ^ 1 <= 2 ^ ps)%Z by (apply Z.pow_le_mono_r; lia).
  assert (addr / 2 ^ ps < INVALID_TAG)%Z; [|lia].
  apply Z.div_lt_upper_bound; [lia|]. unfold INVALID_TAG. nia.
Qed.

Lemma tlb_set : exists si s, splitAddressTLB (cb c) addr ps = Ok (Z.shiftr addr ps, si) /\
  (0 <= si < m_num_sets (cb c))%Z /\ m_sets c !! Z.to_nat si = Some s /\ get_set c si = Ok s /\
  set_wf (m_cache_type c) (base s).
Proof.
  pose proof size_range.
  destruct (splitAddressTLB_total (cb c) addr ps (tw_cb _ Hc) (tw_hash _ Hc) ltac:(lia)) as (si & E & Hsi).
  destruct (lookup_lt_is_Some_2 (m_sets c) (Z.to_nat si)) as [s Hs].
  { rewrite (tw_len _ Hc). lia. }
  exists si, s. split_and!; try done; try lia; [by apply rd_Ok|by apply (tw_sets _ Hc _ _ Hs)].
Qed.

(** One page size: its entry is gone afterwards, and no other entry appears. *)
Lemma invalidateTLB_at_spec r :
  exists r' c', invalidateTLB_at addr (r, c) k = Ok (r', c') /\ tlb_wf c' /\ cb c' = cb c /\
    m_pagesizes c' = m_pagesizes c /\ absent c' addr ps /\
    forall ps', Z.shiftr addr ps' <> INVALID_TAG -> absent c addr ps' -> absent c' addr ps'.
Proof.
  unfold invalidateTLB_at. rewrite (proj2 (rd_Ok _ _ _) Hk). cbn [mbind res_bind].
  destruct tlb_set as (si & s & E & Hsi & Hs & Hget & Hset). rewrite E. cbn [mbind res_bind].
  rewrite (proj2 (Z.ltb_lt _ _)) by lia. cbn [check mbind res_bind]. rewrite Hget. cbn [mbind res_bind].
  destruct (set_invalidateTLB_spec _ (base s) _ ps tlb_tag_valid Hset) as (b & -> & Hw & _ & Harr).
  cbn [mbind res_bind]. unfold put_set. pose proof (lookup_lt_Some _ _ _ Hs) as Hlt.
  rewrite wr_lt by done. cbn [mbind res_bind].
  set (c' := set_sets _ _ c). eexists _, c'. split; [done|].
  assert (Hlk : forall j s', m_sets c' !! j = Some s' ->
    (j = Z.to_nat si /\ base s' = b) \/ m_sets c !! j = Some s').
  { intros j s'. cbn. rewrite list_lookup_insert. case_decide as Ej; [|by right].
    intros [= <-]. left. by destruct Ej. }
  split_and!; try done.
  - destruct Hc as [H1 H2 H3 H4 H5]. split; cbn; try done; [by rewrite length_insert|].
    intros j s' Hj. destruct (Hlk j s' Hj) as [[_ ->]|Hj']; [done|by eapply H4].
  - intros si' s' i blk E' Hs' Hb [Ht Hp]. change (cb c') with (cb c) in E'.
    assert (si' = si) as -> by congruence. cbn in Hs'. rewrite list_lookup_insert_eq in Hs' by done.
    injection Hs' as <-. cbn in Hb. rewrite Harr, list_lookup_fmap in Hb.
    destruct (m_cache_block_info_array (base s) !! i) as [b0|]; [|done]. injection Hb as <-.
    unfold tlb_invalidated in Ht, Hp. destruct (_ && _) eqn:Em.
    + rewrite m_tag_invalidate in Ht. by apply tlb_tag_valid.
    + by rewrite Ht, Hp, !Z.eqb_refl in Em.
  - intros ps' Hv Habs si' s' i blk E' Hs' Hb [Ht Hp]. change (cb c') with (cb c) in E'.
    destruct (Hlk _ _ Hs') as [[Ej Eb]|Hj]; [|by apply (Habs si' s' i blk E' Hj Hb)].
    rewrite Eb, Harr, list_lookup_fmap in Hb.
    destruct (m_cache_block_info_array (base s) !! i) as [b0|] eqn:E0; [|done]. injection Hb as <-.
    rewrite Ej in *. unfold tlb_invalidated in Ht, Hp. destruct (_ && _).
    + rewrite m_tag_invalidate in Ht. congruence.
    + by apply (Habs si' s i b0 E'); [rewrite Ej|done|].
Qed.

(** The look-up at one page size fails when the entry is absent. *)
Lemma containsTLB_at :
  absent c addr ps ->
  (current_page_size ← rd (m_pagesizes c) k;
   '(tag, set_index) ← splitAddressTLB (cb c) addr current_page_size;
   check (set_index <? m_num_sets (cb c))%Z AssertFailed;;
   s ← get_set c set_index;
   o ← set_findTLB (base s) tag current_page_size;
   Ok (bool_decide (is_Some o))) = Ok false.
Proof.
  intros Habs. rewrite (proj2 (rd_Ok _ _ _) Hk). cbn [mbind res_bind].
  destruct tlb_set as (si & s & E & Hsi & Hs & Hget & Hset). rewrite E. cbn [mbind res_bind].
  rewrite (proj2 (Z.ltb_lt _ _)) by lia. cbn [check mbind res_bind]. rewrite Hget. cbn [mbind res_bind].
  rewrite (set_findTLB_pure _ _ Hset). cbn [mbind res_bind]. f_equal. apply bool_decide_eq_false.
  rewrite <- eq_None_not_Some. apply first_such_None. intros i _. unfold has_tag_size.
  destruct (m_cache_block_info_array (base s) !! i) as [b|] eqn:Hb; [|done].
  apply not_true_is_false. intros [Ht%Z.eqb_eq Hp%Z.eqb_eq]%andb_prop.
  by apply (Habs si s i b E Hs Hb).
Qed.

End at_size.

Lemma invalidateTLB_all addr n :
  in_range 64 addr -> forall c r, tlb_wf c -> n <= length (m_pagesizes c) ->
  exists r' c', fold_loop (invalidateTLB_at addr) (r, c) (seq 0 n) = Ok (r', c') /\ tlb_wf c' /\
    cb c' = cb c /\ m_pagesizes c' = m_pagesizes c /\
    forall k ps, k < n -> m_pagesizes c !! k = Some ps -> absent c' addr ps.
Proof.
  intros Ha c r Hc. induction n as [|n IH]; intros Hn.
  { exists r, c. split_and!; try done. lia. }
  destruct (IH ltac:(lia)) as (r1 & c1 & E1 & Hc1 & Hcb1 & Hp1 & Hab1).
  rewrite seq_S, Nat.add_0_l, fold_loop_app, E1. cbn [mbind res_bind fold_loop].
  destruct (lookup_lt_is_Some_2 (m_pagesizes c) n ltac:(lia)) as [ps Hps].
  destruct (invalidateTLB_at_spec c1 Hc1 addr Ha n ps ltac:(by rewrite Hp1) r1)
    as (r2 & c2 & E2 & Hc2 & Hcb2 & Hp2 & Hab2 & Hkeep).
  rewrite E2. cbn [mbind res_bind]. exists r2, c2. split_and!; try done; [congruence|congruence|].
  intros k ps' Hk Hps'. destruct (decide (k = n)) as [->|].
  - by assert (ps' = ps) as -> by congruence.
  - apply Hkeep; [|apply (Hab1 k); [lia|done]]. by apply (tlb_tag_valid c Hc addr Ha k).
Qed.

(** TLB invalidation is complete: [invalidateSingleLineTLB] always returns, its final
    assertion never fires, and afterwards no page size finds the address. *)
Theorem invalidateSingleLineTLB_complete c addr :
  tlb_wf c -> in_range 64 addr ->
  exists r c', invalidateSingleLineTLB c addr = Ok (r, c') /\ containsTLB c' addr = Ok false /\ tlb_wf c'.
Proof.
  intros Hc Ha. unfold invalidateSingleLineTLB.
  destruct (invalidateTLB_all addr (length (m_pagesizes c)) Ha c false Hc (le_n _))
    as (r & c' & -> & Hc' & Hcb & Hp & Habs). cbn [mbind res_bind].
  assert (Hno : containsTLB c' addr = Ok false).
  { unfold containsTLB. rewrite (find_loop_pure _ (fun _ => false)).
    - cbn [mbind res_bind]. f_equal. apply bool_decide_eq_false. rewrite <- eq_None_not_Some.
      by apply first_such_None.
    - intros k Hk%elem_of_seq. destruct (lookup_lt_is_Some_2 (m_pagesizes c') k ltac:(lia)) as [ps Hps].
      apply (containsTLB_at c' Hc' addr k ps Hps). rewrite Hp in Hps. apply (Habs k); [|done].
      apply lookup_lt_Some in Hps. lia. }
  rewrite Hno. by eexists _, _.
Qed.

End tlb.

Lemma invalidateSingleLineTLB_complete_witness :
  exists r c', invalidateSingleLineTLB tiny 0x200000 = Ok (r, c') /\ containsTLB c' 0x200000 = Ok false /\
    tlb_wf c'.
Proof.
  apply (invalidateSingleLineTLB_complete tiny 0x200000); [|vm_compute; split; congruence].
  destruct tiny_wf as ([H1 H2 _ _ H5 H6 _ _] & _). split; try done; [|repeat constructor; lia].
  intros i s Hi. apply (H6 i s Hi).
Defined.

(** ** Power gating *)

Section gating.
Context {P : Type} `{!ReplacementPolicy P} `{!ReplacementPolicyLaws P}.
Implicit Types (c : Cache P).

(** A way of a set holds a valid block. *)
Definition live c (i w : nat) : Prop :=
  exists s b, m_sets c !! i = Some s /\ m_cache_block_info_array (base s) !! w = Some b /\ isValid b = true.

Lemma cache_ways c i s w :
  cache_wf c -> m_sets c !! i = Some s -> w < cache_associativity c ->
  exists b, cache_peekBlock c i w = Ok b /\ m_cache_block_info_array (base s) !! w = Some b.
Proof.
  intros Hc Hi Hw. pose proof (cw_sets _ Hc _ _ Hi) as [Hs _ _ _ Has _].
  destruct (array_lookup _ _ Hs w ltac:(lia)) as (b & Hb & _). exists b.
  split; [|done]. unfold cache_peekBlock, peekBlock. rewrite (proj2 (rd_Ok _ _ _) Hi). cbn [mbind res_bind].
  by apply rd_Ok.
Qed.

(** The loops compute the least number of ways that covers every live block. *)
Lemma max_used_ways_spec c :
  cache_wf c -> exists m, max_used_ways c = Ok m /\ m <= cache_associativity c /\
    (forall i w, live c i w -> w < m) /\ (0 < m -> exists i, live c i (m - 1)).
Proof.
  intros Hc. unfold max_used_ways.
  set (covers k j m := m <= cache_associativity c /\
    (forall i w, (i < k \/ (i = k /\ w < j)) -> live c i w -> w < m) /\ (0 < m -> exists i, live c i (m - 1))).
  destruct (fold_loop_inv (fun k m => covers k 0 m) (fun m set_index =>
      fold_loop (fun m way =>
          b ← cache_peekBlock c set_index way;
          if isValid b && (m <? way + 1) then Ok (way + 1) else Ok m)
        m (seq 0 (cache_associativity c))) (Z.to_nat (m_num_sets (cb c))) 0) as (m & -> & Hm).
  - split_and!; [lia|lia|lia].
  - intros k m Hk Hm. destruct (lookup_lt_is_Some_2 (m_sets c) k) as [s Hs].
    { by rewrite (cw_len _ Hc). }
    destruct (fold_loop_inv (covers k) (fun m way =>
          b ← cache_peekBlock c k way;
          if isValid b && (m <? way + 1) then Ok (way + 1) else Ok m) (cache_associativity c) m Hm)
      as (m' & -> & H1 & H2 & H3).
    + intros w x Hw (X1 & X2 & X3). destruct (cache_ways c k s w Hc Hs Hw) as (b & -> & Hb). cbn [mbind res_bind].
      assert (Hl : isValid b = true -> live c k w) by (intros; by exists s, b).
      assert (Hnew : forall i v, live c i v -> (i < k \/ i = k /\ v < S w) ->
                (i < k \/ i = k /\ v < w) \/ (i = k /\ v = w)) by (intros; lia).
      destruct (isValid b && (x <? w + 1)) eqn:E; eexists; (split; [done|]).
      * apply andb_prop in E as [Ev Ex%Nat.ltb_lt]. split_and!; [lia| |].
        -- intros i v Hiv Hlive. destruct (Hnew i v Hlive Hiv) as [Ho|[_ ->]]; [|lia].
           specialize (X2 i v Ho Hlive). lia.
        -- intros _. exists k. replace (w + 1 - 1) with w by lia. auto.
      * split_and!; [done| |done]. intros i v Hiv Hlive. destruct (Hnew i v Hlive Hiv) as [Ho|[-> ->]]; [by apply (X2 i v)|].
        destruct Hlive as (s' & b' & Hs' & Hb' & Hv). assert (s' = s) as -> by congruence.
        assert (b' = b) as -> by congruence. rewrite Hv in E. apply Nat.ltb_ge in E. lia.
    + exists m'. split; [done|]. split_and!; [done| |done]. intros i w [Hi|[_ Hw]] Hlive; [|lia].
      apply (H2 i w); [|done]. destruct (decide (i = k)) as [->|]; [right|left; lia]. split; [done|].
      destruct Hlive as (s' & b' & Hs' & Hb' & _). apply lookup_lt_Some in Hb'.
      pose proof (cw_sets _ Hc _ _ Hs') as [Hset _ _ _ Has _]. rewrite (set_wf_array _ _ Hset) in Hb'. lia.
  - destruct Hm as (M1 & M2 & M3). exists m. split_and!; try done. intros i w Hlive.
    apply (M2 i w); [|done]. left. destruct Hlive as (s & b & Hs & _). apply lookup_lt_Some in Hs.
    by rewrite (cw_len _ Hc) in Hs.
Qed.

Lemma gate_loop n (l : list (CacheSet P)) k :
  k <= length l ->
  fold_loop (fun l i => s ← rd l i; wr l i (gate n s)) l (seq 0 k) = Ok ((gate n <$> take k l) ++ drop k l).
Proof.
  induction k as [|k IH]; intros Hk; [done|].
  rewrite seq_S, Nat.add_0_l, fold_loop_app, IH by lia. cbn [mbind res_bind fold_loop].
  destruct (lookup_lt_is_Some_2 l k ltac:(lia)) as [x Hx].
  assert (Hlen : length (gate n <$> take k l) = k) by (rewrite length_fmap, length_take; lia).
  assert (Hlk : ((gate n <$> take k l) ++ drop k l) !! k = Some x).
  { rewrite lookup_app_r by lia. rewrite Hlen, lookup_drop, Nat.sub_diag, Nat.add_0_r. done. }
  rewrite (proj2 (rd_Ok _ _ _) Hlk). cbn [mbind res_bind].
  rewrite wr_lt by (by eapply lookup_lt_Some). cbn [mbind res_bind]. f_equal.
  rewrite insert_app_r_alt by lia. rewrite Hlen, Nat.sub_diag.
  rewrite (drop_S l x k Hx), (take_S_r l k x Hx), fmap_app. cbn. by rewrite <- app_assoc.
Qed.

Lemma gate_wf c i s n :
  0 < n <= cache_associativity c -> line_set_wf c i s (m_set_info c) ->
  line_set_wf c i (gate n s) (m_set_info c).
Proof.
  intros Hn [[W1 W2 W3 W4 W5] H2 H3 H4 H5 H6]. split; cbn; try done.
  - split; cbn; try done. lia.
  - by eapply policy_wf_ext; [|reflexivity|exact H3].
Qed.

(** C23: [setActiveWays] never gates off live data: it always returns; the number of active ways
    it sets in every set covers every valid block, is at least one and at most the
    associativity, and is the target whenever the target satisfies these bounds; the
    resident lines are unchanged and the invariant is kept. *)
Theorem setActiveWays_safe c target :
  cache_wf c ->
  exists n c', setActiveWays c target = Ok (n, c') /\
    1 <= n <= cache_associativity c /\
    (forall i w, live c i w -> w < n) /\
    (1 <= target <= cache_associativity c -> (forall i w, live c i w -> w < target) -> n = target) /\
    (forall i s, m_sets c' !! i = Some s -> m_num_active_ways (base s) = n) /\
    resident c' = resident c /\ cache_wf c'.
Proof.
  intros Hc. unfold setActiveWays. destruct (max_used_ways_spec c Hc) as (used & -> & Hle & Hcov & Hmin).
  cbn [mbind res_bind]. cbv zeta. set (n := if cache_associativity c <? _ then _ else _).
  assert (Has : 0 < cache_associativity c).
  { pose proof (cb_wf_sets _ (cw_cb _ Hc)).
    destruct (lookup_lt_is_Some_2 (m_sets c) 0) as [s Hs]; [rewrite (cw_len _ Hc); lia|].
    pose proof (cw_sets _ Hc _ _ Hs) as [Hset _ _ _ E _]. pose proof (set_wf_ways _ _ Hset). lia. }
  assert (Hn : 1 <= n <= cache_associativity c /\ used <= n /\
    (1 <= target <= cache_associativity c -> used <= target -> n = target)).
  { unfold n. repeat case_match; rewrite ?Nat.ltb_lt, ?Nat.ltb_ge in *; lia. }
  destruct Hn as (Hn & Hun & Heq). rewrite <- (cw_len _ Hc), gate_loop by done. cbn [mbind res_bind].
  rewrite take_ge, drop_ge, app_nil_r by done. eexists n, _. split; [done|].
  assert (Hlk : forall i s, (gate n <$> m_sets c) !! i = Some s -> exists s0, m_sets c !! i = Some s0 /\ s = gate n s0).
  { intros i s. rewrite list_lookup_fmap. destruct (m_sets c !! i) as [s0|]; [|done]. intros [= <-]. eauto. }
  split_and!; try done; try lia.
  - intros i w Hl. specialize (Hcov i w Hl). lia.
  - intros Ht Hlive. apply Heq; [done|]. destruct (decide (used = 0)); [lia|].
    destruct (Hmin ltac:(lia)) as [i Hi]. specialize (Hlive i _ Hi). lia.
  - intros i s Hi. by destruct (Hlk i s Hi) as (s0 & _ & ->).
  - apply set_eq. intros t. rewrite !elem_of_resident. cbn. split.
    + intros (i & s & Hi & Ht). destruct (Hlk i s Hi) as (s0 & Hs0 & ->). eauto.
    + intros (i & s & Hi & Ht). exists i, (gate n s). rewrite list_lookup_fmap, Hi. done.
  - pose proof Hc as [H1 H2 H3 H4 H5 H6 H7 H8]. split; cbn; try done; [by rewrite length_fmap|].
    intros i s Hi. destruct (Hlk i s Hi) as (s0 & Hs0 & ->).
    destruct (gate_wf c i s0 n ltac:(lia) (H6 i s0 Hs0)). by split.
Qed.

End gating.

Lemma setActiveWays_safe_witness :
  exists n c', setActiveWays tiny 1 = Ok (n, c') /\ 1 <= n <= 2 /\ resident c' = resident tiny.
Proof.
  destruct (setActiveWays_safe tiny 1 (proj1 tiny_wf)) as (n & c' & H1 & H2 & _ & _ & _ & H3 & _).
  exists n, c'. split; [exact H1|split; [exact H2|exact H3]].
Defined.

(** Gating after two insertions into one set keeps both ways. *)
Example gating_keeps_two_ways :
  (r1 ← insertSingleLine tiny 0x1040 None evict_obj false None DATA;
   r2 ← insertSingleLine (in_cache r1) 0x2040 None evict_obj false None DATA;
   '(n, c) ← setActiveWays (in_cache r2) 1; Ok n) = Ok 2.
Proof. vm_compute. reflexivity. Qed.

(** ** Data *)

Lemma slice_splice l from d l' :
  splice l from d = Ok l' -> slice l' from (length d) = Ok d.
Proof.
  unfold splice, slice. case_decide as H; [|done]. intros [= <-].
  rewrite decide_True by (rewrite !length_app, length_take, length_drop; lia). f_equal.
  rewrite drop_app_ge by (rewrite length_take; lia).
  rewrite length_take, Nat.min_l, Nat.sub_diag, drop_0 by lia. by rewrite take_app_length.
Qed.

(** Bytes outside the written range are kept. *)
Lemma slice_splice_other l from d l' from' n :
  splice l from d = Ok l' -> from' + n <= from \/ from + length d <= from' -> slice l' from' n = slice l from' n.
Proof.
  unfold splice, slice. case_decide as H; [|done]. intros [= <-] Hd.
  assert (E : length (take from l ++ d ++ drop (from + length d) l) = length l).
  { rewrite !length_app, length_take, length_drop. lia. }
  rewrite E. destruct (decide (from' + n <= length l)) as [Hn|Hn]; [|done]. f_equal.
  apply list_eq. intros i. destruct (decide (i < n)) as [Hi|Hi].
  2: { rewrite !lookup_take_ge by lia. done. }
  rewrite !lookup_take_lt, !lookup_drop by lia. destruct Hd as [Hd|Hd].
  - rewrite lookup_app_l by (rewrite length_take; lia). by rewrite lookup_take_lt by lia.
  - rewrite lookup_app_r by (rewrite length_take; lia).
    rewrite lookup_app_r by (rewrite length_take; lia). rewrite length_take, lookup_drop. f_equal. lia.
Qed.

Section data.
Context {P : Type} `{!ReplacementPolicy P} `{!ReplacementPolicyLaws P}.

(** Data written to a line is read back: after [write_line] a [read_line] of the same bytes
    returns the bytes of the buffer, and a [read_line] of another line returns what it
    returned before. *)
Theorem write_read_line ty (c : CacheSet P) e w off src bytes upd c' e' w' d :
  set_wf ty (base c) -> m_blocks (base c) = Some d ->
  w < m_associativity (base c) -> (0 <= off)%Z -> (0 <= bytes)%Z -> (off + bytes <= cs_blocksize (base c))%Z ->
  write_line c w off (Some src) bytes upd e = Ok (c', e') ->
  (exists e2, read_line c' w off true bytes false e2 = Ok (Some (take (Z.to_nat bytes) src), c', e2)) /\
  (w <> w' -> w' < m_associativity (base c) -> forall e2 x,
     read_line c w' off true bytes false e2 = Ok (x, c, e2) ->
     read_line c' w' off true bytes false e2 = Ok (x, c', e2)).
Proof.
  intros Hwf Hd Hw Ho Hb Hle H. pose proof (set_wf_size _ _ Hwf).
  assert (Hu : u32 (off + bytes) = (off + bytes)%Z) by (apply wrap_small; split; lia).
  unfold write_line in H. rewrite Hu, (proj2 (Z.leb_le _ _)), Hd in H by done. cbn [check mbind res_bind] in H.
  destruct (slice src 0 (Z.to_nat bytes)) as [x|] eqn:Ex; [|done]. cbn [mbind res_bind] in H.
  set (n := Z.to_nat (cs_blocksize (base c))) in *.
  destruct (splice d (w * n + Z.to_nat off) x) as [d'|] eqn:Ed; [|done]. cbn [mbind res_bind] in H.
  assert (Ex' : x = take (Z.to_nat bytes) src /\ length x = Z.to_nat bytes).
  { unfold slice in Ex. case_decide; [|done]. injection Ex as <-. rewrite drop_0. split; [done|]. rewrite length_take. lia. }
  destruct Ex' as [-> Hlx].
  assert (Hc' : base c' = set_blocks (Some d') (base c)).
  { destruct upd; [|by inv_res]. destruct (updateReplacementIndex _ _ _ _) as [[p1 e1]|]; [|done]. by inv_res. }
  unfold read_line. rewrite Hc'. cbn [cs_blocksize set_blocks m_blocks].
  rewrite Hu, (proj2 (Z.leb_le _ _)) by done. cbn [check mbind res_bind]. fold n. split.
  - exists e. pose proof (slice_splice _ _ _ _ Ed) as Hss. rewrite Hlx in Hss. by rewrite Hss.
  - intros Hne Hw' e2 y. rewrite Hd, (slice_splice_other _ _ _ _ (w' * n + Z.to_nat off) (Z.to_nat bytes) Ed).
    + destruct (slice d _ _); cbn; [|done]. by intros [= <-].
    + rewrite Hlx. assert (Z.to_nat off + Z.to_nat bytes <= n) by lia. destruct (decide (w' < w)); nia.
Qed.

(** [updateSetReplacement] of a line that is not resident indexes the replacement state with
    [line_index = -1]: with LRU replacement the access is outside [m_lru_bits]. *)
Theorem updateSetReplacement_absent (c : Cache LRU.CacheSetLRU) addr :
  cache_wf c -> in_range 64 addr -> line_of (cb c) addr ∉ resident c ->
  (line_offset (cb c) addr + 8 <= m_blocksize (cb c))%Z ->
  updateSetReplacement c addr = Err OutOfBounds.
Proof.
  intros Hc Ha Hn Hoff. unfold updateSetReplacement, splitAddressOffset.
  destruct (address_set c Hc addr Ha) as (si & s & E & Hsi & Hs & Hget & Hw). rewrite E. cbn [mbind res_bind].
  rewrite Hget. cbn [mbind res_bind]. pose proof (lw_set _ _ _ _ Hw) as Hset.
  rewrite (proj2 (set_find_None _ _ Hset _ (line_of_valid c Hc addr Ha))).
  2: { intros Hin. apply Hn. by apply (resident_at_set c Hc addr Ha si s E Hs). }
  cbn [mbind res_bind default]. unfold read_line. fold (line_offset (cb c) addr).
  pose proof (set_wf_size _ _ Hset). pose proof (lw_block _ _ _ _ Hw) as Hbs.
  pose proof (wrap_range' 32 (Z.land addr (u32 (m_blocksize (cb c) - 1))) ltac:(lia)).
  rewrite (wrap_small 32 (line_offset (cb c) addr + 8)) by (split; unfold line_offset in *; lia).
  rewrite Hbs, (proj2 (Z.leb_le _ _)) by done. cbn [check mbind res_bind].
  cbn [updateReplacementIndex LRU.LRU_policy]. unfold LRU.updateReplacementIndex, rd.
  pose proof (lw_policy _ _ _ _ Hw) as [Hl Hle _ _ _].
  by rewrite (proj2 (lookup_ge_None _ _)) by lia.
Qed.

End data.

(** A one-way set of eight data bytes. *)
Definition data_set : CacheSet LRU.CacheSetLRU :=
  mkCacheSet (mkSet [l1_blk SHARED 1; l1_blk SHARED 2] (Some (replicate 16 0%Z)) 2 2 8 false 0 0 0) (LRU.new 2 1).

Lemma write_read_line_witness :
  exists c' e', write_line data_set 1 2 (Some [7; 8; 9]%Z) 3 false (lru_env 2) = Ok (c', e') /\
    exists e2, read_line c' 1 2 true 3 false e2 = Ok (Some [7; 8; 9]%Z, c', e2).
Proof.
  destruct (write_line data_set 1 2 (Some [7; 8; 9]%Z) 3 false (lru_env 2)) as [[c' e']|] eqn:E; [|discriminate E].
  exists c', e'. split; [reflexivity|].
  apply (write_read_line PR_L1_CACHE data_set (lru_env 2) 1 2 [7; 8; 9]%Z 3 false c' e' 0 (replicate 16 0%Z)).
  - split; cbn; [done|lia|repeat constructor|lia|]. by intros d [= <-].
  - reflexivity.
  - cbn. lia.
  - lia.
  - lia.
  - cbn. lia.
  - exact E.
Defined.

Lemma updateSetReplacement_absent_witness : updateSetReplacement tiny 0x1040 = Err OutOfBounds.
Proof.
  destruct tiny_wf as (H1 & H2 & _). apply (updateSetReplacement_absent tiny 0x1040).
  - exact H1.
  - vm_compute. split; congruence.
  - rewrite H2. set_solver.
  - vm_compute. congruence.
Defined.
