(* ===== verification/Buddy.v ===== *)
(** * The buddy allocator of physical frames

    [Buddy] ([include/memory_management/physical_memory_allocators/buddy.h]): free lists
    per order of blocks of 4 KB pages, splitting on allocation, reservation of 2 MB
    regions, allocation of a given page, freeing, and the artificial fragmentation to a
    target number of free 2 MB pages. Its logging policy has no effect on the state. The
    theorems are about the pages the free lists cover. *)

From Stdlib Require Import ZArith Lia.
From stdpp Require Import base tactics numbers list.
From S2P Require Import Prelude.
Local Open Scope Z_scope.

(** ** State *)

(** The tuple (first page, last page, flag, owner) of a free block. *)
Record block := mkBlk { b_start : Z; b_end : Z; b_flag : bool; b_owner : Z }.
Definition make_block (s e : Z) : block := mkBlk s e false (2 ^ 64 - 1).

Record Buddy := mkBuddy {
  m_memory_size : Z;
  m_max_order : nat;
  m_kernel_size : Z;
  m_total_pages : Z;
  m_free_pages : Z;
  free_list : list (list block)
}.

Definition set_lists (l : list (list block)) (b : Buddy) : Buddy :=
  mkBuddy (m_memory_size b) (m_max_order b) (m_kernel_size b) (m_total_pages b) (m_free_pages b) l.
Definition set_free (n : Z) (b : Buddy) : Buddy :=
  mkBuddy (m_memory_size b) (m_max_order b) (m_kernel_size b) (m_total_pages b) n (free_list b).

(** [free_list[i].push_back(x)], [back] and [pop_back]. *)
Definition push (l : list (list block)) (i : nat) (x : block) : res (list (list block)) :=
  f ← rd l i; wr l i (f ++ [x]).
Definition pop_back (l : list (list block)) (i : nat) : res (block * list (list block)) :=
  f ← rd l i;
  match last f with
  | None => Err OutOfBounds
  | Some x => l ← wr l i (take (length f - 1) f); Ok (x, l)
  end.
(** [front] and [erase(begin())]. *)
Definition pop_front (l : list (list block)) (i : nat) : res (block * list (list block)) :=
  f ← rd l i;
  match f with [] => Err OutOfBounds | x :: f' => l ← wr l i f'; Ok (x, l) end.

(** [ceil(log2(n))] of a page count; the conversion of [log2(0)] to [int] is undefined. *)
Definition order_of (n : Z) : res nat :=
  check (0 <? n) BadShift;; Ok (Z.to_nat (Z.log2_up n)).

Definition pages (order : nat) : Z := 2 ^ Z.of_nat order.

(** ** Operations *)

(** The inner loop of the constructor: blocks of one order while they fit. *)
Fixpoint init_order (fuel : nat) (order : nat) (current_free available : Z) (l : list (list block))
  : res (Z * Z * list (list block)) :=
  match fuel with
  | O => Err Diverges
  | S fuel' =>
      if pages order <=? available then
        l ← push l order (make_block current_free (u64 (current_free + pages order - 1)));
        init_order fuel' order (u64 (current_free + pages order)) (available - pages order) l
      else Ok (current_free, available, l)
  end.

(** The outer loop; [order] counts down, [Err BadShift] when it would pass below zero. *)
Fixpoint init_lists (orders : list nat) (limit current_free available : Z) (l : list (list block))
  : res (list (list block)) :=
  if current_free <? limit then
    match orders with
    | [] => Err BadShift
    | order :: rest =>
        '(cf, av, l) ← init_order (S (Z.to_nat (available / pages order))) order current_free available l;
        init_lists rest limit cf av l
    end
  else Ok l.

(** The constructor; [resize] followed by [emplace_back] leaves twice as many lists. *)
Definition Buddy_new (memory_size : Z) (max_order : nat) (kernel_size : Z) : res Buddy :=
  let limit := u64 (memory_size * 1024) / 4 in
  let kernel_pages := u64 (kernel_size * 1024) / 4 in
  let total := u64 (limit - kernel_pages) in
  l ← init_lists (rev (seq 0 (S max_order))) limit kernel_pages total
        (replicate (S max_order + S max_order) []);
  Ok (mkBuddy memory_size max_order kernel_size total total l).

(** [free_list[i]] for [i] from [ind] to [m_max_order]: the first that is not empty. *)
Definition find_order (b : Buddy) (orders : list nat) : res (option nat) :=
  find_loop (fun i => f ← rd (free_list b) i; Ok (negb (bool_decide (f = [])))) orders.

Definition midpoint (x : block) : Z := u64 (b_start x + u64 (b_end x - b_start x) / 2).

(** The splitting loop of [allocate]: the upper half is kept, the lower one freed. *)
Fixpoint split_down (orders : list nat) (x : block) (l : list (list block))
  : res (block * list (list block)) :=
  match orders with
  | [] => Ok (x, l)
  | i :: rest =>
      let pair1 := make_block (b_start x) (midpoint x) in
      let pair2 := make_block (u64 (midpoint x + 1)) (b_end x) in
      check (u64 (b_end pair2 - b_start pair2 + 1) =? pages i) AssertFailed;;
      l ← push l i pair1;
      l ← push l i pair2;
      '(x, l) ← pop_back l i;
      split_down rest x l
  end.

(** [None] is the result -1 when memory is exhausted. *)
Definition allocate (b : Buddy) (bytes : Z) : res (option Z * Buddy) :=
  ind ← order_of (bytes / 4096);
  o ← find_order b (seq ind (S (m_max_order b) - ind));
  match o with
  | None =>
      if (ind <=? S (m_max_order b))%nat then Ok (None, b) else Err OutOfBounds
  | Some i =>
      '(x, l) ← pop_back (free_list b) i;
      '(x, l) ← split_down (rev (seq ind (i - ind))) x l;
      Ok (Some (b_start x), set_free (u64 (m_free_pages b - pages ind)) (set_lists l b))
  end.

(** The chunks of [2^order] pages of a larger block. *)
Fixpoint chop (chunks : nat) (j : Z) (start : Z) (order : nat) (l : list (list block))
  : res (list (list block)) :=
  match chunks with
  | O => Ok l
  | S c =>
      l ← push l order (make_block (u64 (start + u64 (j * pages order)))
                          (u64 (u64 (start + u64 ((j + 1) * pages order)) - 1)));
      chop c (j + 1) start order l
  end.

Definition reserve_2mb_page (b : Buddy) : res (option block * Buddy) :=
  f ← rd (free_list b) 9;
  if negb (bool_decide (f = [])) then
    '(x, l) ← pop_back (free_list b) 9;
    Ok (Some x, set_lists l b)
  else
    o ← find_order b (seq 10 (S (m_max_order b) - 10));
    match o with
    | None => Ok (None, b)
    | Some i =>
        '(temp, l) ← pop_front (free_list b) i;
        let size := u64 (b_end temp - b_start temp + 1) in
        l ← chop (Z.to_nat (size / 512)) 0 (b_start temp) 9 l;
        '(x, l) ← pop_back l 9;
        Ok (Some x, set_lists l b)
    end.

Definition buddy_free (b : Buddy) (start end_ : Z) : res Buddy :=
  order ← order_of (u64 (end_ - start + 1));
  l ← push (free_list b) order (make_block start end_);
  Ok (set_free (u64 (m_free_pages b + pages order)) (set_lists l b)).

Definition holds (page : Z) (x : block) : bool := (b_start x <=? page) && (page <=? b_end x).

(** The nested search loops of [checkIfFree]. *)
Fixpoint find_page (l : list (list block)) (page : Z) (orders : list nat) : res (option (nat * nat)) :=
  match orders with
  | [] => Ok None
  | i :: rest =>
      f ← rd l i;
      match list_find (fun x => holds page x = true) f with
      | Some (j, _) => Ok (Some (i, j))
      | None => find_page l page rest
      end
  end.

(** The splitting loop of [checkIfFree]: the half without the page goes back. *)
Fixpoint isolate (orders : list nat) (page : Z) (x : block) (l : list (list block))
  : res (list (list block)) :=
  match orders with
  | [] => Ok l
  | i :: rest =>
      let buddy1 := make_block (b_start x) (midpoint x) in
      let buddy2 := make_block (u64 (midpoint x + 1)) (b_end x) in
      if page <=? midpoint x then l ← push l i buddy2; isolate rest page buddy1 l
      else l ← push l i buddy1; isolate rest page buddy2 l
  end.

Definition checkIfFree (b : Buddy) (page : Z) (allocate : bool) : res (bool * Buddy) :=
  o ← find_page (free_list b) page (seq 0 (S (m_max_order b)));
  match o with
  | None => Ok (false, b)
  | Some (i, j) =>
      if allocate then
        f ← rd (free_list b) i;
        x ← rd f j;
        l ← wr (free_list b) i (delete j f);
        l ← isolate (rev (seq 0 i)) page x l;
        Ok (true, set_free (u64 (m_free_pages b - 1)) (set_lists l b))
      else Ok (true, b)
  end.

Definition block_size (x : block) : Z := u64 (b_end x - b_start x + 1).

Definition getFreeLargePageCount (b : Buddy) : Z :=
  foldl (fun count f =>
    foldl (fun count x => if 512 <=? block_size x then u64 (count + block_size x / 512) else count)
      count f) 0 (free_list b).

(** One iteration of [fragmentMemoryToTargetCount]; the distribution is over the single
    value 8. [None]: no block of order 9 or more is left. *)
Definition fragment_once (b : Buddy) : res (option Buddy) :=
  o ← find_order b (rev (seq 9 (S (m_max_order b) - 9)));
  match o with
  | None => Ok None
  | Some i =>
      '(temp, l) ← pop_front (free_list b) i;
      l ← chop (Z.to_nat (block_size temp / pages 8)) 0 (b_start temp) 8 l;
      Ok (Some (set_lists l b))
  end.

Fixpoint fragment_loop (fuel : nat) (b : Buddy) (target : Z) : res Buddy :=
  if target <? getFreeLargePageCount b then
    match fuel with
    | O => Err Diverges
    | S fuel' =>
        o ← fragment_once b;
        match o with None => Ok b | Some b => fragment_loop fuel' b target end
    end
  else Ok b.

(** Every iteration removes a block of order 9 or more. *)
Definition large_blocks (b : Buddy) : nat := length (concat (drop 9 (free_list b))).

Definition fragmentMemoryToTargetCount (b : Buddy) (target : Z) : res Buddy :=
  fragment_loop (large_blocks b) b target.

(** ** The pages covered by the free lists *)

(** How many blocks of a list, and of all lists, hold a page. *)
Definition count (page : Z) (f : list block) : nat := length (filter (fun x => holds page x = true) f).
Definition cover (l : list (list block)) (page : Z) : nat := count page (concat l).

(** A block of its order, in a memory of less than [2^62] pages. *)
Definition block_ok (order : nat) (x : block) : Prop :=
  0 <= b_start x /\ b_end x = b_start x + pages order - 1 /\ b_end x < 2 ^ 62.

Definition lists_ok (max_order : nat) (l : list (list block)) : Prop :=
  (S max_order <= length l)%nat /\ (max_order <= 60)%nat /\
  (forall i f, l !! i = Some f -> if decide (i <= max_order)%nat then Forall (block_ok i) f else f = []).

(** No page is in two free blocks. *)
Definition disjoint_free (b : Buddy) : Prop := forall p, (cover (free_list b) p <= 1)%nat.

Definition buddy_wf (b : Buddy) : Prop := lists_ok (m_max_order b) (free_list b) /\ disjoint_free b.

(** Membership of a page in a range, as a number. *)
Definition within (p lo hi : Z) : nat := if (lo <=? p) && (p <=? hi) then 1%nat else 0%nat.

(** ** Lemmas *)

Definition hold (p : Z) (x : block) : nat := if holds p x then 1%nat else 0%nat.

Lemma count_cons p x f : count p (x :: f) = (hold p x + count p f)%nat.
Proof.
  unfold count, hold. rewrite list.filter_cons. destruct (holds p x); [by rewrite decide_True|by rewrite decide_False].
Qed.

Lemma count_nil p : count p [] = 0%nat.
Proof. done. Qed.

Lemma count_app p f g : count p (f ++ g) = (count p f + count p g)%nat.
Proof. unfold count. by rewrite list.filter_app, length_app. Qed.

#[global] Instance count_perm p : Proper (Permutation ==> eq) (count p).
Proof. intros f g H. unfold count. by rewrite H. Qed.

Lemma concat_insert (l : list (list block)) i f f' :
  l !! i = Some f -> concat (<[i := f']> l) ++ f ≡ₚ concat l ++ f'.
Proof.
  intros H. rewrite (insert_take_drop l i f') by (by eapply lookup_lt_Some).
  rewrite <- (take_drop_middle l i f H) at 3. rewrite !concat_app. cbn.
  rewrite <- !app_assoc. apply Permutation_app_head.
  rewrite (Permutation_app_comm (concat (drop (S i) l)) f), (Permutation_app_comm (concat (drop (S i) l)) f').
  rewrite !app_assoc. apply Permutation_app_tail. apply Permutation_app_comm.
Qed.

Lemma cover_insert l i f f' p :
  l !! i = Some f -> (cover (<[i := f']> l) p + count p f = cover l p + count p f')%nat.
Proof. intros H. unfold cover. rewrite <- !count_app. by rewrite (concat_insert l i f f' H). Qed.

Lemma lists_ok_lookup m l i : lists_ok m l -> (i <= m)%nat -> exists f, l !! i = Some f /\ Forall (block_ok i) f.
Proof.
  intros (Hl & _ & Hf) Hi. destruct (lookup_lt_is_Some_2 l i ltac:(lia)) as [f Hlk].
  exists f. split; [done|]. specialize (Hf i f Hlk). by rewrite decide_True in Hf by done.
Qed.

Lemma lists_ok_insert m l i f :
  lists_ok m l -> (i <= m)%nat -> Forall (block_ok i) f -> lists_ok m (<[i := f]> l).
Proof.
  intros (Hl & Hm & Hf) Hi Hok. split_and!; [by rewrite length_insert|done|]. intros j g.
  rewrite list_lookup_insert. case_decide as E; [|apply Hf]. intros [= <-]. destruct E as [<- _].
  by rewrite decide_True.
Qed.

Lemma push_spec m l i x :
  lists_ok m l -> (i <= m)%nat -> block_ok i x ->
  exists l', push l i x = Ok l' /\ lists_ok m l' /\ (forall p, cover l' p = hold p x + cover l p)%nat.
Proof.
  intros Hl Hi Hx. destruct (lists_ok_lookup m l i Hl Hi) as (f & Hf & Hok). unfold push.
  rewrite (proj2 (rd_Ok _ _ _) Hf). cbn [mbind res_bind]. rewrite wr_lt by (by eapply lookup_lt_Some).
  eexists. split; [done|]. split.
  - apply lists_ok_insert; [done|done|]. apply Forall_app. by split; [|apply Forall_singleton].
  - intros p. pose proof (cover_insert l i f (f ++ [x]) p Hf) as H. rewrite count_app, count_cons, count_nil in H. lia.
Qed.

Lemma pop_back_spec m l i f :
  lists_ok m l -> (i <= m)%nat -> l !! i = Some f -> f <> [] ->
  exists x l', pop_back l i = Ok (x, l') /\ block_ok i x /\ lists_ok m l' /\
    (forall p, cover l p = hold p x + cover l' p)%nat.
Proof.
  intros Hl Hi Hf Hne. destruct (lists_ok_lookup m l i Hl Hi) as (f' & Hf' & Hok).
  rewrite Hf in Hf'. injection Hf' as <-. unfold pop_back. rewrite (proj2 (rd_Ok _ _ _) Hf). cbn [mbind res_bind].
  destruct (last f) as [x|] eqn:E; [|by apply last_None in E]. apply last_Some in E as [g ->].
  rewrite length_app, Nat.add_sub, take_app_length. apply Forall_app in Hok as [Hg Hx]. apply Forall_cons in Hx as [Hx _].
  rewrite wr_lt by (by eapply lookup_lt_Some). cbn [mbind res_bind]. eexists _, _.
  split; [done|]. split; [done|]. split.
  - by apply lists_ok_insert.
  - intros p. pose proof (cover_insert l i (g ++ [x]) g p Hf) as H. rewrite count_app, count_cons, count_nil in H. lia.
Qed.

Lemma pop_front_spec m l i f :
  lists_ok m l -> (i <= m)%nat -> l !! i = Some f -> f <> [] ->
  exists x f' l', f = x :: f' /\ pop_front l i = Ok (x, l') /\ l' = <[i := f']> l /\ block_ok i x /\ lists_ok m l' /\
    (forall p, cover l p = hold p x + cover l' p)%nat.
Proof.
  intros Hl Hi Hf Hne. destruct (lists_ok_lookup m l i Hl Hi) as (f' & Hf' & Hok).
  rewrite Hf in Hf'. injection Hf' as <-. unfold pop_front. rewrite (proj2 (rd_Ok _ _ _) Hf). cbn [mbind res_bind].
  destruct f as [|x f]; [done|]. apply Forall_cons in Hok as [Hx Hok].
  rewrite wr_lt by (by eapply lookup_lt_Some). cbn [mbind res_bind].
  eexists x, f, _. do 4 (split; [done|]). split.
  - by apply lists_ok_insert.
  - intros p. pose proof (cover_insert l i (x :: f) f p Hf) as H. rewrite count_cons in H. lia.
Qed.

Lemma pages_pos i : 0 < pages i.
Proof. unfold pages. apply Z.pow_pos_nonneg; lia. Qed.

Lemma pages_S i : pages (S i) = 2 * pages i.
Proof. unfold pages. rewrite Nat2Z.inj_succ, Z.pow_succ_r by lia. done. Qed.

Lemma pages_mono i j : (i <= j)%nat -> pages i <= pages j.
Proof. intros. unfold pages. apply Z.pow_le_mono_r; lia. Qed.

(** The halves of a block. *)
Lemma halves i x :
  block_ok (S i) x ->
  midpoint x = b_start x + pages i - 1 /\ u64 (midpoint x + 1) = b_start x + pages i /\
  block_ok i (make_block (b_start x) (midpoint x)) /\
  block_ok i (make_block (u64 (midpoint x + 1)) (b_end x)) /\
  (forall p, hold p x = hold p (make_block (b_start x) (midpoint x)) +
                        hold p (make_block (u64 (midpoint x + 1)) (b_end x)))%nat.
Proof.
  intros (Hs & He & Hb). rewrite pages_S in He. pose proof (pages_pos i).
  assert (Em : midpoint x = b_start x + pages i - 1).
  { unfold midpoint. rewrite (wrap_small 64 (b_end x - b_start x)) by (split; lia).
    replace (b_end x - b_start x) with (1 + (pages i - 1) * 2) by lia.
    rewrite Z.div_add by lia. change (1 / 2) with 0. rewrite wrap_small by (split; lia). lia. }
  assert (Eu : u64 (midpoint x + 1) = b_start x + pages i) by (rewrite wrap_small by (split; lia); lia).
  split_and!; try done.
  - unfold block_ok. cbn. lia.
  - unfold block_ok. cbn. lia.
  - intros p. unfold hold, holds. rewrite Eu, Em. cbn.
    repeat match goal with |- context [(?a <=? ?b)] => destruct (Z.leb_spec a b) end; cbn; lia.
Qed.

Lemma split_down_spec m ind k x l :
  lists_ok m l -> (ind + k <= m)%nat -> block_ok (ind + k) x ->
  exists y l', split_down (rev (seq ind k)) x l = Ok (y, l') /\ block_ok ind y /\ lists_ok m l' /\
    (forall p, hold p x + cover l p = hold p y + cover l' p)%nat.
Proof.
  revert x l. induction k as [|k IH]; intros x l Hl Hm Hx.
  { exists x, l. by rewrite Nat.add_0_r in Hx. }
  rewrite seq_S, rev_app_distr. cbn [rev app split_down].
  rewrite Nat.add_succ_r in Hx. destruct (halves _ _ Hx) as (Em & Eu & H1 & H2 & Hp).
  cbn [b_start b_end make_block]. destruct H2 as (Hs2 & He2 & Hb2). cbn in Hs2, He2, Hb2.
  pose proof (pages_pos (ind + k)).
  replace (u64 (b_end x - u64 (midpoint x + 1) + 1)) with (pages (ind + k)) by (rewrite wrap_small by (split; lia); lia).
  rewrite Z.eqb_refl. cbn [check mbind res_bind].
  destruct (push_spec m l (ind + k) _ Hl ltac:(lia) H1) as (l1 & -> & Hl1 & Hc1). cbn [mbind res_bind].
  assert (H2 : block_ok (ind + k) (make_block (u64 (midpoint x + 1)) (b_end x))) by (by split).
  destruct (push_spec m l1 (ind + k) _ Hl1 ltac:(lia) H2) as (l2 & E2 & Hl2 & Hc2). rewrite E2. cbn [mbind res_bind].
  (* the block pushed last is the one popped *)
  assert (Hpop : exists l3, pop_back l2 (ind + k) = Ok (make_block (u64 (midpoint x + 1)) (b_end x), l3) /\
            lists_ok m l3 /\ (forall p, cover l3 p = cover l1 p)).
  { unfold push in E2. destruct (rd l1 (ind + k)) as [f|] eqn:Ef; [|done]. cbn [mbind res_bind] in E2.
    apply wr_Ok in E2 as [Hlt ->]. apply rd_Ok in Ef.
    destruct (pop_back_spec m _ (ind + k) (f ++ [make_block (u64 (midpoint x + 1)) (b_end x)]) Hl2 ltac:(lia))
      as (y & l3 & E3 & _ & Hl3 & Hc3).
    { by rewrite list_lookup_insert_eq. }
    { by destruct f. }
    assert (y = make_block (u64 (midpoint x + 1)) (b_end x)) as ->.
    { unfold pop_back in E3. unfold rd in E3. rewrite list_lookup_insert_eq in E3 by done.
      cbn [mbind res_bind] in E3. rewrite last_snoc in E3. by inv_res. }
    exists l3. split_and!; [done|done|]. intros p. specialize (Hc3 p). specialize (Hc2 p). lia. }
  destruct Hpop as (l3 & -> & Hl3 & Hc3). cbn [mbind res_bind].
  destruct (IH _ l3 Hl3 ltac:(lia) H2) as (y & l' & -> & Hy & Hl' & Hc). exists y, l'. split_and!; try done.
  intros p. rewrite <- Hc, Hc3, Hc1, Hp. lia.
Qed.

Lemma find_order_spec b orders :
  lists_ok (m_max_order b) (free_list b) -> Forall (fun i => i <= m_max_order b)%nat orders ->
  match find_order b orders with
  | Ok (Some i) => i ∈ orders /\ exists f, free_list b !! i = Some f /\ f <> []
  | Ok None => forall i, i ∈ orders -> free_list b !! i = Some []
  | Err _ => False
  end.
Proof.
  intros Hl Ho. unfold find_order.
  set (q i := match free_list b !! i with Some f => negb (bool_decide (f = [])) | None => false end).
  rewrite (find_loop_pure _ q).
  - destruct (first_such q orders) as [i|] eqn:E.
    + apply first_such_Some in E as [Hi Hq]. split; [done|]. unfold q in Hq.
      destruct (free_list b !! i) as [f|] eqn:Ef; [|done]. exists f. split; [done|].
      by apply negb_true_iff, bool_decide_eq_false in Hq.
    + rewrite first_such_None in E. intros i Hi. specialize (E i Hi). unfold q in E.
      destruct (lists_ok_lookup _ _ i Hl) as (f & Hf & _); [by eapply Forall_forall in Ho|].
      rewrite Hf in E |- *. apply negb_false_iff, bool_decide_eq_true in E. by subst.
  - intros i Hi. destruct (lists_ok_lookup _ _ i Hl) as (f & Hf & _); [by eapply Forall_forall in Ho|].
    unfold q. by rewrite (proj2 (rd_Ok _ _ _) Hf), Hf.
Qed.

Lemma within_hold p i x : block_ok i x -> hold p x = within p (b_start x) (b_start x + pages i - 1).
Proof. intros (_ & He & _). unfold hold, holds, within. by rewrite He. Qed.

(** [allocate] as a relation between the pages covered before and after. *)
Lemma allocate_spec b bytes ind :
  lists_ok (m_max_order b) (free_list b) -> order_of (bytes / 4096) = Ok ind -> (ind <= S (m_max_order b))%nat ->
  (exists start l, allocate b bytes = Ok (Some start, set_free (u64 (m_free_pages b - pages ind)) (set_lists l b)) /\
     lists_ok (m_max_order b) l /\ 0 <= start /\ start + pages ind <= 2 ^ 62 /\
     forall p, cover (free_list b) p = (within p start (start + pages ind - 1) + cover l p)%nat) \/
  (allocate b bytes = Ok (None, b) /\
     forall i, (ind <= i <= m_max_order b)%nat -> free_list b !! i = Some []).
Proof.
  intros Hl Ho Hind. unfold allocate. rewrite Ho. cbn [mbind res_bind].
  assert (Hall : Forall (fun i => i <= m_max_order b)%nat (seq ind (S (m_max_order b) - ind))).
  { apply Forall_forall. intros i Hi%elem_of_seq. lia. }
  pose proof (find_order_spec b _ Hl Hall) as Hf.
  destruct (find_order b _) as [[i|]|]; [| |done]; cbn [mbind res_bind].
  - left. destruct Hf as (Hi%elem_of_seq & f & Hlk & Hne).
    destruct (pop_back_spec _ _ i f Hl ltac:(lia) Hlk Hne) as (x & l1 & -> & Hx & Hl1 & Hc1). cbn [mbind res_bind].
    destruct (split_down_spec (m_max_order b) ind (i - ind) x l1 Hl1 ltac:(lia)) as (y & l2 & -> & Hy & Hl2 & Hc2).
    { by replace (ind + (i - ind))%nat with i by lia. }
    cbn [mbind res_bind]. exists (b_start y), l2. split; [done|]. split; [done|].
    destruct Hy as (Hy1 & Hy2 & Hy3). split_and!; [done|lia|].
    intros p. rewrite Hc1, Hc2. f_equal. by apply within_hold.
  - right. rewrite (proj2 (Nat.leb_le _ _)) by done. split; [done|]. intros i Hi. apply Hf, elem_of_seq. lia.
Qed.

Lemma within_split p a b c : a <= b -> b <= c -> (within p a (b - 1) + within p b (c - 1) = within p a (c - 1))%nat.
Proof.
  intros. unfold within.
  repeat match goal with |- context [(?x <=? ?y)] => destruct (Z.leb_spec x y) end; cbn; lia.
Qed.

Lemma within_empty p a : within p a (a - 1) = 0%nat.
Proof.
  unfold within. repeat match goal with |- context [(?x <=? ?y)] => destruct (Z.leb_spec x y) end; cbn; lia.
Qed.

Lemma init_order_spec m order fuel cf av l :
  lists_ok m l -> (order <= m)%nat -> 0 <= cf -> 0 <= av -> cf + av <= 2 ^ 62 ->
  av / pages order < Z.of_nat fuel ->
  exists cf' av' l', init_order fuel order cf av l = Ok (cf', av', l') /\ cf' + av' = cf + av /\
    cf <= cf' /\ 0 <= av' < pages order /\ lists_ok m l' /\
    (forall p, cover l' p = within p cf (cf' - 1) + cover l p)%nat.
Proof.
  intros Hl Ho. pose proof (pages_pos order) as Hp. revert cf av l Hl.
  induction fuel as [|fuel IH]; intros cf av l Hl Hcf Hav Hle Hf.
  { pose proof (Z.div_pos av (pages order) Hav Hp). lia. }
  cbn [init_order]. destruct (Z.leb_spec (pages order) av) as [Hge|Hlt].
  - rewrite !wrap_small by (split; lia).
    destruct (push_spec m l order (make_block cf (cf + pages order - 1)) Hl Ho) as (l1 & -> & Hl1 & Hc1).
    { unfold block_ok. cbn. lia. }
    cbn [mbind res_bind].
    destruct (IH (cf + pages order) (av - pages order) l1 Hl1) as (cf' & av' & l' & -> & E & Hcf' & Hav' & Hl' & Hc');
      [lia|lia|lia| |].
    { replace (av - pages order) with (av + (-1) * pages order) by lia. rewrite Z.div_add by lia. lia. }
    exists cf', av', l'. split; [done|]. split; [lia|]. split; [lia|]. split; [done|]. split; [done|].
    intros p. rewrite Hc', Hc1, Nat.add_assoc. f_equal.
    rewrite (within_hold p order) by (unfold block_ok; cbn; lia). cbn [b_start make_block].
    rewrite Nat.add_comm. apply within_split; lia.
  - exists cf, av, l. split; [done|]. split; [lia|]. split; [lia|]. split; [lia|]. split; [done|].
    intros p. by rewrite within_empty.
Qed.

Lemma init_lists_spec m k limit cf av l :
  lists_ok m l -> (k <= S m)%nat -> (k = S m \/ av < pages k) -> 0 <= cf -> 0 <= av -> cf + av = limit ->
  limit <= 2 ^ 62 ->
  exists l', init_lists (rev (seq 0 k)) limit cf av l = Ok l' /\ lists_ok m l' /\
    (forall p, cover l' p = within p cf (limit - 1) + cover l p)%nat.
Proof.
  revert cf av l. induction k as [|k IH]; intros cf av l Hl Hk Hav Hcf Hav0 E Hlim.
  - cbn [seq rev init_lists]. destruct Hav as [?|Hav]; [lia|]. change (pages 0) with 1 in Hav.
    rewrite (proj2 (Z.ltb_ge _ _)) by lia. exists l. split; [done|]. split; [done|].
    intros p. replace limit with cf by lia. by rewrite within_empty.
  - rewrite seq_S, rev_app_distr. cbn [rev app init_lists]. rewrite Nat.add_0_l.
    destruct (Z.ltb_spec cf limit) as [Hlt|Hge].
    + destruct (init_order_spec m k (S (Z.to_nat (av / pages k))) cf av l Hl ltac:(lia) Hcf Hav0 ltac:(lia))
        as (cf' & av' & l1 & -> & E' & Hcf' & Hav' & Hl1 & Hc1).
      { pose proof (pages_pos k). pose proof (Z.div_pos av (pages k)). lia. }
      cbn [mbind res_bind].
      destruct (IH cf' av' l1 Hl1 ltac:(lia) ltac:(lia) ltac:(lia) ltac:(lia) ltac:(lia) Hlim) as (l' & -> & Hl' & Hc').
      exists l'. split; [done|]. split; [done|]. intros p. rewrite Hc', Hc1, Nat.add_assoc. f_equal.
      rewrite Nat.add_comm. apply within_split; lia.
    + exists l. split; [by destruct (rev (seq 0 k))|]. split; [done|].
      intros p. replace limit with cf by lia. by rewrite within_empty.
Qed.

Lemma cover_replicate n p : cover (replicate n []) p = 0%nat.
Proof. unfold cover. induction n as [|n IH]; cbn; [done|exact IH]. Qed.

Lemma lists_ok_replicate m : (m <= 60)%nat -> lists_ok m (replicate (S m + S m) []).
Proof.
  intros Hm. split_and!; [rewrite length_replicate; lia|done|]. intros i f H.
  apply lookup_replicate in H as [-> _]. by case_decide.
Qed.

Lemma Buddy_new_spec memory max_order kernel :
  0 <= kernel <= memory -> memory < 2 ^ 31 -> (max_order <= 60)%nat ->
  exists b, Buddy_new memory max_order kernel = Ok b /\ buddy_wf b /\
    m_free_pages b = (memory - kernel) * 256 /\ m_total_pages b = (memory - kernel) * 256 /\
    forall p, cover (free_list b) p = within p (kernel * 256) (memory * 256 - 1).
Proof.
  intros Hk Hm Ho. unfold Buddy_new.
  assert (Hd : forall x, 0 <= x < 2 ^ 31 -> u64 (x * 1024) / 4 = x * 256).
  { intros x Hx. rewrite wrap_small by (split; lia).
    replace (x * 1024) with (x * 256 * 4) by lia. by rewrite Z.div_mul by lia. }
  rewrite !Hd by lia. rewrite (wrap_small 64 (memory * 256 - kernel * 256)) by (split; lia).
  destruct (init_lists_spec max_order (S max_order) (memory * 256) (kernel * 256) (memory * 256 - kernel * 256)
    (replicate (S max_order + S max_order) [])) as (l & -> & Hl & Hc).
  { by apply lists_ok_replicate. }
  { lia. } { by left. } { lia. } { lia. } { lia. } { lia. }
  cbn [mbind res_bind]. eexists. split; [done|]. cbn [m_free_pages m_total_pages free_list].
  assert (Hcov : forall p, cover l p = within p (kernel * 256) (memory * 256 - 1)).
  { intros p. rewrite Hc, cover_replicate. lia. }
  split; [|split; [lia|split; [lia|exact Hcov]]]. split; [exact Hl|]. intros p. change (cover l p <= 1)%nat. rewrite Hcov. unfold within.
  destruct (_ && _); lia.
Qed.

(** The constructor puts every page above the kernel into exactly one free block and no
    other page, in blocks of their order, and the counters start at that number. *)
Theorem Buddy_new_covers memory max_order kernel :
  0 <= kernel <= memory -> memory < 2 ^ 31 -> (max_order <= 60)%nat ->
  exists b, Buddy_new memory max_order kernel = Ok b /\ buddy_wf b /\
    m_free_pages b = (memory - kernel) * 256 /\ m_total_pages b = (memory - kernel) * 256 /\
    forall p, cover (free_list b) p = within p (kernel * 256) (memory * 256 - 1).
Proof. apply Buddy_new_spec. Qed.

Lemma Buddy_new_covers_witness :
  exists b, Buddy_new 16 10 1 = Ok b /\ buddy_wf b /\ m_free_pages b = 3840 /\ m_total_pages b = 3840 /\
    forall p, cover (free_list b) p = within p 256 4095.
Proof. apply (Buddy_new_covers 16 10 1); lia. Defined.

(** ** Allocation *)

Lemma disjoint_less b l :
  disjoint_free b -> (forall p, cover l p <= cover (free_list b) p)%nat -> forall p, (cover l p <= 1)%nat.
Proof. intros Hd H p. specialize (Hd p). specialize (H p). lia. Qed.

(** C20: [allocate] takes pages that are free and takes them once: a request of [2^ind] pages
    either returns the first of [2^ind] pages that were all free and are no longer
    free, while every other page keeps its state, or reports exhausted memory when no
    free block of that order or above is left; no assertion fails and the free lists
    stay well formed. *)
Theorem allocate_conserves b bytes ind :
  buddy_wf b -> order_of (bytes / 4096) = Ok ind -> (ind <= S (m_max_order b))%nat ->
  match allocate b bytes with
  | Ok (Some start, b') => buddy_wf b' /\ m_max_order b' = m_max_order b /\
      m_free_pages b' = u64 (m_free_pages b - pages ind) /\
      forall p, cover (free_list b) p = (within p start (start + pages ind - 1) + cover (free_list b') p)%nat
  | Ok (None, b') => b' = b /\ forall i, (ind <= i <= m_max_order b)%nat -> free_list b !! i = Some []
  | Err _ => False
  end.
Proof.
  intros [Hl Hd] Ho Hi. destruct (allocate_spec b bytes ind Hl Ho Hi) as [(start & l & -> & Hl' & _ & _ & Hc)|[-> Hn]];
    [|done].
  split; [|split; [done|split; [done|exact Hc]]]. split; [exact Hl'|].
  intros q. apply (disjoint_less b l Hd). intros p. rewrite Hc. lia.
Qed.

Definition buddy16 : Buddy :=
  match Buddy_new 16 10 1 with Ok b => b | Err _ => mkBuddy 0 0 0 0 0 [] end.

Lemma buddy16_wf : buddy_wf buddy16.
Proof.
  unfold buddy16. destruct (Buddy_new_spec 16 10 1) as (b & -> & Hb & _); [lia|lia|lia|exact Hb].
Qed.

Lemma allocate16 : exists start b', allocate buddy16 8192 = Ok (Some start, b').
Proof. eexists _, _. vm_compute. reflexivity. Qed.

Lemma allocate_conserves_witness :
  exists start b', allocate buddy16 8192 = Ok (Some start, b') /\ buddy_wf b'.
Proof.
  pose proof (allocate_conserves buddy16 8192 1 buddy16_wf ltac:(reflexivity) ltac:(vm_compute; lia)) as H.
  destruct allocate16 as (start & b' & E). rewrite E in H. exists start, b'. split; [exact E|apply H].
Defined.

(** The first allocation comes from the top of the smallest block. *)
Example allocate_first : fst <$> allocate buddy16 8192 = Ok (Some 4094).
Proof. vm_compute. reflexivity. Qed.

(** A sequence of allocations, with the ranges returned. *)
Fixpoint allocate_all (b : Buddy) (requests : list Z) : res (list (Z * Z) * Buddy) :=
  match requests with
  | [] => Ok ([], b)
  | bytes :: rest =>
      '(o, b) ← allocate b bytes;
      '(l, b) ← allocate_all b rest;
      ind ← order_of (bytes / 4096);
      Ok (match o with Some s => (s, s + pages ind - 1) :: l | None => l end, b)
  end.

Definition range_hold (p : Z) (r : Z * Z) : nat := within p r.1 r.2.
Definition allocated (p : Z) (l : list (Z * Z)) : nat := sum_list (range_hold p <$> l).

Lemma allocated_cons p r l : allocated p (r :: l) = (range_hold p r + allocated p l)%nat.
Proof. done. Qed.

(** Frames are never handed out twice: the ranges returned by any sequence of allocations
    are pairwise disjoint and consist of pages that were free at the start. *)
Theorem allocations_disjoint b requests l b' :
  buddy_wf b -> Forall (fun bytes => exists ind, order_of (bytes / 4096) = Ok ind /\ (ind <= S (m_max_order b))%nat) requests ->
  allocate_all b requests = Ok (l, b') ->
  forall p, (allocated p l <= 1)%nat /\ (allocated p l = 1%nat -> cover (free_list b) p = 1%nat).
Proof.
  intros Hwf Hreq H.
  assert (Hsum : forall p, cover (free_list b) p = (allocated p l + cover (free_list b') p)%nat).
  { revert b l Hwf Hreq H. induction requests as [|bytes rest IH]; intros b l Hwf Hreq H; cbn [allocate_all] in H.
    { injection H as <- <-. done. }
    apply Forall_cons in Hreq as [(ind & Ho & Hi) Hreq]. pose proof Hwf as [Hl Hd].
    destruct (allocate_spec b bytes ind Hl Ho Hi) as [(start & l1 & E & Hl1 & _ & _ & Hc)|[E _]]; rewrite E in H;
      cbn [mbind res_bind] in H.
    - set (b1 := set_free _ (set_lists l1 b)) in H.
      destruct (allocate_all b1 rest) as [[l2 b2]|] eqn:E2; [|done]. cbn [mbind res_bind] in H.
      rewrite Ho in H. cbn [mbind res_bind] in H. injection H as <- <-.
      assert (Hwf1 : buddy_wf b1).
      { split; [exact Hl1|]. intros q. apply (disjoint_less b l1 Hd). intros p. rewrite Hc. lia. }
      intros p. rewrite Hc. pose proof (IH b1 l2 Hwf1 Hreq E2 p) as Hp. change (free_list b1) with l1 in Hp.
      rewrite Hp, allocated_cons. unfold range_hold. cbn [fst snd]. lia.
    - destruct (allocate_all b rest) as [[l2 b2]|] eqn:E2; [|done]. cbn [mbind res_bind] in H.
      rewrite Ho in H. cbn [mbind res_bind] in H. injection H as <- <-. by apply IH. }
  intros p. specialize (Hsum p). pose proof (proj2 Hwf p). lia.
Qed.

Lemma allocations_disjoint_witness :
  exists l b', allocate_all buddy16 [4096; 8192; 4096] = Ok (l, b') /\ length l = 3%nat /\
    forall p, (allocated p l <= 1)%nat /\ (allocated p l = 1%nat -> cover (free_list buddy16) p = 1%nat).
Proof.
  assert (E : exists l b', allocate_all buddy16 [4096; 8192; 4096] = Ok (l, b') /\ length l = 3%nat).
  { eexists _, _. split; vm_compute; reflexivity. }
  destruct E as (l & b' & E & Hlen). exists l, b'. split; [exact E|]. split; [exact Hlen|].
  apply (allocations_disjoint buddy16 [4096; 8192; 4096] l b' buddy16_wf); [|exact E].
  repeat constructor; eexists; (split; [reflexivity|vm_compute; lia]).
Defined.

(** ** Freeing *)

Lemma order_of_pages i : order_of (pages i) = Ok i.
Proof.
  unfold order_of. pose proof (pages_pos i). rewrite (proj2 (Z.ltb_lt _ _)) by done. cbn.
  unfold pages. rewrite Z.log2_up_pow2 by lia. by rewrite Nat2Z.id.
Qed.

Lemma free_spec b start i :
  lists_ok (m_max_order b) (free_list b) -> (i <= m_max_order b)%nat -> 0 <= start -> start + pages i <= 2 ^ 62 ->
  exists l, buddy_free b start (start + pages i - 1) =
      Ok (set_free (u64 (m_free_pages b + pages i)) (set_lists l b)) /\
    lists_ok (m_max_order b) l /\
    forall p, cover l p = (within p start (start + pages i - 1) + cover (free_list b) p)%nat.
Proof.
  intros Hl Hi Hs He. unfold buddy_free. pose proof (pages_pos i).
  replace (u64 (start + pages i - 1 - start + 1)) with (pages i).
  2: { rewrite wrap_small by (split; lia). lia. }
  rewrite order_of_pages. cbn [mbind res_bind].
  destruct (push_spec _ _ i (make_block start (start + pages i - 1)) Hl Hi) as (l & -> & Hl' & Hc).
  { unfold block_ok. cbn. lia. }
  eexists. split; [done|]. split; [done|]. intros p. rewrite Hc. done.
Qed.

(** C32: freeing undoes an allocation: after [allocate] returned a range, [free] of that range
    makes the same pages free as before and restores the counter of free pages. *)
Theorem allocate_free_roundtrip b bytes ind start b1 :
  buddy_wf b -> order_of (bytes / 4096) = Ok ind -> (ind <= m_max_order b)%nat ->
  pages ind <= m_free_pages b < 2 ^ 64 ->
  allocate b bytes = Ok (Some start, b1) ->
  exists b2, buddy_free b1 start (start + pages ind - 1) = Ok b2 /\ buddy_wf b2 /\
    m_free_pages b2 = m_free_pages b /\ forall p, cover (free_list b2) p = cover (free_list b) p.
Proof.
  intros [Hl Hd] Ho Hi Hfree H.
  destruct (allocate_spec b bytes ind Hl Ho ltac:(lia)) as [(s & l & E & Hl1 & Hs & He & Hc)|[E _]];
    rewrite E in H; [|discriminate H]. injection H as <- <-.
  destruct (free_spec (set_free (u64 (m_free_pages b - pages ind)) (set_lists l b)) s ind Hl1 Hi Hs ltac:(lia))
    as (l2 & E2 & Hl2 & Hc2).
  eexists. split; [exact E2|]. cbn [m_free_pages set_free free_list set_lists m_max_order].
  assert (Hcov : forall p, cover l2 p = cover (free_list b) p).
  { intros p. rewrite Hc2, Hc. done. }
  split; [split; [exact Hl2|]|split; [|exact Hcov]].
  - intros p. change (cover l2 p <= 1)%nat. rewrite Hcov. apply Hd.
  - pose proof (pages_pos ind). rewrite (wrap_small 64 (m_free_pages b - pages ind)) by (split; lia).
    rewrite wrap_small by (split; lia). lia.
Qed.

Lemma allocate_free_roundtrip_witness :
  exists start b1 b2, allocate buddy16 8192 = Ok (Some start, b1) /\
    buddy_free b1 start (start + pages 1 - 1) = Ok b2 /\ m_free_pages b2 = 3840.
Proof.
  destruct allocate16 as (start & b1 & E).
  destruct (allocate_free_roundtrip buddy16 8192 1 start b1 buddy16_wf ltac:(reflexivity) ltac:(vm_compute; lia)
    ltac:(vm_compute; split; congruence) E) as (b2 & E2 & _ & Ef & _).
  exists start, b1, b2. split; [exact E|split; [exact E2|rewrite Ef; vm_compute; reflexivity]].
Defined.

(** [free] of a range whose length is not a power of two miscounts: returning three pages
    adds four to the number of free pages. *)
Theorem free_miscounts_odd_range :
  exists b, buddy_free (set_free 0 (set_lists (replicate 22 []) buddy16)) 300 302 = Ok b /\ m_free_pages b = 4 /\
    sum_list (length <$> free_list b) = 1%nat.
Proof. eexists. vm_compute. done. Qed.

(** A request more than one order above the largest is not reported as exhausted memory but
    takes the back of an empty list. *)
Theorem allocate_too_large_faults : allocate buddy16 (4096 * 4096) = Err OutOfBounds.
Proof. vm_compute. reflexivity. Qed.

(** ** Allocation of a given page *)

Lemma holds_iff p x : holds p x = true <-> b_start x <= p <= b_end x.
Proof. unfold holds. rewrite andb_true_iff, !Z.leb_le. done. Qed.

Lemma find_page_spec m l page k :
  lists_ok m l -> (k <= S m)%nat ->
  exists o, find_page l page (seq 0 k) = Ok o /\
    match o with
    | Some (i, j) => (i < k)%nat /\ exists f x, l !! i = Some f /\ f !! j = Some x /\ holds page x = true
    | None => forall i f, (i < k)%nat -> l !! i = Some f -> count page f = 0%nat
    end.
Proof.
  intros Hl Hk. assert (H : forall a n, (a + n <= S m)%nat -> exists o, find_page l page (seq a n) = Ok o /\
    match o with
    | Some (i, j) => (a <= i < a + n)%nat /\ exists f x, l !! i = Some f /\ f !! j = Some x /\ holds page x = true
    | None => forall i f, (a <= i < a + n)%nat -> l !! i = Some f -> count page f = 0%nat
    end).
  { intros a n. revert a. induction n as [|n IH]; intros a Ha; cbn [seq find_page].
    { exists None. split; [done|]. lia. }
    destruct (lists_ok_lookup m l a Hl ltac:(lia)) as (f & Hf & _). rewrite (proj2 (rd_Ok _ _ _) Hf). cbn [mbind res_bind].
    destruct (list_find (fun x => holds page x = true) f) as [[j x]|] eqn:E.
    - apply list_find_Some in E as (Hj & Hh & _). exists (Some (a, j)). split; [done|]. split; [lia|].
      by exists f, x.
    - apply list_find_None in E. destruct (IH (S a) ltac:(lia)) as (o & Eo & Ho). exists o. split; [done|].
      destruct o as [[i j]|].
      + destruct Ho as (Hi & Hx). split; [lia|done].
      + intros i g Hi Hg. destruct (decide (i = a)) as [->|]; [|apply (Ho i g); [lia|done]].
        assert (g = f) as -> by congruence. unfold count. rewrite filter_none; [done|].
        intros x Hx. by eapply Forall_forall in E. }
  destruct (H 0%nat k ltac:(lia)) as (o & E & Ho). exists o. split; [done|].
  destruct o as [[i j]|]; [destruct Ho as [? ?]; split; [lia|done]|]. intros i f Hi. apply Ho. lia.
Qed.

Lemma count_positive p f j x : f !! j = Some x -> holds p x = true -> (0 < count p f)%nat.
Proof.
  intros Hj Hx. apply list_elem_of_lookup_2 in Hj. apply list_elem_of_split in Hj as (f1 & f2 & ->).
  rewrite count_app, count_cons. unfold hold. rewrite Hx. lia.
Qed.

Lemma cover_lookup l i f p : l !! i = Some f -> (count p f <= cover l p)%nat.
Proof. intros H. pose proof (cover_insert l i f [] p H). rewrite count_nil in *. lia. Qed.

Lemma cover_zero m l p :
  lists_ok m l -> (forall i f, (i < S m)%nat -> l !! i = Some f -> count p f = 0%nat) -> cover l p = 0%nat.
Proof.
  intros (_ & _ & Hf) H. assert (Hall : forall f, f ∈ l -> count p f = 0%nat).
  { intros f [i Hi]%list_elem_of_lookup. specialize (Hf i f Hi). case_decide; [by apply (H i); [lia|]|by subst]. }
  clear Hf H. unfold cover. induction l as [|f l IH]; [done|]. change (concat (f :: l)) with (f ++ concat l). rewrite count_app, (Hall f) by left.
  apply IH. intros g Hg. apply Hall. by right.
Qed.

Lemma delete_spec m l i f j x :
  lists_ok m l -> (i <= m)%nat -> l !! i = Some f -> f !! j = Some x ->
  exists l', wr l i (delete j f) = Ok l' /\ block_ok i x /\ lists_ok m l' /\
    (forall p, cover l p = hold p x + cover l' p)%nat.
Proof.
  intros Hl Hi Hf Hj. destruct (lists_ok_lookup m l i Hl Hi) as (f' & Hf' & Hok).
  rewrite Hf in Hf'. injection Hf' as <-. rewrite wr_lt by (by eapply lookup_lt_Some).
  eexists. split; [done|]. split; [by eapply Forall_lookup_1|]. split.
  - apply lists_ok_insert; [done|done|]. by apply Forall_delete.
  - intros p. pose proof (cover_insert l i f (delete j f) p Hf) as H.
    assert (count p f = hold p x + count p (delete j f))%nat; [|lia].
    rewrite delete_take_drop. rewrite <- (take_drop_middle f j x Hj) at 1.
    rewrite !count_app, count_cons. lia.
Qed.

Lemma isolate_spec m k page x l :
  lists_ok m l -> (k <= m)%nat -> block_ok k x -> holds page x = true ->
  exists l', isolate (rev (seq 0 k)) page x l = Ok l' /\ lists_ok m l' /\
    (forall p, hold p x + cover l p = within p page page + cover l' p)%nat.
Proof.
  revert x l. induction k as [|k IH]; intros x l Hl Hk Hx Hh.
  { exists l. split; [done|]. split; [done|]. intros p. apply holds_iff in Hh.
    destruct Hx as (_ & He & _). change (pages 0) with 1 in He. f_equal. unfold hold, holds, within.
    by replace (b_start x) with page by lia; replace (b_end x) with page by lia. }
  rewrite seq_S, rev_app_distr, Nat.add_0_l. cbn [rev app isolate].
  destruct (halves _ _ Hx) as (Em & Eu & H1 & H2 & Hp). apply holds_iff in Hh.
  destruct Hx as (Hs & He & Hb). rewrite pages_S in He. pose proof (pages_pos k).
  destruct (Z.leb_spec page (midpoint x)) as [Hle|Hgt].
  - destruct (push_spec m l k _ Hl ltac:(lia) H2) as (l1 & -> & Hl1 & Hc1). cbn [mbind res_bind].
    destruct (IH _ l1 Hl1 ltac:(lia) H1) as (l' & -> & Hl' & Hc'); [apply holds_iff; cbn; lia|].
    exists l'. split; [done|]. split; [done|]. intros p. rewrite <- Hc', Hc1, Hp. lia.
  - destruct (push_spec m l k _ Hl ltac:(lia) H1) as (l1 & -> & Hl1 & Hc1). cbn [mbind res_bind].
    destruct (IH _ l1 Hl1 ltac:(lia) H2) as (l' & -> & Hl' & Hc'); [apply holds_iff; cbn; lia|].
    exists l'. split; [done|]. split; [done|]. intros p. rewrite <- Hc', Hc1, Hp. lia.
Qed.

(** [checkIfFree] with [allocate] takes exactly the requested page: it returns whether the
    page was free, and if so that page and no other leaves the free lists, which stay
    well formed. *)
Theorem checkIfFree_allocates b page :
  buddy_wf b ->
  exists b', checkIfFree b page true = Ok (bool_decide (cover (free_list b) page = 1%nat), b') /\ buddy_wf b' /\
    forall p, (cover (free_list b) p = (if bool_decide (cover (free_list b) page = 1) then within p page page else 0)
                                       + cover (free_list b') p)%nat.
Proof.
  intros [Hl Hd]. unfold checkIfFree.
  destruct (find_page_spec _ _ page (S (m_max_order b)) Hl ltac:(lia)) as (o & -> & Ho). cbn [mbind res_bind].
  destruct o as [[i j]|].
  - destruct Ho as (Hi & f & x & Hf & Hj & Hh).
    assert (Hone : cover (free_list b) page = 1%nat).
    { pose proof (count_positive page f j x Hj Hh). pose proof (cover_lookup _ _ _ page Hf). specialize (Hd page). lia. }
    rewrite bool_decide_true by done. rewrite (proj2 (rd_Ok _ _ _) Hf). cbn [mbind res_bind].
    rewrite (proj2 (rd_Ok _ _ _) Hj). cbn [mbind res_bind].
    destruct (delete_spec _ _ i f j x Hl ltac:(lia) Hf Hj) as (l1 & -> & Hx & Hl1 & Hc1). cbn [mbind res_bind].
    destruct (isolate_spec _ i page x l1 Hl1 ltac:(lia) Hx Hh) as (l2 & -> & Hl2 & Hc2). cbn [mbind res_bind].
    eexists. split; [done|].
    assert (Hc : forall p, (cover (free_list b) p = within p page page + cover l2 p)%nat).
    { intros p. by rewrite Hc1, Hc2. }
    split; [|exact Hc]. split; [exact Hl2|]. intros q. apply (disjoint_less b l2 Hd). intros p. rewrite Hc. lia.
  - assert (Hz : cover (free_list b) page = 0%nat) by (by apply (cover_zero _ _ _ Hl)).
    rewrite bool_decide_false by lia. exists b. split; [done|]. split; [by split|]. done.
Qed.

Lemma checkIfFree_allocates_witness :
  exists b', checkIfFree buddy16 1000 true = Ok (bool_decide (cover (free_list buddy16) 1000 = 1%nat), b') /\
    buddy_wf b' /\
    forall p, (cover (free_list buddy16) p =
      (if bool_decide (cover (free_list buddy16) 1000 = 1) then within p 1000 1000 else 0)
      + cover (free_list b') p)%nat.
Proof. apply (checkIfFree_allocates buddy16 1000 buddy16_wf). Defined.

Example checkIfFree_twice :
  ('(r1, b) ← checkIfFree buddy16 1000 true; '(r2, b) ← checkIfFree b 1000 true; Ok (r1, r2)) = Ok (true, false).
Proof. vm_compute. reflexivity. Qed.

(** ** Reservation of 2 MB regions and fragmentation *)

Lemma push_lookup l i x l' :
  push l i x = Ok l' ->
  (exists f, l' !! i = Some (f ++ [x])) /\ (forall k, k <> i -> l' !! k = l !! k) /\ length l' = length l.
Proof.
  unfold push. destruct (rd l i) as [f|] eqn:Ef; [|done]. cbn [mbind res_bind]. intros [Hlt ->]%wr_Ok.
  split; [exists f; by rewrite list_lookup_insert_eq|]. split; [|by rewrite length_insert].
  intros k Hk. by rewrite list_lookup_insert_ne.
Qed.

Lemma chop_spec m order c j start l :
  lists_ok m l -> (order <= m)%nat -> 0 <= start -> 0 <= j -> start + (j + Z.of_nat c) * pages order <= 2 ^ 62 ->
  exists l', chop c j start order l = Ok l' /\ lists_ok m l' /\
    (forall p, cover l' p =
       within p (start + j * pages order) (start + (j + Z.of_nat c) * pages order - 1) + cover l p)%nat /\
    (forall k, k <> order -> l' !! k = l !! k) /\ length l' = length l /\
    ((0 < c)%nat -> exists f x, l' !! order = Some (f ++ [x])).
Proof.
  intros Hl Ho Hs. revert j l Hl. pose proof (pages_pos order). induction c as [|c IH]; intros j l Hl Hj He; cbn [chop].
  { exists l. split; [done|]. split; [done|]. split; [|split; [done|split; [done|lia]]].
    intros p. rewrite Z.add_0_r. by rewrite within_empty. }
  rewrite !Nat2Z.inj_succ in *.
  rewrite (wrap_small 64 (j * pages order)) by (split; nia).
  rewrite (wrap_small 64 ((j + 1) * pages order)) by (split; nia).
  rewrite !(wrap_small 64 (start + _)) by (split; nia).
  rewrite (wrap_small 64 (start + (j + 1) * pages order - 1)) by (split; nia).
  set (x := make_block _ _).
  assert (Hx : block_ok order x) by (unfold block_ok, x; cbn; nia).
  destruct (push_spec m l order x Hl Ho Hx) as (l1 & E1 & Hl1 & Hc1). rewrite E1. cbn [mbind res_bind].
  destruct (push_lookup _ _ _ _ E1) as ((f & Hf) & Hother & Hlen).
  destruct (IH (j + 1) l1 Hl1 ltac:(lia)) as (l' & E' & Hl' & Hc' & Ho' & Hlen' & Hne).
  { replace (j + 1 + Z.of_nat c) with (j + Z.succ (Z.of_nat c)) by lia. done. }
  exists l'. split; [done|]. split; [done|]. split; [|split; [|split; [by rewrite Hlen'|]]].
  - intros p. rewrite Hc', Hc1, Nat.add_assoc. f_equal. rewrite (within_hold p order x Hx). cbn [b_start x make_block].
    replace (j + 1 + Z.of_nat c) with (j + Z.succ (Z.of_nat c)) by lia.
    replace (start + (j + 1) * pages order) with (start + j * pages order + pages order) by lia.
    rewrite Nat.add_comm. apply within_split; nia.
  - intros k Hk. rewrite Ho' by done. by apply Hother.
  - intros _. destruct c as [|c].
    + cbn [chop] in E'. injection E' as <-. eauto.
    + apply Hne. lia.
Qed.

Lemma block_size_ok i x : block_ok i x -> (i <= 60)%nat -> block_size x = pages i.
Proof.
  intros (Hs & He & Hb) Hi. unfold block_size. pose proof (pages_pos i). rewrite wrap_small by (split; lia). lia.
Qed.

Lemma pages_div i o : (o <= i)%nat -> pages i / pages o = pages (i - o) /\ pages i = pages (i - o) * pages o.
Proof.
  intros H. assert (E : pages i = pages (i - o) * pages o).
  { unfold pages. rewrite <- Z.pow_add_r by lia. f_equal. lia. }
  split; [|done]. rewrite E. apply Z.div_mul. pose proof (pages_pos o). lia.
Qed.

(** A block of a larger order chopped into chunks of order [o] covers the same pages. *)
Lemma chop_block m i o x l :
  lists_ok m l -> (o <= i <= m)%nat -> block_ok i x ->
  exists l', chop (Z.to_nat (pages i / pages o)) 0 (b_start x) o l = Ok l' /\ lists_ok m l' /\
    (forall p, cover l' p = hold p x + cover l p)%nat /\ (forall k, k <> o -> l' !! k = l !! k) /\
    length l' = length l /\ exists f y, l' !! o = Some (f ++ [y]).
Proof.
  intros Hl Ho Hx. destruct (pages_div i o ltac:(lia)) as [Ed Em]. rewrite Ed.
  pose proof (pages_pos (i - o)). pose proof Hx as (Hs & He & Hb).
  destruct (chop_spec m o (Z.to_nat (pages (i - o))) 0 (b_start x) l Hl ltac:(lia) Hs ltac:(lia))
    as (l' & E & Hl' & Hc & Hk & Hlen & Hne).
  { rewrite Z2Nat.id by lia. nia. }
  exists l'. split; [done|]. split; [done|]. split; [|split; [done|split; [done|apply Hne; lia]]].
  intros p. rewrite Hc, Z2Nat.id by lia. f_equal. rewrite (within_hold p i x Hx).
  replace (b_start x + 0 * pages o) with (b_start x) by lia. f_equal. lia.
Qed.

(** [reserve_2mb_page] hands out 512 consecutive pages that were free and frees no other
    page, or reports that no block of 2 MB or more is free; but [m_free_pages] keeps
    its value, so it overstates the pages in the free lists. *)
Theorem reserve_2mb_conserves b :
  buddy_wf b -> (9 <= m_max_order b)%nat ->
  match reserve_2mb_page b with
  | Ok (Some x, b') => b_end x = b_start x + 511 /\ buddy_wf b' /\ m_free_pages b' = m_free_pages b /\
      forall p, cover (free_list b) p = (within p (b_start x) (b_start x + 511) + cover (free_list b') p)%nat
  | Ok (None, b') => b' = b /\ forall i, (9 <= i <= m_max_order b)%nat -> free_list b !! i = Some []
  | Err _ => False
  end.
Proof.
  intros [Hl Hd] Hm. unfold reserve_2mb_page. destruct (lists_ok_lookup _ _ 9 Hl Hm) as (f & Hf & _).
  rewrite (proj2 (rd_Ok _ _ _) Hf). cbn [mbind res_bind].
  assert (Hfin : forall x l', block_ok 9 x -> lists_ok (m_max_order b) l' ->
    (forall p, cover (free_list b) p = hold p x + cover l' p)%nat ->
    b_end x = b_start x + 511 /\ buddy_wf (set_lists l' b) /\ m_free_pages (set_lists l' b) = m_free_pages b /\
    forall p, cover (free_list b) p = (within p (b_start x) (b_start x + 511) + cover l' p)%nat).
  { intros x l' Hx Hl' Hc. pose proof Hx as (_ & He & _). change (pages 9) with 512 in He.
    split; [lia|]. split; [|split; [done|]].
    - split; [exact Hl'|]. intros q. apply (disjoint_less b l' Hd). intros p. rewrite Hc. lia.
    - intros p. rewrite Hc, (within_hold p 9 x Hx). change (pages 9) with 512. f_equal. f_equal. lia. }
  destruct (bool_decide (f = [])) eqn:Ef; cbn [negb].
  - apply bool_decide_eq_true in Ef as ->.
    assert (Hall : Forall (fun i => i <= m_max_order b)%nat (seq 10 (S (m_max_order b) - 10))).
    { apply Forall_forall. intros i Hi%elem_of_seq. lia. }
    pose proof (find_order_spec b _ Hl Hall) as Ho. destruct (find_order b _) as [[i|]|]; [| |done]; cbn [mbind res_bind].
    + destruct Ho as (Hi%elem_of_seq & g & Hg & Hne).
      destruct (pop_front_spec _ _ i g Hl ltac:(lia) Hg Hne) as (x & g' & l1 & _ & -> & El1 & Hx & Hl1 & Hc1).
      cbn [mbind res_bind]. fold (block_size x).
      rewrite (block_size_ok i x Hx) by (destruct Hl as (_ & ? & _); lia). change 512 with (pages 9).
      destruct (chop_block _ i 9 x l1 Hl1 ltac:(lia) Hx) as (l2 & -> & Hl2 & Hc2 & _ & _ & (h & y & Hh)).
      cbn [mbind res_bind].
      destruct (pop_back_spec _ _ 9 _ Hl2 Hm Hh ltac:(by destruct h)) as (z & l3 & -> & Hz & Hl3 & Hc3). cbn [mbind res_bind].
      apply Hfin; [done|done|]. intros p. rewrite Hc1, <- Hc2, Hc3. done.
    + split; [done|]. intros i Hi. destruct (decide (i = 9%nat)) as [->|]; [done|]. apply Ho, elem_of_seq. lia.
  - apply bool_decide_eq_false in Ef.
    destruct (pop_back_spec _ _ 9 f Hl Hm Hf Ef) as (x & l1 & -> & Hx & Hl1 & Hc1). cbn [mbind res_bind]. by apply Hfin.
Qed.

Lemma reserve_2mb_conserves_witness :
  exists x b', reserve_2mb_page buddy16 = Ok (Some x, b') /\ b_end x = b_start x + 511 /\
    m_free_pages b' = m_free_pages buddy16.
Proof.
  assert (E : exists x b', reserve_2mb_page buddy16 = Ok (Some x, b')) by (eexists _, _; vm_compute; reflexivity).
  destruct E as (x & b' & E).
  pose proof (reserve_2mb_conserves buddy16 buddy16_wf ltac:(vm_compute; lia)) as H. rewrite E in H.
  exists x, b'. split; [exact E|]. split; apply H.
Defined.

(** Blocks of order 8 and below are not counted. *)
Lemma small_not_counted m l :
  lists_ok m l -> (forall i, (9 <= i <= m)%nat -> l !! i = Some []) ->
  forall c, foldl (fun count f =>
    foldl (fun count x => if 512 <=? block_size x then u64 (count + block_size x / 512) else count) count f) c l = c.
Proof.
  intros (Hlen & Hm & Hf) Hempty.
  assert (Hall : forall f, f ∈ l -> Forall (fun x => (512 <=? block_size x) = false) f).
  { intros f [i Hi]%list_elem_of_lookup. specialize (Hf i f Hi). case_decide as Ei; [|by subst].
    destruct (decide (9 <= i)%nat). { rewrite (Hempty i) in Hi by lia. by injection Hi as <-. }
    eapply Forall_impl; [exact Hf|]. intros x Hx. rewrite (block_size_ok i x Hx) by lia. apply Z.leb_gt.
    pose proof (pages_mono i 8 ltac:(lia)). change (pages 8) with 256 in *. lia. }
  clear Hlen Hm Hf Hempty. induction l as [|f l IH]; intros c; [done|]. cbn [foldl].
  assert (Hin : foldl (fun count x => if 512 <=? block_size x then u64 (count + block_size x / 512) else count) c f = c).
  { assert (Hs : Forall (fun x => (512 <=? block_size x) = false) f) by (apply Hall; left). clear IH Hall.
    revert c. induction Hs as [|x f Hx _ IHf]; intros c; cbn [foldl]; [done|]. rewrite Hx. apply IHf. }
  rewrite Hin. apply IH. intros g Hg. apply Hall. by right.
Qed.

(** One iteration: the pages stay covered and one large block disappears. *)
Lemma fragment_once_spec b :
  lists_ok (m_max_order b) (free_list b) -> (8 <= m_max_order b)%nat ->
  exists o, fragment_once b = Ok o /\
    match o with
    | None => forall i, (9 <= i <= m_max_order b)%nat -> free_list b !! i = Some []
    | Some b' => m_max_order b' = m_max_order b /\ lists_ok (m_max_order b) (free_list b') /\
        (forall p, cover (free_list b') p = cover (free_list b) p) /\ S (large_blocks b') = large_blocks b
    end.
Proof.
  intros Hl Hm. unfold fragment_once.
  assert (Hin : forall i, i ∈ rev (seq 9 (S (m_max_order b) - 9)) <-> (9 <= i <= m_max_order b)%nat).
  { intros i. rewrite list_elem_of_In, <- in_rev, <- list_elem_of_In, elem_of_seq. lia. }
  assert (Hall : Forall (fun i => i <= m_max_order b)%nat (rev (seq 9 (S (m_max_order b) - 9)))).
  { apply Forall_forall. intros i Hi%Hin. lia. }
  pose proof (find_order_spec b _ Hl Hall) as Ho. destruct (find_order b _) as [[i|]|]; [| |done]; cbn [mbind res_bind].
  2: { exists None. split; [done|]. intros i Hi. by apply Ho, Hin. }
  destruct Ho as (Hi%Hin & g & Hg & Hne).
  destruct (pop_front_spec _ _ i g Hl ltac:(lia) Hg Hne) as (x & g' & l1 & Eg & -> & El1 & Hx & Hl1 & Hc1).
  cbn [mbind res_bind]. rewrite (block_size_ok i x Hx) by (destruct Hl as (_ & ? & _); lia).
  destruct (chop_block _ i 8 x l1 Hl1 ltac:(lia) Hx) as (l2 & -> & Hl2 & Hc2 & Hk & Hlen & _). cbn [mbind res_bind].
  eexists. split; [done|]. split; [done|]. split; [exact Hl2|]. cbn [free_list set_lists]. split.
  { intros p. by rewrite Hc2, Hc1. }
  unfold large_blocks. cbn [free_list set_lists].
  assert (Ed : drop 9 l2 = drop 9 l1).
  { apply list_eq. intros k. rewrite !lookup_drop. apply Hk. lia. }
  rewrite Ed, El1. assert (Hd : drop 9 (free_list b) !! (i - 9)%nat = Some g).
  { rewrite lookup_drop. by replace (9 + (i - 9))%nat with i by lia. }
  assert (Ei : drop 9 (<[i := g']> (free_list b)) = <[(i - 9)%nat := g']> (drop 9 (free_list b))).
  { apply drop_insert_ge. lia. }
  rewrite Ei. pose proof (Permutation_length (concat_insert _ _ g g' Hd)) as Hp. rewrite !length_app, Eg in Hp. cbn in Hp.
  cbn. lia.
Qed.

(** Artificial fragmentation terminates at its target: [fragmentMemoryToTargetCount] returns
    after at most one iteration per block of 2 MB or more, at most [target] free 2 MB
    pages are left, and every page is free afterwards exactly if it was before. *)
Theorem fragment_reaches_target b target :
  lists_ok (m_max_order b) (free_list b) -> (8 <= m_max_order b)%nat -> 0 <= target ->
  exists b', fragmentMemoryToTargetCount b target = Ok b' /\ getFreeLargePageCount b' <= target /\
    forall p, cover (free_list b') p = cover (free_list b) p.
Proof.
  intros Hl Hm Ht. unfold fragmentMemoryToTargetCount.
  assert (H : forall fuel b, lists_ok (m_max_order b) (free_list b) -> (8 <= m_max_order b)%nat -> large_blocks b = fuel ->
    exists b', fragment_loop fuel b target = Ok b' /\ getFreeLargePageCount b' <= target /\
      forall p, cover (free_list b') p = cover (free_list b) p).
  2: { by apply H. }
  clear b Hl Hm. induction fuel as [|fuel IH]; intros b Hl Hm Hf; cbn [fragment_loop];
    (destruct (Z.ltb_spec target (getFreeLargePageCount b)) as [Hlt|Hge]; [|by exists b]);
    destruct (fragment_once_spec b Hl Hm) as (o & Eo & Ho).
  - exfalso. destruct o as [b'|]; [destruct Ho as (_ & _ & _ & ?); lia|].
    unfold getFreeLargePageCount in Hlt. rewrite (small_not_counted _ _ Hl Ho) in Hlt. lia.
  - rewrite Eo. cbn [mbind res_bind]. destruct o as [b'|].
    + destruct Ho as (Em & Hl' & Hc & Hs). rewrite <- Em in Hl', Hm.
      destruct (IH b' Hl' Hm ltac:(lia)) as (b2 & -> & Hle & Hc2). exists b2. split; [done|]. split; [done|].
      intros p. by rewrite Hc2, Hc.
    + unfold getFreeLargePageCount in Hlt. rewrite (small_not_counted _ _ Hl Ho) in Hlt. lia.
Qed.

Lemma fragment_reaches_target_witness :
  exists b', fragmentMemoryToTargetCount buddy16 3 = Ok b' /\ getFreeLargePageCount b' <= 3 /\
    forall p, cover (free_list b') p = cover (free_list buddy16) p.
Proof.
  apply (fragment_reaches_target buddy16 3); [apply buddy16_wf|vm_compute; lia|lia].
Defined.

Example fragment16 :
  getFreeLargePageCount buddy16 = 7 /\
  getFreeLargePageCount <$> fragmentMemoryToTargetCount buddy16 3 = Ok 3.
Proof. vm_compute. done. Qed.
