(* ===== verification/Sync.v ===== *)
(** * The synchronisation server

    [SimMutex], [SimCond], [SimBarrier] and [SyncServer] ([common/system/sync_server.h/.cc]).
    The thread manager is seen through the two calls the server makes: a stalled thread
    continues when some later call resumes it, so an operation either completes or
    blocks with the function from the wake-up time to its result, and reports the
    stalls and resumptions it caused. All operations run under the thread manager's
    lock, hence one after the other. *)

From Stdlib Require Import ZArith Lia.
From stdpp Require Import base tactics numbers gmap list.
From S2P Require Import Prelude.
Local Open Scope Z_scope.

(** ** State *)

Definition NO_OWNER : Z := s32 (2 ^ 32 - 1).
Definition INVALID_THREAD_ID : Z := -1.

Record SimMutex := mkMutex { m_owner : Z; mutex_waiting : list Z }.
(** A waiter keeps the address of the mutex it must take again. *)
Record CondWaiter := mkWaiter { m_thread_id : Z; m_mutex : Z }.
Record SimCond := mkCond { cond_waiting : list CondWaiter }.
Record SimBarrier := mkBarrier { m_count : Z; barrier_waiting : list Z }.

Record SyncServer := mkServer {
  m_mutexes : gmap Z SimMutex;
  m_conds : gmap Z SimCond;
  m_barriers : list SimBarrier;
  m_reschedule_cost : Z
}.

Definition SyncServer_new (cost : Z) : SyncServer := mkServer ∅ ∅ [] cost.

Definition put_mutex (a : Z) (m : SimMutex) (s : SyncServer) : SyncServer :=
  mkServer (<[a := m]> (m_mutexes s)) (m_conds s) (m_barriers s) (m_reschedule_cost s).
Definition put_cond (a : Z) (c : SimCond) (s : SyncServer) : SyncServer :=
  mkServer (m_mutexes s) (<[a := c]> (m_conds s)) (m_barriers s) (m_reschedule_cost s).
Definition put_barriers (b : list SimBarrier) (s : SyncServer) : SyncServer :=
  mkServer (m_mutexes s) (m_conds s) b (m_reschedule_cost s).

Inductive stall_type_t := STALL_MUTEX | STALL_COND | STALL_BARRIER.
Inductive event :=
| Stall (thread_id : Z) (reason : stall_type_t) (time : Z)
| Resume (thread_id thread_by time : Z).

(** Completion, or blocking until a wake-up time is known. *)
Inductive outcome (A : Type) := Done (a : A) | Blocked (k : Z -> A).
Arguments Done {_} _.
Arguments Blocked {_} _.
Definition later {A B} (f : A -> B) (o : outcome A) : outcome B :=
  match o with Done a => Done (f a) | Blocked k => Blocked (fun t => f (k t)) end.

(** ** SimMutex *)

Definition SimMutex_new : SimMutex := mkMutex NO_OWNER [].

Definition isLocked (thread_id : Z) (m : SimMutex) : bool :=
  if m_owner m =? NO_OWNER then false else if m_owner m =? thread_id then false else true.

Definition lock (thread_id time : Z) (m : SimMutex) : outcome Z * list event * SimMutex :=
  if m_owner m =? NO_OWNER then (Done time, [], mkMutex thread_id (mutex_waiting m))
  else (Blocked (fun t => t), [Stall thread_id STALL_MUTEX time],
        mkMutex (m_owner m) (mutex_waiting m ++ [thread_id])).

Definition lock_async (thread_id thread_by time : Z) (m : SimMutex) : bool * list event * SimMutex :=
  if m_owner m =? NO_OWNER
  then (true, [Resume thread_id thread_by time], mkMutex thread_id (mutex_waiting m))
  else (false, [], mkMutex (m_owner m) (mutex_waiting m ++ [thread_id])).

Definition unlock (thread_id time : Z) (m : SimMutex) : res (Z * list event * SimMutex) :=
  check (m_owner m =? thread_id) AssertFailed;;
  match mutex_waiting m with
  | [] => Ok (NO_OWNER, [], mkMutex NO_OWNER [])
  | waiter :: rest => Ok (waiter, [Resume waiter thread_id time], mkMutex waiter rest)
  end.

(** ** SyncServer: mutexes *)

Definition getMutex (mux : Z) (canCreate : bool) (s : SyncServer) : res (SimMutex * SyncServer) :=
  match m_mutexes s !! mux with
  | Some m => Ok (m, s)
  | None =>
      if canCreate then Ok (SimMutex_new, put_mutex mux SimMutex_new s) else Err LogError
  end.

Definition mutexInit (mux : Z) (s : SyncServer) : res SyncServer :=
  '(_, s) ← getMutex mux true s; Ok s.

Definition mutexLock (thread_id mux : Z) (tryLock : bool) (time : Z) (s : SyncServer)
  : res (outcome (Z * bool) * list event * SyncServer) :=
  '(m, s) ← getMutex mux true s;
  if tryLock && isLocked thread_id m then Ok (Done (time, false), [], s)
  else
    let '(o, ev, m) := lock thread_id time m in
    Ok (later (fun t => (u64 (t + m_reschedule_cost s), true)) o, ev, put_mutex mux m s).

Definition mutexUnlock (thread_id mux time : Z) (s : SyncServer) : res (Z * list event * SyncServer) :=
  '(m, s) ← getMutex mux false s;
  '(new_owner, ev, m) ← unlock thread_id (u64 (time + m_reschedule_cost s)) m;
  Ok (u64 (time + (if new_owner =? NO_OWNER then 0 else m_reschedule_cost s)), ev, put_mutex mux m s).

(** ** Condition variables *)

Definition getCond (cond : Z) (s : SyncServer) : SimCond * SyncServer :=
  match m_conds s !! cond with
  | Some c => (c, s)
  | None => (mkCond [], put_cond cond (mkCond []) s)
  end.

Definition condInit (cond : Z) (s : SyncServer) : SyncServer := (getCond cond s).2.

(** [SimCond::wait] on the objects the server looked up. *)
Definition condWait (thread_id cond mux time : Z) (s : SyncServer)
  : res (outcome Z * list event * SyncServer) :=
  '(m, s) ← getMutex mux true s;
  let '(c, s) := getCond cond s in
  '(_, ev, m) ← unlock thread_id time m;
  let c := mkCond (cond_waiting c ++ [mkWaiter thread_id mux]) in
  Ok (Blocked (fun t => t), ev ++ [Stall thread_id STALL_COND time], put_cond cond c (put_mutex mux m s)).

(** [woken.m_mutex->lock_async(...)] through the waiter's mutex pointer. *)
Definition wake (w : CondWaiter) (thread_by time : Z) (s : SyncServer) : res (bool * list event * SyncServer) :=
  m ← deref (m_mutexes s !! m_mutex w);
  let '(got, ev, m) := lock_async (m_thread_id w) thread_by time m in
  Ok (got, ev, put_mutex (m_mutex w) m s).

(** [SimCond::signal] returns the thread that took its lock, if any. *)
Definition condSignal (thread_id cond time : Z) (s : SyncServer) : res (Z * list event * SyncServer) :=
  let '(c, s) := getCond cond s in
  match cond_waiting c with
  | [] => Ok (INVALID_THREAD_ID, [], s)
  | woken :: rest =>
      let s := put_cond cond (mkCond rest) s in
      '(got, ev, s) ← wake woken thread_id time s;
      Ok (if got : bool then m_thread_id woken else INVALID_THREAD_ID, ev, s)
  end.

(** The loop of [SimCond::broadcast]. *)
Fixpoint broadcast_loop (waiting : list CondWaiter) (thread_id cond time : Z) (s : SyncServer)
  : res (list event * SyncServer) :=
  match waiting with
  | [] => Ok ([], s)
  | woken :: rest =>
      let s := put_cond cond (mkCond rest) s in
      '(_, ev, s) ← wake woken thread_id time s;
      '(evs, s) ← broadcast_loop rest thread_id cond time s;
      Ok (ev ++ evs, s)
  end.
Definition condBroadcast (thread_id cond time : Z) (s : SyncServer) : res (list event * SyncServer) :=
  let '(c, s) := getCond cond s in broadcast_loop (cond_waiting c) thread_id cond time s.

(** ** Barriers *)

Definition barrier_wait (thread_id time : Z) (b : SimBarrier) : outcome Z * list event * SimBarrier :=
  if Z.of_nat (length (barrier_waiting b)) =? u32 (m_count b - 1) then
    (Done time, (fun w => Resume w thread_id time) <$> barrier_waiting b, mkBarrier (m_count b) [])
  else
    (Blocked (fun t => t), [Stall thread_id STALL_BARRIER time],
     mkBarrier (m_count b) (barrier_waiting b ++ [thread_id])).

Definition barrierInit (count : Z) (s : SyncServer) : Z * SyncServer :=
  (Z.of_nat (length (m_barriers s)), put_barriers (m_barriers s ++ [mkBarrier count []]) s).

Definition barrierWait (thread_id barrier time : Z) (s : SyncServer)
  : res (outcome Z * list event * SyncServer) :=
  check (0 <=? barrier) OutOfBounds;;
  b ← rd (m_barriers s) (Z.to_nat barrier);
  let '(o, ev, b) := barrier_wait thread_id time b in
  l ← wr (m_barriers s) (Z.to_nat barrier) b;
  Ok (o, ev, put_barriers l s).

(** ** Calls *)

Inductive call :=
| MutexInit (mux : Z) | MutexLock (thread_id mux : Z) (tryLock : bool) (time : Z)
| MutexUnlock (thread_id mux time : Z)
| CondInit (cond : Z) | CondWait (thread_id cond mux time : Z)
| CondSignal (thread_id cond time : Z) | CondBroadcast (thread_id cond time : Z)
| BarrierInit (count : Z) | BarrierWait (thread_id barrier time : Z).

(** The state and the events after a call. *)
Definition exec (s : SyncServer) (c : call) : res (list event * SyncServer) :=
  match c with
  | MutexInit mux => s ← mutexInit mux s; Ok ([], s)
  | MutexLock t mux try time => '(_, ev, s) ← mutexLock t mux try time s; Ok (ev, s)
  | MutexUnlock t mux time => '(_, ev, s) ← mutexUnlock t mux time s; Ok (ev, s)
  | CondInit cond => Ok ([], condInit cond s)
  | CondWait t cond mux time => '(_, ev, s) ← condWait t cond mux time s; Ok (ev, s)
  | CondSignal t cond time => '(_, ev, s) ← condSignal t cond time s; Ok (ev, s)
  | CondBroadcast t cond time => condBroadcast t cond time s
  | BarrierInit count => Ok ([], (barrierInit count s).2)
  | BarrierWait t b time => '(_, ev, s) ← barrierWait t b time s; Ok (ev, s)
  end.

(** ** Accounting of threads *)

(** All threads in some queue, and the threads of a list of events. *)
Definition mutex_threads (s : SyncServer) : list Z := concat ((fun x => mutex_waiting x.2) <$> map_to_list (m_mutexes s)).
Definition cond_threads (s : SyncServer) : list Z :=
  concat ((fun x => m_thread_id <$> cond_waiting x.2) <$> map_to_list (m_conds s)).
Definition barrier_threads (s : SyncServer) : list Z := concat (barrier_waiting <$> m_barriers s).
Definition waiting (s : SyncServer) : list Z := mutex_threads s ++ cond_threads s ++ barrier_threads s.

Definition stalled (ev : list event) : list Z := omap (fun e => match e with Stall t _ _ => Some t | _ => None end) ev.
Definition resumed (ev : list event) : list Z := omap (fun e => match e with Resume t _ _ => Some t | _ => None end) ev.

Lemma stalled_app a b : stalled (a ++ b) = stalled a ++ stalled b.
Proof. apply omap_app. Qed.
Lemma resumed_app a b : resumed (a ++ b) = resumed a ++ resumed b.
Proof. apply omap_app. Qed.

Lemma resumed_resumes t time l : resumed ((fun w => Resume w t time) <$> l) = l.
Proof. induction l as [|x l IH]; [done|]. cbn. f_equal. exact IH. Qed.
Lemma stalled_resumes t time l : stalled ((fun w => Resume w t time) <$> l) = [].
Proof. by induction l. Qed.

(** Replacing or creating one object of a map changes the threads of that object only. *)
Lemma concat_map_insert {V} (f : V -> list Z) (m : gmap Z V) k v :
  concat ((fun x => f x.2) <$> map_to_list (<[k := v]> m)) ++ default [] (f <$> m !! k) ≡ₚ
  f v ++ concat ((fun x => f x.2) <$> map_to_list m).
Proof.
  destruct (m !! k) as [w|] eqn:E; cbn.
  - rewrite <- insert_delete_eq, map_to_list_insert by apply lookup_delete_eq.
    rewrite <- (insert_delete_id m k w E) at 2. rewrite map_to_list_insert by apply lookup_delete_eq. cbn.
    rewrite <- app_assoc. apply Permutation_app_head. apply Permutation_app_comm.
  - rewrite map_to_list_insert by done. cbn. by rewrite app_nil_r.
Qed.

Lemma mutex_threads_put mux m s :
  mutex_threads (put_mutex mux m s) ++ default [] (mutex_waiting <$> m_mutexes s !! mux) ≡ₚ
  mutex_waiting m ++ mutex_threads s.
Proof. apply concat_map_insert. Qed.

Lemma cond_threads_put c x s :
  cond_threads (put_cond c x s) ++ default [] ((fun y => m_thread_id <$> cond_waiting y) <$> m_conds s !! c) ≡ₚ
  (m_thread_id <$> cond_waiting x) ++ cond_threads s.
Proof. apply (concat_map_insert (fun y => m_thread_id <$> cond_waiting y)). Qed.

(** The law every operation obeys: the threads waiting afterwards and those resumed are the
    threads waiting before and those stalled. *)
Definition conserves (s s' : SyncServer) (ev : list event) : Prop :=
  waiting s' ++ resumed ev ≡ₚ waiting s ++ stalled ev.

(** Permutations of concatenations by counting occurrences. *)
Ltac perm_count :=
  repeat match goal with H : _ ≡ₚ _ |- _ => rewrite (Permutation_count_occ Z.eq_dec) in H end;
  apply (Permutation_count_occ Z.eq_dec); let x := fresh "x" in intros x;
  repeat match goal with H : forall _ : Z, count_occ _ _ _ = _ |- _ => specialize (H x) end;
  rewrite ?count_occ_app, ?count_occ_nil in *; lia.

Lemma conserves_trans s s1 s2 ev ev' : conserves s s1 ev -> conserves s1 s2 ev' -> conserves s s2 (ev ++ ev').
Proof. unfold conserves. rewrite stalled_app, resumed_app. intros H1 H2. perm_count. Qed.

Lemma conserves_refl s : conserves s s [].
Proof. unfold conserves. reflexivity. Qed.

(** The state changes of one object: its queue accounts for the events. *)
Lemma conserves_mutex s mux m m' ev :
  m_mutexes s !! mux = Some m -> mutex_waiting m' ++ resumed ev ≡ₚ mutex_waiting m ++ stalled ev ->
  conserves s (put_mutex mux m' s) ev.
Proof.
  intros E H. pose proof (mutex_threads_put mux m' s) as P. rewrite E in P. cbn [fmap option_fmap option_map from_option id] in P.
  unfold conserves, waiting. change (cond_threads (put_mutex mux m' s)) with (cond_threads s).
  change (barrier_threads (put_mutex mux m' s)) with (barrier_threads s). perm_count.
Qed.

(** A thread leaves the queue of a condition variable for an event, or enters it. *)
Lemma cond_threads_update s c x x' :
  m_conds s !! c = Some x ->
  waiting (put_cond c x' s) ++ (m_thread_id <$> cond_waiting x) ≡ₚ
  (m_thread_id <$> cond_waiting x') ++ waiting s.
Proof.
  intros E. pose proof (cond_threads_put c x' s) as P. rewrite E in P. cbn [fmap option_fmap option_map from_option id] in P.
  unfold waiting. change (mutex_threads (put_cond c x' s)) with (mutex_threads s).
  change (barrier_threads (put_cond c x' s)) with (barrier_threads s). perm_count.
Qed.

(** Looking an object up may create it, empty. *)
Lemma getMutex_Ok mux b s m s' :
  getMutex mux b s = Ok (m, s') ->
  m_mutexes s' !! mux = Some m /\ conserves s s' [] /\ m_conds s' = m_conds s /\ m_barriers s' = m_barriers s.
Proof.
  unfold getMutex. destruct (m_mutexes s !! mux) eqn:E; [|destruct b]; intros [= <- <-].
  - split_and!; [done|apply conserves_refl|done|done].
  - split_and!; [apply lookup_insert_eq| |done|done].
    pose proof (mutex_threads_put mux SimMutex_new s) as P. rewrite E in P. cbn [fmap option_fmap option_map from_option mutex_waiting SimMutex_new cond_waiting list_fmap] in P.
    unfold conserves, waiting. change (cond_threads (put_mutex mux SimMutex_new s)) with (cond_threads s).
    change (barrier_threads (put_mutex mux SimMutex_new s)) with (barrier_threads s). cbn [resumed stalled omap list_omap].
    perm_count.
Qed.

Lemma getCond_Ok cond s c s' :
  getCond cond s = (c, s') ->
  m_conds s' !! cond = Some c /\ conserves s s' [] /\ m_mutexes s' = m_mutexes s /\ m_barriers s' = m_barriers s.
Proof.
  unfold getCond. destruct (m_conds s !! cond) eqn:E; intros [= <- <-].
  - split_and!; [done|apply conserves_refl|done|done].
  - split_and!; [apply lookup_insert_eq| |done|done].
    pose proof (cond_threads_put cond (mkCond []) s) as P. rewrite E in P. cbn [fmap option_fmap option_map from_option mutex_waiting SimMutex_new cond_waiting list_fmap] in P.
    unfold conserves, waiting. change (mutex_threads (put_cond cond (mkCond []) s)) with (mutex_threads s).
    change (barrier_threads (put_cond cond (mkCond []) s)) with (barrier_threads s). cbn [resumed stalled omap list_omap].
    perm_count.
Qed.

Lemma lock_queue t time m o ev m' :
  lock t time m = (o, ev, m') -> mutex_waiting m' ++ resumed ev ≡ₚ mutex_waiting m ++ stalled ev.
Proof. unfold lock. case_tests; intros [= <- <- <-]; cbn; [done|]. by rewrite app_nil_r. Qed.

Lemma unlock_queue t time m n ev m' :
  unlock t time m = Ok (n, ev, m') -> mutex_waiting m' ++ resumed ev ≡ₚ mutex_waiting m ++ stalled ev.
Proof.
  unfold unlock. intros H. inv_res. destruct (mutex_waiting m) as [|w ws]; inv_res; cbn; [done|].
  rewrite app_nil_r. apply Permutation_app_comm.
Qed.

(** The woken thread leaves the condition variable for its mutex, or resumes. *)
Lemma wake_conserves w t time s got ev s' :
  wake w t time s = Ok (got, ev, s') ->
  waiting s' ++ resumed ev ≡ₚ [m_thread_id w] ++ waiting s ++ stalled ev.
Proof.
  unfold wake. intros H. inv_res. apply deref_Ok in E.
  destruct (lock_async _ _ _ _) as [[got' ev'] m'] eqn:El. inv_res.
  pose proof (mutex_threads_put (m_mutex w) m' s) as P. rewrite E in P. cbn [fmap option_fmap option_map from_option id] in P.
  unfold lock_async in El. unfold waiting.
  change (cond_threads (put_mutex (m_mutex w) m' s)) with (cond_threads s).
  change (barrier_threads (put_mutex (m_mutex w) m' s)) with (barrier_threads s).
  destruct (m_owner _ =? NO_OWNER); injection El as <- <- <-; cbn [mutex_waiting stalled resumed omap list_omap] in *; perm_count.
Qed.

Lemma wake_conds w t time s got ev s' :
  wake w t time s = Ok (got, ev, s') -> m_conds s' = m_conds s /\ m_barriers s' = m_barriers s.
Proof. unfold wake. intros H. inv_res. destruct (lock_async _ _ _ _) as [[? ?] ?]. by inv_res. Qed.

(** ** Conservation by every call *)

Lemma mutexLock_conserves t mux try time s o ev s' :
  mutexLock t mux try time s = Ok (o, ev, s') -> conserves s s' ev.
Proof.
  unfold mutexLock. intros H. inv_res. destruct a as [m s1]. apply getMutex_Ok in E as (E & C & _ & _).
  destruct (try && isLocked t m); [by inv_res|].
  destruct (lock t time m) as [[o' ev'] m'] eqn:El. inv_res.
  eapply (conserves_trans _ _ _ []); [exact C|]. eapply conserves_mutex, lock_queue; done.
Qed.

Lemma mutexUnlock_conserves t mux time s r ev s' :
  mutexUnlock t mux time s = Ok (r, ev, s') -> conserves s s' ev.
Proof.
  unfold mutexUnlock. intros H. inv_res. destruct a as [m s1]. apply getMutex_Ok in E as (E & C & _ & _).
  inv_res. destruct a as [[n ev'] m']. inv_res.
  eapply (conserves_trans _ _ _ []); [exact C|]. eapply conserves_mutex, unlock_queue; done.
Qed.

Lemma condWait_conserves t cond mux time s o ev s' :
  condWait t cond mux time s = Ok (o, ev, s') -> conserves s s' ev.
Proof.
  unfold condWait. intros H. inv_res. destruct a as [m s1]. apply getMutex_Ok in E as (E & C & _ & _).
  destruct (getCond cond s1) as [c s2] eqn:Ec. apply getCond_Ok in Ec as (Ec & C2 & Em & _).
  inv_res. destruct a as [[n ev'] m']. inv_res. rewrite <- Em in E.
  pose proof (conserves_mutex s2 mux m m' ev' E (unlock_queue _ _ _ _ _ _ E0)) as C3.
  eapply (conserves_trans _ _ _ []); [exact C|]. eapply (conserves_trans _ _ _ []); [exact C2|].
  eapply conserves_trans; [exact C3|].
  pose proof (cond_threads_update (put_mutex mux m' s2) cond c (mkCond (cond_waiting c ++ [mkWaiter t mux])) Ec) as P.
  cbn [cond_waiting] in P. rewrite fmap_app in P. cbn [fmap list_fmap m_thread_id] in P.
  unfold conserves. cbn [resumed stalled omap list_omap]. perm_count.
Qed.

(** One thread taken off the front of a condition variable and woken. *)
Lemma wake_front_conserves s cond w rest t time got ev s' :
  m_conds s !! cond = Some (mkCond (w :: rest)) ->
  wake w t time (put_cond cond (mkCond rest) s) = Ok (got, ev, s') ->
  conserves s s' ev /\ m_conds s' !! cond = Some (mkCond rest).
Proof.
  intros E H. pose proof (wake_conds _ _ _ _ _ _ _ H) as [Ec _]. apply wake_conserves in H.
  pose proof (cond_threads_update s cond _ (mkCond rest) E) as P.
  change (m_thread_id <$> cond_waiting (mkCond (w :: rest))) with ([m_thread_id w] ++ (m_thread_id <$> rest)) in P.
  cbn [cond_waiting] in P. split; [unfold conserves; perm_count|]. rewrite Ec. apply lookup_insert_eq.
Qed.

Lemma condSignal_conserves t cond time s r ev s' :
  condSignal t cond time s = Ok (r, ev, s') -> conserves s s' ev.
Proof.
  unfold condSignal. destruct (getCond cond s) as [[ws] s1] eqn:Ec. apply getCond_Ok in Ec as (Ec & C & _).
  cbn [cond_waiting]. destruct ws as [|w rest]; intros H; inv_res; [done|].
  destruct a as [[got ev'] s2]. inv_res.
  eapply (conserves_trans _ _ _ []); [exact C|]. by eapply wake_front_conserves.
Qed.

Lemma broadcast_loop_conserves t cond time ws s ev s' :
  m_conds s !! cond = Some (mkCond ws) ->
  broadcast_loop ws t cond time s = Ok (ev, s') -> conserves s s' ev.
Proof.
  revert s ev. induction ws as [|w rest IH]; intros s ev Ec H; cbn [broadcast_loop] in H.
  { inv_res. apply conserves_refl. }
  inv_res. destruct a as [[got ev1] s1]. inv_res. destruct a as [evs s2]. inv_res.
  destruct (wake_front_conserves _ _ _ _ _ _ _ _ _ Ec E) as [C Ec1].
  eapply conserves_trans; [exact C|]. by eapply IH.
Qed.

Lemma barrierWait_conserves t b time s o ev s' :
  barrierWait t b time s = Ok (o, ev, s') -> conserves s s' ev.
Proof.
  unfold barrierWait. intros H. inv_res. destruct (barrier_wait _ _ _) as [[o' ev'] b'] eqn:Eb.
  inv_res. apply rd_Ok in E0. apply wr_Ok in E1 as [_ ->].
  unfold conserves, waiting, barrier_threads. change (mutex_threads (put_barriers _ s)) with (mutex_threads s).
  change (cond_threads (put_barriers _ s)) with (cond_threads s). cbn [m_barriers put_barriers].
  assert (Q : barrier_waiting b' ++ resumed ev ≡ₚ barrier_waiting a ++ stalled ev).
  { unfold barrier_wait in Eb. destruct (_ =? _); injection Eb as <- <- <-; cbn.
    - by rewrite resumed_resumes, stalled_resumes, app_nil_r.
    - by rewrite app_nil_r. }
  rewrite (insert_take_drop _ _ _ (lookup_lt_Some _ _ _ E0)).
  rewrite <- (take_drop_middle _ _ _ E0) at 3.
  rewrite !fmap_app, !fmap_cons, !concat_app. cbn [concat]. perm_count.
Qed.

Lemma exec_conserves s c ev s' : exec s c = Ok (ev, s') -> conserves s s' ev.
Proof.
  destruct c; cbn [exec]; intros H.
  - unfold mutexInit in H. destruct (getMutex mux true s) as [[m s1]|] eqn:E; cbn [mbind res_bind] in H; inv_res.
    by apply getMutex_Ok in E as (_ & ? & _).
  - inv_res. destruct a as [[o ev'] s1]. inv_res. by eapply mutexLock_conserves.
  - inv_res. destruct a as [[o ev'] s1]. inv_res. by eapply mutexUnlock_conserves.
  - inv_res. unfold condInit. destruct (getCond cond s) as [x s1] eqn:Ec. by apply getCond_Ok in Ec as (_ & ? & _).
  - inv_res. destruct a as [[o ev'] s1]. inv_res. by eapply condWait_conserves.
  - inv_res. destruct a as [[o ev'] s1]. inv_res. by eapply condSignal_conserves.
  - unfold condBroadcast in H. destruct (getCond cond s) as [[ws] s1] eqn:Ec. apply getCond_Ok in Ec as (Ec & C & _).
    eapply (conserves_trans _ _ _ []); [exact C|]. by eapply broadcast_loop_conserves.
  - inv_res. unfold conserves, waiting, barrier_threads, barrierInit. cbn [snd m_barriers put_barriers].
    rewrite fmap_app, concat_app. cbn. by rewrite !app_nil_r.
  - inv_res. destruct a as [[o ev'] s1]. inv_res. by eapply barrierWait_conserves.
Qed.

(** A sequence of calls with all their events. *)
Fixpoint exec_all (s : SyncServer) (cs : list call) : res (list event * SyncServer) :=
  match cs with
  | [] => Ok ([], s)
  | c :: cs => '(ev, s) ← exec s c; '(evs, s) ← exec_all s cs; Ok (ev ++ evs, s)
  end.

Lemma exec_all_conserves s cs ev s' : exec_all s cs = Ok (ev, s') -> conserves s s' ev.
Proof.
  revert s ev. induction cs as [|c cs IH]; intros s ev H; cbn [exec_all] in H.
  { inv_res. apply conserves_refl. }
  inv_res. destruct a as [ev1 s1]. inv_res. destruct a as [ev2 s2]. inv_res.
  eapply conserves_trans; [by apply exec_conserves in E|]. by eapply IH.
Qed.

(** A small history: thread 1 takes mutex 10, thread 2 waits for it, thread 1 waits on
    condition 20, thread 2 signals and unlocks. *)
Definition history : list call :=
  [MutexLock 1 10 false 100; MutexLock 2 10 false 110; CondWait 1 20 10 120; CondSignal 2 20 130;
   MutexUnlock 2 10 140].

(** C21: No wake-up is lost or duplicated: along any sequence of calls on a new server, the
    threads stalled so far are, counted with multiplicity, exactly the threads resumed so
    far and the threads still in some queue. *)
Theorem sync_no_lost_wakeup (cost : Z) (cs : list call) ev s' :
  exec_all (SyncServer_new cost) cs = Ok (ev, s') -> waiting s' ++ resumed ev ≡ₚ stalled ev.
Proof. intros H. apply exec_all_conserves in H. exact H. Qed.

Lemma sync_no_lost_wakeup_witness :
  exists ev s', exec_all (SyncServer_new 5) history = Ok (ev, s') /\ resumed ev = [2; 1] /\
    waiting s' ++ resumed ev ≡ₚ stalled ev.
Proof.
  assert (exists ev s', exec_all (SyncServer_new 5) history = Ok (ev, s') /\ resumed ev = [2; 1]) as (ev & s' & H & R)
    by (eexists _, _; vm_compute; split; reflexivity).
  exists ev, s'. split_and!; [exact H|exact R|]. apply (sync_no_lost_wakeup 5 history). exact H.
Defined.

(** ** The server's invariant *)

(** A free mutex has no waiters; thread numbers are not negative, hence never [NO_OWNER]. *)
Definition mutex_ok (m : SimMutex) : Prop :=
  (m_owner m = NO_OWNER -> mutex_waiting m = []) /\ Forall (Z.le 0) (mutex_waiting m).

(** A waiter on a condition variable holds a pointer to an existing mutex. *)
Definition waiter_ok (s : SyncServer) (w : CondWaiter) : Prop :=
  0 <= m_thread_id w /\ is_Some (m_mutexes s !! m_mutex w).

Record server_ok (s : SyncServer) : Prop := {
  ok_mutexes : map_Forall (fun _ => mutex_ok) (m_mutexes s);
  ok_conds : map_Forall (fun _ c => Forall (waiter_ok s) (cond_waiting c)) (m_conds s)
}.

Lemma server_ok_new cost : server_ok (SyncServer_new cost).
Proof. split; apply map_Forall_empty. Qed.

Lemma put_mutex_ok mux m s : server_ok s -> mutex_ok m -> server_ok (put_mutex mux m s).
Proof.
  intros [Hm Hc] ?. split; [by apply map_Forall_insert_2|].
  intros k c Ek. eapply Forall_impl; [exact (Hc k c Ek)|]. intros w [? [m' Em]]. split; [done|]. cbn.
  destruct (decide (m_mutex w = mux)) as [->|]; [rewrite lookup_insert_eq|rewrite lookup_insert_ne by done]; eauto.
Qed.

Lemma put_cond_ok cond c s : server_ok s -> Forall (waiter_ok s) (cond_waiting c) -> server_ok (put_cond cond c s).
Proof. intros [Hm Hc] H. split; [exact Hm|]. by apply map_Forall_insert_2. Qed.

Lemma getMutex_ok mux b s m s' : server_ok s -> getMutex mux b s = Ok (m, s') -> server_ok s' /\ mutex_ok m.
Proof.
  intros Hs. unfold getMutex. destruct (m_mutexes s !! mux) eqn:E; [|destruct b]; intros [= <- <-].
  - split; [done|]. by apply (ok_mutexes _ Hs mux).
  - assert (mutex_ok SimMutex_new) by by split. split; [|done]. by apply put_mutex_ok.
Qed.

Lemma getCond_ok cond s c s' :
  server_ok s -> getCond cond s = (c, s') -> server_ok s' /\ Forall (waiter_ok s') (cond_waiting c).
Proof.
  intros Hs. unfold getCond. destruct (m_conds s !! cond) eqn:E; intros [= <- <-].
  - split; [done|]. by apply (ok_conds _ Hs cond).
  - split; [apply put_cond_ok; [done|constructor]|constructor].
Qed.

Lemma lock_ok t time m o ev m' : 0 <= t -> mutex_ok m -> lock t time m = (o, ev, m') -> mutex_ok m'.
Proof.
  intros Ht [H1 H2]. unfold lock. destruct (m_owner m =? NO_OWNER) eqn:E; intros [= <- <- <-]; split; cbn.
  - intros _. by apply H1, Z.eqb_eq.
  - done.
  - intros. by apply Z.eqb_neq in E.
  - apply Forall_app_2; [done|]. by constructor.
Qed.

Lemma lock_async_ok t by_ time m o ev m' : 0 <= t -> mutex_ok m -> lock_async t by_ time m = (o, ev, m') -> mutex_ok m'.
Proof.
  intros Ht [H1 H2]. unfold lock_async. destruct (m_owner m =? NO_OWNER) eqn:E; intros [= <- <- <-]; split; cbn.
  - intros _. by apply H1, Z.eqb_eq.
  - done.
  - intros. by apply Z.eqb_neq in E.
  - apply Forall_app_2; [done|]. by constructor.
Qed.

Lemma unlock_ok t time m n ev m' : mutex_ok m -> unlock t time m = Ok (n, ev, m') -> mutex_ok m'.
Proof.
  intros [H1 H2]. unfold unlock. intros H. inv_res. destruct (mutex_waiting m) as [|w ws]; inv_res; split; cbn; try done.
  - apply Forall_cons in H2 as [? _]. intros ->. by vm_compute in H.
  - by apply Forall_cons in H2 as [_ ?].
Qed.

(** A waiter whose mutex exists is always woken. *)
Lemma wake_total w t time s :
  server_ok s -> waiter_ok s w ->
  exists got ev s', wake w t time s = Ok (got, ev, s') /\ server_ok s' /\ (forall w', waiter_ok s w' -> waiter_ok s' w').
Proof.
  intros Hs [Ht [m Em]]. unfold wake. rewrite Em. cbn [deref mbind res_bind].
  destruct (lock_async _ _ _ _) as [[got ev] m'] eqn:El. exists got, ev, (put_mutex (m_mutex w) m' s).
  split_and!; [done| |].
  - apply put_mutex_ok; [done|]. eapply lock_async_ok; [exact Ht| |exact El]. by apply (ok_mutexes _ Hs _ _ Em).
  - intros w' [? [m'' ?]]. split; [done|]. cbn.
    destruct (decide (m_mutex w' = m_mutex w)) as [->|]; [rewrite lookup_insert_eq|rewrite lookup_insert_ne by done]; eauto.
Qed.

Lemma broadcast_loop_total t cond time ws s :
  server_ok s -> Forall (waiter_ok s) ws -> exists ev s', broadcast_loop ws t cond time s = Ok (ev, s') /\ server_ok s'.
Proof.
  revert s. induction ws as [|w rest IH]; intros s Hs Hw; [by exists [], s|].
  apply Forall_cons in Hw as [Hw Hr]. cbn [broadcast_loop].
  destruct (wake_total w t time (put_cond cond (mkCond rest) s)) as (got & ev & s1 & E & Hs1 & Hk);
    [by apply put_cond_ok|done|].
  rewrite E. cbn [mbind res_bind].
  destruct (IH s1 Hs1) as (evs & s2 & E2 & Hs2). { eapply Forall_impl; [exact Hr|]. intros w' Hw'. by apply Hk. }
  rewrite E2. cbn [mbind res_bind]. eauto.
Qed.

(** The thread that makes a call. *)
Definition caller (c : call) : option Z :=
  match c with
  | MutexLock t _ _ _ | MutexUnlock t _ _ | CondWait t _ _ _ | CondSignal t _ _ | CondBroadcast t _ _
  | BarrierWait t _ _ => Some t
  | _ => None
  end.
Definition call_ok (c : call) : Prop := match caller c with Some t => 0 <= t | None => True end.

(** What the application must respect: unlock and wait with the mutex held, use barriers
    that were initialised. *)
Definition owns (s : SyncServer) (t mux : Z) : Prop := exists m, m_mutexes s !! mux = Some m /\ m_owner m = t.
Definition permitted (s : SyncServer) (c : call) : Prop :=
  match c with
  | MutexUnlock t mux _ | CondWait t _ mux _ => owns s t mux
  | BarrierWait _ b _ => 0 <= b < Z.of_nat (length (m_barriers s))
  | _ => True
  end.

Lemma unlock_iff t time m : (exists r, unlock t time m = Ok r) <-> m_owner m = t.
Proof.
  unfold unlock. destruct (Z.eqb_spec (m_owner m) t) as [E|E]; cbn [check mbind res_bind].
  - destruct (mutex_waiting m); split; eauto.
  - split; [by intros [r ?]|done].
Qed.

Lemma getMutex_total mux s : exists m s', getMutex mux true s = Ok (m, s').
Proof. unfold getMutex. destruct (m_mutexes s !! mux); eauto. Qed.

Lemma mutexLock_total t mux try time s :
  server_ok s -> 0 <= t -> exists o ev s', mutexLock t mux try time s = Ok (o, ev, s') /\ server_ok s'.
Proof.
  intros Hs Ht. unfold mutexLock. destruct (getMutex_total mux s) as (m & s1 & E). rewrite E. cbn [mbind res_bind].
  destruct (getMutex_ok _ _ _ _ _ Hs E) as [Hs1 Hm]. destruct (_ && _); [eauto|].
  destruct (lock t time m) as [[o ev] m'] eqn:El. do 3 eexists. split; [done|].
  apply put_mutex_ok; [done|]. by eapply lock_ok.
Qed.

Lemma mutexUnlock_total t mux time s :
  server_ok s -> owns s t mux -> exists r ev s', mutexUnlock t mux time s = Ok (r, ev, s') /\ server_ok s'.
Proof.
  intros Hs (m & Em & Eo). unfold mutexUnlock, getMutex. rewrite Em. cbn [mbind res_bind].
  destruct (proj2 (unlock_iff t (u64 (time + m_reschedule_cost s)) m) Eo) as [[[n ev] m'] El]. rewrite El. cbn [mbind res_bind].
  do 3 eexists. split; [done|]. apply put_mutex_ok; [done|]. eapply unlock_ok; [by apply (ok_mutexes _ Hs _ _ Em)|done].
Qed.

Lemma mutexUnlock_owner t mux time s r : mutexUnlock t mux time s = Ok r -> owns s t mux.
Proof.
  unfold mutexUnlock, getMutex. destruct (m_mutexes s !! mux) as [m|] eqn:Em; intros H; inv_res.
  exists m. split; [done|]. eapply unlock_iff; eauto.
Qed.

Lemma condWait_total t cond mux time s :
  server_ok s -> 0 <= t -> owns s t mux -> exists o ev s', condWait t cond mux time s = Ok (o, ev, s') /\ server_ok s'.
Proof.
  intros Hs Ht (m & Em & Eo). unfold condWait, getMutex. rewrite Em. cbn [mbind res_bind].
  destruct (getCond cond s) as [c s1] eqn:Ec. destruct (getCond_ok _ _ _ _ Hs Ec) as [Hs1 Hw].
  apply getCond_Ok in Ec as (_ & _ & E1 & _). rewrite <- E1 in Em.
  destruct (proj2 (unlock_iff t time m) Eo) as [[[n ev] m'] El]. rewrite El. cbn [mbind res_bind].
  do 3 eexists. split; [done|].
  assert (Hs2 : server_ok (put_mutex mux m' s1)).
  { apply put_mutex_ok; [done|]. eapply unlock_ok; [by apply (ok_mutexes _ Hs1 _ _ Em)|done]. }
  apply put_cond_ok; [done|]. apply Forall_app_2; [|apply Forall_singleton; split; [done|]; cbn; rewrite lookup_insert_eq; eauto].
  eapply Forall_impl; [exact Hw|]. intros w [? [x ?]]. split; [done|]. cbn.
  destruct (decide (m_mutex w = mux)) as [->|]; [rewrite lookup_insert_eq|rewrite lookup_insert_ne by done]; eauto.
Qed.

Lemma condWait_owner t cond mux time s r : 0 <= t -> condWait t cond mux time s = Ok r -> owns s t mux.
Proof.
  intros Ht. unfold condWait, getMutex. destruct (m_mutexes s !! mux) as [m|] eqn:Em; cbn [mbind res_bind].
  - destruct (getCond cond s) as [c s1]. intros H. inv_res. exists m. split; [done|]. eapply unlock_iff; eauto.
  - destruct (getCond cond _) as [c s1]. intros H. inv_res. unfold unlock in E. inv_res.
    apply Z.eqb_eq in E0. change (m_owner SimMutex_new) with (-1) in E0. lia.
Qed.

Lemma condSignal_total t cond time s :
  server_ok s -> exists r ev s', condSignal t cond time s = Ok (r, ev, s') /\ server_ok s'.
Proof.
  intros Hs. unfold condSignal. destruct (getCond cond s) as [c s1] eqn:Ec.
  destruct (getCond_ok _ _ _ _ Hs Ec) as [Hs1 Hw]. destruct (cond_waiting c) as [|w rest]; [eauto|].
  apply Forall_cons in Hw as [Hw Hr].
  destruct (wake_total w t time (put_cond cond (mkCond rest) s1)) as (got & ev & s2 & E & Hs2 & _);
    [by apply put_cond_ok|done|]. rewrite E. cbn [mbind res_bind]. eauto.
Qed.

Lemma barrierWait_iff t b time s :
  (exists r, barrierWait t b time s = Ok r) <-> 0 <= b < Z.of_nat (length (m_barriers s)).
Proof.
  unfold barrierWait. split.
  - intros [r H]. inv_res. apply Z.leb_le in E. apply rd_Ok, lookup_lt_Some in E0. lia.
  - intros Hb. destruct (Z.leb_spec 0 b); [|lia]. cbn [check mbind res_bind].
    destruct (rd_lookup (m_barriers s) (Z.to_nat b)) as (x & Ex & _); [lia|]. rewrite Ex. cbn [mbind res_bind].
    destruct (barrier_wait t time x) as [[o ev] x']. rewrite wr_lt by lia. cbn. eauto.
Qed.

Lemma barrierWait_ok t b time s o ev s' : server_ok s -> barrierWait t b time s = Ok (o, ev, s') -> server_ok s'.
Proof. intros [Hm Hc]. unfold barrierWait. intros H. inv_res. destruct (barrier_wait _ _ _) as [[? ?] ?]. inv_res. by split. Qed.

(** A permitted call completes, and leaves the invariant. *)
Lemma exec_permitted s c :
  server_ok s -> call_ok c -> permitted s c -> exists ev s', exec s c = Ok (ev, s') /\ server_ok s'.
Proof.
  intros Hs Hc Hp. destruct c; cbn in Hc, Hp; cbn [exec].
  - unfold mutexInit. destruct (getMutex_total mux s) as (m & s1 & E). rewrite E. cbn [mbind res_bind].
    apply getMutex_ok in E as [? _]; [eauto|done].
  - destruct (mutexLock_total thread_id mux tryLock time s Hs Hc) as (o & ev & s1 & E & ?). rewrite E. cbn. eauto.
  - destruct (mutexUnlock_total thread_id mux time s Hs Hp) as (o & ev & s1 & E & ?). rewrite E. cbn. eauto.
  - do 2 eexists. split; [done|]. unfold condInit. destruct (getCond cond s) as [x s1] eqn:E.
    by apply getCond_ok in E as [? _].
  - destruct (condWait_total thread_id cond mux time s Hs Hc Hp) as (o & ev & s1 & E & ?). rewrite E. cbn. eauto.
  - destruct (condSignal_total thread_id cond time s Hs) as (o & ev & s1 & E & ?). rewrite E. cbn. eauto.
  - unfold condBroadcast. destruct (getCond cond s) as [x s1] eqn:E. apply getCond_ok in E as [? ?]; [|done].
    by apply broadcast_loop_total.
  - do 2 eexists. split; [done|]. by destruct Hs.
  - destruct (proj2 (barrierWait_iff thread_id barrier time s) Hp) as [[[o ev] s1] E]. rewrite E. cbn.
    do 2 eexists. split; [done|]. by eapply barrierWait_ok.
Qed.

(** The server is total on correct programs and stops on the others: in a state where
    free mutexes have no waiters and the waiters' mutexes exist, a call by a real thread
    completes exactly when the thread respects the protocol (it unlocks, or waits with, a
    mutex it owns; its barrier exists), and then the invariant holds again. In particular
    a signal or broadcast never follows a dangling mutex pointer. *)
Theorem sync_total_iff_permitted s c :
  server_ok s -> call_ok c ->
  ((exists r, exec s c = Ok r) <-> permitted s c) /\ (forall ev s', exec s c = Ok (ev, s') -> server_ok s').
Proof.
  intros Hs Hc. assert (P : (exists r, exec s c = Ok r) -> permitted s c).
  { intros [r H]. destruct c; cbn in Hc |- *; try done; cbn [exec] in H; inv_res.
    - by eapply mutexUnlock_owner. - by eapply condWait_owner. - eapply barrierWait_iff; eauto. }
  split; [split; [exact P|]|].
  - intros Hp. destruct (exec_permitted s c Hs Hc Hp) as (ev & s' & E & _). eauto.
  - intros ev s' H. destruct (exec_permitted s c Hs Hc (P (ex_intro _ _ H))) as (ev' & s'' & E & ?). congruence.
Qed.

Lemma sync_total_iff_permitted_witness :
  let s := SyncServer_new 5 in let c := MutexUnlock 1 10 100 in
  ((exists r, exec s c = Ok r) <-> permitted s c) /\ (forall ev s', exec s c = Ok (ev, s') -> server_ok s').
Proof. apply (sync_total_iff_permitted (SyncServer_new 5)); [apply server_ok_new|cbn; lia]. Defined.

(** ** Order of service *)

(** The owner of a mutex followed by its waiters. *)
Definition holders (m : SimMutex) : list Z := if m_owner m =? NO_OWNER then [] else m_owner m :: mutex_waiting m.

Lemma put_mutex_put mux m m' s : put_mutex mux m' (put_mutex mux m s) = put_mutex mux m' s.
Proof. unfold put_mutex. cbn. by rewrite insert_insert_eq. Qed.

(** Threads that lock a held mutex queue up behind its owner. *)
Lemma locks_queue mux time ts s m :
  m_mutexes s !! mux = Some m -> m_owner m ≠ NO_OWNER ->
  exists ev, exec_all s ((fun t => MutexLock t mux false (time t)) <$> ts) =
    Ok (ev, put_mutex mux (mkMutex (m_owner m) (mutex_waiting m ++ ts)) s) /\ stalled ev = ts /\ resumed ev = [].
Proof.
  revert s m. induction ts as [|t ts IH]; intros s m Em Ho.
  { exists []. split_and!; [|done|done]. cbn. do 2 f_equal. rewrite app_nil_r. destruct s, m; unfold put_mutex; cbn in *.
    by rewrite insert_id. }
  cbn [fmap list_fmap exec_all exec]. unfold mutexLock at 1, getMutex. rewrite Em. cbn [mbind res_bind andb].
  unfold lock. destruct (Z.eqb_spec (m_owner m) NO_OWNER); [done|]. cbn [mbind res_bind].
  destruct (IH (put_mutex mux (mkMutex (m_owner m) (mutex_waiting m ++ [t])) s) (mkMutex (m_owner m) (mutex_waiting m ++ [t])))
    as (ev & E & Hs & Hr); [apply lookup_insert_eq|done|].
  rewrite E, put_mutex_put. cbn [m_owner mutex_waiting mbind res_bind]. rewrite <- app_assoc. cbn [app].
  eexists. split_and!; [done| |]; cbn; [by f_equal|done].
Qed.

(** Unlocks by the successive owners serve the queue from the front. *)
Lemma unlocks_serve mux time o ws s :
  m_mutexes s !! mux = Some (mkMutex o ws) -> Forall (Z.le 0) (o :: ws) ->
  exists ev, exec_all s ((fun t => MutexUnlock t mux (time t)) <$> (o :: ws)) = Ok (ev, put_mutex mux SimMutex_new s) /\
    resumed ev = ws /\ stalled ev = [].
Proof.
  revert s o. induction ws as [|w ws IH]; intros s o Em Hp; apply Forall_cons in Hp as [Ho Hp];
    rewrite fmap_cons; cbn [exec_all exec]; unfold mutexUnlock at 1, getMutex; rewrite Em; cbn [mbind res_bind];
    unfold unlock; cbn [m_owner mutex_waiting]; rewrite Z.eqb_refl; cbn [check mbind res_bind].
  { cbn [fmap list_fmap exec_all mbind res_bind]. by exists []. }
  destruct (IH (put_mutex mux (mkMutex w ws) s) w) as (ev & E & Hr & Hs); [apply lookup_insert_eq|done|].
  rewrite E, put_mutex_put. cbn [mbind res_bind]. eexists. split_and!; [done| |]; cbn; [by f_equal|done].
Qed.

Lemma exec_all_app s cs ds ev s1 ev' s2 :
  exec_all s cs = Ok (ev, s1) -> exec_all s1 ds = Ok (ev', s2) -> exec_all s (cs ++ ds) = Ok (ev ++ ev', s2).
Proof.
  revert s ev. induction cs as [|c cs IH]; intros s ev H1 H2; cbn [exec_all app] in *; [by inv_res|].
  inv_res. destruct a as [ev1 s3]. inv_res. destruct a as [ev2 s4]. inv_res.
  cbn [mbind res_bind]. rewrite (IH s3 ev2) by done. cbn. by rewrite app_assoc.
Qed.

(** Mutexes are fair: when a thread takes a free mutex and other threads then lock it
    in some order, each of them stalls; when the successive owners unlock, the threads are
    resumed in exactly the order in which they asked, each becoming the owner in turn, and
    at the end the mutex is free with an empty queue. *)
Theorem mutex_fifo mux lock_time unlock_time o ws s :
  default SimMutex_new (m_mutexes s !! mux) = SimMutex_new -> Forall (Z.le 0) (o :: ws) ->
  exists ev s', exec_all s (((fun t => MutexLock t mux false (lock_time t)) <$> o :: ws) ++
                            ((fun t => MutexUnlock t mux (unlock_time t)) <$> o :: ws)) = Ok (ev, s') /\
    stalled ev = ws /\ resumed ev = ws /\ m_mutexes s' !! mux = Some SimMutex_new.
Proof.
  intros Hf Hp. pose proof Hp as [Ho _]%Forall_cons. set (s1 := put_mutex mux (mkMutex o []) s).
  destruct (locks_queue mux lock_time ws s1 (mkMutex o [])) as (ev1 & E1 & Hs1 & Hr1);
    [apply lookup_insert_eq|cbn; intros ->; change (0 <= -1) in Ho; lia|].
  unfold s1 in E1 at 2. rewrite put_mutex_put in E1. cbn [m_owner mutex_waiting app] in E1.
  destruct (unlocks_serve mux unlock_time o ws (put_mutex mux (mkMutex o ws) s)) as (ev2 & E2 & Hr2 & Hs2);
    [apply lookup_insert_eq|done|]. rewrite put_mutex_put in E2.
  assert (E0 : exec s (MutexLock o mux false (lock_time o)) = Ok ([], s1)).
  { cbn [exec]. unfold mutexLock, getMutex. destruct (m_mutexes s !! mux) as [m|]; cbn in Hf; subst;
      cbn [mbind res_bind andb]; unfold lock, s1; cbn; rewrite Z.eqb_refl; cbn; by rewrite ?put_mutex_put. }
  exists (ev1 ++ ev2), (put_mutex mux SimMutex_new s). split_and!.
  - eapply exec_all_app; [|exact E2]. rewrite fmap_cons. cbn [exec_all]. rewrite E0. cbn [mbind res_bind]. by rewrite E1.
  - by rewrite stalled_app, Hs1, Hs2, app_nil_r.
  - by rewrite resumed_app, Hr1, Hr2.
  - apply lookup_insert_eq.
Qed.

Lemma mutex_fifo_witness :
  exists ev s', exec_all (SyncServer_new 5) (((fun t => MutexLock t 10 false (100 + t)) <$> [1; 2; 3]) ++
                                             ((fun t => MutexUnlock t 10 (200 + t)) <$> [1; 2; 3])) = Ok (ev, s') /\
    stalled ev = [2; 3] /\ resumed ev = [2; 3] /\ m_mutexes s' !! 10 = Some SimMutex_new.
Proof.
  apply (mutex_fifo 10 (fun t => 100 + t) (fun t => 200 + t) 1 [2; 3] (SyncServer_new 5)); [reflexivity|].
  repeat constructor; lia.
Defined.

(** Arrivals before the last one queue up at the barrier. *)
Lemma barrier_queue b time count ts q s :
  0 <= b -> m_barriers s !! Z.to_nat b = Some (mkBarrier count q) -> 0 < count < 2 ^ 32 ->
  Z.of_nat (length (q ++ ts)) < count ->
  exists ev s', exec_all s ((fun t => BarrierWait t b (time t)) <$> ts) = Ok (ev, s') /\
    stalled ev = ts /\ resumed ev = [] /\ m_barriers s' = <[Z.to_nat b := mkBarrier count (q ++ ts)]> (m_barriers s).
Proof.
  intros Hb Eb Hc. revert q s Eb. induction ts as [|t ts IH]; intros q s Eb Hl.
  { exists [], s. split_and!; [done..|]. by rewrite app_nil_r, list_insert_id. }
  rewrite length_app in Hl. cbn [length] in Hl.
  cbn [fmap list_fmap exec_all exec]. unfold barrierWait at 1. rewrite (proj2 (Z.leb_le 0 b)) by done. cbn [check mbind res_bind].
  rewrite (proj2 (rd_Ok _ _ _) Eb). cbn [mbind res_bind]. unfold barrier_wait. cbn [barrier_waiting m_count].
  rewrite wrap_small by (unfold in_range; lia). destruct (Z.eqb_spec (Z.of_nat (length q)) (count - 1)); [lia|].
  pose proof (lookup_lt_Some _ _ _ Eb). rewrite wr_lt by done. cbn [mbind res_bind].
  destruct (IH (q ++ [t]) (put_barriers (<[Z.to_nat b := mkBarrier count (q ++ [t])]> (m_barriers s)) s)) as (ev & s' & E & Hs & Hr & Hm).
  { cbn. by rewrite list_lookup_insert_eq. }
  { rewrite !length_app. cbn [length]. lia. }
  rewrite E. cbn [mbind res_bind]. do 2 eexists. split_and!; [done|cbn; by f_equal|done|].
  rewrite Hm. cbn [m_barriers put_barriers]. by rewrite list_insert_insert_eq, <- app_assoc.
Qed.

(** A barrier of [count] threads blocks the first [count - 1] of them and releases all of
    them, in order of arrival, when the last one arrives, which does not block; afterwards
    the barrier is empty, so the next round works alike. *)
Theorem barrier_releases_all b time count ts t s :
  0 <= b -> m_barriers s !! Z.to_nat b = Some (mkBarrier count []) -> count < 2 ^ 32 ->
  Z.of_nat (length (ts ++ [t])) = count ->
  exists ev s', exec_all s ((fun t => BarrierWait t b (time t)) <$> ts ++ [t]) =
      Ok (ev ++ ((fun w => Resume w t (time t)) <$> ts), s') /\
    stalled ev = ts /\ resumed ev = [] /\ m_barriers s' = m_barriers s.
Proof.
  intros Hb Eb Hc Hl. rewrite length_app in Hl. cbn [length] in Hl.
  destruct (barrier_queue b time count ts [] s Hb Eb) as (ev & s1 & E & Hs & Hr & Hm); [lia|cbn; lia|].
  pose proof (lookup_lt_Some _ _ _ Eb) as Hlt. rewrite fmap_app.
  exists ev, (put_barriers (m_barriers s) s1). split_and!; [|done|done|done].
  eapply exec_all_app; [exact E|]. cbn [fmap list_fmap exec_all exec]. unfold barrierWait.
  rewrite (proj2 (Z.leb_le 0 b)) by done. cbn [check mbind res_bind]. rewrite Hm.
  unfold rd. rewrite list_lookup_insert_eq by done. cbn [mbind res_bind app]. unfold barrier_wait. cbn [barrier_waiting m_count].
  rewrite wrap_small by (unfold in_range; lia). destruct (Z.eqb_spec (Z.of_nat (length ts)) (count - 1)); [|lia].
  rewrite wr_lt by (by rewrite length_insert). cbn [mbind res_bind]. rewrite app_nil_r. do 3 f_equal.
  by rewrite list_insert_insert_eq, list_insert_id.
Qed.

Lemma barrier_releases_all_witness :
  let s := (barrierInit 3 (SyncServer_new 5)).2 in
  exists ev s', exec_all s ((fun t => BarrierWait t 0 (100 + t)) <$> [4; 7] ++ [9]) =
      Ok (ev ++ ((fun w => Resume w 9 (100 + 9)) <$> [4; 7]), s') /\
    stalled ev = [4; 7] /\ resumed ev = [] /\ m_barriers s' = m_barriers s.
Proof.
  apply (barrier_releases_all 0 (fun t => 100 + t) 3 [4; 7] 9 (barrierInit 3 (SyncServer_new 5)).2);
    [lia|reflexivity|lia|reflexivity].
Defined.

Lemma lock_async_holders t by_ time m got ev m' :
  mutex_ok m -> lock_async t by_ time m = (got, ev, m') -> t ≠ NO_OWNER ->
  holders m' = holders m ++ [t] /\ m_owner m' ≠ NO_OWNER /\
  ev = if m_owner m =? NO_OWNER then [Resume t by_ time] else [].
Proof.
  intros [Hf _]. unfold lock_async, holders. destruct (Z.eqb_spec (m_owner m) NO_OWNER) as [E|E]; intros [= <- <- <-] Ht; cbn.
  - rewrite (proj2 (Z.eqb_neq t NO_OWNER)) by done. by rewrite Hf.
  - by rewrite (proj2 (Z.eqb_neq (m_owner m) NO_OWNER)).
Qed.

Lemma broadcast_loop_holders t cond mux time ws s m :
  server_ok s -> Forall (fun w => 0 <= m_thread_id w /\ m_mutex w = mux) ws -> m_mutexes s !! mux = Some m ->
  m_conds s !! cond = Some (mkCond ws) ->
  exists m' s', broadcast_loop ws t cond time s =
      Ok (if m_owner m =? NO_OWNER then (fun w => Resume (m_thread_id w) t time) <$> take 1 ws else [], s') /\
    m_mutexes s' !! mux = Some m' /\ holders m' = holders m ++ (m_thread_id <$> ws) /\ m_conds s' !! cond = Some (mkCond []).
Proof.
  revert s m. induction ws as [|w ws IH]; intros s m Hs Hw Em Ec.
  { exists m, s. split_and!; [by destruct (_ =? _)|done|by rewrite app_nil_r|done]. }
  apply Forall_cons in Hw as [[Ht Hm] Hw]. pose proof (ok_mutexes _ Hs _ _ Em) as Hok. cbn [broadcast_loop].
  assert (Hs1 : server_ok (put_cond cond (mkCond ws) s)).
  { apply put_cond_ok; [done|]. by pose proof (ok_conds _ Hs _ _ Ec) as [_ ?]%Forall_cons. }
  unfold wake. rewrite Hm. cbn [m_mutexes put_cond]. rewrite Em. cbn [deref mbind res_bind].
  destruct (lock_async _ _ _ _) as [[got ev] m1] eqn:El. cbn [mbind res_bind].
  destruct (lock_async_holders _ _ _ _ _ _ _ Hok El) as (Hh & Ho & Hev); [intros E; rewrite E in Ht; change (0 <= -1) in Ht; lia|].
  destruct (IH (put_mutex mux m1 (put_cond cond (mkCond ws) s)) m1) as (m' & s' & E & Em' & Hh' & Ec');
    [apply put_mutex_ok; [done|by eapply lock_async_ok]|done|apply lookup_insert_eq|apply lookup_insert_eq|].
  rewrite E. cbn [mbind res_bind]. exists m', s'. split_and!; [|done|by rewrite Hh', Hh, <- app_assoc|done].
  rewrite (proj2 (Z.eqb_neq (m_owner m1) NO_OWNER)), app_nil_r, Hev by done. cbn. by destruct (_ =? _).
Qed.

(** A broadcast empties the condition variable and keeps everybody's turn: the waiters,
    in the order in which they waited, follow the owner and the queue of their mutex; a
    thread is resumed only if the mutex was free, and then it is the first waiter, which
    owns the mutex when it continues. *)
Theorem broadcast_keeps_order t cond mux time ws s m :
  server_ok s -> Forall (fun w => m_mutex w = mux) ws -> m_mutexes s !! mux = Some m ->
  m_conds s !! cond = Some (mkCond ws) ->
  exists m' s', condBroadcast t cond time s =
      Ok (if m_owner m =? NO_OWNER then (fun w => Resume (m_thread_id w) t time) <$> take 1 ws else [], s') /\
    m_mutexes s' !! mux = Some m' /\ holders m' = holders m ++ (m_thread_id <$> ws) /\ m_conds s' !! cond = Some (mkCond []).
Proof.
  intros Hs Hw Em Ec. unfold condBroadcast, getCond. rewrite Ec. cbn [cond_waiting]. apply broadcast_loop_holders; [done| |done|done].
  pose proof (ok_conds _ Hs _ _ Ec) as Hc. cbn in Hc. rewrite Forall_forall in Hc, Hw |- *.
  intros w Hi. split; [by apply Hc|by apply Hw].
Qed.

(** Threads 1 and 2 wait on condition 20 with mutex 10. *)
Definition two_waiting : SyncServer :=
  mkServer {[10 := SimMutex_new]} {[20 := mkCond [mkWaiter 1 10; mkWaiter 2 10]]} [] 5.
Lemma two_waiting_ok : server_ok two_waiting.
Proof.
  split; cbn; apply map_Forall_singleton; [by split|].
  repeat constructor; cbn; try lia; rewrite lookup_singleton_eq; eauto.
Qed.

Lemma broadcast_keeps_order_witness :
  exists m' s', condBroadcast 3 20 100 two_waiting =
      Ok (if m_owner SimMutex_new =? NO_OWNER then (fun w => Resume (m_thread_id w) 3 100) <$> take 1 [mkWaiter 1 10; mkWaiter 2 10] else [], s') /\
    m_mutexes s' !! 10 = Some m' /\ holders m' = holders SimMutex_new ++ (m_thread_id <$> [mkWaiter 1 10; mkWaiter 2 10]) /\
    m_conds s' !! 20 = Some (mkCond []).
Proof.
  apply (broadcast_keeps_order 3 20 10 100 [mkWaiter 1 10; mkWaiter 2 10] two_waiting SimMutex_new);
    [apply two_waiting_ok|repeat constructor|reflexivity|reflexivity].
Defined.

(** [isLocked] does not count the owner, so a [tryLock] by the owner is not refused: it
    goes to [lock], which stalls the owner behind itself, and no other thread can unlock. *)
Theorem owner_tryLock_blocks_itself :
  match exec (SyncServer_new 5) (MutexLock 1 10 false 100) with
  | Ok (_, s1) =>
      match mutexLock 1 10 true 110 s1 with
      | Ok (Blocked _, ev, s2) =>
          ev = [Stall 1 STALL_MUTEX 110] /\ m_mutexes s2 !! 10 = Some (mkMutex 1 [1]) /\
          exec s2 (MutexUnlock 2 10 120) = Err AssertFailed
      | _ => False
      end
  | Err _ => False
  end.
Proof. vm_compute. split_and!; reflexivity. Qed.
