(* ===== verification/PageTable.v ===== *)
(** * The radix page table

    [PageTableRadix] and its base class ([common/system/memory_management/page_tables/
    pagetable.h], [pagetable_radix.h/.cc]). Every frame is created by one [new] and stored
    in one entry, so the table is a tree and a pointer is the frame it points to. The
    union of an entry is kept as the eight bytes the pointer and the valid bit share. *)

From Stdlib Require Import ZArith Lia.
From stdpp Require Import base tactics numbers gmap list.
From S2P Require Import Prelude.
Local Open Scope Z_scope.

(** ** State *)

(** The eight shared bytes: all zero, a frame pointer, or the bytes left after an assignment
    to [translation.valid], which writes the first byte only; [clean] says that the other
    seven are zero. A ppn is [None] while the memory is not initialised. *)
Inductive PTFrame := mkFrame (entries : list PTEntry) (emulated_ppn : Z)
with PTEntry := mkEntry (is_pte : bool) (data : word) (ppn : option Z)
with word := WNull | WPtr (f : PTFrame) | WFlag (valid clean : bool).

Definition entries (f : PTFrame) : list PTEntry := match f with mkFrame l _ => l end.
Definition emulated_ppn (f : PTFrame) : Z := match f with mkFrame _ p => p end.
Definition is_pte (e : PTEntry) : bool := match e with mkEntry b _ _ => b end.
Definition data (e : PTEntry) : word := match e with mkEntry _ w _ => w end.
Definition e_ppn (e : PTEntry) : option Z := match e with mkEntry _ _ p => p end.

(** [data.next_level] and [data.translation.valid] read the shared bytes. *)
Inductive pointer := PNull | PTo (f : PTFrame) | PWild.
Definition next_level (e : PTEntry) : pointer :=
  match data e with WNull | WFlag false true => PNull | WPtr f => PTo f | WFlag _ _ => PWild end.
(** The first byte of a frame's address says nothing. *)
Definition valid (e : PTEntry) : res bool :=
  match data e with WNull => Ok false | WFlag v _ => Ok v | WPtr _ => Err BadCast end.
Definition set_valid (v : bool) (w : word) : word :=
  match w with WNull => WFlag v true | WPtr _ => WFlag v false | WFlag _ c => WFlag v c end.
Definition follow (p : pointer) : res PTFrame := 
  match p with PTo f => Ok f | PNull => Err NullDeref | PWild => Err BadCast end.

Record Stats := mkStats {
  page_table_walks : Z;
  page_faults : Z;
  page_size_discovery : list Z;
  allocated_frames : Z
}.

Record PageTableRadix := mkPT {
  root : PTFrame;
  m_frame_size : nat;
  levels : nat;
  m_page_size_list : list Z;
  accesses_per_vpn : gmap Z Z;
  shadow_pte_payload : gmap Z Z;
  stats : Stats
}.

Definition set_root (f : PTFrame) (p : PageTableRadix) : PageTableRadix :=
  mkPT f (m_frame_size p) (levels p) (m_page_size_list p) (accesses_per_vpn p) (shadow_pte_payload p) (stats p).
Definition set_accesses (m : gmap Z Z) (p : PageTableRadix) : PageTableRadix :=
  mkPT (root p) (m_frame_size p) (levels p) (m_page_size_list p) m (shadow_pte_payload p) (stats p).
Definition pt_set_stats (s : Stats) (p : PageTableRadix) : PageTableRadix :=
  mkPT (root p) (m_frame_size p) (levels p) (m_page_size_list p) (accesses_per_vpn p) (shadow_pte_payload p) s.

(** A frame after the loop that initialises its entries. *)
Definition empty_frame (size : nat) (pte : bool) (ppn : Z) : PTFrame :=
  mkFrame (replicate size (mkEntry pte WNull None)) ppn.

Definition PageTableRadix_new (page_size_list : list Z) (levels frame_size : nat) : PageTableRadix :=
  mkPT (empty_frame frame_size false 0) frame_size levels page_size_list ∅ ∅
    (mkStats 0 0 (replicate (length page_size_list) 0) 0).

(** The nine bits of the address that index the frame at [level]. *)
Definition offset_at (levels level : nat) (address : Z) : res nat :=
  let sh := 48 - 9 * (Z.of_nat levels - Z.of_nat level + 1) in
  check ((0 <=? sh) && (sh <? 64)) BadShift;;
  Ok (Z.to_nat (Z.land (Z.shiftr address sh) 0x1FF)).

(** ** Walks *)

Record PTWAccess := mkAccess { table_level : Z; depth : nat; physical_addr : Z; access_is_pte : bool }.
Record PTWResult := mkResult {
  page_size : Z; accesses : list PTWAccess; r_ppn : Z; pwc_latency : Z;
  fault_happened : bool; requested_frames : nat; payload_bits : Z
}.

(** How a pass over the levels ends: with a translation, at a page fault, or after the last level. *)
Inductive walk_end := Hit (level : nat) (ppn page_size : Z) | PageFault (level : nat) | LevelsDone.

(** The while loop of [initializeWalk]. *)
Fixpoint walk (levels : nat) (sizes : list Z) (address : Z) (level counter : nat) (current : pointer)
  : res (list PTWAccess * walk_end) :=
  match level with
  | O => Ok ([], LevelsDone)
  | S below =>
      offset ← offset_at levels level address;
      frame ← follow current;
      e ← rd (entries frame) offset;
      v ← (if is_pte e then valid e else Ok false);
      let visited := mkAccess 0 counter (u64 (emulated_ppn frame * 4096 + Z.of_nat offset * 8)) (is_pte e && v) in
      if is_pte e then
        if v then
          ppn ← deref (e_ppn e);
          check (negb (ppn =? 2 ^ 64 - 1)) LogError;;
          size ← rd sizes below;
          Ok ([visited], Hit level ppn size)
        else Ok ([visited], PageFault level)
      else
        match next_level e with
        | PNull => Ok ([visited], PageFault level)
        | p => '(rest, r) ← walk levels sizes address below (S counter) p; Ok (visited :: rest, r)
        end
  end.

Definition count_walk (p : PageTableRadix) : PageTableRadix :=
  let s := stats p in
  pt_set_stats (mkStats (u64 (page_table_walks s + 1)) (page_faults s) (page_size_discovery s) (allocated_frames s)) p.
Definition count_fault (p : PageTableRadix) : PageTableRadix :=
  let s := stats p in
  pt_set_stats (mkStats (page_table_walks s) (u64 (page_faults s + 1)) (page_size_discovery s) (allocated_frames s)) p.
Definition count_discovery (level : nat) (p : PageTableRadix) : res PageTableRadix :=
  let s := stats p in
  n ← rd (page_size_discovery s) (level - 1);
  l ← wr (page_size_discovery s) (level - 1) (u64 (n + 1));
  Ok (pt_set_stats (mkStats (page_table_walks s) (page_faults s) l (allocated_frames s)) p).
Definition count_access (vpn : Z) (p : PageTableRadix) : PageTableRadix :=
  set_accesses (<[vpn := u64 (default 0 (accesses_per_vpn p !! vpn) + 1)]> (accesses_per_vpn p)) p.

Section walks.
Context {S : Type}.
(** The page fault handler of the core, with the state it changes besides the table. *)
Variable handler : PageTableRadix -> S -> res (PageTableRadix * S).

(** From the label [restart_walk] to the end of [initializeWalk]; [visited] and the fault
    flag survive a restart. [fuel] bounds the passes over the table. *)
Fixpoint walk_loop (fuel : nat) (address : Z) (count restart_walk_after_fault userspace_mimicos : bool)
    (visited : list PTWAccess) (is_pagefault : bool) (p : PageTableRadix) (s : S) : res (PTWResult * PageTableRadix * S) :=
  match fuel with
  | O => Err Diverges
  | Datatypes.S fuel =>
      '(acc, r) ← walk (levels p) (m_page_size_list p) address (levels p) 0 (PTo (root p));
      let visited := visited ++ acc in
      match r with
      | Hit level ppn size =>
          p ← (if count then count_discovery level p else Ok p);
          Ok (mkResult size visited ppn 0 is_pagefault 0 0, count_access (Z.shiftr address 12) p, s)
      | PageFault level =>
          if restart_walk_after_fault then
            check (negb userspace_mimicos) LogError;;
            '(p, s) ← handler p s;
            walk_loop fuel address count restart_walk_after_fault userspace_mimicos visited true (count_fault p) s
          else Ok (mkResult 0 visited 0 0 true (level - 1) 0, count_fault p, s)
      | LevelsDone => Ok (mkResult 0 visited 0 0 is_pagefault 0 0, p, s)
      end
  end.

Definition initializeWalk (fuel : nat) (address : Z) (count restart_walk_after_fault userspace_mimicos : bool)
    (p : PageTableRadix) (s : S) : res (PTWResult * PageTableRadix * S) :=
  let p := if count then count_walk p else p in
  walk_loop fuel address count restart_walk_after_fault userspace_mimicos [] false p s.

End walks.

(** ** Updates *)

(** The three assignments that make the entry a translation. *)
Definition make_pte (ppn : Z) (e : PTEntry) : PTEntry := mkEntry true (set_valid true (data e)) (Some ppn).

(** The while loop of [updatePageTableFrames]: a null frame is allocated from [frames] and
    linked to the entry above, then visited. The result is the frame, the number of frames
    used and whether a translation was written. *)
Fixpoint update_at (levels frame_size : nat) (address ppn : Z) (page_size : Z) (level : nat)
    (current : pointer) (frames : list Z) : res (pointer * nat * bool) :=
  match level with
  | O => Ok (current, O, false)
  | S below =>
      offset ← offset_at levels level address;
      '(frame, frames, used) ←
        match current with
        | PNull =>
            match frames with
            | [] => Err LogError
            | f :: frames => Ok (empty_frame frame_size (level =? 1)%nat f, frames, 1%nat)
            end
        | p => f ← follow p; Ok (f, frames, 0%nat)
        end;
      e ← rd (entries frame) offset;
      if ((page_size =? 21) && (level =? 2)%nat) || ((page_size =? 12) && (level =? 1)%nat) then
        Ok (PTo (mkFrame (<[offset := make_pte ppn e]> (entries frame)) (emulated_ppn frame)), used, true)
      else
        '(child, n, written) ← update_at levels frame_size address ppn page_size below (next_level e) frames;
        let e := match child with PTo g => mkEntry (is_pte e) (WPtr g) (e_ppn e) | _ => e end in
        Ok (PTo (mkFrame (<[offset := e]> (entries frame)) (emulated_ppn frame)), (used + n)%nat, written)
  end.

Definition count_frames (n : nat) (p : PageTableRadix) : PageTableRadix :=
  let s := stats p in
  pt_set_stats (mkStats (page_table_walks s) (page_faults s) (page_size_discovery s)
                  (u64 (allocated_frames s + Z.of_nat n))) p.

Definition updatePageTableFrames (address ppn : Z) (page_size : Z) (frames : list Z) (p : PageTableRadix)
  : res (nat * PageTableRadix) :=
  '(r, used, written) ← update_at (levels p) (m_frame_size p) address ppn page_size (levels p) (PTo (root p)) frames;
  root ← follow r;
  let p := count_frames used (set_root root p) in
  let p := if written : bool then set_accesses (<[Z.shiftr address 12 := 1]> (accesses_per_vpn p)) p else p in
  Ok (used, p).

(** The while loop of [deletePage]. *)
Fixpoint delete_at (levels : nat) (address : Z) (level : nat) (current : pointer) : res pointer :=
  match level with
  | O => Ok current
  | S below =>
      offset ← offset_at levels level address;
      frame ← follow current;
      e ← rd (entries frame) offset;
      if is_pte e then
        Ok (PTo (mkFrame (<[offset := mkEntry true (set_valid false (data e)) (Some (2 ^ 64 - 1))]> (entries frame))
                         (emulated_ppn frame)))
      else
        child ← delete_at levels address below (next_level e);
        let e := match child with PTo g => mkEntry (is_pte e) (WPtr g) (e_ppn e) | _ => e end in
        Ok (PTo (mkFrame (<[offset := e]> (entries frame)) (emulated_ppn frame)))
  end.

Definition deletePage (address : Z) (p : PageTableRadix) : res PageTableRadix :=
  r ← delete_at (levels p) address (levels p) (PTo (root p));
  root ← follow r;
  Ok (set_root root p).

(** ** Per-page data of the base class *)

Definition readPayloadBits (vpn : Z) (p : PageTableRadix) : Z := default 0 (shadow_pte_payload p !! vpn).
Definition writePayloadBits (vpn payload : Z) (p : PageTableRadix) : PageTableRadix :=
  mkPT (root p) (m_frame_size p) (levels p) (m_page_size_list p) (accesses_per_vpn p)
    (<[vpn := payload]> (shadow_pte_payload p)) (stats p).
Definition fillPayloadBits (vpn : Z) (r : PTWResult) (p : PageTableRadix) : PTWResult :=
  mkResult (page_size r) (accesses r) (r_ppn r) (pwc_latency r) (fault_happened r) (requested_frames r)
    (u64 (readPayloadBits vpn p)).
Definition getAccessesPerVPN (vpn : Z) (p : PageTableRadix) : Z := default 0 (accesses_per_vpn p !! vpn).

(** ** Four-level tables *)

(** The index of an address at a level of a table of four levels. *)
Definition idx (level : nat) (a : Z) : nat := Z.to_nat (Z.land (Z.shiftr a (3 + 9 * Z.of_nat level)) 0x1FF).

Lemma offset_at_4 level a : (1 <= level <= 4)%nat -> offset_at 4 level a = Ok (idx level a).
Proof.
  intros H. unfold offset_at, idx.
  replace (48 - 9 * (Z.of_nat 4 - Z.of_nat level + 1)) with (3 + 9 * Z.of_nat level) by lia.
  rewrite (proj2 (Z.leb_le 0 _)), (proj2 (Z.ltb_lt _ 64)) by lia. done.
Qed.

Lemma idx_lt level a : (idx level a < 512)%nat.
Proof.
  unfold idx. pose proof (land_ones_range 9 (Z.shiftr a (3 + 9 * Z.of_nat level)) ltac:(lia)) as [H1 H2].
  change (2 ^ 9 - 1) with 511 in *. change (2 ^ 9) with 512 in *. lia.
Qed.

(** An entry that holds a translation, live or deleted. *)
Definition leaf_ok (level : nat) (e : PTEntry) : Prop :=
  (level <= 2)%nat /\
  match data e with
  | WNull => True
  | WFlag v _ => v = true -> exists p, e_ppn e = Some p /\ p <> 2 ^ 64 - 1
  | WPtr _ => False
  end.

(** A frame of a level: 512 entries; translations at levels 1 and 2 only, pointers to
    well-formed frames of the level below. *)
Fixpoint frame_ok (level : nat) (f : PTFrame) : Prop :=
  match level with
  | O => False
  | S below =>
      length (entries f) = 512%nat /\
      forall i e, entries f !! i = Some e ->
        (is_pte e = true /\ leaf_ok level e) \/
        (is_pte e = false /\ (1 < level)%nat /\ (data e = WNull \/ exists g, data e = WPtr g /\ frame_ok below g))
  end.

Definition pointer_ok (level : nat) (p : pointer) : Prop :=
  match p with PNull => True | PTo f => frame_ok level f | PWild => False end.

Record pt_ok (p : PageTableRadix) : Prop := {
  pt_levels : levels p = 4%nat;
  pt_frame_size : m_frame_size p = 512%nat;
  pt_sizes : exists l, m_page_size_list p = 12 :: 21 :: l;
  pt_discovery : length (page_size_discovery (stats p)) = length (m_page_size_list p);
  pt_root : frame_ok 4 (root p)
}.

(** The translation of an address, as the tree determines it: its ppn and level. *)
Fixpoint find (level : nat) (current : pointer) (a : Z) : option (Z * nat) :=
  match level, current with
  | S below, PTo f =>
      e ← entries f !! idx level a;
      if is_pte e then
        match data e with WFlag true _ => (fun p => (p, level)) <$> e_ppn e | _ => None end
      else find below (next_level e) a
  | _, _ => None
  end.

(** What a walk promises: the page number and the page size of an address. *)
Definition translate (p : PageTableRadix) (a : Z) : option (Z * Z) :=
  match walk (levels p) (m_page_size_list p) a (levels p) 0 (PTo (root p)) with
  | Ok (_, Hit _ ppn size) => Some (ppn, size)
  | _ => None
  end.

Definition size_of_level (l : nat) : Z := if (l =? 1)%nat then 12 else 21.

(** Reaching the entry of an address in a well-formed frame. *)
Lemma entry_at level f a :
  frame_ok level f ->
  exists e, entries f !! idx level a = Some e /\
    ((is_pte e = true /\ leaf_ok level e) \/
     (is_pte e = false /\ (1 < level)%nat /\ (next_level e = PNull /\ data e = WNull \/ exists g, next_level e = PTo g /\ frame_ok (level - 1) g))).
Proof.
  destruct level as [|below]; [done|]. intros [Hl He].
  destruct (lookup_lt_is_Some_2 (entries f) (idx (S below) a)) as [e E]; [rewrite Hl; apply idx_lt|].
  exists e. split; [done|]. destruct (He _ _ E) as [?|(? & ? & Hd)]; [by left|]. right. split; [done|]. split; [done|].
  unfold next_level. destruct Hd as [->|(g & -> & Hg)]; [by left|]. right. exists g. rewrite Nat.sub_succ, Nat.sub_0_r. done.
Qed.

(** The walk of a well-formed table computes [find]. *)
Lemma walk_find sizes a level counter f :
  (level <= 4)%nat -> frame_ok level f -> (exists l, sizes = 12 :: 21 :: l) ->
  exists acc r, walk 4 sizes a level counter (PTo f) = Ok (acc, r) /\
    match find level (PTo f) a with
    | Some (p, l) => r = Hit l p (size_of_level l) /\ (1 <= l <= 2)%nat
    | None => exists l, r = PageFault l /\ (1 <= l <= level)%nat
    end.
Proof.
  intros Hl Hf [sz Hsz]. revert counter f Hl Hf. induction level as [|below IH]; intros counter f Hl Hf; [done|].
  destruct (entry_at _ _ a Hf) as (e & E & Hc). cbn [walk find].
  rewrite offset_at_4 by lia. cbn [mbind res_bind option_bind follow]. rewrite E, (proj2 (rd_Ok _ _ _) E). cbn [mbind res_bind option_bind].
  destruct Hc as [(Hp & Hle & Hd)|(Hp & Hlt & Hd)]; rewrite Hp; cbn [mbind res_bind].
  - unfold valid. destruct (data e) as [|g|[] c]; [| done | |]; cbn [mbind res_bind].
    + do 2 eexists. split; [done|]. exists (S below). split; [done|lia].
    + destruct (Hd eq_refl) as (q & Eq & Hq). rewrite Eq. cbn [deref mbind res_bind].
      apply Z.eqb_neq in Hq. rewrite Hq. cbn [negb check mbind res_bind]. rewrite Hsz.
      assert (below = 0 \/ below = 1)%nat as [-> | ->] by lia; do 2 eexists; (split; [done|]); cbn; split; [done|lia|done|lia].
    + do 2 eexists. split; [done|]. exists (S below). split; [done|lia].
  - destruct Hd as [[Hn _]|(g & Hn & Hg)]; rewrite Hn.
    + do 2 eexists. split; [done|]. destruct below; cbn; eexists; (split; [done|lia]).
    + rewrite Nat.sub_succ, Nat.sub_0_r in Hg. destruct (IH (S counter) g ltac:(lia) Hg) as (acc & r & Ew & Hr). rewrite Ew.
      cbn [mbind res_bind]. do 2 eexists. split; [done|]. destruct (find below (PTo g) a) as [[q l]|]; [done|].
      destruct Hr as (l & -> & ?). exists l. split; [done|lia].
Qed.

(** ** Mapping a page *)

(** Some level above the last holds a translation, live or deleted, for the address. *)
Fixpoint huge_on_path (level : nat) (current : pointer) (a : Z) : bool :=
  match level, current with
  | S (S _ as below), PTo f =>
      match entries f !! idx level a with
      | Some e => is_pte e || huge_on_path below (next_level e) a
      | None => false
      end
  | _, _ => false
  end.

(** The number of frames between a level and [leaf] that the address still lacks. *)
Fixpoint missing (leaf level : nat) (current : pointer) (a : Z) : nat :=
  match level with
  | O => 0
  | S below =>
      if (level <? leaf)%nat then 0%nat else
      match current with
      | PTo f =>
          if (level =? leaf)%nat then 0%nat else
          match entries f !! idx level a with Some e => missing leaf below (next_level e) a | None => 0%nat end
      | _ => S (level - leaf)
      end
  end.

(** Two addresses use the same entries from a level down to [leaf]. *)
Definition same_path (leaf level : nat) (a a' : Z) : Prop :=
  forall l, (leaf <= l <= level)%nat -> idx l a = idx l a'.

Lemma same_path_S leaf below a a' :
  (leaf <= below)%nat -> idx (S below) a = idx (S below) a' -> same_path leaf (S below) a a' <-> same_path leaf below a a'.
Proof.
  intros H E. split; intros Hs l Hl; [apply Hs; lia|]. destruct (decide (l = S below)) as [->|]; [done|]. apply Hs. lia.
Qed.

(** The leaf of a page size. *)
Definition leaf_of (page_size : Z) (leaf : nat) : Prop := (page_size = 12 /\ leaf = 1%nat) \/ (page_size = 21 /\ leaf = 2%nat).

Lemma empty_frame_ok level ppn : (1 <= level)%nat -> frame_ok level (empty_frame 512 (level =? 1)%nat ppn).
Proof.
  intros H. destruct level as [|below]; [lia|]. cbn [frame_ok entries empty_frame]. split; [by rewrite length_replicate|].
  intros i e [-> _]%lookup_replicate. cbn [is_pte data]. destruct (Nat.eqb_spec (S below) 1) as [E|E].
  - left. split; [done|]. split; [lia|done].
  - right. split; [done|]. split; [lia|by left].
Qed.

Lemma find_empty level size b ppn a : find level (PTo (empty_frame size b ppn)) a = None.
Proof.
  destruct level as [|below]; [done|]. cbn [find entries empty_frame].
  destruct (replicate _ _ !! _) as [e|] eqn:E; [|done]. apply lookup_replicate in E as [-> _]. cbn.
  destruct b; [done|]. by destruct below.
Qed.

(** The frame a level works on: the one pointed to, or a new empty one. *)
Lemma current_frame leaf level current a frames :
  (1 <= leaf <= level)%nat -> pointer_ok level current -> (missing leaf level current a <= length frames)%nat ->
  exists f frames' used,
    match current with
    | PNull => match frames with [] => Err LogError | x :: l => Ok (empty_frame 512 (level =? 1)%nat x, l, 1%nat) end
    | p => f ← follow p; Ok (f, frames, 0%nat)
    end = Ok (f, frames', used) /\
    frame_ok level f /\ (forall a', find level (PTo f) a' = find level current a') /\
    (forall a', huge_on_path level current a' = false -> huge_on_path level (PTo f) a' = false) /\
    (used + missing leaf level (PTo f) a = missing leaf level current a)%nat /\ (used + length frames' = length frames)%nat.
Proof.
  intros Hl Hp Hm. destruct current as [|f|]; [|exists f, frames, 0%nat; split_and!; done|done].
  destruct level as [|below]; [lia|]. cbn [missing] in Hm. destruct (Nat.ltb_spec (S below) leaf); [lia|].
  destruct frames as [|x l]; [cbn [length] in Hm; lia|]. exists (empty_frame 512 (S below =? 1)%nat x), l, 1%nat.
  split_and!; [done|apply empty_frame_ok; lia| | | |done].
  - intros a'. by rewrite find_empty.
  - intros a' _. cbn [huge_on_path]. destruct below as [|b]; [done|]. cbn [entries empty_frame].
    rewrite lookup_replicate_2 by apply idx_lt. cbn. by destruct b.
  - cbn [missing]. destruct (Nat.ltb_spec (S below) leaf); [lia|]. cbn [entries empty_frame].
    rewrite lookup_replicate_2 by apply idx_lt. cbn [next_level data].
    destruct (Nat.eqb_spec (S below) leaf); [lia|]. destruct below as [|b]; [lia|]. cbn [missing].
    destruct (Nat.ltb_spec (S b) leaf); lia.
Qed.

Lemma frame_ok_insert level f i e :
  frame_ok level f -> (forall e', entries f !! i = Some e' ->
    (is_pte e = true /\ leaf_ok level e) \/
    (is_pte e = false /\ (1 < level)%nat /\ (data e = WNull \/ exists g, data e = WPtr g /\ frame_ok (level - 1) g))) ->
  frame_ok level (mkFrame (<[i := e]> (entries f)) (emulated_ppn f)).
Proof.
  destruct level as [|below]; [done|]. intros [Hl He] H. cbn [frame_ok entries]. rewrite Nat.sub_succ, Nat.sub_0_r in H.
  split; [by rewrite length_insert|]. intros j x Hx. destruct (decide (i = j)) as [<-|].
  - destruct (lookup_lt_is_Some_2 (entries f) i) as [e' E'].
    { apply lookup_lt_Some in Hx. by rewrite length_insert in Hx. }
    rewrite list_lookup_insert_eq in Hx by (by eapply lookup_lt_Some). injection Hx as <-. by apply (H e').
  - rewrite list_lookup_insert_ne in Hx by done. by apply (He j).
Qed.

(** Looking up after one entry of a frame was replaced. *)
Lemma find_insert below f i e a' p :
  entries f !! i <> None ->
  find (S below) (PTo (mkFrame (<[i := e]> (entries f)) p)) a' =
  if decide (i = idx (S below) a') then
    if is_pte e then match data e with WFlag true _ => (fun p => (p, S below)) <$> e_ppn e | _ => None end
    else find below (next_level e) a'
  else find (S below) (PTo f) a'.
Proof.
  intros H. cbn [find entries]. case_decide as E.
  - subst i. destruct (entries f !! idx (S below) a') eqn:E'; [|done].
    rewrite list_lookup_insert_eq by (by eapply lookup_lt_Some). done.
  - by rewrite list_lookup_insert_ne.
Qed.

Lemma huge_insert b f i e a' p :
  entries f !! i <> None ->
  huge_on_path (S (S b)) (PTo (mkFrame (<[i := e]> (entries f)) p)) a' =
  if decide (i = idx (S (S b)) a') then is_pte e || huge_on_path (S b) (next_level e) a'
  else huge_on_path (S (S b)) (PTo f) a'.
Proof.
  intros H. cbn [huge_on_path entries]. case_decide as E.
  - subst i. destruct (entries f !! idx (S (S b)) a') eqn:E'; [|done].
    rewrite list_lookup_insert_eq by (by eapply lookup_lt_Some). done.
  - by rewrite list_lookup_insert_ne.
Qed.

(** The loop writes at the leaf and passes over the levels above it. *)
Lemma at_leaf page_size leaf level :
  leaf_of page_size leaf ->
  ((page_size =? 21) && (level =? 2)%nat) || ((page_size =? 12) && (level =? 1)%nat) = (level =? leaf)%nat.
Proof. intros [[-> ->]|[-> ->]]; cbn; by rewrite ?orb_false_r. Qed.

Lemma make_pte_leaf_ok level ppn e : (level <= 2)%nat -> ppn <> 2 ^ 64 - 1 -> leaf_ok level (make_pte ppn e).
Proof. intros. split; [done|]. cbn. destruct (data e); cbn; eauto. Qed.

(** Mapping in the subtree below a pointer: the frames used are the missing ones, the
    addresses of the page are translated to [ppn], all others as before. *)
Lemma update_at_spec page_size leaf a ppn level current frames :
  leaf_of page_size leaf -> (leaf <= level <= 4)%nat -> pointer_ok level current -> ppn <> 2 ^ 64 - 1 ->
  (leaf = 1%nat -> huge_on_path level current a = false) -> (missing leaf level current a <= length frames)%nat ->
  exists f, update_at 4 512 a ppn page_size level current frames = Ok (PTo f, missing leaf level current a, true) /\
    frame_ok level f /\
    (forall a', same_path leaf level a a' -> find level (PTo f) a' = Some (ppn, leaf)) /\
    (forall a', ~ same_path leaf level a a' -> find level (PTo f) a' = find level current a') /\
    (forall a', leaf = 1%nat -> huge_on_path level current a' = false -> huge_on_path level (PTo f) a' = false).
Proof.
  intros Hleaf. revert current frames. induction level as [|below IH]; intros current frames Hl Hp Hn Hh Hm.
  { exfalso. destruct Hleaf as [[_ ->]|[_ ->]]; lia. }
  assert (Hl1 : (1 <= leaf <= 2)%nat) by (destruct Hleaf as [[_ ->]|[_ ->]]; lia).
  destruct (current_frame leaf (S below) current a frames) as (f & frames' & used & Ef & Hf & Hfind & Hhuge & Hmiss & Hlen); [lia|done..|].
  rewrite <- Hmiss in Hm |- *.
  cbn [update_at]. rewrite offset_at_4 by lia. cbn [mbind res_bind]. rewrite Ef. cbn [mbind res_bind].
  destruct (entry_at _ _ a Hf) as (e & E & Hc). rewrite (proj2 (rd_Ok _ _ _) E). cbn [mbind res_bind].
  rewrite (at_leaf _ leaf) by done. assert (Hne : entries f !! idx (S below) a <> None) by congruence.
  destruct (Nat.eqb_spec (S below) leaf) as [El|El].
  - assert (Hm0 : missing leaf (S below) (PTo f) a = 0%nat).
    { cbn [missing]. rewrite (proj2 (Nat.ltb_ge _ _)), El, Nat.eqb_refl by lia. done. }
    rewrite Hm0, Nat.add_0_r. eexists. split; [done|]. split; [|split; [|split]]; intros.
    + apply frame_ok_insert; [done|]. intros. left. split; [done|]. apply make_pte_leaf_ok; [lia|done].
    + rewrite find_insert by done. rewrite decide_True by (apply H; lia). cbn. rewrite El. by destruct (data e).
    + rewrite find_insert, Hfind by done. rewrite decide_False; [done|]. intros Ei. apply H. intros l Hll. by replace l with (S below) by lia.
    + assert (below = 0%nat) as -> by lia. done.
  - assert (Hms : missing leaf (S below) (PTo f) a = missing leaf below (next_level e) a).
    { cbn [missing]. rewrite (proj2 (Nat.ltb_ge _ _)), (proj2 (Nat.eqb_neq _ _)) by lia. by rewrite E. }
    assert (Hnp : is_pte e = false).
    { destruct Hc as [(Hpte & Hle & _)|(Hpte & _)]; [|done]. assert (leaf = 1%nat /\ below = 1%nat) as [-> ->] by lia.
      specialize (Hhuge a (Hh eq_refl)). cbn [huge_on_path] in Hhuge. by rewrite E, Hpte in Hhuge. }
    destruct Hc as [(Hpte & _)|(_ & Hgt & Hnext)]; [congruence|].
    destruct (IH (next_level e) frames') as (g & Eg & Hg & Hin & Hout & Hkeep); [lia| |done| | |].
    { destruct Hnext as [[-> _]|(g & -> & Hg)]; [done|]. by rewrite Nat.sub_succ, Nat.sub_0_r in Hg. }
    { intros L. specialize (Hhuge a (Hh L)). destruct below as [|b]; [lia|]. cbn [huge_on_path] in Hhuge. rewrite E, Hnp in Hhuge. exact Hhuge. }
    { lia. }
    rewrite Eg. cbn [mbind res_bind]. rewrite Hnp, Hms. eexists. split; [done|]. split; [|split; [|split]]; intros.
    + apply frame_ok_insert; [done|]. intros. right. split; [done|]. split; [done|]. right. exists g. by rewrite Nat.sub_succ, Nat.sub_0_r.
    + rewrite find_insert by done. rewrite decide_True by (apply H; lia). cbn. apply Hin. intros l Hll. apply H. lia.
    + rewrite find_insert by done. case_decide as Ei; [|apply Hfind]. cbn [is_pte next_level data]. rewrite Hout, <- Hfind.
      * cbn [find]. rewrite <- Ei, E. cbn [mbind option_bind]. by rewrite Hnp.
      * intros Hs. apply H. apply same_path_S; [lia|done|done].
    + destruct below as [|b]; [lia|]. apply Hhuge in H0. rewrite huge_insert by done. case_decide as Ei; [|done].
      cbn [huge_on_path] in H0. rewrite <- Ei, E, Hnp in H0. cbn [is_pte next_level data orb]. by apply Hkeep.
Qed.

(** ** Pages as address ranges *)

(** The page of an address in the 48-bit virtual address space. *)
Definition page_number (page_size a : Z) : Z := Z.land (Z.shiftr a page_size) (2 ^ (48 - page_size) - 1).

(** Two bit fields are equal when their bits are. *)
Lemma field_eq lo n a a' :
  0 <= lo -> 0 <= n ->
  Z.land (Z.shiftr a lo) (2 ^ n - 1) = Z.land (Z.shiftr a' lo) (2 ^ n - 1) <->
  forall i, lo <= i < lo + n -> Z.testbit a i = Z.testbit a' i.
Proof.
  intros Hlo Hn. rewrite !land_pow2_pred by done. split.
  - intros H i Hi. apply (f_equal (fun z => Z.testbit z (i - lo))) in H.
    rewrite !Z.mod_pow2_bits_low, !Z.shiftr_spec in H by lia. by replace (i - lo + lo) with i in H by lia.
  - intros H. apply Z.bits_inj'. intros i Hi. destruct (decide (i < n)).
    + rewrite !Z.mod_pow2_bits_low, !Z.shiftr_spec by lia. apply H. lia.
    + by rewrite !Z.mod_pow2_bits_high by lia.
Qed.

Lemma idx_bits l a a' :
  idx l a = idx l a' <-> forall i, 3 + 9 * Z.of_nat l <= i < 3 + 9 * Z.of_nat l + 9 -> Z.testbit a i = Z.testbit a' i.
Proof.
  rewrite <- (field_eq (3 + 9 * Z.of_nat l) 9) by lia. unfold idx. change (2 ^ 9 - 1) with 511. split.
  - intros H. apply Z2Nat.inj in H; [done|apply Z.land_nonneg; by right..].
  - by intros ->.
Qed.

(** The entries of an address from level 4 down to the leaf determine its page. *)
Lemma same_path_page page_size leaf a a' :
  leaf_of page_size leaf -> same_path leaf 4 a a' <-> page_number page_size a = page_number page_size a'.
Proof.
  intros Hl. assert (page_size = 3 + 9 * Z.of_nat leaf /\ (1 <= leaf <= 2)%nat) as [-> Hle].
  { destruct Hl as [[-> ->]|[-> ->]]; split; lia. }
  unfold page_number. rewrite field_eq by lia. split.
  - intros H i Hi. assert (exists l : nat, (leaf <= l <= 4)%nat /\ 3 + 9 * Z.of_nat l <= i < 3 + 9 * Z.of_nat l + 9) as (l & Hll & Hr).
    { exists (Z.to_nat ((i - 3) / 9)). assert (0 <= (i - 3) / 9) by (apply Z.div_pos; lia).
      pose proof (Z.div_mod (i - 3) 9 ltac:(lia)). pose proof (Z.mod_pos_bound (i - 3) 9 ltac:(lia)). lia. }
    by apply (proj1 (idx_bits l a a') (H l Hll)).
  - intros H l Hll. apply idx_bits. intros i Hi. apply H. lia.
Qed.

(** ** The table as a map of pages *)

Lemma translate_find p a :
  pt_ok p -> translate p a = (fun r => (r.1, size_of_level r.2)) <$> find 4 (PTo (root p)) a.
Proof.
  intros Hp. unfold translate. rewrite (pt_levels _ Hp).
  destruct (walk_find (m_page_size_list p) a 4 0 (root p)) as (acc & r & -> & Hr); [lia|apply Hp|apply Hp|].
  destruct (find 4 (PTo (root p)) a) as [[q l]|]; [by destruct Hr as [-> _]|]. by destruct Hr as (l & -> & _).
Qed.

Lemma translate_root p q a : pt_ok p -> pt_ok q -> root p = root q -> translate p a = translate q a.
Proof. intros Hp Hq E. by rewrite !translate_find, E. Qed.

(** The addresses of a page have the same translation. *)
Lemma find_ext level current a a' : same_path 1 level a a' -> find level current a = find level current a'.
Proof.
  revert current. induction level as [|below IH]; intros current H; [done|]. destruct current as [|f|]; [done| |done]. cbn [find].
  rewrite (H (S below)) by lia. destruct (entries f !! _) as [e|]; [|done]. cbn [mbind option_bind].
  rewrite IH by (intros l Hl; apply H; lia). done.
Qed.

Lemma translate_same_page p a a' : pt_ok p -> page_number 12 a = page_number 12 a' -> translate p a = translate p a'.
Proof.
  intros Hp H. rewrite !translate_find by done. f_equal. apply find_ext. by apply (same_path_page 12 1); [left|].
Qed.

(** The walk of an address without any handler call. *)
Lemma walk_translate p a :
  pt_ok p -> exists acc r, walk (levels p) (m_page_size_list p) a (levels p) 0 (PTo (root p)) = Ok (acc, r) /\
    match translate p a with
    | Some (ppn, size) => exists l, r = Hit l ppn size /\ (1 <= l <= 2)%nat
    | None => exists l, r = PageFault l /\ (1 <= l <= 4)%nat
    end.
Proof.
  intros Hp. rewrite translate_find, (pt_levels _ Hp) by done.
  destruct (walk_find (m_page_size_list p) a 4 0 (root p)) as (acc & r & E & Hr); [lia|apply Hp|apply Hp|].
  exists acc, r. split; [done|]. destruct (find 4 (PTo (root p)) a) as [[q l]|]; cbn; [exists l; done|done].
Qed.

(** Whether a translation above the last level is in the way of a 4 KB page. *)
Definition huge_in_way (p : PageTableRadix) (a : Z) : bool := huge_on_path 4 (PTo (root p)) a.
(** The page table frames an address still lacks for a page size. *)
Definition missing_frames (p : PageTableRadix) (page_size a : Z) : nat :=
  missing (if page_size =? 12 then 1 else 2) 4 (PTo (root p)) a.

Lemma update_page_spec p page_size a ppn frames :
  pt_ok p -> page_size = 12 \/ page_size = 21 -> ppn <> 2 ^ 64 - 1 ->
  (page_size = 12 -> huge_in_way p a = false) -> (missing_frames p page_size a <= length frames)%nat ->
  exists p', updatePageTableFrames a ppn page_size frames p = Ok (missing_frames p page_size a, p') /\ pt_ok p' /\
    (forall a', page_number page_size a = page_number page_size a' -> translate p' a' = Some (ppn, page_size)) /\
    (forall a', page_number page_size a <> page_number page_size a' -> translate p' a' = translate p a') /\
    (forall a', page_size = 12 -> huge_in_way p a' = false -> huge_in_way p' a' = false).
Proof.
  intros Hp Hps Hn Hh Hm. pose proof Hp as [Hlv Hfs Hsz Hd Hr]. unfold missing_frames in *.
  set (leaf := if page_size =? 12 then 1%nat else 2%nat) in *.
  assert (Hleaf : leaf_of page_size leaf) by (destruct Hps as [-> | ->]; [by left|by right]).
  assert (Hll : size_of_level leaf = page_size) by (by destruct Hps as [-> | ->]).
  destruct (update_at_spec page_size leaf a ppn 4 (PTo (root p)) frames Hleaf) as (f & Ef & Hf & Hin & Hout & Hkeep); [|exact Hr|done| |done|].
  { destruct Hleaf as [[_ ->]|[_ ->]]; lia. }
  { intros L. apply Hh. destruct Hleaf as [[? _]|[_ ?]]; [done|congruence]. }
  unfold updatePageTableFrames. rewrite Hlv, Hfs, Ef. cbn [mbind res_bind follow].
  assert (Hok : pt_ok (set_accesses (<[Z.shiftr a 12 := 1]> (accesses_per_vpn p)) (count_frames (missing leaf 4 (PTo (root p)) a) (set_root f p))))
    by (split; cbn; done).
  eexists. split; [done|]. split; [exact Hok|]. split; [|split]; intros a' Ha; [rewrite (translate_find _ _ Hok)..|]; cbn [root set_accesses count_frames pt_set_stats set_root].
  - rewrite <- (same_path_page _ leaf) in Ha by done. rewrite Hin by done. cbn. by rewrite Hll.
  - rewrite <- (same_path_page _ leaf) in Ha by done. rewrite Hout by done. by rewrite translate_find.
  - intros H'. apply Hkeep; [|done]. unfold leaf. by rewrite Ha.
Qed.

(** A walk that meets a pointer continues at the level below. *)
Lemma walk_next sizes a below counter f e g :
  (below <= 3)%nat -> entries f !! idx (S below) a = Some e -> is_pte e = false -> next_level e = PTo g ->
  exists acc, walk 4 sizes a (S below) counter (PTo f) =
    ('(rest, r) ← walk 4 sizes a below (S counter) (PTo g); Ok (acc :: rest, r)).
Proof.
  intros Hb E Hp Hn. cbn [walk]. rewrite (offset_at_4 (S below)) by lia. cbn [mbind res_bind follow].
  rewrite (proj2 (rd_Ok _ _ _) E). cbn [mbind res_bind]. rewrite Hp. cbn [mbind res_bind]. rewrite Hn. eauto.
Qed.

(** A page number of all ones, the allocator's answer when memory is exhausted, is written
    into the table and stops the walk that follows. *)
Lemma update_exhausted sizes a level counter current frames :
  (1 <= level <= 4)%nat -> pointer_ok level current -> huge_on_path level current a = false ->
  (missing 1 level current a <= length frames)%nat ->
  exists f, update_at 4 512 a (2 ^ 64 - 1) 12 level current frames = Ok (PTo f, missing 1 level current a, true) /\
    walk 4 sizes a level counter (PTo f) = Err LogError.
Proof.
  revert counter current frames. induction level as [|below IH]; intros counter current frames Hl Hp Hh Hm; [lia|].
  destruct (current_frame 1 (S below) current a frames) as (f & frames' & used & Ef & Hf & _ & Hhuge & Hmiss & Hlen); [lia|done..|].
  specialize (Hhuge a Hh). rewrite <- Hmiss in Hm |- *. cbn [update_at]. rewrite offset_at_4 by lia. cbn [mbind res_bind]. rewrite Ef. cbn [mbind res_bind].
  destruct (entry_at _ _ a Hf) as (e & E & Hc). rewrite (proj2 (rd_Ok _ _ _) E). cbn [mbind res_bind].
  pose proof (lookup_lt_Some _ _ _ E) as Hlt. rewrite (at_leaf _ 1) by (by left). destruct (Nat.eqb_spec (S below) 1) as [El|El].
  - assert (below = 0%nat) as -> by lia. cbn [missing Nat.ltb Nat.leb Nat.eqb]. rewrite Nat.add_0_r.
    eexists. split; [done|]. cbn [walk]. rewrite offset_at_4 by lia. cbn [mbind res_bind follow entries].
    unfold rd. rewrite list_lookup_insert_eq by done. cbn [mbind res_bind is_pte make_pte]. unfold valid. cbn [data make_pte].
    by destruct (data e).
  - destruct below as [|b]; [lia|]. cbn [huge_on_path] in Hhuge. rewrite E in Hhuge. apply orb_false_iff in Hhuge as [Hnp Hhuge].
    destruct Hc as [(Hpte & _)|(_ & Hgt & Hnext)]; [congruence|].
    assert (Hms : missing 1 (S (S b)) (PTo f) a = missing 1 (S b) (next_level e) a).
    { cbn [missing]. by rewrite (proj2 (Nat.ltb_ge _ _)), (proj2 (Nat.eqb_neq (S (S b)) 1)), E by lia. }
    rewrite Hms in Hm |- *.
    destruct (IH (S counter) (next_level e) frames') as (g & Eg & Hw); [lia| |done| |].
    { destruct Hnext as [[-> _]|(g & -> & Hg)]; [done|]. by rewrite Nat.sub_succ, Nat.sub_0_r in Hg. }
    { lia. }
    rewrite Eg. cbn [mbind res_bind]. eexists. split; [done|].
    destruct (walk_next sizes a (S b) counter (mkFrame (<[idx (S (S b)) a := mkEntry (is_pte e) (WPtr g) (e_ppn e)]> (entries f)) (emulated_ppn f))
      (mkEntry (is_pte e) (WPtr g) (e_ppn e)) g) as [acc ->]; [lia|by apply list_lookup_insert_eq|done|done|]. by rewrite Hw.
Qed.

(** ** Deleting a page *)

Lemma delete_at_spec a level f ppn l :
  (level <= 4)%nat -> frame_ok level f -> find level (PTo f) a = Some (ppn, l) ->
  exists g, delete_at 4 a level (PTo f) = Ok (PTo g) /\ frame_ok level g /\ (1 <= l <= level)%nat /\
    (forall a', same_path l level a a' -> find level (PTo g) a' = None) /\
    (forall a', ~ same_path l level a a' -> find level (PTo g) a' = find level (PTo f) a').
Proof.
  revert f. induction level as [|below IH]; intros f Hl Hf Hfind; [done|].
  destruct (entry_at _ _ a Hf) as (e & E & Hc). assert (Hne : entries f !! idx (S below) a <> None) by congruence.
  cbn [delete_at]. rewrite offset_at_4 by lia. cbn [mbind res_bind follow]. rewrite (proj2 (rd_Ok _ _ _) E). cbn [mbind res_bind].
  cbn [find] in Hfind. rewrite E in Hfind. cbn [mbind option_bind] in Hfind.
  destruct Hc as [(Hp & Hle & Hd)|(Hp & Hlt & Hd)]; rewrite Hp in Hfind |- *.
  - destruct (data e) as [|g|[] c] eqn:Ed; try done. destruct (e_ppn e) as [q|]; [|done]. injection Hfind as <- <-.
    eexists. split; [done|]. split; [|split; [lia|split; intros a' Ha; rewrite find_insert by done]].
    + apply frame_ok_insert; [done|]. intros. left. split; [done|]. split; [done|]. cbn. done.
    + by rewrite decide_True by (apply Ha; lia).
    + rewrite decide_False; [done|]. intros Ei. apply Ha. intros l Hll. by replace l with (S below) by lia.
  - destruct Hd as [[Hn _]|(g & Hn & Hg)]; rewrite Hn in Hfind |- *; [by destruct below|].
    rewrite Nat.sub_succ, Nat.sub_0_r in Hg. destruct (IH g ltac:(lia) Hg Hfind) as (g' & Eg & Hg' & Hr & Hin & Hout).
    rewrite Eg. cbn [mbind res_bind]. rewrite ?Hp. eexists. split; [done|]. split; [|split; [lia|split; intros a' Ha; rewrite find_insert by done]].
    + apply frame_ok_insert; [done|]. intros. right. split; [done|]. split; [done|]. right. exists g'. by rewrite Nat.sub_succ, Nat.sub_0_r.
    + rewrite decide_True by (apply Ha; lia). cbn. apply Hin. intros k Hk. apply Ha. lia.
    + case_decide as Ei; [|done]. cbn [is_pte next_level data]. rewrite Hout.
      * cbn [find]. rewrite <- Ei, E. cbn [mbind option_bind]. by rewrite Hp, Hn.
      * intros Hs. apply Ha. apply same_path_S; [lia|done|done].
Qed.

Lemma delete_page_spec p a ppn page_size :
  pt_ok p -> translate p a = Some (ppn, page_size) ->
  exists p', deletePage a p = Ok p' /\ pt_ok p' /\
    (forall a', page_number page_size a = page_number page_size a' -> translate p' a' = None) /\
    (forall a', page_number page_size a <> page_number page_size a' -> translate p' a' = translate p a').
Proof.
  intros Hp Ht. pose proof Hp as [Hlv Hfs Hsz Hd Hr]. rewrite translate_find in Ht by done.
  destruct (find 4 (PTo (root p)) a) as [[q l]|] eqn:Ef; [|done]. cbn in Ht. injection Ht as <- Hps.
  destruct (walk_find (m_page_size_list p) a 4 0 (root p)) as (acc & r & _ & Hl); [lia|done..|]. rewrite Ef in Hl. destruct Hl as [_ Hl].
  assert (Hleaf : leaf_of page_size l).
  { subst page_size. assert (l = 1 \/ l = 2)%nat as [-> | ->] by lia; [by left|by right]. }
  destruct (delete_at_spec a 4 (root p) q l) as (g & Eg & Hg & _ & Hin & Hout); [lia|done..|].
  unfold deletePage. rewrite Hlv, Eg. cbn [mbind res_bind follow].
  assert (Hok : pt_ok (set_root g p)) by (split; cbn; done).
  eexists. split; [done|]. split; [exact Hok|]. split; intros a' Ha; rewrite (translate_find _ _ Hok); cbn [root set_root];
    rewrite <- (same_path_page _ l) in Ha by done.
  - by rewrite Hin.
  - rewrite Hout by done. by rewrite translate_find.
Qed.

(** ** Sequences of updates *)

Inductive pt_op := MapPage (address ppn page_size : Z) (frames : list Z) | DeletePage (address : Z).
Definition pt_exec (p : PageTableRadix) (o : pt_op) : res PageTableRadix :=
  match o with
  | MapPage a ppn ps frames => '(_, p) ← updatePageTableFrames a ppn ps frames p; Ok p
  | DeletePage a => deletePage a p
  end.
Fixpoint pt_exec_all (p : PageTableRadix) (os : list pt_op) : res PageTableRadix :=
  match os with [] => Ok p | o :: os => p ← pt_exec p o; pt_exec_all p os end.

(** Abstractly a page table is a function from addresses to pages. *)
Definition page_map : Type := Z -> option (Z * Z).
Definition spec_step (m : page_map) (o : pt_op) : page_map :=
  match o with
  | MapPage a ppn ps _ => fun a' => if page_number ps a =? page_number ps a' then Some (ppn, ps) else m a'
  | DeletePage a => fun a' =>
      match m a with
      | Some (_, ps) => if page_number ps a =? page_number ps a' then None else m a'
      | None => m a'
      end
  end.

(** The operating system maps pages of 4 KB or 2 MB, with enough frames and no 4 KB page
    under a 2 MB entry, and deletes pages that are mapped. *)
Definition pt_legal (p : PageTableRadix) (o : pt_op) : Prop :=
  match o with
  | MapPage a ppn ps frames =>
      (ps = 12 \/ ps = 21) /\ ppn <> 2 ^ 64 - 1 /\ (ps = 12 -> huge_in_way p a = false) /\
      (missing_frames p ps a <= length frames)%nat
  | DeletePage a => translate p a <> None
  end.
Fixpoint pt_legal_all (p : PageTableRadix) (os : list pt_op) : Prop :=
  match os with [] => True | o :: os => pt_legal p o /\ forall p', pt_exec p o = Ok p' -> pt_legal_all p' os end.

Lemma pt_exec_spec p o :
  pt_ok p -> pt_legal p o ->
  exists p', pt_exec p o = Ok p' /\ pt_ok p' /\ forall a, translate p' a = spec_step (translate p) o a.
Proof.
  intros Hp. destruct o as [a ppn ps frames|a]; cbn [pt_legal pt_exec spec_step].
  - intros (Hps & Hn & Hh & Hm). destruct (update_page_spec p ps a ppn frames Hp Hps Hn Hh Hm) as (p' & E & Hp' & Hin & Hout & _).
    rewrite E. cbn. exists p'. split_and!; [done..|]. intros a'. destruct (Z.eqb_spec (page_number ps a) (page_number ps a')); auto.
  - intros Ht. destruct (translate p a) as [[ppn ps]|] eqn:E; [|done].
    destruct (delete_page_spec p a ppn ps Hp E) as (p' & Ed & Hp' & Hin & Hout). exists p'. split_and!; [done..|].
    intros a'. destruct (Z.eqb_spec (page_number ps a) (page_number ps a')); auto.
Qed.

Lemma spec_step_ext m m' o : (forall a, m a = m' a) -> forall a, spec_step m o a = spec_step m' o a.
Proof. intros H a. destruct o; cbn; rewrite ?H; [done|]. destruct (m' _) as [[]|]; by rewrite ?H. Qed.

Lemma spec_steps_ext os m m' : (forall a, m a = m' a) -> forall a, foldl spec_step m os a = foldl spec_step m' os a.
Proof. revert m m'. induction os as [|o os IH]; intros m m' H; [done|]. cbn. apply IH. by apply spec_step_ext. Qed.

(** A fresh table with the page sizes of the simulator. *)
Definition pt4 : PageTableRadix := PageTableRadix_new [12; 21] 4 512.
Lemma pt4_ok : pt_ok pt4.
Proof. split; [done|done|by exists []|done|apply (empty_frame_ok 4); lia]. Qed.

(** C19: The radix tree implements a map from pages to frames: any sequence of mappings (4 KB
    or 2 MB) and deletions that the operating system may issue completes, keeps the tree
    well formed, and afterwards every address of the address space is translated exactly
    as the sequence of abstract map updates says, no other page being touched. *)
Theorem page_table_refines_map p os :
  pt_ok p -> pt_legal_all p os ->
  exists p', pt_exec_all p os = Ok p' /\ pt_ok p' /\ forall a, translate p' a = foldl spec_step (translate p) os a.
Proof.
  revert p. induction os as [|o os IH]; intros p Hp Hl; [by exists p|].
  destruct Hl as [Ho Hl]. destruct (pt_exec_spec p o Hp Ho) as (p1 & E & Hp1 & H1).
  destruct (IH p1 Hp1 (Hl p1 E)) as (p2 & E2 & Hp2 & H2). cbn [pt_exec_all]. rewrite E. cbn [mbind res_bind].
  exists p2. split_and!; [done..|]. intros a. rewrite H2. cbn. by apply spec_steps_ext.
Qed.

Lemma page_table_refines_map_witness :
  exists p', pt_exec_all pt4 [MapPage 0x7f0012345678 77 12 [1; 2; 3]; DeletePage 0x7f0012345000] = Ok p' /\ pt_ok p' /\
    forall a, translate p' a = foldl spec_step (translate pt4) [MapPage 0x7f0012345678 77 12 [1; 2; 3]; DeletePage 0x7f0012345000] a.
Proof.
  assert (L : pt_legal pt4 (MapPage 0x7f0012345678 77 12 [1; 2; 3])).
  { cbn [pt_legal]. split_and!; [by left|lia|intros _; vm_compute; reflexivity|vm_compute; lia]. }
  apply (page_table_refines_map pt4); [apply pt4_ok|]. split; [exact L|].
  intros p' E. split; [|done]. destruct (pt_exec_spec pt4 _ pt4_ok L) as (q & Eq & _ & Hs).
  rewrite Eq in E. injection E as <-. cbn [pt_legal]. rewrite Hs. cbn [spec_step].
  assert ((page_number 12 0x7f0012345678 =? page_number 12 0x7f0012345000) = true) as -> by reflexivity. done.
Defined.

(** ** Page faults *)

(** The level at which a walk faults tells how many frames are missing for a 4 KB page. *)
Lemma fault_missing sizes a level counter f acc l :
  (level <= 4)%nat -> frame_ok level f -> huge_on_path level (PTo f) a = false ->
  walk 4 sizes a level counter (PTo f) = Ok (acc, PageFault l) -> missing 1 level (PTo f) a = (l - 1)%nat.
Proof.
  revert counter f acc. induction level as [|below IH]; intros counter f acc Hl Hf Hh Hw; [done|].
  destruct (entry_at _ _ a Hf) as (e & E & Hc). cbn [walk] in Hw. rewrite offset_at_4 in Hw by lia.
  cbn [mbind res_bind follow] in Hw. rewrite (proj2 (rd_Ok _ _ _) E) in Hw. cbn [mbind res_bind] in Hw.
  cbn [missing]. rewrite E. destruct (Nat.eqb_spec (S below) 1) as [E1|E1]; cbn [Nat.ltb Nat.leb].
  - assert (below = 0%nat) as -> by lia. destruct Hc as [(Hp & _)|(_ & ? & _)]; [|lia]. rewrite Hp in Hw. inv_res.
    destruct a0; inv_res; done.
  - destruct below as [|b]; [lia|]. cbn [huge_on_path] in Hh. rewrite E in Hh. apply orb_false_iff in Hh as [Hp Hh].
    rewrite Hp in Hw. cbn [mbind res_bind] in Hw. destruct Hc as [(? & _)|(_ & _ & Hn)]; [congruence|].
    destruct Hn as [[Hn _]|(g & Hn & Hg)]; rewrite Hn in Hw, Hh |- *.
    + injection Hw as _ <-. cbn [missing]. rewrite (proj2 (Nat.ltb_ge (S b) 1)) by lia. lia.
    + rewrite Nat.sub_succ, Nat.sub_0_r in Hg. destruct (walk 4 sizes a (S b) (S counter) (PTo g)) as [[rest r]|] eqn:Ew; cbn [mbind res_bind] in Hw; [|done].
      injection Hw as _ ->. eapply IH; [lia|done|done|exact Ew].
Qed.

Section initializeWalk.
Context {St : Type} (handler : PageTableRadix -> St -> res (PageTableRadix * St)).

(** Counting changes neither the tree nor the invariant. *)
Lemma count_walk_ok (b : bool) p : pt_ok p -> pt_ok (if b then count_walk p else p).
Proof. intros [? ? ? ? ?]. destruct b; split; cbn; done. Qed.

Lemma count_fault_ok p : pt_ok p -> pt_ok (count_fault p).
Proof. intros [? ? ? ? ?]. split; cbn; done. Qed.

Lemma count_discovery_ok (b : bool) l p :
  pt_ok p -> (1 <= l <= 2)%nat ->
  exists p', (if b then count_discovery l p else Ok p) = Ok p' /\ pt_ok p' /\ root p' = root p.
Proof.
  intros Hp Hl. destruct b; [|by exists p]. unfold count_discovery.
  assert (l - 1 < length (page_size_discovery (stats p)))%nat.
  { rewrite (pt_discovery _ Hp). destruct (pt_sizes _ Hp) as [k ->]. cbn [length]. lia. }
  destruct (rd_lookup (page_size_discovery (stats p)) (l - 1)) as (n & -> & _); [done|]. cbn [mbind res_bind].
  rewrite wr_lt by done. cbn [mbind res_bind]. eexists. split; [done|]. split; [|done].
  destruct Hp. split; cbn; rewrite ?length_insert; done.
Qed.

(** One pass over a table that translates the address. *)
Lemma walk_loop_hit fuel a count restart user visited flag p s ppn size :
  pt_ok p -> translate p a = Some (ppn, size) ->
  exists r p', walk_loop handler (S fuel) a count restart user visited flag p s = Ok (r, p', s) /\
    r_ppn r = ppn /\ page_size r = size /\ fault_happened r = flag /\ pt_ok p' /\ root p' = root p.
Proof.
  intros Hp Ht. cbn [walk_loop]. destruct (walk_translate p a Hp) as (acc & r & -> & Hr). rewrite Ht in Hr.
  destruct Hr as (l & -> & Hl). cbn [mbind res_bind].
  destruct (count_discovery_ok count l p Hp Hl) as (p' & -> & Hp' & Hs). cbn [mbind res_bind].
  do 2 eexists. split; [done|]. split_and!; try done. destruct Hp'. split; cbn; done.
Qed.

(** A walk without replay, with the tree it leaves. *)
Lemma single_walk fuel a count user p s :
  pt_ok p -> huge_in_way p a = false \/ translate p a <> None ->
  exists r p', initializeWalk handler (S fuel) a count false user p s = Ok (r, p', s) /\ pt_ok p' /\ root p' = root p /\
    match translate p a with
    | Some (ppn, size) => fault_happened r = false /\ r_ppn r = ppn /\ page_size r = size
    | None => fault_happened r = true /\ requested_frames r = missing_frames p 12 a
    end.
Proof.
  intros Hp Hh. unfold initializeWalk. pose proof (count_walk_ok count p Hp) as Hc. set (q := if count then count_walk p else p) in *.
  assert (Hroot : root q = root p) by (by destruct count). assert (Hq : forall a', translate q a' = translate p a').
  { intros a'. by rewrite !translate_find, Hroot by done. }
  destruct (translate p a) as [[ppn size]|] eqn:Ht.
  - destruct (walk_loop_hit fuel a count false user [] false q s ppn size Hc) as (r & p' & E & H1 & H2 & H3 & Hp' & Hs); [by rewrite Hq|].
    exists r, p'. split_and!; [done|done|congruence|done..].
  - destruct Hh as [Hh|Hh]; [|done]. cbn [walk_loop]. destruct (walk_translate q a Hc) as (acc & r & E & Hr). rewrite Hq, Ht in Hr.
    destruct Hr as (l & -> & Hl). rewrite E. cbn [mbind res_bind]. do 2 eexists. split; [done|]. split; [by apply count_fault_ok|].
    split; [exact Hroot|]. split; [done|]. cbn [requested_frames]. unfold missing_frames. cbn [Z.eqb Pos.eqb]. symmetry.
    rewrite (pt_levels _ Hc), Hroot in E. eapply fault_missing; [lia|apply Hp|exact Hh|exact E].
Qed.

(** A walk without replay terminates after one pass and reports what the table holds:
    the frame and size of a mapped page without a fault, and for an unmapped address a
    fault whose number of requested frames is exactly the number of page table frames
    that are missing for a 4 KB page; it changes counters only. *)
Theorem walk_reports_table fuel a count user p s :
  pt_ok p -> huge_in_way p a = false \/ translate p a <> None ->
  exists r p', initializeWalk handler (S fuel) a count false user p s = Ok (r, p', s) /\ pt_ok p' /\
    (forall a', translate p' a' = translate p a') /\
    match translate p a with
    | Some (ppn, size) => fault_happened r = false /\ r_ppn r = ppn /\ page_size r = size
    | None => fault_happened r = true /\ requested_frames r = missing_frames p 12 a
    end.
Proof.
  intros Hp Hh. destruct (single_walk fuel a count user p s Hp Hh) as (r & p' & E & Hp' & Hr & Hres).
  exists r, p'. split_and!; [done|done| |done]. intros a'. by apply translate_root.
Qed.

End initializeWalk.

(** A table without handler state, as in the walks that only inspect it. *)
Definition no_handler : PageTableRadix -> unit -> res (PageTableRadix * unit) := fun p s => Ok (p, s).

Lemma walk_reports_table_witness :
  exists r p', initializeWalk no_handler 1 0x7f0012345678 true false false pt4 tt = Ok (r, p', tt) /\ pt_ok p' /\
    (forall a', translate p' a' = translate pt4 a') /\
    match translate pt4 0x7f0012345678 with
    | Some (ppn, size) => fault_happened r = false /\ r_ppn r = ppn /\ page_size r = size
    | None => fault_happened r = true /\ requested_frames r = missing_frames pt4 12 0x7f0012345678
    end.
Proof.
  apply (walk_reports_table no_handler 0 0x7f0012345678 true false pt4 tt); [apply pt4_ok|left; vm_compute; reflexivity].
Defined.

(** Neither [deletePage] nor [updatePageTableFrames] clears [is_pte] on an entry of level
    2: after a 2 MB page was mapped and deleted, mapping a 4 KB page in the same region
    links a new frame into an entry that is still marked as a translation, and the next
    walk reads the valid bit from the low byte of that frame's address; while the 2 MB
    page is live, the same call follows its valid bit as a pointer. *)
Theorem deleted_huge_page_corrupts_table :
  match pt_exec_all pt4 [MapPage 0x40000000 512 21 [1; 2]; DeletePage 0x40000000; MapPage 0x40000000 77 12 [3; 4]] with
  | Ok p => initializeWalk no_handler 1 0x40000000 true false false p tt = Err BadCast
  | Err _ => False
  end /\
  pt_exec_all pt4 [MapPage 0x40000000 512 21 [1; 2]; MapPage 0x40000000 77 12 [3; 4]] = Err BadCast.
Proof. vm_compute. split; reflexivity. Qed.
