(* ===== verification/PageFault.v ===== *)
(** * Physical memory allocators and the page fault handler

    The base class [PhysicalMemoryAllocator], the [BaselineAllocator] over the buddy
    allocator ([include/memory_management/physical_memory_allocators/*.h]) and the
    [SniperExceptionHandler] ([common/system/memory_management/exception_handling/
    sniper_space_exception_handler.h/.cc]) that the page walks of PageTable call. The
    handler's theorems are proved against an interface of allocators, which the baseline
    allocator implements. The page table that the operating system holds for the faulting
    thread is the one being walked. *)

From Stdlib Require Import ZArith Lia.
From stdpp Require Import base tactics numbers gmap list.
From S2P Require Import Prelude Buddy PageTable.
Local Open Scope Z_scope.

(** ** The base class *)

Record PhysicalMemoryAllocator := mkPMA {
  pma_memory_size : Z;
  pma_kernel_size : Z;
  kernel_start_address : Z;
  kernel_end_address : Z;
  instruction_start_address : Z;
  instruction_current_address : Z;
  instruction_end_address : Z
}.

Definition PhysicalMemoryAllocator_new (memory_size kernel_size : Z) : PhysicalMemoryAllocator :=
  let kernel_end := u64 (u64 (kernel_size * 1024) * 1024) in
  mkPMA memory_size kernel_size 4096 kernel_end kernel_end kernel_end (u64 (kernel_end + 100 * 1024 * 1024)).

Definition set_kernel_start (k : Z) (a : PhysicalMemoryAllocator) : PhysicalMemoryAllocator :=
  mkPMA (pma_memory_size a) (pma_kernel_size a) k (kernel_end_address a)
    (instruction_start_address a) (instruction_current_address a) (instruction_end_address a).

Definition handle_page_table_allocations (bytes : Z) (a : PhysicalMemoryAllocator) : Z * PhysicalMemoryAllocator :=
  (kernel_start_address a / 4096, set_kernel_start (u64 (kernel_start_address a + bytes)) a).
Definition handle_page_table_deallocations (bytes : Z) (a : PhysicalMemoryAllocator) : PhysicalMemoryAllocator :=
  set_kernel_start (u64 (kernel_start_address a - bytes)) a.
Definition handle_fine_grained_page_table_allocations (bytes : Z) (a : PhysicalMemoryAllocator)
  : Z * PhysicalMemoryAllocator :=
  (kernel_start_address a, set_kernel_start (u64 (kernel_start_address a + bytes)) a).

Definition allocateInstruction (size : Z) (a : PhysicalMemoryAllocator) : Z * Z * PhysicalMemoryAllocator :=
  if instruction_end_address a <? u64 (instruction_current_address a + size) then (2 ^ 64 - 1, 12, a)
  else (instruction_current_address a / 4096, 12,
        mkPMA (pma_memory_size a) (pma_kernel_size a) (kernel_start_address a) (kernel_end_address a)
          (instruction_start_address a) (u64 (instruction_current_address a + size)) (instruction_end_address a)).

(** ** The baseline allocator *)

Record BaselineAllocator := mkBaseline {
  pma : PhysicalMemoryAllocator;
  buddy_allocator : Buddy;
  total_allocations : Z
}.

Definition BaselineAllocator_new (memory_size : Z) (max_order : nat) (kernel_size : Z) : res BaselineAllocator :=
  b ← Buddy_new memory_size max_order kernel_size;
  Ok (mkBaseline (PhysicalMemoryAllocator_new memory_size kernel_size) b 0).

(** [buddy_allocator->allocate], its -1 as the unsigned value of all ones. *)
Definition buddy_allocate (bytes : Z) (a : BaselineAllocator) : res (Z * BaselineAllocator) :=
  '(o, b) ← Buddy.allocate (buddy_allocator a) bytes;
  Ok (default (2 ^ 64 - 1) o, mkBaseline (pma a) b (total_allocations a)).

Definition baseline_allocate (bytes address core_id : Z) (is_pagetable_alloc is_instruction_alloc : bool)
    (a : BaselineAllocator) : res (Z * Z * BaselineAllocator) :=
  let a := mkBaseline (pma a) (buddy_allocator a) (u64 (total_allocations a + 1)) in
  if is_pagetable_alloc then '(phys, a) ← buddy_allocate bytes a; Ok (phys, 12, a)
  else if is_instruction_alloc then
    let '(phys, size, p) := allocateInstruction bytes (pma a) in
    Ok (phys, size, mkBaseline p (buddy_allocator a) (total_allocations a))
  else '(phys, a) ← buddy_allocate bytes a; Ok (phys, 12, a).

Definition givePageFast (bytes : Z) (a : BaselineAllocator) : res (Z * BaselineAllocator) := buddy_allocate bytes a.

(** ** The interface of the handler *)

(** The virtual functions the handler calls, through a pointer to the base class: the
    one-argument [handle_page_table_allocations] of the baseline allocator hides the base
    class's function but does not override it. *)
Class Allocator (A : Type) := {
  al_allocate : Z -> Z -> Z -> bool -> bool -> A -> res (Z * Z * A);
  al_pt_allocate : Z -> Z -> A -> Z * A;
  al_pt_deallocate : Z -> A -> A
}.

#[global] Instance baseline_allocator : Allocator BaselineAllocator := {|
  al_allocate := baseline_allocate;
  al_pt_allocate bytes core_id a :=
    let '(f, p) := handle_page_table_allocations bytes (pma a) in
    (f, mkBaseline p (buddy_allocator a) (total_allocations a));
  al_pt_deallocate bytes a :=
    mkBaseline (handle_page_table_deallocations bytes (pma a)) (buddy_allocator a) (total_allocations a)
|}.

(** What an allocator of 4 KB pages promises: a pointer to the next page table frame, the
    set of pages that are free for data, and an invariant. *)
Class BasePageAllocator (A : Type) `{!Allocator A} := {
  kernel_ptr : A -> Z;
  page_free : A -> Z -> Prop;
  al_ok : A -> Prop;
  page_range a q : al_ok a -> page_free a q -> 0 <= q < 2 ^ 52;
  allocate_law a address core :
    al_ok a ->
    exists ppn a', al_allocate 4096 address core false false a = Ok (ppn, 12, a') /\ al_ok a' /\ kernel_ptr a' = kernel_ptr a /\
      ((ppn = 2 ^ 64 - 1 /\ forall q, ~ page_free a q) \/
       (page_free a ppn /\ ppn <> 2 ^ 64 - 1 /\ forall q, page_free a' q <-> page_free a q /\ q <> ppn));
  pt_allocate_law a core :
    al_ok a -> (al_pt_allocate 4096 core a).1 = kernel_ptr a / 4096 /\ al_ok (al_pt_allocate 4096 core a).2 /\
      kernel_ptr (al_pt_allocate 4096 core a).2 = u64 (kernel_ptr a + 4096) /\
      forall q, page_free (al_pt_allocate 4096 core a).2 q <-> page_free a q;
  pt_deallocate_law a :
    al_ok a -> al_ok (al_pt_deallocate 4096 a) /\ kernel_ptr (al_pt_deallocate 4096 a) = u64 (kernel_ptr a - 4096) /\
      forall q, page_free (al_pt_deallocate 4096 a) q <-> page_free a q
}.

(** ** The handler *)

Section handler.
Context {A : Type} `{!Allocator A}.

(** The loop that asks for page table frames. *)
Fixpoint frame_loop (n : nat) (core_id : Z) (a : A) : res (list Z * A) :=
  match n with
  | O => Ok ([], a)
  | S n =>
      let '(frame, a) := al_pt_allocate 4096 core_id a in
      check (negb (frame =? 2 ^ 64 - 1)) AssertFailed;;
      '(frames, a) ← frame_loop n core_id a;
      Ok (frame :: frames, a)
  end.

Definition give_back (n : nat) (a : A) : A := Nat.iter n (al_pt_deallocate 4096) a.

Definition allocate_page_table_frames (address core_id ppn page_size : Z) (num_requested_frames : nat)
    (p : PageTableRadix) (a : A) : res (PageTableRadix * A) :=
  '(frames, a) ← frame_loop num_requested_frames core_id a;
  '(frames_used, p) ← updatePageTableFrames address ppn page_size frames p;
  Ok (p, give_back (num_requested_frames - frames_used) a).

Record FaultCtx := mkCtx { vpn : Z; metadata_frames : nat; is_instruction : bool }.
Definition initFaultCtx (address : Z) (requested_frames : nat) (is_instruction : bool) : FaultCtx :=
  mkCtx (Z.shiftr address 12) requested_frames is_instruction.

Definition handle_page_fault (core_id : Z) (ctx : FaultCtx) (p : PageTableRadix) (a : A) : res (PageTableRadix * A) :=
  let address := u64 (Z.shiftl (vpn ctx) 12) in
  '(ppn, page_size, a) ← al_allocate 4096 address core_id false (is_instruction ctx) a;
  allocate_page_table_frames address core_id ppn page_size (metadata_frames ctx) p a.

(** The handler a walk of [address] calls. *)
Definition on_fault (core_id address : Z) (p : PageTableRadix) (a : A) : res (PageTableRadix * A) :=
  handle_page_fault core_id (initFaultCtx address (levels p) false) p a.

End handler.

(** ** Addresses of pages *)

(** The handler works on the first address of the page. *)
Definition page_base (a : Z) : Z := u64 (Z.shiftl (Z.shiftr a 12) 12).

Lemma page_base_bits a i : 12 <= i < 64 -> Z.testbit (page_base a) i = Z.testbit a i.
Proof.
  intros H. unfold page_base, wrap. rewrite Z.mod_pow2_bits_low, Z.shiftl_spec, Z.shiftr_spec by lia. f_equal. lia.
Qed.

Lemma idx_page_base l a : (1 <= l <= 4)%nat -> idx l (page_base a) = idx l a.
Proof. intros H. apply idx_bits. intros i Hi. apply page_base_bits. lia. Qed.

Lemma page_base_vpn a : in_range 64 a -> Z.shiftr (page_base a) 12 = Z.shiftr a 12.
Proof.
  intros Ha. apply Z.bits_inj'. intros i Hi. rewrite !Z.shiftr_spec by done. destruct (decide (i + 12 < 64)).
  - apply page_base_bits. lia.
  - assert (in_range 64 (page_base a)) as Hb by (apply wrap_range; lia).
    by rewrite (proj1 (in_range_bits 64 _ ltac:(lia)) Hb), (proj1 (in_range_bits 64 _ ltac:(lia)) Ha) by lia.
Qed.

Lemma update_at_ext a b ppn size level current frames :
  (level <= 4)%nat -> (forall l, (1 <= l <= 4)%nat -> idx l b = idx l a) ->
  update_at 4 512 b ppn size level current frames = update_at 4 512 a ppn size level current frames.
Proof.
  intros Hl H. revert current frames. induction level as [|below IH]; intros current frames; [done|]. cbn [update_at].
  rewrite !offset_at_4, H by lia. cbn [mbind res_bind]. destruct (match current with PNull => _ | _ => _ end) as [[[f fr] u]|]; [|done].
  cbn [mbind res_bind]. destruct (rd _ _) as [e|]; [|done]. cbn [mbind res_bind]. rewrite IH by lia. done.
Qed.

Lemma update_page_base p a ppn size frames :
  pt_ok p -> in_range 64 a ->
  updatePageTableFrames (page_base a) ppn size frames p = updatePageTableFrames a ppn size frames p.
Proof.
  intros Hp Ha. unfold updatePageTableFrames. rewrite (pt_levels _ Hp), (pt_frame_size _ Hp), page_base_vpn by done.
  rewrite (update_at_ext a) by (by auto using idx_page_base). done.
Qed.

Lemma missing_le leaf level current a : (1 <= leaf)%nat -> (missing leaf level current a <= level)%nat.
Proof.
  intros Hl. revert current. induction level as [|below IH]; intros current; [done|]. cbn [missing].
  destruct (Nat.ltb_spec (S below) leaf); [lia|]. destruct current as [|f|]; [lia| |lia].
  destruct (S below =? leaf)%nat; [lia|]. destruct (entries f !! _) as [e|]; [|lia]. specialize (IH (next_level e)). lia.
Qed.

(** Without large pages every translation is of 4 KB. *)
Lemma find_small level f a q l :
  huge_on_path level (PTo f) a = false -> find level (PTo f) a = Some (q, l) -> l = 1%nat.
Proof.
  revert f. induction level as [|below IH]; intros f Hh Hf; [done|]. cbn [find] in Hf.
  destruct (entries f !! idx (S below) a) as [e|] eqn:E; [|done]. cbn [mbind option_bind] in Hf.
  destruct below as [|b].
  - destruct (is_pte e); [|done]. destruct (data e) as [|g|[] c]; try done. destruct (e_ppn e); [|done]. by injection Hf as _ <-.
  - cbn [huge_on_path] in Hh. rewrite E in Hh. apply orb_false_iff in Hh as [Hp Hh]. rewrite Hp in Hf.
    destruct (next_level e) as [|g|]; [done| |done]. exact (IH g Hh Hf).
Qed.

Lemma translate_small p v n s : pt_ok p -> huge_in_way p v = false -> translate p v = Some (n, s) -> s = 12.
Proof.
  intros Hp Hh. rewrite translate_find by done. destruct (find 4 (PTo (root p)) v) as [[q l]|] eqn:E; [|done].
  apply find_small in E as ->; [|done]. by intros [= _ <-].
Qed.

(** ** The handler's promises *)

Section faults.
Context {A : Type} `{!Allocator A} `{!BasePageAllocator A}.
Implicit Types (a : A) (v core : Z).

Lemma frame_loop_spec n core a :
  al_ok a -> 0 <= kernel_ptr a -> kernel_ptr a + 4096 * Z.of_nat n < 2 ^ 64 ->
  exists frames a', frame_loop n core a = Ok (frames, a') /\ length frames = n /\ al_ok a' /\
    kernel_ptr a' = kernel_ptr a + 4096 * Z.of_nat n /\ forall q, page_free a' q <-> page_free a q.
Proof.
  revert a. induction n as [|n IH]; intros a Ha H0 Hk; [exists [], a; split_and!; [done..|lia|done]|]. cbn [frame_loop].
  destruct (pt_allocate_law a core Ha) as (Ef & Ha1 & Ek & Hf). destruct (al_pt_allocate 4096 core a) as [f a1]. cbn [fst snd] in *.
  rewrite wrap_small in Ek by (unfold in_range; lia).
  assert (f <> 2 ^ 64 - 1). { rewrite Ef. assert (kernel_ptr a / 4096 <= 2 ^ 52) by (apply Z.div_le_upper_bound; lia). lia. }
  rewrite (proj2 (Z.eqb_neq f _)) by done. cbn [negb check mbind res_bind].
  destruct (IH a1 Ha1) as (fs & a2 & E & Hl & Ha2 & Ek2 & Hf2); [lia|lia|]. rewrite E. cbn [mbind res_bind].
  do 2 eexists. split_and!; [done|cbn; lia|done|lia|]. intros q. by rewrite Hf2, Hf.
Qed.

Lemma give_back_spec n a :
  al_ok a -> 4096 * Z.of_nat n <= kernel_ptr a < 2 ^ 64 ->
  al_ok (give_back n a) /\ kernel_ptr (give_back n a) = kernel_ptr a - 4096 * Z.of_nat n /\
  forall q, page_free (give_back n a) q <-> page_free a q.
Proof.
  intros Ha. induction n as [|n IH]; intros Hk; [split_and!; [done|change (give_back 0 a) with a; lia|done]|].
  destruct IH as (Hn & Ek & Hf); [lia|]. change (give_back (S n) a) with (al_pt_deallocate 4096 (give_back n a)).
  destruct (pt_deallocate_law (give_back n a) Hn) as (? & Ek' & Hf'). split_and!; [done| |].
  - rewrite Ek', wrap_small by (unfold in_range; lia). lia.
  - intros q. by rewrite Hf', Hf.
Qed.

(** The page table and the allocator agree: no page in use is free and no two pages share a
    frame. All pages are of 4 KB. *)
Record os_ok (p : PageTableRadix) (a : A) : Prop := {
  os_table : pt_ok p;
  os_allocator : al_ok a;
  os_small v : huge_in_way p v = false;
  os_used v ppn size : translate p v = Some (ppn, size) -> ~ page_free a ppn;
  os_range v ppn size : translate p v = Some (ppn, size) -> 0 <= ppn < 2 ^ 52;
  os_injective v v' ppn size size' :
    translate p v = Some (ppn, size) -> translate p v' = Some (ppn, size') -> page_number 12 v = page_number 12 v'
}.

(** Updating with the page number of an exhausted memory. *)
Lemma update_exhausted_table p v frames :
  pt_ok p -> huge_in_way p v = false -> (missing_frames p 12 v <= length frames)%nat ->
  exists p', updatePageTableFrames v (2 ^ 64 - 1) 12 frames p = Ok (missing_frames p 12 v, p') /\ levels p' = 4%nat /\
    walk 4 (m_page_size_list p') v 4 0 (PTo (root p')) = Err LogError.
Proof.
  intros Hp Hh Hm. destruct (update_exhausted (m_page_size_list p) v 4 0 (PTo (root p)) frames) as (f & Ef & Hw);
    [lia|apply Hp|done|done|].
  unfold updatePageTableFrames. rewrite (pt_levels _ Hp), (pt_frame_size _ Hp), Ef. cbn [mbind res_bind follow].
  eexists. split; [done|]. split; [apply Hp|exact Hw].
Qed.

(** A handled fault with enough requested frames: the frames used are the missing ones, the
    others are given back. *)
Lemma data_fault_spec core v n p a :
  os_ok p a -> in_range 64 v -> (missing_frames p 12 v <= n)%nat -> 0 <= kernel_ptr a ->
  kernel_ptr a + 4096 * Z.of_nat n < 2 ^ 64 ->
  exists ppn p' a', handle_page_fault core (initFaultCtx v n false) p a = Ok (p', a') /\ levels p' = 4%nat /\ al_ok a' /\
    kernel_ptr a' = kernel_ptr a + 4096 * Z.of_nat (missing_frames p 12 v) /\
    ((ppn = 2 ^ 64 - 1 /\ (forall q, ~ page_free a q) /\ walk 4 (m_page_size_list p') v 4 0 (PTo (root p')) = Err LogError) \/
     (page_free a ppn /\ (forall q, page_free a' q <-> page_free a q /\ q <> ppn) /\ pt_ok p' /\
      (forall v', huge_in_way p' v' = false) /\
      (forall v', translate p' v' = if page_number 12 v =? page_number 12 v' then Some (ppn, 12) else translate p v'))).
Proof.
  intros [Hp Ha Hs Hu Hr Hi] Hv Hle H0 Hk. unfold handle_page_fault, initFaultCtx. cbn [vpn metadata_frames is_instruction].
  fold (page_base v).
  destruct (allocate_law a (page_base v) core Ha) as (ppn & a1 & E1 & Ha1 & Ek1 & Hcase). rewrite E1. cbn [mbind res_bind].
  unfold allocate_page_table_frames. destruct (frame_loop_spec n core a1 Ha1) as (fs & a2 & E2 & Hl & Ha2 & Ek2 & Hf2); [lia|lia|].
  rewrite E2. cbn [mbind res_bind]. rewrite update_page_base by done. exists ppn.
  destruct (give_back_spec (n - missing_frames p 12 v) a2 Ha2) as (Ha3 & Ek3 & Hf3); [lia|].
  destruct Hcase as [[-> Hfree]|(Hfree & Hn & Hall)].
  - destruct (update_exhausted_table p v fs Hp (Hs v)) as (p' & E & Hlv & Hw); [lia|]. rewrite E. cbn [mbind res_bind].
    do 2 eexists. split_and!; [done|done|done|lia|]. by left.
  - destruct (update_page_spec p 12 v ppn fs Hp) as (p' & E & Hp' & Hin & Hout & Hkeep); [by left|done|done|lia|].
    rewrite E. cbn [mbind res_bind]. do 2 eexists. split_and!; [done|apply Hp'|done|lia|]. right. split_and!; [done| |done|intros; by apply Hkeep|].
    + intros q. by rewrite Hf3, Hf2, Hall.
    + intros v'. destruct (Z.eqb_spec (page_number 12 v) (page_number 12 v')); auto.
Qed.

Lemma missing_frames_le p v : (missing_frames p 12 v <= 4)%nat.
Proof. apply (missing_le 1 4 (PTo (root p)) v). lia. Qed.

(** The agreement survives the mapping of a page that was free. *)
Lemma os_ok_map p p' a a' v ppn :
  os_ok p a -> al_ok a' -> pt_ok p' -> page_free a ppn -> (forall q, page_free a' q <-> page_free a q /\ q <> ppn) ->
  (forall v', huge_in_way p' v' = false) ->
  (forall v', translate p' v' = if page_number 12 v =? page_number 12 v' then Some (ppn, 12) else translate p v') ->
  os_ok p' a'.
Proof.
  intros [Hp Ha Hs Hu Hrg Hi] Ha' Hp' Hf Hall Hh Ht. split; [done..| | |].
  - intros v' n size Hv Hn. apply Hall in Hn as [Hn Hne]. rewrite Ht in Hv. destruct (_ =? _); [congruence|]. by eapply Hu.
  - intros v' n size Hv. rewrite Ht in Hv. destruct (_ =? _); [|by eapply Hrg]. injection Hv as <- <-. by apply (page_range a).
  - intros v1 v2 n s1 s2 H1 H2. rewrite Ht in H1, H2.
    destruct (Z.eqb_spec (page_number 12 v) (page_number 12 v1)) as [E1|E1], (Z.eqb_spec (page_number 12 v) (page_number 12 v2)) as [E2|E2];
      [congruence| | |by eapply Hi].
    + injection H1 as <- <-. by apply Hu in H2.
    + injection H2 as <- <-. by apply Hu in H1.
Qed.

Lemma page_fault_spec fuel core v count p a :
  os_ok p a -> in_range 64 v -> translate p v = None -> 0 <= kernel_ptr a -> kernel_ptr a + 4096 * 4 < 2 ^ 64 ->
  match initializeWalk (on_fault core v) (S (S fuel)) v count true false p a with
  | Ok (r, p', a') =>
      os_ok p' a' /\ fault_happened r = true /\ page_size r = 12 /\ page_free a (r_ppn r) /\
      kernel_ptr a' = kernel_ptr a + 4096 * Z.of_nat (missing_frames p 12 v) /\
      forall v', translate p' v' = if page_number 12 v =? page_number 12 v' then Some (r_ppn r, 12) else translate p v'
  | Err f => f = LogError /\ forall q, ~ page_free a q
  end.
Proof.
  intros Hos Hv Ht H0 Hk. unfold initializeWalk. set (p0 := if count then count_walk p else p).
  pose proof (os_table _ _ Hos) as Hp. pose proof (count_walk_ok count p Hp) as Hp0. fold p0 in Hp0.
  assert (Hroot : root p0 = root p) by (by unfold p0; destruct count).
  assert (Hs0 : forall v', translate p0 v' = translate p v') by (intros; by apply translate_root).
  assert (Hos0 : os_ok p0 a).
  { destruct Hos as [_ Ha Hs Hu Hr Hi]. split; [done|done| | | |]; intros *; rewrite ?Hs0; [|by apply Hu|by apply Hr|by apply Hi].
    unfold huge_in_way. rewrite Hroot. apply Hs. }
  assert (Hm0 : missing_frames p0 12 v = missing_frames p 12 v) by (unfold missing_frames; by rewrite Hroot).
  remember (S fuel) as fuel1 eqn:Ef1. cbn [walk_loop]. destruct (walk_translate p0 v Hp0) as (acc & r & -> & Hr). rewrite Hs0, Ht in Hr.
  destruct Hr as (l & -> & _). cbn [mbind res_bind negb check].
  pose proof (missing_frames_le p0 v) as Hle. change (on_fault core v p0 a) with (handle_page_fault core (initFaultCtx v (levels p0) false) p0 a). rewrite (pt_levels _ Hp0).
  destruct (data_fault_spec core v 4 p0 a Hos0 Hv Hle H0 Hk) as (ppn & p1 & a1 & E & Hlv & Ha1 & Ek & Hcase). rewrite E. cbn [mbind res_bind].
  destruct Hcase as [(_ & Hfree & Hw)|(Hfree & Hall & Hp1 & Hh & Hmap)]; subst fuel1.
  - cbn [walk_loop]. change (root (count_fault p1)) with (root p1). change (levels (count_fault p1)) with (levels p1).
    change (m_page_size_list (count_fault p1)) with (m_page_size_list p1). rewrite Hlv, Hw. done.
  - pose proof (count_fault_ok p1 Hp1) as Hp2. assert (Hs2 : forall v', translate (count_fault p1) v' = translate p1 v') by done.
    destruct (walk_loop_hit (on_fault core v) fuel v count true false ([] ++ acc) true (count_fault p1) a1 ppn 12 Hp2) as (r & p3 & -> & Hr & Hsz & Hfl & Hp3 & Hroot3).
    { by rewrite Hs2, Hmap, Z.eqb_refl. }
    assert (Hs3 : forall v', translate p3 v' = if page_number 12 v =? page_number 12 v' then Some (ppn, 12) else translate p v').
    { intros v'. rewrite (translate_root p3 (count_fault p1)), Hs2, Hmap, Hs0 by done. done. }
    rewrite Hr. split_and!; [|done|done|done|by rewrite Ek, Hm0|done].
    eapply (os_ok_map p p3 a a1 v ppn); [done..| |done]. intros v'. unfold huge_in_way. rewrite Hroot3. apply Hh.
Qed.

(** An access to any address keeps the agreement, maps the address and keeps all mappings. *)
Lemma walk_total fuel core v count p a :
  os_ok p a -> in_range 64 v -> 0 <= kernel_ptr a -> kernel_ptr a + 4096 * 4 < 2 ^ 64 ->
  match initializeWalk (on_fault core v) (S (S fuel)) v count true false p a with
  | Ok (r, p', a') =>
      os_ok p' a' /\ kernel_ptr a <= kernel_ptr a' <= kernel_ptr a + 4096 * 4 /\ translate p' v = Some (r_ppn r, page_size r) /\
      forall v' x, translate p v' = Some x -> translate p' v' = Some x
  | Err f => f = LogError /\ forall q, ~ page_free a q
  end.
Proof.
  intros Hos Hv H0 Hk. destruct (translate p v) as [[ppn size]|] eqn:Ht.
  - unfold initializeWalk. set (p0 := if count then count_walk p else p) in *.
    pose proof (os_table _ _ Hos) as Hp. pose proof (count_walk_ok count p Hp) as Hp0. fold p0 in Hp0.
    assert (Hroot : root p0 = root p) by (by unfold p0; destruct count).
    destruct (walk_loop_hit (on_fault core v) (S fuel) v count true false [] false p0 a ppn size Hp0) as (r' & p1 & -> & Hn & Hsz & _ & Hp1 & Hr1).
    { by rewrite (translate_root p0 p). }
    assert (Hs : forall v', translate p1 v' = translate p v') by (intros v'; apply translate_root; [done|done|congruence]).
    split_and!; [|lia|lia|rewrite Hs, Ht; congruence|intros v' x; by rewrite Hs].
    destruct Hos as [_ Ha Hh Hu Hr Hi]. split; [done|done| | | |]; intros *; rewrite ?Hs; [|by apply Hu|by apply Hr|by apply Hi].
    unfold huge_in_way. rewrite Hr1, Hroot. apply Hh.
  - pose proof (page_fault_spec fuel core v count p a Hos Hv Ht H0 Hk) as H.
    destruct (initializeWalk _ _ _ _ _ _ _ _) as [[[r p'] a']|]; [|done].
    destruct H as (Hos' & _ & Hsz & _ & Ek & Hmap). pose proof (missing_frames_le p v) as Hle.
    split_and!; [done|lia|lia|rewrite Hmap, Z.eqb_refl; congruence|]. intros v' x Hx. rewrite Hmap.
    destruct (Z.eqb_spec (page_number 12 v) (page_number 12 v')) as [E|]; [|done].
    by rewrite (translate_same_page p v v' (os_table _ _ Hos) E), Hx in Ht.
Qed.

Lemma walk_step fuel core v count p a r p' a' :
  os_ok p a -> in_range 64 v -> 0 <= kernel_ptr a -> kernel_ptr a + 4096 * 4 < 2 ^ 64 ->
  initializeWalk (on_fault core v) (S (S fuel)) v count true false p a = Ok (r, p', a') ->
  os_ok p' a' /\ kernel_ptr a <= kernel_ptr a' <= kernel_ptr a + 4096 * 4 /\ is_Some (translate p' v) /\
  forall v' x, translate p v' = Some x -> translate p' v' = Some x.
Proof.
  intros Hos Hv H0 Hk H. pose proof (walk_total fuel core v count p a Hos Hv H0 Hk) as W. rewrite H in W.
  destruct W as (? & ? & E & ?). split_and!; [done|lia|lia|by eexists|done].
Qed.

(** A sequence of accesses by a core, each a counted walk with replay after a fault. *)
Fixpoint run_walks (core : Z) (vs : list Z) (p : PageTableRadix) (a : A) : res (PageTableRadix * A) :=
  match vs with
  | [] => Ok (p, a)
  | v :: vs => '(_, p, a) ← initializeWalk (on_fault core v) 2 v true true false p a; run_walks core vs p a
  end.

Lemma run_walks_spec core vs p a p' a' :
  os_ok p a -> Forall (in_range 64) vs -> 0 <= kernel_ptr a -> kernel_ptr a + 4096 * 4 * Z.of_nat (length vs) < 2 ^ 64 ->
  run_walks core vs p a = Ok (p', a') ->
  os_ok p' a' /\ (forall v, v ∈ vs -> is_Some (translate p' v)) /\ forall v' x, translate p v' = Some x -> translate p' v' = Some x.
Proof.
  revert p a. induction vs as [|v vs IH]; intros p a Hos Hv H0 Hk H; cbn [run_walks] in H.
  { injection H as <- <-. split_and!; [done| |done]. intros v Hin. by apply not_elem_of_nil in Hin. }
  apply Forall_cons in Hv as [Hv Hvs]. cbn [length] in Hk.
  destruct (initializeWalk _ _ _ _ _ _ _ _) as [[[r p1] a1]|] eqn:E; cbn [mbind res_bind] in H; [|done].
  destruct (walk_step 0 core v true p a r p1 a1 Hos Hv H0 ltac:(lia) E) as (Hos1 & Hk1 & [x Hx] & Hm1).
  destruct (IH p1 a1 Hos1 Hvs ltac:(lia) ltac:(lia) H) as (Hos2 & Hin & Hm2).
  split_and!; [done| |by auto]. intros v' [-> |Hv']%elem_of_cons; [rewrite (Hm2 _ _ Hx); eauto|by apply Hin].
Qed.

(** C18: A page fault is resolved in one replay of the walk: for an unmapped address, the walk
    calls the handler once and, if memory is left, returns the frame of a page that was
    free, marked as a fault; afterwards that page alone is mapped to it, no two virtual
    pages share a frame, no mapped frame is free, and exactly the missing page table
    frames were taken from the kernel area, the rest being given back. If no page is
    free the simulator stops with an error. *)
Theorem page_fault_resolved fuel core v count p a :
  os_ok p a -> in_range 64 v -> translate p v = None -> 0 <= kernel_ptr a -> kernel_ptr a + 4096 * 4 < 2 ^ 64 ->
  match initializeWalk (on_fault core v) (S (S fuel)) v count true false p a with
  | Ok (r, p', a') =>
      os_ok p' a' /\ fault_happened r = true /\ page_size r = 12 /\ page_free a (r_ppn r) /\
      kernel_ptr a' = kernel_ptr a + 4096 * Z.of_nat (missing_frames p 12 v) /\
      forall v', translate p' v' = if page_number 12 v =? page_number 12 v' then Some (r_ppn r, 12) else translate p v'
  | Err f => f = LogError /\ forall q, ~ page_free a q
  end.
Proof. apply page_fault_spec. Qed.

End faults.

(** ** The baseline allocator keeps the promises *)

#[global] Program Instance baseline_base_pages : BasePageAllocator BaselineAllocator := {|
  kernel_ptr a := kernel_start_address (pma a);
  page_free a q := cover (free_list (buddy_allocator a)) q = 1%nat;
  al_ok a := buddy_wf (buddy_allocator a) /\ forall q, cover (free_list (buddy_allocator a)) q = 1%nat -> 0 <= q < 2 ^ 52
|}.
Next Obligation. intros a q [_ H]. apply H. Qed.
Next Obligation.
  intros a address core [[Hl Hd] Hrange]. cbn [al_allocate baseline_allocator]. unfold baseline_allocate, buddy_allocate. cbn [buddy_allocator].
  destruct (allocate_spec (buddy_allocator a) 4096 0 Hl) as [(start & l & E & Hl' & Hr & Hr' & Hc)|[E Hn]]; [done|lia| |];
    rewrite E; cbn [mbind res_bind from_option id]; do 2 eexists; (split; [done|]); cbn [pma buddy_allocator].
  - assert (Hc' : forall q, cover (free_list (buddy_allocator a)) q = ((if decide (q = start) then 1 else 0) + cover l q)%nat).
    { intros q. rewrite Hc. change (pages 0) with 1. f_equal. unfold within.
      destruct (decide (q = start)), (Z.leb_spec start q), (Z.leb_spec q (start + 1 - 1)); cbn; lia. }
    assert (Hd' : forall q, (cover l q <= 1)%nat) by (intros q; specialize (Hd q); rewrite Hc' in Hd; lia).
    split; [split; [split; [exact Hl'|exact Hd']|]|].
    { intros q Hq. apply Hrange. cbn [free_list set_free set_lists buddy_allocator] in Hq. specialize (Hd q). rewrite Hc' in Hd |- *. lia. }
    split; [done|]. right. change (pages 0) with 1 in Hr'. split_and!; [|unfold id; lia|].
    + specialize (Hd start). rewrite Hc' in Hd |- *. rewrite decide_True in Hd |- * by done. lia.
    + intros q. cbn [free_list set_free set_lists]. specialize (Hd q). rewrite Hc' in Hd |- *. case_decide; [subst; split; [lia|intros [_ ?]; done]|].
      split; [intros; split; [lia|done]|intros [? _]; lia].
  - split; [split; [split; [exact Hl|exact Hd]|exact Hrange]|]. split; [done|]. left. split; [done|]. intros q Hq.
    enough (cover (free_list (buddy_allocator a)) q = 0%nat) by lia. unfold cover.
    replace (concat (free_list (buddy_allocator a))) with (@nil block); [done|]. symmetry. apply concat_nil_Forall, Forall_lookup.
    intros i f Hf. destruct Hl as (_ & _ & Hi). specialize (Hi i f Hf). case_decide; [|done].
    specialize (Hn i ltac:(lia)). congruence.
Qed.
Next Obligation. intros a core Ha. done. Qed.
Next Obligation. intros a Ha. done. Qed.

(** ** A machine with the baseline allocator *)

Lemma pt4_empty v : translate pt4 v = None.
Proof. rewrite translate_find by apply pt4_ok. unfold pt4, PageTableRadix_new. cbn [root]. by rewrite find_empty. Qed.

Lemma pt4_small v : huge_in_way pt4 v = false.
Proof.
  unfold huge_in_way, pt4, PageTableRadix_new. cbn [root huge_on_path entries empty_frame].
  rewrite lookup_replicate_2 by apply idx_lt. done.
Qed.

(** A new process on a machine whose memory was just initialised. *)
Lemma os_ok_new memory max_order kernel a :
  0 <= kernel <= memory -> memory < 2 ^ 31 -> (max_order <= 60)%nat -> BaselineAllocator_new memory max_order kernel = Ok a ->
  os_ok pt4 a /\ kernel_ptr a = 4096.
Proof.
  intros Hk Hm Ho. unfold BaselineAllocator_new. destruct (Buddy_new_spec memory max_order kernel Hk Hm Ho) as (b & -> & Hb & _ & _ & Hc).
  intros [= <-]. split; [|done]. split; [apply pt4_ok| |apply pt4_small| | |]; try (intros *; rewrite pt4_empty; done).
  split; [exact Hb|]. intros q. cbn [buddy_allocator]. rewrite Hc. unfold within.
  destruct (Z.leb_spec (kernel * 256) q), (Z.leb_spec q (memory * 256 - 1)); cbn [andb]; intros; lia.
Qed.

Definition machine16 : BaselineAllocator :=
  match BaselineAllocator_new 16 10 1 with Ok a => a | Err _ => mkBaseline (PhysicalMemoryAllocator_new 16 1) buddy16 0 end.
Lemma machine16_ok : os_ok pt4 machine16.
Proof.
  unfold machine16. destruct (BaselineAllocator_new 16 10 1) as [a|] eqn:E.
  - apply (proj1 (os_ok_new 16 10 1 a ltac:(lia) ltac:(lia) ltac:(lia) E)).
  - exfalso. revert E. unfold BaselineAllocator_new. by destruct (Buddy_new_spec 16 10 1) as (b & -> & _); [lia|lia|lia|].
Qed.

Lemma machine16_kernel : kernel_ptr machine16 = 4096.
Proof. reflexivity. Qed.

Lemma page_fault_resolved_witness :
  match initializeWalk (on_fault 0 0x7f0012345678) 2 0x7f0012345678 true true false pt4 machine16 with
  | Ok (r, p', a') =>
      os_ok p' a' /\ fault_happened r = true /\ page_size r = 12 /\ page_free machine16 (r_ppn r) /\
      kernel_ptr a' = kernel_ptr machine16 + 4096 * Z.of_nat (missing_frames pt4 12 0x7f0012345678) /\
      forall v', translate p' v' = if page_number 12 0x7f0012345678 =? page_number 12 v' then Some (r_ppn r, 12) else translate pt4 v'
  | Err f => f = LogError /\ forall q, ~ page_free machine16 q
  end.
Proof.
  apply (page_fault_resolved 0 0 0x7f0012345678 true pt4 machine16); [apply machine16_ok|split; lia|apply pt4_empty|..];
    rewrite machine16_kernel; lia.
Defined.

(** The page table frames of the first fault come from the start of the kernel area. *)
Example first_fault :
  match initializeWalk (on_fault 0 0x7f0012345678) 2 0x7f0012345678 true true false pt4 machine16 with
  | Ok (r, _, a) => (r_ppn r, page_size r, depth <$> accesses r, kernel_start_address (pma a)) =
                    (4095, 12, [0; 0; 1; 2; 3]%nat, 4096 + 3 * 4096)
  | Err _ => False
  end.
Proof. vm_compute. reflexivity. Qed.

(** C24: Isolation of virtual pages: on a machine with the baseline allocator, after any
    sequence of accesses that did not run out of memory, every address accessed is
    mapped, and two accessed addresses have the same physical page exactly when they lie
    in the same virtual page. *)
Theorem baseline_pages_isolated memory max_order kernel core vs a p' a' v v' :
  0 <= kernel <= memory -> memory < 2 ^ 31 -> (max_order <= 60)%nat -> BaselineAllocator_new memory max_order kernel = Ok a ->
  Forall (in_range 64) vs -> Z.of_nat (length vs) < 2 ^ 48 -> run_walks core vs pt4 a = Ok (p', a') -> v ∈ vs -> v' ∈ vs ->
  is_Some (translate p' v) /\
  (fst <$> translate p' v = fst <$> translate p' v' <-> page_number 12 v = page_number 12 v').
Proof.
  intros Hk Hm Ho Ea Hr Hl Hrun Hv Hv'. destruct (os_ok_new memory max_order kernel a Hk Hm Ho Ea) as [Hos Ek].
  destruct (run_walks_spec core vs pt4 a p' a' Hos Hr) as (Hos' & Hin & _); [lia|lia|done|].
  destruct (Hin v Hv) as [[n s] En], (Hin v' Hv') as [[n' s'] En']. split; [eauto|]. split.
  - rewrite En, En'. cbn. intros [= ->]. by eapply (os_injective _ _ Hos').
  - intros E. by rewrite (translate_same_page p' v v' (os_table _ _ Hos') E).
Qed.

Lemma baseline_pages_isolated_witness :
  exists p' a', run_walks 0 [0x1000; 0x1008; 0x7f0012345678] pt4 machine16 = Ok (p', a') /\
    is_Some (translate p' 0x1000) /\
    (fst <$> translate p' 0x1000 = fst <$> translate p' 0x1008 <-> page_number 12 0x1000 = page_number 12 0x1008).
Proof.
  assert (H : match run_walks 0 [0x1000; 0x1008; 0x7f0012345678] pt4 machine16 with Ok _ => True | Err _ => False end)
    by (vm_compute; exact I).
  destruct (run_walks 0 [0x1000; 0x1008; 0x7f0012345678] pt4 machine16) as [[p' a']|] eqn:E; [clear H|destruct H].
  exists p', a'. split; [reflexivity|].
  apply (baseline_pages_isolated 16 10 1 0 [0x1000; 0x1008; 0x7f0012345678] machine16 p' a' 0x1000 0x1008);
    [lia|lia|lia|vm_compute; reflexivity|repeat (constructor; [split; lia|]); constructor|cbn; lia|exact E|left|right; left].
Defined.

(** The area of instruction pages starts at the end of the kernel, where the pages of
    the buddy allocator start too: on a new machine the first instruction page is still
    free for data, and a data allocation of 1 MB returns the range that begins with it. *)
Theorem instruction_area_overlaps_buddy :
  match BaselineAllocator_new 16 10 15 with
  | Ok a =>
      match baseline_allocate 4096 0 0 false true a with
      | Ok (instruction_page, _, a) =>
          page_free a instruction_page /\
          match baseline_allocate (1024 * 1024) 0 0 false false a with
          | Ok (data_page, _, _) => data_page = instruction_page
          | Err _ => False
          end
      | Err _ => False
      end
  | Err _ => False
  end.
Proof. vm_compute. split; reflexivity. Qed.
