(* ===== verification/Timing.v ===== *)
(** * Simulated time

    [common/misc/subsecond_time.h] counts femtoseconds in 64 bits and relates them to the
    cycles of components; [moving_average.h] keeps the mean of a window of times. *)

From stdpp Require Import base tactics list numbers strings.
From Stdlib Require Import ZArith Lia.
From S2P Require Import Prelude Utils.
Local Open Scope Z_scope.
Local Open Scope mach_scope.

(** ** Times and periods *)

Definition FS_1 : Z := 1.
Definition PS_1 : Z := 1000.
Definition NS_1 : Z := 1000 * PS_1.
Definition US_1 : Z := 1000 * NS_1.
Definition MS_1 : Z := 1000 * US_1.
Definition SEC_1 : Z := 1000 * MS_1.

Definition SubsecondTime_PS (ps : Z) : Z := ps *64 PS_1.
Definition SubsecondTime_NS (ns : Z) : Z := ns *64 NS_1.
Definition SubsecondTime_SEC (sec : Z) : Z := sec *64 SEC_1.
Definition MaxTime : Z := 2 ^ 64 - 1.
Definition getPS (t : Z) : Z := t / PS_1.
Definition getNS (t : Z) : Z := t / NS_1.

(** Unsigned division. *)
Definition udiv (a b : Z) : res Z := check (negb (b =? 0)) DivByZero;; Ok (a / b).

Definition divideRounded (lhs rhs : Z) : res Z := udiv (lhs +64 (rhs / 2 +64 1)) rhs.

(** [ComponentPeriod] and the conversion of [SubsecondTimeCycleConverter]. *)
Definition fromFreqHz (freq_in_hz : Z) : res Z := udiv SEC_1 freq_in_hz.
Definition getPeriodInFreqMHz (period : Z) : res Z := udiv US_1 period.
Definition cyclesToSubsecondTime (period cycles : Z) : Z := period *64 cycles.
Definition subsecondTimeToCycles (period time : Z) : res Z := udiv time period.

(** [ComponentBandwidth]: bits per microsecond, and [ComponentBandwidthPerCycle]. *)
Definition bw_getLatency (bw bits : Z) : res Z := udiv (bits *64 US_1) bw.
Definition bw_getRoundedLatency (bw bits : Z) : res Z := udiv ((bits *64 US_1) +64 US_1 / 2) bw.
Definition bwc_getLatency (period bw bits : Z) : res Z := udiv (bits *64 period) bw.
Definition bwc_getRoundedLatency (period bw bits : Z) : res Z :=
  udiv ((bits *64 period) +64 period / 2) bw.

Record ComponentLatency := mkLatency { cl_period : Z; m_fixed_cycle_latency : Z }.
Definition cl_getLatency (l : ComponentLatency) : Z := cl_period l *64 m_fixed_cycle_latency l.
Definition cl_add (l : ComponentLatency) (rhs : Z) : ComponentLatency :=
  mkLatency (cl_period l) (m_fixed_cycle_latency l +64 rhs).

Record ComponentTime := mkTime { ct_period : Z; ct_time : Z }.
Definition ComponentTime_new (period : Z) : ComponentTime := mkTime period 0.
Definition addCycleLatency (num_cycles : Z) (t : ComponentTime) : ComponentTime :=
  mkTime (ct_period t) (ct_time t +64 (ct_period t *64 num_cycles)).
Definition addLatency (time_to_add : Z) (t : ComponentTime) : ComponentTime :=
  mkTime (ct_period t) (ct_time t +64 time_to_add).
Definition getCycleCount (t : ComponentTime) : res Z := divideRounded (ct_time t) (ct_period t).

(** ** Moving averages *)

Inductive AvgType_t := ARITHMETIC_MEAN | GEOMETRIC_MEAN | MEDIAN.
#[global] Instance AvgType_t_eq_dec : EqDecision AvgType_t.
Proof. solve_decision. Defined.

Definition parseAvgType (avg_type : string) : res AvgType_t :=
  if bool_decide (avg_type = "arithmetic_mean"%string) then Ok ARITHMETIC_MEAN
  else if bool_decide (avg_type = "geometric_mean"%string) then Ok GEOMETRIC_MEAN
  else if bool_decide (avg_type = "median"%string) then Ok MEDIAN
  else Err LogError.

Record MovingAverage := mkMA {
  ma_type : AvgType_t;
  m_num_list : list Z;
  m_max_window_size : Z;
  m_curr_window_front : ModuloNum;
  m_curr_window_back : ModuloNum;
  ma_sum : Z  (** of [MovingArithmeticMean] *)
}.

Definition createAvgType (ty : AvgType_t) (max_window_size : Z) : MovingAverage :=
  let n := u32 (max_window_size + 1) in
  mkMA ty (replicate (Z.to_nat n) 0) max_window_size (mkModuloNum 0 n) (mkModuloNum 0 n) 0.

Definition addToWindow (next_num : Z) (m : MovingAverage) : res MovingAverage :=
  l ← wr (m_num_list m) (Z.to_nat (mn_value (m_curr_window_back m))) next_num;
  back ← mn_add_int (m_curr_window_back m) 1;
  front ← (if mn_eqb back (m_curr_window_front m) then mn_add_int (m_curr_window_front m) 1
           else Ok (m_curr_window_front m));
  Ok (mkMA (ma_type m) l (m_max_window_size m) front back (ma_sum m)).

Definition curr_window_size (m : MovingAverage) : res Z :=
  n ← mn_sub (m_curr_window_back m) (m_curr_window_front m); Ok (mn_value n).

Definition ma_update (next_num : Z) (m : MovingAverage) : res MovingAverage :=
  match ma_type m with
  | ARITHMETIC_MEAN =>
      size ← curr_window_size m;
      sum ← (if size =? m_max_window_size m then
               x ← rd (m_num_list m) (Z.to_nat (mn_value (m_curr_window_front m)));
               Ok (ma_sum m -64 x)
             else Ok (ma_sum m));
      addToWindow next_num (mkMA (ma_type m) (m_num_list m) (m_max_window_size m)
        (m_curr_window_front m) (m_curr_window_back m) (sum +64 next_num))
  | _ => addToWindow next_num m
  end.

(** The elements of the window, from the oldest to the newest. *)
Definition window_at (m : MovingAverage) (k : nat) : res Z :=
  i ← mn_add_int (m_curr_window_front m) (Z.of_nat k);
  rd (m_num_list m) (Z.to_nat (mn_value i)).

(** [root] is the C library's [pow] of the product and the inverse of the size, as the
    conversion to an integer leaves it. *)
Definition ma_compute (root : Z -> Z -> Z) (m : MovingAverage) : res Z :=
  size ← curr_window_size m;
  match ma_type m with
  | ARITHMETIC_MEAN => udiv (ma_sum m) size
  | GEOMETRIC_MEAN =>
      product ← fold_loop (fun p k => x ← window_at m k; Ok (p *64 x)) 1 (seq 0 (Z.to_nat size));
      Ok (root product size)
  | MEDIAN =>
      i ← mn_add_int (m_curr_window_front m) (size / 2);
      rd (m_num_list m) (Z.to_nat (mn_value i))
  end.

(** [compute(next_num)] *)
Definition ma_compute_next (root : Z -> Z -> Z) (next_num : Z) (m : MovingAverage)
  : res (Z * MovingAverage) :=
  m ← ma_update next_num m;
  x ← ma_compute root m;
  Ok (x, m).

(** ** Cycles and times *)

(** Converting a number of cycles to a time and back gives the number, for every period,
    unless the time does not fit into 64 bits. *)
Theorem cycles_roundtrip period cycles :
  0 < period -> 0 <= cycles -> in_range 64 (period * cycles) ->
  subsecondTimeToCycles period (cyclesToSubsecondTime period cycles) = Ok cycles.
Proof.
  intros Hp Hc Hr. unfold subsecondTimeToCycles, cyclesToSubsecondTime, udiv.
  rewrite wrap_small by done. destruct (Z.eqb_spec period 0); [lia|]. cbn.
  by rewrite Z.mul_comm, Z.div_mul.
Qed.

Lemma cycles_roundtrip_witness :
  subsecondTimeToCycles 375939 (cyclesToSubsecondTime 375939 1000) = Ok 1000.
Proof. apply cycles_roundtrip; unfold in_range; lia. Defined.

(** The cycle counter of a component counts the cycles that were added to it when its period
    has at least three femtoseconds; the rounding of [divideRounded] adds one for shorter ones. *)
Lemma getCycleCount_cycles period cycles :
  3 <= period -> 0 <= cycles -> period * cycles + period < 2 ^ 64 ->
  getCycleCount (addCycleLatency cycles (ComponentTime_new period)) = Ok cycles.
Proof.
  intros Hp Hc Hr. unfold getCycleCount, divideRounded, udiv. cbn -[wrap].
  assert (H2 : 0 <= period / 2 /\ period / 2 + 1 < period).
  { split; [apply Z.div_pos; lia|]. pose proof (Z.mul_div_le period 2 ltac:(lia)). lia. }
  assert (0 <= period * cycles) by nia.
  rewrite (wrap_small 64 (period * cycles)) by (split; lia). rewrite Z.add_0_l.
  rewrite (wrap_small 64 (period * cycles)) by (split; lia).
  rewrite (wrap_small 64 (period / 2 + 1)) by (split; lia).
  rewrite wrap_small by (split; lia). destruct (Z.eqb_spec period 0); [lia|]. cbn. f_equal.
  rewrite Z.mul_comm, Z.div_add_l by lia. rewrite Z.div_small by lia. lia.
Qed.

Example getCycleCount_short_period :
  getCycleCount (addCycleLatency 5 (ComponentTime_new 2)) = Ok 6.
Proof. reflexivity. Qed.

(** ** The window of a moving average *)

Definition sum_list (l : list Z) : Z := foldr Z.add 0 l.

(** The last [w] elements. *)
Definition lastn (w : nat) (xs : list Z) : list Z := drop (length xs - w) xs.

Lemma sum_list_snoc l x : sum_list (l ++ [x]) = sum_list l + x.
Proof. unfold sum_list. induction l as [|y l IH]; cbn; lia. Qed.

Lemma lastn_length w xs : length (lastn w xs) = (length xs `min` w)%nat.
Proof. unfold lastn. rewrite length_drop. lia. Qed.

Lemma lastn_snoc w xs x :
  (0 < w)%nat -> lastn w (xs ++ [x]) = (if decide (length xs < w)%nat then lastn w xs else tail (lastn w xs)) ++ [x].
Proof.
  intros Hw. unfold lastn. rewrite length_app. cbn. case_decide.
  - replace (length xs + 1 - w)%nat with 0%nat by lia. replace (length xs - w)%nat with 0%nat by lia. done.
  - replace (length xs + 1 - w)%nat with (S (length xs - w)) by lia.
    rewrite drop_app_le by lia. f_equal. clear. generalize (length xs - w)%nat as k. intros k.
    revert k. induction xs as [|y xs IH]; intros [|k]; cbn; auto.
Qed.

Lemma tail_length (l : list Z) : length (tail l) = (length l - 1)%nat.
Proof. destruct l; cbn; lia. Qed.

Lemma sum_list_tail l x : head l = Some x -> sum_list (tail l) = sum_list l - x.
Proof. destruct l; cbn; [done|]. intros [= ->]. lia. Qed.

(** The ring buffer holds the last [w] numbers, the oldest at [f]. *)
Record ring (m : MovingAverage) (w : nat) (xs : list Z) (f : Z) : Prop := {
  rg_bound : 0 < Z.of_nat w < 2 ^ 31 - 1;
  rg_max : m_max_window_size m = Z.of_nat w;
  rg_length : length (m_num_list m) = S w;
  rg_f : 0 <= f <= Z.of_nat w;
  rg_front : m_curr_window_front m = mkModuloNum f (Z.of_nat w + 1);
  rg_back : m_curr_window_back m =
    mkModuloNum ((f + Z.of_nat (length (lastn w xs))) `mod` (Z.of_nat w + 1)) (Z.of_nat w + 1);
  rg_data : forall k, (k < length (lastn w xs))%nat ->
    m_num_list m !! Z.to_nat ((f + Z.of_nat k) `mod` (Z.of_nat w + 1)) = lastn w xs !! k
}.

Section ring.
Context (w : nat).
Let n : Z := Z.of_nat w + 1.

Lemma ring_new ty : 0 < Z.of_nat w < 2 ^ 31 - 1 -> ring (createAvgType ty (Z.of_nat w)) w [] 0.
Proof.
  intros Hw. unfold createAvgType. rewrite wrap_small by (split; lia).
  split; cbn -[Z.modulo Z.add]; try done; try lia.
  - rewrite length_replicate. lia.
  - intros k Hk. rewrite drop_nil in Hk. cbn in Hk. lia.
Qed.

Lemma ring_add_int a v :
  0 <= a < n -> 0 <= v < n -> 0 < Z.of_nat w < 2 ^ 31 - 1 ->
  mn_add_int (mkModuloNum a n) v = Ok (mkModuloNum ((a + v) `mod` n) n).
Proof.
  intros Ha Hv Hw. unfold mn_add_int. cbn [mn_max_value]. unfold n in *.
  destruct (Z.eqb_spec (Z.of_nat w + 1) 0); [lia|]. cbn [negb check mbind res_bind].
  rewrite (Z.mod_small v) by lia. apply mn_add_wf; [split; cbn; lia..|done].
Qed.

Lemma ring_size m xs f : ring m w xs f -> curr_window_size m = Ok (Z.of_nat (length (lastn w xs))).
Proof.
  intros [Hb Hm Hl Hf Ef Eb Hd]. unfold curr_window_size. rewrite Ef, Eb.
  pose proof (lastn_length w xs). pose proof (Z.mod_pos_bound (f + Z.of_nat (length (lastn w xs))) n ltac:(unfold n; lia)).
  rewrite mn_sub_wf; [|split; cbn; unfold n in *; lia..|done]. cbn -[Z.modulo]. f_equal.
  rewrite Zminus_mod_idemp_l. replace (f + _ - f) with (Z.of_nat (length (lastn w xs))) by lia.
  apply Z.mod_small. lia.
Qed.

Lemma mod_distinct f i j :
  0 <= i < n -> 0 <= j < n -> (f + i) `mod` n = (f + j) `mod` n -> i = j.
Proof.
  intros Hi Hj E. assert (Hn : n <> 0) by (unfold n; lia).
  assert (((f + i) - (f + j)) `mod` n = 0) as Hz.
  { rewrite Zminus_mod, E, Z.sub_diag. by apply Z.mod_0_l. }
  apply Z.mod_divide in Hz as [q Hq]; [|done]. assert (Hq' : i - j = q * n) by lia.
  assert (q = 0) by (clearbody n; nia). nia.
Qed.

(** A number enters the window; the oldest leaves a full window. *)
Lemma ring_push m xs f x :
  ring m w xs f -> exists m' f', addToWindow x m = Ok m' /\ ring m' w (xs ++ [x]) f' /\
    ma_type m' = ma_type m /\ ma_sum m' = ma_sum m.
Proof.
  intros [Hb Hm Hl Hf Ef Eb Hd]. set (s := length (lastn w xs)) in *.
  assert (Hs : (s <= w)%nat) by (unfold s; rewrite lastn_length; lia).
  set (b := (f + Z.of_nat s) `mod` (Z.of_nat w + 1)) in *.
  assert (Hbb : 0 <= b < n) by (apply Z.mod_pos_bound; lia).
  unfold addToWindow. rewrite Eb. cbn [mn_value].
  rewrite wr_lt by (rewrite Hl; unfold n in *; lia). cbn [mbind res_bind].
  rewrite ring_add_int by (unfold n in *; lia). cbn [mbind res_bind].
  assert (Eb' : (b + 1) `mod` n = (f + Z.of_nat (S s)) `mod` n).
  { unfold b. rewrite Zplus_mod_idemp_l. f_equal. lia. }
  rewrite Ef. unfold mn_eqb. cbn [mn_value mn_max_value]. fold n. rewrite Z.eqb_refl, andb_true_r.
  assert (Hdata : forall k, (k < s)%nat ->
    <[Z.to_nat b := x]> (m_num_list m) !! Z.to_nat ((f + Z.of_nat k) `mod` n) = lastn w xs !! k).
  { intros k Hk. rewrite list_lookup_insert_ne; [by apply Hd|]. intros E.
    pose proof (Z.mod_pos_bound (f + Z.of_nat k) n ltac:(unfold n; lia)).
    assert (Z.of_nat s = Z.of_nat k); [|lia]. apply (mod_distinct f); unfold n in *; lia. }
  assert (Hlast : <[Z.to_nat b := x]> (m_num_list m) !! Z.to_nat b = Some x).
  { apply list_lookup_insert_eq. rewrite Hl. unfold n in *. lia. }
  assert (Ew : lastn w (xs ++ [x]) = (if decide (length xs < w)%nat then lastn w xs
                                      else tail (lastn w xs)) ++ [x]) by (apply lastn_snoc; lia).
  destruct (decide (length xs < w)%nat) as [Hlt|Hge].
  - assert (Es : (s < w)%nat) by (unfold s; rewrite lastn_length; lia).
    destruct (Z.eqb_spec ((b + 1) `mod` n) f) as [E|_].
    { rewrite Eb' in E. rewrite <- (Z.mod_small f n) in E at 2 by (unfold n; lia).
      rewrite <- (Z.add_0_r f) in E at 2. apply mod_distinct in E; unfold n; lia. }
    eexists _, f. split; [done|]. split; [|done].
    split; cbn [m_num_list m_max_window_size m_curr_window_front m_curr_window_back]; try done.
    + by rewrite length_insert.
    + rewrite Ew, length_app, Eb'. cbn [length]. fold s. do 2 f_equal; lia.
    + rewrite Ew, length_app. cbn [length]. fold s. intros k Hk.
      destruct (decide (k = s)) as [->|Hne].
      * fold b. rewrite Hlast, lookup_app_r by done. fold s. by rewrite Nat.sub_diag.
      * rewrite lookup_app_l by (fold s; lia). apply Hdata. lia.
  - assert (Es : s = w) by (unfold s; rewrite lastn_length; lia).
    assert (Ewrap : (b + 1) `mod` n = f).
    { rewrite Eb', Es. replace (f + Z.of_nat (S w)) with (f + 1 * n) by (unfold n; lia).
      rewrite Z_mod_plus_full. apply Z.mod_small. unfold n; lia. }
    rewrite Ewrap, Z.eqb_refl, ring_add_int by (unfold n in *; lia). cbn [mbind res_bind].
    assert (El : length (tail (lastn w xs) ++ [x]) = w).
    { rewrite length_app, tail_length. fold s. cbn. lia. }
    eexists _, ((f + 1) `mod` n). split; [done|]. split; [|done].
    pose proof (Z.mod_pos_bound (f + 1) n ltac:(unfold n; lia)).
    split; cbn [m_num_list m_max_window_size m_curr_window_front m_curr_window_back]; try done.
    + by rewrite length_insert.
    + unfold n in *. lia.
    + rewrite Ew, El. fold n. rewrite Zplus_mod_idemp_l. f_equal.
      rewrite <- Ewrap at 1. rewrite Eb', Es. f_equal. lia.
    + rewrite Ew, El. fold n. intros k Hk. rewrite Zplus_mod_idemp_l.
      replace (f + 1 + Z.of_nat k) with (f + Z.of_nat (S k)) by lia.
      destruct (decide (S k = w)) as [Ek|Hne].
      * replace ((f + Z.of_nat (S k)) `mod` n) with b by (unfold b, n; f_equal; lia).
        rewrite Hlast, lookup_app_r by (rewrite tail_length; fold s; lia).
        rewrite tail_length. fold s. by replace (k - (s - 1))%nat with 0%nat by lia.
      * rewrite lookup_app_l by (rewrite tail_length; fold s; lia).
        rewrite Hdata by lia. clear. by destruct (lastn w xs).
Qed.

Lemma ring_front m xs f : ring m w xs f -> (0 < length (lastn w xs))%nat ->
  rd (m_num_list m) (Z.to_nat (mn_value (m_curr_window_front m))) =
    match head (lastn w xs) with Some x => Ok x | None => Err OutOfBounds end.
Proof.
  intros [Hb Hm Hl Hf Ef Eb Hd] Hne. rewrite Ef. cbn [mn_value]. unfold rd.
  specialize (Hd 0%nat Hne). rewrite Z.add_0_r, Z.mod_small in Hd by lia. rewrite Hd.
  by destruct (lastn w xs).
Qed.

(** The mean keeps the sum of its window. *)
Definition mean_of (m : MovingAverage) (xs : list Z) : Prop :=
  ma_type m = ARITHMETIC_MEAN /\ (exists f, ring m w xs f) /\ ma_sum m = u64 (sum_list (lastn w xs)).

Lemma mean_update m xs x :
  mean_of m xs -> exists m', ma_update x m = Ok m' /\ mean_of m' (xs ++ [x]).
Proof.
  intros (Ht & (f & Hr) & Hsum). unfold ma_update. rewrite Ht, (ring_size _ _ _ Hr).
  cbn [mbind res_bind]. rewrite (rg_max _ _ _ _ Hr). pose proof (rg_bound _ _ _ _ Hr) as Hw.
  assert (Hr' : forall v, ring (mkMA (ma_type m) (m_num_list m) (Z.of_nat w)
    (m_curr_window_front m) (m_curr_window_back m) v) w xs f) by (intros v; destruct Hr; by split).
  rewrite <- Ht. assert (Ew := lastn_snoc w xs x ltac:(lia)).
  destruct (Z.eqb_spec (Z.of_nat (length (lastn w xs))) (Z.of_nat w)) as [E|E].
  - assert (Hge : ~ (length xs < w)%nat) by (rewrite lastn_length in E; lia).
    rewrite decide_False in Ew by done.
    rewrite (ring_front _ _ _ Hr) by lia. destruct (lastn w xs) as [|y l] eqn:El; [cbn in E; lia|].
    cbn [head mbind res_bind].
    destruct (ring_push _ _ _ x (Hr' (ma_sum m -64 y +64 x))) as (m' & f' & Ep & Hr2 & Ht2 & Hs2).
    exists m'. split; [done|]. split; [by rewrite Ht2|]. split; [by exists f'|].
    rewrite Hs2. cbn [ma_sum]. rewrite Ew, sum_list_snoc, Hsum. cbn [tail sum_list foldr].
    unfold wrap. rewrite Zplus_mod_idemp_l. rewrite <- Z.add_sub_swap, <- Z.add_sub_assoc.
    rewrite Zplus_mod_idemp_l. f_equal. unfold sum_list. lia.
  - assert (Hlt : (length xs < w)%nat) by (rewrite lastn_length in E; lia).
    rewrite decide_True in Ew by done. cbn [mbind res_bind].
    destruct (ring_push _ _ _ x (Hr' (ma_sum m +64 x))) as (m' & f' & Ep & Hr2 & Ht2 & Hs2).
    exists m'. split; [done|]. split; [by rewrite Ht2|]. split; [by exists f'|].
    rewrite Hs2. cbn [ma_sum]. rewrite Ew, sum_list_snoc, Hsum. unfold wrap.
    by rewrite Zplus_mod_idemp_l.
Qed.

Lemma mean_updates m xs ys :
  mean_of m xs -> exists m', foldl (fun r y => m ← r; ma_update y m) (Ok m) ys = Ok m' /\ mean_of m' (xs ++ ys).
Proof.
  revert m xs. induction ys as [|y ys IH]; intros m xs Hm; cbn.
  - exists m. by rewrite app_nil_r.
  - destruct (mean_update m xs y Hm) as (m' & E & Hm'). rewrite E.
    destruct (IH m' (xs ++ [y]) Hm') as (m'' & E' & Hm''). exists m''. split; [done|].
    by rewrite <- app_assoc in Hm''.
Qed.

End ring.

(** The arithmetic moving average computes the mean of the last [w] numbers it was given
    (of all of them while they are fewer): the ring buffer never loses or repeats a number of
    the window, and the running sum is the sum of the window even when it wraps in between. *)
Theorem moving_mean_correct root w xs :
  0 < Z.of_nat w < 2 ^ 31 - 1 -> xs <> [] -> in_range 64 (sum_list (lastn w xs)) ->
  exists m, foldl (fun r y => m ← r; ma_update y m)
      (Ok (createAvgType ARITHMETIC_MEAN (Z.of_nat w))) xs = Ok m /\
    ma_compute root m = Ok (sum_list (lastn w xs) / Z.of_nat (length (lastn w xs))).
Proof.
  intros Hw Hne Hs.
  destruct (mean_updates w (createAvgType ARITHMETIC_MEAN (Z.of_nat w)) [] xs)
    as (m & E & Ht & (f & Hr) & Hsum).
  { split; [done|]. split; [exists 0; by apply ring_new|]. unfold lastn. by rewrite drop_nil. }
  cbn [app] in *. exists m. split; [done|]. unfold ma_compute. rewrite (ring_size _ _ _ _ Hr), Ht. cbn [mbind res_bind].
  rewrite Hsum, wrap_small by done. unfold udiv.
  destruct (Z.eqb_spec (Z.of_nat (length (lastn w xs))) 0) as [E0|]; [|done].
  rewrite lastn_length in E0. destruct xs; [done|]. cbn [length] in E0. lia.
Qed.

Lemma moving_mean_correct_witness :
  exists m, foldl (fun r y => m ← r; ma_update y m) (Ok (createAvgType ARITHMETIC_MEAN (Z.of_nat 2)))
      [10; 20; 40] = Ok m /\ ma_compute (fun _ _ => 0) m = Ok 30.
Proof. apply (moving_mean_correct (fun _ _ => 0) 2 [10; 20; 40]); [lia|discriminate|split; [discriminate|reflexivity]]. Defined.

(** The median of a window is its element in the middle by order of arrival, not by size. *)
Example moving_median_unsorted :
  (m ← foldl (fun r y => m ← r; ma_update y m) (Ok (createAvgType MEDIAN 3)) [1; 100; 2];
   ma_compute (fun _ _ => 0) m) = Ok 100.
Proof. reflexivity. Qed.
