(* ===== verification/Contention.v ===== *)
(** * Contention for resources

    [performance_model/contention_model.cc] models a resource with a number of identical
    units; [queue_model_basic.cc], [queue_model_contention.cc] and
    [queue_model_history_list.cc] compute how long a request waits for one. *)

From stdpp Require Import base tactics list numbers strings sorting.
From Stdlib Require Import ZArith Lia.
From S2P Require Import Prelude Utils Timing.
Local Open Scope Z_scope.
Local Open Scope mach_scope.

(** ** The contention model *)

Record ContentionModel := mkCM {
  m_num_outstanding : Z;
  cm_time : list (Z * Z);   (** per unit: busy until, tag of the request *)
  m_t_last : Z;
  m_n_requests : Z;
  m_n_barriers : Z;
  m_n_outoforder : Z;
  m_n_simultaneous : Z;
  m_n_hasfreefail : Z;
  m_total_delay : Z;
  m_total_barrier_delay : Z
}.

Definition ContentionModel_new (num_outstanding : Z) : ContentionModel :=
  mkCM num_outstanding (replicate (Z.to_nat num_outstanding) (0, 0)) 0 0 0 0 0 0 0 0.

Definition units (c : ContentionModel) : list nat := seq 0 (Z.to_nat (m_num_outstanding c)).

Definition getNumUsed (t_start : Z) (c : ContentionModel) : res Z :=
  fold_loop (fun num_used i =>
    x ← rd (cm_time c) i; Ok (if t_start <? fst x then u32 (num_used + 1) else num_used)) 0 (units c).

Definition tag_at (tag : Z) (c : ContentionModel) (i : nat) : res bool :=
  x ← rd (cm_time c) i; Ok (snd x =? tag).

Definition getTagCompletionTime (tag : Z) (c : ContentionModel) : res Z :=
  o ← find_loop (tag_at tag c) (units c);
  match o with
  | Some i => x ← rd (cm_time c) i; Ok (fst x)
  | None => Ok MaxTime
  end.

Definition hasTag (tag : Z) (c : ContentionModel) : res bool :=
  o ← find_loop (tag_at tag c) (units c); Ok (match o with Some _ => true | None => false end).

Definition hasFreeSlot (t_start tag : Z) (c : ContentionModel) : res (bool * ContentionModel) :=
  o ← find_loop (fun i => x ← rd (cm_time c) i; Ok ((fst x <=? t_start) || (snd x =? tag))) (units c);
  match o with
  | Some _ => Ok (true, c)
  | None =>
      Ok (false, mkCM (m_num_outstanding c) (cm_time c) (m_t_last c) (m_n_requests c) (m_n_barriers c)
        (m_n_outoforder c) (m_n_simultaneous c) (m_n_hasfreefail c +64 1) (m_total_delay c)
        (m_total_barrier_delay c))
  end.

Definition getBarrierCompletionTime (t_start t_delay tag : Z) (c : ContentionModel)
  : res (Z * ContentionModel) :=
  if m_num_outstanding c =? 0 then Ok (t_start +64 t_delay, c)
  else
    max_time ← fold_loop (fun mx i => x ← rd (cm_time c) i; Ok (if mx <? fst x then fst x else mx))
                 t_start (units c);
    times ← fold_loop (fun l i => wr l i (max_time +64 t_delay, tag)) (cm_time c) (units c);
    Ok (max_time +64 t_delay,
        mkCM (m_num_outstanding c) times (m_t_last c) (m_n_requests c) (m_n_barriers c +64 1)
          (m_n_outoforder c) (m_n_simultaneous c) (m_n_hasfreefail c) (m_total_delay c)
          (m_total_barrier_delay c +64 (max_time -64 t_start))).

(** The first unit that is free at [t_start], or else the one that is free first. *)
Fixpoint find_unit (times : list (Z * Z)) (t_start : Z) (unit : nat) (idx : list nat) : res nat :=
  match idx with
  | [] => Ok unit
  | i :: idx' =>
      x ← rd times i;
      if fst x <=? t_start then Ok i
      else
        y ← rd times unit;
        find_unit times t_start (if fst x <? fst y then i else unit) idx'
  end.

Definition getCompletionTime (t_start t_delay tag : Z) (c : ContentionModel)
  : res (Z * ContentionModel) :=
  if m_num_outstanding c =? 0 then Ok (t_start +64 t_delay, c)
  else
    '(t_end, c) ← (if t_start =? 0 then Ok (t_delay, c)
      else if t_start <? m_t_last c then
        Ok (t_start +64 t_delay,
            mkCM (m_num_outstanding c) (cm_time c) (m_t_last c) (m_n_requests c) (m_n_barriers c)
              (m_n_outoforder c +64 1) (m_n_simultaneous c) (m_n_hasfreefail c) (m_total_delay c)
              (m_total_barrier_delay c))
      else
        unit ← find_unit (cm_time c) t_start 0 (units c);
        x ← rd (cm_time c) unit;
        let t_begin := if t_start <? fst x then fst x else t_start in
        let t_end := t_begin +64 t_delay in
        times ← wr (cm_time c) unit (t_end, tag);
        Ok (t_end,
            mkCM (m_num_outstanding c) times t_start (m_n_requests c) (m_n_barriers c)
              (m_n_outoforder c)
              (if t_start =? m_t_last c then m_n_simultaneous c +64 1 else m_n_simultaneous c)
              (m_n_hasfreefail c) (m_total_delay c +64 (t_begin -64 t_start))
              (m_total_barrier_delay c)));
    Ok (t_end, mkCM (m_num_outstanding c) (cm_time c) (m_t_last c) (m_n_requests c +64 1)
                 (m_n_barriers c) (m_n_outoforder c) (m_n_simultaneous c) (m_n_hasfreefail c)
                 (m_total_delay c) (m_total_barrier_delay c)).

Definition getStartTime (t_start : Z) (c : ContentionModel) : res Z :=
  if m_num_outstanding c =? 0 then Ok t_start
  else if t_start <? m_t_last c then Ok t_start
  else
    unit ← find_unit (cm_time c) t_start 0 (units c);
    x ← rd (cm_time c) unit;
    Ok (if t_start <? fst x then fst x else t_start).

(** The versions for components that count cycles. *)
Definition getCompletionTime_cycles (period t_start t_delay tag : Z) (c : ContentionModel)
  : res (Z * ContentionModel) :=
  '(t, c) ← getCompletionTime (cyclesToSubsecondTime period t_start)
              (cyclesToSubsecondTime period t_delay) tag c;
  n ← subsecondTimeToCycles period t;
  Ok (n, c).

Definition getBarrierCompletionTime_cycles (period t_start t_delay tag : Z) (c : ContentionModel)
  : res (Z * ContentionModel) :=
  '(t, c) ← getBarrierCompletionTime (cyclesToSubsecondTime period t_start)
              (cyclesToSubsecondTime period t_delay) tag c;
  n ← subsecondTimeToCycles period t;
  Ok (n, c).

Definition getStartTime_cycles (period t_start : Z) (c : ContentionModel) : res Z :=
  t ← getStartTime (cyclesToSubsecondTime period t_start) c; subsecondTimeToCycles period t.

Definition hasFreeSlot_cycles (period t_start tag : Z) (c : ContentionModel) : res (bool * ContentionModel) :=
  hasFreeSlot (cyclesToSubsecondTime period t_start) tag c.

Definition getNumUsed_cycles (period t_start : Z) (c : ContentionModel) : res Z :=
  getNumUsed (cyclesToSubsecondTime period t_start) c.

(** ** Queue models *)

Record QueueModelBasic := mkQMB { m_queue_time : Z; m_moving_average : option MovingAverage }.

Definition QueueModelBasic_new (moving_avg_enabled : bool) (moving_avg_window_size : Z)
    (moving_avg_type_str : string) : res QueueModelBasic :=
  if moving_avg_enabled then
    ty ← parseAvgType moving_avg_type_str;
    Ok (mkQMB 0 (Some (createAvgType ty moving_avg_window_size)))
  else Ok (mkQMB 0 None).

Definition basic_computeQueueDelay (root : Z -> Z -> Z) (pkt_time processing_time : Z)
    (q : QueueModelBasic) : res (Z * QueueModelBasic) :=
  '(ref_time, ma) ← (match m_moving_average q with
                     | Some m => '(r, m) ← ma_compute_next root pkt_time m; Ok (r, Some m)
                     | None => Ok (pkt_time, None)
                     end);
  let queue_delay := if ref_time <? m_queue_time q then m_queue_time q -64 ref_time else 0 in
  Ok (queue_delay, mkQMB (Z.max (m_queue_time q) ref_time +64 processing_time) ma).

Definition contention_computeQueueDelay (pkt_time processing_time : Z) (c : ContentionModel)
  : res (Z * ContentionModel) :=
  '(t_complete, c) ← getCompletionTime pkt_time processing_time 0 c;
  Ok (t_complete -64 pkt_time -64 processing_time, c).

Record QueueModelHistoryList := mkHL {
  m_min_processing_time : Z;
  m_max_free_interval_list_size : Z;
  m_free_interval_list : list (Z * Z);
  m_utilized_time : Z;
  m_total_queue_delay : Z;
  m_average_delay : MovingAverage;
  m_analytical_model_enabled : bool;
  m_total_requests : Z;
  m_total_requests_using_analytical_model : Z
}.

Definition QueueModelHistoryList_new (analytical_model_enabled : bool)
    (max_list_size min_processing_time : Z) : QueueModelHistoryList :=
  mkHL min_processing_time max_list_size [(0, 2 ^ 63)] 0 0
    (createAvgType ARITHMETIC_MEAN max_list_size) analytical_model_enabled 0 0.

(** What is left of a free interval, when it is long enough. *)
Definition remainder (min_time first second : Z) : list (Z * Z) :=
  if min_time <=? second -64 first then [(first, second)] else [].

(** The loop over the free intervals; [None] when there is no place. *)
Fixpoint place (min_time pkt_time processing_time : Z) (l : list (Z * Z))
  : option (Z * list (Z * Z)) :=
  match l with
  | [] => None
  | (first, second) :: l' =>
      if (first <=? pkt_time) && (pkt_time +64 processing_time <=? second) then
        Some (0, remainder min_time first pkt_time ++
                 remainder min_time (pkt_time +64 processing_time) second ++ l')
      else if pkt_time <? first then
        Some (first -64 pkt_time, remainder min_time (first +64 processing_time) second ++ l')
      else
        match place min_time pkt_time processing_time l' with
        | Some (d, r) => Some (d, (first, second) :: r)
        | None => None
        end
  end.

Definition computeUsingHistoryList (pkt_time processing_time : Z) (h : QueueModelHistoryList)
  : res (Z * list (Z * Z)) :=
  let size l := Z.of_nat (length l) in
  check (size (m_free_interval_list h) <=? m_max_free_interval_list_size h) LogError;;
  match place (m_min_processing_time h) pkt_time processing_time (m_free_interval_list h) with
  | None => Err LogError
  | Some (queue_delay, l) =>
      check (negb (queue_delay =? MaxTime)) LogError;;
      Ok (queue_delay, if m_max_free_interval_list_size h <? size l then tail l else l)
  end.

Definition history_computeQueueDelay (pkt_time processing_time : Z) (h : QueueModelHistoryList)
  : res (Z * QueueModelHistoryList) :=
  match m_free_interval_list h with
  | [] => Err LogError
  | oldest :: _ =>
      '(queue_delay, l, avg, analytical) ←
        (if m_analytical_model_enabled h && (pkt_time +64 processing_time <=? fst oldest) then
           d ← ma_compute (fun _ _ => 0) (m_average_delay h);
           Ok (d, m_free_interval_list h, m_average_delay h,
               m_total_requests_using_analytical_model h +64 1)
         else
           '(d, l) ← computeUsingHistoryList pkt_time processing_time h;
           avg ← ma_update d (m_average_delay h);
           Ok (d, l, avg, m_total_requests_using_analytical_model h));
      Ok (queue_delay,
          mkHL (m_min_processing_time h) (m_max_free_interval_list_size h) l
            (m_utilized_time h +64 processing_time) (m_total_queue_delay h +64 queue_delay) avg
            (m_analytical_model_enabled h) (m_total_requests h +64 1) analytical)
  end.

(** ** The choice of a unit *)

Definition busy_until (times : list (Z * Z)) (i : nat) : Z := from_option fst 0 (times !! i).

Lemma rd_busy times i : (i < length times)%nat -> exists x, rd times i = Ok x /\ fst x = busy_until times i.
Proof. intros H. destruct (rd_lookup times i H) as (x & E & El). exists x. unfold busy_until. by rewrite El. Qed.

(** The chosen unit is free at [t], or all units are busy and it is free first. *)
Definition chosen (times : list (Z * Z)) (t : Z) (u : nat) : Prop :=
  (u < length times)%nat /\
  (busy_until times u <= t \/
   t < busy_until times u /\ forall j, (j < length times)%nat -> busy_until times u <= busy_until times j).

Lemma find_unit_loop times t k unit :
  (k <= length times)%nat -> (unit < length times)%nat ->
  (forall j, (j < k)%nat -> t < busy_until times j /\ busy_until times unit <= busy_until times j) ->
  unit = k \/ t < busy_until times unit ->
  exists u, find_unit times t unit (seq k (length times - k)) = Ok u /\ chosen times t u.
Proof.
  intros Hk Hu Hj Hend. remember (length times - k)%nat as r eqn:Hr. revert k unit Hk Hu Hj Hend Hr.
  induction r as [|r IH]; intros k unit Hk Hu Hj Hend Hr; cbn.
  - exists unit. split; [done|]. split; [done|]. right. split; [destruct Hend; lia|].
    intros j Hlt. apply Hj. lia.
  - destruct (rd_busy times k) as (x & -> & Ex); [lia|]. cbn. rewrite Ex.
    destruct (Z.leb_spec (busy_until times k) t) as [Hle|Hgt].
    { exists k. split; [done|]. split; [lia|]. by left. }
    destruct (rd_busy times unit Hu) as (y & -> & Ey). cbn. rewrite Ey.
    destruct (Z.ltb_spec (busy_until times k) (busy_until times unit)).
    + apply IH; try lia. intros j Hlt. destruct (decide (j = k)) as [->|]; [lia|].
      destruct (Hj j); [lia|]. lia.
    + apply IH; try lia; [|destruct Hend; subst; lia]. intros j Hlt.
      destruct (decide (j = k)) as [->|]; [lia|]. destruct (Hj j); [lia|]. lia.
Qed.

Lemma find_unit_spec times t :
  times <> [] -> exists u, find_unit times t 0 (seq 0 (length times)) = Ok u /\ chosen times t u.
Proof.
  intros Hne. assert (0 < length times)%nat by (destruct times; cbn; [done|lia]).
  destruct (find_unit_loop times t 0 0) as (u & E & Hc); try lia.
  rewrite Nat.sub_0_r in E. eauto.
Qed.

(** ** At most one request per unit *)

Definition cm_wf (c : ContentionModel) : Prop :=
  0 < m_num_outstanding c /\ length (cm_time c) = Z.to_nat (m_num_outstanding c).

Lemma busy_insert times u x j :
  (u < length times)%nat -> busy_until (<[u := x]> times) j = if decide (j = u) then fst x else busy_until times j.
Proof.
  intros Hu. unfold busy_until. destruct (decide (j = u)) as [->|Hne].
  - by rewrite list_lookup_insert_eq.
  - by rewrite list_lookup_insert_ne.
Qed.

(** A model that always answers: infinitely many units, or as many as it says. *)
Definition cm_ok (c : ContentionModel) : Prop := m_num_outstanding c = 0 \/ cm_wf c.

Lemma cm_ok_unit c t : cm_ok c -> m_num_outstanding c <> 0 ->
  exists u x, find_unit (cm_time c) t 0 (units c) = Ok u /\ (u < length (cm_time c))%nat /\ rd (cm_time c) u = Ok x.
Proof.
  intros [?|[Hn Hl]] Hne; [done|].
  destruct (find_unit_spec (cm_time c) t) as (u & E & Hu & _); [intros E; rewrite E in Hl; cbn in Hl; lia|].
  destruct (rd_lookup _ _ Hu) as (x & Ex & _). exists u, x. unfold units. by rewrite <- Hl.
Qed.

Lemma getCompletionTime_total t d tag c :
  cm_ok c -> exists r c', getCompletionTime t d tag c = Ok (r, c') /\ cm_ok c'.
Proof.
  intros Hc. unfold getCompletionTime. destruct (Z.eqb_spec (m_num_outstanding c) 0) as [E|E]; [eauto|].
  destruct (t =? 0); [cbn; eauto 10|]. destruct (t <? m_t_last c); [cbn; eauto 10|].
  destruct (cm_ok_unit c t Hc E) as (u & x & -> & Hu & Ex). cbn [mbind res_bind]. rewrite Ex. cbn [mbind res_bind].
  rewrite wr_lt by done. cbn [mbind res_bind]. eexists _, _. split; [done|]. right. destruct Hc as [?|[]]; [done|].
  split; cbn; [done|by rewrite length_insert].
Qed.

Lemma getStartTime_total t c : cm_ok c -> exists r, getStartTime t c = Ok r /\ t <= r.
Proof.
  intros Hc. unfold getStartTime. destruct (Z.eqb_spec (m_num_outstanding c) 0) as [E|E]; [eauto with lia|].
  destruct (t <? m_t_last c); [eauto with lia|].
  destruct (cm_ok_unit c t Hc E) as (u & x & -> & Hu & Ex). cbn [mbind res_bind]. rewrite Ex. cbn [mbind res_bind].
  eexists. split; [done|]. destruct (Z.ltb_spec t (fst x)); lia.
Qed.

Lemma getTagCompletionTime_total tag c : cm_ok c -> exists r, getTagCompletionTime tag c = Ok r.
Proof.
  intros Hc. unfold getTagCompletionTime.
  assert (Hl : forall i, i ∈ units c -> (i < length (cm_time c))%nat).
  { intros i. unfold units. rewrite elem_of_seq. destruct Hc as [->|[_ ->]]; cbn; lia. }
  rewrite (find_loop_pure _ (fun i => from_option (fun x => snd x =? tag) false (cm_time c !! i))).
  2: { intros i Hi. unfold tag_at. destruct (rd_lookup _ _ (Hl i Hi)) as (x & -> & ->). done. }
  cbn [mbind res_bind]. destruct (first_such _ _) as [i|] eqn:E; [|eauto].
  apply first_such_Some in E as [Hi _]. destruct (rd_lookup _ _ (Hl i Hi)) as (x & -> & _). cbn. eauto.
Qed.

Lemma ContentionModel_new_ok n : 0 <= n -> cm_ok (ContentionModel_new n).
Proof.
  intros Hn. destruct (decide (n = 0)) as [->|]; [by left|right]. split; cbn; [lia|by rewrite length_replicate].
Qed.

(** A request that does not come out of order. *)
Lemma getCompletionTime_in_order t d tag c B :
  cm_wf c -> 0 < t -> m_t_last c <= t -> 0 <= d ->
  (forall j, (j < length (cm_time c))%nat -> busy_until (cm_time c) j <= B) -> t <= B -> B + d < 2 ^ 64 ->
  exists u c', let b := Z.max t (busy_until (cm_time c) u) in
    find_unit (cm_time c) t 0 (units c) = Ok u /\ chosen (cm_time c) t u /\
    getCompletionTime t d tag c = Ok (b + d, c') /\ cm_time c' = <[u := (b + d, tag)]> (cm_time c) /\
    m_num_outstanding c' = m_num_outstanding c /\ m_t_last c' = t.
Proof.
  intros [Hn Hl] Ht Hlast Hd HB HtB Hov.
  destruct (find_unit_spec (cm_time c) t) as (u & E & Hc); [intros E; rewrite E in Hl; cbn in Hl; lia|].
  pose proof (proj1 Hc) as Hu. destruct (rd_busy _ _ Hu) as (x & Ex & Ebu).
  exists u. eexists. cbn zeta. unfold units. split; [by rewrite <- Hl|]. split; [done|].
  unfold getCompletionTime, units. destruct (Z.eqb_spec (m_num_outstanding c) 0); [lia|].
  destruct (Z.eqb_spec t 0); [lia|]. destruct (Z.ltb_spec t (m_t_last c)); [lia|].
  rewrite <- Hl, E. cbn [mbind res_bind]. rewrite Ex. cbn [mbind res_bind]. rewrite Ebu.
  specialize (HB u Hu).
  assert (Eb : (if t <? busy_until (cm_time c) u then busy_until (cm_time c) u else t)
               = Z.max t (busy_until (cm_time c) u)) by (destruct (Z.ltb_spec t (busy_until (cm_time c) u)); lia).
  rewrite Eb. rewrite (wrap_small 64 (Z.max t _ + d)) by (split; lia).
  rewrite wr_lt by done. cbn [mbind res_bind]. split; [done|]. done.
Qed.

Record request := mkRequest { rq_start : Z; rq_delay : Z; rq_tag : Z }.

(** Requests one after the other, with the times from which to which they are served. *)
Fixpoint serve_all (l : list request) (c : ContentionModel) : res (list (Z * Z) * ContentionModel) :=
  match l with
  | [] => Ok ([], c)
  | r :: l' =>
      '(t_end, c) ← getCompletionTime (rq_start r) (rq_delay r) (rq_tag r) c;
      '(rest, c) ← serve_all l' c;
      Ok ((t_end - rq_delay r, t_end) :: rest, c)
  end.

Definition total_delay (l : list request) : Z := foldr (fun r s => rq_delay r + s) 0 l.

(** Requests arrive in order of their start times, after [t]. *)
Fixpoint in_order (t : Z) (l : list request) : Prop :=
  match l with
  | [] => True
  | r :: l' => 0 < rq_start r /\ t <= rq_start r /\ 0 <= rq_delay r /\ in_order (rq_start r) l'
  end.

Definition in_service (x : Z) (iv : Z * Z) : Prop := fst iv <= x < snd iv.
#[global] Instance in_service_dec x iv : Decision (in_service x iv).
Proof. unfold in_service. apply _. Defined.

(** Intervals with the unit that serves them: on one unit they follow each other. *)
Definition follows (a b : nat * (Z * Z)) : Prop := fst a = fst b -> snd (snd a) <= fst (snd b).

(** A request is served from its start or later, for as long as it takes. *)
Definition served_in (r : request) (iv : Z * Z) : Prop := rq_start r <= fst iv /\ snd iv = fst iv + rq_delay r.

Lemma serve_all_assigned l c T :
  cm_wf c -> in_order (m_t_last c) l -> Forall (fun r => rq_start r <= T) l ->
  (forall j, (j < length (cm_time c))%nat -> busy_until (cm_time c) j <= T) -> T + total_delay l < 2 ^ 64 ->
  exists us ivs c', serve_all l c = Ok (ivs, c') /\ length us = length ivs /\
    Forall (fun u => u < length (cm_time c))%nat us /\ StronglySorted follows (zip us ivs) /\
    Forall (fun a => busy_until (cm_time c) (fst a) <= fst (snd a)) (zip us ivs) /\ Forall2 served_in l ivs.
Proof.
  revert c T. induction l as [|r l IH]; intros c T Hwf Ho HT Hbusy Hov; cbn.
  - exists [], [], c. cbn. split_and!; try done; constructor.
  - destruct Ho as (Hs & Hlast & Hd & Ho). apply Forall_cons in HT as [HTr HT].
    cbn in Hov. fold (total_delay l) in Hov.
    assert (Hpos : 0 <= total_delay l).
    { clear -Ho. revert Ho. generalize (rq_start r). induction l as [|a l IHl]; cbn; intros t; [lia|].
      intros (_ & _ & ? & H). specialize (IHl _ H). fold (total_delay l). lia. }
    destruct (getCompletionTime_in_order (rq_start r) (rq_delay r) (rq_tag r) c T)
      as (u & c1 & _ & Hc & E & Etime & En & Elast); try done; [lia|].
    pose proof (proj1 Hc) as Hu. set (b := Z.max _ _) in *.
    assert (Hlen : length (cm_time c1) = length (cm_time c)) by (by rewrite Etime, length_insert).
    assert (Hb1 : forall j, busy_until (cm_time c1) j =
      if decide (j = u) then b + rq_delay r else busy_until (cm_time c) j)
      by (intros j; by rewrite Etime, busy_insert).
    destruct (IH c1 (T + rq_delay r)) as (us & ivs & c' & Es & El & Hus & Hss & Hge & H2).
    + split; [by rewrite En; apply Hwf|]. rewrite Hlen, En. apply Hwf.
    + by rewrite Elast.
    + eapply Forall_impl; [exact HT|]. cbn. lia.
    + rewrite Hlen. intros j Hj. rewrite Hb1. specialize (Hbusy j Hj) as Hbj.
      specialize (Hbusy u Hu). case_decide; unfold b in *; lia.
    + lia.
    + rewrite E. cbn [mbind res_bind]. rewrite Es. cbn [mbind res_bind].
      exists (u :: us), ((b + rq_delay r - rq_delay r, b + rq_delay r) :: ivs), c'. cbn [length zip_with].
      rewrite Hlen in Hus. split_and!; [done|lia|by constructor| | |].
      * constructor; [done|]. eapply Forall_impl; [exact Hge|]. intros [u' iv] H Heq. cbn in *. subst u'.
        rewrite Hb1, decide_True in H by done. done.
      * constructor; [cbn; lia|]. eapply Forall_impl; [exact Hge|]. intros [u' iv] H. cbn in *.
        rewrite Hb1 in H. case_decide as Eu; [|done]. subst. lia.
      * constructor; [|done]. split; cbn; unfold b; lia.
Qed.

Lemma in_service_units x l :
  StronglySorted follows l -> NoDup (filter (fun a => in_service x (snd a)) l).*1.
Proof.
  induction 1 as [|a l _ IH Ha]; [constructor|]. rewrite filter_cons. case_decide as Hx; [|done].
  cbn. constructor; [|done]. intros (b & Eb & Hb)%list_elem_of_fmap.
  apply list_elem_of_filter in Hb as [Hbx Hb]. rewrite Forall_forall in Ha. specialize (Ha b Hb Eb).
  unfold in_service in *. lia.
Qed.

Lemma filter_zip x (us : list nat) ivs :
  length us = length ivs ->
  length (filter (in_service x) ivs) = length (filter (fun a => in_service x (snd a)) (zip us ivs)).
Proof.
  revert us. induction ivs as [|iv ivs IH]; intros [|u us] Hl; try done. cbn [zip_with].
  rewrite !filter_cons. cbn [snd] in *. case_decide; cbn; rewrite IH with us; auto.
Qed.

Lemma new_busy n j : busy_until (cm_time (ContentionModel_new n)) j = 0.
Proof.
  unfold busy_until. cbn. destruct (replicate _ _ !! j) as [x|] eqn:E; [|done].
  by apply lookup_replicate in E as [-> _].
Qed.

(** C34: A resource with [n] units serves at most [n] requests at any time: whatever requests
    arrive in the order of their start times, each is served from its start time or later,
    for as long as it takes, and at every instant at most [n] of them are in service. *)
Theorem contention_capacity n l T :
  0 < n < 2 ^ 32 -> in_order 0 l -> Forall (fun r => rq_start r <= T) l -> 0 <= T ->
  T + total_delay l < 2 ^ 64 ->
  exists ivs c, serve_all l (ContentionModel_new n) = Ok (ivs, c) /\ Forall2 served_in l ivs /\
    forall x, Z.of_nat (length (filter (in_service x) ivs)) <= n.
Proof.
  intros Hn Ho HT H0 Hov.
  assert (Hlen : length (cm_time (ContentionModel_new n)) = Z.to_nat n) by (cbn; by rewrite length_replicate).
  destruct (serve_all_assigned l (ContentionModel_new n) T) as (us & ivs & c & E & El & Hus & Hs & _ & H2);
    [|done|done|intros j _; by rewrite new_busy|done|].
  { by split; [cbn; lia|]. }
  exists ivs, c. split; [done|]. split; [done|]. intros x. rewrite (filter_zip x us ivs El).
  set (f := filter _ _). assert (Hsub : f.*1 ⊆+ seq 0 (Z.to_nat n)).
  { apply NoDup_submseteq; [by apply in_service_units|]. intros u ([u' iv] & -> & Ha)%list_elem_of_fmap.
    apply list_elem_of_filter in Ha as [_ Ha]. apply elem_of_zip_l in Ha.
    rewrite Forall_forall in Hus. specialize (Hus _ Ha). rewrite Hlen in Hus. cbn. apply elem_of_seq. lia. }
  apply submseteq_length in Hsub. rewrite length_fmap, length_seq in Hsub. lia.
Qed.

Lemma contention_capacity_witness :
  exists ivs c, serve_all [mkRequest 10 5 0; mkRequest 11 5 1; mkRequest 12 5 2] (ContentionModel_new 2)
      = Ok (ivs, c) /\ Forall2 served_in [mkRequest 10 5 0; mkRequest 11 5 1; mkRequest 12 5 2] ivs /\ forall x, Z.of_nat (length (filter (in_service x) ivs)) <= 2.
Proof.
  apply (contention_capacity 2 _ 12); [lia|cbn; lia|repeat constructor; cbn; lia|lia|cbn; lia].
Defined.

Example contention_run :
  match serve_all [mkRequest 10 5 0; mkRequest 11 5 1; mkRequest 12 5 2] (ContentionModel_new 2) with
  | Ok (ivs, _) => ivs = [(10, 15); (11, 16); (15, 20)]
  | Err _ => False
  end.
Proof. reflexivity. Qed.

(** A request that is not out of order is served at once when a unit is free and else when
    the first unit becomes free; [getStartTime] announces exactly that time, and the unit is
    then busy until the completion time that is returned. *)
Theorem getCompletionTime_earliest t d tag c B :
  cm_wf c -> 0 < t -> m_t_last c <= t -> 0 <= d ->
  (forall j, (j < length (cm_time c))%nat -> busy_until (cm_time c) j <= B) -> t <= B -> B + d < 2 ^ 64 ->
  exists u b c', getStartTime t c = Ok b /\ getCompletionTime t d tag c = Ok (b + d, c') /\ cm_wf c' /\
    (b = t /\ busy_until (cm_time c) u <= t \/
     b = busy_until (cm_time c) u /\ t < b /\
     forall j, (j < length (cm_time c))%nat -> b <= busy_until (cm_time c) j) /\
    forall j, busy_until (cm_time c') j = if decide (j = u) then b + d else busy_until (cm_time c) j.
Proof.
  intros Hwf Ht Hlast Hd HB HtB Hov.
  destruct (getCompletionTime_in_order t d tag c B) as (u & c' & Ef & Hc & E & Etime & En & El); try done.
  set (b := Z.max t (busy_until (cm_time c) u)) in *. exists u, b, c'.
  pose proof Hwf as [Hn Hl]. pose proof (proj1 Hc) as Hu. split_and!; [|done| | |].
  - unfold getStartTime. destruct (Z.eqb_spec (m_num_outstanding c) 0); [lia|].
    destruct (Z.ltb_spec t (m_t_last c)); [lia|]. rewrite Ef. cbn [mbind res_bind].
    destruct (rd_busy _ _ Hu) as (x & Ex & Ey). rewrite Ex. cbn [mbind res_bind]. rewrite Ey.
    f_equal. unfold b.
    destruct (Z.ltb_spec t (busy_until (cm_time c) u)); lia.
  - split; [by rewrite En|by rewrite En, Etime, length_insert].
  - destruct Hc as [_ [H|[H1 H2]]]; [left|right]; unfold b; [lia|]. split_and!; [lia|lia|].
    intros j Hj. specialize (H2 j Hj). lia.
  - intros j. rewrite Etime. by apply busy_insert.
Qed.

Lemma getCompletionTime_earliest_witness :
  exists u b c', getStartTime 10 (ContentionModel_new 2) = Ok b /\
    getCompletionTime 10 5 0 (ContentionModel_new 2) = Ok (b + 5, c') /\ cm_wf c' /\
    (b = 10 /\ busy_until (cm_time (ContentionModel_new 2)) u <= 10 \/
     b = busy_until (cm_time (ContentionModel_new 2)) u /\ 10 < b /\
     forall j, (j < length (cm_time (ContentionModel_new 2)))%nat ->
       b <= busy_until (cm_time (ContentionModel_new 2)) j) /\
    forall j, busy_until (cm_time c') j =
      if decide (j = u) then b + 5 else busy_until (cm_time (ContentionModel_new 2)) j.
Proof.
  apply (getCompletionTime_earliest 10 5 0 (ContentionModel_new 2) 10);
    [split; [cbn; lia|reflexivity]|lia|cbn; lia|lia|intros j _; rewrite new_busy; lia|lia|lia].
Defined.

(** ** The history of free intervals *)

(** A list of intervals of at least [m], in order, from [lo] on. *)
Fixpoint chain (m lo : Z) (l : list (Z * Z)) : Prop :=
  match l with
  | [] => True
  | (a, b) :: l' => lo <= a /\ a + m <= b /\ b <= 2 ^ 63 /\ chain m b l'
  end.

Definition free_at (l : list (Z * Z)) (x : Z) : Prop := Exists (fun iv => fst iv <= x < snd iv) l.

Lemma chain_weaken m lo lo' l : chain m lo l -> lo' <= lo -> chain m lo' l.
Proof. destruct l as [|[a b] l]; cbn; [done|]. intuition lia. Qed.

Lemma chain_free m lo l x : 0 <= m -> chain m lo l -> free_at l x -> lo <= x.
Proof.
  intros Hm. revert lo. induction l as [|[a b] l IH]; cbn; intros lo Hc Hf; [by apply Exists_nil in Hf|].
  destruct Hc as (? & ? & _ & Hc). apply Exists_cons in Hf as [[Hf _]|Hf]; cbn in *; [lia|].
  specialize (IH b Hc Hf). lia.
Qed.

Lemma remainder_cases m a b :
  0 <= a <= b -> b < 2 ^ 64 -> remainder m a b = if decide (m <= b - a) then [(a, b)] else [].
Proof.
  intros Ha Hb. unfold remainder. rewrite wrap_small by (split; lia).
  destruct (Z.leb_spec m (b - a)); by case_decide; try lia.
Qed.

Lemma chain_remainder m lo a b l :
  0 <= a <= b -> b <= 2 ^ 63 -> lo <= a -> chain m b l -> chain m lo (remainder m a b ++ l).
Proof.
  intros Ha Hb Hlo Hc. rewrite remainder_cases by lia. case_decide; cbn.
  - split_and!; try lia. done.
  - eapply chain_weaken; [exact Hc|lia].
Qed.

Lemma free_remainder m a b l x :
  0 <= a <= b -> b <= 2 ^ 63 -> free_at (remainder m a b ++ l) x -> a <= x < b \/ free_at l x.
Proof.
  intros Ha Hb. rewrite remainder_cases by lia. case_decide; cbn; [|auto].
  intros [Hx|Hx]%Exists_cons; auto.
Qed.

(** The slot is taken from free time and is not free afterwards. *)
Lemma place_spec m lo p d l q l' :
  chain m lo l -> 0 <= lo -> 0 <= p -> 0 <= d <= m -> p + d <= 2 ^ 63 -> place m p d l = Some (q, l') ->
  chain m lo l' /\ 0 <= q /\ (forall x, p + q <= x < p + q + d -> free_at l x) /\
  (forall x, free_at l' x -> free_at l x /\ ~ (p + q <= x < p + q + d)).
Proof.
  intros Hc Hlo Hp Hd Hpd. revert lo q l' Hc Hlo.
  induction l as [|[a b] l IH]; intros lo q l' Hc Hlo; cbn; [done|].
  destruct Hc as (Hloa & Hm & Hb & Hc). rewrite (wrap_small 64 (p + d)) by (split; lia).
  destruct (Z.leb_spec a p) as [Hap|Hap]; [destruct (Z.leb_spec (p + d) b) as [Hfit|Hfit]|]; cbn [andb].
  - intros [= <- <-]. split_and!; [|lia| |].
    + apply chain_remainder; try lia. apply chain_remainder; try lia. done.
    + intros x Hx. apply Exists_cons. left. cbn. lia.
    + intros x Hx. rewrite Z.add_0_r. apply free_remainder in Hx as [Hx|Hx]; try lia.
      { split; [apply Exists_cons; left; cbn; lia|lia]. }
      apply free_remainder in Hx as [Hx|Hx]; try lia.
      { split; [apply Exists_cons; left; cbn; lia|lia]. }
      split; [apply Exists_cons; by right|]. apply (chain_free m b) in Hx; [lia|lia|done].
  - destruct (Z.ltb_spec p a); [lia|]. destruct (place m p d l) as [[q0 r]|] eqn:E; [|done].
    intros [= <- <-]. destruct (IH b q0 r Hc ltac:(lia) eq_refl) as (H1 & H2 & H3 & H4).
    split_and!; [by cbn; split_and!|done| |].
    + intros x Hx. apply Exists_cons. right. by apply H3.
    + intros x [Hx|Hx]%Exists_cons.
      * split; [apply Exists_cons; by left|]. intros Hs. cbn in Hx.
        apply H3, (chain_free m b) in Hs; [lia|lia|done].
      * destruct (H4 x Hx). split; [apply Exists_cons; by right|done].
  - destruct (Z.ltb_spec p a); [|lia]. intros [= <- <-].
    rewrite (wrap_small 64 (a - p)), (wrap_small 64 (a + d)) by (split; lia).
    replace (p + (a - p)) with a by lia. split_and!; [|lia| |].
    + apply chain_remainder; try lia. done.
    + intros x Hx. apply Exists_cons. left. cbn. lia.
    + intros x Hx. apply free_remainder in Hx as [Hx|Hx]; try lia.
      { split; [apply Exists_cons; left; cbn; lia|lia]. }
      split; [apply Exists_cons; by right|]. apply (chain_free m b) in Hx; [lia|lia|done].
Qed.

(** While the last interval is long enough there is a place. *)
Lemma place_total m lo p d l a A :
  chain m lo (l ++ [(a, 2 ^ 63)]) -> 0 <= lo -> 0 <= p <= A -> a <= A -> 0 <= d <= m ->
  A + d + m <= 2 ^ 63 ->
  exists q l' a', place m p d (l ++ [(a, 2 ^ 63)]) = Some (q, l' ++ [(a', 2 ^ 63)]) /\ a' <= A + d /\ q <= A.
Proof.
  intros Hc Hlo Hp Ha Hd HA. revert lo Hc Hlo. induction l as [|[a0 b0] l IH]; intros lo Hc Hlo; cbn [app place].
  - destruct Hc as (Hloa & Hm & _). rewrite (wrap_small 64 (p + d)) by (split; lia).
    destruct (Z.leb_spec a p); cbn [andb].
    + destruct (Z.leb_spec (p + d) (2 ^ 63)); [|lia].
      rewrite (remainder_cases m (p + d)), decide_True by lia.
      exists 0, (remainder m a p), (p + d). rewrite app_nil_r. split_and!; [done|lia|lia].
    + destruct (Z.ltb_spec p a); [|lia]. rewrite (wrap_small 64 (a + d)), (wrap_small 64 (a - p)) by (split; lia).
      rewrite remainder_cases, decide_True by lia. exists (a - p), [], (a + d). split_and!; [done|lia|lia].
  - destruct Hc as (Hloa & Hm & Hb & Hc). rewrite (wrap_small 64 (p + d)) by (split; lia).
    destruct (Z.leb_spec a0 p); [destruct (Z.leb_spec (p + d) b0)|]; cbn [andb].
    + exists 0, (remainder m a0 p ++ remainder m (p + d) b0 ++ l), a.
      split_and!; [by rewrite <- !app_assoc|lia|lia].
    + destruct (Z.ltb_spec p a0); [lia|].
      destruct (IH b0 Hc ltac:(lia)) as (q & l' & a' & -> & Ha' & Hq).
      exists q, ((a0, b0) :: l'), a'. done.
    + destruct (Z.ltb_spec p a0); [|lia]. rewrite (wrap_small 64 (a0 + d)), (wrap_small 64 (a0 - p)) by (split; lia).
      assert (a0 <= a).
      { clear -Hc Hm Hd. revert b0 Hc Hm. induction l as [|[x y] l IH]; cbn; intros b0; [lia|].
        intros (H1 & H2 & _ & Hc) Hm. specialize (IH y Hc). lia. }
      exists (a0 - p), (remainder m (a0 + d) b0 ++ l), a. split_and!; [by rewrite <- app_assoc|lia|lia].
Qed.

(** Requests for the resource (arrival, processing time) and the times at which they get it. *)
Fixpoint book (l : list (Z * Z)) (h : QueueModelHistoryList)
  : res (list (Z * Z) * QueueModelHistoryList) :=
  match l with
  | [] => Ok ([], h)
  | (p, d) :: l' =>
      '(delay, h) ← history_computeQueueDelay p d h;
      '(rest, h) ← book l' h;
      Ok ((p + delay, p + delay + d) :: rest, h)
  end.

Record hist (w : nat) (m A : Z) (h : QueueModelHistoryList) : Prop := {
  hi_min : m_min_processing_time h = m;
  hi_max : m_max_free_interval_list_size h = Z.of_nat w;
  hi_off : m_analytical_model_enabled h = false;
  hi_chain : chain m 0 (m_free_interval_list h);
  hi_size : (length (m_free_interval_list h) <= w)%nat;
  hi_last : exists l a, m_free_interval_list h = l ++ [(a, 2 ^ 63)] /\ a <= A;
  hi_avg : exists xs, mean_of w (m_average_delay h) xs
}.

Definition disjoint_slots (s s' : Z * Z) : Prop := forall x, in_service x s -> ~ in_service x s'.

Lemma chain_tail m lo x l : 0 <= m -> chain m lo (x :: l) -> chain m lo l.
Proof. destruct x as [a b]. intros Hm (? & ? & ? & Hc). eapply chain_weaken; [exact Hc|lia]. Qed.

Lemma place_length m p d l q l' : place m p d l = Some (q, l') -> (length l' <= S (length l))%nat.
Proof.
  assert (Hr : forall a b, (length (remainder m a b) <= 1)%nat) by (intros; unfold remainder; destruct (_ <=? _); cbn; lia).
  revert q l'. induction l as [|[a b] l IH]; intros q l'; cbn [place length]; [done|].
  destruct (_ && _); [|destruct (_ <? _)].
  - intros [= _ <-]. rewrite !length_app. pose proof (Hr a p). pose proof (Hr (p +64 d) b). lia.
  - intros [= _ <-]. rewrite !length_app. pose proof (Hr (a +64 d) b). lia.
  - destruct (place m p d l) as [[q0 r]|]; [|done]. intros [= _ <-]. cbn. specialize (IH q0 r eq_refl). lia.
Qed.

(** The oldest interval is forgotten when the list is full. *)
Lemma trim_spec w m A l2 l' a' :
  l2 = l' ++ [(a', 2 ^ 63)] -> (0 < w)%nat -> 0 <= m -> chain m 0 l2 -> a' <= A -> (length l2 <= S w)%nat ->
  let t := if Z.of_nat w <? Z.of_nat (length l2) then tail l2 else l2 in
  chain m 0 t /\ (length t <= w)%nat /\ (exists l a, t = l ++ [(a, 2 ^ 63)] /\ a <= A) /\
  (forall x, free_at t x -> free_at l2 x).
Proof.
  intros El Hw Hm Hc Ha Hl t. unfold t. destruct (Z.ltb_spec (Z.of_nat w) (Z.of_nat (length l2))).
  - destruct l' as [|iv l']; subst l2; cbn [app tail length] in *; [lia|].
    split_and!; [by eapply chain_tail|lia|by exists l', a'|]. intros x Hx. apply Exists_cons. by right.
  - split_and!; [done|lia|by exists l', a'|done].
Qed.

Lemma hist_step w m A h p d :
  hist w m A h -> (0 < w)%nat -> 0 <= p <= A -> 0 <= d <= m -> A + d + m <= 2 ^ 63 ->
  exists q h', history_computeQueueDelay p d h = Ok (q, h') /\ 0 <= q /\ hist w m (A + d) h' /\
    (forall x, p + q <= x < p + q + d -> free_at (m_free_interval_list h) x) /\
    (forall x, free_at (m_free_interval_list h') x ->
       free_at (m_free_interval_list h) x /\ ~ (p + q <= x < p + q + d)).
Proof.
  intros [Hm Hx Hoff Hc Hs (l & a & El & Ha) (xs & Hav)] Hw Hp Hd HA.
  rewrite El in Hc. destruct (place_total m 0 p d l a A Hc) as (q & l' & a' & E & Ha' & Hq); try lia.
  rewrite <- El in Hc, E. destruct (place_spec m 0 p d _ q (l' ++ [(a', 2 ^ 63)]) Hc) as (Hc' & Hq0 & H1 & H2); try done; try lia.
  assert (Hne : m_free_interval_list h <> []) by (rewrite El; by destruct l).
  destruct (mean_update w (m_average_delay h) xs q Hav) as (avg & Eavg & Havg).
  unfold history_computeQueueDelay, computeUsingHistoryList.
  destruct (m_free_interval_list h) as [|iv ivs] eqn:Eh; [done|]. rewrite <- Eh in *.
  rewrite Hoff, Hx, Hm, E. cbn [andb].
  destruct (Z.leb_spec (Z.of_nat (length (m_free_interval_list h))) (Z.of_nat w)); [|lia].
  cbn [check mbind res_bind]. destruct (Z.eqb_spec q MaxTime) as [Eq|_]; [unfold MaxTime in Eq; lia|].
  cbn [negb check mbind res_bind]. rewrite Eavg. cbn [mbind res_bind].
  apply place_length in E.
  destruct (trim_spec w m (A + d) _ l' a' eq_refl) as (T1 & T2 & T3 & T4); try done; try lia.
  eexists q, _. split; [done|]. split; [done|]. cbn [m_free_interval_list]. split_and!; [|done|].
  - split; cbn; try done. by eexists.
  - intros x Hfx. apply H2, T4. done.
Qed.

Lemma book_spec w m A l h :
  hist w m A h -> (0 < w)%nat -> 0 <= m -> Forall (fun r => 0 <= fst r <= A /\ 0 <= snd r <= m) l ->
  A + foldr (fun r s => snd r + s) 0 l + m <= 2 ^ 63 ->
  exists slots h', book l h = Ok (slots, h') /\
    Forall2 (fun r s => fst r <= fst s /\ snd s = fst s + snd r) l slots /\
    Forall (fun s => forall x, in_service x s -> free_at (m_free_interval_list h) x) slots /\
    StronglySorted disjoint_slots slots.
Proof.
  revert A h. induction l as [|[p d] l IH]; intros A h Hh Hw Hm Hl HA; cbn [book].
  - exists [], h. split_and!; try done; constructor.
  - apply Forall_cons in Hl as [[Hp Hd] Hl]. cbn [foldr fst snd] in *.
    assert (Hpos : 0 <= foldr (fun r s => snd r + s) 0 l).
    { clear -Hl. induction Hl as [|r l [_ Hr] _ IHl]; cbn; lia. }
    destruct (hist_step w m A h p d Hh Hw) as (q & h1 & E & Hq & Hh1 & Hf & Hsh); try lia.
    destruct (IH (A + d) h1 Hh1 Hw Hm) as (slots & h' & E' & H2 & Hfree & Hs); try lia.
    { eapply Forall_impl; [exact Hl|]. intros r [? ?]. lia. }
    rewrite E. cbn [mbind res_bind]. rewrite E'. cbn [mbind res_bind].
    exists ((p + q, p + q + d) :: slots), h'. split; [done|]. split_and!.
    + constructor; [cbn; lia|done].
    + constructor; [exact Hf|]. eapply Forall_impl; [exact Hfree|]. intros s Hsx x Hx. by apply Hsh, Hsx.
    + constructor; [done|]. eapply Forall_impl; [exact Hfree|]. intros s Hsx x Hx Hx'.
      apply Hsx, Hsh in Hx'. destruct Hx' as [_ Hn]. by apply Hn.
Qed.

(** C35: The history-list queue model, without its analytical model, never books the resource
    twice: requests of any arrival times, none longer than the minimal processing time of the model, all get a slot that
    starts at their arrival or later, and no two slots overlap, also after old free intervals
    were forgotten. Longer requests can get slots that overlap ([history_inverted_interval]). *)
Theorem history_slots_disjoint (w : nat) m T l :
  0 < Z.of_nat w < 2 ^ 31 - 1 -> 0 <= m -> 0 <= T ->
  Forall (fun r => 0 <= fst r <= T /\ 0 <= snd r <= m) l ->
  T + foldr (fun r s => snd r + s) 0 l + m <= 2 ^ 63 ->
  exists slots h, book l (QueueModelHistoryList_new false (Z.of_nat w) m) = Ok (slots, h) /\
    Forall2 (fun r s => fst r <= fst s /\ snd s = fst s + snd r) l slots /\
    StronglySorted disjoint_slots slots.
Proof.
  intros Hw Hm HT Hl HA.
  assert (Hpos : 0 <= foldr (fun r s => snd r + s) 0 l).
  { clear -Hl. induction Hl as [|r l [_ Hr] _ IHl]; cbn; lia. }
  destruct (book_spec w m T l (QueueModelHistoryList_new false (Z.of_nat w) m))
    as (slots & h & E & H2 & _ & Hs); try done; try lia; [|by exists slots, h].
  split; cbn [m_free_interval_list m_min_processing_time m_max_free_interval_list_size
    m_analytical_model_enabled m_average_delay QueueModelHistoryList_new]; try done.
  - cbn [chain]. lia.
  - cbn [length]. lia.
  - by exists [], 0.
  - exists []. split; [done|]. split; [exists 0; by apply ring_new|]. unfold lastn. by rewrite drop_nil.
Qed.

Lemma history_slots_disjoint_witness :
  exists slots h, book [(100, 10); (105, 10); (50, 10); (103, 10)]
      (QueueModelHistoryList_new false (Z.of_nat 8) 10) = Ok (slots, h) /\
    Forall2 (fun r s => fst r <= fst s /\ snd s = fst s + snd r)
      [(100, 10); (105, 10); (50, 10); (103, 10)] slots /\
    StronglySorted disjoint_slots slots.
Proof.
  apply (history_slots_disjoint 8 10 105); [lia|lia|lia| |cbn; lia]. repeat constructor; cbn; lia.
Defined.

Example history_run :
  match book [(100, 10); (105, 10); (50, 10); (103, 10)] (QueueModelHistoryList_new false 8 10) with
  | Ok (slots, _) => slots = [(100, 110); (110, 120); (50, 60); (120, 130)]
  | Err _ => False
  end.
Proof. vm_compute. reflexivity. Qed.

(** A request longer than the free interval that it is delayed to corrupts the history: the
    remaining length is computed with unsigned numbers, so that an interval is put back that
    ends before it starts, and the slot overlaps one that was given before. *)
Theorem history_inverted_interval :
  match book [(100, 10); (130, 10); (99, 100)] (QueueModelHistoryList_new false 8 5) with
  | Ok (slots, h) =>
      slots = [(100, 110); (130, 140); (110, 210)] /\
      m_free_interval_list h = [(0, 100); (210, 130); (140, 2 ^ 63)]
  | Err _ => False
  end.
Proof. vm_compute. split; reflexivity. Qed.

(** ** The interface of queue models *)

Class QueueModel (Q : Type) := computeQueueDelay : Z -> Z -> Q -> res (Z * Q).
#[global] Instance contention_queue : QueueModel ContentionModel := contention_computeQueueDelay.
#[global] Instance history_queue : QueueModel QueueModelHistoryList := history_computeQueueDelay.
