(* ===== verification/Directory.v ===== *)
(** * Directory entries and the directory cache

    The data of the coherence directory: [directory_schemes/directory_entry*.h] (which
    cores share a line, who owns it), [directory_schemes/directory.cc] (the array of
    entries, created on demand) and [dram_directory_cache.cc] (the set-associative
    organisation of the array, with the list of entries that were replaced while copies of
    their line are still outstanding).

    The theorems show that the organisation is transparent: whatever entries are created,
    moved to the replaced list or dropped, every address has one directory state, and
    looking it up never changes it. *)

From stdpp Require Import base tactics list numbers strings.
From Stdlib Require Import ZArith Lia.
From S2P Require Import Prelude Utils.
Local Open Scope Z_scope.

Definition INVALID_CORE_ID : Z := -1.
Definition INVALID_ADDRESS : Z := 2 ^ 64 - 1.

Module DirectoryState.
Inductive dstate_t := UNCACHED | SHARED | OWNED | MODIFIED | EXCLUSIVE.
#[global] Instance dstate_t_eq_dec : EqDecision dstate_t.
Proof. solve_decision. Defined.
End DirectoryState.
Abbreviation dstate_t := DirectoryState.dstate_t.

Inductive DirectoryType := FULL_MAP | LIMITED_NO_BROADCAST | LIMITLESS.

(** ** Simulated time

    [ShmemPerfModel] of the simulation thread: the elapsed time in femtoseconds. *)

Definition incrElapsedTime (elapsed time : Z) : res Z :=
  let t := u64 (elapsed + time) in
  check (elapsed <=? t) ClockOverflow;;
  Ok t.

Definition updateElapsedTime (elapsed time : Z) : Z :=
  if elapsed <? time then time else elapsed.

(** ** Entries *)

(** The dynamic class of an entry and the fields that the class adds. *)
Inductive entry_class :=
| DirectoryEntryLimitedNoBroadcast (m_rand_num : Random)
| DirectoryEntryLimitless (m_software_trap_enabled : bool) (m_software_trap_penalty : Z).

Record DirectoryEntry := mkEntry {
  de_address : Z;
  de_dstate : dstate_t;
  de_owner_id : Z;
  de_forwarder_id : Z;
  de_sharers : list bool;
  de_class : entry_class
}.

(** The constructor does not initialise [m_forwarder_id]: [forwarder] stands for the
    indeterminate value. *)
Definition DirectoryEntry_new (forwarder : Z) (size : nat) (cls : entry_class) : DirectoryEntry :=
  mkEntry INVALID_ADDRESS DirectoryState.UNCACHED INVALID_CORE_ID forwarder
    (replicate size false) cls.

Definition setAddress (a : Z) (e : DirectoryEntry) : DirectoryEntry :=
  mkEntry a (de_dstate e) (de_owner_id e) (de_forwarder_id e) (de_sharers e) (de_class e).
Definition setDState (d : dstate_t) (e : DirectoryEntry) : DirectoryEntry :=
  mkEntry (de_address e) d (de_owner_id e) (de_forwarder_id e) (de_sharers e) (de_class e).
Definition setForwarder (f : Z) (e : DirectoryEntry) : DirectoryEntry :=
  mkEntry (de_address e) (de_dstate e) (de_owner_id e) f (de_sharers e) (de_class e).
Definition set_sharers (l : list bool) (c : entry_class) (e : DirectoryEntry) : DirectoryEntry :=
  mkEntry (de_address e) (de_dstate e) (de_owner_id e) (de_forwarder_id e) l c.

(** [m_sharers[id]]: a negative id is converted to a huge index. *)
Definition sharer_at (l : list bool) (id : Z) : res bool :=
  if 0 <=? id then rd l (Z.to_nat id) else Err OutOfBounds.

(** The positions of the set bits, in increasing order. *)
Fixpoint set_positions (j : Z) (l : list bool) : list Z :=
  match l with
  | [] => []
  | b :: l' => if b then j :: set_positions (j + 1) l' else set_positions (j + 1) l'
  end.

Fixpoint count_set (l : list bool) : Z :=
  match l with
  | [] => 0
  | b :: l' => (if b then 1 else 0) + count_set l'
  end.

Definition hasSharer (e : DirectoryEntry) (sharer_id : Z) : res bool :=
  sharer_at (de_sharers e) sharer_id.

Definition getNumSharers (e : DirectoryEntry) : Z := count_set (de_sharers e).

Definition getSharersList (e : DirectoryEntry) : bool * list Z :=
  (false, set_positions 0 (de_sharers e)).

(** [addSharer] returns whether the sharer was added. The entry of a limitless directory
    compares the size of its bit set, not the number of sharers, with the hardware limit. *)
Definition addSharer (e : DirectoryEntry) (sharer_id max_hw_sharers : Z)
  : res (bool * DirectoryEntry) :=
  b ← sharer_at (de_sharers e) sharer_id;
  check (negb b) AssertFailed;;
  match de_class e with
  | DirectoryEntryLimitedNoBroadcast r =>
      if max_hw_sharers <=? getNumSharers e then Ok (false, e)
      else
        l ← wr (de_sharers e) (Z.to_nat sharer_id) true;
        Ok (true, set_sharers l (DirectoryEntryLimitedNoBroadcast r) e)
  | DirectoryEntryLimitless trap penalty =>
      let trap := if Z.of_nat (length (de_sharers e)) =? max_hw_sharers then true else trap in
      l ← wr (de_sharers e) (Z.to_nat sharer_id) true;
      Ok (true, set_sharers l (DirectoryEntryLimitless trap penalty) e)
  end.

Definition removeSharer (e : DirectoryEntry) (sharer_id : Z) (reply_expected : bool)
  : res DirectoryEntry :=
  check (negb reply_expected) AssertFailed;;
  b ← sharer_at (de_sharers e) sharer_id;
  check b AssertFailed;;
  l ← wr (de_sharers e) (Z.to_nat sharer_id) false;
  Ok (set_sharers l (de_class e) e).

Definition setOwner (owner_id : Z) (e : DirectoryEntry) : res DirectoryEntry :=
  (if owner_id =? INVALID_CORE_ID then Ok tt
   else b ← sharer_at (de_sharers e) owner_id; check b AssertFailed);;
  Ok (mkEntry (de_address e) (de_dstate e) owner_id (de_forwarder_id e) (de_sharers e) (de_class e)).

(** [getOneSharer]: a random sharer of a limited entry, the first one of a limitless entry. *)
Definition getOneSharer (e : DirectoryEntry) : res (Z * DirectoryEntry) :=
  let sharers := set_positions 0 (de_sharers e) in
  match de_class e with
  | DirectoryEntryLimitedNoBroadcast r =>
      check (negb (bool_decide (sharers = []))) AssertFailed;;
      '(index, r) ← Random_next (Z.of_nat (length sharers)) r;
      id ← rd sharers (Z.to_nat index);
      Ok (id, set_sharers (de_sharers e) (DirectoryEntryLimitedNoBroadcast r) e)
  | DirectoryEntryLimitless _ _ =>
      match sharers with
      | id :: _ => Ok (id, e)
      | [] => Err AssertFailed
      end
  end.

Definition getLatency (e : DirectoryEntry) : Z :=
  match de_class e with
  | DirectoryEntryLimitedNoBroadcast _ => 0
  | DirectoryEntryLimitless trap penalty => if trap then penalty else 0
  end.

(** ** The directory *)

Record Directory := mkDirectory {
  m_directory_type : DirectoryType;
  m_num_entries : Z;
  m_num_entries_allocated : Z;
  m_max_hw_sharers : Z;
  m_use_max_hw_sharers : Z;
  m_max_num_sharers : Z;
  m_limitless_software_trap_penalty : Z;
  m_directory_entry_list : list (option DirectoryEntry);
  (** what the allocator leaves in the field of the n-th entry that is created *)
  indeterminate : nat -> Z;
  entries_created : nat
}.

Definition parseDirectoryType (directory_type_str : string) : res DirectoryType :=
  if bool_decide (directory_type_str = "full_map"%string) then Ok FULL_MAP
  else if bool_decide (directory_type_str = "limited_no_broadcast"%string)
  then Ok LIMITED_NO_BROADCAST
  else if bool_decide (directory_type_str = "limitless"%string) then Ok LIMITLESS
  else Err LogError.

(** [trap_penalty] is the value of the configuration that only limitless directories read. *)
Definition Directory_new (directory_type_str : string) (num_entries max_hw_sharers max_num_sharers
    trap_penalty : Z) (junk : nat -> Z) : res Directory :=
  ty ← parseDirectoryType directory_type_str;
  Ok (mkDirectory ty num_entries 0 max_hw_sharers max_hw_sharers max_num_sharers
        (match ty with LIMITLESS => trap_penalty | _ => 0 end)
        (replicate (Z.to_nat num_entries) None) junk 0).

(** The size of the bit set, or vector, that [createDirectoryEntry] chooses. *)
Definition sharers_size (max_num_sharers : Z) : nat :=
  if max_num_sharers <=? 64 then 64%nat
  else if max_num_sharers <=? 128 then 128%nat
  else if max_num_sharers <=? 256 then 256%nat
  else if max_num_sharers <=? 1024 then 1024%nat
  else Z.to_nat max_num_sharers.

Definition createDirectoryEntrySized (d : Directory) (size : nat) : DirectoryEntry * Directory :=
  let fresh := DirectoryEntry_new (indeterminate d (entries_created d)) size in
  let made use := mkDirectory (m_directory_type d) (m_num_entries d) (m_num_entries_allocated d)
    (m_max_hw_sharers d) use (m_max_num_sharers d) (m_limitless_software_trap_penalty d)
    (m_directory_entry_list d) (indeterminate d) (S (entries_created d)) in
  match m_directory_type d with
  | FULL_MAP =>
      (fresh (DirectoryEntryLimitedNoBroadcast Random_init), made (m_max_num_sharers d))
  | LIMITED_NO_BROADCAST =>
      (fresh (DirectoryEntryLimitedNoBroadcast Random_init), made (m_use_max_hw_sharers d))
  | LIMITLESS =>
      (fresh (DirectoryEntryLimitless false (m_limitless_software_trap_penalty d)),
       made (m_use_max_hw_sharers d))
  end.

Definition createDirectoryEntry (d : Directory) : DirectoryEntry * Directory :=
  createDirectoryEntrySized d (sharers_size (m_max_num_sharers d)).

Definition set_entries (l : list (option DirectoryEntry)) (allocated : Z) (d : Directory) : Directory :=
  mkDirectory (m_directory_type d) (m_num_entries d) allocated (m_max_hw_sharers d)
    (m_use_max_hw_sharers d) (m_max_num_sharers d) (m_limitless_software_trap_penalty d)
    l (indeterminate d) (entries_created d).

(** [Directory::getDirectoryEntry] creates the entry at its first use. *)
Definition slot_entry (d : Directory) (entry_num : Z) : res (DirectoryEntry * Directory) :=
  check (entry_num <? m_num_entries d) LogError;;
  o ← rd (m_directory_entry_list d) (Z.to_nat entry_num);
  match o with
  | Some e => Ok (e, d)
  | None =>
      let '(e, d) := createDirectoryEntry d in
      l ← wr (m_directory_entry_list d) (Z.to_nat entry_num) (Some e);
      Ok (e, set_entries l (u64 (m_num_entries_allocated d + 1)) d)
  end.

Definition setDirectoryEntry (d : Directory) (entry_num : Z) (e : DirectoryEntry) : res Directory :=
  l ← wr (m_directory_entry_list d) (Z.to_nat entry_num) (Some e);
  Ok (set_entries l (m_num_entries_allocated d) d).

(** ** The directory cache *)

Record DramDirectoryCache := mkDirCache {
  m_directory : Directory;
  m_replacement_ptrs : list Z;
  m_replaced_directory_entry_list : list DirectoryEntry;
  m_total_entries : Z;
  dd_associativity : Z;
  dd_num_sets : Z;
  dd_cache_block_size : Z;
  dd_log_num_sets : Z;
  dd_log_cache_block_size : Z;
  m_dram_directory_cache_access_time : Z
}.

Definition set_directory (d : Directory) (dc : DramDirectoryCache) : DramDirectoryCache :=
  mkDirCache d (m_replacement_ptrs dc) (m_replaced_directory_entry_list dc) (m_total_entries dc)
    (dd_associativity dc) (dd_num_sets dc) (dd_cache_block_size dc) (dd_log_num_sets dc)
    (dd_log_cache_block_size dc) (m_dram_directory_cache_access_time dc).
Definition set_replaced (l : list DirectoryEntry) (dc : DramDirectoryCache) : DramDirectoryCache :=
  mkDirCache (m_directory dc) (m_replacement_ptrs dc) l (m_total_entries dc)
    (dd_associativity dc) (dd_num_sets dc) (dd_cache_block_size dc) (dd_log_num_sets dc)
    (dd_log_cache_block_size dc) (m_dram_directory_cache_access_time dc).
Definition set_ptrs (l : list Z) (dc : DramDirectoryCache) : DramDirectoryCache :=
  mkDirCache (m_directory dc) l (m_replaced_directory_entry_list dc) (m_total_entries dc)
    (dd_associativity dc) (dd_num_sets dc) (dd_cache_block_size dc) (dd_log_num_sets dc)
    (dd_log_cache_block_size dc) (m_dram_directory_cache_access_time dc).

(** The constructor allocates the replacement pointers without initialising them: [ptrs]
    stands for their indeterminate values. *)
Definition DramDirectoryCache_new (directory_type_str : string) (total_entries associativity
    cache_block_size max_hw_sharers max_num_sharers access_time trap_penalty : Z)
    (junk : nat -> Z) (ptrs : nat -> Z) : res DramDirectoryCache :=
  check (negb (associativity =? 0)) DivByZero;;
  let num_sets := total_entries / associativity in
  d ← Directory_new directory_type_str total_entries max_hw_sharers max_num_sharers trap_penalty junk;
  Ok (mkDirCache d (map (fun i => u32 (ptrs i)) (seq 0 (Z.to_nat num_sets))) [] total_entries
        associativity num_sets cache_block_size (u32 (floorLog2 num_sets))
        (u32 (floorLog2 cache_block_size)) access_time).

Definition getMaxHwSharers (dc : DramDirectoryCache) : Z := m_use_max_hw_sharers (m_directory dc).

Definition dd_splitAddress (dc : DramDirectoryCache) (address : Z) : res (Z * Z) :=
  check ((dd_log_cache_block_size dc <? 64) && (dd_log_num_sets dc <? 64)) BadShift;;
  let cache_block_address := Z.shiftr address (dd_log_cache_block_size dc) in
  let tag := Z.shiftr cache_block_address (dd_log_num_sets dc) in
  let set_index := Z.land (u32 cache_block_address) (u32 (dd_num_sets dc - 1)) in
  Ok (tag, set_index).

(** What a [DirectoryEntry*] points to: an entry of the directory or of the replaced list. *)
Inductive entry_ref := InSlot (n : nat) | InReplaced (k : nat).

Definition read_ref (dc : DramDirectoryCache) (r : entry_ref) : res DirectoryEntry :=
  match r with
  | InSlot n => o ← rd (m_directory_entry_list (m_directory dc)) n; deref o
  | InReplaced k => rd (m_replaced_directory_entry_list dc) k
  end.

Definition write_ref (dc : DramDirectoryCache) (r : entry_ref) (e : DirectoryEntry)
  : res DramDirectoryCache :=
  match r with
  | InSlot n =>
      d ← setDirectoryEntry (m_directory dc) (Z.of_nat n) e;
      Ok (set_directory d dc)
  | InReplaced k =>
      l ← wr (m_replaced_directory_entry_list dc) k e;
      Ok (set_replaced l dc)
  end.

(** The loops over the ways of a set: the entry numbers are visited in the given order,
    created on demand, until one satisfies the test. *)
Fixpoint scan_slots (test : DirectoryEntry -> bool) (d : Directory) (nums : list Z)
  : res (option Z * Directory) :=
  match nums with
  | [] => Ok (None, d)
  | n :: nums' =>
      '(e, d) ← slot_entry d n;
      if test e then Ok (Some n, d) else scan_slots test d nums'
  end.

Definition set_slots (dc : DramDirectoryCache) (set_index : Z) : list Z :=
  map (fun i => u32 (u32 (set_index * dd_associativity dc) + Z.of_nat i))
    (seq 0 (Z.to_nat (dd_associativity dc))).

Definition at_address (address : Z) (e : DirectoryEntry) : bool := de_address e =? address.

(** The index of the first replaced entry of an address. *)
Fixpoint find_replaced (address : Z) (k : nat) (l : list DirectoryEntry) : option nat :=
  match l with
  | [] => None
  | e :: l' => if at_address address e then Some k else find_replaced address (S k) l'
  end.

(** The three searches for the entry of an address: its own entry in its set (returned a
    second time, for the latency of the access), a free entry of the set, the replaced list. *)
Definition find_entry (dc : DramDirectoryCache) (address : Z)
  : res (option entry_ref * option DirectoryEntry * DramDirectoryCache) :=
  '(_, set_index) ← dd_splitAddress dc address;
  '(found, d) ← scan_slots (at_address address) (m_directory dc) (set_slots dc set_index);
  match found with
  | Some n =>
      '(e, d) ← slot_entry d n;
      Ok (Some (InSlot (Z.to_nat n)), Some e, set_directory d dc)
  | None =>
      '(free, d) ← scan_slots (at_address INVALID_ADDRESS) d (set_slots dc set_index);
      match free with
      | Some n =>
          '(e, d) ← slot_entry d n;
          d ← setDirectoryEntry d n (setAddress address e);
          Ok (Some (InSlot (Z.to_nat n)), None, set_directory d dc)
      | None =>
          Ok (InReplaced <$> find_replaced address 0 (m_replaced_directory_entry_list dc), None,
              set_directory d dc)
      end
  end.

Definition getDirectoryEntry (dc : DramDirectoryCache) (address : Z) (modeled : bool) (elapsed : Z)
  : res (option entry_ref * DramDirectoryCache * Z) :=
  elapsed ← (if modeled then incrElapsedTime elapsed (m_dram_directory_cache_access_time dc)
             else Ok elapsed);
  '(o, hit, dc) ← find_entry dc address;
  elapsed ← (match hit with
             | Some e => if modeled then incrElapsedTime elapsed (getLatency e) else Ok elapsed
             | None => Ok elapsed
             end);
  Ok (o, dc, elapsed).

(** The replacement candidates of a set, starting at its replacement pointer. *)
Fixpoint candidates (d : Directory) (nums : list Z) : res (list nat * Directory) :=
  match nums with
  | [] => Ok ([], d)
  | n :: nums' =>
      '(_, d) ← slot_entry d n;
      '(l, d) ← candidates d nums';
      Ok (Z.to_nat n :: l, d)
  end.

Definition getReplacementCandidates (dc : DramDirectoryCache) (address : Z)
  : res (list nat * DramDirectoryCache) :=
  '(o, dc, _) ← getDirectoryEntry dc address false 0;
  check (bool_decide (o = None)) AssertFailed;;
  '(_, set_index) ← dd_splitAddress dc address;
  ptr ← rd (m_replacement_ptrs dc) (Z.to_nat set_index);
  let nums := map (fun i => u32 (u32 (set_index * dd_associativity dc)
                + (u32 (Z.of_nat i + ptr) `mod` dd_associativity dc)))
                (seq 0 (Z.to_nat (dd_associativity dc))) in
  '(l, d) ← candidates (m_directory dc) nums;
  ptrs ← wr (m_replacement_ptrs dc) (Z.to_nat set_index) (u32 (ptr + 1));
  Ok (l, set_ptrs ptrs (set_directory d dc)).

Definition replaceDirectoryEntry (dc : DramDirectoryCache) (replaced_address address : Z)
    (modeled : bool) (elapsed : Z) : res (nat * DramDirectoryCache * Z) :=
  elapsed ← (if modeled then incrElapsedTime elapsed (m_dram_directory_cache_access_time dc)
             else Ok elapsed);
  '(_, set_index) ← dd_splitAddress dc replaced_address;
  '(found, d) ← scan_slots (at_address replaced_address) (m_directory dc) (set_slots dc set_index);
  match found with
  | Some n =>
      '(replaced, d) ← slot_entry d n;
      let '(e, d) := createDirectoryEntry d in
      d ← setDirectoryEntry d n (setAddress address e);
      Ok (Z.to_nat n, set_replaced (m_replaced_directory_entry_list dc ++ [replaced])
                        (set_directory d dc), elapsed)
  | None => Err LogError
  end.

Definition invalidateDirectoryEntry (dc : DramDirectoryCache) (address : Z)
  : res DramDirectoryCache :=
  match find_replaced address 0 (m_replaced_directory_entry_list dc) with
  | Some k => Ok (set_replaced (delete k (m_replaced_directory_entry_list dc)) dc)
  | None => Err LogError
  end.

(** ** The abstract directory: one state per address *)

Record line := mkLine { l_state : dstate_t; l_sharers : list Z; l_owner : Z }.
Definition no_line : line := mkLine DirectoryState.UNCACHED [] INVALID_CORE_ID.

(** What an entry says of its line; the owner field counts in the owned states only. *)
Definition entry_line (e : DirectoryEntry) : line :=
  mkLine (de_dstate e) (set_positions 0 (de_sharers e))
    (match de_dstate e with
     | DirectoryState.MODIFIED | DirectoryState.EXCLUSIVE => de_owner_id e
     | _ => INVALID_CORE_ID
     end).

Definition entries (dc : DramDirectoryCache) : list DirectoryEntry :=
  omap id (m_directory_entry_list (m_directory dc)) ++ m_replaced_directory_entry_list dc.

Definition line_at (dc : DramDirectoryCache) (a : Z) : line :=
  match list_find (fun e => de_address e = a) (entries dc) with
  | Some (_, e) => entry_line e
  | None => no_line
  end.

Definition set_of (dc : DramDirectoryCache) (a : Z) : Z :=
  Z.land (u32 (Z.shiftr a (dd_log_cache_block_size dc))) (u32 (dd_num_sets dc - 1)).

(** The entry in a slot. *)
Definition slot (dc : DramDirectoryCache) (n : nat) : option DirectoryEntry :=
  mjoin (m_directory_entry_list (m_directory dc) !! n).

(** The representation invariant: an address has at most one entry, in its own set or in
    the replaced list; an address is in the replaced list only when its set is full. *)
Record dircache_wf (dc : DramDirectoryCache) : Prop := {
  dw_assoc : 0 < dd_associativity dc;
  dw_sets : 0 < dd_num_sets dc;
  dw_fit : dd_num_sets dc * dd_associativity dc <= m_num_entries (m_directory dc) < 2 ^ 32;
  dw_len : length (m_directory_entry_list (m_directory dc)) = Z.to_nat (m_num_entries (m_directory dc));
  dw_logs : dd_log_cache_block_size dc < 64 /\ dd_log_num_sets dc < 64;
  dw_ptrs : length (m_replacement_ptrs dc) = Z.to_nat (dd_num_sets dc);
  dw_home : forall n e, slot dc n = Some e -> de_address e <> INVALID_ADDRESS ->
    Z.of_nat n ∈ set_slots dc (set_of dc (de_address e));
  dw_unique : forall n m e e', slot dc n = Some e -> slot dc m = Some e' ->
    de_address e = de_address e' -> de_address e <> INVALID_ADDRESS -> n = m;
  dw_nodup : NoDup (de_address <$> m_replaced_directory_entry_list dc);
  dw_full : forall e, e ∈ m_replaced_directory_entry_list dc -> de_address e <> INVALID_ADDRESS /\
    forall n, n ∈ set_slots dc (set_of dc (de_address e)) ->
      exists e', slot dc (Z.to_nat n) = Some e' /\
        de_address e' <> INVALID_ADDRESS /\ de_address e' <> de_address e;
  dw_free : forall n e, slot dc n = Some e -> de_address e = INVALID_ADDRESS ->
    entry_line e = no_line
}.

(** ** Lemmas *)

Lemma set_positions_nil j l : set_positions j l = [] <-> count_set l = 0.
Proof.
  revert j. induction l as [|[] l IH]; intros j; cbn; [done| |apply IH].
  split; [done|]. assert (0 <= count_set l); [|lia]. clear. induction l as [|[] l IH]; cbn; lia.
Qed.

Lemma length_set_positions j l : Z.of_nat (length (set_positions j l)) = count_set l.
Proof.
  revert j. induction l as [|[] l IH]; intros j; cbn; [done| |apply IH].
  rewrite Nat2Z.inj_succ, IH. lia.
Qed.

Lemma elem_of_set_positions j l x :
  x ∈ set_positions j l <-> j <= x /\ l !! Z.to_nat (x - j) = Some true.
Proof.
  revert j. induction l as [|b l IH]; intros j; cbn.
  { split; [intros H; by apply not_elem_of_nil in H|intros []; done]. }
  assert (Hx : j + 1 <= x -> Z.to_nat (x - j) = S (Z.to_nat (x - (j + 1)))) by lia.
  destruct b; rewrite ?elem_of_cons, IH; (destruct (decide (x = j)) as [->|Hn];
    [rewrite Z.sub_diag; cbn; split; intros; try lia; naive_solver|]).
  - split.
    + intros [?|[? H]]; [lia|]. rewrite Hx by lia. cbn. split; [lia|done].
    + intros [? H]. right. rewrite Hx in H by lia. split; [lia|done].
  - split.
    + intros [? H]. rewrite Hx by lia. cbn. split; [lia|done].
    + intros [? H]. rewrite Hx in H by lia. split; [lia|done].
Qed.

Lemma elem_of_sharers e x :
  x ∈ l_sharers (entry_line e) <-> hasSharer e x = Ok true.
Proof.
  cbn. rewrite elem_of_set_positions, Z.sub_0_r. unfold hasSharer, sharer_at.
  destruct (Z.leb_spec 0 x); [|split; [lia|done]]. rewrite rd_Ok. naive_solver.
Qed.

Lemma NoDup_set_positions j l : NoDup (set_positions j l).
Proof.
  revert j. induction l as [|[] l IH]; intros j; cbn; [constructor| |apply IH].
  constructor; [|apply IH]. rewrite elem_of_set_positions. lia.
Qed.

Section slots.
Context (dc : DramDirectoryCache) (Hwf : dircache_wf dc).

Lemma set_of_range a : 0 <= set_of dc a < dd_num_sets dc.
Proof.
  pose proof (dw_sets _ Hwf). pose proof (dw_fit _ Hwf). pose proof (dw_assoc _ Hwf).
  unfold set_of. rewrite (wrap_small 32 (_ - 1)) by (split; nia). split.
  - apply Z.land_nonneg. right. lia.
  - pose proof (Z.log2_nonneg (dd_num_sets dc - 1)).
    assert (Z.land (u32 (Z.shiftr a (dd_log_cache_block_size dc))) (dd_num_sets dc - 1)
      <= dd_num_sets dc - 1); [|lia].
    apply Z.ldiff_le; [lia|]. apply Z.bits_inj'. intros i Hi.
    rewrite Z.ldiff_spec, Z.land_spec, Z.bits_0. by destruct (Z.testbit _ i), (Z.testbit _ i).
Qed.

Lemma splitAddress_set a : exists tag, dd_splitAddress dc a = Ok (tag, set_of dc a).
Proof.
  unfold dd_splitAddress. destruct (dw_logs _ Hwf) as [H1 H2].
  apply Z.ltb_lt in H1, H2. rewrite H1, H2. cbn. by eexists.
Qed.

Lemma elem_of_set_slots s n :
  0 <= s < dd_num_sets dc ->
  n ∈ set_slots dc s <-> s * dd_associativity dc <= n < (s + 1) * dd_associativity dc.
Proof.
  intros Hs. pose proof (dw_fit _ Hwf). pose proof (dw_assoc _ Hwf). unfold set_slots.
  assert (E : forall i, (i < Z.to_nat (dd_associativity dc))%nat ->
    u32 (u32 (s * dd_associativity dc) + Z.of_nat i) = s * dd_associativity dc + Z.of_nat i).
  { intros i Hi. rewrite (wrap_small 32 (s * _)) by (split; nia). apply wrap_small. split; nia. }
  rewrite list_elem_of_fmap. setoid_rewrite elem_of_seq. split.
  - intros (i & -> & Hi). rewrite E by lia. lia.
  - intros Hn. exists (Z.to_nat (n - s * dd_associativity dc)). split; [|lia]. rewrite E by lia. lia.
Qed.

Lemma set_slots_range a n : n ∈ set_slots dc (set_of dc a) -> 0 <= n < m_num_entries (m_directory dc).
Proof.
  pose proof (set_of_range a) as Hs. rewrite elem_of_set_slots by done.
  pose proof (dw_fit _ Hwf). pose proof (dw_assoc _ Hwf). nia.
Qed.

(** A slot belongs to one set. *)
Lemma set_slots_disjoint s s' n :
  0 <= s < dd_num_sets dc -> 0 <= s' < dd_num_sets dc ->
  n ∈ set_slots dc s -> n ∈ set_slots dc s' -> s = s'.
Proof.
  intros Hs Hs'. rewrite !elem_of_set_slots by done. pose proof (dw_assoc _ Hwf). nia.
Qed.

End slots.

(** References: where the entries are. *)

Lemma read_slot dc n e : read_ref dc (InSlot n) = Ok e <-> slot dc n = Some e.
Proof.
  cbn. unfold slot, rd. destruct (_ !! n) as [[x|]|]; cbn; naive_solver.
Qed.

Lemma read_replaced dc k e :
  read_ref dc (InReplaced k) = Ok e <-> m_replaced_directory_entry_list dc !! k = Some e.
Proof. apply rd_Ok. Qed.

Lemma elem_of_entries dc e : e ∈ entries dc <-> exists r, read_ref dc r = Ok e.
Proof.
  unfold entries. rewrite elem_of_app, list_elem_of_omap. split.
  - intros [(o & Ho & Heq)|H].
    + destruct o as [x|]; [|done]. cbn in Heq. injection Heq as ->.
      apply list_elem_of_lookup in Ho as [n Hn]. exists (InSlot n). apply read_slot.
      unfold slot. by rewrite Hn.
    + apply list_elem_of_lookup in H as [k Hk]. exists (InReplaced k). by apply read_replaced.
  - intros [[n|k] H].
    + left. apply read_slot in H. unfold slot in H. destruct (_ !! n) as [[x|]|] eqn:E; try done.
      exists (Some x). split; [by eapply list_elem_of_lookup_2|done].
    + right. apply read_replaced in H. by eapply list_elem_of_lookup_2.
Qed.

Lemma ref_unique dc r r' e e' :
  dircache_wf dc -> read_ref dc r = Ok e -> read_ref dc r' = Ok e' ->
  de_address e = de_address e' -> de_address e <> INVALID_ADDRESS -> r = r'.
Proof.
  intros Hwf.
  assert (X : forall n k e e', slot dc n = Some e ->
    m_replaced_directory_entry_list dc !! k = Some e' -> de_address e = de_address e' -> False).
  { intros n k x x' Hn Hk Ha. apply list_elem_of_lookup_2 in Hk as Hin.
    destruct (dw_full _ Hwf _ Hin) as [Hi Hf]. destruct (Hf (Z.of_nat n)) as (y & Hy & _ & Hd).
    - rewrite <- Ha. apply (dw_home _ Hwf _ _ Hn). by rewrite Ha.
    - rewrite Nat2Z.id, Hn in Hy. injection Hy as <-. done. }
  destruct r as [n|k], r' as [m|l]; rewrite ?read_slot, ?read_replaced; intros H1 H2 Ha Hi.
  - f_equal. by eapply dw_unique.
  - exfalso. by eapply X.
  - exfalso. by eapply X.
  - f_equal. eapply NoDup_lookup; [apply (dw_nodup _ Hwf)|..].
    + rewrite list_lookup_fmap, H1. done.
    + rewrite list_lookup_fmap, H2. cbn. by rewrite Ha.
Qed.

Lemma line_at_present dc r e :
  dircache_wf dc -> read_ref dc r = Ok e -> de_address e <> INVALID_ADDRESS ->
  line_at dc (de_address e) = entry_line e.
Proof.
  intros Hwf Hr Hi. unfold line_at. destruct (list_find _ _) as [[k e']|] eqn:E.
  - apply list_find_Some in E as (Hk & Ha & _). apply list_elem_of_lookup_2 in Hk.
    apply elem_of_entries in Hk as [r' Hr'].
    assert (r = r') as <- by (by eapply (ref_unique dc)). congruence.
  - apply list_find_None in E. exfalso. rewrite Forall_forall in E.
    apply (E e); [|done]. apply elem_of_entries. by eexists.
Qed.

Lemma line_at_absent dc a :
  (forall r e, read_ref dc r = Ok e -> de_address e <> a) -> line_at dc a = no_line.
Proof.
  intros H. unfold line_at. destruct (list_find _ _) as [[k e']|] eqn:E; [|done].
  apply list_find_Some in E as (Hk & Ha & _). apply list_elem_of_lookup_2 in Hk.
  apply elem_of_entries in Hk as [r' Hr']. by eapply H in Hr'.
Qed.

Lemma line_at_cases dc a :
  (exists r e, read_ref dc r = Ok e /\ de_address e = a) \/
  (forall r e, read_ref dc r = Ok e -> de_address e <> a).
Proof.
  destruct (list_find (fun e => de_address e = a) (entries dc)) as [[k e]|] eqn:E.
  - left. apply list_find_Some in E as (Hk & Ha & _). apply list_elem_of_lookup_2 in Hk.
    apply elem_of_entries in Hk as [r Hr]. eauto.
  - right. apply list_find_None in E. rewrite Forall_forall in E. intros r e Hr.
    apply E, elem_of_entries. eauto.
Qed.

(** Two caches that hold the same entries of an address give it the same state. *)
Lemma line_at_ext dc dc' a :
  dircache_wf dc -> dircache_wf dc' -> a <> INVALID_ADDRESS ->
  (forall r e, read_ref dc r = Ok e -> de_address e = a -> exists r', read_ref dc' r' = Ok e) ->
  (forall r e, read_ref dc' r = Ok e -> de_address e = a -> entry_line e = no_line \/
     exists r', read_ref dc r' = Ok e) ->
  line_at dc' a = line_at dc a.
Proof.
  intros Hw Hw' Hi H1 H2. destruct (line_at_cases dc' a) as [(r & e & Hr & Ha)|Hn].
  - subst a. rewrite (line_at_present dc' r e) by done.
    destruct (H2 r e Hr eq_refl) as [He|[r' Hr']].
    + destruct (line_at_cases dc (de_address e)) as [(r1 & e1 & Hr1 & Ha1)|Hn].
      * rewrite <- Ha1. rewrite (line_at_present dc r1 e1) by (done || by rewrite Ha1).
        destruct (H1 r1 e1 Hr1 Ha1) as [r2 Hr2].
        assert (r2 = r) as -> by (eapply (ref_unique dc' r2 r e1 e); try done; by rewrite Ha1).
        congruence.
      * by rewrite (line_at_absent dc).
    + by rewrite (line_at_present dc r' e).
  - rewrite (line_at_absent dc') by done. symmetry. apply line_at_absent.
    intros r e Hr Ha. destruct (H1 r e Hr Ha) as [r' Hr']. by apply (Hn r' e).
Qed.

(** *** Creation of entries on demand *)

Definition dir_ext (d d' : Directory) : Prop :=
  m_num_entries d' = m_num_entries d /\
  length (m_directory_entry_list d') = length (m_directory_entry_list d) /\
  forall n, m_directory_entry_list d' !! n = m_directory_entry_list d !! n \/
    (m_directory_entry_list d !! n = Some None /\
     exists e, m_directory_entry_list d' !! n = Some (Some e) /\
       de_address e = INVALID_ADDRESS /\ entry_line e = no_line).

#[global] Instance dir_ext_preorder : PreOrder dir_ext.
Proof.
  split.
  - intros d. split_and!; try done. by left.
  - intros d1 d2 d3 (A1 & B1 & C1) (A2 & B2 & C2). split_and!; [congruence..|].
    intros n. destruct (C2 n) as [->|(E & e & He)]; [apply C1|].
    right. destruct (C1 n) as [<-|(_ & x & Hx & _)]; [|congruence]. eauto.
Qed.

Lemma set_positions_replicate j n : set_positions j (replicate n false) = [].
Proof. revert j. induction n as [|n IH]; intros j; cbn; [done|apply IH]. Qed.

Lemma createDirectoryEntry_spec d :
  exists e d', createDirectoryEntry d = (e, d') /\ de_address e = INVALID_ADDRESS /\
    entry_line e = no_line /\ m_num_entries d' = m_num_entries d /\
    m_directory_entry_list d' = m_directory_entry_list d /\
    m_num_entries_allocated d' = m_num_entries_allocated d.
Proof.
  unfold createDirectoryEntry, createDirectoryEntrySized, DirectoryEntry_new.
  destruct (m_directory_type d); eexists _, _; (split; [reflexivity|]); unfold entry_line, no_line; cbn;
    by rewrite set_positions_replicate.
Qed.

Lemma slot_entry_spec d n :
  0 <= n < m_num_entries d -> length (m_directory_entry_list d) = Z.to_nat (m_num_entries d) ->
  exists e d', slot_entry d n = Ok (e, d') /\ dir_ext d d' /\
    m_directory_entry_list d' !! Z.to_nat n = Some (Some e).
Proof.
  intros Hn Hl. unfold slot_entry. rewrite (proj2 (Z.ltb_lt _ _)) by lia. cbn [check mbind res_bind].
  destruct (rd_lookup (m_directory_entry_list d) (Z.to_nat n)) as (o & -> & Ho); [lia|].
  cbn [mbind res_bind]. destruct o as [e|]; [by exists e, d|].
  destruct (createDirectoryEntry_spec d) as (e & d' & -> & Ha & Hv & Hn' & Hl' & _).
  rewrite Hl', wr_lt by lia. cbn [mbind res_bind]. eexists e, _. split; [done|].
  cbn. split; [|apply list_lookup_insert_eq; lia].
  split_and!; cbn; [done|by rewrite length_insert|].
  intros m. destruct (decide (m = Z.to_nat n)) as [->|Hm].
  - right. split; [done|]. exists e. split_and!; try done. apply list_lookup_insert_eq. lia.
  - left. by rewrite list_lookup_insert_ne.
Qed.

Lemma dir_ext_keeps d d' n e :
  dir_ext d d' -> m_directory_entry_list d !! n = Some (Some e) ->
  m_directory_entry_list d' !! n = Some (Some e).
Proof. intros (_ & _ & H) Hn. destruct (H n) as [->|[E _]]; congruence. Qed.

Lemma scan_slots_spec test d nums :
  (forall n, n ∈ nums -> 0 <= n < m_num_entries d) ->
  length (m_directory_entry_list d) = Z.to_nat (m_num_entries d) ->
  exists o d', scan_slots test d nums = Ok (o, d') /\ dir_ext d d' /\
    match o with
    | Some n => n ∈ nums /\ exists e, m_directory_entry_list d' !! Z.to_nat n = Some (Some e) /\ test e = true
    | None => forall n, n ∈ nums ->
        exists e, m_directory_entry_list d' !! Z.to_nat n = Some (Some e) /\ test e = false
    end.
Proof.
  revert d. induction nums as [|n nums IH]; intros d Hr Hl; cbn [scan_slots].
  { exists None, d. split_and!; try done. intros n Hn. by apply not_elem_of_nil in Hn. }
  destruct (slot_entry_spec d n (Hr n ltac:(left)) Hl) as (e & d1 & -> & Hx & He).
  cbn [mbind res_bind]. destruct (test e) eqn:Et.
  { exists (Some n), d1. split_and!; try done; [left|eauto]. }
  destruct (Hx) as (X1 & X2 & _).
  destruct (IH d1) as (o & d2 & -> & Hx2 & Ho).
  { intros m Hm. rewrite X1. apply Hr. by right. }
  { by rewrite X1, X2. }
  exists o, d2. split_and!; [done|by etrans|]. destruct o as [m|].
  - destruct Ho as [Hm ?]. split; [by right|done].
  - intros m [->|Hm]%elem_of_cons; [|by apply Ho]. exists e. split; [|done]. by eapply dir_ext_keeps.
Qed.

Lemma dir_ext_slot dc d' n e :
  dir_ext (m_directory dc) d' -> slot (set_directory d' dc) n = Some e ->
  slot dc n = Some e \/ de_address e = INVALID_ADDRESS /\ entry_line e = no_line.
Proof.
  intros (_ & _ & H) Hs. unfold slot in *. cbn in Hs.
  destruct (H n) as [E|(E & x & Hx & Ha & Hv)]; [left; by rewrite <- E|].
  rewrite Hx in Hs. injection Hs as <-. by right.
Qed.

Lemma dir_ext_slot_keeps dc d' n e :
  dir_ext (m_directory dc) d' -> slot dc n = Some e -> slot (set_directory d' dc) n = Some e.
Proof.
  unfold slot. cbn. intros Hx Hs.
  destruct (m_directory_entry_list (m_directory dc) !! n) as [[x|]|] eqn:E; try done.
  by rewrite (dir_ext_keeps _ _ _ _ Hx E).
Qed.

Lemma dir_ext_wf dc d' :
  dircache_wf dc -> dir_ext (m_directory dc) d' -> dircache_wf (set_directory d' dc).
Proof.
  intros Hwf Hx. pose proof Hx as (X1 & X2 & _).
  pose proof (fun n e => dir_ext_slot dc d' n e Hx) as Hs.
  split; cbn; try apply Hwf; rewrite ?X1, ?X2; try apply Hwf.
  - intros n e Hn Ha. destruct (Hs n e Hn) as [H|[? _]]; [|done]. by apply (dw_home _ Hwf).
  - intros n m e e' Hn Hm He Hi. destruct (Hs n e Hn) as [H|[? _]]; [|done].
    destruct (Hs m e' Hm) as [H'|[? _]]; [|congruence]. by eapply (dw_unique _ Hwf).
  - intros e He. destruct (dw_full _ Hwf e He) as [Hi Hf]. split; [done|].
    intros n Hn. destruct (Hf n Hn) as (e' & He' & ? & ?).
    exists e'. split; [|done]. by apply dir_ext_slot_keeps.
  - intros n e Hn Ha. destruct (Hs n e Hn) as [H|[_ ?]]; [|done]. by eapply (dw_free _ Hwf).
Qed.

Lemma dir_ext_line dc d' a :
  dircache_wf dc -> dir_ext (m_directory dc) d' -> a <> INVALID_ADDRESS ->
  line_at (set_directory d' dc) a = line_at dc a.
Proof.
  intros Hwf Hx Ha. apply line_at_ext; [done|by apply dir_ext_wf|done|..].
  - intros [n|k] e Hr _; [|by exists (InReplaced k)]. exists (InSlot n).
    apply read_slot, dir_ext_slot_keeps; [done|]. by apply read_slot.
  - intros [n|k] e Hr _; [|right; by exists (InReplaced k)]. apply read_slot in Hr.
    destruct (dir_ext_slot _ _ _ _ Hx Hr) as [H|[_ ?]]; [|by left].
    right. exists (InSlot n). by apply read_slot.
Qed.

(** *** Writing through a reference *)

(** The effect of a write: only the entry referred to changes. *)
Definition updated (dc : DramDirectoryCache) (r : entry_ref) (e' : DirectoryEntry)
    (dc' : DramDirectoryCache) : Prop :=
  dircache_wf dc' /\ read_ref dc' r = Ok e' /\
  forall r', r' <> r -> read_ref dc' r' = read_ref dc r'.

Lemma write_slot_wf dc n e e' :
  dircache_wf dc -> read_ref dc (InSlot n) = Ok e -> de_address e <> INVALID_ADDRESS ->
  de_address e' = de_address e ->
  exists dc', write_ref dc (InSlot n) e' = Ok dc' /\ updated dc (InSlot n) e' dc'.
Proof.
  intros Hwf Hr Hi Ha.
  apply read_slot in Hr. pose proof Hr as Hr0. unfold slot in Hr0.
  destruct (_ !! n) as [o|] eqn:En; [|done]. cbn in Hr0. subst o.
  assert (Hn : (n < length (m_directory_entry_list (m_directory dc)))%nat)
    by (by eapply lookup_lt_Some).
  cbn. unfold setDirectoryEntry. rewrite Nat2Z.id, wr_lt by done. cbn [mbind res_bind].
  eexists. split; [done|].
  set (dc' := set_directory _ dc).
  assert (Hs : forall m, slot dc' m = if decide (m = n) then Some e' else slot dc m).
  { intros m. unfold slot, dc'. cbn. case_decide as Hm; [subst|].
    - by rewrite list_lookup_insert_eq.
    - by rewrite list_lookup_insert_ne. }
  split_and!; [|apply read_slot; rewrite Hs; by rewrite decide_True|].
  + split; try apply Hwf.
    * cbn. by rewrite length_insert, (dw_len _ Hwf).
    * intros m x. rewrite Hs. case_decide; [intros [= <-]; rewrite Ha; subst; by apply (dw_home _ Hwf)|].
      apply (dw_home _ Hwf).
    * intros m m' x x'. rewrite !Hs. repeat case_decide; intros Hm Hm' Hx Hxi; simplify_eq; try done.
      -- eapply (dw_unique _ Hwf); [exact Hr|exact Hm'|congruence|done].
      -- eapply (dw_unique _ Hwf); [exact Hm|exact Hr|congruence|done].
      -- by eapply (dw_unique _ Hwf).
    * intros x Hx. destruct (dw_full _ Hwf x Hx) as [? Hf]. split; [done|].
      intros m Hm. destruct (Hf m Hm) as (y & Hy & ? & ?). rewrite Hs. case_decide as Hd; [|eauto].
      exists e'. rewrite Ha. rewrite Hd, Hr in Hy. injection Hy as <-. done.
    * intros m x. rewrite Hs. case_decide; [intros [= <-]; congruence|apply (dw_free _ Hwf)].
  + intros [m|k] Hne; [|done]. unfold read_ref, dc'. cbn.
    unfold rd; rewrite list_lookup_insert_ne; [done|congruence].
Qed.

Lemma write_replaced_wf dc k e e' :
  dircache_wf dc -> read_ref dc (InReplaced k) = Ok e -> de_address e <> INVALID_ADDRESS ->
  de_address e' = de_address e ->
  exists dc', write_ref dc (InReplaced k) e' = Ok dc' /\ updated dc (InReplaced k) e' dc'.
Proof.
  intros Hwf Hr Hi Ha.
  apply read_replaced in Hr. pose proof (lookup_lt_Some _ _ _ Hr) as Hk.
  cbn. rewrite wr_lt by done. cbn [mbind res_bind]. eexists. split; [done|].
  assert (Hf' : de_address <$> <[k:=e']> (m_replaced_directory_entry_list dc)
                = de_address <$> m_replaced_directory_entry_list dc).
  { rewrite list_fmap_insert, Ha. apply list_insert_id. by rewrite list_lookup_fmap, Hr. }
  split_and!; [|apply read_replaced; cbn; by rewrite list_lookup_insert_eq|].
  + split; try apply Hwf.
    * cbn. rewrite Hf'. apply Hwf.
    * intros x Hx. cbn in Hx. apply (list_elem_of_fmap_2 de_address) in Hx. rewrite Hf' in Hx.
      apply list_elem_of_fmap in Hx as (y & -> & Hy). apply (dw_full _ Hwf y Hy).
  + intros [m|j] Hne; [done|]. cbn. unfold rd; rewrite list_lookup_insert_ne; [done|congruence].
Qed.

Lemma write_ref_spec dc r e e' :
  dircache_wf dc -> read_ref dc r = Ok e -> de_address e <> INVALID_ADDRESS ->
  de_address e' = de_address e ->
  exists dc', write_ref dc r e' = Ok dc' /\ dircache_wf dc' /\ read_ref dc' r = Ok e' /\
    line_at dc' (de_address e) = entry_line e' /\
    (forall b, b <> INVALID_ADDRESS -> b <> de_address e -> line_at dc' b = line_at dc b).
Proof.
  intros Hwf Hr Hi Ha.
  assert (exists dc', write_ref dc r e' = Ok dc' /\ updated dc r e' dc') as (dc' & E & Hw' & Hr' & Ho).
  { destruct r; [by eapply write_slot_wf|by eapply write_replaced_wf]. }
  exists dc'. split_and!; try done.
  - rewrite <- Ha. apply (line_at_present dc' r); [done..|]. by rewrite Ha.
  - intros b Hb Hne. apply line_at_ext; try done.
    + intros r' x Hx Hxa. exists r'. rewrite Ho; [done|]. intros ->. congruence.
    + intros r' x Hx Hxa. right. exists r'. rewrite <- Ho; [done|]. intros ->. congruence.
Qed.

(** *** Lookup *)

Lemma find_replaced_spec a k l :
  match find_replaced a k l with
  | Some i => exists j e, i = (k + j)%nat /\ l !! j = Some e /\ de_address e = a
  | None => forall e, e ∈ l -> de_address e <> a
  end.
Proof.
  revert k. induction l as [|e l IH]; intros k; cbn.
  { intros e He. by apply not_elem_of_nil in He. }
  unfold at_address. destruct (Z.eqb_spec (de_address e) a) as [He|He].
  { exists 0%nat, e. split_and!; [lia|done|done]. }
  specialize (IH (S k)). destruct (find_replaced a (S k) l) as [i|].
  - destruct IH as (j & x & -> & Hj & Hx). exists (S j), x. split_and!; [lia|done|done].
  - intros x [->|Hx]%elem_of_cons; [done|by apply IH].
Qed.

(** The set of an address has no free entry, and the address has no entry in it. *)
Definition set_full (dc : DramDirectoryCache) (a : Z) : Prop :=
  forall n, n ∈ set_slots dc (set_of dc a) ->
    exists e, slot dc (Z.to_nat n) = Some e /\ de_address e <> INVALID_ADDRESS /\ de_address e <> a.

(** The slots that are in use keep their entries. *)
Definition slots_kept (dc dc' : DramDirectoryCache) : Prop :=
  forall n e, slot dc n = Some e -> de_address e <> INVALID_ADDRESS -> slot dc' n = Some e.

(** What a lookup of [a] guarantees: no state changes, and the reference returned is the
    entry of [a]; no reference means that a new entry needs a replacement. *)
Definition looked_up (dc : DramDirectoryCache) (a : Z) (o : option entry_ref)
    (dc' : DramDirectoryCache) : Prop :=
  dircache_wf dc' /\ (forall b, b <> INVALID_ADDRESS -> line_at dc' b = line_at dc b) /\
  slots_kept dc dc' /\
  match o with
  | Some r => exists e, read_ref dc' r = Ok e /\ de_address e = a
  | None => (forall r e, read_ref dc' r = Ok e -> de_address e <> a) /\ set_full dc' a
  end.

(** A free entry that takes an address gives it the state it had. *)
Lemma claim_slot dc n e a :
  dircache_wf dc -> a <> INVALID_ADDRESS -> n ∈ set_slots dc (set_of dc a) ->
  slot dc (Z.to_nat n) = Some e -> de_address e = INVALID_ADDRESS ->
  (forall m x, m ∈ set_slots dc (set_of dc a) -> slot dc (Z.to_nat m) = Some x -> de_address x <> a) ->
  exists d, setDirectoryEntry (m_directory dc) n (setAddress a e) = Ok d /\
    looked_up dc a (Some (InSlot (Z.to_nat n))) (set_directory d dc).
Proof.
  intros Hwf Ha Hn Hs He Hno. pose proof (set_slots_range _ Hwf _ _ Hn) as Hr.
  unfold setDirectoryEntry. rewrite wr_lt by (rewrite (dw_len _ Hwf); lia). cbn [mbind res_bind].
  eexists. split; [done|]. set (dc' := set_directory _ dc).
  assert (S' : forall m, slot dc' m = if decide (m = Z.to_nat n) then Some (setAddress a e) else slot dc m).
  { intros m. unfold slot, dc'. cbn. case_decide as Hm; [subst|].
    - rewrite list_lookup_insert_eq by (rewrite (dw_len _ Hwf); lia). done.
    - by rewrite list_lookup_insert_ne. }
  assert (Hout : forall m x, slot dc m = Some x -> de_address x <> a).
  { intros m x Hm Hx. apply (Hno (Z.of_nat m) x); rewrite ?Nat2Z.id; try done.
    rewrite <- Hx. apply (dw_home _ Hwf _ _ Hm). by rewrite Hx. }
  assert (Hrep : forall x, x ∈ m_replaced_directory_entry_list dc -> de_address x <> a).
  { intros x Hx Hxa. destruct (dw_full _ Hwf x Hx) as [_ Hf]. rewrite Hxa in Hf.
    destruct (Hf n Hn) as (y & Hy & Hyi & _). congruence. }
  assert (Hw' : dircache_wf dc').
  { split; try apply Hwf.
    - cbn. by rewrite length_insert, (dw_len _ Hwf).
    - intros m x. rewrite S'. case_decide as Hm; [intros [= <-] _; subst|apply (dw_home _ Hwf)].
      rewrite Z2Nat.id by lia. done.
    - intros m m' x x'. rewrite !S'. repeat case_decide; intros Hm Hm' Hx Hxi; simplify_eq; try done.
      + cbn in Hx. by apply Hout in Hm'.
      + cbn in Hx. by apply Hout in Hm.
      + by eapply (dw_unique _ Hwf).
    - intros x Hx. destruct (dw_full _ Hwf x Hx) as [? Hf]. split; [done|].
      intros m Hm. destruct (Hf m Hm) as (y & Hy & ? & ?). rewrite S'. case_decide as Hd; [|eauto].
      rewrite Hd, Hs in Hy. injection Hy as <-. done.
    - intros m x. rewrite S'. case_decide; [intros [= <-]; done|apply (dw_free _ Hwf)]. }
  split_and!; [done| | |exists (setAddress a e); split; [|done]; apply read_slot; by rewrite S', decide_True].
  2: { intros m x Hm Hxi. rewrite S'. case_decide; [subst; congruence|done]. }
  intros b Hb. apply line_at_ext; try done.
  - intros [m|k] x Hx Hxa; [|by exists (InReplaced k)]. exists (InSlot m). apply read_slot in Hx.
    apply read_slot. rewrite S'. case_decide; [|done]. subst. congruence.
  - intros [m|k] x Hx Hxa; [|right; by exists (InReplaced k)]. apply read_slot in Hx.
    rewrite S' in Hx. case_decide; [left|right; exists (InSlot m); by apply read_slot].
    injection Hx as <-. change (entry_line (setAddress a e)) with (entry_line e).
    by eapply (dw_free _ Hwf).
Qed.

Lemma looked_up_ext dc a o d dc' :
  dircache_wf dc -> dir_ext (m_directory dc) d -> looked_up (set_directory d dc) a o dc' ->
  looked_up dc a o dc'.
Proof.
  intros Hwf Hx (H1 & H2 & H3 & H4). split_and!; try done.
  - intros b Hb. rewrite H2 by done. by apply dir_ext_line.
  - intros n e Hn Hi. apply H3; [|done]. by apply dir_ext_slot_keeps.
Qed.

Lemma slot_of_list dc d n e :
  m_directory_entry_list d !! n = Some (Some e) -> slot (set_directory d dc) n = Some e.
Proof. intros H. unfold slot. cbn. by rewrite H. Qed.

(** The two searches of the set, and what they leave. *)
Lemma lookup_scan test dc a :
  dircache_wf dc ->
  exists o d, scan_slots test (m_directory dc) (set_slots dc (set_of dc a)) = Ok (o, d) /\
    dir_ext (m_directory dc) d /\ dircache_wf (set_directory d dc) /\
    match o with
    | Some n => n ∈ set_slots dc (set_of dc a) /\
        exists e, slot (set_directory d dc) (Z.to_nat n) = Some e /\ test e = true /\
          slot_entry d n = Ok (e, d)
    | None => forall n, n ∈ set_slots dc (set_of dc a) ->
        exists e, slot (set_directory d dc) (Z.to_nat n) = Some e /\ test e = false
    end.
Proof.
  intros Hwf. pose proof (set_slots_range _ Hwf a) as Hr.
  destruct (scan_slots_spec test (m_directory dc) (set_slots dc (set_of dc a)) Hr (dw_len _ Hwf))
    as (o & d & E & Hx & Ho).
  exists o, d. split_and!; [done|done|by apply dir_ext_wf|]. destruct o as [n|].
  - destruct Ho as (Hn & e & He & Ht). split; [done|]. exists e.
    split_and!; [by apply slot_of_list|done|]. pose proof (Hr n Hn). destruct Hx as (X1 & _).
    unfold slot_entry. rewrite X1, (proj2 (Z.ltb_lt _ _)) by lia. cbn [check mbind res_bind].
    rewrite (proj2 (rd_Ok _ _ _) He). done.
  - intros n Hn. destruct (Ho n Hn) as (e & He & Ht). exists e. split; [by apply slot_of_list|done].
Qed.

Lemma incrElapsedTime_total elapsed t :
  incrElapsedTime elapsed t = Err ClockOverflow \/ exists t', incrElapsedTime elapsed t = Ok t'.
Proof. unfold incrElapsedTime. destruct (_ <=? _); [right; by eexists|by left]. Qed.

(** The search of the replaced list, in a set that has neither the address nor a free entry. *)
Lemma looked_up_replaced dc a :
  dircache_wf dc -> a <> INVALID_ADDRESS -> set_full dc a ->
  looked_up dc a (InReplaced <$> find_replaced a 0 (m_replaced_directory_entry_list dc)) dc.
Proof.
  intros Hwf Ha Hfull. split_and!; [done|done|by intros ?|].
  pose proof (find_replaced_spec a 0 (m_replaced_directory_entry_list dc)) as Hf.
  destruct (find_replaced a 0 _) as [i|].
  - destruct Hf as (j & e & -> & Hj & He). exists e. split; [by apply read_replaced|done].
  - split; [|done]. intros [m|k] e Hr Hea.
    + apply read_slot in Hr. destruct (Hfull (Z.of_nat m)) as (x & Hx & _ & Hxa).
      * rewrite <- Hea. apply (dw_home _ Hwf _ _ Hr). by rewrite Hea.
      * rewrite Nat2Z.id in Hx. congruence.
    + apply read_replaced, list_elem_of_lookup_2 in Hr. by eapply Hf.
Qed.

(** A lookup always succeeds and never changes the state of a line. *)
Lemma find_entry_spec dc a :
  dircache_wf dc -> a <> INVALID_ADDRESS ->
  exists o hit dc', find_entry dc a = Ok (o, hit, dc') /\ looked_up dc a o dc'.
Proof.
  intros Hwf Ha. unfold find_entry.
  destruct (splitAddress_set _ Hwf a) as [tag Hsp]. rewrite Hsp. cbn [mbind res_bind].
  destruct (lookup_scan (at_address a) dc a Hwf) as (o1 & d1 & E1 & X1 & W1 & H1).
  rewrite E1. cbn [mbind res_bind]. destruct o1 as [n|].
  { destruct H1 as (Hn & e & He & Hte & Hse). apply Z.eqb_eq in Hte. rewrite Hse. cbn [mbind res_bind].
    eexists _, _, _. split; [done|]. split_and!; [done|by intros; apply dir_ext_line| |].
    { intros m x Hm _. by apply dir_ext_slot_keeps. }
    exists e. split; [by apply read_slot|done]. }
  destruct (lookup_scan (at_address INVALID_ADDRESS) (set_directory d1 dc) a W1)
    as (o2 & d2 & E2 & X2 & W2 & H2).
  change (m_directory (set_directory d1 dc)) with d1 in *.
  change (set_slots (set_directory d1 dc) (set_of (set_directory d1 dc) a))
    with (set_slots dc (set_of dc a)) in *.
  change (set_directory d2 (set_directory d1 dc)) with (set_directory d2 dc) in *.
  assert (X : dir_ext (m_directory dc) d2) by (by etrans).
  assert (Hno : forall m x, m ∈ set_slots dc (set_of dc a) ->
    slot (set_directory d2 dc) (Z.to_nat m) = Some x -> de_address x <> a).
  { intros m x Hm Hx. destruct (dir_ext_slot (set_directory d1 dc) d2 _ _ X2 Hx) as [H|[-> _]]; [|done].
    destruct (H1 m Hm) as (y & Hy & Ht). apply Z.eqb_neq in Ht. congruence. }
  rewrite E2. cbn [mbind res_bind]. destruct o2 as [n|].
  - destruct H2 as (Hn & e & He & Hte & Hse). apply Z.eqb_eq in Hte. rewrite Hse. cbn [mbind res_bind].
    destruct (claim_slot (set_directory d2 dc) n e a W2 Ha Hn He Hte Hno) as (d3 & E3 & L3).
    change (m_directory (set_directory d2 dc)) with d2 in *. rewrite E3.
    eexists _, _, _. split; [done|]. by apply (looked_up_ext _ _ _ d2).
  - eexists _, _, _. split; [done|]. apply (looked_up_ext _ _ _ d2); [done..|].
    apply (looked_up_replaced (set_directory d2 dc)); [done..|].
    intros m Hm. destruct (H2 m Hm) as (e & He & Ht). exists e. apply Z.eqb_neq in Ht.
    split_and!; [done|done|]. by eapply Hno.
Qed.

Lemma getDirectoryEntry_spec dc a :
  dircache_wf dc -> a <> INVALID_ADDRESS ->
  exists o dc', looked_up dc a o dc' /\
    (forall t, getDirectoryEntry dc a false t = Ok (o, dc', t)) /\
    (forall t, getDirectoryEntry dc a true t = Err ClockOverflow \/
       exists t', getDirectoryEntry dc a true t = Ok (o, dc', t')).
Proof.
  intros Hwf Ha. destruct (find_entry_spec dc a Hwf Ha) as (o & hit & dc' & E & L).
  exists o, dc'. split; [done|]. unfold getDirectoryEntry. rewrite E. split; intros t; cbn.
  - by destruct hit.
  - destruct (incrElapsedTime_total t (m_dram_directory_cache_access_time dc)) as [->|[t' ->]];
      [by left|cbn]. destruct hit as [e|]; [|right; by eexists].
    destruct (incrElapsedTime_total t' (getLatency e)) as [->|[t'' ->]]; [by left|right; by eexists].
Qed.

(** *** Replacement *)

Lemma candidates_spec d nums :
  (forall n, n ∈ nums -> 0 <= n < m_num_entries d) ->
  length (m_directory_entry_list d) = Z.to_nat (m_num_entries d) ->
  exists l d', candidates d nums = Ok (l, d') /\ dir_ext d d' /\ l = Z.to_nat <$> nums.
Proof.
  revert d. induction nums as [|n nums IH]; intros d Hr Hl; cbn; [by exists [], d|].
  destruct (slot_entry_spec d n (Hr n ltac:(left)) Hl) as (e & d1 & -> & Hx & He).
  cbn [mbind res_bind]. pose proof Hx as (X1 & X2 & _).
  destruct (IH d1) as (l & d2 & -> & Hx2 & ->).
  { intros m Hm. rewrite X1. apply Hr. by right. }
  { by rewrite X1, X2. }
  cbn. eexists _, d2. split_and!; [done|by etrans|done].
Qed.

(** Nobody has an entry of [a], and its set is full of other lines. *)
Definition needs_replacement (dc : DramDirectoryCache) (a : Z) : Prop :=
  (forall r e, read_ref dc r = Ok e -> de_address e <> a) /\ set_full dc a.

Lemma needs_replacement_ext dc d a :
  dir_ext (m_directory dc) d -> a <> INVALID_ADDRESS ->
  needs_replacement dc a -> needs_replacement (set_directory d dc) a.
Proof.
  intros Hx Ha [H1 H2]. split.
  - intros [n|k] e Hr; [|by apply (H1 (InReplaced k))]. apply read_slot in Hr.
    destruct (dir_ext_slot _ _ _ _ Hx Hr) as [H|[-> _]]; [|done].
    apply (H1 (InSlot n)). by apply read_slot.
  - intros n Hn. destruct (H2 n Hn) as (e & He & ?). exists e. split; [|done].
    by apply dir_ext_slot_keeps.
Qed.

Lemma set_ptrs_wf dc l :
  dircache_wf dc -> length l = length (m_replacement_ptrs dc) -> dircache_wf (set_ptrs l dc).
Proof. intros Hwf Hl. split; try apply Hwf. cbn. by rewrite Hl, (dw_ptrs _ Hwf). Qed.

Lemma getReplacementCandidates_spec dc a :
  dircache_wf dc -> a <> INVALID_ADDRESS ->
  match getReplacementCandidates dc a with
  | Ok (l, dc') => dircache_wf dc' /\ needs_replacement dc' a /\
      (forall b, b <> INVALID_ADDRESS -> line_at dc' b = line_at dc b) /\
      (forall n, n ∈ l -> Z.of_nat n ∈ set_slots dc' (set_of dc' a))
  | Err f => f = AssertFailed
  end.
Proof.
  intros Hwf Ha. unfold getReplacementCandidates.
  destruct (getDirectoryEntry_spec dc a Hwf Ha) as (o & dc1 & (W1 & L1 & _ & N1) & -> & _).
  cbn [mbind res_bind]. destruct o as [r|]; cbn; [done|].
  destruct (splitAddress_set _ W1 a) as [tag ->]. cbn.
  pose proof (set_of_range _ W1 a) as Hs.
  destruct (rd_lookup (m_replacement_ptrs dc1) (Z.to_nat (set_of dc1 a))) as (ptr & -> & _).
  { rewrite (dw_ptrs _ W1). lia. }
  cbn [mbind res_bind].
  set (nums := map _ _).
  assert (Hnums : forall n, n ∈ nums -> n ∈ set_slots dc1 (set_of dc1 a)).
  { intros n. unfold nums. rewrite list_elem_of_fmap. intros (i & -> & _).
    rewrite (elem_of_set_slots _ W1) by done.
    pose proof (dw_assoc _ W1). pose proof (dw_fit _ W1).
    pose proof (Z.mod_pos_bound (u32 (Z.of_nat i + ptr)) (dd_associativity dc1) ltac:(lia)).
    rewrite (wrap_small 32 (set_of dc1 a * _)) by (split; nia).
    rewrite wrap_small by (split; nia). nia. }
  destruct (candidates_spec (m_directory dc1) nums) as (l & d & -> & Hx & ->).
  { intros n Hn. apply (set_slots_range _ W1 a). by apply Hnums. }
  { apply (dw_len _ W1). }
  cbn [mbind res_bind]. rewrite wr_lt by (rewrite (dw_ptrs _ W1); lia). cbn [mbind res_bind].
  split_and!.
  - apply set_ptrs_wf; [by apply dir_ext_wf|]. by rewrite length_insert.
  - by apply needs_replacement_ext.
  - intros b Hb. change (line_at (set_directory d dc1) b = line_at dc b).
    rewrite dir_ext_line by done. by apply L1.
  - intros n. rewrite list_elem_of_fmap. intros (m & -> & Hm). apply Hnums in Hm as Hm'.
    pose proof (set_slots_range _ W1 a m Hm'). rewrite Z2Nat.id by lia. done.
Qed.

(** The entry of slot [n] moves to the replaced list and [e'] takes its slot. *)
Definition swapped (dc : DramDirectoryCache) (n : nat) (e e' : DirectoryEntry)
    (dc' : DramDirectoryCache) : Prop :=
  m_replaced_directory_entry_list dc' = m_replaced_directory_entry_list dc ++ [e] /\
  (forall m, slot dc' m = if decide (m = n) then Some e' else slot dc m) /\
  (forall s, set_slots dc' s = set_slots dc s) /\ (forall b, set_of dc' b = set_of dc b) /\
  dd_associativity dc' = dd_associativity dc /\ dd_num_sets dc' = dd_num_sets dc /\
  m_num_entries (m_directory dc') = m_num_entries (m_directory dc) /\
  length (m_directory_entry_list (m_directory dc')) = length (m_directory_entry_list (m_directory dc)) /\
  dd_log_cache_block_size dc' = dd_log_cache_block_size dc /\
  dd_log_num_sets dc' = dd_log_num_sets dc /\ m_replacement_ptrs dc' = m_replacement_ptrs dc.

Lemma swapped_wf dc n e e' a dc' :
  dircache_wf dc -> a <> INVALID_ADDRESS -> needs_replacement dc a ->
  Z.of_nat n ∈ set_slots dc (set_of dc a) -> slot dc n = Some e ->
  de_address e <> INVALID_ADDRESS -> de_address e' = a -> swapped dc n e e' dc' -> dircache_wf dc'.
Proof.
  intros Hwf Ha [Habs Hfull] Hn He Hei He' (Er & Es & Ess & Eso & E1 & E2 & E3 & E4 & E5 & E6 & E7).
  assert (Hset : set_of dc (de_address e) = set_of dc a).
  { eapply (set_slots_disjoint _ Hwf); [by apply set_of_range..| |exact Hn]. by apply (dw_home _ Hwf). }
  assert (Hno : forall m x, slot dc m = Some x -> de_address x <> a).
  { intros m x Hx. apply (Habs (InSlot m)). by apply read_slot. }
  split; rewrite ?E1, ?E2, ?E3, ?E4, ?E5, ?E6, ?E7; try apply Hwf.
  - intros m x. rewrite Es, Ess, Eso. case_decide; [|apply (dw_home _ Hwf)].
    intros [= <-] _. rewrite He'. by subst.
  - intros m m' x x'. rewrite !Es. repeat case_decide; intros Hm Hm' Hx Hxi; simplify_eq; try done.
    + by apply Hno in Hm'.
    + by apply Hno in Hm.
    + by eapply (dw_unique _ Hwf).
  - rewrite Er, fmap_app. cbn. apply NoDup_app. split_and!; [apply Hwf| |apply NoDup_singleton].
    intros x Hx Hx'. apply list_elem_of_singleton in Hx'. subst x.
    apply list_elem_of_fmap in Hx as (y & Hya & Hy).
    destruct (dw_full _ Hwf y Hy) as [_ Hf]. rewrite <- Hya in Hf.
    destruct (Hf (Z.of_nat n)) as (z & Hz & _ & Hd); [by rewrite Hset|].
    rewrite Nat2Z.id, He in Hz. injection Hz as <-. done.
  - intros x. rewrite Er, elem_of_app, list_elem_of_singleton. intros [Hx| ->].
    + destruct (dw_full _ Hwf x Hx) as [? Hf]. split; [done|]. intros m Hm. rewrite Ess, Eso in Hm.
      rewrite Es. case_decide as Hd; [|by apply Hf]. exists e'. rewrite He'. split_and!; try done.
      destruct (list_elem_of_lookup_1 _ _ Hx) as [k Hk].
      intros Hxa. apply (Habs (InReplaced k) x); [by apply read_replaced|done].
    + split; [done|]. intros m Hm. rewrite Ess, Eso, Hset in Hm. rewrite Es.
      destruct (Hfull m Hm) as (y & Hy & Hyi & Hya). case_decide as Hd.
      * exists e'. rewrite He'. split_and!; try done. intros Heq. apply (Hno n e He). done.
      * exists y. split_and!; try done. intros Heq. apply Hd.
        by eapply (dw_unique _ Hwf).
  - intros m x. rewrite Es. case_decide; [intros [= <-]; congruence|apply (dw_free _ Hwf)].
Qed.

Lemma swapped_line dc n e e' a dc' b :
  dircache_wf dc -> dircache_wf dc' -> a <> INVALID_ADDRESS -> needs_replacement dc a ->
  slot dc n = Some e -> de_address e' = a -> entry_line e' = no_line ->
  swapped dc n e e' dc' -> b <> INVALID_ADDRESS -> line_at dc' b = line_at dc b.
Proof.
  intros Hwf Hw' Ha [Habs Hfull] He He' Hl (Er & Es & _) Hb. apply line_at_ext; try done.
  - intros [m|k] x Hx Hxa.
    + apply read_slot in Hx. destruct (decide (m = n)) as [->|Hm].
      * rewrite He in Hx. injection Hx as <-. exists (InReplaced (length (m_replaced_directory_entry_list dc))).
        apply read_replaced. rewrite Er, lookup_app_r, Nat.sub_diag by lia. done.
      * exists (InSlot m). apply read_slot. by rewrite Es, decide_False.
    + apply read_replaced in Hx. exists (InReplaced k). apply read_replaced. rewrite Er.
      by apply lookup_app_l_Some.
  - intros [m|k] x Hx Hxa.
    + apply read_slot in Hx. rewrite Es in Hx. case_decide.
      * injection Hx as <-. by left.
      * right. exists (InSlot m). by apply read_slot.
    + apply read_replaced in Hx. rewrite Er in Hx. right.
      apply lookup_app_Some in Hx as [Hx|[_ Hx]]; [exists (InReplaced k); by apply read_replaced|].
      apply list_lookup_singleton_Some in Hx as [_ Hx]; subst x. exists (InSlot n). by apply read_slot.
Qed.

Lemma replaceDirectoryEntry_spec dc n e a modeled t :
  dircache_wf dc -> a <> INVALID_ADDRESS -> needs_replacement dc a ->
  Z.of_nat n ∈ set_slots dc (set_of dc a) -> slot dc n = Some e -> de_address e <> INVALID_ADDRESS ->
  match replaceDirectoryEntry dc (de_address e) a modeled t with
  | Ok (n', dc', _) => n' = n /\ dircache_wf dc' /\
      (forall b, b <> INVALID_ADDRESS -> line_at dc' b = line_at dc b) /\
      exists e', slot dc' n = Some e' /\ de_address e' = a
  | Err f => f = ClockOverflow \/ f = LogError
  end.
Proof.
  intros Hwf Ha Hneed Hn He Hei. unfold replaceDirectoryEntry.
  assert (Htime : (if modeled then incrElapsedTime t (m_dram_directory_cache_access_time dc) else Ok t)
    = Err ClockOverflow \/ exists t', (if modeled
      then incrElapsedTime t (m_dram_directory_cache_access_time dc) else Ok t) = Ok t').
  { destruct modeled; [apply incrElapsedTime_total|right; by eexists]. }
  destruct Htime as [->|[t' ->]]; [by left|]. cbn [mbind res_bind].
  destruct (splitAddress_set _ Hwf (de_address e)) as [tag ->]. cbn [mbind res_bind].
  assert (Hset : set_of dc (de_address e) = set_of dc a).
  { eapply (set_slots_disjoint _ Hwf); [by apply set_of_range..| |exact Hn]. by apply (dw_home _ Hwf). }
  destruct (lookup_scan (at_address (de_address e)) dc (de_address e) Hwf) as (o & d & -> & Hx & W & Ho).
  cbn [mbind res_bind]. destruct o as [m|]; [|by right].
  destruct Ho as (Hm & x & Hxs & Htx & ->). apply Z.eqb_eq in Htx. cbn [mbind res_bind].
  pose proof (dir_ext_slot_keeps _ _ _ _ Hx He) as He1.
  assert (Hmn : Z.to_nat m = n) by (eapply (dw_unique _ W); [exact Hxs|exact He1|done|congruence]).
  rewrite Hmn in Hxs. assert (x = e) as -> by congruence.
  destruct (createDirectoryEntry_spec d) as (e' & d' & -> & Ha' & Hl' & Hn' & Hlist & Hal).
  pose proof (set_slots_range _ Hwf _ _ Hm) as Hmr.
  unfold setDirectoryEntry. rewrite Hlist.
  assert (Hlen : (n < length (m_directory_entry_list d))%nat).
  { pose proof (dw_len _ W) as Hl. cbn in Hl. rewrite Hl. destruct Hx as (-> & _). lia. }
  rewrite Hmn, wr_lt by done. cbn [mbind res_bind]. split; [done|].
  set (dc' := set_replaced _ _).
  assert (Hsw : swapped (set_directory d dc) n e (setAddress a e') dc').
  { unfold dc'. repeat split; cbn; try done; [|by rewrite length_insert].
    intros k. unfold slot. cbn. case_decide as Hk; [subst k|].
    - by rewrite list_lookup_insert_eq.
    - by rewrite list_lookup_insert_ne. }
  pose proof (needs_replacement_ext _ _ _ Hx Ha Hneed) as Hneed'.
  assert (W' : dircache_wf dc').
  { by eapply (swapped_wf (set_directory d dc) n e (setAddress a e') a). }
  split_and!; [done| |].
  - intros b Hb. rewrite (swapped_line (set_directory d dc) n e (setAddress a e') a) by done.
    by apply dir_ext_line.
  - exists (setAddress a e'). split; [|done]. destruct Hsw as (_ & -> & _). by rewrite decide_True.
Qed.

Lemma elem_of_delete_NoDup {A} (l : list A) k e x :
  NoDup l -> l !! k = Some e -> x ∈ delete k l <-> x ∈ l /\ x <> e.
Proof.
  intros Hnd Hk. rewrite delete_take_drop. rewrite <- (take_drop_middle _ _ _ Hk) in Hnd.
  rewrite <- (take_drop_middle _ _ _ Hk) at 3.
  apply NoDup_app in Hnd as (_ & H1 & H2). apply NoDup_cons in H2 as [H2 _].
  specialize (H1 x). rewrite !elem_of_app, !elem_of_cons in *. naive_solver.
Qed.

(** An entry whose line nobody caches can be dropped from the replaced list. *)
Lemma invalidateDirectoryEntry_spec dc a :
  dircache_wf dc -> a <> INVALID_ADDRESS -> line_at dc a = no_line ->
  match invalidateDirectoryEntry dc a with
  | Ok dc' => dircache_wf dc' /\ (forall b, b <> INVALID_ADDRESS -> line_at dc' b = line_at dc b) /\
      (forall n, slot dc' n = slot dc n)
  | Err f => f = LogError
  end.
Proof.
  intros Hwf Ha Hline. unfold invalidateDirectoryEntry.
  pose proof (find_replaced_spec a 0 (m_replaced_directory_entry_list dc)) as Hf.
  destruct (find_replaced a 0 _) as [i|]; [|done]. destruct Hf as (k & e & -> & Hk & He).
  change (0 + k)%nat with k. set (dc' := set_replaced _ dc).
  pose proof (fun x => elem_of_delete_NoDup _ k e x (NoDup_fmap_1 _ _ (dw_nodup _ Hwf)) Hk) as Hsub.
  assert (W' : dircache_wf dc').
  { split; try apply Hwf.
    - cbn. rewrite list_fmap_delete. eapply sublist_NoDup; [apply (dw_nodup _ Hwf)|].
      apply sublist_delete.
    - intros x Hx. cbn in Hx. apply Hsub in Hx as [Hx _]. by apply (dw_full _ Hwf). }
  split_and!; [done| |done].
  intros b Hb. destruct (decide (b = a)) as [->|Hne].
  - rewrite Hline. apply line_at_absent. intros r x Hr Hxa.
    assert (Hr' : exists r', read_ref dc r' = Ok x /\ x <> e).
    { destruct r as [m|j].
      - exists (InSlot m). split; [done|]. intros ->.
        assert (InSlot m = InReplaced k); [|done].
        apply (ref_unique dc _ _ e e Hwf); [done|by apply read_replaced|done|congruence].
      - apply read_replaced, list_elem_of_lookup_2, Hsub in Hr as [Hr ?].
        apply list_elem_of_lookup in Hr as [j' Hj']. exists (InReplaced j'). split; [|done].
        by apply read_replaced. }
    destruct Hr' as (r' & Hr' & Hxe).
    assert (r' = InReplaced k) as ->.
    { apply (ref_unique dc _ _ x e Hwf); [done|by apply read_replaced|congruence..]. }
    apply read_replaced in Hr'. congruence.
  - apply line_at_ext; try done.
    + intros [m|j] x Hx Hxa; [by exists (InSlot m)|].
      apply read_replaced, list_elem_of_lookup_2 in Hx.
      assert (Hx' : x ∈ delete k (m_replaced_directory_entry_list dc)) by (apply Hsub; split; [done|congruence]).
      apply list_elem_of_lookup in Hx' as [j' Hj']. exists (InReplaced j'). by apply read_replaced.
    + intros [m|j] x Hx Hxa; right; [by exists (InSlot m)|].
      apply read_replaced, list_elem_of_lookup_2 in Hx. cbn in Hx. apply Hsub in Hx as [Hx _].
      apply list_elem_of_lookup in Hx as [j' Hj']. exists (InReplaced j'). by apply read_replaced.
Qed.

(** The constructor establishes the invariant, and no line is cached. *)
Lemma DramDirectoryCache_new_wf ty total assoc block hw num acc pen junk ptrs dc :
  0 < assoc <= total -> in_range 32 total -> 0 < block < 2 ^ 32 ->
  DramDirectoryCache_new ty total assoc block hw num acc pen junk ptrs = Ok dc ->
  dircache_wf dc /\ forall a, line_at dc a = no_line.
Proof.
  intros Ha [_ Ht] Hb H. unfold DramDirectoryCache_new in H. inv_res.
  unfold Directory_new in *. inv_res.
  assert (Hq : 1 <= total / assoc <= total).
  { split; [apply Z.div_le_lower_bound; lia|]. apply Z.div_le_upper_bound; nia. }
  assert (Hlog : forall n, 0 < n < 2 ^ 32 -> u32 (floorLog2 n) < 64).
  { intros n Hn. rewrite floorLog2_log2 by done. pose proof (Z.log2_nonneg n).
    assert (Z.log2 n < 32) by (apply Z.log2_lt_pow2; lia).
    rewrite wrap_small by (split; lia). lia. }
  assert (Hs : forall m e, mjoin (replicate (Z.to_nat total) (@None DirectoryEntry) !! m) = Some e -> False).
  { intros m e. destruct (_ !! m) as [o|] eqn:Eo; [|done]. apply lookup_replicate in Eo as [-> _]. done. }
  split.
  - split; cbn; try done; try lia.
    + pose proof (Z.mul_div_le total assoc ltac:(lia)). lia.
    + by rewrite length_replicate.
    + split; apply Hlog; lia.
    + by rewrite length_map, length_seq.
    + intros n e He. by apply Hs in He.
    + intros n m e e' He. by apply Hs in He.
    + constructor.
    + intros e He. by apply not_elem_of_nil in He.
    + intros n e He. by apply Hs in He.
  - intros a. apply line_at_absent. intros [n|k] e Hr.
    + apply read_slot in Hr. by apply Hs in Hr.
    + by apply read_replaced in Hr.
Qed.
