(* ===== verification/DirCntlr.v ===== *)
(** * The directory controller

    [DramDirectoryCntlr] ([dram_directory_cntlr.cc]) runs the coherence protocol (MSI, MESI
    or MESIF) for the lines whose home it is: it queues the requests of the last-level
    caches per line, invalidates, flushes or downgrades the copies in the way, fetches data
    from a cache, the NUCA cache or DRAM, and grants shared or exclusive copies. With it
    are the messages ([shmem_msg.cc]), the requests ([shmem_req.cc]), their queues
    ([req_queue_list_template.h]) and the memory manager's delivery of a message to the
    directory.

    The controller is in the state and error monad [M]. Messages that are sent are appended
    to [sent]. Simulated time is modelled; the latency breakdown of [ShmemPerf] is not. *)

From stdpp Require Import base tactics list numbers gmap strings.
From Stdlib Require Import ZArith Lia.
From S2P Require Import Prelude Utils CacheBase CacheBlock Directory.
Local Open Scope Z_scope.

(** ** Messages *)

Module HitWhere.
Inductive where_t :=
| WHERE_FIRST | L1I | L1_OWN | L2_OWN | L3_OWN | L4_OWN | MISS | NUCA_CACHE | DRAM_CACHE | DRAM
| DRAM_LOCAL | DRAM_REMOTE | CXL_NEAR | CXL_FAR | CXL_POOLED | CACHE_REMOTE | SIBLING | L1_SIBLING
| L2_SIBLING | L3_SIBLING | L4_SIBLING | UNKNOWN | PREDICATE_FALSE | PREFETCH_NO_MAPPING
| SHADOW_CACHE | PAGE_FAULT.
#[global] Instance where_t_eq_dec : EqDecision where_t.
Proof. solve_decision. Defined.
End HitWhere.

Module MemComponent.
Inductive component_t :=
| INVALID_MEM_COMPONENT | CORE | L1_ICACHE | L1_DCACHE | L2_CACHE | L3_CACHE | L4_CACHE
| LAST_LEVEL_CACHE | TAG_DIR | NUCA_CACHE | DRAM_CACHE | DRAM.
#[global] Instance component_t_eq_dec : EqDecision component_t.
Proof. solve_decision. Defined.
End MemComponent.

Module CoherencyProtocol.
Inductive type_t := MSI | MESI | MESIF.
#[global] Instance type_t_eq_dec : EqDecision type_t.
Proof. solve_decision. Defined.
End CoherencyProtocol.

Inductive msg_t :=
| INVALID_MSG_TYPE | EX_REQ | SH_REQ | UPGRADE_REQ | INV_REQ | FLUSH_REQ | WB_REQ
| EX_REP | SH_REP | UPGRADE_REP | INV_REP | FLUSH_REP | WB_REP | NULLIFY_REQ
| DRAM_READ_REQ | DRAM_WRITE_REQ | DRAM_READ_REP.
#[global] Instance msg_t_eq_dec : EqDecision msg_t.
Proof. solve_decision. Defined.

(** A [Byte*]: null, a buffer with its contents, or a buffer that has been deleted. *)
Inductive data_buf := NULL | Live (bytes : list Z) | Deleted.
#[global] Instance data_buf_eq_dec : EqDecision data_buf.
Proof. solve_decision. Defined.

Record ShmemMsg := mkMsg {
  m_msg_type : msg_t;
  m_sender_mem_component : MemComponent.component_t;
  m_receiver_mem_component : MemComponent.component_t;
  m_requester : Z;
  m_where : option HitWhere.where_t; (** [None]: not initialised *)
  sm_address : Z;
  m_data_buf : data_buf;
  m_data_length : Z;
  sm_block_type : block_type_t
}.

Definition ShmemMsg_new (msg_type : msg_t) (sender receiver : MemComponent.component_t)
    (requester address : Z) (data : data_buf) (len : Z) (bt : block_type_t) : ShmemMsg :=
  mkMsg msg_type sender receiver requester (Some HitWhere.UNKNOWN) address data len bt.

(** The copy constructor does not copy [m_where]. *)
Definition ShmemMsg_copy (m : ShmemMsg) : ShmemMsg :=
  mkMsg (m_msg_type m) (m_sender_mem_component m) (m_receiver_mem_component m) (m_requester m) None
    (sm_address m) (m_data_buf m) (m_data_length m) (sm_block_type m).

Definition setWhere (w : HitWhere.where_t) (m : ShmemMsg) : ShmemMsg :=
  mkMsg (m_msg_type m) (m_sender_mem_component m) (m_receiver_mem_component m) (m_requester m) (Some w)
    (sm_address m) (m_data_buf m) (m_data_length m) (sm_block_type m).
Definition setDataBuf (d : data_buf) (m : ShmemMsg) : ShmemMsg :=
  mkMsg (m_msg_type m) (m_sender_mem_component m) (m_receiver_mem_component m) (m_requester m)
    (m_where m) (sm_address m) d (m_data_length m) (sm_block_type m).

(** [makeMsgBuf] followed by [getShmemMsg] at the receiver: the data is copied. *)
Definition transmit (m : ShmemMsg) : res ShmemMsg :=
  if 0 <? m_data_length m then
    match m_data_buf m with
    | NULL => Err LogError
    | Deleted => Err UseAfterFree
    | Live d =>
        if m_data_length m <=? Z.of_nat (length d)
        then Ok (setDataBuf (Live (take (Z.to_nat (m_data_length m)) d)) m)
        else Err OutOfBounds
    end
  else Ok m.

Definition getModeledLength (m : ShmemMsg) : res Z :=
  match m_msg_type m with
  | EX_REQ | SH_REQ | INV_REQ | FLUSH_REQ | WB_REQ | UPGRADE_REP | UPGRADE_REQ | INV_REP
  | DRAM_READ_REQ => Ok (1 + 8)
  | EX_REP | SH_REP | FLUSH_REP | WB_REP | DRAM_WRITE_REQ | DRAM_READ_REP =>
      Ok (u32 (1 + 8 + m_data_length m))
  | _ => Err LogError
  end.

(** ** Requests and their queues *)

Record ShmemReq := mkReq {
  m_shmem_msg : ShmemMsg;
  m_time : Z;
  m_wait_for_data : bool;
  m_forwarding_from : Z
}.

Definition ShmemReq_new (msg : ShmemMsg) (time : Z) : res ShmemReq :=
  check (bool_decide (m_data_buf msg = NULL)) LogError;;
  Ok (mkReq (ShmemMsg_copy msg) time false INVALID_CORE_ID).

Definition isForwarding (r : ShmemReq) : bool := negb (m_forwarding_from r =? INVALID_CORE_ID).
Definition req_updateTime (time : Z) (r : ShmemReq) : ShmemReq :=
  mkReq (m_shmem_msg r) (if m_time r <? time then time else m_time r) (m_wait_for_data r)
    (m_forwarding_from r).
Definition setWaitForData (r : ShmemReq) : ShmemReq :=
  mkReq (m_shmem_msg r) (m_time r) true (m_forwarding_from r).
Definition setForwardingFrom (core : Z) (r : ShmemReq) : ShmemReq :=
  mkReq (m_shmem_msg r) (m_time r) (m_wait_for_data r) core.
Definition req_setDataBuf (d : data_buf) (r : ShmemReq) : ShmemReq :=
  mkReq (setDataBuf d (m_shmem_msg r)) (m_time r) (m_wait_for_data r) (m_forwarding_from r).

Abbreviation req_type r := (m_msg_type (m_shmem_msg r)).
Abbreviation req_core r := (m_requester (m_shmem_msg r)).
Abbreviation req_block_type r := (sm_block_type (m_shmem_msg r)).

(** [ReqQueueListTemplate]: a queue exists for the addresses that have requests. *)
Abbreviation ReqQueueList := (gmap Z (list ShmemReq)).

Definition queue_of (q : ReqQueueList) (address : Z) : list ShmemReq := default [] (q !! address).

Definition q_enqueue (address : Z) (r : ShmemReq) (q : ReqQueueList) : ReqQueueList :=
  <[address := queue_of q address ++ [r]]> q.

Definition q_dequeue (address : Z) (q : ReqQueueList) : res (ShmemReq * ReqQueueList) :=
  match q !! address with
  | None => Err LogError
  | Some [] => Err OutOfBounds
  | Some (r :: rest) =>
      Ok (r, match rest with [] => delete address q | _ => <[address := rest]> q end)
  end.

Definition q_front (address : Z) (q : ReqQueueList) : res ShmemReq :=
  match q !! address with
  | None => Err LogError
  | Some [] => Err OutOfBounds
  | Some (r :: _) => Ok r
  end.

Definition q_size (address : Z) (q : ReqQueueList) : Z := Z.of_nat (length (queue_of q address)).
Definition q_empty (address : Z) (q : ReqQueueList) : bool := bool_decide (q !! address = None).

(** A change of the object that [front] points to. *)
Definition q_update_front (address : Z) (f : ShmemReq -> ShmemReq) (q : ReqQueueList) : ReqQueueList :=
  match q !! address with
  | Some (r :: rest) => <[address := f r :: rest]> q
  | _ => q
  end.

(** ** State *)

(** What the network is given; [None] is a broadcast. *)
Record NetPacket := mkPacket { p_time : Z; p_receiver : option Z; p_msg : ShmemMsg }.

(** The contents of the local variables that the controller does not initialise: a block, a
    flag and an address. *)
Record Stack := mkStack { stack_bytes : list Z; stack_flag : bool; stack_address : Z }.

(** The NUCA cache: [read] returns latency, place of the hit and the buffer it filled;
    [write] returns whether a dirty line was evicted, its address and data, and is given
    what these variables of its caller hold before. *)
Class NucaCache (N : Type) := {
  nuca_read : N -> Z -> list Z -> Z -> bool -> res (Z * HitWhere.where_t * list Z * N);
  nuca_write : N -> Z -> data_buf -> Stack -> Z -> bool -> res (bool * Z * list Z * N)
}.

Record DramDirectoryCntlr (N : Type) := mkDDC {
  m_dram_directory_cache : DramDirectoryCache;
  m_dram_directory_req_queue_list : ReqQueueList;
  m_nuca_cache : option N;
  m_dram_controller_home_lookup : AddressHomeLookup;
  m_core_id : Z;
  m_cache_block_size : Z;
  m_protocol : CoherencyProtocol.type_t;
  evict : list Z;
  forward : Z;
  forward_failed : Z;
  elapsed_time : Z;
  sent : list NetPacket
}.
Arguments mkDDC {_}.
Arguments m_dram_directory_cache {_}.
Arguments m_dram_directory_req_queue_list {_}.
Arguments m_nuca_cache {_}.
Arguments m_dram_controller_home_lookup {_}.
Arguments m_core_id {_}.
Arguments m_cache_block_size {_}.
Arguments m_protocol {_}.
Arguments evict {_}.
Arguments forward {_}.
Arguments forward_failed {_}.
Arguments elapsed_time {_}.
Arguments sent {_}.

Section state.
Context {N : Type}.
Implicit Types s : DramDirectoryCntlr N.

Definition with_dc (dc : DramDirectoryCache) s : DramDirectoryCntlr N :=
  mkDDC dc (m_dram_directory_req_queue_list s) (m_nuca_cache s) (m_dram_controller_home_lookup s)
    (m_core_id s) (m_cache_block_size s) (m_protocol s) (evict s) (forward s) (forward_failed s)
    (elapsed_time s) (sent s).
Definition with_queues (q : ReqQueueList) s : DramDirectoryCntlr N :=
  mkDDC (m_dram_directory_cache s) q (m_nuca_cache s) (m_dram_controller_home_lookup s)
    (m_core_id s) (m_cache_block_size s) (m_protocol s) (evict s) (forward s) (forward_failed s)
    (elapsed_time s) (sent s).
Definition with_nuca (n : option N) s : DramDirectoryCntlr N :=
  mkDDC (m_dram_directory_cache s) (m_dram_directory_req_queue_list s) n
    (m_dram_controller_home_lookup s) (m_core_id s) (m_cache_block_size s) (m_protocol s) (evict s)
    (forward s) (forward_failed s) (elapsed_time s) (sent s).
Definition with_counters (ev : list Z) (fw ff : Z) s : DramDirectoryCntlr N :=
  mkDDC (m_dram_directory_cache s) (m_dram_directory_req_queue_list s) (m_nuca_cache s)
    (m_dram_controller_home_lookup s) (m_core_id s) (m_cache_block_size s) (m_protocol s) ev fw ff
    (elapsed_time s) (sent s).
Definition with_time (t : Z) s : DramDirectoryCntlr N :=
  mkDDC (m_dram_directory_cache s) (m_dram_directory_req_queue_list s) (m_nuca_cache s)
    (m_dram_controller_home_lookup s) (m_core_id s) (m_cache_block_size s) (m_protocol s) (evict s)
    (forward s) (forward_failed s) t (sent s).
Definition with_sent (l : list NetPacket) s : DramDirectoryCntlr N :=
  mkDDC (m_dram_directory_cache s) (m_dram_directory_req_queue_list s) (m_nuca_cache s)
    (m_dram_controller_home_lookup s) (m_core_id s) (m_cache_block_size s) (m_protocol s) (evict s)
    (forward s) (forward_failed s) (elapsed_time s) l.

(** The monad of the controller. *)
Definition M (A : Type) : Type := DramDirectoryCntlr N -> res (A * DramDirectoryCntlr N).

#[global] Instance M_ret : MRet M := fun A a s => Ok (a, s).
#[global] Instance M_bind : MBind M := fun A B k m s =>
  match m s with Ok (a, s') => k a s' | Err f => Err f end.

Definition gets {A} (f : DramDirectoryCntlr N -> A) : M A := fun s => Ok (f s, s).
Definition modify (f : DramDirectoryCntlr N -> DramDirectoryCntlr N) : M unit := fun s => Ok (tt, f s).
Definition lift {A} (r : res A) : M A := fun s => match r with Ok a => Ok (a, s) | Err f => Err f end.
Definition fail {A} (f : fault) : M A := fun _ => Err f.

(** The effects of the components the controller calls. *)

Definition lookup_entry (address : Z) (modeled : bool) : M (option entry_ref) := fun s =>
  match getDirectoryEntry (m_dram_directory_cache s) address modeled (elapsed_time s) with
  | Ok (o, dc, t) => Ok (o, with_time t (with_dc dc s))
  | Err f => Err f
  end.

Definition read_entry (r : entry_ref) : M DirectoryEntry := fun s =>
  match read_ref (m_dram_directory_cache s) r with Ok e => Ok (e, s) | Err f => Err f end.

Definition write_entry (r : entry_ref) (e : DirectoryEntry) : M unit := fun s =>
  match write_ref (m_dram_directory_cache s) r e with Ok dc => Ok (tt, with_dc dc s) | Err f => Err f end.

Definition req_enqueue (address : Z) (r : ShmemReq) : M unit :=
  modify (fun s => with_queues (q_enqueue address r (m_dram_directory_req_queue_list s)) s).
Definition req_dequeue (address : Z) : M ShmemReq := fun s =>
  match q_dequeue address (m_dram_directory_req_queue_list s) with
  | Ok (r, q) => Ok (r, with_queues q s)
  | Err f => Err f
  end.
Definition req_front (address : Z) : M ShmemReq := fun s =>
  match q_front address (m_dram_directory_req_queue_list s) with Ok r => Ok (r, s) | Err f => Err f end.
Definition req_update_front (address : Z) (f : ShmemReq -> ShmemReq) : M unit :=
  modify (fun s => with_queues (q_update_front address f (m_dram_directory_req_queue_list s)) s).
Definition req_size (address : Z) : M Z :=
  gets (fun s => q_size address (m_dram_directory_req_queue_list s)).

Definition incr_elapsed (latency : Z) : M unit := fun s =>
  match incrElapsedTime (elapsed_time s) latency with
  | Ok t => Ok (tt, with_time t s)
  | Err f => Err f
  end.

(** [MemoryManager::sendMsg] *)
Definition sendMsg (msg_type : msg_t) (receiver_component : MemComponent.component_t)
    (requester receiver address : Z) (data : data_buf) (len : Z) (where_ : HitWhere.where_t)
    (bt : block_type_t) : M unit := fun s =>
  match
    check (eqb (bool_decide (data = NULL)) (len =? 0)) AssertFailed;;
    transmit (setWhere where_ (ShmemMsg_new msg_type MemComponent.TAG_DIR receiver_component
                requester address data len bt))
  with
  | Ok m => Ok (tt, with_sent (sent s ++ [mkPacket (elapsed_time s) (Some receiver) m]) s)
  | Err f => Err f
  end.

(** [MemoryManager::broadcastMsg] without data: [perf] is whether the [ShmemPerf*] passed is
    not null; the function updates it before it sends the packet. *)
Definition broadcastMsg (msg_type : msg_t) (requester address : Z) (perf : bool) : M unit := fun s =>
  match
    m ← transmit (ShmemMsg_new msg_type MemComponent.TAG_DIR MemComponent.L2_CACHE requester address
                    NULL 0 DATA);
    check perf NullDeref;; Ok m
  with
  | Ok m => Ok (tt, with_sent (sent s ++ [mkPacket (elapsed_time s) None m]) s)
  | Err f => Err f
  end.

End state.
Arguments M : clear implicits.

(** ** The controller *)

Section controller.
Context {N : Type} `{!NucaCache N}.
Context (stack : Stack).
Abbreviation MM := (M N).

Definition sendToL2 (msg_type : msg_t) (requester receiver address : Z) (bt : block_type_t) : MM unit :=
  sendMsg msg_type MemComponent.L2_CACHE requester receiver address NULL 0 HitWhere.UNKNOWN bt.

Fixpoint for_each {A} (f : A -> MM unit) (l : list A) : MM unit :=
  match l with
  | [] => mret tt
  | x :: l' => f x;; for_each f l'
  end.

(** Invalidation of all sharers: a broadcast when the list of sharers is not exact. *)
Definition invalidate_sharers (e : DirectoryEntry) (requester address : Z) (bt : block_type_t)
  : MM unit :=
  let sharers_list_pair := getSharersList e in
  if fst sharers_list_pair then broadcastMsg INV_REQ requester address false
  else for_each (fun receiver => sendToL2 INV_REQ requester receiver address bt)
         (snd sharers_list_pair).

Definition sendDataToNUCA (address : Z) (data : data_buf) (count : bool) (bt : block_type_t) : MM unit :=
  nuca ← gets m_nuca_cache;
  match nuca with
  | None => mret tt
  | Some n =>
      now ← gets elapsed_time;
      '(eviction, evict_address, evict_buf, n) ← lift (nuca_write n address data stack now count);
      modify (with_nuca (Some n));;
      if eviction : bool then
        ahl ← gets m_dram_controller_home_lookup;
        dram_node ← lift (getHome ahl evict_address);
        core ← gets m_core_id;
        len ← gets m_cache_block_size;
        sendMsg DRAM_WRITE_REQ MemComponent.DRAM core dram_node evict_address (Live evict_buf) len
          HitWhere.UNKNOWN bt
      else mret tt
  end.

Definition sendDataToDram (address requester : Z) (data : data_buf) (bt : block_type_t) : MM unit :=
  nuca ← gets m_nuca_cache;
  match nuca with
  | Some _ => sendDataToNUCA address data true bt
  | None =>
      ahl ← gets m_dram_controller_home_lookup;
      dram_node ← lift (getHome ahl address);
      len ← gets m_cache_block_size;
      sendMsg DRAM_WRITE_REQ MemComponent.DRAM requester dram_node address data len HitWhere.UNKNOWN bt
  end.

(** *** The functions that process a request

    They are mutually recursive through [processNextReqFromL2Cache], the argument [next]. *)

Section with_next.
Context (next : Z -> MM unit).

(** The part of [retrieveDataAndSendToL2Cache] that asks the NUCA cache; it returns whether
    the request was served. *)
Definition retrieve_from_nuca (reply_msg_type : msg_t) (receiver address : Z) (bt : block_type_t)
  : MM bool :=
  nuca ← gets m_nuca_cache;
  match nuca with
  | None => mret false
  | Some n =>
      now ← gets elapsed_time;
      '(nuca_latency, hit_where, nuca_data_buf, n) ← lift (nuca_read n address (stack_bytes stack) now true);
      modify (with_nuca (Some n));;
      incr_elapsed nuca_latency;;
      if bool_decide (hit_where = HitWhere.MISS) then mret false
      else
        len ← gets m_cache_block_size;
        sendMsg reply_msg_type MemComponent.L2_CACHE receiver receiver address (Live nuca_data_buf) len
          HitWhere.NUCA_CACHE bt;;
        next address;;
        mret true
  end.

Definition retrieveDataAndSendToL2Cache (reply_msg_type : msg_t) (receiver address : Z)
    (cached_data_buf : data_buf) (bt : block_type_t) : MM unit :=
  o ← lookup_entry address false;
  match o with
  | None => fail AssertFailed
  | Some directory_entry =>
      match cached_data_buf with
      | NULL =>
          served ← retrieve_from_nuca reply_msg_type receiver address bt;
          if served : bool then mret tt
          else
            n ← req_size address;
            lift (check (0 <? n) AssertFailed);;
            shmem_req ← req_front address;
            e ← read_entry directory_entry;
            protocol ← gets m_protocol;
            if bool_decide (protocol = CoherencyProtocol.MESIF)
               && (m_forwarding_from shmem_req =? INVALID_CORE_ID)
               && bool_decide (de_dstate e = DirectoryState.SHARED)
               && negb (de_forwarder_id e =? INVALID_CORE_ID)
            then
              req_update_front address (setForwardingFrom (de_forwarder_id e));;
              sendToL2 WB_REQ receiver (de_forwarder_id e) address (req_block_type shmem_req)
            else
              req_update_front address setWaitForData;;
              ahl ← gets m_dram_controller_home_lookup;
              dram_node ← lift (getHome ahl address);
              sendMsg DRAM_READ_REQ MemComponent.DRAM receiver dram_node address NULL 0
                HitWhere.UNKNOWN bt
      | _ =>
          e ← read_entry directory_entry;
          write_entry directory_entry (setForwarder receiver e);;
          len ← gets m_cache_block_size;
          sendMsg reply_msg_type MemComponent.L2_CACHE receiver receiver address cached_data_buf len
            HitWhere.CACHE_REMOTE bt;;
          next address
      end
  end.

Definition processNullifyReq (shmem_req : ShmemReq) : MM unit :=
  let address := sm_address (m_shmem_msg shmem_req) in
  let requester := req_core shmem_req in
  let bt := req_block_type shmem_req in
  o ← lookup_entry address false;
  match o with
  | None => fail AssertFailed
  | Some directory_entry =>
      e ← read_entry directory_entry;
      match de_dstate e with
      | DirectoryState.EXCLUSIVE | DirectoryState.MODIFIED =>
          sendToL2 FLUSH_REQ requester (de_owner_id e) address bt
      | DirectoryState.SHARED => invalidate_sharers e requester address bt
      | DirectoryState.UNCACHED =>
          dc ← gets m_dram_directory_cache;
          dc ← lift (invalidateDirectoryEntry dc address);
          modify (with_dc dc);;
          next address
      | DirectoryState.OWNED => fail LogError
      end
  end.

(** The candidate with the fewest sharers among those without outstanding requests. *)
Fixpoint choose_candidate (best : option nat) (l : list nat) : MM (option nat) :=
  match l with
  | [] => mret best
  | n :: l' =>
      e ← read_entry (InSlot n);
      better ← (match best with
                | None => mret true
                | Some b => eb ← read_entry (InSlot b); mret (getNumSharers e <? getNumSharers eb)
                end);
      outstanding ← req_size (de_address e);
      choose_candidate (if better && (outstanding =? 0) then Some n else best) l'
  end.

Definition dstate_index (d : dstate_t) : nat :=
  match d with
  | DirectoryState.UNCACHED => 0 | DirectoryState.SHARED => 1 | DirectoryState.OWNED => 2
  | DirectoryState.MODIFIED => 3 | DirectoryState.EXCLUSIVE => 4
  end.

Definition processDirectoryEntryAllocationReq (shmem_req : ShmemReq) : MM entry_ref :=
  let address := sm_address (m_shmem_msg shmem_req) in
  let requester := req_core shmem_req in
  msg_time ← gets elapsed_time;
  dc ← gets m_dram_directory_cache;
  '(replacement_candidate_list, dc) ← lift (getReplacementCandidates dc address);
  modify (with_dc dc);;
  replacement_candidate ← choose_candidate None replacement_candidate_list;
  match replacement_candidate with
  | None => fail LogError
  | Some c =>
      e ← read_entry (InSlot c);
      ev ← gets evict;
      x ← lift (rd ev (dstate_index (de_dstate e)));
      ev ← lift (wr ev (dstate_index (de_dstate e)) (u64 (x + 1)));
      modify (fun s => with_counters ev (forward s) (forward_failed s) s);;
      let replaced_address := de_address e in
      dc ← gets m_dram_directory_cache;
      now ← gets elapsed_time;
      '(n, dc, now) ← lift (replaceDirectoryEntry dc replaced_address address true now);
      modify (fun s => with_time now (with_dc dc s));;
      nullify_req ← lift (ShmemReq_new (ShmemMsg_new NULLIFY_REQ MemComponent.TAG_DIR
        MemComponent.TAG_DIR requester replaced_address NULL 0 DATA) msg_time);
      req_enqueue replaced_address nullify_req;;
      size ← req_size replaced_address;
      lift (check (size =? 1) AssertFailed);;
      processNullifyReq nullify_req;;
      mret (InSlot n)
  end.

(** The entry of the requested line, allocated when there is none. *)
Definition entry_for (shmem_req : ShmemReq) : MM entry_ref :=
  o ← lookup_entry (sm_address (m_shmem_msg shmem_req)) false;
  match o with
  | Some r => mret r
  | None => processDirectoryEntryAllocationReq shmem_req
  end.

(** [addSharer], [assert(add_result)], [setOwner], [setDState] of the first sharer. *)
Definition first_sharer (r : entry_ref) (e : DirectoryEntry) (requester : Z) (d : dstate_t) : MM unit :=
  dc ← gets m_dram_directory_cache;
  '(add_result, e) ← lift (addSharer e requester (getMaxHwSharers dc));
  lift (check add_result AssertFailed);;
  e ← lift (setOwner requester e);
  write_entry r (setDState d e).

Definition processExReqFromL2Cache (shmem_req : ShmemReq) (cached_data_buf : data_buf) : MM unit :=
  let address := sm_address (m_shmem_msg shmem_req) in
  let requester := req_core shmem_req in
  let bt := req_block_type shmem_req in
  directory_entry ← entry_for shmem_req;
  e ← read_entry directory_entry;
  match de_dstate e with
  | DirectoryState.EXCLUSIVE | DirectoryState.MODIFIED =>
      lift (check (bool_decide (cached_data_buf = NULL)) AssertFailed);;
      sendToL2 FLUSH_REQ requester (de_owner_id e) address bt
  | DirectoryState.SHARED =>
      lift (check (bool_decide (cached_data_buf = NULL)) AssertFailed);;
      invalidate_sharers e requester address bt
  | DirectoryState.UNCACHED =>
      first_sharer directory_entry e requester DirectoryState.MODIFIED;;
      retrieveDataAndSendToL2Cache EX_REP requester address cached_data_buf bt
  | DirectoryState.OWNED => fail LogError
  end.

Definition processShReqFromL2Cache (shmem_req : ShmemReq) (cached_data_buf : data_buf) : MM unit :=
  let address := sm_address (m_shmem_msg shmem_req) in
  let requester := req_core shmem_req in
  let bt := req_block_type shmem_req in
  directory_entry ← entry_for shmem_req;
  e ← read_entry directory_entry;
  match de_dstate e with
  | DirectoryState.EXCLUSIVE =>
      lift (check (negb (requester =? de_owner_id e)) AssertFailed);;
      lift (check (bool_decide (cached_data_buf = NULL)) AssertFailed);;
      sendToL2 WB_REQ requester (de_owner_id e) address bt
  | DirectoryState.MODIFIED =>
      lift (check (bool_decide (cached_data_buf = NULL)) AssertFailed);;
      sendToL2 WB_REQ requester (de_owner_id e) address bt
  | DirectoryState.SHARED =>
      b ← lift (hasSharer e requester);
      if b : bool then
        modify (fun s => with_counters (evict s) (u64 (forward s + 1))
          (if bool_decide (cached_data_buf = NULL) then u64 (forward_failed s + 1)
           else forward_failed s) s);;
        retrieveDataAndSendToL2Cache SH_REP requester address cached_data_buf bt
      else
        dc ← gets m_dram_directory_cache;
        '(add_result, e) ← lift (addSharer e requester (getMaxHwSharers dc));
        write_entry directory_entry e;;
        if add_result : bool then
          retrieveDataAndSendToL2Cache SH_REP requester address cached_data_buf bt
        else
          '(sharer_id, e) ← lift (getOneSharer e);
          write_entry directory_entry e;;
          sendToL2 INV_REQ requester sharer_id address bt
  | DirectoryState.UNCACHED =>
      protocol ← gets m_protocol;
      if bool_decide (protocol = CoherencyProtocol.MSI) then
        first_sharer directory_entry e requester DirectoryState.SHARED;;
        retrieveDataAndSendToL2Cache SH_REP requester address cached_data_buf bt
      else
        first_sharer directory_entry e requester DirectoryState.EXCLUSIVE;;
        retrieveDataAndSendToL2Cache EX_REP requester address cached_data_buf bt
  | DirectoryState.OWNED => fail LogError
  end.

(** The loop that invalidates the other sharers for an upgrade; the first of the list is
    flushed instead when the requester has lost its copy. *)
Fixpoint upgrade_invalidate (i : nat) (sharers : list Z) (requester address : Z)
    (requesterHasCopy : bool) (bt : block_type_t) : MM unit :=
  match sharers with
  | [] => mret tt
  | sharer :: sharers' =>
      (if negb (sharer =? requester) then
         let msg_type := if negb requesterHasCopy && Nat.eqb i 0 then FLUSH_REQ else INV_REQ in
         sendToL2 msg_type requester sharer address bt
       else mret tt);;
      upgrade_invalidate (S i) sharers' requester address requesterHasCopy bt
  end.

Definition processUpgradeReqFromL2Cache (shmem_req : ShmemReq) (cached_data_buf : data_buf) : MM unit :=
  let address := sm_address (m_shmem_msg shmem_req) in
  let requester := req_core shmem_req in
  let bt := req_block_type shmem_req in
  directory_entry ← entry_for shmem_req;
  e ← read_entry directory_entry;
  let sharers_list_pair := getSharersList e in
  match de_dstate e with
  | DirectoryState.EXCLUSIVE | DirectoryState.MODIFIED =>
      first ← lift (rd (snd sharers_list_pair) 0);
      if first =? requester then
        lift (check (de_owner_id e =? requester) AssertFailed);;
        sendToL2 UPGRADE_REP requester requester address bt;;
        write_entry directory_entry (setDState DirectoryState.MODIFIED e);;
        next address
      else sendToL2 FLUSH_REQ requester (de_owner_id e) address bt
  | DirectoryState.SHARED =>
      if bool_decide (snd sharers_list_pair = [requester]) then
        e ← lift (setOwner requester e);
        write_entry directory_entry (setDState DirectoryState.MODIFIED e);;
        sendToL2 UPGRADE_REP requester requester address bt;;
        next address
      else
        requesterHasCopy ← lift (hasSharer e requester);
        if fst sharers_list_pair then broadcastMsg INV_REQ requester address false
        else upgrade_invalidate 0 (snd sharers_list_pair) requester address requesterHasCopy bt
  | DirectoryState.UNCACHED =>
      lift (check (bool_decide (snd sharers_list_pair = [])) AssertFailed);;
      first_sharer directory_entry e requester DirectoryState.MODIFIED;;
      let cached_data_buf := match cached_data_buf with
                             | NULL => m_data_buf (m_shmem_msg shmem_req)
                             | _ => cached_data_buf
                             end in
      retrieveDataAndSendToL2Cache EX_REP requester address cached_data_buf bt
  | DirectoryState.OWNED => fail LogError
  end.

End with_next.

(** Recursion: one unit of fuel per request that is taken out of a queue. *)
Fixpoint processNextReqFromL2Cache (fuel : nat) (address : Z) : MM unit :=
  match fuel with
  | O => fail Diverges
  | S fuel' =>
      n ← req_size address;
      lift (check (1 <=? n) AssertFailed);;
      _ ← req_dequeue address;
      q ← gets m_dram_directory_req_queue_list;
      if q_empty address q then mret tt
      else
        shmem_req ← req_front address;
        modify (with_time (m_time shmem_req));;
        match req_type shmem_req with
        | EX_REQ => processExReqFromL2Cache (processNextReqFromL2Cache fuel') shmem_req NULL
        | SH_REQ => processShReqFromL2Cache (processNextReqFromL2Cache fuel') shmem_req NULL
        | UPGRADE_REQ => processUpgradeReqFromL2Cache (processNextReqFromL2Cache fuel') shmem_req NULL
        | _ => fail LogError
        end
  end.

(** The fuel is more than the length of the queue at the time of the call. *)
Definition next_req (address : Z) : MM unit := fun s =>
  processNextReqFromL2Cache (S (length (queue_of (m_dram_directory_req_queue_list s) address))) address s.

(** *** Replies *)

Definition processDRAMReply (sender : Z) (shmem_msg : ShmemMsg) : MM unit :=
  let address := sm_address shmem_msg in
  n ← req_size address;
  lift (check (1 <=? n) AssertFailed);;
  shmem_req ← req_front address;
  o ← lookup_entry address false;
  match o with
  | None => fail AssertFailed
  | Some directory_entry =>
      e ← read_entry directory_entry;
      let curr_dstate := de_dstate e in
      reply_msg_type ← (match req_type shmem_req with
        | SH_REQ =>
            lift (check (bool_decide (curr_dstate = DirectoryState.SHARED)
                         || bool_decide (curr_dstate = DirectoryState.EXCLUSIVE)) AssertFailed);;
            mret (if bool_decide (curr_dstate = DirectoryState.EXCLUSIVE) then EX_REP else SH_REP)
        | EX_REQ =>
            lift (check (bool_decide (curr_dstate = DirectoryState.MODIFIED)) AssertFailed);;
            mret EX_REP
        | UPGRADE_REQ => mret EX_REP
        | _ => fail LogError
        end);
      w ← lift (deref (m_where shmem_msg));
      let hit_where := if bool_decide (w = HitWhere.DRAM)
                       then if sender =? m_requester shmem_msg then HitWhere.DRAM_LOCAL
                            else HitWhere.DRAM_REMOTE
                       else w in
      len ← gets m_cache_block_size;
      sendMsg reply_msg_type MemComponent.L2_CACHE (req_core shmem_req) (req_core shmem_req) address
        (m_data_buf shmem_msg) len hit_where (req_block_type shmem_req);;
      sendDataToNUCA address (m_data_buf shmem_msg) false (sm_block_type shmem_msg);;
      next_req address
  end.

(** The request at the front is told the time; the elapsed time follows it. *)
Definition wake_front (address now : Z) : MM ShmemReq :=
  req_update_front address (req_updateTime now);;
  shmem_req ← req_front address;
  modify (fun s => with_time (updateElapsedTime (elapsed_time s) (m_time shmem_req)) s);;
  mret shmem_req.

(** What the request at the front does after an invalidation. *)
Definition inv_dispatch (directory_entry : entry_ref) (e : DirectoryEntry) (sender : Z)
    (shmem_req : ShmemReq) : MM unit :=
  match req_type shmem_req with
  | EX_REQ =>
      if bool_decide (de_dstate e = DirectoryState.UNCACHED)
      then processExReqFromL2Cache next_req shmem_req NULL else mret tt
  | UPGRADE_REQ =>
      if getNumSharers e =? 1 then
        b ← lift (hasSharer e (req_core shmem_req));
        if b : bool then processUpgradeReqFromL2Cache next_req shmem_req NULL else mret tt
      else if getNumSharers e =? 0 then
        write_entry directory_entry (setDState DirectoryState.UNCACHED e);;
        processUpgradeReqFromL2Cache next_req shmem_req NULL
      else mret tt
  | SH_REQ =>
      if m_wait_for_data shmem_req then mret tt
      else if isForwarding shmem_req && negb (sender =? m_forwarding_from shmem_req) then mret tt
      else processShReqFromL2Cache next_req shmem_req NULL
  | _ =>
      if bool_decide (de_dstate e = DirectoryState.UNCACHED)
      then processNullifyReq next_req shmem_req else mret tt
  end.

Definition processInvRepFromL2Cache (sender : Z) (shmem_msg : ShmemMsg) : MM unit :=
  let address := sm_address shmem_msg in
  o ← lookup_entry address false;
  match o with
  | None => fail AssertFailed
  | Some directory_entry =>
      e ← read_entry directory_entry;
      lift (check (bool_decide (de_dstate e = DirectoryState.SHARED)
                   || bool_decide (de_dstate e = DirectoryState.EXCLUSIVE)) LogError);;
      e ← lift (removeSharer e sender false);
      let e := if de_forwarder_id e =? sender then setForwarder INVALID_CORE_ID e else e in
      let e := if getNumSharers e =? 0 then setDState DirectoryState.UNCACHED e else e in
      write_entry directory_entry e;;
      n ← req_size address;
      if 0 <? n then
        now ← gets elapsed_time;
        shmem_req ← wake_front address now;
        inv_dispatch directory_entry e sender shmem_req
      else mret tt
  end.

(** What the request at the front does with flushed data. *)
Definition flush_dispatch (directory_entry : entry_ref) (e : DirectoryEntry) (shmem_msg : ShmemMsg)
    (shmem_req : ShmemReq) : MM unit :=
  let address := sm_address shmem_msg in
  let requester := m_requester shmem_msg in
  let data := m_data_buf shmem_msg in
  let bt := sm_block_type shmem_msg in
  match req_type shmem_req with
  | EX_REQ => processExReqFromL2Cache next_req shmem_req data
  | SH_REQ =>
      sendDataToDram address requester data bt;;
      processShReqFromL2Cache next_req shmem_req data
  | UPGRADE_REQ =>
      if getNumSharers e =? 0 then
        write_entry directory_entry (setDState DirectoryState.UNCACHED e);;
        processUpgradeReqFromL2Cache next_req shmem_req data
      else req_update_front address (req_setDataBuf data)
  | _ =>
      sendDataToDram address requester data bt;;
      processNullifyReq next_req shmem_req
  end.

Definition processFlushRepFromL2Cache (sender : Z) (shmem_msg : ShmemMsg) : MM unit :=
  let address := sm_address shmem_msg in
  now ← gets elapsed_time;
  o ← lookup_entry address false;
  match o with
  | None => fail AssertFailed
  | Some directory_entry =>
      e ← read_entry directory_entry;
      b ← lift (hasSharer e sender);
      lift (check b AssertFailed);;
      e ← lift (removeSharer e sender false);
      let e := setForwarder INVALID_CORE_ID e in
      e ← lift (setOwner INVALID_CORE_ID e);
      e ← (if getNumSharers e =? 0 then mret (setDState DirectoryState.UNCACHED e)
           else lift (check (bool_decide (de_dstate e = DirectoryState.SHARED)) AssertFailed);; mret e);
      write_entry directory_entry e;;
      n ← req_size address;
      if negb (n =? 0) then
        shmem_req ← wake_front address now;
        flush_dispatch directory_entry e shmem_msg shmem_req
      else sendDataToDram address (m_requester shmem_msg) (m_data_buf shmem_msg) (sm_block_type shmem_msg)
  end.

Definition processWbRepFromL2Cache (sender : Z) (shmem_msg : ShmemMsg) : MM unit :=
  let address := sm_address shmem_msg in
  now ← gets elapsed_time;
  o ← lookup_entry address false;
  match o with
  | None => fail AssertFailed
  | Some directory_entry =>
      e ← read_entry directory_entry;
      b ← lift (hasSharer e sender);
      lift (check b AssertFailed);;
      e ← lift (setOwner INVALID_CORE_ID e);
      write_entry directory_entry (setDState DirectoryState.SHARED e);;
      n ← req_size address;
      if negb (n =? 0) then
        shmem_req ← wake_front address now;
        lift (check (bool_decide (req_type shmem_req = SH_REQ)) LogError);;
        processShReqFromL2Cache next_req shmem_req (m_data_buf shmem_msg)
      else fail LogError
  end.

(** *** Delivery of messages *)

(** A new request is queued, and processed when it is the only one for its line. *)
Definition submit (shmem_msg : ShmemMsg) (msg_time : Z) (process : ShmemReq -> data_buf -> MM unit)
  : MM unit :=
  let address := sm_address shmem_msg in
  shmem_req ← lift (ShmemReq_new shmem_msg msg_time);
  req_enqueue address shmem_req;;
  n ← req_size address;
  if n =? 1 then process shmem_req NULL else mret tt.

Definition handleMsgFromL2Cache (sender : Z) (shmem_msg : ShmemMsg) : MM unit :=
  msg_time ← gets elapsed_time;
  _ ← lookup_entry (sm_address shmem_msg) true;
  match m_msg_type shmem_msg with
  | EX_REQ => submit shmem_msg msg_time (processExReqFromL2Cache next_req)
  | SH_REQ => submit shmem_msg msg_time (processShReqFromL2Cache next_req)
  | INV_REP => processInvRepFromL2Cache sender shmem_msg
  | FLUSH_REP => processFlushRepFromL2Cache sender shmem_msg
  | WB_REP => processWbRepFromL2Cache sender shmem_msg
  | UPGRADE_REQ => submit shmem_msg msg_time (processUpgradeReqFromL2Cache next_req)
  | _ => fail LogError
  end.

Definition handleMsgFromDRAM (sender : Z) (shmem_msg : ShmemMsg) : MM unit :=
  match m_msg_type shmem_msg with
  | DRAM_READ_REP => processDRAMReply sender shmem_msg
  | _ => fail LogError
  end.

(** When the data buffer of the message is deleted, the requests that kept a pointer to it
    (those of the queue whose data is not null) keep a pointer to deleted memory. *)
Definition delete_buffer (r : ShmemReq) : ShmemReq :=
  match m_data_buf (m_shmem_msg r) with NULL => r | _ => req_setDataBuf Deleted r end.

Definition delete_buffers (q : ReqQueueList) : ReqQueueList :=
  map delete_buffer <$> q.

(** [MemoryManager::handleMsgFromNetwork] for a message whose receiver is the tag
    directory: the clock is set, the message handled, its data buffer deleted. *)
Definition handleMsgFromNetwork (sender msg_time : Z) (shmem_msg : ShmemMsg) : MM unit :=
  modify (with_time msg_time);;
  match m_sender_mem_component shmem_msg with
  | MemComponent.LAST_LEVEL_CACHE => handleMsgFromL2Cache sender shmem_msg
  | MemComponent.DRAM => handleMsgFromDRAM sender shmem_msg
  | _ => fail LogError
  end;;
  if 0 <? m_data_length shmem_msg then
    lift (check (negb (bool_decide (m_data_buf shmem_msg = NULL))) AssertFailed);;
    modify (fun s => with_queues (delete_buffers (m_dram_directory_req_queue_list s)) s)
  else mret tt.

(** The constructor, for a protocol name of the configuration; [junk_evict] is the counter of
    evictions in state UNCACHED, which is not initialised. *)
Definition parseProtocol (protocol : string) : res CoherencyProtocol.type_t :=
  if bool_decide (protocol = "msi"%string) then Ok CoherencyProtocol.MSI
  else if bool_decide (protocol = "mesi"%string) then Ok CoherencyProtocol.MESI
  else if bool_decide (protocol = "mesif"%string) then Ok CoherencyProtocol.MESIF
  else Err LogError.

Definition DramDirectoryCntlr_new (core_id : Z) (ahl : AddressHomeLookup) (nuca : option N)
    (total_entries associativity cache_block_size max_num_sharers max_hw_sharers : Z)
    (type_str : string) (access_time trap_penalty : Z) (protocol : string)
    (junk : nat -> Z) (junk_ptrs : nat -> Z) (junk_evict : Z) : res (DramDirectoryCntlr N) :=
  dc ← DramDirectoryCache_new type_str total_entries associativity cache_block_size max_hw_sharers
         max_num_sharers access_time trap_penalty junk junk_ptrs;
  p ← parseProtocol protocol;
  Ok (mkDDC dc ∅ nuca ahl core_id cache_block_size p [junk_evict; 0; 0; 0; 0] 0 0 0 []).

End controller.
