(* ===== verification/DirProps.v ===== *)
(** * Coherence of the directory controller

    The specification of the directory is an automaton that watches the messages of one
    line: which cores hold a copy, who may write, whose requests wait, which replies are
    outstanding. A grant is legal when it keeps the single-writer/multiple-readers
    discipline and goes to the core that has waited longest. The theorems show that every
    run of the controller, with any number of lines, entries and replacements, sends legal
    grants only, and that processing a message always terminates.

    What the caches and the DRAM controller do is the hypothesis [permitted]: replies come
    from cores that hold a copy, answers follow questions, and a core has one request
    outstanding per line. *)

From stdpp Require Import base tactics list numbers gmap sets.
From Stdlib Require Import ZArith Lia.
From S2P Require Import Prelude Utils CacheBase CacheBlock Directory DirCntlr.
Local Open Scope Z_scope.

(** ** The specification automaton *)

Record traffic := mkTraffic {
  holders : gset Z;      (** cores that were granted a copy and have not returned it *)
  writer : option Z;     (** the core that may write *)
  waiting : list Z;      (** cores whose request is not answered, in order of arrival *)
  reads : nat;           (** reads of DRAM that are not answered *)
  asked_wb : gset Z;     (** cores asked to write back and keep a shared copy *)
  asked_flush : gset Z   (** cores asked to return their copy with its data *)
}.

Definition traffic0 : traffic := mkTraffic ∅ None [] 0 ∅ ∅.

(** A grant is legal for the oldest waiting request when nobody else holds a copy
    (exclusive), or nobody may write (shared). *)
Definition legal_send (t : traffic) (m : msg_t) (r : Z) : bool :=
  match m with
  | EX_REP | UPGRADE_REP =>
      bool_decide (holders t ⊆ {[r]}) && bool_decide (head (waiting t) = Some r)
  | SH_REP => bool_decide (writer t = None) && bool_decide (head (waiting t) = Some r)
  | _ => true
  end.

Definition observe_send (t : traffic) (m : msg_t) (r : Z) : traffic :=
  match m with
  | EX_REP | UPGRADE_REP =>
      mkTraffic ({[r]} ∪ holders t) (Some r) (tail (waiting t)) (reads t) (asked_wb t) (asked_flush t)
  | SH_REP =>
      mkTraffic ({[r]} ∪ holders t) (writer t) (tail (waiting t)) (reads t) (asked_wb t) (asked_flush t)
  | DRAM_READ_REQ =>
      mkTraffic (holders t) (writer t) (waiting t) (S (reads t)) (asked_wb t) (asked_flush t)
  | WB_REQ =>
      mkTraffic (holders t) (writer t) (waiting t) (reads t) ({[r]} ∪ asked_wb t) (asked_flush t)
  | FLUSH_REQ =>
      mkTraffic (holders t) (writer t) (waiting t) (reads t) (asked_wb t) ({[r]} ∪ asked_flush t)
  | _ => t
  end.

Definition resigned (w : option Z) (s : Z) : option Z := if decide (w = Some s) then None else w.

(** A message from [sender] with the given requester. *)
Definition observe_receive (t : traffic) (m : msg_t) (sender requester : Z) : traffic :=
  match m with
  | EX_REQ | SH_REQ | UPGRADE_REQ =>
      mkTraffic (holders t) (writer t) (waiting t ++ [requester]) (reads t) (asked_wb t) (asked_flush t)
  | INV_REP | FLUSH_REP =>
      mkTraffic (holders t ∖ {[sender]}) (resigned (writer t) sender) (waiting t) (reads t)
        (asked_wb t ∖ {[sender]}) (asked_flush t ∖ {[sender]})
  | WB_REP =>
      mkTraffic (holders t) (resigned (writer t) sender) (waiting t) (reads t)
        (asked_wb t ∖ {[sender]}) (asked_flush t)
  | DRAM_READ_REP =>
      mkTraffic (holders t) (writer t) (waiting t) (pred (reads t)) (asked_wb t) (asked_flush t)
  | _ => t
  end.

(** What the caches and the DRAM controller may send to the directory. *)
Definition permitted (t : traffic) (m : msg_t) (sender requester : Z) : Prop :=
  match m with
  | EX_REQ | SH_REQ => (requester ∉ holders t) /\ (requester ∉ waiting t)
  | UPGRADE_REQ => requester ∉ waiting t
  | INV_REP => sender ∈ holders t
  | FLUSH_REP => sender ∈ holders t /\ (writer t = Some sender \/ sender ∈ asked_flush t)
  | WB_REP => sender ∈ holders t /\ sender ∈ asked_wb t
  | DRAM_READ_REP => reads t <> 0%nat
  | _ => False
  end.

(** The traffic of all lines, and its replay over the packets that were sent. *)
Definition net := Z -> traffic.

Definition observe_packet (n : net) (p : NetPacket) : net := fun a =>
  match p_receiver p with
  | Some r => if decide (a = sm_address (p_msg p)) then observe_send (n a) (m_msg_type (p_msg p)) r
              else n a
  | None => n a
  end.

Definition legal_packet (n : net) (p : NetPacket) : bool :=
  match p_receiver p with
  | Some r => legal_send (n (sm_address (p_msg p))) (m_msg_type (p_msg p)) r
  | None => true
  end.

Fixpoint legal_replay (n : net) (l : list NetPacket) : bool :=
  match l with
  | [] => true
  | p :: l' => legal_packet n p && legal_replay (observe_packet n p) l'
  end.

Definition replay (n : net) (l : list NetPacket) : net := foldl observe_packet n l.

Definition receive (n : net) (sender : Z) (m : ShmemMsg) : net := fun a =>
  if decide (a = sm_address m) then observe_receive (n a) (m_msg_type m) sender (m_requester m)
  else n a.

Lemma replay_snoc n l p a : replay n (l ++ [p]) a = observe_packet (replay n l) p a.
Proof. unfold replay. by rewrite foldl_app. Qed.

Lemma legal_replay_snoc n l p :
  legal_replay n (l ++ [p]) = legal_replay n l && legal_packet (replay n l) p.
Proof.
  revert n. induction l as [|x l IH]; intros n; cbn; [by rewrite andb_true_r|].
  by rewrite IH, andb_assoc.
Qed.

(** ** The invariant of a line *)

(** The directory's view of a line is consistent. *)
Definition coherent (l : line) : Prop :=
  match l_state l with
  | DirectoryState.UNCACHED => l_sharers l = [] /\ l_owner l = INVALID_CORE_ID
  | DirectoryState.SHARED => l_sharers l <> [] /\ l_owner l = INVALID_CORE_ID
  | DirectoryState.MODIFIED | DirectoryState.EXCLUSIVE => l_sharers l = [l_owner l]
  | DirectoryState.OWNED => False
  end.

Definition owned (l : line) : Prop :=
  l_state l = DirectoryState.MODIFIED \/ l_state l = DirectoryState.EXCLUSIVE.

(** The directory knows every copy, and a writer is the only sharer. *)
Definition tracked (l : line) (t : traffic) : Prop :=
  coherent l /\ (forall x, x ∈ holders t -> x ∈ l_sharers l) /\
  (forall w, writer t = Some w -> owned l /\ l_sharers l = [w]).

Definition quiet (t : traffic) : Prop := reads t = 0%nat /\ asked_wb t = ∅ /\ asked_flush t = ∅.

Definition is_core_req (r : ShmemReq) : Prop :=
  req_type r = EX_REQ \/ req_type r = SH_REQ \/ req_type r = UPGRADE_REQ.

(** A request that has not been looked at. *)
Definition fresh (r : ShmemReq) : Prop :=
  m_wait_for_data r = false /\ m_forwarding_from r = INVALID_CORE_ID /\ is_core_req r.

(** A request other than an upgrade comes from a core without copy. *)
Definition copyless (t : traffic) (r : ShmemReq) : Prop :=
  req_type r = EX_REQ \/ req_type r = SH_REQ -> req_core r ∉ holders t.

Definition waiting_cores (q : list ShmemReq) : list Z := map (fun r => req_core r) q.

(** Nothing is under way for the line and the requests [q] wait. *)
Record settled (l : line) (q : list ShmemReq) (t : traffic) : Prop := {
  se_tracked : tracked l t;
  se_quiet : quiet t;
  se_waiting : waiting t = waiting_cores q;
  se_nodup : NoDup (waiting t);
  se_fresh : Forall fresh q;
  se_copyless : Forall (copyless t) q
}.

(** The request [h] at the front is being processed. *)
Record active (l : line) (h : ShmemReq) (t : traffic) : Prop := {
  ac_type : is_core_req h \/ req_type h = NULLIFY_REQ;
  ac_reads : reads t = if m_wait_for_data h then 1%nat else 0%nat;
  ac_wait : m_wait_for_data h = true ->
    asked_wb t = ∅ /\ asked_flush t = ∅ /\ (req_core h ∉ holders t) /\ (req_core h ∈ l_sharers l) /\
    (req_type h = EX_REQ \/ req_type h = UPGRADE_REQ -> l_state l = DirectoryState.MODIFIED) /\
    (req_type h = SH_REQ -> l_state l = DirectoryState.SHARED \/ l_state l = DirectoryState.EXCLUSIVE) /\
    req_type h <> NULLIFY_REQ;
  ac_wb : asked_wb t <> ∅ -> req_type h = SH_REQ /\ exists x, asked_wb t = {[x]} /\
    (owned l /\ l_sharers l = [x] \/
     m_forwarding_from h = x /\ x <> INVALID_CORE_ID /\ l_state l = DirectoryState.SHARED /\
     (req_core h ∈ l_sharers l) /\ (req_core h ∉ holders t));
  ac_flush_sharers : forall x, x ∈ asked_flush t -> x ∈ l_sharers l;
  ac_flush : asked_flush t <> ∅ -> req_type h <> SH_REQ /\
    (req_type h = UPGRADE_REQ -> req_core h ∉ asked_flush t)
}.

(** The invariant of a line with the queue of its requests. *)
Definition line_inv (l : line) (q : list ShmemReq) (t : traffic) : Prop :=
  match q with
  | [] => settled l [] t
  | h :: q' =>
      tracked l t /\ active l h t /\
      waiting t = (if decide (req_type h = NULLIFY_REQ) then [] else [req_core h]) ++ waiting_cores q' /\
      NoDup (waiting t) /\ copyless t h /\ Forall fresh q' /\ Forall (copyless t) q'
  end.

Lemma settled_line_inv l q t : settled l q t -> line_inv l q t.
Proof.
  intros [Ht (Hr & Hw & Hf) Hwt Hn Hfr Hc]. destruct q as [|h q]; cbn; [by split|].
  apply Forall_cons in Hfr as [(H1 & H2 & H3) Hfr]. apply Forall_cons in Hc as [Hc Hcs].
  split_and!; try done.
  - split; rewrite ?H1, ?Hw, ?Hf; try done. by left.
  - rewrite Hwt. cbn. rewrite decide_False; [done|]. unfold is_core_req in H3. intuition congruence.
Qed.

(** ** Steps of a line *)

(** The request [h] can be answered with [reply]. *)
Record grantable (l : line) (h : ShmemReq) (q : list ShmemReq) (t : traffic) (reply : msg_t) : Prop := {
  gr_tracked : tracked l t;
  gr_quiet : quiet t;
  gr_waiting : waiting t = req_core h :: waiting_cores q;
  gr_nodup : NoDup (waiting t);
  gr_fresh : Forall fresh q;
  gr_copyless : Forall (copyless t) q;
  gr_core : is_core_req h;
  gr_sharer : req_core h ∈ l_sharers l;
  gr_reply : reply = SH_REP /\ l_state l = DirectoryState.SHARED \/
    (reply = EX_REP \/ reply = UPGRADE_REP) /\ owned l /\ l_sharers l = [req_core h]
}.

(** While the data is fetched, the directory is ahead of the grant. *)
Definition pending (l : line) (h : ShmemReq) (t : traffic) : Prop :=
  (req_core h ∉ holders t) /\
  (req_type h = EX_REQ \/ req_type h = UPGRADE_REQ -> l_state l = DirectoryState.MODIFIED) /\
  (req_type h = SH_REQ -> l_state l = DirectoryState.SHARED \/ l_state l = DirectoryState.EXCLUSIVE).

Lemma core_req_not_nullify h : is_core_req h -> req_type h <> NULLIFY_REQ.
Proof. unfold is_core_req. intuition congruence. Qed.

Lemma waiting_not_in h q t r :
  waiting t = req_core h :: waiting_cores q -> NoDup (waiting t) -> r ∈ q -> req_core r <> req_core h.
Proof.
  intros -> [Hn _]%NoDup_cons Hr Heq. apply Hn. rewrite <- Heq.
  unfold waiting_cores. apply list_elem_of_fmap. eauto.
Qed.

Lemma grant_legal l h q t reply :
  grantable l h q t reply -> legal_send t reply (req_core h) = true.
Proof.
  intros [(_ & Hh & Hw) _ Hwt _ _ _ _ _ Hr].
  assert (Hhd : head (waiting t) = Some (req_core h)) by (by rewrite Hwt).
  destruct Hr as [[-> Hs]|[Hrep [Ho Hs]]].
  - unfold legal_send. rewrite (bool_decide_true (head _ = _)) by done.
    rewrite bool_decide_true; [done|]. destruct (writer t) as [w|]; [|done].
    destruct (Hw w eq_refl) as [[H|H] _]; congruence.
  - assert (holders t ⊆ {[req_core h]}).
    { intros x Hx. apply Hh in Hx. rewrite Hs in Hx. apply list_elem_of_singleton in Hx. set_solver. }
    destruct Hrep as [-> | ->]; unfold legal_send; by rewrite !bool_decide_true.
Qed.

Lemma copyless_add (t t' : traffic) h q :
  waiting t = req_core h :: waiting_cores q -> NoDup (waiting t) ->
  holders t' = {[req_core h]} ∪ holders t -> Forall (copyless t) q -> Forall (copyless t') q.
Proof.
  intros Hw Hn Hh Hc. rewrite Forall_forall in Hc |- *. intros r Hr Hty.
  pose proof (waiting_not_in _ _ _ _ Hw Hn Hr). specialize (Hc r Hr Hty). set_solver.
Qed.

Lemma grant_settles l h q t reply :
  grantable l h q t reply -> settled l q (observe_send t reply (req_core h)).
Proof.
  intros [(Hc & Hh & Hw) Hq Hwt Hn Hf Hcl Hcr Hsh Hr].
  assert (Htail : tail (waiting t) = waiting_cores q) by (by rewrite Hwt).
  assert (Hn' : NoDup (tail (waiting t))).
  { rewrite Hwt in Hn |- *. by apply NoDup_cons in Hn as [_ ?]. }
  assert (Hh' : forall x, x ∈ {[req_core h]} ∪ holders t -> x ∈ l_sharers l).
  { intros x [Hx%elem_of_singleton|Hx]%elem_of_union; [by subst|auto]. }
  assert (Hcl' : forall t', holders t' = {[req_core h]} ∪ holders t -> Forall (copyless t') q).
  { intros t' Ht. by eapply copyless_add. }
  destruct Hr as [[-> Hs]|[Hrep [Ho Hs]]].
  - split; try done. by apply Hcl'.
  - destruct Hrep as [-> | ->]; (split; try done; try by apply Hcl'); split_and!; try done;
      intros w [= <-]; done.
Qed.

(** The data is requested from DRAM. *)
Lemma await_inv l h q t reply x :
  grantable l h q t reply -> pending l h t ->
  line_inv l (setWaitForData h :: q) (observe_send t DRAM_READ_REQ x).
Proof.
  intros [Ht (Hr & Hwb & Hfl) Hwt Hn Hf Hcl Hcr Hsh _] (Hno & H1 & H2).
  split_and!; try done.
  - split; cbn; rewrite ?Hr, ?Hwb, ?Hfl; try done; [by left|].
    intros _. split_and!; try done. by apply core_req_not_nullify.
  - cbn. rewrite decide_False by (by apply core_req_not_nullify). done.
  - by intros _.
Qed.

(** The data is requested from the core that forwards it. *)
Lemma forward_inv l h q t f :
  grantable l h q t SH_REP -> pending l h t -> req_type h = SH_REQ ->
  m_wait_for_data h = false -> f <> INVALID_CORE_ID ->
  line_inv l (setForwardingFrom f h :: q) (observe_send t WB_REQ f).
Proof.
  intros [Ht (Hr & Hwb & Hfl) Hwt Hn Hf Hcl Hcr Hsh Hrep] (Hno & _ & _) Hty Hwait Hfi.
  assert (Hs : l_state l = DirectoryState.SHARED) by (destruct Hrep as [[_ ?]|[[?|?] _]]; done).
  split_and!; try done.
  - split; cbn; rewrite ?Hr, ?Hwb, ?Hfl, ?Hwait; try done; [by left|].
    intros _. split; [done|]. exists f. split; [set_solver|]. right. by split_and!.
  - cbn. rewrite decide_False by (by apply core_req_not_nullify). done.
  - by intros _.
Qed.

(** A sharer is asked to return its copy. *)
Lemma flush_inv l h q t x :
  line_inv l (h :: q) t -> m_wait_for_data h = false -> req_type h <> SH_REQ -> x ∈ l_sharers l ->
  (req_type h = UPGRADE_REQ -> x <> req_core h) ->
  line_inv l (h :: q) (observe_send t FLUSH_REQ x).
Proof.
  intros (Ht & [Hty Hr Hwt Hwb Hfs Hfl] & H) Hwait Hsh Hx Hup. split_and!; try apply H; try done.
  split; cbn; try done.
  - intros ?. congruence.
  - intros y [->%elem_of_singleton|Hy]%elem_of_union; auto.
  - intros _. split; [done|]. intros Hu. specialize (Hup Hu).
    destruct (decide (asked_flush t = ∅)) as [->|Hne]; [set_solver|].
    destruct (Hfl Hne) as [_ Hn]. specialize (Hn Hu). set_solver.
Qed.

(** The owner is asked to write back. *)
Lemma wb_inv l h q t :
  line_inv l (h :: q) t -> m_wait_for_data h = false -> req_type h = SH_REQ -> asked_wb t = ∅ ->
  owned l -> line_inv l (h :: q) (observe_send t WB_REQ (l_owner l)).
Proof.
  intros (Ht & [Hty Hr Hwt Hwb Hfs Hfl] & H) Hwait Hsh Hno Ho. split_and!; try apply H; try done.
  split; cbn; try done.
  - intros ?. congruence.
  - intros _. split; [done|]. exists (l_owner l). rewrite Hno. split; [set_solver|]. left.
    split; [done|]. destruct Ht as (Hc & _). unfold coherent in Hc. destruct Ho as [E|E]; by rewrite E in Hc.
Qed.

Lemma quiet_of_active l h t :
  active l h t -> m_wait_for_data h = false -> asked_wb t = ∅ -> asked_flush t = ∅ -> quiet t.
Proof. intros [_ Hr _ _ _ _] Hw. by rewrite Hw in Hr. Qed.

(** An uncached line has no copies and nobody was asked for one. *)
Lemma uncached_quiet l h q t :
  line_inv l (h :: q) t -> m_wait_for_data h = false -> l_state l = DirectoryState.UNCACHED ->
  l = no_line /\ quiet t /\ holders t = ∅ /\ writer t = None.
Proof.
  intros ((Hc & Hh & Hw) & Ha & _) Hwait Hs.
  assert (Hl : l_sharers l = [] /\ l_owner l = INVALID_CORE_ID) by (unfold coherent in Hc; by rewrite Hs in Hc).
  destruct Hl as [Hl Hlo]. split_and!.
  - destruct l. cbn in *. by subst.
  - eapply quiet_of_active; [done..| |].
    + destruct (decide (asked_wb t = ∅)) as [|Hne]; [done|].
      destruct (ac_wb _ _ _ Ha Hne) as (_ & x & _ & [[[E|E] _]|(_ & _ & E & _)]); congruence.
    + apply set_eq. intros x. split; [|set_solver]. intros Hx.
      apply (ac_flush_sharers _ _ _ Ha) in Hx. rewrite Hl in Hx. by apply not_elem_of_nil in Hx.
  - apply set_eq. intros x. split; [|set_solver]. intros Hx. apply Hh in Hx. rewrite Hl in Hx.
    by apply not_elem_of_nil in Hx.
  - destruct (writer t) as [w|]; [|done]. destruct (Hw w eq_refl) as [[E|E] _]; congruence.
Qed.

(** The first sharer of an uncached line. *)
Lemma first_grantable l h q t d :
  line_inv l (h :: q) t -> m_wait_for_data h = false -> l_state l = DirectoryState.UNCACHED ->
  is_core_req h ->
  (d = DirectoryState.MODIFIED /\ req_type h <> SH_REQ \/
   d = DirectoryState.EXCLUSIVE /\ req_type h = SH_REQ \/
   d = DirectoryState.SHARED /\ req_type h = SH_REQ) ->
  let l' := mkLine d [req_core h]
              (if decide (d = DirectoryState.SHARED) then INVALID_CORE_ID else req_core h) in
  grantable l' h q t (if decide (d = DirectoryState.SHARED) then SH_REP else EX_REP) /\ pending l' h t.
Proof.
  intros Hi Hwait Hs Hcr Hd l'.
  destruct (uncached_quiet _ _ _ _ Hi Hwait Hs) as (-> & Hq & Hh & Hw).
  destruct Hi as (_ & _ & Hwt & Hn & _ & Hf & Hcl).
  rewrite decide_False in Hwt by (by apply core_req_not_nullify).
  unfold pending. rewrite Hh.
  assert (Hc : req_type h = EX_REQ \/ req_type h = UPGRADE_REQ -> req_type h <> SH_REQ)
    by (intuition congruence).
  split.
  - split; try done; [|left|].
    + unfold l', tracked. rewrite Hh, Hw. split_and!; [|set_solver|done].
      unfold coherent. cbn. destruct Hd as [[-> _]|[[-> _]|[-> _]]]; cbn; done.
    + unfold l', owned. cbn. destruct Hd as [[-> _]|[[-> _]|[-> _]]]; cbn; [right|right|left]; auto.
  - split_and!; [set_solver| |]; unfold l'; cbn; intuition congruence.
Qed.

(** ** Reasoning about the controller

    [wp m Q s]: run from [s], the operation [m] either ends in a state that satisfies [Q] or
    stops the simulator; it does not run out of fuel. *)

Section reasoning.
Context {N : Type} `{!NucaCache N}.
Implicit Types (s : DramDirectoryCntlr N) (a b : Z).

Definition wp {A} (m : M N A) (Q : A -> DramDirectoryCntlr N -> Prop) s : Prop :=
  match m s with Ok (x, s') => Q x s' | Err f => f <> Diverges end.

Lemma wp_ret {A} (x : A) Q s : Q x s -> wp (mret x) Q s.
Proof. done. Qed.

Lemma wp_bind {A B} (m : M N A) (k : A -> M N B) Q s :
  wp m (fun x s' => wp (k x) Q s') s -> wp (m ≫= k) Q s.
Proof. unfold wp, mbind, M_bind. by destruct (m s) as [[x s']|f]. Qed.

Lemma wp_mono {A} (m : M N A) (Q Q' : A -> DramDirectoryCntlr N -> Prop) s :
  wp m Q s -> (forall x s', Q x s' -> Q' x s') -> wp m Q' s.
Proof. unfold wp. destruct (m s) as [[x s']|f]; auto. Qed.

Lemma wp_gets {A} (f : DramDirectoryCntlr N -> A) Q s : Q (f s) s -> wp (gets f) Q s.
Proof. done. Qed.

Lemma wp_modify f Q s : Q tt (f s) -> wp (modify f) Q s.
Proof. done. Qed.

Lemma wp_lift {A} (r : res A) Q s :
  r <> Err Diverges -> (forall x, r = Ok x -> Q x s) -> wp (lift r) Q s.
Proof. intros Hd H. unfold wp, lift. destruct r; [by apply H|congruence]. Qed.

Lemma wp_check (c : bool) f Q s : f <> Diverges -> (c = true -> Q tt s) -> wp (lift (check c f)) Q s.
Proof. intros Hf H. unfold wp, lift, check. destruct c; auto. Qed.

Lemma wp_fail {A} f (Q : A -> DramDirectoryCntlr N -> Prop) s : f <> Diverges -> wp (fail f) Q s.
Proof. done. Qed.

Context (n0 : net).

Definition qu s a : list ShmemReq := queue_of (m_dram_directory_req_queue_list s) a.
Definition ln s a : line := line_at (m_dram_directory_cache s) a.
Definition tr s a : traffic := replay n0 (sent s) a.

(** The parts of the invariant that concern no line in particular. *)
Definition base_of (dc : DramDirectoryCache) (q : ReqQueueList) (l : list NetPacket) : Prop :=
  dircache_wf dc /\ legal_replay n0 l = true /\
  (forall a r, r ∈ queue_of q a -> sm_address (m_shmem_msg r) = a) /\
  (forall a, q !! a <> Some []).
Definition base s : Prop :=
  base_of (m_dram_directory_cache s) (m_dram_directory_req_queue_list s) (sent s).

Definition ok_at s a : Prop := line_inv (ln s a) (qu s a) (tr s a).
Definition others s a : Prop := forall b, b <> INVALID_ADDRESS -> b <> a -> ok_at s b.
Definition inv s : Prop := base s /\ forall b, b <> INVALID_ADDRESS -> ok_at s b.

Lemma inv_split s a : base s -> ok_at s a -> others s a -> inv s.
Proof. intros Hb Ha Ho. split; [done|]. intros b Hi. destruct (decide (b = a)) as [->|]; auto. Qed.

(** Queue and messages of a line are the same in two states. *)
Definition same_qs s s' : Prop :=
  m_dram_directory_req_queue_list s' = m_dram_directory_req_queue_list s /\ sent s' = sent s.

Lemma same_qs_qu s s' b : same_qs s s' -> qu s' b = qu s b.
Proof. intros [E _]. unfold qu. by rewrite E. Qed.
Lemma same_qs_tr s s' b : same_qs s s' -> tr s' b = tr s b.
Proof. intros [_ E]. unfold tr. by rewrite E. Qed.

Lemma base_wf s : base s -> dircache_wf (m_dram_directory_cache s).
Proof. by intros (? & _). Qed.

Lemma base_with_dc s s' :
  base s -> same_qs s s' -> dircache_wf (m_dram_directory_cache s') -> base s'.
Proof. intros (_ & H) [E1 E2] Hw. split; [done|]. by rewrite E1, E2. Qed.

(** [transport s s' b]: nothing about [b] changed. *)
Definition kept s s' b : Prop := ln s' b = ln s b /\ qu s' b = qu s b /\ tr s' b = tr s b.

Lemma kept_ok s s' b : kept s s' b -> ok_at s b -> ok_at s' b.
Proof. intros (E1 & E2 & E3) H. unfold ok_at. by rewrite E1, E2, E3. Qed.

Lemma kept_others s s' a :
  (forall b, b <> INVALID_ADDRESS -> b <> a -> kept s s' b) -> others s a -> others s' a.
Proof. intros H Ho b Hi Hne. eapply kept_ok; [by apply H|by apply Ho]. Qed.

(** *** The directory *)

(** A step that changes no line and no queue and sends nothing. *)
Definition silent s s' : Prop :=
  base s' /\ same_qs s s' /\ (forall b, b <> INVALID_ADDRESS -> ln s' b = ln s b) /\
  slots_kept (m_dram_directory_cache s) (m_dram_directory_cache s').

Lemma silent_kept s s' b : silent s s' -> b <> INVALID_ADDRESS -> kept s s' b.
Proof.
  intros (_ & Hq & Hl & _) Hb. split_and!; [by apply Hl|by apply same_qs_qu|by apply same_qs_tr].
Qed.

Lemma wp_lookup a modeled Q s :
  base s -> a <> INVALID_ADDRESS ->
  (forall o s', silent s s' ->
     match o with
     | Some r => exists e, read_ref (m_dram_directory_cache s') r = Ok e /\ de_address e = a
     | None => needs_replacement (m_dram_directory_cache s') a
     end -> Q o s') ->
  wp (lookup_entry a modeled) Q s.
Proof.
  intros Hb Ha H.
  destruct (getDirectoryEntry_spec _ a (base_wf _ Hb) Ha) as (o & dc & (Hw & Hl & Hk & Ho) & E1 & E2).
  assert (Hs : forall t, silent s (with_time t (with_dc dc s))).
  { intros t. split_and!; try done. by eapply base_with_dc. }
  unfold wp, lookup_entry. destruct modeled.
  - destruct (E2 (elapsed_time s)) as [->|[t ->]]; [done|]. by apply H.
  - rewrite E1. by apply H.
Qed.

Lemma wp_read r e Q s :
  read_ref (m_dram_directory_cache s) r = Ok e -> Q e s -> wp (read_entry r) Q s.
Proof. intros E H. unfold wp, read_entry. by rewrite E. Qed.

Lemma wp_write r e e' Q s :
  base s -> read_ref (m_dram_directory_cache s) r = Ok e -> de_address e <> INVALID_ADDRESS ->
  de_address e' = de_address e ->
  (forall s', base s' -> same_qs s s' -> ln s' (de_address e) = entry_line e' ->
     (forall b, b <> INVALID_ADDRESS -> b <> de_address e -> kept s s' b) ->
     read_ref (m_dram_directory_cache s') r = Ok e' -> Q tt s') ->
  wp (write_entry r e') Q s.
Proof.
  intros Hb Hr Hi Ha H.
  destruct (write_ref_spec _ _ _ e' (base_wf _ Hb) Hr Hi Ha) as (dc & E & Hw & Hr' & Hl & Hlo).
  unfold wp, write_entry. rewrite E. apply H; try done.
  - by eapply base_with_dc.
  - intros b Hbi Hne. split_and!; try done. by apply Hlo.
Qed.

Lemma read_ref_returns dc r f : read_ref dc r = Err f -> f <> Diverges.
Proof. destruct r; cbn; unfold rd; [destruct (_ !! n) as [[]|]|destruct (_ !! k)]; cbn; congruence. Qed.

(** *** Messages *)

Lemma transmit_terminates m : transmit m <> Err Diverges.
Proof.
  unfold transmit. destruct (_ <? _); [|done]. destruct (m_data_buf m); [done| |done].
  by destruct (_ <=? _).
Qed.

Lemma transmit_fields m m' :
  transmit m = Ok m' -> m_msg_type m' = m_msg_type m /\ sm_address m' = sm_address m.
Proof.
  unfold transmit. destruct (_ <? _); [|by intros [= <-]].
  destruct (m_data_buf m); try done. destruct (_ <=? _); [|done]. by intros [= <-].
Qed.

Lemma wp_sendMsg ty comp rq r a d len w bt Q s :
  base s -> legal_send (tr s a) ty r = true ->
  (forall s', base s' -> m_dram_directory_cache s' = m_dram_directory_cache s ->
     m_dram_directory_req_queue_list s' = m_dram_directory_req_queue_list s ->
     tr s' a = observe_send (tr s a) ty r ->
     (forall b, b <> a -> kept s s' b) -> Q tt s') ->
  wp (sendMsg ty comp rq r a d len w bt) Q s.
Proof.
  intros Hb Hl H. unfold wp, sendMsg.
  destruct (check _ AssertFailed) as [[]|f] eqn:Ec; cbn [mbind res_bind];
    [|unfold check in Ec; by destruct (eqb _ _); simplify_eq].
  destruct (transmit _) as [m|f] eqn:E; [|intros ->; by apply transmit_terminates in E].
  apply transmit_fields in E as [E1 E2]. cbn in E1, E2.
  apply H; try done.
  - destruct Hb as (? & Hlr & ? & ?). split_and!; try done. cbn. rewrite legal_replay_snoc, Hlr.
    unfold legal_packet. cbn. by rewrite E1, E2.
  - unfold tr. cbn. rewrite replay_snoc. unfold observe_packet. cbn. by rewrite E1, E2, decide_True.
  - intros b Hne. split_and!; try done. unfold tr. cbn. rewrite replay_snoc. unfold observe_packet.
    cbn. by rewrite E2, decide_False.
Qed.

(** Messages that the automaton ignores. *)
Definition ignored (ty : msg_t) : Prop := ty = INV_REQ \/ ty = DRAM_WRITE_REQ.

Lemma wp_send_ignored ty comp rq r a d len w bt Q s :
  base s -> ignored ty ->
  (forall s', base s' -> m_dram_directory_cache s' = m_dram_directory_cache s ->
     (forall b, kept s s' b) -> Q tt s') ->
  wp (sendMsg ty comp rq r a d len w bt) Q s.
Proof.
  intros Hb Hi H. apply wp_sendMsg; [done|by destruct Hi as [-> | ->]|].
  intros s' Hb' Edc Eq Et Ho. apply H; try done. intros b. destruct (decide (b = a)) as [->|Hne].
  - unfold kept, ln, qu. rewrite Edc, Eq, Et. by destruct Hi as [-> | ->].
  - by apply Ho.
Qed.

(** *** Queues *)

Lemma queue_cons_lookup (m : ReqQueueList) a h q : queue_of m a = h :: q -> m !! a = Some (h :: q).
Proof. unfold queue_of. destruct (m !! a); cbn; congruence. Qed.

Lemma queue_of_insert (m : ReqQueueList) a b l :
  queue_of (<[a := l]> m) b = if decide (b = a) then l else queue_of m b.
Proof.
  unfold queue_of. case_decide; [subst; by rewrite lookup_insert_eq|].
  by rewrite lookup_insert_ne.
Qed.

Lemma queue_of_delete (m : ReqQueueList) a b :
  queue_of (delete a m) b = if decide (b = a) then [] else queue_of m b.
Proof.
  unfold queue_of. case_decide; [subst; by rewrite lookup_delete_eq|].
  by rewrite lookup_delete_ne.
Qed.

(** The state [s'] is [s] with the queue [l] for [a]. *)
Definition requeued s s' a (l : list ShmemReq) : Prop :=
  base s' /\ m_dram_directory_cache s' = m_dram_directory_cache s /\ sent s' = sent s /\
  qu s' a = l /\ forall b, b <> a -> kept s s' b.

Lemma requeued_insert s a l :
  base s -> l <> [] -> (forall r, r ∈ l -> sm_address (m_shmem_msg r) = a) ->
  requeued s (with_queues (<[a := l]> (m_dram_directory_req_queue_list s)) s) a l.
Proof.
  intros (Hw & Hl & Ha & He) Hne Hla. split_and!; try done.
  - split_and!; try done; cbn.
    + intros b r. rewrite queue_of_insert. case_decide; [subst; apply Hla|apply Ha].
    + intros b. destruct (decide (b = a)) as [->|Hb].
      * rewrite lookup_insert_eq. congruence.
      * by rewrite lookup_insert_ne.
  - unfold qu. cbn. by rewrite queue_of_insert, decide_True.
  - intros b Hb. split_and!; try done. unfold qu. cbn. by rewrite queue_of_insert, decide_False.
Qed.

Lemma requeued_delete s a :
  base s -> requeued s (with_queues (delete a (m_dram_directory_req_queue_list s)) s) a [].
Proof.
  intros (Hw & Hl & Ha & He). split_and!; try done.
  - split_and!; try done; cbn.
    + intros b r. rewrite queue_of_delete. case_decide; [by intros ?%not_elem_of_nil|apply Ha].
    + intros b. destruct (decide (b = a)) as [->|Hb]; [by rewrite lookup_delete_eq|].
      by rewrite lookup_delete_ne.
  - unfold qu. cbn. by rewrite queue_of_delete, decide_True.
  - intros b Hb. split_and!; try done. unfold qu. cbn. by rewrite queue_of_delete, decide_False.
Qed.

Lemma wp_size a Q s : Q (Z.of_nat (length (qu s a))) s -> wp (req_size a) Q s.
Proof. done. Qed.

Lemma wp_front a h q Q s : qu s a = h :: q -> Q h s -> wp (req_front a) Q s.
Proof. intros Hq H. unfold wp, req_front, q_front. by rewrite (queue_cons_lookup _ _ _ _ Hq). Qed.

Lemma base_address s a h : base s -> h ∈ qu s a -> sm_address (m_shmem_msg h) = a.
Proof. intros (_ & _ & H & _). apply H. Qed.

Lemma wp_update_front a f h q Q s :
  base s -> qu s a = h :: q -> sm_address (m_shmem_msg (f h)) = sm_address (m_shmem_msg h) ->
  (forall s', requeued s s' a (f h :: q) -> Q tt s') -> wp (req_update_front a f) Q s.
Proof.
  intros Hb Hq Hf H. unfold wp, req_update_front, modify, q_update_front.
  rewrite (queue_cons_lookup _ _ _ _ Hq). apply H, requeued_insert; try done.
  intros r [->|Hr]%elem_of_cons; [rewrite Hf|]; apply (base_address s a); try done; rewrite Hq; set_solver.
Qed.

Lemma wp_enqueue a r Q s :
  base s -> sm_address (m_shmem_msg r) = a ->
  (forall s', requeued s s' a (qu s a ++ [r]) -> Q tt s') -> wp (req_enqueue a r) Q s.
Proof.
  intros Hb Hr H. unfold wp, req_enqueue, modify, q_enqueue. apply H, requeued_insert; [done| |].
  - by destruct (qu s a).
  - intros x [Hx|Hx%list_elem_of_singleton]%elem_of_app; [by apply (base_address s a)|by subst].
Qed.

Lemma wp_dequeue a h q Q s :
  base s -> qu s a = h :: q -> (forall s', requeued s s' a q ->
    q_empty a (m_dram_directory_req_queue_list s') = bool_decide (q = []) -> Q h s') ->
  wp (req_dequeue a) Q s.
Proof.
  intros Hb Hq H. unfold wp, req_dequeue, q_dequeue. rewrite (queue_cons_lookup _ _ _ _ Hq).
  destruct q as [|x q]; apply H.
  - by apply requeued_delete.
  - unfold q_empty. cbn. rewrite lookup_delete_eq. done.
  - apply requeued_insert; try done. intros r Hr. apply (base_address s a); [done|]. rewrite Hq. by right.
  - unfold q_empty. cbn. rewrite lookup_insert_eq. done.
Qed.

(** *** Loops of messages, NUCA and DRAM writes *)

(** A step in which only messages that the automaton ignores are sent. *)
Definition unnoticed s s' : Prop :=
  base s' /\ m_dram_directory_cache s' = m_dram_directory_cache s /\ forall b, kept s s' b.

Lemma unnoticed_refl s : base s -> unnoticed s s.
Proof. intros. split_and!; try done. Qed.

Lemma kept_trans s1 s2 s3 b : kept s1 s2 b -> kept s2 s3 b -> kept s1 s3 b.
Proof. unfold kept. intros (-> & -> & ->) (-> & -> & ->). done. Qed.

Lemma unnoticed_trans s1 s2 s3 : unnoticed s1 s2 -> unnoticed s2 s3 -> unnoticed s1 s3.
Proof.
  intros (A1 & B1 & C1) (A2 & B2 & C2). split_and!; [done|congruence|].
  intros b. eapply kept_trans; [apply C1|apply C2].
Qed.

Lemma wp_invs rq a bt (l : list Z) Q s :
  base s -> (forall s', unnoticed s s' -> Q tt s') ->
  wp (for_each (fun r => sendToL2 INV_REQ rq r a bt) l) Q s.
Proof.
  revert s. induction l as [|x l IH]; intros s Hb H; [by apply H, unnoticed_refl|].
  cbn [for_each]. apply wp_bind, wp_send_ignored; [done|by left|]. intros s1 Hb1 Hd1 Hk1.
  apply IH; [done|]. intros s' Hs'. apply H. by eapply unnoticed_trans; [|exact Hs'].
Qed.

Lemma wp_invalidate_sharers e rq a bt Q s :
  base s -> (forall s', unnoticed s s' -> Q tt s') -> wp (invalidate_sharers e rq a bt) Q s.
Proof. intros Hb H. unfold invalidate_sharers. cbn. by apply wp_invs. Qed.

(** The operations of the NUCA cache return. *)
Class NucaReturns : Prop := {
  nuca_read_returns n a d t c : nuca_read n a d t c <> Err Diverges;
  nuca_write_returns n a d e t c : nuca_write n a d e t c <> Err Diverges
}.

Lemma getHome_returns ahl a : getHome ahl a <> Err Diverges.
Proof.
  unfold getHome. destruct (negb _); cbn; [|done]. destruct (_ && _); cbn; [|done].
  unfold rd. by destruct (_ !! _).
Qed.

Context {Hnuca : NucaReturns} (stack : Stack).

Lemma wp_sendDataToNUCA a d c bt Q s :
  base s -> (forall s', unnoticed s s' -> Q tt s') -> wp (sendDataToNUCA stack a d c bt) Q s.
Proof.
  intros Hb H. unfold sendDataToNUCA. apply wp_bind, wp_gets.
  destruct (m_nuca_cache s) as [n|]; [|by apply H, unnoticed_refl].
  apply wp_bind, wp_gets, wp_bind, wp_lift; [apply nuca_write_returns|].
  intros [[[ev ea] eb] n'] _. apply wp_bind, wp_modify.
  destruct ev; [|apply H; split_and!; done].
  apply wp_bind, wp_gets, wp_bind, wp_lift; [apply getHome_returns|]. intros home _.
  apply wp_bind, wp_gets, wp_bind, wp_gets, wp_send_ignored; [done|by right|].
  intros s' Hb' Hd Hk. apply H. by split_and!.
Qed.

Lemma wp_sendDataToDram a rq d bt Q s :
  base s -> (forall s', unnoticed s s' -> Q tt s') -> wp (sendDataToDram stack a rq d bt) Q s.
Proof.
  intros Hb H. unfold sendDataToDram. apply wp_bind, wp_gets.
  destruct (m_nuca_cache s) as [n|]; [by apply wp_sendDataToNUCA|].
  apply wp_bind, wp_gets, wp_bind, wp_lift; [apply getHome_returns|]. intros home _.
  apply wp_bind, wp_gets, wp_send_ignored; [done|by right|].
  intros s' Hb' Hd Hk. apply H. by split_and!.
Qed.

(** ** The functions of the controller *)

Lemma entry_ln s r e a :
  base s -> read_ref (m_dram_directory_cache s) r = Ok e -> de_address e = a -> a <> INVALID_ADDRESS ->
  ln s a = entry_line e.
Proof. intros Hb Hr <- Hi. by eapply line_at_present; [apply base_wf|..]. Qed.

(** What the processing of a request may rely on: line [a] has the requests [h :: q] and
    all other lines are in order. *)
Record at_work s a h q : Prop := {
  aw_addr : a <> INVALID_ADDRESS;
  aw_base : base s;
  aw_others : others s a;
  aw_queue : qu s a = h :: q
}.

Lemma at_work_kept s s' a h q :
  at_work s a h q -> base s' -> qu s' a = qu s a ->
  (forall b, b <> INVALID_ADDRESS -> b <> a -> kept s s' b) -> at_work s' a h q.
Proof.
  intros [H1 H2 H3 H4] Hb Hq Hk. split; [done|done| |by rewrite Hq]. by eapply kept_others.
Qed.

Lemma at_work_silent s s' a h q : at_work s a h q -> silent s s' -> at_work s' a h q.
Proof.
  intros H Hs. eapply at_work_kept; [done|apply Hs|by apply silent_kept; [|apply H]|].
  intros b Hb _. by apply silent_kept.
Qed.

Lemma at_work_address s a h q : at_work s a h q -> sm_address (m_shmem_msg h) = a.
Proof. intros H. apply (base_address s); [apply H|]. rewrite (aw_queue _ _ _ _ H). left. Qed.

(** What [processNextReqFromL2Cache] does, for queues of at most [k] requests: the request
    at the front has been served and is removed, the others are processed. *)
Definition next_ok (k : nat) (next : Z -> M N unit) : Prop :=
  (forall s a h q, at_work s a h q -> (length (h :: q) <= k)%nat -> settled (ln s a) q (tr s a) ->
     wp (next a) (fun _ s' => inv s') s) /\
  (forall s a h, base s -> qu s a = [h] -> (1 <= k)%nat ->
     wp (next a) (fun _ s' => requeued s s' a []) s).

Section level.
Context (k : nat) (next : Z -> M N unit) (Hnext : next_ok k next).

(** A grant, and the next request. *)
Lemma wp_grant reply comp rq a h q d len w bt s :
  at_work s a h q -> (length (h :: q) <= k)%nat -> grantable (ln s a) h q (tr s a) reply ->
  wp (sendMsg reply comp rq (req_core h) a d len w bt;; next a) (fun _ s' => inv s') s.
Proof.
  intros Hw Hk Hg. apply wp_bind, wp_sendMsg; [apply Hw|by eapply grant_legal|].
  intros s' Hb Ed Eq Et Hkept. apply Hnext with (h := h) (q := q); [|done|].
  - eapply at_work_kept; [done|done|by unfold qu; rewrite Eq|]. intros b _ Hne. by apply Hkept.
  - unfold ln. rewrite Ed, Et. by apply grant_settles.
Qed.

(** A message that leaves line [a] in order. *)
Lemma wp_send_done ty comp rq a r d len w bt s :
  a <> INVALID_ADDRESS -> base s -> others s a -> legal_send (tr s a) ty r = true ->
  line_inv (ln s a) (qu s a) (observe_send (tr s a) ty r) ->
  wp (sendMsg ty comp rq r a d len w bt) (fun _ s' => inv s') s.
Proof.
  intros Ha Hb Ho Hl Hi. apply wp_sendMsg; [done..|]. intros s' Hb' Ed Eq Et Hk.
  apply (inv_split _ a); [done| |].
  - unfold ok_at, ln, qu. rewrite Ed, Eq, Et. done.
  - eapply kept_others; [|done]. intros b _ Hne. by apply Hk.
Qed.

Lemma wp_send_requeued ty comp rq a h q l r d len w bt s s1 :
  at_work s a h q -> requeued s s1 a l -> legal_send (tr s a) ty r = true ->
  line_inv (ln s a) l (observe_send (tr s a) ty r) ->
  wp (sendMsg ty comp rq r a d len w bt) (fun _ s' => inv s') s1.
Proof.
  intros Hw (Hb & Ed & Es & Eq & Hk) Hl Hi.
  assert (Et : tr s1 a = tr s a) by (unfold tr; by rewrite Es).
  apply wp_send_done; [apply Hw|done| |by rewrite Et|].
  - eapply kept_others; [|apply Hw]. intros b _ Hne. by apply Hk.
  - unfold ln. by rewrite Ed, Eq, Et.
Qed.

(** The NUCA cache answers the request or leaves everything as it is. *)
Lemma wp_retrieve_from_nuca reply a h q bt s :
  at_work s a h q -> (length (h :: q) <= k)%nat -> grantable (ln s a) h q (tr s a) reply ->
  wp (retrieve_from_nuca stack next reply (req_core h) a bt)
    (fun served s' => if served then inv s' else silent s s' /\
       m_dram_directory_cache s' = m_dram_directory_cache s) s.
Proof.
  intros Hw Hk Hg. unfold retrieve_from_nuca. apply wp_bind, wp_gets.
  destruct (m_nuca_cache s) as [n|].
  2: { apply wp_ret. split; [|done]. split_and!; [apply Hw|done|done|by intros ?]. }
  apply wp_bind, wp_gets, wp_bind, wp_lift; [apply nuca_read_returns|].
  intros [[[lat wh] buf] n'] _. apply wp_bind, wp_modify, wp_bind.
  unfold wp at 1, incr_elapsed.
  destruct (incrElapsedTime_total (elapsed_time (with_nuca (Some n') s)) lat) as [->|[t ->]]; [done|].
  set (s1 := with_time t _).
  assert (Hs1 : silent s s1) by (split_and!; [apply Hw|done|done|by intros ?]).
  case_bool_decide; [by apply wp_ret|].
  apply wp_bind, wp_gets.
  eapply wp_mono; [|intros x s' Hx; exact Hx].
  assert (Hgr : forall d len w, wp (sendMsg reply MemComponent.L2_CACHE (req_core h) (req_core h) a d len w bt;;
    next a) (fun _ s' => inv s') s1).
  { intros d len w. apply wp_grant with (q := q); [by eapply at_work_silent|done|done]. }
  specialize (Hgr (Live buf) (m_cache_block_size s1) HitWhere.NUCA_CACHE).
  unfold wp, mbind, M_bind in Hgr |- *. destruct (sendMsg _ _ _ _ _ _ _ _ _ s1) as [[[] s2]|]; [|done].
  by destruct (next a s2) as [[[] s3]|].
Qed.

Lemma shared_request l h q t reply :
  grantable l h q t reply -> pending l h t -> l_state l = DirectoryState.SHARED ->
  reply = SH_REP /\ req_type h = SH_REQ.
Proof.
  intros Hg (_ & He & _) Hs. destruct (gr_reply _ _ _ _ _ Hg) as [[-> _]|(_ & [E|E] & _)]; try congruence.
  split; [done|]. destruct (gr_core _ _ _ _ _ Hg) as [E|[E|E]]; try done; rewrite He in Hs by auto; done.
Qed.

Lemma wp_retrieve reply a h q d bt s :
  at_work s a h q -> (length (h :: q) <= k)%nat -> m_wait_for_data h = false ->
  grantable (ln s a) h q (tr s a) reply -> pending (ln s a) h (tr s a) ->
  wp (retrieveDataAndSendToL2Cache stack next reply (req_core h) a d bt) (fun _ s' => inv s') s.
Proof.
  intros Hw Hk Hwait Hg Hp. unfold retrieveDataAndSendToL2Cache.
  apply wp_bind, wp_lookup; [apply Hw|apply Hw|]. intros o s1 Hs1 Ho.
  destruct o as [r|]; [|by apply wp_fail]. destruct Ho as (e & Hr & Hea).
  pose proof (at_work_silent _ _ _ _ _ Hw Hs1) as Hw1.
  destruct (silent_kept s s1 a Hs1 (aw_addr _ _ _ _ Hw)) as (El & _ & Et).
  rewrite <- El, <- Et in Hg, Hp. clear El Et Hs1 Hw s. rename s1 into s.
  assert (Hdata : wp (e ← read_entry r; write_entry r (setForwarder (req_core h) e);;
    len ← gets m_cache_block_size; sendMsg reply MemComponent.L2_CACHE (req_core h) (req_core h) a d len
      HitWhere.CACHE_REMOTE bt;; next a) (fun _ s' => inv s') s).
  { apply wp_bind, (wp_read _ e); [done|]. apply wp_bind, (wp_write _ e); try done;
      [apply Hw1|rewrite Hea; apply Hw1|].
    intros s2 Hb2 Hq2 Hl2 Hk2 _. rewrite Hea in *. apply wp_bind, wp_gets, wp_grant with (q := q); [|done|].
    - eapply at_work_kept; [done|done|by apply same_qs_qu|done].
    - rewrite Hl2, (same_qs_tr _ _ _ Hq2). change (entry_line (setForwarder _ e)) with (entry_line e).
      by rewrite <- (entry_ln s r e a); [|apply Hw1|..|apply Hw1]. }
  destruct d; [|exact Hdata..]. clear Hdata.
  apply wp_bind. eapply wp_mono; [by eapply wp_retrieve_from_nuca|].
  intros [] s2; [intros; by apply wp_ret|]. intros [Hs2 Ed2].
  pose proof (at_work_silent _ _ _ _ _ Hw1 Hs2) as Hw2.
  destruct (silent_kept s s2 a Hs2 (aw_addr _ _ _ _ Hw1)) as (El & _ & Et).
  rewrite <- El, <- Et in Hg, Hp. rewrite <- Ed2 in Hr. clear El Et Hs2 Ed2 Hw1 s. rename s2 into s.
  apply wp_bind, wp_size, wp_bind, wp_check; [done|]. intros _.
  apply wp_bind, (wp_front _ h q); [apply Hw2|].
  apply wp_bind, (wp_read _ e); [done|]. apply wp_bind, wp_gets.
  destruct (_ && _) eqn:Ecase.
  - apply andb_true_iff in Ecase as [[[_ _]%andb_true_iff Hst]%andb_true_iff Hfw].
    apply bool_decide_eq_true in Hst. apply negb_true_iff, Z.eqb_neq in Hfw.
    pose proof (entry_ln s r e a (aw_base _ _ _ _ Hw2) Hr Hea (aw_addr _ _ _ _ Hw2)) as Hln.
    destruct (shared_request _ _ _ _ _ Hg Hp) as [-> Hty]; [by rewrite Hln|].
    apply wp_bind, (wp_update_front _ _ h q); [apply Hw2|apply Hw2|done|].
    intros s3 Hs3. eapply wp_send_requeued; [done..|]. by apply forward_inv.
  - apply wp_bind, (wp_update_front _ _ h q); [apply Hw2|apply Hw2|done|].
    intros s3 Hs3. apply wp_bind, wp_gets, wp_bind, wp_lift; [apply getHome_returns|]. intros home _.
    eapply wp_send_requeued; [done..|]. by eapply await_inv.
Qed.

(** A line without copies needs nothing more for its first request. *)
Lemma uncached_settled l h q t :
  line_inv l (h :: q) t -> m_wait_for_data h = false -> l_state l = DirectoryState.UNCACHED ->
  req_type h = NULLIFY_REQ -> settled l q t.
Proof.
  intros Hi Hw Hs Hn. destruct (uncached_quiet _ _ _ _ Hi Hw Hs) as (_ & Hq & _ & _).
  destruct Hi as (Ht & _ & Hwt & Hnd & _ & Hf & Hc). rewrite decide_True in Hwt by done. by split.
Qed.

Lemma owned_owner l : coherent l -> owned l -> l_sharers l = [l_owner l].
Proof. unfold coherent. by intros H [E|E]; rewrite E in H. Qed.

(** The end of a nullification: the line is in order, or its next request is processed. *)
Lemma wp_nullify a h q Q s :
  a <> INVALID_ADDRESS -> base s -> qu s a = h :: q -> ok_at s a ->
  req_type h = NULLIFY_REQ -> m_wait_for_data h = false ->
  (forall s', base s' -> (forall b, b <> INVALID_ADDRESS -> b <> a -> kept s s' b) ->
     slots_kept (m_dram_directory_cache s) (m_dram_directory_cache s') -> ok_at s' a -> Q tt s') ->
  (forall s', base s' -> (forall b, b <> INVALID_ADDRESS -> b <> a -> kept s s' b) ->
     slots_kept (m_dram_directory_cache s) (m_dram_directory_cache s') ->
     qu s' a = h :: q -> settled (ln s' a) q (tr s' a) -> wp (next a) Q s') ->
  wp (processNullifyReq next h) Q s.
Proof.
  intros Ha Hb Hq Hok Hty Hwait HQ Hnx. unfold processNullifyReq.
  assert (Had : sm_address (m_shmem_msg h) = a) by (apply (base_address s); [done|rewrite Hq; left]).
  rewrite Had. apply wp_bind, wp_lookup; [done..|]. intros o s1 Hs1 Ho.
  destruct o as [r|]; [|by apply wp_fail]. destruct Ho as (e & Hr & Hea).
  pose proof (silent_kept _ _ a Hs1 Ha) as Hk1.
  pose proof (kept_ok _ _ _ Hk1 Hok) as Hok1. unfold ok_at in Hok1.
  destruct Hk1 as (_ & Eq1 & _). rewrite Eq1, Hq in Hok1.
  assert (Hko : forall b, b <> INVALID_ADDRESS -> b <> a -> kept s s1 b) by (intros; by apply silent_kept).
  destruct Hs1 as (Hb1 & _ & _ & Hsl).
  pose proof (entry_ln s1 r e a Hb1 Hr Hea Ha) as Hln.
  apply wp_bind, (wp_read _ e); [done|].
  assert (Hflush : owned (ln s1 a) -> de_owner_id e = l_owner (ln s1 a) ->
    wp (sendToL2 FLUSH_REQ (req_core h) (de_owner_id e) a (req_block_type h)) Q s1).
  { intros Hown ->. apply wp_sendMsg; [done..|]. intros s2 Hb2 Ed Eq Et Hk2. apply HQ; [done| | |].
    - intros b Hi Hne. eapply kept_trans; [by apply Hko|by apply Hk2].
    - by rewrite Ed.
    - unfold ok_at, ln, qu. rewrite Ed, Eq, Et. change (queue_of _ a) with (qu s1 a). rewrite Eq1, Hq.
      apply flush_inv; [done|done|congruence| |congruence].
      rewrite owned_owner; [left|apply Hok1|done]. }
  destruct (de_dstate e) eqn:Est.
  - assert (Hst : l_state (ln s1 a) = DirectoryState.UNCACHED) by (by rewrite Hln).
    destruct (uncached_quiet _ _ _ _ Hok1 Hwait Hst) as (Hno & _).
    apply wp_bind, wp_gets, wp_bind.
    pose proof (invalidateDirectoryEntry_spec _ a (base_wf _ Hb1) Ha Hno) as Hinv.
    destruct (invalidateDirectoryEntry _ a) as [dc|f]; [|by subst f]. destruct Hinv as (Hw & Hl & Hsl').
    apply wp_bind, wp_modify, Hnx.
    + by eapply base_with_dc.
    + intros b Hi Hne. eapply kept_trans; [by apply Hko|]. split_and!; try done. by apply Hl.
    + intros n x Hn Hx. cbn. rewrite Hsl'. by apply Hsl.
    + change (qu s1 a = h :: q). by rewrite Eq1.
    + unfold ln. cbn. rewrite Hl by done. by eapply uncached_settled.
  - apply wp_invalidate_sharers; [done|]. intros s2 (Hb2 & Ed & Hk2). apply HQ; [done| |by rewrite Ed|].
    + intros b Hi Hne. eapply kept_trans; [by apply Hko|by apply Hk2].
    + eapply kept_ok; [apply Hk2|]. unfold ok_at. by rewrite Eq1, Hq.
  - by apply wp_fail.
  - apply Hflush; [left|]; rewrite Hln; unfold entry_line; cbn; by rewrite Est.
  - apply Hflush; [right|]; rewrite Hln; unfold entry_line; cbn; by rewrite Est.
Qed.

(** The candidate chosen for replacement has no requests. *)
Lemma wp_choose (best : option nat) (l L : list nat) Q s :
  (forall n, n ∈ l -> n ∈ L) ->
  (forall b : nat, best = Some b -> b ∈ L /\ exists e,
     read_ref (m_dram_directory_cache s) (InSlot b) = Ok e /\ qu s (de_address e) = []) ->
  (forall o, (forall b : nat, o = Some b -> b ∈ L /\ exists e,
     read_ref (m_dram_directory_cache s) (InSlot b) = Ok e /\ qu s (de_address e) = []) -> Q o s) ->
  wp (choose_candidate best l) Q s.
Proof.
  revert best. induction l as [|n l IH]; intros best Hl Hbest HQ; [by apply HQ|].
  cbn [choose_candidate]. apply wp_bind. unfold wp at 1, read_entry.
  destruct (read_ref _ (InSlot n)) as [e|f] eqn:Er; [|by eapply read_ref_returns].
  apply wp_bind.
  assert (Hcont : forall better : bool, wp (outstanding ← req_size (de_address e);
    choose_candidate (if better && (outstanding =? 0) then Some n else best) l) Q s).
  { intros better. apply wp_bind, wp_size, IH; [intros m Hm; apply Hl; by right| |done].
    destruct (better && _) eqn:Eb; [|done]. intros b [= <-]. split; [apply Hl; left|].
    exists e. split; [done|]. apply andb_true_iff in Eb as [_ Eb]. apply Z.eqb_eq in Eb.
    by destruct (qu s (de_address e)). }
  destruct best as [b|]; [|by apply wp_ret].
  apply wp_bind. unfold wp at 1, read_entry.
  destruct (read_ref _ (InSlot b)) as [eb|f] eqn:Er'; [|by eapply read_ref_returns]. by apply wp_ret.
Qed.

(** The entry that a request works on. *)
Definition prepared s a h q (r : entry_ref) s' : Prop :=
  at_work s' a h q /\ ln s' a = ln s a /\ tr s' a = tr s a /\
  exists e, read_ref (m_dram_directory_cache s') r = Ok e /\ de_address e = a.

Lemma line_inv_nullify l nul t :
  line_inv l [] t -> req_type nul = NULLIFY_REQ -> m_wait_for_data nul = false -> line_inv l [nul] t.
Proof.
  intros [Ht (Hr & Hwb & Hfl) Hw Hn _ _] Hty Hwait. split_and!; try done.
  - split; rewrite ?Hwait, ?Hwb, ?Hfl; try done. by right.
  - by rewrite decide_True.
  - intros [E|E]; congruence.
Qed.

(** The nullification of a replaced line leaves all other lines alone. *)
Lemma wp_nullify_replaced b nul s :
  b <> INVALID_ADDRESS -> base s -> qu s b = [nul] -> line_inv (ln s b) [] (tr s b) ->
  req_type nul = NULLIFY_REQ -> m_wait_for_data nul = false -> (1 <= k)%nat ->
  wp (processNullifyReq next nul) (fun _ s' => base s' /\ ok_at s' b /\
    (forall c, c <> INVALID_ADDRESS -> c <> b -> kept s s' c) /\
    slots_kept (m_dram_directory_cache s) (m_dram_directory_cache s')) s.
Proof.
  intros Hbi Hb Hq Hi Hty Hwait Hk. eapply wp_nullify; [done|done|done| |done|done|..].
  - unfold ok_at. rewrite Hq. by apply line_inv_nullify.
  - intros s' Hb' Hko Hsl Hok. by split_and!.
  - intros s' Hb' Hko Hsl Hq' Hset. eapply wp_mono; [by eapply (proj2 Hnext)|].
    intros _ s2 (Hb2 & Ed & Es & Eq & Hk2). split_and!; [done| | |by rewrite Ed].
    + unfold ok_at, ln, tr. rewrite Ed, Es, Eq. by apply settled_line_inv.
    + intros c Hci Hne. eapply kept_trans; [by apply Hko|by apply Hk2].
Qed.

Lemma ShmemReq_new_returns m t : ShmemReq_new m t <> Err Diverges.
Proof. unfold ShmemReq_new. by case_bool_decide. Qed.

Lemma ShmemReq_new_spec m t r :
  ShmemReq_new m t = Ok r ->
  m_shmem_msg r = ShmemMsg_copy m /\ m_wait_for_data r = false /\ m_forwarding_from r = INVALID_CORE_ID.
Proof. unfold ShmemReq_new. intros H. inv_res. done. Qed.

Lemma rd_returns {A} (l : list A) i : rd l i <> Err Diverges.
Proof. unfold rd. by destruct (_ !! i). Qed.
Lemma wr_returns {A} (l : list A) i x : wr l i x <> Err Diverges.
Proof. unfold wr. by case_decide. Qed.

Lemma wp_alloc a h q s :
  at_work s a h q -> (1 <= k)%nat -> needs_replacement (m_dram_directory_cache s) a ->
  wp (processDirectoryEntryAllocationReq next h) (fun r s' => prepared s a h q r s') s.
Proof.
  intros Hw Hk _. unfold processDirectoryEntryAllocationReq. rewrite (at_work_address _ _ _ _ Hw).
  pose proof (aw_addr _ _ _ _ Hw) as Ha. pose proof (aw_base _ _ _ _ Hw) as Hb.
  apply wp_bind, wp_gets, wp_bind, wp_gets, wp_bind.
  pose proof (getReplacementCandidates_spec _ a (base_wf _ Hb) Ha) as Hc.
  destruct (getReplacementCandidates _ a) as [[l dc1]|f]; [|by subst f]. destruct Hc as (W1 & N1 & L1 & C1).
  apply wp_bind, wp_modify. set (s1 := with_dc dc1 s).
  assert (Hb1 : base s1) by (by eapply base_with_dc).
  assert (K1 : forall b, b <> INVALID_ADDRESS -> kept s s1 b) by (intros b Hi; split_and!; try done; by apply L1).
  apply wp_bind, wp_choose with (L := l); [done|done|]. intros o Ho.
  destruct o as [c|]; [|by apply wp_fail]. destruct (Ho c eq_refl) as (Hcl & e & Hr & Hqe).
  apply wp_bind, (wp_read _ e); [done|]. apply read_slot in Hr as Hsl.
  destruct (proj2 N1 _ (C1 c Hcl)) as (x & Hx & Hxi & Hxa). rewrite Nat2Z.id in Hx.
  change (m_dram_directory_cache s1) with dc1 in Hsl. assert (x = e) as -> by congruence.
  apply wp_bind, wp_gets, wp_bind, wp_lift; [apply rd_returns|]. intros cnt _.
  apply wp_bind, wp_lift; [apply wr_returns|]. intros ev _.
  apply wp_bind, wp_modify, wp_bind, wp_gets, wp_bind, wp_gets, wp_bind.
  set (s1' := with_counters ev _ _ s1). change (m_dram_directory_cache s1') with dc1.
  pose proof (replaceDirectoryEntry_spec dc1 c e a true (elapsed_time s1') W1 Ha N1 (C1 c Hcl) Hx Hxi) as Hrep.
  destruct (replaceDirectoryEntry dc1 _ a true _) as [[[n' dc2] t2]|f]; [|by destruct Hrep as [-> | ->]].
  destruct Hrep as (-> & W2 & L2 & e' & Hs2 & He').
  apply wp_bind, wp_modify. set (s2 := with_time t2 (with_dc dc2 s1')).
  assert (Hb2 : base s2) by (by eapply (base_with_dc s1)).
  assert (K2 : forall b, b <> INVALID_ADDRESS -> kept s s2 b).
  { intros b Hi. eapply kept_trans; [by apply K1|]. split_and!; try done. by apply L2. }
  apply wp_bind, wp_lift; [apply ShmemReq_new_returns|]. intros nul Hnul.
  apply ShmemReq_new_spec in Hnul as (Hmsg & Hwait & _).
  apply wp_bind, (wp_enqueue _ nul); [done|by rewrite Hmsg|]. intros s3 (Hb3 & Ed3 & Es3 & Eq3 & K3).
  change (qu s2 (de_address e)) with (qu s1 (de_address e)) in Eq3. rewrite Hqe in Eq3.
  apply wp_bind, wp_size, wp_bind, wp_check; [done|]. intros _.
  apply wp_bind. eapply wp_mono.
  { apply (wp_nullify_replaced (de_address e)); try done; [|by rewrite Hmsg]. unfold ln, tr. rewrite Ed3, Es3.
    change (line_inv (ln s2 (de_address e)) [] (tr s2 (de_address e))).
    destruct (K2 _ Hxi) as (-> & _ & ->). destruct (K1 _ Hxi) as (_ & Eq1 & _).
    rewrite Hqe in Eq1. rewrite Eq1. by apply (aw_others _ _ _ _ Hw). }
  intros _ s4 (Hb4 & Hok4 & K4 & Hkeep4). apply wp_ret.
  assert (Ka : forall b, b <> INVALID_ADDRESS -> b <> de_address e -> kept s s4 b).
  { intros b Hi Hne. eapply kept_trans; [by apply K2|]. eapply kept_trans; [by apply K3|by apply K4]. }
  destruct (Ka a Ha (not_eq_sym Hxa)) as (El & Eq & Et). split_and!; [|done|done|].
  - split; [done|done| |rewrite Eq; apply Hw]. intros b Hi Hne.
    destruct (decide (b = de_address e)) as [->|Hbe]; [done|].
    eapply kept_ok; [by apply Ka|]. by apply (aw_others _ _ _ _ Hw).
  - exists e'. split; [|done]. apply read_slot, Hkeep4; [by rewrite Ed3|congruence].
Qed.

Lemma wp_entry_for a h q s :
  at_work s a h q -> (1 <= k)%nat -> wp (entry_for next h) (fun r s' => prepared s a h q r s') s.
Proof.
  intros Hw Hk. unfold entry_for. rewrite (at_work_address _ _ _ _ Hw).
  apply wp_bind, wp_lookup; [apply Hw|apply Hw|]. intros o s1 Hs1 Ho.
  destruct (silent_kept _ _ a Hs1 (aw_addr _ _ _ _ Hw)) as (El & _ & Et).
  pose proof (at_work_silent _ _ _ _ _ Hw Hs1) as Hw1. destruct o as [r|].
  - apply wp_ret. by split_and!.
  - eapply wp_mono; [by apply wp_alloc|]. intros r s2 (Hw2 & El2 & Et2 & He). split_and!; try done; congruence.
Qed.

(** Lists of sharers. *)
Lemma set_positions_insert j l i :
  (i < length l)%nat -> set_positions j l = [] ->
  set_positions j (<[i := true]> l) = [j + Z.of_nat i].
Proof.
  revert j i. induction l as [|b l IH]; intros j i Hi Hn; cbn in Hi; [lia|].
  destruct b; [done|]. cbn in Hn. destruct i as [|i].
  - cbn. by rewrite Hn, Z.add_0_r.
  - change (<[S i := true]> (false :: l)) with (false :: <[i := true]> l). cbn [set_positions].
    rewrite (IH (j + 1) i) by (lia || done). f_equal. lia.
Qed.

Lemma addSharer_true e r m e' :
  addSharer e r m = Ok (true, e') ->
  0 <= r /\ de_sharers e' = <[Z.to_nat r := true]> (de_sharers e) /\
  (Z.to_nat r < length (de_sharers e))%nat /\
  de_address e' = de_address e /\ de_dstate e' = de_dstate e /\ de_owner_id e' = de_owner_id e.
Proof.
  unfold addSharer, sharer_at. destruct (Z.leb_spec 0 r); [|done]. intros Ha. inv_res.
  destruct (de_class e); [destruct (_ <=? _); [done|]|]; inv_res;
    apply wr_Ok in E1 as [? ->]; simplify_eq; cbn; done.
Qed.

Lemma first_sharer_line e r m d e1 e2 :
  addSharer e r m = Ok (true, e1) -> setOwner r e1 = Ok e2 -> l_sharers (entry_line e) = [] ->
  entry_line (setDState d e2) = mkLine d [r] (match d with
    | DirectoryState.MODIFIED | DirectoryState.EXCLUSIVE => r | _ => INVALID_CORE_ID end) /\
  de_address (setDState d e2) = de_address e.
Proof.
  intros Ha Ho Hn. apply addSharer_true in Ha as (Hr & Hs & Hlt & Haddr & _).
  unfold setOwner in Ho. inv_res. split; [|done]. unfold entry_line. cbn. f_equal.
  rewrite Hs. rewrite set_positions_insert by done. f_equal. lia.
Qed.

Lemma addSharer_returns e r m : addSharer e r m <> Err Diverges.
Proof.
  unfold addSharer, sharer_at. destruct (0 <=? r); [|done]. unfold rd.
  destruct (_ !! _) as [[]|]; cbn; try done.
  destruct (de_class e); [destruct (m <=? getNumSharers e); [done|]|]; unfold wr; by case_decide.
Qed.

Lemma setOwner_returns r e : setOwner r e <> Err Diverges.
Proof.
  unfold setOwner, sharer_at. destruct (_ =? _); [done|]. destruct (_ <=? _); [|done]. unfold rd.
  by destruct (_ !! _) as [[]|].
Qed.

(** The first sharer of an uncached line, and the retrieval of its data. *)
Lemma wp_first_sharer a h q r e d reply data bt s :
  at_work s a h q -> (length (h :: q) <= k)%nat -> read_ref (m_dram_directory_cache s) r = Ok e ->
  de_address e = a -> de_dstate e = DirectoryState.UNCACHED -> ok_at s a ->
  m_wait_for_data h = false -> is_core_req h ->
  (d = DirectoryState.MODIFIED /\ req_type h <> SH_REQ /\ reply = EX_REP \/
   d = DirectoryState.EXCLUSIVE /\ req_type h = SH_REQ /\ reply = EX_REP \/
   d = DirectoryState.SHARED /\ req_type h = SH_REQ /\ reply = SH_REP) ->
  wp (first_sharer r e (req_core h) d;;
      retrieveDataAndSendToL2Cache stack next reply (req_core h) a data bt)
    (fun _ s' => inv s') s.
Proof.
  intros Hw Hk Hr Hea Hst Hok Hwait Hcr Hd. apply wp_bind. unfold first_sharer.
  pose proof (aw_base _ _ _ _ Hw) as Hb. pose proof (aw_addr _ _ _ _ Hw) as Ha.
  pose proof (entry_ln s r e a Hb Hr Hea Ha) as Hln.
  unfold ok_at in Hok. rewrite (aw_queue _ _ _ _ Hw), Hln in Hok.
  destruct (uncached_quiet _ _ _ _ Hok Hwait) as (Hno & _); [done|].
  assert (Hempty : l_sharers (entry_line e) = []) by (by rewrite Hno).
  assert (Hd' : d = DirectoryState.MODIFIED /\ req_type h <> SH_REQ \/
   d = DirectoryState.EXCLUSIVE /\ req_type h = SH_REQ \/
   d = DirectoryState.SHARED /\ req_type h = SH_REQ) by naive_solver.
  destruct (first_grantable _ _ _ _ d Hok Hwait Hst Hcr Hd') as [Hg Hp].
  apply wp_bind, wp_gets, wp_bind, wp_lift; [apply addSharer_returns|]. intros [res e1] Hadd.
  apply wp_bind, wp_check; [done|]. intros ->.
  apply wp_bind, wp_lift; [apply setOwner_returns|]. intros e2 Hown.
  destruct (first_sharer_line _ _ _ d _ _ Hadd Hown Hempty) as [Hline Haddr].
  apply (wp_write _ e); [done|done|congruence|done|]. rewrite Hea.
  intros s2 Hb2 Hq2 Hl2 K2 _.
  assert (Hl2' : ln s2 a = mkLine d [req_core h]
    (if decide (d = DirectoryState.SHARED) then INVALID_CORE_ID else req_core h)).
  { rewrite Hl2, Hline. f_equal. by destruct Hd as [[-> _]|[[-> _]|[-> _]]]. }
  apply wp_retrieve with (q := q); [|done|done|..].
  - eapply at_work_kept; [done|done|by apply same_qs_qu|done].
  - rewrite Hl2', (same_qs_tr _ _ _ Hq2).
    destruct Hd as [(-> & _ & ->)|[(-> & _ & ->)|(-> & _ & ->)]]; exact Hg.
  - rewrite Hl2', (same_qs_tr _ _ _ Hq2). exact Hp.
Qed.

(** The common beginning of the three functions. *)
Lemma wp_prepared {A} a h q (f : entry_ref -> DirectoryEntry -> M N A) Q s :
  at_work s a h q -> (length (h :: q) <= k)%nat -> ok_at s a ->
  (forall r e s', at_work s' a h q -> line_inv (ln s' a) (h :: q) (tr s' a) ->
     read_ref (m_dram_directory_cache s') r = Ok e -> de_address e = a -> ln s' a = entry_line e ->
     tr s' a = tr s a -> wp (f r e) Q s') ->
  wp (r ← entry_for next h; e ← read_entry r; f r e) Q s.
Proof.
  intros Hw Hk Hok H. apply wp_bind. eapply wp_mono; [apply wp_entry_for; [done|cbn in Hk; lia]|].
  intros r s1 (Hw1 & El & Et & e & Hr & Hea). apply wp_bind, (wp_read _ e); [done|].
  assert (line_inv (ln s1 a) (h :: q) (tr s1 a)).
  { rewrite El, Et, <- (aw_queue _ _ _ _ Hw). exact Hok. }
  apply H; try done. apply (entry_ln s1 r); [apply Hw1|done|done|apply Hw1].
Qed.

Lemma at_work_ok s a h q : at_work s a h q -> line_inv (ln s a) (h :: q) (tr s a) -> ok_at s a.
Proof. intros Hw Hi. unfold ok_at. by rewrite (aw_queue _ _ _ _ Hw). Qed.

(** The owner of the line is asked for its copy. *)
Lemma wp_flush_owner a h q e rq bt s :
  at_work s a h q -> line_inv (ln s a) (h :: q) (tr s a) -> ln s a = entry_line e ->
  m_wait_for_data h = false -> req_type h <> SH_REQ ->
  de_dstate e = DirectoryState.MODIFIED \/ de_dstate e = DirectoryState.EXCLUSIVE ->
  (req_type h = UPGRADE_REQ -> l_sharers (ln s a) <> [req_core h]) ->
  wp (sendToL2 FLUSH_REQ rq (de_owner_id e) a bt) (fun _ s' => inv s') s.
Proof.
  intros Hw Hi Hln Hwait Hty Hst Hup.
  assert (Hown : owned (ln s a)) by (rewrite Hln; destruct Hst; [by left|by right]).
  assert (Eo : de_owner_id e = l_owner (ln s a)).
  { rewrite Hln. unfold entry_line. cbn. by destruct Hst as [-> | ->]. }
  pose proof (owned_owner _ (proj1 (proj1 Hi)) Hown) as Hsh.
  apply wp_send_done; [apply Hw|apply Hw|apply Hw|done|]. rewrite (aw_queue _ _ _ _ Hw), Eo.
  apply flush_inv; [done|done|done|rewrite Hsh; left|]. intros Hu Heq. apply (Hup Hu). by rewrite Hsh, Heq.
Qed.

Lemma wp_invalidate_done a h q e rq bt s :
  at_work s a h q -> line_inv (ln s a) (h :: q) (tr s a) ->
  wp (invalidate_sharers e rq a bt) (fun _ s' => inv s') s.
Proof.
  intros Hw Hi. apply wp_invalidate_sharers; [apply Hw|]. intros s' (Hb & _ & Hk).
  apply (inv_split _ a); [done| |].
  - eapply kept_ok; [apply Hk|by eapply at_work_ok].
  - eapply kept_others; [|apply Hw]. intros b _ _. apply Hk.
Qed.

Lemma wp_ex a h q d s :
  at_work s a h q -> (length (h :: q) <= k)%nat -> ok_at s a -> req_type h = EX_REQ ->
  m_wait_for_data h = false ->
  wp (processExReqFromL2Cache stack next h d) (fun _ s' => inv s') s.
Proof.
  intros Hw Hk Hok Hty Hwait. unfold processExReqFromL2Cache. rewrite (at_work_address _ _ _ _ Hw).
  eapply wp_prepared; [done..|]. intros r e s1 Hw1 Hi Hr Hea Hln _.
  destruct (de_dstate e) eqn:Est.
  - apply wp_first_sharer with (q := q); try done; [by eapply at_work_ok|by left|]. left. by rewrite Hty.
  - apply wp_bind, wp_check; [done|]. intros _. by eapply wp_invalidate_done.
  - by apply wp_fail.
  - apply wp_bind, wp_check; [done|]. intros _. eapply wp_flush_owner; try done; rewrite ?Hty; auto; done.
  - apply wp_bind, wp_check; [done|]. intros _. eapply wp_flush_owner; try done; rewrite ?Hty; auto; done.
Qed.

(** A request for a shared copy of a shared line can be answered. *)
Lemma shared_grantable l h q t l' :
  line_inv l (h :: q) t -> m_wait_for_data h = false -> req_type h = SH_REQ -> asked_wb t = ∅ ->
  l_state l = DirectoryState.SHARED -> l_state l' = DirectoryState.SHARED ->
  l_owner l' = INVALID_CORE_ID -> (forall x, x ∈ l_sharers l -> x ∈ l_sharers l') ->
  req_core h ∈ l_sharers l' -> grantable l' h q t SH_REP /\ pending l' h t.
Proof.
  intros ((Hc & Hh & Hwr) & Ha & Hwt & Hn & Hcl & Hf & Hcs) Hwait Hty Hwb Hs Hs' Hl' Hsub Hin.
  rewrite decide_False in Hwt by congruence.
  assert (Hno : req_core h ∉ holders t) by (apply Hcl; by right).
  split; [|by split_and!; [|rewrite Hty; intuition congruence|left]].
  split; try done.
  - split_and!; [|auto|].
    + unfold coherent. rewrite Hs'. split; [|done]. intros E. rewrite E in Hin. by apply not_elem_of_nil in Hin.
    + intros w Hw. destruct (Hwr w Hw) as [[E|E] _]; congruence.
  - eapply quiet_of_active; [done..|]. destruct (decide (asked_flush t = ∅)) as [|Hne]; [done|].
    by destruct (ac_flush _ _ _ Ha Hne) as [? _].
  - right. by left.
  - by left.
Qed.

Lemma addSharer_line e r m e' :
  addSharer e r m = Ok (true, e') -> r ∈ l_sharers (entry_line e') /\
  forall x, x ∈ l_sharers (entry_line e) -> x ∈ l_sharers (entry_line e').
Proof.
  intros H. apply addSharer_true in H as (Hr & Hs & Hlt & _). cbn. rewrite Hs. split.
  - apply elem_of_set_positions. rewrite Z.sub_0_r, list_lookup_insert_eq; done.
  - intros x. rewrite !elem_of_set_positions, Z.sub_0_r. intros [? Hx]. split; [done|].
    destruct (decide (Z.to_nat x = Z.to_nat r)) as [->|Hne].
    + by rewrite list_lookup_insert_eq.
    + by rewrite list_lookup_insert_ne.
Qed.

Lemma addSharer_false e r m e' : addSharer e r m = Ok (false, e') -> e' = e.
Proof.
  unfold addSharer. intros H. inv_res. destruct (de_class e); [destruct (m <=? _)|]; inv_res; congruence.
Qed.

Lemma addSharer_fields e r m (c : bool) e' :
  addSharer e r m = Ok (c, e') -> de_address e' = de_address e /\ de_dstate e' = de_dstate e.
Proof.
  destruct c; intros H.
  - apply addSharer_true in H. naive_solver.
  - by apply addSharer_false in H as ->.
Qed.

Lemma getOneSharer_line e id e' :
  getOneSharer e = Ok (id, e') -> entry_line e' = entry_line e /\ de_address e' = de_address e.
Proof.
  unfold getOneSharer. intros H. destruct (de_class e).
  - inv_res. case_match. inv_res. simplify_eq. done.
  - destruct (set_positions 0 (de_sharers e)); inv_res. by simplify_eq.
Qed.

Lemma getOneSharer_returns e : getOneSharer e <> Err Diverges.
Proof.
  unfold getOneSharer. destruct (de_class e).
  - case_bool_decide; [done|]. unfold check, Random_next. cbn [negb mbind res_bind].
    unfold check. destruct (negb _); [|done]. cbn. unfold rd. by destruct (_ !! _).
  - by destruct (set_positions 0 (de_sharers e)).
Qed.

Lemma hasSharer_returns e r : hasSharer e r <> Err Diverges.
Proof. unfold hasSharer, sharer_at. destruct (0 <=? r); [|done]. apply rd_returns. Qed.

(** The owner is asked to write back. *)
Lemma wp_wb_owner a h q e rq bt s :
  at_work s a h q -> line_inv (ln s a) (h :: q) (tr s a) -> ln s a = entry_line e ->
  m_wait_for_data h = false -> req_type h = SH_REQ -> asked_wb (tr s a) = ∅ ->
  de_dstate e = DirectoryState.MODIFIED \/ de_dstate e = DirectoryState.EXCLUSIVE ->
  wp (sendToL2 WB_REQ rq (de_owner_id e) a bt) (fun _ s' => inv s') s.
Proof.
  intros Hw Hi Hln Hwait Hty Hwb Hst.
  assert (Eo : de_owner_id e = l_owner (ln s a)).
  { rewrite Hln. unfold entry_line. cbn. by destruct Hst as [-> | ->]. }
  apply wp_send_done; [apply Hw|apply Hw|apply Hw|done|]. rewrite (aw_queue _ _ _ _ Hw), Eo.
  apply wb_inv; try done. rewrite Hln. by destruct Hst; [left|right].
Qed.

(** A request for a shared copy of a shared line: another sharer is added, or one of the
    sharers has to leave first. *)
Lemma wp_sh_shared a h q r e d bt s :
  at_work s a h q -> (length (h :: q) <= k)%nat -> line_inv (ln s a) (h :: q) (tr s a) ->
  read_ref (m_dram_directory_cache s) r = Ok e -> de_address e = a -> ln s a = entry_line e ->
  de_dstate e = DirectoryState.SHARED -> req_type h = SH_REQ -> m_wait_for_data h = false ->
  asked_wb (tr s a) = ∅ ->
  wp (dc ← gets m_dram_directory_cache;
      '(add_result, e) ← lift (addSharer e (req_core h) (getMaxHwSharers dc));
      write_entry r e;;
      if add_result : bool then
        retrieveDataAndSendToL2Cache stack next SH_REP (req_core h) a d bt
      else
        '(sharer_id, e) ← lift (getOneSharer e);
        write_entry r e;;
        sendToL2 INV_REQ (req_core h) sharer_id a bt) (fun _ s' => inv s') s.
Proof.
  intros Hw Hk Hi Hr Hea Hln Hst Hty Hwait Hwb.
  pose proof (aw_addr _ _ _ _ Hw) as Ha. pose proof (aw_base _ _ _ _ Hw) as Hb.
  apply wp_bind, wp_gets, wp_bind, wp_lift; [apply addSharer_returns|]. intros [res e1] Hadd.
  destruct (addSharer_fields _ _ _ _ _ Hadd) as [Ha1 Hd1].
  apply wp_bind, (wp_write _ e); [done|done|congruence|done|]. rewrite Hea.
  intros s2 Hb2 Hq2 Hl2 K2 Hr2.
  assert (Hw2 : at_work s2 a h q) by (eapply at_work_kept; [done|done|by apply same_qs_qu|done]).
  destruct res.
  - apply addSharer_line in Hadd as [Hin Hsub].
    assert (Hst1 : l_state (entry_line e1) = DirectoryState.SHARED) by (cbn; by rewrite Hd1).
    assert (Hlo1 : l_owner (entry_line e1) = INVALID_CORE_ID) by (unfold entry_line; cbn; by rewrite Hd1, Hst).
    rewrite Hln in Hi.
    destruct (shared_grantable _ _ _ _ (entry_line e1) Hi Hwait Hty Hwb Hst Hst1 Hlo1 Hsub Hin) as [Hg Hp].
    apply wp_retrieve with (q := q); try done; by rewrite Hl2, (same_qs_tr _ _ _ Hq2).
  - apply addSharer_false in Hadd as ->.
    apply wp_bind, wp_lift; [apply getOneSharer_returns|]. intros [id e3] Hone.
    apply getOneSharer_line in Hone as [Hl3 Ha3].
    apply wp_bind, (wp_write _ e); [done|done|congruence|done|]. rewrite Hea.
    intros s3 Hb3 Hq3 Hl3' K3 _.
    assert (Hw3 : at_work s3 a h q) by (eapply at_work_kept; [exact Hw2|done|by apply same_qs_qu|done]).
    apply wp_send_ignored; [done|by left|]. intros s4 Hb4 _ K4. apply (inv_split _ a); [done| |].
    + eapply kept_ok; [apply K4|]. eapply at_work_ok; [done|].
      rewrite Hl3', Hl3, (same_qs_tr _ _ _ Hq3), (same_qs_tr _ _ _ Hq2), <- Hln. done.
    + eapply kept_others; [|apply Hw3]. intros b _ _. apply K4.
Qed.

Lemma wp_sh a h q d s :
  at_work s a h q -> (length (h :: q) <= k)%nat -> ok_at s a -> req_type h = SH_REQ ->
  m_wait_for_data h = false -> asked_wb (tr s a) = ∅ ->
  wp (processShReqFromL2Cache stack next h d) (fun _ s' => inv s') s.
Proof.
  intros Hw Hk Hok Hty Hwait Hwb. unfold processShReqFromL2Cache. rewrite (at_work_address _ _ _ _ Hw).
  eapply wp_prepared; [done..|]. intros r e s1 Hw1 Hi Hr Hea Hln Et. rewrite <- Et in Hwb.
  destruct (de_dstate e) eqn:Est.
  - apply wp_bind, wp_gets. case_bool_decide;
      (apply wp_first_sharer with (q := q); try done; [by eapply at_work_ok|right; by left|]; right);
      [right|left]; done.
  - apply wp_bind, wp_lift; [apply hasSharer_returns|]. intros [] Hsh; [|by eapply wp_sh_shared].
    apply wp_bind, wp_modify. apply elem_of_sharers in Hsh.
    assert (Hst : l_state (ln s1 a) = DirectoryState.SHARED) by (by rewrite Hln).
    assert (Hlo : l_owner (ln s1 a) = INVALID_CORE_ID) by (rewrite Hln; unfold entry_line; cbn; by rewrite Est).
    destruct (shared_grantable _ _ _ _ (ln s1 a) Hi Hwait Hty Hwb Hst Hst Hlo) as [Hg Hp];
      [done|by rewrite Hln|].
    apply wp_retrieve with (q := q); try done. destruct Hw1. by split.
  - by apply wp_fail.
  - apply wp_bind, wp_check; [done|]. intros _. by eapply wp_wb_owner; auto.
  - apply wp_bind, wp_check; [done|]. intros _. apply wp_bind, wp_check; [done|]. intros _.
    by eapply wp_wb_owner; auto.
Qed.

(** An upgrade of the only sharer can be answered. *)
Lemma upgrade_grantable l h q t :
  line_inv l (h :: q) t -> m_wait_for_data h = false -> req_type h = UPGRADE_REQ ->
  l_sharers l = [req_core h] ->
  grantable (mkLine DirectoryState.MODIFIED [req_core h] (req_core h)) h q t UPGRADE_REP.
Proof.
  intros ((Hc & Hh & Hwr) & Ha & Hwt & Hn & Hcl & Hf & Hcs) Hwait Hty Hs.
  rewrite decide_False in Hwt by congruence. rewrite Hs in Hh, Hwr.
  split; try done.
  - split_and!; try done. intros w Hw. destruct (Hwr w Hw) as [_ ?]. split; [by left|done].
  - eapply quiet_of_active; [done..| |].
    + destruct (decide (asked_wb t = ∅)) as [|Hne]; [done|]. destruct (ac_wb _ _ _ Ha Hne). congruence.
    + destruct (decide (asked_flush t = ∅)) as [|Hne]; [done|].
      destruct (ac_flush _ _ _ Ha Hne) as [_ Hx]. specialize (Hx Hty).
      apply set_choose_L in Hne as [x Hx']. pose proof (ac_flush_sharers _ _ _ Ha _ Hx') as Hin.
      rewrite Hs in Hin. apply list_elem_of_singleton in Hin. congruence.
  - by right; right.
  - cbn. left.
  - right. split_and!; [by right|by left|done].
Qed.

Lemma wp_upgrade_invalidate a h q rq has bt i (l : list Z) s :
  at_work s a h q -> line_inv (ln s a) (h :: q) (tr s a) -> m_wait_for_data h = false ->
  req_type h = UPGRADE_REQ -> rq = req_core h -> (forall x, x ∈ l -> x ∈ l_sharers (ln s a)) ->
  wp (upgrade_invalidate i l rq a has bt) (fun _ s' => inv s') s.
Proof.
  revert i s. induction l as [|x l IH]; intros i s Hw Hi Hwait Hty -> Hl.
  { apply wp_ret, (inv_split _ a); [apply Hw|by eapply at_work_ok|apply Hw]. }
  cbn [upgrade_invalidate]. apply wp_bind.
  destruct (Z.eqb_spec x (req_core h)) as [Hx|Hx]; cbn [negb].
  { apply wp_ret, IH; try done. intros y Hy. apply Hl. by right. }
  assert (Hsend : forall ty, ty = FLUSH_REQ \/ ty = INV_REQ ->
    wp (sendToL2 ty (req_core h) x a bt)
      (fun _ s' => wp (upgrade_invalidate (S i) l (req_core h) a has bt) (fun _ s' => inv s') s') s).
  { intros ty Hty'. apply wp_sendMsg; [apply Hw|by destruct Hty' as [-> | ->]|].
    intros s' Hb Ed Eq Et Hk. apply IH; try done.
    - eapply at_work_kept; [done|done|by unfold qu; rewrite Eq|]. intros b _ Hne. by apply Hk.
    - unfold ln. rewrite Ed, Et. destruct Hty' as [-> | ->]; [|done].
      apply flush_inv; [done|done|congruence|apply Hl; left|done].
    - intros y Hy. unfold ln. rewrite Ed. apply Hl. by right. }
  destruct (negb has && _); apply Hsend; auto.
Qed.

Lemma entry_line_modified e :
  entry_line (setDState DirectoryState.MODIFIED e) =
    mkLine DirectoryState.MODIFIED (l_sharers (entry_line e)) (de_owner_id e).
Proof. done. Qed.

Lemma wp_upgrade a h q d s :
  at_work s a h q -> (length (h :: q) <= k)%nat -> ok_at s a -> req_type h = UPGRADE_REQ ->
  m_wait_for_data h = false ->
  wp (processUpgradeReqFromL2Cache stack next h d) (fun _ s' => inv s') s.
Proof.
  intros Hw Hk Hok Hty Hwait. unfold processUpgradeReqFromL2Cache. rewrite (at_work_address _ _ _ _ Hw).
  eapply wp_prepared; [done..|]. intros r e s1 Hw1 Hi Hr Hea Hln _.
  pose proof (aw_addr _ _ _ _ Hw1) as Ha. pose proof (aw_base _ _ _ _ Hw1) as Hb1.
  change (snd (getSharersList e)) with (l_sharers (entry_line e)).
  assert (Howned : de_dstate e = DirectoryState.MODIFIED \/ de_dstate e = DirectoryState.EXCLUSIVE ->
    wp (first ← lift (rd (l_sharers (entry_line e)) 0);
        if first =? req_core h then
          lift (check (de_owner_id e =? req_core h) AssertFailed);;
          sendToL2 UPGRADE_REP (req_core h) (req_core h) a (req_block_type h);;
          write_entry r (setDState DirectoryState.MODIFIED e);;
          next a
        else sendToL2 FLUSH_REQ (req_core h) (de_owner_id e) a (req_block_type h))
      (fun _ s' => inv s') s1).
  { intros Hst. apply wp_bind, wp_lift; [apply rd_returns|]. intros f Hf. apply rd_Ok in Hf.
    assert (Hown : owned (ln s1 a)) by (rewrite Hln; destruct Hst; [by left|by right]).
    pose proof (owned_owner _ (proj1 (proj1 Hi)) Hown) as Hsh. rewrite Hln in Hsh.
    rewrite Hsh in Hf. apply list_lookup_singleton_Some in Hf as [_ Hf]. subst f.
    destruct (Z.eqb_spec (l_owner (entry_line e)) (req_core h)) as [Heq|Hne].
    - rewrite Heq in Hsh. apply wp_bind, wp_check; [done|]. intros Hoe. apply Z.eqb_eq in Hoe.
      pose proof (upgrade_grantable _ _ _ _ Hi Hwait Hty) as Hg. rewrite Hln in Hg. specialize (Hg Hsh).
      apply wp_bind, wp_sendMsg; [done|by eapply grant_legal|].
      intros s2 Hb2 Ed Eq Et Hk2. apply wp_bind, (wp_write _ e); [done|by rewrite Ed|congruence|done|].
      rewrite Hea. intros s3 Hb3 Hq3 Hl3 K3 _.
      apply Hnext with (h := h) (q := q); [|done|].
      + eapply at_work_kept; [done|done|rewrite (same_qs_qu _ _ _ Hq3); unfold qu; by rewrite Eq|].
        intros b Hib Hnb. eapply kept_trans; [by apply Hk2|by apply K3].
      + rewrite Hl3, (same_qs_tr _ _ _ Hq3), Et, entry_line_modified, Hsh, Hoe. by apply grant_settles.
    - eapply wp_flush_owner; try done; [congruence|]. intros _. rewrite Hln, Hsh. congruence. }
  destruct (de_dstate e) eqn:Est; [| |by apply wp_fail|by apply Howned; left|by apply Howned; right].
  - apply wp_bind, wp_check; [done|]. intros _.
    apply wp_first_sharer with (q := q); try done; [by eapply at_work_ok|by right; right|].
    left. by rewrite Hty.
  - case_bool_decide as Hone.
    + apply wp_bind, wp_lift; [apply setOwner_returns|]. intros e2 Hown.
      unfold setOwner in Hown. inv_res.
      apply wp_bind, (wp_write _ e); [done|done|congruence|done|].
      intros s2 Hb2 Hq2 Hl2 K2 _.
      apply wp_grant with (q := q); [|done|].
      * eapply at_work_kept; [done|done|by apply same_qs_qu|done].
      * rewrite Hl2, (same_qs_tr _ _ _ Hq2), entry_line_modified.
        change (l_sharers (entry_line (mkEntry _ _ _ _ _ _))) with (l_sharers (entry_line e)). rewrite Hone.
        eapply upgrade_grantable; [exact Hi|done|done|by rewrite Hln].
    + apply wp_bind, wp_lift; [apply hasSharer_returns|]. intros has _.
      eapply wp_upgrade_invalidate; try done. by rewrite Hln.
Qed.

End level.

(** ** The recursion *)

Lemma processNext_ok fuel : next_ok fuel (processNextReqFromL2Cache stack fuel).
Proof.
  induction fuel as [|fuel IH]; split.
  - intros s a h q _ Hk. cbn in Hk. lia.
  - lia.
  - intros s a h q Hw Hk Hset. cbn [processNextReqFromL2Cache].
    apply wp_bind, wp_size, wp_bind, wp_check; [done|]. intros _.
    apply wp_bind, (wp_dequeue _ h q); [apply Hw|apply Hw|].
    intros s1 (Hb1 & Ed & Es & Eq & K1) Hempty. apply wp_bind, wp_gets. rewrite Hempty.
    assert (Ho1 : others s1 a) by (eapply kept_others; [|apply Hw]; auto).
    assert (Hset1 : settled (ln s1 a) q (tr s1 a)) by (unfold ln, tr; by rewrite Ed, Es).
    destruct q as [|h' q'].
    + apply wp_ret, (inv_split _ a); [done| |done]. unfold ok_at. rewrite Eq. by apply settled_line_inv.
    + rewrite bool_decide_false by done. apply wp_bind, (wp_front _ h' q'); [done|].
      apply wp_bind, wp_modify. set (s2 := with_time _ s1).
      assert (Hw2 : at_work s2 a h' q') by (split; [apply Hw|done..]).
      assert (Hok2 : ok_at s2 a) by (eapply at_work_ok; [done|]; by apply settled_line_inv).
      assert (Hk' : (length (h' :: q') <= fuel)%nat) by (cbn in *; lia).
      pose proof (se_fresh _ _ _ Hset1) as Hf. apply Forall_cons in Hf as [(Hwait & _ & Hty) _].
      destruct Hty as [Hty|[Hty|Hty]]; rewrite Hty.
      * by eapply wp_ex.
      * eapply wp_sh; try done. apply (se_quiet _ _ _ Hset1).
      * by eapply wp_upgrade.
  - intros s a h Hb Hq _. cbn [processNextReqFromL2Cache].
    apply wp_bind, wp_size, wp_bind, wp_check; [done|]. intros _.
    apply wp_bind, (wp_dequeue _ h []); [done|done|]. intros s1 Hs1 Hempty.
    apply wp_bind, wp_gets. rewrite Hempty. by apply wp_ret.
Qed.

(** The controller chooses enough fuel. *)
Lemma next_req_ok k : next_ok k (next_req stack).
Proof.
  split.
  - intros s a h q Hw _ Hset. unfold wp, next_req. change (queue_of _ a) with (qu s a).
    rewrite (aw_queue _ _ _ _ Hw). 
    apply (proj1 (processNext_ok (S (length (h :: q)))) s a h q); [done|lia|done].
  - intros s a h Hb Hq _. unfold wp, next_req. change (queue_of _ a) with (qu s a). rewrite Hq.
    apply (proj2 (processNext_ok 2) s a h); [done|done|lia].
Qed.

End reasoning.

(** ** Replies *)

(** The line after a copy was returned: [x] is no sharer any more. *)
Record shrunk (l : line) (x : Z) (l' : line) : Prop := {
  sk_sharers : forall y, y ∈ l_sharers l' <-> y ∈ l_sharers l /\ y <> x;
  sk_owner : l_owner l' = INVALID_CORE_ID;
  sk_state : l_sharers l' = [] /\ l_state l' = DirectoryState.UNCACHED \/
    l_sharers l' <> [] /\ l_state l' = DirectoryState.SHARED
}.

Lemma shrunk_tracked l x l' t t' :
  tracked l t -> shrunk l x l' -> x ∈ holders t -> holders t' = holders t ∖ {[x]} ->
  writer t' = resigned (writer t) x -> tracked l' t' /\ writer t' = None.
Proof.
  intros (Hc & Hh & Hw) [H1 H2 H3] Hx Hh' Hw'.
  assert (writer t' = None) as Hno.
  { rewrite Hw'. unfold resigned. case_decide as Hd; [done|]. destruct (writer t) as [w|]; [|done].
    destruct (Hw w eq_refl) as [_ Hs]. apply Hh in Hx. rewrite Hs in Hx.
    apply list_elem_of_singleton in Hx. congruence. }
  split; [|done]. split_and!.
  - unfold coherent. destruct H3 as [[-> ->]|[Hne ->]]; done.
  - intros y. rewrite Hh'. intros [Hy Hne]%elem_of_difference. apply H1. split; [by apply Hh|set_solver].
  - rewrite Hno. done.
Qed.

Lemma copyless_shrink (t t' : traffic) r : holders t' ⊆ holders t -> copyless t r -> copyless t' r.
Proof. intros Hs Hc Hty Hin. by apply (Hc Hty), Hs. Qed.

Lemma Forall_copyless_shrink (t t' : traffic) q :
  holders t' ⊆ holders t -> Forall (copyless t) q -> Forall (copyless t') q.
Proof. intros Hs Hf. eapply Forall_impl; [done|]. intros r. by apply copyless_shrink. Qed.

Lemma diff_nonempty (X : gset Z) x : X ∖ {[x]} <> ∅ -> X <> ∅.
Proof. set_solver. Qed.
Lemma diff_single (X : gset Z) x y : X = {[y]} -> y <> x -> X ∖ {[x]} = {[y]}.
Proof. set_solver. Qed.
Lemma diff_self (X : gset Z) x : X = {[x]} -> X ∖ {[x]} = ∅.
Proof. set_solver. Qed.
Lemma diff_empty (X : gset Z) x : X = ∅ -> X ∖ {[x]} = ∅.
Proof. set_solver. Qed.
Lemma not_elem_diff (X : gset Z) x y : y ∉ X -> y ∉ X ∖ {[x]}.
Proof. set_solver. Qed.

(** The head of the queue after a copy was returned. *)
Lemma shrunk_active l x l' h t t' :
  tracked l t -> active l h t -> shrunk l x l' -> x ∈ holders t ->
  (m_wait_for_data h = true -> l_state l <> DirectoryState.MODIFIED) ->
  holders t' = holders t ∖ {[x]} -> reads t' = reads t ->
  asked_wb t' = asked_wb t ∖ {[x]} -> asked_flush t' = asked_flush t ∖ {[x]} -> active l' h t'.
Proof.
  intros (Hc & Hh & Hw) [Hty Hr Hwt Hwb Hfs Hfl] [H1 H2 H3] Hx Hm Eh Er Ewb Efl.
  assert (Hstay : forall c, c ∈ l_sharers l -> c ∉ holders t -> c ∈ l_sharers l').
  { intros c Hcs Hch. apply H1. split; [done|]. by intros ->. }
  assert (Hst : forall c, c ∈ l_sharers l' -> l_state l' = DirectoryState.SHARED).
  { intros c Hcs. destruct H3 as [[E _]|[_ ?]]; [|done]. rewrite E in Hcs. by apply not_elem_of_nil in Hcs. }
  split; rewrite ?Er, ?Ewb, ?Efl, ?Eh; try done.
  - intros Hwait. specialize (Hm Hwait). destruct (Hwt Hwait) as (Ew & Ef & Hno & Hin & He & Hs & Hn).
    split_and!; [by apply diff_empty|by apply diff_empty|by apply not_elem_diff|by apply Hstay|by intros ?%He| |done].
    intros _. left. by eapply Hst, Hstay.
  - intros Hne. destruct (Hwb (diff_nonempty _ _ Hne)) as (Hsh & y & Hy & Hor). split; [done|].
    destruct (decide (y = x)) as [->|Hyx]; [by apply diff_self in Hy|].
    exists y. split; [by apply diff_single|].
    destruct Hor as [[_ Hs]|(Hf & Hfi & _ & Hin & Hno)].
    + apply Hh in Hx. rewrite Hs in Hx. apply list_elem_of_singleton in Hx. congruence.
    + right. split_and!; try done; [by eapply Hst, Hstay|by apply Hstay|by apply not_elem_diff].
  - intros y [Hy Hne%not_elem_of_singleton]%elem_of_difference. apply H1. split; [by apply Hfs|done].
  - intros Hne. destruct (Hfl (diff_nonempty _ _ Hne)) as [? Hu]. split; [done|]. intros Hup.
    by apply not_elem_diff, Hu.
Qed.

Lemma returned_inv l q t x l' ty rq :
  line_inv l q t -> shrunk l x l' -> x ∈ holders t -> ty = INV_REP \/ ty = FLUSH_REP ->
  (forall h q', q = h :: q' -> m_wait_for_data h = true -> l_state l <> DirectoryState.MODIFIED) ->
  line_inv l' q (observe_receive t ty x rq).
Proof.
  intros Hi Hsh Hx Hty Hm. set (t' := observe_receive t ty x rq).
  assert (Eh : holders t' = holders t ∖ {[x]}) by (by destruct Hty as [-> | ->]).
  assert (Ew : writer t' = resigned (writer t) x) by (by destruct Hty as [-> | ->]).
  assert (Er : reads t' = reads t) by (by destruct Hty as [-> | ->]).
  assert (Ewt : waiting t' = waiting t) by (by destruct Hty as [-> | ->]).
  assert (Ewb : asked_wb t' = asked_wb t ∖ {[x]}) by (by destruct Hty as [-> | ->]).
  assert (Efl : asked_flush t' = asked_flush t ∖ {[x]}) by (by destruct Hty as [-> | ->]).
  clearbody t'. destruct q as [|h q].
  - destruct Hi as [Ht (Hr & Hwb & Hfl) Hw Hn _ _]. split; rewrite ?Ewt; try done.
    + by eapply shrunk_tracked.
    + unfold quiet. rewrite Er, Ewb, Efl. split_and!; [done|by apply diff_empty..].
  - destruct Hi as (Ht & Ha & Hw & Hn & Hc & Hf & Hcs). split_and!; rewrite ?Ewt; try done.
    + by eapply shrunk_tracked.
    + eapply shrunk_active; try done. by eapply Hm.
    + eapply copyless_shrink; [|done]. set_solver.
    + eapply Forall_copyless_shrink; [|done]. set_solver.
Qed.

(** A flush is answered by the writer or by a core that was asked. *)
Lemma flush_not_waiting l h q t x rq :
  line_inv l (h :: q) t -> permitted t FLUSH_REP x rq -> m_wait_for_data h = false.
Proof.
  intros ((Hc & Hh & Hw) & Ha & _) [Hx Hor]. destruct (m_wait_for_data h) eqn:E; [|done].
  destruct (ac_wait _ _ _ Ha E) as (_ & Hfl & Hno & Hin & _). exfalso. destruct Hor as [Hwr|Hask].
  - destruct (Hw _ Hwr) as [_ Hs]. rewrite Hs in Hin. apply list_elem_of_singleton in Hin. congruence.
  - rewrite Hfl in Hask. set_solver.
Qed.

(** After a flush nobody is left who was asked to write back. *)
Lemma flush_no_wb l h q t x rq :
  line_inv l (h :: q) t -> permitted t FLUSH_REP x rq -> req_type h = SH_REQ ->
  asked_wb (observe_receive t FLUSH_REP x rq) = ∅.
Proof.
  intros ((Hc & Hh & Hw) & Ha & _) [Hx Hor] Hty. cbn.
  destruct (decide (asked_wb t = ∅)) as [E|Hne]; [by apply diff_empty|].
  destruct (ac_wb _ _ _ Ha Hne) as (_ & y & Hy & Hcase).
  destruct Hor as [Hwr|Hask].
  - destruct (Hw _ Hwr) as [Ho Hs]. destruct Hcase as [[_ Hs']|(_ & _ & Hst & _)].
    + apply diff_self. congruence.
    + destruct Ho; congruence.
  - destruct (ac_flush _ _ _ Ha) as [? _]; [|done]. intros E. rewrite E in Hask. set_solver.
Qed.

(** A write-back leaves a shared line; its core was the only one asked. *)
Lemma wb_reply_inv l h q t x rq l' :
  line_inv l (h :: q) t -> permitted t WB_REP x rq ->
  l_sharers l' = l_sharers l -> l_state l' = DirectoryState.SHARED -> l_owner l' = INVALID_CORE_ID ->
  let t' := observe_receive t WB_REP x rq in
  line_inv l' (h :: q) t' /\ m_wait_for_data h = false /\ req_type h = SH_REQ /\ asked_wb t' = ∅.
Proof.
  intros ((Hc & Hh & Hw) & Ha & Hwt & Hn & Hcl & Hf & Hcs) [Hx Hask] Es Est Eo t'.
  assert (Hne : asked_wb t <> ∅) by (intros E; rewrite E in Hask; set_solver).
  destruct (ac_wb _ _ _ Ha Hne) as (Hty & y & Hy & Hcase).
  assert (y = x) as -> by (rewrite Hy in Hask; by apply elem_of_singleton in Hask).
  assert (Hwb : asked_wb t' = ∅) by (by apply diff_self).
  assert (Hfl : asked_flush t = ∅).
  { destruct (decide (asked_flush t = ∅)) as [|Hnf]; [done|]. by destruct (ac_flush _ _ _ Ha Hnf). }
  assert (Hwait : m_wait_for_data h = false).
  { destruct (m_wait_for_data h) eqn:E; [|done]. by destruct (ac_wait _ _ _ Ha E). }
  split; [|done]. unfold line_inv. split_and!; try done.
  - unfold tracked. split_and!.
    + unfold coherent. rewrite Est, Es. split; [|done]. intros E. apply Hh in Hx. rewrite E in Hx.
      by apply not_elem_of_nil in Hx.
    + intros y Hy'. rewrite Es. by apply Hh.
    + unfold t'. cbn. unfold resigned. intros w. destruct (decide (writer t = Some x)) as [Hd|Hd]; [done|]. intros Hwr.
      destruct (Hw w Hwr) as [_ Hs]. apply Hh in Hx. rewrite Hs in Hx.
      apply list_elem_of_singleton in Hx. congruence.
  - destruct Ha as [H1 H2 _ _ _ _]. split; try done.
    + intros E. congruence.
    + change (asked_flush t') with (asked_flush t). rewrite Hfl. intros y' Hy'. set_solver.
Qed.

(** A new request joins the queue. *)
Lemma submit_inv l q t r ty sender :
  line_inv l q t -> fresh r -> req_type r = ty ->
  permitted t ty sender (req_core r) -> line_inv l (q ++ [r]) (observe_receive t ty sender (req_core r)).
Proof.
  intros Hi Hf Hty Hp. pose proof Hf as (Hwait & Hfw & Hcr).
  assert (Hnew : (req_core r ∉ waiting t) /\ copyless t r).
  { unfold copyless. rewrite Hty. destruct Hcr as [E|[E|E]]; rewrite E in Hty; subst ty; cbn in Hp;
      try (split; [apply Hp|intros _; apply Hp]). split; [done|]. intros [?|?]; congruence. }
  destruct Hnew as [Hnw Hcl].
  set (t' := observe_receive t ty sender (req_core r)).
  assert (E : t' = mkTraffic (holders t) (writer t) (waiting t ++ [req_core r]) (reads t) (asked_wb t)
    (asked_flush t)) by (unfold t'; destruct Hcr as [E|[E|E]]; by rewrite E in Hty; subst ty).
  rewrite E. clear E t'.
  assert (Hnd : NoDup (waiting t) -> NoDup (waiting t ++ [req_core r])).
  { intros H. apply NoDup_app. split_and!; [done| |apply NoDup_singleton].
    intros x Hx ->%list_elem_of_singleton. done. }
  destruct q as [|h q]; cbn [app].
  - destruct Hi as [Ht (Hr & Hwb & Hfl) Hw Hn _ _]. split_and!; cbn; try done.
    + split; cbn; rewrite ?Hr, ?Hwb, ?Hfl, ?Hwait; try done. by left.
    + rewrite Hw. cbn. rewrite decide_False; [done|]. by apply core_req_not_nullify.
    + by apply Hnd.
  - destruct Hi as (Ht & Ha & Hw & Hn & Hc & Hfs & Hcs). split_and!; cbn; try done.
    + destruct Ha. by split.
    + rewrite Hw. unfold waiting_cores. by rewrite map_app, app_assoc.
    + by apply Hnd.
    + by apply Forall_app_2; [|apply Forall_singleton].
    + by apply Forall_app_2; [|apply Forall_singleton].
Qed.

(** The data of DRAM arrives for the request that waits for it. *)
Lemma dram_grantable l q t x rq :
  line_inv l q t -> permitted t DRAM_READ_REP x rq ->
  exists h q', q = h :: q' /\
    forall reply, (req_type h = SH_REQ -> reply = SH_REP /\ l_state l = DirectoryState.SHARED \/
                     reply = EX_REP /\ l_state l = DirectoryState.EXCLUSIVE) ->
      (req_type h = EX_REQ \/ req_type h = UPGRADE_REQ -> reply = EX_REP) ->
      grantable l h q' (observe_receive t DRAM_READ_REP x rq) reply.
Proof.
  intros Hi Hr. destruct q as [|h q]; [by destruct Hi as [_ (E & _) _ _ _ _]|].
  exists h, q. split; [done|]. intros reply Hsh Hex.
  destruct Hi as (Ht & Ha & Hw & Hn & Hc & Hfs & Hcs). cbn in Hr.
  rewrite (ac_reads _ _ _ Ha) in Hr. destruct (m_wait_for_data h) eqn:Hwait; [|done].
  destruct (ac_wait _ _ _ Ha Hwait) as (Hwb & Hfl & Hno & Hin & He & Hs & Hnn).
  rewrite decide_False in Hw by done.
  assert (Hcr : is_core_req h) by (by destruct (ac_type _ _ _ Ha)).
  split; try done.
  - unfold quiet. cbn. by rewrite (ac_reads _ _ _ Ha), Hwait, Hwb, Hfl.
  - assert (Hone : owned l -> l_sharers l = [req_core h]).
    { intros Ho. pose proof (owned_owner _ (proj1 Ht) Ho) as E. rewrite E in Hin.
      apply list_elem_of_singleton in Hin. by rewrite Hin. }
    destruct Hcr as [E|[E|E]].
    + right. assert (owned l) by (left; auto). split_and!; [left|..]; auto.
    + destruct (Hsh E) as [[-> ?]|[-> ?]]; [by left|]. right. assert (owned l) by (by right). auto.
    + right. assert (owned l) by (left; auto). split_and!; [left|..]; auto.
Qed.

(** The invariant reads only a part of a request. *)
Definition same_req (r r' : ShmemReq) : Prop :=
  req_type r' = req_type r /\ req_core r' = req_core r /\
  m_wait_for_data r' = m_wait_for_data r /\ m_forwarding_from r' = m_forwarding_from r.

#[global] Instance same_req_refl : Reflexive same_req.
Proof. by intros r. Qed.

Lemma active_same l h h' t : same_req h h' -> active l h t -> active l h' t.
Proof.
  intros (E1 & E2 & E3 & E4) [H1 H2 H3 H4 H5 H6].
  split; unfold is_core_req in *; rewrite ?E1, ?E2, ?E3, ?E4; done.
Qed.

Lemma waiting_cores_same q q' : Forall2 same_req q q' -> waiting_cores q' = waiting_cores q.
Proof. induction 1 as [|r r' q q' (_ & E & _) _ IH]; [done|]. cbn. by f_equal. Qed.

Lemma Forall_same (P : ShmemReq -> Prop) q q' :
  (forall r r', same_req r r' -> P r -> P r') -> Forall2 same_req q q' -> Forall P q -> Forall P q'.
Proof.
  intros HP. induction 1; intros HF; [done|]. apply Forall_cons in HF as [? ?].
  constructor; [by eapply HP|auto].
Qed.

Lemma fresh_same r r' : same_req r r' -> fresh r -> fresh r'.
Proof.
  intros (E1 & E2 & E3 & E4) (H1 & H2 & H3). unfold fresh, is_core_req in *. by rewrite E1, E3, E4.
Qed.

Lemma copyless_same t r r' : same_req r r' -> copyless t r -> copyless t r'.
Proof. intros (E1 & E2 & _) H. unfold copyless in *. by rewrite E1, E2. Qed.

Lemma line_inv_same l q q' t : Forall2 same_req q q' -> line_inv l q t -> line_inv l q' t.
Proof.
  intros [|h h' q1 q1' Hh Hq]; [done|]. intros (Ht & Ha & Hw & Hn & Hc & Hf & Hcs).
  split_and!; try done.
  - by eapply active_same.
  - rewrite (waiting_cores_same _ _ Hq), Hw. destruct Hh as (-> & -> & _). done.
  - by eapply copyless_same.
  - eapply Forall_same; [apply fresh_same|done..].
  - eapply Forall_same; [apply copyless_same|done..].
Qed.

Lemma removeSharer_spec e x e' :
  removeSharer e x false = Ok e' ->
  de_address e' = de_address e /\ de_dstate e' = de_dstate e /\ de_owner_id e' = de_owner_id e /\
  (x ∈ l_sharers (entry_line e)) /\
  forall y, y ∈ l_sharers (entry_line e') <-> y ∈ l_sharers (entry_line e) /\ y <> x.
Proof.
  unfold removeSharer, sharer_at. cbn [negb check mbind res_bind]. destruct (Z.leb_spec 0 x); [|done].
  intros H1. inv_res. apply rd_Ok in E. apply wr_Ok in E1 as [Hlt ->]. cbn. split_and!; try done.
  - apply elem_of_set_positions. by rewrite Z.sub_0_r.
  - intros y. rewrite !elem_of_set_positions, Z.sub_0_r.
    destruct (decide (y = x)) as [->|Hne]; [rewrite list_lookup_insert_eq by done; naive_solver|].
    split; [intros [Hy Hl]|intros [[Hy Hl] _]]; rewrite list_lookup_insert_ne in * by lia; done.
Qed.

Lemma removeSharer_returns e x : removeSharer e x false <> Err Diverges.
Proof.
  unfold removeSharer, sharer_at. cbn. destruct (0 <=? x); [|done]. unfold rd.
  destruct (_ !! _) as [[]|]; cbn; [|done..]. unfold wr. by case_decide.
Qed.

Lemma removed_shrunk e x e1 e2 :
  removeSharer e x false = Ok e1 -> de_sharers e2 = de_sharers e1 ->
  de_dstate e2 = (if getNumSharers e2 =? 0 then DirectoryState.UNCACHED else DirectoryState.SHARED) ->
  shrunk (entry_line e) x (entry_line e2).
Proof.
  intros (_ & _ & _ & _ & Hs)%removeSharer_spec Es Ed. split.
  - intros y. rewrite <- Hs. cbn. by rewrite Es.
  - unfold entry_line. cbn. rewrite Ed. by destruct (_ =? _).
  - cbn. rewrite Ed. unfold getNumSharers. destruct (Z.eqb_spec (count_set (de_sharers e2)) 0) as [E|E].
    + left. split; [by apply set_positions_nil|done].
    + right. split; [|done]. by intros ?%set_positions_nil.
Qed.
