(* ===== verification/DirRefine.v ===== *)
(** * Every run of the directory controller is coherent

    The replies of the caches and of DRAM, the delivery of a message, and the states that
    the controller reaches under traffic that is permitted: every message it sends is legal
    for the automaton of [DirProps], and it always returns. *)

From stdpp Require Import base tactics list numbers gmap sets.
From Stdlib Require Import ZArith Lia.
From S2P Require Import Prelude Utils CacheBase CacheBlock Directory DirCntlr DirProps.
Local Open Scope Z_scope.

Section handlers.
Context {N : Type} `{!NucaCache N} (n0 : net) {Hnuca : @NucaReturns N _} (stack : Stack).
Implicit Types (s : DramDirectoryCntlr N) (a b : Z).

(** A message of type [ty] for line [a] has been received, and nothing else happened. *)
Record received s a (ty : msg_t) (x rq : Z) : Prop := {
  rc_addr : a <> INVALID_ADDRESS;
  rc_base : base n0 s;
  rc_others : others n0 s a;
  rc_line : exists t, line_inv (ln s a) (qu s a) t /\ permitted t ty x rq /\
    tr n0 s a = observe_receive t ty x rq
}.

Lemma received_silent s s' a ty x rq : received s a ty x rq -> silent n0 s s' -> received s' a ty x rq.
Proof.
  intros [H1 H2 H3 (t & H4 & H5 & H6)] Hs. destruct (silent_kept n0 s s' a Hs H1) as (El & Eq & Et).
  split; [done|apply Hs| |].
  - eapply kept_others; [|done]. intros b Hi _. by apply silent_kept.
  - exists t. by rewrite El, Eq, Et.
Qed.

Lemma received_silent_entry s s' a ty x rq r e :
  received s a ty x rq -> silent n0 s s' -> read_ref (m_dram_directory_cache s') r = Ok e ->
  de_address e = a -> ln s' a = entry_line e.
Proof. intros Hr Hs He Ha. apply (entry_ln n0 s' r e a); [apply Hs|done|done|apply Hr]. Qed.

Lemma wp_submit a m ty t process s sender :
  received s a ty sender (m_requester m) -> sm_address m = a -> m_msg_type m = ty ->
  ty = EX_REQ \/ ty = SH_REQ \/ ty = UPGRADE_REQ ->
  (forall r s', at_work n0 s' a r [] -> ok_at n0 s' a -> req_type r = ty -> fresh r ->
     asked_wb (tr n0 s' a) = ∅ -> wp (process r NULL) (fun _ s' => inv n0 s') s') ->
  wp (submit m t process) (fun _ s' => inv n0 s') s.
Proof.
  intros [Ha Hb Ho (tr0 & Hi & Hp & Et)] Hadr Hty Hcase Hproc. unfold submit. rewrite Hadr.
  apply wp_bind, wp_lift; [apply ShmemReq_new_returns|]. intros r Hr.
  apply ShmemReq_new_spec in Hr as (Hm & Hw & Hf).
  assert (Hfr : fresh r) by (split_and!; try done; unfold is_core_req; rewrite Hm; cbn; by rewrite Hty).
  assert (Htr : req_type r = ty) by (by rewrite Hm). assert (Hcr : req_core r = m_requester m) by (by rewrite Hm).
  apply wp_bind, (wp_enqueue n0 a r); [done|by rewrite Hm|].
  intros s1 (Hb1 & Ed & Es & Eq & K1).
  assert (Hi1 : line_inv (ln s1 a) (qu s a ++ [r]) (tr n0 s1 a)).
  { unfold ln, tr. rewrite Ed, Es. change (replay n0 (sent s) a) with (tr n0 s a). rewrite Et, <- Hcr.
    apply submit_inv; try done. by rewrite Hcr. }
  assert (Ho1 : others n0 s1 a) by (eapply kept_others; [|done]; intros b _ Hne; by apply K1).
  apply wp_bind, wp_size. rewrite Eq, length_app. destruct (qu s a) as [|h q] eqn:Eqa.
  - cbn. apply Hproc; try done.
    + unfold ok_at. by rewrite Eq.
    + destruct Hi as [_ (_ & Hwb & _) _ _ _ _]. unfold tr in *. rewrite Es, Et.
      destruct Hcase as [-> |[-> | ->]]; done.
  - cbn [length]. destruct (_ =? 1) eqn:E1; [apply Z.eqb_eq in E1; lia|].
    apply wp_ret, (inv_split n0 _ a); [done| |done]. unfold ok_at. by rewrite Eq.
Qed.

(** The request at the front is woken up and processed. *)
Lemma wp_wake a now h q Q s :
  a <> INVALID_ADDRESS -> base n0 s -> others n0 s a -> qu s a = h :: q ->
  line_inv (ln s a) (h :: q) (tr n0 s a) ->
  (forall h' s', same_req h h' -> at_work n0 s' a h' q -> ok_at n0 s' a -> tr n0 s' a = tr n0 s a ->
     m_dram_directory_cache s' = m_dram_directory_cache s -> Q h' s') ->
  wp (wake_front a now) Q s.
Proof.
  intros Ha Hb Ho Hq Hi H. unfold wake_front. apply wp_bind, (wp_update_front n0 a _ h q); [done|done|done|].
  intros s1 (Hb1 & Ed & Es & Eq & K1). apply wp_bind, (wp_front a (req_updateTime now h) q); [done|].
  apply wp_bind, wp_modify, wp_ret. apply H; try done.
  - split; try done. eapply kept_others; [|done]. intros b _ Hne. by apply K1.
  - unfold ok_at, ln, tr, qu in *. cbn. rewrite Ed, Es, Eq. eapply line_inv_same; [|exact Hi].
    constructor; [done|]. reflexivity.
  - unfold tr. cbn. by rewrite Es.
Qed.

(** A copy was returned: the entry is written without the sharer. *)
Lemma wp_returned a ty x rq r e e' Q s :
  received s a ty x rq -> ty = INV_REP \/ ty = FLUSH_REP ->
  read_ref (m_dram_directory_cache s) r = Ok e -> de_address e = a -> de_address e' = a ->
  shrunk (entry_line e) x (entry_line e') ->
  (forall h q, qu s a = h :: q -> m_wait_for_data h = true -> de_dstate e <> DirectoryState.MODIFIED) ->
  (forall s', base n0 s' -> others n0 s' a -> ok_at n0 s' a -> qu s' a = qu s a ->
     ln s' a = entry_line e' -> tr n0 s' a = tr n0 s a ->
     read_ref (m_dram_directory_cache s') r = Ok e' -> Q tt s') ->
  wp (write_entry r e') Q s.
Proof.
  intros [Ha Hb Ho (t & Hi & Hp & Et)] Hty Hr Hadr Hadr' Hsk Hw H.
  assert (El : ln s a = entry_line e) by (by eapply entry_ln).
  eapply (wp_write n0); [done|done|by rewrite Hadr|by rewrite Hadr'|].
  intros s1 Hb1 Hq1 Hl1 K1 Hr1. rewrite Hadr in Hl1, K1.
  apply H; try done.
  - by eapply kept_others.
  - unfold ok_at. rewrite Hl1, (same_qs_qu _ _ _ Hq1), (same_qs_tr _ _ _ _ Hq1), Et.
    eapply returned_inv; [done|by rewrite El| |done|intros h q; rewrite El; apply Hw].
    destruct Hty as [-> | ->]; [done|]. by destruct Hp.
  - by apply same_qs_qu.
  - by apply same_qs_tr.
Qed.

Lemma line_inv_tracked l q t : line_inv l q t -> tracked l t.
Proof. destruct q; [by intros [? _ _ _ _ _]|by intros (? & _)]. Qed.

Lemma line_inv_coherent l q t : line_inv l q t -> coherent l.
Proof. by intros [? _]%line_inv_tracked. Qed.

(** The requests with the recursion closed. *)
Let Hnext k : next_ok n0 k (next_req stack) := next_req_ok n0 stack k.

Lemma ex_again a h q d s :
  at_work n0 s a h q -> ok_at n0 s a -> req_type h = EX_REQ -> m_wait_for_data h = false ->
  wp (processExReqFromL2Cache stack (next_req stack) h d) (fun _ s' => inv n0 s') s.
Proof. intros H ???. by eapply (wp_ex n0 stack _ _ (Hnext _) _ _ _ _ _ H). Qed.

Lemma sh_again a h q d s :
  at_work n0 s a h q -> ok_at n0 s a -> req_type h = SH_REQ -> m_wait_for_data h = false ->
  asked_wb (tr n0 s a) = ∅ ->
  wp (processShReqFromL2Cache stack (next_req stack) h d) (fun _ s' => inv n0 s') s.
Proof. intros H ????. by eapply (wp_sh n0 stack _ _ (Hnext _) _ _ _ _ _ H). Qed.

Lemma upgrade_again a h q d s :
  at_work n0 s a h q -> ok_at n0 s a -> req_type h = UPGRADE_REQ -> m_wait_for_data h = false ->
  wp (processUpgradeReqFromL2Cache stack (next_req stack) h d) (fun _ s' => inv n0 s') s.
Proof. intros H ???. by eapply (wp_upgrade n0 stack _ _ (Hnext _) _ _ _ _ _ H). Qed.

Lemma nullify_again a h q s :
  at_work n0 s a h q -> ok_at n0 s a -> req_type h = NULLIFY_REQ -> m_wait_for_data h = false ->
  wp (processNullifyReq (next_req stack) h) (fun _ s' => inv n0 s') s.
Proof.
  intros [Ha Hb Ho Hq] Hok Hty Hw. eapply (wp_nullify n0); try done.
  - intros s' Hb' K _ Hok'. eapply inv_split; [done..|by eapply kept_others].
  - intros s' Hb' K _ Hq' Hs'. destruct (Hnext (length (h :: q))) as [Hn _].
    eapply Hn; [|done|done]. split; try done. by eapply kept_others.
Qed.

(** The request at the front is one of four kinds. *)
Lemma front_type l h q t :
  line_inv l (h :: q) t ->
  req_type h = EX_REQ \/ req_type h = UPGRADE_REQ \/ req_type h = SH_REQ \/ req_type h = NULLIFY_REQ.
Proof. intros (_ & [[[?|[?|?]]|?] _ _ _ _ _] & _); auto. Qed.

(** A line that is not modified has data under way for shared copies only. *)
Lemma front_not_waiting l h q t :
  line_inv l (h :: q) t -> l_state l <> DirectoryState.MODIFIED -> req_type h <> SH_REQ ->
  m_wait_for_data h = false.
Proof.
  intros Hi Hs Hty. pose proof (front_type _ _ _ _ Hi) as Hf. destruct Hi as (_ & Ha & _).
  destruct (m_wait_for_data h) eqn:E; [|done]. exfalso.
  destruct (ac_wait _ _ _ Ha E) as (_ & _ & _ & _ & H1 & _ & H2). intuition.
Qed.

(** The forwarder has answered: nobody is asked for data. *)
Lemma forwarder_gone l h q t t0 x :
  line_inv l (h :: q) t -> ~ owned l -> asked_wb t = asked_wb t0 ∖ {[x]} ->
  isForwarding h && negb (x =? m_forwarding_from h) = false -> asked_wb t = ∅.
Proof.
  intros (_ & Ha & _) Ho Ea Hx. destruct (decide (asked_wb t = ∅)) as [|Hne]; [done|]. exfalso.
  destruct (ac_wb _ _ _ Ha Hne) as (_ & y & Ey & [[Hy _]|(Hf & Hi & _)]); [done|].
  unfold isForwarding in Hx. rewrite Hf in Hx. apply andb_false_iff in Hx as [Hx|Hx].
  - apply negb_false_iff, Z.eqb_eq in Hx. done.
  - apply negb_false_iff, Z.eqb_eq in Hx. subst. set_solver.
Qed.

(** The entry that loses a sharer becomes uncached with the last one. *)
Definition unshared (e : DirectoryEntry) : DirectoryEntry :=
  if getNumSharers e =? 0 then setDState DirectoryState.UNCACHED e else e.

Lemma unshared_shrunk e x e1 e2 :
  coherent (entry_line e) -> removeSharer e x false = Ok e1 -> de_sharers e2 = de_sharers e1 ->
  de_dstate e2 = de_dstate e1 -> de_address e2 = de_address e1 ->
  shrunk (entry_line e) x (entry_line (unshared e2)) /\ de_address (unshared e2) = de_address e.
Proof.
  intros Hc Hr Es Ed Ea. pose proof (removeSharer_spec _ _ _ Hr) as (Ha & Hs & _ & Hx & Hy).
  split; [|unfold unshared; destruct (_ =? _); cbn; congruence].
  eapply removed_shrunk; [done|unfold unshared; by destruct (_ =? _)|].
  unfold unshared. destruct (getNumSharers e2 =? 0) eqn:E; cbn.
  { unfold getNumSharers in *. cbn. by rewrite E. }
  rewrite E, Ed, Hs. cbn in Hy, Hx.
  assert (Hne : set_positions 0 (de_sharers e1) <> []).
  { intros Hn. rewrite <- Es in Hn. apply set_positions_nil in Hn. unfold getNumSharers in E.
    rewrite Hn in E. done. }
  assert (Hown : forall y, set_positions 0 (de_sharers e) <> [y]).
  { intros y Ey. apply Hne. destruct (set_positions 0 (de_sharers e1)) as [|z zs]; [done|].
    destruct (proj1 (Hy z) (list_elem_of_here z zs)) as [Hz Hzx]. rewrite Ey in Hz, Hx.
    apply list_elem_of_singleton in Hz, Hx. congruence. }
  unfold coherent in Hc. cbn in Hc. destruct (de_dstate e); try done.
  - destruct Hc as [Hc _]. by rewrite Hc in Hx; apply not_elem_of_nil in Hx.
  - by destruct (Hown _ Hc).
  - by destruct (Hown _ Hc).
Qed.

Lemma shrunk_not_owned l x l' : shrunk l x l' -> ~ owned l' /\ l_state l' <> DirectoryState.MODIFIED.
Proof. intros [_ _ [[_ E]|[_ E]]]; unfold owned; rewrite E; split; [intros [|]| |intros [|]|]; done. Qed.

(** The requests whose front is woken by a returned copy. *)
Lemma wp_woken_upgrade a h q r e d s :
  at_work n0 s a h q -> ok_at n0 s a -> req_type h = UPGRADE_REQ -> m_wait_for_data h = false ->
  read_ref (m_dram_directory_cache s) r = Ok e -> de_address e = a ->
  de_dstate e = DirectoryState.UNCACHED ->
  wp (write_entry r (setDState DirectoryState.UNCACHED e);;
      processUpgradeReqFromL2Cache stack (next_req stack) h d) (fun _ s' => inv n0 s') s.
Proof.
  intros [Ha Hb Ho Hq] Hok Hty Hw Hr Hadr Hd.
  assert (El : ln s a = entry_line e) by (by eapply entry_ln).
  apply wp_bind. eapply (wp_write n0); [done|done|by rewrite Hadr|done|].
  intros s1 Hb1 Hq1 Hl1 K1 _. rewrite Hadr in Hl1, K1.
  eapply upgrade_again; [| |done|done].
  - split; [done..|by eapply kept_others|]. by rewrite (same_qs_qu _ _ _ Hq1).
  - unfold ok_at in *. rewrite Hl1, (same_qs_qu _ _ _ Hq1), (same_qs_tr _ _ _ _ Hq1).
    rewrite El in Hok. unfold entry_line in *. cbn. by rewrite Hd in Hok.
Qed.

Lemma shrunk_uncached l x e :
  shrunk l x (entry_line e) -> getNumSharers e = 0 -> de_dstate e = DirectoryState.UNCACHED.
Proof. intros [_ _ [[_ E]|[E _]]] H; [done|]. destruct E. by apply set_positions_nil. Qed.

Lemma wp_inv_dispatch a h q l r e t0 x s :
  at_work n0 s a h q -> ok_at n0 s a -> shrunk l x (entry_line e) ->
  read_ref (m_dram_directory_cache s) r = Ok e -> de_address e = a ->
  asked_wb (tr n0 s a) = asked_wb t0 ∖ {[x]} ->
  wp (inv_dispatch stack r e x h) (fun _ s' => inv n0 s') s.
Proof.
  intros Haw Hok Hsk Hr Hadr Hwb. destruct (shrunk_not_owned _ _ _ Hsk) as [Hno Hnm].
  assert (El : ln s a = entry_line e) by (by apply (entry_ln n0 s r); [apply Haw|..|apply Haw]).
  assert (Hi : line_inv (ln s a) (h :: q) (tr n0 s a)) by (rewrite <- (aw_queue _ _ _ _ _ Haw); done).
  assert (Hret : wp (mret tt) (fun _ s' => inv n0 s') s).
  { apply wp_ret. by apply (inv_split n0 s a); [apply Haw|done|apply Haw]. }
  assert (Hnw : req_type h <> SH_REQ -> m_wait_for_data h = false).
  { intros Hns. eapply front_not_waiting; [done|by rewrite El|done]. }
  unfold inv_dispatch. destruct (front_type _ _ _ _ Hi) as [Et|[Et|[Et|Et]]]; rewrite Et.
  - case_bool_decide; [|done]. eapply ex_again; [done..|]. apply Hnw. by rewrite Et.
  - assert (Hw : m_wait_for_data h = false) by (apply Hnw; by rewrite Et).
    destruct (_ =? 1).
    + apply wp_bind, wp_lift; [apply hasSharer_returns|]. intros [] _; [|done]. by eapply upgrade_again.
    + destruct (Z.eqb_spec (getNumSharers e) 0) as [E|]; [|done].
      eapply wp_woken_upgrade; try done. by eapply shrunk_uncached.
  - destruct (m_wait_for_data h) eqn:Hw; [done|]. destruct (_ && _) eqn:Ef; [done|].
    eapply sh_again; [done..|]. eapply forwarder_gone; [done|by rewrite El|done|done].
  - case_bool_decide; [|done]. eapply nullify_again; [done..|]. apply Hnw. by rewrite Et.
Qed.

Lemma wp_inv_rep a m sender s :
  received s a INV_REP sender (m_requester m) -> sm_address m = a ->
  wp (processInvRepFromL2Cache stack sender m) (fun _ s' => inv n0 s') s.
Proof.
  intros Hrc Ha. unfold processInvRepFromL2Cache. rewrite Ha.
  apply wp_bind, (wp_lookup n0); [apply Hrc|apply Hrc|]. intros [r|] s1 Hsil Hr; [|by apply wp_fail].
  destruct Hr as (e & Hr & Hadr). pose proof (received_silent _ _ _ _ _ _ Hrc Hsil) as Hrc1.
  assert (El : ln s1 a = entry_line e) by (by apply (received_silent_entry _ _ _ _ _ _ _ _ Hrc Hsil Hr)).
  apply wp_bind, (wp_read _ e); [done|]. apply wp_bind, wp_check; [done|]. intros Hd.
  apply wp_bind, wp_lift; [apply removeSharer_returns|]. intros e1 He1.
  set (e2 := if de_forwarder_id e1 =? sender then setForwarder INVALID_CORE_ID e1 else e1).
  change (if getNumSharers e2 =? 0 then setDState DirectoryState.UNCACHED e2 else e2) with (unshared e2).
  assert (Hc : coherent (entry_line e)).
  { destruct Hrc1 as [_ _ _ (t & Hi & _)]. rewrite <- El. by apply (line_inv_coherent _ (qu s1 a) t). }
  destruct (unshared_shrunk e sender e1 e2 Hc He1) as [Hsk Hadr2];
    [unfold e2; by destruct (_ =? _)..|].
  destruct (shrunk_not_owned _ _ _ Hsk) as [Hno Hnm].
  apply wp_bind. eapply wp_returned; [done|by left|done|done|congruence|done| |].
  { intros _ _ _ _ E. rewrite E in Hd. done. }
  intros s2 Hb2 Ho2 Hok2 Hq2 Hl2 Ht2 Hr2.
  apply wp_bind, wp_size. destruct (qu s2 a) as [|h q] eqn:Eq.
  { apply wp_ret. eapply inv_split; [done|..|done]. done. }
  cbn [length]. destruct (Z.ltb_spec 0 (Z.of_nat (S (length q)))); [|lia].
  apply wp_bind, wp_gets, wp_bind.
  assert (Hi2 := Hok2). unfold ok_at in Hi2. rewrite Eq in Hi2.
  eapply wp_wake; [apply Hrc|done|done|done|done|].
  intros h' s3 Hsame Haw Hok3 Ht3 Hd3. destruct Hrc1 as [_ _ _ (t & _ & _ & Et)].
  eapply (wp_inv_dispatch a h' q _ r (unshared e2) t); [done|done|done|by rewrite Hd3|congruence|].
  by rewrite Ht3, Ht2, Et.
Qed.

(** An operation that the automaton does not notice keeps the line at work. *)
Lemma at_work_unnoticed s s' a h q :
  at_work n0 s a h q -> ok_at n0 s a -> unnoticed n0 s s' ->
  at_work n0 s' a h q /\ ok_at n0 s' a /\ tr n0 s' a = tr n0 s a.
Proof.
  intros Haw Hok (Hb & _ & K). split_and!; [|by eapply kept_ok|apply K].
  eapply at_work_kept; [done|done|apply K|]. intros b _ _. apply K.
Qed.

(** The flushed data is kept with the request. *)
Lemma wp_keep_data a h q d s :
  at_work n0 s a h q -> ok_at n0 s a ->
  wp (req_update_front a (req_setDataBuf d)) (fun _ s' => inv n0 s') s.
Proof.
  intros [Ha Hb Ho Hq] Hok. apply (wp_update_front n0 a _ h q); [done..|].
  intros s1 (Hb1 & Ed & Es & Eq & K1). apply (inv_split n0 s1 a); [done| |].
  - unfold ok_at, ln, tr in *. rewrite Hq in Hok. rewrite Ed, Es, Eq. eapply line_inv_same; [|exact Hok].
    constructor; [done|reflexivity].
  - eapply kept_others; [|done]. intros b _ Hne. by apply K1.
Qed.

Lemma wp_flush_dispatch a h q l r e x m s :
  at_work n0 s a h q -> ok_at n0 s a -> shrunk l x (entry_line e) ->
  read_ref (m_dram_directory_cache s) r = Ok e -> de_address e = a -> sm_address m = a ->
  m_wait_for_data h = false -> (req_type h = SH_REQ -> asked_wb (tr n0 s a) = ∅) ->
  wp (flush_dispatch stack r e m h) (fun _ s' => inv n0 s') s.
Proof.
  intros Haw Hok Hsk Hr Hadr Hm Hw Hwb. unfold flush_dispatch. rewrite Hm.
  assert (Hi : line_inv (ln s a) (h :: q) (tr n0 s a)) by (rewrite <- (aw_queue _ _ _ _ _ Haw); done).
  destruct (front_type _ _ _ _ Hi) as [Et|[Et|[Et|Et]]]; rewrite Et.
  - by eapply ex_again.
  - destruct (Z.eqb_spec (getNumSharers e) 0) as [E|]; [|by eapply wp_keep_data].
    eapply wp_woken_upgrade; try done. by eapply shrunk_uncached.
  - apply wp_bind, (wp_sendDataToDram n0); [apply Haw|]. intros s1 Hs1.
    destruct (at_work_unnoticed _ _ _ _ _ Haw Hok Hs1) as (Haw1 & Hok1 & Ht1).
    eapply sh_again; try done. rewrite Ht1. auto.
  - apply wp_bind, (wp_sendDataToDram n0); [apply Haw|]. intros s1 Hs1.
    destruct (at_work_unnoticed _ _ _ _ _ Haw Hok Hs1) as (Haw1 & Hok1 & Ht1).
    by eapply nullify_again.
Qed.

Lemma wp_flush_rep a m sender s :
  received s a FLUSH_REP sender (m_requester m) -> sm_address m = a ->
  wp (processFlushRepFromL2Cache stack sender m) (fun _ s' => inv n0 s') s.
Proof.
  intros Hrc Ha. unfold processFlushRepFromL2Cache. rewrite Ha. apply wp_bind, wp_gets.
  apply wp_bind, (wp_lookup n0); [apply Hrc|apply Hrc|]. intros [r|] s1 Hsil Hr; [|by apply wp_fail].
  destruct Hr as (e & Hr & Hadr). pose proof (received_silent _ _ _ _ _ _ Hrc Hsil) as Hrc1.
  assert (El : ln s1 a = entry_line e) by (by apply (received_silent_entry _ _ _ _ _ _ _ _ Hrc Hsil Hr)).
  destruct (rc_line _ _ _ _ _ Hrc1) as (t & Hi & Hp & Et).
  apply wp_bind, (wp_read _ e); [done|].
  apply wp_bind, wp_lift; [apply hasSharer_returns|]. intros c _. apply wp_bind, wp_check; [done|]. intros _.
  apply wp_bind, wp_lift; [apply removeSharer_returns|]. intros e1 He1.
  apply wp_bind, wp_lift; [apply setOwner_returns|]. intros e2 He2.
  assert (Hc : coherent (entry_line e)) by (rewrite <- El; by eapply line_inv_coherent).
  cbn in He2. injection He2 as <-. set (e2 := mkEntry _ _ _ _ _ _).
  destruct (unshared_shrunk e sender e1 e2 Hc He1) as [Hsk Hadr2]; [done..|].
  apply wp_bind, (wp_mono _ (fun e3 s2 => s2 = s1 /\ e3 = unshared e2)).
  { unfold unshared. destruct (_ =? 0); [by apply wp_ret|]. apply wp_bind, wp_check; [done|]. intros _.
    by apply wp_ret. }
  intros e3 s' [-> ->].
  apply wp_bind. eapply wp_returned; [done|by right|done|done|congruence|done| |].
  { intros h q Eq Hw. rewrite Eq in Hi. rewrite (flush_not_waiting _ _ _ _ _ _ Hi Hp) in Hw. done. }
  intros s2 Hb2 Ho2 Hok2 Hq2 Hl2 Ht2 Hr2.
  apply wp_bind, wp_size. destruct (qu s2 a) as [|h q] eqn:Eq.
  { apply (wp_sendDataToDram n0); [done|]. intros s3 (Hb3 & _ & K3). apply (inv_split n0 s3 a); [done| |].
    - by eapply kept_ok.
    - eapply kept_others; [|done]. intros b _ _. apply K3. }
  cbn [length negb]. destruct (Z.eqb_spec (Z.of_nat (S (length q))) 0); [lia|].
  assert (Hi2 := Hok2). unfold ok_at in Hi2. rewrite Eq in Hi2. rewrite <- Hq2 in Hi.
  apply wp_bind. eapply wp_wake; [apply Hrc|done|done|done|done|].
  intros h' s3 (Hs1 & _ & Hs3 & _) Haw Hok3 Ht3 Hd3.
  eapply (wp_flush_dispatch a h' q _ r (unshared e2)); [done|done|done|by rewrite Hd3|congruence|done| |].
  - rewrite Hs3. apply (flush_not_waiting _ _ _ _ _ _ Hi Hp).
  - rewrite Hs1, Ht3, Ht2, Et. apply (flush_no_wb _ _ _ _ _ _ Hi Hp).
Qed.

Lemma wb_entry_line e e' :
  setOwner INVALID_CORE_ID e = Ok e' ->
  entry_line (setDState DirectoryState.SHARED e') =
    mkLine DirectoryState.SHARED (l_sharers (entry_line e)) INVALID_CORE_ID /\
  de_address e' = de_address e.
Proof. cbn. by intros [= <-]. Qed.

Lemma wp_wb_rep a m sender s :
  received s a WB_REP sender (m_requester m) -> sm_address m = a ->
  wp (processWbRepFromL2Cache stack sender m) (fun _ s' => inv n0 s') s.
Proof.
  intros Hrc Ha. unfold processWbRepFromL2Cache. rewrite Ha. apply wp_bind, wp_gets.
  apply wp_bind, (wp_lookup n0); [apply Hrc|apply Hrc|]. intros [r|] s1 Hsil Hr; [|by apply wp_fail].
  destruct Hr as (e & Hr & Hadr). pose proof (received_silent _ _ _ _ _ _ Hrc Hsil) as Hrc1.
  assert (El : ln s1 a = entry_line e) by (by apply (received_silent_entry _ _ _ _ _ _ _ _ Hrc Hsil Hr)).
  destruct Hrc1 as [Hai Hb1 Ho1 (t & Hi & Hp & Et)].
  apply wp_bind, (wp_read _ e); [done|].
  apply wp_bind, wp_lift; [apply hasSharer_returns|]. intros c _. apply wp_bind, wp_check; [done|]. intros _.
  apply wp_bind, wp_lift; [apply setOwner_returns|]. intros e1 He1.
  apply wb_entry_line in He1 as [El1 Ha1].
  apply wp_bind. eapply (wp_write n0); [done|done|by rewrite Hadr|done|].
  intros s2 Hb2 Hq2 Hl2 K2 Hr2. rewrite Hadr, El1 in Hl2. rewrite Hadr in K2.
  apply wp_bind, wp_size. rewrite (same_qs_qu _ _ _ Hq2). destruct (qu s1 a) as [|h q] eqn:Eq.
  { by apply wp_fail. }
  cbn [length negb]. destruct (Z.eqb_spec (Z.of_nat (S (length q))) 0); [lia|].
  destruct (wb_reply_inv _ _ _ _ _ _ (ln s2 a) Hi Hp) as (Hi2 & Hw & Hty & Hwb);
    [by rewrite Hl2, El|by rewrite Hl2..|].
  apply wp_bind. eapply wp_wake; [done|done|by eapply kept_others|by rewrite (same_qs_qu _ _ _ Hq2)| |].
  { by rewrite (same_qs_tr _ _ _ _ Hq2), Et. }
  intros h' s3 (Hs1 & _ & Hs3 & _) Haw Hok3 Ht3 Hd3.
  apply wp_bind, wp_check; [done|]. intros _.
  eapply sh_again; [done|done|by rewrite Hs1|by rewrite Hs3|].
  by rewrite Ht3, (same_qs_tr _ _ _ _ Hq2), Et.
Qed.

Lemma wp_dram_rep a m sender s :
  received s a DRAM_READ_REP sender (m_requester m) -> sm_address m = a ->
  wp (processDRAMReply stack sender m) (fun _ s' => inv n0 s') s.
Proof.
  intros Hrc Ha. unfold processDRAMReply. rewrite Ha.
  apply wp_bind, wp_size, wp_bind, wp_check; [done|]. intros _.
  destruct (rc_line _ _ _ _ _ Hrc) as (t & Hi & Hp & Et).
  destruct (dram_grantable _ _ _ _ _ Hi Hp) as (h & q & Eq & Hg).
  apply wp_bind, (wp_front a h q); [done|].
  apply wp_bind, (wp_lookup n0); [apply Hrc|apply Hrc|]. intros [r|] s1 Hsil Hr; [|by apply wp_fail].
  destruct Hr as (e & Hr & Hadr). pose proof (received_silent _ _ _ _ _ _ Hrc Hsil) as Hrc1.
  assert (El : ln s1 a = entry_line e) by (by apply (received_silent_entry _ _ _ _ _ _ _ _ Hrc Hsil Hr)).
  destruct (silent_kept n0 _ _ a Hsil (rc_addr _ _ _ _ _ Hrc)) as (El1 & Eq1 & Et1).
  apply wp_bind, (wp_read _ e); [done|]. apply wp_bind.
  apply (wp_mono _ (fun reply s' => s' = s1 /\ grantable (ln s1 a) h q (tr n0 s1 a) reply)).
  { rewrite El1, Et1, Et. rewrite El1 in El. rewrite El in Hg |- *.
    destruct (req_type h) eqn:Ety; try (by apply wp_fail).
    - apply wp_bind, wp_check; [done|]. intros _. apply wp_ret. split; [done|]. apply Hg; [intros E; congruence|done].
    - apply wp_bind, wp_check; [done|]. intros Hd. apply wp_ret. split; [done|]. apply Hg; [|intros [|]; congruence].
      intros _. apply orb_true_iff in Hd as [Hd|Hd]; apply bool_decide_eq_true in Hd;
        [left; rewrite bool_decide_false by congruence|right; rewrite bool_decide_true by done]; done.
    - apply wp_ret. split; [done|]. apply Hg; [intros E; congruence|done]. }
  intros reply s' [-> Hgr].
  apply wp_bind, wp_lift; [by destruct (m_where m)|]. intros w _.
  apply wp_bind, wp_gets, wp_bind, (wp_sendMsg n0); [apply Hrc1|by eapply grant_legal|].
  intros s2 Hb2 Ed2 Eqs2 Et2 K2.
  apply wp_bind, (wp_sendDataToNUCA n0); [done|]. intros s3 (Hb3 & Ed3 & K3).
  destruct (Hnext (length (h :: q))) as [Hn _]. eapply Hn; [|done|].
  - split; [apply Hrc|done| |].
    + eapply kept_others; [|apply (rc_others _ _ _ _ _ Hrc1)]. intros b _ Hne.
      eapply kept_trans; [by apply K2|apply K3].
    + destruct (K3 a) as (_ & Eq3 & _). rewrite Eq3. unfold qu. rewrite Eqs2. rewrite <- Eq. done.
  - destruct (K3 a) as (El3 & _ & Et3). rewrite El3, Et3, Et2. unfold ln. rewrite Ed2.
    by eapply grant_settles.
Qed.

(** *** Delivery *)

Lemma wp_handle_l2 a m sender s :
  received s a (m_msg_type m) sender (m_requester m) -> sm_address m = a ->
  wp (handleMsgFromL2Cache stack sender m) (fun _ s' => inv n0 s') s.
Proof.
  intros Hrc Ha. unfold handleMsgFromL2Cache. apply wp_bind, wp_gets. rewrite Ha.
  apply wp_bind, (wp_lookup n0); [apply Hrc|apply Hrc|]. intros o s1 Hsil _.
  pose proof (received_silent _ _ _ _ _ _ Hrc Hsil) as Hrc1.
  destruct (m_msg_type m) eqn:Et; try (by apply wp_fail).
  - eapply wp_submit; [done|done|done|by left|].
    intros r s2 Haw Hok Hty (Hw & _) _. by eapply ex_again.
  - eapply wp_submit; [done|done|done|by right; left|].
    intros r s2 Haw Hok Hty (Hw & _) Hwb. by eapply sh_again.
  - eapply wp_submit; [done|done|done|by right; right|].
    intros r s2 Haw Hok Hty (Hw & _) _. by eapply upgrade_again.
  - by eapply wp_inv_rep.
  - by eapply wp_flush_rep.
  - by eapply wp_wb_rep.
Qed.

Lemma wp_handle_dram a m sender s :
  received s a (m_msg_type m) sender (m_requester m) -> sm_address m = a ->
  wp (handleMsgFromDRAM stack sender m) (fun _ s' => inv n0 s') s.
Proof.
  intros Hrc Ha. unfold handleMsgFromDRAM.
  destruct (m_msg_type m) eqn:Et; try (by apply wp_fail). by eapply wp_dram_rep.
Qed.

Lemma delete_buffer_same r : same_req r (delete_buffer r).
Proof. unfold delete_buffer. by destruct (m_data_buf _). Qed.

Lemma queue_of_deleted q a : queue_of (delete_buffers q) a = map delete_buffer (queue_of q a).
Proof. unfold queue_of, delete_buffers. rewrite lookup_fmap. by destruct (q !! a). Qed.

(** Deleting the data of the message changes nothing that the invariant reads. *)
Lemma delete_buffers_inv s :
  inv n0 s -> inv n0 (with_queues (delete_buffers (m_dram_directory_req_queue_list s)) s).
Proof.
  intros [(Hw & Hl & Ha & He) H]. split; [split_and!; try done|].
  - intros a r. cbn. rewrite queue_of_deleted. intros (r' & -> & Hr')%list_elem_of_fmap.
    rewrite <- (Ha a r' Hr'). unfold delete_buffer. by destruct (m_data_buf _).
  - intros a. cbn. unfold delete_buffers. rewrite lookup_fmap. specialize (He a).
    destruct (_ !! a) as [[|]|]; cbn; congruence.
  - intros b Hb. specialize (H b Hb). unfold ok_at, qu in *. cbn. rewrite queue_of_deleted.
    eapply line_inv_same; [|exact H]. rewrite <- (list_fmap_id (queue_of _ b)) at 1.
    apply Forall2_fmap, Forall_Forall2_diag, Forall_forall. intros r _. apply delete_buffer_same.
Qed.

Lemma wp_handleMsgFromNetwork a m sender t s :
  received s a (m_msg_type m) sender (m_requester m) -> sm_address m = a ->
  wp (handleMsgFromNetwork stack sender t m) (fun _ s' => inv n0 s') s.
Proof.
  intros Hrc Ha. unfold handleMsgFromNetwork. apply wp_bind, wp_modify, wp_bind.
  assert (Hrc' : received (with_time t s) a (m_msg_type m) sender (m_requester m)) by (by destruct Hrc).
  apply (wp_mono _ (fun _ s' => inv n0 s')).
  { destruct (m_sender_mem_component m); try (by apply wp_fail);
      [by eapply wp_handle_l2|by eapply wp_handle_dram]. }
  intros [] s1 Hinv. destruct (_ <? _); [|done]. apply wp_bind, wp_check; [done|]. intros _.
  apply wp_modify. by apply delete_buffers_inv.
Qed.

End handlers.

(** ** Runs of the controller *)

(** What happens at the directory, and the specification: the environment sends what is
    permitted, the directory what is legal. *)
Inductive event :=
| Recv (sender : Z) (m : ShmemMsg)
| Send (p : NetPacket).

Inductive spec_step : net -> event -> net -> Prop :=
| spec_recv n sender m :
    sm_address m <> INVALID_ADDRESS ->
    permitted (n (sm_address m)) (m_msg_type m) sender (m_requester m) ->
    spec_step n (Recv sender m) (receive n sender m)
| spec_send n p :
    legal_packet n p = true -> spec_step n (Send p) (observe_packet n p).

Inductive spec_run : net -> list event -> net -> Prop :=
| spec_nil n : spec_run n [] n
| spec_cons n e n' l n'' : spec_step n e n' -> spec_run n' l n'' -> spec_run n (e :: l) n''.

Definition net0 : net := fun _ => traffic0.

(** Single writer, multiple readers. *)
Definition swmr (n : net) : Prop :=
  forall a w, writer (n a) = Some w -> holders (n a) ⊆ {[w]}.

Lemma swmr_send t m r :
  legal_send t m r = true -> (forall w, writer t = Some w -> holders t ⊆ {[w]}) ->
  forall w, writer (observe_send t m r) = Some w -> holders (observe_send t m r) ⊆ {[w]}.
Proof.
  intros Hl H w. destruct m; cbn; try (by apply H);
    apply andb_true_iff in Hl as [Hl _]; apply bool_decide_eq_true in Hl.
  - intros [= <-]. set_solver.
  - by rewrite Hl.
  - intros [= <-]. set_solver.
Qed.

Lemma swmr_receive t m x rq :
  (forall w, writer t = Some w -> holders t ⊆ {[w]}) ->
  forall w, writer (observe_receive t m x rq) = Some w -> holders (observe_receive t m x rq) ⊆ {[w]}.
Proof.
  intros H w. destruct m; cbn; try (by apply H); unfold resigned; case_decide; try done;
    intros Hw; specialize (H w Hw); set_solver.
Qed.

(** The specification keeps the discipline. *)
Lemma spec_step_swmr n e n' : spec_step n e n' -> swmr n -> swmr n'.
Proof.
  intros [n1 sender m _ _|n1 p Hl] H a w.
  - unfold receive. case_decide; [apply swmr_receive|]; apply H.
  - unfold observe_packet, legal_packet in *. destruct (p_receiver p) as [r|]; [|apply H].
    case_decide as Ha; [|apply H]. subst a. apply swmr_send; [done|apply H].
Qed.

Lemma spec_run_swmr n l n' : spec_run n l n' -> swmr n -> swmr n'.
Proof. induction 1; eauto using spec_step_swmr. Qed.

Lemma spec_run_app n l1 n' l2 n'' : spec_run n l1 n' -> spec_run n' l2 n'' -> spec_run n (l1 ++ l2) n''.
Proof. induction 1; cbn; [done|]. intros. econstructor; eauto. Qed.

Lemma spec_run_sends n l : legal_replay n l = true -> spec_run n (map Send l) (replay n l).
Proof.
  revert n. induction l as [|p l IH]; intros n; cbn; [constructor|].
  intros [Hp Hl]%andb_true_iff. econstructor; [by constructor|by apply IH].
Qed.

Section runs.
Context {N : Type} `{!NucaCache N} {Hnuca : @NucaReturns N _} (stack : Stack).
Implicit Types s : DramDirectoryCntlr N.

(** A run: the constructor, then messages as the environment may send them. [reachable l n s]:
    with the events [l] the traffic is [n] and the controller is in state [s]. *)
Inductive reachable : list event -> net -> DramDirectoryCntlr N -> Prop :=
| reach_init core_id ahl nuca total assoc bs maxn maxhw ty acc trap proto junk ptrs je s :
    0 < assoc <= total -> in_range 32 total -> 0 < bs < 2 ^ 32 ->
    DramDirectoryCntlr_new core_id ahl nuca total assoc bs maxn maxhw ty acc trap proto junk ptrs je
      = Ok s ->
    reachable [] net0 s
| reach_step l n s sender t m s' :
    reachable l n s -> sm_address m <> INVALID_ADDRESS ->
    permitted (n (sm_address m)) (m_msg_type m) sender (m_requester m) ->
    handleMsgFromNetwork stack sender t m (with_sent [] s) = Ok (tt, s') ->
    reachable (l ++ Recv sender m :: map Send (sent s')) (replay (receive n sender m) (sent s')) s'.

Lemma inv_forget n s : inv n s -> inv (replay n (sent s)) (with_sent [] s).
Proof. intros [(H1 & H2 & H3 & H4) H]. by split. Qed.

Lemma deliver_received n s sender m :
  inv n (with_sent [] s) -> sm_address m <> INVALID_ADDRESS ->
  permitted (n (sm_address m)) (m_msg_type m) sender (m_requester m) ->
  received (receive n sender m) (with_sent [] s) (sm_address m) (m_msg_type m) sender (m_requester m).
Proof.
  intros [(H1 & H2 & H3 & H4) H] Ha Hp. split; [done|done| |].
  - intros b Hb Hne. specialize (H b Hb). unfold ok_at, tr in *. cbn in *. unfold receive.
    by rewrite decide_False.
  - exists (n (sm_address m)). split_and!; [by apply H|done|]. unfold tr, receive. cbn.
    by rewrite decide_True.
Qed.

Lemma deliver_inv n s sender t m :
  inv n (with_sent [] s) -> sm_address m <> INVALID_ADDRESS ->
  permitted (n (sm_address m)) (m_msg_type m) sender (m_requester m) ->
  wp (handleMsgFromNetwork stack sender t m) (fun _ s' => inv (receive n sender m) s')
    (with_sent [] s).
Proof.
  intros Hi Ha Hp. by apply (wp_handleMsgFromNetwork _ _ (sm_address m)); [apply deliver_received|].
Qed.

Lemma initial_inv core_id ahl nuca total assoc bs maxn maxhw ty acc trap proto junk ptrs je s :
  0 < assoc <= total -> in_range 32 total -> 0 < bs < 2 ^ 32 ->
  DramDirectoryCntlr_new core_id ahl nuca total assoc bs maxn maxhw ty acc trap proto junk ptrs je = Ok s ->
  inv net0 (with_sent [] s).
Proof.
  intros Ha Ht Hb H. unfold DramDirectoryCntlr_new in H. inv_res.
  apply DramDirectoryCache_new_wf in E as [Hw Hl]; [|done..]. split.
  - split_and!; [done|done| |].
    + intros b r. unfold queue_of. cbn. rewrite lookup_empty. by intros ?%not_elem_of_nil.
    + intros b. cbn. by rewrite lookup_empty.
  - intros b _. unfold ok_at, ln, qu, tr, queue_of. cbn. rewrite Hl, lookup_empty. cbn.
    split; cbn; try done; apply NoDup_nil_2.
Qed.

(** Along every run the invariant holds and the specification takes the same events. *)
Lemma reachable_inv l n s : reachable l n s -> inv n (with_sent [] s) /\ spec_run net0 l n.
Proof.
  induction 1 as [|l n s sender t m s' Hr [Hi Hs] Ha Hp Hh].
  - split; [by eapply initial_inv|constructor].
  - pose proof (deliver_inv n s sender t m Hi Ha Hp) as Hd. unfold wp in Hd. rewrite Hh in Hd.
    split; [by apply inv_forget|]. eapply spec_run_app; [done|].
    econstructor; [by constructor|]. apply spec_run_sends. by destruct Hd as [(_ & Hl & _) _].
Qed.

(** C5: The directory controller implements the specification: whatever the configuration and
    whatever permitted messages it receives, for any number of lines and with any
    replacements of directory entries in between, the events of a run (messages received
    and packets sent, in order) are a run of the specification, in which exclusive copies
    and upgrades are granted only when nobody else holds a copy, shared copies only when
    nobody may write, and every grant goes to the core that has waited longest. *)
Theorem directory_refines_spec l n s : reachable l n s -> spec_run net0 l n.
Proof. intros H. by apply reachable_inv in H as [_ ?]. Qed.

(** C6: In every reachable state of the directory controller a core that may write a line is
    the only one that holds a copy of it, and the directory entry of the line lists every
    core that holds a copy. *)
Theorem directory_swmr l n s a :
  reachable l n s -> a <> INVALID_ADDRESS ->
  (forall w, writer (n a) = Some w -> holders (n a) ⊆ {[w]}) /\
  (forall x, x ∈ holders (n a) -> x ∈ l_sharers (line_at (m_dram_directory_cache s) a)).
Proof.
  intros [[_ Hi] Hs]%reachable_inv Ha. split.
  - apply (spec_run_swmr _ _ _ Hs). intros b w [=].
  - specialize (Hi a Ha). apply line_inv_tracked in Hi as (_ & H & _). exact H.
Qed.

(** C7: Processing a message always returns: the functions that process a request call each
    other through [processNextReqFromL2Cache], once per request of the queue of the line,
    and the recursion ends for every permitted message in every reachable state. *)
Theorem directory_handler_terminates l n s sender t m :
  reachable l n s -> sm_address m <> INVALID_ADDRESS ->
  permitted (n (sm_address m)) (m_msg_type m) sender (m_requester m) ->
  handleMsgFromNetwork stack sender t m (with_sent [] s) <> Err Diverges.
Proof.
  intros [Hi _]%reachable_inv Ha Hp E. pose proof (deliver_inv n s sender t m Hi Ha Hp) as Hd.
  unfold wp in Hd. by rewrite E in Hd.
Qed.

End runs.
