(* ===== verification/DirRuns.v ===== *)
(** * Concrete runs of the directory controller

    The runs of [DirRefine] made executable, and what one of them shows: flushed data that
    an upgrade keeps is used after the message that carried it was deleted. *)

From stdpp Require Import base tactics list numbers gmap sets strings.
From Stdlib Require Import ZArith Lia.
From S2P Require Import Prelude Utils CacheBase CacheBlock Directory DirCntlr DirProps DirRefine.
Local Open Scope Z_scope.

#[global] Instance permitted_dec t m x rq : Decision (permitted t m x rq).
Proof. destruct m; cbv beta iota delta [permitted]; apply _. Defined.

Section drive.
Context {N : Type} `{!NucaCache N} (stack : Stack).

(** A message that arrives: who sent it, when, and what it is. *)
Record arrival := mkArrival { ar_sender : Z; ar_time : Z; ar_msg : ShmemMsg }.

Definition admissible (n : net) (x : arrival) : bool :=
  bool_decide (sm_address (ar_msg x) <> INVALID_ADDRESS) &&
  bool_decide (permitted (n (sm_address (ar_msg x))) (m_msg_type (ar_msg x)) (ar_sender x)
                 (m_requester (ar_msg x))).

(** The run over a list of arrivals; [None] when one of them is not permitted. *)
Fixpoint drive (n : net) (s : DramDirectoryCntlr N) (l : list arrival)
  : option (res (net * DramDirectoryCntlr N)) :=
  match l with
  | [] => Some (Ok (n, s))
  | x :: l' =>
      if admissible n x then
        match handleMsgFromNetwork stack (ar_sender x) (ar_time x) (ar_msg x) (with_sent [] s) with
        | Ok (_, s') => drive (replay (receive n (ar_sender x) (ar_msg x)) (sent s')) s' l'
        | Err f => Some (Err f)
        end
      else None
  end.

Lemma admissible_spec n x :
  admissible n x = true -> sm_address (ar_msg x) <> INVALID_ADDRESS /\
  permitted (n (sm_address (ar_msg x))) (m_msg_type (ar_msg x)) (ar_sender x) (m_requester (ar_msg x)).
Proof. by intros [?%bool_decide_eq_true ?%bool_decide_eq_true]%andb_true_iff. Qed.

Lemma drive_reachable ev n s l n' s' :
  reachable stack ev n s -> drive n s l = Some (Ok (n', s')) ->
  exists ev', reachable stack ev' n' s'.
Proof.
  revert ev n s. induction l as [|x l IH]; intros ev n s Hr; cbn; [intros [= <- <-]; eauto|].
  destruct (admissible n x) eqn:Ea; [|done]. apply admissible_spec in Ea as [Ha Hp].
  destruct (handleMsgFromNetwork _ _ _ _ _) as [[[] s1]|f] eqn:Eh; [|done].
  apply IH with (ev ++ Recv (ar_sender x) (ar_msg x) :: map Send (sent s1)). by econstructor.
Qed.

(** A run that ends in a fault ends there in a reachable state. *)
Lemma drive_fault ev n s l f :
  reachable stack ev n s -> drive n s l = Some (Err f) ->
  exists ev' n' s' x, reachable stack ev' n' s' /\ admissible n' x = true /\
    handleMsgFromNetwork stack (ar_sender x) (ar_time x) (ar_msg x) (with_sent [] s') = Err f.
Proof.
  revert ev n s. induction l as [|x l IH]; intros ev n s Hr; cbn; [done|].
  destruct (admissible n x) eqn:Ea; [|done].
  destruct (handleMsgFromNetwork _ _ _ _ _) as [[[] s1]|g] eqn:Eh.
  - apply admissible_spec in Ea as [Ha Hp].
    apply IH with (ev ++ Recv (ar_sender x) (ar_msg x) :: map Send (sent s1)). by econstructor.
  - intros [= ->]. eauto 10.
Qed.

End drive.

(** ** A system without NUCA cache *)

Module Example.

Definition garbage : Stack := mkStack [] false 0.

#[global] Instance no_nuca : NucaCache Empty_set := {
  nuca_read := fun n => match n with end;
  nuca_write := fun n => match n with end
}.
#[global] Instance no_nuca_returns : @NucaReturns Empty_set _.
Proof. split; intros []. Qed.

Definition ahl : AddressHomeLookup := mkAHL 6 63 [0] 1 64.
Definition sample_block : data_buf := Live (replicate 64 7).
Definition start (protocol : string) : res (DramDirectoryCntlr Empty_set) :=
  DramDirectoryCntlr_new 0 ahl None 4 2 64 4 4 "full_map" 1000 0 protocol (fun _ => 0) (fun _ => 0) 0.

Definition from_cache (ty : msg_t) (core a : Z) (d : data_buf) (len : Z) : arrival :=
  mkArrival core 0 (ShmemMsg_new ty MemComponent.LAST_LEVEL_CACHE MemComponent.TAG_DIR core a d len DATA).
Definition core_msg (ty : msg_t) (core a : Z) : arrival := from_cache ty core a NULL 0.
Definition data_reply (ty : msg_t) (core a : Z) : arrival := from_cache ty core a sample_block 64.
Definition dram_reply (core a : Z) : arrival :=
  mkArrival 0 0 (setWhere HitWhere.DRAM
    (ShmemMsg_new DRAM_READ_REP MemComponent.DRAM MemComponent.TAG_DIR core a sample_block 64 DATA)).

(** Two cores share a line, both ask for an upgrade and a third for a copy. The upgrade of
    core 1 finds its copy gone; core 0 is flushed while core 2 is invalidated. *)
Definition upgrade_race : list arrival :=
  [core_msg SH_REQ 0 64; dram_reply 0 64; core_msg SH_REQ 1 64; data_reply WB_REP 0 64;
   core_msg UPGRADE_REQ 0 64; core_msg SH_REQ 2 64; core_msg UPGRADE_REQ 1 64; core_msg INV_REP 1 64;
   data_reply WB_REP 0 64; data_reply FLUSH_REP 0 64; core_msg INV_REP 2 64].

Definition run_from (protocol : string) (l : list arrival) : option (res (net * DramDirectoryCntlr Empty_set)) :=
  match start protocol with Ok s => drive garbage net0 s l | Err f => Some (Err f) end.

Lemma start_reachable protocol s : start protocol = Ok s -> reachable garbage [] net0 s.
Proof. intros H. eapply reach_init; [| | |exact H]; unfold in_range; lia. Qed.

Lemma upgrade_race_faults : match run_from "mesi" upgrade_race with Some (Err UseAfterFree) => True | _ => False end.
Proof. vm_compute. exact I. Qed.

(** C17: The data of a flush outlives its message: there are a reachable state of the
    controller and a permitted message whose processing reads a data buffer that has been
    deleted. An upgrade whose requester lost its copy keeps the pointer to the data of the
    first reply, [MemoryManager::handleMsgFromNetwork] deletes that data, and the reply of the last
    sharer sends it. *)
Theorem flushed_data_outlives_message :
  exists ev n (s : DramDirectoryCntlr Empty_set) x, reachable garbage ev n s /\ admissible n x = true /\
    handleMsgFromNetwork garbage (ar_sender x) (ar_time x) (ar_msg x) (with_sent [] s) = Err UseAfterFree.
Proof.
  pose proof upgrade_race_faults as H. unfold run_from in H. destruct (start "mesi") as [s|f] eqn:Es; [|done].
  destruct (drive garbage net0 s upgrade_race) as [[|f]|] eqn:Ed; [done| |done].
  destruct f; try done. eapply drive_fault; [by eapply start_reachable|done].
Qed.

(** A line is read by one core, shared by a second, and upgraded by that one. *)
Definition sharing : list arrival :=
  [core_msg SH_REQ 0 64; dram_reply 0 64; core_msg SH_REQ 1 64; data_reply WB_REP 0 64;
   core_msg UPGRADE_REQ 1 64; core_msg INV_REP 0 64].

Lemma sharing_run :
  exists ev n s, reachable (N := Empty_set) garbage ev n s /\ writer (n 64) = Some 1 /\
    1 ∈ holders (n 64).
Proof.
  assert (H : match run_from "mesi" sharing with
              | Some (Ok (n, _)) => writer (n 64) = Some 1 /\ bool_decide (1 ∈ holders (n 64)) = true
              | _ => False end) by (vm_compute; auto).
  unfold run_from in H. destruct (start "mesi") as [s|f] eqn:Es; [|done].
  destruct (drive garbage net0 s sharing) as [[[n s']|f]|] eqn:Ed; [|done..]. destruct H as [Hw Hh].
  destruct (drive_reachable garbage [] net0 s sharing n s') as [ev Hr]; [by eapply start_reachable|done|].
  exists ev, n, s'. split_and!; [done|done|by apply bool_decide_eq_true in Hh].
Qed.

Lemma directory_refines_spec_witness : exists ev n, spec_run net0 ev n /\ writer (n 64) = Some 1.
Proof.
  destruct sharing_run as (ev & n & s & Hr & Hw & _). exists ev, n.
  split; [apply (directory_refines_spec garbage ev n s Hr)|exact Hw].
Defined.

Lemma directory_swmr_witness :
  exists n s, writer (n 64) = Some 1 /\ holders (n 64) ⊆ {[1]} /\
    1 ∈ l_sharers (line_at (m_dram_directory_cache (N := Empty_set) s) 64).
Proof.
  destruct sharing_run as (ev & n & s & Hr & Hw & Hh). exists n, s.
  assert (Ha : 64 <> INVALID_ADDRESS) by done.
  destruct (directory_swmr garbage ev n s 64 Hr Ha) as [H1 H2].
  split; [exact Hw|split; [exact (H1 1 Hw)|exact (H2 1 Hh)]].
Defined.

Lemma directory_handler_terminates_witness :
  exists s, handleMsgFromNetwork (N := Empty_set) garbage 1 0 (ar_msg (core_msg INV_REP 1 64)) (with_sent [] s)
    <> Err Diverges.
Proof.
  destruct sharing_run as (ev & n & s & Hr & Hw & Hh). exists s.
  apply (directory_handler_terminates garbage ev n s 1 0 (ar_msg (core_msg INV_REP 1 64)) Hr); [done|exact Hh].
Defined.

End Example.
