(* ===== verification/CntlrState.v ===== *)
(** * State of the cache controllers

    [parametric_dram_directory_msi/cache_cntlr.h]: the controllers of all caches of all
    cores ([CacheCntlr]) with the state that the controllers of a shared cache have in common
    ([CacheMasterCntlr]), the locks of the cache sets ([misc/setlock.cc]) and the auxiliary
    tag directories ([cache_atd.cc]). The operations are in a state and error monad; the
    operations that may wait, for a lock or a semaphore, in a monad of resumptions. The
    latency breakdown of [ShmemPerf] is not modelled, as in the directory controller. *)

From stdpp Require Import base tactics list numbers gmap strings.
From Stdlib Require Import ZArith Lia.
From S2P Require Import Prelude Utils CacheBase CacheBlock CacheSet Cache Timing Contention Directory DirCntlr Prefetch.
Local Open Scope Z_scope.
Local Open Scope mach_scope.

(** ** Types *)

Module Core.
Inductive mem_op_t := READ | READ_EX | WRITE.
#[global] Instance mem_op_t_eq_dec : EqDecision mem_op_t.
Proof. solve_decision. Defined.
Inductive lock_signal_t := NONE | LOCK | UNLOCK.
#[global] Instance lock_signal_t_eq_dec : EqDecision lock_signal_t.
Proof. solve_decision. Defined.
End Core.

Module Transition.
Inductive reason_t := CORE_RD | CORE_WR | CORE_RDEX | UPGRADE | EVICT | BACK_INVAL | COHERENCY.
#[global] Instance reason_t_eq_dec : EqDecision reason_t.
Proof. solve_decision. Defined.
End Transition.

Module PrefetchType.
Inductive prefetch_type_t := NONE | OWN | OTHER.
#[global] Instance prefetch_type_t_eq_dec : EqDecision prefetch_type_t.
Proof. solve_decision. Defined.
End PrefetchType.

Inductive Thread_t := _USER_THREAD | _SIM_THREAD.
#[global] Instance Thread_t_eq_dec : EqDecision Thread_t.
Proof. solve_decision. Defined.

Inductive CacheAccess_t := ACCESS_CACHE_DATA_AND_TAGS | ACCESS_CACHE_DATA | ACCESS_CACHE_TAGS.

(** [HitWhere::where_t(m_mem_component)] and [HitWhere::where_t(m_mem_component + SIBLING)]. *)
Definition where_own (c : MemComponent.component_t) : HitWhere.where_t :=
  match c with
  | MemComponent.L1_ICACHE => HitWhere.L1I
  | MemComponent.L1_DCACHE => HitWhere.L1_OWN
  | MemComponent.L2_CACHE => HitWhere.L2_OWN
  | MemComponent.L3_CACHE => HitWhere.L3_OWN
  | MemComponent.L4_CACHE => HitWhere.L4_OWN
  | _ => HitWhere.WHERE_FIRST
  end.
Definition where_sibling (c : MemComponent.component_t) : HitWhere.where_t :=
  match c with
  | MemComponent.L1_DCACHE => HitWhere.L1_SIBLING
  | MemComponent.L2_CACHE => HitWhere.L2_SIBLING
  | MemComponent.L3_CACHE => HitWhere.L3_SIBLING
  | MemComponent.L4_CACHE => HitWhere.L4_SIBLING
  | _ => HitWhere.WHERE_FIRST
  end.

(** [CachePerfModel::getLatency] of the parallel and the sequential model. *)
Definition perf_getLatency (enabled sequential : bool) (data tags : ComponentLatency) (access : CacheAccess_t) : Z :=
  if enabled then
    match access with
    | ACCESS_CACHE_TAGS => cl_getLatency tags
    | ACCESS_CACHE_DATA => cl_getLatency data
    | ACCESS_CACHE_DATA_AND_TAGS => if sequential then cl_getLatency data +64 cl_getLatency tags else cl_getLatency data
    end
  else 0.

(** ** Set locks *)

(** One mutex per core that shares the cache: a core holds its own, an exclusive holder all. *)
Module SetLock.

Record t := mkLock { m_locks : list bool; m_core_offset : Z }.

Definition new (core_offset num_sharers : Z) : t := mkLock (replicate (Z.to_nat num_sharers) false) core_offset.

(** A mutex is released by its holder only. *)
Definition release_at (i : nat) (l : list bool) : res (list bool) :=
  h ← rd l i; check h BadUnlock;; wr l i false.

Definition acquire_at (i : nat) (l : t) : res t :=
  m ← wr (m_locks l) i true; Ok (mkLock m (m_core_offset l)).
Definition free_at (i : nat) (l : t) : bool := negb (default false (m_locks l !! i)).

(** The mutexes that the exclusive mode takes, one after the other. *)
Definition mutexes (l : t) : list nat := seq 0 (length (m_locks l)).

(** [acquire_exclusive] and [release_exclusive] without a wait in between. *)
Definition acquire_exclusive (l : t) : res t :=
  fold_loop (fun l i => check (free_at i l) Blocked;; acquire_at i l) l (mutexes l).
Definition release_exclusive (l : t) : res t :=
  m ← fold_loop (fun m i => release_at i m) (m_locks l) (mutexes l); Ok (mkLock m (m_core_offset l)).

Definition shared_free (core_id : Z) (l : t) : bool := free_at (Z.to_nat (core_id - m_core_offset l)) l.
Definition acquire_shared (core_id : Z) (l : t) : res t :=
  check ((m_core_offset l <=? core_id) && (core_id <? m_core_offset l + Z.of_nat (length (m_locks l)))) AssertFailed;;
  acquire_at (Z.to_nat (core_id - m_core_offset l)) l.
Definition release_shared (core_id : Z) (l : t) : res t :=
  check (m_core_offset l <=? core_id) OutOfBounds;;
  m ← release_at (Z.to_nat (core_id - m_core_offset l)) (m_locks l);
  Ok (mkLock m (m_core_offset l)).
Definition downgrade (core_id : Z) (l : t) : res t :=
  m ← fold_loop (fun m i => if Z.of_nat i =? core_id - m_core_offset l then Ok m else release_at i m)
        (m_locks l) (mutexes l);
  Ok (mkLock m (m_core_offset l)).

End SetLock.

(** ** Auxiliary tag directories *)

Module Atd.

Record ATD (P : Type) := mkATD {
  m_cache_base : CacheBase;
  m_sets : gmap Z (CacheSet P);
  m_set_info : option CacheSetInfoLRU;
  loads : Z; stores : Z; load_misses : Z; store_misses : Z;
  loads_constructive : Z; stores_constructive : Z; loads_destructive : Z; stores_destructive : Z
}.
Arguments mkATD {_}.
Arguments m_cache_base {_}.
Arguments m_sets {_}.
Arguments m_set_info {_}.
Arguments loads {_}.
Arguments stores {_}.
Arguments load_misses {_}.
Arguments store_misses {_}.
Arguments loads_constructive {_}.
Arguments stores_constructive {_}.
Arguments loads_destructive {_}.
Arguments stores_destructive {_}.

Section atd.
Context {P : Type} `{!ReplacementPolicy P}.
Implicit Type a : ATD P.

(** The sets sampled by the methods [full] and [2^n+1]. *)
Definition sampled_full (num_sets : Z) : list Z := map Z.of_nat (seq 0 (Z.to_nat num_sets)).
Definition sampled_pow2 (num_sets : Z) : list Z :=
  map (fun i => 2 ^ Z.of_nat i + 1) (filter (fun i => 2 ^ Z.of_nat i < num_sets - 1) (seq 0 64)).

(** The sets sampled at random: the attempts are bounded by ten times the number of sets. *)
Fixpoint sample_random (attempts : nat) (num_sets state num_atds : Z) (acc : list Z) : res (list Z) :=
  if num_atds =? 0 then Ok acc
  else
    match attempts with
    | O => Err LogError
    | S attempts =>
        let '(state, x) := rng_next state in
        set_index ← umod x num_sets;
        if decide (set_index ∈ acc) then
          check (negb (Nat.eqb attempts 0)) LogError;; sample_random attempts num_sets state num_atds acc
        else
          check (negb (Nat.eqb attempts 0)) LogError;; sample_random attempts num_sets state (num_atds - 1) (acc ++ [set_index])
    end.

Inductive sampling := Full | Pow2 | RandomSets (seed count : Z) | OtherSampling.

Definition sampled_sets (how : sampling) (num_sets : Z) : res (list Z) :=
  match how with
  | Full => Ok (sampled_full num_sets)
  | Pow2 => Ok (sampled_pow2 num_sets)
  | RandomSets seed count =>
      check (count <=? num_sets) LogError;;
      sample_random (Z.to_nat (u32 (10 * num_sets))) num_sets (rng_seed seed) count []
  | OtherSampling => Err LogError
  end.

Fixpoint make_atd_sets (create : nat -> res P) (associativity : nat) (l : list Z) : res (gmap Z (CacheSet P)) :=
  match l with
  | [] => Ok ∅
  | i :: l =>
      s ← CacheSet_new PR_L1_CACHE associativity 0 false false;
      p ← create associativity;
      rest ← make_atd_sets create associativity l;
      Ok (<[i := mkCacheSet s p]> rest)
  end.

Definition new (name : string) (num_sets associativity cache_block_size : Z) (create : nat -> res P)
    (info : option CacheSetInfoLRU) (hash : hash_t) (how : sampling) : res (ATD P) :=
  b ← CacheBase_new name num_sets associativity cache_block_size hash None;
  l ← sampled_sets how num_sets;
  sets ← make_atd_sets create (Z.to_nat associativity) l;
  Ok (mkATD b sets info 0 0 0 0 0 0 0 0).

Definition isSampledSet (set_index : Z) a : bool := bool_decide (is_Some (m_sets a !! set_index)).

(** The tag enters the sampled set or becomes the most recently used. *)
Definition touch (tag set_index : Z) a : res (bool * ATD P) :=
  s ← deref (m_sets a !! set_index);
  let put s si := mkATD (m_cache_base a) (<[set_index := s]> (m_sets a)) si (loads a) (stores a) (load_misses a) (store_misses a)
                    (loads_constructive a) (stores_constructive a) (loads_destructive a) (stores_destructive a) in
  o ← set_find (base s) tag;
  match o with
  | Some line_index =>
      '(p, e) ← updateReplacementIndex (base s) line_index (policy s) (mkEnv (m_set_info a) None);
      Ok (true, put (mkCacheSet (base s) p) (set_info e))
  | None =>
      b ← CacheBlockInfo_create PR_L1_CACHE;
      r ← set_insert s (setCState MODIFIED (setTag tag b)) None b false (mkEnv (m_set_info a) None);
      Ok (false, put (ins_set r) (set_info (ins_env r)))
  end.

Definition access (write cache_hit : bool) (address : Z) a : res (ATD P) :=
  '(tag, set_index) ← splitAddress (m_cache_base a) address;
  if isSampledSet set_index a then
    '(atd_hit, a) ← touch tag set_index a;
    let one (b : bool) := if b then 1 else 0 in
    Ok (mkATD (m_cache_base a) (m_sets a) (m_set_info a)
          (loads a +64 one (negb write)) (stores a +64 one write)
          (load_misses a +64 one (negb write && negb atd_hit)) (store_misses a +64 one (write && negb atd_hit))
          (loads_constructive a +64 one (negb write && (cache_hit && negb atd_hit)))
          (stores_constructive a +64 one (write && (cache_hit && negb atd_hit)))
          (loads_destructive a +64 one (negb write && (negb cache_hit && atd_hit)))
          (stores_destructive a +64 one (write && (negb cache_hit && atd_hit))))
  else Ok a.

End atd.
End Atd.

(** ** The controllers *)

(** The statistics of a controller; those of [ENABLE_TRANSITIONS] are not compiled in. *)
Module Stat.
Inductive t :=
| tloads | tstores | tload_misses | tstore_misses
| loads (b : block_type_t) | stores (b : block_type_t) | load_misses (b : block_type_t) | store_misses (b : block_type_t)
| load_overlapping_misses (b : block_type_t) | store_overlapping_misses (b : block_type_t)
| load_overlapping (b : block_type_t) | store_overlapping (b : block_type_t)
| loads_state (c : cstate_t) (b : block_type_t) | stores_state (c : cstate_t) (b : block_type_t)
| loads_where (b : block_type_t) (w : HitWhere.where_t) | stores_where (b : block_type_t) (w : HitWhere.where_t)
| load_misses_state (c : cstate_t) (b : block_type_t) | store_misses_state (c : cstate_t) (b : block_type_t)
| loads_prefetch (b : block_type_t) | stores_prefetch (b : block_type_t)
| hits_prefetch | evict_prefetch | invalidate_prefetch
| evict (c : cstate_t) | backinval (c : cstate_t)
| hits_warmup | evict_warmup | invalidate_warmup
| total_latency | total_data_latency | total_metadata_latency
| snoop_latency | qbs_query_latency | mshr_latency | metadata_mshr_latency
| prefetches | prefetches_fillup | late_metadata_prefetches
| spec_evict_total | spec_evict_harmful
| coherency_downgrades | coherency_upgrades | coherency_invalidates | coherency_writebacks.
#[global] Instance t_eq_dec : EqDecision t.
Proof. solve_decision. Defined.
End Stat.

(** What a controller keeps from its constructor: the parameters of its cache, the master it
    shares with the other cores of the cache and the controller of the next level, both as
    indices, and of its memory manager the cache performance model and the core that its
    messages are sent from. A bandwidth of 0 bits per cycle is infinite. *)
Record CntlrConfig := mkCC {
  m_mem_component : MemComponent.component_t;
  m_master : nat;
  m_next_cache_cntlr : option nat;
  m_perfect : bool;
  m_passthrough : bool;
  m_coherent : bool;
  m_prefetch_on_prefetch_hit : bool;
  has_l1_mshr : bool;
  has_l1_metadata_mshr : bool;
  mshr_size : Z;
  cc_core_id : Z;
  cc_core_id_master : Z;
  cc_block_size : Z;
  m_cache_writethrough : bool;
  m_writeback_time : ComponentLatency;
  read_bandwidth_period : Z;
  read_bandwidth_bits : Z;
  m_shared_cores : Z;
  cc_passthrough_loc : Z;
  data_access_time : ComponentLatency;
  tags_access_time : ComponentLatency;
  sequential_model : bool;
  m_tag_directory_home_lookup : AddressHomeLookup;
  sender_core_id : Z
}.

Definition isMasterCache (k : CntlrConfig) : bool := cc_core_id k =? cc_core_id_master k.
Definition isLastLevel (k : CntlrConfig) : bool := bool_decide (m_next_cache_cntlr k = None).
Definition isShared (core_id : Z) (k : CntlrConfig) : bool :=
  core_id - Z.rem core_id (m_shared_cores k) =? cc_core_id_master k.

(** What a controller changes; of its [ShmemPerf] only the initial time. *)
Record PCacheCntlr := mkPC {
  m_last_remote_hit_where : HitWhere.where_t;
  m_doing_spec_prefetch : bool;
  m_last_prefetch_completion : Z;
  m_shmem_perf_initial : Z;
  m_shmem_perf_totaltime : Z;
  m_shmem_perf_numrequests : Z;
  stats : Stat.t -> Z
}.

(** [CacheDirectoryWaiter] and the queues of waiters per address. *)
Record CacheDirectoryWaiter := mkWaiter {
  w_exclusive : bool; w_block_type : block_type_t; w_isPrefetch : bool; w_cache_cntlr : nat; w_t_issue : Z }.
Abbreviation CacheDirectoryWaiterMap := (gmap Z (list CacheDirectoryWaiter)).

Record MshrEntry := make_mshr { t_issue : Z; t_complete : Z }.
Record SpecEvictEntry := mkSpecEvict { se_addr : Z; se_stamp : Z }.

Definition SPEC_EVICT_SETS : nat := 64.
Definition SPEC_EVICT_WAYS : nat := 4.
Definition SPEC_EVICTION_WINDOW : Z := 50.
Definition PREFETCH_MAX_QUEUE_LENGTH : nat := 32.
Definition PREFETCH_INTERVAL : Z := SubsecondTime_NS 1.

(** The state that the controllers of one cache share. *)
Record CacheMasterCntlr (P : Type) := mkMaster {
  m_cache : Cache P;
  m_smt_lock : bool;
  m_prev_cache_cntlrs : list nat;
  m_prefetcher : option Prefetcher;
  m_dram_cntlr : bool;
  m_dram_outstanding_writebacks : option ContentionModel;
  mshr : gmap Z MshrEntry;
  metadata_mshr : gmap Z MshrEntry;
  m_l1_mshr : ContentionModel;
  m_l1_metadata_mshr : ContentionModel;
  m_next_level_read : ContentionModel;
  m_directory_waiters : CacheDirectoryWaiterMap;
  m_evicting_address : Z;
  m_evicting_buf : option (list Z);
  m_atds : list (Atd.ATD P);
  m_setlocks : list SetLock.t;
  mc_log_blocksize : Z;
  mc_num_sets : Z;
  m_prefetch_list : list Z;
  m_prefetch_next : Z;
  m_spec_evict_table : list (list SpecEvictEntry);
  m_l2_demand_count : Z
}.
Arguments mkMaster {_}.
Arguments m_cache {_}.
Arguments m_smt_lock {_}.
Arguments m_prev_cache_cntlrs {_}.
Arguments m_prefetcher {_}.
Arguments m_dram_cntlr {_}.
Arguments m_dram_outstanding_writebacks {_}.
Arguments mshr {_}.
Arguments metadata_mshr {_}.
Arguments m_l1_mshr {_}.
Arguments m_l1_metadata_mshr {_}.
Arguments m_next_level_read {_}.
Arguments m_directory_waiters {_}.
Arguments m_evicting_address {_}.
Arguments m_evicting_buf {_}.
Arguments m_atds {_}.
Arguments m_setlocks {_}.
Arguments mc_log_blocksize {_}.
Arguments mc_num_sets {_}.
Arguments m_prefetch_list {_}.
Arguments m_prefetch_next {_}.
Arguments m_spec_evict_table {_}.
Arguments m_l2_demand_count {_}.

(** All controllers and masters, the elapsed time of the two threads of every core
    ([ShmemPerfModel]), what was sent to the network with the sender, the DRAM controller,
    the instrumentation mode, the semaphores of every core. *)
Record Hierarchy (P D : Type) := mkHierarchy {
  cntlrs : list PCacheCntlr;
  masters : list (CacheMasterCntlr P);
  elapsed : Z -> Thread_t -> Z;
  packets : list (Z * NetPacket);
  dram : D;
  cache_only : bool;
  perf_enabled : bool;
  user_sem : Z -> Z;
  network_sem : Z -> Z
}.
Arguments mkHierarchy {_} {_}.
Arguments cntlrs {_} {_}.
Arguments masters {_} {_}.
Arguments elapsed {_} {_}.
Arguments packets {_} {_}.
Arguments dram {_} {_}.
Arguments cache_only {_} {_}.
Arguments perf_enabled {_} {_}.
Arguments user_sem {_} {_}.
Arguments network_sem {_} {_}.

Definition with_remote_hit_where (x0 : HitWhere.where_t) (c : PCacheCntlr) : PCacheCntlr :=
  mkPC x0 (m_doing_spec_prefetch c) (m_last_prefetch_completion c) (m_shmem_perf_initial c)
    (m_shmem_perf_totaltime c) (m_shmem_perf_numrequests c) (stats c).
Definition with_spec_prefetch (x0 : bool) (c : PCacheCntlr) : PCacheCntlr :=
  mkPC (m_last_remote_hit_where c) x0 (m_last_prefetch_completion c) (m_shmem_perf_initial c)
    (m_shmem_perf_totaltime c) (m_shmem_perf_numrequests c) (stats c).
Definition with_prefetch_completion (x0 : Z) (c : PCacheCntlr) : PCacheCntlr :=
  mkPC (m_last_remote_hit_where c) (m_doing_spec_prefetch c) x0 (m_shmem_perf_initial c)
    (m_shmem_perf_totaltime c) (m_shmem_perf_numrequests c) (stats c).
Definition with_perf_initial (x0 : Z) (c : PCacheCntlr) : PCacheCntlr :=
  mkPC (m_last_remote_hit_where c) (m_doing_spec_prefetch c) (m_last_prefetch_completion c) x0
    (m_shmem_perf_totaltime c) (m_shmem_perf_numrequests c) (stats c).
Definition with_perf_totals (x0 : Z) (x1 : Z) (c : PCacheCntlr) : PCacheCntlr :=
  mkPC (m_last_remote_hit_where c) (m_doing_spec_prefetch c) (m_last_prefetch_completion c)
    (m_shmem_perf_initial c) x0 x1 (stats c).
Definition with_stats (x0 : Stat.t -> Z) (c : PCacheCntlr) : PCacheCntlr :=
  mkPC (m_last_remote_hit_where c) (m_doing_spec_prefetch c) (m_last_prefetch_completion c)
    (m_shmem_perf_initial c) (m_shmem_perf_totaltime c) (m_shmem_perf_numrequests c) x0.
Definition with_cache {P : Type} (x0 : Cache P) (m : CacheMasterCntlr P) : CacheMasterCntlr P :=
  mkMaster x0 (m_smt_lock m) (m_prev_cache_cntlrs m) (m_prefetcher m) (m_dram_cntlr m)
    (m_dram_outstanding_writebacks m) (mshr m) (metadata_mshr m) (m_l1_mshr m) (m_l1_metadata_mshr m)
    (m_next_level_read m) (m_directory_waiters m) (m_evicting_address m) (m_evicting_buf m) (m_atds m)
    (m_setlocks m) (mc_log_blocksize m) (mc_num_sets m) (m_prefetch_list m) (m_prefetch_next m)
    (m_spec_evict_table m) (m_l2_demand_count m).
Definition with_smt_lock {P : Type} (x0 : bool) (m : CacheMasterCntlr P) : CacheMasterCntlr P :=
  mkMaster (m_cache m) x0 (m_prev_cache_cntlrs m) (m_prefetcher m) (m_dram_cntlr m)
    (m_dram_outstanding_writebacks m) (mshr m) (metadata_mshr m) (m_l1_mshr m) (m_l1_metadata_mshr m)
    (m_next_level_read m) (m_directory_waiters m) (m_evicting_address m) (m_evicting_buf m) (m_atds m)
    (m_setlocks m) (mc_log_blocksize m) (mc_num_sets m) (m_prefetch_list m) (m_prefetch_next m)
    (m_spec_evict_table m) (m_l2_demand_count m).
Definition with_prev {P : Type} (x0 : list nat) (m : CacheMasterCntlr P) : CacheMasterCntlr P :=
  mkMaster (m_cache m) (m_smt_lock m) x0 (m_prefetcher m) (m_dram_cntlr m) (m_dram_outstanding_writebacks m)
    (mshr m) (metadata_mshr m) (m_l1_mshr m) (m_l1_metadata_mshr m) (m_next_level_read m)
    (m_directory_waiters m) (m_evicting_address m) (m_evicting_buf m) (m_atds m) (m_setlocks m)
    (mc_log_blocksize m) (mc_num_sets m) (m_prefetch_list m) (m_prefetch_next m) (m_spec_evict_table m)
    (m_l2_demand_count m).
Definition with_prefetcher {P : Type} (x0 : option Prefetcher) (m : CacheMasterCntlr P) : CacheMasterCntlr P :=
  mkMaster (m_cache m) (m_smt_lock m) (m_prev_cache_cntlrs m) x0 (m_dram_cntlr m)
    (m_dram_outstanding_writebacks m) (mshr m) (metadata_mshr m) (m_l1_mshr m) (m_l1_metadata_mshr m)
    (m_next_level_read m) (m_directory_waiters m) (m_evicting_address m) (m_evicting_buf m) (m_atds m)
    (m_setlocks m) (mc_log_blocksize m) (mc_num_sets m) (m_prefetch_list m) (m_prefetch_next m)
    (m_spec_evict_table m) (m_l2_demand_count m).
Definition with_dram {P : Type} (x0 : bool) (x1 : option ContentionModel) (m : CacheMasterCntlr P) : CacheMasterCntlr P :=
  mkMaster (m_cache m) (m_smt_lock m) (m_prev_cache_cntlrs m) (m_prefetcher m) x0 x1 (mshr m) (metadata_mshr m)
    (m_l1_mshr m) (m_l1_metadata_mshr m) (m_next_level_read m) (m_directory_waiters m) (m_evicting_address m)
    (m_evicting_buf m) (m_atds m) (m_setlocks m) (mc_log_blocksize m) (mc_num_sets m) (m_prefetch_list m)
    (m_prefetch_next m) (m_spec_evict_table m) (m_l2_demand_count m).
Definition with_mshr {P : Type} (x0 : gmap Z MshrEntry) (m : CacheMasterCntlr P) : CacheMasterCntlr P :=
  mkMaster (m_cache m) (m_smt_lock m) (m_prev_cache_cntlrs m) (m_prefetcher m) (m_dram_cntlr m)
    (m_dram_outstanding_writebacks m) x0 (metadata_mshr m) (m_l1_mshr m) (m_l1_metadata_mshr m)
    (m_next_level_read m) (m_directory_waiters m) (m_evicting_address m) (m_evicting_buf m) (m_atds m)
    (m_setlocks m) (mc_log_blocksize m) (mc_num_sets m) (m_prefetch_list m) (m_prefetch_next m)
    (m_spec_evict_table m) (m_l2_demand_count m).
Definition with_metadata_mshr {P : Type} (x0 : gmap Z MshrEntry) (m : CacheMasterCntlr P) : CacheMasterCntlr P :=
  mkMaster (m_cache m) (m_smt_lock m) (m_prev_cache_cntlrs m) (m_prefetcher m) (m_dram_cntlr m)
    (m_dram_outstanding_writebacks m) (mshr m) x0 (m_l1_mshr m) (m_l1_metadata_mshr m) (m_next_level_read m)
    (m_directory_waiters m) (m_evicting_address m) (m_evicting_buf m) (m_atds m) (m_setlocks m)
    (mc_log_blocksize m) (mc_num_sets m) (m_prefetch_list m) (m_prefetch_next m) (m_spec_evict_table m)
    (m_l2_demand_count m).
Definition with_l1_mshr {P : Type} (x0 : ContentionModel) (m : CacheMasterCntlr P) : CacheMasterCntlr P :=
  mkMaster (m_cache m) (m_smt_lock m) (m_prev_cache_cntlrs m) (m_prefetcher m) (m_dram_cntlr m)
    (m_dram_outstanding_writebacks m) (mshr m) (metadata_mshr m) x0 (m_l1_metadata_mshr m) (m_next_level_read m)
    (m_directory_waiters m) (m_evicting_address m) (m_evicting_buf m) (m_atds m) (m_setlocks m)
    (mc_log_blocksize m) (mc_num_sets m) (m_prefetch_list m) (m_prefetch_next m) (m_spec_evict_table m)
    (m_l2_demand_count m).
Definition with_l1_metadata_mshr {P : Type} (x0 : ContentionModel) (m : CacheMasterCntlr P) : CacheMasterCntlr P :=
  mkMaster (m_cache m) (m_smt_lock m) (m_prev_cache_cntlrs m) (m_prefetcher m) (m_dram_cntlr m)
    (m_dram_outstanding_writebacks m) (mshr m) (metadata_mshr m) (m_l1_mshr m) x0 (m_next_level_read m)
    (m_directory_waiters m) (m_evicting_address m) (m_evicting_buf m) (m_atds m) (m_setlocks m)
    (mc_log_blocksize m) (mc_num_sets m) (m_prefetch_list m) (m_prefetch_next m) (m_spec_evict_table m)
    (m_l2_demand_count m).
Definition with_next_level_read {P : Type} (x0 : ContentionModel) (m : CacheMasterCntlr P) : CacheMasterCntlr P :=
  mkMaster (m_cache m) (m_smt_lock m) (m_prev_cache_cntlrs m) (m_prefetcher m) (m_dram_cntlr m)
    (m_dram_outstanding_writebacks m) (mshr m) (metadata_mshr m) (m_l1_mshr m) (m_l1_metadata_mshr m) x0
    (m_directory_waiters m) (m_evicting_address m) (m_evicting_buf m) (m_atds m) (m_setlocks m)
    (mc_log_blocksize m) (mc_num_sets m) (m_prefetch_list m) (m_prefetch_next m) (m_spec_evict_table m)
    (m_l2_demand_count m).
Definition with_waiters {P : Type} (x0 : CacheDirectoryWaiterMap) (m : CacheMasterCntlr P) : CacheMasterCntlr P :=
  mkMaster (m_cache m) (m_smt_lock m) (m_prev_cache_cntlrs m) (m_prefetcher m) (m_dram_cntlr m)
    (m_dram_outstanding_writebacks m) (mshr m) (metadata_mshr m) (m_l1_mshr m) (m_l1_metadata_mshr m)
    (m_next_level_read m) x0 (m_evicting_address m) (m_evicting_buf m) (m_atds m) (m_setlocks m)
    (mc_log_blocksize m) (mc_num_sets m) (m_prefetch_list m) (m_prefetch_next m) (m_spec_evict_table m)
    (m_l2_demand_count m).
Definition with_evicting {P : Type} (x0 : Z) (x1 : option (list Z)) (m : CacheMasterCntlr P) : CacheMasterCntlr P :=
  mkMaster (m_cache m) (m_smt_lock m) (m_prev_cache_cntlrs m) (m_prefetcher m) (m_dram_cntlr m)
    (m_dram_outstanding_writebacks m) (mshr m) (metadata_mshr m) (m_l1_mshr m) (m_l1_metadata_mshr m)
    (m_next_level_read m) (m_directory_waiters m) x0 x1 (m_atds m) (m_setlocks m) (mc_log_blocksize m)
    (mc_num_sets m) (m_prefetch_list m) (m_prefetch_next m) (m_spec_evict_table m) (m_l2_demand_count m).
Definition with_atds {P : Type} (x0 : list (Atd.ATD P)) (m : CacheMasterCntlr P) : CacheMasterCntlr P :=
  mkMaster (m_cache m) (m_smt_lock m) (m_prev_cache_cntlrs m) (m_prefetcher m) (m_dram_cntlr m)
    (m_dram_outstanding_writebacks m) (mshr m) (metadata_mshr m) (m_l1_mshr m) (m_l1_metadata_mshr m)
    (m_next_level_read m) (m_directory_waiters m) (m_evicting_address m) (m_evicting_buf m) x0 (m_setlocks m)
    (mc_log_blocksize m) (mc_num_sets m) (m_prefetch_list m) (m_prefetch_next m) (m_spec_evict_table m)
    (m_l2_demand_count m).
Definition with_setlocks {P : Type} (x0 : list SetLock.t) (m : CacheMasterCntlr P) : CacheMasterCntlr P :=
  mkMaster (m_cache m) (m_smt_lock m) (m_prev_cache_cntlrs m) (m_prefetcher m) (m_dram_cntlr m)
    (m_dram_outstanding_writebacks m) (mshr m) (metadata_mshr m) (m_l1_mshr m) (m_l1_metadata_mshr m)
    (m_next_level_read m) (m_directory_waiters m) (m_evicting_address m) (m_evicting_buf m) (m_atds m) x0
    (mc_log_blocksize m) (mc_num_sets m) (m_prefetch_list m) (m_prefetch_next m) (m_spec_evict_table m)
    (m_l2_demand_count m).
Definition with_lock_geometry {P : Type} (x0 : list SetLock.t) (x1 : Z) (x2 : Z) (m : CacheMasterCntlr P) : CacheMasterCntlr P :=
  mkMaster (m_cache m) (m_smt_lock m) (m_prev_cache_cntlrs m) (m_prefetcher m) (m_dram_cntlr m)
    (m_dram_outstanding_writebacks m) (mshr m) (metadata_mshr m) (m_l1_mshr m) (m_l1_metadata_mshr m)
    (m_next_level_read m) (m_directory_waiters m) (m_evicting_address m) (m_evicting_buf m) (m_atds m) x0 x1 x2
    (m_prefetch_list m) (m_prefetch_next m) (m_spec_evict_table m) (m_l2_demand_count m).
Definition with_prefetch_list {P : Type} (x0 : list Z) (x1 : Z) (m : CacheMasterCntlr P) : CacheMasterCntlr P :=
  mkMaster (m_cache m) (m_smt_lock m) (m_prev_cache_cntlrs m) (m_prefetcher m) (m_dram_cntlr m)
    (m_dram_outstanding_writebacks m) (mshr m) (metadata_mshr m) (m_l1_mshr m) (m_l1_metadata_mshr m)
    (m_next_level_read m) (m_directory_waiters m) (m_evicting_address m) (m_evicting_buf m) (m_atds m)
    (m_setlocks m) (mc_log_blocksize m) (mc_num_sets m) x0 x1 (m_spec_evict_table m) (m_l2_demand_count m).
Definition with_spec {P : Type} (x0 : list (list SpecEvictEntry)) (x1 : Z) (m : CacheMasterCntlr P) : CacheMasterCntlr P :=
  mkMaster (m_cache m) (m_smt_lock m) (m_prev_cache_cntlrs m) (m_prefetcher m) (m_dram_cntlr m)
    (m_dram_outstanding_writebacks m) (mshr m) (metadata_mshr m) (m_l1_mshr m) (m_l1_metadata_mshr m)
    (m_next_level_read m) (m_directory_waiters m) (m_evicting_address m) (m_evicting_buf m) (m_atds m)
    (m_setlocks m) (mc_log_blocksize m) (mc_num_sets m) (m_prefetch_list m) (m_prefetch_next m) x0 x1.
Definition with_cntlrs {P : Type} {D : Type} (x0 : list PCacheCntlr) (s : Hierarchy P D) : Hierarchy P D :=
  mkHierarchy x0 (masters s) (elapsed s) (packets s) (dram s) (cache_only s) (perf_enabled s) (user_sem s)
    (network_sem s).
Definition with_masters {P : Type} {D : Type} (x0 : list (CacheMasterCntlr P)) (s : Hierarchy P D) : Hierarchy P D :=
  mkHierarchy (cntlrs s) x0 (elapsed s) (packets s) (dram s) (cache_only s) (perf_enabled s) (user_sem s)
    (network_sem s).
Definition with_elapsed {P : Type} {D : Type} (x0 : Z -> Thread_t -> Z) (s : Hierarchy P D) : Hierarchy P D :=
  mkHierarchy (cntlrs s) (masters s) x0 (packets s) (dram s) (cache_only s) (perf_enabled s) (user_sem s)
    (network_sem s).
Definition with_packets {P : Type} {D : Type} (x0 : list (Z * NetPacket)) (s : Hierarchy P D) : Hierarchy P D :=
  mkHierarchy (cntlrs s) (masters s) (elapsed s) x0 (dram s) (cache_only s) (perf_enabled s) (user_sem s)
    (network_sem s).
Definition with_dram_state {P : Type} {D : Type} (x0 : D) (s : Hierarchy P D) : Hierarchy P D :=
  mkHierarchy (cntlrs s) (masters s) (elapsed s) (packets s) x0 (cache_only s) (perf_enabled s) (user_sem s)
    (network_sem s).
Definition with_user_sem {P : Type} {D : Type} (x0 : Z -> Z) (s : Hierarchy P D) : Hierarchy P D :=
  mkHierarchy (cntlrs s) (masters s) (elapsed s) (packets s) (dram s) (cache_only s) (perf_enabled s) x0
    (network_sem s).
Definition with_network_sem {P : Type} {D : Type} (x0 : Z -> Z) (s : Hierarchy P D) : Hierarchy P D :=
  mkHierarchy (cntlrs s) (masters s) (elapsed s) (packets s) (dram s) (cache_only s) (perf_enabled s)
    (user_sem s) x0.

(** ** Operations of the shared state *)

Definition specEvictIndex (addr : Z) : nat := Z.to_nat (Z.land (Z.shiftr addr 6) (Z.of_nat SPEC_EVICT_SETS - 1)).

(** The first invalid way, or else the way with the oldest stamp. *)
Fixpoint spec_victim (row : list SpecEvictEntry) (w victim : nat) (oldest : Z) : nat :=
  match row with
  | [] => victim
  | e :: row =>
      if se_addr e =? 0 then w
      else if se_stamp e <? oldest then spec_victim row (S w) w (se_stamp e)
      else spec_victim row (S w) victim oldest
  end.

Definition specEvictInsert (addr stamp : Z) (t : list (list SpecEvictEntry)) : res (list (list SpecEvictEntry)) :=
  row ← rd t (specEvictIndex addr);
  row ← wr row (spec_victim row 0 0 (2 ^ 64 - 1)) (mkSpecEvict addr stamp);
  wr t (specEvictIndex addr) row.

Definition specEvictLookupAndRemove (addr : Z) (t : list (list SpecEvictEntry)) : res (Z * list (list SpecEvictEntry)) :=
  row ← rd t (specEvictIndex addr);
  match list_find (fun e => se_addr e = addr) row with
  | Some (w, e) => row ← wr row w (mkSpecEvict 0 0); t ← wr t (specEvictIndex addr) row; Ok (se_stamp e, t)
  | None => Ok (0, t)
  end.

Definition specEvictRemove (addr : Z) (t : list (list SpecEvictEntry)) : res (list (list SpecEvictEntry)) :=
  row ← rd t (specEvictIndex addr);
  wr t (specEvictIndex addr) (map (fun e => if se_addr e =? addr then mkSpecEvict 0 0 else e) row).

Section master.
Context {P : Type} `{!ReplacementPolicy P}.
Implicit Type m : CacheMasterCntlr P.

Definition CacheMasterCntlr_new (c : Cache P) (prefetcher : option Prefetcher) (atds : list (Atd.ATD P))
    (outstanding_misses : Z) : CacheMasterCntlr P :=
  mkMaster c false [] prefetcher false None ∅ ∅ (ContentionModel_new outstanding_misses)
    (ContentionModel_new outstanding_misses) (ContentionModel_new 1) ∅ 0 None atds [] 0 0 [] 0
    (replicate SPEC_EVICT_SETS (replicate SPEC_EVICT_WAYS (mkSpecEvict 0 0))) 0.

Definition createSetLocks (cache_block_size num_sets core_offset num_cores : Z) m : CacheMasterCntlr P :=
  with_lock_geometry (replicate (Z.to_nat num_sets) (SetLock.new core_offset num_cores)) (floorLog2 cache_block_size) num_sets m.

Definition getSetLock (addr : Z) m : res nat :=
  let i := Z.to_nat (Z.land (Z.shiftr addr (mc_log_blocksize m)) (u32 (mc_num_sets m - 1))) in
  check (i <? length (m_setlocks m))%nat OutOfBounds;; Ok i.

Definition accessATDs (write hit : bool) (address core_num : Z) m : res (CacheMasterCntlr P) :=
  if bool_decide (m_atds m = []) then Ok m
  else
    check (0 <=? core_num) OutOfBounds;;
    a ← rd (m_atds m) (Z.to_nat core_num);
    a ← Atd.access write hit address a;
    l ← wr (m_atds m) (Z.to_nat core_num) a;
    Ok (with_atds l m).

Definition setDRAMDirectAccess (num_outstanding : Z) m : CacheMasterCntlr P :=
  with_dram true (Some (ContentionModel_new num_outstanding)) m.

(** The previous controllers that are masters are appended. *)
Definition setPrevCacheCntlrs (topology : list CntlrConfig) (prev : list nat) m : res (CacheMasterCntlr P) :=
  l ← fold_loop (fun l i => k ← rd topology i; Ok (if isMasterCache k then l ++ [i] else l)) (m_prev_cache_cntlrs m) prev;
  Ok (with_prev l m).

End master.

(** ** The monads *)

(** The direct connection of the last-level cache to DRAM. [read] fills the buffer it is given. *)
Class DramCntlrInterface (D : Type) := {
  getDataFromDram : D -> Z -> Z -> list Z -> Z -> bool -> res (Z * HitWhere.where_t * list Z * D);
  putDataToDram : D -> Z -> Z -> list Z -> Z -> bool -> res (Z * HitWhere.where_t * D)
}.

Section monad.
Context {P D : Type}.

(** Operations that do not wait. *)
Definition C (A : Type) : Type := Hierarchy P D -> res (A * Hierarchy P D).
#[global] Instance C_ret : MRet C := fun A a s => Ok (a, s).
#[global] Instance C_bind : MBind C := fun A B k m s =>
  match m s with Ok (a, s') => k a s' | Err f => Err f end.

Definition cget {A} (f : Hierarchy P D -> A) : C A := fun s => Ok (f s, s).
Definition cmodify (f : Hierarchy P D -> Hierarchy P D) : C unit := fun s => Ok (tt, f s).
Definition clift {A} (r : res A) : C A := fun s => match r with Ok a => Ok (a, s) | Err f => Err f end.
Definition ccheck (b : bool) (f : fault) : C unit := clift (check b f).
Definition cwhen (b : bool) (m : C unit) : C unit := if b then m else mret tt.
Fixpoint cfold {A X} (f : A -> X -> C A) (acc : A) (l : list X) : C A :=
  match l with
  | [] => mret acc
  | x :: l => acc ← f acc x; cfold f acc l
  end.

(** Threads: sequences of atomic operations, each of which may wait for a condition. *)
Inductive thread (A : Type) : Type :=
| Done (a : A)
| Step (X : Type) (ready : Hierarchy P D -> bool) (m : C X) (k : X -> thread A).

End monad.
Arguments C : clear implicits.
Arguments thread : clear implicits.
Arguments Done {_ _ _}.
Arguments Step {_ _ _ _}.

Section threads.
Context {P D : Type}.

Fixpoint thread_bind {A B} (k : A -> thread P D B) (t : thread P D A) : thread P D B :=
  match t with
  | Done a => k a
  | Step ready m f => Step ready m (fun x => thread_bind k (f x))
  end.
#[global] Instance thread_mret : MRet (thread P D) := fun A a => Done a.
#[global] Instance thread_mbind : MBind (thread P D) := fun A B k t => thread_bind k t.

Definition wait (ready : Hierarchy P D -> bool) {A} (m : C P D A) : thread P D A := Step ready m Done.
Definition atomic {A} (m : C P D A) : thread P D A := Step (fun _ => true) m Done.
Definition twhen (b : bool) (t : thread P D unit) : thread P D unit := if b then t else Done tt.
Fixpoint tfor {X} (f : X -> thread P D unit) (l : list X) : thread P D unit :=
  match l with
  | [] => Done tt
  | x :: l => _ ← f x; tfor f l
  end.

(** The run of a thread alone: a wait for what nobody else does blocks for ever. *)
Fixpoint exec {A} (t : thread P D A) (s : Hierarchy P D) : res (A * Hierarchy P D) :=
  match t with
  | Done a => Ok (a, s)
  | Step ready m k => if ready s then '(x, s) ← m s; exec (k x) s else Err Blocked
  end.

End threads.
