(* ===== verification/Dram.v ===== *)
(** * DRAM controllers

    The time breakdown of a request ([shmem_perf.cc]), the injection of faults
    ([fault_injection.cc], [fault_injector_random.cc]), the latency models of DRAM
    ([dram_perf_model_constant.cc], [dram_perf_model_readwrite.cc],
    [dram_perf_model_normal.cc]), the DRAM controller ([dram_cntlr.cc],
    [dram_cntlr_interface.cc]) and the DRAM cache ([dram_cache.cc]). The detailed DDR model and
    the CXL model are not modelled; a controller works with any model of the interface. *)

From stdpp Require Import base tactics list numbers gmap strings finite.
From Stdlib Require Import ZArith Lia.
From S2P Require Import Prelude Utils CacheBase CacheBlock CacheSet Replacement Cache CacheLines Timing Contention Directory DirCntlr Prefetch CntlrState.
Local Open Scope Z_scope.
Local Open Scope mach_scope.

(** ** The breakdown of the time of a request *)

Module ShmemPerf.

Inductive shmem_times_type_t :=
| NOC_BASE | NOC_QUEUE | TD_ACCESS | INV_IMBALANCE | REMOTE_CACHE_INV | REMOTE_CACHE_FWD | REMOTE_CACHE_WB
| PENDING_HIT | NUCA_TAGS | NUCA_QUEUE | NUCA_BUS | NUCA_DATA | DRAM_CACHE | DRAM_CACHE_TAGS | DRAM_CACHE_QUEUE
| DRAM_CACHE_BUS | DRAM_CACHE_DATA | DRAM | DRAM_QUEUE | DRAM_BUS | DRAM_DEVICE | DRAM_CNTLR | DRAM_REFRESH
| DRAM_BANK_PENDING | DRAM_BANK_CONFLICT | UNKNOWN.
#[global] Instance shmem_times_type_t_eq_dec : EqDecision shmem_times_type_t.
Proof. solve_decision. Defined.

(** The reasons in the order of the enumeration. *)
Definition reasons : list shmem_times_type_t :=
  [NOC_BASE; NOC_QUEUE; TD_ACCESS; INV_IMBALANCE; REMOTE_CACHE_INV; REMOTE_CACHE_FWD; REMOTE_CACHE_WB;
   PENDING_HIT; NUCA_TAGS; NUCA_QUEUE; NUCA_BUS; NUCA_DATA; DRAM_CACHE; DRAM_CACHE_TAGS; DRAM_CACHE_QUEUE;
   DRAM_CACHE_BUS; DRAM_CACHE_DATA; DRAM; DRAM_QUEUE; DRAM_BUS; DRAM_DEVICE; DRAM_CNTLR; DRAM_REFRESH;
   DRAM_BANK_PENDING; DRAM_BANK_CONFLICT; UNKNOWN].
#[global] Program Instance shmem_times_type_t_finite : Finite shmem_times_type_t := {| enum := reasons |}.
Next Obligation. by apply (bool_decide_unpack _). Qed.
Next Obligation. intros []; by apply (bool_decide_unpack _). Qed.

Definition shmem_reason_names : list string :=
  ["noc-base"; "noc-queue"; "td-access"; "inv-imbalance"; "remote-cache-inv"; "remote-cache-fwd"; "remote-cache-wb";
   "pending-hit"; "nuca-tags"; "nuca-bus"; "nuca-queue"; "nuca-data"; "dram-cache"; "dram-cache-tags"; "dram-cache-queue";
   "dram-cache-bus"; "dram-cache-data"; "dram"; "dram-queue"; "dram-bus"; "dram-device"; "dram-cntrl"; "dram-refresh";
   "dram-bank-pending"; "dram-bank-conflict"; "unknown"]%string.

(** The value of an enumerator. *)
Definition index (r : shmem_times_type_t) : nat := (encode_nat r).

Definition ShmemReasonString (r : shmem_times_type_t) : res string := rd shmem_reason_names (index r).

(** [m_times] has one entry per reason. *)
Record t := mkPerf { m_core_id : Z; m_time_begin : Z; m_time_last : Z; m_times : shmem_times_type_t -> Z }.

Definition new : t := mkPerf INVALID_CORE_ID 0 0 (fun _ => 0).
Definition disable (p : t) : t := mkPerf (m_core_id p) (m_time_begin p) MaxTime (m_times p).
Definition reset (time core_id : Z) (p : t) : t := mkPerf core_id time time (fun _ => 0).

Definition add_to (r : shmem_times_type_t) (d : Z) (f : shmem_times_type_t -> Z) : shmem_times_type_t -> Z :=
  fun r' => if decide (r' = r) then f r' +64 d else f r'.

Definition updateTime (time : Z) (reason : shmem_times_type_t) (p : t) : t :=
  if m_time_last p <? time then
    mkPerf (m_core_id p) (m_time_begin p) time (add_to reason (time -64 m_time_last p) (m_times p))
  else p.

Definition updatePacket (packet_time queue_delay : Z) (p : t) : t :=
  if m_time_last p <? packet_time then
    updateTime packet_time NOC_BASE
      (mkPerf (m_core_id p) (m_time_begin p) (m_time_last p +64 queue_delay) (add_to NOC_QUEUE queue_delay (m_times p)))
  else p.

Definition add (other p : t) : t :=
  mkPerf (m_core_id p) (m_time_begin p) (m_time_last p) (fun r => m_times p r +64 m_times other r).

End ShmemPerf.

(** A [ShmemPerf*] that may be null. *)
Definition perf_updateTime (perf : option ShmemPerf.t) (time : Z) (reason : ShmemPerf.shmem_times_type_t) : res (option ShmemPerf.t) :=
  p ← deref perf; Ok (Some (ShmemPerf.updateTime time reason p)).

(** ** Faults *)

Module Faults.

Inductive fault_type_t := FAULT_TYPE_TOGGLE | FAULT_TYPE_SET0 | FAULT_TYPE_SET1.
Inductive fault_injector_t := FAULT_INJECTOR_NONE | FAULT_INJECTOR_RANDOM.
Record FaultinjectionManager := mkManager { m_type : fault_type_t; m_injector : fault_injector_t }.

(** No manager when the type is ["none"]. *)
Definition create (s_type s_injector : string) : res (option FaultinjectionManager) :=
  type ← (if bool_decide (s_type = "toggle"%string) then Ok (Some FAULT_TYPE_TOGGLE)
          else if bool_decide (s_type = "set0"%string) then Ok (Some FAULT_TYPE_SET0)
          else if bool_decide (s_type = "set1"%string) then Ok (Some FAULT_TYPE_SET1)
          else if bool_decide (s_type = "none"%string) then Ok None
          else Err LogError);
  match type with
  | None => Ok None
  | Some type =>
      injector ← (if bool_decide (s_injector = "none"%string) then Ok FAULT_INJECTOR_NONE
                  else if bool_decide (s_injector = "random"%string) then Ok FAULT_INJECTOR_RANDOM
                  else Err LogError);
      Ok (Some (mkManager type injector))
  end.

(** [FaultInjector], which does nothing, and [FaultInjectorRandom]. *)
Inductive FaultInjector := Plain (core_id : Z) (mem_component : MemComponent.component_t)
                         | Random (core_id : Z) (mem_component : MemComponent.component_t) (m_active : bool) (m_rng : Z).

Definition FaultInjectorRandom_new (core_id : Z) (mem_component : MemComponent.component_t) : FaultInjector :=
  Random core_id mem_component (bool_decide (mem_component = MemComponent.L1_DCACHE)) (rng_seed 0).

Definition getFaultInjector (core_id : Z) (mem_component : MemComponent.component_t) (m : FaultinjectionManager) : FaultInjector :=
  match m_injector m with
  | FAULT_INJECTOR_NONE => Plain core_id mem_component
  | FAULT_INJECTOR_RANDOM => FaultInjectorRandom_new core_id mem_component
  end.

(** The buffer of faults, and the state of the injector. *)
Definition preRead (data_size : Z) (buf : list Z) (f : FaultInjector) : res (list Z * FaultInjector) :=
  match f with
  | Plain _ _ => Ok (buf, f)
  | Random core comp active rng =>
      if active then
        let '(rng, x) := rng_next rng in
        if x mod 0xffff =? 0 then
          let '(rng, x) := rng_next rng in
          bit_location ← umod x data_size;
          let i := Z.to_nat (bit_location / 8) in
          b ← rd buf i;
          buf ← wr buf i (u8 (Z.lor b (Z.shiftl 1 (bit_location mod 8))));
          Ok (buf, Random core comp active rng)
        else Ok (buf, Random core comp active rng)
      else Ok (buf, f)
  end.
Definition postWrite (buf : list Z) (f : FaultInjector) : list Z * FaultInjector := (buf, f).

Definition apply_byte (t : fault_type_t) (d f : Z) : Z :=
  match t with
  | FAULT_TYPE_TOGGLE => Z.lxor d f
  | FAULT_TYPE_SET0 => Z.land d (u8 (Z.lnot f))
  | FAULT_TYPE_SET1 => Z.lor d f
  end.
Definition applyFault (m : FaultinjectionManager) (data_size : Z) (data fault : list Z) : res (list Z) :=
  fold_loop (fun data i => d ← rd data i; f ← rd fault i; wr data i (apply_byte (m_type m) d f)) data
    (seq 0 (Z.to_nat data_size)).

End Faults.

(** ** Latency models *)

Inductive access_t := READ | WRITE.
#[global] Instance access_t_eq_dec : EqDecision access_t.
Proof. solve_decision. Defined.

(** [DramPerfModel]: the time of the packet, its size, the requester and the kind of access;
    the breakdown may be null. *)
Class DramPerfModel (M : Type) := {
  getAccessLatency : Z -> Z -> Z -> Z -> access_t -> option ShmemPerf.t -> bool -> M -> res (Z * option ShmemPerf.t * M);
  enable : M -> M;
  disable : M -> M
}.

(** [TimeDistribution]: the next value drawn. *)
Class TimeDistribution (T : Type) := next : T -> Z * T.
Record ConstantTimeDistribution := mkConstant { value : Z }.
#[global] Instance constant_time : TimeDistribution ConstantTimeDistribution := fun t => (value t, t).

Section perf_models.
Context {Q : Type} `{!QueueModel Q}.

Definition queue_delay (q : option Q) (pkt_time processing_time : Z) : res (Z * option Q) :=
  match q with
  | Some q => '(d, q) ← computeQueueDelay pkt_time processing_time q; Ok (d, Some q)
  | None => Ok (0, None)
  end.

(** The parts of the latency of an access. *)
Definition break_down (perf : option ShmemPerf.t) (pkt_time queue processing cost : Z) : res (option ShmemPerf.t) :=
  perf ← perf_updateTime perf pkt_time ShmemPerf.UNKNOWN;
  perf ← perf_updateTime perf (pkt_time +64 queue) ShmemPerf.DRAM_QUEUE;
  perf ← perf_updateTime perf (pkt_time +64 queue +64 processing) ShmemPerf.DRAM_BUS;
  perf_updateTime perf (pkt_time +64 queue +64 processing +64 cost) ShmemPerf.DRAM_DEVICE.

(** The number of application cores is kept with each model. *)
Record DramPerfModelConstant := mkConst {
  c_enabled : bool; c_num_accesses : Z; c_application_cores : Z;
  c_queue_model : option Q; c_dram_bandwidth : Z; c_dram_access_cost : Z;
  c_total_queueing_delay : Z; c_total_access_latency : Z }.

Definition constant_new (application_cores dram_bandwidth dram_access_cost : Z) (queue : option Q) : DramPerfModelConstant :=
  mkConst false 0 application_cores queue dram_bandwidth dram_access_cost 0 0.

Definition constant_getAccessLatency (pkt_time pkt_size requester : Z) (perf : option ShmemPerf.t) (m : DramPerfModelConstant)
  : res (Z * option ShmemPerf.t * DramPerfModelConstant) :=
  if negb (c_enabled m) || (c_application_cores m <=? requester) then Ok (0, perf, m)
  else
    processing_time ← bw_getRoundedLatency (c_dram_bandwidth m) (8 *64 pkt_size);
    '(delay, q) ← queue_delay (c_queue_model m) pkt_time processing_time;
    let access_latency := delay +64 processing_time +64 c_dram_access_cost m in
    perf ← break_down perf pkt_time delay processing_time (c_dram_access_cost m);
    Ok (access_latency, perf,
        mkConst (c_enabled m) (c_num_accesses m +64 1) (c_application_cores m) q (c_dram_bandwidth m) (c_dram_access_cost m)
          (c_total_queueing_delay m +64 delay) (c_total_access_latency m +64 access_latency)).

Definition constant_set_enabled (b : bool) (m : DramPerfModelConstant) : DramPerfModelConstant :=
  mkConst b (c_num_accesses m) (c_application_cores m) (c_queue_model m) (c_dram_bandwidth m) (c_dram_access_cost m)
    (c_total_queueing_delay m) (c_total_access_latency m).
#[global] Instance constant_model : DramPerfModel DramPerfModelConstant := {
  getAccessLatency t size requester _ _ perf _ m := constant_getAccessLatency t size requester perf m;
  enable := constant_set_enabled true;
  disable := constant_set_enabled false
}.

(** Reads and writes have queues of their own; the two queues are created together. *)
Record DramPerfModelReadWrite := mkReadWrite {
  w_enabled : bool; w_num_accesses : Z; w_application_cores : Z;
  w_queue_models : option (Q * Q); w_dram_bandwidth : Z; w_dram_access_cost : Z; w_shared_readwrite : bool;
  w_total_read_queueing_delay : Z; w_total_write_queueing_delay : Z; w_total_access_latency : Z }.

Definition readwrite_new (application_cores dram_bandwidth dram_access_cost : Z) (shared : bool) (queues : option (Q * Q))
  : DramPerfModelReadWrite :=
  mkReadWrite false 0 application_cores queues dram_bandwidth dram_access_cost shared 0 0 0.

(** With a shared bandwidth writes also wait for reads. *)
Definition readwrite_delay (qs : option (Q * Q)) (shared : bool) (access : access_t) (pkt_time processing_time : Z)
  : res (Z * option (Q * Q)) :=
  match qs with
  | None => Ok (0, None)
  | Some (qr, qw) =>
      match access with
      | READ =>
          '(d, qr) ← computeQueueDelay pkt_time processing_time qr;
          qw ← (if shared then '(_, qw) ← computeQueueDelay pkt_time processing_time qw; Ok qw else Ok qw);
          Ok (d, Some (qr, qw))
      | WRITE => '(d, qw) ← computeQueueDelay pkt_time processing_time qw; Ok (d, Some (qr, qw))
      end
  end.

Definition readwrite_getAccessLatency (pkt_time pkt_size requester : Z) (access : access_t) (perf : option ShmemPerf.t)
    (m : DramPerfModelReadWrite) : res (Z * option ShmemPerf.t * DramPerfModelReadWrite) :=
  if negb (w_enabled m) || (w_application_cores m <=? requester) then Ok (0, perf, m)
  else
    processing_time ← bw_getRoundedLatency (w_dram_bandwidth m) (8 *64 pkt_size);
    '(delay, qs) ← readwrite_delay (w_queue_models m) (w_shared_readwrite m) access pkt_time processing_time;
    let access_latency := delay +64 processing_time +64 w_dram_access_cost m in
    perf ← break_down perf pkt_time delay processing_time (w_dram_access_cost m);
    let read := bool_decide (access = READ) in
    Ok (access_latency, perf,
        mkReadWrite (w_enabled m) (w_num_accesses m +64 1) (w_application_cores m) qs (w_dram_bandwidth m) (w_dram_access_cost m)
          (w_shared_readwrite m)
          (if read then w_total_read_queueing_delay m +64 delay else w_total_read_queueing_delay m)
          (if read then w_total_write_queueing_delay m else w_total_write_queueing_delay m +64 delay)
          (w_total_access_latency m +64 access_latency)).

Definition readwrite_set_enabled (b : bool) (m : DramPerfModelReadWrite) : DramPerfModelReadWrite :=
  mkReadWrite b (w_num_accesses m) (w_application_cores m) (w_queue_models m) (w_dram_bandwidth m) (w_dram_access_cost m)
    (w_shared_readwrite m) (w_total_read_queueing_delay m) (w_total_write_queueing_delay m) (w_total_access_latency m).
#[global] Instance readwrite_model : DramPerfModel DramPerfModelReadWrite := {
  getAccessLatency t size requester _ access perf _ m := readwrite_getAccessLatency t size requester access perf m;
  enable := readwrite_set_enabled true;
  disable := readwrite_set_enabled false
}.

(** The cost of an access is drawn from a distribution. *)
Record DramPerfModelNormal (T : Type) := mkNormal {
  n_enabled : bool; n_num_accesses : Z; n_application_cores : Z;
  n_queue_model : option Q; n_dram_bandwidth : Z; n_dram_access_cost : T;
  n_total_queueing_delay : Z; n_total_access_latency : Z }.
Arguments mkNormal {_}.
Arguments n_enabled {_}.
Arguments n_num_accesses {_}.
Arguments n_application_cores {_}.
Arguments n_queue_model {_}.
Arguments n_dram_bandwidth {_}.
Arguments n_dram_access_cost {_}.
Arguments n_total_queueing_delay {_}.
Arguments n_total_access_latency {_}.

Context {T : Type} `{!TimeDistribution T}.

Definition normal_new (application_cores dram_bandwidth : Z) (cost : T) (queue : option Q) : DramPerfModelNormal T :=
  mkNormal false 0 application_cores queue dram_bandwidth cost 0 0.

Definition normal_getAccessLatency (pkt_time pkt_size requester : Z) (perf : option ShmemPerf.t) (m : DramPerfModelNormal T)
  : res (Z * option ShmemPerf.t * DramPerfModelNormal T) :=
  if negb (n_enabled m) || (n_application_cores m <=? requester) then Ok (0, perf, m)
  else
    processing_time ← bw_getRoundedLatency (n_dram_bandwidth m) (8 *64 pkt_size);
    '(delay, q) ← queue_delay (n_queue_model m) pkt_time processing_time;
    let '(cost, d) := next (n_dram_access_cost m) in
    let access_latency := delay +64 processing_time +64 cost in
    perf ← break_down perf pkt_time delay processing_time cost;
    Ok (access_latency, perf,
        mkNormal (n_enabled m) (n_num_accesses m +64 1) (n_application_cores m) q (n_dram_bandwidth m) d
          (n_total_queueing_delay m +64 delay) (n_total_access_latency m +64 access_latency)).

Definition normal_set_enabled (b : bool) (m : DramPerfModelNormal T) : DramPerfModelNormal T :=
  mkNormal b (n_num_accesses m) (n_application_cores m) (n_queue_model m) (n_dram_bandwidth m) (n_dram_access_cost m)
    (n_total_queueing_delay m) (n_total_access_latency m).
#[global] Instance normal_model : DramPerfModel (DramPerfModelNormal T) := {
  getAccessLatency t size requester _ _ perf _ m := normal_getAccessLatency t size requester perf m;
  enable := normal_set_enabled true;
  disable := normal_set_enabled false
}.

End perf_models.
Arguments DramPerfModelConstant : clear implicits.
Arguments DramPerfModelReadWrite : clear implicits.
Arguments DramPerfModelNormal : clear implicits.
Arguments mkNormal {_ _}.
Arguments n_enabled {_ _}.
Arguments n_num_accesses {_ _}.
Arguments n_application_cores {_ _}.
Arguments n_queue_model {_ _}.
Arguments n_dram_bandwidth {_ _}.
Arguments n_dram_access_cost {_ _}.
Arguments n_total_queueing_delay {_ _}.
Arguments n_total_access_latency {_ _}.

(** ** The controller *)

(** The two operations of [DramCntlrInterface], with the breakdown that a read updates. *)
Class DramInterface (D : Type) := {
  dram_read : D -> Z -> Z -> list Z -> Z -> option ShmemPerf.t -> bool -> res (Z * HitWhere.where_t * list Z * option ShmemPerf.t * D);
  dram_write : D -> Z -> Z -> list Z -> Z -> bool -> res (Z * HitWhere.where_t * D)
}.

Section dram_cntlr.
Context {M : Type} `{!DramPerfModel M}.

(** The contents are kept only when there is a manager of faults. *)
Record DramCntlr := mkDramCntlr {
  d_block_size : Z;
  d_faults : option Faults.FaultinjectionManager;
  m_fault_injector : option Faults.FaultInjector;
  m_data_map : gmap Z (list Z);
  m_dram_perf_model : M;
  d_reads : Z;
  d_writes : Z;
  m_dummy_shmem_perf : ShmemPerf.t
}.

Definition DramCntlr_new (core_id cache_block_size : Z) (faults : option Faults.FaultinjectionManager) (model : M) : DramCntlr :=
  mkDramCntlr cache_block_size faults (Faults.getFaultInjector core_id MemComponent.DRAM <$> faults) ∅ model 0 0 ShmemPerf.new.

Definition runDramPerfModel (requester time address : Z) (access : access_t) (perf : option ShmemPerf.t) (metadata : bool) (d : DramCntlr)
  : res (Z * option ShmemPerf.t * M) :=
  getAccessLatency time (d_block_size d) requester address access perf metadata (m_dram_perf_model d).

Definition copy_block (dst src : list Z) (n : Z) : res (list Z) := x ← slice src 0 (Z.to_nat n); splice dst 0 x.

Definition pre_read (n : Z) (buf : list Z) (f : option Faults.FaultInjector) : res (list Z * option Faults.FaultInjector) :=
  match f with
  | Some f => '(buf, f) ← Faults.preRead n buf f; Ok (buf, Some f)
  | None => Ok (buf, None)
  end.

Definition cntlr_getDataFromDram (d : DramCntlr) (address requester : Z) (data_buf : list Z) (now : Z) (perf : option ShmemPerf.t)
    (metadata : bool) : res (Z * HitWhere.where_t * list Z * option ShmemPerf.t * DramCntlr) :=
  '(data_buf, map, inj) ←
    (match d_faults d with
     | Some _ =>
         let block := default (replicate (Z.to_nat (d_block_size d)) 0) (m_data_map d !! address) in
         '(block, inj) ← pre_read (d_block_size d) block (m_fault_injector d);
         data_buf ← copy_block data_buf block (d_block_size d);
         Ok (data_buf, <[address := block]> (m_data_map d), inj)
     | None => Ok (data_buf, m_data_map d, m_fault_injector d)
     end);
  '(latency, perf, model) ← runDramPerfModel requester now address READ perf metadata d;
  Ok (latency, HitWhere.DRAM, data_buf, perf,
      mkDramCntlr (d_block_size d) (d_faults d) inj map model (d_reads d +64 1) (d_writes d) (m_dummy_shmem_perf d)).

Definition cntlr_putDataToDram (d : DramCntlr) (address requester : Z) (data_buf : list Z) (now : Z) (metadata : bool)
  : res (Z * HitWhere.where_t * DramCntlr) :=
  '(map, inj) ←
    (match d_faults d with
     | Some _ =>
         block ← (match m_data_map d !! address with Some b => Ok b | None => Err LogError end);
         block ← copy_block block data_buf (d_block_size d);
         let '(block, inj) := match m_fault_injector d with
                              | Some f => let '(b, f) := Faults.postWrite block f in (b, Some f)
                              | None => (block, None)
                              end in
         Ok (<[address := block]> (m_data_map d), inj)
     | None => Ok (m_data_map d, m_fault_injector d)
     end);
  '(latency, perf, model) ← runDramPerfModel requester now address WRITE (Some (m_dummy_shmem_perf d)) metadata d;
  dummy ← deref perf;
  Ok (latency, HitWhere.DRAM,
      mkDramCntlr (d_block_size d) (d_faults d) inj map model (d_reads d) (d_writes d +64 1) dummy).

#[global] Instance dram_cntlr : DramInterface DramCntlr := {
  dram_read := cntlr_getDataFromDram;
  dram_write := cntlr_putDataToDram
}.

End dram_cntlr.
Arguments DramCntlr : clear implicits.

(** A last level that is connected to the controller passes a breakdown of its own. *)
#[global] Instance direct_dram {M : Type} `{!DramPerfModel M} : DramCntlrInterface (DramCntlr M) := {
  getDataFromDram d address requester buf now metadata :=
    '(latency, w, buf, _, d) ← dram_read d address requester buf now (Some ShmemPerf.new) metadata; Ok (latency, w, buf, d);
  putDataToDram d address requester buf now metadata := dram_write d address requester buf now metadata
}.

(** ** Messages of the directory *)

(** The time of the thread and the packet sent, if any; [junk] is the contents of a new buffer. *)
Definition handleMsgFromTagDirectory {D : Type} `{!DramInterface D} (cache_block_size : Z) (junk : list Z) (sender msg_time : Z)
    (msg : ShmemMsg) (perf : ShmemPerf.t) (d : D) : res (Z * option NetPacket * ShmemPerf.t * D) :=
  let perf := ShmemPerf.updateTime msg_time ShmemPerf.UNKNOWN perf in
  match m_msg_type msg with
  | DRAM_READ_REQ =>
      let address := sm_address msg in
      let is_metadata := isMetadataBlockType (sm_block_type msg) in
      '(dram_latency, hit_where, data_buf, perf, d) ← dram_read d address (m_requester msg) junk msg_time (Some perf) is_metadata;
      now ← incrElapsedTime msg_time dram_latency;
      perf ← perf_updateTime perf now (if bool_decide (hit_where = HitWhere.DRAM_CACHE) then ShmemPerf.DRAM_CACHE else ShmemPerf.DRAM);
      perf ← deref perf;
      rep ← transmit (setWhere hit_where (ShmemMsg_new DRAM_READ_REP MemComponent.DRAM MemComponent.TAG_DIR (m_requester msg)
                                            address (Live data_buf) cache_block_size (sm_block_type msg)));
      Ok (now, Some (mkPacket now (Some sender) rep), perf, d)
  | DRAM_WRITE_REQ =>
      let is_metadata_write := isMetadataBlockType (sm_block_type msg) in
      data ← (match m_data_buf msg with Live b => Ok b | NULL => Err NullDeref | Deleted => Err UseAfterFree end);
      '(_, _, d) ← dram_write d (sm_address msg) (m_requester msg) data msg_time is_metadata_write;
      Ok (msg_time, None, perf, d)
  | _ => Err LogError
  end.

(** ** The DRAM cache *)

Module DramCache.

Section dram_cache.
Context {P Q D : Type} `{!ReplacementPolicy P} `{!QueueModel Q} `{!DramInterface D}.
(** The contents of a new buffer. *)
Context (junk : list Z).

Record t := mkDramCache {
  m_core_id : Z;
  m_cache_block_size : Z;
  m_data_access_time : Z;
  m_tags_access_time : Z;
  m_data_array_bandwidth : Z;
  m_dram_cntlr : D;
  m_cache : Cache P;
  m_queue_model : option Q;
  m_prefetcher : option Prefetcher;
  m_prefetch_on_prefetch_hit : bool;
  m_prefetch_mshr : ContentionModel;
  m_reads : Z; m_writes : Z; m_read_misses : Z; m_write_misses : Z; m_hits_prefetch : Z; m_prefetches : Z;
  m_prefetch_mshr_delay : Z
}.

Definition with_parts (dram : D) (c : Cache P) (q : option Q) (d : t) : t :=
  mkDramCache (m_core_id d) (m_cache_block_size d) (m_data_access_time d) (m_tags_access_time d) (m_data_array_bandwidth d)
    dram c q (m_prefetcher d) (m_prefetch_on_prefetch_hit d) (m_prefetch_mshr d) (m_reads d) (m_writes d) (m_read_misses d)
    (m_write_misses d) (m_hits_prefetch d) (m_prefetches d) (m_prefetch_mshr_delay d).
Definition with_cache (c : Cache P) (d : t) : t := with_parts (m_dram_cntlr d) c (m_queue_model d) d.
Definition with_prefetching (p : option Prefetcher) (mshr : ContentionModel) (n : Z) (d : t) : t :=
  mkDramCache (m_core_id d) (m_cache_block_size d) (m_data_access_time d) (m_tags_access_time d) (m_data_array_bandwidth d)
    (m_dram_cntlr d) (m_cache d) (m_queue_model d) p (m_prefetch_on_prefetch_hit d) mshr (m_reads d) (m_writes d)
    (m_read_misses d) (m_write_misses d) (m_hits_prefetch d) n (m_prefetch_mshr_delay d).
Definition with_prefetch_hit (hits delay : Z) (d : t) : t :=
  mkDramCache (m_core_id d) (m_cache_block_size d) (m_data_access_time d) (m_tags_access_time d) (m_data_array_bandwidth d)
    (m_dram_cntlr d) (m_cache d) (m_queue_model d) (m_prefetcher d) (m_prefetch_on_prefetch_hit d) (m_prefetch_mshr d)
    (m_reads d) (m_writes d) (m_read_misses d) (m_write_misses d) hits (m_prefetches d) delay.
Definition with_counts (reads writes read_misses write_misses : Z) (d : t) : t :=
  mkDramCache (m_core_id d) (m_cache_block_size d) (m_data_access_time d) (m_tags_access_time d) (m_data_array_bandwidth d)
    (m_dram_cntlr d) (m_cache d) (m_queue_model d) (m_prefetcher d) (m_prefetch_on_prefetch_hit d) (m_prefetch_mshr d)
    reads writes read_misses write_misses (m_hits_prefetch d) (m_prefetches d) (m_prefetch_mshr_delay d).

(** The number of sets from the size in KB. *)
Definition num_sets (cache_size associativity block_size : Z) : res Z :=
  n ← udiv (u32 (1024 * cache_size)) (u32 (associativity * block_size));
  check (u32 (1024 * cache_size) =? u32 (u32 (n * associativity) * block_size)) LogError;;
  Ok n.

Definition new (core_id cache_block_size cache_size associativity data_time tags_time bandwidth : Z) (create : nat -> res P)
    (info : option CacheSetInfoLRU) (hash : hash_t) (home : option AddressHomeLookup) (pages : list Z) (loc : Z) (with_data : bool)
    (queue : option Q) (prefetcher : option Prefetcher) (on_prefetch_hit : bool) (dram : D) : res t :=
  n ← num_sets cache_size associativity cache_block_size;
  c ← Cache_new "dram-cache" n associativity cache_block_size create info PR_L1_CACHE hash home pages loc with_data;
  Ok (mkDramCache core_id cache_block_size data_time tags_time bandwidth dram c queue prefetcher on_prefetch_hit
        (ContentionModel_new 16) 0 0 0 0 0 0 0).

Definition accessDataArray (t_start : Z) (perf : option ShmemPerf.t) (d : t) : res (Z * option ShmemPerf.t * t) :=
  processing_time ← bw_getRoundedLatency (m_data_array_bandwidth d) (u32 (8 * m_cache_block_size d));
  '(delay, q) ← queue_delay (m_queue_model d) t_start processing_time;
  perf ← perf_updateTime perf t_start ShmemPerf.UNKNOWN;
  perf ← perf_updateTime perf (t_start +64 delay) ShmemPerf.DRAM_CACHE_QUEUE;
  perf ← perf_updateTime perf (t_start +64 delay +64 processing_time) ShmemPerf.DRAM_CACHE_BUS;
  perf ← perf_updateTime perf (t_start +64 delay +64 processing_time +64 m_data_access_time d) ShmemPerf.DRAM_CACHE_DATA;
  Ok (delay +64 processing_time +64 m_data_access_time d, perf, with_parts (m_dram_cntlr d) (m_cache d) q d).

(** The line of the new data is written to the address of the victim. *)
Definition insertLine (access : CacheBase.access_t) (address requester : Z) (data_buf : list Z) (now : Z) (d : t) : res t :=
  r ← insertSingleLine (m_cache d) address (Some data_buf) (CacheBlockInfo_new PrL1CacheBlockInfo) true None DATA;
  o ← peekSingleLine (in_cache r) address;
  l ← deref o;
  c ← modify_block (setCState (match access with STORE => MODIFIED | _ => SHARED end)) l (in_cache r);
  '(_, _, d) ← accessDataArray now None (with_cache c d);
  if in_eviction r && bool_decide (m_cstate (in_evict_info r) = MODIFIED) then
    '(_, _, dram) ← dram_write (m_dram_cntlr d) (in_evict_addr r) requester data_buf now false;
    Ok (with_parts dram (m_cache d) (m_queue_model d) d)
  else Ok d.

Definition prefetch_one (t_issue prefetch_address : Z) (d : t) : res t :=
  o ← peekSingleLine (m_cache d) prefetch_address;
  if bool_decide (is_Some o) then Ok d
  else
    '(dram_latency, _, data_buf, _, dram) ← dram_read (m_dram_cntlr d) prefetch_address (m_core_id d) junk t_issue None false;
    d ← insertLine LOAD prefetch_address (m_core_id d) data_buf (t_issue +64 dram_latency)
          (with_parts dram (m_cache d) (m_queue_model d) d);
    o ← peekSingleLine (m_cache d) prefetch_address;
    l ← deref o;
    c ← modify_block (setOption PREFETCH) l (m_cache d);
    '(_, mshr) ← getCompletionTime t_issue dram_latency prefetch_address (m_prefetch_mshr d);
    Ok (with_prefetching (m_prefetcher d) mshr (m_prefetches d +64 1) (with_cache c d)).

Fixpoint prefetch_all (t_issue : Z) (l : list Z) (d : t) : res t :=
  match l with
  | [] => Ok d
  | a :: l => d ← prefetch_one t_issue a d; prefetch_all t_issue l d
  end.

(** [INVALID_CORE_ID] is passed as the core. *)
Definition callPrefetcher (train_address : Z) (cache_hit prefetch_hit : bool) (t_issue : Z) (d : t) : res t :=
  p ← deref (m_prefetcher d);
  '(prefetchList, p) ← Prefetch.getNextAddress train_address INVALID_CORE_ID p;
  let d := with_prefetching (Some p) (m_prefetch_mshr d) (m_prefetches d) d in
  if negb cache_hit || (m_prefetch_on_prefetch_hit d && prefetch_hit) then
    prefetch_all t_issue prefetchList d
  else Ok d.

(** A hit on a line that was prefetched waits for the prefetch to complete. *)
Definition first_use (address now latency : Z) (l : location) (d : t) : res (bool * Z * t) :=
  b ← read_block l (m_cache d);
  if hasOption PREFETCH b then
    c ← modify_block (clearOption PREFETCH) l (m_cache d);
    t_completed ← getTagCompletionTime address (m_prefetch_mshr d);
    let d := with_cache c d in
    if negb (t_completed =? MaxTime) && (now +64 latency <? t_completed) then
      Ok (true, t_completed -64 now,
          with_prefetch_hit (m_hits_prefetch d +64 1) (m_prefetch_mshr_delay d +64 (t_completed -64 (now +64 latency))) d)
    else Ok (true, latency, with_prefetch_hit (m_hits_prefetch d +64 1) (m_prefetch_mshr_delay d) d)
  else Ok (false, latency, d).

Definition doAccess (access : CacheBase.access_t) (address requester : Z) (data_buf : list Z) (now : Z) (perf : option ShmemPerf.t) (d : t)
  : res (bool * Z * list Z * option ShmemPerf.t * t) :=
  block_info ← peekSingleLine (m_cache d) address;
  let latency := m_tags_access_time d in
  perf ← perf_updateTime perf now ShmemPerf.UNKNOWN;
  perf ← perf_updateTime perf (now +64 latency) ShmemPerf.DRAM_CACHE_TAGS;
  '(cache_hit, prefetch_hit, latency, data_buf, perf, d) ←
    (match block_info with
     | Some l =>
         '(prefetch_hit, latency, d) ← first_use address now latency l d;
         '(r, c) ← accessSingleLine (m_cache d) address access (Some data_buf) (m_cache_block_size d) true false;
         '(t_data, perf, d) ← accessDataArray (now +64 latency) perf (with_cache c d);
         c ← (match access with STORE => modify_block (setCState MODIFIED) l (m_cache d) | _ => Ok (m_cache d) end);
         Ok (true, prefetch_hit, latency +64 t_data, default data_buf (r ≫= ar_data), perf, with_cache c d)
     | None =>
         '(latency, data_buf, perf, d) ←
           (match access with
            | LOAD =>
                '(dram_latency, _, data_buf, perf, dram) ←
                  dram_read (m_dram_cntlr d) address requester data_buf (now +64 latency) perf false;
                Ok (latency +64 dram_latency, data_buf, perf, with_parts dram (m_cache d) (m_queue_model d) d)
            | _ => Ok (latency, data_buf, perf, d)
            end);
         d ← insertLine access address requester data_buf (now +64 latency) d;
         Ok (false, false, latency, data_buf, perf, d)
     end);
  d ← (if bool_decide (is_Some (m_prefetcher d)) then callPrefetcher address cache_hit prefetch_hit (now +64 latency) d else Ok d);
  Ok (cache_hit, latency, data_buf, perf, d).

Definition where_found (hit : bool) : HitWhere.where_t := if hit then HitWhere.DRAM_CACHE else HitWhere.DRAM.

Definition getDataFromDram (d : t) (address requester : Z) (data_buf : list Z) (now : Z) (perf : option ShmemPerf.t) (metadata : bool)
  : res (Z * HitWhere.where_t * list Z * option ShmemPerf.t * t) :=
  '(hit, latency, data_buf, perf, d) ← doAccess LOAD address requester data_buf now perf d;
  Ok (latency, where_found hit, data_buf, perf,
      with_counts (m_reads d +64 1) (m_writes d) (if hit then m_read_misses d else m_read_misses d +64 1) (m_write_misses d) d).

(** No breakdown is passed for a write. *)
Definition putDataToDram (d : t) (address requester : Z) (data_buf : list Z) (now : Z) (metadata : bool)
  : res (Z * HitWhere.where_t * t) :=
  '(hit, latency, _, _, d) ← doAccess STORE address requester data_buf now None d;
  Ok (latency, where_found hit,
      with_counts (m_reads d) (m_writes d +64 1) (m_read_misses d) (if hit then m_write_misses d else m_write_misses d +64 1) d).

#[global] Instance dram_cache : DramInterface t := {
  dram_read := getDataFromDram;
  dram_write := putDataToDram
}.

End dram_cache.
Arguments t : clear implicits.

End DramCache.
