(* ===== verification/CacheCntlr.v ===== *)
(** * The cache controllers

    [parametric_dram_directory_msi/cache_cntlr.cc]: the accesses of a core and of the
    previous cache level, the copies of a line along the levels, evictions, invalidations
    and write-backs, the prefetch queue, the miss holding registers, the requests to the
    directory and the answers to its messages, the locks of the sets, and the memory
    manager's delivery of a message to the last level.

    A controller is an index in [topology]. The critical sections of [m_cache_lock] are
    inside atomic operations. A second-level write-through cache takes the lock of a set
    inside an operation that already holds one: the operation stops with [Blocked] when
    that lock is taken. *)

From stdpp Require Import base tactics list numbers gmap strings.
From Stdlib Require Import ZArith Lia.
From S2P Require Import Prelude Utils CacheBase CacheBlock CacheSet Cache Timing Contention Directory DirCntlr Prefetch CntlrState.
Local Open Scope Z_scope.
Local Open Scope mach_scope.

Module Cntlr.

Section cntlr.
Context {P D : Type} `{!ReplacementPolicy P} `{!DramCntlrInterface D}.
(** The controllers; the contents of uninitialised local buffers; the order in which an
    [unordered_map] is traversed. *)
Context (topology : list CntlrConfig) (junk : list Z) (traverse : gmap Z MshrEntry -> list (Z * MshrEntry)).

Abbreviation CM := (C P D).
Implicit Type s : Hierarchy P D.

(** ** Access to the state *)

Definition config (c : nat) : CM CntlrConfig := clift (rd topology c).

Definition cntlr (c : nat) : CM PCacheCntlr := fun s =>
  match rd (cntlrs s) c with Ok x => Ok (x, s) | Err f => Err f end.
Definition update_cntlr (c : nat) (f : PCacheCntlr -> PCacheCntlr) : CM unit := fun s =>
  match x ← rd (cntlrs s) c; wr (cntlrs s) c (f x) with
  | Ok l => Ok (tt, with_cntlrs l s)
  | Err f => Err f
  end.

Definition master (c : nat) : CM (CacheMasterCntlr P) := fun s =>
  match k ← rd topology c; rd (masters s) (m_master k) with Ok x => Ok (x, s) | Err f => Err f end.
Definition put_master (c : nat) (m : CacheMasterCntlr P) : CM unit := fun s =>
  match k ← rd topology c; wr (masters s) (m_master k) m with
  | Ok l => Ok (tt, with_masters l s)
  | Err f => Err f
  end.
Definition update_master (c : nat) (f : CacheMasterCntlr P -> CacheMasterCntlr P) : CM unit :=
  m ← master c; put_master c (f m).

(** The statistics. *)
Definition add_stat (c : nat) (x : Stat.t) (n : Z) : CM unit :=
  update_cntlr c (fun st => with_stats (fun y => if decide (x = y) then stats st y +64 n else stats st y) st).
Definition count (c : nat) (x : Stat.t) : CM unit := add_stat c x 1.
Definition count_if (b : bool) (c : nat) (x : Stat.t) : CM unit := cwhen b (count c x).

(** [getShmemPerfModel()] of a controller. *)
Definition getElapsedTime (c : nat) (t : Thread_t) : CM Z :=
  k ← config c; cget (fun s => elapsed s (cc_core_id k) t).
Definition setElapsedTime (c : nat) (t : Thread_t) (time : Z) : CM unit :=
  k ← config c;
  cmodify (fun s => with_elapsed (fun i t' => if (i =? cc_core_id k) && bool_decide (t = t') then time else elapsed s i t') s).
(** [MemoryManager::incrElapsedTime] *)
Definition incrElapsed (c : nat) (latency : Z) (t : Thread_t) : CM unit :=
  now ← getElapsedTime c t;
  now ← clift (incrElapsedTime now latency);
  setElapsedTime c t now.
Definition incrElapsed_access (c : nat) (access : CacheAccess_t) (t : Thread_t) : CM unit :=
  k ← config c;
  e ← cget perf_enabled;
  incrElapsed c (perf_getLatency e (sequential_model k) (data_access_time k) (tags_access_time k) access) t.

(** ** Blocks of the cache *)

Definition getCacheBlockInfo (c : nat) (address : Z) : CM (option location) :=
  m ← master c; clift (peekSingleLine (m_cache m) address).

Definition block (c : nat) (l : location) : CM CacheBlockInfo :=
  m ← master c; clift (read_block l (m_cache m)).
Definition update_block (c : nat) (f : CacheBlockInfo -> CacheBlockInfo) (l : location) : CM unit :=
  m ← master c;
  x ← clift (modify_block f l (m_cache m));
  put_master c (with_cache x m).

(** [getCacheState] of a block that may be null, and of an address. *)
Definition getCacheState_block (c : nat) (o : option location) : CM cstate_t :=
  match o with None => mret INVALID | Some l => b ← block c l; mret (m_cstate b) end.
Definition getCacheState (c : nat) (address : Z) : CM cstate_t :=
  o ← getCacheBlockInfo c address; getCacheState_block c o.

Definition getCacheBlockType (c : nat) (address : Z) : CM block_type_t :=
  o ← getCacheBlockInfo c address; l ← clift (deref o); b ← block c l; mret (m_block_type b).

Definition setCacheState (c : nat) (address : Z) (cstate : cstate_t) : CM location :=
  o ← getCacheBlockInfo c address;
  l ← clift (deref o);
  _ ← update_block c (setCState cstate) l;
  mret l.

Definition operation_permits (cstate : cstate_t) (mem_op_type : Core.mem_op_t) : bool :=
  match mem_op_type with
  | Core.READ => readable cstate
  | Core.READ_EX | Core.WRITE => writable cstate
  end.

(** The result and the block it is about. *)
Definition operationPermissibleinCache (c : nat) (address : Z) (mem_op_type : Core.mem_op_t)
  : CM (bool * option location) :=
  o ← getCacheBlockInfo c address;
  cstate ← getCacheState_block c o;
  mret (operation_permits cstate mem_op_type, o).

(** The sharing of a line among the previous levels is not tracked
    ([ENABLE_TRACK_SHARING_PREVCACHES]), so that the next level's
    [notifyPrevLevelInsert] and [notifyPrevLevelEvict] do nothing. *)
Definition invalidateCacheBlock (c : nat) (address : Z) : CM unit :=
  old_cstate ← getCacheState c address;
  _ ← ccheck (negb (bool_decide (old_cstate = MODIFIED))) AssertFailed;
  _ ← ccheck (negb (bool_decide (old_cstate = INVALID))) AssertFailed;
  m ← master c;
  '(_, x) ← clift (invalidateSingleLine (m_cache m) address);
  put_master c (with_cache x m).

(** [Cache::accessSingleLine] of the controller's cache. *)
Definition access_line (c : nat) (address : Z) (access_type : access_t) (data_buf : option (list Z))
    (data_length : Z) (update_replacement : bool) : CM (option access_result) :=
  m ← master c;
  '(r, x) ← clift (accessSingleLine (m_cache m) address access_type data_buf data_length update_replacement false);
  _ ← put_master c (with_cache x m);
  mret r.

(** The contents of the buffer afterwards: a cache that holds no data leaves it as it was. *)
Definition retrieveCacheBlock (c : nat) (address : Z) (update_replacement : bool) : CM (list Z) :=
  k ← config c;
  r ← access_line c address LOAD (Some junk) (cc_block_size k) update_replacement;
  r ← clift (match r with Some r => Ok r | None => Err LogError end);
  mret (default junk (ar_data r)).

(** ** Miss holding registers *)

Definition mshr_pending (o : option MshrEntry) (t_now : Z) : bool :=
  match o with Some e => (t_issue e <? t_now) && (t_now <? t_complete e) | None => false end.

(** The entry that completes first, by the traversal. *)
Definition oldest_entry (l : list (Z * MshrEntry)) : Z * Z :=
  fold_left (fun acc x => if t_complete (snd x) <? snd acc then (fst x, t_complete (snd x)) else acc) l (0, MaxTime).

(** [erase] of an address that is not there changes nothing, and the loop repeats for ever: when
    no entry completes before the maximal time, or for another reason. *)
Definition stuck_fault (r : gmap Z MshrEntry) : fault :=
  if negb (size r =? 0)%nat && forallb (fun x => MaxTime <=? t_complete (snd x)) (traverse r) then ClockEnd else Hangs.
Fixpoint cleanup_loop (fuel : nat) (limit : Z) (r : gmap Z MshrEntry) : res (gmap Z MshrEntry) :=
  if limit <? s32 (Z.of_nat (size r)) then
    let address_min := fst (oldest_entry (traverse r)) in
    _ ← check (bool_decide (is_Some (r !! address_min))) (stuck_fault r);
    match fuel with
    | O => Err Diverges
    | S fuel => cleanup_loop fuel limit (delete address_min r)
    end
  else Ok r.

Definition cleanupMshr (c : nat) : CM unit :=
  k ← config c; m ← master c;
  r ← clift (cleanup_loop (size (mshr m)) (mshr_size k) (mshr m));
  put_master c (with_mshr r m).
Definition cleanupMetadataMshr (c : nat) : CM unit :=
  k ← config c; m ← master c;
  r ← clift (cleanup_loop (size (metadata_mshr m)) (mshr_size k) (metadata_mshr m));
  put_master c (with_metadata_mshr r m).

Definition mshr_entry (metadata : bool) (address : Z) (m : CacheMasterCntlr P) : option MshrEntry :=
  if metadata then metadata_mshr m !! address else mshr m !! address.

(** A completion time is recorded. *)
Definition record_miss (c : nat) (metadata : bool) (address t_issue t_complete : Z) : CM unit :=
  if metadata then
    _ ← update_master c (fun m => with_metadata_mshr (<[address := make_mshr t_issue t_complete]> (metadata_mshr m)) m);
    cleanupMetadataMshr c
  else
    _ ← update_master c (fun m => with_mshr (<[address := make_mshr t_issue t_complete]> (mshr m)) m);
    cleanupMshr c.

(** ** Statistics *)

Definition updateCounters (c : nat) (mem_op_type : Core.mem_op_t) (address : Z) (cache_hit : bool)
    (state : cstate_t) (block_type : block_type_t) (isPrefetch : PrefetchType.prefetch_type_t) : CM unit :=
  let IsMetadata := isMetadataBlockType block_type in
  t_now ← getElapsedTime c _USER_THREAD;
  k ← config c;
  m ← master c;
  let overlapping := mshr_pending (mshr_entry IsMetadata address m) t_now in
  let cache_data_hit := negb (bool_decide (state = INVALID)) in
  m ← clift (accessATDs (bool_decide (mem_op_type = Core.WRITE)) cache_data_hit address (cc_core_id k - cc_core_id_master k) m);
  _ ← put_master c m;
  _ ← (if bool_decide (mem_op_type = Core.WRITE) then
         cwhen (negb (bool_decide (isPrefetch = PrefetchType.OWN)))
           (_ ← count c (Stat.stores block_type);
            _ ← count c Stat.tstores;
            _ ← count c (Stat.stores_state state block_type);
            _ ← cwhen (negb cache_hit || overlapping)
                  (_ ← count c Stat.tstore_misses;
                   _ ← count c (Stat.store_misses block_type);
                   _ ← count c (Stat.store_misses_state state block_type);
                   count_if overlapping c (Stat.store_overlapping_misses block_type));
            count_if (cache_hit && overlapping) c (Stat.store_overlapping block_type))
       else
         _ ← count_if (negb (bool_decide (isPrefetch = PrefetchType.NONE))) c (Stat.loads_prefetch block_type);
         cwhen (negb (bool_decide (isPrefetch = PrefetchType.OWN)))
           (_ ← count c Stat.tloads;
            _ ← count c (Stat.loads block_type);
            _ ← count c (Stat.loads_state state block_type);
            if negb cache_hit then
              _ ← count c Stat.tload_misses;
              _ ← count c (Stat.load_misses block_type);
              _ ← count c (Stat.load_misses_state state block_type);
              count_if overlapping c (Stat.load_overlapping_misses block_type)
            else
              _ ← count_if overlapping c (Stat.load_overlapping block_type);
              o ← getCacheBlockInfo c address;
              l ← clift (deref o);
              update_block c increaseReuse l));
  if IsMetadata then cleanupMetadataMshr c else cleanupMshr c.

(** [getCache()->updateCounters(cache_hit)] *)
Definition count_access (c : nat) (cache_hit : bool) : CM unit :=
  update_master c (fun m => with_cache (Cache.updateCounters cache_hit (m_cache m)) m).

(** Never called. *)
Fixpoint updateHits (c : nat) (mem_op_type : Core.mem_op_t) (hits : nat) : CM unit :=
  match hits with
  | O => mret tt
  | S hits =>
      _ ← count_access c true;
      _ ← updateCounters c mem_op_type 0 true (if bool_decide (mem_op_type = Core.READ) then SHARED else MODIFIED) DATA
            PrefetchType.NONE;
      updateHits c mem_op_type hits
  end.

Definition updateUncoreStatistics (c : nat) (hit_where : HitWhere.where_t) (now : Z) : CM unit :=
  _ ← update_cntlr c (with_remote_hit_where hit_where);
  x ← cntlr c;
  cwhen (0 <? m_shmem_perf_initial x)
    (_ ← update_cntlr c (with_perf_totals (m_shmem_perf_totaltime x +64 (now -64 m_shmem_perf_initial x))
                           (m_shmem_perf_numrequests x +64 1));
     update_cntlr c (with_perf_initial 0)).

(** ** Locks *)

Fixpoint last_level_from (fuel : nat) (c : nat) : CM nat :=
  match fuel with
  | O => clift (Err Diverges)
  | S fuel =>
      k ← config c;
      match m_next_cache_cntlr k with Some n => last_level_from fuel n | None => mret c end
  end.
Definition lastLevelCache (c : nat) : CM nat := last_level_from (length topology) c.

(** The lock of the set of an address, in the master of the last level. *)
Definition set_lock (c : nat) (address : Z) : CM SetLock.t :=
  l ← lastLevelCache c; m ← master l;
  i ← clift (getSetLock address m);
  clift (rd (m_setlocks m) i).
Definition update_set_lock (c : nat) (address : Z) (f : SetLock.t -> res SetLock.t) : CM unit :=
  l ← lastLevelCache c; m ← master l;
  i ← clift (getSetLock address m);
  x ← clift (rd (m_setlocks m) i);
  x ← clift (f x);
  r ← clift (wr (m_setlocks m) i x);
  put_master l (with_setlocks r m).

Definition lock_ready (c : nat) (address : Z) (p : SetLock.t -> bool) s : bool :=
  match set_lock c address s with Ok (l, _) => p l | Err _ => true end.

Definition isFirstLevel (c : nat) : CM bool := m ← master c; mret (bool_decide (m_prev_cache_cntlrs m = [])).

Definition acquireLock (c : nat) (address : Z) : thread P D unit :=
  k ← atomic (f ← isFirstLevel c; _ ← ccheck f AssertFailed; config c);
  wait (lock_ready c address (SetLock.shared_free (cc_core_id k)))
    (update_set_lock c address (SetLock.acquire_shared (cc_core_id k))).
Definition releaseLock (c : nat) (address : Z) : CM unit :=
  f ← isFirstLevel c; _ ← ccheck f AssertFailed;
  k ← config c;
  update_set_lock c address (SetLock.release_shared (cc_core_id k)).

(** The mutexes are taken one after the other; an upgrade first gives up the one it holds. *)
Definition acquireStackLock (c : nat) (address : Z) (this_is_locked : bool) : thread P D unit :=
  l ← atomic (_ ← (if this_is_locked then
                     k ← config c; update_set_lock c address (SetLock.release_shared (cc_core_id k))
                   else mret tt);
              set_lock c address);
  tfor (fun i => wait (lock_ready c address (SetLock.free_at i)) (update_set_lock c address (SetLock.acquire_at i)))
    (SetLock.mutexes l).
Definition releaseStackLock (c : nat) (address : Z) (this_is_locked : bool) : CM unit :=
  if this_is_locked then
    k ← config c; update_set_lock c address (SetLock.downgrade (cc_core_id k))
  else update_set_lock c address SetLock.release_exclusive.

(** ** Write-backs and updates along the levels *)

Definition memcpy (dst : list Z) (offset : Z) (src : list Z) (len : Z) : res (list Z) :=
  x ← slice src 0 (Z.to_nat len); splice dst (Z.to_nat offset) x.

(** The line must be there, MODIFIED. *)
Definition store_line (c : nat) (address offset : Z) (data_buf : option (list Z)) (data_length : Z) : CM unit :=
  r ← access_line c (address +64 offset) STORE data_buf data_length false;
  r ← clift (match r with Some r => Ok r | None => Err LogError end);
  ccheck (bool_decide (m_cstate (ar_block r) = MODIFIED)) LogError.

Definition write_buffered (c : nat) (k : CntlrConfig) (m : CacheMasterCntlr P) (buf : list Z) (offset : Z)
    (data_buf : option (list Z)) (data_length : Z) : CM unit :=
  _ ← ccheck (offset =? 0) AssertFailed;
  _ ← ccheck (data_length =? cc_block_size k) AssertFailed;
  match data_buf with
  | Some d => buf ← clift (memcpy buf offset d data_length);
              put_master c (with_evicting (m_evicting_address m) (Some buf) m)
  | None => mret tt
  end.

Fixpoint writeCacheBlock (fuel : nat) (c : nat) (address offset : Z) (data_buf : option (list Z)) (data_length : Z)
  : CM unit :=
  match fuel with
  | O => clift (Err Diverges)
  | S fuel =>
      k ← config c;
      m ← master c;
      _ ← match m_evicting_buf m with
          | Some buf =>
              if address =? m_evicting_address m then write_buffered c k m buf offset data_buf data_length
              else store_line c address offset data_buf data_length
          | None => store_line c address offset data_buf data_length
          end;
      cwhen (m_cache_writethrough k)
        (_ ← update_set_lock c 1 SetLock.acquire_exclusive;
         n ← clift (deref (m_next_cache_cntlr k));
         _ ← writeCacheBlock fuel n address offset data_buf data_length;
         update_set_lock c 1 SetLock.release_exclusive)
  end.

(** The statistics of a change of state. *)
Definition count_update (c : nat) (b : CacheBlockInfo) (new_cstate : cstate_t) (reason : Transition.reason_t) : CM unit :=
  _ ← cwhen (bool_decide (reason = Transition.COHERENCY))
        (_ ← (if bool_decide (new_cstate = SHARED) then count c Stat.coherency_downgrades
              else if bool_decide (m_cstate b = MODIFIED) then count c Stat.coherency_writebacks
              else count c Stat.coherency_invalidates);
         _ ← count_if (hasOption PREFETCH b && bool_decide (new_cstate = INVALID)) c Stat.invalidate_prefetch;
         count_if (hasOption WARMUP b && bool_decide (new_cstate = INVALID)) c Stat.invalidate_warmup);
  if bool_decide (reason = Transition.UPGRADE) then count c Stat.coherency_upgrades
  else if bool_decide (reason = Transition.BACK_INVAL) then count c (Stat.backinval (m_cstate b))
  else mret tt.

(** What an update of a block reports: whether data was found ([is_writeback],
    [sibling_hit]) and the buffer of the caller, with whether it was written. *)
Record Update := mkUpdate { u_sibling : bool; u_writeback : bool; u_written : bool; u_out : option (list Z) }.
Definition data_found (u : Update) : Update := mkUpdate true true (u_written u) (u_out u).
Definition data_written (d : list Z) : Update := mkUpdate true true true (Some d).

(** [out_buf], if there is one, gets the block. *)
Definition fill_out (c : nat) (address : Z) (u : Update) : CM Update :=
  match u_out u with
  | Some _ => d ← retrieveCacheBlock c address false; mret (data_written d)
  | None => mret u
  end.

(** MODIFIED data goes to the next level or to [out_buf]. *)
Definition write_back (fuel : nat) (c : nat) (k : CntlrConfig) (address : Z) (l : location) (u : Update) : CM Update :=
  u ← (if m_cache_writethrough k then mret u
       else match m_next_cache_cntlr k with
            | Some n =>
                d ← retrieveCacheBlock c address false;
                _ ← writeCacheBlock fuel n address 0 (Some d) (cc_block_size k);
                mret (data_found u)
            | None =>
                match u_out u with
                | Some _ => d ← retrieveCacheBlock c address false; mret (data_written d)
                | None => clift (Err LogError)
                end
            end);
  _ ← update_block c (setCState SHARED) l;
  mret u.

Definition change_state (c : nat) (k : CntlrConfig) (address : Z) (l : location) (new_cstate : cstate_t) (u : Update)
  : CM Update :=
  match new_cstate with
  | INVALID =>
      u ← fill_out c address u;
      _ ← cwhen (m_coherent k) (invalidateCacheBlock c address);
      mret u
  | SHARED =>
      u ← fill_out c address u;
      _ ← update_block c (setCState new_cstate) l;
      mret u
  | MODIFIED => _ ← update_block c (setCState new_cstate) l; mret u
  | _ => clift (Err LogError)
  end.

(** The part of [updateCacheBlock] after the previous levels. *)
Definition update_here (fuel : nat) (c : nat) (k : CntlrConfig) (address : Z) (new_cstate : cstate_t)
    (reason : Transition.reason_t) (u : Update) : CM Update :=
  o ← getCacheBlockInfo c address;
  u ← match o with
      | None => mret u
      | Some l =>
          b ← block c l;
          if bool_decide (new_cstate = m_cstate b) && bool_decide (is_Some (u_out u)) then
            d ← retrieveCacheBlock c address false; mret (data_written d)
          else
            _ ← count_update c b new_cstate reason;
            u ← (if bool_decide (m_cstate b = MODIFIED) then write_back fuel c k address l u else mret u);
            change_state c k address l new_cstate u
      end;
  here ← getCacheState c address;
  _ ← ccheck (bool_decide (here = INVALID) || bool_decide (here = new_cstate) || negb (m_coherent k)) LogError;
  current ← getCacheState_block c o;
  _ ← ccheck (bool_decide (current = INVALID) || bool_decide (current = new_cstate) || negb (m_coherent k)) LogError;
  _ ← ccheck (match u_out u with Some _ => u_written u | None => true end) LogError;
  mret u.

Definition below_num_states (c : cstate_t) : bool :=
  match c with INVALID_COLD | INVALID_EVICT | INVALID_COHERENCY => false | _ => true end.

Fixpoint updateCacheBlock (fuel : nat) (c : nat) (address : Z) (new_cstate : cstate_t) (reason : Transition.reason_t)
    (out_buf : option (list Z)) : CM (Z * bool * option (list Z)) :=
  match fuel with
  | O => clift (Err Diverges)
  | S fuel =>
      _ ← ccheck (below_num_states new_cstate) LogError;
      k ← config c;
      m ← master c;
      let reason' := if bool_decide (reason = Transition.EVICT) then Transition.BACK_INVAL else reason in
      sibling_hit ← cfold (fun sibling_hit p =>
            '(_, hit, _) ← updateCacheBlock fuel p address new_cstate reason' None;
            mret (sibling_hit || hit)) false (m_prev_cache_cntlrs m);
      u ← update_here (length topology) c k address new_cstate reason (mkUpdate sibling_hit false false out_buf);
      mret (if u_writeback u then cl_getLatency (m_writeback_time k) else 0, u_sibling u, u_out u)
  end.

Definition update_block_from (c : nat) (address : Z) (new_cstate : cstate_t) (reason : Transition.reason_t)
    (out_buf : option (list Z)) : CM (Z * bool * option (list Z)) :=
  updateCacheBlock (length topology) c address new_cstate reason out_buf.

(** The loops over the previous controllers: the greatest latency, and whether one had data. *)
Definition update_prev (c : nat) (skip : option nat) (address : Z) (new_cstate : cstate_t)
    (reason : Transition.reason_t) : CM (Z * bool) :=
  m ← master c;
  cfold (fun '(latency, sibling_hit) p =>
      if bool_decide (Some p = skip) then mret (latency, sibling_hit)
      else
        '(l, hit, _) ← update_block_from p address new_cstate reason None;
        mret (Z.max latency l, sibling_hit || hit)) (0, false) (m_prev_cache_cntlrs m).

(** The latency of a snoop is charged. *)
Definition charge_snoop (c : nat) (latency : Z) (t : Thread_t) : CM unit :=
  _ ← incrElapsed c latency t; add_stat c Stat.snoop_latency latency.

(** ** DRAM and the directory *)

Definition access_dram (c : nat) (mem_op_type : Core.mem_op_t) (address : Z) (data_buf : list Z) (metadata_request : bool)
  : CM (HitWhere.where_t * Z * list Z) :=
  k ← config c;
  t_issue ← getElapsedTime c _USER_THREAD;
  d ← cget dram;
  match mem_op_type with
  | Core.READ =>
      '(latency, hit_where, data, d) ← clift (getDataFromDram d address (cc_core_id_master k) data_buf t_issue metadata_request);
      _ ← cmodify (with_dram_state d);
      mret (hit_where, latency, data)
  | Core.READ_EX | Core.WRITE =>
      '(latency, hit_where, d) ← clift (putDataToDram d address (cc_core_id_master k) data_buf t_issue metadata_request);
      _ ← cmodify (with_dram_state d);
      mret (hit_where, latency, data_buf)
  end.

(** [MemoryManager::sendMsg] from the last level to a directory. *)
Definition send (c : nat) (msg_type : msg_t) (requester receiver address : Z) (data : data_buf) (len : Z) (t : Thread_t)
    (bt : block_type_t) : CM unit :=
  k ← config c;
  _ ← ccheck (eqb (bool_decide (data = NULL)) (len =? 0)) AssertFailed;
  m ← clift (transmit (setWhere HitWhere.UNKNOWN (ShmemMsg_new msg_type MemComponent.LAST_LEVEL_CACHE
               MemComponent.TAG_DIR requester address data len bt)));
  now ← getElapsedTime c t;
  cmodify (fun s => with_packets (packets s ++ [(sender_core_id k, mkPacket now (Some receiver) m)]) s).

Definition home (c : nat) (address : Z) : CM Z :=
  k ← config c; clift (getHome (m_tag_directory_home_lookup k) address).

Definition processExReqToDirectory (c : nat) (address : Z) (block_type : block_type_t) : CM unit :=
  cstate ← getCacheState c address;
  _ ← ccheck (negb (bool_decide (cstate = SHARED))) LogError;
  _ ← ccheck (bool_decide (cstate = INVALID)) AssertFailed;
  k ← config c; h ← home c address;
  send c EX_REQ (cc_core_id_master k) h address NULL 0 _USER_THREAD block_type.

Definition processUpgradeReqToDirectory (c : nat) (address : Z) (t : Thread_t) (block_type : block_type_t) : CM unit :=
  cstate ← getCacheState c address;
  _ ← ccheck (bool_decide (cstate = SHARED)) AssertFailed;
  _ ← setCacheState c address SHARED_UPGRADING;
  k ← config c; h ← home c address;
  send c UPGRADE_REQ (cc_core_id_master k) h address NULL 0 t block_type.

Definition processShReqToDirectory (c : nat) (address : Z) (block_type : block_type_t) : CM unit :=
  k ← config c; h ← home c address;
  send c SH_REQ (cc_core_id_master k) h address NULL 0 _USER_THREAD block_type.

Definition waiters_of (q : CacheDirectoryWaiterMap) (address : Z) : list CacheDirectoryWaiter := default [] (q !! address).

Definition initiateDirectoryAccess (c : nat) (mem_op_type : Core.mem_op_t) (address : Z) (block_type : block_type_t)
    (isPrefetch : bool) (t_issue : Z) : CM unit :=
  let exclusive := match mem_op_type with Core.READ => false | Core.READ_EX | Core.WRITE => true end in
  m ← master c;
  let q := waiters_of (m_directory_waiters m) address ++ [mkWaiter exclusive block_type isPrefetch c t_issue] in
  _ ← put_master c (with_waiters (<[address := q]> (m_directory_waiters m)) m);
  cwhen (bool_decide (length q = 1%nat))
    (now ← getElapsedTime c _USER_THREAD;
     _ ← update_cntlr c (with_perf_initial now);
     if exclusive then
       cstate ← getCacheState c address;
       if bool_decide (cstate = SHARED) then processUpgradeReqToDirectory c address _USER_THREAD block_type
       else processExReqToDirectory c address block_type
     else processShReqToDirectory c address block_type).

(** ** Insertions and evictions *)

(** The query of the replacement policy. *)
Definition isInLowerLevelCache (m : CacheMasterCntlr P) s (b : CacheBlockInfo) : bool :=
  let address := tagToAddress (cb (m_cache m)) (m_tag b) in
  existsb (fun p => match getCacheBlockInfo p address s with Ok (Some _, _) => true | _ => false end) (m_prev_cache_cntlrs m).

Definition incrementQBSLookupCost (c : nat) : CM unit :=
  k ← config c;
  let latency := cl_getLatency (m_writeback_time k) in
  _ ← incrElapsed c latency _USER_THREAD;
  add_stat c Stat.qbs_query_latency latency.

(** [Cache::insertSingleLine] with this controller; the queries it made are charged. *)
Definition insert_line (c : nat) (address : Z) (data_buf : option (list Z)) (block_type : block_type_t) : CM (insertion P) :=
  m ← master c;
  query ← cget (isInLowerLevelCache m);
  r ← clift (insertSingleLine (m_cache m) address data_buf (CacheBlockInfo_new SharedCacheBlockInfo) true
               (Some (mkCntlr query 0)) block_type);
  _ ← put_master c (with_cache (in_cache r) m);
  _ ← cfold (fun _ _ => incrementQBSLookupCost c) tt
        (seq 0 (Z.to_nat (match in_cntlr r with Some q => qbs_lookups q | None => 0 end)));
  mret r.

Definition count_evicted (c : nat) (evict_address : Z) (b : CacheBlockInfo) : CM unit :=
  _ ← count c (Stat.evict (m_cstate b));
  _ ← count_if (hasOption PREFETCH b) c Stat.evict_prefetch;
  _ ← count_if (hasOption WARMUP b) c Stat.evict_warmup;
  x ← cntlr c;
  cwhen (m_doing_spec_prefetch x && negb (bool_decide (m_cstate b = INVALID)))
    (m ← master c;
     t ← clift (specEvictInsert evict_address (m_l2_demand_count m) (m_spec_evict_table m));
     _ ← put_master c (with_spec t (m_l2_demand_count m) m);
     count c Stat.spec_evict_total).

(** The copies of an evicted line in the previous levels; they write modified data to the
    evict buffer, whose contents are returned. *)
Definition back_invalidate (c : nat) (evict_address : Z) (evict_buf : list Z) (t : Thread_t) : CM (list Z) :=
  m ← master c;
  if bool_decide (m_prev_cache_cntlrs m = []) then mret evict_buf
  else
    _ ← put_master c (with_evicting evict_address (Some evict_buf) m);
    '(latency, _) ← update_prev c None evict_address INVALID Transition.BACK_INVAL;
    _ ← charge_snoop c latency t;
    m ← master c;
    _ ← put_master c (with_evicting 0 None m);
    mret (default evict_buf (m_evicting_buf m)).

(** The implicit conversion of a block type to [bool]. *)
Definition block_type_flag (b : block_type_t) : bool := negb (bool_decide (b = PAGE_TABLE_DATA)).

(** A dirty line leaves a last level that is connected to DRAM. *)
Definition write_to_dram (c : nat) (evict_address : Z) (evict_buf : list Z) (block_type : block_type_t) : CM unit :=
  t_now ← getElapsedTime c _USER_THREAD;
  m ← master c;
  _ ← match m_dram_outstanding_writebacks m with
      | Some q => t_issue ← clift (getStartTime t_now q); incrElapsed c (t_issue -64 t_now) _USER_THREAD
      | None => mret tt
      end;
  '(_, dram_latency, _) ← access_dram c Core.WRITE evict_address evict_buf (block_type_flag block_type);
  m ← master c;
  match m_dram_outstanding_writebacks m with
  | Some q => '(_, q) ← clift (getCompletionTime t_now dram_latency 0 q); put_master c (with_dram (m_dram_cntlr m) (Some q) m)
  | None => mret tt
  end.

(** A line leaves a last level of the coherence protocol. *)
Definition evict_to_directory (c : nat) (k : CntlrConfig) (evict_address : Z) (b : CacheBlockInfo) (evict_buf : list Z)
    (t : Thread_t) : CM unit :=
  h ← home c evict_address;
  if bool_decide (m_cstate b = MODIFIED) then
    send c FLUSH_REP (cc_core_id k) h evict_address (Live evict_buf) (cc_block_size k) t (m_block_type b)
  else
    _ ← ccheck (bool_decide (m_cstate b = SHARED) || bool_decide (m_cstate b = EXCLUSIVE)) LogError;
    send c INV_REP (cc_core_id k) h evict_address NULL 0 t (m_block_type b).

Definition dispose (c : nat) (k : CntlrConfig) (evict_address : Z) (b : CacheBlockInfo) (evict_buf : list Z)
    (block_type : block_type_t) (t : Thread_t) : CM unit :=
  m ← master c;
  if m_perfect k then mret tt
  else if negb (m_coherent k) then
    ccheck (m_cache_writethrough k || negb (bool_decide (m_cstate b = MODIFIED))) LogError
  else
    match m_next_cache_cntlr k with
    | Some n =>
        cwhen (negb (m_cache_writethrough k) && bool_decide (m_cstate b = MODIFIED))
          (writeCacheBlock (length topology) n evict_address 0 (Some evict_buf) (cc_block_size k))
    | None =>
        if m_dram_cntlr m then
          cwhen (bool_decide (m_cstate b = MODIFIED)) (write_to_dram c evict_address evict_buf block_type)
        else evict_to_directory c k evict_address b evict_buf t
    end.

Definition insertCacheBlock (c : nat) (address : Z) (cstate : cstate_t) (data_buf : option (list Z)) (t : Thread_t)
    (block_type : block_type_t) : CM location :=
  k ← config c;
  old ← getCacheState c address;
  _ ← ccheck (bool_decide (old = INVALID)) LogError;
  r ← insert_line c address data_buf block_type;
  l ← setCacheState c address cstate;
  warm ← cget cache_only;
  _ ← cwhen warm (update_block c (setOption WARMUP) l);
  _ ← cwhen (in_eviction r)
        (let evict_address := in_evict_addr r in
         _ ← count_evicted c evict_address (in_evict_info r);
         evict_buf ← back_invalidate c evict_address (default junk (in_evict_buff r)) t;
         _ ← dispose c k evict_address (in_evict_info r) evict_buf block_type t;
         now ← getCacheState c evict_address;
         ccheck (bool_decide (now = INVALID)) LogError);
  mret l.

(** ** Requests from the previous level *)

Fixpoint updateUsageBits (fuel : nat) (c : nat) (address used : Z) : CM unit :=
  match fuel with
  | O => clift (Err Diverges)
  | S fuel =>
      k ← config c;
      o ← getCacheBlockInfo c address;
      l ← clift (deref o);
      b ← block c l;
      _ ← update_block c (fun b => snd (updateUsage_mask used b)) l;
      match m_next_cache_cntlr k with
      | Some n => cwhen (fst (updateUsage_mask used b) && negb (m_perfect k)) (updateUsageBits fuel n address used)
      | None => mret tt
      end
  end.

(** A use of a block; new bits are reported to the next level. *)
Definition use_block (c : nat) (l : location) (address offset data_length : Z) : CM unit :=
  k ← config c;
  b ← block c l;
  let '(new_bits, b') := updateUsage offset data_length b in
  _ ← update_block c (fun b => snd (updateUsage offset data_length b)) l;
  match m_next_cache_cntlr k with
  | Some n => cwhen new_bits (updateUsageBits (length topology) n address (m_used b'))
  | None => mret tt
  end.

(** The wait for the bandwidth to the next level. *)
Definition charge_bandwidth (c : nat) (k : CntlrConfig) (t_now : Z) : CM unit :=
  delay ← clift (bwc_getRoundedLatency (read_bandwidth_period k) (read_bandwidth_bits k) (u32 (cc_block_size k * 8)));
  m ← master c;
  '(t_done, q) ← clift (getCompletionTime t_now delay 0 (m_next_level_read m));
  _ ← put_master c (with_next_level_read q m);
  _ ← ccheck (t_now +64 delay <=? t_done) LogError;
  incrElapsed c (t_done -64 t_now -64 delay) _USER_THREAD.

Definition copyDataFromNextLevel (c : nat) (mem_op_type : Core.mem_op_t) (address : Z) (modeled : bool) (t_now : Z)
    (block_type : block_type_t) : CM unit :=
  k ← config c;
  n ← clift (deref (m_next_cache_cntlr k));
  '(ok, _) ← operationPermissibleinCache n address mem_op_type;
  _ ← ccheck ok LogError;
  data_buf ← retrieveCacheBlock n address false;
  cstate ← getCacheState n address;
  _ ← cwhen (modeled && negb (read_bandwidth_bits k =? 0)) (charge_bandwidth c k t_now);
  o ← getCacheBlockInfo c address;
  match o with
  | Some _ => _ ← update_block_from c address cstate Transition.UPGRADE None; mret tt
  | None => _ ← insertCacheBlock c address cstate (Some data_buf) _USER_THREAD block_type; mret tt
  end.

(** At most one address more than the bound enters the queue. *)
Fixpoint enqueue_prefetches (c : nat) (l : list Z) : CM unit :=
  match l with
  | [] => mret tt
  | a :: l =>
      m ← master c;
      if (PREFETCH_MAX_QUEUE_LENGTH <? length (m_prefetch_list m))%nat then mret tt
      else
        '(present, _) ← operationPermissibleinCache c a Core.READ;
        _ ← cwhen (negb present)
              (put_master c (with_prefetch_list (m_prefetch_list m ++ [a]) (m_prefetch_next m) m));
        enqueue_prefetches c l
  end.

Definition trainPrefetcher (c : nat) (address : Z) (cache_hit prefetch_hit : bool) (t_issue : Z) : CM unit :=
  k ← config c;
  m ← master c;
  p ← clift (deref (m_prefetcher m));
  '(prefetchList, p) ← clift (Prefetch.getNextAddress address (cc_core_id k) p);
  _ ← put_master c (with_prefetcher (Some p) m);
  cwhen (negb cache_hit || (m_prefetch_on_prefetch_hit k && prefetch_hit))
    (_ ← update_master c (with_prefetch_list [] (t_issue +64 PREFETCH_INTERVAL));
     enqueue_prefetches c prefetchList).

(** Evictions by speculative prefetches that a later demand miss shows to be harmful. *)
Definition track_spec_evictions (c : nat) (k : CntlrConfig) (address : Z) (isPrefetch : PrefetchType.prefetch_type_t)
    (first_hit : bool) : CM unit :=
  cwhen (bool_decide (m_mem_component k = MemComponent.L2_CACHE) && bool_decide (isPrefetch = PrefetchType.NONE))
    (m ← master c;
     let n := m_l2_demand_count m +64 1 in
     if first_hit then
       t ← clift (specEvictRemove address (m_spec_evict_table m));
       put_master c (with_spec t n m)
     else
       '(stamp, t) ← clift (specEvictLookupAndRemove address (m_spec_evict_table m));
       _ ← put_master c (with_spec t n m);
       count_if (negb (stamp =? 0) && (n -64 stamp <=? SPEC_EVICTION_WINDOW)) c Stat.spec_evict_harmful).

(** A line whose miss is still in progress is waited for. *)
Definition wait_for_miss (c : nat) (metadata : bool) (address : Z) (l : location) (count_late : bool) : CM bool :=
  t_now ← getElapsedTime c _USER_THREAD;
  m ← master c;
  match mshr_entry metadata address m with
  | Some e =>
      if mshr_pending (Some e) t_now then
        let latency := t_complete e -64 t_now in
        b ← block c l;
        _ ← count_if (count_late && metadata && hasOption PREFETCH b) c Stat.late_metadata_prefetches;
        _ ← add_stat c (if metadata then Stat.metadata_mshr_latency else Stat.mshr_latency) latency;
        _ ← incrElapsed c latency _USER_THREAD;
        mret true
      else mret false
  | None => mret false
  end.

(** The copies in the other caches of the previous level are invalidated or shared. *)
Definition snoop_prev (c : nat) (requester : nat) (address : Z) (new_cstate : cstate_t) (reason : Transition.reason_t)
  : CM bool :=
  '(latency, sibling_hit) ← update_prev c (Some requester) address new_cstate reason;
  _ ← charge_snoop c latency _USER_THREAD;
  mret sibling_hit.

(** What a request of the previous level carries. *)
Record Request := mkRequest {
  rq_op : Core.mem_op_t; rq_address : Z; rq_offset : Z; rq_length : Z; rq_modeled : bool; rq_count : bool;
  rq_block_type : block_type_t; rq_prefetch : PrefetchType.prefetch_type_t; rq_issue : Z }.
Abbreviation rq_metadata r := (isMetadataBlockType (rq_block_type r)).
Definition is_demand (r : Request) : bool := bool_decide (rq_prefetch r = PrefetchType.NONE).
(** A prefetch is a prefetch by another cache for the next level. *)
Definition to_next (r : Request) : Request :=
  mkRequest (rq_op r) (rq_address r) (rq_offset r) (rq_length r) (rq_modeled r) (rq_count r) (rq_block_type r)
    (if is_demand r then PrefetchType.NONE else PrefetchType.OTHER) (rq_issue r).

(** The look-up: whether the cache hits, whether it held the line, and the block. *)
Definition lookup_line (c : nat) (k : CntlrConfig) (r : Request) : CM (bool * bool * option location) :=
  '(first_hit, o) ← operationPermissibleinCache c (rq_address r) (rq_op r);
  if negb first_hit && m_perfect k then
    match o with
    | Some l => _ ← update_block c (setCState MODIFIED) l; mret (true, first_hit, Some l)
    | None =>
        l ← insertCacheBlock c (rq_address r) (if bool_decide (rq_op r = Core.READ) then SHARED else MODIFIED) None
              _USER_THREAD (rq_block_type r);
        mret (true, first_hit, Some l)
    end
  else if first_hit && m_passthrough k && rq_count r then
    l ← clift (deref o);
    _ ← update_block c block_invalidate l;
    _ ← ccheck (bool_decide (is_Some (m_next_cache_cntlr k))) LogError;
    mret (false, false, None)
  else mret (first_hit, first_hit, o).

(** Options of the block that the access ends. *)
Definition first_use (c : nat) (r : Request) (l : location) : CM bool :=
  b ← block c l;
  let prefetch_hit := is_demand r && hasOption PREFETCH b in
  _ ← cwhen prefetch_hit (_ ← count c Stat.hits_prefetch; update_block c (clearOption PREFETCH) l);
  warm ← cget cache_only;
  _ ← cwhen (hasOption WARMUP b && negb warm) (_ ← count c Stat.hits_warmup; update_block c (clearOption WARMUP) l);
  mret prefetch_hit.

(** Where the data came from, if the directory just provided it, or else this level. *)
Definition hit_where_here (c : nat) (k : CntlrConfig) (sibling_hit : bool) : CM HitWhere.where_t :=
  x ← cntlr c;
  if bool_decide (m_last_remote_hit_where x = HitWhere.UNKNOWN) then
    mret (if sibling_hit then where_sibling (m_mem_component k) else where_own (m_mem_component k))
  else
    _ ← update_cntlr c (with_remote_hit_where HitWhere.UNKNOWN);
    mret (m_last_remote_hit_where x).

Definition serve_hit (c : nat) (k : CntlrConfig) (requester : nat) (r : Request) (l : location)
  : CM (HitWhere.where_t * bool) :=
  prefetch_hit ← first_use c r l;
  _ ← cwhen (negb (m_perfect k)) (use_block c l (rq_address r) (rq_offset r) (rq_length r));
  _ ← cwhen (rq_modeled r)
        (waited ← wait_for_miss c (rq_metadata r) (rq_address r) l true;
         cwhen (negb waited) (incrElapsed_access c ACCESS_CACHE_DATA_AND_TAGS _USER_THREAD));
  b ← block c l;
  sibling_hit ← (if negb (bool_decide (rq_op r = Core.READ)) then
                   snoop_prev c requester (rq_address r) INVALID Transition.COHERENCY
                 else if bool_decide (m_cstate b = MODIFIED) || bool_decide (m_cstate b = EXCLUSIVE) then
                   snoop_prev c requester (rq_address r) SHARED Transition.COHERENCY
                 else mret false);
  w ← hit_where_here c k sibling_hit;
  mret (w, prefetch_hit).

(** The line came in: it may be a prefetch, and it is used. *)
Definition mark_filled (c : nat) (k : CntlrConfig) (r : Request) : CM unit :=
  _ ← cwhen (negb (is_demand r))
        (o ← getCacheBlockInfo c (rq_address r);
         l ← clift (deref o);
         update_block c (setOption PREFETCH) l);
  cwhen (rq_modeled r && negb (m_perfect k))
    (o ← getCacheBlockInfo c (rq_address r);
     match o with
     | Some l => use_block c l (rq_address r) (rq_offset r) (rq_length r)
     | None => mret tt
     end).

(** The line is read from DRAM. *)
Definition fetch_from_dram (c : nat) (k : CntlrConfig) (r : Request) : CM HitWhere.where_t :=
  now ← getElapsedTime c _USER_THREAD;
  _ ← update_cntlr c (with_perf_initial now);
  '(hit_where, latency, data_buf) ← access_dram c Core.READ (rq_address r) junk (rq_metadata r);
  _ ← incrElapsed c latency _USER_THREAD;
  _ ← insertCacheBlock c (rq_address r) (if bool_decide (rq_op r = Core.READ) then SHARED else MODIFIED) (Some data_buf)
        _USER_THREAD (rq_block_type r);
  _ ← mark_filled c k r;
  now ← getElapsedTime c _USER_THREAD;
  _ ← updateUncoreStatistics c hit_where now;
  mret hit_where.

(** A miss of the last level: a silent upgrade, an access to DRAM, or a request to the directory. *)
Definition last_level_miss (c : nat) (k : CntlrConfig) (requester : nat) (r : Request) (o : option location)
  : CM (HitWhere.where_t * bool) :=
  cstate ← getCacheState_block c o;
  m ← master c;
  match o with
  | Some l =>
      if bool_decide (cstate = EXCLUSIVE) then
        _ ← snoop_prev c requester (rq_address r) INVALID Transition.UPGRADE;
        _ ← update_block c (setCState MODIFIED) l;
        mret (where_own (m_mem_component k), true)
      else if m_dram_cntlr m then
        _ ← update_block c (setCState MODIFIED) l;
        mret (where_own (m_mem_component k), true)
      else
        _ ← initiateDirectoryAccess c (rq_op r) (rq_address r) (rq_block_type r) (negb (is_demand r)) (rq_issue r);
        mret (HitWhere.MISS, false)
  | None =>
      if m_dram_cntlr m then w ← fetch_from_dram c k r; mret (w, true)
      else
        _ ← initiateDirectoryAccess c (rq_op r) (rq_address r) (rq_block_type r) (negb (is_demand r)) (rq_issue r);
        mret (HitWhere.MISS, false)
  end.

(** The part of a miss before the next level is asked. *)
Definition begin_miss (c : nat) (requester : nat) (r : Request) (o : option location) : CM unit :=
  _ ← cwhen (rq_modeled r) (incrElapsed_access c ACCESS_CACHE_TAGS _USER_THREAD);
  cstate ← getCacheState_block c o;
  cwhen (bool_decide (cstate = SHARED)) (_ ← snoop_prev c requester (rq_address r) INVALID Transition.UPGRADE; mret tt).

(** The part of a request after the line was found or fetched. *)
Definition finish_request (c : nat) (k : CntlrConfig) (r : Request) (cache_hit first_hit prefetch_hit : bool) : CM unit :=
  _ ← cwhen cache_hit
        (_ ← retrieveCacheBlock c (rq_address r) (first_hit && rq_count r);
         cwhen (rq_modeled r && negb first_hit && negb (m_passthrough k))
           (now ← getElapsedTime c _USER_THREAD;
            record_miss c (rq_metadata r) (rq_address r) (rq_issue r) now));
  m ← master c;
  cwhen (rq_modeled r && bool_decide (is_Some (m_prefetcher m)) && negb (rq_metadata r))
    (trainPrefetcher c (rq_address r) cache_hit prefetch_hit (rq_issue r)).

Definition count_request (c : nat) (r : Request) (cache_hit : bool) : CM unit :=
  cwhen (rq_count r)
    (_ ← cwhen (is_demand r) (count_access c cache_hit);
     cstate ← getCacheState c (rq_address r);
     updateCounters c (rq_op r) (rq_address r) cache_hit cstate (rq_block_type r) (rq_prefetch r)).

Fixpoint processShmemReqFromPrevCache (fuel : nat) (c : nat) (requester : nat) (r : Request) : CM HitWhere.where_t :=
  match fuel with
  | O => clift (Err Diverges)
  | S fuel =>
      k ← config c;
      '(cache_hit, first_hit, o) ← lookup_line c k r;
      _ ← track_spec_evictions c k (rq_address r) (rq_prefetch r) first_hit;
      _ ← count_request c r cache_hit;
      '(hit_where, cache_hit, prefetch_hit) ←
        (if cache_hit : bool then
           l ← clift (deref o);
           '(w, ph) ← serve_hit c k requester r l;
           mret (w, true, ph)
         else
           _ ← begin_miss c requester r o;
           match m_next_cache_cntlr k with
           | Some n =>
               _ ← cwhen (bool_decide (is_Some o)) (invalidateCacheBlock c (rq_address r));
               w ← processShmemReqFromPrevCache fuel n c (to_next r);
               if bool_decide (w = HitWhere.MISS) then mret (w, false, false)
               else
                 t_now ← getElapsedTime c _USER_THREAD;
                 _ ← copyDataFromNextLevel c (rq_op r) (rq_address r) (rq_modeled r) t_now (rq_block_type r);
                 _ ← mark_filled c k r;
                 mret (w, true, false)
           | None => '(w, hit) ← last_level_miss c k requester r o; mret (w, hit, false)
           end);
      _ ← finish_request c k r cache_hit first_hit prefetch_hit;
      mret hit_where
  end.

Definition request_next (n : nat) (requester : nat) (r : Request) : CM HitWhere.where_t :=
  processShmemReqFromPrevCache (length topology) n requester r.

(** ** Accesses of the core *)

(** The data read, if the cache holds data. *)
Definition accessCache (c : nat) (mem_op_type : Core.mem_op_t) (ca_address offset : Z) (data_buf : option (list Z))
    (data_length : Z) (update_replacement : bool) : CM (option (list Z)) :=
  match mem_op_type with
  | Core.READ | Core.READ_EX =>
      r ← access_line c (ca_address +64 offset) LOAD data_buf data_length update_replacement;
      mret (r ≫= ar_data)
  | Core.WRITE =>
      k ← config c;
      _ ← access_line c (ca_address +64 offset) STORE data_buf data_length update_replacement;
      _ ← cwhen (m_cache_writethrough k)
            (n ← clift (match m_next_cache_cntlr k with Some n => Ok n | None => Err LogError end);
             writeCacheBlock (length topology) n ca_address offset data_buf data_length);
      mret None
  end.

(** An access of the core. *)
Record Access := mkCoreAccess {
  ac_lock : Core.lock_signal_t; ac_op : Core.mem_op_t; ac_address : Z; ac_offset : Z; ac_data : option (list Z);
  ac_length : Z; ac_modeled : bool; ac_count : bool; ac_block_type : block_type_t }.
Abbreviation ac_metadata a := (isMetadataBlockType (ac_block_type a)).
(** The request to the next level: the first one, and the one after the directory's reply. *)
Definition access_request (a : Access) (t_start : Z) (again : bool) : Request :=
  mkRequest (ac_op a) (ac_address a) (ac_offset a) (ac_length a) (ac_modeled a && negb again) (ac_count a && negb again)
    (ac_block_type a) PrefetchType.NONE t_start.

(** A write-through cache locks the next levels too. *)
Definition lock_all (k : CntlrConfig) (a : Access) : bool :=
  m_cache_writethrough k && (bool_decide (ac_op a = Core.WRITE) || negb (bool_decide (ac_lock a = Core.NONE))).

(** The metadata that the first level does not keep. *)
Definition bypasses (k : CntlrConfig) (a : Access) : bool := ac_metadata a && negb (cc_passthrough_loc k =? 1).

Definition access_lookup (c : nat) (k : CntlrConfig) (a : Access) : CM (bool * option location) :=
  '(hit, o) ← operationPermissibleinCache c (ac_address a) (ac_op a);
  '(hit, o) ←
    (if negb hit && m_perfect k then
       match o with
       | Some l => _ ← update_block c (setCState MODIFIED) l; mret (true, Some l)
       | None =>
           _ ← insertCacheBlock c (ac_address a) (if bool_decide (ac_op a = Core.READ) then SHARED else MODIFIED) None
                 _USER_THREAD (ac_block_type a);
           o ← getCacheBlockInfo c (ac_address a); mret (true, o)
       end
     else if hit && (m_passthrough k || bypasses k a) then
       l ← clift (deref o); _ ← update_block c block_invalidate l; mret (false, None)
     else mret (hit, o));
  _ ← cwhen (ac_count a)
        (_ ← count_access c hit;
         cstate ← getCacheState_block c o;
         updateCounters c (ac_op a) (ac_address a) hit cstate (ac_block_type a) PrefetchType.NONE);
  mret (hit, o).

(** The first level's registers: the completion of an overlapping miss is waited for. *)
Definition wait_for_tag (c : nat) (a : Access) : CM unit :=
  t_now ← getElapsedTime c _USER_THREAD;
  m ← master c;
  t_completed ← clift (getTagCompletionTime (ac_address a) (if ac_metadata a then m_l1_metadata_mshr m else m_l1_mshr m));
  cwhen (negb (t_completed =? MaxTime) && (t_now <? t_completed))
    (let bt := if ac_metadata a then ac_block_type a else DATA in
     _ ← count c (if bool_decide (ac_op a = Core.WRITE) then Stat.store_overlapping_misses bt
                  else Stat.load_overlapping_misses bt);
     incrElapsed c (t_completed -64 t_now) _USER_THREAD).

(** A demand access. *)
Definition access_as_demand (a : Access) : Request := access_request a 0 false.

(** The result of a hit: the data, and whether the line had been prefetched. *)
Definition access_hit (c : nat) (k : CntlrConfig) (a : Access) (o : option location) : CM (option (list Z) * bool) :=
  _ ← incrElapsed_access c ACCESS_CACHE_DATA_AND_TAGS _USER_THREAD;
  l ← clift (deref o);
  prefetch_hit ← first_use c (access_as_demand a) l;
  _ ← cwhen (ac_modeled a && has_l1_mshr k && has_l1_metadata_mshr k) (wait_for_tag c a);
  _ ← cwhen (ac_modeled a) (_ ← wait_for_miss c (ac_metadata a) (ac_address a) l false; mret tt);
  _ ← cwhen (ac_modeled a && bool_decide (is_Some (m_next_cache_cntlr k)) && negb (m_perfect k))
        (use_block c l (ac_address a) (ac_offset a) (ac_length a));
  d ← accessCache c (ac_op a) (ac_address a) (ac_offset a) (ac_data a) (ac_length a) (ac_count a);
  mret (d, prefetch_hit).

Definition uses_l1_mshr (k : CntlrConfig) (a : Access) : bool :=
  ac_modeled a && has_l1_mshr k && negb (m_passthrough k) && has_l1_metadata_mshr k.

(** The start of a miss: when it began, and when a register was free. *)
Definition begin_access_miss (c : nat) (k : CntlrConfig) (a : Access) : CM (Z * Z) :=
  _ ← cwhen (negb (m_passthrough k)) (incrElapsed_access c ACCESS_CACHE_TAGS _USER_THREAD);
  t_miss_begin ← getElapsedTime c _USER_THREAD;
  t_mshr_avail ←
    (if uses_l1_mshr k a then
       m ← master c;
       t ← clift (getStartTime t_miss_begin (if ac_metadata a then m_l1_metadata_mshr m else m_l1_mshr m));
       _ ← ccheck (t_miss_begin <=? t) LogError;
       _ ← incrElapsed c (t -64 t_miss_begin) _USER_THREAD;
       _ ← add_stat c (if ac_metadata a then Stat.metadata_mshr_latency else Stat.mshr_latency) (t -64 t_miss_begin);
       mret t
     else mret t_miss_begin);
  _ ← ccheck (negb (bool_decide (ac_lock a = Core.UNLOCK))) LogError;
  mret (t_miss_begin, t_mshr_avail).

(** A block in a state that does not permit the access is dropped before the next level is asked. *)
Definition drop_and_request (c : nat) (k : CntlrConfig) (a : Access) (t_start : Z) : CM HitWhere.where_t :=
  cstate ← getCacheState c (ac_address a);
  _ ← cwhen (negb (bool_decide (cstate = INVALID))) (invalidateCacheBlock c (ac_address a));
  n ← clift (deref (m_next_cache_cntlr k));
  request_next n c (access_request a t_start false).

(** The request after the directory's reply. *)
Definition request_again (c : nat) (k : CntlrConfig) (a : Access) (t_start : Z) : CM HitWhere.where_t :=
  n ← clift (deref (m_next_cache_cntlr k));
  w ← request_next n c (access_request a t_start true);
  _ ← ccheck ((ac_metadata a && (2 <? cc_passthrough_loc k)) || negb (bool_decide (w = HitWhere.MISS))) LogError;
  mret w.

Definition complete_l1_miss (c : nat) (a : Access) (t_miss_begin t_mshr_avail : Z) : CM unit :=
  t_miss_end ← getElapsedTime c _USER_THREAD;
  m ← master c;
  if ac_metadata a then
    '(_, q) ← clift (getCompletionTime t_miss_begin (t_miss_end -64 t_mshr_avail) (ac_address a) (m_l1_metadata_mshr m));
    put_master c (with_l1_metadata_mshr q m)
  else
    '(_, q) ← clift (getCompletionTime t_miss_begin (t_miss_end -64 t_mshr_avail) (ac_address a) (m_l1_mshr m));
    put_master c (with_l1_mshr q m).

(** The data is in the next level: copy it and use it. The lock of the stack is given up
    here, for an access that the first level keeps. *)
Definition fill_and_access (c : nat) (k : CntlrConfig) (a : Access) (w : HitWhere.where_t) (t_miss_begin t_mshr_avail : Z)
  : CM (option (list Z)) :=
  t_now ← getElapsedTime c _USER_THREAD;
  if bypasses k a then mret None
  else
    _ ← copyDataFromNextLevel c (ac_op a) (ac_address a) (ac_modeled a) t_now (ac_block_type a);
    o ← getCacheBlockInfo c (ac_address a);
    _ ← cwhen (negb (lock_all k a)) (releaseStackLock c (ac_address a) true);
    '(ok, _) ← operationPermissibleinCache c (ac_address a) (ac_op a);
    _ ← ccheck ok LogError;
    _ ← cwhen (uses_l1_mshr k a) (complete_l1_miss c a t_miss_begin t_mshr_avail);
    _ ← cwhen (ac_modeled a && bool_decide (is_Some (m_next_cache_cntlr k)) && negb (m_perfect k))
          (l ← clift (deref o); use_block c l (ac_address a) (ac_offset a) (ac_length a));
    accessCache c (ac_op a) (ac_address a) (ac_offset a) (ac_data a) (ac_length a)
      (bool_decide (w = where_own (m_mem_component k)) && ac_count a).

(** Statistics, the lock of the access, and the training of the prefetcher. *)
Definition finish_access (c : nat) (k : CntlrConfig) (a : Access) (t_start : Z) (cache_hit prefetch_hit : bool)
    (w : HitWhere.where_t) : CM unit :=
  t_now ← getElapsedTime c _USER_THREAD;
  let total_latency := t_now -64 t_start in
  _ ← cwhen (negb cache_hit && ac_count a)
        (_ ← add_stat c Stat.total_latency total_latency;
         add_stat c (if ac_metadata a then Stat.total_metadata_latency else Stat.total_data_latency) total_latency);
  _ ← cwhen (negb (bool_decide (ac_lock a = Core.LOCK)))
        (if lock_all k a then releaseStackLock c (ac_address a) false else releaseLock c (ac_address a));
  _ ← count c (if bool_decide (ac_op a = Core.WRITE) then Stat.stores_where (ac_block_type a) w
               else Stat.loads_where (ac_block_type a) w);
  m ← master c;
  cwhen (negb (ac_metadata a) && ac_modeled a && bool_decide (is_Some (m_prefetcher m)))
    (trainPrefetcher c (ac_address a) cache_hit prefetch_hit t_start).

(** ** Semaphores *)

Definition add_sem (f : Z -> Z) (core : Z) (n : Z) : Z -> Z := fun i => if i =? core then f i + n else f i.

Definition waitForNetworkThread (c : nat) : thread P D unit :=
  k ← atomic (config c);
  wait (fun s => 0 <? user_sem s (cc_core_id k)) (cmodify (fun s => with_user_sem (add_sem (user_sem s) (cc_core_id k) (-1)) s)).
Definition wakeUpNetworkThread (c : nat) : CM unit :=
  k ← config c; cmodify (fun s => with_network_sem (add_sem (network_sem s) (cc_core_id k) 1) s).
(** Called with the semaphores of the controller whose thread waits. *)
Definition wakeUpUserThread (c : nat) : CM unit :=
  k ← config c; cmodify (fun s => with_user_sem (add_sem (user_sem s) (cc_core_id k) 1) s).
Definition waitForUserThread (c : nat) : thread P D unit :=
  k ← atomic (config c);
  wait (fun s => 0 <? network_sem s (cc_core_id k))
    (cmodify (fun s => with_network_sem (add_sem (network_sem s) (cc_core_id k) (-1)) s)).

(** ** Prefetches *)

Definition prefetch_request (c : nat) (k : CntlrConfig) (address t_start : Z) (bt : block_type_t) (again : bool) : Request :=
  mkRequest Core.READ address 0 (cc_block_size k) (negb again) (negb again) bt PrefetchType.OWN t_start.

Definition doPrefetch (c : nat) (prefetch_address t_start : Z) (block_type : block_type_t) : thread P D unit :=
  k ← atomic (_ ← count c Stat.prefetches; config c);
  _ ← acquireStackLock c prefetch_address false;
  '(t_before, w) ← atomic
    (t_before ← getElapsedTime c _USER_THREAD;
     _ ← setElapsedTime c _USER_THREAD t_start;
     w ← request_next c c (prefetch_request c k prefetch_address t_start block_type false);
     _ ← cwhen (bool_decide (w = HitWhere.MISS)) (releaseStackLock c prefetch_address false);
     mret (t_before, w));
  _ ← twhen (bool_decide (w = HitWhere.MISS))
        (_ ← waitForNetworkThread c;
         atomic (_ ← wakeUpNetworkThread c;
                 w ← request_next c c (prefetch_request c k prefetch_address t_start block_type true);
                 _ ← ccheck (negb (bool_decide (w = HitWhere.MISS))) LogError;
                 count c Stat.prefetches_fillup));
  atomic (t ← getElapsedTime c _USER_THREAD;
          _ ← update_cntlr c (with_prefetch_completion t);
          _ ← setElapsedTime c _USER_THREAD t_before;
          releaseStackLock c prefetch_address false).

(** The first address of the queue that is not in the cache by now. *)
Fixpoint next_prefetch (fuel : nat) (c : nat) : CM Z :=
  m ← master c;
  match m_prefetch_list m, fuel with
  | [], _ => mret INVALID_ADDRESS
  | _, O => clift (Err Diverges)
  | a :: l, S fuel =>
      _ ← put_master c (with_prefetch_list l (m_prefetch_next m) m);
      '(present, _) ← operationPermissibleinCache c a Core.READ;
      if present : bool then next_prefetch fuel c else mret a
  end.

Fixpoint prefetch_levels (fuel : nat) (c : nat) (t_now : Z) : thread P D unit :=
  match fuel with
  | O => atomic (clift (Err Diverges))
  | S fuel =>
      '(k, address_to_prefetch, t) ← atomic
        (k ← config c;
         m ← master c;
         a ← (if m_prefetch_next m <=? t_now then next_prefetch (length (m_prefetch_list m)) c else mret INVALID_ADDRESS);
         mret (k, a, m_prefetch_next m));
      _ ← twhen (negb (address_to_prefetch =? INVALID_ADDRESS))
            (_ ← doPrefetch c address_to_prefetch t DATA;
             atomic (update_master c (fun m => with_prefetch_list (m_prefetch_list m) (m_prefetch_next m +64 PREFETCH_INTERVAL) m)));
      match m_next_cache_cntlr k with
      | Some n => prefetch_levels fuel n t_now
      | None => mret tt
      end
  end.
Definition Prefetch (c : nat) (t_now : Z) : thread P D unit := prefetch_levels (length topology) c t_now.

Definition handleMMUPrefetch (c : nat) (prefetch_address t_start : Z) (block_type : block_type_t) : thread P D unit :=
  _ ← atomic (update_cntlr c (with_spec_prefetch true));
  _ ← doPrefetch c prefetch_address t_start block_type;
  atomic (update_cntlr c (with_spec_prefetch false)).

(** ** The access of a core, with its waits *)

Definition smt_free (c : nat) s : bool :=
  match master c s with Ok (m, _) => negb (m_smt_lock m) | Err _ => true end.

(** A miss: the request to the next level, the wait for the directory if a message was
    sent, and the copy into the first level. *)
Definition access_miss (c : nat) (k : CntlrConfig) (a : Access) (t_start : Z) : thread P D (HitWhere.where_t * option (list Z)) :=
  '(t_miss_begin, t_mshr_avail) ← atomic (begin_access_miss c k a);
  _ ← twhen (negb (lock_all k a)) (acquireStackLock c (ac_address a) true);
  w ← atomic (w ← drop_and_request c k a t_start;
              _ ← cwhen (bool_decide (w = HitWhere.MISS)) (releaseStackLock c (ac_address a) false);
              mret w);
  w ← (if bool_decide (w = HitWhere.MISS) then
         _ ← waitForNetworkThread c;
         atomic (_ ← wakeUpNetworkThread c; request_again c k a t_start)
       else mret w);
  d ← atomic (fill_and_access c k a w t_miss_begin t_mshr_avail);
  mret (w, d).

Definition processMemOpFromCore (c : nat) (a : Access) : thread P D (HitWhere.where_t * option (list Z)) :=
  _ ← wait (smt_free c) (update_master c (with_smt_lock true));
  k ← atomic (k ← config c;
              _ ← ccheck (Z.land (ac_address a) (u32 (cc_block_size k - 1)) =? 0) LogError;
              _ ← ccheck (u32 (ac_offset a + ac_length a) <=? cc_block_size k) LogError;
              mret k);
  _ ← twhen (negb (bool_decide (ac_lock a = Core.UNLOCK)))
        (if lock_all k a then acquireStackLock c (ac_address a) false else acquireLock c (ac_address a));
  '(t_start, cache_hit, o) ← atomic (t ← getElapsedTime c _USER_THREAD; '(hit, o) ← access_lookup c k a; mret (t, hit, o));
  '(w, d, prefetch_hit) ←
    (if cache_hit : bool then
       '(d, ph) ← atomic (access_hit c k a o); mret (where_own (m_mem_component k), d, ph)
     else
       '(w, d) ← access_miss c k a t_start; mret (w, d, false));
  _ ← atomic (finish_access c k a t_start cache_hit prefetch_hit w);
  _ ← twhen (negb (ac_metadata a) && negb (bool_decide (ac_lock a = Core.LOCK)) && ac_modeled a) (Prefetch c t_start);
  _ ← atomic (update_master c (with_smt_lock false));
  mret (w, d).

(** ** Messages from the directory *)

Definition message_data (msg : ShmemMsg) : res (option (list Z)) :=
  match m_data_buf msg with NULL => Ok None | Live d => Ok (Some d) | Deleted => Err UseAfterFree end.

Definition processExRepFromDramDirectory (c : nat) (msg : ShmemMsg) : CM unit :=
  data_buf ← clift (message_data msg);
  _ ← insertCacheBlock c (sm_address msg) EXCLUSIVE data_buf _SIM_THREAD (sm_block_type msg);
  mret tt.

Definition processShRepFromDramDirectory (c : nat) (msg : ShmemMsg) : CM unit :=
  data_buf ← clift (message_data msg);
  _ ← insertCacheBlock c (sm_address msg) SHARED data_buf _SIM_THREAD (sm_block_type msg);
  mret tt.

(** When the line is gone, the data of the message is passed as the buffer to be written. *)
Definition processUpgradeRepFromDramDirectory (c : nat) (msg : ShmemMsg) : CM unit :=
  cstate ← getCacheState c (sm_address msg);
  match cstate with
  | INVALID =>
      data_buf ← clift (message_data msg);
      _ ← ccheck (bool_decide (is_Some data_buf)) LogError;
      _ ← update_block_from c (sm_address msg) MODIFIED Transition.UPGRADE data_buf;
      mret tt
  | SHARED_UPGRADING =>
      _ ← update_block_from c (sm_address msg) MODIFIED Transition.UPGRADE None;
      mret tt
  | _ => clift (Err LogError)
  end.

Definition processInvReqFromDramDirectory (c : nat) (sender : Z) (msg : ShmemMsg) : CM unit :=
  cstate ← getCacheState c (sm_address msg);
  _ ← incrElapsed_access c ACCESS_CACHE_TAGS _SIM_THREAD;
  cwhen (negb (bool_decide (cstate = INVALID)))
    (_ ← update_block_from c (sm_address msg) INVALID Transition.COHERENCY None;
     send c INV_REP (m_requester msg) sender (sm_address msg) NULL 0 _SIM_THREAD (sm_block_type msg)).

Definition processFlushReqFromDramDirectory (c : nat) (sender : Z) (msg : ShmemMsg) : CM unit :=
  k ← config c;
  last ← lastLevelCache c; m ← master last;
  _ ← clift (splitAddress (cb (m_cache m)) (sm_address msg));
  cstate ← getCacheState c (sm_address msg);
  if bool_decide (cstate = INVALID) then incrElapsed_access c ACCESS_CACHE_TAGS _SIM_THREAD
  else
    _ ← incrElapsed_access c ACCESS_CACHE_DATA_AND_TAGS _SIM_THREAD;
    '(_, _, out) ← update_block_from c (sm_address msg) INVALID Transition.COHERENCY (Some junk);
    send c FLUSH_REP (m_requester msg) sender (sm_address msg) (Live (default junk out)) (cc_block_size k) _SIM_THREAD
      (sm_block_type msg).

(** A line that is being upgraded stays as it is, and the buffer is not filled. *)
Definition processWbReqFromDramDirectory (c : nat) (sender : Z) (msg : ShmemMsg) : CM unit :=
  k ← config c;
  cstate ← getCacheState c (sm_address msg);
  if bool_decide (cstate = INVALID) then incrElapsed_access c ACCESS_CACHE_TAGS _SIM_THREAD
  else
    _ ← incrElapsed_access c ACCESS_CACHE_DATA_AND_TAGS _SIM_THREAD;
    out ← (if bool_decide (cstate = SHARED_UPGRADING) then mret (Some junk)
           else '(_, _, out) ← update_block_from c (sm_address msg) SHARED Transition.COHERENCY (Some junk); mret out);
    send c WB_REP (m_requester msg) sender (sm_address msg) (Live (default junk out)) (cc_block_size k) _SIM_THREAD
      (sm_block_type msg).

Definition is_reply (t : msg_t) : bool := bool_decide (t = EX_REP) || bool_decide (t = SH_REP) || bool_decide (t = UPGRADE_REP).

Definition front_waiter (c : nat) (address : Z) : CM CacheDirectoryWaiter :=
  m ← master c;
  clift (match m_directory_waiters m !! address with
         | None => Err LogError | Some [] => Err OutOfBounds | Some (w :: _) => Ok w end).
Definition dequeue_waiter (c : nat) (address : Z) : CM unit :=
  m ← master c;
  q ← clift (match m_directory_waiters m !! address with
             | None => Err LogError | Some [] => Err OutOfBounds
             | Some [_] => Ok (delete address (m_directory_waiters m))
             | Some (_ :: l) => Ok (<[address := l]> (m_directory_waiters m)) end);
  put_master c (with_waiters q m).

Definition process_message (c : nat) (sender : Z) (msg : ShmemMsg) : CM unit :=
  match m_msg_type msg with
  | EX_REP => processExRepFromDramDirectory c msg
  | SH_REP => processShRepFromDramDirectory c msg
  | UPGRADE_REP => processUpgradeRepFromDramDirectory c msg
  | INV_REQ => processInvReqFromDramDirectory c sender msg
  | FLUSH_REQ => processFlushReqFromDramDirectory c sender msg
  | WB_REQ => processWbReqFromDramDirectory c sender msg
  | _ => clift (Err LogError)
  end.

(** The part of the loop over the waiters before a waiter is woken: [None] when the queue is
    empty or an upgrade was requested for the waiter. *)
Definition next_waiter (c : nat) (msg : ShmemMsg) : CM (option CacheDirectoryWaiter) :=
  let address := sm_address msg in
  m ← master c;
  if bool_decide (m_directory_waiters m !! address = None) then mret None
  else
    w ← front_waiter c address;
    cstate ← getCacheState c address;
    if w_exclusive w && bool_decide (cstate = SHARED) then
      _ ← processUpgradeReqToDirectory c address _SIM_THREAD (w_block_type w);
      mret None
    else
      _ ← cwhen (w_isPrefetch w)
            (o ← getCacheBlockInfo c address; l ← clift (deref o); update_block c (setOption PREFETCH) l);
      t_core ← getElapsedTime (w_cache_cntlr w) _USER_THREAD;
      t_here ← getElapsedTime c _SIM_THREAD;
      _ ← cwhen (t_core <? t_here) (setElapsedTime (w_cache_cntlr w) _USER_THREAD t_here);
      wh ← clift (match m_where msg with Some x => Ok x | None => Err Indeterminate end);
      _ ← updateUncoreStatistics (w_cache_cntlr w) wh t_here;
      _ ← wakeUpUserThread (w_cache_cntlr w);
      mret (Some w).

(** The part after the waiter has used the line: only DATA blocks use the first registers. *)
Definition served_waiter (c : nat) (address : Z) (w : CacheDirectoryWaiter) : CM unit :=
  now ← getElapsedTime c _SIM_THREAD;
  let e := make_mshr (w_t_issue w) now in
  _ ← (if bool_decide (w_block_type w = DATA) then
         _ ← update_master (w_cache_cntlr w) (fun m => with_mshr (<[address := e]> (mshr m)) m); cleanupMshr c
       else
         _ ← update_master (w_cache_cntlr w) (fun m => with_metadata_mshr (<[address := e]> (metadata_mshr m)) m);
         cleanupMetadataMshr c);
  dequeue_waiter c address.

Fixpoint wake_waiters (rounds : nat) (c : nat) (msg : ShmemMsg) : thread P D unit :=
  match rounds with
  | O => atomic (clift (Err Diverges))
  | S rounds =>
      o ← atomic (next_waiter c msg);
      match o with
      | None => mret tt
      | Some w =>
          _ ← waitForUserThread (w_cache_cntlr w);
          _ ← acquireStackLock c (sm_address msg) false;
          _ ← atomic (served_waiter c (sm_address msg) w);
          wake_waiters rounds c msg
      end
  end.

Definition handleMsgFromDramDirectory (rounds : nat) (c : nat) (sender : Z) (msg : ShmemMsg) : thread P D unit :=
  let address := sm_address msg in
  _ ← atomic (cwhen (is_reply (m_msg_type msg)) (w ← front_waiter c address; _ ← config (w_cache_cntlr w); mret tt));
  _ ← acquireStackLock c address false;
  _ ← atomic (process_message c sender msg);
  _ ← twhen (is_reply (m_msg_type msg)) (wake_waiters rounds c msg);
  atomic (releaseStackLock c address false).

(** [MemoryManager::handleMsgFromNetwork] for the messages to the caches; [c] is the last
    level of the receiving core. *)
Definition deliver (rounds : nat) (c : nat) (sender msg_time : Z) (msg : ShmemMsg) : thread P D unit :=
  _ ← atomic (_ ← setElapsedTime c _SIM_THREAD msg_time;
              match m_receiver_mem_component msg with
              | MemComponent.L2_CACHE | MemComponent.LAST_LEVEL_CACHE =>
                  ccheck (bool_decide (m_sender_mem_component msg = MemComponent.TAG_DIR)) LogError
              | _ => clift (Err LogError)
              end);
  _ ← handleMsgFromDramDirectory rounds c sender msg;
  atomic (cwhen (0 <? m_data_length msg) (ccheck (negb (bool_decide (m_data_buf msg = NULL))) AssertFailed)).

(** ** Reconfiguration at run time *)

(** The number of ways applied, and the penalty to charge the core when it changed. *)
Definition reconfigure (c : nat) (new_capacity_bytes transition_penalty_cycles core_period : Z) : CM (nat * option Z) :=
  k ← config c;
  m ← master c;
  target_ways ← clift (udiv new_capacity_bytes (m_num_sets (cb (m_cache m)) *64 cc_block_size k));
  old_ways ← clift (getActiveWays (m_cache m));
  '(effective_ways, x) ← clift (setActiveWays (m_cache m) (Z.to_nat (u32 target_ways)));
  _ ← put_master c (with_cache x m);
  mret (effective_ways, if bool_decide (effective_ways = old_ways) then None
                        else Some (cl_getLatency (mkLatency core_period transition_penalty_cycles))).

Definition reconfigurePrefetcher (c : nat) (new_type : string) (cfg : PrefetchConfig) : CM unit :=
  k ← config c;
  p ← clift (createPrefetcher new_type cfg (cc_core_id k) (m_shared_cores k));
  update_master c (with_prefetcher p).

(** The blocks whose use is reported when the simulation ends. *)
Definition walkUsageBits (c : nat) : CM (list Z) :=
  k ← config c;
  m ← master c;
  if bool_decide (m_next_cache_cntlr k = None) then
    clift (fold_loop (fun l set_index =>
        fold_loop (fun l way =>
            b ← cache_peekBlock (m_cache m) set_index way;
            Ok (if isValid b && negb (hasOption WARMUP b) then l ++ [m_used b] else l))
          l (seq 0 (cache_associativity (m_cache m))))
      [] (seq 0 (Z.to_nat (m_num_sets (cb (m_cache m))))))
  else mret [].


End cntlr.
End Cntlr.
