(* ===== verification/CntlrView.v ===== *)
(** * The lines in the caches of all controllers

    The state of the controllers seen through the lines: which cache holds which line, in
    which state and where. The operations of a single controller are specified on this view
    with weakest preconditions; the only faults they leave are an overflow of the simulated
    clock, and the endless search for a register to free when the clock stands at its end. *)

From stdpp Require Import base tactics list numbers gmap strings.
From Stdlib Require Import ZArith Lia.
From S2P Require Import Prelude Utils CacheBase CacheBlock CacheSet Cache CacheLines Timing Contention Directory DirCntlr Prefetch CntlrState CacheCntlr.
Local Open Scope Z_scope.
Local Open Scope mach_scope.
Import Cntlr.
Local Abbreviation slot := CacheLines.slot.

Section wp.
Context {P D : Type}.
Implicit Types s : Hierarchy P D.

Definition wp {A} (m : C P D A) (Q : A -> Hierarchy P D -> Prop) s : Prop :=
  match m s with Ok (a, s') => Q a s' | Err f => f = ClockOverflow \/ f = ClockEnd end.

Lemma cwp_ret {A} (a : A) (Q : A -> Hierarchy P D -> Prop) s : Q a s -> wp (mret a) Q s.
Proof. done. Qed.
Lemma cwp_bind {A B} (m : C P D A) (k : A -> C P D B) Q s : wp m (fun a => wp (k a) Q) s -> wp (m ≫= k) Q s.
Proof. unfold wp, mbind, C_bind. by destruct (m s) as [[a s']|]. Qed.
Lemma cwp_mono {A} (m : C P D A) (Q Q' : A -> Hierarchy P D -> Prop) s :
  wp m Q s -> (forall a s', Q a s' -> Q' a s') -> wp m Q' s.
Proof. unfold wp. destruct (m s) as [[a s']|]; auto. Qed.
Lemma cwp_get {A} (f : Hierarchy P D -> A) Q s : Q (f s) s -> wp (cget f) Q s.
Proof. done. Qed.
Lemma cwp_modify (f : Hierarchy P D -> Hierarchy P D) (Q : unit -> Hierarchy P D -> Prop) s :
  Q tt (f s) -> wp (cmodify f) Q s.
Proof. done. Qed.
Lemma cwp_lift {A} (r : res A) Q s a : r = Ok a -> Q a s -> wp (clift r) Q s.
Proof. intros ->. done. Qed.
Lemma cwp_lift_opt {A} (r : res A) (Q : A -> Hierarchy P D -> Prop) s :
  match r with Ok a => Q a s | Err f => f = ClockOverflow \/ f = ClockEnd end -> wp (clift r) Q s.
Proof. unfold wp, clift. by destruct r. Qed.
Lemma cwp_check b f (Q : unit -> Hierarchy P D -> Prop) s : b = true -> Q tt s -> wp (ccheck b f) Q s.
Proof. intros ->. done. Qed.
Lemma cwp_when b (m : C P D unit) Q s : (b = true -> wp m Q s) -> (b = false -> Q tt s) -> wp (cwhen b m) Q s.
Proof. unfold cwhen. destruct b; intros H1 H2; [by apply H1|apply cwp_ret; by apply H2]. Qed.

(** The invariant of a loop, by the elements left. *)
Lemma cwp_fold {A X} (I : A -> list X -> Hierarchy P D -> Prop) (f : A -> X -> C P D A) l acc Q s :
  I acc l s ->
  (forall acc x l s, I acc (x :: l) s -> wp (f acc x) (fun acc' s' => I acc' l s') s) ->
  (forall acc s, I acc [] s -> Q acc s) -> wp (cfold f acc l) Q s.
Proof.
  intros H0 Hs Hq. revert acc s H0. induction l as [|x l IH]; intros acc s H0; cbn; [by apply Hq|].
  apply cwp_bind. eapply cwp_mono; [by apply Hs|]. auto.
Qed.

End wp.

(** What the controllers rely on: a DRAM controller in a good state returns, keeps the size of
    the buffer it fills, does not report a miss, and stays in a good state. *)
Class DramCntlrLaws (D : Type) `{!DramCntlrInterface D} := {
  dram_ok : D -> Prop;
  getDataFromDram_total : forall (d : D) address requester buf now metadata, dram_ok d ->
    exists latency w buf' d', getDataFromDram d address requester buf now metadata = Ok (latency, w, buf', d') /\
      length buf' = length buf /\ w <> HitWhere.MISS /\ dram_ok d';
  putDataToDram_total : forall (d : D) address requester buf now metadata, dram_ok d ->
    exists latency w d', putDataToDram d address requester buf now metadata = Ok (latency, w, d') /\ dram_ok d'
}.

(** ** The table of evictions by speculative prefetches *)

Definition spec_ok (t : list (list SpecEvictEntry)) : Prop :=
  length t = SPEC_EVICT_SETS /\ Forall (fun r => length r = SPEC_EVICT_WAYS) t.

Lemma specEvictIndex_lt y : (specEvictIndex y < SPEC_EVICT_SETS)%nat.
Proof.
  unfold specEvictIndex. change (Z.of_nat SPEC_EVICT_SETS - 1) with (2 ^ 6 - 1). rewrite land_pow2_pred by lia.
  pose proof (Z.mod_pos_bound (Z.shiftr y 6) (2 ^ 6) ltac:(lia)). unfold SPEC_EVICT_SETS. lia.
Qed.

Lemma spec_row t y : spec_ok t -> exists r, t !! specEvictIndex y = Some r /\ rd t (specEvictIndex y) = Ok r /\ length r = SPEC_EVICT_WAYS.
Proof.
  intros [Hl Hr]. destruct (lookup_lt_is_Some_2 t (specEvictIndex y)) as [r E]; [rewrite Hl; apply specEvictIndex_lt|].
  exists r. split; [done|]. split; [by apply rd_Ok|]. by eapply (Forall_lookup_1 _ _ _ _ Hr).
Qed.
Lemma spec_put t y r : spec_ok t -> length r = SPEC_EVICT_WAYS -> exists t', wr t (specEvictIndex y) r = Ok t' /\ spec_ok t'.
Proof.
  intros [Hl Hr] Hlen. rewrite wr_lt by (rewrite Hl; apply specEvictIndex_lt). eexists. split; [done|].
  split; [by rewrite length_insert|]. by apply Forall_insert.
Qed.

Lemma spec_victim_lt row w v oldest : (v < w + length row)%nat -> (spec_victim row w v oldest < w + length row)%nat.
Proof.
  revert w v oldest. induction row as [|e row IH]; intros w v oldest Hv; cbn in *; [done|].
  destruct (_ =? _); [lia|]. destruct (_ <? _); [specialize (IH (S w) w (se_stamp e))|specialize (IH (S w) v oldest)]; lia.
Qed.

Lemma specEvictInsert_total t y n : spec_ok t -> exists t', specEvictInsert y n t = Ok t' /\ spec_ok t'.
Proof.
  intros Ht. unfold specEvictInsert. destruct (spec_row t y Ht) as (r & _ & -> & Hr). cbn [mbind res_bind].
  rewrite wr_lt by (apply (spec_victim_lt r 0 0); rewrite Hr; cbn; unfold SPEC_EVICT_WAYS; lia). cbn [mbind res_bind].
  apply spec_put; [done|]. by rewrite length_insert.
Qed.
Lemma specEvictRemove_total t y : spec_ok t -> exists t', specEvictRemove y t = Ok t' /\ spec_ok t'.
Proof.
  intros Ht. unfold specEvictRemove. destruct (spec_row t y Ht) as (r & _ & -> & Hr). cbn [mbind res_bind].
  apply spec_put; [done|]. by rewrite length_map.
Qed.
Lemma specEvictLookupAndRemove_total t y : spec_ok t -> exists n t', specEvictLookupAndRemove y t = Ok (n, t') /\ spec_ok t'.
Proof.
  intros Ht. unfold specEvictLookupAndRemove. destruct (spec_row t y Ht) as (r & _ & -> & Hr). cbn [mbind res_bind].
  destruct (list_find _ r) as [[w e]|] eqn:E; [|eauto]. apply list_find_Some in E as (Hw & _).
  rewrite wr_lt by (by eapply lookup_lt_Some). cbn [mbind res_bind].
  destruct (spec_put t y (<[w := mkSpecEvict 0 0]> r) Ht) as (t' & -> & Ht'); [by rewrite length_insert|]. cbn. eauto.
Qed.

(** The traversal of the registers reaches each of them. *)
Class Traversal (traverse : gmap Z MshrEntry -> list (Z * MshrEntry)) : Prop :=
  traverses r a e : (a, e) ∈ traverse r <-> r !! a = Some e.
#[export] Instance map_to_list_traversal : Traversal map_to_list.
Proof. intros r a e. apply elem_of_map_to_list. Qed.

Section view.
Context {P D : Type} `{!ReplacementPolicy P} `{!ReplacementPolicyLaws P} `{!DramCntlrInterface D} `{!DramCntlrLaws D}.
Context (topology : list CntlrConfig) (junk : list Z) (traverse : gmap Z MshrEntry -> list (Z * MshrEntry)) `{!Traversal traverse}.
(** The block size, as a power of two; the cache behind every cache, the caches before it,
    and the level. *)
Context (logb : Z) (parent : nat -> option nat) (prevs : nat -> list nat) (level : nat -> nat).
Implicit Types (s : Hierarchy P D) (m : nat) (y : Z) (M : CacheMasterCntlr P) (l : location) (st : cstate_t).

Abbreviation bs := (2 ^ logb).

(** Line addresses. *)
Definition aligned y : Prop := in_range 64 y /\ exists t, y = t * bs.

(** The machines considered: coherent write-back caches without the variants [perfect] and
    [passthrough], unlimited bandwidth between the levels, one block size, and a tree of caches. *)
Record machine : Prop := {
  mc_logb : 1 <= logb < 32;
  mc_junk : bs <= Z.of_nat (length junk);
  mc_plain c k : topology !! c = Some k -> m_perfect k = false /\ m_passthrough k = false /\ m_coherent k = true /\
    m_cache_writethrough k = false /\ read_bandwidth_bits k = 0 /\ cc_block_size k = bs;
  mc_next c k : topology !! c = Some k ->
    match m_next_cache_cntlr k with
    | None => parent (m_master k) = None
    | Some n => exists kn, topology !! n = Some kn /\ parent (m_master k) = Some (m_master kn)
    end;
  mc_mshr c k : topology !! c = Some k -> 0 <= mshr_size k;
  mc_level m m' : parent m = Some m' -> level m' = S (level m);
  mc_bound c k : topology !! c = Some k -> (level (m_master k) < length topology)%nat;
  mc_prevs m p : p ∈ prevs m -> exists kp, topology !! p = Some kp /\ parent (m_master kp) = Some m;
  mc_children x m : parent x = Some m -> exists p kp, p ∈ prevs m /\ topology !! p = Some kp /\ m_master kp = x
}.

(** The caches of the machine, their registers and buffers are well formed; there are no
    prefetchers and no tag directories, and the last level is connected to DRAM. *)
Record master_ok m M : Prop := {
  mo_cache : cache_wf (m_cache M);
  mo_plain : bypasses_metadata (m_cache M) = false;
  mo_type : m_cache_type (m_cache M) = SHARED_CACHE;
  mo_block : m_blocksize (cb (m_cache M)) = bs;
  mo_log : m_log_blocksize (cb (m_cache M)) = logb;
  mo_prev : m_prev_cache_cntlrs M = prevs m;
  mo_prefetcher : m_prefetcher M = None;
  mo_prefetches : m_prefetch_list M = [];
  mo_atds : m_atds M = [];
  mo_dram : parent m = None -> m_dram_cntlr M = true;
  mo_l1_mshr : cm_ok (m_l1_mshr M);
  mo_l1_metadata_mshr : cm_ok (m_l1_metadata_mshr M);
  mo_writebacks : forall q, m_dram_outstanding_writebacks M = Some q -> cm_ok q;
  mo_spec : spec_ok (m_spec_evict_table M);
  mo_buffer : forall d, m_evicting_buf M = Some d -> bs <= Z.of_nat (length d)
}.

Record ok s : Prop := {
  ok_cntlrs : length (cntlrs s) = length topology;
  ok_where : Forall (fun x => m_last_remote_hit_where x <> HitWhere.MISS) (cntlrs s);
  ok_masters c k : topology !! c = Some k -> is_Some (masters s !! m_master k);
  ok_master m M : masters s !! m = Some M -> master_ok m M;
  ok_dram : dram_ok (dram s)
}.

(** ** The view *)

Definition cell (o : option (location * CacheBlockInfo)) : option (location * cstate_t) :=
  (fun x => (fst x, m_cstate (snd x))) <$> o.
Definition line s m y : option (location * cstate_t) := M ← masters s !! m; cell (slot (m_cache M) y).
Definition state s m y : cstate_t := from_option snd INVALID (line s m y).
Definition evicting s m : option Z :=
  M ← masters s !! m; _ ← m_evicting_buf M; Some (m_evicting_address M).
Definition locks s m : option (list SetLock.t * Z * Z) :=
  (fun M => (m_setlocks M, mc_log_blocksize M, mc_num_sets M)) <$> masters s !! m.
Definition busy s m : option bool := m_smt_lock <$> masters s !! m.

(** What the steps on lines keep, and the states that agree outside some lines. *)
Record kept s s' : Prop := {
  kp_ok : ok s';
  kp_evicting m : evicting s' m = evicting s m;
  kp_locks m : locks s' m = locks s m;
  kp_busy m : busy s' m = busy s m
}.
Record same s s' : Prop := {
  sm_kept : kept s s';
  sm_line m y : aligned y -> line s' m y = line s m y
}.
Record set_line m y (v : option (location * cstate_t)) s s' : Prop := {
  sl_kept : kept s s';
  sl_here : line s' m y = v;
  sl_line m' y' : aligned y' -> m' <> m \/ y' <> y -> line s' m' y' = line s m' y'
}.

Lemma kept_refl s : ok s -> kept s s.
Proof. by split. Qed.
Lemma kept_kept s1 s2 s3 : kept s1 s2 -> kept s2 s3 -> kept s1 s3.
Proof.
  intros [_ E1 K1 B1] [? E2 K2 B2].
  split; [done|..]; intros; [rewrite E2, E1|rewrite K2, K1|rewrite B2, B1]; done.
Qed.

Lemma same_refl s : ok s -> same s s.
Proof. split; [by apply kept_refl|done]. Qed.
Lemma same_trans s1 s2 s3 : same s1 s2 -> same s2 s3 -> same s1 s3.
Proof. intros [K1 L1] [K2 L2]. split; [by eapply kept_kept|]. intros. by rewrite L2, L1. Qed.
Lemma same_ok s s' : same s s' -> ok s'.
Proof. intros [[]]. done. Qed.
Lemma same_set_line m y v s1 s2 s3 : same s1 s2 -> set_line m y v s2 s3 -> set_line m y v s1 s3.
Proof. intros [K1 L1] [K2 H2 L2]. split; [by eapply kept_kept|done|]. intros. by rewrite L2, L1. Qed.
Lemma set_line_refl m y v s : ok s -> line s m y = v -> set_line m y v s s.
Proof. intros Hs Hv. split; [by apply kept_refl|done|done]. Qed.
Lemma set_line_twice m y v w s1 s2 s3 : set_line m y v s1 s2 -> set_line m y w s2 s3 -> set_line m y w s1 s3.
Proof.
  intros [K1 H1 L1] [K2 H2 L2]. split; [by eapply kept_kept|done|]. intros. by rewrite L2, L1.
Qed.
Lemma set_line_ok m y v s s' : set_line m y v s s' -> ok s'.
Proof. intros [[]]. done. Qed.
(** A change to what was there. *)
Lemma set_line_id m y v s s' : line s m y = v -> set_line m y v s s' -> same s s'.
Proof.
  intros Hv [K Hh L]. split; [done|]. intros m' y' Hy'.
  destruct (decide (m' = m)) as [->|]; [|by apply L; [|left]].
  destruct (decide (y' = y)) as [->|]; [by rewrite Hh|by apply L; [|right]].
Qed.
Lemma same_state s s' m y : same s s' -> aligned y -> state s' m y = state s m y.
Proof. intros H Hy. unfold state. by rewrite (sm_line _ _ H). Qed.

(** ** Operations that leave the view as it is *)

Definition quiet {A} (op : C P D A) : Prop := forall s, ok s -> wp op (fun _ s' => same s s') s.

Lemma wp_quiet {A B} (op : C P D A) (k : A -> C P D B) Q s :
  ok s -> quiet op -> (forall a s', same s s' -> wp (k a) Q s') -> wp (op ≫= k) Q s.
Proof. intros Hs Hq Hk. apply cwp_bind. eapply cwp_mono; [by apply Hq|]. auto. Qed.

Lemma quiet_bind {A B} (op : C P D A) (k : A -> C P D B) : quiet op -> (forall a, quiet (k a)) -> quiet (op ≫= k).
Proof.
  intros H1 H2 s Hs. apply wp_quiet; [done|done|]. intros a s' Hs'. eapply cwp_mono; [by apply H2, (same_ok s)|].
  intros a' s2. by apply same_trans.
Qed.
Lemma quiet_ret {A} (a : A) : quiet (mret a).
Proof. intros s Hs. by apply same_refl. Qed.
Lemma quiet_when b (op : C P D unit) : (b = true -> quiet op) -> quiet (cwhen b op).
Proof. intros H. destruct b; [by apply H|apply quiet_ret]. Qed.
Lemma quiet_get {A} (f : Hierarchy P D -> A) : quiet (cget f).
Proof. intros s Hs. by apply same_refl. Qed.
Lemma quiet_lift {A} (r : res A) : (match r with Ok _ => True | Err f => f = ClockOverflow \/ f = ClockEnd end) -> quiet (clift r).
Proof. intros H s Hs. apply cwp_lift_opt. destruct r; [by apply same_refl|done]. Qed.
Lemma quiet_check b f : b = true -> quiet (ccheck b f).
Proof. intros ->. by apply quiet_lift. Qed.
Lemma quiet_if {A} (b : bool) (m1 m2 : C P D A) : (b = true -> quiet m1) -> (b = false -> quiet m2) -> quiet (if b then m1 else m2).
Proof. destruct b; auto. Qed.
Lemma quiet_fold {A X} (f : A -> X -> C P D A) xs acc : (forall a x, quiet (f a x)) -> quiet (cfold f acc xs).
Proof.
  intros H. revert acc. induction xs as [|x xs IH]; intros acc; cbn; [apply quiet_ret|]. by apply quiet_bind.
Qed.

(** ** States that differ outside the masters *)

Lemma same_outside s s' :
  ok s -> masters s' = masters s -> length (cntlrs s') = length (cntlrs s) ->
  Forall (fun x => m_last_remote_hit_where x <> HitWhere.MISS) (cntlrs s') -> dram_ok (dram s') -> same s s'.
Proof.
  intros Hs Em Ec Hw Hd. assert (ok s').
  { destruct Hs as [H1 _ H2 H3 _]. split; rewrite ?Em; [by rewrite Ec|done..]. }
  split; [split; [done|..]|]; intros; unfold line, evicting, locks, busy; by rewrite Em.
Qed.

Section at_controller.
Context (Hm : machine) (c : nat) (k : CntlrConfig) (Hk : topology !! c = Some k).
Abbreviation mm := (m_master k).

(** ** What a controller keeps outside its master *)

Lemma config_eq : config (P := P) (D := D) topology c = mret k.
Proof. unfold config, rd. by rewrite Hk. Qed.

Lemma wp_config Q s : Q k s -> wp (config topology c) Q s.
Proof. by rewrite config_eq. Qed.
Lemma quiet_config : quiet (config topology c).
Proof. rewrite config_eq. apply quiet_ret. Qed.

Lemma cntlr_lookup s : ok s ->
  exists x, rd (cntlrs s) c = Ok x /\ (c < length (cntlrs s))%nat /\ m_last_remote_hit_where x <> HitWhere.MISS.
Proof.
  intros Hs. assert (Hc : (c < length (cntlrs s))%nat) by (rewrite (ok_cntlrs _ Hs); by eapply lookup_lt_Some).
  destruct (rd_lookup _ _ Hc) as (x & E & Hx). exists x. split_and!; try done. by apply (Forall_lookup_1 _ _ _ _ (ok_where _ Hs) Hx).
Qed.
Lemma quiet_update_cntlr f :
  (forall x, m_last_remote_hit_where x <> HitWhere.MISS -> m_last_remote_hit_where (f x) <> HitWhere.MISS) ->
  quiet (update_cntlr c f).
Proof.
  intros Hf s Hs. unfold wp, update_cntlr. destruct (cntlr_lookup s Hs) as (x & -> & Hc & Hx). cbn [mbind res_bind].
  rewrite wr_lt by done. apply same_outside; [done|done|cbn; by rewrite length_insert| |apply Hs]. apply Forall_insert; [apply Hs|by apply Hf].
Qed.
Lemma wp_cntlr Q s : ok s -> (forall x, m_last_remote_hit_where x <> HitWhere.MISS -> Q x s) -> wp (cntlr c) Q s.
Proof. intros Hs HQ. unfold wp, cntlr. destruct (cntlr_lookup s Hs) as (x & -> & Hc & Hx). by apply HQ. Qed.
Lemma quiet_cntlr : quiet (cntlr c).
Proof. intros s Hs. apply wp_cntlr; [done|]. intros. by apply same_refl. Qed.

Lemma quiet_add_stat x n : quiet (add_stat c x n).
Proof. by apply quiet_update_cntlr. Qed.
Lemma quiet_count x : quiet (count c x).
Proof. apply quiet_add_stat. Qed.
Lemma quiet_count_if b x : quiet (count_if b c x).
Proof. apply quiet_when. intros _. apply quiet_count. Qed.

Lemma quiet_getElapsedTime t : quiet (getElapsedTime topology c t).
Proof. unfold getElapsedTime. apply quiet_bind; [apply quiet_config|]. intros. apply quiet_get. Qed.
Lemma quiet_setElapsedTime t n : quiet (setElapsedTime topology c t n).
Proof.
  unfold setElapsedTime. apply quiet_bind; [apply quiet_config|]. intros k' s Hs. apply cwp_modify. apply same_outside; [done|done|done|apply Hs|apply Hs].
Qed.
Lemma quiet_incrElapsed n t : quiet (incrElapsed topology c n t).
Proof.
  unfold incrElapsed. apply quiet_bind; [apply quiet_getElapsedTime|]. intros now.
  apply quiet_bind; [|intros; apply quiet_setElapsedTime].
  apply quiet_lift. destruct (incrElapsedTime_total now n) as [->|[? ->]]; auto.
Qed.
Lemma quiet_incrElapsed_access a t : quiet (incrElapsed_access topology c a t).
Proof.
  unfold incrElapsed_access. apply quiet_bind; [apply quiet_config|]. intros k'.
  apply quiet_bind; [apply quiet_get|]. intros. apply quiet_incrElapsed.
Qed.
Lemma quiet_charge_snoop n t : quiet (charge_snoop topology c n t).
Proof. unfold charge_snoop. apply quiet_bind; [apply quiet_incrElapsed|]. intros. apply quiet_add_stat. Qed.

(** ** The master *)

Lemma wp_master Q s :
  ok s -> (forall M, masters s !! mm = Some M -> master_ok mm M -> Q M s) -> wp (master topology c) Q s.
Proof.
  intros Hs HQ. destruct (ok_masters _ Hs c k Hk) as [M HM]. unfold wp, master, rd. rewrite Hk. cbn [mbind res_bind].
  rewrite HM. apply HQ; [done|]. by apply (ok_master _ Hs).
Qed.
Lemma quiet_master : quiet (master topology c).
Proof. intros s Hs. apply wp_master; [done|]. intros. by apply same_refl. Qed.

Definition put s M' : Hierarchy P D := with_masters (<[mm := M']> (masters s)) s.

Lemma wp_put (Q : unit -> Hierarchy P D -> Prop) s M' : ok s -> Q tt (put s M') -> wp (put_master topology c M') Q s.
Proof.
  intros Hs HQ. destruct (ok_masters _ Hs c k Hk) as [M HM]. unfold wp, put_master, rd. rewrite Hk. cbn [mbind res_bind].
  by rewrite wr_lt by (by eapply lookup_lt_Some).
Qed.

Section put.
Context s M M' (HM : masters s !! mm = Some M).

Lemma put_lookup m : masters (put s M') !! m = if decide (m = mm) then Some M' else masters s !! m.
Proof.
  cbn. case_decide as E; [|by apply list_lookup_insert_ne].
  subst m. apply list_lookup_insert_eq. by eapply lookup_lt_Some.
Qed.
Lemma put_line m y : line (put s M') m y = if decide (m = mm) then cell (slot (m_cache M') y) else line s m y.
Proof. unfold line. rewrite put_lookup. by case_decide. Qed.
Lemma put_evicting m :
  evicting (put s M') m = if decide (m = mm) then _ ← m_evicting_buf M'; Some (m_evicting_address M') else evicting s m.
Proof. unfold evicting. rewrite put_lookup. by case_decide. Qed.
Lemma put_locks m :
  locks (put s M') m = if decide (m = mm) then Some (m_setlocks M', mc_log_blocksize M', mc_num_sets M') else locks s m.
Proof. unfold locks. rewrite put_lookup. by case_decide. Qed.
Lemma put_busy m : busy (put s M') m = if decide (m = mm) then Some (m_smt_lock M') else busy s m.
Proof. unfold busy. rewrite put_lookup. by case_decide. Qed.

Lemma put_ok : ok s -> master_ok mm M' -> ok (put s M').
Proof.
  intros Hs HM'. split; [apply Hs|apply Hs|..|apply Hs].
  - intros c' k' Hk'. rewrite put_lookup. case_decide; [by eexists|by eapply ok_masters].
  - intros m M2. rewrite put_lookup. case_decide; [|apply Hs]. intros [= <-]. by subst.
Qed.

(** A new master with the same buffer and locks. *)
Lemma put_kept :
  ok s -> master_ok mm M' -> m_evicting_buf M' = m_evicting_buf M -> m_evicting_address M' = m_evicting_address M ->
  m_setlocks M' = m_setlocks M -> mc_log_blocksize M' = mc_log_blocksize M -> mc_num_sets M' = mc_num_sets M ->
  m_smt_lock M' = m_smt_lock M -> kept s (put s M').
Proof.
  intros Hs HM' Eb Ea El Eg En Es. split; [by apply put_ok|..]; intros m.
  - rewrite put_evicting. case_decide as E; [|done]. subst m. unfold evicting. rewrite HM. cbn. by rewrite Eb, Ea.
  - rewrite put_locks. case_decide as E; [|done]. subst m. unfold locks. rewrite HM. cbn. by rewrite El, Eg, En.
  - rewrite put_busy. case_decide as E; [|done]. subst m. unfold busy. rewrite HM. cbn. by rewrite Es.
Qed.

(** The same cache. *)
Lemma put_master_same : kept s (put s M') -> m_cache M' = m_cache M -> same s (put s M').
Proof.
  intros Hk' Ec. split; [done|]. intros m y _. rewrite put_line. case_decide as E; [|done]. subst m.
  unfold line. rewrite HM. cbn. by rewrite Ec.
Qed.

End put.

(** Another cache in the master. *)
Lemma master_ok_cache m M x :
  master_ok m M -> cache_wf x -> bypasses_metadata x = false -> cb x = cb (m_cache M) ->
  m_cache_type x = m_cache_type (m_cache M) -> master_ok m (with_cache x M).
Proof. intros [] ? ? E1 E2. by split; cbn; rewrite ?E1, ?E2. Qed.

Lemma put_cache_kept s M x :
  ok s -> masters s !! mm = Some M -> cache_wf x -> bypasses_metadata x = false -> cb x = cb (m_cache M) ->
  m_cache_type x = m_cache_type (m_cache M) -> kept s (put s (with_cache x M)).
Proof.
  intros Hs HM Hx Hb Hc Ht. eapply put_kept; try done. apply master_ok_cache; try done. by apply (ok_master _ Hs).
Qed.

Lemma put_cache_same s M x :
  ok s -> masters s !! mm = Some M -> cache_wf x -> bypasses_metadata x = false -> cb x = cb (m_cache M) ->
  m_cache_type x = m_cache_type (m_cache M) -> (forall y, in_range 64 y -> slot x y = slot (m_cache M) y) ->
  same s (put s (with_cache x M)).
Proof.
  intros Hs HM Hx Hb Hc Ht Hl. split; [by apply put_cache_kept|]. intros m y [Hy _]. rewrite (put_line s M) by done.
  case_decide as E; [|done]. subst m. unfold line. rewrite HM. cbn. by rewrite Hl.
Qed.

(** Lines at different addresses have different tags. *)
Lemma aligned_line_of m M y y' :
  master_ok m M -> aligned y -> aligned y' -> y <> y' -> line_of (cb (m_cache M)) y <> line_of (cb (m_cache M)) y'.
Proof.
  intros HM [Hr [t ->]] [Hr' [t' ->]] Hne E. unfold line_of in E. rewrite (mo_log _ _ HM) in E.
  pose proof (mc_logb Hm). rewrite !Z.shiftr_div_pow2, !Z.div_mul in E by lia. congruence.
Qed.

Lemma put_cache_line s M x y v :
  ok s -> masters s !! mm = Some M -> aligned y -> cache_wf x -> bypasses_metadata x = false -> cb x = cb (m_cache M) ->
  m_cache_type x = m_cache_type (m_cache M) -> cell (slot x y) = v ->
  (forall y', in_range 64 y' -> line_of (cb (m_cache M)) y' <> line_of (cb (m_cache M)) y -> slot x y' = slot (m_cache M) y') ->
  set_line mm y v s (put s (with_cache x M)).
Proof.
  intros Hs HM Hy Hx Hb Hc Ht Hv Hl. split; [by apply put_cache_kept| |].
  - rewrite (put_line s M) by done. by rewrite decide_True.
  - intros m' y' Hy' Hne. rewrite (put_line s M) by done. case_decide as E; [|done]. subst m'.
    destruct Hne as [|Hne]; [done|]. unfold line. rewrite HM. cbn. rewrite Hl; [done|apply Hy'|].
    eapply aligned_line_of; try done. by apply (ok_master _ Hs).
Qed.

(** ** Blocks *)

Lemma line_slot s M y l st : masters s !! mm = Some M -> line s mm y = Some (l, st) ->
  exists b, slot (m_cache M) y = Some (l, b) /\ m_cstate b = st.
Proof.
  intros HM. unfold line, cell. rewrite HM. cbn. destruct (slot _ _) as [[l' b]|]; [|done]. cbn. intros [= -> <-]. eauto.
Qed.

Lemma wp_getCacheBlockInfo Q s y :
  ok s -> aligned y -> Q (fst <$> line s mm y) s -> wp (getCacheBlockInfo topology c y) Q s.
Proof.
  intros Hs [Hy _] HQ. unfold getCacheBlockInfo. apply cwp_bind, wp_master; [done|]. intros M HM HMo.
  eapply cwp_lift; [apply peek_slot; [apply HMo|apply HMo|done]|]. unfold line in HQ. rewrite HM in HQ. cbn in HQ.
  unfold cell in HQ. by rewrite <- option_fmap_compose in HQ.
Qed.

Lemma wp_block Q s y l st :
  ok s -> line s mm y = Some (l, st) -> (forall b, m_cstate b = st -> Q b s) -> wp (block topology c l) Q s.
Proof.
  intros Hs Hl HQ. unfold block. apply cwp_bind, wp_master; [done|]. intros M HM HMo.
  destruct (line_slot s M y l st HM Hl) as (b & Hb & Hst). eapply cwp_lift; [by eapply slot_read|by apply HQ].
Qed.

Lemma wp_getCacheState_block Q s y o :
  ok s -> o = fst <$> line s mm y -> Q (state s mm y) s -> wp (getCacheState_block topology c o) Q s.
Proof.
  intros Hs -> HQ. unfold getCacheState_block. unfold state in HQ. destruct (line s mm y) as [[l st]|] eqn:E; cbn in *; [|done].
  apply cwp_bind. eapply wp_block; [done|done|]. intros b <-. done.
Qed.
Lemma wp_getCacheState Q s y :
  ok s -> aligned y -> Q (state s mm y) s -> wp (getCacheState topology c y) Q s.
Proof.
  intros Hs Hy HQ. unfold getCacheState. apply cwp_bind, wp_getCacheBlockInfo; [done|done|].
  by eapply wp_getCacheState_block.
Qed.
Lemma wp_permissible Q s y op :
  ok s -> aligned y -> Q (operation_permits (state s mm y) op, fst <$> line s mm y) s ->
  wp (operationPermissibleinCache topology c y op) Q s.
Proof.
  intros Hs Hy HQ. unfold operationPermissibleinCache. apply cwp_bind, wp_getCacheBlockInfo; [done|done|].
  apply cwp_bind. by eapply wp_getCacheState_block.
Qed.

(** A change of a block. *)
Lemma wp_update_block (Q : unit -> Hierarchy P D -> Prop) s y f l st st' :
  ok s -> aligned y -> keeps_tag f -> line s mm y = Some (l, st) -> (forall b, m_cstate b = st -> m_cstate (f b) = st') ->
  (forall s', set_line mm y (Some (l, st')) s s' -> Q tt s') -> wp (update_block topology c f l) Q s.
Proof.
  intros Hs Hy Hf Hl Hst HQ. unfold update_block. apply cwp_bind, wp_master; [done|]. intros M HM HMo.
  destruct (line_slot s M y l st HM Hl) as (b & Hb & Eb).
  destruct (modify_slot (m_cache M) y l b f) as (x & E & Hx & Hbx & Hcx & Htx & Hsx & Hox); try apply HMo; try apply Hy; try done.
  apply cwp_bind. eapply cwp_lift; [exact E|]. apply wp_put; [done|]. apply HQ. apply put_cache_line; try done.
  rewrite Hsx. cbn. by rewrite (Hst b Eb).
Qed.
Lemma wp_update_block_same (Q : unit -> Hierarchy P D -> Prop) s y f l st :
  ok s -> aligned y -> keeps_tag f -> line s mm y = Some (l, st) -> (forall b, m_cstate (f b) = m_cstate b) ->
  (forall s', same s s' -> Q tt s') -> wp (update_block topology c f l) Q s.
Proof.
  intros Hs Hy Hf Hl Hst HQ. apply (wp_update_block Q s y f l st st); try done; [intros b; by rewrite Hst|].
  intros s' Hs'. apply HQ. by eapply set_line_id.
Qed.

Lemma wp_setCacheState Q s y st l st0 :
  ok s -> aligned y -> line s mm y = Some (l, st0) -> (forall s', set_line mm y (Some (l, st)) s s' -> Q l s') ->
  wp (setCacheState topology c y st) Q s.
Proof.
  intros Hs Hy Hl HQ. unfold setCacheState. apply cwp_bind, wp_getCacheBlockInfo; [done|done|]. rewrite Hl. cbn [fmap option_fmap option_map fst].
  apply cwp_bind. eapply cwp_lift; [done|]. apply cwp_bind. eapply wp_update_block; try done; auto.
Qed.

(** An invalidation of a clean line; the block that held it says so. *)
Lemma wp_invalidateCacheBlock (Q : unit -> Hierarchy P D -> Prop) s y l :
  ok s -> aligned y -> line s mm y = Some (l, SHARED) ->
  (forall s', set_line mm y None s s' ->
     (forall Q', Q' INVALID s' -> wp (getCacheState_block topology c (Some l)) Q' s') -> Q tt s') ->
  wp (invalidateCacheBlock topology c y) Q s.
Proof.
  intros Hs Hy Hl HQ. unfold invalidateCacheBlock. apply cwp_bind, wp_getCacheState; [done|done|].
  unfold state. rewrite Hl. cbn [from_option snd]. apply cwp_bind, cwp_check; [done|]. apply cwp_bind, cwp_check; [done|].
  apply cwp_bind, wp_master; [done|]. intros M HM HMo. destruct (line_slot s M y l SHARED HM Hl) as (b & Hb & _).
  destruct (invalidate_slot (m_cache M) y) as (r & x & E & Hx & Hbx & Hcx & Htx & Hsx & Hox); try apply HMo; try apply Hy.
  apply cwp_bind. eapply cwp_lift; [exact E|]. cbn beta iota. apply wp_put; [done|].
  assert (Hsl : set_line mm y None s (put s (with_cache x M))) by (by apply put_cache_line; try done; rewrite Hsx).
  apply HQ; [done|]. intros Q' HQ'. unfold getCacheState_block, block.
  apply cwp_bind, cwp_bind, wp_master; [by eapply set_line_ok|]. intros M2. rewrite (put_lookup s M) by done.
  rewrite decide_True by done. intros [= <-] _. cbn [m_cache with_cache].
  destruct (invalidated_block (m_cache M) y l b r x) as (b' & Eb & Hs'); try apply HMo; try apply Hy; try done.
  eapply cwp_lift; [exact Eb|]. rewrite Hs'. done.
Qed.

(** ** Data *)

Lemma block_size : 2 <= bs < 2 ^ 32.
Proof.
  pose proof (mc_logb Hm). split; [|apply Z.pow_lt_mono_r; lia]. change 2 with (2 ^ 1) at 1. apply Z.pow_le_mono_r; lia.
Qed.

(** An address inside a line. *)
Lemma inside_line m M y off :
  master_ok m M -> aligned y -> 0 <= off < bs ->
  y +64 off = y + off /\ in_range 64 (y + off) /\ line_offset (cb (m_cache M)) (y + off) = off /\
  line_of (cb (m_cache M)) (y + off) = line_of (cb (m_cache M)) y.
Proof.
  intros HM [[H1 H2] [t ->]] Hoff. pose proof (mc_logb Hm) as Hl. pose proof block_size as Hb.
  assert (E64 : 2 ^ 64 = 2 ^ (64 - logb) * bs) by (rewrite <- Z.pow_add_r by lia; f_equal; lia).
  assert (Ht : t * bs + off < 2 ^ 64).
  { rewrite E64 in *. set (N := 2 ^ (64 - logb)) in *. assert (t + 1 <= N) by nia. nia. }
  split; [apply wrap_small; split; lia|]. split; [split; lia|]. unfold line_offset, line_of.
  rewrite (mo_log _ _ HM), (mo_block _ _ HM). rewrite (wrap_small 32 (bs - 1)) by (split; lia).
  rewrite land_pow2_pred by lia.
  rewrite (Z.add_comm _ off), Z.mod_add, Z.mod_small by lia. rewrite (wrap_small 32 off) by (split; lia).
  rewrite !Z.shiftr_div_pow2, Z.div_add, (Z.div_small off), Z.div_mul by lia. split; [done|lia].
Qed.

Lemma wp_access_line Q s y off acc buff len upd :
  ok s -> aligned y -> 0 <= off < bs -> 0 <= len -> off + len <= bs ->
  (forall d, buff = Some d -> len <= Z.of_nat (length d)) ->
  (forall r s', same s s' -> (fun x => (ar_loc x, m_cstate (ar_block x))) <$> r = line s mm y ->
     (forall x d, r = Some x -> ar_data x = Some d -> Z.of_nat (length d) = len) -> Q r s') ->
  wp (access_line topology c (y +64 off) acc buff len upd) Q s.
Proof.
  intros Hs Hy Hoff Hlen Hle Hbuf HQ. unfold access_line. apply cwp_bind, wp_master; [done|]. intros M HM HMo.
  destruct (inside_line mm M y off HMo Hy Hoff) as (-> & Hr & Ho & Hl).
  destruct (access_slot (m_cache M) (y + off) acc buff len upd) as (r & x & E & Hx & Hbx & Hcx & Htx & Hr' & Hd & Hsx);
    try apply HMo; try done; [by rewrite Ho, (mo_block _ _ HMo)|].
  apply cwp_bind. eapply cwp_lift; [exact E|]. cbn beta iota. apply cwp_bind. apply wp_put; [done|]. apply cwp_ret.
  apply HQ; [by apply put_cache_same| |done].
  rewrite (slot_same_line (m_cache M) (mo_cache _ _ HMo) (y + off) y) in Hr' by (try apply Hy; done).
  unfold line. rewrite HM. cbn. rewrite <- Hr'. unfold cell. by destruct r.
Qed.

Lemma aligned_zero y : aligned y -> y = y +64 0.
Proof. intros [Hy _]. rewrite Z.add_0_r. symmetry. by apply wrap_small. Qed.

Lemma wp_retrieve_line Q s y upd :
  ok s -> aligned y -> is_Some (line s mm y) -> (forall d s', same s s' -> bs <= Z.of_nat (length d) -> Q d s') ->
  wp (retrieveCacheBlock topology junk c y upd) Q s.
Proof.
  intros Hs Hy [v Hv] HQ. unfold retrieveCacheBlock. apply cwp_bind, wp_config. pose proof block_size.
  destruct (mc_plain Hm c k Hk) as (_ & _ & _ & _ & _ & ->).
  apply cwp_bind. rewrite (aligned_zero y Hy) at 1. apply wp_access_line; try done; try lia.
  { intros d [= <-]. apply Hm. }
  intros r s' Hs' Hr Hd. rewrite Hv in Hr. destruct r as [x|]; [|done]. apply cwp_bind. eapply cwp_lift; [done|].
  apply cwp_ret. apply HQ; [done|]. destruct (ar_data x) as [d|] eqn:E; cbn; [|apply Hm]. rewrite (Hd x d eq_refl E). lia.
Qed.

Lemma wp_store_line (Q : unit -> Hierarchy P D -> Prop) s y l d :
  ok s -> aligned y -> line s mm y = Some (l, MODIFIED) -> bs <= Z.of_nat (length d) ->
  (forall s', same s s' -> Q tt s') -> wp (store_line topology c y 0 (Some d) bs) Q s.
Proof.
  intros Hs Hy Hl Hd HQ. unfold store_line. pose proof block_size. apply cwp_bind, wp_access_line; try done; try lia.
  { by intros ? [= <-]. }
  intros r s' Hs' Hr _. rewrite Hl in Hr. destruct r as [x|]; [|done]. injection Hr as Hloc Hst.
  apply cwp_bind. eapply cwp_lift; [done|]. apply cwp_check; [|by apply HQ]. by rewrite Hst.
Qed.

(** ** Registers and counters *)

(** A change of the fields of the master that the view does not show. *)
Lemma put_mild s M M' :
  ok s -> masters s !! mm = Some M -> master_ok mm M' -> m_cache M' = m_cache M -> m_evicting_buf M' = m_evicting_buf M ->
  m_evicting_address M' = m_evicting_address M -> m_setlocks M' = m_setlocks M -> mc_log_blocksize M' = mc_log_blocksize M ->
  mc_num_sets M' = mc_num_sets M -> m_smt_lock M' = m_smt_lock M -> same s (put s M').
Proof. intros. eapply put_master_same; [done| |done]. by eapply put_kept. Qed.

Lemma wp_put_mild (Q : unit -> Hierarchy P D -> Prop) s M M' :
  ok s -> masters s !! mm = Some M -> (master_ok mm M -> master_ok mm M') -> m_cache M' = m_cache M ->
  m_evicting_buf M' = m_evicting_buf M -> m_evicting_address M' = m_evicting_address M -> m_setlocks M' = m_setlocks M ->
  mc_log_blocksize M' = mc_log_blocksize M -> mc_num_sets M' = mc_num_sets M -> m_smt_lock M' = m_smt_lock M ->
  (forall s', same s s' -> Q tt s') -> wp (put_master topology c M') Q s.
Proof.
  intros Hs HM HM' ? ? ? ? ? ? ? HQ. apply wp_put; [done|]. apply HQ. eapply put_mild; try done.
  by apply HM', (ok_master _ Hs).
Qed.

(** The entry that is found, unless all complete at the maximal time. *)
Lemma oldest_entry_found (es : list (Z * MshrEntry)) :
  (exists x, x ∈ es /\ fst (oldest_entry es) = fst x) \/ forallb (fun x => MaxTime <=? t_complete (snd x)) es = true.
Proof.
  unfold oldest_entry. assert (HI : forall (l : list (Z * MshrEntry)) acc, (exists x, x ∈ l /\ fst (fold_left (fun acc x => if t_complete (snd x) <? snd acc then (fst x, t_complete (snd x)) else acc) l acc) = fst x) \/
    fold_left (fun acc x => if t_complete (snd x) <? snd acc then (fst x, t_complete (snd x)) else acc) l acc = acc /\ forallb (fun x => snd acc <=? t_complete (snd x)) l = true).
  { clear es. induction l as [|x l IH]; intros acc; [by right|]. cbn [fold_left forallb]. destruct (Z.ltb_spec (t_complete (snd x)) (snd acc)) as [Hlt|Hge].
    - destruct (IH (fst x, t_complete (snd x))) as [(y & Hy & E)|[E _]]; left; [exists y; split; [by right|done]|]. exists x. split; [by left|]. by rewrite E.
    - destruct (IH acc) as [(y & Hy & E)|[E Hl]]; [left; exists y; split; [by right|done]|right]. split; [done|]. rewrite Hl, andb_true_r. by apply Z.leb_le. }
  destruct (HI es (0, MaxTime)) as [H|[_ H]]; [by left|by right].
Qed.
Lemma cleanup_loop_total fuel limit r :
  0 <= limit -> (size r <= fuel)%nat -> (exists r', cleanup_loop traverse fuel limit r = Ok r') \/ cleanup_loop traverse fuel limit r = Err ClockEnd.
Proof.
  intros Hl.
  revert r. induction fuel as [|fuel IH]; intros r Hf; cbn [cleanup_loop]; (destruct (Z.ltb_spec limit (s32 (Z.of_nat (size r)))) as [Hlt|_]; [|eauto]);
    (assert (Hne : size r <> 0%nat) by (intros E; rewrite E in Hlt; change (s32 (Z.of_nat 0)) with 0 in Hlt; lia)).
  - lia.
  - destruct (oldest_entry_found (traverse r)) as [([a e] & Hx & E)|E].
    + apply (traverses r) in Hx. rewrite E. cbn [fst]. rewrite bool_decide_eq_true_2 by (by eexists). cbn [check mbind res_bind]. apply IH.
      rewrite map_size_delete_Some by (by eexists). lia.
    + destruct (decide (is_Some (r !! fst (oldest_entry (traverse r))))) as [Hx|Hx].
      * rewrite bool_decide_eq_true_2 by done. cbn [check mbind res_bind]. apply IH. rewrite map_size_delete_Some by done. lia.
      * rewrite bool_decide_eq_false_2 by done. right. cbn [check mbind res_bind]. unfold stuck_fault. rewrite E, (proj2 (Nat.eqb_neq _ _)) by done. done.
Qed.

Lemma quiet_cleanupMshr : quiet (cleanupMshr topology traverse c).
Proof.
  unfold cleanupMshr. intros s Hs. apply cwp_bind, wp_config. apply cwp_bind, wp_master; [done|].
  intros M HM HMo. apply cwp_bind, cwp_lift_opt.
  destruct (cleanup_loop_total (size (mshr M)) (mshr_size k) (mshr M) ltac:(by eapply mc_mshr) ltac:(done)) as [[r E]|E]; rewrite E; [|by right].
  eapply wp_put_mild; try done. intros []. by split.
Qed.
Lemma quiet_cleanupMetadataMshr : quiet (cleanupMetadataMshr topology traverse c).
Proof.
  unfold cleanupMetadataMshr. intros s Hs. apply cwp_bind, wp_config. apply cwp_bind, wp_master; [done|].
  intros M HM HMo. apply cwp_bind, cwp_lift_opt.
  destruct (cleanup_loop_total (size (metadata_mshr M)) (mshr_size k) (metadata_mshr M) ltac:(by eapply mc_mshr) ltac:(done)) as [[r E]|E]; rewrite E; [|by right].
  eapply wp_put_mild; try done. intros []. by split.
Qed.

Lemma quiet_record_miss metadata y t1 t2 : quiet (record_miss topology traverse c metadata y t1 t2).
Proof.
  unfold record_miss, update_master. apply quiet_if; intros _; (apply quiet_bind; [|intros _]).
  - intros s Hs. apply cwp_bind, wp_master; [done|]. intros M HM _. eapply wp_put_mild; try done. intros []. by split.
  - apply quiet_cleanupMetadataMshr.
  - intros s Hs. apply cwp_bind, wp_master; [done|]. intros M HM _. eapply wp_put_mild; try done. intros []. by split.
  - apply quiet_cleanupMshr.
Qed.

Lemma counted_cache (x : Cache P) hit :
  cache_wf x -> cache_wf (Cache.updateCounters hit x) /\ bypasses_metadata (Cache.updateCounters hit x) = bypasses_metadata x /\
  cb (Cache.updateCounters hit x) = cb x /\ m_cache_type (Cache.updateCounters hit x) = m_cache_type x /\
  forall y, slot (Cache.updateCounters hit x) y = slot x y.
Proof.
  intros Hx. unfold Cache.updateCounters. destruct (m_enabled x); [|done]. split; [|done].
  destruct Hx as [? ? ? ? ? Hs]. split; try done. intros i z Hz. destruct (Hs i z Hz). by split.
Qed.

Lemma quiet_count_access hit : quiet (count_access topology c hit).
Proof.
  intros s Hs. unfold count_access, update_master. apply cwp_bind, wp_master; [done|]. intros M HM HMo.
  destruct (counted_cache (m_cache M) hit (mo_cache _ _ HMo)) as (H1 & H2 & H3 & H4 & H5).
  apply wp_put; [done|]. apply put_cache_same; try done. rewrite H2. apply HMo.
Qed.

(** The counters of an access; a read that hits also counts the reuse of the block. *)
Lemma wp_updateCounters (Q : unit -> Hierarchy P D -> Prop) s op y hit st bt pf :
  ok s -> aligned y -> (hit = true -> is_Some (line s mm y)) -> (forall s', same s s' -> Q tt s') ->
  wp (updateCounters topology traverse c op y hit st bt pf) Q s.
Proof.
  intros Hs Hy Hhit HQ. unfold updateCounters. apply wp_quiet; [done|apply quiet_getElapsedTime|]. intros t s1 H1.
  apply cwp_bind, wp_config. pose proof (same_ok _ _ H1) as Ho1. apply cwp_bind, wp_master; [done|]. intros M HM HMo.
  unfold accessATDs. rewrite (mo_atds _ _ HMo). cbn [bool_decide]. apply cwp_bind. eapply cwp_lift; [done|].
  apply cwp_bind. eapply wp_put_mild; try done. intros s2 H2. pose proof (same_trans _ _ _ H1 H2) as H12. clear H1 H2.
  set (ov := mshr_pending _ _). clearbody ov.
  apply cwp_bind. eapply cwp_mono with (Q := fun _ s3 => same s s3).
  - assert (Hr : forall s3, same s s3 -> hit = true -> wp (o ← getCacheBlockInfo topology c y; l ← clift (deref o);
      update_block topology c increaseReuse l) (fun _ s3 => same s s3) s3).
    { intros s3 H3 Hh. destruct (Hhit Hh) as [[l st'] Hl]. rewrite <- (sm_line _ _ H3) in Hl by done.
      pose proof (same_ok _ _ H3). apply cwp_bind, wp_getCacheBlockInfo; [done|done|]. rewrite Hl. apply cwp_bind.
      eapply cwp_lift; [done|]. eapply wp_update_block_same; try done. intros s4 H4. by eapply same_trans. }
    assert (Hq : forall op : C P D unit, quiet op -> forall s3, same s s3 -> wp op (fun _ s3 => same s s3) s3).
    { intros op' Hop s3 H3. eapply cwp_mono; [apply Hop; by eapply same_ok|]. intros ? s4 H4. by eapply same_trans. }
    destruct (bool_decide (op = Core.WRITE)).
    + apply Hq; [|done]. apply quiet_when. intros _.
      repeat (apply quiet_bind; [first [apply quiet_count|apply quiet_when; intros _]|intros _]); try apply quiet_count; try apply quiet_count_if.
    + apply wp_quiet; [by eapply same_ok|apply quiet_count_if|]. intros _ s3 H3.
      pose proof (same_trans _ _ _ H12 H3) as H13. apply cwp_when; intros _; [|done].
      apply wp_quiet; [by eapply same_ok|apply quiet_count|]. intros _ s4 H4. pose proof (same_trans _ _ _ H13 H4) as H14.
      apply wp_quiet; [by eapply same_ok|apply quiet_count|]. intros _ s5 H5. pose proof (same_trans _ _ _ H14 H5) as H15.
      apply wp_quiet; [by eapply same_ok|apply quiet_count|]. intros _ s6 H6. pose proof (same_trans _ _ _ H15 H6) as H16.
      destruct hit; cbn [negb].
      * apply wp_quiet; [by eapply same_ok|apply quiet_count_if|]. intros _ s7 H7. apply Hr; [by eapply same_trans|done].
      * apply Hq; [|done]. repeat (apply quiet_bind; [apply quiet_count|intros _]). apply quiet_count_if.
  - intros _ s3 H3. destruct (isMetadataBlockType bt).
    + eapply cwp_mono; [apply quiet_cleanupMetadataMshr; by eapply same_ok|]. intros [] s4 H4. apply HQ. by eapply same_trans.
    + eapply cwp_mono; [apply quiet_cleanupMshr; by eapply same_ok|]. intros [] s4 H4. apply HQ. by eapply same_trans.
Qed.

Lemma quiet_count_evicted y b : quiet (count_evicted topology c y b).
Proof.
  unfold count_evicted. apply quiet_bind; [apply quiet_count|]. intros _.
  apply quiet_bind; [apply quiet_count_if|]. intros _. apply quiet_bind; [apply quiet_count_if|]. intros _.
  apply quiet_bind; [apply quiet_cntlr|]. intros st. apply quiet_when. intros _ s Hs.
  apply cwp_bind, wp_master; [done|]. intros M HM HMo.
  destruct (specEvictInsert_total (m_spec_evict_table M) y (m_l2_demand_count M) (mo_spec _ _ HMo)) as (t & E & Ht).
  apply cwp_bind. eapply cwp_lift; [exact E|]. apply cwp_bind. eapply wp_put_mild; try done; [intros []; by split|].
  intros s1 H1. eapply cwp_mono; [apply quiet_count; by eapply same_ok|]. intros [] s2 H2. by eapply same_trans.
Qed.

Lemma quiet_track_spec_evictions y pf hit : quiet (track_spec_evictions topology c k y pf hit).
Proof.
  unfold track_spec_evictions. apply quiet_when. intros _ s Hs. apply cwp_bind, wp_master; [done|]. intros M HM HMo.
  destruct hit.
  - destruct (specEvictRemove_total (m_spec_evict_table M) y (mo_spec _ _ HMo)) as (t & E & Ht).
    apply cwp_bind. eapply cwp_lift; [exact E|]. eapply wp_put_mild; try done. intros []; by split.
  - destruct (specEvictLookupAndRemove_total (m_spec_evict_table M) y (mo_spec _ _ HMo)) as (n & t & E & Ht).
    apply cwp_bind. eapply cwp_lift; [exact E|]. cbn beta iota. apply cwp_bind. eapply wp_put_mild; try done; [intros []; by split|].
    intros s1 H1. eapply cwp_mono; [apply quiet_count_if; by eapply same_ok|]. intros [] s2 H2. by eapply same_trans.
Qed.

(** ** Insertions *)

Lemma quiet_incrementQBSLookupCost : quiet (incrementQBSLookupCost topology c).
Proof.
  unfold incrementQBSLookupCost. apply quiet_bind; [apply quiet_config|]. intros.
  apply quiet_bind; [apply quiet_incrElapsed|]. intros. apply quiet_add_stat.
Qed.

Lemma shared_receives : receives SHARED_CACHE (CacheBlockInfo_new SharedCacheBlockInfo).
Proof. intros b Hb. done. Qed.

(** The line that an insertion put out. *)
Definition victim (r : insertion P) : option Z := if in_eviction r then Some (in_evict_addr r) else None.

Record inserted_line y (r : insertion P) s s' : Prop := {
  il_kept : kept s s';
  il_here : is_Some (line s' mm y);
  il_victim v : victim r = Some v -> aligned v /\ v <> y /\ line s' mm v = None /\
    (exists l, line s mm v = Some (l, m_cstate (in_evict_info r)));
  il_buffer d : in_evict_buff r = Some d -> bs <= Z.of_nat (length d);
  il_other m y' : aligned y' -> m <> mm \/ y' <> y /\ victim r <> Some y' -> line s' m y' = line s m y'
}.

Lemma wp_insert_line `{!AlwaysVictim P} Q s y fill bt :
  (forall b p si q, victim_ready b p (mkEnv si (Some q))) -> ok s -> aligned y -> line s mm y = None ->
  (forall d, fill = Some d -> bs <= Z.of_nat (length d)) -> (forall r s', inserted_line y r s s' -> Q r s') ->
  wp (insert_line topology c y fill bt) Q s.
Proof.
  intros Hready Hs Hy Hn Hfill HQ. unfold insert_line. apply cwp_bind, wp_master; [done|]. intros M HM HMo.
  apply cwp_bind, cwp_get. set (q := Some _). assert (Hslot : slot (m_cache M) y = None).
  { unfold line in Hn. rewrite HM in Hn. cbn in Hn. unfold cell in Hn. by destruct (slot _ _). }
  pose proof (mo_cache _ _ HMo) as Hc. pose proof (mo_plain _ _ HMo) as Hby. pose proof Hy as [Hr _].
  assert (Hrec : receives (m_cache_type (m_cache M)) (CacheBlockInfo_new SharedCacheBlockInfo))
    by (rewrite (mo_type _ _ HMo); apply shared_receives).
  assert (Hfill' : forall d, fill = Some d -> (Z.to_nat (m_blocksize (cb (m_cache M))) <= length d)%nat).
  { intros d Hd. rewrite (mo_block _ _ HMo). specialize (Hfill d Hd). lia. }
  destruct (insert_returns (m_cache M) y fill _ true q bt Hc Hby Hr Hslot Hrec Hfill') as [r E]; [intros; apply Hready|].
  apply cwp_bind. eapply cwp_lift; [exact E|].
  destruct (insert_slot (m_cache M) y fill _ true q bt r Hc Hby Hr Hslot Hrec Hfill' E) as [W1 W2 W3 W4 W5 W6 W7 W8].
  apply cwp_bind, wp_put; [done|]. assert (Hkept : kept s (put s (with_cache (in_cache r) M))) by (by apply put_cache_kept).
  apply wp_quiet; [apply Hkept|apply quiet_fold; intros; apply quiet_incrementQBSLookupCost|]. intros _ s2 H2.
  apply cwp_ret, HQ. pose proof (put_line s M (with_cache (in_cache r) M) HM) as Hpl.
  assert (Hl2 : forall m y', aligned y' -> line s2 m y' = if decide (m = mm) then cell (slot (in_cache r) y') else line s m y').
  { intros m y' Hy'. rewrite (sm_line _ _ H2) by done. apply Hpl. }
  assert (Hv : forall v, victim r = Some v -> in_eviction r = true /\ v = in_evict_addr r).
  { intros v. unfold victim. destruct (in_eviction r); [|done]. by intros [= <-]. }
  assert (Hva : forall v, victim r = Some v -> aligned v).
  { intros v Ev. destruct (Hv v Ev) as [Hev ->]. destruct (W7 Hev) as [? [t Ht]]. split; [done|]. exists t.
    by rewrite Ht, (mo_log _ _ HMo). }
  split.
  - eapply kept_kept; [exact Hkept|apply H2].
  - rewrite Hl2, decide_True by done. destruct W5 as (l & b & ->). by eexists.
  - intros v Ev. pose proof (Hva v Ev) as Hav. destruct (Hv v Ev) as [Hev ->]. destruct (W6 Hev) as (l & b & Hb & Hst & Hnone).
    split_and!; [done|intros E'; rewrite E' in Hb; congruence| |].
    + rewrite Hl2, decide_True by done. by rewrite Hnone.
    + exists l. unfold line. rewrite HM. cbn. rewrite Hb. cbn. by rewrite Hst.
  - intros d Hd. erewrite insert_evict_data; [|exact Hc|exact Hby|exact Hr|exact E|exact Hd]. by rewrite (mo_block _ _ HMo).
  - intros m y' Hy' Hne. rewrite Hl2 by done. case_decide as Em; [|done]. subst m. destruct Hne as [|[Hne Hnv]]; [done|].
    unfold line. rewrite HM. cbn. rewrite W8; [done|apply Hy'|by eapply aligned_line_of|].
    intros Hev. eapply aligned_line_of; try done; [by apply Hva; unfold victim; rewrite Hev|].
    intros E'. apply Hnv. unfold victim. by rewrite Hev, E'.
Qed.

(** ** DRAM *)

Lemma wp_access_dram Q s op y buf metadata :
  ok s -> (forall w lat d s', same s s' -> length d = length buf -> (op = Core.READ -> w <> HitWhere.MISS) -> Q (w, lat, d) s') ->
  wp (access_dram topology c op y buf metadata) Q s.
Proof.
  intros Hs HQ. unfold access_dram. apply cwp_bind, wp_config. apply wp_quiet; [done|apply quiet_getElapsedTime|].
  intros t s1 H1. apply cwp_bind, cwp_get. destruct op.
  - destruct (getDataFromDram_total (dram s1) y (cc_core_id_master k) buf t metadata (ok_dram _ (same_ok _ _ H1))) as (lat & w & buf' & d' & E & Hl & Hw & Hd).
    apply cwp_bind. eapply cwp_lift; [exact E|]. cbn beta iota. apply cwp_bind, cwp_modify, cwp_ret, HQ; [|done|done].
    eapply same_trans; [exact H1|]. apply same_outside; [by eapply same_ok|done|done|apply (ok_where _ (same_ok _ _ H1))|done].
  - destruct (putDataToDram_total (dram s1) y (cc_core_id_master k) buf t metadata (ok_dram _ (same_ok _ _ H1))) as (lat & w & d' & E & Hd).
    apply cwp_bind. eapply cwp_lift; [exact E|]. cbn beta iota. apply cwp_bind, cwp_modify, cwp_ret, HQ; [|done|done].
    eapply same_trans; [exact H1|]. apply same_outside; [by eapply same_ok|done|done|apply (ok_where _ (same_ok _ _ H1))|done].
  - destruct (putDataToDram_total (dram s1) y (cc_core_id_master k) buf t metadata (ok_dram _ (same_ok _ _ H1))) as (lat & w & d' & E & Hd).
    apply cwp_bind. eapply cwp_lift; [exact E|]. cbn beta iota. apply cwp_bind, cwp_modify, cwp_ret, HQ; [|done|done].
    eapply same_trans; [exact H1|]. apply same_outside; [by eapply same_ok|done|done|apply (ok_where _ (same_ok _ _ H1))|done].
Qed.

Lemma quiet_write_to_dram y buf bt : quiet (write_to_dram topology c y buf bt).
Proof.
  unfold write_to_dram. apply quiet_bind; [apply quiet_getElapsedTime|]. intros t.
  intros s Hs. apply cwp_bind, wp_master; [done|]. intros M HM HMo.
  apply cwp_bind. eapply cwp_mono with (Q := fun _ s' => same s s').
  { destruct (m_dram_outstanding_writebacks M) as [q|] eqn:Eq; [|apply cwp_ret; by apply same_refl].
    destruct (getStartTime_total t q (mo_writebacks _ _ HMo q Eq)) as (t' & E & _).
    apply cwp_bind. eapply cwp_lift; [exact E|]. by apply quiet_incrElapsed. }
  intros _ s1 H1. apply cwp_bind, wp_access_dram; [by eapply same_ok|]. intros w lat d s2 H2 _ _.
  pose proof (same_trans _ _ _ H1 H2) as H12. apply cwp_bind, wp_master; [by eapply same_ok|]. intros M2 HM2 HMo2.
  destruct (m_dram_outstanding_writebacks M2) as [q|] eqn:Eq; [|by apply cwp_ret].
  destruct (getCompletionTime_total t lat 0 q (mo_writebacks _ _ HMo2 q Eq)) as (t' & q' & E & Hq').
  apply cwp_bind. eapply cwp_lift; [exact E|]. cbn beta iota. eapply wp_put_mild; try done; [by eapply same_ok| |].
  - intros []. split; try done. cbn. by intros ? [= <-].
  - intros s3 H3. by eapply same_trans.
Qed.

End at_controller.

End view.

Create HintDb quiet.
#[export] Hint Resolve quiet_ret quiet_get : quiet.
#[export] Hint Resolve quiet_config quiet_cntlr quiet_add_stat quiet_count quiet_count_if : quiet.
#[export] Hint Resolve quiet_getElapsedTime quiet_setElapsedTime quiet_incrElapsed quiet_incrElapsed_access quiet_charge_snoop : quiet.
#[export] Hint Resolve quiet_master quiet_record_miss quiet_count_access quiet_incrementQBSLookupCost quiet_write_to_dram
  quiet_count_evicted quiet_track_spec_evictions : quiet.

(** An operation is made of operations that do not change the view. *)
Ltac solve_quiet :=
  repeat first
    [ solve [eauto 4 with quiet nocore]
    | solve [eapply quiet_update_cntlr; [eassumption|done]]
    | apply quiet_bind; [|intros ?]
    | apply quiet_when; intros ?
    | apply quiet_if; intros ?
    | apply quiet_fold; intros ? ? ].
