(* ===== verification/CntlrProps.v ===== *)
(** * Correctness of the cache controllers

    The caches of a machine whose last level is connected to DRAM: the levels are inclusive
    and a modified line is modified, or about to be written back, in the level behind it.
    A request of a previous level is served: it completes with a copy that permits it, keeps this
    invariant and leaves no copy of the line in front of the requester. *)

From stdpp Require Import base tactics list numbers gmap strings relations.
From Stdlib Require Import ZArith Lia.
From S2P Require Import Prelude Utils CacheBase CacheBlock CacheSet Cache CacheLines Timing Contention Directory DirCntlr Prefetch CntlrState CacheCntlr CntlrView.
Local Open Scope Z_scope.
Local Open Scope mach_scope.
Import Cntlr.

Section props.
Context {P D : Type} `{!ReplacementPolicy P} `{!ReplacementPolicyLaws P} `{!DramCntlrInterface D} `{!DramCntlrLaws D}.
Context (topology : list CntlrConfig) (junk : list Z) (traverse : gmap Z MshrEntry -> list (Z * MshrEntry)) `{!Traversal traverse}.
Context (logb : Z) (parent : nat -> option nat) (prevs : nat -> list nat) (level : nat -> nat).
Implicit Types (s : Hierarchy P D) (m z : nat) (y : Z) (M : CacheMasterCntlr P) (l : location) (st new : cstate_t).

Abbreviation bs := (2 ^ logb).
Abbreviation aligned := (aligned logb).
Abbreviation ok := (ok topology logb parent prevs).
Abbreviation kept := (kept topology logb parent prevs).
Abbreviation same := (same topology logb parent prevs).
Abbreviation set_line := (set_line topology logb parent prevs).
Abbreviation quiet := (quiet topology logb parent prevs).
Context (Hm : machine topology junk logb parent prevs level).

(** ** The invariant *)

(** The level behind a cache has the line, or is evicting it; and it has it MODIFIED. *)
Definition holds s m y : Prop := is_Some (line s m y) \/ evicting s m = Some y.
Definition accepts s m y : Prop := state s m y = MODIFIED \/ evicting s m = Some y.

Record inv s : Prop := {
  iv_ok : ok s;
  iv_state m y l st : aligned y -> line s m y = Some (l, st) -> st = SHARED \/ st = MODIFIED;
  iv_holds x m y : aligned y -> parent x = Some m -> is_Some (line s x y) -> holds s m y;
  iv_accepts x m y : aligned y -> parent x = Some m -> state s x y = MODIFIED -> accepts s m y
}.

Lemma parent_ne x m : parent x = Some m -> m <> x.
Proof. intros H ->. pose proof (mc_level _ _ _ _ _ _ Hm _ _ H). lia. Qed.

Lemma same_holds s s' m y : same s s' -> aligned y -> holds s' m y <-> holds s m y.
Proof. intros [[] L] Hy. unfold holds. rewrite L by done. by rewrite kp_evicting. Qed.
Lemma same_accepts s s' m y : same s s' -> aligned y -> accepts s' m y <-> accepts s m y.
Proof. intros [[] L] Hy. unfold accepts, state. rewrite L by done. by rewrite kp_evicting. Qed.

Lemma inv_same s s' : same s s' -> inv s -> inv s'.
Proof.
  intros H [_ I2 I3 I4]. pose proof H as [[Ho _ _ _] L]. split; [done|..].
  - intros m y l st Hy. rewrite L by done. by apply I2.
  - intros x m y Hy Hp. rewrite (same_holds s) by done. rewrite L by done. by apply I3.
  - intros x m y Hy Hp. rewrite (same_accepts s) by done. unfold state. rewrite L by done. by apply I4.
Qed.

(** A change of one line keeps the invariant when the line fits between its neighbours. *)
Lemma inv_set_line s s' m y v :
  inv s -> aligned y -> set_line m y v s s' ->
  (forall l st, v = Some (l, st) -> st = SHARED \/ st = MODIFIED) ->
  (forall x, parent x = Some m -> is_Some (line s x y) -> is_Some v \/ evicting s m = Some y) ->
  (forall x, parent x = Some m -> state s x y = MODIFIED -> from_option snd INVALID v = MODIFIED \/ evicting s m = Some y) ->
  (forall m', parent m = Some m' -> is_Some v -> holds s m' y) ->
  (forall m', parent m = Some m' -> from_option snd INVALID v = MODIFIED -> accepts s m' y) -> inv s'.
Proof.
  intros [_ I2 I3 I4] Hy [[Ho He Hlk Hb] Hh L] V1 V2 V3 V4 V5.
  assert (Hl : forall m' y', aligned y' -> line s' m' y' = if decide (m' = m /\ y' = y) then v else line s m' y').
  { intros m' y' Hy'. case_decide as E; [by destruct E as [-> ->]|]. apply L; [done|].
    destruct (decide (m' = m)); [right|by left]. naive_solver. }
  split; [done|..].
  - intros m' y' l st Hy'. rewrite Hl by done. case_decide; [apply V1|by apply I2].
  - intros x m' y' Hy' Hp. unfold holds. rewrite He, !Hl by done.
    destruct (decide (x = m /\ y' = y)) as [[-> ->]|Hx].
    + rewrite (decide_False (P := m' = m /\ y = y)) by (intros [? _]; by eapply parent_ne). intros Hv. by apply V4.
    + case_decide as Hm'; [destruct Hm' as [-> ->]; by apply V2|]. by apply I3.
  - intros x m' y' Hy' Hp. unfold accepts, state. rewrite He, !Hl by done.
    destruct (decide (x = m /\ y' = y)) as [[-> ->]|Hx].
    + rewrite (decide_False (P := m' = m /\ y = y)) by (intros [? _]; by eapply parent_ne). intros Hv. by apply V5.
    + case_decide as Hm'; [destruct Hm' as [-> ->]; by apply V3|]. by apply I4.
Qed.

(** ** Lowered lines *)

(** The state that an invalidation or a downgrade leaves. *)
Definition lower new (o : option (location * cstate_t)) : option (location * cstate_t) :=
  match new with INVALID => None | _ => (fun v => (fst v, SHARED)) <$> o end.

Lemma lower_lower new o : lower new (lower new o) = lower new o.
Proof. destruct new, o; done. Qed.

(** The line [y] was lowered in the caches [S], and nothing else happened. *)
Record lowered (S : nat -> Prop) y new s s' : Prop := {
  ld_inv : inv s';
  ld_kept : kept s s';
  ld_in z : S z -> line s' z y = lower new (line s z y);
  ld_out z : line s' z y = line s z y \/ S z;
  ld_other z y' : aligned y' -> y' <> y -> line s' z y' = line s z y'
}.

Lemma lowered_same S y new s s' :
  aligned y -> inv s -> same s s' -> (forall z, S z -> line s z y = lower new (line s z y)) -> lowered S y new s s'.
Proof.
  intros Hy Hi H HS. pose proof H as [K L]. split; [by eapply inv_same|done|..].
  - intros z Hz. rewrite L by done. by apply HS.
  - intros z. left. by apply L.
  - intros z y' Hy' _. by apply L.
Qed.
Lemma lowered_trans (S1 S2 : nat -> Prop) y new s1 s2 s3 :
  lowered S1 y new s1 s2 -> lowered S2 y new s2 s3 -> lowered (fun z => S1 z \/ S2 z) y new s1 s3.
Proof.
  intros [_ K1 A1 B1 C1] [I2 K2 A2 B2 C2]. split; [done|by eapply kept_kept|..].
  - intros z [Hz|Hz].
    + destruct (B2 z) as [->|Hz2]; [by apply A1|]. by rewrite A2, A1, lower_lower.
    + rewrite A2 by done. destruct (B1 z) as [->|Hz1]; [done|]. by rewrite A1, lower_lower.
  - intros z. destruct (B2 z) as [->|]; [|by right; right]. destruct (B1 z) as [->|]; [by left|by right; left].
  - intros z y' Hy' Hne. by rewrite C2, C1.
Qed.
(** The caches may be named differently, and those without the line added. *)
Lemma lowered_iff (S S' : nat -> Prop) y new s s' :
  (forall z, S z -> S' z) -> (forall z, S' z -> S z \/ line s z y = None) -> lowered S y new s s' -> lowered S' y new s s'.
Proof.
  intros H1 H2 [I K A B C']. split; try done.
  - intros z Hz. destruct (H2 z Hz) as [HS|Hn]; [by apply A|].
    destruct (B z) as [->|HS]; [|by apply A]. rewrite Hn. by destruct new.
  - intros z. destruct (B z); [by left|right; by apply H1].
Qed.
Lemma lowered_quiet (S : nat -> Prop) y new s1 s2 s3 :
  aligned y -> lowered S y new s1 s2 -> same s2 s3 -> lowered S y new s1 s3.
Proof.
  intros Hy H1 H2. eapply (lowered_iff (fun z => S z \/ False)); [naive_solver|naive_solver|].
  eapply lowered_trans; [done|]. apply lowered_same; try done. by eapply ld_inv.
Qed.

(** The caches before a cache, with and without itself. *)
Definition under m z : Prop := rtc (fun a b => parent a = Some b) z m.
Definition below m z : Prop := exists x, parent x = Some m /\ under x z.

Lemma under_inv m z : under m z -> z = m \/ below m z.
Proof. intros H. apply rtc_inv_r in H as [->|(x & H1 & H2)]; [by left|right; by exists x]. Qed.
Lemma under_below m z : below m z -> under m z.
Proof. intros (x & H1 & H2). eapply rtc_r; [exact H2|done]. Qed.
Lemma under_refl m : under m m.
Proof. apply rtc_refl. Qed.
Lemma under_level m z : under m z -> (level z <= level m)%nat.
Proof. induction 1 as [|z w m H _ IH]; [done|]. pose proof (mc_level _ _ _ _ _ _ Hm _ _ H). lia. Qed.
Lemma not_below_self m : ~ below m m.
Proof.
  intros (x & H1 & H2). pose proof (mc_level _ _ _ _ _ _ Hm _ _ H1). pose proof (under_level _ _ H2). lia.
Qed.

(** A line that a cache does not hold, and is not evicting, is in none of the caches before it. *)
Definition idle s : Prop := forall m, evicting s m = None.

Lemma absent_under s m y : inv s -> idle s -> aligned y -> line s m y = None -> forall z, under m z -> line s z y = None.
Proof.
  intros Hi Hidle Hy Hn z Hz. revert Hn. induction Hz as [|z w m H _ IH]; [done|]. intros Hn.
  apply eq_None_not_Some. intros Hs. destruct (iv_holds _ Hi z w y Hy H Hs) as [[v Hv]|He].
  - rewrite (IH Hn) in Hv. done.
  - by rewrite Hidle in He.
Qed.

(** The conditions on a cache that an update of its line relies on. *)
Lemma lowered_line s s' m y new v :
  inv s -> aligned y -> new = INVALID \/ new = SHARED -> set_line m y v s s' -> v = lower new (line s m y) ->
  (forall z, below m z -> line s z y = lower new (line s z y)) -> lowered (fun z => z = m) y new s s'.
Proof.
  intros Hi Hy Hnew Hsl -> Hb. assert (Hv : forall l st, lower new (line s m y) = Some (l, st) -> new = SHARED /\ st = SHARED /\ is_Some (line s m y)).
  { intros l st. destruct Hnew as [->| ->], (line s m y); cbn; naive_solver. }
  split.
  - eapply inv_set_line; [exact Hi|exact Hy|exact Hsl|..].
    + intros l st E. apply Hv in E as (_ & -> & _). by left.
    + intros x Hx Hs. rewrite Hb in Hs by (by exists x; split; [|apply under_refl]).
      destruct Hnew as [->| ->]; [by destruct Hs|]. cbn in Hs |- *. rewrite fmap_is_Some in Hs.
      destruct (iv_holds _ Hi x m y Hy Hx Hs); [left; by rewrite fmap_is_Some|by right].
    + intros x Hx. unfold state. rewrite Hb by (by exists x; split; [|apply under_refl]).
      destruct Hnew as [->| ->]; [done|]. by destruct (line s x y).
    + intros m' Hp [[l st] E]. apply Hv in E as (_ & _ & Hs). by eapply iv_holds.
    + intros m' Hp E. destruct (lower new (line s m y)) as [[l st]|] eqn:E'; [|done]. cbn in E. subst st.
      by destruct (Hv _ _ eq_refl) as (_ & ? & _).
  - apply Hsl.
  - intros z ->. apply Hsl.
  - intros z. destruct (decide (z = m)) as [->|]; [by right|left]. apply Hsl; [done|by left].
  - intros z y' Hy' Hne. apply Hsl; [done|by right].
Qed.

(** ** Proof steps *)

Ltac solve_ok := first [assumption|eapply iv_ok; eassumption].

(** ** Write-backs *)

Lemma topology_nonempty c k : topology !! c = Some k -> exists n, length topology = S n.
Proof. intros H%lookup_lt_Some. destruct (length topology); [lia|eauto]. Qed.

(** A block that arrives in a level that accepts it. *)
Lemma wp_writeCacheBlock (Q : unit -> Hierarchy P D -> Prop) s n kn y d fuel :
  topology !! n = Some kn -> inv s -> aligned y -> accepts s (m_master kn) y -> bs <= Z.of_nat (length d) ->
  (forall s', same s s' -> Q tt s') -> wp (writeCacheBlock topology (S fuel) n y 0 (Some d) bs) Q s.
Proof.
  intros Hn Hi Hy Ha Hd HQ. cbn [writeCacheBlock]. apply cwp_bind. eapply wp_config; [done|].
  destruct (mc_plain _ _ _ _ _ _ Hm n kn Hn) as (_ & _ & _ & Hwt & _ & Hbs). pose proof (block_size _ _ _ _ _ _ Hm) as Hb.
  pose proof (iv_ok _ Hi) as Hok. apply cwp_bind. eapply wp_master; [done|done|]. intros M HM HMo. apply cwp_bind.
  assert (Hstore : state s (m_master kn) y = MODIFIED ->
    wp (store_line topology n y 0 (Some d) bs) (fun _ s' => same s s') s).
  { unfold state. destruct (line s (m_master kn) y) as [[l st]|] eqn:E; [|done]. cbn. intros ->.
    by eapply wp_store_line. }
  eapply cwp_mono with (Q := fun _ s' => same s s'); [|intros ? s' Hs'; rewrite Hwt; apply cwp_ret; by apply HQ].
  assert (Hev : evicting s (m_master kn) = (_ ← m_evicting_buf M; Some (m_evicting_address M))) by (unfold evicting; by rewrite HM).
  destruct (m_evicting_buf M) as [buf|] eqn:Ebuf.
  2: { apply Hstore. destruct Ha as [|He]; [done|]. by rewrite Hev in He. }
  destruct (Z.eqb_spec y (m_evicting_address M)) as [->|Hne].
  2: { apply Hstore. destruct Ha as [|He]; [done|]. rewrite Hev in He. cbn in He. congruence. }
  unfold write_buffered. apply cwp_bind, cwp_check; [done|]. apply cwp_bind, cwp_check; [by rewrite Hbs, Z.eqb_refl|].
  pose proof (mo_buffer _ _ _ _ _ HMo buf Ebuf) as Hlb.
  destruct (slice_Ok d 0 (Z.to_nat bs)) as (x & Ex & Hx); [lia|]. destruct (splice_Ok buf 0 x) as (buf' & E' & Hl'); [lia|].
  apply cwp_bind. eapply cwp_lift. { unfold memcpy. rewrite Ex. exact E'. }
  eapply wp_put; [done|done|]. eapply put_master_same; [exact HM| |done]. split.
  - eapply put_ok; try done. destruct HMo. split; try done. cbn. intros d' [= <-]. lia.
  - intros m. erewrite put_evicting by done. case_decide as E; [|done]. subst m. by rewrite Hev.
  - intros m. erewrite put_locks by done. case_decide as E; [|done]. subst m. unfold locks. by rewrite HM.
  - intros m. erewrite put_busy by done. case_decide as E; [|done]. subst m. unfold busy. by rewrite HM.
Qed.

(** MODIFIED data goes to the next level. *)
Lemma wp_write_back Q s c k y l u m' :
  topology !! c = Some k -> parent (m_master k) = Some m' -> inv s -> aligned y -> line s (m_master k) y = Some (l, MODIFIED) ->
  (forall u' s', u_out u' = u_out u -> set_line (m_master k) y (Some (l, SHARED)) s s' -> Q u' s') ->
  wp (write_back topology junk (length topology) c k y l u) Q s.
Proof.
  intros Hk Hp Hi Hy Hl HQ. unfold write_back.
  pose proof (mc_plain _ _ _ _ _ _ Hm c k Hk) as (_ & _ & _ & -> & _ & ->). pose proof (mc_next _ _ _ _ _ _ Hm c k Hk) as Hnext.
  destruct (m_next_cache_cntlr k) as [n|]; [|congruence]. destruct Hnext as (kn & Hn & Hpn).
  destruct (topology_nonempty c k Hk) as [fuel ->]. apply cwp_bind, cwp_bind.
  eapply wp_retrieve_line; [done|done|solve_ok|done|by eexists|]. intros d s1 H1 Hd.
  assert (Hacc : accepts s (m_master kn) y) by (apply (iv_accepts _ Hi (m_master k)); try done; unfold state; by rewrite Hl).
  rewrite <- (same_accepts s s1) in Hacc by done. pose proof (inv_same _ _ H1 Hi) as Hi1.
  apply cwp_bind. eapply wp_writeCacheBlock; try done. intros s2 H2. apply cwp_ret, cwp_bind.
  pose proof (same_trans _ _ _ _ _ _ _ H1 H2) as H12. rewrite <- (sm_line _ _ _ _ _ _ H12) in Hl by done.
  eapply (wp_update_block topology junk logb parent prevs level Hm c k Hk _ s2 y (setCState SHARED) l MODIFIED SHARED); try done.
  { by eapply same_ok. }
  intros s3 H3. apply cwp_ret, HQ; [done|]. by eapply same_set_line.
Qed.

(** A clean block is dropped or stays SHARED. *)
Lemma wp_change_state Q s c k y l new u :
  topology !! c = Some k -> ok s -> aligned y -> line s (m_master k) y = Some (l, SHARED) -> new = INVALID \/ new = SHARED ->
  u_out u = None ->
  (forall s', set_line (m_master k) y (lower new (Some (l, SHARED))) s s' ->
     (forall Q', Q' new s' -> wp (getCacheState_block topology c (Some l)) Q' s') -> Q u s') ->
  wp (change_state topology junk c k y l new u) Q s.
Proof.
  intros Hk Hok Hy Hl Hnew Hu HQ. pose proof (mc_plain _ _ _ _ _ _ Hm c k Hk) as (_ & _ & Hco & _).
  unfold change_state, fill_out. destruct Hnew as [->| ->]; rewrite Hu; apply cwp_bind, cwp_ret.
  - rewrite Hco. apply cwp_bind. by eapply wp_invalidateCacheBlock.
  - apply cwp_bind. eapply (wp_update_block topology junk logb parent prevs level Hm c k Hk _ s y (setCState SHARED) l SHARED SHARED); try done.
    intros s' H1. apply cwp_ret. apply HQ; [done|]. intros Q' HQ'.
    pose proof (sl_here _ _ _ _ _ _ _ _ _ H1) as Hl'.
    eapply (wp_getCacheState_block topology logb parent prevs c k Hk Q' s' y); [by eapply set_line_ok|by rewrite Hl'|].
    unfold state. by rewrite Hl'.
Qed.

(** The line of a cache whose previous levels are done is written back and lowered. *)
Lemma wp_update_here Q s c k y new reason u m' :
  topology !! c = Some k -> parent (m_master k) = Some m' -> inv s -> aligned y -> new = INVALID \/ new = SHARED ->
  (forall z, below (m_master k) z -> line s z y = lower new (line s z y)) -> u_out u = None ->
  (forall u' s', u_out u' = None -> lowered (fun z => z = m_master k) y new s s' -> Q u' s') ->
  wp (update_here topology junk (length topology) c k y new reason u) Q s.
Proof.
  intros Hk Hp Hi Hy Hnew Hb Hu HQ. unfold update_here. pose proof (iv_ok _ Hi) as Hok.
  apply cwp_bind. eapply wp_getCacheBlockInfo; [done|done|done|].
  destruct (line s (m_master k) y) as [[l st]|] eqn:El; cbn [fmap option_fmap option_map fst].
  2: { apply cwp_bind, cwp_ret, cwp_bind. eapply wp_getCacheState; [done|done|done|]. unfold state. rewrite El. cbn.
       apply cwp_bind, cwp_check; [done|]. apply cwp_bind, cwp_ret, cwp_bind, cwp_check; [done|]. rewrite Hu.
       apply cwp_bind, cwp_check; [done|]. apply cwp_ret, HQ; [done|]. apply lowered_same; [done|done|by apply same_refl|].
       intros z ->. rewrite El. by destruct new. }
  apply cwp_bind, cwp_bind. eapply wp_block; [done|done|done|]. intros b Hst. rewrite Hu.
  rewrite (bool_decide_eq_false_2 (is_Some None)) by (by intros []). rewrite andb_false_r. cbv iota.
  eapply wp_quiet; [done|unfold count_update; solve_quiet|]. intros _ s1 H1. pose proof (inv_same _ _ H1 Hi) as Hi1.
  assert (El1 : line s1 (m_master k) y = Some (l, st)) by (by rewrite (sm_line _ _ _ _ _ _ H1)).
  (* Both ways lead to a clean block. *)
  assert (Hend : forall u2 s2, u_out u2 = None -> set_line (m_master k) y (Some (l, SHARED)) s s2 ->
    wp (change_state topology junk c k y l new u2) (fun u3 s3 => wp (here ← getCacheState topology c y;
      _ ← ccheck (bool_decide (here = INVALID) || bool_decide (here = new) || negb (m_coherent k)) LogError;
      current ← getCacheState_block topology c (Some l);
      _ ← ccheck (bool_decide (current = INVALID) || bool_decide (current = new) || negb (m_coherent k)) LogError;
      _ ← ccheck (match u_out u3 with Some _ => u_written u3 | None => true end) LogError;
      mret u3) Q s3) s2).
  { intros u2 s2 Hu2 H2. eapply wp_change_state; [done|by eapply set_line_ok|done|apply H2|done|done|].
    intros s3 H3 Hgs. pose proof (set_line_twice _ _ _ _ _ _ _ _ _ _ _ H2 H3) as H23. pose proof (sl_here _ _ _ _ _ _ _ _ _ H3) as Hl3.
    apply cwp_bind. eapply wp_getCacheState; [done|by eapply set_line_ok|done|].
    assert (Hhere : state s3 (m_master k) y = new) by (unfold state; rewrite Hl3; by destruct Hnew as [->| ->]).
    rewrite Hhere. assert (Hnn : bool_decide (new = INVALID) || bool_decide (new = new) || negb (m_coherent k) = true)
      by (rewrite (bool_decide_eq_true_2 (new = new)) by done; by rewrite orb_true_r).
    apply cwp_bind, cwp_check; [done|]. apply cwp_bind, Hgs, cwp_bind, cwp_check; [done|]. rewrite Hu2. apply cwp_bind, cwp_check; [done|].
    apply cwp_ret, HQ; [done|]. eapply lowered_line; try done. rewrite El. by destruct Hnew as [->| ->]. }
  rewrite Hst. destruct (iv_state _ Hi _ _ _ _ Hy El) as [->| ->]; cbn [bool_decide decide_rel].
  - apply cwp_bind, cwp_ret. apply Hend; [done|]. eapply same_set_line; [exact H1|]. apply set_line_refl; [by eapply same_ok|done].
  - apply cwp_bind. eapply wp_write_back; try done. intros u' s2 Hu' H2. apply Hend; [by rewrite Hu'|]. by eapply same_set_line.
Qed.

(** ** The previous levels *)

(** The caches of some controllers, with all caches before them. *)
Definition trees (ps : list nat) z : Prop :=
  exists p kp, p ∈ ps /\ topology !! p = Some kp /\ under (m_master kp) z.

Lemma trees_app ps p kp z : topology !! p = Some kp -> trees ps z \/ under (m_master kp) z -> trees (ps ++ [p]) z.
Proof.
  intros Hp [(q & kq & Hq & ? & ?)|?]; [exists q, kq|exists p, kp]; split_and!; try done; rewrite elem_of_app, ?list_elem_of_singleton; auto.
Qed.
Lemma trees_below m z : trees (prevs m) z <-> below m z.
Proof.
  split.
  - intros (p & kp & Hp & Hk & Hz). destruct (mc_prevs _ _ _ _ _ _ Hm m p Hp) as (kp' & Hk' & Hpar).
    rewrite Hk in Hk'. injection Hk' as <-. by exists (m_master kp).
  - intros (x & Hx & Hz). destruct (mc_children _ _ _ _ _ _ Hm x m Hx) as (p & kp & Hp & Hk & <-). by exists p, kp.
Qed.

(** A loop that lowers the line in the caches of every controller of a list, or of all but one
    in whose caches the line is not. *)
Lemma wp_lower_all {A} (f : A -> nat -> C P D A) ps acc y new s (Q : A -> Hierarchy P D -> Prop) (skip : nat -> bool) :
  inv s -> aligned y ->
  (forall p, p ∈ ps -> exists kp, topology !! p = Some kp /\
     (skip p = true -> forall z, under (m_master kp) z -> line s z y = None)) ->
  (forall a p kp s1 R, p ∈ ps -> topology !! p = Some kp -> inv s1 ->
     (if skip p then forall a', R a' s1 else forall a' s2, lowered (under (m_master kp)) y new s1 s2 -> R a' s2) ->
     wp (f a p) R s1) ->
  (forall a s', lowered (trees ps) y new s s' -> Q a s') -> wp (cfold f acc ps) Q s.
Proof.
  intros Hi Hy Hps Hf HQ.
  apply (cwp_fold (fun _ rest s' => exists done, ps = done ++ rest /\ lowered (trees done) y new s s')).
  - exists []. split; [done|]. apply lowered_same; [done|done|by apply same_refl, Hi|]. by intros z (p & kp & []%not_elem_of_nil & _).
  - intros a p rest s1 (don & E & Hl). assert (Hp : p ∈ ps) by (rewrite E; set_solver).
    destruct (Hps p Hp) as (kp & Hkp & Hskip).
    eapply Hf; [done|exact Hkp|by eapply ld_inv|].
    destruct (skip p) eqn:Es; intros a'.
    + exists (don ++ [p]). rewrite <- app_assoc. split; [done|]. eapply lowered_iff; [| |exact Hl].
      * intros z Hz. eapply trees_app; [done|by left].
      * intros z (q & kq & Hq & Hkq & Hz). rewrite elem_of_app, list_elem_of_singleton in Hq. destruct Hq as [Hq| ->].
        -- left. by exists q, kq.
        -- rewrite Hkp in Hkq. injection Hkq as <-. right. by apply Hskip.
    + intros s2 H2. exists (don ++ [p]). rewrite <- app_assoc. split; [done|].
      eapply lowered_iff; [| |eapply lowered_trans; [exact Hl|exact H2]].
      * intros z Hz. by eapply trees_app.
      * intros z (q & kq & Hq & Hkq & Hz). rewrite elem_of_app, list_elem_of_singleton in Hq. left. destruct Hq as [Hq| ->].
        -- left. by exists q, kq.
        -- right. rewrite Hkp in Hkq. by injection Hkq as <-.
  - intros a s' (don & E & Hl). rewrite app_nil_r in E. subst don. by apply HQ.
Qed.

(** [updateCacheBlock] lowers the line in the cache and in all caches before it. *)
Lemma wp_updateCacheBlock fuel c k y new reason s Q m' :
  topology !! c = Some k -> parent (m_master k) = Some m' -> (level (m_master k) < fuel)%nat -> inv s -> aligned y ->
  new = INVALID \/ new = SHARED ->
  (forall lat hit s', lowered (under (m_master k)) y new s s' -> Q (lat, hit, None) s') ->
  wp (updateCacheBlock topology junk fuel c y new reason None) Q s.
Proof.
  revert c k reason s Q m'. induction fuel as [|fuel IH]; intros c k reason s Q m' Hk Hp Hf Hi Hy Hnew HQ; [lia|].
  cbn [updateCacheBlock]. apply cwp_bind, cwp_check; [by destruct Hnew as [->| ->]|]. apply cwp_bind. eapply wp_config; [done|].
  apply cwp_bind. eapply wp_master; [done|solve_ok|]. intros M HM HMo. rewrite (mo_prev _ _ _ _ _ HMo).
  apply cwp_bind. eapply (wp_lower_all _ (prevs (m_master k)) _ y new s _ (fun _ => false)); [done|done|..].
  - intros p Hpp. destruct (mc_prevs _ _ _ _ _ _ Hm _ _ Hpp) as (kp & Hkp & _). by exists kp.
  - intros a p kp s1 R Hpp Hkp Hi1 HR. destruct (mc_prevs _ _ _ _ _ _ Hm _ _ Hpp) as (kp' & Hkp' & Hpar).
    rewrite Hkp in Hkp'. injection Hkp' as <-. pose proof (mc_level _ _ _ _ _ _ Hm _ _ Hpar).
    apply cwp_bind. eapply IH; [done|done|lia|done|done|done|]. intros lat hit s2 H2. apply cwp_ret. by apply HR.
  - intros hit s1 H1. apply cwp_bind. eapply wp_update_here; try done; [by eapply ld_inv| |].
    + intros z Hz. assert (Ht : trees (prevs (m_master k)) z) by (by apply trees_below).
      rewrite (ld_in _ _ _ _ _ H1 z Ht). by rewrite lower_lower.
    + intros u s2 Hu H2. rewrite Hu. apply cwp_ret, HQ. eapply lowered_iff; [| |eapply lowered_trans; [exact H1|exact H2]].
      * intros z [Hz| ->]; [|apply under_refl]. apply under_below. by apply trees_below.
      * intros z [->|Hz]%under_inv; left; [by right|left; by apply trees_below].
Qed.

Lemma wp_update_block_from c k y new reason s Q m' :
  topology !! c = Some k -> parent (m_master k) = Some m' -> inv s -> aligned y -> new = INVALID \/ new = SHARED ->
  (forall lat hit s', lowered (under (m_master k)) y new s s' -> Q (lat, hit, None) s') ->
  wp (update_block_from topology junk c y new reason None) Q s.
Proof. intros. eapply wp_updateCacheBlock; try done. by eapply mc_bound. Qed.

(** The loops over the previous levels, with the exception of a requester without the line. *)
Lemma wp_update_prev c k skip y new reason s Q :
  topology !! c = Some k -> inv s -> aligned y -> new = INVALID \/ new = SHARED ->
  (forall q kq, skip = Some q -> topology !! q = Some kq -> forall z, under (m_master kq) z -> line s z y = None) ->
  (forall lat hit s', lowered (below (m_master k)) y new s s' -> Q (lat, hit) s') ->
  wp (update_prev topology junk c skip y new reason) Q s.
Proof.
  intros Hk Hi Hy Hnew Hskip HQ. unfold update_prev. apply cwp_bind. eapply wp_master; [done|solve_ok|]. intros M HM HMo.
  rewrite (mo_prev _ _ _ _ _ HMo).
  eapply (wp_lower_all _ (prevs (m_master k)) _ y new s _ (fun p => bool_decide (Some p = skip))); [done|done|..].
  - intros p Hpp. destruct (mc_prevs _ _ _ _ _ _ Hm _ _ Hpp) as (kp & Hkp & _). exists kp. split; [done|].
    intros E%bool_decide_eq_true. by eapply Hskip.
  - intros [lat hit] p kp s1 R Hpp Hkp Hi1 HR. destruct (bool_decide _); [apply cwp_ret; by apply HR|].
    destruct (mc_prevs _ _ _ _ _ _ Hm _ _ Hpp) as (kp' & Hkp' & Hpar). rewrite Hkp in Hkp'. injection Hkp' as <-.
    apply cwp_bind. eapply wp_update_block_from; try done. intros lat' hit' s2 H2. apply cwp_ret. by apply HR.
  - intros [lat hit] s' H1. apply HQ. eapply lowered_iff; [| |exact H1]; intros z; rewrite trees_below; auto.
Qed.

Lemma wp_snoop_prev c k q kq y new reason s Q :
  topology !! c = Some k -> topology !! q = Some kq -> inv s -> idle s -> aligned y -> new = INVALID \/ new = SHARED ->
  line s (m_master kq) y = None ->
  (forall hit s', lowered (below (m_master k)) y new s s' -> Q hit s') ->
  wp (snoop_prev topology junk c q y new reason) Q s.
Proof.
  intros Hk Hq Hi Hid Hy Hnew Hn HQ. unfold snoop_prev. apply cwp_bind. eapply wp_update_prev; try done.
  - intros q' kq' [= <-] Hq'. rewrite Hq in Hq'. injection Hq' as <-. by apply absent_under.
  - intros lat hit s1 H1. eapply wp_quiet; [eapply iv_ok, ld_inv, H1|solve_quiet|]. intros _ s2 H2. apply cwp_ret, HQ.
    by eapply lowered_quiet.
Qed.

(** ** Insertions *)

Context `{!AlwaysVictim P}.
(** The policy finds a victim whenever it is called with a controller. *)
Context (Hready : forall b p si q, victim_ready b p (mkEnv si (Some q))).

(** The level behind a cache permits a copy in some state. *)
Definition supplied s m y st : Prop :=
  forall m', parent m = Some m' -> is_Some (line s m' y) /\ (st = MODIFIED -> state s m' y = MODIFIED).

(** A line was put into a cache, and another one is gone or being evicted. *)
Record filled m y l st (v : option Z) s s' : Prop := {
  fl_ok : ok s';
  fl_locks z : locks s' z = locks s z;
  fl_busy z : busy s' z = busy s z;
  fl_here : line s' m y = Some (l, st);
  fl_victim v0 : v = Some v0 -> line s' m v0 = None;
  fl_other z y' : aligned y' -> z <> m \/ y' <> y /\ v <> Some y' -> line s' z y' = line s z y'
}.

Lemma filled_same m y l st v s s1 s2 :
  aligned y -> (forall v0, v = Some v0 -> aligned v0) -> filled m y l st v s s1 -> same s1 s2 -> filled m y l st v s s2.
Proof.
  intros Hy Hv [F1 F2 F3 F4 F5 F6] [[Ho He Hl Hb] L].
  split; [done|intros; by rewrite Hl|intros; by rewrite Hb|by rewrite L|..].
  - intros v0 E. rewrite L by (by apply Hv). by apply F5.
  - intros z y' Hy' Hne. rewrite L by done. by apply F6.
Qed.

Lemma inv_filled m y l st v s s' :
  inv s -> idle s -> aligned y -> line s m y = None -> st = SHARED \/ st = MODIFIED -> supplied s m y st ->
  (forall v0, v = Some v0 -> aligned v0) -> filled m y l st v s s' ->
  (forall v0 x, v = Some v0 -> parent x = Some m -> is_Some (line s x v0) -> evicting s' m = Some v0) -> inv s'.
Proof.
  intros Hi Hid Hy Hn Hst Hsup Hva [F1 F2 F3 F4 F5 F6] Hev.
  assert (Hstate : forall z y', state s z y' = MODIFIED -> is_Some (line s z y')).
  { intros z y'. unfold state. destruct (line s z y'); [by eexists|done]. }
  assert (Hup : forall x m' y', aligned y' -> parent x = Some m' -> is_Some (line s x y') -> is_Some (line s m' y')).
  { intros x m' y' Hy' Hp Hs. destruct (iv_holds _ Hi x m' y' Hy' Hp Hs) as [|E]; [done|by rewrite Hid in E]. }
  assert (Hupm : forall x m' y', aligned y' -> parent x = Some m' -> state s x y' = MODIFIED -> state s m' y' = MODIFIED).
  { intros x m' y' Hy' Hp Hs. destruct (iv_accepts _ Hi x m' y' Hy' Hp Hs) as [|E]; [done|by rewrite Hid in E]. }
  (* The cases of a line and of the level behind it. *)
  assert (Hcase : forall x m' y', aligned y' -> parent x = Some m' -> is_Some (line s' x y') ->
    (x = m /\ y' = y /\ line s' m' y' = line s m' y' /\ line s' x y' = Some (l, st)) \/
    (line s' x y' = line s x y' /\ is_Some (line s x y') /\ (line s' m' y' = line s m' y' \/ evicting s' m' = Some y'))).
  { intros x m' y' Hy' Hp Hs. pose proof (parent_ne x m' Hp) as Hne.
    destruct (decide (x = m)) as [->|Hx].
    - destruct (decide (y' = y)) as [->|Hyy]; [left; split_and!; try done; by apply F6; [|left]|right].
      destruct (decide (v = Some y')) as [E|E]; [rewrite (F5 _ E) in Hs; by destruct Hs|].
      assert (Hl : line s' m y' = line s m y') by (by apply F6; [|right]). rewrite <- Hl. split_and!; try done.
      left. apply F6; [done|by left].
    - right. assert (Hl : line s' x y' = line s x y') by (by apply F6; [|left]). rewrite <- Hl. split_and!; try done.
      destruct (decide (m' = m)) as [->|Hm']; [|left; by apply F6; [|left]].
      rewrite Hl in Hs. destruct (decide (y' = y)) as [->|Hyy]; [|destruct (decide (v = Some y')) as [E|E]].
      + pose proof (Hup x m y Hy Hp Hs) as [? E]. by rewrite Hn in E.
      + right. by eapply Hev.
      + left. by apply F6; [|right]. }
  split; [done|..].
  - intros z y' l' st' Hy' E. destruct (decide (z = m)) as [->|Hz].
    + destruct (decide (y' = y)) as [->|Hyy]; [rewrite F4 in E; by injection E as <- <-|].
      destruct (decide (v = Some y')) as [Ev|Ev]; [by rewrite (F5 _ Ev) in E|].
      rewrite F6 in E by auto. by eapply iv_state.
    + rewrite F6 in E by auto. by eapply iv_state.
  - intros x m' y' Hy' Hp Hs. unfold holds. destruct (Hcase x m' y' Hy' Hp Hs) as [(-> & -> & El & _)|(_ & Hsx & [El|Ee])].
    + left. rewrite El. by apply Hsup.
    + left. rewrite El. by eapply Hup.
    + by right.
  - intros x m' y' Hy' Hp Hs. unfold accepts. assert (Hsx : is_Some (line s' x y')).
    { revert Hs. unfold state. destruct (line s' x y'); [by eexists|done]. }
    destruct (Hcase x m' y' Hy' Hp Hsx) as [(-> & -> & El & Ex)|(Ex & _ & [El|Ee])].
    + left. unfold state in *. rewrite El. rewrite Ex in Hs. by apply Hsup.
    + left. unfold state in Hs |- *. rewrite El. rewrite Ex in Hs. by eapply Hupm.
    + by right.
Qed.

(** The buffer of an eviction is put in place or removed. *)
Lemma wp_put_evicting (Q : unit -> Hierarchy P D -> Prop) s c k M a o :
  topology !! c = Some k -> ok s -> masters s !! m_master k = Some M -> (forall d, o = Some d -> bs <= Z.of_nat (length d)) ->
  (forall s', ok s' -> (forall m y, line s' m y = line s m y) -> (forall m, locks s' m = locks s m) ->
     (forall m, busy s' m = busy s m) ->
     (forall m, evicting s' m = if decide (m = m_master k) then (fun _ => a) <$> o else evicting s m) -> Q tt s') ->
  wp (put_master topology c (with_evicting a o M)) Q s.
Proof.
  intros Hk Hs HM Ho HQ. eapply wp_put; [done|done|]. apply HQ.
  - eapply put_ok; try done. destruct (ok_master _ _ _ _ _ Hs _ _ HM). by split.
  - intros m y. erewrite put_line by done. case_decide as E; [|done]. subst m. unfold line. by rewrite HM.
  - intros m. erewrite put_locks by done. case_decide as E; [|done]. subst m. unfold locks. by rewrite HM.
  - intros m. erewrite put_busy by done. case_decide as E; [|done]. subst m. unfold busy. by rewrite HM.
  - intros m. erewrite put_evicting by done. case_decide; [|done]. by destruct o.
Qed.

(** The copies of a victim are invalidated; modified ones reach the buffer. *)
Lemma wp_back_invalidate Q s c k y l st v s1 buf t :
  topology !! c = Some k -> inv s -> idle s -> aligned y -> aligned v -> v <> y -> line s (m_master k) y = None ->
  st = SHARED \/ st = MODIFIED -> supplied s (m_master k) y st ->
  filled (m_master k) y l st (Some v) s s1 -> idle s1 -> bs <= Z.of_nat (length buf) ->
  (forall buf' s', inv s' -> idle s' -> bs <= Z.of_nat (length buf') ->
     (forall m, locks s' m = locks s m) -> (forall m, busy s' m = busy s m) -> line s' (m_master k) v = None ->
     (forall m y', aligned y' -> line s' m y' = line s1 m y' \/ below (m_master k) m /\ y' = v) -> Q buf' s') ->
  wp (back_invalidate topology junk c v buf t) Q s1.
Proof.
  intros Hk Hi Hid Hy Hv Hvy Hn Hst Hsup Hf Hid1 Hbuf HQ. pose proof Hf as [F1 F2 F3 F4 F5 F6]. unfold back_invalidate.
  apply cwp_bind. eapply wp_master; [done|done|]. intros M HM HMo. rewrite (mo_prev _ _ _ _ _ HMo).
  destruct (bool_decide_reflect (prevs (m_master k) = [])) as [Ep|Ep].
  { assert (Hnc : forall x, parent x <> Some (m_master k)).
    { intros x Hx. destruct (mc_children _ _ _ _ _ _ Hm _ _ Hx) as (p & kp & Hp & _). rewrite Ep in Hp. by apply not_elem_of_nil in Hp. }
    apply cwp_ret. apply HQ; try done; [|by apply F5|intros; by left].
    eapply (inv_filled (m_master k) y l st (Some v) s s1); try done; [by intros ? [= <-]|]. intros v0 x _ Hx. by apply Hnc in Hx. }
  apply cwp_bind. eapply wp_put_evicting; [done|done|done|by intros ? [= <-]|].
  intros s2 Ho2 L2 K2 B2 E2. cbn in E2.
  assert (Hi2 : inv s2).
  { eapply (inv_filled (m_master k) y l st (Some v) s s2); try done; [by intros ? [= <-]| |].
    - split; [done|intros; by rewrite K2|intros; by rewrite B2|by rewrite L2|..].
      + intros v0 E. rewrite L2. by apply F5.
      + intros z y' Hy' Hne. rewrite L2. by apply F6.
    - intros v0 x [= <-] _ _. rewrite E2. by rewrite decide_True. }
  apply cwp_bind. eapply wp_update_prev; [done|done|done|by left|by intros|]. intros lat hit s3 H3.
  eapply wp_quiet; [eapply iv_ok, ld_inv, H3|solve_quiet|]. intros _ s4 H4.
  pose proof (lowered_quiet _ _ _ _ _ _ Hv H3 H4) as [Hi4 [Ho4 E4 K4 B4] A4 O4 C4]. apply cwp_bind. eapply wp_master; [done|done|].
  intros M4 HM4 HMo4. apply cwp_bind. eapply wp_put_evicting; [done|done|done|done|]. intros s5 Ho5 L5 K5 B5 E5. cbn in E5.
  apply cwp_ret. apply HQ.
  - destruct Hi4 as [_ J2 J3 J4]. assert (Hev : forall x m y', parent x = Some m -> evicting s4 m = Some y' -> line s4 x y' = None).
    { intros x m y' Hp. rewrite E4, E2. case_decide as Em; [|by rewrite Hid1]. intros [= <-]. subst m.
      rewrite A4 by (exists x; split; [done|apply under_refl]). done. }
    split; [done|..].
    + intros m y' l' st' Hy'. rewrite L5. by apply J2.
    + intros x m y' Hy' Hp. unfold holds. rewrite !L5. intros Hs. left.
      destruct (J3 x m y' Hy' Hp Hs) as [|E]; [done|]. apply (Hev x) in E; [|done]. rewrite E in Hs. by destruct Hs.
    + intros x m y' Hy' Hp. unfold accepts, state. rewrite !L5. intros Hs. left.
      destruct (J4 x m y' Hy' Hp Hs) as [|E]; [done|]. apply (Hev x) in E; [|done]. by rewrite E in Hs.
  - intros m. rewrite E5. case_decide; [done|]. rewrite E4, E2. case_decide; [done|apply Hid1].
  - destruct (m_evicting_buf M4) as [d|] eqn:Eb; [|done]. by apply (mo_buffer _ _ _ _ _ HMo4).
  - intros m. by rewrite K5, K4, K2, F2.
  - intros m. by rewrite B5, B4, B2, F3.
  - rewrite L5. destruct (O4 (m_master k)) as [->|Hb]; [|by apply not_below_self in Hb]. rewrite L2. by apply F5.
  - intros m y' Hy'. rewrite L5. destruct (decide (y' = v)) as [->|Hne].
    + destruct (O4 m) as [->|]; [left; apply L2|by right].
    + left. rewrite C4 by done. apply L2.
Qed.

(** The victim goes to the level behind or to DRAM. *)
Lemma wp_dispose (Q : unit -> Hierarchy P D -> Prop) s c k v b buf bt t :
  topology !! c = Some k -> inv s -> aligned v -> bs <= Z.of_nat (length buf) ->
  (m_cstate b = MODIFIED -> forall m', parent (m_master k) = Some m' -> accepts s m' v) ->
  (forall s', same s s' -> Q tt s') -> wp (dispose topology c k v b buf bt t) Q s.
Proof.
  intros Hk Hi Hv Hbuf Hacc HQ. unfold dispose. apply cwp_bind. eapply wp_master; [done|solve_ok|]. intros M HM HMo.
  pose proof (mc_plain _ _ _ _ _ _ Hm c k Hk) as (-> & _ & -> & -> & _ & ->). cbn [negb andb].
  pose proof (mc_next _ _ _ _ _ _ Hm c k Hk) as Hnext. destruct (m_next_cache_cntlr k) as [n|].
  - destruct Hnext as (kn & Hn & Hp). destruct (topology_nonempty c k Hk) as [fuel ->].
    apply cwp_when; [intros Hst%bool_decide_eq_true|intros _; apply HQ, same_refl; solve_ok].
    eapply wp_writeCacheBlock; try done. by apply Hacc.
  - rewrite (mo_dram _ _ _ _ _ HMo Hnext).
    apply cwp_when; [intros _|intros _; apply HQ, same_refl; solve_ok].
    eapply cwp_mono; [eapply quiet_write_to_dram; [done|solve_ok]|]. intros [] s'. apply HQ.
Qed.

(** [insertCacheBlock] adds the line, which the level behind has, and removes a victim from the
    cache and the caches before it. *)
Lemma wp_insertCacheBlock Q s c k y st fill t bt :
  topology !! c = Some k -> inv s -> idle s -> aligned y -> line s (m_master k) y = None -> st = SHARED \/ st = MODIFIED ->
  supplied s (m_master k) y st -> (forall d, fill = Some d -> bs <= Z.of_nat (length d)) ->
  (forall l s', inv s' -> kept s s' -> line s' (m_master k) y = Some (l, st) ->
     (forall m, m <> m_master k -> line s' m y = line s m y) -> Q l s') ->
  wp (insertCacheBlock topology junk c y st fill t bt) Q s.
Proof.
  intros Hk Hi Hid Hy Hn Hst Hsup Hfill HQ. unfold insertCacheBlock. apply cwp_bind. eapply wp_config; [done|].
  apply cwp_bind. eapply wp_getCacheState; [done|solve_ok|done|]. unfold state. rewrite Hn. cbn [from_option].
  apply cwp_bind, cwp_check; [done|]. apply cwp_bind.
  eapply (wp_insert_line topology junk logb parent prevs level Hm c k Hk); [done|solve_ok|done|done|done|].
  intros r s1 [[Ho1 He1 Hl1 Hb1] [[l st0] Hh1] Hv1 Hd1 Hx1].
  apply cwp_bind. eapply wp_setCacheState; [done|done|done|done|exact Hh1|]. intros s2 [[Ho2 He2 Hl2 Hb2] Hh2 Hx2].
  assert (Hf2 : filled (m_master k) y l st (victim r) s s2).
  { split; [done|intros; by rewrite Hl2|intros; by rewrite Hb2|done|..].
    - intros v E. destruct (Hv1 v E) as (Hva & Hne & Hnone & _). rewrite Hx2 by auto. done.
    - intros z y' Hy' Hne. rewrite Hx2; [|done|destruct Hne as [?|[? ?]]; auto]. by apply Hx1. }
  assert (Hid2 : idle s2) by (intros m; by rewrite He2, He1).
  assert (Hva : forall v0, victim r = Some v0 -> aligned v0) by (intros v0 E; by apply Hv1).
  apply cwp_bind, cwp_get. apply cwp_bind. eapply cwp_mono with (Q := fun _ s3 => same s2 s3).
  { apply cwp_when; intros _; [|by apply same_refl]. eapply wp_update_block_same; try done. }
  intros _ s3 H3. pose proof (filled_same _ _ _ _ _ _ _ _ Hy Hva Hf2 H3) as Hf3.
  assert (Hid3 : idle s3) by (intros m; by rewrite (kp_evicting _ _ _ _ _ _ (sm_kept _ _ _ _ _ _ H3))).
  apply cwp_bind. apply cwp_when; intros Hev.
  2: { apply cwp_ret. assert (E : victim r = None) by (unfold victim; by rewrite Hev). rewrite E in Hf3.
       destruct Hf3 as [F1 F2 F3 F4 F5 F6] eqn:EF. apply HQ; [| |done|].
       - eapply (inv_filled (m_master k) y l st None s s3); done.
       - split; try done. intros m. by rewrite Hid3, Hid.
       - intros m Hne. apply F6; [done|by left]. }
  assert (E : victim r = Some (in_evict_addr r)) by (unfold victim; by rewrite Hev). rewrite E in *.
  set (v := in_evict_addr r) in *. destruct (Hv1 v eq_refl) as (Hav & Hvy & _ & [lv Hlv]).
  eapply wp_quiet; [apply Hf3|solve_quiet|]. intros _ s4 H4. pose proof (filled_same _ _ _ _ _ _ _ _ Hy Hva Hf3 H4) as Hf4.
  assert (Hid4 : idle s4) by (intros m; by rewrite (kp_evicting _ _ _ _ _ _ (sm_kept _ _ _ _ _ _ H4))).
  apply cwp_bind. eapply (wp_back_invalidate _ s c k y l st v s4); try done.
  { destruct (in_evict_buff r) as [d|] eqn:Ed; [by apply Hd1|apply Hm]. }
  intros buf s5 Hi5 Hid5 Hbuf Hl5 Hb5 Hv5 Hx5. apply cwp_bind. eapply wp_dispose; [done|done|done|done| |].
  - intros Hmod m' Hp. left. assert (Hms : state s (m_master k) v = MODIFIED) by (unfold state; by rewrite Hlv).
    destruct (iv_accepts _ Hi _ _ _ Hav Hp Hms) as [Hacc|He]; [|by rewrite Hid in He]. rewrite <- Hacc. unfold state.
    pose proof (parent_ne _ _ Hp) as Hne. destruct (Hx5 m' v Hav) as [->|[Hbel _]].
    + by rewrite (fl_other _ _ _ _ _ _ _ Hf4 m' v Hav) by auto.
    + destruct Hbel as (x & Hx & Hux). pose proof (mc_level _ _ _ _ _ _ Hm _ _ Hp). pose proof (mc_level _ _ _ _ _ _ Hm _ _ Hx).
      pose proof (under_level _ _ Hux). lia.
  - intros s6 H6. apply cwp_bind. eapply wp_getCacheState; [done|by eapply same_ok|done|].
    rewrite (same_state _ _ _ _ s5) by done. unfold state. rewrite Hv5. apply cwp_check; [done|]. apply cwp_ret.
    pose proof H6 as [[Ho6 He6 Hl6 Hb6] L6]. apply HQ; [by eapply inv_same| | |].
    + split; [done|intros m; by rewrite He6, Hid5, Hid|intros m; by rewrite Hl6, Hl5|intros m; by rewrite Hb6, Hb5].
    + rewrite L6 by done. destruct (Hx5 (m_master k) y Hy) as [->|[_ ?]]; [apply Hf4|by subst].
    + intros m Hne. rewrite L6 by done. destruct (Hx5 m y Hy) as [->|[_ ?]]; [|by subst]. apply Hf4; [done|by left].
Qed.

(** ** Uses of a line *)

Lemma usage_mask_keeps used : keeps_tag (fun b => snd (updateUsage_mask used b)).
Proof. done. Qed.
Lemma usage_keeps off len : keeps_tag (fun b => snd (updateUsage off len b)).
Proof. done. Qed.

(** In a state without evictions the level behind has every line. *)
Lemma parent_line s x m y : inv s -> idle s -> aligned y -> parent x = Some m -> is_Some (line s x y) -> is_Some (line s m y).
Proof. intros Hi Hid Hy Hp Hs. destruct (iv_holds _ Hi x m y Hy Hp Hs) as [|E]; [done|by rewrite Hid in E]. Qed.
Lemma same_idle s s' : same s s' -> idle s -> idle s'.
Proof. intros [[_ He _ _] _] Hid m. by rewrite He. Qed.
Lemma kept_idle s s' : kept s s' -> idle s -> idle s'.
Proof. intros [_ He _ _] Hid m. by rewrite He. Qed.

Lemma wp_updateUsageBits fuel c k y used s (Q : unit -> Hierarchy P D -> Prop) :
  topology !! c = Some k -> (length topology - level (m_master k) <= fuel)%nat -> inv s -> idle s -> aligned y ->
  is_Some (line s (m_master k) y) -> (forall s', same s s' -> Q tt s') -> wp (updateUsageBits topology fuel c y used) Q s.
Proof.
  revert c k s Q. induction fuel as [|fuel IH]; intros c k s Q Hk Hf Hi Hid Hy [[l st] Hl] HQ;
    pose proof (mc_bound _ _ _ _ _ _ Hm c k Hk) as Hlev; [lia|]. cbn [updateUsageBits].
  apply cwp_bind. eapply wp_config; [done|]. apply cwp_bind. eapply wp_getCacheBlockInfo; [done|solve_ok|done|]. rewrite Hl.
  apply cwp_bind. eapply cwp_lift; [done|]. apply cwp_bind. eapply wp_block; [done|solve_ok|done|]. intros b Hst.
  apply cwp_bind. eapply wp_update_block_same; [done|done|solve_ok|done|apply usage_mask_keeps|exact Hl|done|].
  intros s1 H1. pose proof (mc_next _ _ _ _ _ _ Hm c k Hk) as Hnext.
  destruct (m_next_cache_cntlr k) as [n|]; [|apply cwp_ret; by apply HQ]. destruct Hnext as (kn & Hn & Hp).
  apply cwp_when; intros _; [|by apply HQ]. pose proof (mc_level _ _ _ _ _ _ Hm _ _ Hp).
  pose proof (inv_same _ _ H1 Hi) as Hi1. pose proof (same_idle _ _ H1 Hid) as Hid1.
  eapply (IH n kn); try done; [lia| |].
  - eapply (parent_line s1 (m_master k)); try done. rewrite (sm_line _ _ _ _ _ _ H1), Hl by done. by eexists.
  - intros s2 H2. apply HQ. by eapply same_trans.
Qed.

Lemma wp_use_block c k l st y off len s (Q : unit -> Hierarchy P D -> Prop) :
  topology !! c = Some k -> inv s -> idle s -> aligned y -> line s (m_master k) y = Some (l, st) ->
  (forall s', same s s' -> Q tt s') -> wp (use_block topology c l y off len) Q s.
Proof.
  intros Hk Hi Hid Hy Hl HQ. unfold use_block. apply cwp_bind. eapply wp_config; [done|].
  apply cwp_bind. eapply wp_block; [done|solve_ok|done|]. intros b Hst. destruct (updateUsage off len b) as [new b'].
  apply cwp_bind. eapply wp_update_block_same; [done|done|solve_ok|done|apply usage_keeps|exact Hl|done|].
  intros s1 H1. pose proof (mc_next _ _ _ _ _ _ Hm c k Hk) as Hnext.
  destruct (m_next_cache_cntlr k) as [n|]; [|apply cwp_ret; by apply HQ]. destruct Hnext as (kn & Hn & Hp).
  apply cwp_when; intros _; [|by apply HQ]. pose proof (inv_same _ _ H1 Hi) as Hi1. pose proof (same_idle _ _ H1 Hid) as Hid1.
  eapply (wp_updateUsageBits _ n kn); try done; [lia| |].
  - eapply (parent_line s1 (m_master k)); try done. rewrite (sm_line _ _ _ _ _ _ H1), Hl by done. by eexists.
  - intros s2 H2. apply HQ. by eapply same_trans.
Qed.

(** ** Copies *)

Lemma permits_line s m y op : operation_permits (state s m y) op = true -> exists l st, line s m y = Some (l, st) /\ operation_permits st op = true.
Proof.
  unfold state. destruct (line s m y) as [[l st]|]; cbn; [intros; by exists l, st|]. by destruct op.
Qed.

(** A copy from the level behind has its state. *)
Lemma wp_copyDataFromNextLevel c k n kn op y modeled t bt s (Q : unit -> Hierarchy P D -> Prop) :
  topology !! c = Some k -> m_next_cache_cntlr k = Some n -> topology !! n = Some kn ->
  inv s -> idle s -> aligned y -> line s (m_master k) y = None -> operation_permits (state s (m_master kn) y) op = true ->
  (forall l s', inv s' -> kept s s' -> line s' (m_master k) y = Some (l, state s (m_master kn) y) ->
     (forall m, m <> m_master k -> line s' m y = line s m y) -> Q tt s') ->
  wp (copyDataFromNextLevel topology junk c op y modeled t bt) Q s.
Proof.
  intros Hk Hnk Hn Hi Hid Hy Hnone Hperm HQ. unfold copyDataFromNextLevel. apply cwp_bind. eapply wp_config; [done|]. rewrite Hnk.
  apply cwp_bind. eapply cwp_lift; [done|]. apply cwp_bind. eapply wp_permissible; [done|solve_ok|done|]. apply cwp_bind, cwp_check; [done|].
  destruct (permits_line _ _ _ _ Hperm) as (ln & stn & Hln & _).
  apply cwp_bind. eapply wp_retrieve_line; [done|done|solve_ok|done|by eexists|]. intros d s1 H1 Hd.
  pose proof (mc_plain _ _ _ _ _ _ Hm c k Hk) as (_ & _ & _ & _ & -> & _). pose proof (mc_next _ _ _ _ _ _ Hm c k Hk) as Hnext.
  rewrite Hnk in Hnext. destruct Hnext as (kn' & Hn' & Hp). rewrite Hn in Hn'. injection Hn' as <-.
  apply cwp_bind. eapply wp_getCacheState; [done|by eapply same_ok|done|]. rewrite andb_false_r.
  apply cwp_bind. apply cwp_ret. apply cwp_bind. eapply wp_getCacheBlockInfo; [done|by eapply same_ok|done|].
  pose proof H1 as [K1 L1]. rewrite L1, Hnone by done. cbn [fmap option_fmap option_map].
  assert (Hs1 : state s1 (m_master kn) y = state s (m_master kn) y) by (by eapply same_state).
  assert (Es : state s (m_master kn) y = stn) by (unfold state; by rewrite Hln).
  apply cwp_bind. eapply wp_insertCacheBlock; [done|by eapply inv_same|by eapply same_idle|done|by rewrite L1| | |by intros ? [= <-]|].
  - rewrite Hs1, Es. by eapply (iv_state _ Hi).
  - intros m' Hp'. rewrite Hp in Hp'. injection Hp' as <-. rewrite L1, Hln by done. split; [by eexists|done].
  - intros l s2 Hi2 K2 Hl2 Hx2. apply cwp_ret. eapply HQ; [done|by eapply kept_kept|by rewrite Hl2, Hs1|].
    intros m Hne. by rewrite Hx2, L1.
Qed.

(** ** Requests from the previous level *)

(** A line present at a cache after an operation that kept the other lines of its address. *)
Lemma first_use_same c k r l st y s Q :
  topology !! c = Some k -> ok s -> aligned y -> line s (m_master k) y = Some (l, st) ->
  (forall ph s', same s s' -> Q ph s') -> wp (first_use topology c r l) Q s.
Proof.
  intros Hk Hok Hy Hl HQ. unfold first_use. apply cwp_bind. eapply wp_block; [done|done|done|]. intros b Hst.
  apply cwp_bind. eapply cwp_mono with (Q := fun _ s1 => same s s1).
  { apply cwp_when; intros _; [|by apply same_refl]. eapply wp_quiet; [done|solve_quiet|]. intros _ s1 H1.
    eapply wp_update_block_same; [done|done|by eapply same_ok|done|by intros|rewrite (sm_line _ _ _ _ _ _ H1) by done; exact Hl|done|].
    intros s2 H2. by eapply same_trans. }
  intros _ s1 H1. apply cwp_bind, cwp_get. apply cwp_bind. eapply cwp_mono with (Q := fun _ s2 => same s s2).
  { apply cwp_when; intros _; [|done]. eapply wp_quiet; [by eapply same_ok|solve_quiet|]. intros _ s2 H2.
    pose proof (same_trans _ _ _ _ _ _ _ H1 H2) as H12.
    eapply wp_update_block_same; [done|done|by eapply same_ok|done|by intros|rewrite (sm_line _ _ _ _ _ _ H12) by done; exact Hl|done|].
    intros s3 H3. by eapply same_trans. }
  intros _ s2 H2. apply cwp_ret. by apply HQ.
Qed.

Lemma wp_wait_for_miss c k metadata y l st late s Q :
  topology !! c = Some k -> ok s -> aligned y -> line s (m_master k) y = Some (l, st) ->
  (forall b s', same s s' -> Q b s') -> wp (wait_for_miss topology c metadata y l late) Q s.
Proof.
  intros Hk Hok Hy Hl HQ. unfold wait_for_miss. eapply wp_quiet; [done|solve_quiet|]. intros t s1 H1.
  apply cwp_bind. eapply wp_master; [done|by eapply same_ok|]. intros M HM HMo.
  destruct (mshr_entry metadata y M) as [e|]; [|apply cwp_ret; by apply HQ].
  destruct (mshr_pending _ _); [|apply cwp_ret; by apply HQ].
  apply cwp_bind. eapply wp_block; [done|by eapply same_ok|rewrite (sm_line _ _ _ _ _ _ H1) by done; exact Hl|]. intros b _.
  eapply wp_quiet; [by eapply same_ok|solve_quiet|]. intros _ s2 H2. pose proof (same_trans _ _ _ _ _ _ _ H1 H2) as H12.
  eapply wp_quiet; [by eapply same_ok|solve_quiet|]. intros _ s3 H3. pose proof (same_trans _ _ _ _ _ _ _ H12 H3) as H13.
  eapply wp_quiet; [by eapply same_ok|solve_quiet|]. intros _ s4 H4. apply cwp_ret, HQ. by eapply same_trans.
Qed.

Lemma wp_hit_where_here c k sib s Q :
  topology !! c = Some k -> ok s -> (forall w s', same s s' -> w <> HitWhere.MISS -> Q w s') -> wp (hit_where_here c k sib) Q s.
Proof.
  intros Hk Hok HQ. unfold hit_where_here. apply cwp_bind. eapply wp_cntlr; [done|done|]. intros x Hx. case_bool_decide.
  - apply cwp_ret, HQ; [by apply same_refl|]. destruct sib, (m_mem_component k); done.
  - eapply wp_quiet; [done|solve_quiet|]. intros _ s1 H1. by apply cwp_ret, HQ.
Qed.

(** The line is in none of the caches of a requester. *)
Definition absent m y s : Prop := forall z, under m z -> line s z y = None.

Lemma absent_same m y s s' : aligned y -> same s s' -> absent m y s -> absent m y s'.
Proof. intros Hy [_ L] Ha z Hz. rewrite L by done. by apply Ha. Qed.
Lemma absent_lowered m x y new s s' : parent x = Some m -> lowered (below m) y new s s' -> absent x y s -> absent x y s'.
Proof.
  intros Hp H Ha z Hz. rewrite (ld_in _ _ _ _ _ H) by (by exists x). rewrite (Ha z Hz). by destruct new.
Qed.
Lemma lowered_self m y new s s' : lowered (below m) y new s s' -> line s' m y = line s m y.
Proof. intros H. destruct (ld_out _ _ _ _ _ H m) as [|E]; [done|by apply not_below_self in E]. Qed.
(** A request that hits. *)
Lemma wp_serve_hit c k q kq r l st s Q :
  topology !! c = Some k -> topology !! q = Some kq -> parent (m_master kq) = Some (m_master k) -> inv s -> idle s ->
  aligned (rq_address r) -> line s (m_master k) (rq_address r) = Some (l, st) -> absent (m_master kq) (rq_address r) s ->
  (forall w ph s', inv s' -> kept s s' -> line s' (m_master k) (rq_address r) = Some (l, st) ->
     absent (m_master kq) (rq_address r) s' -> w <> HitWhere.MISS -> Q (w, ph) s') ->
  wp (serve_hit topology junk c k q r l) Q s.
Proof.
  intros Hk Hq Hp Hi Hid Hy Hl Ha HQ. set (y := rq_address r) in *. unfold serve_hit. fold y.
  pose proof (mc_plain _ _ _ _ _ _ Hm c k Hk) as (-> & _). cbn [negb].
  apply cwp_bind. eapply first_use_same; [done|solve_ok|done|exact Hl|]. intros ph s1 H1.
  assert (Hl1 : line s1 (m_master k) y = Some (l, st)) by (by rewrite (sm_line _ _ _ _ _ _ H1)).
  apply cwp_bind. eapply wp_use_block; [done|by eapply inv_same|by eapply same_idle|done|exact Hl1|]. intros s2 H2.
  pose proof (same_trans _ _ _ _ _ _ _ H1 H2) as H12. assert (Hl2 : line s2 (m_master k) y = Some (l, st)) by (by rewrite (sm_line _ _ _ _ _ _ H12)).
  apply cwp_bind. eapply cwp_mono with (Q := fun _ s3 => same s s3).
  { apply cwp_when; intros _; [|done]. apply cwp_bind. eapply wp_wait_for_miss; [done|by eapply same_ok|done|exact Hl2|].
    intros b s3 H3. pose proof (same_trans _ _ _ _ _ _ _ H12 H3) as H13. apply cwp_when; intros _; [|done].
    eapply cwp_mono; [eapply quiet_incrElapsed_access; [done|by eapply same_ok]|]. intros [] s4 H4. by eapply same_trans. }
  intros _ s3 H3. assert (Hl3 : line s3 (m_master k) y = Some (l, st)) by (by rewrite (sm_line _ _ _ _ _ _ H3)).
  pose proof (inv_same _ _ H3 Hi) as Hi3. pose proof (same_idle _ _ H3 Hid) as Hid3. pose proof (absent_same _ _ _ _ Hy H3 Ha) as Ha3.
  apply cwp_bind. eapply wp_block; [done|solve_ok|exact Hl3|]. intros b Hst.
  apply cwp_bind. eapply cwp_mono with (Q := fun _ s4 => inv s4 /\ kept s s4 /\ line s4 (m_master k) y = Some (l, st) /\ absent (m_master kq) y s4).
  { assert (Hsn : forall new reason, new = INVALID \/ new = SHARED -> wp (snoop_prev topology junk c q y new reason)
      (fun _ s4 => inv s4 /\ kept s s4 /\ line s4 (m_master k) y = Some (l, st) /\ absent (m_master kq) y s4) s3).
    { intros new reason Hnew. eapply wp_snoop_prev; try done; [apply Ha3, under_refl|]. intros hit s4 H4.
      split_and!; [by eapply ld_inv| |by rewrite (lowered_self _ _ _ _ _ H4)|by eapply absent_lowered].
      eapply kept_kept; [apply H3|by eapply ld_kept]. }
    destruct (negb _); [apply Hsn; by left|]. destruct (_ || _); [apply Hsn; by right|]. apply cwp_ret. split_and!; try done. apply H3. }
  intros sib s4 (Hi4 & K4 & Hl4 & Ha4). apply cwp_bind. eapply wp_hit_where_here; [done|solve_ok|]. intros w s5 H5 Hw.
  apply cwp_ret, HQ; try done; [by eapply inv_same|eapply kept_kept; [done|apply H5]|by rewrite (sm_line _ _ _ _ _ _ H5)|].
  by eapply absent_same.
Qed.

(** The statistics of a request. *)
Lemma wp_count_request c k r hit s (Q : unit -> Hierarchy P D -> Prop) :
  topology !! c = Some k -> ok s -> aligned (rq_address r) -> (hit = true -> is_Some (line s (m_master k) (rq_address r))) ->
  (forall s', same s s' -> Q tt s') -> wp (count_request topology traverse c r hit) Q s.
Proof.
  intros Hk Hok Hy Hhit HQ. unfold count_request. apply cwp_when; intros _; [|by apply HQ, same_refl].
  eapply wp_quiet; [done|solve_quiet|]. intros _ s1 H1. pose proof (same_ok _ _ _ _ _ _ H1).
  apply cwp_bind. eapply wp_getCacheState; [done|done|done|]. eapply wp_updateCounters; [done|done|done|done|done| |].
  - intros Hh. rewrite (sm_line _ _ _ _ _ _ H1) by done. by apply Hhit.
  - intros s2 H2. apply HQ. by eapply same_trans.
Qed.

(** A write on a SHARED line: the other copies of the stack go. *)
Lemma wp_begin_miss c k q kq r o s Q :
  topology !! c = Some k -> topology !! q = Some kq -> parent (m_master kq) = Some (m_master k) -> inv s -> idle s ->
  aligned (rq_address r) -> o = fst <$> line s (m_master k) (rq_address r) ->
  operation_permits (state s (m_master k) (rq_address r)) (rq_op r) = false -> absent (m_master kq) (rq_address r) s ->
  (forall s', inv s' -> kept s s' -> line s' (m_master k) (rq_address r) = line s (m_master k) (rq_address r) ->
     (forall z, below (m_master k) z -> line s' z (rq_address r) = None) -> Q tt s') ->
  wp (begin_miss topology junk c q r o) Q s.
Proof.
  intros Hk Hq Hp Hi Hid Hy Ho Hperm Ha HQ. set (y := rq_address r) in *. unfold begin_miss. fold y.
  eapply wp_quiet; [solve_ok|solve_quiet|]. intros _ s1 H1. pose proof (inv_same _ _ H1 Hi) as Hi1.
  pose proof (same_idle _ _ H1 Hid) as Hid1. pose proof (absent_same _ _ _ _ Hy H1 Ha) as Ha1.
  apply cwp_bind. eapply (wp_getCacheState_block _ _ _ _ c k Hk _ s1 y); [solve_ok|by rewrite (sm_line _ _ _ _ _ _ H1)|].
  assert (Est : state s1 (m_master k) y = state s (m_master k) y) by (by eapply same_state). rewrite Est.
  destruct (line s (m_master k) y) as [[l st]|] eqn:El; unfold state in *; rewrite El in *; cbn [from_option snd] in *.
  - assert (st = SHARED) as ->.
    { destruct (iv_state _ Hi _ _ _ _ Hy El) as [->| ->]; [done|]. by destruct (rq_op r). }
    apply cwp_when; [|by intros ?%bool_decide_eq_false]. intros _. apply cwp_bind.
    eapply wp_snoop_prev; [done|done|done|done|done|by left|apply Ha1, under_refl|]. intros hit s2 H2. apply cwp_ret, HQ.
    + by eapply ld_inv.
    + eapply kept_kept; [apply H1|by eapply ld_kept].
    + rewrite (lowered_self _ _ _ _ _ H2). by rewrite (sm_line _ _ _ _ _ _ H1).
    + intros z Hz. by rewrite (ld_in _ _ _ _ _ H2).
  - apply cwp_when; [by intros ?%bool_decide_eq_true|]. intros _. apply HQ; [done|apply H1|by rewrite (sm_line _ _ _ _ _ _ H1)|].
    intros z Hz%under_below. rewrite (sm_line _ _ _ _ _ _ H1) by done. by eapply absent_under.
Qed.

(** The line came in. *)
Lemma wp_mark_filled c k r l st s (Q : unit -> Hierarchy P D -> Prop) :
  topology !! c = Some k -> inv s -> idle s -> aligned (rq_address r) -> line s (m_master k) (rq_address r) = Some (l, st) ->
  (forall s', same s s' -> Q tt s') -> wp (mark_filled topology c k r) Q s.
Proof.
  intros Hk Hi Hid Hy Hl HQ. unfold mark_filled. apply cwp_bind. eapply cwp_mono with (Q := fun _ s1 => same s s1).
  { apply cwp_when; intros _; [|apply same_refl; solve_ok]. apply cwp_bind. eapply wp_getCacheBlockInfo; [done|solve_ok|done|].
    rewrite Hl. apply cwp_bind. eapply cwp_lift; [done|]. eapply wp_update_block_same; [done|done|solve_ok|done|by intros|exact Hl|done|]. done. }
  intros _ s1 H1. apply cwp_when; intros _; [|by apply HQ]. pose proof (inv_same _ _ H1 Hi) as Hi1.
  assert (Hl1 : line s1 (m_master k) (rq_address r) = Some (l, st)) by (by rewrite (sm_line _ _ _ _ _ _ H1)).
  apply cwp_bind. eapply wp_getCacheBlockInfo; [done|solve_ok|done|]. rewrite Hl1. cbn [fmap option_fmap option_map fst].
  eapply wp_use_block; [done|done|by eapply same_idle|done|exact Hl1|]. intros s2 H2. apply HQ. by eapply same_trans.
Qed.

Lemma quiet_updateUncoreStatistics c k w now : topology !! c = Some k -> w <> HitWhere.MISS -> quiet (updateUncoreStatistics (P := P) (D := D) c w now).
Proof.
  intros Hk Hw. unfold updateUncoreStatistics. apply quiet_bind; [by eapply quiet_update_cntlr|]. intros _. solve_quiet.
Qed.

(** The state that a fetch from DRAM gives. *)
Definition fetched (op : Core.mem_op_t) : cstate_t := if bool_decide (op = Core.READ) then SHARED else MODIFIED.
Lemma fetched_permits op : operation_permits (fetched op) op = true.
Proof. by destruct op. Qed.

Lemma wp_fetch_from_dram c k r s Q :
  topology !! c = Some k -> parent (m_master k) = None -> inv s -> idle s -> aligned (rq_address r) ->
  line s (m_master k) (rq_address r) = None ->
  (forall w l s', inv s' -> kept s s' -> line s' (m_master k) (rq_address r) = Some (l, fetched (rq_op r)) ->
     (forall m, m <> m_master k -> line s' m (rq_address r) = line s m (rq_address r)) -> w <> HitWhere.MISS -> Q w s') ->
  wp (fetch_from_dram topology junk c k r) Q s.
Proof.
  intros Hk Hp Hi Hid Hy Hn HQ. set (y := rq_address r) in *. unfold fetch_from_dram. fold y.
  eapply wp_quiet; [solve_ok|solve_quiet|]. intros t s1 H1. eapply wp_quiet; [by eapply same_ok|solve_quiet|]. intros _ s2 H2.
  pose proof (same_trans _ _ _ _ _ _ _ H1 H2) as H12. clear s1 H1 H2.
  apply cwp_bind. eapply wp_access_dram; [done|by eapply same_ok|]. intros w lat d s3 H3 Hd Hw.
  pose proof (same_trans _ _ _ _ _ _ _ H12 H3) as H13. eapply wp_quiet; [by eapply same_ok|solve_quiet|]. intros _ s4 H4.
  pose proof (same_trans _ _ _ _ _ _ _ H13 H4) as H14. clear s2 H12 s3 H3 H13 H4. pose proof H14 as [K4 L4].
  apply cwp_bind. eapply (wp_insertCacheBlock _ s4 c k y (fetched (rq_op r))); [done|by eapply inv_same|by eapply same_idle|done|by rewrite L4| | | |].
  - unfold fetched. case_bool_decide; auto.
  - intros m' Hp'. congruence.
  - intros d' [= <-]. rewrite Hd. apply Hm.
  - intros l s5 Hi5 K5 Hl5 Hx5. apply cwp_bind. eapply wp_mark_filled; [done|done|eapply kept_idle; [exact K5|by eapply same_idle]|done|exact Hl5|].
    intros s6 H6. eapply wp_quiet; [by eapply same_ok|solve_quiet|]. intros t' s7 H7. pose proof (same_trans _ _ _ _ _ _ _ H6 H7) as H67.
    eapply wp_quiet; [by eapply same_ok|by eapply quiet_updateUncoreStatistics; [done|by apply Hw]|]. intros _ s8 H8.
    pose proof (same_trans _ _ _ _ _ _ _ H67 H8) as [K8 L8]. apply cwp_ret. eapply HQ.
    + eapply inv_same; [|exact Hi5]. by split.
    + eapply kept_kept; [exact K4|]. by eapply kept_kept.
    + rewrite L8 by done. exact Hl5.
    + intros m Hne. rewrite L8 by done. rewrite Hx5 by done. by apply L4.
    + by apply Hw.
Qed.

(** A miss of the last level. *)
Lemma wp_last_level_miss c k q r o s Q :
  topology !! c = Some k -> parent (m_master k) = None -> inv s -> idle s -> aligned (rq_address r) ->
  o = fst <$> line s (m_master k) (rq_address r) -> (is_Some o -> rq_op r <> Core.READ) ->
  (forall z, below (m_master k) z -> line s z (rq_address r) = None) ->
  (forall w l st s', inv s' -> kept s s' -> line s' (m_master k) (rq_address r) = Some (l, st) ->
     operation_permits st (rq_op r) = true -> (forall z, below (m_master k) z -> line s' z (rq_address r) = None) ->
     w <> HitWhere.MISS -> Q (w, true) s') ->
  wp (last_level_miss topology junk c k q r o) Q s.
Proof.
  intros Hk Hp Hi Hid Hy Ho Hop Hb HQ. set (y := rq_address r) in *. unfold last_level_miss. fold y.
  apply cwp_bind. eapply (wp_getCacheState_block _ _ _ _ c k Hk _ s y); [solve_ok|done|].
  apply cwp_bind. eapply wp_master; [done|solve_ok|]. intros M HM HMo. rewrite (mo_dram _ _ _ _ _ HMo Hp).
  unfold state. destruct (line s (m_master k) y) as [[l st]|] eqn:El; subst o; cbn [fmap option_fmap option_map fst from_option snd].
  - rewrite (bool_decide_eq_false_2 (st = EXCLUSIVE)) by (destruct (iv_state _ Hi _ _ _ _ Hy El) as [->| ->]; done).
    apply cwp_bind. eapply (wp_update_block topology junk logb parent prevs level Hm c k Hk _ s y (setCState MODIFIED) l st MODIFIED); try done; [solve_ok|].
    intros s1 H1. apply cwp_ret. pose proof H1 as [K1 Hl1 L1].
    assert (Hrq : rq_op r <> Core.READ) by (apply Hop; by eexists).
    eapply HQ; [|done|exact Hl1|by destruct (rq_op r)| |by destruct (m_mem_component k)].
    + eapply inv_set_line; [exact Hi|done|exact H1|intros ? ? [= _ <-]; by right|..].
      * intros x Hx Hs. left. by eexists.
      * intros x Hx Hs. by left.
      * intros m' Hp'. congruence.
      * intros m' Hp'. congruence.
    + intros z Hz. rewrite L1; [by apply Hb|done|]. left. intros ->. by apply not_below_self in Hz.
  - apply cwp_bind. eapply wp_fetch_from_dram; [done|done|done|done|done|exact El|]. intros w l s1 Hi1 K1 Hl1 Hx1 Hw. apply cwp_ret.
    eapply HQ; [done|done|exact Hl1|apply fetched_permits| |done]. intros z Hz. fold y. rewrite Hx1; [by apply Hb|].
    intros ->. by apply not_below_self in Hz.
Qed.

(** The end of a request. *)
Lemma wp_finish_request c k r first ph s (Q : unit -> Hierarchy P D -> Prop) :
  topology !! c = Some k -> ok s -> aligned (rq_address r) -> is_Some (line s (m_master k) (rq_address r)) ->
  (forall s', same s s' -> Q tt s') -> wp (finish_request topology junk traverse c k r true first ph) Q s.
Proof.
  intros Hk Hok Hy Hl HQ. unfold finish_request. apply cwp_bind. eapply cwp_mono with (Q := fun _ s1 => same s s1).
  { apply cwp_when; intros _; [|done]. apply cwp_bind. eapply wp_retrieve_line; [done|done|done|done|done|]. intros d s1 H1 _.
    apply cwp_when; intros _; [|done]. eapply wp_quiet; [by eapply same_ok|solve_quiet|]. intros t s2 H2.
    pose proof (same_trans _ _ _ _ _ _ _ H1 H2) as H12.
    eapply cwp_mono; [eapply quiet_record_miss; [done|done|done|by eapply same_ok]|]. intros [] s3 H3. by eapply same_trans. }
  intros _ s1 H1. apply cwp_bind. eapply wp_master; [done|by eapply same_ok|]. intros M HM HMo.
  rewrite (mo_prefetcher _ _ _ _ _ HMo). rewrite (bool_decide_eq_false_2 (is_Some None)) by (by intros []).
  rewrite andb_false_r. cbn [andb]. apply cwp_ret. by apply HQ.
Qed.

(** What a request leaves: a copy that permits it, and none in the caches of the requester. *)
Definition served k kq r s s' : Prop :=
  inv s' /\ kept s s' /\ operation_permits (state s' (m_master k) (rq_address r)) (rq_op r) = true /\
  absent (m_master kq) (rq_address r) s'.

Lemma served_same k kq r s s1 s2 : aligned (rq_address r) -> served k kq r s s1 -> same s1 s2 -> served k kq r s s2.
Proof.
  intros Hy (Hi & K & Hp & Ha) H. split_and!; [by eapply inv_same|eapply kept_kept; [done|apply H]| |by eapply absent_same].
  by rewrite (same_state _ _ _ _ s1) by done.
Qed.
Lemma served_kept k kq r s s1 s2 : kept s s1 -> served k kq r s1 s2 -> served k kq r s s2.
Proof. intros K (Hi & K' & H). split_and!; try apply H; [done|]. by eapply kept_kept. Qed.

(** The part of a miss of an inner level after its own copy is gone. *)
Lemma wp_fill_from_next c k kq n kn r s Q fuel :
  topology !! c = Some k -> parent (m_master kq) = Some (m_master k) -> m_next_cache_cntlr k = Some n -> topology !! n = Some kn ->
  inv s -> idle s -> aligned (rq_address r) -> line s (m_master k) (rq_address r) = None ->
  (forall R, (forall w s', served kn k (to_next r) s s' -> w <> HitWhere.MISS -> R w s') ->
     wp (processShmemReqFromPrevCache topology junk traverse fuel n c (to_next r)) R s) ->
  (forall w s', w <> HitWhere.MISS -> served k kq r s s' -> Q (w, true, false) s') ->
  wp (w ← processShmemReqFromPrevCache topology junk traverse fuel n c (to_next r);
      if bool_decide (w = HitWhere.MISS) then mret (w, false, false)
      else
        t_now ← getElapsedTime topology c _USER_THREAD;
        _ ← copyDataFromNextLevel topology junk c (rq_op r) (rq_address r) (rq_modeled r) t_now (rq_block_type r);
        _ ← mark_filled topology c k r;
        mret (w, true, false)) Q s.
Proof.
  intros Hk Hp Hnk Hn Hi Hid Hy Hnone Hreq HQ. set (y := rq_address r) in *.
  apply cwp_bind, Hreq. intros w s1 (Hi1 & K1 & Hperm1 & Ha1) Hw. cbn [rq_op rq_address to_next] in *. fold y in Hperm1, Ha1.
  rewrite bool_decide_eq_false_2 by done. eapply wp_quiet; [solve_ok|solve_quiet|]. intros t s2 H2.
  apply cwp_bind. eapply (wp_copyDataFromNextLevel c k n kn); try done.
  - by eapply inv_same.
  - eapply same_idle; [done|by eapply kept_idle].
  - rewrite (sm_line _ _ _ _ _ _ H2) by done. apply Ha1, under_refl.
  - by rewrite (same_state _ _ _ _ s1) by done.
  - intros l s3 Hi3 K3 Hl3 Hx3. assert (K13 : kept s s3).
    { eapply kept_kept; [exact K1|]. eapply kept_kept; [apply H2|exact K3]. }
    assert (Hs3 : served k kq r s s3).
    { split_and!; try done.
      - unfold state. fold y. rewrite Hl3. cbn. by rewrite (same_state _ _ _ _ s1) by done.
      - intros z Hz. fold y. assert (Hb : below (m_master k) z) by (by exists (m_master kq)).
        rewrite Hx3 by (intros ->; by apply not_below_self in Hb). rewrite (sm_line _ _ _ _ _ _ H2) by done. by apply Ha1, under_below. }
    apply cwp_bind. eapply wp_mark_filled; [done|done|by eapply kept_idle|done|exact Hl3|]. intros s4 H4. apply cwp_ret, HQ; [done|].
    by eapply served_same.
Qed.

(** A request is served. *)
Lemma wp_request fuel c k q kq r s Q :
  topology !! c = Some k -> topology !! q = Some kq -> parent (m_master kq) = Some (m_master k) ->
  (length topology - level (m_master k) <= fuel)%nat -> inv s -> idle s -> aligned (rq_address r) ->
  absent (m_master kq) (rq_address r) s -> (forall w s', served k kq r s s' -> w <> HitWhere.MISS -> Q w s') ->
  wp (processShmemReqFromPrevCache topology junk traverse fuel c q r) Q s.
Proof.
  revert c k q kq r s Q. induction fuel as [|fuel IH]; intros c k q kq r s Q Hk Hq Hp Hf Hi Hid Hy Ha HQ;
    pose proof (mc_bound _ _ _ _ _ _ Hm c k Hk) as Hlev; [lia|]. cbn [processShmemReqFromPrevCache].
  apply cwp_bind. eapply wp_config; [done|]. pose proof (mc_plain _ _ _ _ _ _ Hm c k Hk) as (Hperf & Hpass & _).
  apply cwp_bind. unfold lookup_line. apply cwp_bind. eapply wp_permissible; [done|solve_ok|done|].
  rewrite Hperf, Hpass, !andb_false_r. cbn [andb]. apply cwp_ret.
  destruct (operation_permits (state s (m_master k) (rq_address r)) (rq_op r)) eqn:Hperm; cbn beta iota.
  - (* a hit *)
    destruct (permits_line _ _ _ _ Hperm) as (l & st & Hl & Hst). rewrite Hl.
    eapply wp_quiet; [solve_ok|solve_quiet|]. intros _ s1 H1.
    apply cwp_bind. eapply wp_count_request; [done|by eapply same_ok|done|intros _; rewrite (sm_line _ _ _ _ _ _ H1), Hl by done; by eexists|].
    intros s2 H2. pose proof (same_trans _ _ _ _ _ _ _ H1 H2) as H12.
    apply cwp_bind, cwp_bind. eapply cwp_lift; [done|]. apply cwp_bind.
    eapply (wp_serve_hit c k q kq r l st); try done; [by eapply inv_same|by eapply same_idle|by rewrite (sm_line _ _ _ _ _ _ H12)|by eapply absent_same|].
    intros w ph s3 Hi3 K3 Hl3 Ha3 Hw. apply cwp_ret. cbn beta iota. assert (Hs3 : served k kq r s s3).
    { split_and!; try done; [eapply kept_kept; [apply H12|done]|]. unfold state. by rewrite Hl3. }
    apply cwp_bind. eapply wp_finish_request; [done|solve_ok|done|by rewrite Hl3; eexists|]. intros s4 H4. apply cwp_ret, HQ; [|done].
    by eapply served_same.
  - (* a miss *)
    eapply wp_quiet; [solve_ok|solve_quiet|]. intros _ s1 H1.
    apply cwp_bind. eapply wp_count_request; [done|by eapply same_ok|done|done|]. intros s2 H2. pose proof (same_trans _ _ _ _ _ _ _ H1 H2) as H12.
    pose proof (inv_same _ _ H12 Hi) as Hi2. pose proof (same_idle _ _ H12 Hid) as Hid2. pose proof (absent_same _ _ _ _ Hy H12 Ha) as Ha2.
    rewrite <- (same_state _ _ _ _ _ _ _ _ H12) in Hperm by done. rewrite <- (sm_line _ _ _ _ _ _ H12) by done.
    apply cwp_bind, cwp_bind. eapply (wp_begin_miss c k q kq r); try done. intros s3 Hi3 K3 Hl3 Hb3.
    pose proof (kept_idle _ _ K3 Hid2) as Hid3. rewrite <- Hl3.
    assert (K13 : kept s s3) by (eapply kept_kept; [apply H12|done]).
    assert (Hend : forall w s4, w <> HitWhere.MISS -> served k kq r s3 s4 ->
      wp (_ ← finish_request topology junk traverse c k r true false false; mret w) Q s4).
    { intros w s4 Hw Hs4. pose proof Hs4 as (Hi4 & _ & Hp4 & _). destruct (permits_line _ _ _ _ Hp4) as (l & st & Hl & _).
      apply cwp_bind. eapply wp_finish_request; [done|solve_ok|done|by rewrite Hl; eexists|]. intros s5 H5. apply cwp_ret, HQ; [|done].
      eapply served_kept; [exact K13|]. by eapply served_same. }
    pose proof (mc_next _ _ _ _ _ _ Hm c k Hk) as Hnext. destruct (m_next_cache_cntlr k) as [n|] eqn:Hnk.
    + destruct Hnext as (kn & Hn & Hpn). pose proof (mc_level _ _ _ _ _ _ Hm _ _ Hpn).
      apply cwp_bind. eapply cwp_mono with (Q := fun _ s4 => inv s4 /\ kept s3 s4 /\ line s4 (m_master k) (rq_address r) = None).
      { destruct (line s3 (m_master k) (rq_address r)) as [[l st]|] eqn:El.
        - assert (st = SHARED) as ->.
          { destruct (iv_state _ Hi3 _ _ _ _ Hy El) as [->| ->]; [done|]. unfold state in Hperm. rewrite <- Hl3 in Hperm. by destruct (rq_op r). }
          eapply wp_invalidateCacheBlock; [done|done|solve_ok|done|exact El|]. intros s4 H4 _.
          split_and!; [|apply H4|apply H4]. eapply inv_set_line; [exact Hi3|done|exact H4|done|..]; try done.
          + intros x Hx [v Hv]. rewrite Hb3 in Hv by (by exists x; split; [|apply under_refl]). done.
          + intros x Hx. unfold state. rewrite Hb3 by (by exists x; split; [|apply under_refl]). done.
        - apply cwp_ret. split_and!; try done. apply kept_refl. solve_ok. }
      intros _ s4 (Hi4 & K4 & Hl4). pose proof (kept_idle _ _ K4 Hid3) as Hid4.
      eapply (wp_fill_from_next c k kq n kn r); try done.
      * intros R HR. eapply (IH n kn c k (to_next r)); try done; [lia|]. intros z Hz. by eapply (absent_under s4 (m_master k)).
      * intros w s5 Hw Hs5. cbn beta iota. apply Hend; [done|]. by eapply served_kept.
    + apply cwp_bind. eapply (wp_last_level_miss c k q r); try done.
      * intros [l Hl] Hop. rewrite Hop in Hperm. rewrite <- Hl3 in Hperm || idtac.
        destruct (line s3 (m_master k) (rq_address r)) as [[l' st]|] eqn:El; [|done]. unfold state in Hperm. rewrite <- Hl3 in Hperm.
        destruct (iv_state _ Hi3 _ _ _ _ Hy El) as [->| ->]; done.
      * intros w l st s4 Hi4 K4 Hl4 Hst Hb4 Hw. apply cwp_ret. cbn beta iota. apply Hend; [done|]. split_and!; try done.
        -- unfold state. by rewrite Hl4.
        -- intros z Hz. apply Hb4. by exists (m_master kq).
Qed.

End props.
