(* ===== verification/CntlrAccess.v ===== *)
(** * The accesses of a core, with their locks

    [processMemOpFromCore] on the machines of [CntlrProps.v]: run without other threads it
    completes, with a copy in the first level that permits the access, keeps the inclusion
    of the levels and gives back every lock it took. *)

From stdpp Require Import base tactics list numbers gmap strings relations.
From Stdlib Require Import ZArith Lia.
From S2P Require Import Prelude Utils CacheBase CacheBlock CacheSet Cache CacheLines Timing Contention Directory DirCntlr Prefetch CntlrState CacheCntlr CntlrView CntlrProps.
Local Open Scope Z_scope.
Local Open Scope mach_scope.
Import Cntlr.

(** ** Runs of threads *)

Section run.
Context {P D : Type}.
Implicit Types s : Hierarchy P D.

(** The thread alone completes, or stops because the clock overflows or stands at its end. *)
Definition run {A} (t : thread P D A) (Q : A -> Hierarchy P D -> Prop) s : Prop :=
  match exec t s with Ok (a, s') => Q a s' | Err f => f = ClockOverflow \/ f = ClockEnd end.

Lemma run_done {A} (a : A) (Q : A -> Hierarchy P D -> Prop) s : Q a s -> run (mret a) Q s.
Proof. done. Qed.
Lemma run_bind {A B} (t : thread P D A) (k : A -> thread P D B) Q s : run t (fun a => run (k a) Q) s -> run (t ≫= k) Q s.
Proof.
  revert s. induction t as [a|X ready m f IH]; intros s; [done|]. unfold run. cbn [exec mbind thread_mbind thread_bind].
  destruct (ready s); [|done]. destruct (m s) as [[x s']|]; [|done]. cbn [mbind res_bind]. apply IH.
Qed.
Lemma run_wait {A} ready (m : C P D A) Q s : ready s = true -> wp m Q s -> run (wait ready m) Q s.
Proof. intros Hr. unfold run, wp. cbn. rewrite Hr. by destruct (m s) as [[]|]. Qed.
Lemma run_atomic {A} (m : C P D A) Q s : wp m Q s -> run (atomic m) Q s.
Proof. by apply run_wait. Qed.
Lemma run_mono {A} (t : thread P D A) (Q Q' : A -> Hierarchy P D -> Prop) s :
  run t Q s -> (forall a s', Q a s' -> Q' a s') -> run t Q' s.
Proof. unfold run. destruct (exec t s) as [[a s']|]; auto. Qed.
Lemma run_when b (t : thread P D unit) Q s : (b = true -> run t Q s) -> (b = false -> Q tt s) -> run (twhen b t) Q s.
Proof. destruct b; intros H1 H2; [by apply H1|apply run_done; by apply H2]. Qed.
Lemma run_for {X} (I : list X -> Hierarchy P D -> Prop) (f : X -> thread P D unit) l (Q : unit -> Hierarchy P D -> Prop) s :
  I l s -> (forall x l s, I (x :: l) s -> run (f x) (fun _ s' => I l s') s) -> (forall s, I [] s -> Q tt s) -> run (tfor f l) Q s.
Proof.
  intros H0 Hs HQ. revert s H0. induction l as [|x l IH]; intros s H0; cbn; [by apply HQ|].
  apply run_bind. eapply run_mono; [by apply Hs|]. auto.
Qed.

End run.

(** ** The mutexes of a set lock *)

Section mutexes.

(** Nobody, everybody but the cores from some number on, or one core holds its mutex. *)
Definition first_held (n t : nat) : list bool := replicate t true ++ replicate (n - t) false.
Definition one_held (n j : nat) : list bool := <[j := true]> (replicate n false).

Lemma first_held_0 n : first_held n 0 = replicate n false.
Proof. unfold first_held. by rewrite Nat.sub_0_r. Qed.
Lemma first_held_all n : first_held n n = replicate n true.
Proof. unfold first_held. rewrite Nat.sub_diag. by rewrite app_nil_r. Qed.
Lemma first_held_free n t : (t < n)%nat -> first_held n t !! t = Some false.
Proof.
  intros. unfold first_held. rewrite lookup_app_r by (by rewrite length_replicate). rewrite length_replicate, Nat.sub_diag.
  apply lookup_replicate_2. lia.
Qed.
Lemma first_held_next n t : (t < n)%nat -> <[t := true]> (first_held n t) = first_held n (S t).
Proof.
  intros. unfold first_held. replace t with (length (replicate t true) + 0)%nat at 1 by (rewrite length_replicate; lia).
  rewrite insert_app_r. replace (n - t)%nat with (S (n - S t)) by lia. change (replicate (S t) true) with (true :: replicate t true).
  rewrite replicate_cons_app, <- app_assoc. done.
Qed.

(** A downgrade keeps the mutex of one core. *)
Lemma downgrade_loop n j r : forall t m,
  (t + r = n)%nat -> length m = n -> (forall i, (i < n)%nat -> m !! i = Some (bool_decide ((t <= i)%nat \/ i = j))) ->
  exists m', fold_loop (fun m i => if Z.of_nat i =? Z.of_nat j then Ok m else SetLock.release_at i m) m (seq t r) = Ok m' /\
    length m' = n /\ forall i, (i < n)%nat -> m' !! i = Some (bool_decide (i = j)).
Proof.
  induction r as [|r IH]; intros t m Er Hl Hm; cbn.
  - exists m. split_and!; [done|done|]. intros i Hi. rewrite Hm by done. f_equal. apply bool_decide_ext. lia.
  - destruct (Z.eqb_spec (Z.of_nat t) (Z.of_nat j)) as [E|E].
    + apply IH; [lia|done|]. intros i Hi. rewrite Hm by done. f_equal. apply bool_decide_ext. lia.
    + unfold SetLock.release_at. rewrite (proj2 (rd_Ok _ _ _) (Hm t ltac:(lia))). rewrite bool_decide_eq_true_2 by lia.
      cbn [mbind res_bind check]. rewrite wr_lt by lia. cbn [mbind res_bind]. apply IH; [lia|by rewrite length_insert|].
      intros i Hi. rewrite list_lookup_insert. case_decide as D.
      * destruct D as [<- _]. by rewrite bool_decide_eq_false_2 by lia.
      * rewrite Hm by done. f_equal. apply bool_decide_ext. lia.
Qed.
Lemma downgrade_all n core off :
  off <= core < off + Z.of_nat n ->
  SetLock.downgrade core (SetLock.mkLock (replicate n true) off) =
    Ok (SetLock.mkLock (one_held n (Z.to_nat (core - off))) off).
Proof.
  intros Hc. unfold SetLock.downgrade, SetLock.mutexes. cbn [SetLock.m_locks SetLock.m_core_offset]. rewrite length_replicate.
  set (j := Z.to_nat (core - off)). replace (core - off) with (Z.of_nat j) by lia.
  destruct (downgrade_loop n j n 0 (replicate n true)) as (m' & -> & Hl & Hm'); [lia|by rewrite length_replicate| |].
  { intros i Hi. rewrite lookup_replicate_2 by done. by rewrite bool_decide_eq_true_2 by lia. }
  cbn [mbind res_bind]. do 2 f_equal. unfold one_held. apply list_eq. intros i. rewrite list_lookup_insert.
  destruct (decide (i < n)%nat) as [Hi|Hi].
  - rewrite Hm' by done. case_decide as D; [destruct D as [-> _]; by rewrite bool_decide_eq_true_2|].
    rewrite bool_decide_eq_false_2 by (intros ->; apply D; by rewrite length_replicate). by rewrite lookup_replicate_2.
  - rewrite lookup_ge_None_2 by lia. case_decide as D; [destruct D; lia|]. symmetry. apply lookup_ge_None_2. rewrite length_replicate. lia.
Qed.

(** One core takes its mutex and gives it back. *)
Lemma acquire_one n core off :
  off <= core < off + Z.of_nat n ->
  SetLock.acquire_shared core (SetLock.mkLock (replicate n false) off) =
    Ok (SetLock.mkLock (one_held n (Z.to_nat (core - off))) off).
Proof.
  intros H. unfold SetLock.acquire_shared, SetLock.acquire_at. cbn [SetLock.m_locks SetLock.m_core_offset]. rewrite length_replicate.
  rewrite (proj2 (Z.leb_le _ _)), (proj2 (Z.ltb_lt _ _)) by lia. cbn [andb check mbind res_bind].
  rewrite wr_lt by (rewrite length_replicate; lia). done.
Qed.
Lemma release_one n core off :
  off <= core < off + Z.of_nat n ->
  SetLock.release_shared core (SetLock.mkLock (one_held n (Z.to_nat (core - off))) off) =
    Ok (SetLock.mkLock (replicate n false) off).
Proof.
  intros H. unfold SetLock.release_shared, SetLock.release_at. cbn [SetLock.m_locks SetLock.m_core_offset].
  rewrite (proj2 (Z.leb_le _ _)) by lia. cbn [check mbind res_bind]. set (j := Z.to_nat (core - off)). unfold one_held.
  rewrite (proj2 (rd_Ok _ _ true)) by (apply list_lookup_insert_eq; rewrite length_replicate; lia). cbn [mbind res_bind check].
  rewrite wr_lt by (rewrite length_insert, length_replicate; lia). cbn [mbind res_bind]. do 2 f_equal.
  rewrite list_insert_insert_eq. apply list_insert_id. apply lookup_replicate_2. lia.
Qed.

End mutexes.

(** ** Accesses *)

Section access.
Context {P D : Type} `{!ReplacementPolicy P} `{!ReplacementPolicyLaws P} `{!DramCntlrInterface D} `{!DramCntlrLaws D}.
Context (topology : list CntlrConfig) (junk : list Z) (traverse : gmap Z MshrEntry -> list (Z * MshrEntry)) `{!Traversal traverse}.
Context (logb : Z) (parent : nat -> option nat) (prevs : nat -> list nat) (level : nat -> nat).
Implicit Types (s : Hierarchy P D) (m : nat) (y : Z).

Abbreviation bs := (2 ^ logb).
Abbreviation aligned := (aligned logb).
Abbreviation ok := (ok topology logb parent prevs).
Abbreviation kept := (kept topology logb parent prevs).
Abbreviation same := (same topology logb parent prevs).
Abbreviation inv := (inv topology logb parent prevs).
Context (Hm : machine topology junk logb parent prevs level).

(** The invariant depends on the lines and the evictions only. *)
Record view_of s s' : Prop := {
  vo_ok : ok s';
  vo_evicting m : evicting s' m = evicting s m;
  vo_line m y : aligned y -> line s' m y = line s m y
}.
Lemma inv_view s s' : view_of s s' -> inv s -> inv s'.
Proof.
  intros [Ho He L] [_ I2 I3 I4]. split; [done|..].
  - intros m y l st Hy. rewrite L by done. by apply I2.
  - intros x m y Hy Hp. unfold holds. rewrite He, !L by done. by apply I3.
  - intros x m y Hy Hp. unfold accepts, state. rewrite He, !L by done. by apply I4.
Qed.

(** The last level behind a controller. *)
Definition stack c k cl kl : Prop :=
  topology !! c = Some k /\ topology !! cl = Some kl /\ forall s, lastLevelCache topology c s = Ok (cl, s).

Lemma last_level_total fuel c k :
  topology !! c = Some k -> (length topology - level (m_master k) <= fuel)%nat ->
  exists cl kl, topology !! cl = Some kl /\ forall s, last_level_from topology fuel c s = Ok (cl, s).
Proof.
  revert c k. induction fuel as [|fuel IH]; intros c k Hk Hf; pose proof (mc_bound _ _ _ _ _ _ Hm c k Hk); [lia|].
  cbn [last_level_from]. rewrite (config_eq topology c k Hk). pose proof (mc_next _ _ _ _ _ _ Hm c k Hk) as Hn.
  destruct (m_next_cache_cntlr k) as [n|] eqn:En.
  - destruct Hn as (kn & Hn & Hp). pose proof (mc_level _ _ _ _ _ _ Hm _ _ Hp). destruct (IH n kn Hn) as (cl & kl & Hl & E); [lia|].
    exists cl, kl. split; [done|]. intros s. unfold mbind, C_bind, mret, C_ret. cbn. rewrite En. apply E.
  - exists c, k. split; [done|]. intros s. unfold mbind, C_bind, mret, C_ret. cbn. by rewrite En.
Qed.
Lemma stack_total c k : topology !! c = Some k -> exists cl kl, stack c k cl kl.
Proof. intros Hk. destruct (last_level_total (length topology) c k Hk) as (cl & kl & H1 & H2); [lia|]. by exists cl, kl. Qed.

(** ** The locks *)

Definition lock_index (log_blocksize num_sets y : Z) : nat := Z.to_nat (Z.land (Z.shiftr y log_blocksize) (u32 (num_sets - 1))).

(** The lock of an address is free, and the core is one of those it is for. *)
Record free_lock s r y core (n : nat) (off : Z) : Prop := {
  fk_lock : exists L g ns, locks s r = Some (L, g, ns) /\ L !! lock_index g ns y = Some (SetLock.mkLock (replicate n false) off);
  fk_core : off <= core < off + Z.of_nat n
}.

(** No core holds a lock, nor works in a first level. *)
Record unlocked s : Prop := {
  ul_free c k cl kl y : stack c k cl kl -> aligned y -> exists n off, free_lock s (m_master kl) y (cc_core_id k) n off;
  ul_busy c k : topology !! c = Some k -> busy s (m_master k) = Some false
}.

(** During an access from the state [s0]: the first level is busy and a lock is as given. *)
Record during s0 b mm r y (lk : SetLock.t) s : Prop := {
  du_locks m : locks s m = if decide (m = r) then (fun x => (<[lock_index x.1.2 x.2 y := lk]> x.1.1, x.1.2, x.2)) <$> locks s0 r
                           else locks s0 m;
  du_busy m : busy s m = if decide (m = mm) then Some b else busy s0 m
}.

Lemma during_kept s0 b mm r y lk s s' : during s0 b mm r y lk s -> kept s s' -> during s0 b mm r y lk s'.
Proof. intros [H1 H2] [_ _ K1 K2]. split; intros m; [by rewrite K1|by rewrite K2]. Qed.

(** ** The steps of an access *)

(** The accesses considered: inside one line, with a buffer that is long enough, and not one
    of the metadata that the first level does not keep. *)
Record access_ok (k : CntlrConfig) (a : Access) : Prop := {
  ao_aligned : aligned (ac_address a);
  ao_offset : 0 <= ac_offset a < bs;
  ao_length : 0 <= ac_length a;
  ao_end : ac_offset a + ac_length a <= bs;
  ao_buffer d : ac_data a = Some d -> ac_length a <= Z.of_nat (length d);
  ao_lock : ac_lock a = Core.NONE;
  ao_kept : bypasses k a = false
}.

Lemma aligned_check y : aligned y -> (Z.land y (u32 (bs - 1)) =? 0) = true.
Proof.
  intros [[Hy _] [t ->]]. pose proof (mc_logb _ _ _ _ _ _ Hm) as Hl. pose proof (block_size _ _ _ _ _ _ Hm) as Hb.
  unfold u32, wrap. rewrite (Z.mod_small (bs - 1)) by lia. rewrite land_pow2_pred by lia. rewrite Z.mod_mul by lia. done.
Qed.
Lemma length_check k a : access_ok k a -> (u32 (ac_offset a + ac_length a) <=? bs) = true.
Proof.
  intros [_ H1 H2 H3 _ _ _]. pose proof (block_size _ _ _ _ _ _ Hm) as Hb. apply Z.leb_le. unfold u32, wrap. rewrite Z.mod_small by lia. done.
Qed.

Section steps.
Context (c : nat) (k : CntlrConfig) (Hk : topology !! c = Some k) (a : Access) (Ha : access_ok k a).
Abbreviation mm := (m_master k).
Abbreviation y := (ac_address a).
Abbreviation ac_metadata a := (isMetadataBlockType (ac_block_type a)).
Abbreviation quiet := (quiet (P := P) (D := D) topology logb parent prevs).
Abbreviation idle := (idle (P := P) (D := D)).

Lemma wp_accessCache s upd Q :
  ok s -> (forall d s', same s s' -> Q d s') ->
  wp (accessCache topology c (ac_op a) y (ac_offset a) (ac_data a) (ac_length a) upd) Q s.
Proof.
  intros Hs HQ. destruct Ha as [H1 H2 H3 H4 H5 _ _]. destruct (mc_plain _ _ _ _ _ _ Hm c k Hk) as (_ & _ & _ & Hwt & _).
  unfold accessCache. destruct (ac_op a).
  - apply cwp_bind. eapply wp_access_line; [done..|]. intros r s' Hs' _ _. apply cwp_ret. by apply HQ.
  - apply cwp_bind. eapply wp_access_line; [done..|]. intros r s' Hs' _ _. apply cwp_ret. by apply HQ.
  - apply cwp_bind. eapply wp_config; [done|]. apply cwp_bind. eapply wp_access_line; [done..|]. intros r s' Hs' _ _.
    rewrite Hwt. cbn [cwhen]. apply cwp_bind, cwp_ret, cwp_ret. by apply HQ.
Qed.

Lemma wp_access_lookup s Q :
  ok s -> (forall s', same s s' -> Q (operation_permits (state s mm y) (ac_op a), fst <$> line s mm y) s') ->
  wp (access_lookup topology junk traverse c k a) Q s.
Proof.
  intros Hs HQ. destruct Ha as [H1 _ _ _ _ _ Hb]. destruct (mc_plain _ _ _ _ _ _ Hm c k Hk) as (Hp & Hpt & _).
  unfold access_lookup. apply cwp_bind. eapply wp_permissible; [done|done|done|]. rewrite Hp, Hpt, Hb, !andb_false_r.
  apply cwp_bind, cwp_ret. apply cwp_bind, cwp_when; intros _; [|apply cwp_ret; by apply HQ, same_refl].
  eapply wp_quiet; [done|by eapply quiet_count_access|]. intros _ s1 H1'. pose proof (same_ok _ _ _ _ _ _ H1') as Ho1.
  apply cwp_bind. eapply (wp_getCacheState_block _ _ _ _ c k Hk _ s1 y); [done|by rewrite (sm_line _ _ _ _ _ _ H1')|].
  eapply wp_updateCounters; [done|done|done|done|done| |].
  - intros Hh. destruct (permits_line s mm y _ Hh) as (l & st & Hl & _). rewrite (sm_line _ _ _ _ _ _ H1') by done. rewrite Hl. by eexists.
  - intros s2 H2. apply cwp_ret, HQ. by eapply same_trans.
Qed.

Lemma quiet_wait_for_tag : quiet (wait_for_tag topology c a).
Proof.
  unfold wait_for_tag. apply quiet_bind; [by eapply quiet_getElapsedTime|]. intros t s Hs.
  apply cwp_bind. eapply wp_master; [done|done|]. intros M HM HMo. apply cwp_bind.
  assert (Hq : cm_ok (if ac_metadata a then m_l1_metadata_mshr M else m_l1_mshr M)) by (destruct (ac_metadata a); apply HMo).
  destruct (getTagCompletionTime_total y _ Hq) as [t' E]. eapply cwp_lift; [exact E|].
  eapply (quiet_when topology logb parent prevs); [|done]. intros _. solve_quiet.
Qed.

Lemma wp_access_hit s l st Q :
  inv s -> idle s -> line s mm y = Some (l, st) -> (forall x s', same s s' -> Q x s') ->
  wp (access_hit topology c k a (Some l)) Q s.
Proof.
  intros Hi Hid Hl HQ. pose proof (ao_aligned _ _ Ha) as Hy. pose proof (iv_ok _ _ _ _ _ Hi) as Hs. unfold access_hit.
  eapply wp_quiet; [done|by eapply quiet_incrElapsed_access|]. intros _ s1 H1. apply cwp_bind. eapply cwp_lift; [done|].
  assert (Hline : forall s', same s s' -> line s' mm y = Some (l, st)) by (intros s' H; by rewrite (sm_line _ _ _ _ _ _ H)).
  apply cwp_bind. eapply first_use_same; [done|done|by eapply same_ok|done|by apply Hline|]. intros ph s2 H2.
  pose proof (same_trans _ _ _ _ _ _ _ H1 H2) as H12. eapply wp_quiet; [by eapply same_ok|apply quiet_when; intros _; apply quiet_wait_for_tag|].
  intros _ s3 H3. pose proof (same_trans _ _ _ _ _ _ _ H12 H3) as H13. clear s1 H1 s2 H2 H12 H3. apply cwp_bind.
  eapply cwp_mono with (Q := fun _ s4 => same s s4).
  { apply cwp_when; intros _; [|done]. apply cwp_bind. eapply wp_wait_for_miss; [done|by eapply same_ok|done|by apply Hline|].
    intros b s4 H4. apply cwp_ret. by eapply same_trans. }
  intros _ s4 H4. apply cwp_bind. eapply cwp_mono with (Q := fun _ s5 => same s s5).
  { apply cwp_when; intros _; [|done]. eapply wp_use_block; [done|done|by eapply inv_same|by eapply same_idle|done|by apply Hline|].
    intros s5 H5. by eapply same_trans. }
  intros _ s5 H5. apply cwp_bind, wp_accessCache; [by eapply same_ok|]. intros d s6 H6. apply cwp_ret, HQ. by eapply same_trans.
Qed.

Lemma quiet_begin_access_miss : quiet (begin_access_miss topology c k a).
Proof.
  unfold begin_access_miss. apply quiet_bind; [solve_quiet|]. intros _. apply quiet_bind; [solve_quiet|]. intros t.
  apply quiet_bind; [|intros t'; rewrite (ao_lock _ _ Ha); apply quiet_bind; [by apply quiet_check|intros; apply quiet_ret]].
  apply quiet_if; intros _; [|apply quiet_ret]. intros s Hs. apply cwp_bind. eapply wp_master; [done|done|]. intros M HM HMo.
  assert (Hq : cm_ok (if ac_metadata a then m_l1_metadata_mshr M else m_l1_mshr M)) by (destruct (ac_metadata a); apply HMo).
  destruct (getStartTime_total t _ Hq) as (t' & E & Hle). apply cwp_bind. eapply cwp_lift; [exact E|].
  apply cwp_bind, cwp_check; [by apply Z.leb_le|]. revert s Hs HM. intros s Hs _.
  assert (Hqq : quiet (_ ← incrElapsed topology c (t' -64 t) _USER_THREAD;
    _ ← add_stat c (if ac_metadata a then Stat.metadata_mshr_latency else Stat.mshr_latency) (t' -64 t); mret t')) by solve_quiet.
  by apply Hqq.
Qed.

Lemma quiet_complete_l1_miss t1 t2 : quiet (complete_l1_miss topology c a t1 t2).
Proof.
  unfold complete_l1_miss. apply quiet_bind; [solve_quiet|]. intros t s Hs. apply cwp_bind. eapply wp_master; [done|done|]. intros M HM HMo.
  destruct (ac_metadata a).
  - destruct (getCompletionTime_total t1 (t -64 t2) y _ (mo_l1_metadata_mshr _ _ _ _ _ HMo)) as (r & q & E & Hq).
    apply cwp_bind. eapply cwp_lift; [exact E|]. eapply wp_put_mild; try done. intros []. by split.
  - destruct (getCompletionTime_total t1 (t -64 t2) y _ (mo_l1_mshr _ _ _ _ _ HMo)) as (r & q & E & Hq).
    apply cwp_bind. eapply cwp_lift; [exact E|]. eapply wp_put_mild; try done. intros []. by split.
Qed.

End steps.

(** There is nothing to prefetch. *)
Lemma run_prefetch_levels fuel c k t s (Q : unit -> Hierarchy P D -> Prop) :
  topology !! c = Some k -> (length topology - level (m_master k) <= fuel)%nat -> ok s -> (forall s', same s s' -> Q tt s') ->
  run (prefetch_levels topology junk traverse fuel c t) Q s.
Proof.
  revert c k s. induction fuel as [|fuel IH]; intros c k s Hk Hf Hs HQ; pose proof (mc_bound _ _ _ _ _ _ Hm c k Hk); [lia|].
  cbn [prefetch_levels]. apply run_bind, run_atomic, cwp_bind. eapply wp_config; [done|]. apply cwp_bind. eapply wp_master; [done|done|].
  intros M HM HMo. apply cwp_bind. eapply cwp_mono with (Q := fun x s1 => x = INVALID_ADDRESS /\ same s s1).
  { destruct (m_prefetch_next M <=? t); [|split; [done|by apply same_refl]]. rewrite (mo_prefetches _ _ _ _ _ HMo). cbn [length next_prefetch].
    apply cwp_bind. eapply wp_master; [done|done|]. intros M' HM' HMo'. rewrite (mo_prefetches _ _ _ _ _ HMo'). split; [done|by apply same_refl]. }
  intros x s1 [-> H1]. apply cwp_ret. cbn beta iota. rewrite Z.eqb_refl. apply run_bind, run_done.
  pose proof (mc_next _ _ _ _ _ _ Hm c k Hk) as Hn. destruct (m_next_cache_cntlr k) as [nx|]; [|by apply run_done, HQ].
  destruct Hn as (kn & Hkn & Hp). pose proof (mc_level _ _ _ _ _ _ Hm _ _ Hp). eapply IH; [done|lia|by eapply same_ok|].
  intros s2 H2. apply HQ. by eapply same_trans.
Qed.

(** *** One access *)

Section one.
Context (c cl : nat) (k kl : CntlrConfig) (Hst : stack c k cl kl) (y : Z) (Hy : aligned y).
Context (s0 : Hierarchy P D) (n : nat) (off : Z) (Hfree : free_lock s0 (m_master kl) y (cc_core_id k) n off).
Abbreviation here b := (during s0 b (m_master k) (m_master kl) y).
Abbreviation lock x := (SetLock.mkLock x off).

Lemma Hk : topology !! c = Some k.
Proof. apply Hst. Qed.
Lemma Hkl : topology !! cl = Some kl.
Proof. apply Hst. Qed.

Lemma here_lock b lk s M :
  here b lk s -> masters s !! m_master kl = Some M ->
  getSetLock y M = Ok (lock_index (mc_log_blocksize M) (mc_num_sets M) y) /\
  m_setlocks M !! lock_index (mc_log_blocksize M) (mc_num_sets M) y = Some lk.
Proof.
  intros [Hl _] HM. destruct Hfree as [(L & g & ns & E0 & EL) _]. specialize (Hl (m_master kl)).
  rewrite decide_True, E0 in Hl by done. unfold locks in Hl. rewrite HM in Hl. cbn in Hl. injection Hl as E1 E2 E3.
  assert (Hb : (lock_index g ns y < length L)%nat) by (by eapply lookup_lt_Some).
  assert (Hx : m_setlocks M !! lock_index g ns y = Some lk) by (rewrite E1; by apply list_lookup_insert_eq).
  rewrite E2, E3. split; [|done]. unfold getSetLock. rewrite E2, E3. fold (lock_index g ns y).
  rewrite (proj2 (Nat.ltb_lt _ _)); [done|]. by rewrite E1, length_insert.
Qed.

Lemma wp_last_level Q s : Q cl s -> wp (lastLevelCache topology c) Q s.
Proof. intros HQ. unfold wp. by rewrite (proj2 (proj2 Hst)). Qed.

Lemma set_lock_eq s b lk : ok s -> here b lk s -> set_lock topology c y s = Ok (lk, s).
Proof.
  intros Hs Hd. unfold set_lock, mbind, C_bind. rewrite (proj2 (proj2 Hst)). destruct (ok_masters _ _ _ _ _ Hs cl kl Hkl) as [M HM].
  unfold master. rewrite (proj2 (rd_Ok _ _ _) Hkl). cbn [mbind res_bind]. rewrite (proj2 (rd_Ok _ _ _) HM).
  destruct (here_lock b lk s M Hd HM) as [-> E2]. cbn [clift]. by rewrite (proj2 (rd_Ok _ _ _) E2).
Qed.
Lemma wp_set_lock Q s b lk : ok s -> here b lk s -> Q lk s -> wp (set_lock topology c y) Q s.
Proof. intros Hs Hd HQ. unfold wp. by rewrite (set_lock_eq s b lk Hs Hd). Qed.
Lemma lock_ready_eq s b lk p : ok s -> here b lk s -> lock_ready topology c y p s = p lk.
Proof. intros Hs Hd. unfold lock_ready. by rewrite (set_lock_eq s b lk Hs Hd). Qed.

Lemma wp_update_set_lock (Q : unit -> Hierarchy P D -> Prop) s b lk lk' f :
  ok s -> here b lk s -> f lk = Ok lk' -> (forall s', view_of s s' -> here b lk' s' -> Q tt s') ->
  wp (update_set_lock topology c y f) Q s.
Proof.
  intros Hs Hd Hf HQ. unfold update_set_lock. apply cwp_bind, wp_last_level, cwp_bind. eapply wp_master; [apply Hkl|done|]. intros M HM HMo.
  destruct (here_lock b lk s M Hd HM) as [E1 E2]. apply cwp_bind. eapply cwp_lift; [exact E1|].
  apply cwp_bind. eapply cwp_lift; [by apply rd_Ok|]. apply cwp_bind. eapply cwp_lift; [exact Hf|].
  apply cwp_bind. eapply cwp_lift; [apply wr_lt; by eapply lookup_lt_Some|]. eapply wp_put; [apply Hkl|done|].
  set (M' := with_setlocks _ _). apply HQ.
  - split.
    + eapply put_ok; [done|done|]. destruct HMo. by split.
    + intros m. erewrite put_evicting by done. case_decide as E; [|done]. subst m. unfold evicting. by rewrite HM.
    + intros m y' _. erewrite put_line by done. case_decide as E; [|done]. subst m. unfold line. by rewrite HM.
  - destruct Hd as [Hl Hb]. split; intros m.
    + erewrite put_locks by done. case_decide as E; [|specialize (Hl m); by rewrite decide_False in Hl]. subst m.
      specialize (Hl (m_master kl)). rewrite decide_True in Hl by done. unfold locks in Hl at 1. rewrite HM in Hl.
      destruct (locks s0 (m_master kl)) as [[[L g] ns]|]; [|done]. cbn in Hl |- *. injection Hl as -> -> ->. by rewrite list_insert_insert_eq.
    + erewrite put_busy by done. case_decide as E; [|apply Hb]. rewrite <- Hb. subst m. unfold busy. by rewrite HM.
Qed.

(** Between two states of an access: the lines are the same, the lock is another. *)
Abbreviation moved b lk s s' := (inv s' /\ idle s' /\ here b lk s' /\ forall m y', aligned y' -> line s' m y' = line s m y').

Lemma view_idle s s' : view_of s s' -> idle s -> idle s'.
Proof. intros H Hi m. by rewrite (vo_evicting _ _ H). Qed.

Lemma wp_relock (Q : unit -> Hierarchy P D -> Prop) s b lk lk' f :
  inv s -> idle s -> here b lk s -> f lk = Ok lk' -> (forall s', moved b lk' s s' -> Q tt s') ->
  wp (update_set_lock topology c y f) Q s.
Proof.
  intros Hi Hid Hd Hf HQ. eapply wp_update_set_lock; [by eapply iv_ok|done|done|]. intros s' Hv Hd'. apply HQ.
  split_and!; [by eapply inv_view|by eapply view_idle|done|apply Hv].
Qed.

Lemma wp_isFirstLevel Q s : ok s -> prevs (m_master k) = [] -> Q true s -> wp (isFirstLevel topology c) Q s.
Proof.
  intros Hs Hp HQ. unfold isFirstLevel. apply cwp_bind. eapply wp_master; [apply Hk|done|]. intros M HM HMo.
  rewrite (mo_prev _ _ _ _ _ HMo), Hp. by apply cwp_ret.
Qed.

Abbreviation j := (Z.to_nat (cc_core_id k - off)).

Lemma run_acquireLock (Q : unit -> Hierarchy P D -> Prop) s b :
  prevs (m_master k) = [] -> inv s -> idle s -> here b (lock (replicate n false)) s ->
  (forall s', moved b (lock (one_held n j)) s s' -> Q tt s') -> run (acquireLock topology c y) Q s.
Proof.
  intros Hp Hi Hid Hd HQ. unfold acquireLock. pose proof (iv_ok _ _ _ _ _ Hi) as Ho. pose proof (fk_core _ _ _ _ _ _ Hfree) as Hc.
  apply run_bind, run_atomic, cwp_bind, wp_isFirstLevel; [done|done|]. apply cwp_bind, cwp_check; [done|]. eapply wp_config; [apply Hk|].
  apply run_wait.
  - erewrite lock_ready_eq by done. unfold SetLock.shared_free, SetLock.free_at. cbn. by rewrite lookup_replicate_2 by lia.
  - eapply wp_relock; [done|done|done|by apply acquire_one|done].
Qed.

Lemma wp_releaseLock (Q : unit -> Hierarchy P D -> Prop) s b :
  prevs (m_master k) = [] -> inv s -> idle s -> here b (lock (one_held n j)) s ->
  (forall s', moved b (lock (replicate n false)) s s' -> Q tt s') -> wp (releaseLock topology c y) Q s.
Proof.
  intros Hp Hi Hid Hd HQ. unfold releaseLock. pose proof (iv_ok _ _ _ _ _ Hi) as Ho. pose proof (fk_core _ _ _ _ _ _ Hfree) as Hc.
  apply cwp_bind, wp_isFirstLevel; [done|done|]. apply cwp_bind, cwp_check; [done|]. apply cwp_bind. eapply wp_config; [apply Hk|].
  eapply wp_relock; [done|done|done|by apply release_one|done].
Qed.

(** The upgrade to all mutexes, and the downgrade back to one. *)
Lemma run_acquireStackLock (Q : unit -> Hierarchy P D -> Prop) s b :
  inv s -> idle s -> here b (lock (one_held n j)) s ->
  (forall s', moved b (lock (replicate n true)) s s' -> Q tt s') -> run (acquireStackLock topology c y true) Q s.
Proof.
  intros Hi Hid Hd HQ. unfold acquireStackLock. pose proof (iv_ok _ _ _ _ _ Hi) as Ho. pose proof (fk_core _ _ _ _ _ _ Hfree) as Hc.
  apply run_bind, run_atomic, cwp_bind, cwp_bind. eapply wp_config; [apply Hk|].
  eapply wp_relock; [done|done|done|by apply release_one|]. intros s1 (Hi1 & Hid1 & Hd1 & L1).
  eapply wp_set_lock; [by eapply iv_ok|done|]. unfold SetLock.mutexes. cbn [SetLock.m_locks]. rewrite length_replicate.
  apply (run_for (fun l s2 => exists t, (t <= n)%nat /\ l = seq t (n - t) /\ moved b (lock (first_held n t)) s s2)).
  - exists 0%nat. rewrite Nat.sub_0_r, first_held_0. split_and!; try done. lia.
  - intros x l s2 (t & Ht & El & Hi2 & Hid2 & Hd2 & L2). assert (Hlt : (t < n)%nat) by (destruct (n - t)%nat eqn:E; [discriminate El|lia]).
    replace (n - t)%nat with (S (n - S t)) in El by lia. injection El as -> ->. apply run_wait.
    + erewrite lock_ready_eq; [|by eapply iv_ok|done]. unfold SetLock.free_at. cbn. by rewrite first_held_free.
    + eapply wp_relock; [done|done|done| |].
      { unfold SetLock.acquire_at. cbn. rewrite wr_lt by (unfold first_held; rewrite length_app, !length_replicate; lia).
        cbn. by rewrite first_held_next. }
      intros s3 (Hi3 & Hid3 & Hd3 & L3). exists (S t). split_and!; try done. intros m y' Hy'. by rewrite L3, L2.
  - intros s2 (t & Ht & El & Hs2). assert (t = n) as -> by (destruct (n - t)%nat eqn:E; [lia|discriminate El]).
    rewrite first_held_all in Hs2. by apply HQ.
Qed.

Lemma wp_releaseStackLock (Q : unit -> Hierarchy P D -> Prop) s b :
  inv s -> idle s -> here b (lock (replicate n true)) s ->
  (forall s', moved b (lock (one_held n j)) s s' -> Q tt s') -> wp (releaseStackLock topology c y true) Q s.
Proof.
  intros Hi Hid Hd HQ. unfold releaseStackLock. pose proof (fk_core _ _ _ _ _ _ Hfree) as Hc.
  apply cwp_bind. eapply wp_config; [apply Hk|]. eapply wp_relock; [done|done|done|by apply downgrade_all|done].
Qed.

(** The lock of the first level. *)
Lemma wp_smt_lock (Q : unit -> Hierarchy P D -> Prop) s b b' lk :
  inv s -> idle s -> here b lk s -> (forall s', moved b' lk s s' -> Q tt s') -> wp (update_master topology c (with_smt_lock b')) Q s.
Proof.
  intros Hi Hid Hd HQ. pose proof (iv_ok _ _ _ _ _ Hi) as Ho. unfold update_master. apply cwp_bind. eapply wp_master; [apply Hk|done|]. intros M HM HMo.
  eapply wp_put; [apply Hk|done|]. set (M' := with_smt_lock b' M). assert (Hv : view_of s (put k s M')).
  { split.
    - eapply put_ok; [done|done|]. destruct HMo. by split.
    - intros m. erewrite put_evicting by done. case_decide as E; [|done]. subst m. unfold evicting. by rewrite HM.
    - intros m y' _. erewrite put_line by done. case_decide as E; [|done]. subst m. unfold line. by rewrite HM. }
  apply HQ. split_and!; [by eapply inv_view|by eapply view_idle| |apply Hv]. destruct Hd as [Hl Hb]. split; intros m.
  - rewrite <- Hl. erewrite put_locks by done. case_decide as E; [|done]. subst m. unfold locks. by rewrite HM.
  - erewrite put_busy by done. case_decide; [done|]. by rewrite Hb, decide_False.
Qed.

Lemma smt_free_eq s b lk : ok s -> here b lk s -> smt_free topology c s = negb b.
Proof.
  intros Ho [_ Hb]. specialize (Hb (m_master k)). rewrite decide_True in Hb by done. unfold busy in Hb.
  destruct (ok_masters _ _ _ _ _ Ho c k Hk) as [M HM]. rewrite HM in Hb. injection Hb as <-.
  unfold smt_free, master. rewrite (proj2 (rd_Ok _ _ _) Hk). cbn [mbind res_bind]. by rewrite (proj2 (rd_Ok _ _ _) HM).
Qed.

Lemma here_start : busy s0 (m_master k) = Some false -> here false (lock (replicate n false)) s0.
Proof.
  intros Hb. destruct Hfree as [(L & g & ns & E & EL) _]. split; intros m; case_decide as Em; try done; subst m; [|done].
  rewrite E. cbn. by rewrite list_insert_id.
Qed.
Lemma here_end s :
  busy s0 (m_master k) = Some false -> here false (lock (replicate n false)) s ->
  (forall m, locks s m = locks s0 m) /\ (forall m, busy s m = busy s0 m).
Proof.
  intros Hb [Hl Hbs]. destruct Hfree as [(L & g & ns & E & EL) _]. split; intros m.
  - rewrite Hl. case_decide as Em; [|done]. subst m. rewrite E. cbn. by rewrite list_insert_id.
  - rewrite Hbs. case_decide as Em; [by subst m|done].
Qed.

(** ** The parts of an access of the first level *)

Context (Hfirst : prevs (m_master k) = []).
Context (a : Access) (Ha : access_ok k a) (Hay : ac_address a = y).
Abbreviation mm := (m_master k).
Abbreviation quiet := (quiet (P := P) (D := D) topology logb parent prevs).
Abbreviation permitted s := (operation_permits (state s mm y) (ac_op a) = true).

Lemma no_child x : parent x <> Some mm.
Proof. intros Hx. destruct (mc_children _ _ _ _ _ _ Hm _ _ Hx) as (p & kp & Hp & _). rewrite Hfirst in Hp. by apply not_elem_of_nil in Hp. Qed.
Lemma under_first z : under parent mm z -> z = mm.
Proof. intros H. destruct (under_inv _ _ _ H) as [|(x & Hx & _)]; [done|]. by apply no_child in Hx. Qed.

Lemma wp_drop_and_request `{!AlwaysVictim P} nx kn t s Q :
  (forall b p si q, victim_ready b p (mkEnv si (Some q))) ->
  m_next_cache_cntlr k = Some nx -> topology !! nx = Some kn -> parent mm = Some (m_master kn) ->
  inv s -> idle s -> operation_permits (state s mm y) (ac_op a) = false ->
  (forall w s', inv s' -> kept s s' -> operation_permits (state s' (m_master kn) y) (ac_op a) = true -> line s' mm y = None ->
     w <> HitWhere.MISS -> Q w s') ->
  wp (drop_and_request topology junk traverse c k a t) Q s.
Proof.
  intros Hready Hn Hkn Hp Hi Hid Hperm HQ. pose proof (iv_ok _ _ _ _ _ Hi) as Ho. unfold drop_and_request. rewrite Hay.
  apply cwp_bind. eapply wp_getCacheState; [apply Hk|done|done|]. apply cwp_bind.
  eapply cwp_mono with (Q := fun _ s1 => inv s1 /\ kept s s1 /\ line s1 mm y = None).
  { unfold state in *. destruct (line s mm y) as [[l st]|] eqn:El; cbn in *.
    2: { apply cwp_when; intros E; [by rewrite bool_decide_eq_true_2 in E|]. done. }
    assert (st = SHARED) as -> by (destruct (iv_state _ _ _ _ _ Hi _ _ _ _ Hy El) as [->| ->]; [done|by destruct (ac_op a)]).
    apply cwp_when; intros E; [clear E|by rewrite bool_decide_eq_false_2 in E]. eapply wp_invalidateCacheBlock; [done|apply Hk|done|done|exact El|]. intros s1 H1 _.
    split_and!; [|apply H1|apply H1]. eapply inv_set_line; [exact Hm|exact Hi|done|exact H1|done|..]; try done.
    all: intros x Hx; by apply no_child in Hx. }
  intros _ s1 (Hi1 & K1 & Hl1). pose proof (kept_idle _ _ _ _ _ _ K1 Hid) as Hid1. apply cwp_bind. eapply cwp_lift; [by rewrite Hn|].
  unfold request_next. eapply (wp_request _ _ _ _ _ _ _ Hm Hready _ nx kn c k); try done; [apply Hk|lia|..].
  - cbn [rq_address access_request]. by rewrite Hay.
  - intros z Hz. apply under_first in Hz as ->. cbn [rq_address access_request]. by rewrite Hay.
  - intros w s2 (Hi2 & K2 & Hp2 & Ha2) Hw. cbn [rq_address rq_op access_request] in *. rewrite Hay in *.
    apply HQ; try done; [by eapply kept_kept|]. apply Ha2, under_refl.
Qed.

Lemma wp_fill_and_access `{!AlwaysVictim P} nx kn w t1 t2 s b Q :
  (forall b p si q, victim_ready b p (mkEnv si (Some q))) ->
  m_next_cache_cntlr k = Some nx -> topology !! nx = Some kn ->
  inv s -> idle s -> here b (lock (replicate n true)) s -> line s mm y = None ->
  operation_permits (state s (m_master kn) y) (ac_op a) = true ->
  (forall d s', inv s' -> idle s' -> here b (lock (one_held n j)) s' -> permitted s' -> Q d s') ->
  wp (fill_and_access topology junk c k a w t1 t2) Q s.
Proof.
  intros Hready Hn Hkn Hi Hid Hd Hl Hperm HQ. pose proof (iv_ok _ _ _ _ _ Hi) as Ho.
  pose proof (mc_plain _ _ _ _ _ _ Hm c k Hk) as (_ & _ & _ & Hwt & _). unfold fill_and_access. rewrite Hay.
  eapply wp_quiet; [done|eapply quiet_getElapsedTime; apply Hk|]. intros t s1 H1. rewrite (ao_kept _ _ Ha).
  apply cwp_bind. eapply (wp_copyDataFromNextLevel _ _ _ _ _ _ _ Hm Hready c k nx kn); try done.
  { apply Hk. } { by eapply inv_same. } { by eapply same_idle. } { by rewrite (sm_line _ _ _ _ _ _ H1). } { by rewrite (same_state topology logb parent prevs s). }
  rewrite (same_state topology logb parent prevs s) by done. intros l s2 Hi2 K2 Hl2 _. set (st := state s (m_master kn) y) in *.
  pose proof (same_idle _ _ _ _ _ _ H1 Hid) as Hid1. pose proof (kept_idle _ _ _ _ _ _ K2 Hid1) as Hid2.
  assert (Hd2 : here b (lock (replicate n true)) s2) by (eapply during_kept; [eapply during_kept; [exact Hd|apply H1]|exact K2]).
  apply cwp_bind. eapply wp_getCacheBlockInfo; [apply Hk|by eapply iv_ok|done|]. rewrite Hl2. cbn [fmap option_fmap option_map fst].
  apply cwp_bind. unfold lock_all. rewrite Hwt. cbn [andb negb cwhen].
  eapply wp_releaseStackLock; [exact Hi2|exact Hid2|exact Hd2|]. intros s3 (Hi3 & Hid3 & Hd3 & L3). pose proof (iv_ok _ _ _ _ _ Hi3) as Ho3.
  assert (Hl3 : line s3 mm y = Some (l, st)) by (by rewrite L3). assert (Hst3 : state s3 mm y = st) by (unfold state; by rewrite Hl3).
  apply cwp_bind. eapply wp_permissible; [apply Hk|done|done|]. rewrite Hst3, Hperm. apply cwp_bind, cwp_check; [done|].
  eapply wp_quiet; [done|apply quiet_when; intros _; eapply quiet_complete_l1_miss; [apply Hk]|]. intros _ s4 H4.
  assert (Hline : forall s', same s3 s' -> line s' mm y = Some (l, st)) by (intros s' H; by rewrite (sm_line _ _ _ _ _ _ H)).
  apply cwp_bind. eapply cwp_mono with (Q := fun _ s5 => same s3 s5).
  { apply cwp_when; intros _; [|done]. apply cwp_bind. eapply cwp_lift; [done|].
    eapply wp_use_block; [done|apply Hk|by eapply inv_same|by eapply same_idle|done|by apply Hline|]. intros s5 H5. by eapply same_trans. }
  intros _ s5 H5. rewrite <- Hay. eapply wp_accessCache; [apply Hk|done|by eapply same_ok|]. intros d s6 H6.
  pose proof (same_trans _ _ _ _ _ _ _ H5 H6) as H56.
  apply HQ; [by eapply inv_same|by eapply same_idle|eapply during_kept; [exact Hd3|apply H56]|].
  unfold state. by rewrite (Hline s6 H56).
Qed.

Lemma wp_finish_access t hit ph w s b (Q : unit -> Hierarchy P D -> Prop) :
  inv s -> idle s -> here b (lock (one_held n j)) s ->
  (forall s', moved b (lock (replicate n false)) s s' -> Q tt s') -> wp (finish_access topology c k a t hit ph w) Q s.
Proof.
  intros Hi Hid Hd HQ. pose proof (iv_ok _ _ _ _ _ Hi) as Ho.
  pose proof (mc_plain _ _ _ _ _ _ Hm c k Hk) as (_ & _ & _ & Hwt & _). unfold finish_access. rewrite Hay. pose proof Hk as Hk'.
  eapply wp_quiet; [done|solve_quiet|]. intros t' s1 H1. eapply wp_quiet; [by eapply same_ok|solve_quiet|]. intros _ s2 H2.
  pose proof (same_trans _ _ _ _ _ _ _ H1 H2) as H12. clear s1 H1 H2. apply cwp_bind. rewrite (ao_lock _ _ Ha). cbn [bool_decide].
  unfold lock_all. rewrite Hwt. cbn [andb]. rewrite bool_decide_eq_false_2 by done. cbn [negb cwhen].
  eapply wp_releaseLock; [done|by eapply inv_same|by eapply same_idle|eapply during_kept; [exact Hd|apply H12]|].
  intros s3 (Hi3 & Hid3 & Hd3 & L3). pose proof (iv_ok _ _ _ _ _ Hi3) as Ho3.
  eapply wp_quiet; [done|solve_quiet|]. intros _ s4 H4. apply cwp_bind. eapply wp_master; [apply Hk|by eapply same_ok|]. intros M HM HMo.
  rewrite (mo_prefetcher _ _ _ _ _ HMo). rewrite (bool_decide_eq_false_2 (is_Some None)) by (by intros []). rewrite andb_false_r.
  apply HQ. split_and!; [by eapply inv_same|by eapply same_idle|eapply during_kept; [exact Hd3|apply H4]|].
  intros m y' Hy'. rewrite (sm_line _ _ _ _ _ _ H4), L3 by done. by apply H12.
Qed.

Lemma run_access_miss `{!AlwaysVictim P} nx kn t s Q :
  (forall b p si q, victim_ready b p (mkEnv si (Some q))) ->
  m_next_cache_cntlr k = Some nx -> topology !! nx = Some kn -> parent mm = Some (m_master kn) ->
  inv s -> idle s -> here true (lock (one_held n j)) s -> operation_permits (state s mm y) (ac_op a) = false ->
  (forall w d s', inv s' -> idle s' -> here true (lock (one_held n j)) s' -> permitted s' -> w <> HitWhere.MISS -> Q (w, d) s') ->
  run (access_miss topology junk traverse c k a t) Q s.
Proof.
  intros Hready Hn Hkn Hp Hi Hid Hd Hperm HQ. pose proof Hk as Hk'. pose proof (iv_ok _ _ _ _ _ Hi) as Ho.
  pose proof (mc_plain _ _ _ _ _ _ Hm c k Hk) as (_ & _ & _ & Hwt & _). unfold access_miss, lock_all. rewrite Hwt. cbn [andb negb twhen].
  apply run_bind, run_atomic. eapply cwp_mono; [by eapply quiet_begin_access_miss|]. intros [t1 t2] s1 H1. cbn beta iota.
  apply run_bind. rewrite Hay. eapply run_acquireStackLock; [by eapply inv_same|by eapply same_idle|eapply during_kept; [exact Hd|apply H1]|].
  intros s2 (Hi2 & Hid2 & Hd2 & L2). assert (Hs2 : state s2 mm y = state s mm y).
  { unfold state. by rewrite L2, (sm_line _ _ _ _ _ _ H1). }
  apply run_bind, run_atomic, cwp_bind. eapply (wp_drop_and_request nx kn); try done; [by rewrite Hs2|].
  intros w s3 Hi3 K3 Hp3 Hl3 Hw. rewrite bool_decide_eq_false_2 by done. cbn [cwhen]. apply cwp_bind, cwp_ret, cwp_ret.
  rewrite bool_decide_eq_false_2 by done. apply run_bind, run_done, run_bind, run_atomic.
  eapply (wp_fill_and_access nx kn); try done; [by eapply kept_idle|by eapply during_kept|].
  intros d s4 Hi4 Hid4 Hd4 Hp4. apply run_done. by apply HQ.
Qed.

Lemma where_own_hit comp : where_own comp <> HitWhere.MISS.
Proof. by destruct comp. Qed.

(** The access completes: the first level has a copy that permits it, the levels stay
    inclusive, and the locks are as before. *)
Lemma run_access `{!AlwaysVictim P} nx kn Q :
  (forall b p si q, victim_ready b p (mkEnv si (Some q))) ->
  m_next_cache_cntlr k = Some nx -> topology !! nx = Some kn -> parent mm = Some (m_master kn) ->
  inv s0 -> idle s0 -> busy s0 mm = Some false ->
  (forall w d s', inv s' -> idle s' -> (forall m, locks s' m = locks s0 m) -> (forall m, busy s' m = busy s0 m) ->
     permitted s' -> w <> HitWhere.MISS -> (permitted s0 -> w = where_own (m_mem_component k)) -> Q (w, d) s') ->
  run (processMemOpFromCore topology junk traverse c a) Q s0.
Proof.
  intros Hready Hn Hkn Hp Hi Hid Hbusy HQ. pose proof Hk as Hk'. pose proof (iv_ok _ _ _ _ _ Hi) as Ho.
  pose proof (mc_plain _ _ _ _ _ _ Hm c k Hk) as (_ & _ & _ & Hwt & _ & Hbs). unfold processMemOpFromCore.
  pose proof (here_start Hbusy) as Hd. apply run_bind, run_wait; [by rewrite (smt_free_eq s0 false _ Ho Hd)|].
  eapply wp_smt_lock; [done|done|done|]. intros s1 (Hi1 & Hid1 & Hd1 & L1).
  apply run_bind, run_atomic, cwp_bind. eapply wp_config; [done|]. rewrite Hay, Hbs.
  apply cwp_bind, cwp_check; [by apply aligned_check|]. apply cwp_bind, cwp_check; [by eapply length_check|]. apply cwp_ret. rewrite (ao_lock _ _ Ha). rewrite (bool_decide_eq_false_2 (Core.NONE = Core.UNLOCK)) by done. cbn [negb twhen].
  unfold lock_all. rewrite Hwt. cbn [andb]. apply run_bind. eapply run_acquireLock; [done|done|done|exact Hd1|].
  intros s2 (Hi2 & Hid2 & Hd2 & L2). pose proof (iv_ok _ _ _ _ _ Hi2) as Ho2.
  assert (Hst2 : line s2 mm y = line s0 mm y) by (by rewrite L2, L1).
  apply run_bind, run_atomic. eapply wp_quiet; [done|solve_quiet|]. intros t s3 H3. apply cwp_bind.
  eapply wp_access_lookup; [done|done|by eapply same_ok|]. intros s4 H4. apply cwp_ret. cbn beta iota.
  pose proof (same_trans _ _ _ _ _ _ _ H3 H4) as H34. assert (Hst3 : line s3 mm y = line s0 mm y) by (by rewrite (sm_line _ _ _ _ _ _ H3)).
  assert (Hst4 : line s4 mm y = line s0 mm y) by (by rewrite (sm_line _ _ _ _ _ _ H34)).
  pose proof (inv_same _ _ _ _ _ _ H34 Hi2) as Hi4. pose proof (same_idle _ _ _ _ _ _ H34 Hid2) as Hid4.
  assert (Hd4 : here true (lock (one_held n j)) s4) by (eapply during_kept; [exact Hd2|apply H34]).
  assert (Hs3 : state s3 mm y = state s0 mm y) by (unfold state; by rewrite Hst3). rewrite Hay, Hs3, Hst3. clear Hs3.
  apply run_bind. eapply run_mono with (Q := fun x s5 => inv s5 /\ idle s5 /\ here true (lock (one_held n j)) s5 /\ permitted s5 /\
    x.1.1 <> HitWhere.MISS /\ (permitted s0 -> x.1.1 = where_own (m_mem_component k))).
  { destruct (operation_permits (state s0 mm y) (ac_op a)) eqn:Hperm.
    - destruct (permits_line _ _ _ _ Hperm) as (l & st & Hl & Hop). rewrite Hl. cbn [fmap option_fmap option_map fst].
      apply run_bind, run_atomic. eapply (wp_access_hit c k Hk' a Ha s4 l st); [done|done|by rewrite Hay, Hst4|].
      intros [d ph] s5 H5. apply run_done. split_and!; [by eapply inv_same|by eapply same_idle|eapply during_kept; [exact Hd4|apply H5]| |apply where_own_hit|done].
      unfold state. by rewrite (sm_line _ _ _ _ _ _ H5), Hst4, Hl.
    - apply run_bind. eapply (run_access_miss nx kn); [done..|exact Hd4|unfold state; by rewrite Hst4|].
      intros w d s5 Hi5 Hid5 Hd5 Hp5 Hw. apply run_done. split_and!; done. }
  intros [[w d] ph] s5 (Hi5 & Hid5 & Hd5 & Hp5 & Hw & Hwo). cbn [fst] in *. apply run_bind, run_atomic.
  eapply wp_finish_access; [done|done|exact Hd5|]. intros s6 (Hi6 & Hid6 & Hd6 & L6). pose proof (iv_ok _ _ _ _ _ Hi6) as Ho6.
  apply run_bind. eapply run_mono with (Q := fun _ s7 => same s6 s7).
  { apply run_when; intros _; [|by apply same_refl]. eapply run_prefetch_levels; [done|lia|done|done]. }
  intros _ s7 H7. apply run_bind, run_atomic.
  eapply wp_smt_lock; [by eapply inv_same|by eapply same_idle|eapply during_kept; [exact Hd6|apply H7]|].
  intros s8 (Hi8 & Hid8 & Hd8 & L8). apply run_done. destruct (here_end s8 Hbusy Hd8). apply HQ; try done.
  unfold state. by rewrite L8, (sm_line _ _ _ _ _ _ H7), L6.
Qed.

End one.

End access.
