(* ===== verification/DramProps.v ===== *)
(** * Correctness of the DRAM controllers

    The breakdown of a request accounts for all of its time, the controller returns what was
    last written, and the DRAM cache serves no request. *)

From stdpp Require Import base tactics list numbers gmap strings finite.
From Stdlib Require Import ZArith Lia.
From S2P Require Import Prelude Utils CacheBase CacheBlock CacheSet Replacement Cache CacheLines Timing Contention Directory DirCntlr Prefetch CntlrState CntlrView Dram.
Local Open Scope Z_scope.
Local Open Scope mach_scope.

(** ** The breakdown *)

Section breakdown.
Import ShmemPerf.

Definition total (p : t) : Z := foldr Z.add 0 (m_times p <$> enum shmem_times_type_t).

(** The updates of a request. *)
Inductive update := Until (time : Z) (reason : shmem_times_type_t) | Packet (time queue_delay : Z).
Definition apply_update (p : t) (u : update) : t :=
  match u with Until time r => ShmemPerf.updateTime time r p | Packet time d => updatePacket time d p end.

Lemma sum_ext (f g : shmem_times_type_t -> Z) l : (forall r, r ∈ l -> f r = g r) -> foldr Z.add 0 (f <$> l) = foldr Z.add 0 (g <$> l).
Proof.
  induction l as [|x l IH]; intros H; [done|]. cbn. rewrite (H x) by left. rewrite IH; [done|]. intros r Hr. apply H. by right.
Qed.
Lemma sum_add_to r d f l :
  NoDup l -> r ∈ l -> u64 (foldr Z.add 0 (add_to r d f <$> l)) = u64 (foldr Z.add 0 (f <$> l) + d).
Proof.
  induction l as [|x l IH]; intros Hd Hr; [by apply not_elem_of_nil in Hr|]. apply NoDup_cons in Hd as [Hx Hd].
  cbn. unfold add_to at 1. case_decide as E.
  - subst x. rewrite (sum_ext (add_to r d f) f).
    + unfold u64, wrap. rewrite Z.add_mod_idemp_l by lia. f_equal. lia.
    + intros r' Hr'. unfold add_to. rewrite decide_False; [done|]. intros ->. done.
  - apply elem_of_cons in Hr as [Hr|Hr]; [done|]. specialize (IH Hd Hr). unfold u64, wrap in *.
    rewrite Z.add_mod, IH, <- Z.add_mod by lia. f_equal. lia.
Qed.
Lemma total_add_to r d c b t0 f : u64 (total (mkPerf c b t0 (add_to r d f))) = u64 (total (mkPerf c b t0 f) + d).
Proof. apply (sum_add_to r d f); [apply NoDup_enum|apply elem_of_enum]. Qed.

(** All time since the beginning is in one of the components. *)
Definition accounted (p : t) : Prop := u64 (total p) = m_time_last p -64 m_time_begin p.

Lemma u64_shift x y z : u64 x = u64 y -> u64 (x + z) = u64 (y + z).
Proof. unfold u64, wrap. intros H. by rewrite <- Z.add_mod_idemp_l, H, Z.add_mod_idemp_l. Qed.
Lemma u64_inner x y : u64 (x + u64 y) = u64 (x + y).
Proof. unfold u64, wrap. by rewrite Z.add_mod_idemp_r. Qed.
Lemma u64_inner_sub x y : u64 (u64 x - y) = u64 (x - y).
Proof. unfold u64, wrap. by rewrite Zminus_mod_idemp_l. Qed.

Lemma updateTime_accounted time r p : accounted p -> accounted (ShmemPerf.updateTime time r p).
Proof.
  unfold accounted, ShmemPerf.updateTime. destruct (_ <? time); [|done]. intros H. rewrite total_add_to.
  cbn [m_time_last m_time_begin]. change (total (mkPerf _ _ _ (m_times p))) with (total p).
  rewrite u64_inner, (u64_shift _ _ _ H). f_equal. lia.
Qed.
Lemma updatePacket_accounted time d p : accounted p -> accounted (updatePacket time d p).
Proof.
  unfold updatePacket. destruct (_ <? time); [|done]. intros H. apply updateTime_accounted. unfold accounted in *.
  rewrite total_add_to. cbn [m_time_last m_time_begin]. change (total (mkPerf _ _ _ (m_times p))) with (total p).
  rewrite u64_inner_sub, (u64_shift _ _ _ H). f_equal. lia.
Qed.

(** C40: Along any sequence of updates of a request, by time or by network packets, the components
    of its breakdown add up to the time from its begin to the last update, in 64 bits. *)
Theorem breakdown_accounts p0 begin core l :
  accounted (foldl apply_update (reset begin core p0) l).
Proof.
  assert (H : forall p, accounted p -> accounted (foldl apply_update p l)).
  { induction l as [|u l IH]; intros p Hp; [done|]. cbn. apply IH. destruct u; cbn; [by apply updateTime_accounted|by apply updatePacket_accounted]. }
  apply H. unfold accounted. cbn. unfold u64, wrap. by rewrite Z.sub_diag.
Qed.

(** The names of two components are exchanged. *)
Example queue_and_bus_exchanged :
  ShmemReasonString NUCA_QUEUE = Ok "nuca-bus"%string /\ ShmemReasonString NUCA_BUS = Ok "nuca-queue"%string.
Proof. by split. Qed.

End breakdown.

(** ** Faults *)

Section faults.
Import Faults.

(** The injectors of the DRAM are not active. *)
Definition inactive (f : FaultInjector) : Prop := match f with Plain _ _ => True | Random _ _ active _ => active = false end.
Lemma dram_inactive core m : inactive (getFaultInjector core MemComponent.DRAM m).
Proof. unfold getFaultInjector. by destruct (m_injector m). Qed.
Lemma preRead_inactive n buf f : inactive f -> preRead n buf f = Ok (buf, f).
Proof. destruct f; cbn; [done|]. by intros ->. Qed.

(** The random injector takes a number below the size in bytes as the number of a bit: it only
    changes the first eighth of a block. *)
Lemma random_flips_first_bytes core comp active rng n buf buf' f i :
  0 < n < 2 ^ 32 -> preRead n buf (Random core comp active rng) = Ok (buf', f) -> n / 8 < Z.of_nat i -> buf' !! i = buf !! i.
Proof.
  intros Hn H Hi. unfold preRead in H. destruct active; [|injection H as <- _; reflexivity].
  destruct (rng_next rng) as [rng1 x]. destruct (x mod _ =? 0); [|injection H as <- _; reflexivity].
  pose proof (rng_next_range rng1) as Hx. destruct (rng_next rng1) as [rng2 x2]. cbn [snd] in Hx. unfold umod in H.
  rewrite (proj2 (Z.eqb_neq n 0)) in H by lia. cbn [check negb mbind res_bind] in H.
  destruct (rd buf _) as [b|]; [|discriminate H]. cbn [mbind res_bind] in H. unfold wr in H.
  case_decide; [|discriminate H]. cbn [mbind res_bind] in H. injection H as <- _.
  apply list_lookup_insert_ne. pose proof (Z.mod_pos_bound x2 n ltac:(lia)).
  assert (x2 mod n / 8 <= n / 8) by (apply Z.div_le_mono; lia). pose proof (Z.div_pos (x2 mod n) 8). lia.
Qed.

End faults.

(** ** Latency models that return *)

Class QueueLaws (Q : Type) `{!QueueModel Q} := {
  queue_ok : Q -> Prop;
  queue_total : forall q t d, queue_ok q -> exists x q', computeQueueDelay t d q = Ok (x, q') /\ queue_ok q'
}.
#[global] Program Instance contention_queue_laws : QueueLaws ContentionModel := {| queue_ok := cm_ok |}.
Next Obligation.
  intros q t d Hq. unfold computeQueueDelay, contention_queue, contention_computeQueueDelay.
  destruct (getCompletionTime_total t d 0 q Hq) as (r & q' & -> & Hq'). cbn. eauto.
Qed.

Class DramPerfLaws (M : Type) `{!DramPerfModel M} := {
  model_ok : M -> Prop;
  model_total : forall m t size requester address access p metadata, model_ok m ->
    exists lat p' m', getAccessLatency t size requester address access (Some p) metadata m = Ok (lat, Some p', m') /\ model_ok m'
}.

Section model_laws.
Context {Q : Type} `{!QueueModel Q} `{!QueueLaws Q}.

Lemma queue_delay_total q t d :
  (forall x, q = Some x -> queue_ok x) -> exists n q', queue_delay q t d = Ok (n, q') /\ (forall x, q' = Some x -> queue_ok x).
Proof.
  intros Hq. destruct q as [q|]; cbn; [|eauto]. destruct (queue_total q t d (Hq q eq_refl)) as (n & q' & -> & Hq').
  cbn. do 2 eexists. split; [done|]. by intros ? [= <-].
Qed.
Lemma break_down_total p t a b c : exists p', break_down (Some p) t a b c = Ok (Some p').
Proof. by eexists. Qed.
Lemma rounded_total bw bits : bw <> 0 -> exists n, bw_getRoundedLatency bw bits = Ok n.
Proof. intros H. unfold bw_getRoundedLatency, udiv. rewrite (proj2 (Z.eqb_neq _ _)) by done. by eexists. Qed.

#[global] Program Instance constant_laws : DramPerfLaws (DramPerfModelConstant Q) := {|
  model_ok m := c_dram_bandwidth m <> 0 /\ forall q, c_queue_model m = Some q -> queue_ok q |}.
Next Obligation.
  intros m t size requester address access p metadata [Hb Hq]. cbn. unfold constant_getAccessLatency. destruct (_ || _); [by do 3 eexists|].
  destruct (rounded_total _ (8 *64 size) Hb) as [n ->]. cbn [mbind res_bind].
  destruct (queue_delay_total _ t n Hq) as (d & q' & -> & Hq'). cbn [mbind res_bind].
  destruct (break_down_total p t d n (c_dram_access_cost m)) as [p' ->]. by do 3 eexists.
Qed.
#[global] Program Instance readwrite_laws : DramPerfLaws (DramPerfModelReadWrite Q) := {|
  model_ok m := w_dram_bandwidth m <> 0 /\ forall qr qw, w_queue_models m = Some (qr, qw) -> queue_ok qr /\ queue_ok qw |}.
Next Obligation.
  intros m t size requester address access p metadata [Hb Hq]. cbn. unfold readwrite_getAccessLatency. destruct (_ || _); [by do 3 eexists|].
  destruct (rounded_total _ (8 *64 size) Hb) as [n ->]. cbn [mbind res_bind].
  assert (H : exists d qs, readwrite_delay (w_queue_models m) (w_shared_readwrite m) access t n = Ok (d, qs) /\
    forall qr qw, qs = Some (qr, qw) -> queue_ok qr /\ queue_ok qw).
  { destruct (w_queue_models m) as [[qr qw]|]; cbn; [|by do 2 eexists]. destruct (Hq qr qw eq_refl) as [Hr Hw].
    destruct (queue_total qr t n Hr) as (dr & qr' & Er & Hr'). destruct (queue_total qw t n Hw) as (dw & qw' & Ew & Hw').
    destruct access; rewrite ?Er, ?Ew; cbn; [|do 2 eexists; split; [done|]; by intros ? ? [= <- <-]].
    destruct (w_shared_readwrite m); cbn; do 2 eexists; (split; [done|]); by intros ? ? [= <- <-]. }
  destruct H as (d & qs & -> & Hqs). cbn [mbind res_bind].
  destruct (break_down_total p t d n (w_dram_access_cost m)) as [p' ->]. by do 3 eexists.
Qed.
#[global] Program Instance normal_laws {T : Type} `{!TimeDistribution T} : DramPerfLaws (DramPerfModelNormal Q T) := {|
  model_ok m := n_dram_bandwidth m <> 0 /\ forall q, n_queue_model m = Some q -> queue_ok q |}.
Next Obligation.
  intros T ? m t size requester address access p metadata [Hb Hq]. cbn. unfold normal_getAccessLatency. destruct (_ || _); [by do 3 eexists|].
  destruct (rounded_total _ (8 *64 size) Hb) as [n ->]. cbn [mbind res_bind].
  destruct (queue_delay_total _ t n Hq) as (d & q' & -> & Hq'). cbn [mbind res_bind]. destruct (next _) as [cost x].
  destruct (break_down_total p t d n cost) as [p' ->]. by do 3 eexists.
Qed.

End model_laws.

(** ** The contents of the DRAM *)

Section contents.
Context {M : Type} `{!DramPerfModel M} `{!DramPerfLaws M}.
Implicit Types (d : DramCntlr M) (a : Z) (b : list Z).

(** Reads into a buffer, and writes. *)
Inductive request := Get (address requester now : Z) (buffer : list Z) | Put (address requester now : Z) (data : list Z).

(** The data that a read returns. *)
Definition serve d (r : request) : res (option (list Z) * DramCntlr M) :=
  match r with
  | Get a requester now buf => '(_, _, b, _, d) ← dram_read d a requester buf now (Some ShmemPerf.new) false; Ok (Some b, d)
  | Put a requester now b => '(_, _, d) ← dram_write d a requester b now false; Ok (None, d)
  end.
Fixpoint serve_all d (l : list request) : res (list (option (list Z)) * DramCntlr M) :=
  match l with
  | [] => Ok ([], d)
  | r :: l => '(o, d) ← serve d r; '(os, d) ← serve_all d l; Ok (o :: os, d)
  end.

(** The specification: a block is what was last written to its address. The requests are
    legal when their buffers are long enough and an address is read before it is written. *)
Definition contents_after (bs : nat) (mem : Z -> list Z) (r : request) : Z -> list Z :=
  match r with Get _ _ _ _ => mem | Put a _ _ b => fun a' => if decide (a' = a) then take bs b else mem a' end.
Definition answer (bs : nat) (mem : Z -> list Z) (r : request) : option (list Z) :=
  match r with Get a _ _ buf => Some (mem a ++ drop bs buf) | Put _ _ _ _ => None end.
Fixpoint answers (bs : nat) (mem : Z -> list Z) (l : list request) : list (option (list Z)) :=
  match l with [] => [] | r :: l => answer bs mem r :: answers bs (contents_after bs mem r) l end.
Fixpoint legal (bs : nat) (read : Z -> Prop) (l : list request) : Prop :=
  match l with
  | [] => True
  | Get a _ _ buf :: l => (bs <= length buf)%nat /\ legal bs (fun a' => a' = a \/ read a') l
  | Put a _ _ b :: l => (bs <= length b)%nat /\ read a /\ legal bs read l
  end.

(** The controller holds the contents [mem], and a block for every address that was read. *)
Record represents (mem : Z -> list Z) (read : Z -> Prop) d : Prop := {
  rp_faults : is_Some (d_faults d);
  rp_injector f : m_fault_injector d = Some f -> inactive f;
  rp_model : model_ok (m_dram_perf_model d);
  rp_block a b : m_data_map d !! a = Some b -> b = mem a;
  rp_zero a : m_data_map d !! a = None -> mem a = replicate (Z.to_nat (d_block_size d)) 0;
  rp_length a : length (mem a) = Z.to_nat (d_block_size d);
  rp_read a : read a -> is_Some (m_data_map d !! a)
}.

Lemma copy_block_all dst src n :
  length src = Z.to_nat n -> (Z.to_nat n <= length dst)%nat -> copy_block dst src n = Ok (src ++ drop (Z.to_nat n) dst).
Proof.
  intros H1 H2. unfold copy_block, slice. rewrite decide_True by lia. cbn [mbind res_bind]. rewrite drop_0, <- H1, firstn_all.
  unfold splice. rewrite decide_True by lia. by rewrite Nat.add_0_l.
Qed.
Lemma copy_block_over dst src n :
  length dst = Z.to_nat n -> (Z.to_nat n <= length src)%nat -> copy_block dst src n = Ok (take (Z.to_nat n) src).
Proof.
  intros H1 H2. unfold copy_block, slice. rewrite decide_True by lia. cbn [mbind res_bind]. rewrite drop_0.
  unfold splice. rewrite length_take, decide_True by lia. rewrite drop_ge by lia. by rewrite app_nil_r.
Qed.

Lemma serve_get mem read d a requester now buf :
  represents mem read d -> (Z.to_nat (d_block_size d) <= length buf)%nat ->
  exists d', serve d (Get a requester now buf) = Ok (Some (mem a ++ drop (Z.to_nat (d_block_size d)) buf), d') /\
    d_block_size d' = d_block_size d /\ represents mem (fun a' => a' = a \/ read a') d'.
Proof.
  intros [[f Hf] Hinj Hmod Hblk Hz Hlen Hread] Hb. cbn [serve dram_read dram_cntlr]. unfold cntlr_getDataFromDram. rewrite Hf.
  assert (Hdef : default (replicate (Z.to_nat (d_block_size d)) 0) (m_data_map d !! a) = mem a).
  { destruct (m_data_map d !! a) eqn:E; cbn; [by apply Hblk|]. symmetry. by apply Hz. }
  rewrite Hdef. assert (Hpre : pre_read (d_block_size d) (mem a) (m_fault_injector d) = Ok (mem a, m_fault_injector d)).
  { unfold pre_read. destruct (m_fault_injector d) as [i|]; [|done]. by rewrite (preRead_inactive _ _ i (Hinj i eq_refl)). }
  rewrite Hpre. cbn [mbind res_bind]. rewrite copy_block_all by (rewrite ?Hlen; lia). cbn [mbind res_bind].
  destruct (model_total _ now (d_block_size d) requester a READ ShmemPerf.new false Hmod) as (lat & p' & m' & E & Hm').
  unfold runDramPerfModel. rewrite E. cbn [mbind res_bind]. eexists. split; [done|]. split; [done|]. split; cbn; try done.
  - intros a' b'. rewrite lookup_insert_Some. intros [[<- <-]|[_ H]]; [done|by apply Hblk].
  - intros a'. rewrite lookup_insert_None. intros [H _]. by apply Hz.
  - intros a'. rewrite lookup_insert_is_Some'. intros [->|H]; [by left|right; by apply Hread].
Qed.

Lemma serve_put mem (read : Z -> Prop) d a requester now b :
  represents mem read d -> (Z.to_nat (d_block_size d) <= length b)%nat -> read a ->
  exists d', serve d (Put a requester now b) = Ok (None, d') /\ d_block_size d' = d_block_size d /\
    represents (contents_after (Z.to_nat (d_block_size d)) mem (Put a requester now b)) read d'.
Proof.
  intros [[f Hf] Hinj Hmod Hblk Hz Hlen Hread] Hb Ha. cbn [serve dram_write dram_cntlr]. unfold cntlr_putDataToDram. rewrite Hf.
  destruct (Hread a Ha) as [old Ho]. rewrite Ho. cbn [mbind res_bind]. pose proof (Hblk a old Ho) as ->.
  rewrite copy_block_over by (rewrite ?Hlen; lia). cbn [mbind res_bind].
  set (x := match m_fault_injector d with Some _ => _ | None => _ end).
  assert (Hx : x = (take (Z.to_nat (d_block_size d)) b, m_fault_injector d)) by (unfold x; by destruct (m_fault_injector d)).
  rewrite Hx. cbn [mbind res_bind].
  destruct (model_total _ now (d_block_size d) requester a WRITE (m_dummy_shmem_perf d) false Hmod) as (lat & p' & m' & E & Hm').
  unfold runDramPerfModel. rewrite E. cbn [mbind res_bind deref]. eexists. split; [done|]. split; [done|]. split; cbn; try done.
  - intros a' b'. rewrite lookup_insert_Some. intros [[<- <-]|[Hne H]]; [by rewrite decide_True|rewrite decide_False by done; by apply Hblk].
  - intros a'. rewrite lookup_insert_None. intros [H Hne]. rewrite decide_False by done. by apply Hz.
  - intros a'. case_decide; [rewrite length_take; lia|done].
  - intros a' H. rewrite lookup_insert_is_Some'. right. by apply Hread.
Qed.

Lemma serve_all_represents l : forall mem (read : Z -> Prop) d,
  represents mem read d -> legal (Z.to_nat (d_block_size d)) read l ->
  exists d', serve_all d l = Ok (answers (Z.to_nat (d_block_size d)) mem l, d').
Proof.
  induction l as [|r l IH]; intros mem read d Hd Hl; [by eexists|]. destruct r as [a requester now buf|a requester now b].
  - destruct Hl as [Hb Hl]. destruct (serve_get _ _ _ a requester now buf Hd Hb) as (d1 & E & Hbs & Hd1). cbn [serve_all]. rewrite E.
    cbn [mbind res_bind]. rewrite <- Hbs in Hl. destruct (IH _ _ _ Hd1 Hl) as (d2 & E2). rewrite E2. cbn. rewrite Hbs. by eexists.
  - destruct Hl as (Hb & Ha & Hl). destruct (serve_put _ _ _ a requester now b Hd Hb Ha) as (d1 & E & Hbs & Hd1). cbn [serve_all]. rewrite E.
    cbn [mbind res_bind]. rewrite <- Hbs in Hl. destruct (IH _ _ _ Hd1 Hl) as (d2 & E2). rewrite E2. cbn. rewrite Hbs. by eexists.
Qed.

(** C38: With a manager of faults, a new DRAM controller with any latency model serves every
    sequence of reads and writes in which an address is read before it is written, and each
    read returns the block that was last written to its address, zeros if none was. *)
Theorem dram_returns_last_write core bs faults model l :
  model_ok model -> legal (Z.to_nat bs) (fun _ => False) l ->
  exists d, serve_all (DramCntlr_new core bs (Some faults) model) l =
    Ok (answers (Z.to_nat bs) (fun _ => replicate (Z.to_nat bs) 0) l, d).
Proof.
  intros Hm Hl. apply (serve_all_represents l _ (fun _ => False)); [|done].
  split; cbn; try done. intros f [= <-]. apply dram_inactive.
  intros a. by rewrite length_replicate.
Qed.

End contents.

(** Without a manager of faults the controller is one that the caches can be connected to. *)
#[global] Program Instance direct_dram_laws {M : Type} `{!DramPerfModel M} `{!DramPerfLaws M} : DramCntlrLaws (DramCntlr M) := {|
  dram_ok d := d_faults d = None /\ model_ok (m_dram_perf_model d) |}.
Next Obligation.
  intros M ? ? d address requester buf now metadata [Hf Hm]. cbn. unfold cntlr_getDataFromDram. rewrite Hf. cbn [mbind res_bind].
  destruct (model_total _ now (d_block_size d) requester address READ ShmemPerf.new metadata Hm) as (lat & p' & m' & E & Hm').
  unfold runDramPerfModel. rewrite E. cbn. do 4 eexists. split; [done|]. by split_and!.
Qed.
Next Obligation.
  intros M ? ? d address requester buf now metadata [Hf Hm]. cbn. unfold cntlr_putDataToDram. rewrite Hf. cbn [mbind res_bind].
  destruct (model_total _ now (d_block_size d) requester address WRITE (m_dummy_shmem_perf d) metadata Hm) as (lat & p' & m' & E & Hm').
  unfold runDramPerfModel. rewrite E. cbn. do 3 eexists. split; [done|]. by split_and!.
Qed.

(** A model and requests for the theorem. *)
Definition fixed_latency : DramPerfModelConstant ContentionModel := enable (constant_new 4 64000 50000 (Some (ContentionModel_new 1))).
Definition some_requests : list request :=
  [Get 0 1 10 [9; 9; 9; 9]; Put 0 1 20 [1; 2; 3; 4]; Get 64 2 30 [7; 7; 7; 7; 7]; Get 0 3 40 [0; 0; 0; 0]]%Z.
Lemma dram_returns_last_write_witness :
  exists d, serve_all (DramCntlr_new 0 4 (Some (Faults.mkManager Faults.FAULT_TYPE_TOGGLE Faults.FAULT_INJECTOR_RANDOM)) fixed_latency) some_requests =
    Ok ([Some [0; 0; 0; 0]; None; Some [0; 0; 0; 0; 7]; Some [1; 2; 3; 4]], d).
Proof.
  apply (dram_returns_last_write 0 4 (Faults.mkManager Faults.FAULT_TYPE_TOGGLE Faults.FAULT_INJECTOR_RANDOM) fixed_latency some_requests).
  - split; [done|]. intros q [= <-]. by apply ContentionModel_new_ok.
  - cbn. split_and!; try lia; auto.
Defined.

(** ** The DRAM cache *)

Section dram_cache.
Context {P Q D : Type} `{!ReplacementPolicy P} `{!ReplacementPolicyLaws P} `{!QueueModel Q} `{!DramInterface D}.
Context (junk : list Z).
Implicit Types (d : DramCache.t P Q D).

(** The data array is never written without a breakdown. *)
Lemma accessDataArray_null t d r : DramCache.accessDataArray t None d <> Ok r.
Proof.
  unfold DramCache.accessDataArray. destruct (bw_getRoundedLatency _ _) as [n|]; [|done]. cbn [mbind res_bind].
  by destruct (queue_delay _ t n) as [[x q]|].
Qed.
Lemma insertLine_fails access address requester buf now d r : DramCache.insertLine access address requester buf now d <> Ok r.
Proof.
  unfold DramCache.insertLine. destruct (insertSingleLine _ _ _ _ _ _ _) as [x|]; [|done]. cbn [mbind res_bind].
  destruct (peekSingleLine _ _) as [[l|]|]; [|done..]. cbn [mbind res_bind deref]. destruct (modify_block _ _ _) as [c|]; [|done]. cbn [mbind res_bind].
  destruct (DramCache.accessDataArray now None _) as [y|] eqn:E; [by apply accessDataArray_null in E|done].
Qed.

Lemma read_miss_fails d address requester buf now perf metadata r :
  peekSingleLine (DramCache.m_cache d) address = Ok None ->
  DramCache.getDataFromDram junk d address requester buf now perf metadata <> Ok r.
Proof.
  intros Hp. unfold DramCache.getDataFromDram, DramCache.doAccess. rewrite Hp. cbn [mbind res_bind].
  destruct perf as [p|]; [|done]. cbn [perf_updateTime deref mbind res_bind].
  destruct (dram_read _ _ _ _ _ _ _) as [[[[[lat w] b] p'] dram]|]; [|done]. cbn [mbind res_bind].
  destruct (DramCache.insertLine _ _ _ _ _ _) as [y|] eqn:E; [by apply insertLine_fails in E|done].
Qed.

Lemma num_sets_range size ways bs n : u32 (1024 * size) <> 0 -> DramCache.num_sets size ways bs = Ok n -> 0 < n < 2 ^ 32.
Proof.
  intros Hs. unfold DramCache.num_sets, udiv. pose proof (Z.mod_pos_bound (1024 * size) (2 ^ 32) ltac:(lia)) as Hr1. fold (u32 (1024 * size)) in Hr1.
  pose proof (Z.mod_pos_bound (ways * bs) (2 ^ 32) ltac:(lia)) as Hr2. fold (u32 (ways * bs)) in Hr2.
  destruct (Z.eqb_spec (u32 (ways * bs)) 0) as [|Hne]; [done|]. cbn [check negb mbind res_bind].
  set (q := u32 (1024 * size) / u32 (ways * bs)). destruct (Z.eqb_spec (u32 (1024 * size)) (u32 (u32 (q * ways) * bs))) as [E|]; [|done].
  cbn. intros [= <-]. assert (0 <= q) by (apply Z.div_pos; lia). split.
  - destruct (decide (q = 0)) as [Hq|]; [|lia]. rewrite Hq in E. by rewrite E in Hs.
  - apply Z.div_lt_upper_bound; nia.
Qed.

(** C39: A DRAM cache serves no request: every write, and every read of a line that it does not
    hold, follows a null pointer to the breakdown of the request; so a new cache, which holds
    no line, never returns from a read or a write, and stays empty. *)
Theorem dram_cache_serves_nothing core bs size ways data_time tags_time bandwidth create info hash pages loc with_data queue pf on_hit dram d :
  1 <= bs < 32 -> u32 (1024 * size) <> 0 -> hash = HASH_MASK -> (0 < Z.to_nat ways)%nat -> 0 <= ways ->
  (forall s, m_associativity s = Z.to_nat ways -> set_wf PR_L1_CACHE s -> exists p, create (Z.to_nat ways) = Ok p /\ policy_wf s p info) ->
  DramCache.new core (2 ^ bs) size ways data_time tags_time bandwidth create info hash None pages loc with_data queue pf on_hit dram = Ok d ->
  (forall address requester buf now perf metadata r, in_range 64 address ->
     DramCache.getDataFromDram junk d address requester buf now perf metadata <> Ok r) /\
  (forall d' address requester buf now metadata r, DramCache.putDataToDram junk d' address requester buf now metadata <> Ok (r : _ * _ * DramCache.t P Q D)).
Proof.
  intros Hbs Hsz -> Hw Hw0 Hc Hnew. split.
  - intros address requester buf now perf metadata r Ha. apply read_miss_fails. unfold DramCache.new in Hnew.
    destruct (DramCache.num_sets _ _ _) as [n|] eqn:En; [|done]. cbn [mbind res_bind] in Hnew.
    destruct (Cache_new _ _ _ _ _ _ _ _ _ _ _ _) as [c|] eqn:Ec; [|done]. cbn [mbind res_bind] in Hnew. injection Hnew as <-. cbn [DramCache.m_cache].
    replace ways with (Z.of_nat (Z.to_nat ways)) in Ec by lia.
    pose proof (num_sets_range _ _ _ _ Hsz En) as Hn.
    apply (Cache_new_wf create info PR_L1_CACHE (Z.to_nat ways)) in Ec as (Hwf & Hres & Hby & _); try done.
    rewrite peek_slot by done. assert (CacheLines.slot c address = None) as ->; [|done].
    apply eq_None_not_Some. rewrite slot_resident by done. rewrite Hres. set_solver.
  - intros d' address requester buf now metadata r. unfold DramCache.putDataToDram, DramCache.doAccess.
    by destruct (peekSingleLine _ _).
Qed.

End dram_cache.

Definition lru_of (n : nat) : res LRU.CacheSetLRU := Ok (LRU.new n 1).
Definition small_dram_cache : res (DramCache.t LRU.CacheSetLRU ContentionModel (DramCntlr (DramPerfModelConstant ContentionModel))) :=
  DramCache.new 0 64 1 2 30 10 64000 lru_of (Some (CacheSetInfoLRU_new 2 1)) HASH_MASK None [] 0 false None None false
    (DramCntlr_new 0 64 None fixed_latency).
Lemma dram_cache_serves_nothing_witness :
  exists d, small_dram_cache = Ok d /\
    (forall r, DramCache.getDataFromDram [] d 128 0 (replicate 64 0) 0 (Some ShmemPerf.new) false <> Ok r).
Proof.
  destruct small_dram_cache as [d|] eqn:E; [|vm_compute in E; discriminate E]. exists d. split; [done|].
  destruct (dram_cache_serves_nothing [] 0 6 1 2 30 10 64000 lru_of (Some (CacheSetInfoLRU_new 2 1)) HASH_MASK [] 0 false None None false
    (DramCntlr_new 0 64 None fixed_latency) d) as [H _]; [lia|done|done|cbn; lia|lia| |exact E|intros r; by apply H].
  intros s Ha Hs. eexists. split; [done|]. rewrite <- Ha. apply (LRU.new_wf PR_L1_CACHE); [done|lia|lia|].
  rewrite Ha. eexists. split; [done|]. split; cbn; [done|done|lia].
Defined.

(** The fault of the first read of a line, and of a write. *)
Example dram_cache_null_breakdown :
  (d ← small_dram_cache; DramCache.getDataFromDram [] d 128 0 (replicate 64 0) 0 (Some ShmemPerf.new) false) = Err NullDeref /\
  (d ← small_dram_cache; DramCache.putDataToDram [] d 128 0 (replicate 64 0) 0 false) = Err NullDeref.
Proof. split; vm_compute; reflexivity. Qed.
