(* ===== verification/CntlrRuns.v ===== *)
(** * Concrete runs of the cache controllers

    A machine of two cores with private first levels and a shared last level, connected
    to DRAM directly or to a directory. *)

From stdpp Require Import base tactics list numbers gmap strings.
From Stdlib Require Import ZArith Lia.
From S2P Require Import Prelude Utils CacheBase CacheBlock CacheSet Replacement Cache Timing Contention Directory DirCntlr Prefetch CntlrState Dram CacheCntlr.
Local Open Scope Z_scope.

Module Machine.

(** A DRAM controller of constant latency without queue. *)
Abbreviation Dram := (DramCntlr (DramPerfModelConstant ContentionModel)).
Definition memory : Dram := DramCntlr_new 0 64 None (enable (constant_new 2 64000 50000 None)).

Definition junk : list Z := replicate 64 0xcc.
Definition homes : AddressHomeLookup := mkAHL 6 63 [0] 1 64.

(** Two cores: controllers 0, 1 are the first levels of core 0, 2, 3 those of core 1; 4 and
    5 are the shared level seen by the two cores. [loc] is the level from which page table
    data is cached. *)
Definition level1 (loc : Z) (comp : MemComponent.component_t) (m next : nat) (core : Z) : CntlrConfig :=
  mkCC comp m (Some next) false false true false true true 16 core core 64 false (mkLatency 1000 2) 1000 0 1 loc
    (mkLatency 1000 3) (mkLatency 1000 1) false homes 0.
Definition level2 (loc : Z) (core : Z) : CntlrConfig :=
  mkCC MemComponent.L2_CACHE 4 None false false true false true true 16 core 0 64 false (mkLatency 1000 5) 1000 0 2 loc
    (mkLatency 1000 8) (mkLatency 1000 3) false homes 0.
Definition topology_at (loc : Z) : list CntlrConfig :=
  [level1 loc MemComponent.L1_ICACHE 0 4 0; level1 loc MemComponent.L1_DCACHE 1 4 0;
   level1 loc MemComponent.L1_ICACHE 2 5 1; level1 loc MemComponent.L1_DCACHE 3 5 1; level2 loc 0; level2 loc 1].
Definition topology : list CntlrConfig := topology_at 1.

Definition cache (name : string) (sets ways : Z) : res (Cache LRU.CacheSetLRU) :=
  Cache_new name sets ways 64 (fun n => Ok (LRU.new n 1)) (Some (CacheSetInfoLRU_new (Z.to_nat ways) 1)) SHARED_CACHE
    HASH_MASK None [] 1 true.

Definition first_level (name : string) : res (CacheMasterCntlr LRU.CacheSetLRU) :=
  c ← cache name 2 1; Ok (CacheMasterCntlr_new c None [] 4).

Definition idle_cntlr : PCacheCntlr := mkPC HitWhere.UNKNOWN false 0 0 0 0 (fun _ => 0).

Abbreviation H := (Hierarchy LRU.CacheSetLRU Dram).

Definition start (direct : bool) : res H :=
  a ← first_level "L1-I"; b ← first_level "L1-D"; c ← first_level "L1-I"; d ← first_level "L1-D";
  l2 ← cache "L2" 4 2;
  let m := createSetLocks 64 2 0 2 (CacheMasterCntlr_new l2 None [] 4) in
  m ← setPrevCacheCntlrs topology [0; 1; 2; 3]%nat m;
  let m := if direct then setDRAMDirectAccess 8 m else m in
  Ok (mkHierarchy (replicate 6 idle_cntlr) [a; b; c; d; m] (fun _ _ => 0) [] memory false true (fun _ => 0)
        (fun _ => 0)).

Abbreviation access loc c a := (Cntlr.processMemOpFromCore (topology_at loc) junk map_to_list c a).
Definition load (b : block_type_t) (address : Z) : Cntlr.Access :=
  Cntlr.mkCoreAccess Core.NONE Core.READ address 0 (Some (replicate 8 0)) 8 true true b.
Definition store (v address : Z) : Cntlr.Access :=
  Cntlr.mkCoreAccess Core.NONE Core.WRITE address 0 (Some (replicate 8 v)) 8 true true DATA.

(** The accesses one after the other: where they hit, and the first byte of a load. *)
Fixpoint runs (loc : Z) (l : list (nat * Cntlr.Access)) (s : H) : res (list (HitWhere.where_t * option Z) * H) :=
  match l with
  | [] => Ok ([], s)
  | (c, a) :: l => '(w, d, s) ← exec (access loc c a) s; '(ws, s) ← runs loc l s; Ok ((w, d ≫= head) :: ws, s)
  end.
(** The accesses from the initial state with DRAM, and an observation of the state they leave. *)
Definition run_direct {A} (loc : Z) (l : list (nat * Cntlr.Access)) (f : H -> A) : res (list (HitWhere.where_t * option Z) * A) :=
  s ← start true; '(ws, s) ← runs loc l s; Ok (ws, f s).

(** The states of a line in the five caches. *)
Definition states (address : Z) (s : H) : list (res cstate_t) :=
  map (fun c => match Cntlr.getCacheState topology c address s with Ok (x, _) => Ok x | Err f => Err f end) [0;1;2;3;4]%nat.

End Machine.
Import Machine.

(** The caches of one stack do not keep a single writer. After a store by core 1, a load by
    core 0 finds the line MODIFIED in the shared level: the copy of core 1 becomes SHARED and
    core 0 gets the MODIFIED state of the shared level. Its next store hits in its own first
    level while core 1 keeps its copy, from which core 1 then loads the old value. *)
Example reader_becomes_writer :
  run_direct 1 [(3, store 1 0); (1, load DATA 0); (1, store 2 0); (3, load DATA 0)]%nat (states 0) =
    Ok ([(HitWhere.DRAM, None); (HitWhere.L2_SIBLING, Some 1); (HitWhere.L1_OWN, None); (HitWhere.L1_OWN, Some 1)],
        [Ok INVALID; Ok MODIFIED; Ok INVALID; Ok SHARED; Ok MODIFIED]).
Proof. vm_compute. reflexivity. Qed.

(** A fetch from DRAM leaves its source behind, and the next hit of the controller reports it:
    two of the accesses are reported as served by DRAM, which was read once. *)
Example hit_reported_as_dram :
  run_direct 1 [(1, load DATA 0); (0, load DATA 0); (3, load DATA 0)]%nat (fun s => d_reads (dram s)) =
    Ok ([(HitWhere.DRAM, Some 0xcc); (HitWhere.DRAM, Some 0xcc); (HitWhere.L2_OWN, Some 0xcc)], 1).
Proof. vm_compute. reflexivity. Qed.

(** When the first level keeps no page table data, a load of such data that misses takes the
    locks of all cores and releases its own: the next access of another core to a line with
    the same lock waits for ever. *)
Example metadata_miss_keeps_locks :
  run_direct 2 [(1, load PAGE_TABLE_DATA 0)]%nat (fun s => d_reads (dram s)) = Ok ([(HitWhere.DRAM, None)], 1) /\
  run_direct 2 [(1, load PAGE_TABLE_DATA 0); (3, load DATA 128)]%nat (fun s => d_reads (dram s)) = Err Blocked /\
  run_direct 1 [(1, load PAGE_TABLE_DATA 0); (3, load DATA 128)]%nat (fun s => d_reads (dram s)) =
    Ok ([(HitWhere.DRAM, Some 0xcc); (HitWhere.DRAM, Some 0xcc)], 2).
Proof. split_and!; vm_compute; reflexivity. Qed.
