(* ===== verification/CntlrCorrect.v ===== *)
(** * Accesses of the cores keep the caches inclusive

    The theorems about whole accesses of the cores to caches in front of DRAM, and the
    machine of [CntlrRuns.v] as an instance. *)

From stdpp Require Import base tactics list numbers gmap strings relations.
From Stdlib Require Import ZArith Lia.
From S2P Require Import Prelude Utils CacheBase CacheBlock CacheSet Replacement Cache CacheLines Timing Contention Directory DirCntlr Prefetch CntlrState Dram CacheCntlr CntlrView CntlrProps CntlrAccess DramProps CntlrRuns.
Local Open Scope Z_scope.
Import Cntlr.

Section correct.
Context {P D : Type} `{!ReplacementPolicy P} `{!ReplacementPolicyLaws P} `{!AlwaysVictim P}.
Context `{!DramCntlrInterface D} `{!DramCntlrLaws D}.
Context (Hready : forall b (p : P) si q, victim_ready b p (mkEnv si (Some q))).
Context (topology : list CntlrConfig) (junk : list Z) (traverse : gmap Z MshrEntry -> list (Z * MshrEntry)) `{!Traversal traverse}.
Context (logb : Z) (parent : nat -> option nat) (prevs : nat -> list nat) (level : nat -> nat).
Context (Hm : machine topology junk logb parent prevs level).
Implicit Types (s : Hierarchy P D) (c : nat) (a : Access) (y : Z).

(** Between two accesses: the invariant holds, nothing is being evicted, no lock is held. *)
Record settled s : Prop := {
  st_inv : inv topology logb parent prevs s;
  st_idle : idle s;
  st_unlocked : unlocked topology logb s
}.

(** Every line of a cache is in the cache behind it, and MODIFIED there if it is MODIFIED here. *)
Definition inclusive s : Prop :=
  forall x m y, aligned logb y -> parent x = Some m ->
    (is_Some (line s x y) -> is_Some (line s m y)) /\ (state s x y = MODIFIED -> state s m y = MODIFIED).

Lemma settled_inclusive s : settled s -> inclusive s.
Proof.
  intros [Hi Hid _] x m y Hy Hp. split; intros H.
  - by eapply parent_line.
  - destruct (iv_accepts _ _ _ _ _ Hi x m y Hy Hp H) as [|E]; [done|]. by rewrite Hid in E.
Qed.

Lemma settled_locks s s' :
  unlocked topology logb s -> (forall m, locks s' m = locks s m) -> (forall m, busy s' m = busy s m) -> unlocked topology logb s'.
Proof.
  intros [H1 H2] Hl Hb. split.
  - intros c k cl kl y Hs Hy. destruct (H1 c k cl kl y Hs Hy) as (n & off & [F1 F2]). exists n, off. split; [by rewrite Hl|done].
  - intros c k Hk. rewrite Hb. by eapply H2.
Qed.

(** An access to a first level that has a level behind it. *)
Definition legal (x : nat * Access) : Prop :=
  exists k, topology !! x.1 = Some k /\ prevs (m_master k) = [] /\ m_next_cache_cntlr k <> None /\ access_ok logb k x.2.

Abbreviation access c a := (processMemOpFromCore topology junk traverse c a).

Lemma run_legal c k a s (Q : HitWhere.where_t * option (list Z) -> Hierarchy P D -> Prop) :
  settled s -> legal (c, a) -> topology !! c = Some k ->
  (forall w d s', settled s' -> operation_permits (state s' (m_master k) (ac_address a)) (ac_op a) = true -> w <> HitWhere.MISS ->
     (operation_permits (state s (m_master k) (ac_address a)) (ac_op a) = true -> w = where_own (m_mem_component k)) -> Q (w, d) s') ->
  run (access c a) Q s.
Proof.
  intros [Hi Hid Hu] (k' & Hk & Hfirst & Hnext & Ha) Hk' HQ. cbn in Hk, Ha. assert (k' = k) as -> by congruence.
  destruct (stack_total (P := P) (D := D) _ _ _ _ _ _ Hm c k Hk) as (cl & kl & Hst).
  destruct (ul_free _ _ _ Hu c k cl kl (ac_address a) Hst (ao_aligned _ _ _ Ha)) as (n & off & Hf).
  pose proof (mc_next _ _ _ _ _ _ Hm c k Hk) as Hn. destruct (m_next_cache_cntlr k) as [nx|] eqn:En; [|done]. destruct Hn as (kn & Hkn & Hp).
  eapply (run_access topology junk traverse logb parent prevs level Hm c cl k kl Hst (ac_address a) (ao_aligned _ _ _ Ha) s n off Hf Hfirst a Ha);
    try done; [by eapply ul_busy|].
  intros w d s' Hi' Hid' Hl Hb Hperm Hw Hwo. apply HQ; try done. split; [done|done|]. by eapply settled_locks.
Qed.

(** C8: any sequence of loads and stores by any of the cores, of data or of page table entries that
    the first level keeps, of caches that share levels in any tree with DRAM behind it,
    completes, unless the simulated clock overflows or stands at its end; after it no lock is
    held, no eviction is under way, every line of a cache is in the cache behind it, and
    MODIFIED there if it is MODIFIED in front. *)
Theorem accesses_keep_inclusion l s :
  settled s -> Forall legal l ->
  run (tfor (fun x => _ ← access x.1 x.2; mret tt) l) (fun _ s' => settled s' /\ inclusive s') s.
Proof.
  intros Hs Hl. apply (run_for (fun l s => settled s /\ Forall legal l)).
  - done.
  - intros [c a] l' s1 (Hs1 & [Hx Hl']%Forall_cons). pose proof Hx as (k & Hk & _). apply run_bind.
    eapply run_legal; [done|done|done|]. intros w d s' Hs' _ _ _. by apply run_done.
  - intros s1 [Hs1 _]. split; [done|]. by apply settled_inclusive.
Qed.


End correct.

(** ** The machine of two cores *)

Import Machine.

Definition parent_of (m : nat) : option nat := if (m <? 4)%nat then Some 4%nat else None.
Definition prevs_of (m : nat) : list nat := if (m =? 4)%nat then [0; 1; 2; 3]%nat else [].
Definition level_of (m : nat) : nat := if (m <? 4)%nat then 0%nat else 1%nat.

(** The controllers, one by one. *)
Lemma topology_cases (R : nat -> CntlrConfig -> Prop) :
  (forall i, (i < 6)%nat -> from_option (R i) True (topology !! i)) -> forall c k, topology !! c = Some k -> R c k.
Proof.
  intros H c k Hk. assert (Hc : (c < 6)%nat) by (by apply lookup_lt_Some in Hk). specialize (H c Hc). by rewrite Hk in H.
Qed.
Ltac each_controller := apply topology_cases; intros i Hi; destruct i as [|[|[|[|[|[|i]]]]]]; cbn; [..|lia].

Lemma two_cores_ok : machine topology Machine.junk 6 parent_of prevs_of level_of.
Proof.
  split; try (lia || done).
  - each_controller; done.
  - each_controller; eauto.
  - each_controller; lia.
  - intros m m'. unfold parent_of, level_of. destruct (Nat.ltb_spec m 4); [|done]. by intros [= <-].
  - each_controller; lia.
  - intros m p. unfold prevs_of. destruct (Nat.eqb_spec m 4) as [->|]; [|by intros ?%not_elem_of_nil].
    rewrite !elem_of_cons. intros [->|[->|[->|[->|?%not_elem_of_nil]]]]; cbn; eauto. done.
  - intros x m. unfold parent_of. destruct (Nat.ltb_spec x 4); [|done]. intros [= <-].
    exists x. destruct x as [|[|[|[|x]]]]; [..|lia]; eexists; (split_and!; [cbn; set_solver|done|done]).
Qed.

(** A new cache is well formed and empty. *)
Lemma new_cache_ok name sets ways c :
  (0 < sets < 2 ^ 32) -> 0 < ways < 256 -> cache name sets ways = Ok c ->
  cache_wf c /\ bypasses_metadata c = false /\ m_cache_type c = SHARED_CACHE /\ forall y, in_range 64 y -> CacheLines.slot c y = None.
Proof.
  intros Hs Hw H. unfold cache in H. replace ways with (Z.of_nat (Z.to_nat ways)) in H at 1 by lia.
  apply (Cache_new_wf (fun n => Ok (LRU.new n 1)) (Some (CacheSetInfoLRU_new (Z.to_nat ways) 1)) SHARED_CACHE (Z.to_nat ways)) with (b := 6) in H
    as (H1 & H2 & H3 & H4); try done; try lia.
  - split_and!; try done. intros y Hy. apply eq_None_not_Some. rewrite slot_resident by done. rewrite H2. set_solver.
  - intros s Ha Hsw. eexists. split; [done|]. rewrite <- Ha. apply (LRU.new_wf SHARED_CACHE); [done|lia|lia|].
    rewrite Ha. eexists. split; [done|]. split; cbn; [by rewrite ?length_replicate..|lia].
Qed.

(** The state of a new cache. *)
Abbreviation empty_master m M :=
  (master_ok 6 parent_of prevs_of m M /\ m_evicting_buf M = None /\ m_smt_lock M = false /\
   forall y, in_range 64 y -> CacheLines.slot (m_cache M) y = None).

Lemma spec_table_ok : spec_ok (replicate SPEC_EVICT_SETS (replicate SPEC_EVICT_WAYS (mkSpecEvict 0 0))).
Proof. split; [done|]. apply Forall_replicate. done. Qed.

Lemma new_master_ok name sets ways c m M :
  0 < sets < 2 ^ 32 -> 0 < ways < 256 -> cache name sets ways = Ok c ->
  m_cache M = c -> m_blocksize (cb c) = 64 -> m_log_blocksize (cb c) = 6 -> m_prev_cache_cntlrs M = prevs_of m ->
  m_prefetcher M = None -> m_prefetch_list M = [] -> m_atds M = [] -> (parent_of m = None -> m_dram_cntlr M = true) ->
  m_l1_mshr M = ContentionModel_new 4 -> m_l1_metadata_mshr M = ContentionModel_new 4 ->
  (forall q, m_dram_outstanding_writebacks M = Some q -> q = ContentionModel_new 8) ->
  m_spec_evict_table M = replicate SPEC_EVICT_SETS (replicate SPEC_EVICT_WAYS (mkSpecEvict 0 0)) ->
  m_evicting_buf M = None -> m_smt_lock M = false -> empty_master m M.
Proof.
  intros Hs Hw E Ec Hb Hlb Hp Hpf Hpl Hat Hd H1 H2 Hq Hsp Hev Hsm.
  destruct (new_cache_ok name sets ways c Hs Hw E) as (W1 & W2 & W3 & W4).
  split_and!; [|done|done|by rewrite Ec]. split; rewrite ?Ec, ?H1, ?H2, ?Hsp; try done.
  - by apply ContentionModel_new_ok.
  - by apply ContentionModel_new_ok.
  - intros q Hq'. rewrite (Hq q Hq'). by apply ContentionModel_new_ok.
  - apply spec_table_ok.
  - intros d Hd'. congruence.
Qed.

(** The masters of the initial state. *)
Definition started (f : list (CacheMasterCntlr LRU.CacheSetLRU) -> Prop) : Prop :=
  match start true with Ok s => f (masters s) /\ cntlrs s = replicate 6 idle_cntlr /\ dram s = memory | Err _ => False end.

Lemma start_masters : started (fun l => length l = 5%nat /\ forall m M, l !! m = Some M -> empty_master m M).
Proof.
  unfold started, start, first_level.
  destruct (cache "L1-I" 2 1) as [a|] eqn:Ea; [|discriminate Ea]. destruct (cache "L1-D" 2 1) as [b|] eqn:Eb; [|discriminate Eb].
  destruct (cache "L2" 4 2) as [l2|] eqn:El; [|discriminate El]. cbn [mbind res_bind].
  assert (m_blocksize (cb a) = 64 /\ m_log_blocksize (cb a) = 6) as [] by (vm_compute in Ea; by injection Ea as <-).
  assert (m_blocksize (cb b) = 64 /\ m_log_blocksize (cb b) = 6) as [] by (vm_compute in Eb; by injection Eb as <-).
  assert (m_blocksize (cb l2) = 64 /\ m_log_blocksize (cb l2) = 6) as [] by (vm_compute in El; by injection El as <-).
  assert (Hprev : forall x, setPrevCacheCntlrs (P := LRU.CacheSetLRU) topology [0; 1; 2; 3]%nat (createSetLocks 64 2 0 2 (CacheMasterCntlr_new x None [] 4)) =
    Ok (with_prev [0; 1; 2; 3]%nat (createSetLocks 64 2 0 2 (CacheMasterCntlr_new x None [] 4)))) by done.
  rewrite Hprev. cbn [mbind res_bind masters cntlrs]. split; [|done]. split; [done|].
  intros m M HM. destruct m as [|[|[|[|[|m]]]]]; cbn in HM; [injection HM as <-..|done].
  - by eapply new_master_ok; [| |exact Ea|..].
  - by eapply new_master_ok; [| |exact Eb|..].
  - by eapply new_master_ok; [| |exact Ea|..].
  - by eapply new_master_ok; [| |exact Eb|..].
  - eapply new_master_ok; [| |exact El|..]; try done. intros q. cbn. congruence.
Qed.

Lemma start_locks : (s ← start true; Ok (locks s 4)) = Ok (Some (replicate 2 (SetLock.mkLock (replicate 2 false) 0), 6, 2)).
Proof. vm_compute. reflexivity. Qed.
Lemma lock_index_lt y : (lock_index 6 2 y < 2)%nat.
Proof.
  unfold lock_index. change (u32 (2 - 1)) with (2 ^ 1 - 1). rewrite land_pow2_pred by lia.
  pose proof (Z.mod_pos_bound (Z.shiftr y 6) (2 ^ 1) ltac:(lia)). lia.
Qed.

(** The initial state is settled. *)
Lemma start_settled : match start true with Ok s => settled topology 6 parent_of prevs_of s | Err _ => False end.
Proof.
  pose proof start_masters as H. unfold started in H. destruct (start true) as [s|] eqn:E; [|done].
  destruct H as [[Hl H] [Hc Hd]]. assert (Hlk : forall c k cl kl y, stack (P := LRU.CacheSetLRU) (D := Dram) topology c k cl kl ->
    exists n off, free_lock s (m_master kl) y (cc_core_id k) n off).
  { intros c k cl kl y (Hk & Hkl & Hst). assert (Hloc : locks s 4 = Some (replicate 2 (SetLock.mkLock (replicate 2 false) 0), 6, 2)).
    { pose proof start_locks as Hx. rewrite E in Hx. by injection Hx. }
    specialize (Hst s). assert (Hcore : m_master kl = 4%nat /\ 0 <= cc_core_id k < 2).
    { destruct c as [|[|[|[|[|[|c]]]]]]; cbn in Hk; [injection Hk as <-..|done]; injection Hst as <-; by injection Hkl as <-. }
    destruct Hcore as [-> Hcore]. exists 2%nat, 0. split; [|lia]. do 3 eexists. split; [exact Hloc|].
    apply lookup_replicate_2. by apply lock_index_lt. }
  assert (Hline : forall m y, aligned 6 y -> line s m y = None).
  { intros m y [Hy _]. unfold line. destruct (masters s !! m) as [M|] eqn:HM; [|done]. destruct (H m M HM) as (_ & _ & _ & Hs). cbn. by rewrite Hs. }
  assert (Hsome : forall c k, topology !! c = Some k -> is_Some (masters s !! m_master k)).
  { intros c k Hk. apply lookup_lt_is_Some_2. rewrite Hl. revert c k Hk. each_controller; lia. }
  split.
  - split.
    + split; [by rewrite Hc|rewrite Hc; by apply Forall_replicate|done| |by rewrite Hd]. intros m M HM. by apply H.
    + intros m y l st Hy. by rewrite Hline.
    + intros x m y Hy _. rewrite Hline by done. by intros [].
    + intros x m y Hy _. unfold state. by rewrite Hline.
  - intros m. unfold evicting. destruct (masters s !! m) as [M|] eqn:HM; [|done]. destruct (H m M HM) as (_ & Hev & _). cbn. by rewrite Hev.
  - split; [intros c k cl kl y Hst _; by eapply Hlk|]. intros c k Hk. destruct (Hsome c k Hk) as [M HM]. unfold busy. rewrite HM. cbn. f_equal. by apply (H _ _ HM).
Qed.

Lemma lru_ready (b : CacheSetBase) (p : LRU.CacheSetLRU) si q : victim_ready b p (mkEnv si (Some q)).
Proof. intros _. by eexists. Qed.

Lemma access_legal c a k :
  topology !! c = Some k -> (c < 4)%nat -> aligned 6 (ac_address a) -> ac_offset a = 0 -> ac_length a = 8 ->
  (forall d, ac_data a = Some d -> length d = 8%nat) -> ac_lock a = Core.NONE -> ac_block_type a = DATA ->
  legal topology 6 prevs_of (c, a).
Proof.
  intros Hk Hc Hy Ho Hl Hd Hlk Hbt. exists k. split; [done|].
  assert (prevs_of (m_master k) = [] /\ m_next_cache_cntlr k <> None) as [H1 H2].
  { destruct c as [|[|[|[|c]]]]; [..|lia]; by injection Hk as <-. }
  split_and!; [done|done|]. cbn [snd]. split; rewrite ?Ho, ?Hl; try done; try lia.
  - intros d Ed. rewrite (Hd d Ed). lia.
  - unfold bypasses. by rewrite Hbt.
Qed.

Lemma zero_aligned : aligned 6 0.
Proof. split; [done|]. by exists 0. Qed.
Lemma store_legal c v : (c < 4)%nat -> legal topology 6 prevs_of (c, store v 0).
Proof.
  intros Hc. destruct (lookup_lt_is_Some_2 topology c) as [k Hk]; [cbn; lia|].
  eapply access_legal; try done; [apply zero_aligned|]. intros d [= <-]. done.
Qed.
Lemma load_legal c : (c < 4)%nat -> legal topology 6 prevs_of (c, load DATA 0).
Proof.
  intros Hc. destruct (lookup_lt_is_Some_2 topology c) as [k Hk]; [cbn; lia|].
  eapply access_legal; try done; [apply zero_aligned|]. intros d [= <-]. done.
Qed.

Lemma accesses_keep_inclusion_witness :
  exists s, start true = Ok s /\
    run (tfor (fun x => _ ← Cntlr.processMemOpFromCore topology Machine.junk map_to_list x.1 x.2; mret tt)
          [(3, store 1 0); (1, load DATA 0); (1, store 2 0)]%nat)
      (fun _ s' => settled topology 6 parent_of prevs_of s' /\ inclusive 6 parent_of s') s.
Proof.
  pose proof start_settled as H. destruct (start true) as [s|]; [|done]. exists s. split; [done|].
  apply (accesses_keep_inclusion lru_ready topology Machine.junk map_to_list 6 parent_of prevs_of level_of two_cores_ok); [done|].
  repeat constructor; first [apply store_legal; lia|apply load_legal; lia].
Defined.

