(* ===== verification/Nuca.v ===== *)
(** * The NUCA cache

    [parametric_dram_directory_msi/nuca_cache.cc]: a slice of a shared cache next to the
    directory, built on [Cache] and a queue model for its data array. It implements the
    interface [NucaCache] of the directory controller, so that the theorems on the
    controller hold with it. *)

From stdpp Require Import base tactics list numbers gmap sets strings.
From Stdlib Require Import ZArith Lia.
From S2P Require Import Prelude Utils CacheBase CacheBlock CacheSet Replacement Cache CacheLines CacheProps.
From S2P Require Import Timing Contention Directory DirCntlr DirProps DirRefine DirRuns.
Local Open Scope Z_scope.
Local Open Scope mach_scope.

Section nuca.
Context {P : Type} `{!ReplacementPolicy P} {Q : Type} `{!QueueModel Q}.

Record Nuca := mkNuca {
  nuca_block_size : Z;
  m_data_access_time : ComponentLatency;
  m_tags_access_time : ComponentLatency;
  m_data_array_bandwidth : Z;
  m_cache : Cache P;
  m_queue_model : option Q;
  m_reads : Z;
  m_writes : Z;
  m_read_misses : Z;
  m_write_misses : Z
}.

Definition with_cache (c : Cache P) (n : Nuca) : Nuca :=
  mkNuca (nuca_block_size n) (m_data_access_time n) (m_tags_access_time n) (m_data_array_bandwidth n)
    c (m_queue_model n) (m_reads n) (m_writes n) (m_read_misses n) (m_write_misses n).
Definition with_queue (q : option Q) (n : Nuca) : Nuca :=
  mkNuca (nuca_block_size n) (m_data_access_time n) (m_tags_access_time n) (m_data_array_bandwidth n)
    (m_cache n) q (m_reads n) (m_writes n) (m_read_misses n) (m_write_misses n).

(** The counters, when [count] is set. *)
Definition count_read (count miss : bool) (n : Nuca) : Nuca :=
  mkNuca (nuca_block_size n) (m_data_access_time n) (m_tags_access_time n) (m_data_array_bandwidth n)
    (m_cache n) (m_queue_model n) (if count then m_reads n +64 1 else m_reads n) (m_writes n)
    (if count && miss then m_read_misses n +64 1 else m_read_misses n) (m_write_misses n).
Definition count_write (count miss : bool) (n : Nuca) : Nuca :=
  mkNuca (nuca_block_size n) (m_data_access_time n) (m_tags_access_time n) (m_data_array_bandwidth n)
    (m_cache n) (m_queue_model n) (m_reads n) (if count then m_writes n +64 1 else m_writes n)
    (m_read_misses n) (if count && miss then m_write_misses n +64 1 else m_write_misses n).

Definition accessDataArray (t_start : Z) (n : Nuca) : res (Z * Nuca) :=
  '(queue_delay, q) ← (match m_queue_model n with
     | Some q =>
         processing_time ← bw_getRoundedLatency (m_data_array_bandwidth n) (u32 (8 * nuca_block_size n));
         '(d, q) ← computeQueueDelay t_start processing_time q;
         Ok (processing_time +64 d, Some q)
     | None => Ok (0, None)
     end);
  Ok (queue_delay +64 cl_getLatency (m_data_access_time n), with_queue q n).

Definition nuca_cache_read (n : Nuca) (address : Z) (data_buf : list Z) (now : Z) (count : bool)
  : res (Z * HitWhere.where_t * list Z * Nuca) :=
  o ← peekSingleLine (m_cache n) address;
  let latency := cl_getLatency (m_tags_access_time n) in
  match o with
  | Some _ =>
      '(r, c) ← accessSingleLine (m_cache n) address LOAD (Some data_buf) (nuca_block_size n) true false;
      '(t, n) ← accessDataArray (now +64 latency) (with_cache c n);
      Ok (latency +64 t, HitWhere.NUCA_CACHE, default data_buf (r ≫= ar_data), count_read count false n)
  | None => Ok (latency, HitWhere.MISS, data_buf, count_read count true n)
  end.

(** [block_info->setCState(MODIFIED)] on the block that was found. *)
Definition mark_modified (l : location) (c : Cache P) : res (Cache P) := modify_block (setCState MODIFIED) l c.

(** The bytes behind a pointer, which the cache reads when it holds data. *)
Definition stores_data (c : Cache P) : bool :=
  match m_sets c with s :: _ => bool_decide (is_Some (m_blocks (CacheSet.base s))) | [] => false end.
Definition buffer_arg (c : Cache P) (d : data_buf) : res (option (list Z)) :=
  match d with
  | NULL => Ok None
  | Live l => Ok (Some l)
  | Deleted => if stores_data c then Err UseAfterFree else Ok None
  end.

(** A write that hits leaves the caller's variables as they are. The latency and the place that a
    write returns, which the callers ignore, are left out, and so is the breakdown by cause
    ([ShmemPerf]) of both operations. *)
Definition nuca_cache_write (n : Nuca) (address : Z) (data : data_buf) (stack : Stack) (now : Z)
    (count : bool) : res (bool * Z * list Z * Nuca) :=
  o ← peekSingleLine (m_cache n) address;
  let latency := cl_getLatency (m_tags_access_time n) in
  buff ← buffer_arg (m_cache n) data;
  match o with
  | Some l =>
      c ← mark_modified l (m_cache n);
      '(_, c) ← accessSingleLine c address STORE buff (nuca_block_size n) true false;
      '(_, n) ← accessDataArray (now +64 latency) (with_cache c n);
      Ok (stack_flag stack, stack_address stack, stack_bytes stack, count_write count false n)
  | None =>
      r ← insertSingleLine (m_cache n) address buff (CacheBlockInfo_new PrL1CacheBlockInfo) true None DATA;
      let eviction := in_eviction r && bool_decide (m_cstate (in_evict_info r) = MODIFIED) in
      Ok (eviction, in_evict_addr r, default (stack_bytes stack) (in_evict_buff r),
          count_write count true (with_cache (in_cache r) n))
  end.

Definition markTranslationMetadata (address : Z) (blocktype : block_type_t) (n : Nuca) : res Nuca :=
  c ← markMetadata (m_cache n) address blocktype; Ok (with_cache c n).

Definition nuca_measureStats (n : Nuca) : res Nuca := c ← measureStats (m_cache n); Ok (with_cache c n).

#[global] Instance nuca_interface : NucaCache Nuca := {
  nuca_read := nuca_cache_read;
  nuca_write := nuca_cache_write
}.

End nuca.
Arguments Nuca : clear implicits.

(** ** Operations that return

    Code without unbounded recursion never runs out of fuel. *)

Definition returns {A} (r : res A) : Prop := r <> Err Diverges.

Create HintDb returns.

Section returning.
Context {A B : Type}.

Lemma returns_bind (m : res A) (k : A -> res B) :
  returns m -> (forall x, returns (k x)) -> returns (m ≫= k).
Proof. unfold returns. destruct m as [x|f]; cbn; [auto|congruence]. Qed.

Lemma returns_Ok (x : A) : returns (Ok x).
Proof. done. Qed.

Lemma returns_rd (l : list A) i : returns (rd l i).
Proof. apply rd_returns. Qed.
Lemma returns_wr (l : list A) i x : returns (wr l i x).
Proof. apply wr_returns. Qed.
Lemma returns_deref (p : option A) : returns (deref p).
Proof. by destruct p. Qed.
Lemma returns_find_loop p idx : (forall i, returns (p i)) -> returns (find_loop p idx).
Proof.
  intros Hp. induction idx as [|i idx IH]; cbn; [done|]. unfold returns in *.
  specialize (Hp i). destruct (p i) as [[]|]; cbn; congruence.
Qed.
Lemma returns_fold_loop (f : A -> nat -> res A) acc idx :
  (forall x i, returns (f x i)) -> returns (fold_loop f acc idx).
Proof.
  intros Hf. revert acc. induction idx as [|i idx IH]; intros acc; cbn; [done|].
  specialize (Hf acc i). unfold returns in *. destruct (f acc i); cbn; [apply IH|congruence].
Qed.

End returning.

Lemma returns_check b f : f <> Diverges -> returns (check b f).
Proof. unfold returns. destruct b; cbn; congruence. Qed.
Lemma returns_udiv a b : returns (udiv a b).
Proof. unfold udiv, returns. by destruct (negb _). Qed.

#[export] Hint Resolve returns_Ok returns_rd returns_wr returns_deref returns_udiv : returns.

(** Go through the code of an operation. *)
Ltac go_through :=
  repeat first
  [ done
  | solve [auto with returns]
  | apply returns_check
  | apply returns_find_loop; intros ?
  | apply returns_fold_loop; intros ? ?
  | apply returns_bind; [|intros ?]
  | match goal with |- returns (match ?x with _ => _ end) => destruct x end ].

Lemma returns_umod a b : returns (umod a b).
Proof. unfold umod. go_through. Qed.
Lemma returns_getLinearAddress a addr : returns (getLinearAddress a addr).
Proof. unfold getLinearAddress, getLinearBlock. go_through. Qed.
#[export] Hint Resolve returns_umod returns_getLinearAddress : returns.

Lemma returns_splitAddress c addr : returns (splitAddress c addr).
Proof. unfold splitAddress, hash_set_index. go_through. Qed.
Lemma returns_slice l from n : returns (slice l from n).
Proof. unfold slice. go_through. Qed.
Lemma returns_splice l from d : returns (splice l from d).
Proof. unfold splice. go_through. Qed.
Lemma returns_clone d s : returns (clone d s).
Proof. unfold clone. go_through. Qed.
#[export] Hint Resolve returns_splitAddress returns_slice returns_splice returns_clone : returns.

Lemma returns_splitAddressOffset c addr : returns (splitAddressOffset c addr).
Proof. unfold splitAddressOffset. go_through. Qed.
Lemma returns_set_find s tag : returns (set_find s tag).
Proof. unfold set_find. go_through. Qed.
#[export] Hint Resolve returns_splitAddressOffset returns_set_find : returns.

(** A policy whose searches end. *)
Class PolicyReturns (P : Type) `{!ReplacementPolicy P} : Prop := {
  policy_get_returns s p e : returns (getReplacementIndex s p e);
  policy_update_returns s i p e : returns (updateReplacementIndex s i p e)
}.
#[export] Hint Resolve policy_get_returns policy_update_returns : returns.

Class QueueReturns (Q : Type) `{!QueueModel Q} : Prop :=
  queue_returns t d (q : Q) : returns (computeQueueDelay t d q).
#[export] Hint Resolve queue_returns : returns.

Section cache_returns.
Context {P : Type} `{!ReplacementPolicy P} `{!PolicyReturns P}.
Implicit Types c : Cache P.

Lemma returns_put_set c i s si : returns (put_set c i s si).
Proof. unfold put_set. go_through. Qed.
Lemma returns_get_set c i : returns (get_set c i).
Proof. unfold get_set. go_through. Qed.
Local Hint Resolve returns_put_set returns_get_set : returns.

Lemma returns_touch_line (s : CacheSet P) i off acc buff bytes upd si :
  returns (touch_line s i off acc buff bytes upd si).
Proof. unfold touch_line, read_line, write_line. go_through. Qed.
Local Hint Resolve returns_touch_line : returns.

Lemma returns_accessSingleLine c addr acc buff bytes upd tlb :
  returns (accessSingleLine c addr acc buff bytes upd tlb).
Proof. unfold accessSingleLine. go_through. Qed.

Lemma returns_peekSingleLine c addr : returns (peekSingleLine c addr).
Proof. unfold peekSingleLine. go_through. Qed.

Lemma returns_set_insert (s : CacheSet P) info fill ev want e : returns (set_insert s info fill ev want e).
Proof. unfold set_insert, evict_victim, fill_line. go_through. Qed.
Local Hint Resolve returns_set_insert : returns.

Lemma returns_count_insertion ev b c : returns (count_insertion ev b c).
Proof. unfold count_insertion, count_evicted, bump. go_through. Qed.
Local Hint Resolve returns_count_insertion : returns.

Lemma returns_insertSingleLine c addr fill ev want ctl bt :
  returns (insertSingleLine c addr fill ev want ctl bt).
Proof. unfold insertSingleLine, CacheBlockInfo_create. go_through. Qed.

Lemma returns_mark_modified l c : returns (mark_modified l c).
Proof. unfold mark_modified, modify_block. go_through. Qed.

End cache_returns.
#[export] Hint Resolve returns_accessSingleLine returns_peekSingleLine returns_insertSingleLine
  returns_mark_modified : returns.

(** The NUCA cache keeps the promise that the directory controller relies on. *)
Section nuca_returns.
Context {P : Type} `{!ReplacementPolicy P} `{!PolicyReturns P} {Q : Type} `{!QueueModel Q} `{!QueueReturns Q}.

Lemma returns_accessDataArray t (n : Nuca P Q) : returns (accessDataArray t n).
Proof. unfold accessDataArray, bw_getRoundedLatency. go_through. Qed.
Local Hint Resolve returns_accessDataArray : returns.

#[global] Instance nuca_keeps_returning : @NucaReturns (Nuca P Q) _.
Proof.
  split; intros; [change (returns (nuca_cache_read n a d t c))|change (returns (nuca_cache_write n a d e t c))];
    [unfold nuca_cache_read|unfold nuca_cache_write, buffer_arg]; go_through.
Qed.

End nuca_returns.

(** *** LRU replacement and the contention queue *)

Lemma returns_make_youngest n bits i : returns (make_youngest n bits i).
Proof. unfold make_youngest, age_step. go_through. Qed.
Lemma returns_moveToMRU s i p : returns (LRU.moveToMRU s i p).
Proof. unfold LRU.moveToMRU. auto using returns_bind, returns_make_youngest with returns. Qed.
#[export] Hint Resolve returns_moveToMRU : returns.

Lemma returns_env_increment i e : returns (env_increment i e).
Proof. unfold env_increment, info_increment. go_through. Qed.
Lemma returns_env_incrementAttempt i e : returns (env_incrementAttempt i e).
Proof. unfold env_incrementAttempt, info_incrementAttempt. go_through. Qed.
#[export] Hint Resolve returns_env_increment returns_env_incrementAttempt : returns.

Lemma returns_evict_attempts s l p e : returns (LRU.evict_attempts s l p e).
Proof.
  revert p e. induction l as [|a l IH]; intros p e; cbn [LRU.evict_attempts]; [done|].
  unfold LRU.lru_search, LRU.lru_step, isValidReplacement, qbs_query, env_charge. go_through.
Qed.
#[export] Hint Resolve returns_evict_attempts : returns.

#[global] Instance LRU_returns : PolicyReturns LRU.CacheSetLRU.
Proof.
  split; intros; cbn [getReplacementIndex updateReplacementIndex LRU.LRU_policy];
    [unfold LRU.getReplacementIndex, find_invalid|unfold LRU.updateReplacementIndex]; go_through.
Qed.

Lemma returns_find_unit times t u idx : returns (find_unit times t u idx).
Proof. revert u. induction idx as [|i idx IH]; intros u; cbn [find_unit]; go_through. Qed.
#[export] Hint Resolve returns_find_unit : returns.

#[global] Instance contention_returns : QueueReturns ContentionModel.
Proof.
  intros t d q. unfold computeQueueDelay, contention_queue, contention_computeQueueDelay, getCompletionTime.
  go_through.
Qed.

(** ** What the NUCA cache holds

    The lines of the cache are described as in [Cache]; a queue model keeps an invariant of its
    own, under which it always answers. *)

Class QueueLaws (Q : Type) `{!QueueModel Q} := {
  queue_wf : Q -> Prop;
  queue_total t d q : queue_wf q -> exists r q', computeQueueDelay t d q = Ok (r, q') /\ queue_wf q'
}.

#[global] Program Instance contention_laws : QueueLaws ContentionModel := {| queue_wf := cm_ok |}.
Next Obligation.
  intros t d c Hc. unfold computeQueueDelay, contention_queue, contention_computeQueueDelay.
  destruct (getCompletionTime_total t d 0 c Hc) as (r & c' & -> & Hc'). cbn. eauto.
Qed.

Section nuca_lines.
Context {P : Type} `{!ReplacementPolicy P} `{!ReplacementPolicyLaws P} {Q : Type} `{!QueueModel Q} `{!QueueLaws Q}.
Implicit Types (n : Nuca P Q) (c : Cache P).

Record nuca_wf n : Prop := {
  nw_cache : cache_wf (m_cache n);
  nw_plain : bypasses_metadata (m_cache n) = false;
  nw_type : m_cache_type (m_cache n) = PR_L1_CACHE;
  nw_block : nuca_block_size n = m_blocksize (cb (m_cache n));
  nw_bandwidth : m_data_array_bandwidth n <> 0;
  nw_queue : forall q, m_queue_model n = Some q -> queue_wf q
}.

(** The first byte of a line. *)
Definition line_start n (a : Z) : Prop := in_range 64 a /\ line_offset (cb (m_cache n)) a = 0.
Definition holds n (a : Z) : Prop := line_of (cb (m_cache n)) a ∈ resident (m_cache n).
#[global] Instance holds_dec n a : Decision (holds n a).
Proof. unfold holds. apply _. Defined.

(** A block that is found can be marked without an effect on the lines. *)
Lemma mark_modified_effect c a :
  cache_wf c -> bypasses_metadata c = false -> in_range 64 a ->
  if decide (line_of (cb c) a ∈ resident c) then
    exists l c', peekSingleLine c a = Ok (Some l) /\ mark_modified l c = Ok c' /\ cache_wf c' /\
      resident c' = resident c /\ cb c' = cb c /\ bypasses_metadata c' = false /\ m_cache_type c' = m_cache_type c
  else peekSingleLine c a = Ok None.
Proof.
  intros Hc Hby Ha. unfold peekSingleLine.
  destruct (address_set c Hc a Ha) as (si & s & E & Hsi & Hs & Hget & Hw). rewrite E. cbn [mbind res_bind].
  rewrite Hget. cbn [mbind res_bind]. pose proof (lw_set _ _ _ _ Hw) as Hset.
  pose proof (resident_at_set c Hc a Ha si s E Hs) as Hres.
  case_decide as Hin.
  2: { rewrite (proj2 (set_find_None _ _ Hset _ (line_of_valid c Hc a Ha))) by tauto. cbn [mbind res_bind].
       by rewrite Hby. }
  destruct (set_find_is_Some _ _ Hset (line_of (cb c) a) (proj1 Hres Hin)) as [w Hf]. rewrite Hf.
  cbn [mbind res_bind]. destruct (set_find_Some _ _ Hset _ _ Hf) as (Hlt & b & Hb & _).
  exists (InSet si w). unfold mark_modified. cbn [modify_block]. rewrite Hget. cbn [mbind res_bind].
  rewrite (proj2 (rd_Ok _ _ _) Hb). cbn [mbind res_bind].
  rewrite wr_lt by (by eapply lookup_lt_Some). cbn [mbind res_bind].
  destruct (line_set_wf_retag c _ s _ w b (setCState MODIFIED b) Hw Hb eq_refl eq_refl) as [Hw' Hv].
  destruct (put_same c si s _ _ Hc Hs ltac:(reflexivity) Hw' Hv) as (c' & E' & Hc' & Hr & Hcb & Hby').
  exists c'. split_and!; try done; [by rewrite Hby'|by eapply put_set_type].
Qed.

Lemma accessDataArray_Ok t n :
  nuca_wf n -> exists r n', accessDataArray t n = Ok (r, n') /\ nuca_wf n' /\ m_cache n' = m_cache n.
Proof.
  intros [H1 H2 H3 H4 H5 H6]. unfold accessDataArray. destruct (m_queue_model n) as [q|] eqn:Eq.
  - unfold bw_getRoundedLatency, udiv. destruct (Z.eqb_spec (m_data_array_bandwidth n) 0); [done|].
    cbn [negb check mbind res_bind].
    destruct (queue_total t (((u32 (8 * nuca_block_size n) *64 US_1) +64 US_1 / 2) / m_data_array_bandwidth n) q
      (H6 q eq_refl)) as (r & q' & E & Hq'). rewrite E. cbn [mbind res_bind].
    eexists _, _. split; [done|]. split; [|done]. split; try done. by intros x [= <-].
  - cbn [mbind res_bind]. eexists _, _. split; [done|]. split; [|done]. split; done.
Qed.

Lemma with_cache_wf n c :
  nuca_wf n -> cache_wf c -> bypasses_metadata c = false -> m_cache_type c = PR_L1_CACHE ->
  cb c = cb (m_cache n) -> nuca_wf (with_cache c n).
Proof. intros [] ?? ? E. split; try done. cbn. by rewrite E. Qed.

Lemma count_read_wf n count miss : nuca_wf n -> nuca_wf (count_read count miss n).
Proof. by intros []. Qed.
Lemma count_write_wf n count miss : nuca_wf n -> nuca_wf (count_write count miss n).
Proof. by intros []. Qed.

(** A line is read whole. *)
Lemma line_fits n a : nuca_wf n -> line_start n a ->
  (0 <= nuca_block_size n) /\ line_offset (cb (m_cache n)) a + nuca_block_size n <= m_blocksize (cb (m_cache n)).
Proof.
  intros Hn [_ ->]. rewrite (nw_block _ Hn). split; [|lia].
  destruct (address_set _ (nw_cache _ Hn) 0 ltac:(split; lia)) as (si & s & _ & _ & _ & _ & Hw).
  rewrite <- (lw_block _ _ _ _ Hw). apply (set_wf_size _ _ (lw_set _ _ _ _ Hw)).
Qed.

(** A read reports residence, and changes no line. *)
Lemma nuca_read_effect n a buf now count :
  nuca_wf n -> line_start n a -> nuca_block_size n <= Z.of_nat (length buf) ->
  exists lat w d n', nuca_cache_read n a buf now count = Ok (lat, w, d, n') /\ nuca_wf n' /\
    resident (m_cache n') = resident (m_cache n) /\ cb (m_cache n') = cb (m_cache n) /\
    w = (if decide (holds n a) then HitWhere.NUCA_CACHE else HitWhere.MISS).
Proof.
  intros Hn Ha Hbuf. pose proof (line_fits n a Hn Ha) as [Hb Hle]. destruct Ha as [Ha _].
  pose proof (mark_modified_effect (m_cache n) a (nw_cache _ Hn) (nw_plain _ Hn) Ha) as Hp.
  unfold nuca_cache_read. destruct (decide (holds n a)) as [Hin|Hin]; unfold holds in Hin;
    [rewrite decide_True in Hp by done; destruct Hp as (l & _ & Hp & _)|rewrite decide_False in Hp by done];
    rewrite Hp; cbn [mbind res_bind].
  2: { eexists _, _, _, _. split; [done|]. split; [by apply count_read_wf|]. by split_and!. }
  destruct (access_effect (m_cache n) a LOAD (Some buf) (nuca_block_size n) true (nw_cache _ Hn) (nw_plain _ Hn)
    Ha Hb Hle) as (r & c & E & _ & Hc & Hr & Hcb & Hby); [by intros d [= <-]|].
  pose proof (access_type_kept _ _ _ _ _ _ _ _ (nw_plain _ Hn) E) as Ht. rewrite (nw_type _ Hn) in Ht.
  rewrite E. cbn [mbind res_bind].
  destruct (accessDataArray_Ok (now +64 cl_getLatency (m_tags_access_time n)) _ (with_cache_wf n c Hn Hc Hby Ht Hcb))
    as (t & n' & -> & Hn' & Hc').
  cbn [mbind res_bind]. eexists _, _, _, _. split; [done|]. split; [by apply count_read_wf|].
  cbn. rewrite Hc'. by split_and!.
Qed.

(** A write of a line that is held. *)
Lemma nuca_write_hit n a d stack now count :
  nuca_wf n -> line_start n a -> nuca_block_size n <= Z.of_nat (length d) -> holds n a ->
  exists n', nuca_cache_write n a (Live d) stack now count =
      Ok (stack_flag stack, stack_address stack, stack_bytes stack, n') /\ nuca_wf n' /\
    resident (m_cache n') = resident (m_cache n) /\ cb (m_cache n') = cb (m_cache n).
Proof.
  intros Hn Ha Hd Hin. pose proof (line_fits n a Hn Ha) as [Hb Hle]. destruct Ha as [Ha _].
  pose proof (mark_modified_effect (m_cache n) a (nw_cache _ Hn) (nw_plain _ Hn) Ha) as Hp.
  unfold nuca_cache_write, holds in *. rewrite decide_True in Hp by done.
  destruct Hp as (l & c & -> & Em & Hc & Hr & Hcb & Hby & Ht). cbn [mbind res_bind buffer_arg]. rewrite Em.
  cbn [mbind res_bind]. rewrite <- Hcb in Hle.
  destruct (access_effect c a STORE (Some d) (nuca_block_size n) true Hc Hby Ha Hb Hle)
    as (r & c2 & E & _ & Hc2 & Hr2 & Hcb2 & Hby2); [by intros x [= <-]|].
  pose proof (access_type_kept _ _ _ _ _ _ _ _ Hby E) as Ht2. rewrite Ht, (nw_type _ Hn) in Ht2.
  rewrite E. cbn [mbind res_bind]. rewrite Hcb in Hcb2.
  destruct (accessDataArray_Ok (now +64 cl_getLatency (m_tags_access_time n)) _
    (with_cache_wf n c2 Hn Hc2 Hby2 Ht2 Hcb2)) as (t & n' & -> & Hn' & Hc').
  cbn [mbind res_bind]. eexists. split; [done|]. split; [by apply count_write_wf|]. cbn. rewrite Hc'. cbn.
  by rewrite Hr2.
Qed.

(** A write of a line that is not held: a victim may leave. *)
Lemma nuca_write_miss n a d stack now count ev ea eb n' :
  nuca_wf n -> line_start n a -> nuca_block_size n <= Z.of_nat (length d) -> ~ holds n a ->
  nuca_cache_write n a (Live d) stack now count = Ok (ev, ea, eb, n') ->
  nuca_wf n' /\ cb (m_cache n') = cb (m_cache n) /\
  exists v, resident (m_cache n') = {[line_of (cb (m_cache n)) a]} ∪ without v (resident (m_cache n)) /\
    (forall t, v = Some t -> t ∈ resident (m_cache n)) /\
    (ev = true -> exists t, v = Some t /\ ea = tagToAddress (cb (m_cache n)) t).
Proof.
  intros Hn [Ha _] Hd Hin.
  pose proof (mark_modified_effect (m_cache n) a (nw_cache _ Hn) (nw_plain _ Hn) Ha) as Hp.
  unfold nuca_cache_write, holds in *. rewrite decide_False in Hp by done. rewrite Hp.
  cbn [mbind res_bind buffer_arg].
  destruct (insert_effect (m_cache n) a (Some d) (CacheBlockInfo_new PrL1CacheBlockInfo) true None DATA
    (nw_cache _ Hn) (nw_plain _ Hn) Ha Hin) as (si & s & _ & _ & Hm).
  { rewrite (nw_type _ Hn). apply evict_obj_receives. }
  { intros x [= <-]. rewrite <- (nw_block _ Hn). lia. }
  destruct (getReplacementIndex _ _ _) as [[[i p'] e']|f]; [|by rewrite Hm].
  destruct Hm as (r & E & Hc & Hcb & Hby & Hr & Hev & Hea & _).
  pose proof (insert_type_kept _ _ _ _ _ _ _ _ (nw_plain _ Hn) E) as Ht. rewrite (nw_type _ Hn) in Ht.
  rewrite E. cbn [mbind res_bind]. intros [= <- <- <- <-].
  split; [by apply count_write_wf, with_cache_wf|]. split; [done|]. exists (evicted r).
  split; [done|]. split; [done|]. intros [He _]%andb_true_iff. unfold evicted. rewrite He. eauto.
Qed.

(** C33: The NUCA cache keeps what is written to it: after a write of a line, a read of that line
    hits; every line that was held is still held, except for at most one victim, which leaves
    only when the written line was not held; and a victim that the write reports for write-back
    is the line that left. The invariant is kept. *)
Theorem nuca_write_then_read n a d stack now count ev ea eb n' buf now' count' :
  nuca_wf n -> line_start n a -> nuca_block_size n <= Z.of_nat (length d) ->
  nuca_block_size n <= Z.of_nat (length buf) ->
  nuca_cache_write n a (Live d) stack now count = Ok (ev, ea, eb, n') ->
  nuca_wf n' /\
  (exists lat d' n2, nuca_cache_read n' a buf now' count' = Ok (lat, HitWhere.NUCA_CACHE, d', n2)) /\
  exists v, resident (m_cache n') = {[line_of (cb (m_cache n)) a]} ∪ without v (resident (m_cache n)) /\
    if decide (holds n a) then v = None
    else ev = true -> exists t, v = Some t /\ t ∈ resident (m_cache n) /\ ea = tagToAddress (cb (m_cache n)) t.
Proof.
  intros Hn Ha Hd Hbuf E.
  assert (H : nuca_wf n' /\ cb (m_cache n') = cb (m_cache n) /\ nuca_block_size n' = nuca_block_size n /\
    exists v, resident (m_cache n') = {[line_of (cb (m_cache n)) a]} ∪ without v (resident (m_cache n)) /\
    if decide (holds n a) then v = None
    else ev = true -> exists t, v = Some t /\ t ∈ resident (m_cache n) /\ ea = tagToAddress (cb (m_cache n)) t).
  { case_decide as Hin.
    - destruct (nuca_write_hit n a d stack now count Hn Ha Hd Hin) as (n1 & E1 & Hn1 & Hr & Hcb).
      rewrite E1 in E. injection E as _ _ _ <-. split; [done|]. split; [done|].
      split; [by rewrite (nw_block _ Hn), (nw_block _ Hn1), Hcb|].
      exists None. split; [|done]. rewrite Hr. unfold holds in Hin. set_solver.
    - destruct (nuca_write_miss n a d stack now count ev ea eb n' Hn Ha Hd Hin E) as (Hn1 & Hcb & v & Hr & Hv & He).
      split; [done|]. split; [done|]. split; [by rewrite (nw_block _ Hn), (nw_block _ Hn1), Hcb|].
      exists v. split; [done|]. intros Hev. destruct (He Hev) as (t & -> & ->). eauto. }
  destruct H as (Hn1 & Hcb & Hbs & v & Hr & Hv). split; [done|]. split; [|by exists v].
  assert (Ha' : line_start n' a) by (destruct Ha; split; by rewrite ?Hcb).
  destruct (nuca_read_effect n' a buf now' count' Hn1 Ha') as (lat & w & d' & n2 & Er & _ & _ & _ & ->).
  { by rewrite Hbs. }
  rewrite decide_True in Er by (unfold holds; rewrite Hcb, Hr; set_solver). eauto.
Qed.

End nuca_lines.

(** ** A NUCA slice of four sets of two ways, behind the directory *)


Definition small_nuca : Nuca LRU.CacheSetLRU ContentionModel :=
  mkNuca 64 (mkLatency 1000 8) (mkLatency 1000 2) 64 tiny (Some (ContentionModel_new 1)) 0 0 0 0.

Lemma small_nuca_wf : nuca_wf small_nuca.
Proof.
  destruct tiny_wf as (Hc & _ & Hby & Ht). split; [done|done|done|by vm_compute|done|].
  intros q [= <-]. right. by split.
Qed.

Lemma nuca_write_then_read_witness :
  match nuca_cache_write small_nuca 0x1040 (Live (replicate 64 7)) (mkStack [] false 0) 10 true with
  | Ok (_, _, _, n') =>
      exists lat d' n2, nuca_cache_read n' 0x1040 (replicate 64 0) 20 true = Ok (lat, HitWhere.NUCA_CACHE, d', n2)
  | Err _ => False
  end.
Proof.
  destruct (nuca_cache_write small_nuca 0x1040 (Live (replicate 64 7)) (mkStack [] false 0) 10 true)
    as [[[[ev ea] eb] n']|f] eqn:E; [|by vm_compute in E].
  apply (nuca_write_then_read small_nuca 0x1040 (replicate 64 7) (mkStack [] false 0) 10 true ev ea eb n'
           (replicate 64 0) 20 true small_nuca_wf);
    [split; [split; lia|by vm_compute]|by vm_compute|by vm_compute|exact E].
Defined.

(** A core reads a line, which the reply of the DRAM also brings into the NUCA cache, and gives it
    up; the flushed data is written to a NUCA cache that holds the line. *)
Definition unset : Stack := mkStack (replicate 64 0xcc) true 0xdead40.
Definition nuca_run : option (res (net * DramDirectoryCntlr (Nuca LRU.CacheSetLRU ContentionModel))) :=
  match DramDirectoryCntlr_new 0 Example.ahl (Some small_nuca) 4 2 64 4 4 "full_map" 1000 0 "mesi"
          (fun _ => 0) (fun _ => 0) 0 with
  | Ok s => drive unset net0 s [Example.core_msg SH_REQ 0 64; Example.dram_reply 0 64;
                                Example.data_reply FLUSH_REP 0 64]
  | Err f => Some (Err f)
  end.

Lemma nuca_run_sends :
  match nuca_run with
  | Some (Ok (_, s)) => exists p, sent s = [p] /\ m_msg_type (p_msg p) = DRAM_WRITE_REQ /\
      sm_address (p_msg p) = stack_address unset /\ m_data_buf (p_msg p) = Live (stack_bytes unset)
  | _ => False
  end.
Proof. vm_compute. eexists. split; [reflexivity|]. by split_and!. Qed.

(** A write to the NUCA cache that hits leaves the controller's variables [eviction],
    [evict_address] and [evict_buf] as they are, and the controller has not initialised them: when
    the flag happens to be set, a reachable run writes the contents of an uninitialised block to
    the DRAM, at an uninitialised address. *)
Theorem nuca_hit_writes_garbage :
  exists ev n (s : DramDirectoryCntlr (Nuca LRU.CacheSetLRU ContentionModel)), reachable unset ev n s /\
    exists p, sent s = [p] /\ m_msg_type (p_msg p) = DRAM_WRITE_REQ /\
      sm_address (p_msg p) = stack_address unset /\ m_data_buf (p_msg p) = Live (stack_bytes unset).
Proof.
  pose proof nuca_run_sends as H. unfold nuca_run in H.
  destruct (DramDirectoryCntlr_new _ _ _ _ _ _ _ _ _ _ _ _ _ _ _) as [s0|f] eqn:E0; [|done].
  destruct (drive unset net0 s0 _) as [[[n s]|f]|] eqn:Ed; [|done..].
  edestruct (drive_reachable unset [] net0 s0) as [ev Hr]; [|exact Ed|by exists ev, n, s].
  eapply reach_init; [| | |exact E0]; unfold in_range; lia.
Qed.
