(* ===== verification/Tlb.v ===== *)
(** * Translation look-aside buffers

    [parametric_dram_directory_msi/translation_components/]: the TLB built on a cache
    ([tlb.cc]) with its prefetch queue, the TLB prefetchers ([tlb_prefetching/]), the
    hierarchy of TLBs ([tlb_subsystem.cc]) with its page size predictor
    ([page_size_prediction/]), the page walk caches ([ptw_caching/pwc.cc]) with the filters
    of [page_table_filters/], and the holding registers of page walks ([ptmshrs.h]). *)

From stdpp Require Import base tactics list numbers gmap sets strings pretty.
From Stdlib Require Import ZArith Lia.
From S2P Require Import Prelude Utils CacheBase CacheBlock CacheSet Replacement Cache CacheProps Timing PageTable.
Local Open Scope Z_scope.
Local Open Scope mach_scope.

(** ** Prefetchers *)

(** A translation that becomes available at [q_timestamp]. *)
Record query_entry := mkQuery {
  q_timestamp : Z; q_page_size : Z; q_ppn : Z; q_address : Z; q_payload_bits : Z }.

(** The base class walks nothing and returns a value-initialised entry; no prefetcher
    overrides it. *)
Definition PTWTransparent (address eip : Z) : query_entry := mkQuery 0 0 0 0 0.

Record prefetch_stats := mkPrefetchStats {
  prefetch_attempts : Z; successful_prefetches : Z; failed_prefetches : Z }.

Record StridePrefetcher := mkStride { sp_length : Z; sp_stats : prefetch_stats }.

(** One iteration of the loop over the neighbours of the page. *)
Definition stride_step (VPN eip : Z) (acc : list query_entry * prefetch_stats) (i : Z)
  : list query_entry * prefetch_stats :=
  let '(result, st) := acc in
  if i =? 0 then acc
  else
    let e := PTWTransparent (u64 (Z.shiftl (u64 (VPN + i)) 12)) eip in
    if q_ppn e =? 0
    then (result, mkPrefetchStats (prefetch_attempts st +64 1) (successful_prefetches st) (failed_prefetches st +64 1))
    else (result ++ [e],
          mkPrefetchStats (prefetch_attempts st +64 1) (successful_prefetches st +64 1) (failed_prefetches st)).

Definition stride_prefetch (address eip : Z) (p : StridePrefetcher) : list query_entry * StridePrefetcher :=
  let '(result, st) := foldl (stride_step (Z.shiftr address 12) eip) ([], sp_stats p)
                         (seqZ (- sp_length p) (2 * sp_length p + 1)) in
  (result, mkStride (sp_length p) st).

Record H2Prefetcher := mkH2 { A_address : Z; B_address : Z; C_address : Z }.
Definition h2_prefetch (address eip : Z) (p : H2Prefetcher) : list query_entry * H2Prefetcher :=
  let VPN := Z.shiftr address 12 in
  let p := mkH2 (B_address p) (C_address p) VPN in
  (if negb (A_address p =? 0) && negb (B_address p =? 0) && negb (C_address p =? 0) then
     [PTWTransparent (u64 (Z.shiftl (VPN +64 (C_address p -64 B_address p)) 12)) eip;
      PTWTransparent (u64 (Z.shiftl (VPN +64 (B_address p -64 A_address p)) 12)) eip]
   else [], p).

(** The counters of the arbitrary-stride prefetcher. *)
Module AspCounter.
Inductive t :=
| successful_prefetches | prefetch_attempts | failed_prefetches | queries | pc_hits | pc_misses | pc_evictions
| new_stride_observed | stride_same | stride_change | zero_stride | positive_stride | negative_stride
| threshold_reached | trained_entries | trained_but_no_prefetch
| extra_prefetches_issued | extra_prefetches_successful | extra_prefetches_failed
| sum_abs_stride | prefetch_distance_sum | max_saturation_counter | table_accesses.
#[global] Instance t_eq_dec : EqDecision t.
Proof. solve_decision. Defined.
End AspCounter.
Definition ASPStats : Type := AspCounter.t -> Z.
Definition asp_count (s : ASPStats) (kn : AspCounter.t * Z) : ASPStats :=
  fun k => if decide (k = fst kn) then s k +64 snd kn else s k.

Record entry_prefetcher := mkAspEntry { PC : Z; vaddr : Z; stride : Z; saturation_counter : Z }.
Record ArbitraryStridePrefetcher := mkAsp {
  prefetch_threshold : Z; extra_prefetch : bool; asp_table : list entry_prefetcher; asp_stats : ASPStats }.

Definition ArbitraryStridePrefetcher_new (table_bits : nat) (prefetch_threshold : Z) (extra_prefetch : bool)
  : ArbitraryStridePrefetcher :=
  mkAsp prefetch_threshold extra_prefetch (replicate (2 ^ table_bits) (mkAspEntry 0 0 (-1) 0)) (fun _ => 0).

(** The training of an entry on an access of its instruction, with what it counts. *)
Definition asp_train (VPN : Z) (e : entry_prefetcher) : entry_prefetcher * list (AspCounter.t * Z) :=
  let new_stride := swrap 64 (swrap 64 VPN - swrap 64 (vaddr e)) in
  let sign := if new_stride =? 0 then AspCounter.zero_stride
              else if 0 <? new_stride then AspCounter.positive_stride else AspCounter.negative_stride in
  if stride e =? -1 then
    (mkAspEntry (PC e) (vaddr e) new_stride (u32 (saturation_counter e + 1)), [(sign, 1); (AspCounter.new_stride_observed, 1)])
  else if stride e =? new_stride then
    (mkAspEntry (PC e) (vaddr e) (stride e) (u32 (saturation_counter e + 1)), [(sign, 1); (AspCounter.stride_same, 1)])
  else (mkAspEntry (PC e) (vaddr e) new_stride 0, [(sign, 1); (AspCounter.stride_change, 1)]).

(** The walks an entry asks for when it is trained. *)
Definition asp_walks (threshold : Z) (extra : bool) (VPN eip : Z) (e : entry_prefetcher)
  : list query_entry * list (AspCounter.t * Z) :=
  if u32 threshold <? saturation_counter e then
    let abs_stride := u64 (if 0 <=? stride e then stride e else swrap 64 (- stride e)) in
    let r := PTWTransparent (u64 (Z.shiftl (u64 (swrap 64 VPN + stride e)) 12)) eip in
    let x := PTWTransparent (u64 (Z.shiftl (u64 (swrap 64 VPN - stride e)) 12)) eip in
    let ok := negb (q_ppn r =? 0) in
    let extra_ok := negb (q_ppn x =? 0) in
    ((if ok then [r] else []) ++ (if extra && extra_ok then [x] else []),
     [(AspCounter.threshold_reached, 1); (AspCounter.sum_abs_stride, abs_stride);
      (AspCounter.prefetch_distance_sum, abs_stride); (AspCounter.prefetch_attempts, 1)] ++
     (if ok then [(AspCounter.successful_prefetches, 1); (AspCounter.trained_entries, 1)]
      else [(AspCounter.failed_prefetches, 1); (AspCounter.trained_but_no_prefetch, 1)]) ++
     (if extra then (AspCounter.extra_prefetches_issued, 1) ::
        (if extra_ok then [(AspCounter.extra_prefetches_successful, 1); (AspCounter.successful_prefetches, 1)]
         else [(AspCounter.extra_prefetches_failed, 1); (AspCounter.failed_prefetches, 1)])
      else []))
  else ([], []).

Definition asp_saturation (e : entry_prefetcher) (s : ASPStats) : ASPStats :=
  fun k => if decide (k = AspCounter.max_saturation_counter) then Z.max (s k) (saturation_counter e) else s k.

Definition asp_prefetch (address eip : Z) (p : ArbitraryStridePrefetcher)
  : res (list query_entry * ArbitraryStridePrefetcher) :=
  index ← umod eip (Z.of_nat (length (asp_table p)));
  let index := Z.to_nat index in
  let VPN := Z.shiftr address 12 in
  let st := foldl asp_count (asp_stats p) [(AspCounter.queries, 1); (AspCounter.table_accesses, 1)] in
  e ← rd (asp_table p) index;
  let '(result, e, st) :=
    if PC e =? eip then
      let '(e, counts) := asp_train VPN e in
      let st := asp_saturation e (foldl asp_count st ((AspCounter.pc_hits, 1) :: counts)) in
      let '(result, counts) := asp_walks (prefetch_threshold p) (extra_prefetch p) VPN eip e in
      (result, mkAspEntry (PC e) VPN (stride e) (saturation_counter e), foldl asp_count st counts)
    else
      ([], mkAspEntry eip VPN (-1) 0,
       foldl asp_count st ((AspCounter.pc_misses, 1) :: (if PC e =? 0 then [] else [(AspCounter.pc_evictions, 1)]))) in
  t ← wr (asp_table p) index e;
  Ok (result, mkAsp (prefetch_threshold p) (extra_prefetch p) t st).

(** The dynamic class of a prefetcher. None of them overrides [notifyVictim], which does
    nothing. *)
Inductive TLBPrefetcher :=
| Stride (p : StridePrefetcher) | H2 (p : H2Prefetcher) | ASP (p : ArbitraryStridePrefetcher).

Definition performPrefetch (address eip : Z) (p : TLBPrefetcher) : res (list query_entry * TLBPrefetcher) :=
  match p with
  | Stride p => let '(r, p) := stride_prefetch address eip p in Ok (r, Stride p)
  | H2 p => let '(r, p) := h2_prefetch address eip p in Ok (r, H2 p)
  | ASP p => '(r, p) ← asp_prefetch address eip p; Ok (r, ASP p)
  end.

(** ** The priority queue of pending prefetches

    [std::priority_queue] leaves the order of equal elements open: it is any container
    whose top has the smallest timestamp. *)
Class PriorityQueue := {
  pq_pop : list query_entry -> option (query_entry * list query_entry);
  pq_pop_None l : pq_pop l = None <-> l = [];
  pq_pop_Some l e l' : pq_pop l = Some (e, l') -> l ≡ₚ e :: l' /\ Forall (fun x => q_timestamp e <= q_timestamp x) l'
}.

(** ** The TLB *)

Inductive TLBtype := Instruction | Data | Unified.
#[global] Instance TLBtype_eq_dec : EqDecision TLBtype.
Proof. solve_decision. Defined.

(** A counter with its breakdown by instructions and data, which only a unified TLB keeps. *)
Record Split := mkSplit { s_all : Z; s_instruction : Z; s_data : Z }.
Definition count_split (ty : TLBtype) (instruction : bool) (s : Split) : Split :=
  mkSplit (s_all s +64 1)
    (if bool_decide (ty = Unified) && instruction then s_instruction s +64 1 else s_instruction s)
    (if bool_decide (ty = Unified) && negb instruction then s_data s +64 1 else s_data s).

Record TLBStats := mkTLBStats {
  m_access : Split; m_hit : Split; m_miss : Split; m_insertions : Split; m_eviction : Split;
  m_pq_dedup_skipped : Z
}.
Definition TLBStats_new : TLBStats :=
  let z := mkSplit 0 0 0 in mkTLBStats z z z z z 0.

Record TLBAllocResult := mkAlloc { evicted : bool; alloc_address : Z; alloc_page_size : Z; alloc_ppn : Z }.

Section tlb.
Context {P : Type} `{!ReplacementPolicy P} `{!PriorityQueue}.

Record TLB := mkTLB {
  tlb_name : string;
  tlb_cache : Cache P;
  tlb_type : string;
  prefetchers : option (list TLBPrefetcher);
  tlb_page_size_list : list Z;
  m_allocate_miss : bool;
  m_prefetch : bool;
  max_prefetch_count : Z;
  m_access_latency : ComponentLatency;
  entry_priority_queue : list query_entry;
  m_pq_region_refcount : gmap Z Z;
  tlb_stats : TLBStats
}.
Implicit Type t : TLB.

Definition with_tlb_cache (c : Cache P) t : TLB :=
  mkTLB (tlb_name t) c (tlb_type t) (prefetchers t) (tlb_page_size_list t) (m_allocate_miss t) (m_prefetch t)
    (max_prefetch_count t) (m_access_latency t) (entry_priority_queue t) (m_pq_region_refcount t) (tlb_stats t).
Definition with_prefetchers (l : list TLBPrefetcher) t : TLB :=
  mkTLB (tlb_name t) (tlb_cache t) (tlb_type t) (Some l) (tlb_page_size_list t) (m_allocate_miss t) (m_prefetch t)
    (max_prefetch_count t) (m_access_latency t) (entry_priority_queue t) (m_pq_region_refcount t) (tlb_stats t).
Definition with_pending (q : list query_entry) (m : gmap Z Z) t : TLB :=
  mkTLB (tlb_name t) (tlb_cache t) (tlb_type t) (prefetchers t) (tlb_page_size_list t) (m_allocate_miss t) (m_prefetch t)
    (max_prefetch_count t) (m_access_latency t) q m (tlb_stats t).
Definition with_tlb_stats (s : TLBStats) t : TLB :=
  mkTLB (tlb_name t) (tlb_cache t) (tlb_type t) (prefetchers t) (tlb_page_size_list t) (m_allocate_miss t) (m_prefetch t)
    (max_prefetch_count t) (m_access_latency t) (entry_priority_queue t) (m_pq_region_refcount t) s.

Definition getType t : TLBtype :=
  if bool_decide (tlb_type t = "Instruction"%string) then Instruction
  else if bool_decide (tlb_type t = "Data"%string) then Data else Unified.

Definition supportsPageSize (page_size : Z) t : bool := existsb (fun ps => ps =? page_size) (tlb_page_size_list t).

Definition tlb_latency t : Z := cl_getLatency (m_access_latency t).

Definition TLB_new (name : string) (create : nat -> res P) (info : option CacheSetInfoLRU) (loc : Z)
    (latency : ComponentLatency) (num_entries associativity : Z) (page_size_list : list Z) (tlb_type : string)
    (allocate_on_miss prefetch : bool) (tpb : option (list TLBPrefetcher)) (max_prefetch_count : Z) : res TLB :=
  sets ← udiv num_entries associativity;
  c ← Cache_new (name ++ "_cache") sets associativity 8 create info PR_L1_CACHE HASH_MASK None page_size_list loc false;
  check (u32 (sets * associativity) =? num_entries) LogError;;
  Ok (mkTLB name c tlb_type tpb page_size_list allocate_on_miss prefetch max_prefetch_count latency [] ∅ TLBStats_new).

(** The counters of an insertion. *)
Definition count_alloc (instruction eviction : bool) t : TLB :=
  let s := tlb_stats t in
  with_tlb_stats (mkTLBStats (m_access s) (m_hit s) (m_miss s) (count_split (getType t) instruction (m_insertions s))
    (if eviction then count_split (getType t) instruction (m_eviction s) else m_eviction s)
    (m_pq_dedup_skipped s)) t.

(** [allocate]: a prefetch queue takes only its own entries. The notification of the
    prefetchers and of the observers about victims has no effect. *)
Definition tlb_allocate (address : Z) (count : bool) (page_size ppn : Z) (self_alloc instruction : bool) t
  : res (TLBAllocResult * TLB) :=
  if m_prefetch t && negb self_alloc then Ok (mkAlloc false 0 0 0, t)
  else
    _ ← splitAddressTLB (cb (tlb_cache t)) address page_size;
    r ← insertSingleLineTLB (tlb_cache t) address None (CacheBlockInfo_new PrL1CacheBlockInfo) false None DATA
          page_size ppn;
    c ← (if self_alloc then
           '(o, c) ← accessSingleLineTLB (in_cache r) address LOAD None 0 false;
           match o with
           | Some a => modify_block (setOption PREFETCH) (ar_loc a) c
           | None => Ok c
           end
         else Ok (in_cache r));
    let t := with_tlb_cache c t in
    let t := if count || self_alloc then count_alloc instruction (in_eviction r) t else t in
    Ok (mkAlloc (in_eviction r) (in_evict_addr r) (m_page_size (in_evict_info r)) (CacheBlock.ppn (in_evict_info r)), t).

(** The 32 KB region of a pending prefetch. *)
Definition region_of (address : Z) : Z := Z.shiftr address 15.

Definition release_region (e : query_entry) (m : gmap Z Z) : gmap Z Z :=
  match m !! region_of (q_address e) with
  | Some n => if u32 (n - 1) =? 0 then delete (region_of (q_address e)) m
              else <[region_of (q_address e) := u32 (n - 1)]> m
  | None => m
  end.

(** The loop that moves completed prefetches into the TLB; each pass takes one entry off the
    queue, which bounds the fuel. *)
Fixpoint materialize (fuel : nat) (now : Z) t : res TLB :=
  match fuel with
  | O => Err Diverges
  | S fuel =>
      match pq_pop (entry_priority_queue t) with
      | None => Ok t
      | Some (e, rest) =>
          if q_timestamp e <=? now then
            let t := with_pending rest (release_region e (m_pq_region_refcount t)) t in
            '(_, t) ← tlb_allocate (q_address e) false (q_page_size e) (q_ppn e) true false t;
            materialize fuel now t
          else Ok t
      end
  end.

(** The insertion of a batch of prefetches into the queue. *)
Fixpoint enqueue_batch (l : list query_entry) (current : Z) t : Z * TLB :=
  match l with
  | [] => (current, t)
  | e :: l =>
      if q_ppn e =? 0 then enqueue_batch l current t
      else if u64 (max_prefetch_count t) <=? current then (current, t)
      else
        let r := region_of (q_address e) in
        enqueue_batch l (current + 1)
          (with_pending (entry_priority_queue t ++ [e])
             (<[r := u32 (default 0 (m_pq_region_refcount t !! r) + 1)]> (m_pq_region_refcount t)) t)
  end.

(** Whether the first valid entry of a batch lies in a region that is already pending. *)
Definition batch_deduped (l : list query_entry) t : bool :=
  match filter (fun e => q_ppn e <> 0) l with
  | e :: _ => bool_decide (is_Some (m_pq_region_refcount t !! region_of (q_address e)))
  | [] => false
  end.

Definition count_dedup t : TLB :=
  let s := tlb_stats t in
  with_tlb_stats (mkTLBStats (m_access s) (m_hit s) (m_miss s) (m_insertions s) (m_eviction s)
    (m_pq_dedup_skipped s +64 1)) t.

(** The loop over the prefetchers, which stops when the queue is full. *)
Fixpoint prefetch_loop (idx : list nat) (address eip current : Z) (ps : list TLBPrefetcher) t : res TLB :=
  match idx with
  | [] => Ok (with_prefetchers ps t)
  | i :: idx =>
      if current <? u64 (max_prefetch_count t) then
        p ← rd ps i;
        '(generated, p) ← performPrefetch address eip p;
        ps ← wr ps i p;
        if batch_deduped generated t then prefetch_loop idx address eip current ps (count_dedup t)
        else
          let '(current, t) := enqueue_batch generated current t in
          prefetch_loop idx address eip current ps t
      else Ok (with_prefetchers ps t)
  end.

Definition count_lookup (field : bool) (instruction : bool) t : TLB :=
  let s := tlb_stats t in
  with_tlb_stats (if field
    then mkTLBStats (m_access s) (count_split (getType t) instruction (m_hit s)) (m_miss s) (m_insertions s)
           (m_eviction s) (m_pq_dedup_skipped s)
    else mkTLBStats (m_access s) (m_hit s) (count_split (getType t) instruction (m_miss s)) (m_insertions s)
           (m_eviction s) (m_pq_dedup_skipped s)) t.
Definition count_tlb_access (instruction : bool) t : TLB :=
  let s := tlb_stats t in
  with_tlb_stats (mkTLBStats (count_split (getType t) instruction (m_access s)) (m_hit s) (m_miss s)
    (m_insertions s) (m_eviction s) (m_pq_dedup_skipped s)) t.

(** [lookup]; [pt] says whether a page table was passed. A hit is returned as the entry that
    the pointer points to. *)
Definition tlb_lookup (address now : Z) (model_count : bool) (eip : Z) (pt instruction : bool) t
  : res (option CacheBlockInfo * TLB) :=
  t ← (if m_prefetch t then materialize (S (length (entry_priority_queue t))) now t else Ok t);
  let t := if model_count then count_tlb_access instruction t else t in
  '(o, c) ← accessSingleLineTLB (tlb_cache t) address LOAD None 0 true;
  let t := with_tlb_cache c t in
  '(hit, t) ← match o with
              | Some a =>
                  if hasOption PREFETCH (ar_block a) then
                    c ← modify_block (clearOption PREFETCH) (ar_loc a) (tlb_cache t);
                    Ok (Some (clearOption PREFETCH (ar_block a)), with_tlb_cache c t)
                  else Ok (Some (ar_block a), t)
              | None => Ok (None, t)
              end;
  t ← match prefetchers t with
      | Some ps =>
          if m_prefetch t && pt then
            prefetch_loop (seq 0 (length ps)) address eip (Z.of_nat (length (entry_priority_queue t))) ps t
          else Ok t
      | None => Ok t
      end;
  match hit with
  | Some b => Ok (Some b, count_lookup true instruction t)
  | None => Ok (None, if model_count then count_lookup false instruction t else t)
  end.

Definition tlb_invalidate (address : Z) t : res (bool * TLB) :=
  '(r, c) ← invalidateSingleLineTLB (tlb_cache t) address; Ok (r, with_tlb_cache c t).

Definition tlb_contains (address : Z) t : res bool := containsTLB (tlb_cache t) address.

End tlb.
Arguments TLB : clear implicits.

(** ** Holding registers of page walks *)

Record MSHREntry := mkMSHREntry { request_time : Z; completion_time : Z }.
Record MSHR := mkMSHR { max_entries : Z; mshr_entries : list MSHREntry; max_time : Z; min_time : Z }.

(** Both times are default-constructed, which makes them zero. *)
Definition MSHR_new (max_entries : Z) : MSHR := mkMSHR max_entries [] 0 0.
Definition canAllocate (m : MSHR) : bool := Z.of_nat (length (mshr_entries m)) <? max_entries m.
Definition mshr_allocate (e : MSHREntry) (m : MSHR) : MSHR :=
  mkMSHR (max_entries m) (mshr_entries m ++ [e]) (max_time m)
    (if completion_time e <? min_time m then completion_time e else min_time m).
Definition getSlotAllocationDelay (request_incoming : Z) (m : MSHR) : Z :=
  match mshr_entries m with
  | [] => 0
  | _ =>
      if max_entries m <? Z.of_nat (length (mshr_entries m)) + 1 then
        if request_incoming <? min_time m then min_time m -64 request_incoming else 0
      else 0
  end.
Fixpoint drop_completed (now : Z) (l : list MSHREntry) : list MSHREntry :=
  match l with
  | e :: l' => if completion_time e <=? now then drop_completed now l' else l
  | [] => []
  end.
Definition removeCompletedEntries (now : Z) (m : MSHR) : MSHR :=
  mkMSHR (max_entries m) (drop_completed now (mshr_entries m)) (max_time m) (min_time m).
Definition getOccupancy (m : MSHR) : Z := Z.of_nat (length (mshr_entries m)).

(** ** The page size predictor *)

Record PageSizePredictor := mkPredictor { history : list Z; tables : list (list bool) }.
Definition PageSizePredictor_new : PageSizePredictor :=
  mkPredictor (replicate 4 12) (replicate 16 (replicate 32 false)).
Definition get_history_index (p : PageSizePredictor) : Z :=
  foldl (fun index size => Z.lor (u32 (Z.shiftl index 1)) (Z.b2z (size =? 21))) 0 (history p).
Definition table_index (virtual_address : Z) : nat := Z.to_nat (Z.land (Z.shiftr virtual_address 12) 0x1F).
Definition predictPageSize (virtual_address : Z) (p : PageSizePredictor) : res Z :=
  t ← rd (tables p) (Z.to_nat (get_history_index p));
  prediction ← rd t (table_index virtual_address);
  Ok (if prediction : bool then 21 else 12).
Definition predictor_update (virtual_address page_size : Z) (p : PageSizePredictor) : res PageSizePredictor :=
  let h := Z.to_nat (get_history_index p) in
  t ← rd (tables p) h;
  t ← wr t (table_index virtual_address) (page_size =? 21);
  tables ← wr (tables p) h t;
  Ok (mkPredictor (tail (history p) ++ [page_size]) tables).

(** ** Page walk caches and the filters of page walks *)

Section filters.
Context {P : Type} `{!ReplacementPolicy P}.

(** The counters are allocated and not initialised. *)
Record PWC := mkPWC {
  pwc_caches : list (Cache P); pwc_access : list Z; pwc_miss : list Z; pwc_perfect : bool }.

Definition PWC_new (name : string) (create : nat -> res P) (info : list (option CacheSetInfoLRU)) (loc : Z)
    (associativities entries : list Z) (junk : nat -> Z) (perfect : bool) : res PWC :=
  let num_caches := length entries in
  caches ← fold_loop (fun l i =>
      e ← rd entries i; a ← rd associativities i; si ← rd info i;
      sets ← udiv e a;
      c ← Cache_new (name ++ "_L" ++ pretty (S num_caches - i)%nat) sets a 8 create si PR_L1_CACHE HASH_MASK None [0] loc false;
      Ok (l ++ [c])) [] (seq 0 num_caches);
  Ok (mkPWC caches (map junk (seq 0 num_caches)) (map junk (seq num_caches num_caches)) perfect).

Definition pwc_allocate (address : Z) (cache_index : nat) (p : PWC) : res PWC :=
  c ← rd (pwc_caches p) cache_index;
  _ ← splitAddress (cb c) address;
  r ← insertSingleLine c address None (CacheBlockInfo_new PrL1CacheBlockInfo) false None PAGE_TABLE_DATA;
  l ← wr (pwc_caches p) cache_index (in_cache r);
  Ok (mkPWC l (pwc_access p) (pwc_miss p) (pwc_perfect p)).

Definition count_at (b : bool) (l : list Z) (i : nat) : res (list Z) :=
  if b then x ← rd l i; wr l i (x +64 1) else Ok l.

Definition pwc_lookup (address : Z) (allocate_on_miss : bool) (level_index : nat) (count : bool) (p : PWC)
  : res (bool * PWC) :=
  c ← rd (pwc_caches p) level_index;
  '(o, c) ← accessSingleLine c address LOAD None 0 true false;
  l ← wr (pwc_caches p) level_index c;
  acc ← count_at count (pwc_access p) level_index;
  match o with
  | Some _ => Ok (true, mkPWC l acc (pwc_miss p) (pwc_perfect p))
  | None =>
      miss ← count_at count (pwc_miss p) level_index;
      let p := mkPWC l acc miss (pwc_perfect p) in
      p ← (if allocate_on_miss then pwc_allocate address level_index p else Ok p);
      Ok (false, p)
  end.

Record RadixFilter := mkRadixFilter { rf_pwc : option PWC; m_pwc_enabled : bool; max_pwc_level : nat }.

(** The loop over the accesses of a walk. *)
Fixpoint filter_accesses (max_pwc_level : nat) (count : bool) (l : list PTWAccess) (p : PWC)
  : res (list PTWAccess * PWC) :=
  match l with
  | [] => Ok ([], p)
  | a :: l =>
      '(hit, p) ← (if (depth a <? max_pwc_level)%nat
                   then pwc_lookup (physical_addr a) true (depth a) count p else Ok (false, p));
      '(rest, p) ← filter_accesses max_pwc_level count l p;
      Ok (if hit : bool then rest else a :: rest, p)
  end.

(** The result is rebuilt without the requested frames. *)
Definition filtered (r : PTWResult) (l : list PTWAccess) : PTWResult :=
  mkResult (page_size r) l (r_ppn r) (pwc_latency r) (fault_happened r) 0 0.

Definition radix_filterPTWResult (r : PTWResult) (count : bool) (f : RadixFilter) : res (PTWResult * RadixFilter) :=
  if m_pwc_enabled f then
    p ← deref (rf_pwc f);
    '(l, p) ← filter_accesses (max_pwc_level f) count (accesses r) p;
    Ok (filtered r l, mkRadixFilter (Some p) true (max_pwc_level f))
  else Ok (filtered r [], f).

Definition lookupPWC (address : Z) (level : Z) (count : bool) (f : RadixFilter) : res (bool * RadixFilter) :=
  match rf_pwc f with
  | Some p =>
      if m_pwc_enabled f && (0 <=? level) && (level <? Z.of_nat (max_pwc_level f)) then
        '(b, p) ← pwc_lookup address true (Z.to_nat level) count p;
        Ok (b, mkRadixFilter (Some p) (m_pwc_enabled f) (max_pwc_level f))
      else Ok (false, f)
  | None => Ok (false, f)
  end.

Inductive BaseFilter := Radix (f : RadixFilter) | Default.
Definition filterPTWResult (r : PTWResult) (count : bool) (f : BaseFilter) : res (PTWResult * BaseFilter) :=
  match f with
  | Radix f => '(r, f) ← radix_filterPTWResult r count f; Ok (r, Radix f)
  | Default => Ok (r, Default)
  end.

End filters.
Arguments PWC : clear implicits.
Arguments RadixFilter : clear implicits.
Arguments BaseFilter : clear implicits.

(** ** The hierarchy *)

Section hierarchy.
Context {P : Type} `{!ReplacementPolicy P}.

(** The paths hold pointers to the TLBs of [tlbLevels]: at each level the positions in it. *)
Record TLBHierarchy := mkHierarchy {
  tlbLevels : list (list (TLB P));
  data_path : list (list nat);
  instruction_path : list (list nat);
  page_size_predictor : option PageSizePredictor;
  prefetch_enabled : bool
}.

Definition on_path (skip : TLBtype) (l : list (TLB P)) : list nat :=
  (filter (fun jt : nat * TLB P => getType (snd jt) <> skip) (zip (seq 0 (length l)) l)).*1.

(** The TLBs of a level, in the order of their construction, then the prefetch queues of the
    level that has them; the type of each says on which paths it lies. *)
Definition TLBHierarchy_new (levels : list (list (res (TLB P)))) (prefetch_enabled : bool) (prefetcher_level : nat)
    (pqs : list (res (TLB P))) (predictor : option PageSizePredictor) : res TLBHierarchy :=
  let build := fold_right (fun (t : res (TLB P)) acc => x ← t; l ← acc; Ok (x :: l)) (Ok []) in
  tlbs ← fold_loop (fun acc i =>
      l ← rd levels i;
      l ← build l;
      q ← (if prefetch_enabled && (S i =? prefetcher_level)%nat then build pqs else Ok []);
      Ok (acc ++ [l ++ q])) [] (seq 0 (length levels));
  Ok (mkHierarchy tlbs (map (on_path Instruction) tlbs) (map (on_path Data) tlbs) predictor prefetch_enabled).

Definition predictPagesize (virtual_address : Z) (h : TLBHierarchy) : res Z :=
  match page_size_predictor h with Some p => predictPageSize virtual_address p | None => Ok 12 end.

Definition updatePageSizePredictor (virtual_address page_size : Z) (h : TLBHierarchy) : res TLBHierarchy :=
  match page_size_predictor h with
  | Some p =>
      p ← predictor_update virtual_address page_size p;
      Ok (mkHierarchy (tlbLevels h) (data_path h) (instruction_path h) (Some p) (prefetch_enabled h))
  | None => Ok h
  end.

Definition get_tlb (i j : nat) (h : TLBHierarchy) : res (TLB P) := l ← rd (tlbLevels h) i; rd l j.
Definition put_tlb (i j : nat) (t : TLB P) (h : TLBHierarchy) : res TLBHierarchy :=
  l ← rd (tlbLevels h) i; l ← wr l j t; ls ← wr (tlbLevels h) i l;
  Ok (mkHierarchy ls (data_path h) (instruction_path h) (page_size_predictor h) (prefetch_enabled h)).

End hierarchy.
Arguments TLBHierarchy : clear implicits.
