(* ===== verification/TlbProps.v ===== *)
(** * What the translation look-aside buffers promise

    The entries of a TLB agree with a translation function, such as that of the page table:
    look-ups return what it says and insertions keep the agreement, whatever is evicted
    ([entries_hold], [tlb_ok], [hierarchy_ok]). The prefetch queues stay empty and the holding
    registers of page walks never delay a walk. The page walk caches ([pwc_ok]) serve every
    walk. *)

From stdpp Require Import base tactics list numbers gmap sets strings pretty.
From Stdlib Require Import ZArith Lia.
From S2P Require Import Prelude Utils CacheBase CacheBlock CacheSet Replacement Cache CacheProps Timing PageTable Tlb.
Local Open Scope Z_scope.
Local Open Scope mach_scope.

(** ** Replacement without a cache controller *)

(** A policy in a state in which it needs no controller to find a victim. *)
Class StandaloneVictims (P : Type) `{!ReplacementPolicy P} `{!ReplacementPolicyLaws P} := {
  standalone : P -> Prop;
  standalone_victim ty s p si :
    set_wf ty s -> policy_wf s p si -> standalone p ->
    exists i p' e', getReplacementIndex s p (mkEnv si None) = Ok (i, p', e') /\ standalone p';
  standalone_update s i p e p' e' :
    updateReplacementIndex s i p e = Ok (p', e') -> standalone p -> standalone p'
}.

Section lru.
Import LRU.

Lemma moveToMRU_attempts s i p p' : moveToMRU s i p = Ok p' -> m_num_attempts p' = m_num_attempts p.
Proof. unfold moveToMRU. intros H. by inv_res. Qed.

Lemma evict_attempts_attempts s l p e i p' e' :
  evict_attempts s l p e = Ok (i, p', e') -> m_num_attempts p' = m_num_attempts p.
Proof.
  revert p e. induction l as [|k l IH]; intros p e H; cbn [evict_attempts] in H; [done|].
  inv_res. destruct a0; inv_res; [apply IH in H; rewrite H|]; by eapply moveToMRU_attempts.
Qed.

#[global] Program Instance LRU_standalone : StandaloneVictims CacheSetLRU := {|
  standalone p := (m_num_attempts p <= 1)%nat
|}.
Next Obligation.
  intros ty s p si Hs Hw Hp. cbn beta in Hp.
  destruct (always_victim ty s p (mkEnv si None) Hs Hw) as (i & p' & e' & E); [intros ?; exfalso; lia|].
  exists i, p', e'. split; [done|]. cbn [CacheSet.getReplacementIndex LRU_policy] in E. unfold getReplacementIndex in E. inv_res.
  destruct a; [inv_res; by rewrite (moveToMRU_attempts _ _ _ _ E1)|]. by rewrite (evict_attempts_attempts _ _ _ _ _ _ _ E).
Qed.
Next Obligation.
  intros s i p e p' e' H Hp. cbn beta in *. cbn [CacheSet.updateReplacementIndex LRU_policy] in H. unfold updateReplacementIndex in H. inv_res.
  by rewrite (moveToMRU_attempts _ _ _ _ E1).
Qed.
End lru.

(** ** Caches of translations *)

Section entries.
Context {P : Type} `{!ReplacementPolicy P} `{!ReplacementPolicyLaws P} `{!StandaloneVictims P}.
Implicit Types (c : Cache P) (s : CacheSet P).

Record tlb_set_ok s (si : option CacheSetInfoLRU) : Prop := {
  ts_wf : set_wf PR_L1_CACHE (base s);
  ts_policy : policy_wf (base s) (policy s) si;
  ts_standalone : standalone (policy s)
}.

Record tlbc_ok c : Prop := {
  tc_cb : cb_wf (cb c);
  tc_hash : hash_total (cb c);
  tc_type : m_cache_type c = PR_L1_CACHE;
  tc_len : length (m_sets c) = Z.to_nat (m_num_sets (cb c));
  tc_sizes : Forall (fun ps => 1 <= ps < 64) (m_pagesizes c);
  tc_sets i s : m_sets c !! i = Some s -> tlb_set_ok s (m_set_info c)
}.

(** The valid entries, and a predicate on them. *)
Definition entry_in c (b : CacheBlockInfo) : Prop :=
  exists i s w, m_sets c !! i = Some s /\ m_cache_block_info_array (base s) !! w = Some b /\ isValid b = true.
Definition entries_hold (R : CacheBlockInfo -> Prop) c : Prop := forall b, entry_in c b -> R b.

(** The set of an address at a page size. *)
Lemma tlbc_set c v ps :
  tlbc_ok c -> 1 <= ps < 64 ->
  exists si s, splitAddressTLB (cb c) v ps = Ok (Z.shiftr v ps, si) /\ m_sets c !! Z.to_nat si = Some s /\
    get_set c si = Ok s /\ tlb_set_ok s (m_set_info c).
Proof.
  intros Hc Hps. destruct (splitAddressTLB_total (cb c) v ps (tc_cb _ Hc) (tc_hash _ Hc) ltac:(lia)) as (si & E & Hsi).
  destruct (lookup_lt_is_Some_2 (m_sets c) (Z.to_nat si)) as [s Hs]; [rewrite (tc_len _ Hc); lia|].
  exists si, s. split_and!; [done|done|by apply rd_Ok|by apply (tc_sets _ Hc _ _ Hs)].
Qed.

Lemma tlb_tag_ne v ps : in_range 64 v -> 1 <= ps < 64 -> 0 <= Z.shiftr v ps < 2 ^ (64 - ps) /\ Z.shiftr v ps <> INVALID_TAG.
Proof.
  intros [H0 H1] Hps. rewrite Z.shiftr_div_pow2 by lia.
  assert (Hd : 0 <= v / 2 ^ ps < 2 ^ (64 - ps)).
  { split; [apply Z.div_pos; lia|]. apply Z.div_lt_upper_bound; [lia|]. rewrite <- Z.pow_add_r by lia.
    by replace (ps + (64 - ps)) with 64 by lia. }
  split; [done|]. assert (2 ^ (64 - ps) <= 2 ^ 63) by (apply Z.pow_le_mono_r; lia). unfold INVALID_TAG. lia.
Qed.

(** Storing a set. *)
Lemma tlbc_put c si s s' info :
  tlbc_ok c -> m_sets c !! Z.to_nat si = Some s -> info_shape (m_set_info c) info -> tlb_set_ok s' info ->
  exists c', put_set c si s' info = Ok c' /\ tlbc_ok c' /\ cb c' = cb c /\ m_pagesizes c' = m_pagesizes c /\
    m_sets c' = <[Z.to_nat si := s']> (m_sets c).
Proof.
  intros Hc Hs Hi Hs'. unfold put_set. rewrite wr_lt by (by eapply lookup_lt_Some). eexists. split; [done|]. split_and!; [|done..].
  destruct Hc as [H1 H2 H3 H4 H5 H6]. split; cbn; try done; [by rewrite length_insert|].
  intros i s1. rewrite list_lookup_insert. case_decide as E; [intros [= <-]; done|]. intros Hl. destruct (H6 i s1 Hl) as [Ha Hb Hd].
  split; [done| |done]. by eapply policy_wf_ext.
Qed.

(** The entries after a set was stored. *)
Lemma entries_put c c' si s s' b :
  m_sets c !! Z.to_nat si = Some s -> m_sets c' = <[Z.to_nat si := s']> (m_sets c) -> entry_in c' b ->
  entry_in c b \/ exists w, m_cache_block_info_array (base s') !! w = Some b /\ isValid b = true.
Proof.
  intros Hs E (i & s1 & w & Hi & Hw & Hv). rewrite E, list_lookup_insert in Hi. case_decide as D; [|left; by exists i, s1, w].
  injection Hi as <-. right. eauto.
Qed.

Lemma entries_hold_put R c c' si s s' :
  m_sets c !! Z.to_nat si = Some s -> m_sets c' = <[Z.to_nat si := s']> (m_sets c) -> entries_hold R c ->
  (forall w b, m_cache_block_info_array (base s') !! w = Some b -> isValid b = true ->
     R b \/ m_cache_block_info_array (base s) !! w = Some b) ->
  entries_hold R c'.
Proof.
  intros Hs E HR Hn b Hb. destruct (entries_put _ _ _ _ _ _ Hs E Hb) as [|(w & Hw & Hv)]; [auto|].
  destruct (Hn w b Hw Hv) as [|Ho]; [done|]. apply HR. by exists (Z.to_nat si), s, w.
Qed.

(** A look-up of an entry touches the replacement state only. *)
Lemma tlb_touch s si w upd :
  tlb_set_ok s si -> (w < m_associativity (base s))%nat ->
  exists s' si', touch_line s w 0 LOAD None 0 upd si = Ok (None, s', si') /\ base s' = base s /\ tlb_set_ok s' si' /\
    info_shape si si'.
Proof.
  intros [Hw Hp Hst] Hlt. unfold touch_line. rewrite bool_decide_true by done. unfold read_line.
  pose proof (set_wf_size _ _ Hw) as Hsz. change (u32 (0 + 0)) with 0. rewrite (proj2 (Z.leb_le 0 _)) by lia.
  cbn [check mbind res_bind]. rewrite bool_decide_false by (intros [? ?]; done). cbn [mbind res_bind].
  destruct upd; [|exists s, si; split_and!; done].
  destruct (updateReplacementIndex_total _ _ _ (mkEnv si None) w Hw Hp Hlt) as (p' & e' & E & Hp' & Hsh).
  rewrite E. cbn [mbind res_bind]. do 2 eexists. split_and!; [done|done| |done]. split; [done|done|]. by eapply standalone_update.
Qed.

(** What a look-up finds. *)
Definition found c (v : Z) (sizes : list Z) (o : option access_result) : Prop :=
  match o with
  | Some a => entry_in c (ar_block a) /\ m_page_size (ar_block a) ∈ sizes /\
              m_tag (ar_block a) = Z.shiftr v (m_page_size (ar_block a))
  | None => forall ps si s w b, ps ∈ sizes -> splitAddressTLB (cb c) v ps = Ok (Z.shiftr v ps, si) ->
              m_sets c !! Z.to_nat si = Some s -> m_cache_block_info_array (base s) !! w = Some b ->
              m_tag b = Z.shiftr v ps -> m_page_size b = ps ->
              exists w' b', m_cache_block_info_array (base s) !! w' = Some b' /\ m_tag b' = Z.shiftr v ps /\ m_cstate b' = INVALID
  end.

Lemma accessTLB_spec c v upd sizes :
  tlbc_ok c -> in_range 64 v -> Forall (fun ps => 1 <= ps < 64) sizes ->
  exists o c', accessTLB_loop c v LOAD None 0 upd sizes = Ok (o, c') /\ tlbc_ok c' /\ cb c' = cb c /\
    m_pagesizes c' = m_pagesizes c /\ (forall R, entries_hold R c -> entries_hold R c') /\ found c v sizes o.
Proof.
  intros Hc Hv. induction sizes as [|ps sizes IH]; intros Hsz; cbn [accessTLB_loop].
  { exists None, c. split_and!; try done. intros ps si s w b Hin. by apply elem_of_nil in Hin. }
  apply Forall_cons in Hsz as [Hps Hsz]. specialize (IH Hsz).
  destruct (tlbc_set c v ps Hc Hps) as (si & s & E & Hs & Hget & Hset). unfold splitAddressTLBOffset. rewrite E. cbn [mbind res_bind].
  rewrite Hget. cbn [mbind res_bind]. rewrite (set_findTLB_pure _ _ (ts_wf _ _ Hset)). cbn [mbind res_bind].
  assert (Hskip : (forall w b, m_cache_block_info_array (base s) !! w = Some b -> m_tag b = Z.shiftr v ps -> m_page_size b = ps ->
             exists w' b', m_cache_block_info_array (base s) !! w' = Some b' /\ m_tag b' = Z.shiftr v ps /\ m_cstate b' = INVALID) ->
             exists o c', accessTLB_loop c v LOAD None 0 upd sizes = Ok (o, c') /\ tlbc_ok c' /\ cb c' = cb c /\
               m_pagesizes c' = m_pagesizes c /\ (forall R, entries_hold R c -> entries_hold R c') /\ found c v (ps :: sizes) o).
  { intros Hn. destruct IH as (o & c' & Eo & H1 & H2 & H3 & H4 & H5). exists o, c'. split_and!; [done..|]. destruct o as [a|]; cbn in *.
    - destruct H5 as (? & ? & ?). split_and!; [done|by right|done].
    - intros ps' si' s' w b [-> |Hin]%elem_of_cons E' Hs' Hb Ht Hp; [|by eapply H5].
      rewrite E in E'. injection E' as <-. rewrite Hs in Hs'. injection Hs' as <-. by eapply Hn. }
  destruct (first_such (has_tag_size (base s) (Z.shiftr v ps) ps) (ways_down (base s))) as [w|] eqn:Ef; cbn [mbind res_bind].
  - apply first_such_Some in Ef as [Hw%elem_of_ways_down Ht]. unfold has_tag_size in Ht.
    destruct (m_cache_block_info_array (base s) !! w) as [b|] eqn:Eb; [|done].
    apply andb_prop in Ht as [Ht%Z.eqb_eq Hp%Z.eqb_eq]. rewrite (proj2 (rd_Ok _ _ _) Eb). cbn [mbind res_bind].
    destruct (bool_decide (m_cstate b = INVALID)) eqn:Ei.
    { apply Hskip. apply bool_decide_eq_true in Ei. eauto. }
    destruct (tlb_touch s (m_set_info c) w upd Hset Hw) as (s' & si' & -> & Hb & Hset' & Hsh). cbn [mbind res_bind].
    destruct (tlbc_put c si s s' si' Hc Hs Hsh Hset') as (c' & -> & Hc' & Hcb & Hpg & Hsets). cbn [mbind res_bind].
    do 2 eexists. split_and!; [done|done|done|done| |].
    + intros R HR. eapply entries_hold_put; [exact Hs|exact Hsets|done|]. rewrite Hb. by right.
    + cbn. rewrite Hp. split_and!; [|by left|done]. exists (Z.to_nat si), s, w. split_and!; [done|done|].
      apply isValid_tag. rewrite Ht. by apply tlb_tag_ne.
  - apply Hskip. intros w b Hb Ht Hp. exfalso. rewrite first_such_None in Ef.
    assert (Hlt : (w < m_associativity (base s))%nat) by (rewrite <- (set_wf_array _ _ (ts_wf _ _ Hset)); by apply lookup_lt_Some in Hb).
    specialize (Ef w (proj2 (elem_of_ways_down _ w) Hlt)). unfold has_tag_size in Ef. by rewrite Hb, Ht, Hp, !Z.eqb_refl in Ef.
Qed.

(** ** Agreement with a translation *)

(** A translation of a whole page, and an entry that holds one. *)
Definition item_ok (T : Z -> option (Z * Z)) (x : Z * Z * Z) : Prop :=
  let '(a, ps, n) := x in
  in_range 64 a /\ 1 <= ps < 64 /\ forall v, in_range 64 v -> Z.shiftr v ps = Z.shiftr a ps -> T v = Some (n, ps).
Definition entry_ok (T : Z -> option (Z * Z)) (b : CacheBlockInfo) : Prop :=
  m_cstate b = SHARED /\ m_options b = 0 /\ 1 <= m_page_size b < 64 /\ 0 <= m_tag b < 2 ^ (64 - m_page_size b) /\
  forall v, in_range 64 v -> Z.shiftr v (m_page_size b) = m_tag b -> T v = Some (ppn b, m_page_size b).

Lemma entry_ok_mono (T T' : Z -> option (Z * Z)) b :
  (forall v x, T v = Some x -> T' v = Some x) -> entry_ok T b -> entry_ok T' b.
Proof. intros H (? & ? & ? & ? & Hv). do 4 (split; [done|]). intros v Hr Ht. by apply H, Hv. Qed.

(** The entry made for an item, and the item of an evicted entry. *)
Lemma item_entry T a ps n b :
  item_ok T (a, ps, n) -> m_cstate b = SHARED -> m_options b = 0 -> m_page_size b = ps -> m_tag b = Z.shiftr a ps ->
  ppn b = n -> entry_ok T b.
Proof.
  intros (Ha & Hps & Hv) H1 H2 H3 H4 H5. subst ps n. do 3 (split; [done|]). split; [rewrite H4; by apply tlb_tag_ne|].
  intros v Hr Ht. apply Hv; congruence.
Qed.

Lemma tag_address tag ps : 1 <= ps < 64 -> 0 <= tag < 2 ^ (64 - ps) ->
  in_range 64 (tagToAddressTLB tag ps) /\ Z.shiftr (tagToAddressTLB tag ps) ps = tag.
Proof.
  intros Hps Ht. unfold tagToAddressTLB. rewrite Z.shiftl_mul_pow2 by lia.
  assert (0 <= tag * 2 ^ ps < 2 ^ 64).
  { replace (2 ^ 64) with (2 ^ (64 - ps) * 2 ^ ps) by (rewrite <- Z.pow_add_r by lia; f_equal; lia).
    assert (0 < 2 ^ ps) by (apply Z.pow_pos_nonneg; lia). nia. }
  rewrite wrap_small by done. split; [done|]. rewrite Z.shiftr_div_pow2, Z.div_mul; [done|lia|lia].
Qed.

Lemma entry_item T b :
  entry_ok T b -> item_ok T (tagToAddressTLB (m_tag b) (m_page_size b), m_page_size b, ppn b).
Proof.
  intros (_ & _ & Hps & Ht & Hv). destruct (tag_address _ _ Hps Ht) as [Hr Hs]. split; [done|]. split; [done|].
  intros v Hr' E. apply Hv; [done|congruence].
Qed.

Lemma clone_options dst src b : clone dst src = Ok b -> m_options b = m_options src.
Proof. unfold clone. destruct (m_class dst), (m_class src); intros [= <-]; done. Qed.

Lemma evict_obj_ok : receives PR_L1_CACHE (CacheBlockInfo_new PrL1CacheBlockInfo).
Proof. intros b. unfold block_kind, same_kind. by destruct (m_class b). Qed.

(** An entry of an address at a page size is in its set. *)
Definition holds_entry c (v ps : Z) : Prop :=
  exists si s w b, splitAddressTLB (cb c) v ps = Ok (Z.shiftr v ps, si) /\ m_sets c !! Z.to_nat si = Some s /\
    m_cache_block_info_array (base s) !! w = Some b /\ m_tag b = Z.shiftr v ps /\ m_page_size b = ps.

Lemma insertTLB_spec T c a ps n :
  tlbc_ok c -> entries_hold (entry_ok T) c -> item_ok T (a, ps, n) ->
  exists r, insertSingleLineTLB c a None (CacheBlockInfo_new PrL1CacheBlockInfo) false None DATA ps n = Ok r /\
    tlbc_ok (in_cache r) /\ cb (in_cache r) = cb c /\ m_pagesizes (in_cache r) = m_pagesizes c /\
    entries_hold (entry_ok T) (in_cache r) /\ holds_entry (in_cache r) a ps /\
    (in_eviction r = true -> item_ok T (in_evict_addr r, m_page_size (in_evict_info r), ppn (in_evict_info r))).
Proof.
  intros Hc HR Hx. pose proof Hx as (Ha & Hps & _). unfold insertSingleLineTLB.
  destruct (tlbc_set c a ps Hc Hps) as (si & s & E & Hs & Hget & Hset). rewrite E, (tc_type _ Hc). cbn [CacheBlockInfo_create mbind res_bind].
  rewrite Hget. cbn [mbind res_bind]. set (info := setCState SHARED _).
  destruct (standalone_victim _ _ _ _ (ts_wf _ _ Hset) (ts_policy _ _ Hset) (ts_standalone _ _ Hset)) as (w & p' & e' & Eg & Hst).
  destruct (set_insert_spec PR_L1_CACHE s info None (CacheBlockInfo_new PrL1CacheBlockInfo) false (mkEnv (m_set_info c) None) w p' e')
    as (old & new & r & Eo & En & Er & Hev & Hinfo & (Sa & Sas & _ & _) & Hpol & Henv & Hw'); [apply Hset|apply Hset|done|apply evict_obj_ok|done|done|].
  destruct (getReplacementIndex_range _ _ _ (mkEnv (m_set_info c) None) _ _ _ (ts_wf _ _ Hset) (ts_policy _ _ Hset) Eg) as (Hi & Hp' & Hsh).
  rewrite Er. cbn [mbind res_bind].
  assert (Hset' : tlb_set_ok (ins_set r) (set_info (ins_env r))).
  { split; [done| |by rewrite Hpol]. rewrite Hpol, Henv. by eapply policy_wf_ext; [| |exact Hp']. }
  destruct (tlbc_put c si s (ins_set r) (set_info (ins_env r)) Hc Hs) as (c' & -> & Hc' & Hcb & Hpg & Hsets); [by rewrite Henv|done|].
  cbn [mbind res_bind]. destruct (clone_fields _ _ _ En) as (Ntag & Ncs & Nps & Nppn & _).
  assert (Hold : isValid old = true -> entry_ok T old) by (intros; apply HR; by exists (Z.to_nat si), s, w).
  assert (Hnew : entry_ok T new) by (eapply item_entry; [exact Hx|..]; rewrite ?(clone_options _ _ _ En); done).
  set (psz := if eviction r then _ else ps).
  assert (Hpsz : 1 <= psz < 64).
  { unfold psz. rewrite Hev. destruct (isValid old); [|done]. destruct (clone_fields _ _ _ (Hinfo eq_refl)) as (_ & _ & -> & _). by apply Hold. }
  rewrite (proj2 (Z.leb_le 0 psz)), (proj2 (Z.ltb_lt psz 64)) by lia. cbn [andb check mbind res_bind].
  eexists. split; [done|]. cbn [in_cache in_eviction in_evict_addr in_evict_info]. split_and!; [done|done|done| | |].
  - eapply entries_hold_put; [exact Hs|exact Hsets|done|]. intros k b. rewrite Sa. cbn [m_cache_block_info_array set_array].
    rewrite list_lookup_insert. case_decide; [intros [= <-]; by left|by right].
  - exists si, (ins_set r), w, new. rewrite Hcb, Hsets, Sa. cbn [m_cache_block_info_array set_array].
    split_and!; [done|apply list_lookup_insert_eq; by eapply lookup_lt_Some|apply list_lookup_insert_eq; by eapply lookup_lt_Some|by rewrite Ntag|by rewrite Nps].
  - unfold psz. rewrite Hev. intros Hv. rewrite Hv in *. destruct (clone_fields _ _ _ (Hinfo eq_refl)) as (-> & _ & -> & -> & _).
    by apply entry_item, Hold.
Qed.

(** A look-up in a cache that agrees with a translation. *)
Lemma accessTLB_agrees T c v upd :
  tlbc_ok c -> entries_hold (entry_ok T) c -> in_range 64 v ->
  exists o c', accessSingleLineTLB c v LOAD None 0 upd = Ok (o, c') /\ tlbc_ok c' /\ cb c' = cb c /\
    m_pagesizes c' = m_pagesizes c /\ entries_hold (entry_ok T) c' /\
    match o with
    | Some a => entry_ok T (ar_block a) /\ T v = Some (ppn (ar_block a), m_page_size (ar_block a))
    | None => forall ps, ps ∈ m_pagesizes c -> ~ holds_entry c v ps
    end.
Proof.
  intros Hc HR Hv. destruct (accessTLB_spec c v upd (m_pagesizes c) Hc Hv (tc_sizes _ Hc)) as (o & c' & E & Hc' & Hcb & Hpg & Hkeep & Hf).
  exists o, c'. split_and!; [done|done|done|done|by apply Hkeep|]. destruct o as [a|]; cbn [found] in Hf.
  - destruct Hf as (Hin & _ & Ht). pose proof (HR _ Hin) as He. split; [done|]. by apply He.
  - intros ps Hin (si & s & w & b & Es & Hs & Hb & Ht & Hp).
    destruct (Hf ps si s w b Hin Es Hs Hb Ht Hp) as (w' & b' & Hb' & Ht' & Hi).
    assert (Hps : 1 <= ps < 64) by exact (proj1 (Forall_forall _ _) (tc_sizes _ Hc) ps Hin).
    destruct (HR b') as (Hsh & _); [|congruence]. exists (Z.to_nat si), s, w'. split_and!; [done|done|].
    apply isValid_tag. rewrite Ht'. by apply tlb_tag_ne.
Qed.

End entries.

(** ** Prefetch queues *)

(** The base class returns an entry without a page number for every address. *)
Definition no_translation (l : list query_entry) : Prop := Forall (fun e => q_ppn e = 0) l.

Definition prefetcher_ok (p : TLBPrefetcher) : Prop :=
  match p with ASP p => (0 < length (asp_table p))%nat | _ => True end.

Lemma stride_step_empty VPN eip acc i :
  acc.1 = [] -> (stride_step VPN eip acc i).1 = [].
Proof. destruct acc as [l st]. cbn. intros ->. by destruct (i =? 0). Qed.

Lemma stride_prefetch_empty address eip p : (stride_prefetch address eip p).1 = [].
Proof.
  unfold stride_prefetch. set (l := seqZ _ _). set (acc := (_, sp_stats p)).
  assert (H : acc.1 = []) by done. clearbody acc l.
  assert ((foldl (stride_step (Z.shiftr address 12) eip) acc l).1 = []) as H'.
  { revert acc H. induction l as [|i l IH]; intros acc H; [done|]. cbn [foldl]. apply IH. by apply stride_step_empty. }
  by destruct (foldl _ _ _).
Qed.

Lemma performPrefetch_nothing address eip p :
  prefetcher_ok p -> exists l p', performPrefetch address eip p = Ok (l, p') /\ no_translation l /\ prefetcher_ok p'.
Proof.
  destruct p as [p|p|p]; cbn [performPrefetch prefetcher_ok]; intros Hp.
  - pose proof (stride_prefetch_empty address eip p) as H. destruct (stride_prefetch address eip p) as [l p']. cbn in H. subst l.
    do 2 eexists. split; [done|]. split; [constructor|done].
  - destruct (h2_prefetch address eip p) as [l p'] eqn:E. do 2 eexists. split; [done|]. split; [|done].
    unfold h2_prefetch in E. injection E as <- _. destruct (_ && _); repeat constructor.
  - unfold asp_prefetch, umod. rewrite (proj2 (Z.eqb_neq (Z.of_nat (length (asp_table p))) 0)) by lia. cbn [negb check mbind res_bind].
    set (i := Z.to_nat _). assert (Hi : (i < length (asp_table p))%nat).
    { unfold i. pose proof (Z.mod_pos_bound eip (Z.of_nat (length (asp_table p))) ltac:(lia)). lia. }
    destruct (rd_lookup _ _ Hi) as (e & -> & _). cbn [mbind res_bind].
    destruct (if PC e =? eip then _ else _) as [[l e'] st] eqn:E. rewrite wr_lt by done. cbn [mbind res_bind].
    do 2 eexists. split; [done|]. split; [|cbn; by rewrite length_insert].
    destruct (PC e =? eip); [|injection E as <- _ _; constructor]. destruct (asp_train _ _) as [e1 counts]. unfold asp_walks in E.
    destruct (_ <? _); injection E as <- _ _; [|constructor]. cbn. rewrite andb_false_r. constructor.
Qed.

Section tlbs.
Context {P : Type} `{!ReplacementPolicy P} `{!ReplacementPolicyLaws P} `{!StandaloneVictims P} {PQ : PriorityQueue}.
Implicit Types (t : TLB P).

Record tlb_ok (T : Z -> option (Z * Z)) t : Prop := {
  to_cache : tlbc_ok (tlb_cache t);
  to_entries : entries_hold (entry_ok T) (tlb_cache t);
  to_sizes : m_pagesizes (tlb_cache t) = tlb_page_size_list t;
  to_queue : entry_priority_queue t = [];
  to_prefetchers ps : prefetchers t = Some ps -> Forall prefetcher_ok ps
}.

(** What no operation changes. *)
Definition same_tlb t t' : Prop :=
  getType t' = getType t /\ tlb_page_size_list t' = tlb_page_size_list t /\ m_prefetch t' = m_prefetch t /\
  m_allocate_miss t' = m_allocate_miss t /\ m_access_latency t' = m_access_latency t.

Lemma tlb_ok_mono (T T' : Z -> option (Z * Z)) t :
  (forall v x, T v = Some x -> T' v = Some x) -> tlb_ok T t -> tlb_ok T' t.
Proof. intros Hm [? He ? ? ?]. split; try done. intros b Hb. eapply entry_ok_mono; [done|]. by apply He. Qed.

Lemma enqueue_nothing l current t : no_translation l -> enqueue_batch l current t = (current, t).
Proof. induction 1 as [|e l He _ IH]; [done|]. cbn [enqueue_batch]. by rewrite He. Qed.

Lemma dedup_nothing l t : no_translation l -> batch_deduped l t = false.
Proof.
  intros H. unfold batch_deduped. replace (filter (fun e => q_ppn e <> 0) l) with (@nil query_entry); [done|].
  induction H as [|e l He _ IH]; [done|]. rewrite list.filter_cons, decide_False by congruence. done.
Qed.

(** The loop over the prefetchers changes nothing but their own state. *)
Lemma prefetch_loop_nothing idx address eip current ps t :
  Forall prefetcher_ok ps -> Forall (fun i => i < length ps)%nat idx ->
  exists ps', prefetch_loop idx address eip current ps t = Ok (with_prefetchers ps' t) /\ Forall prefetcher_ok ps'.
Proof.
  revert current ps. induction idx as [|i idx IH]; intros current ps Hps Hidx; cbn [prefetch_loop]; [by exists ps|].
  apply Forall_cons in Hidx as [Hi Hidx]. destruct (current <? u64 (max_prefetch_count t)); [|by exists ps].
  destruct (rd_lookup ps i Hi) as (p & -> & Hp). cbn [mbind res_bind].
  destruct (performPrefetch_nothing address eip p (Forall_lookup_1 _ _ _ _ Hps Hp)) as (l & p' & -> & Hl & Hp'). cbn [mbind res_bind].
  rewrite wr_lt by done. cbn [mbind res_bind]. rewrite dedup_nothing, enqueue_nothing by done.
  apply IH; [by apply Forall_insert|by rewrite length_insert].
Qed.

Lemma prefetch_loop_all address eip current ps t :
  Forall prefetcher_ok ps ->
  exists ps', prefetch_loop (seq 0 (length ps)) address eip current ps t = Ok (with_prefetchers ps' t) /\ Forall prefetcher_ok ps'.
Proof. intros Hps. apply prefetch_loop_nothing; [done|]. apply Forall_forall. intros i Hi%elem_of_seq. lia. Qed.

Lemma tlb_ok_stats T s t : tlb_ok T t -> tlb_ok T (with_tlb_stats s t).
Proof. intros []. by split. Qed.

Lemma hasOption_clear o b : m_options b = 0 -> hasOption o b = false.
Proof. unfold hasOption. by intros ->. Qed.

(** A look-up succeeds and returns a translation that [T] confirms; a miss means that no
    entry of any page size is held. *)
Lemma tlb_lookup_spec T v now count eip pt instruction t :
  tlb_ok T t -> in_range 64 v ->
  exists o t', tlb_lookup v now count eip pt instruction t = Ok (o, t') /\ tlb_ok T t' /\ same_tlb t t' /\
    match o with
    | Some b => entry_ok T b /\ T v = Some (ppn b, m_page_size b)
    | None => forall ps, ps ∈ tlb_page_size_list t -> ~ holds_entry (tlb_cache t) v ps
    end.
Proof.
  intros Ht Hv. unfold tlb_lookup. rewrite (to_queue _ _ Ht).
  assert (Em : (if m_prefetch t then materialize (S (length (@nil query_entry))) now t else Ok t) = Ok t).
  { destruct (m_prefetch t); [|done]. cbn [materialize length]. by rewrite (to_queue _ _ Ht), (proj2 (pq_pop_None []) eq_refl). }
  rewrite Em. cbn [mbind res_bind]. set (t1 := if count then _ else t).
  assert (Ht1 : tlb_ok T t1 /\ same_tlb t t1 /\ tlb_cache t1 = tlb_cache t).
  { unfold t1. destruct count; split_and!; try done. by apply tlb_ok_stats. }
  destruct Ht1 as (Ht1 & Hs1 & Ec1).
  destruct (accessTLB_agrees T (tlb_cache t1) v true (to_cache _ _ Ht1) (to_entries _ _ Ht1) Hv) as (o & c & -> & Hc & Hcb & Hpg & He & Ho).
  cbn [mbind res_bind]. set (t2 := with_tlb_cache c t1).
  assert (Ht2 : tlb_ok T t2) by (destruct Ht1; split; cbn; try done; congruence).
  assert (Hs2 : same_tlb t t2) by exact Hs1.
  rewrite Ec1 in Ho. rewrite (to_sizes _ _ Ht) in Ho. set (hit := match o with Some a => Some (ar_block a) | None => None end).
  assert (Eh : match o with
               | Some a => if hasOption PREFETCH (ar_block a)
                           then c ← modify_block (clearOption PREFETCH) (ar_loc a) (tlb_cache t2);
                                Ok (Some (clearOption PREFETCH (ar_block a)), with_tlb_cache c t2)
                           else Ok (Some (ar_block a), t2)
               | None => Ok (None, t2)
               end = Ok (hit, t2)).
  { destruct o as [a|]; [|done]. destruct Ho as [(_ & Hop & _) _]. by rewrite (hasOption_clear _ _ Hop). }
  rewrite Eh. cbn [mbind res_bind].
  assert (Hpf : exists t3, match prefetchers t2 with
      | Some ps => if m_prefetch t2 && pt
                   then prefetch_loop (seq 0 (length ps)) v eip (Z.of_nat (length (entry_priority_queue t2))) ps t2 else Ok t2
      | None => Ok t2 end = Ok t3 /\ tlb_ok T t3 /\ same_tlb t2 t3).
  { destruct (prefetchers t2) as [ps|] eqn:Ep; [|by exists t2]. destruct (_ && _); [|by exists t2].
    destruct (prefetch_loop_all v eip (Z.of_nat (length (entry_priority_queue t2))) ps t2) as (ps' & -> & Hps').
    { by apply (to_prefetchers _ _ Ht2). }
    eexists. split; [done|]. split; [|done]. destruct Ht2. split; cbn; try done. by intros ? [= <-]. }
  destruct Hpf as (t3 & -> & Ht3 & Hs3). cbn [mbind res_bind].
  assert (Hs : same_tlb t t3) by (unfold same_tlb in *; destruct_and!; split_and!; congruence).
  destruct o as [a|]; cbn [hit].
  - do 2 eexists. split; [done|]. split; [by apply tlb_ok_stats|]. split; [exact Hs|exact Ho].
  - do 2 eexists. split; [done|]. destruct count; (split; [try apply tlb_ok_stats; done|]; split; [exact Hs|exact Ho]).
Qed.

(** An insertion that is not a prefetch. *)
Lemma tlb_allocate_spec T a ps n count instruction t :
  tlb_ok T t -> item_ok T (a, ps, n) ->
  exists r t', tlb_allocate a count ps n false instruction t = Ok (r, t') /\ tlb_ok T t' /\ same_tlb t t' /\
    (m_prefetch t = false -> holds_entry (tlb_cache t') a ps) /\
    (evicted r = true -> item_ok T (alloc_address r, alloc_page_size r, alloc_ppn r)).
Proof.
  intros Ht Hx. unfold tlb_allocate. destruct (m_prefetch t) eqn:Ep; cbn [andb negb].
  { do 2 eexists. split_and!; [done|done|done|done|done]. }
  pose proof Hx as (_ & Hps & _). destruct (tlbc_set _ a ps (to_cache _ _ Ht) Hps) as (si & s & -> & _). cbn [mbind res_bind].
  destruct (insertTLB_spec T (tlb_cache t) a ps n (to_cache _ _ Ht) (to_entries _ _ Ht) Hx) as (r & -> & Hc & Hcb & Hpg & He & Hin & Hev).
  cbn [mbind res_bind]. set (t1 := with_tlb_cache (in_cache r) t).
  assert (Ht1 : tlb_ok T t1) by (destruct Ht; split; cbn; try done; congruence).
  do 2 eexists. split; [done|]. rewrite orb_false_r. split; [destruct count; [by apply tlb_ok_stats|done]|].
  split; [by destruct count|]. split; [by destruct count|]. exact Hev.
Qed.

(** Addresses of one page have the same set. *)
Lemma holds_entry_same (c : Cache P) a v ps : Z.shiftr v ps = Z.shiftr a ps -> holds_entry c a ps -> holds_entry c v ps.
Proof. intros E (si & s & w & b & Hs & H). exists si, s, w, b. unfold splitAddressTLB in *. by rewrite E. Qed.

(** C36: An inserted translation is found: after [allocate] of a page of a supported size in a
    TLB whose entries agree with a translation [T], [lookup] of any address of the page hits
    and returns exactly the inserted page number and size; both calls return. *)
Theorem tlb_allocate_then_hit T t a ps n count instruction v now eip pt :
  tlb_ok T t -> m_prefetch t = false -> ps ∈ tlb_page_size_list t -> item_ok T (a, ps, n) -> in_range 64 v ->
  Z.shiftr v ps = Z.shiftr a ps ->
  exists r t1 b t2, tlb_allocate a count ps n false instruction t = Ok (r, t1) /\
    tlb_lookup v now count eip pt instruction t1 = Ok (Some b, t2) /\ ppn b = n /\ m_page_size b = ps.
Proof.
  intros Ht Hp Hin Hx Hv E. destruct (tlb_allocate_spec T a ps n count instruction t Ht Hx) as (r & t1 & Ea & Ht1 & Hs & Hh & _).
  destruct (tlb_lookup_spec T v now count eip pt instruction t1 Ht1 Hv) as (o & t2 & El & _ & _ & Ho). destruct o as [b|].
  - exists r, t1, b, t2. destruct Ho as [_ Ho]. destruct Hx as (_ & _ & Hx). rewrite (Hx v Hv E) in Ho. split_and!; [done|done|congruence|congruence].
  - exfalso. destruct Hs as (_ & Hsz & _). apply (Ho ps); [by rewrite Hsz|]. by apply (holds_entry_same _ a), Hh.
Qed.

(** TLB prefetching never prefetches: [PTWTransparent] of the base class returns an entry
    without a page number and no prefetcher overrides it, so a look-up with the stride,
    distance or arbitrary-stride prefetchers leaves an empty prefetch queue empty and
    inserts nothing; only the prefetchers' own state changes. *)
Theorem lookup_prefetches_nothing v now count eip pt instruction t o t' :
  entry_priority_queue t = [] -> (forall ps, prefetchers t = Some ps -> Forall prefetcher_ok ps) ->
  tlb_lookup v now count eip pt instruction t = Ok (o, t') ->
  entry_priority_queue t' = [] /\ m_pq_region_refcount t' = m_pq_region_refcount t /\
  m_insertions (tlb_stats t') = m_insertions (tlb_stats t) /\ (forall ps, prefetchers t' = Some ps -> Forall prefetcher_ok ps).
Proof.
  intros Hq Hps H. unfold tlb_lookup in H. rewrite Hq in H.
  assert (Em : (if m_prefetch t then materialize (S (length (@nil query_entry))) now t else Ok t) = Ok t).
  { destruct (m_prefetch t); [|done]. cbn [materialize length]. by rewrite Hq, (proj2 (pq_pop_None []) eq_refl). }
  rewrite Em in H. cbn [mbind res_bind] in H. set (t1 := if count then _ else t) in H.
  assert (H1 : entry_priority_queue t1 = [] /\ m_pq_region_refcount t1 = m_pq_region_refcount t /\
    m_insertions (tlb_stats t1) = m_insertions (tlb_stats t) /\ prefetchers t1 = prefetchers t) by (unfold t1; by destruct count).
  clearbody t1. destruct (accessSingleLineTLB _ _ _ _ _ _) as [[oa c]|]; [|done]. cbn [mbind res_bind] in H.
  destruct (match oa with Some _ => _ | None => _ end) as [[hit t2]|] eqn:E2; [|done]. cbn [mbind res_bind] in H.
  assert (H2 : entry_priority_queue t2 = [] /\ m_pq_region_refcount t2 = m_pq_region_refcount t /\
    m_insertions (tlb_stats t2) = m_insertions (tlb_stats t) /\ prefetchers t2 = prefetchers t).
  { destruct oa as [x|]; [destruct (hasOption _ _)|]; by inv_res. }
  clear E2 H1. destruct H2 as (Hq2 & Hm2 & Hi2 & Hp2). rewrite <- Hp2 in Hps.
  assert (H3 : exists t3, match prefetchers t2 with
      | Some ps => if m_prefetch t2 && pt
                   then prefetch_loop (seq 0 (length ps)) v eip (Z.of_nat (length (entry_priority_queue t2))) ps t2 else Ok t2
      | None => Ok t2 end = Ok t3 /\ entry_priority_queue t3 = [] /\ m_pq_region_refcount t3 = m_pq_region_refcount t /\
      m_insertions (tlb_stats t3) = m_insertions (tlb_stats t) /\ (forall ps, prefetchers t3 = Some ps -> Forall prefetcher_ok ps)).
  { destruct (prefetchers t2) as [ps|] eqn:Ep; [|exists t2; rewrite Ep; split_and!; done]. destruct (_ && _); [|exists t2; rewrite Ep; split_and!; done].
    destruct (prefetch_loop_all v eip (Z.of_nat (length (entry_priority_queue t2))) ps t2 (Hps ps eq_refl)) as (ps' & -> & Hps').
    eexists. split_and!; [done..|]. by intros ? [= <-]. }
  destruct H3 as (t3 & E3 & H3). rewrite E3 in H. cbn [mbind res_bind] in H.
  destruct hit; injection H as _ <-; [|destruct count]; exact H3.
Qed.

End tlbs.

(** ** Page walk caches *)

(** The addresses of a walk fit the machine. *)
Definition accesses_ok (l : list PTWAccess) : Prop := Forall (fun a => in_range 64 (physical_addr a)) l.

Lemma walk_accesses_ok n sizes v level counter current acc r :
  walk n sizes v level counter current = Ok (acc, r) -> accesses_ok acc.
Proof.
  revert counter current acc r. induction level as [|below IH]; intros counter current acc r H; cbn [walk] in H.
  { injection H as <- _. constructor. }
  assert (Hone : forall k f o b, in_range 64 (physical_addr (mkAccess 0 k (u64 (emulated_ppn f * 4096 + Z.of_nat o * 8)) b)))
    by (intros; apply wrap_range; lia).
  inv_res. destruct (is_pte _); [destruct a2; inv_res; (constructor; [apply Hone|constructor])|].
  destruct (next_level a1); inv_res; [constructor; [apply Hone|constructor]| |].
  all: destruct a2 as [rest r']; inv_res; constructor; [apply Hone|by eapply IH].
Qed.

Lemma walk_loop_accesses_ok {S} (h : PageTableRadix -> S -> res (PageTableRadix * S)) fuel v count restart user visited flag p s r p' s' :
  accesses_ok visited -> walk_loop h fuel v count restart user visited flag p s = Ok (r, p', s') -> accesses_ok (accesses r).
Proof.
  revert visited flag p s. induction fuel as [|fuel IH]; intros visited flag p s Hv H; cbn [walk_loop] in H; [done|].
  inv_res. destruct a as [acc e]. apply walk_accesses_ok in E. assert (accesses_ok (visited ++ acc)) by (by apply Forall_app).
  destruct e; [inv_res; done| |inv_res; done]. destruct restart; [|inv_res; done]. inv_res. destruct a. by eapply IH.
Qed.

Section pwcs.
Context {P : Type} `{!ReplacementPolicy P} `{!ReplacementPolicyLaws P} `{!StandaloneVictims P}.
Implicit Types (c : Cache P) (s : CacheSet P).

Definition standalone_sets c : Prop := Forall (fun s => standalone (policy s)) (m_sets c).

(** The policies need no controller, and the class of the blocks is the one given. *)
Definition standalone_cache (ty : cache_t) c : Prop := m_cache_type c = ty /\ standalone_sets c.

Lemma put_standalone ty c si s' info c' :
  put_set c si s' info = Ok c' -> standalone (policy s') -> standalone_cache ty c -> standalone_cache ty c'.
Proof.
  unfold put_set. intros H Hs [Ht Hc]. inv_res. apply wr_Ok in E as [_ ->]. split; [done|]. unfold standalone_sets. cbn. by apply Forall_insert.
Qed.

Lemma get_standalone ty c si s : get_set c si = Ok s -> standalone_cache ty c -> standalone (policy s).
Proof. unfold get_set. intros H [_ Hc]. apply rd_Ok in H. exact (Forall_lookup_1 _ _ _ _ Hc H). Qed.

Lemma touch_standalone s w off buff bytes upd si d s' si' :
  touch_line s w off LOAD buff bytes upd si = Ok (d, s', si') -> standalone (policy s) -> standalone (policy s').
Proof.
  unfold touch_line. rewrite bool_decide_true by done. unfold read_line. intros H Hs. inv_res.
  destruct upd; inv_res; [|done]. destruct a1 as [p' e']. inv_res. cbn. by eapply standalone_update.
Qed.

Lemma access_standalone ty c v buff bytes upd o c' :
  bypasses_metadata c = false -> standalone_cache ty c ->
  accessSingleLine c v LOAD buff bytes upd false = Ok (o, c') -> standalone_cache ty c'.
Proof.
  unfold accessSingleLine. intros Hb Hc H. inv_res. destruct a as [[tag si] off]. inv_res. destruct a0 as [w|].
  - cbn [andb] in H. inv_res. destruct a1 as [[d s'] e]. inv_res. eapply put_standalone; [done| |done].
    eapply touch_standalone; [done|]. by eapply get_standalone.
  - rewrite Hb in H. by inv_res.
Qed.

Lemma set_insert_policy s info fill ev want e r :
  set_insert s info fill ev want e = Ok r ->
  exists i, getReplacementIndex (base s) (policy s) e = Ok (i, policy (ins_set r), ins_env r).
Proof. unfold set_insert. intros H. inv_res. destruct a as [[i p'] e']. inv_res. destruct a0 as [[[] ] ]. inv_res. eauto. Qed.

Lemma count_insertion_standalone ty ev b c c' :
  count_insertion ev b c = Ok c' -> standalone_cache ty c -> standalone_cache ty c'.
Proof.
  unfold count_insertion. intros H Hc. destruct ev; [|by inv_res].
  destruct (_ || _); [by inv_res|]. destruct (isMetadataBlockType _); by inv_res.
Qed.

Lemma insert_standalone ty c v ev r btype :
  cache_wf c -> bypasses_metadata c = false -> standalone_cache ty c ->
  insertSingleLine c v None ev false None btype = Ok r -> standalone_cache ty (in_cache r).
Proof.
  unfold insertSingleLine. intros Hwf Hb Hc H. inv_res. destruct a as [tag si]. rewrite Hb in H. cbn [andb] in H. inv_res.
  cbn [in_cache]. eapply count_insertion_standalone; [done|].
  assert (Hs : standalone (policy a1)) by (by eapply get_standalone). unfold get_set in E2. apply rd_Ok in E2.
  destruct (set_insert_policy _ _ _ _ _ _ _ E3) as [i Ei].
  destruct (standalone_victim _ _ _ _ (lw_set _ _ _ _ (cw_sets _ Hwf _ _ E2)) (lw_policy _ _ _ _ (cw_sets _ Hwf _ _ E2)) Hs)
    as (i' & p' & e' & Ei' & Hp'). rewrite Ei in Ei'. injection Ei' as <- <- <-. by eapply put_standalone.
Qed.

(** A page walk cache of one level. *)
Record pwc_cache_ok c : Prop := {
  pc_wf : cache_wf c;
  pc_bypass : bypasses_metadata c = false;
  pc_standalone : standalone_cache PR_L1_CACHE c
}.
Record pwc_ok (p : PWC P) : Prop := {
  pw_caches : Forall pwc_cache_ok (pwc_caches p);
  pw_access : length (pwc_access p) = length (pwc_caches p);
  pw_miss : length (pwc_miss p) = length (pwc_caches p)
}.

Lemma line_offset_in b v : cb_wf b -> line_offset b v <= m_blocksize b.
Proof.
  intros Hb. unfold line_offset. destruct (cb_wf_block _ Hb) as (k & Hk & -> & _).
  pose proof (Z.pow_pos_nonneg 2 k ltac:(lia) ltac:(lia)). assert (2 ^ k < 2 ^ 32) by (apply Z.pow_lt_mono_r; lia).
  rewrite (wrap_small 32 (2 ^ k - 1)) by (unfold in_range; lia). pose proof (land_ones_range k v ltac:(lia)) as [? ?].
  rewrite wrap_small by (unfold in_range; lia). lia.
Qed.

Lemma pwc_access_spec c v :
  pwc_cache_ok c -> in_range 64 v ->
  exists o c', accessSingleLine c v LOAD None 0 true false = Ok (o, c') /\ pwc_cache_ok c' /\
    (o = None -> line_of (cb c') v ∉ resident c').
Proof.
  intros [Hw Hb Hs] Hv. destruct (access_effect c v LOAD None 0 true Hw Hb Hv) as (o & c' & E & Ho & Hw' & Hr & Hcb & Hb'); [done| |done|].
  { rewrite Z.add_0_r. apply line_offset_in, Hw. }
  exists o, c'. split; [done|]. split; [split; [done|done|by apply (access_standalone _ c v None 0 true o)]|].
  intros ->. rewrite Hr, Hcb. intros Hin. by rewrite (bool_decide_true (_ ∈ _)) in Ho.
Qed.

Lemma pwc_insert_spec c v :
  pwc_cache_ok c -> in_range 64 v -> line_of (cb c) v ∉ resident c ->
  exists r, insertSingleLine c v None (CacheBlockInfo_new PrL1CacheBlockInfo) false None PAGE_TABLE_DATA = Ok r /\
    pwc_cache_ok (in_cache r).
Proof.
  intros [Hw Hb Hs] Hv Hn.
  destruct (insert_effect c v None (CacheBlockInfo_new PrL1CacheBlockInfo) false None PAGE_TABLE_DATA Hw Hb Hv Hn) as (si & s & _ & Hl & H);
    [destruct Hs as [-> _]; apply evict_obj_ok|done|].
  pose proof (cw_sets _ Hw _ _ Hl) as Hset.
  destruct (standalone_victim _ _ _ _ (lw_set _ _ _ _ Hset) (lw_policy _ _ _ _ Hset)) as (i & p' & e' & E & _).
  { eapply (get_standalone _ c si); [by apply rd_Ok|done]. }
  rewrite E in H. destruct H as (r & Er & Hw' & Hcb & Hb' & _). exists r. split; [done|].
  split; [done|done|]. by apply (insert_standalone _ c v (CacheBlockInfo_new PrL1CacheBlockInfo) r PAGE_TABLE_DATA).
Qed.

Lemma count_at_Ok b l i : (i < length l)%nat -> exists l', count_at b l i = Ok l' /\ length l' = length l.
Proof.
  intros Hi. unfold count_at. destruct b; [|eauto]. destruct (rd_lookup l i Hi) as (x & -> & _). cbn [mbind res_bind].
  rewrite wr_lt by done. eexists. split; [done|]. by rewrite length_insert.
Qed.

Lemma pwc_lookup_spec v (level : nat) count p :
  pwc_ok p -> in_range 64 v -> (level < length (pwc_caches p))%nat ->
  exists b p', pwc_lookup v true level count p = Ok (b, p') /\ pwc_ok p' /\ length (pwc_caches p') = length (pwc_caches p).
Proof.
  intros [Hc Ha Hm] Hv Hl. unfold pwc_lookup. destruct (rd_lookup _ _ Hl) as (c & -> & El). cbn [mbind res_bind].
  pose proof (Forall_lookup_1 _ _ _ _ Hc El) as Hck.
  destruct (pwc_access_spec c v Hck Hv) as (o & c1 & -> & Hc1 & Ho). cbn [mbind res_bind]. rewrite wr_lt by done. cbn [mbind res_bind].
  destruct (count_at_Ok count (pwc_access p) level) as (acc & -> & La); [lia|]. cbn [mbind res_bind]. destruct o as [x|].
  { do 2 eexists. split; [done|]. split; [|cbn; by rewrite length_insert]. split; cbn; rewrite ?length_insert; [by apply Forall_insert|lia|lia]. }
  destruct (count_at_Ok count (pwc_miss p) level) as (miss & -> & Lm); [lia|]. cbn [mbind res_bind]. unfold pwc_allocate. cbn [pwc_caches].
  unfold rd. rewrite list_lookup_insert_eq by done. cbn [mbind res_bind].
  destruct (address_set c1 (pc_wf _ Hc1) v Hv) as (si & s & -> & _). cbn [mbind res_bind].
  destruct (pwc_insert_spec c1 v Hc1 Hv (Ho eq_refl)) as (r & -> & Hr). cbn [mbind res_bind].
  rewrite wr_lt by (by rewrite length_insert). cbn [mbind res_bind]. do 2 eexists. split; [done|].
  split; [|cbn; by rewrite !length_insert]. split; cbn; rewrite ?length_insert; [|lia|lia]. apply Forall_insert; [by apply Forall_insert|done].
Qed.

Definition filter_ok (f : BaseFilter P) : Prop :=
  match f with
  | Radix f => m_pwc_enabled f = true -> exists p, rf_pwc f = Some p /\ pwc_ok p /\ (max_pwc_level f <= length (pwc_caches p))%nat
  | Default => True
  end.

Lemma filter_accesses_spec (level : nat) count l p :
  pwc_ok p -> accesses_ok l -> (level <= length (pwc_caches p))%nat ->
  exists l' p', filter_accesses level count l p = Ok (l', p') /\ pwc_ok p' /\ length (pwc_caches p') = length (pwc_caches p).
Proof.
  intros Hp Hl. revert p Hp. induction Hl as [|a l Ha _ IH]; intros p Hp Hn; cbn [filter_accesses]; [by do 2 eexists|].
  destruct (Nat.ltb_spec (depth a) level) as [Hd|Hd].
  - destruct (pwc_lookup_spec (physical_addr a) (depth a) count p Hp Ha) as (b & p1 & -> & Hp1 & L1); [lia|]. cbn [mbind res_bind].
    destruct (IH p1 Hp1) as (l' & p2 & -> & Hp2 & L2); [lia|]. cbn [mbind res_bind]. do 2 eexists. split; [done|]. split; [done|lia].
  - cbn [mbind res_bind]. destruct (IH p Hp Hn) as (l' & p2 & -> & Hp2 & L2). cbn [mbind res_bind]. by do 2 eexists.
Qed.

Lemma filterPTWResult_spec r count f :
  filter_ok f -> accesses_ok (accesses r) -> exists r' f', filterPTWResult r count f = Ok (r', f') /\ filter_ok f'.
Proof.
  destruct f as [f|]; cbn [filterPTWResult]; [|by do 2 eexists]. intros Hf Ha. unfold radix_filterPTWResult.
  destruct (m_pwc_enabled f) eqn:E.
  - destruct (Hf E) as (p & -> & Hp & Hl). cbn [deref mbind res_bind].
    destruct (filter_accesses_spec (max_pwc_level f) count (accesses r) p Hp Ha Hl) as (l' & p' & -> & Hp' & L). cbn [mbind res_bind].
    do 2 eexists. split; [done|]. intros _. exists p'. split_and!; [done|done|cbn; lia].
  - cbn [mbind res_bind]. do 2 eexists. split; [done|]. intros ?. congruence.
Qed.

End pwcs.

(** ** New TLBs and page walk caches with LRU replacement *)

Section new.
Context {P : Type} `{!ReplacementPolicy P} `{!ReplacementPolicyLaws P} `{!StandaloneVictims P}.
Context (create : nat -> res P) (n : nat) (info : option CacheSetInfoLRU) (Hn : (0 < n)%nat).
Context (Hcreate : forall s, m_associativity s = n -> set_wf PR_L1_CACHE s ->
  exists p, create n = Ok p /\ policy_wf s p info).
Context (Hstandalone : forall p, create n = Ok p -> standalone p).

Lemma make_sets_standalone ty bs with_data k l :
  make_sets create ty n bs with_data k = Ok l -> Forall (fun s => standalone (policy s)) l.
Proof.
  revert l. induction k as [|k IH]; intros l H; cbn [make_sets] in H; inv_res; [constructor|]. constructor; [by apply Hstandalone|by apply IH].
Qed.

Lemma Cache_new_standalone name sets bs hash pages loc with_data (c : Cache P) :
  Cache_new name sets (Z.of_nat n) bs create info PR_L1_CACHE hash None pages loc with_data = Ok c ->
  standalone_cache PR_L1_CACHE c /\ m_pagesizes c = pages.
Proof.
  unfold Cache_new. intros H. inv_res. rewrite Nat2Z.id in E0. split; [|done]. split; [done|]. by eapply make_sets_standalone.
Qed.

(** A new page walk cache of a level. *)
Lemma pwc_cache_new name sets pages loc (c : Cache P) :
  0 < sets < 2 ^ 32 -> bool_decide (name = "L2"%string) && (2 <? loc) = false ->
  Cache_new name sets (Z.of_nat n) 8 create info PR_L1_CACHE HASH_MASK None pages loc false = Ok c -> pwc_cache_ok c.
Proof.
  intros Hs Hb E. change 8 with (2 ^ 3) in E.
  destruct (Cache_new_wf create info PR_L1_CACHE n ltac:(done) Hn Hcreate name sets 3 HASH_MASK pages loc false c) as (Hw & _ & Hby & _); try done; try lia.
  split; [done|done|]. by eapply Cache_new_standalone.
Qed.

Lemma PWC_new_ok name infos loc assocs entries junk perfect (p : PWC P) :
  loc <= 2 -> Forall (fun i => i = info) infos -> Forall (fun a => a = Z.of_nat n) assocs -> Forall (fun e => 0 < e / Z.of_nat n < 2 ^ 32) entries ->
  PWC_new name create infos loc assocs entries junk perfect = Ok p -> pwc_ok p /\ length (pwc_caches p) = length entries.
Proof.
  intros Hloc Hi Ha He H. unfold PWC_new in H. destruct (fold_loop _ _ _) as [l|] eqn:E; [|done]. cbn [mbind res_bind] in H. injection H as <-.
  assert (Hl : Forall pwc_cache_ok l).
  { eapply (fold_loop_keeps (Forall pwc_cache_ok)); [|constructor|exact E]. intros acc k acc' Hk Hacc. cbn beta in Hk. inv_res.
    apply Forall_app. split; [done|]. constructor; [|constructor]. apply rd_Ok in E0, E1, E2.
    pose proof (Forall_lookup_1 _ _ _ _ Hi E2). pose proof (Forall_lookup_1 _ _ _ _ Ha E1). pose proof (Forall_lookup_1 _ _ _ _ He E0). cbn beta in *. subst.
    unfold udiv in E3. inv_res. eapply pwc_cache_new; [| |exact E4]; [done|]. rewrite (proj2 (Z.ltb_ge 2 loc)) by done. apply andb_false_r. }
  assert (Hlen : length l = length entries).
  { enough (forall idx acc, fold_loop (fun l0 i => e ← rd entries i; a ← rd assocs i; si ← rd infos i; sets ← udiv e a;
      c ← Cache_new (name ++ "_L" ++ pretty (S (length entries) - i)%nat) sets a 8 create si PR_L1_CACHE HASH_MASK None [0] loc false; Ok (l0 ++ [c])) acc idx = Ok l ->
      length l = (length acc + length idx)%nat) as Hn' by (apply Hn' in E; by rewrite length_seq in E).
    clear. induction idx as [|k idx IH]; intros acc E; cbn [fold_loop] in E; inv_res; [cbn; lia|]. apply IH in E. rewrite length_app in E. cbn in *. lia. }
  split; [|done]. split; cbn; rewrite ?length_map, ?length_seq; done.
Qed.

(** A new TLB holds nothing, so it agrees with every translation. *)
Lemma TLB_new_ok name loc latency entries sizes ty miss pf tpb max (t : TLB P) T :
  0 < entries / Z.of_nat n < 2 ^ 32 -> bool_decide ((name ++ "_cache")%string = "L2"%string) && (2 <? loc) = false ->
  Forall (fun ps => 1 <= ps < 64) sizes -> (forall ps, tpb = Some ps -> Forall prefetcher_ok ps) ->
  TLB_new name create info loc latency entries (Z.of_nat n) sizes ty miss pf tpb max = Ok t -> tlb_ok T t.
Proof.
  intros Hs Hb Hsz Hpf H. unfold TLB_new, udiv in H. rewrite (proj2 (Z.eqb_neq (Z.of_nat n) 0)) in H by lia.
  cbn [negb check mbind res_bind] in H. change 8 with (2 ^ 3) in H. destruct (Cache_new _ _ _ _ _ _ _ _ _ _ _ _) as [c|] eqn:E; [|done].
  cbn [mbind res_bind] in H. inv_res.
  destruct (Cache_new_wf create info PR_L1_CACHE n ltac:(done) Hn Hcreate (name ++ "_cache") (entries / Z.of_nat n) 3 HASH_MASK sizes loc false c)
    as (Hw & Hr & _ & Ht); try done; try lia.
  destruct (Cache_new_standalone _ _ _ _ _ _ _ _ E) as [[_ Hst] Hpg]. split; cbn; [| |done|done|exact Hpf].
  - destruct Hw as [H1 H2 H3 H4 H5 H6 H7 H8]. split; [done|done|done|done|by rewrite Hpg|]. intros i s Hi. destruct (H6 i s Hi) as [W1 _ W3 _ _ _].
    rewrite Ht in W1. split; [done|done|]. exact (Forall_lookup_1 _ _ _ _ Hst Hi).
  - intros b (i & s & w & Hi & Hw' & Hv). exfalso. assert (m_tag b ∈ resident c); [|set_solver].
    apply elem_of_resident. exists i, s. split; [done|]. apply elem_of_valid_tags. eauto.
Qed.

End new.

(** ** A queue and a TLB to compute with *)

(** The first of the entries with the smallest timestamp. *)
Fixpoint pop_first (l : list query_entry) : option (query_entry * list query_entry) :=
  match l with
  | [] => None
  | e :: l =>
      match pop_first l with
      | Some (m, rest) => if q_timestamp e <=? q_timestamp m then Some (e, l) else Some (m, e :: rest)
      | None => Some (e, [])
      end
  end.

Lemma pop_first_Some l e l' :
  pop_first l = Some (e, l') -> l ≡ₚ e :: l' /\ Forall (fun x => q_timestamp e <= q_timestamp x) l'.
Proof.
  revert e l'. induction l as [|a l IH]; intros e l' H; cbn [pop_first] in H; [done|].
  destruct (pop_first l) as [[x rest]|] eqn:E.
  - destruct (IH x rest eq_refl) as [Hp Hf]. destruct (Z.leb_spec (q_timestamp a) (q_timestamp x)); injection H as <- <-.
    + split; [done|]. rewrite Hp. constructor; [done|]. eapply Forall_impl; [exact Hf|]. cbn. lia.
    + split; [rewrite Hp; constructor|]. constructor; [lia|done].
  - injection H as <- <-. assert (l = []) as -> by (destruct l as [|b l]; [done|]; cbn [pop_first] in E; by destruct (pop_first l) as [[? ?]|]; [destruct (_ <=? _)|]).
    split; [done|constructor].
Qed.

#[global] Program Instance first_in : PriorityQueue := {| pq_pop := pop_first |}.
Next Obligation.
  intros l. split; [|by intros ->]. destruct l as [|a l]; [done|]. cbn [pop_first]. by destruct (pop_first l) as [[? ?]|]; [destruct (_ <=? _)|].
Qed.
Next Obligation. exact pop_first_Some. Qed.

Definition lru_create (n : nat) : res LRU.CacheSetLRU := Ok (LRU.new n 1).
Definition small_latency : ComponentLatency := mkLatency 1000 1.

Definition small_tlb_res : res (TLB LRU.CacheSetLRU) :=
  TLB_new "L1-D" lru_create lru_info 0 small_latency 8 2 [12; 21] "Data" true false None 0.
Definition small_tlb : TLB LRU.CacheSetLRU :=
  match small_tlb_res with
  | Ok t => t
  | Err _ => mkTLB "" tiny "" None [] false false 0 small_latency [] ∅ TLBStats_new
  end.

Lemma lru_create_ok s : m_associativity s = 2%nat -> set_wf PR_L1_CACHE s ->
  exists p, lru_create 2 = Ok p /\ policy_wf s p lru_info.
Proof.
  intros Ha Hs. eexists. split; [done|]. rewrite <- Ha. apply (LRU.new_wf PR_L1_CACHE); [done|lia|lia|]. rewrite Ha.
  eexists. split; [done|split; cbn; [done|done|lia]].
Qed.

Lemma lru_create_standalone p : lru_create 2 = Ok p -> standalone p.
Proof. intros [= <-]. cbn. lia. Qed.

(** A TLB in sets of two, new from the constructor. *)
Lemma lru_tlb_ok name latency entries sizes ty miss pf tpb max (t : TLB LRU.CacheSetLRU) T :
  0 < entries / 2 < 2 ^ 32 -> Forall (fun ps => 1 <= ps < 64) sizes -> (forall ps, tpb = Some ps -> Forall prefetcher_ok ps) ->
  TLB_new name lru_create lru_info 0 latency entries 2 sizes ty miss pf tpb max = Ok t -> tlb_ok T t.
Proof.
  intros He Hs Hp H. eapply (TLB_new_ok lru_create 2 lru_info); [lia|exact lru_create_ok|exact lru_create_standalone|exact He| |exact Hs|exact Hp|exact H].
  by rewrite andb_false_r.
Qed.

Lemma small_tlb_ok T : tlb_ok T small_tlb.
Proof.
  unfold small_tlb. destruct small_tlb_res as [t|] eqn:E; [|vm_compute in E; discriminate E].
  eapply lru_tlb_ok; [| | |exact E]; [vm_compute; split; congruence|repeat constructor; lia|done].
Qed.

Definition one_page (v : Z) : option (Z * Z) := if Z.shiftr v 12 =? 0x12345 then Some (77, 12) else None.

Lemma tlb_allocate_then_hit_witness :
  exists r t1 b t2, tlb_allocate 0x12345678 true 12 77 false false small_tlb = Ok (r, t1) /\
    tlb_lookup 0x12345fff 0 true 0x400000 true false t1 = Ok (Some b, t2) /\ ppn b = 77 /\ m_page_size b = 12.
Proof.
  apply (tlb_allocate_then_hit one_page small_tlb 0x12345678 12 77 true false 0x12345fff 0 0x400000 true);
    [apply small_tlb_ok|reflexivity|left| |split; [lia|reflexivity]|reflexivity].
  split; [split; [lia|reflexivity]|]. split; [lia|]. intros v _ E. unfold one_page. rewrite E. reflexivity.
Defined.

Definition three_prefetchers : list TLBPrefetcher :=
  [Stride (mkStride 2 (mkPrefetchStats 0 0 0)); H2 (mkH2 0 0 0); ASP (ArbitraryStridePrefetcher_new 3 1 true)].

Definition prefetching_tlb : TLB LRU.CacheSetLRU :=
  match TLB_new "PQ" lru_create lru_info 0 small_latency 8 2 [12] "Data" false true (Some three_prefetchers) 8 with
  | Ok t => t
  | Err _ => small_tlb
  end.

Lemma prefetching_lookup_ok :
  match tlb_lookup 0x12345678 0 true 0x400000 true false prefetching_tlb with Ok _ => true | Err _ => false end = true.
Proof. vm_compute. reflexivity. Qed.

Lemma three_prefetchers_ok : Forall prefetcher_ok three_prefetchers.
Proof. repeat constructor. Qed.

Lemma lookup_prefetches_nothing_witness :
  exists o t', tlb_lookup 0x12345678 0 true 0x400000 true false prefetching_tlb = Ok (o, t') /\
    entry_priority_queue t' = [] /\ m_pq_region_refcount t' = m_pq_region_refcount prefetching_tlb /\
    m_insertions (tlb_stats t') = m_insertions (tlb_stats prefetching_tlb) /\
    (forall ps, prefetchers t' = Some ps -> Forall prefetcher_ok ps).
Proof.
  destruct (tlb_lookup 0x12345678 0 true 0x400000 true false prefetching_tlb) as [[o t']|] eqn:E; [|pose proof prefetching_lookup_ok as H; rewrite E in H; discriminate H].
  exists o, t'. split; [reflexivity|].
  apply (lookup_prefetches_nothing 0x12345678 0 true 0x400000 true false prefetching_tlb o t'); [reflexivity| |exact E].
  intros ps Eps. assert (Ep : prefetchers prefetching_tlb = Some three_prefetchers) by reflexivity.
  rewrite Ep in Eps. injection Eps as <-. apply three_prefetchers_ok.
Defined.

(** ** Holding registers of page walks *)

Inductive mshr_op := AllocateWalk (e : MSHREntry) | RemoveCompleted (now : Z).
Definition mshr_step (m : MSHR) (o : mshr_op) : MSHR :=
  match o with AllocateWalk e => mshr_allocate e m | RemoveCompleted now => removeCompletedEntries now m end.

(** The page walk registers never delay a walk: the earliest completion time starts at
    zero and is only ever lowered, so after any sequence of allocations and removals, and
    however many walks are in flight, the slot allocation delay of a request is zero. *)
Theorem mshr_never_delays n ops now :
  Forall (fun o => match o with AllocateWalk e => 0 <= completion_time e | RemoveCompleted _ => True end) ops -> 0 <= now ->
  getSlotAllocationDelay now (foldl mshr_step (MSHR_new n) ops) = 0.
Proof.
  intros Hops Hnow. assert (Hmin : min_time (foldl mshr_step (MSHR_new n) ops) = 0).
  { assert (H0 : min_time (MSHR_new n) = 0) by done. revert H0. generalize (MSHR_new n) as m.
    induction Hops as [|o ops Ho _ IH]; intros m Hm; [done|]. cbn [foldl]. apply IH. destruct o as [e|t]; cbn; [|done].
    rewrite Hm, (proj2 (Z.ltb_ge _ _)) by lia. done. }
  unfold getSlotAllocationDelay. destruct (mshr_entries _); [done|]. destruct (_ <? _); [|done].
  rewrite Hmin, (proj2 (Z.ltb_ge _ _)) by lia. done.
Qed.

Lemma mshr_never_delays_witness :
  getSlotAllocationDelay 10 (foldl mshr_step (MSHR_new 1) [AllocateWalk (mkMSHREntry 0 1000); AllocateWalk (mkMSHREntry 5 2000)]) = 0.
Proof. apply (mshr_never_delays 1 [AllocateWalk (mkMSHREntry 0 1000); AllocateWalk (mkMSHREntry 5 2000)] 10); [repeat constructor; cbn; lia|lia]. Defined.
