(* ===== verification/Mmu.v ===== *)
(** * The memory management unit

    [parametric_dram_directory_msi/mmu_base.cc] and [mmu_designs/mmu.cc]: the translation of
    an address through the TLBs, the page table walker and the page fault handler, with its
    timing. The data caches that a walk accesses are behind the class [MMUCacheInterface]
    ([cache/mmu_cache_interface.h]); the operating system's state of page faults and its
    per-core statistics are those of [mimicos.cc] and [page_fault_state.h]. The unit has no
    nested unit. *)

From stdpp Require Import base tactics list numbers gmap sets strings sorting.
From Stdlib Require Import ZArith Lia.
From S2P Require Import Prelude Utils CacheBase CacheBlock CacheSet Replacement Cache Timing DirCntlr.
From S2P Require Import PageTable PageFault Tlb.
Local Open Scope Z_scope.
Local Open Scope mach_scope.

(** ** Interfaces and state *)

(** What a walk says about an access: depth, table, number of the walk, last access. *)
Record MetadataInfo := mkMeta { ptw_depth : Z; ptw_level : Z; ptw_id : Z; meta_is_pte : bool }.

(** A read of the first-level data cache for a page walk, at a time: where it hit and the
    time after it. The blocks are tagged afterwards. *)
Class MMUCacheInterface (C : Type) := {
  handleMMUCacheAccess : MetadataInfo -> Z -> Z -> Z -> Z -> bool -> bool -> block_type_t -> Z -> C ->
    res (HitWhere.where_t * Z * C);
  tagCachesBlockType : Z -> block_type_t -> C -> res C
}.

(** The NUMA node of a page. *)
Class NumaAllocator (A : Type) := getNumaNodeForPPN : Z -> A -> Z.
#[global] Instance baseline_numa : NumaAllocator BaselineAllocator := fun _ _ => 0.

Record PageFaultState := mkPFState { is_active : bool; faulting_va : Z; num_requested_frames : Z }.
Definition PageFaultState_reset : PageFaultState := mkPFState false (2 ^ 64 - 1) (-1).

Record PerCoreStats := mkPerCore {
  translation_latency : Z; page_walk_latency : Z; pc_num_translations : Z; l2_tlb_misses : Z; l2_tlb_hits : Z }.

(** The counters of the unit. *)
Module Counter.
Inductive t :=
| num_translations | num_translations_instruction | num_translations_data
| page_faults | page_faults_instruction | page_faults_data
| page_table_walks | page_table_walks_instruction | page_table_walks_data
| page_size_prediction_hits | page_size_prediction_misses
| total_walk_latency | total_walk_latency_instruction | total_walk_latency_data
| total_tlb_latency | total_tlb_latency_instruction | total_tlb_latency_data
| total_translation_latency | total_translation_latency_instruction | total_translation_latency_data
| total_fault_latency
| tlb_hits_instruction | tlb_hits_data | tlb_misses_instruction | tlb_misses_data
| tlb_latency_per_level (level : nat)
| sanity_check_violations
| memory_accesses | memory_accesses_before_filtering
| DRAM_accesses | DRAM_accesses_local | DRAM_accesses_remote | DRAM_accesses_per_numa_node (node : Z)
| L1D_accesses | L2_accesses | NUCA_accesses
| DRAM_accesses_prefetch | L1D_accesses_prefetch | L2_accesses_prefetch | NUCA_accesses_prefetch.
#[global] Instance t_eq_dec : EqDecision t.
Proof. solve_decision. Defined.
End Counter.

(** The configuration of the unit and of the operating system. *)
Record MMUConfig := mkMMUConfig {
  core_id : nat;
  page_size_prediction_enabled : bool;
  l2_tlb_correct_prediction_latency : Z;
  l2_tlb_misprediction_latency : Z;
  count_page_fault_latency_enabled : bool;
  perfect_translation_enabled : bool;
  sanity_checks_enabled : bool;
  userspace_mimicos_enabled : bool;
  m_numa_enabled : bool;
  m_num_numa_nodes : Z;
  page_fault_latency : Z
}.

(** The unit with the system it works in: the elapsed time of the user thread, the page table
    of the thread's application, the allocator, the caches, and the pseudo-instructions that
    charge page faults to the core. *)
Record MemoryManagementUnit (P A C : Type) := mkMMU {
  tlb_subsystem : TLBHierarchy P;
  pt_walkers : MSHR;
  ptw_filter : BaseFilter P;
  va_to_pa_map : gmap Z Z;
  pa_to_va_map : gmap Z Z;
  dram_accesses_during_last_walk : Z;
  m_ptw_id_counter : Z;
  tlb_hits_since_last_ptw : Z;
  counters : Counter.t -> Z;
  elapsed : Z;
  page_table : PageTableRadix;
  memory_allocator : A;
  caches : C;
  m_pf_states : list PageFaultState;
  m_per_core_stats : list PerCoreStats;
  pseudo_instructions : list Z
}.
Arguments mkMMU {_ _ _}.
Arguments tlb_subsystem {_ _ _}.
Arguments pt_walkers {_ _ _}.
Arguments ptw_filter {_ _ _}.
Arguments va_to_pa_map {_ _ _}.
Arguments pa_to_va_map {_ _ _}.
Arguments dram_accesses_during_last_walk {_ _ _}.
Arguments m_ptw_id_counter {_ _ _}.
Arguments tlb_hits_since_last_ptw {_ _ _}.
Arguments counters {_ _ _}.
Arguments elapsed {_ _ _}.
Arguments page_table {_ _ _}.
Arguments memory_allocator {_ _ _}.
Arguments caches {_ _ _}.
Arguments m_pf_states {_ _ _}.
Arguments m_per_core_stats {_ _ _}.
Arguments pseudo_instructions {_ _ _}.

Section unit.
Context {P : Type} `{!ReplacementPolicy P} `{!PriorityQueue}.
Context {A : Type} `{!Allocator A} `{!NumaAllocator A} {C : Type} `{!MMUCacheInterface C}.
Context (cfg : MMUConfig).
Abbreviation Unit := (MemoryManagementUnit P A C).
Implicit Types (m : Unit).

Definition set_tlbs (x : TLBHierarchy P) m : Unit :=
  mkMMU x (pt_walkers m) (ptw_filter m) (va_to_pa_map m) (pa_to_va_map m) (dram_accesses_during_last_walk m)
    (m_ptw_id_counter m) (tlb_hits_since_last_ptw m) (counters m) (elapsed m) (page_table m)
    (memory_allocator m) (caches m) (m_pf_states m) (m_per_core_stats m) (pseudo_instructions m).
Definition set_walkers (x : MSHR) m : Unit :=
  mkMMU (tlb_subsystem m) x (ptw_filter m) (va_to_pa_map m) (pa_to_va_map m) (dram_accesses_during_last_walk m)
    (m_ptw_id_counter m) (tlb_hits_since_last_ptw m) (counters m) (elapsed m) (page_table m)
    (memory_allocator m) (caches m) (m_pf_states m) (m_per_core_stats m) (pseudo_instructions m).
Definition set_filter (x : BaseFilter P) m : Unit :=
  mkMMU (tlb_subsystem m) (pt_walkers m) x (va_to_pa_map m) (pa_to_va_map m) (dram_accesses_during_last_walk m)
    (m_ptw_id_counter m) (tlb_hits_since_last_ptw m) (counters m) (elapsed m) (page_table m)
    (memory_allocator m) (caches m) (m_pf_states m) (m_per_core_stats m) (pseudo_instructions m).
Definition set_sanity (x : gmap Z Z) (y : gmap Z Z) m : Unit :=
  mkMMU (tlb_subsystem m) (pt_walkers m) (ptw_filter m) x y (dram_accesses_during_last_walk m) (m_ptw_id_counter
    m) (tlb_hits_since_last_ptw m) (counters m) (elapsed m) (page_table m) (memory_allocator m) (caches m)
    (m_pf_states m) (m_per_core_stats m) (pseudo_instructions m).
Definition set_walk_counts (x : Z) (y : Z) (z : Z) m : Unit :=
  mkMMU (tlb_subsystem m) (pt_walkers m) (ptw_filter m) (va_to_pa_map m) (pa_to_va_map m) x y z (counters m)
    (elapsed m) (page_table m) (memory_allocator m) (caches m) (m_pf_states m) (m_per_core_stats m)
    (pseudo_instructions m).
Definition set_unit_counters (x : Counter.t -> Z) m : Unit :=
  mkMMU (tlb_subsystem m) (pt_walkers m) (ptw_filter m) (va_to_pa_map m) (pa_to_va_map m)
    (dram_accesses_during_last_walk m) (m_ptw_id_counter m) (tlb_hits_since_last_ptw m) x (elapsed m)
    (page_table m) (memory_allocator m) (caches m) (m_pf_states m) (m_per_core_stats m) (pseudo_instructions
    m).
Definition set_elapsed (x : Z) m : Unit :=
  mkMMU (tlb_subsystem m) (pt_walkers m) (ptw_filter m) (va_to_pa_map m) (pa_to_va_map m)
    (dram_accesses_during_last_walk m) (m_ptw_id_counter m) (tlb_hits_since_last_ptw m) (counters m) x
    (page_table m) (memory_allocator m) (caches m) (m_pf_states m) (m_per_core_stats m) (pseudo_instructions
    m).
Definition set_os (x : PageTableRadix) (y : A) m : Unit :=
  mkMMU (tlb_subsystem m) (pt_walkers m) (ptw_filter m) (va_to_pa_map m) (pa_to_va_map m)
    (dram_accesses_during_last_walk m) (m_ptw_id_counter m) (tlb_hits_since_last_ptw m) (counters m) (elapsed
    m) x y (caches m) (m_pf_states m) (m_per_core_stats m) (pseudo_instructions m).
Definition set_caches (x : C) m : Unit :=
  mkMMU (tlb_subsystem m) (pt_walkers m) (ptw_filter m) (va_to_pa_map m) (pa_to_va_map m)
    (dram_accesses_during_last_walk m) (m_ptw_id_counter m) (tlb_hits_since_last_ptw m) (counters m) (elapsed
    m) (page_table m) (memory_allocator m) x (m_pf_states m) (m_per_core_stats m) (pseudo_instructions m).
Definition set_pf_states (x : list PageFaultState) m : Unit :=
  mkMMU (tlb_subsystem m) (pt_walkers m) (ptw_filter m) (va_to_pa_map m) (pa_to_va_map m)
    (dram_accesses_during_last_walk m) (m_ptw_id_counter m) (tlb_hits_since_last_ptw m) (counters m) (elapsed
    m) (page_table m) (memory_allocator m) (caches m) x (m_per_core_stats m) (pseudo_instructions m).
Definition set_per_core (x : list PerCoreStats) m : Unit :=
  mkMMU (tlb_subsystem m) (pt_walkers m) (ptw_filter m) (va_to_pa_map m) (pa_to_va_map m)
    (dram_accesses_during_last_walk m) (m_ptw_id_counter m) (tlb_hits_since_last_ptw m) (counters m) (elapsed
    m) (page_table m) (memory_allocator m) (caches m) (m_pf_states m) x (pseudo_instructions m).
Definition set_pseudo (x : list Z) m : Unit :=
  mkMMU (tlb_subsystem m) (pt_walkers m) (ptw_filter m) (va_to_pa_map m) (pa_to_va_map m)
    (dram_accesses_during_last_walk m) (m_ptw_id_counter m) (tlb_hits_since_last_ptw m) (counters m) (elapsed
    m) (page_table m) (memory_allocator m) (caches m) (m_pf_states m) (m_per_core_stats m) x.

(** The monad of the unit. *)
Definition MU (T : Type) : Type := Unit -> res (T * Unit).
#[global] Instance MU_ret : MRet MU := fun T x m => Ok (x, m).
#[global] Instance MU_bind : MBind MU := fun T U k f m =>
  match f m with Ok (x, m') => k x m' | Err e => Err e end.
Definition uget {T} (f : Unit -> T) : MU T := fun m => Ok (f m, m).
Definition uupd (f : Unit -> Unit) : MU unit := fun m => Ok (tt, f m).
Definition ulift {T} (r : res T) : MU T := fun m => match r with Ok x => Ok (x, m) | Err e => Err e end.

Fixpoint ufold {T X} (f : T -> X -> MU T) (acc : T) (l : list X) : MU T :=
  match l with
  | [] => mret acc
  | x :: l => acc ← f acc x; ufold f acc l
  end.

Definition bump_counter (k : Counter.t) (n : Z) : MU unit :=
  uupd (fun m => set_unit_counters (fun k' => if decide (k = k') then counters m k' +64 n else counters m k') m).
Definition bump_if (b : bool) (k : Counter.t) (n : Z) : MU unit := if b then bump_counter k n else mret tt.
(** The breakdown by instructions and data. *)
Definition bump_split (count instruction : bool) (ki kd : Counter.t) (n : Z) : MU unit :=
  bump_if count (if instruction then ki else kd) n.

Definition getElapsedTime : MU Z := uget elapsed.
Definition setElapsedTime (t : Z) : MU unit := uupd (set_elapsed t).

(** ** The accesses of a page walk ([mmu_base.cc]) *)

Record translationPacket := mkTPacket {
  tp_address : Z; tp_eip : Z; tp_type : block_type_t; tp_modeled : bool; tp_count : bool }.

Definition is_dram (w : HitWhere.where_t) : bool :=
  bool_decide (w = HitWhere.DRAM_LOCAL) || bool_decide (w = HitWhere.DRAM_REMOTE) || bool_decide (w = HitWhere.DRAM).

(** The counters of an access by where it hit. *)
Definition count_walker_access (w : HitWhere.where_t) (address : Z) : MU unit :=
  bump_counter Counter.memory_accesses 1;;
  bump_if (bool_decide (w = HitWhere.L2_OWN)) Counter.L2_accesses 1;;
  bump_if (bool_decide (w = HitWhere.NUCA_CACHE)) Counter.NUCA_accesses 1;;
  (if is_dram w then
     uupd (fun m => set_walk_counts (s32 (dram_accesses_during_last_walk m + 1)) (m_ptw_id_counter m)
                      (tlb_hits_since_last_ptw m) m);;
     bump_counter Counter.DRAM_accesses 1;;
     bump_if (bool_decide (w = HitWhere.DRAM_LOCAL)) Counter.DRAM_accesses_local 1;;
     bump_if (bool_decide (w = HitWhere.DRAM_REMOTE)) Counter.DRAM_accesses_remote 1;;
     node ← uget (fun m => getNumaNodeForPPN (Z.shiftr address 12) (memory_allocator m));
     bump_if (m_numa_enabled cfg && (node <? m_num_numa_nodes cfg)) (Counter.DRAM_accesses_per_numa_node node) 1
   else mret tt);;
  bump_if (bool_decide (w = HitWhere.L1_OWN)) Counter.L1D_accesses 1.

(** [accessCache] of a walk, which is not a prefetch: the elapsed time is set for the access
    and restored after it. *)
Definition mmu_accessCache (info : MetadataInfo) (packet : translationPacket) (t_start : Z)
  : MU (Z * HitWhere.where_t) :=
  t_temp ← getElapsedTime;
  let offset := tp_address packet `mod` 64 in
  let offset := if 64 <? offset + 8 then 64 - 8 else offset in
  let cache_address := Z.land (tp_address packet) (u64 (Z.lnot 63)) in
  setElapsedTime t_start;;
  c ← uget caches;
  '(hit_where, t_end, c) ← ulift (handleMMUCacheAccess info (tp_eip packet) cache_address offset 8
                                    (tp_modeled packet) (tp_count packet) (tp_type packet) t_start c);
  uupd (set_caches c);;
  count_walker_access hit_where (tp_address packet);;
  setElapsedTime t_temp;;
  c ← uget caches;
  c ← ulift (tagCachesBlockType (tp_address packet) (tp_type packet) c);
  uupd (set_caches c);;
  mret (t_end -64 t_start, hit_where).

(** The arrays and variables of [calculatePTWCycles]. *)
Record walk_acc := mkWalkAcc {
  latency_per_table_per_level : Z -> Z -> Z;
  fetch_delay : Z -> Z;
  correct_table : Z;
  correct_level : Z;
  correct_access_translation_time : Z
}.
Definition upd2 (f : Z -> Z -> Z) (i j v : Z) : Z -> Z -> Z :=
  fun i' j' => if (i' =? i) && (j' =? j) then v else f i' j'.

Definition count_prefetch_access (w : HitWhere.where_t) : MU unit :=
  match w with
  | HitWhere.L1_OWN => bump_counter Counter.L1D_accesses_prefetch 1
  | HitWhere.L2_OWN => bump_counter Counter.L2_accesses_prefetch 1
  | HitWhere.NUCA_CACHE => bump_counter Counter.NUCA_accesses_prefetch 1
  | _ => bump_if (is_dram w) Counter.DRAM_accesses_prefetch 1
  end.

(** One access of the list, when its turn is at [level] and [tab]. *)
Definition walk_request (packet : translationPacket) (is_prefetch : bool) (t_now ptw level tab : Z)
    (w : walk_acc) (a : PTWAccess) : MU walk_acc :=
  let current_level := Z.of_nat (depth a) in
  let current_table := table_level a in
  if (current_level =? level) && (current_table =? tab) then
    let t := t_now +64 fetch_delay w tab in
    latency ←
      (if t <? correct_access_translation_time w then
         '(latency, hit_where) ←
            mmu_accessCache (mkMeta current_level current_table ptw (access_is_pte a))
              (mkTPacket (physical_addr a) (tp_eip packet) (tp_type packet) (tp_modeled packet) (tp_count packet)) t;
         (if is_prefetch : bool then count_prefetch_access hit_where else mret tt);;
         mret latency
       else mret 0);
    mret (if access_is_pte a then
            mkWalkAcc (upd2 (latency_per_table_per_level w) current_table current_level latency) (fetch_delay w)
              current_table current_level (t +64 latency)
          else if (latency_per_table_per_level w current_table current_level <? latency)
                  && negb (current_level =? correct_level w) then
            mkWalkAcc (upd2 (latency_per_table_per_level w) current_table current_level latency) (fetch_delay w)
              (correct_table w) (correct_level w) (correct_access_translation_time w)
          else w)
  else mret w.

Definition walk_table (packet : translationPacket) (is_prefetch : bool) (t_now ptw level : Z) (l : list PTWAccess)
    (w : walk_acc) (tab : Z) : MU walk_acc :=
  w ← ufold (walk_request packet is_prefetch t_now ptw level tab) w l;
  mret (mkWalkAcc (latency_per_table_per_level w)
          (fun t => if t =? tab then fetch_delay w tab +64 latency_per_table_per_level w tab level else fetch_delay w t)
          (correct_table w) (correct_level w) (correct_access_translation_time w)).

Definition sum64 (f : Z -> Z) (l : list Z) : Z := foldl (fun acc i => acc +64 f i) 0 l.

(** The latency of a walk: the accesses level by level and table by table, the tables in
    parallel; what counts is the table with the translation, or all of them if none has it. *)
Definition calculatePTWCycles (r : PTWResult) (count modeled : bool) (eip : Z) (instruction is_prefetch : bool) : MU Z :=
  let l := accesses r in
  let packet := mkTPacket 0 eip (if instruction then PAGE_TABLE_INSTRUCTION else PAGE_TABLE_DATA) modeled count in
  let levels := foldl (fun mx a => Z.max mx (Z.of_nat (depth a))) 0 l in
  let tables := foldl (fun mx a => Z.max mx (table_level a)) 0 l in
  t_now ← getElapsedTime;
  uupd (fun m => set_walk_counts (dram_accesses_during_last_walk m) (m_ptw_id_counter m +64 1)
                   (tlb_hits_since_last_ptw m) m);;
  ptw ← uget m_ptw_id_counter;
  w ← ufold (fun w level => ufold (walk_table packet is_prefetch t_now ptw level l) w (seqZ 0 (tables + 1)))
        (mkWalkAcc (fun _ _ => 0) (fun _ => 0) (-1) (-1) MaxTime) (seqZ 0 (levels + 1));
  mret (if correct_table w =? -1
        then sum64 (fun tab => sum64 (latency_per_table_per_level w tab) (seqZ 0 (levels + 1))) (seqZ 0 (tables + 1))
        else sum64 (latency_per_table_per_level w (correct_table w)) (seqZ 0 (levels + 1))).

(** The order of accesses, and [std::unique] on a sorted vector. *)
Definition access_key (a : PTWAccess) : list Z :=
  [table_level a; Z.of_nat (depth a); physical_addr a; Z.b2z (access_is_pte a)].
Fixpoint lex_le (x y : list Z) : bool :=
  match x, y with
  | a :: x, b :: y => if a =? b then lex_le x y else a <? b
  | _, _ => true
  end.
Definition access_le (a b : PTWAccess) : Prop := lex_le (access_key a) (access_key b) = true.
#[global] Instance access_le_dec : RelDecision access_le.
Proof. intros a b. unfold access_le. apply _. Defined.
#[global] Instance PTWAccess_eq_dec : EqDecision PTWAccess.
Proof. solve_decision. Defined.
Fixpoint unique_adjacent (l : list PTWAccess) : list PTWAccess :=
  match l with
  | a :: (b :: _) as t => if decide (a = b) then unique_adjacent t else a :: unique_adjacent t
  | _ => l
  end.
Definition visited_once (l : list PTWAccess) : list PTWAccess := unique_adjacent (merge_sort access_le l).

(** The page fault state of the core. *)
Definition update_pf_state (f : PageFaultState -> PageFaultState) : MU unit :=
  l ← uget m_pf_states;
  ulift (check (core_id cfg <? length l)%nat AssertFailed);;
  s ← ulift (rd l (core_id cfg));
  l ← ulift (wr l (core_id cfg) (f s));
  uupd (set_pf_states l).
Definition setIsPageFault (is_pf : bool) : MU unit :=
  update_pf_state (fun s => if is_pf then mkPFState true (faulting_va s) (num_requested_frames s) else PageFaultState_reset).
Definition setNumRequestedFrames (n : Z) : MU unit :=
  update_pf_state (fun s => mkPFState (is_active s) (faulting_va s) n).
Definition setVaTriggeredPageFault (va : Z) : MU unit :=
  update_pf_state (fun s => mkPFState (is_active s) va (num_requested_frames s)).

Record PTWOutcome := mkOutcome {
  o_latency : Z; o_page_fault : bool; o_ppn : Z; o_page_size : Z; o_requested_frames : nat; o_payload_bits : Z }.

(** The handler that a walk with replay calls. *)
Definition walk_handler (address : Z) : PageTableRadix -> A -> res (PageTableRadix * A) :=
  on_fault (Z.of_nat (core_id cfg)) address.

(** [filterPTWResult] and the cycles of the accesses that remain. *)
Definition filter_and_charge (r : PTWResult) (count modeled : bool) (eip : Z) (instruction is_prefetch : bool) : MU Z :=
  f ← uget ptw_filter;
  '(r, f) ← ulift (filterPTWResult r count f);
  uupd (set_filter f);;
  calculatePTWCycles r count modeled eip instruction is_prefetch.

Definition performPTW (fuel : nat) (address : Z) (modeled count is_prefetch : bool) (eip : Z)
    (restart_walk instruction : bool) : MU PTWOutcome :=
  p ← uget page_table;
  a ← uget memory_allocator;
  '(r, p, a) ← ulift (initializeWalk (walk_handler address) fuel address count restart_walk
                        (userspace_mimicos_enabled cfg) p a);
  uupd (set_os p a);;
  let r := mkResult (page_size r) (visited_once (accesses r)) (r_ppn r) (pwc_latency r) (fault_happened r)
             (requested_frames r) (payload_bits r) in
  let payload := if fault_happened r then 0 else u64 (readPayloadBits (Z.shiftr address 12) p) in
  setIsPageFault (fault_happened r);;
  setNumRequestedFrames (Z.of_nat (requested_frames r));;
  (if fault_happened r then setVaTriggeredPageFault address else mret tt);;
  ptw_cycles ←
    (if fault_happened r && count_page_fault_latency_enabled cfg then
       filter_and_charge r count modeled eip instruction is_prefetch
     else if negb (fault_happened r) then
       bump_counter Counter.memory_accesses_before_filtering (Z.of_nat (length (accesses r)));;
       filter_and_charge r count modeled eip instruction is_prefetch
     else mret 0);
  mret (mkOutcome ptw_cycles (fault_happened r) (r_ppn r) (page_size r) (requested_frames r) payload).

(** The physical address of a page number of 4 KB and the offset in the page. *)
Definition physical_address (ppn page_size address : Z) : res Z :=
  check ((0 <=? page_size) && (page_size <? 64)) BadShift;;
  Ok (u64 (u64 (ppn * 4096) + Z.land address (u64 (Z.shiftl 1 page_size - 1)))).

Definition translateWithoutTiming (fuel : nat) (address : Z) : MU (Z * Z) :=
  p ← uget page_table;
  a ← uget memory_allocator;
  '(r, p, a) ← ulift (initializeWalk (walk_handler address) fuel address false true
                        (userspace_mimicos_enabled cfg) p a);
  uupd (set_os p a);;
  pa ← ulift (physical_address (r_ppn r) (page_size r) address);
  mret (pa, page_size r).

(** ** The translation of an address ([mmu.cc]) *)

(** The look-up in one TLB, if it is searched for this kind of access; a later hit of the same
    level replaces an earlier one. *)
Definition lookup_one (address time : Z) (count : bool) (eip : Z) (instruction : bool) (i : nat)
    (hit : option (nat * CacheBlockInfo)) (j : nat) : MU (option (nat * CacheBlockInfo)) :=
  h ← uget tlb_subsystem;
  t ← ulift (get_tlb i j h);
  let ty := getType t in
  if (instruction && negb (bool_decide (ty = Data))) || (negb instruction && negb (bool_decide (ty = Instruction))) then
    '(o, t) ← ulift (tlb_lookup address time count eip true instruction t);
    h ← ulift (put_tlb i j t h);
    uupd (set_tlbs h);;
    mret (match o with Some b => Some (j, b) | None => hit end)
  else mret hit.

(** The levels in order, until one hits. *)
Fixpoint lookup_levels (address time : Z) (count : bool) (eip : Z) (instruction : bool) (levels : list nat)
  : MU (option (nat * nat * CacheBlockInfo)) :=
  match levels with
  | [] => mret None
  | i :: levels =>
      h ← uget tlb_subsystem;
      l ← ulift (rd (tlbLevels h) i);
      o ← ufold (lookup_one address time count eip instruction i) None (seq 0 (length l));
      match o with
      | Some (j, b) => mret (Some (i, j, b))
      | None => lookup_levels address time count eip instruction levels
      end
  end.

(** The slowest of some TLBs of a level. *)
Definition slowest (i : nat) (js : list nat) : MU Z :=
  h ← uget tlb_subsystem;
  ufold (fun acc j => t ← ulift (get_tlb i j h); mret (Z.max (tlb_latency t) acc)) 0 js.

Definition tlb_path (instruction : bool) (h : TLBHierarchy P) : list (list nat) :=
  if instruction then instruction_path h else data_path h.

(** The loop over the TLBs of the level that hit; the second level has the latency of the
    page size prediction. *)
Fixpoint charge_hit_level (count : bool) (hit_level hit_tlb page_size predicted : Z) (latency : Z) (js : list nat)
    (charged : Z) : MU Z :=
  match js with
  | [] => mret charged
  | j :: js =>
      if negb (hit_level =? 1) then
        if Z.of_nat j =? hit_tlb then
          bump_counter Counter.total_tlb_latency latency;;
          bump_counter (Counter.tlb_latency_per_level (Z.to_nat hit_level)) latency;;
          charge_hit_level count hit_level hit_tlb page_size predicted latency js (charged +64 latency)
        else charge_hit_level count hit_level hit_tlb page_size predicted latency js charged
      else if page_size_prediction_enabled cfg then
        let success := predicted =? page_size in
        let l := if success then l2_tlb_correct_prediction_latency cfg else l2_tlb_misprediction_latency cfg in
        bump_if count (if success then Counter.page_size_prediction_hits else Counter.page_size_prediction_misses) 1;;
        bump_counter Counter.total_tlb_latency l;;
        bump_counter (Counter.tlb_latency_per_level (Z.to_nat hit_level)) l;;
        mret (charged +64 l)
      else charge_hit_level count hit_level hit_tlb page_size predicted latency js charged
  end.

Definition charge_hit (time : Z) (count instruction : bool) (predicted : Z) (i j : nat) (b : CacheBlockInfo) : MU Z :=
  h ← uget tlb_subsystem;
  let path := tlb_path instruction h in
  charged ← ufold (fun charged k =>
      js ← ulift (rd path k);
      l ← slowest k js;
      bump_counter Counter.total_tlb_latency l;;
      bump_counter (Counter.tlb_latency_per_level k) l;;
      mret (charged +64 l)) 0 (seq 0 i);
  js ← ulift (rd path i);
  t ← ulift (get_tlb i j h);
  charged ← charge_hit_level count (Z.of_nat i) (Z.of_nat j) (m_page_size b) predicted (tlb_latency t) js charged;
  setElapsedTime (time +64 charged);;
  bump_split count instruction Counter.tlb_hits_instruction Counter.tlb_hits_data 1;;
  bump_split count instruction Counter.total_tlb_latency_instruction Counter.total_tlb_latency_data charged;;
  mret charged.

Definition charge_miss (time : Z) (count instruction : bool) : MU Z :=
  h ← uget tlb_subsystem;
  charged ← ufold (fun charged k =>
      l ← ulift (rd (tlbLevels h) k);
      l ← slowest k (seq 0 (length l));
      bump_counter Counter.total_tlb_latency l;;
      mret (charged +64 l)) 0 (seq 0 (length (tlbLevels h)));
  setElapsedTime (time +64 charged);;
  bump_split count instruction Counter.tlb_misses_instruction Counter.tlb_misses_data 1;;
  bump_split count instruction Counter.total_tlb_latency_instruction Counter.total_tlb_latency_data charged;;
  mret charged.

(** The loop of walks and page faults; the fuel bounds its passes. The result is the last
    outcome and whether a fault occurred. *)
Fixpoint walk_until_mapped (fuel : nat) (address : Z) (modeled count : bool) (eip : Z) (instruction had_fault : bool)
  : MU (PTWOutcome * bool) :=
  match fuel with
  | O => ulift (Err Diverges)
  | S fuel =>
      r ← performPTW 1 address modeled count false eip false instruction;
      bump_if count Counter.total_walk_latency (o_latency r);;
      bump_if count Counter.page_table_walks 1;;
      bump_split count instruction Counter.page_table_walks_instruction Counter.page_table_walks_data 1;;
      bump_split count instruction Counter.total_walk_latency_instruction Counter.total_walk_latency_data (o_latency r);;
      if o_page_fault r then
        bump_counter Counter.page_faults 1;;
        bump_counter (if instruction then Counter.page_faults_instruction else Counter.page_faults_data) 1;;
        if userspace_mimicos_enabled cfg then mret (r, true)
        else
          p ← uget page_table;
          a ← uget memory_allocator;
          '(p, a) ← ulift (handle_page_fault (Z.of_nat (core_id cfg))
                             (initFaultCtx address (o_requested_frames r) instruction) p a);
          uupd (set_os p a);;
          walk_until_mapped fuel address modeled count eip instruction true
      else mret (r, had_fault)
  end.

(** Phase 3: the walk after a miss. [None]: the fault is left to the user-space handler. *)
Definition walk_phase (fuel : nat) (address : Z) (modeled count : bool) (eip : Z) (instruction : bool)
  : MU (option (PTWOutcome * Z)) :=
  time_for_pt ← getElapsedTime;
  w ← uget pt_walkers;
  let delay := getSlotAllocationDelay time_for_pt w in
  setElapsedTime (time_for_pt +64 delay);;
  '(r, had_fault) ← walk_until_mapped fuel address modeled count eip instruction false;
  if o_page_fault r && userspace_mimicos_enabled cfg then mret None
  else
    let charge := had_fault && negb (userspace_mimicos_enabled cfg) in
    let fault_latency := if charge then page_fault_latency cfg else 0 in
    bump_if (charge && count) Counter.total_fault_latency fault_latency;;
    let completion := time_for_pt +64 delay +64 o_latency r +64 fault_latency in
    uupd (fun m => set_walkers (mshr_allocate (mkMSHREntry time_for_pt completion) (pt_walkers m)) m);;
    (if charge then uupd (fun m => set_pseudo (pseudo_instructions m ++ [fault_latency]) m) else mret tt);;
    setElapsedTime completion;;
    mret (Some (r, fault_latency)).

(** *** Phase 4: allocation in the TLBs *)

(** Allocation in one TLB; a victim is appended to those of the level. *)
Definition allocate_in (count instruction : bool) (i j : nat) (victims : list (Z * Z * Z)) (x : Z * Z * Z)
  : MU (list (Z * Z * Z)) :=
  let '(address, page_size, ppn) := x in
  h ← uget tlb_subsystem;
  t ← ulift (get_tlb i j h);
  if supportsPageSize page_size t then
    '(r, t) ← ulift (tlb_allocate address count page_size ppn false instruction t);
    h ← ulift (put_tlb i j t h);
    uupd (set_tlbs h);;
    mret (if evicted r then victims ++ [(alloc_address r, alloc_page_size r, alloc_ppn r)] else victims)
  else mret victims.

(** One TLB: first what the level above evicted, then the translation itself. *)
Definition fill_tlb (count instruction : bool) (x : Z * Z * Z) (hit_level : option nat) (i : nat)
    (from_above victims : list (Z * Z * Z)) (j : nat) : MU (list (Z * Z * Z)) :=
  h ← uget tlb_subsystem;
  t ← ulift (get_tlb i j h);
  if m_prefetch t then mret victims
  else
    victims ← ufold (allocate_in count instruction i j) victims from_above;
    if m_allocate_miss t && match hit_level with None => true | Some k => (i <? k)%nat end
    then allocate_in count instruction i j victims x
    else mret victims.

(** The levels in order, each with the victims of the one above it. *)
Fixpoint fill_levels (count instruction : bool) (x : Z * Z * Z) (hit_level : option nat) (path : list (list nat))
    (i : nat) (from_above : list (Z * Z * Z)) : MU unit :=
  match path with
  | [] => mret tt
  | js :: path =>
      victims ← ufold (fill_tlb count instruction x hit_level i from_above) [] js;
      fill_levels count instruction x hit_level path (S i) victims
  end.

(** *** The end of a translation *)

Definition updateTranslationStats (tr_latency : Z) (is_l2_miss : bool) (walk_latency : Z) : MU unit :=
  uupd (fun m => set_per_core (alter (fun s =>
    mkPerCore (translation_latency s +64 tr_latency)
      (if is_l2_miss then page_walk_latency s +64 walk_latency else page_walk_latency s)
      (pc_num_translations s +64 1)
      (if is_l2_miss then l2_tlb_misses s +64 1 else l2_tlb_misses s)
      (if is_l2_miss then l2_tlb_hits s else l2_tlb_hits s +64 1)) (core_id cfg) (m_per_core_stats m)) m).

(** The map is extended, or agrees with what it holds. *)
Definition sanity_check (k v : Z) (g : gmap Z Z) : MU (gmap Z Z) :=
  match g !! k with
  | Some v' =>
      if v' =? v then mret g
      else bump_counter Counter.sanity_check_violations 1;; ulift (Err AssertFailed)
  | None => mret (<[k := v]> g)
  end.

Definition sanity_checks (address pa page_size : Z) : MU unit :=
  if sanity_checks_enabled cfg then
    let mask := u64 (Z.lnot (u64 (Z.shiftl 1 page_size - 1))) in
    let va_page := Z.land address mask in
    let pa_page := Z.land pa mask in
    g ← uget va_to_pa_map;
    g ← sanity_check va_page pa_page g;
    uupd (fun m => set_sanity g (pa_to_va_map m) m);;
    g' ← uget pa_to_va_map;
    g' ← sanity_check pa_page va_page g';
    uupd (fun m => set_sanity (va_to_pa_map m) g' m)
  else mret tt.

(** Phases 4 and 5, with the statistics. *)
Definition finish_translation (address : Z) (count instruction : bool) (hit_level : option nat)
    (ppn page_size charged walk_latency : Z) : MU Z :=
  h ← uget tlb_subsystem;
  fill_levels count instruction (address, page_size, ppn) hit_level (tlb_path instruction h) 0 [];;
  let latency := charged +64 walk_latency in
  bump_counter Counter.total_translation_latency latency;;
  (if count then updateTranslationStats latency (bool_decide (hit_level = None)) walk_latency else mret tt);;
  pa ← ulift (physical_address ppn page_size address);
  bump_split count instruction Counter.total_translation_latency_instruction
    Counter.total_translation_latency_data latency;;
  sanity_checks address pa page_size;;
  mret pa.

Definition count_translation (count instruction : bool) : MU unit :=
  bump_if count Counter.num_translations 1;;
  bump_split count instruction Counter.num_translations_instruction Counter.num_translations_data 1.

(** The mode without timing, charged with the latency of the first data TLB. *)
Definition perfect_translation (fuel : nat) (address : Z) (instruction count : bool) : MU Z :=
  '(pa, _) ← translateWithoutTiming fuel address;
  count_translation count instruction;;
  h ← uget tlb_subsystem;
  let latency :=
    match tlbLevels h with
    | l :: _ => match filter (fun t => getType t <> Instruction) l with t :: _ => tlb_latency t | [] => 0 end
    | [] => 0
    end in
  (if 0 <? latency then
     time ← getElapsedTime;
     setElapsedTime (time +64 latency);;
     bump_counter Counter.total_tlb_latency latency;;
     bump_counter Counter.total_translation_latency latency
   else mret tt);;
  mret pa.

(** The result is -1 when the fault is left to the user-space handler. *)
Definition performAddressTranslation (fuel : nat) (eip address : Z) (instruction modeled count : bool) : MU Z :=
  uupd (fun m => set_walk_counts 0 (m_ptw_id_counter m) (tlb_hits_since_last_ptw m) m);;
  if perfect_translation_enabled cfg then perfect_translation fuel address instruction count
  else
    time ← getElapsedTime;
    uupd (fun m => set_walkers (removeCompletedEntries time (pt_walkers m)) m);;
    count_translation count instruction;;
    h ← uget tlb_subsystem;
    predicted ← (if page_size_prediction_enabled cfg then ulift (predictPagesize address h) else mret (-1));
    hit ← lookup_levels address time count eip instruction (seq 0 (length (tlbLevels h)));
    match hit with
    | Some (i, j, b) =>
        uupd (fun m => set_walk_counts (dram_accesses_during_last_walk m) (m_ptw_id_counter m)
                         (tlb_hits_since_last_ptw m +64 1) m);;
        charged ← charge_hit time count instruction predicted i j b;
        finish_translation address count instruction (Some i) (CacheBlock.ppn b) (m_page_size b) charged 0
    | None =>
        charged ← charge_miss time count instruction;
        o ← walk_phase fuel address modeled count eip instruction;
        match o with
        | None => mret (2 ^ 64 - 1)
        | Some (r, _) =>
            finish_translation address count instruction None (o_ppn r) (o_page_size r) charged (o_latency r)
        end
    end.

End unit.
