(* ===== verification/MmuProps.v ===== *)
(** * What the memory management unit promises

    The unit of Mmu over any replacement policy, base page allocator and data caches that
    return: the translation of a data access is total, agrees with the page table after the
    access, keeps every earlier translation and never trips the consistency checks of the
    simulator. The proofs use a weakest precondition of the unit's monad and an invariant that
    all steps but page faults keep unchanged. *)

From stdpp Require Import base tactics list numbers gmap sets strings sorting.
From Stdlib Require Import ZArith Lia.
From S2P Require Import Prelude Utils CacheBase CacheBlock CacheSet Replacement Cache CacheProps Timing DirCntlr.
From S2P Require Import Buddy PageTable PageFault Tlb TlbProps Mmu.
Local Open Scope Z_scope.
Local Open Scope mach_scope.

(** The data caches return from every access of a walk. *)
Class MMUCacheLaws (C : Type) `{!MMUCacheInterface C} := {
  caches_ok : C -> Prop;
  access_returns info eip address offset n modeled count ty t c :
    caches_ok c -> exists w t' c', handleMMUCacheAccess info eip address offset n modeled count ty t c = Ok (w, t', c') /\ caches_ok c';
  tag_returns address ty c : caches_ok c -> exists c', tagCachesBlockType address ty c = Ok c' /\ caches_ok c'
}.

(** The translation that a tree of frames determines. *)
Definition tr (r : PTFrame) (v : Z) : option (Z * Z) := (fun q => (q.1, size_of_level q.2)) <$> find 4 (PTo r) v.

Lemma translate_tr p v : pt_ok p -> translate p v = tr (root p) v.
Proof. apply translate_find. Qed.

(** ** Predictor *)

Definition predictor_ok (p : PageSizePredictor) : Prop :=
  length (history p) = 4%nat /\ length (tables p) = 16%nat /\ Forall (fun t => length t = 32%nat) (tables p).

Lemma history_index_lt p : length (history p) = 4%nat -> 0 <= get_history_index p < 16.
Proof.
  unfold get_history_index. destruct (history p) as [|a [|b [|c [|d [|]]]]]; try done. intros _. cbn [foldl].
  destruct (a =? 21), (b =? 21), (c =? 21), (d =? 21); vm_compute; split; congruence.
Qed.

Lemma predictPageSize_total v p : predictor_ok p -> exists s, predictPageSize v p = Ok s.
Proof.
  intros (Hh & Ht & Hr). unfold predictPageSize. pose proof (history_index_lt p Hh) as Hi.
  destruct (rd_lookup (tables p) (Z.to_nat (get_history_index p))) as (t & -> & El); [lia|]. cbn [mbind res_bind].
  destruct (rd_lookup t (table_index v)) as (b & -> & _); [|cbn; eauto].
  rewrite (Forall_lookup_1 _ _ _ _ Hr El). unfold table_index.
  pose proof (land_ones_range 5 (Z.shiftr v 12) ltac:(lia)) as [? ?]. change (2 ^ 5 - 1) with 0x1F in *. lia.
Qed.

(** ** Weakest preconditions *)

Section unit.
Context {P : Type} `{!ReplacementPolicy P} `{!ReplacementPolicyLaws P} `{!StandaloneVictims P} {PQ : PriorityQueue}.
Context {A : Type} `{!Allocator A} `{!BasePageAllocator A} `{!NumaAllocator A}.
Context {C : Type} `{!MMUCacheInterface C} `{!MMUCacheLaws C}.
Context (cfg : MMUConfig).
Abbreviation Unit := (MemoryManagementUnit P A C).
Implicit Types (m : Unit).

Record hierarchy_ok (T : Z -> option (Z * Z)) (h : TLBHierarchy P) : Prop := {
  ho_tlbs i l j t : tlbLevels h !! i = Some l -> l !! j = Some t -> tlb_ok T t;
  ho_path b : length (tlb_path b h) = length (tlbLevels h);
  ho_inside b i js l : tlb_path b h !! i = Some js -> tlbLevels h !! i = Some l -> Forall (fun j => j < length l)%nat js;
  ho_predictor p : page_size_predictor h = Some p -> predictor_ok p
}.

(** What a translation leaves alone between page faults: the tree, the allocator, the maps
    of the consistency checks and the shape of the hierarchy. *)
Record view := mkView { x_root : PTFrame; x_alloc : A; x_va : gmap Z Z; x_pa : gmap Z Z; x_shape : list nat }.

Record inv (x : view) m : Prop := {
  i_root : root (page_table m) = x_root x;
  i_alloc : memory_allocator m = x_alloc x;
  i_os : os_ok (page_table m) (memory_allocator m);
  i_va : va_to_pa_map m = x_va x;
  i_pa : pa_to_va_map m = x_pa x;
  i_tlbs : hierarchy_ok (tr (x_root x)) (tlb_subsystem m);
  i_shape : map length (tlbLevels (tlb_subsystem m)) = x_shape x;
  i_filter : filter_ok (ptw_filter m);
  i_caches : caches_ok (caches m);
  i_states : (core_id cfg < length (m_pf_states m))%nat
}.

Definition wp {T} (F : fault -> Prop) (k : MU T) (Q : T -> Unit -> Prop) m : Prop :=
  match k m with Ok (r, m') => Q r m' | Err e => F e end.

Lemma unit_wp_bind {T U} F (k : MU T) (f : T -> MU U) Q m :
  wp F k (fun r => wp F (f r) Q) m -> wp F (k ≫= f) Q m.
Proof. unfold wp, mbind, MU_bind. by destruct (k m) as [[r m']|]. Qed.

Lemma unit_wp_mono {T} (F F' : fault -> Prop) (k : MU T) (Q Q' : T -> Unit -> Prop) m :
  (forall e, F e -> F' e) -> (forall r m', Q r m' -> Q' r m') -> wp F k Q m -> wp F' k Q' m.
Proof. unfold wp. intros HF HQ. destruct (k m) as [[r m']|]; auto. Qed.

(** A step that returns and keeps a view. *)
Definition keeps {T} (x : view) (k : MU T) (Q : T -> Prop) : Prop :=
  forall m, inv x m -> wp (fun _ => False) k (fun r m' => inv x m' /\ Q r) m.
Abbreviation always := (fun _ => True).

Lemma keeps_ret {T} x (r : T) (Q : T -> Prop) : Q r -> keeps x (mret r) Q.
Proof. intros HQ m Hm. split; assumption. Qed.

Lemma keeps_bind {T U} x (k : MU T) (f : T -> MU U) (Q : T -> Prop) (R : U -> Prop) :
  keeps x k Q -> (forall r, Q r -> keeps x (f r) R) -> keeps x (k ≫= f) R.
Proof.
  intros Hk Hf m Hm. apply unit_wp_bind. refine (unit_wp_mono _ _ _ _ _ _ _ _ (Hk m Hm)); [done|]. intros r m' [Hm' HQ]. by apply Hf.
Qed.

Lemma keeps_mono {T} x (k : MU T) (Q R : T -> Prop) : keeps x k Q -> (forall r, Q r -> R r) -> keeps x k R.
Proof. intros Hk H m Hm. refine (unit_wp_mono _ _ _ _ _ _ _ _ (Hk m Hm)); [done|]. intros r m' []. auto. Qed.

Lemma keeps_lift {T} x (r : res T) (y : T) (Q : T -> Prop) : r = Ok y -> Q y -> keeps x (ulift r) Q.
Proof. intros -> HQ m Hm. split; assumption. Qed.

Lemma keeps_get {T} x (f : Unit -> T) (Q : T -> Prop) : (forall m, inv x m -> Q (f m)) -> keeps x (uget f) Q.
Proof. intros H m Hm. split; auto. Qed.

Lemma keeps_upd x (f : Unit -> Unit) : (forall m, inv x m -> inv x (f m)) -> keeps x (uupd f) always.
Proof. intros H m Hm. split; auto. Qed.

Lemma keeps_fold {T X} x (f : T -> X -> MU T) (I : T -> Prop) l acc :
  (forall acc y, y ∈ l -> I acc -> keeps x (f acc y) I) -> I acc -> keeps x (ufold f acc l) I.
Proof.
  revert acc. induction l as [|y l IH]; intros acc H HI; cbn [ufold]; [by apply keeps_ret|].
  eapply keeps_bind; [apply H; [left|done]|]. intros r Hr. apply IH; [|done]. intros a z Hz. apply H. by right.
Qed.

Lemma keeps_if {T} x (b : bool) (k k' : MU T) Q : keeps x k Q -> keeps x k' Q -> keeps x (if b then k else k') Q.
Proof. by destruct b. Qed.

Lemma keeps_seq {U T} x (k : MU T) (f : T -> MU U) (R : U -> Prop) :
  keeps x k always -> (forall r, keeps x (f r) R) -> keeps x (k ≫= f) R.
Proof. intros Hk Hf. by eapply keeps_bind. Qed.

(** Steps on counters and time. *)
Ltac same_inv := let H := fresh in intros ? H; destruct H; split; cbn; done.

Lemma keeps_bump x k n : keeps x (bump_counter k n) always.
Proof. apply keeps_upd. same_inv. Qed.
Lemma keeps_bump_if x b k n : keeps x (bump_if b k n) always.
Proof. apply keeps_if; [apply keeps_bump|by apply keeps_ret]. Qed.
Lemma keeps_bump_split x b i k k' n : keeps x (bump_split b i k k' n) always.
Proof. apply keeps_bump_if. Qed.
Lemma keeps_setTime x t : keeps x (setElapsedTime t) always.
Proof. apply keeps_upd. same_inv. Qed.
Lemma keeps_uget {T} x (f : Unit -> T) : keeps x (uget f) always.
Proof. by apply keeps_get. Qed.
Lemma keeps_getTime x : keeps x getElapsedTime always.
Proof. apply keeps_uget. Qed.
Lemma keeps_walk_counts x f g h : keeps x (uupd (fun m => set_walk_counts (f m) (g m) (h m) m)) always.
Proof. apply keeps_upd. same_inv. Qed.
Lemma keeps_walkers x f : keeps x (uupd (fun m => set_walkers (f m) m)) always.
Proof. apply keeps_upd. same_inv. Qed.
Lemma keeps_pseudo x f : keeps x (uupd (fun m => set_pseudo (f m) m)) always.
Proof. apply keeps_upd. same_inv. Qed.
Lemma keeps_per_core x f : keeps x (uupd (fun m => set_per_core (f m) m)) always.
Proof. apply keeps_upd. same_inv. Qed.

End unit.

Create HintDb unit.
#[export] Hint Resolve keeps_bump keeps_bump_if keeps_bump_split keeps_setTime keeps_getTime keeps_uget
  keeps_walk_counts keeps_walkers keeps_pseudo keeps_per_core : unit.
Ltac kauto :=
  repeat first
    [ apply keeps_ret; exact I
    | solve [eauto with unit]
    | apply keeps_if
    | apply keeps_seq; [|intros ?] ].

(** ** Walks and look-ups keep the view *)

Section steps.
Context {P : Type} `{!ReplacementPolicy P} `{!ReplacementPolicyLaws P} `{!StandaloneVictims P} {PQ : PriorityQueue}.
Context {A : Type} `{!Allocator A} `{!BasePageAllocator A} `{!NumaAllocator A}.
Context {C : Type} `{!MMUCacheInterface C} `{!MMUCacheLaws C}.
Context (cfg : MMUConfig).
Abbreviation Unit := (MemoryManagementUnit P A C).
Implicit Types (m : Unit) (x : @view A).
Abbreviation always := (fun _ => True).
Abbreviation keeps := (keeps (P := P) (C := C) cfg).

Lemma keeps_caches x c : caches_ok c -> keeps x (uupd (set_caches c)) always.
Proof. intros Hc. apply keeps_upd. intros ? []. split; cbn; done. Qed.
Lemma keeps_filter x f : filter_ok f -> keeps x (uupd (set_filter f)) always.
Proof. intros Hc. apply keeps_upd. intros ? []. split; cbn; done. Qed.
Lemma keeps_get_caches x : keeps x (uget caches) caches_ok.
Proof. apply keeps_get. intros m Hm. apply Hm. Qed.

Lemma keeps_count_access x w v : keeps x (count_walker_access cfg w v) always.
Proof. unfold count_walker_access. kauto. Qed.

Lemma keeps_accessCache x info packet t : keeps x (mmu_accessCache cfg info packet t) always.
Proof.
  unfold mmu_accessCache. apply keeps_seq; [kauto|intros t0]. apply keeps_seq; [kauto|intros _].
  eapply keeps_bind; [apply keeps_get_caches|intros c Hc].
  destruct (access_returns info (tp_eip packet) (Z.land (tp_address packet) (u64 (Z.lnot 63)))
    (if 64 <? tp_address packet `mod` 64 + 8 then 64 - 8 else tp_address packet `mod` 64) 8 (tp_modeled packet) (tp_count packet)
    (tp_type packet) t c Hc) as (w & t' & c' & E & Hc').
  eapply keeps_bind; [eapply keeps_lift with (Q := fun r => r = (w, t', c')); [exact E|done]|intros ? ->].
  apply keeps_seq; [by apply keeps_caches|intros _]. apply keeps_seq; [apply keeps_count_access|intros _].
  apply keeps_seq; [kauto|intros _]. eapply keeps_bind; [apply keeps_get_caches|intros c2 Hc2].
  destruct (tag_returns (tp_address packet) (tp_type packet) c2 Hc2) as (c3 & E3 & Hc3).
  eapply keeps_bind; [eapply keeps_lift with (Q := caches_ok); [exact E3|done]|intros c4 Hc4].
  apply keeps_seq; [by apply keeps_caches|intros _]. by apply keeps_ret.
Qed.

Lemma keeps_walk_request x packet pf t ptw level tab w a : keeps x (walk_request cfg packet pf t ptw level tab w a) always.
Proof.
  unfold walk_request. destruct (_ && _); [|by apply keeps_ret].
  apply keeps_seq; [|intros l; by apply keeps_ret]. destruct (_ <? _); [|by apply keeps_ret].
  apply keeps_seq; [apply keeps_accessCache|intros [l h]]. apply keeps_seq; [|intros _; by apply keeps_ret].
  apply keeps_if; [|by apply keeps_ret]. unfold count_prefetch_access. destruct h; kauto.
Qed.

Lemma keeps_walk_table x packet pf t ptw level l w tab : keeps x (walk_table cfg packet pf t ptw level l w tab) always.
Proof.
  unfold walk_table. apply keeps_seq; [|intros; by apply keeps_ret].
  apply keeps_fold; [|done]. intros. apply keeps_walk_request.
Qed.

Lemma keeps_calculate x r count modeled eip i pf : keeps x (calculatePTWCycles cfg r count modeled eip i pf) always.
Proof.
  unfold calculatePTWCycles. apply keeps_seq; [kauto|intros t]. apply keeps_seq; [kauto|intros _].
  apply keeps_seq; [kauto|intros ptw]. apply keeps_seq; [|intros w; by apply keeps_ret].
  apply keeps_fold; [|done]. intros w level _ _. apply keeps_fold; [|done]. intros. apply keeps_walk_table.
Qed.

Lemma keeps_filter_and_charge x r count modeled eip i pf :
  accesses_ok (accesses r) -> keeps x (filter_and_charge cfg r count modeled eip i pf) always.
Proof.
  intros Ha. unfold filter_and_charge. eapply keeps_bind; [apply keeps_get with (Q := filter_ok); intros m Hm; apply Hm|intros f Hf].
  destruct (filterPTWResult_spec r count f Hf Ha) as (r' & f' & E & Hf').
  eapply keeps_bind; [eapply keeps_lift with (Q := fun y => y = (r', f')); [exact E|done]|intros ? ->].
  apply keeps_seq; [by apply keeps_filter|intros _]. apply keeps_calculate.
Qed.

Lemma keeps_pf_state x f : keeps x (update_pf_state cfg f) always.
Proof.
  intros m Hm. pose proof (i_states _ _ _ Hm) as Hl. unfold update_pf_state.
  apply unit_wp_bind. unfold wp at 1, uget. apply unit_wp_bind. unfold wp at 1, ulift.
  rewrite (proj2 (Nat.ltb_lt _ _) Hl). cbn [check]. apply unit_wp_bind. unfold wp at 1, ulift.
  destruct (rd_lookup _ _ Hl) as (s & -> & _). apply unit_wp_bind. unfold wp at 1, ulift. rewrite wr_lt by done.
  split; [|done]. destruct Hm. split; cbn; rewrite ?length_insert; done.
Qed.

Lemma keeps_setIsPageFault x b : keeps x (setIsPageFault cfg b) always.
Proof. apply keeps_pf_state. Qed.
Lemma keeps_setFrames x n : keeps x (setNumRequestedFrames cfg n) always.
Proof. apply keeps_pf_state. Qed.
Lemma keeps_setVa x v : keeps x (setVaTriggeredPageFault cfg v) always.
Proof. apply keeps_pf_state. Qed.

End steps.
#[export] Hint Resolve keeps_setIsPageFault keeps_setFrames keeps_setVa : unit.

Lemma unique_adjacent_sub l a : a ∈ unique_adjacent l -> a ∈ l.
Proof.
  induction l as [|b [|c l] IH]; [done|done|]. cbn [unique_adjacent] in *. case_decide as E.
  - intros H. right. by apply IH.
  - intros [-> |H]%elem_of_cons; [left|]. right. by apply IH.
Qed.

Lemma visited_once_ok l : accesses_ok l -> accesses_ok (visited_once l).
Proof.
  intros H. apply Forall_forall. intros a Ha%unique_adjacent_sub. rewrite (merge_sort_Permutation access_le l) in Ha.
  by apply (proj1 (Forall_forall _ _) H).
Qed.

(** ** One walk, and the TLBs *)

Section translations.
Context {P : Type} `{!ReplacementPolicy P} `{!ReplacementPolicyLaws P} `{!StandaloneVictims P} {PQ : PriorityQueue}.
Context {A : Type} `{!Allocator A} `{!BasePageAllocator A} `{!NumaAllocator A}.
Context {C : Type} `{!MMUCacheInterface C} `{!MMUCacheLaws C}.
Context (cfg : MMUConfig).
Abbreviation Unit := (MemoryManagementUnit P A C).
Implicit Types (m : Unit) (x : @view A).
Abbreviation always := (fun _ => True).
Abbreviation keeps := (keeps (P := P) (C := C) cfg).

Lemma os_ok_root (p p' : PageTableRadix) (a : A) : os_ok p a -> pt_ok p' -> root p' = root p -> os_ok p' a.
Proof.
  intros [Hp Ha Hs Hu Hr Hi] Hp' E. assert (Ht : forall v, translate p' v = translate p v) by (intros; by apply translate_root).
  split; [done|done| | | |]; intros *; rewrite ?Ht; [|by apply Hu|by apply Hr|by apply Hi]. unfold huge_in_way. rewrite E. apply Hs.
Qed.

(** The table and the allocator of a view. *)
Definition table_of x (p : PageTableRadix) : Prop := root p = x_root x /\ os_ok p (x_alloc x).

Lemma keeps_table x : keeps x (uget page_table) (table_of x).
Proof. apply keeps_get. intros m Hm. split; [apply Hm|]. rewrite <- (i_alloc _ _ _ Hm). apply Hm. Qed.
Lemma keeps_allocator x : keeps x (uget memory_allocator) (fun a => a = x_alloc x).
Proof. apply keeps_get. intros m Hm. apply Hm. Qed.
Lemma keeps_set_os x p : table_of x p -> keeps x (uupd (set_os p (x_alloc x))) always.
Proof. intros [Hr Ho]. apply keeps_upd. intros m []. split; cbn; done. Qed.

Lemma table_tr x p v : table_of x p -> translate p v = tr (x_root x) v.
Proof. intros [<- Ho]. apply translate_tr, Ho. Qed.

(** What a walk without replay reports. *)
Definition walk_outcome (r : PTFrame) (v : Z) (o : PTWOutcome) : Prop :=
  match tr r v with
  | Some (n, s) => o_page_fault o = false /\ o_ppn o = n /\ o_page_size o = s
  | None => o_page_fault o = true /\ o_requested_frames o = missing 1 4 (PTo r) v
  end.

Lemma keeps_performPTW x fuel v modeled count pf eip i :
  keeps x (performPTW cfg (S fuel) v modeled count pf eip false i) (walk_outcome (x_root x) v).
Proof.
  unfold performPTW. eapply keeps_bind; [apply keeps_table|intros p Hp]. eapply keeps_bind; [apply keeps_allocator|intros a ->].
  destruct (single_walk (walk_handler cfg v) fuel v count (userspace_mimicos_enabled cfg) p (x_alloc x)) as (r & p' & E & Hp' & Hr & Ho);
    [apply Hp|left; apply Hp|].
  eapply keeps_bind; [eapply keeps_lift with (Q := fun y => y = (r, p', x_alloc x)); [exact E|done]|intros ? ->].
  assert (Hacc : accesses_ok (accesses r)).
  { unfold initializeWalk in E. eapply walk_loop_accesses_ok; [|exact E]. constructor. }
  apply keeps_seq; [apply keeps_set_os; destruct Hp; split; [congruence|by eapply os_ok_root]|intros _].
  do 3 (apply keeps_seq; [kauto|intros _]). apply keeps_seq.
  - destruct (_ && _); [apply keeps_filter_and_charge; by apply visited_once_ok|]. destruct (negb _); [|by apply keeps_ret].
    apply keeps_seq; [kauto|intros _]. apply keeps_filter_and_charge. by apply visited_once_ok.
  - intros c. apply keeps_ret. unfold walk_outcome. rewrite <- (table_tr x p v Hp). cbn.
    destruct (translate p v) as [[n s]|]; [naive_solver|]. destruct Ho as [Hf Hq]. split; [done|]. by rewrite Hq, <- (proj1 Hp).
Qed.

(** *** TLBs *)

Lemma keeps_hierarchy x :
  keeps x (uget tlb_subsystem) (fun h => hierarchy_ok (tr (x_root x)) h /\ map length (tlbLevels h) = x_shape x).
Proof. apply keeps_get. intros m Hm. split; apply Hm. Qed.

Lemma keeps_set_tlbs x h :
  hierarchy_ok (tr (x_root x)) h -> map length (tlbLevels h) = x_shape x -> keeps x (uupd (set_tlbs h)) always.
Proof. intros Hh Hs. apply keeps_upd. intros m []. split; cbn; done. Qed.

(** A position of the shape. *)
Definition position (shape : list nat) (i j : nat) : Prop := exists n, shape !! i = Some n /\ (j < n)%nat.

Lemma get_tlb_spec T h i j :
  hierarchy_ok T h -> position (map length (tlbLevels h)) i j -> exists t, get_tlb i j h = Ok t /\ tlb_ok T t.
Proof.
  intros Hh (n & Hn & Hj). rewrite list_lookup_fmap in Hn. destruct (tlbLevels h !! i) as [l|] eqn:E; [|done]. injection Hn as <-.
  unfold get_tlb. rewrite (proj2 (rd_Ok _ _ _) E). cbn [mbind res_bind]. destruct (rd_lookup l j Hj) as (t & -> & Et). eauto using ho_tlbs.
Qed.

Lemma put_tlb_spec T h i j t :
  hierarchy_ok T h -> position (map length (tlbLevels h)) i j -> tlb_ok T t ->
  exists h', put_tlb i j t h = Ok h' /\ hierarchy_ok T h' /\ map length (tlbLevels h') = map length (tlbLevels h).
Proof.
  intros Hh (n & Hn & Hj) Ht. rewrite list_lookup_fmap in Hn. destruct (tlbLevels h !! i) as [l|] eqn:E; [|done]. injection Hn as <-.
  unfold put_tlb. rewrite (proj2 (rd_Ok _ _ _) E). cbn [mbind res_bind]. rewrite wr_lt by done. cbn [mbind res_bind].
  rewrite wr_lt by (by eapply lookup_lt_Some). cbn [mbind res_bind]. eexists. split; [done|]. cbn [tlbLevels].
  assert (Es : map length (<[i := <[j := t]> l]> (tlbLevels h)) = map length (tlbLevels h)).
  { rewrite (list_fmap_insert length), length_insert. apply list_insert_id. by rewrite list_lookup_fmap, E. }
  split; [|exact Es]. destruct Hh as [H1 H2 H3 H4]. split; cbn [tlbLevels page_size_predictor]; [| | |done].
  - intros i' l' j' t'. rewrite list_lookup_insert. case_decide as D; [|apply H1]. intros [= <-]. rewrite list_lookup_insert.
    case_decide; [by intros [= <-]|]. by apply (H1 i).
  - intros b. rewrite length_insert. exact (H2 b).
  - intros b i' js l' Hp Hl. change (tlb_path b h !! i' = Some js) in Hp.
    assert (exists l0, tlbLevels h !! i' = Some l0 /\ length l0 = length l') as (l0 & E0 & ->%eq_sym).
    { apply (f_equal (fun s => s !! i')) in Es. rewrite !list_lookup_fmap, Hl in Es. destruct (tlbLevels h !! i') as [l0|]; [|done].
      injection Es as Es. eauto. }
    by apply (H3 b i' js).
Qed.

(** What the look-ups of a level found. *)
Definition hit_ok x (v : Z) (i : nat) (o : option (nat * CacheBlockInfo)) : Prop :=
  match o with
  | Some (j, b) => position (x_shape x) i j /\ entry_ok (tr (x_root x)) b /\ tr (x_root x) v = Some (ppn b, m_page_size b)
  | None => True
  end.

Lemma keeps_lookup_one x v time count eip instruction i j hit :
  in_range 64 v -> position (x_shape x) i j -> hit_ok x v i hit -> 
  keeps x (lookup_one v time count eip instruction i hit j) (hit_ok x v i).
Proof.
  intros Hv Hpos Hhit. unfold lookup_one. eapply keeps_bind; [apply keeps_hierarchy|intros h [Hh Hs]]. rewrite <- Hs in Hpos.
  destruct (get_tlb_spec _ _ _ _ Hh Hpos) as (t & E & Ht).
  eapply keeps_bind; [eapply keeps_lift with (Q := fun y => y = t); [exact E|done]|intros ? ->].
  destruct (_ || _); [|by apply keeps_ret].
  destruct (tlb_lookup_spec _ v time count eip true instruction t Ht Hv) as (o & t' & El & Ht' & _ & Ho).
  eapply keeps_bind; [eapply keeps_lift with (Q := fun y => y = (o, t')); [exact El|done]|intros ? ->].
  destruct (put_tlb_spec _ _ _ _ _ Hh Hpos Ht') as (h' & Ep & Hh' & Hs').
  eapply keeps_bind; [eapply keeps_lift with (Q := fun y => y = h'); [exact Ep|done]|intros ? ->].
  apply keeps_seq; [apply keeps_set_tlbs; [done|congruence]|intros _]. apply keeps_ret.
  destruct o as [b|]; [|done]. rewrite Hs in Hpos. split; [exact Hpos|exact Ho].
Qed.

Lemma keeps_lookup_levels x v time count eip instruction levels :
  in_range 64 v -> Forall (fun i => i < length (x_shape x))%nat levels ->
  keeps x (lookup_levels v time count eip instruction levels)
    (fun o => match o with Some (i, j, b) => hit_ok x v i (Some (j, b)) | None => True end).
Proof.
  intros Hv. induction levels as [|i levels IH]; intros Hl; cbn [lookup_levels]; [by apply keeps_ret|]. apply Forall_cons in Hl as [Hi Hl].
  eapply keeps_bind; [apply keeps_hierarchy|intros h [Hh Hs]].
  assert (Hlt : (i < length (tlbLevels h))%nat) by (by rewrite <- Hs, length_fmap in Hi).
  destruct (rd_lookup _ _ Hlt) as (l & E & El).
  eapply keeps_bind; [eapply keeps_lift with (Q := fun y => y = l); [exact E|done]|intros ? ->].
  eapply keeps_bind.
  - apply keeps_fold with (I := hit_ok x v i); [|done]. intros hit j Hj%elem_of_seq Hhit. apply keeps_lookup_one; [done| |done].
    exists (length l). split; [|lia]. by rewrite <- Hs, list_lookup_fmap, El.
  - intros [[j b]|] Ho; [by apply keeps_ret|by apply IH].
Qed.

(** *** Latencies *)

Lemma keeps_slowest x i js : Forall (position (x_shape x) i) js -> keeps x (slowest i js) always.
Proof.
  intros Hjs. unfold slowest. eapply keeps_bind; [apply keeps_hierarchy|intros h [Hh Hs]]. apply keeps_fold; [|done]. intros acc j Hj _.
  pose proof (proj1 (Forall_forall _ _) Hjs j Hj) as Hpos. rewrite <- Hs in Hpos. destruct (get_tlb_spec _ _ _ _ Hh Hpos) as (t & E & _).
  eapply keeps_bind; [eapply keeps_lift with (Q := always); [exact E|done]|intros; by apply keeps_ret].
Qed.

(** The TLBs on a path at a level. *)
Lemma path_at x b h i :
  hierarchy_ok (tr (x_root x)) h -> map length (tlbLevels h) = x_shape x -> (i < length (x_shape x))%nat ->
  exists js, rd (tlb_path b h) i = Ok js /\ Forall (position (x_shape x) i) js.
Proof.
  intros Hh Hs Hi. rewrite <- Hs, length_fmap in Hi. destruct (lookup_lt_is_Some_2 _ _ Hi) as [l El].
  destruct (rd_lookup (tlb_path b h) i) as (js & E & Ej); [by rewrite (ho_path _ _ Hh)|]. exists js. split; [done|].
  eapply Forall_impl; [exact (ho_inside _ _ Hh b i js l Ej El)|]. intros j Hj. exists (length l). split; [|done].
  by rewrite <- Hs, list_lookup_fmap, El.
Qed.

Lemma keeps_charge_hit_level x count lv k ps pr latency js charged :
  keeps x (charge_hit_level cfg count lv k ps pr latency js charged) always.
Proof.
  revert charged. induction js as [|j js IH]; intros charged; cbn [charge_hit_level]; [by apply keeps_ret|].
  repeat apply keeps_if; try apply IH; kauto; apply IH.
Qed.

Lemma position_level (shape : list nat) i j : position shape i j -> (i < length shape)%nat.
Proof. intros (n & Hn & _). by eapply lookup_lt_Some. Qed.

Lemma keeps_charge_hit x time count instruction predicted i j b :
  position (x_shape x) i j -> keeps x (charge_hit cfg time count instruction predicted i j b) always.
Proof.
  intros Hpos. unfold charge_hit. eapply keeps_bind; [apply keeps_hierarchy|intros h [Hh Hs]]. pose proof (position_level _ _ _ Hpos) as Hi.
  apply keeps_seq.
  { apply keeps_fold; [|done]. intros charged k Hk%elem_of_seq _. destruct (path_at x instruction h k Hh Hs) as (js & E & Hjs); [lia|].
    eapply keeps_bind; [eapply keeps_lift with (Q := fun y => y = js); [exact E|done]|intros ? ->].
    apply keeps_seq; [by apply keeps_slowest|intros l]. kauto. }
  intros charged. destruct (path_at x instruction h i Hh Hs Hi) as (js & E & Hjs).
  eapply keeps_bind; [eapply keeps_lift with (Q := fun y => y = js); [exact E|done]|intros ? ->]. rewrite <- Hs in Hpos.
  destruct (get_tlb_spec _ _ _ _ Hh Hpos) as (t & Et & _).
  eapply keeps_bind; [eapply keeps_lift with (Q := always); [exact Et|done]|intros t' _].
  apply keeps_seq; [apply keeps_charge_hit_level|intros c]. kauto.
Qed.

Lemma keeps_charge_miss x time count instruction : keeps x (charge_miss time count instruction) always.
Proof.
  unfold charge_miss. eapply keeps_bind; [apply keeps_hierarchy|intros h [Hh Hs]]. apply keeps_seq; [|intros c; kauto].
  apply keeps_fold; [|done]. intros charged k Hk%elem_of_seq _. destruct (rd_lookup (tlbLevels h) k) as (l & E & El); [lia|].
  eapply keeps_bind; [eapply keeps_lift with (Q := fun y => y = l); [exact E|done]|intros ? ->].
  apply keeps_seq; [apply keeps_slowest|intros; kauto]. apply Forall_forall. intros j Hj%elem_of_seq. exists (length l).
  split; [|lia]. by rewrite <- Hs, list_lookup_fmap, El.
Qed.

(** *** Insertions *)

Lemma keeps_allocate_in x count instruction i j victims y :
  position (x_shape x) i j -> Forall (item_ok (tr (x_root x))) victims -> item_ok (tr (x_root x)) y ->
  keeps x (allocate_in count instruction i j victims y) (Forall (item_ok (tr (x_root x)))).
Proof.
  intros Hpos Hvs Hy. destruct y as [[a ps] n]. unfold allocate_in. eapply keeps_bind; [apply keeps_hierarchy|intros h [Hh Hs]].
  rewrite <- Hs in Hpos. destruct (get_tlb_spec _ _ _ _ Hh Hpos) as (t & E & Ht).
  eapply keeps_bind; [eapply keeps_lift with (Q := fun y => y = t); [exact E|done]|intros ? ->].
  destruct (supportsPageSize ps t); [|by apply keeps_ret].
  destruct (tlb_allocate_spec _ a ps n count instruction t Ht Hy) as (r & t' & Ea & Ht' & _ & _ & Hev).
  eapply keeps_bind; [eapply keeps_lift with (Q := fun y => y = (r, t')); [exact Ea|done]|intros ? ->].
  destruct (put_tlb_spec _ _ _ _ _ Hh Hpos Ht') as (h' & Ep & Hh' & Hs').
  eapply keeps_bind; [eapply keeps_lift with (Q := fun y => y = h'); [exact Ep|done]|intros ? ->].
  apply keeps_seq; [apply keeps_set_tlbs; [done|congruence]|intros _]. apply keeps_ret.
  destruct (evicted r); [|done]. apply Forall_app. split; [done|]. constructor; [by apply Hev|constructor].
Qed.

Lemma keeps_fill_tlb x count instruction y hl i above victims j :
  position (x_shape x) i j -> Forall (item_ok (tr (x_root x))) above -> Forall (item_ok (tr (x_root x))) victims ->
  item_ok (tr (x_root x)) y -> keeps x (fill_tlb count instruction y hl i above victims j) (Forall (item_ok (tr (x_root x)))).
Proof.
  intros Hpos Ha Hvs Hy. unfold fill_tlb. eapply keeps_bind; [apply keeps_hierarchy|intros h [Hh Hs]].
  pose proof Hpos as Hpos'. rewrite <- Hs in Hpos'. destruct (get_tlb_spec _ _ _ _ Hh Hpos') as (t & E & Ht).
  eapply keeps_bind; [eapply keeps_lift with (Q := fun y => y = t); [exact E|done]|intros ? ->].
  destruct (m_prefetch t); [by apply keeps_ret|]. eapply keeps_bind.
  - apply keeps_fold with (I := Forall (item_ok (tr (x_root x)))); [|done]. intros vs z Hz Hv'. apply keeps_allocate_in; [done..|].
    exact (proj1 (Forall_forall _ _) Ha z Hz).
  - intros vs Hvs'. destruct (_ && _); [by apply keeps_allocate_in|by apply keeps_ret].
Qed.

Lemma keeps_fill_levels x count instruction y hl path i above :
  (forall k js, path !! k = Some js -> Forall (position (x_shape x) (i + k)) js) -> Forall (item_ok (tr (x_root x))) above ->
  item_ok (tr (x_root x)) y -> keeps x (fill_levels count instruction y hl path i above) always.
Proof.
  revert i above. induction path as [|js path IH]; intros i above Hp Ha Hy; cbn [fill_levels]; [by apply keeps_ret|].
  eapply keeps_bind.
  - apply keeps_fold with (I := Forall (item_ok (tr (x_root x)))); [|constructor]. intros vs j Hj Hvs. apply keeps_fill_tlb; [|done..].
    specialize (Hp 0%nat js eq_refl). rewrite Nat.add_0_r in Hp. exact (proj1 (Forall_forall _ _) Hp j Hj).
  - intros vs Hvs. apply IH; [|done|done]. intros k js' Hk. replace (S i + k)%nat with (i + S k)%nat by lia. by apply Hp.
Qed.

Lemma keeps_updateStats x l b w : keeps x (updateTranslationStats cfg l b w) always.
Proof. unfold updateTranslationStats. kauto. Qed.

End translations.

(** ** Pages of an address *)

Lemma page_number_48 v : in_range 48 v -> page_number 12 v = v / 4096.
Proof.
  intros [H0 H1]. unfold page_number. rewrite land_pow2_pred, Z.shiftr_div_pow2 by lia. apply Z.mod_small.
  split; [apply Z.div_pos; lia|]. apply Z.div_lt_upper_bound; [lia|]. change (2 ^ 12 * 2 ^ (48 - 12)) with (2 ^ 48). lia.
Qed.

(** The offset stays in the page. *)
Lemma physical_address_4K n v : 0 <= n < 2 ^ 52 -> physical_address n 12 v = Ok (n * 4096 + v `mod` 4096).
Proof.
  intros Hn. unfold physical_address. change ((0 <=? 12) && (12 <? 64)) with true. cbn [check mbind res_bind]. f_equal.
  change (u64 (Z.shiftl 1 12 - 1)) with (2 ^ 12 - 1). rewrite land_pow2_pred by lia. change (2 ^ 12) with 4096.
  pose proof (Z.mod_pos_bound v 4096 ltac:(lia)). rewrite (wrap_small 64 (n * 4096)) by (unfold in_range; lia).
  apply wrap_small. unfold in_range. lia.
Qed.

(** ** The translation of an address *)

Section correct.
Context {P : Type} `{!ReplacementPolicy P} `{!ReplacementPolicyLaws P} `{!StandaloneVictims P} {PQ : PriorityQueue}.
Context {A : Type} `{!Allocator A} `{!BasePageAllocator A} `{!NumaAllocator A}.
Context {C : Type} `{!MMUCacheInterface C} `{!MMUCacheLaws C}.
Context (cfg : MMUConfig).
Abbreviation Unit := (MemoryManagementUnit P A C).
Implicit Types (m : Unit) (x : @view A).
Abbreviation inv := (inv (P := P) (C := C) cfg).

(** The maps of the consistency checks agree with the table. *)
Definition page_pair (r : PTFrame) (k w : Z) : Prop :=
  in_range 48 k /\ k `mod` 4096 = 0 /\ exists n, tr r k = Some (n, 12) /\ w = n * 4096.
Definition maps_ok (r : PTFrame) (va pa : gmap Z Z) : Prop :=
  (forall k w, va !! k = Some w -> page_pair r k w) /\ (forall w k, pa !! w = Some k -> page_pair r k w).
Definition extends (r r' : PTFrame) : Prop := forall v y, tr r v = Some y -> tr r' v = Some y.

Lemma page_pair_mono r r' k w : extends r r' -> page_pair r k w -> page_pair r' k w.
Proof. intros H (? & ? & n & ? & ?). split_and!; [done|done|]. eauto. Qed.

Lemma hierarchy_mono r r' (h : TLBHierarchy P) : extends r r' -> hierarchy_ok (tr r) h -> hierarchy_ok (tr r') h.
Proof. intros He [H1 H2 H3 H4]. split; [|done..]. intros i l j t Hl Ht. eapply tlb_ok_mono; [exact He|]. by eapply H1. Qed.

(** What the table of a view says about an address. *)
Lemma tr_small x m v n s : inv x m -> tr (x_root x) v = Some (n, s) -> s = 12 /\ 0 <= n < 2 ^ 52.
Proof.
  intros Hm. pose proof (i_os _ _ _ Hm) as Ho. rewrite <- (i_root _ _ _ Hm), <- translate_tr by apply Ho. intros E. split.
  - eapply translate_small; [apply Ho|by apply Ho|done].
  - by eapply (os_range _ _ Ho).
Qed.

Lemma tr_page x m v v' : inv x m -> page_number 12 v = page_number 12 v' -> tr (x_root x) v = tr (x_root x) v'.
Proof.
  intros Hm E. pose proof (i_os _ _ _ Hm) as Ho. rewrite <- (i_root _ _ _ Hm), <- !translate_tr by apply Ho.
  apply translate_same_page; [apply Ho|done].
Qed.

Lemma tr_item x m v n : inv x m -> in_range 64 v -> tr (x_root x) v = Some (n, 12) -> item_ok (tr (x_root x)) (v, 12, n).
Proof.
  intros Hm Hv E. split_and!; [done|lia|lia|]. intros v' _ Ev. rewrite <- E. apply (tr_page x m); [done|].
  unfold page_number. by rewrite Ev.
Qed.

Lemma tr_injective x m v v' n :
  inv x m -> tr (x_root x) v = Some (n, 12) -> tr (x_root x) v' = Some (n, 12) -> page_number 12 v = page_number 12 v'.
Proof.
  intros Hm. pose proof (i_os _ _ _ Hm) as Ho. rewrite <- (i_root _ _ _ Hm), <- !translate_tr by apply Ho. apply (os_injective _ _ Ho).
Qed.

(** A check against a map that agrees with a functional relation passes. *)
Lemma sanity_check_pass (R : Z -> Z -> Prop) (g : gmap Z Z) k w m :
  (forall a b, g !! a = Some b -> R a b) -> R k w -> (forall b, R k b -> b = w) ->
  exists g', sanity_check k w g m = Ok (g', m) /\ forall a b, g' !! a = Some b -> R a b.
Proof.
  intros Hg Hr Hu. unfold sanity_check. destruct (g !! k) as [b|] eqn:E.
  - rewrite (Hu b (Hg _ _ E)), Z.eqb_refl. by exists g.
  - eexists. split; [done|]. intros a b. rewrite lookup_insert. case_decide; [subst; by intros [= <-]|apply Hg].
Qed.

(** The page of an address. *)
Lemma page_start v : in_range 48 v ->
  in_range 48 (v - v `mod` 4096) /\ (v - v `mod` 4096) `mod` 4096 = 0 /\ page_number 12 (v - v `mod` 4096) = page_number 12 v.
Proof.
  intros [H0 H1]. pose proof (Z.div_mod v 4096 ltac:(lia)) as Hd. assert (0 <= v / 4096) by (apply Z.div_pos; lia).
  replace (v - v `mod` 4096) with (v / 4096 * 4096) by lia. pose proof (Z.mod_pos_bound v 4096 ltac:(lia)).
  assert (in_range 48 (v / 4096 * 4096)) by (split; lia). split_and!; [done|by apply Z.mod_mul|].
  by rewrite !page_number_48, Z.div_mul by done.
Qed.

Lemma page_pair_functional x m k w w' : inv x m -> page_pair (x_root x) k w -> page_pair (x_root x) k w' -> w = w'.
Proof. intros _ (_ & _ & n & E & ->) (_ & _ & n' & E' & ->). congruence. Qed.

Lemma page_pair_injective x m k k' w : inv x m -> page_pair (x_root x) k w -> page_pair (x_root x) k' w -> k = k'.
Proof.
  intros Hm (H48 & H0 & n & E & ->) (H48' & H0' & n' & E' & En). assert (n' = n) as -> by lia.
  pose proof (tr_injective x m k k' n Hm E E') as Hp. rewrite !page_number_48 in Hp by done.
  pose proof (Z.div_mod k 4096 ltac:(lia)). pose proof (Z.div_mod k' 4096 ltac:(lia)). lia.
Qed.

(** The consistency checks pass and record the page. *)
Lemma sanity_checks_pass x m v n :
  inv x m -> maps_ok (x_root x) (x_va x) (x_pa x) -> in_range 48 v -> tr (x_root x) v = Some (n, 12) ->
  wp (fun _ => False) (sanity_checks cfg v (n * 4096 + v `mod` 4096) 12)
    (fun _ m' => exists va pa, inv (mkView (x_root x) (x_alloc x) va pa (x_shape x)) m' /\ maps_ok (x_root x) va pa) m.
Proof.
  intros Hm [Hva Hpa] Hv Ht. unfold sanity_checks. destruct (sanity_checks_enabled cfg); [|by exists (x_va x), (x_pa x); destruct x].
  pose proof (tr_small _ _ _ _ _ Hm Ht) as [_ Hn]. pose proof (Z.mod_pos_bound v 4096 ltac:(lia)) as Hmod.
  change (u64 (Z.lnot (u64 (Z.shiftl 1 12 - 1)))) with (2 ^ 64 - 4096). cbv zeta. rewrite (page_mask v) by (destruct Hv; split; lia).
  rewrite (page_mask (n * 4096 + v `mod` 4096)) by (split; lia).
  replace (n * 4096 + v `mod` 4096 - (n * 4096 + v `mod` 4096) `mod` 4096) with (n * 4096).
  2: { rewrite (Z.add_comm (n * 4096)), Z.mod_add, (Z.mod_small (v `mod` 4096)) by lia. lia. }
  destruct (page_start v Hv) as (Hk48 & Hk0 & Hkp). set (k := v - v `mod` 4096) in *.
  assert (Hpair : page_pair (x_root x) k (n * 4096)).
  { split; [done|]. split; [done|]. exists n. split; [|done]. rewrite <- Ht. by apply (tr_page x m). }
  apply unit_wp_bind. unfold wp at 1. cbn [uget]. rewrite (i_va _ _ _ Hm). apply unit_wp_bind. unfold wp at 1.
  destruct (sanity_check_pass (page_pair (x_root x)) (x_va x) k (n * 4096) m Hva Hpair) as (va & -> & Hva').
  { intros b Hb. by eapply page_pair_functional. }
  apply unit_wp_bind. unfold wp at 1. cbn [uupd]. apply unit_wp_bind. unfold wp at 1. cbn [uget pa_to_va_map set_sanity]. rewrite (i_pa _ _ _ Hm).
  apply unit_wp_bind. unfold wp at 1.
  destruct (sanity_check_pass (fun w k => page_pair (x_root x) k w) (x_pa x) (n * 4096) k (set_sanity va (x_pa x) m) Hpa Hpair) as (pa & -> & Hpa').
  { intros b Hb. by eapply page_pair_injective. }
  unfold wp. cbn [uupd]. exists va, pa. split; [|by split]. destruct Hm. split; cbn; done.
Qed.

(** Running a step that keeps the view. *)
Lemma wp_keeps {T U} F x m (k : MU T) (f : T -> MU U) (Q : T -> Prop) R :
  inv x m -> keeps cfg x k Q -> (forall r m', inv x m' -> Q r -> wp F (f r) R m') -> wp F (k ≫= f) R m.
Proof.
  intros Hm Hk Hf. apply unit_wp_bind. refine (unit_wp_mono _ _ _ _ _ _ _ _ (Hk m Hm)); [done|]. intros r m' []. auto.
Qed.

(** The state after a translation, in terms of the view before it. *)
Definition translated x (v : Z) (pa : Z) m' : Prop :=
  exists x' n, inv x' m' /\ maps_ok (x_root x') (x_va x') (x_pa x') /\ extends (x_root x) (x_root x') /\
    kernel_ptr (x_alloc x) <= kernel_ptr (x_alloc x') <= kernel_ptr (x_alloc x) + 4096 * 4 /\
    tr (x_root x') v = Some (n, 12) /\ pa = n * 4096 + v `mod` 4096.
Definition exhausted x (e : fault) : Prop := e = LogError /\ forall q, ~ page_free (x_alloc x) q.

Lemma finish_spec F x m v count i hl n charged wl :
  inv x m -> maps_ok (x_root x) (x_va x) (x_pa x) -> in_range 48 v -> tr (x_root x) v = Some (n, 12) ->
  wp F (finish_translation cfg v count i hl n 12 charged wl)
    (fun r m' => r = n * 4096 + v `mod` 4096 /\
       exists va pa, inv (mkView (x_root x) (x_alloc x) va pa (x_shape x)) m' /\ maps_ok (x_root x) va pa) m.
Proof.
  intros Hm Hmaps Hv Ht. assert (Hv64 : in_range 64 v) by (destruct Hv; split; lia). unfold finish_translation.
  pose proof (tr_item x m v n Hm Hv64 Ht) as Hitem. pose proof (tr_small _ _ _ _ _ Hm Ht) as [_ Hn].
  eapply wp_keeps; [exact Hm|apply keeps_hierarchy|intros h m1 Hm1 [Hh Hs]].
  eapply wp_keeps; [exact Hm1|apply keeps_fill_levels; [|constructor|exact Hitem]|intros _ m2 Hm2 _].
  { intros k js Hk. assert (k < length (x_shape x))%nat.
    { rewrite <- Hs, length_fmap, <- (ho_path _ _ Hh i). by eapply lookup_lt_Some. }
    destruct (path_at x i h k Hh Hs) as (js' & E & Hj); [done|]. apply rd_Ok in E. rewrite Hk in E. by injection E as <-. }
  eapply wp_keeps; [exact Hm2|apply keeps_bump|intros _ m3 Hm3 _].
  eapply wp_keeps; [exact Hm3|apply keeps_if; [apply keeps_updateStats|by apply keeps_ret]|intros _ m4 Hm4 _].
  eapply wp_keeps; [exact Hm4|eapply keeps_lift with (Q := fun pa => pa = n * 4096 + v `mod` 4096); [by apply physical_address_4K|done]|intros pa m5 Hm5 ->].
  eapply wp_keeps; [exact Hm5|apply keeps_bump_split|intros _ m6 Hm6 _].
  apply unit_wp_bind. refine (unit_wp_mono _ _ _ _ _ _ _ _ (sanity_checks_pass x m6 v n Hm6 Hmaps Hv Ht)); [done|].
  intros _ m7 Hm7. by split.
Qed.

(** The end of a translation that reached the view [x'] from [x]. *)
Lemma finish_translated F x x' m v count i hl n charged wl :
  inv x' m -> maps_ok (x_root x) (x_va x') (x_pa x') -> in_range 48 v -> tr (x_root x') v = Some (n, 12) ->
  extends (x_root x) (x_root x') ->
  kernel_ptr (x_alloc x) <= kernel_ptr (x_alloc x') <= kernel_ptr (x_alloc x) + 4096 * 4 ->
  wp F (finish_translation cfg v count i hl n 12 charged wl) (translated x v) m.
Proof.
  intros Hm [M1 M2] Hv Ht He Hk.
  refine (unit_wp_mono _ _ _ _ _ _ _ _ (finish_spec F x' m v count i hl n charged wl Hm _ Hv Ht)); [done| |].
  - intros r m' (-> & va & pa & Hm' & Hmaps). exists (mkView (x_root x') (x_alloc x') va pa (x_shape x')), n.
    split_and!; [done|exact Hmaps|exact He|cbn; lia|cbn; lia|done|done].
  - split; intros a b Hab; (eapply page_pair_mono; [exact He|]); first [by apply M1|by apply M2].
Qed.

(** *** Page faults *)

(** The view after the handler mapped the page of an address. *)
Lemma fault_handled x m v p' a' n :
  inv x m -> os_ok p' a' ->
  (forall v', translate p' v' = if page_number 12 v =? page_number 12 v' then Some (n, 12) else tr (x_root x) v') ->
  tr (x_root x) v = None ->
  extends (x_root x) (root p') /\ inv (mkView (root p') a' (x_va x) (x_pa x) (x_shape x)) (set_os p' a' m).
Proof.
  intros Hm Ho Hmap Ht.
  assert (He : extends (x_root x) (root p')).
  { intros v' y Hy. rewrite <- translate_tr, Hmap by apply Ho. destruct (Z.eqb_spec (page_number 12 v) (page_number 12 v')) as [E|]; [|done].
    rewrite (tr_page x m v v' Hm E) in Ht. congruence. }
  split; [done|]. destruct Hm. split; cbn; try done. by eapply hierarchy_mono.
Qed.

(** The result of the loop of walks. *)
Definition mapped x (v : Z) (r : PTWOutcome * bool) m' : Prop :=
  exists x' n, inv x' m' /\ extends (x_root x) (x_root x') /\ x_va x' = x_va x /\ x_pa x' = x_pa x /\
    kernel_ptr (x_alloc x) <= kernel_ptr (x_alloc x') <= kernel_ptr (x_alloc x) + 4096 * 4 /\
    tr (x_root x') v = Some (n, 12) /\ o_page_fault r.1 = false /\ o_ppn r.1 = n /\ o_page_size r.1 = 12.

(** One pass over a mapped address. *)
Lemma walk_once F x m fuel v modeled count eip i had_fault n :
  inv x m -> tr (x_root x) v = Some (n, 12) ->
  wp F (walk_until_mapped cfg (S fuel) v modeled count eip i had_fault)
    (fun r m' => inv x m' /\ o_page_fault r.1 = false /\ o_ppn r.1 = n /\ o_page_size r.1 = 12) m.
Proof.
  intros Hm Ht. cbn [walk_until_mapped]. eapply wp_keeps; [exact Hm|apply keeps_performPTW|intros o m1 Hm1 Ho].
  unfold walk_outcome in Ho. rewrite Ht in Ho. destruct Ho as (Hf & Hn & Hs).
  do 4 (eapply wp_keeps; [eassumption|first [apply keeps_bump_if|apply keeps_bump_split]|intros _ ? ? _]). rewrite Hf.
  split_and!; done.
Qed.

(** A walk of a table that holds the page number of an exhausted memory. *)
Lemma performPTW_exhausted m fuel v modeled count pf eip i :
  levels (page_table m) = 4%nat ->
  walk 4 (m_page_size_list (page_table m)) v 4 0 (PTo (root (page_table m))) = Err LogError ->
  performPTW cfg (S fuel) v modeled count pf eip false i m = Err LogError.
Proof.
  intros Hl Hw. unfold performPTW, mbind, MU_bind. cbn [uget ulift]. unfold initializeWalk.
  set (p := if count then count_walk (page_table m) else page_table m).
  assert (levels p = 4%nat /\ m_page_size_list p = m_page_size_list (page_table m) /\ root p = root (page_table m)) as (E1 & E2 & E3)
    by (unfold p; destruct count; done).
  cbn [walk_loop]. by rewrite E1, E2, E3, Hw.
Qed.

Lemma walk_mapped_spec x m fuel v modeled count eip i had_fault :
  inv x m -> in_range 64 v -> userspace_mimicos_enabled cfg = false -> i = false \/ tr (x_root x) v <> None ->
  0 <= kernel_ptr (x_alloc x) -> kernel_ptr (x_alloc x) + 4096 * 4 < 2 ^ 64 ->
  wp (exhausted x) (walk_until_mapped cfg (S (S fuel)) v modeled count eip i had_fault) (mapped x v) m.
Proof.
  intros Hm Hv Hu Hi H0 Hk. destruct (tr (x_root x) v) as [[n s]|] eqn:Ht.
  { destruct (tr_small _ _ _ _ _ Hm Ht) as [-> _]. refine (unit_wp_mono _ _ _ _ _ _ _ _ (walk_once (exhausted x) x m (S fuel) v modeled count eip i had_fault n Hm Ht)); [done|].
    intros r m' (? & ? & ? & ?). exists x, n. split_and!; try done; [by intros v' y|lia]. }
  destruct Hi as [->|?]; [|done]. remember (S fuel) as fuel1 eqn:Efuel. cbn [walk_until_mapped].
  eapply wp_keeps; [exact Hm|apply keeps_performPTW|intros o m1 Hm1 Ho]. unfold walk_outcome in Ho. rewrite Ht in Ho. destruct Ho as (Hf & Hq).
  do 4 (eapply wp_keeps; [eassumption|first [apply keeps_bump_if|apply keeps_bump_split]|intros _ ? ? _]). rewrite Hf, Hu.
  do 2 (eapply wp_keeps; [eassumption|apply keeps_bump|intros _ ? ? _]).
  eapply wp_keeps; [eassumption|apply keeps_table|intros p m2 Hm2 Hp]. eapply wp_keeps; [exact Hm2|apply keeps_allocator|intros a m3 Hm3 ->].
  pose proof (missing_frames_le p v) as Hle. assert (Hmiss : o_requested_frames o = missing_frames p 12 v).
  { rewrite Hq, <- (proj1 Hp). done. }
  destruct (data_fault_spec (Z.of_nat (core_id cfg)) v (o_requested_frames o) p (x_alloc x) (proj2 Hp) Hv)
    as (n & p' & a' & E & Hlv & Ha' & Ek & Hcase); [lia|done|lia|].
  apply unit_wp_bind. unfold wp at 1, ulift. rewrite E. apply unit_wp_bind. unfold wp at 1. cbn [uupd]. subst fuel1.
  destruct Hcase as [(_ & Hfree & Hw)|(Hfree & Hall & Hp' & Hh & Hmap)].
  - cbn [walk_until_mapped]. unfold wp, mbind at 1, MU_bind at 1. rewrite performPTW_exhausted by done. by split.
  - assert (Ho : os_ok p' a') by (eapply (os_ok_map p p' (x_alloc x) a' v n); [apply Hp|done..]).
    destruct (fault_handled x m3 v p' a' n Hm3 Ho) as [He Hm4]; [|done|].
    { intros v'. rewrite Hmap. by rewrite (table_tr x p v' Hp). }
    refine (unit_wp_mono _ _ _ _ _ _ _ _ (walk_once (exhausted x) _ _ fuel v modeled count eip false true n Hm4 _)); [done| |].
    + intros r m5 (Hm5 & Hr1 & Hr2 & Hr3). eexists _, n. split; [exact Hm5|]. cbn [x_root x_alloc x_va x_pa].
      split_and!; try done; [lia|lia|]. by rewrite <- translate_tr, Hmap, Z.eqb_refl by apply Ho.
    + cbn [x_root]. rewrite <- translate_tr, Hmap, Z.eqb_refl by apply Ho. done.
Qed.

Lemma walk_phase_spec x m fuel v modeled count eip i :
  inv x m -> in_range 64 v -> userspace_mimicos_enabled cfg = false -> i = false \/ tr (x_root x) v <> None ->
  0 <= kernel_ptr (x_alloc x) -> kernel_ptr (x_alloc x) + 4096 * 4 < 2 ^ 64 ->
  wp (exhausted x) (walk_phase cfg (S (S fuel)) v modeled count eip i)
    (fun o m' => exists r l, o = Some (r, l) /\ mapped x v (r, false) m') m.
Proof.
  intros Hm Hv Hu Hi H0 Hk. unfold walk_phase.
  eapply wp_keeps; [exact Hm|apply keeps_getTime|intros t m1 Hm1 _]. eapply wp_keeps; [exact Hm1|apply keeps_uget|intros w m2 Hm2 _].
  eapply wp_keeps; [exact Hm2|apply keeps_setTime|intros _ m3 Hm3 _]. apply unit_wp_bind.
  refine (unit_wp_mono _ _ _ _ _ _ _ _ (walk_mapped_spec x m3 fuel v modeled count eip i false Hm3 Hv Hu Hi H0 Hk)); [done|].
  intros [r had_fault] m4 (x' & n & Hx & He & Hva & Hpa & Hkp & Ht & Hf & Hn & Hs). cbn [fst] in Hf. rewrite Hf. cbn [andb].
  eapply wp_keeps; [exact Hx|apply keeps_bump_if|intros _ m5 Hm5 _]. eapply wp_keeps; [exact Hm5|apply keeps_walkers|intros _ m6 Hm6 _].
  eapply wp_keeps; [exact Hm6|apply keeps_if; [apply keeps_pseudo|by apply keeps_ret]|intros _ m7 Hm7 _].
  eapply wp_keeps; [exact Hm7|apply keeps_setTime|intros _ m8 Hm8 _]. do 2 eexists. split; [done|]. exists x', n. split_and!; first [done|lia].
Qed.

Lemma keeps_count_translation x count i : keeps (C := C) cfg x (count_translation (P := P) count i) (fun _ => True).
Proof. unfold count_translation. kauto. Qed.

Lemma perfect_spec x m fuel v i count :
  inv x m -> maps_ok (x_root x) (x_va x) (x_pa x) -> in_range 64 v -> userspace_mimicos_enabled cfg = false ->
  0 <= kernel_ptr (x_alloc x) -> kernel_ptr (x_alloc x) + 4096 * 4 < 2 ^ 64 ->
  wp (exhausted x) (perfect_translation cfg (S (S fuel)) v i count) (translated x v) m.
Proof.
  intros Hm [Hva Hpa] Hv Hu H0 Hk. unfold perfect_translation, translateWithoutTiming. apply unit_wp_bind.
  eapply wp_keeps; [exact Hm|apply keeps_table|intros p m1 Hm1 Hp]. eapply wp_keeps; [exact Hm1|apply keeps_allocator|intros a m2 Hm2 ->].
  apply unit_wp_bind. unfold wp at 1, ulift, walk_handler. rewrite Hu.
  pose proof (walk_total fuel (Z.of_nat (core_id cfg)) v false p (x_alloc x) (proj2 Hp) Hv H0 Hk) as W.
  destruct (initializeWalk _ _ _ _ _ _ _ _) as [[[r p'] a']|]; [|exact W]. destruct W as (Ho & Hkp & Ht & Hext).
  apply unit_wp_bind. unfold wp at 1. cbn [uupd].
  assert (He : extends (x_root x) (root p')).
  { intros v' y Hy. rewrite <- translate_tr by apply Ho. apply Hext. by rewrite (table_tr x p v' Hp). }
  assert (Hm3 : inv (mkView (root p') a' (x_va x) (x_pa x) (x_shape x)) (set_os p' a' m2)).
  { destruct Hm2. split; cbn; try done. by eapply hierarchy_mono. }
  set (x' := mkView _ _ _ _ _) in Hm3. set (m3 := set_os p' a' m2) in *.
  rewrite (translate_tr p' v (os_table _ _ Ho)) in Ht. change (tr (x_root x') v = Some (r_ppn r, page_size r)) in Ht.
  destruct (tr_small _ _ _ _ _ Hm3 Ht) as [Es Hn]. rewrite Es in Ht |- *.
  eapply wp_keeps; [exact Hm3|eapply keeps_lift with (Q := fun pa => pa = r_ppn r * 4096 + v `mod` 4096); [by apply physical_address_4K|done]|intros pa m4 Hm4 ->].
  eapply wp_keeps; [exact Hm4|apply keeps_count_translation|intros _ m5 Hm5 _].
  eapply wp_keeps; [exact Hm5|apply keeps_uget|intros h m6 Hm6 _].
  eapply wp_keeps; [exact Hm6|kauto|intros _ m7 Hm7 _]. exists x', (r_ppn r). split_and!; [done| |done|cbn; lia|cbn; lia|done|done].
  split; intros k w Hkw; (eapply page_pair_mono; [exact He|]); first [by apply Hva|by apply Hpa].
Qed.

Lemma translation_spec x m fuel eip v i modeled count :
  inv x m -> maps_ok (x_root x) (x_va x) (x_pa x) -> in_range 48 v -> userspace_mimicos_enabled cfg = false ->
  i = false \/ tr (x_root x) v <> None -> 0 <= kernel_ptr (x_alloc x) -> kernel_ptr (x_alloc x) + 4096 * 4 < 2 ^ 64 ->
  wp (exhausted x) (performAddressTranslation cfg (S (S fuel)) eip v i modeled count) (translated x v) m.
Proof.
  intros Hm Hmaps Hv Hu Hi H0 Hk. assert (Hv64 : in_range 64 v) by (destruct Hv; split; lia). unfold performAddressTranslation.
  eapply wp_keeps; [exact Hm|apply keeps_walk_counts|intros _ m1 Hm1 _]. destruct (perfect_translation_enabled cfg); [by apply perfect_spec|].
  eapply wp_keeps; [exact Hm1|apply keeps_getTime|intros time m2 Hm2 _]. eapply wp_keeps; [exact Hm2|apply keeps_walkers|intros _ m3 Hm3 _].
  eapply wp_keeps; [exact Hm3|apply keeps_count_translation|intros _ m4 Hm4 _].
  eapply wp_keeps; [exact Hm4|apply keeps_hierarchy|intros h m5 Hm5 [Hh Hs]].
  eapply (wp_keeps _ x m5 _ _ (fun _ => True)); [exact Hm5| |intros predicted m6 Hm6 _].
  { apply keeps_if; [|by apply keeps_ret]. unfold predictPagesize. destruct (page_size_predictor h) as [p|] eqn:E; [|by eapply keeps_lift].
    destruct (predictPageSize_total v p (ho_predictor _ _ Hh p E)) as [s Es]. by eapply keeps_lift. }
  eapply wp_keeps; [exact Hm6|apply keeps_lookup_levels; [done|]|intros hit m7 Hm7 Hhit].
  { apply Forall_forall. intros k Hk'%elem_of_seq. rewrite <- Hs, length_fmap. lia. }
  destruct hit as [[[k j] b]|].
  - destruct Hhit as (Hpos & _ & Ht). destruct (tr_small _ _ _ _ _ Hm7 Ht) as [Es _]. rewrite Es in Ht |- *.
    eapply wp_keeps; [exact Hm7|apply keeps_walk_counts|intros _ m8 Hm8 _].
    eapply wp_keeps; [exact Hm8|by apply keeps_charge_hit|intros charged m9 Hm9 _]. apply (finish_translated _ x x); [done|done|done|done|by intros v' y|lia].
  - eapply wp_keeps; [exact Hm7|apply keeps_charge_miss|intros charged m8 Hm8 _]. apply unit_wp_bind.
    refine (unit_wp_mono _ _ _ _ _ _ _ _ (walk_phase_spec x m8 fuel v modeled count eip i Hm8 Hv64 Hu Hi H0 Hk)); [done|].
    intros o m9 (r & l & -> & x' & n & Hx & He & Hva & Hpa & Hkp & Ht & Hf & Hn & Hsz). cbn [fst] in *. rewrite Hn, Hsz.
    apply (finish_translated _ x x'); [done|by rewrite Hva, Hpa|done|done|done|lia].
Qed.

(** The unit and the operating system agree: the TLBs with the page table, the page table
    with the allocator, and the consistency maps with the page table. *)
Record mmu_ok m : Prop := {
  mo_os : os_ok (page_table m) (memory_allocator m);
  mo_tlbs : hierarchy_ok (translate (page_table m)) (tlb_subsystem m);
  mo_maps : maps_ok (root (page_table m)) (va_to_pa_map m) (pa_to_va_map m);
  mo_filter : filter_ok (ptw_filter m);
  mo_caches : caches_ok (caches m);
  mo_states : (core_id cfg < length (m_pf_states m))%nat
}.

Definition view_of m : view :=
  mkView (root (page_table m)) (memory_allocator m) (va_to_pa_map m) (pa_to_va_map m) (map length (tlbLevels (tlb_subsystem m))).

Lemma hierarchy_ext (T T' : Z -> option (Z * Z)) (h : TLBHierarchy P) :
  (forall v, T v = T' v) -> hierarchy_ok T h -> hierarchy_ok T' h.
Proof.
  intros He [H1 H2 H3 H4]. split; [|done..]. intros i l j t Hl Ht. eapply tlb_ok_mono; [|by eapply H1]. intros v y. by rewrite He.
Qed.

Lemma mmu_ok_inv m : mmu_ok m -> inv (view_of m) m.
Proof.
  intros [Ho Ht _ Hf Hc Hs]. split; try done. eapply hierarchy_ext; [|exact Ht]. intros v. apply translate_tr, Ho.
Qed.

Lemma inv_mmu_ok x m : inv x m -> maps_ok (x_root x) (x_va x) (x_pa x) -> mmu_ok m.
Proof.
  intros [H1 H2 H3 H4 H5 H6 H7 H8 H9 H10] Hm. split; try done; [|by rewrite H1, H4, H5].
  eapply hierarchy_ext; [|exact H6]. intros v. by rewrite translate_tr, H1 by apply H3.
Qed.

Lemma translation_step fuel eip v i modeled count m :
  mmu_ok m -> in_range 48 v -> userspace_mimicos_enabled cfg = false -> i = false \/ translate (page_table m) v <> None ->
  0 <= kernel_ptr (memory_allocator m) -> kernel_ptr (memory_allocator m) + 4096 * 4 < 2 ^ 64 ->
  match performAddressTranslation cfg (S (S fuel)) eip v i modeled count m with
  | Ok (pa, m') =>
      mmu_ok m' /\ (exists n, translate (page_table m') v = Some (n, 12) /\ pa = n * 4096 + v `mod` 4096) /\
      (forall v' y, translate (page_table m) v' = Some y -> translate (page_table m') v' = Some y) /\
      kernel_ptr (memory_allocator m) <= kernel_ptr (memory_allocator m') <= kernel_ptr (memory_allocator m) + 4096 * 4
  | Err e => e = LogError /\ forall q, ~ page_free (memory_allocator m) q
  end.
Proof.
  intros Hm Hv Hu Hi H0 Hk. pose proof (os_table _ _ (mo_os _ Hm)) as Hp.
  pose proof (translation_spec (view_of m) m fuel eip v i modeled count (mmu_ok_inv m Hm) (mo_maps _ Hm) Hv Hu) as W.
  cbn [view_of x_root x_alloc] in W. rewrite <- (translate_tr _ _ Hp) in W. specialize (W Hi H0 Hk). unfold wp in W.
  destruct (performAddressTranslation _ _ _ _ _ _ _ _) as [[pa m']|]; [|exact W].
  destruct W as (x' & n & Hx & Hmaps & He & Hkp & Ht & ->). pose proof (inv_mmu_ok _ _ Hx Hmaps) as Hm'.
  pose proof (os_table _ _ (mo_os _ Hm')) as Hp'. rewrite (i_alloc _ _ _ Hx). split_and!; [done| | |apply Hkp|apply Hkp].
  - exists n. by rewrite (translate_tr _ _ Hp'), (i_root _ _ _ Hx).
  - intros v' y. rewrite !translate_tr, (i_root _ _ _ Hx) by done. apply He.
Qed.

(** C3: Address translation is correct and total: for a data access (or an instruction fetch
    from a mapped page) by a unit whose TLBs agree with the page table,
    [performAddressTranslation] returns, whether it hits in some TLB level, walks the table
    or takes a page fault, the frame and offset that the page table holds for the address
    after the access; it keeps the agreement of TLBs, page table, allocator and consistency
    maps (so the consistency assertions cannot fail) and every earlier translation. Two
    walks are enough. It stops only when no physical page is free. Instruction fetches from
    pages that are not mapped are excluded: their frames do not come from the part of the
    memory that the allocator keeps account of ([instruction_frame_reused]). *)
Theorem translation_correct fuel eip v i modeled count m :
  mmu_ok m -> in_range 48 v -> userspace_mimicos_enabled cfg = false -> i = false \/ translate (page_table m) v <> None ->
  0 <= kernel_ptr (memory_allocator m) -> kernel_ptr (memory_allocator m) + 4096 * 4 < 2 ^ 64 ->
  match performAddressTranslation cfg (S (S fuel)) eip v i modeled count m with
  | Ok (pa, m') =>
      mmu_ok m' /\ (exists n, translate (page_table m') v = Some (n, 12) /\ pa = n * 4096 + v `mod` 4096) /\
      (forall v' y, translate (page_table m) v' = Some y -> translate (page_table m') v' = Some y) /\
      kernel_ptr (memory_allocator m) <= kernel_ptr (memory_allocator m') <= kernel_ptr (memory_allocator m) + 4096 * 4
  | Err e => e = LogError /\ forall q, ~ page_free (memory_allocator m) q
  end.
Proof. apply translation_step. Qed.

(** ** Sequences of data accesses *)

Fixpoint translate_all (vs : list Z) : MU (list Z) :=
  match vs with
  | [] => mret []
  | v :: vs =>
      pa ← performAddressTranslation cfg 2 0 v false true true;
      pas ← translate_all vs;
      mret (pa :: pas)
  end.

Definition served m (v pa : Z) : Prop := exists n, translate (page_table m) v = Some (n, 12) /\ pa = n * 4096 + v `mod` 4096.

Lemma translate_all_spec vs m :
  mmu_ok m -> Forall (in_range 48) vs -> userspace_mimicos_enabled cfg = false -> 0 <= kernel_ptr (memory_allocator m) ->
  kernel_ptr (memory_allocator m) + 4096 * 4 * Z.of_nat (length vs) < 2 ^ 64 ->
  match translate_all vs m with
  | Ok (pas, m') => mmu_ok m' /\ Forall2 (served m') vs pas /\
      (forall v y, translate (page_table m) v = Some y -> translate (page_table m') v = Some y)
  | Err e => e = LogError
  end.
Proof.
  revert m. induction vs as [|v vs IH]; intros m Hm Hvs Hu H0 Hk; cbn [translate_all]; [by split_and!|].
  apply Forall_cons in Hvs as [Hv Hvs]. cbn [length] in Hk.
  pose proof (translation_step 0 0 v false true true m Hm Hv Hu (or_introl eq_refl) H0 ltac:(lia)) as W.
  unfold mbind, MU_bind. destruct (performAddressTranslation _ _ _ _ _ _ _ _) as [[pa m1]|]; [|by destruct W].
  destruct W as (Hm1 & (n & Hn & ->) & Hext & Hkp). specialize (IH m1 Hm1 Hvs Hu ltac:(lia) ltac:(lia)).
  destruct (translate_all vs m1) as [[pas m2]|]; [|done]. destruct IH as (Hm2 & Hall & Hext2). cbn. split_and!; [done| |by auto].
  constructor; [|done]. exists n. split; [by apply Hext2|done].
Qed.

(** C4: Over any sequence of data accesses the unit implements one injective map of pages: two
    accesses get the same physical page exactly if they are in the same virtual page,
    whatever the TLBs evicted and the page faults mapped in between, and the offset in the
    page is kept. The sequence stops early only with the error of an exhausted memory. *)
Theorem translations_consistent vs m :
  mmu_ok m -> Forall (in_range 48) vs -> userspace_mimicos_enabled cfg = false -> 0 <= kernel_ptr (memory_allocator m) ->
  kernel_ptr (memory_allocator m) + 4096 * 4 * Z.of_nat (length vs) < 2 ^ 64 ->
  match translate_all vs m with
  | Ok (pas, _) =>
      length pas = length vs /\
      forall i j v v' pa pa', vs !! i = Some v -> vs !! j = Some v' -> pas !! i = Some pa -> pas !! j = Some pa' ->
        pa `mod` 4096 = v `mod` 4096 /\ (pa / 4096 = pa' / 4096 <-> v / 4096 = v' / 4096)
  | Err e => e = LogError
  end.
Proof.
  intros Hm Hvs Hu H0 Hk. pose proof (translate_all_spec vs m Hm Hvs Hu H0 Hk) as W.
  destruct (translate_all vs m) as [[pas m']|]; [|done]. destruct W as (Hm' & Hall & _).
  split; [by rewrite (Forall2_length _ _ _ Hall)|]. intros i j v v' pa pa' Hi Hj Hpi Hpj.
  destruct (Forall2_lookup_lr _ _ _ _ _ _ Hall Hi Hpi) as (n & En & ->), (Forall2_lookup_lr _ _ _ _ _ _ Hall Hj Hpj) as (n' & En' & ->).
  pose proof (Z.mod_pos_bound v 4096 ltac:(lia)). pose proof (Z.mod_pos_bound v' 4096 ltac:(lia)).
  rewrite (Z.add_comm (n * 4096)), (Z.add_comm (n' * 4096)), Z.mod_add, !Z.div_add, (Z.mod_small (v `mod` 4096)), !(Z.div_small (_ `mod` _)) by lia.
  split; [done|]. rewrite <- (page_number_48 v), <- (page_number_48 v') by (by eapply Forall_lookup_1). rewrite !Z.add_0_l.
  pose proof (mo_os _ Hm') as Ho. split; intros E.
  - subst n'. by apply (os_injective _ _ Ho v v' n 12 12).
  - rewrite (translate_same_page _ _ _ (os_table _ _ Ho) E) in En. congruence.
Qed.

End correct.

(** ** A new hierarchy *)

Section new_hierarchy.
Context {P : Type} `{!ReplacementPolicy P} `{!ReplacementPolicyLaws P} `{!StandaloneVictims P}.
Context (T : Z -> option (Z * Z)).

(** The constructor calls give TLBs that agree with [T]. *)
Definition built_ok (l : list (res (TLB P))) : Prop := Forall (fun r => forall t, r = Ok t -> tlb_ok T t) l.

Lemma build_ok (l : list (res (TLB P))) ts :
  built_ok l -> fold_right (fun (t : res (TLB P)) acc => x ← t; l ← acc; Ok (x :: l)) (Ok []) l = Ok ts -> Forall (tlb_ok T) ts.
Proof.
  intros Hl. revert ts. induction Hl as [|r l Hr _ IH]; intros ts H; cbn [fold_right] in H; inv_res; [constructor|].
  constructor; [by apply Hr|by apply IH].
Qed.

Lemma on_path_inside skip (l : list (TLB P)) : Forall (fun j => j < length l)%nat (on_path skip l).
Proof.
  apply Forall_forall. intros j Hj. unfold on_path in Hj. apply list_elem_of_fmap in Hj as ([k t] & -> & Hk).
  apply list_elem_of_filter in Hk as [_ Hk]. apply elem_of_zip_l in Hk. apply elem_of_seq in Hk. cbn. lia.
Qed.

Lemma TLBHierarchy_new_ok (levels : list (list (res (TLB P)))) pe level pqs predictor h :
  Forall built_ok levels -> built_ok pqs -> (forall p, predictor = Some p -> predictor_ok p) ->
  TLBHierarchy_new levels pe level pqs predictor = Ok h -> hierarchy_ok T h.
Proof.
  intros Hl Hq Hp H. unfold TLBHierarchy_new in H.
  destruct (fold_loop _ _ _) as [tlbs|] eqn:E; [|done]. cbn [mbind res_bind] in H. injection H as <-.
  assert (Hts : Forall (Forall (tlb_ok T)) tlbs).
  { eapply (fold_loop_keeps (Forall (Forall (tlb_ok T)))); [|constructor|exact E]. intros acc i acc' Ha Hacc. cbn beta in Ha. inv_res.
    apply Forall_app. split; [done|]. constructor; [|constructor]. apply Forall_app. split.
    - eapply build_ok; [|done]. eapply Forall_lookup_1; [exact Hl|]. by apply rd_Ok.
    - destruct (_ && _); [by eapply build_ok|]. inv_res. constructor. }
  split; cbn [tlbLevels page_size_predictor]; [| | |done].
  - intros i l j t Hi Hj. exact (Forall_lookup_1 _ _ _ _ (Forall_lookup_1 _ _ _ _ Hts Hi) Hj).
  - intros []; cbn; by rewrite length_map.
  - intros b i js l Hj Hi. destruct b; cbn in Hj; rewrite list_lookup_fmap, Hi in Hj; injection Hj as <-; apply on_path_inside.
Qed.

(** The constructor of the hierarchy establishes its invariant: if the TLBs it is given
    agree with a translation, every TLB of every level does, the instruction and the data path
    have one entry per level and point only to TLBs of that level, and the page size predictor
    has the shape its look-ups need. *)
Theorem hierarchy_constructor_agrees (levels : list (list (res (TLB P)))) pe level pqs predictor h :
  Forall built_ok levels -> built_ok pqs -> (forall p, predictor = Some p -> predictor_ok p) ->
  TLBHierarchy_new levels pe level pqs predictor = Ok h -> hierarchy_ok T h.
Proof. apply TLBHierarchy_new_ok. Qed.

End new_hierarchy.

(** ** A machine: two levels of TLBs, page walk caches, the baseline allocator *)

(** Data caches in which every access of a walk hits the first level. *)
#[global] Instance flat_caches : MMUCacheInterface unit := {|
  handleMMUCacheAccess _ _ _ _ _ _ _ _ t c := Ok (HitWhere.L1_OWN, t +64 4000, c);
  tagCachesBlockType _ _ c := Ok c
|}.
#[global] Program Instance flat_laws : MMUCacheLaws unit := {| caches_ok _ := True |}.
Next Obligation. intros. do 3 eexists. done. Qed.
Next Obligation. intros. by eexists. Qed.

Definition machine_config (sanity perfect prediction : bool) : MMUConfig :=
  mkMMUConfig 0 prediction 6000 12000 true perfect sanity false false 1 500000.

Definition l1d_new : res (TLB LRU.CacheSetLRU) :=
  TLB_new "L1-D" lru_create lru_info 0 small_latency 4 2 [12] "Data" true false None 0.
Definition l1i_new : res (TLB LRU.CacheSetLRU) :=
  TLB_new "L1-I" lru_create lru_info 0 small_latency 4 2 [12] "Instruction" true false None 0.
Definition l2_new : res (TLB LRU.CacheSetLRU) :=
  TLB_new "L2" lru_create lru_info 0 (mkLatency 1000 12) 8 2 [12; 21] "Unified" false false None 0.
Definition machine_tlbs_res : res (TLBHierarchy LRU.CacheSetLRU) :=
  TLBHierarchy_new [[l1d_new; l1i_new]; [l2_new]] false 0 [] (Some PageSizePredictor_new).
Definition machine_tlbs : TLBHierarchy LRU.CacheSetLRU :=
  match machine_tlbs_res with Ok h => h | Err _ => mkHierarchy [] [] [] None false end.

(** New TLBs of the machine agree with any translation. *)
Lemma machine_levels_ok T : Forall (built_ok T) [[l1d_new; l1i_new]; [l2_new]].
Proof.
  assert (Hnew : forall name latency entries sizes ty miss (t : TLB LRU.CacheSetLRU), 0 < entries / 2 < 2 ^ 32 -> Forall (fun ps => 1 <= ps < 64) sizes ->
    TLB_new name lru_create lru_info 0 latency entries 2 sizes ty miss false None 0 = Ok t -> tlb_ok T t)
    by (intros; eapply (lru_tlb_ok _ _ _ _ _ _ _ None); [eassumption|eassumption|done|eassumption]).
  assert (H12 : Forall (fun ps => 1 <= ps < 64) [12]) by (constructor; [lia|constructor]).
  assert (H21 : Forall (fun ps => 1 <= ps < 64) [12; 21]) by (constructor; [lia|constructor; [lia|constructor]]).
  constructor; [|constructor; [|constructor]].
  - constructor; [|constructor; [|constructor]]; intros t; (apply Hnew; [split; [reflexivity|reflexivity]|done]).
  - constructor; [|constructor]; intros t. apply Hnew; [split; [reflexivity|reflexivity]|done].
Qed.

Lemma new_predictor_ok p : Some PageSizePredictor_new = Some p -> predictor_ok p.
Proof. intros [= <-]. split_and!; [reflexivity|reflexivity|]. apply Forall_replicate. reflexivity. Qed.

Lemma machine_tlbs_res_Ok : machine_tlbs_res = Ok machine_tlbs.
Proof. unfold machine_tlbs. destruct machine_tlbs_res as [h|] eqn:E; [done|vm_compute in E; discriminate E]. Qed.

Lemma machine_tlbs_ok T : hierarchy_ok T machine_tlbs.
Proof.
  apply (TLBHierarchy_new_ok T [[l1d_new; l1i_new]; [l2_new]] false 0 [] (Some PageSizePredictor_new)); [apply machine_levels_ok|constructor| |].
  - apply new_predictor_ok.
  - apply machine_tlbs_res_Ok.
Qed.

Lemma hierarchy_constructor_agrees_witness : hierarchy_ok one_page machine_tlbs.
Proof.
  apply (hierarchy_constructor_agrees one_page [[l1d_new; l1i_new]; [l2_new]] false 0 [] (Some PageSizePredictor_new));
    [apply machine_levels_ok|constructor|apply new_predictor_ok|apply machine_tlbs_res_Ok].
Defined.

Definition machine_pwc_res : res (PWC LRU.CacheSetLRU) := PWC_new "pwc" lru_create [lru_info; lru_info] 0 [2; 2] [4; 8] (fun _ => 0) false.
Definition machine_filter : BaseFilter LRU.CacheSetLRU :=
  match machine_pwc_res with Ok p => Radix (mkRadixFilter (Some p) true 2) | Err _ => Default end.

Definition machine : MemoryManagementUnit LRU.CacheSetLRU BaselineAllocator unit :=
  mkMMU machine_tlbs (MSHR_new 2) machine_filter ∅ ∅ 0 0 0 (fun _ => 0) 0 pt4 machine16 tt
    [PageFaultState_reset] [mkPerCore 0 0 0 0 0] [].

Lemma machine_filter_ok : filter_ok machine_filter.
Proof.
  unfold machine_filter. destruct machine_pwc_res as [p|] eqn:E; [|done]. intros _. exists p. split; [done|].
  destruct (PWC_new_ok lru_create 2 lru_info ltac:(lia) lru_create_ok lru_create_standalone "pwc" [lru_info; lru_info] 0 [2; 2] [4; 8] (fun _ => 0) false p)
    as [Hp Hl]; [..|exact E|]; [lia|repeat constructor..| |].
  - repeat (constructor; [split; reflexivity|]). constructor.
  - split; [done|]. rewrite Hl. cbn. lia.
Qed.

Lemma machine_ok cfg : core_id cfg = 0%nat -> mmu_ok cfg machine.
Proof.
  intros Hc. split; [apply machine16_ok|apply machine_tlbs_ok| |apply machine_filter_ok|done|cbn; lia].
  split; intros a b Hab; change ((∅ : gmap Z Z) !! a = Some b) in Hab; by apply lookup_empty_Some in Hab.
Qed.

Lemma translation_correct_witness :
  match performAddressTranslation (machine_config true false true) 2 0x400000 0x7f0012345678 false true true machine with
  | Ok (pa, m') =>
      mmu_ok (machine_config true false true) m' /\
      (exists n, translate (page_table m') 0x7f0012345678 = Some (n, 12) /\ pa = n * 4096 + 0x7f0012345678 `mod` 4096) /\
      (forall v' y, translate (page_table machine) v' = Some y -> translate (page_table m') v' = Some y) /\
      kernel_ptr (memory_allocator machine) <= kernel_ptr (memory_allocator m') <= kernel_ptr (memory_allocator machine) + 4096 * 4
  | Err e => e = LogError /\ forall q, ~ page_free (memory_allocator machine) q
  end.
Proof.
  apply (translation_correct (machine_config true false true) 0 0x400000 0x7f0012345678 false true true machine);
    [by apply machine_ok|split; lia|reflexivity|by left|..]; change (memory_allocator machine) with machine16; rewrite machine16_kernel; lia.
Defined.

Definition run3 : list Z := [0x1008; 0x7f0012345678; 0x1ff0].

Lemma translations_consistent_witness :
  match translate_all (machine_config true false true) run3 machine with
  | Ok (pas, _) =>
      length pas = length run3 /\
      forall i j v v' pa pa', run3 !! i = Some v -> run3 !! j = Some v' -> pas !! i = Some pa -> pas !! j = Some pa' ->
        pa `mod` 4096 = v `mod` 4096 /\ (pa / 4096 = pa' / 4096 <-> v / 4096 = v' / 4096)
  | Err e => e = LogError
  end.
Proof.
  apply (translations_consistent (machine_config true false true) run3 machine);
    [by apply machine_ok|repeat (constructor; [split; lia|]); constructor|reflexivity|..];
    change (memory_allocator machine) with machine16; rewrite machine16_kernel; cbn; lia.
Defined.

(** The run: two faults, then a hit in the first level. *)
Example run3_result :
  match translate_all (machine_config true false true) run3 machine with
  | Ok (pas, m) => (pas, counters m Counter.page_faults, counters m Counter.tlb_hits_data) =
      ([4095 * 4096 + 8; 4094 * 4096 + 0x678; 4095 * 4096 + 0xff0], 2, 1)
  | Err _ => False
  end.
Proof. vm_compute. reflexivity. Qed.

(** ** Two properties of the latency model *)

Section latency.
Context {P : Type} `{!ReplacementPolicy P}.
Context {A : Type} `{!Allocator A} `{!NumaAllocator A} {C : Type} `{!MMUCacheInterface C}.
Context (cfg : MMUConfig).
Implicit Types (m : MemoryManagementUnit P A C).

(** An empty list of accesses costs nothing. *)
Lemma no_accesses_no_cycles r count modeled eip i pf m :
  accesses r = [] -> exists m', calculatePTWCycles cfg r count modeled eip i pf m = Ok (0, m').
Proof. intros E. unfold calculatePTWCycles. rewrite E. cbn. unfold mbind, MU_bind. cbn. eauto. Qed.

Lemma bind_inv {T U} (k : MU T) (f : T -> MU U) m r m' :
  (k ≫= f) m = Ok (r, m') -> exists x m1, k m = Ok (x, m1) /\ f x m1 = Ok (r, m').
Proof. unfold mbind, MU_bind. destruct (k m) as [[x m1]|]; [|done]. eauto. Qed.

Lemma update_pf_state_filter f m u m' : update_pf_state cfg f m = Ok (u, m') -> ptw_filter m' = ptw_filter m.
Proof.
  unfold update_pf_state. intros H. apply bind_inv in H as (l & m1 & E & H). injection E as <- <-.
  do 3 (apply bind_inv in H as (? & ? & E & H); unfold ulift in E; case_match; simplify_eq). by injection H as _ <-.
Qed.

(** Charging a walk whose filter has no page walk caches. *)
Lemma charge_without_pwc r count modeled eip i pf m c m' p k :
  ptw_filter m = Radix (mkRadixFilter p false k) -> filter_and_charge cfg r count modeled eip i pf m = Ok (c, m') -> c = 0.
Proof.
  intros Hf H. unfold filter_and_charge, mbind, MU_bind in H. cbn [uget ulift] in H. rewrite Hf in H. cbn in H.
  match type of H with calculatePTWCycles _ ?r _ _ _ _ _ ?s = _ =>
    destruct (no_accesses_no_cycles r count modeled eip i pf s eq_refl) as [m1 E]; rewrite E in H end.
  by injection H.
Qed.

(** Without page walk caches page walks are free: when they are disabled the filter of the
    radix table returns no accesses at all instead of all of them, so every walk that is
    reported has no latency, whatever the caches. *)
Theorem walk_free_without_pwc fuel v modeled count pf eip restart i m o m' p k :
  ptw_filter m = Radix (mkRadixFilter p false k) ->
  performPTW cfg fuel v modeled count pf eip restart i m = Ok (o, m') -> o_latency o = 0.
Proof.
  intros Hf H. unfold performPTW in H. apply bind_inv in H as (pt & m1 & E1 & H). injection E1 as <- <-.
  apply bind_inv in H as (a & m1 & E1 & H). injection E1 as <- <-. apply bind_inv in H as ([[r p1] a1] & m1 & E1 & H).
  unfold ulift in E1. destruct (initializeWalk _ _ _ _ _ _ _ _) as [y|]; [|done]. injection E1 as -> <-.
  apply bind_inv in H as (u & m2 & E2 & H). injection E2 as _ <-. cbv zeta in H. cbn [fault_happened] in H.
  apply bind_inv in H as (u1 & m3 & E3 & H). apply update_pf_state_filter in E3. apply bind_inv in H as (u2 & m4 & E4 & H).
  apply update_pf_state_filter in E4. apply bind_inv in H as (u3 & m5 & E5 & H).
  assert (Hf5 : ptw_filter m5 = Radix (mkRadixFilter p false k)).
  { destruct (fault_happened r); [apply update_pf_state_filter in E5; rewrite E5|unfold mret, MU_ret in E5; injection E5 as _ <-]; by rewrite E4, E3. }
  apply bind_inv in H as (c & m6 & E6 & H). unfold mret, MU_ret in H. injection H as <- _. cbn [o_latency].
  destruct (_ && _); [eapply charge_without_pwc; [exact Hf5|exact E6]|]. destruct (negb _); [|unfold mret, MU_ret in E6; by injection E6 as <- _].
  apply bind_inv in E6 as (u4 & m7 & E7 & E6). injection E7 as _ <-. eapply charge_without_pwc; [|exact E6]. exact Hf5.
Qed.

End latency.

Lemma walk_free_without_pwc_witness :
  match performPTW (machine_config true false true) 2 0x1000 true true false 0 true false (set_filter (Radix (mkRadixFilter None false 2)) machine) with
  | Ok (o, _) => o_page_fault o = true /\ o_latency o = 0
  | Err _ => False
  end.
Proof.
  destruct (performPTW (machine_config true false true) 2 0x1000 true true false 0 true false (set_filter (Radix (mkRadixFilter None false 2)) machine))
    as [[o m']|] eqn:E; [|vm_compute in E; discriminate E].
  split; [|apply (walk_free_without_pwc (machine_config true false true) 2 0x1000 true true false 0 true false
    (set_filter (Radix (mkRadixFilter None false 2)) machine) o m' None 2); [reflexivity|exact E]].
  vm_compute in E. injection E as <- _. reflexivity.
Defined.

(** ** Instruction pages *)

(** A machine with one free megabyte, and as many data accesses as it has pages. *)
Definition small_memory : BaselineAllocator :=
  match BaselineAllocator_new 16 10 15 with Ok a => a | Err _ => machine16 end.
Definition small_machine : MemoryManagementUnit LRU.CacheSetLRU BaselineAllocator unit := set_os pt4 small_memory machine.
Definition data_run : list Z := map (fun i => 0x10000000 + 4096 * Z.of_nat i) (seq 0 256).
Definition fetch_then_run (sanity : bool) : res (Z * list Z) :=
  '(pa, m) ← performAddressTranslation (machine_config sanity false true) 2 0x400000 0x400000 true true true small_machine;
  '(pas, _) ← translate_all (machine_config sanity false true) data_run m;
  Ok (pa, pas).

(** Instruction and data pages collide: the instruction pages are taken from the start of
    the memory that the buddy allocator hands out as data, so an instruction fetch followed
    by data accesses to all free pages gives the last data page the frame of the
    instruction page; with the consistency checks enabled the simulator stops there. *)
Example instruction_frame_reused :
  match fetch_then_run false with Ok (pa, pas) => last pas = Some pa | Err _ => False end /\ fetch_then_run true = Err AssertFailed.
Proof. vm_compute. split; reflexivity. Qed.

(** A hit in the second level costs the first level only when page sizes are not predicted:
    the second access of a page that was pushed out of the first level takes 1 ns although
    the second level is configured with 12 ns. *)
Definition conflict_run : list Z := [0x1000; 0x3000; 0x5000; 0x1000].
Definition elapsed_after (prediction : bool) (vs : list Z) : res Z :=
  '(_, m) ← translate_all (machine_config true false prediction) vs machine; Ok (elapsed m).
Example l2_hit_uncharged :
  match elapsed_after false [0x1000; 0x3000; 0x5000], elapsed_after false conflict_run with
  | Ok t, Ok t' => t' - t = 1000
  | _, _ => False
  end.
Proof. vm_compute. reflexivity. Qed.
Example l2_hit_predicted :
  match elapsed_after true [0x1000; 0x3000; 0x5000], elapsed_after true conflict_run with
  | Ok t, Ok t' => t' - t = 1000 + 6000
  | _, _ => False
  end.
Proof. vm_compute. reflexivity. Qed.
