(* ===== verification/Threads.v ===== *)
(** * Simulated threads: cores, scheduler, barrier and system calls

    The threads of the simulated program ([core/thread.cc], [system/thread_manager.cc]), the
    schedulers that assign them to cores ([scheduler/scheduler_static.cc],
    [scheduler_dynamic.cc], [scheduler_pinned_base.cc], [scheduler_pinned.cc],
    [scheduler_roaming.cc], [scheduler_big_small.cc]), the barrier that keeps the clocks of the
    cores together ([system/barrier_sync_server.cc], [barrier_sync_client.cc]) and the futexes
    and sleeps of [system/syscall_server.cc]. They call each other through the hooks of
    [hooks_manager.cc], which are called here in the order in which they are registered:
    system calls before the scheduler, the barrier last. All of this code runs under the lock
    of the thread manager; a host thread gives the lock up only where it waits. *)

From stdpp Require Import base tactics list numbers gmap.
From Stdlib Require Import ZArith Lia.
From S2P Require Import Prelude Utils Timing.
Local Open Scope Z_scope.
Local Open Scope mach_scope.

(** ** The state *)

Inductive State := RUNNING | INITIALIZING | STALLED | SLEEPING | WAKING_UP | IDLE | BROKEN.
#[global] Instance State_eq_dec : EqDecision State.
Proof. solve_decision. Defined.

Inductive stall_type_t :=
| STALL_UNSCHEDULED | STALL_BROKEN | STALL_JOIN | STALL_MUTEX | STALL_COND | STALL_BARRIER
| STALL_FUTEX | STALL_PAUSE | STALL_SLEEP | STALL_SYSCALL.
#[global] Instance stall_type_t_eq_dec : EqDecision stall_type_t.
Proof. solve_decision. Defined.

(** A core. Its elapsed time and its count of instructions are those of its performance
    model, which only the execution of instructions changes. *)
Record Core := mkCore {
  m_core_state : State;
  m_thread : option nat;
  elapsed : Z;
  instructions : Z
}.
Definition setState (x : State) (c : Core) : Core := mkCore x (m_thread c) (elapsed c) (instructions c).
Definition setThread (x : option nat) (c : Core) : Core := mkCore (m_core_state c) x (elapsed c) (instructions c).

(** A thread; [waits] holds while its host thread is inside [wait]. The message of a wake-up
    is a pointer that is only compared with null. *)
Record Thread := mkThread {
  m_app_id : Z;
  m_wakeup_time : Z;
  m_wakeup_msg : bool;
  m_core : option nat;
  waits : bool;
  tid_ptr : Z;
  clear_tid : bool
}.
Definition Thread_new (app_id : Z) : Thread := mkThread app_id 0 false None false 0 false.
Definition with_core (x : option nat) (t : Thread) : Thread :=
  mkThread (m_app_id t) (m_wakeup_time t) (m_wakeup_msg t) x (waits t) (tid_ptr t) (clear_tid t).
(** [wait] clears the message and sleeps; [signal] leaves a time and a message and wakes. *)
Definition wait (t : Thread) : Thread :=
  mkThread (m_app_id t) (m_wakeup_time t) false (m_core t) true (tid_ptr t) (clear_tid t).
Definition signal (time : Z) (msg : bool) (t : Thread) : Thread :=
  mkThread (m_app_id t) time msg (m_core t) false (tid_ptr t) (clear_tid t).

(** The reason of a stall is not initialised before the first stall. *)
Record ThreadState := mkTState { status : State; stalled_reason : option stall_type_t; waiter : option nat }.
Definition ThreadState_new : ThreadState := mkTState IDLE None None.
Definition set_status (x : State) (t : ThreadState) : ThreadState := mkTState x (stalled_reason t) (waiter t).
Definition set_stall (r : stall_type_t) (t : ThreadState) : ThreadState := mkTState STALLED (Some r) (waiter t).
Definition set_waiter (x : option nat) (t : ThreadState) : ThreadState := mkTState (status t) (stalled_reason t) x.

Record ThreadSpawnRequest := mkSpawn { thread_by : option nat; spawn_thread : nat; spawn_time : Z }.

(** What the pinned schedulers keep of a thread. *)
Record ThreadInfo := mkInfo {
  m_has_affinity : bool;
  m_explicit_affinity : bool;
  m_core_affinity : list bool;
  m_core_running : option nat;
  m_last_scheduled_in : Z;
  m_last_scheduled_out : Z
}.
Definition ThreadInfo_new (cores : nat) : ThreadInfo := mkInfo false false (replicate cores false) None 0 0.
Definition clearAffinity (i : ThreadInfo) : ThreadInfo :=
  mkInfo (m_has_affinity i) (m_explicit_affinity i) ((fun _ => false) <$> m_core_affinity i) (m_core_running i)
    (m_last_scheduled_in i) (m_last_scheduled_out i).
Definition addAffinity (core_id : nat) (i : ThreadInfo) : res ThreadInfo :=
  l ← wr (m_core_affinity i) core_id true;
  Ok (mkInfo true (m_explicit_affinity i) l (m_core_running i) (m_last_scheduled_in i) (m_last_scheduled_out i)).
Definition setAffinitySingle (core_id : nat) (i : ThreadInfo) : res ThreadInfo := addAffinity core_id (clearAffinity i).
Definition hasAffinity (core_id : nat) (i : ThreadInfo) : res bool := rd (m_core_affinity i) core_id.
Definition setExplicitAffinity (i : ThreadInfo) : ThreadInfo :=
  mkInfo (m_has_affinity i) true (m_core_affinity i) (m_core_running i) (m_last_scheduled_in i) (m_last_scheduled_out i).
Definition setCoreRunning (x : option nat) (i : ThreadInfo) : ThreadInfo :=
  mkInfo (m_has_affinity i) (m_explicit_affinity i) (m_core_affinity i) x (m_last_scheduled_in i) (m_last_scheduled_out i).
Definition setLastScheduledIn (time : Z) (i : ThreadInfo) : ThreadInfo :=
  mkInfo (m_has_affinity i) (m_explicit_affinity i) (m_core_affinity i) (m_core_running i) time (m_last_scheduled_out i).
Definition setLastScheduledOut (time : Z) (i : ThreadInfo) : ThreadInfo :=
  mkInfo (m_has_affinity i) (m_explicit_affinity i) (m_core_affinity i) (m_core_running i) (m_last_scheduled_in i) time.
Definition isRunning (i : ThreadInfo) : bool := bool_decide (is_Some (m_core_running i)).

(** The scheduler that was configured, with the state of its subclass. *)
Inductive Policy :=
| Static (core_mask : list bool)
| Pinned (interleaving : Z) (core_mask : list bool) (next_core : nat)
| Roaming (core_mask : list bool)
| BigSmall (num_big_cores : nat) (mask_big mask_small : list bool) (last_reshuffle rng : Z) (isbig : gmap nat bool).

Record Scheduler := mkSched {
  m_quantum : Z;
  m_last_periodic : Z;
  m_thread_info : list ThreadInfo;
  m_core_thread_running : list (option nat);
  m_quantum_left : list Z;
  m_threads_runnable : list bool;
  m_policy : Policy
}.
Definition SchedulerPinnedBase_new (cores : nat) (quantum : Z) (policy : Policy) : Scheduler :=
  mkSched quantum 0 [] (replicate cores None) (replicate cores 0) (replicate 16 false) policy.
Definition set_periodic (x : Z) (s : Scheduler) : Scheduler :=
  mkSched (m_quantum s) x (m_thread_info s) (m_core_thread_running s) (m_quantum_left s) (m_threads_runnable s) (m_policy s).
Definition set_infos (x : list ThreadInfo) (s : Scheduler) : Scheduler :=
  mkSched (m_quantum s) (m_last_periodic s) x (m_core_thread_running s) (m_quantum_left s) (m_threads_runnable s) (m_policy s).
Definition set_core_running (x : list (option nat)) (s : Scheduler) : Scheduler :=
  mkSched (m_quantum s) (m_last_periodic s) (m_thread_info s) x (m_quantum_left s) (m_threads_runnable s) (m_policy s).
Definition set_quantum_left (x : list Z) (s : Scheduler) : Scheduler :=
  mkSched (m_quantum s) (m_last_periodic s) (m_thread_info s) (m_core_thread_running s) x (m_threads_runnable s) (m_policy s).
Definition set_runnable (x : list bool) (s : Scheduler) : Scheduler :=
  mkSched (m_quantum s) (m_last_periodic s) (m_thread_info s) (m_core_thread_running s) (m_quantum_left s) x (m_policy s).
Definition set_policy (x : Policy) (s : Scheduler) : Scheduler :=
  mkSched (m_quantum s) (m_last_periodic s) (m_thread_info s) (m_core_thread_running s) (m_quantum_left s) (m_threads_runnable s) x.

(** The barrier; [core_waits] counts the host threads that wait for the condition variable of
    each core. *)
Record Barrier := mkBarrier {
  m_barrier_interval : Z;
  m_next_barrier_time : Z;
  m_local_clock_list : list Z;
  m_barrier_acquire_list : list bool;
  m_core_parked : list bool;
  core_waits : list nat;
  m_to_release : list nat;
  m_core_group : list (option nat);
  m_core_thread : list (option nat);
  m_global_time : Z;
  m_fastforward : bool;
  m_disable : bool;
  generator : Z
}.
Definition set_interval (x : Z) (b : Barrier) : Barrier :=
  mkBarrier x (m_next_barrier_time b) (m_local_clock_list b) (m_barrier_acquire_list b) (m_core_parked b) (core_waits b) (m_to_release b) (m_core_group b) (m_core_thread b) (m_global_time b) (m_fastforward b) (m_disable b) (generator b).
Definition set_next (x : Z) (b : Barrier) : Barrier :=
  mkBarrier (m_barrier_interval b) x (m_local_clock_list b) (m_barrier_acquire_list b) (m_core_parked b) (core_waits b) (m_to_release b) (m_core_group b) (m_core_thread b) (m_global_time b) (m_fastforward b) (m_disable b) (generator b).
Definition set_clocks (x : list Z) (b : Barrier) : Barrier :=
  mkBarrier (m_barrier_interval b) (m_next_barrier_time b) x (m_barrier_acquire_list b) (m_core_parked b) (core_waits b) (m_to_release b) (m_core_group b) (m_core_thread b) (m_global_time b) (m_fastforward b) (m_disable b) (generator b).
Definition set_acquired (x : list bool) (b : Barrier) : Barrier :=
  mkBarrier (m_barrier_interval b) (m_next_barrier_time b) (m_local_clock_list b) x (m_core_parked b) (core_waits b) (m_to_release b) (m_core_group b) (m_core_thread b) (m_global_time b) (m_fastforward b) (m_disable b) (generator b).
Definition set_parked (x : list bool) (b : Barrier) : Barrier :=
  mkBarrier (m_barrier_interval b) (m_next_barrier_time b) (m_local_clock_list b) (m_barrier_acquire_list b) x (core_waits b) (m_to_release b) (m_core_group b) (m_core_thread b) (m_global_time b) (m_fastforward b) (m_disable b) (generator b).
Definition set_core_waits (x : list nat) (b : Barrier) : Barrier :=
  mkBarrier (m_barrier_interval b) (m_next_barrier_time b) (m_local_clock_list b) (m_barrier_acquire_list b) (m_core_parked b) x (m_to_release b) (m_core_group b) (m_core_thread b) (m_global_time b) (m_fastforward b) (m_disable b) (generator b).
Definition set_to_release (x : list nat) (b : Barrier) : Barrier :=
  mkBarrier (m_barrier_interval b) (m_next_barrier_time b) (m_local_clock_list b) (m_barrier_acquire_list b) (m_core_parked b) (core_waits b) x (m_core_group b) (m_core_thread b) (m_global_time b) (m_fastforward b) (m_disable b) (generator b).
Definition set_groups (x : list (option nat)) (b : Barrier) : Barrier :=
  mkBarrier (m_barrier_interval b) (m_next_barrier_time b) (m_local_clock_list b) (m_barrier_acquire_list b) (m_core_parked b) (core_waits b) (m_to_release b) x (m_core_thread b) (m_global_time b) (m_fastforward b) (m_disable b) (generator b).
Definition set_core_threads (x : list (option nat)) (b : Barrier) : Barrier :=
  mkBarrier (m_barrier_interval b) (m_next_barrier_time b) (m_local_clock_list b) (m_barrier_acquire_list b) (m_core_parked b) (core_waits b) (m_to_release b) (m_core_group b) x (m_global_time b) (m_fastforward b) (m_disable b) (generator b).
Definition set_global (x : Z) (b : Barrier) : Barrier :=
  mkBarrier (m_barrier_interval b) (m_next_barrier_time b) (m_local_clock_list b) (m_barrier_acquire_list b) (m_core_parked b) (core_waits b) (m_to_release b) (m_core_group b) (m_core_thread b) x (m_fastforward b) (m_disable b) (generator b).
Definition set_fastforward (x : bool) (b : Barrier) : Barrier :=
  mkBarrier (m_barrier_interval b) (m_next_barrier_time b) (m_local_clock_list b) (m_barrier_acquire_list b) (m_core_parked b) (core_waits b) (m_to_release b) (m_core_group b) (m_core_thread b) (m_global_time b) x (m_disable b) (generator b).
Definition set_disabled (x : bool) (b : Barrier) : Barrier :=
  mkBarrier (m_barrier_interval b) (m_next_barrier_time b) (m_local_clock_list b) (m_barrier_acquire_list b) (m_core_parked b) (core_waits b) (m_to_release b) (m_core_group b) (m_core_thread b) (m_global_time b) (m_fastforward b) x (generator b).
Definition set_generator (x : Z) (b : Barrier) : Barrier :=
  mkBarrier (m_barrier_interval b) (m_next_barrier_time b) (m_local_clock_list b) (m_barrier_acquire_list b) (m_core_parked b) (core_waits b) (m_to_release b) (m_core_group b) (m_core_thread b) (m_global_time b) (m_fastforward b) (m_disable b) x.

(** A thread that waits for a futex or sleeps. *)
Record Waiter := mkWaiter { w_thread_id : nat; w_mask : Z; w_timeout : Z }.
Record SyscallServer := mkSyscall { m_reschedule_cost : Z; m_sleeping : list Waiter; m_futexes : gmap Z (list Waiter) }.
Definition set_sleeping (x : list Waiter) (s : SyscallServer) : SyscallServer := mkSyscall (m_reschedule_cost s) x (m_futexes s).
Definition set_futexes (x : gmap Z (list Waiter)) (s : SyscallServer) : SyscallServer := mkSyscall (m_reschedule_cost s) (m_sleeping s) x.

(** What the code asks of performance models and of the simulated memory. *)
Inductive effect :=
| BarrierEnter (core : nat)
| BarrierExit (core : nat)
| QueueSpawn (core : nat) (time : Z)
| QueueSync (core : nat) (time : Z)
| WriteMemory (core : nat) (address value : Z).

Record Sys := mkSys {
  cores : list Core;
  threads : list Thread;
  thread_state : list ThreadState;
  m_thread_spawn_list : list ThreadSpawnRequest;
  sched : Scheduler;
  barrier : Barrier;
  syscalls : SyscallServer;
  num_host_cores : Z;
  effects : list effect
}.
Definition set_cores x s := mkSys x (threads s) (thread_state s) (m_thread_spawn_list s) (sched s) (barrier s) (syscalls s) (num_host_cores s) (effects s).
Definition set_threads x s := mkSys (cores s) x (thread_state s) (m_thread_spawn_list s) (sched s) (barrier s) (syscalls s) (num_host_cores s) (effects s).
Definition set_tstates x s := mkSys (cores s) (threads s) x (m_thread_spawn_list s) (sched s) (barrier s) (syscalls s) (num_host_cores s) (effects s).
Definition set_spawns x s := mkSys (cores s) (threads s) (thread_state s) x (sched s) (barrier s) (syscalls s) (num_host_cores s) (effects s).
Definition set_sched x s := mkSys (cores s) (threads s) (thread_state s) (m_thread_spawn_list s) x (barrier s) (syscalls s) (num_host_cores s) (effects s).
Definition set_barrier x s := mkSys (cores s) (threads s) (thread_state s) (m_thread_spawn_list s) (sched s) x (syscalls s) (num_host_cores s) (effects s).
Definition set_syscalls x s := mkSys (cores s) (threads s) (thread_state s) (m_thread_spawn_list s) (sched s) (barrier s) x (num_host_cores s) (effects s).
Definition set_effects x s := mkSys (cores s) (threads s) (thread_state s) (m_thread_spawn_list s) (sched s) (barrier s) (syscalls s) (num_host_cores s) x.

(** ** The monad of state and faults *)

Definition K (A : Type) : Type := Sys -> res (A * Sys).
#[global] Instance K_ret : MRet K := fun A a s => Ok (a, s).
#[global] Instance K_bind : MBind K := fun A B k m s =>
  match m s with Ok (a, s') => k a s' | Err f => Err f end.
Definition klift {A} (r : res A) : K A := fun s => match r with Ok a => Ok (a, s) | Err f => Err f end.
Definition kget {A} (f : Sys -> A) : K A := fun s => Ok (f s, s).
Definition kupd (f : Sys -> Sys) : K unit := fun s => Ok (tt, f s).
Definition kassert (b : bool) (f : fault) : K unit := klift (check b f).
Definition kwhen (b : bool) (m : K unit) : K unit := if b then m else mret tt.
Fixpoint kfor {X} (f : X -> K unit) (l : list X) : K unit :=
  match l with [] => mret tt | x :: l' => f x;; kfor f l' end.
(** A loop that leaves with the first element on which the test holds. *)
Fixpoint kfind {X} (p : X -> K bool) (l : list X) : K (option X) :=
  match l with [] => mret None | x :: l' => b ← p x; if b : bool then mret (Some x) else kfind p l' end.

(** Reading and changing an element of one of the arrays. *)
Definition elem {A} (get : Sys -> list A) (i : nat) : K A := l ← kget get; klift (rd l i).
Definition modify {A} (get : Sys -> list A) (set : list A -> Sys -> Sys) (i : nat) (f : A -> A) : K unit :=
  l ← kget get; x ← klift (rd l i); kupd (set (<[i := f x]> l)).
Definition on_sched (f : Scheduler -> Scheduler) : Sys -> Sys := fun s => set_sched (f (sched s)) s.
Definition on_barrier (f : Barrier -> Barrier) : Sys -> Sys := fun s => set_barrier (f (barrier s)) s.
Definition on_syscalls (f : SyscallServer -> SyscallServer) : Sys -> Sys := fun s => set_syscalls (f (syscalls s)) s.
Definition emit (e : effect) : K unit := kupd (fun s => set_effects (effects s ++ [e]) s).

(** [getCoreFromID], and [getThreadFromID] with its assertion. *)
Definition getCore (c : nat) : K Core := elem cores c.
Definition changeCore (c : nat) (f : Core -> Core) : K unit := modify cores set_cores c f.
Definition getThreadFromID (t : nat) : K Thread :=
  n ← kget (fun s => length (threads s)); kassert (t <? n)%nat LogError;; elem threads t.
Definition changeThread (t : nat) (f : Thread -> Thread) : K unit := modify threads set_threads t f.
Definition getTState (t : nat) : K ThreadState := elem thread_state t.
Definition changeTState (t : nat) (f : ThreadState -> ThreadState) : K unit := modify thread_state set_tstates t f.
Definition getInfo (t : nat) : K ThreadInfo := elem (fun s => m_thread_info (sched s)) t.
Definition changeInfo (t : nat) (f : ThreadInfo -> ThreadInfo) : K unit :=
  modify (fun s => m_thread_info (sched s)) (fun x => on_sched (set_infos x)) t f.
Definition getCoreThread (c : nat) : K (option nat) := elem (fun s => m_core_thread_running (sched s)) c.
Definition setCoreThread (c : nat) (t : option nat) : K unit :=
  modify (fun s => m_core_thread_running (sched s)) (fun x => on_sched (set_core_running x)) c (fun _ => t).
Definition setQuantumLeft (c : nat) (f : Z -> Z) : K unit :=
  modify (fun s => m_quantum_left (sched s)) (fun x => on_sched (set_quantum_left x)) c f.
Definition setRunnable (t : nat) (b : bool) : K unit :=
  modify (fun s => m_threads_runnable (sched s)) (fun x => on_sched (set_runnable x)) t (fun _ => b).

(** The number of application cores, and their identifiers in order. *)
Definition num_cores (s : Sys) : nat := length (cores s).
Definition core_ids (s : Sys) : list nat := seq 0 (length (cores s)).
Definition thread_ids (s : Sys) : list nat := seq 0 (length (threads s)).

(** [Thread::setCore] keeps the pointers of thread and core in step. *)
Definition setCore (t : nat) (core : option nat) : K unit :=
  th ← getThreadFromID t;
  match m_core th with Some c => changeCore c (setThread None) | None => mret tt end;;
  changeThread t (with_core core);;
  match core with
  | Some c =>
      co ← getCore c;
      kassert (bool_decide (m_thread co = None)) LogError;;
      changeCore c (setThread (Some t))
  | None => mret tt
  end.

(** ** Releases of the barrier, called by hooks *)

Definition getClock (c : nat) : K Z := elem (fun s => m_local_clock_list (barrier s)) c.
Definition setClock (c : nat) (t : Z) : K unit :=
  modify (fun s => m_local_clock_list (barrier s)) (fun x => on_barrier (set_clocks x)) c (fun _ => t).
Definition getAcquired (c : nat) : K bool := elem (fun s => m_barrier_acquire_list (barrier s)) c.
Definition setAcquired (c : nat) (b : bool) : K unit :=
  modify (fun s => m_barrier_acquire_list (barrier s)) (fun x => on_barrier (set_acquired x)) c (fun _ => b).
Definition getBarrierThread (c : nat) : K (option nat) := elem (fun s => m_core_thread (barrier s)) c.
(** The condition variable of a core: a signal wakes one of the host threads that wait, and is
    lost when none does. *)
Definition cond_wait (c : nat) : K unit :=
  modify (fun s => core_waits (barrier s)) (fun x => on_barrier (set_core_waits x)) c S.
Definition cond_signal (c : nat) : K unit :=
  modify (fun s => core_waits (barrier s)) (fun x => on_barrier (set_core_waits x)) c pred.

(** The list of cores to release from its end, at most [n] of them, all when [n] is -1; the
    cores that are left. *)
Fixpoint release_back (back : list nat) (n : Z) : K (list nat) :=
  match back with
  | [] => mret []
  | core_id :: back' =>
      if n =? 0 then mret back
      else cond_signal core_id;; release_back back' (n - 1)
  end.
Definition doRelease (n : Z) : K unit :=
  l ← kget (fun s => m_to_release (barrier s));
  rest ← release_back (rev l) n;
  kupd (on_barrier (set_to_release (rev rest))).

Definition releaseThread (thread_id : nat) : K unit :=
  ids ← kget core_ids;
  kfor (fun core_id =>
    a ← getAcquired core_id;
    t ← getBarrierThread core_id;
    kwhen (a && bool_decide (t = Some thread_id)) (setClock core_id 0)) ids;;
  doRelease 1.

(** ** Scheduling *)

Definition findFreeCoreForThread (thread_id : nat) : K (option nat) :=
  ids ← kget core_ids;
  kfind (fun core_id =>
    i ← getInfo thread_id;
    a ← klift (hasAffinity core_id i);
    if a : bool then (r ← getCoreThread core_id; mret (bool_decide (r = None))) else mret false) ids.

(** How long a thread has waited, or minus the time it has run, in signed picoseconds of
    64-bit times. *)
Definition score (time : Z) (i : ThreadInfo) : Z :=
  if isRunning i then swrap 64 (getPS (u64 (m_last_scheduled_in i)) - getPS (u64 time))
  else swrap 64 (getPS (u64 time) - getPS (u64 (m_last_scheduled_out i))).
(** The thread may run on the core: it is allowed there, not stalled, and not elsewhere. *)
Definition eligible (core_id thread_id : nat) (s : Scheduler) : res bool :=
  i ← rd (m_thread_info s) thread_id;
  a ← hasAffinity core_id i;
  if a : bool then
    r ← rd (m_threads_runnable s) thread_id;
    Ok (r && (negb (isRunning i) || bool_decide (m_core_running i = Some core_id)))
  else Ok false.
Definition pick_step (time : Z) (core_id : nat) (s : Scheduler) (acc : option nat * Z) (thread_id : nat) : res (option nat * Z) :=
  e ← eligible core_id thread_id s;
  if e : bool then
    i ← rd (m_thread_info s) thread_id;
    Ok (if acc.2 <? score time i then (Some thread_id, score time i) else acc)
  else Ok acc.
(** The eligible thread that waits for the longest time. *)
Definition pick_thread (time : Z) (core_id : nat) (s : Scheduler) : res (option nat) :=
  r ← fold_loop (pick_step time core_id s) (None, - 2 ^ 63) (seq 0 (length (m_threads_runnable s)));
  Ok r.1.

(** The hooks of dynamic schedulers; the static one has none. *)
Definition dynamic (m : K unit) : K unit :=
  p ← kget (fun s => m_policy (sched s)); match p with Static _ => mret tt | _ => m end.

Section rescheduling.
(** The recursion goes through the hook of a resumed thread. *)
Context (reschedule : Z -> nat -> K unit).

(** [SchedulerPinnedBase::threadResume] under [SchedulerDynamic::__threadResume]. *)
Definition threadResume_with (thread_id : nat) (time : Z) : K unit :=
  setRunnable thread_id true;;
  free ← findFreeCoreForThread thread_id;
  match free with Some core_id => reschedule time core_id | None => mret tt end.

Definition resumeThread_async_with (thread_id : nat) (time : Z) : K unit :=
  changeTState thread_id (set_status RUNNING);;
  dynamic (threadResume_with thread_id time).
Definition resumeThread_with (thread_id : nat) (time : Z) (msg : bool) : K unit :=
  getThreadFromID thread_id;;
  changeThread thread_id (signal time msg);;
  resumeThread_async_with thread_id time.

(** [ThreadManager::moveThread] and the hook of the barrier. *)
Definition moveThread_with (thread_id : nat) (core_id : option nat) (time : Z) : K unit :=
  th ← getThreadFromID thread_id;
  match m_core th with Some c => changeCore c (setState IDLE) | None => mret tt end;;
  match core_id with
  | None => setCore thread_id None
  | Some c =>
      st ← getTState thread_id;
      kwhen (bool_decide (m_core th = None) && bool_decide (status st = STALLED)
             && bool_decide (stalled_reason st = Some STALL_UNSCHEDULED))
        (resumeThread_with thread_id time false);;
      setCore thread_id (Some c);;
      st ← getTState thread_id;
      kwhen (negb (bool_decide (status st = STALLED))) (changeCore c (setState RUNNING))
  end;;
  releaseThread thread_id.

(** The rest of [reschedule] once the next thread of the core is known. *)
Definition switch_with (time : Z) (core_id : nat) (current_thread_id new_thread_id : option nat) : K unit :=
  match current_thread_id with
  | Some t =>
      changeInfo t (setCoreRunning None);;
      changeInfo t (setLastScheduledOut (time +64 SubsecondTime_PS (Z.of_nat core_id)));;
      moveThread_with t None time
  | None => mret tt
  end;;
  setCoreThread core_id new_thread_id;;
  match new_thread_id with
  | Some t =>
      i ← getInfo t;
      match m_core_running i with Some c => setCoreThread c None | None => mret tt end;;
      changeInfo t (setCoreRunning (Some core_id));;
      changeInfo t (setLastScheduledIn time);;
      moveThread_with t (Some core_id) time
  | None => mret tt
  end.

Definition reschedule_with (time : Z) (core_id : nat) : K unit :=
  current ← getCoreThread core_id;
  starting ← match current with
             | Some t => st ← getTState t; mret (bool_decide (status st = INITIALIZING))
             | None => mret false
             end;
  if starting : bool then mret tt
  else
    s ← kget sched;
    new ← klift (pick_thread time core_id s);
    kwhen (negb (bool_decide (current = new))) (switch_with time core_id current new);;
    q ← kget (fun s => m_quantum (sched s));
    setQuantumLeft core_id (fun _ => q).
End rescheduling.

(** Every level of the recursion occupies a free core, so one level more than there are cores
    is enough. *)
Fixpoint reschedule_loop (fuel : nat) (time : Z) (core_id : nat) : K unit :=
  match fuel with
  | O => klift (Err Diverges)
  | S fuel => reschedule_with (reschedule_loop fuel) time core_id
  end.
Definition reschedule (time : Z) (core_id : nat) : K unit :=
  n ← kget num_cores; reschedule_loop (S n) time core_id.
Definition resumeThread (thread_id : nat) (time : Z) (msg : bool) : K unit := resumeThread_with reschedule thread_id time msg.
Definition moveThread (thread_id : nat) (core_id : option nat) (time : Z) : K unit := moveThread_with reschedule thread_id core_id time.

(** ** Affinities *)

Definition base_threadYield (thread_id : nat) : K unit :=
  i ← getInfo thread_id;
  match m_core_running i with
  | Some core_id =>
      core ← getCore core_id;
      let time := elapsed core in
      setQuantumLeft core_id (fun _ => 0);;
      reschedule time core_id;;
      i ← getInfo thread_id;
      a ← klift (hasAffinity core_id i);
      kwhen (negb a) (
        free ← findFreeCoreForThread thread_id;
        match free with Some c => reschedule time c | None => mret tt end)
  | None => mret tt
  end.

(** [vector::resize] with default elements. *)
Definition resize_to {A} (n : nat) (x : A) (l : list A) : list A := take n l ++ replicate (n - length l) x.
Definition grow_infos (n : nat) : K unit :=
  k ← kget num_cores; kupd (on_sched (fun s => set_infos (resize_to n (ThreadInfo_new k) (m_thread_info s)) s)).

(** [CPU_ISSET_S] of the mask. *)
Definition cpu_isset (cpu : nat) (mask : list bool) : bool := default false (mask !! cpu).

(** All cores without a mask, else exactly the cores of the mask. *)
Definition set_affinity (thread_id : nat) (mask : option (list bool)) : K unit :=
  changeInfo thread_id setExplicitAffinity;;
  let add c := i ← getInfo thread_id; j ← klift (addAffinity c i); changeInfo thread_id (fun _ => j) in
  match mask with
  | None => ids ← kget core_ids; kfor add ids
  | Some l =>
      changeInfo thread_id clearAffinity;;
      n ← kget num_cores;
      kfor (fun cpu => kwhen (cpu_isset cpu l) (kassert (cpu <? n)%nat LogError;; add cpu)) (seq 0 (length l))
  end.

(** The mask is the list of its bits. *)
Definition base_threadSetAffinity (calling_thread_id : option nat) (thread_id : nat) (mask : option (list bool)) : K unit :=
  n ← kget (fun s => length (m_thread_info (sched s)));
  kwhen (n <=? thread_id)%nat (grow_infos (thread_id + 16));;
  set_affinity thread_id mask;;
  n ← kget (fun s => length (threads s));
  if (n <=? thread_id)%nat then mret tt
  else if bool_decide (calling_thread_id = Some thread_id) then base_threadYield thread_id
  else
    i ← getInfo thread_id;
    away ← match m_core_running i with Some c => a ← klift (hasAffinity c i); mret (negb a) | None => mret false end;
    if away : bool then
      match m_core_running i with Some c => setQuantumLeft c (fun _ => 0) | None => mret tt end
    else
      r ← elem (fun s => m_threads_runnable (sched s)) thread_id;
      kwhen (r && negb (isRunning i)) (
        free ← findFreeCoreForThread thread_id;
        match free with
        | Some c =>
            core ← getCore c;
            g ← kget (fun s => m_global_time (barrier s));
            reschedule (Z.max (elapsed core) g) c
        | None => mret tt
        end).

(** [threadGetAffinity]: [None] when the set of [cpusetsize] bytes is too small. *)
Definition base_threadGetAffinity (thread_id : nat) (cpusetsize : nat) : K (option (list bool)) :=
  n ← kget num_cores;
  if (cpusetsize * 8 <? n)%nat then mret None
  else
    i ← getInfo thread_id;
    bits ← klift (fold_loop (fun acc c => a ← hasAffinity c i; Ok (acc ++ [a || negb (m_explicit_affinity i)])) [] (seq 0 n));
    mret (Some (bits ++ replicate (cpusetsize * 8 - n) false)).

(** ** The schedulers *)

(** The order in which the pinned scheduler hands out cores. *)
Definition next_core (num interleaving core_id : Z) : res Z :=
  let c := core_id + interleaving in
  if num <=? c then
    (_ ← check (negb (interleaving =? 0)) DivByZero; Ok (Z.rem (Z.rem c num + 1) interleaving))
  else Ok c.
(** The loops return to a core they have seen after as many steps as there are cores. *)
Fixpoint getNextCore_loop (fuel : nat) (num interleaving : Z) (mask : list bool) (core_id : Z) : res Z :=
  match fuel with
  | O => Err Hangs
  | S fuel =>
      c ← next_core num interleaving core_id;
      _ ← check (0 <=? c) OutOfBounds;
      b ← rd mask (Z.to_nat c);
      if b : bool then Ok c else getNextCore_loop fuel num interleaving mask c
  end.
Definition getNextCore (interleaving : Z) (mask : list bool) (core_id : nat) : res nat :=
  c ← getNextCore_loop (S (length mask)) (Z.of_nat (length mask)) interleaving mask (Z.of_nat core_id);
  Ok (Z.to_nat c).
Fixpoint getFreeCore_loop (fuel : nat) (interleaving : Z) (mask : list bool) (running : list (option nat)) (core_first core_next : nat) : res nat :=
  match fuel with
  | O => Err Hangs
  | S fuel =>
      r ← rd running core_next;
      b ← rd mask core_next;
      if bool_decide (r = None) && b then Ok core_next
      else
        c ← getNextCore interleaving mask core_next;
        if (c =? core_first)%nat then Ok core_first
        else getFreeCore_loop fuel interleaving mask running core_first c
  end.
Definition getFreeCore (interleaving : Z) (mask : list bool) (running : list (option nat)) (core_first : nat) : res nat :=
  getFreeCore_loop (S (length mask)) interleaving mask running core_first core_first.

Definition big_mask (big : bool) : K (list bool) :=
  p ← kget (fun s => m_policy (sched s));
  mret (match p with BigSmall _ b s _ _ _ => if big then b else s | _ => [] end).
Definition set_isbig (thread_id : nat) (big : bool) (p : Policy) : Policy :=
  match p with
  | BigSmall n b s l r m => BigSmall n b s l r (<[thread_id := big]> m)
  | _ => p
  end.
(** [moveToBig] and [moveToSmall]. *)
Definition moveTo (big : bool) (thread_id : nat) : K unit :=
  mask ← big_mask big;
  base_threadSetAffinity None thread_id (Some mask);;
  kupd (on_sched (fun s => set_policy (set_isbig thread_id big (m_policy s)) s)).
Definition is_big (thread_id : nat) : K bool :=
  p ← kget (fun s => m_policy (sched s));
  mret (match p with BigSmall _ _ _ _ _ m => default false (m !! thread_id) | _ => false end).
Fixpoint eligible_for_big (ids : list nat) : K (list nat) :=
  match ids with
  | [] => mret []
  | t :: ids =>
      b ← is_big t;
      ok ← (if b : bool then mret false else elem (fun s => m_threads_runnable (sched s)) t);
      l ← eligible_for_big ids;
      mret (if ok : bool then t :: l else l)
  end.
Definition pickBigThread : K unit :=
  ids ← kget thread_ids;
  l ← eligible_for_big ids;
  if (0 <? length l)%nat then
    p ← kget (fun s => m_policy (sched s));
    match p with
    | BigSmall n b s lr r m =>
        let '(r, x) := rng_next r in
        kupd (on_sched (set_policy (BigSmall n b s lr r m)));;
        t ← klift (rd l (Z.to_nat (x mod Z.of_nat (length l))));
        moveTo true t
    | _ => mret tt
    end
  else mret tt.

(** The affinity of a new thread. *)
Definition threadSetInitialAffinity (thread_id : nat) : K unit :=
  p ← kget (fun s => m_policy (sched s));
  match p with
  | Static _ => mret tt
  | Pinned il mask next =>
      running ← kget (fun s => m_core_thread_running (sched s));
      core_id ← klift (getFreeCore il mask running next);
      next ← klift (getNextCore il mask core_id);
      kupd (on_sched (set_policy (Pinned il mask next)));;
      i ← getInfo thread_id;
      j ← klift (setAffinitySingle core_id i);
      changeInfo thread_id (fun _ => j)
  | Roaming mask =>
      changeInfo thread_id clearAffinity;;
      ids ← kget core_ids;
      kfor (fun c => b ← klift (rd mask c);
                     kwhen b (i ← getInfo thread_id; j ← klift (addAffinity c i); changeInfo thread_id (fun _ => j))) ids
  | BigSmall _ _ _ _ _ _ => moveTo false thread_id
  end.

(** [SchedulerPinnedBase::threadCreate]. *)
Definition base_threadCreate (thread_id : nat) : K (option nat) :=
  n ← kget (fun s => length (m_thread_info (sched s)));
  kwhen (n <=? thread_id)%nat (grow_infos (n + 16));;
  i ← getInfo thread_id;
  kwhen (negb (m_has_affinity i)) (threadSetInitialAffinity thread_id);;
  free ← findFreeCoreForThread thread_id;
  changeInfo thread_id (setCoreRunning free);;
  match free with
  | Some c =>
      setCoreThread c (Some thread_id);;
      q ← kget (fun s => m_quantum (sched s));
      setQuantumLeft c (fun _ => q)
  | None => mret tt
  end;;
  mret free.
Definition findFirstFreeMaskedCore (mask : list bool) : K (option nat) :=
  ids ← kget core_ids;
  kfind (fun c => b ← klift (rd mask c); if b : bool then (co ← getCore c; mret (bool_decide (m_core_state co = IDLE))) else mret false) ids.
Definition threadCreate (thread_id : nat) : K (option nat) :=
  p ← kget (fun s => m_policy (sched s));
  match p with
  | Static mask =>
      c ← findFirstFreeMaskedCore mask;
      kassert (bool_decide (is_Some c)) LogError;;
      getThreadFromID thread_id;;
      mret c
  | _ => base_threadCreate thread_id
  end.

Definition threadYield (thread_id : nat) : K unit := dynamic (base_threadYield thread_id).
Definition threadSetAffinity (calling_thread_id : option nat) (thread_id : nat) (mask : option (list bool)) : K unit :=
  dynamic (base_threadSetAffinity calling_thread_id thread_id mask).
Definition threadGetAffinity (thread_id cpusetsize : nat) : K (option (list bool)) :=
  p ← kget (fun s => m_policy (sched s));
  match p with
  | Static _ =>
      n ← kget num_cores;
      if (cpusetsize * 8 <? n)%nat then mret None
      else
        th ← getThreadFromID thread_id;
        mret ((fun c => <[c := true]> (replicate (cpusetsize * 8) false)) <$> m_core th)
  | _ => base_threadGetAffinity thread_id cpusetsize
  end.

(** [SchedulerDynamic::__threadStart] over [SchedulerPinnedBase::threadStart]. *)
Definition threadStart (thread_id : nat) (time : Z) : K unit :=
  dynamic (
    n ← kget (fun s => length (m_threads_runnable (sched s)));
    kwhen (n <=? thread_id)%nat (kupd (on_sched (fun s => set_runnable (m_threads_runnable s ++ replicate 16 false) s)));;
    setRunnable thread_id true;;
    free ← findFreeCoreForThread thread_id;
    match free with Some c => reschedule time c | None => mret tt end).
(** The running thread cannot run any more. *)
Definition give_up_core (thread_id : nat) (time : Z) : K unit :=
  i ← getInfo thread_id;
  match m_core_running i with Some c => reschedule time c | None => mret tt end.
Definition threadStall (thread_id : nat) (reason : stall_type_t) (time : Z) : K unit :=
  dynamic (kwhen (negb (bool_decide (reason = STALL_UNSCHEDULED))) (
    setRunnable thread_id false;;
    big ← is_big thread_id;
    kwhen big (pickBigThread;; moveTo false thread_id);;
    give_up_core thread_id time)).
Definition threadExit (thread_id : nat) (time : Z) : K unit :=
  dynamic (
    setRunnable thread_id false;;
    big ← is_big thread_id;
    kwhen big pickBigThread;;
    give_up_core thread_id time).

Definition base_periodic (time : Z) : K unit :=
  last ← kget (fun s => m_last_periodic (sched s));
  let delta := time -64 last in
  ids ← kget core_ids;
  kfor (fun core_id =>
    q ← elem (fun s => m_quantum_left (sched s)) core_id;
    r ← getCoreThread core_id;
    if (q <? delta) || bool_decide (r = None) then reschedule time core_id
    else setQuantumLeft core_id (fun q => q -64 delta)) ids;;
  kupd (on_sched (set_periodic time)).
Definition reshuffle (time : Z) : K unit :=
  p ← kget (fun s => m_policy (sched s));
  match p with
  | BigSmall n _ _ last _ _ =>
      q ← kget (fun s => m_quantum (sched s));
      kwhen (last +64 q <? time) (
        ids ← kget thread_ids;
        kfor (fun t => b ← is_big t; kwhen b (moveTo false t)) ids;;
        kfor (fun _ => pickBigThread) (seq 0 (n `min` length ids));;
        kupd (on_sched (fun s => set_policy (match m_policy s with
          | BigSmall n b sm _ r m => BigSmall n b sm time r m | p => p end) s)))
  | _ => mret tt
  end.
Definition periodic (time : Z) : K unit := dynamic (reshuffle time;; base_periodic time).

(** ** Futexes and sleeping threads *)

(** The first waiter on which a test holds, and the others. *)
Fixpoint take_first (p : Waiter -> bool) (l : list Waiter) : option (Waiter * list Waiter) :=
  match l with
  | [] => None
  | w :: l' => if p w then Some (w, l') else (fun x => (x.1, w :: x.2)) <$> take_first p l'
  end.
Definition timed_out (time : Z) (w : Waiter) : bool := w_timeout w <=? time.

Definition futex (a : Z) : K (list Waiter) := f ← kget (fun s => m_futexes (syscalls s)); mret (default [] (f !! a)).
Definition put_futex (a : Z) (l : list Waiter) : K unit := kupd (on_syscalls (fun y => set_futexes (<[a := l]> (m_futexes y)) y)).

(** [SimFutex::dequeueWaiter]; bits are those of the two masks. *)
Definition dequeueWaiter (a : Z) (mask time : Z) : K (option nat) :=
  l ← futex a;
  match take_first (fun w => negb (Z.land mask (w_mask w) =? 0)) l with
  | Some (w, rest) =>
      put_futex a rest;;
      resumeThread (w_thread_id w) time true;;
      mret (Some (w_thread_id w))
  | None => mret None
  end.
Definition wakeTimedOut (time a : Z) : K unit :=
  l ← futex a;
  match take_first (timed_out time) l with
  | Some (w, rest) => put_futex a rest;; resumeThread (w_thread_id w) time false
  | None => mret tt
  end.
Definition next_timeout (l : list Waiter) (acc : Z) : Z :=
  fold_left (fun acc w => if w_timeout w <? MaxTime then w_timeout w else acc) l acc.

Section syscalls.
(** The order in which the hash table of futexes is traversed, the translation of addresses
    that the front end gives a thread, and the order that [std::shuffle] makes of a list with
    a state of its generator. *)
Context (traverse : gmap Z (list Waiter) -> list Z) (va2pa : nat -> Z -> Z) (shuffle : Z -> list nat -> list nat * Z).

Definition futexPeriodic (time : Z) : K unit :=
  l ← kget (fun s => m_sleeping (syscalls s));
  match take_first (timed_out time) l with
  | Some (w, rest) =>
      kupd (on_syscalls (set_sleeping rest));;
      resumeThread (w_thread_id w) time false
  | None => mret tt
  end;;
  f ← kget (fun s => m_futexes (syscalls s));
  kfor (wakeTimedOut time) (traverse f).

Definition getNextTimeout : K Z :=
  l ← kget (fun s => m_sleeping (syscalls s));
  f ← kget (fun s => m_futexes (syscalls s));
  mret (fold_left (fun next a => Z.min next (next_timeout (default [] (f !! a)) MaxTime)) (traverse f) (next_timeout l MaxTime)).

Definition applyRescheduleCost (thread_id : nat) (conditional : bool) : K Z :=
  if conditional then
    th ← getThreadFromID thread_id;
    c ← klift (deref (m_core th));
    core ← getCore c;
    cost ← kget (fun s => m_reschedule_cost (syscalls s));
    mret (if instructions core =? 0 then 0 else cost)
  else mret 0.

Definition findFutexByUaddr (uaddr : Z) (thread_id : nat) : K Z :=
  getThreadFromID thread_id;;
  let address := va2pa thread_id uaddr in
  l ← futex address;
  put_futex address l;;
  mret address.
Definition wakeFutexOne (a : Z) (thread_id : nat) (mask curr_time : Z) : K (option nat) :=
  cost ← applyRescheduleCost thread_id true;
  dequeueWaiter a mask (curr_time +64 cost).
(** At most [n] waiters, one after the other. *)
Fixpoint wake_many (n : nat) (wake : K (option nat)) : K Z :=
  match n with
  | O => mret 0
  | S n => w ← wake; match w with Some _ => k ← wake_many n wake; mret (k + 1) | None => mret 0 end
  end.

Definition FUTEX_BITSET_MATCH_ANY : Z := 2 ^ 32 - 1.
Definition futexWake (thread_id : nat) (uaddr nr_wake mask curr_time : Z) : K (Z * Z) :=
  a ← findFutexByUaddr uaddr thread_id;
  n ← wake_many (Z.to_nat nr_wake) (wakeFutexOne a thread_id mask curr_time);
  cost ← applyRescheduleCost thread_id (0 <? n);
  mret (n, curr_time +64 cost).

(** Called at every barrier, in the order of registration. *)
Definition hook_periodic (time : Z) : K unit := futexPeriodic time;; periodic time.

(** ** The barrier *)

Definition isThreadRunning (thread_id : nat) : K bool := st ← getTState thread_id; mret (bool_decide (status st = RUNNING)).
Definition isThreadInitializing (thread_id : nat) : K bool := st ← getTState thread_id; mret (bool_decide (status st = INITIALIZING)).
Definition anyThreadRunning : K bool :=
  ids ← kget thread_ids;
  o ← kfind (fun t => r ← isThreadRunning t; if r : bool then mret true else isThreadInitializing t) ids;
  mret (bool_decide (is_Some o)).

Definition own_thread_running (core_id : nat) : K bool :=
  core ← getCore core_id;
  if bool_decide (m_core_state core = RUNNING) then
    match m_thread core with Some t => isThreadRunning t | None => klift (Err LogError) end
  else mret false.
Definition getGroup (c : nat) : K (option nat) := elem (fun s => m_core_group (barrier s)) c.
Definition isCoreRunning (core_id : nat) (siblings : bool) : K bool :=
  r ← own_thread_running core_id;
  if r : bool then mret true
  else
    ff ← kget (fun s => m_fastforward (barrier s));
    if siblings && negb ff then
      ids ← kget core_ids;
      o ← kfind (fun c => g ← getGroup c; if bool_decide (g = Some core_id) then own_thread_running c else mret false) ids;
      mret (bool_decide (is_Some o))
    else mret false.

(** All running cores have arrived, and there is one. *)
Fixpoint reached_loop (ids : list nat) (reached : bool) : K bool :=
  match ids with
  | [] => mret reached
  | c :: ids =>
      ff ← kget (fun s => m_fastforward (barrier s));
      if ff : bool then
        a ← getAcquired c;
        if a : bool then reached_loop ids true
        else r ← isCoreRunning c true; if r : bool then mret false else reached_loop ids reached
      else
        g ← getGroup c;
        if bool_decide (is_Some g) then reached_loop ids reached
        else
          r ← isCoreRunning c true;
          if r : bool then
            t ← getClock c;
            n ← kget (fun s => m_next_barrier_time (barrier s));
            if t <? n then mret false else reached_loop ids true
          else reached_loop ids reached
  end.
Definition isBarrierReached : K bool := ids ← kget core_ids; reached_loop ids false.

(** One pass of the release over the cores: whether a core was resumed, and whether the
    caller still has to wait. *)
Fixpoint release_pass (caller : option nat) (ids : list nat) (acc : bool * bool) : K (bool * bool) :=
  match ids with
  | [] => mret acc
  | c :: ids =>
      t ← getClock c;
      n ← kget (fun s => m_next_barrier_time (barrier s));
      a ← getAcquired c;
      if (t <? n) && a then
        setAcquired c false;;
        o ← getBarrierThread c;
        if bool_decide (o = caller) then release_pass caller ids (true, false)
        else
          emit (BarrierExit c);;
          kupd (on_barrier (fun b => set_to_release (m_to_release b ++ [c]) b));;
          release_pass caller ids (true, acc.2)
      else release_pass caller ids acc
  end.
(** [None] when the loop is left by a return, else whether the caller has to wait. *)
Fixpoint release_loop (fuel : nat) (caller : option nat) (continue_until_release : bool) : K (option bool) :=
  match fuel with
  | O => klift (Err Diverges)
  | S fuel =>
      next ← kget (fun s => m_next_barrier_time (barrier s));
      kupd (on_barrier (set_global next));;
      hook_periodic next;;
      stop ← (if continue_until_release then
                r ← anyThreadRunning;
                if r : bool then mret true
                else t ← getNextTimeout; kassert (t <? MaxTime) LogError;; mret false
              else mret false);
      disabled ← kget (fun s => m_disable (barrier s));
      if stop || disabled : bool then mret None
      else
        kupd (on_barrier (fun b => set_next (m_next_barrier_time b +64 m_barrier_interval b) b));;
        ids ← kget core_ids;
        r ← release_pass caller ids (false, true);
        if r.1 : bool then mret (Some r.2) else release_loop fuel caller continue_until_release
  end.

(** The loop advances the time by the interval until it passes the clock of a core in the
    barrier, or a timeout that wakes a thread. *)
Definition awaited_times (s : Sys) : list Z :=
  (m_local_clock_list (barrier s)) ++ (w_timeout <$> m_sleeping (syscalls s)) ++
  (w_timeout <$> mjoin (map_to_list (m_futexes (syscalls s))).*2).
Definition release_fuel (s : Sys) : nat :=
  let b := barrier s in
  let last := foldr Z.max 0 (filter (fun t => t < MaxTime) (awaited_times s)) in
  S (S (Z.to_nat ((last - m_next_barrier_time b) / m_barrier_interval b))).
Definition skip_timeslots (b : Barrier) : Barrier :=
  set_next (fold_left Z.max (m_local_clock_list b) (m_next_barrier_time b)) b.
Definition barrierRelease (caller : option nat) (continue_until_release : bool) : K bool :=
  l ← kget (fun s => m_to_release (barrier s));
  kassert (bool_decide (l = [])) LogError;;
  ff ← kget (fun s => m_fastforward (barrier s));
  kwhen ff (kupd (on_barrier skip_timeslots));;
  fuel ← kget release_fuel;
  r ← release_loop fuel caller continue_until_release;
  match r with
  | None => mret false
  | Some must_wait =>
      kupd (on_barrier (fun b => let '(l, g) := shuffle (generator b) (m_to_release b) in set_generator g (set_to_release l b)));;
      ff ← kget (fun s => m_fastforward (barrier s));
      host ← kget num_host_cores;
      doRelease (if ff : bool then -1 else host);;
      mret must_wait
  end.

Definition barrier_signal : K unit :=
  d ← kget (fun s => m_disable (barrier s));
  if d : bool then mret tt
  else r ← isBarrierReached; kwhen r (barrierRelease None false;; mret tt).
Definition advance : K unit := barrierRelease None true;; mret tt.

(** [synchronize]: the result tells whether the host thread now waits for the barrier. *)
Definition barrier_synchronize (core_id : nat) (time : Z) : K bool :=
  d ← kget (fun s => m_disable (barrier s));
  if d : bool then mret false
  else
    core ← getCore core_id;
    ff ← kget (fun s => m_fastforward (barrier s));
    g ← (if ff : bool then mret None else getGroup core_id);
    let master := default core_id g in
    thread_me ← klift (deref (m_thread core));
    kassert (bool_decide (m_core_state core = RUNNING) || bool_decide (m_core_state core = INITIALIZING)) LogError;;
    a ← getAcquired master;
    kassert (negb a) LogError;;
    modify (fun s => m_core_parked (barrier s)) (fun x => on_barrier (set_parked x)) master (fun _ => false);;
    next ← kget (fun s => m_next_barrier_time (barrier s));
    if (time <? next) && negb ff then mret false
    else
      doRelease 1;;
      emit (BarrierEnter core_id);;
      setClock master time;;
      setAcquired master true;;
      modify (fun s => m_core_thread (barrier s)) (fun x => on_barrier (set_core_threads x)) master (fun _ => Some thread_me);;
      r ← isBarrierReached;
      must_wait ← (if r : bool then barrierRelease (Some thread_me) false else mret true);
      if must_wait : bool then cond_wait master;; mret true
      else emit (BarrierExit core_id);; mret false.

Definition abortBarrier : K unit :=
  ids ← kget core_ids;
  kfor (fun c => a ← getAcquired c; kwhen a (setAcquired c false;; emit (BarrierExit c);; cond_signal c)) ids.
Definition setDisable (disable : bool) : K unit :=
  kupd (on_barrier (set_disabled disable));; kwhen disable abortBarrier.
Definition setGroup (core_id : nat) (master : option nat) : K unit :=
  kwhen (bool_decide (is_Some master)) (a ← getAcquired core_id; kassert (negb a) LogError);;
  modify (fun s => m_core_group (barrier s)) (fun x => on_barrier (set_groups x)) core_id (fun _ => master).
Definition setFastForward (fastforward : bool) (next_barrier_time : Z) : K unit :=
  kupd (on_barrier (fun b =>
    let b := set_fastforward fastforward b in
    if next_barrier_time =? MaxTime then b else set_next (Z.max (m_next_barrier_time b) next_barrier_time) b)).
Definition parkCore (core_id : nat) : K unit :=
  setClock core_id MaxTime;;
  modify (fun s => m_core_parked (barrier s)) (fun x => on_barrier (set_parked x)) core_id (fun _ => true).
Definition unparkCore (core_id : nat) : K unit :=
  modify (fun s => m_core_parked (barrier s)) (fun x => on_barrier (set_parked x)) core_id (fun _ => false).
Fixpoint active_loop (ids : list nat) (active : Z) : K bool :=
  match ids with
  | [] => mret (active =? 1)
  | c :: ids =>
      g ← getGroup c;
      if bool_decide (is_Some g) then mret false
      else
        a ← getAcquired c;
        r ← (if a : bool then mret false else isCoreRunning c true);
        active_loop ids (if r : bool then u32 (active + 1) else active)
  end.
Definition onlyMainCoreRunning : K bool := ids ← kget core_ids; active_loop ids 0.
Definition getGlobalTime (upper_bound : bool) (b : Barrier) : Z :=
  if m_barrier_interval b =? MaxTime then m_global_time b
  else if upper_bound then m_next_barrier_time b else m_global_time b.

(** [BarrierSyncClient]: a core calls the barrier when it passes the next multiple of the
    interval. *)
Record BarrierSyncClient := mkClient { cl_core : nat; cl_barrier_interval : Z; m_next_sync_time : Z }.
Definition barrier_quantum (quantum : Z) : Z := if quantum =? 0 then MaxTime else SubsecondTime_NS quantum.
Definition BarrierSyncClient_new (core quantum : Z) : BarrierSyncClient :=
  mkClient (Z.to_nat core) (barrier_quantum quantum) (barrier_quantum quantum).
Definition client_synchronize (time : Z) (ignore_time : bool) (c : BarrierSyncClient) : K (bool * BarrierSyncClient) :=
  core ← getCore (cl_core c);
  let curr := if time =? 0 then elapsed core else time in
  if (m_next_sync_time c <=? curr) || ignore_time then
    w ← barrier_synchronize (cl_core c) curr;
    interval ← kget (fun s => m_barrier_interval (barrier s));
    q ← klift (udiv curr interval);
    mret (w, mkClient (cl_core c) interval ((q *64 interval) +64 interval))
  else mret (false, c).

Definition BarrierSyncServer_new (num : nat) (quantum gen : Z) : Barrier :=
  mkBarrier (barrier_quantum quantum) (barrier_quantum quantum) (replicate num 0) (replicate num false) (replicate num false)
    (replicate num 0%nat) [] (replicate num None) (replicate num None) 0 false false gen.

(** ** The thread manager *)

Definition createThread_unlocked (app_id : Z) : K nat :=
  thread_id ← kget (fun s => length (threads s));
  kupd (fun s => set_tstates (thread_state s ++ [ThreadState_new]) (set_threads (threads s ++ [Thread_new app_id]) s));;
  changeTState thread_id (set_status INITIALIZING);;
  core_id ← threadCreate thread_id;
  match core_id with
  | Some c => setCore thread_id (Some c);; changeCore c (setState INITIALIZING)
  | None => mret tt
  end;;
  mret thread_id.

Definition onThreadStart (thread_id : nat) (time : Z) : K unit :=
  getThreadFromID thread_id;;
  changeTState thread_id (set_status RUNNING);;
  threadStart thread_id time;;
  th ← getThreadFromID thread_id;
  time ← match m_core th with
         | Some c =>
             changeCore c (setState RUNNING);;
             core ← getCore c;
             let time := Z.max time (elapsed core) in
             emit (QueueSpawn c time);;
             changeTState thread_id (set_status RUNNING);;
             releaseThread thread_id;;
             mret time
         | None => changeTState thread_id (set_stall STALL_UNSCHEDULED);; mret time
         end;
  st ← getTState thread_id;
  match waiter st with
  | Some w =>
      getThreadFromID w;;
      changeThread w (signal time false);;
      changeTState thread_id (set_waiter None)
  | None => mret tt
  end.

Definition wakeUpWaiter (thread_id : nat) (time : Z) : K unit :=
  st ← getTState thread_id;
  match waiter st with
  | Some w => resumeThread w time false;; changeTState thread_id (set_waiter None)
  | None => mret tt
  end.

(** The hooks of an exit and of a stall end with [BarrierSyncServer::threadExit] and
    [threadStall], which release the thread and then signal the barrier; the part before the
    signal has a name of its own. *)
Definition exit_thread (thread_id : nat) : K unit :=
  n ← kget (fun s => length (thread_state s));
  kassert (thread_id <? n)%nat LogError;;
  th ← getThreadFromID thread_id;
  c ← match m_core th with Some c => mret c | None => klift (Err LogError) end;
  core ← getCore c;
  let time := elapsed core in
  st ← getTState thread_id;
  kassert (bool_decide (status st = RUNNING)) AssertFailed;;
  changeTState thread_id (set_status IDLE);;
  wakeUpWaiter thread_id time;;
  kwhen (clear_tid th) (
    emit (WriteMemory c (tid_ptr th) 0);;
    futexWake thread_id (tid_ptr th) 1 FUTEX_BITSET_MATCH_ANY time;; mret tt);;
  changeCore c (setState IDLE);;
  setCore thread_id None;;
  threadExit thread_id time;;
  releaseThread thread_id.
Definition onThreadExit (thread_id : nat) : K unit := exit_thread thread_id;; barrier_signal.

Definition stall_thread (thread_id : nat) (reason : stall_type_t) (time : Z) : K unit :=
  changeTState thread_id (set_stall reason);;
  threadStall thread_id reason time;;
  releaseThread thread_id.
Definition stallThread_async (thread_id : nat) (reason : stall_type_t) (time : Z) : K unit :=
  stall_thread thread_id reason time;; barrier_signal.

(** While no thread runs the barrier advances the time. Every pass wakes a thread or releases a
    core whose thread is not running, so one pass more than there are cores is enough; when
    the barrier is disabled the loop does not end. *)
Fixpoint advance_loop (fuel : nat) : K unit :=
  r ← anyThreadRunning;
  if r : bool then mret tt
  else match fuel with
       | O => klift (Err Diverges)
       | S fuel => advance;; advance_loop fuel
       end.
Definition advance_all : K unit := n ← kget num_cores; advance_loop (S n).
(** The time of the wake-up, or [None] when the host thread now waits. *)
Definition park (thread_id : nat) : K (option Z) :=
  st ← getTState thread_id;
  th ← getThreadFromID thread_id;
  if bool_decide (status st = RUNNING) then mret (Some (m_wakeup_time th))
  else changeThread thread_id wait;; mret None.
Definition stallThread (thread_id : nat) (reason : stall_type_t) (time : Z) : K (option Z) :=
  stallThread_async thread_id reason time;;
  advance_all;;
  park thread_id.

(** [Thread::reschedule]: a thread without a core stalls; the result is [None] while it waits,
    else whether it was moved and its time. *)
Fixpoint Thread_reschedule (fuel : nat) (thread_id : nat) (time : Z) (current_core : option nat) : K (option (bool * Z)) :=
  th ← getThreadFromID thread_id;
  match m_core th with
  | None =>
      match fuel with
      | O => klift (Err Diverges)
      | S fuel =>
          w ← stallThread thread_id STALL_UNSCHEDULED time;
          match w with Some time => Thread_reschedule fuel thread_id time None | None => mret None end
      end
  | Some c =>
      if bool_decide (current_core = Some c) then mret (Some (false, time))
      else emit (QueueSync c time);; mret (Some (true, time))
  end.

Definition spawnThread (thread_id : option nat) (app_id : Z) : K nat :=
  time_start ← match thread_id with
    | Some t => th ← getThreadFromID t; c ← klift (deref (m_core th)); core ← getCore c; mret (elapsed core)
    | None => mret 0
    end;
  new ← createThread_unlocked app_id;
  kupd (fun s => set_spawns (m_thread_spawn_list s ++ [mkSpawn thread_id new time_start]) s);;
  mret new.
Definition getThreadToSpawn : K (nat * Z) :=
  l ← kget m_thread_spawn_list;
  match l with
  | r :: l => kupd (set_spawns l);; mret (spawn_thread r, spawn_time r)
  | [] => klift (Err LogError)
  end.
(** Whether the host thread now waits. *)
Definition waitForThreadStart (thread_id wait_thread_id : nat) : K bool :=
  getThreadFromID thread_id;;
  st ← getTState wait_thread_id;
  if bool_decide (status st = INITIALIZING) then
    kassert (bool_decide (waiter st = None)) LogError;;
    changeTState wait_thread_id (set_waiter (Some thread_id));;
    changeThread thread_id wait;;
    mret true
  else mret false.
Definition areAllCoresRunning (s : Sys) : bool := forallb (fun st => negb (bool_decide (status st = IDLE))) (thread_state s).

(** [joinThread] until the thread stalls: [None] when there is nothing to wait for. *)
Definition joinThread (thread_id join_thread_id : nat) : K (option (option Z)) :=
  th ← getThreadFromID thread_id;
  st ← getTState join_thread_id;
  if bool_decide (status st = IDLE) then mret None
  else
    c ← klift (deref (m_core th));
    core ← getCore c;
    kassert (bool_decide (waiter st = None)) LogError;;
    changeTState join_thread_id (set_waiter (Some thread_id));;
    w ← stallThread thread_id STALL_JOIN (elapsed core);
    mret (Some w).

(** ** System calls *)

Definition handleSleepCall (thread_id : nat) (wake_time curr_time : Z) : K (option Z) :=
  kupd (on_syscalls (fun y => set_sleeping (m_sleeping y ++ [mkWaiter thread_id 0 wake_time]) y));;
  stallThread thread_id STALL_SLEEP curr_time.

Definition EWOULDBLOCK : Z := 11.
Definition ETIMEDOUT : Z := 110.
Definition EAGAIN : Z := 11.
(** The result of a futex call: a value and the end time, or the thread waits, and its result
    will be 0 or [-ETIMEDOUT] by the message of its wake-up. *)
Inductive futex_result := Returned (value end_time : Z) | Waiting.

Definition enqueueWaiter (a : Z) (thread_id : nat) (mask time timeout_time : Z) : K (option Z) :=
  l ← futex a;
  put_futex a (l ++ [mkWaiter thread_id mask timeout_time]);;
  stallThread thread_id STALL_FUTEX time.
(** The value that the call returns once the thread is awake. *)
Definition futex_outcome (th : Thread) : Z := if m_wakeup_msg th then 0 else - ETIMEDOUT.
Definition futexWait (thread_id : nat) (uaddr val act_val mask curr_time timeout_time : Z) : K futex_result :=
  a ← findFutexByUaddr uaddr thread_id;
  if negb (val =? act_val) then mret (Returned (- EWOULDBLOCK) curr_time)
  else
    w ← enqueueWaiter a thread_id mask curr_time timeout_time;
    match w with
    | Some end_time => th ← getThreadFromID thread_id; mret (Returned (futex_outcome th) end_time)
    | None => mret Waiting
    end.

(** [futexDoOp]: the value written to the futex, and whether to wake the second queue, from
    the value that was read. Integers have 32 bits. *)
Definition futexDoOp (encoded_op oldval : Z) : res (Z * bool) :=
  let op := Z.land (Z.shiftr encoded_op 28) 7 in
  let cmp := Z.land (Z.shiftr encoded_op 24) 15 in
  let oparg := Z.shiftr (s32 (Z.shiftl encoded_op 8)) 20 in
  let cmparg := Z.shiftr (s32 (Z.shiftl encoded_op 20)) 20 in
  oparg ← (if negb (Z.land encoded_op (s32 (Z.shiftl 8 28)) =? 0) then
             _ ← check ((0 <=? oparg) && (oparg <? 32)) BadShift; Ok (s32 (Z.shiftl 1 oparg))
           else Ok oparg);
  newval ← (if op =? 0 then Ok oparg
            else if op =? 1 then Ok (s32 (oldval + oparg))
            else if op =? 2 then Ok (Z.lor oldval oparg)
            else if op =? 3 then Ok (Z.land oldval (Z.lnot oparg))
            else if op =? 4 then Ok (Z.lxor oldval oparg)
            else Err LogError);
  ret ← (if cmp =? 0 then Ok (oldval =? cmparg)
         else if cmp =? 1 then Ok (negb (oldval =? cmparg))
         else if cmp =? 2 then Ok (oldval <? cmparg)
         else if cmp =? 3 then Ok (oldval <=? cmparg)
         else if cmp =? 4 then Ok (cmparg <? oldval)
         else if cmp =? 5 then Ok (cmparg <=? oldval)
         else Err LogError);
  Ok (newval, ret).
Definition futexWakeOp (thread_id : nat) (uaddr uaddr2 nr_wake nr_wake2 op oldval curr_time : Z) : K futex_result :=
  a ← findFutexByUaddr uaddr thread_id;
  a2 ← findFutexByUaddr uaddr2 thread_id;
  th ← getThreadFromID thread_id;
  c ← match m_core th with Some c => mret c | None => klift (Err LogError) end;
  '(newval, op_ret) ← klift (futexDoOp op oldval);
  emit (WriteMemory c uaddr2 newval);;
  n ← wake_many (Z.to_nat nr_wake) (wakeFutexOne a thread_id FUTEX_BITSET_MATCH_ANY curr_time);
  n2 ← (if op_ret : bool then wake_many (Z.to_nat nr_wake2) (wakeFutexOne a2 thread_id FUTEX_BITSET_MATCH_ANY curr_time) else mret 0);
  cost ← applyRescheduleCost thread_id (0 <? n + n2);
  mret (Returned (n + n2) (curr_time +64 cost)).

(** Moves all waiters; with one queue on both sides the loop does not end. *)
Fixpoint requeue_loop (fuel : nat) (a b : Z) : K unit :=
  l ← futex a;
  match l with
  | [] => mret tt
  | w :: l =>
      match fuel with
      | O => klift (Err Hangs)
      | S fuel =>
          put_futex a l;;
          l2 ← futex b;
          put_futex b (l2 ++ [w]);;
          requeue_loop fuel a b
      end
  end.
Definition futexCmpRequeue (thread_id : nat) (uaddr val uaddr2 val3 act_val curr_time : Z) : K futex_result :=
  a ← findFutexByUaddr uaddr thread_id;
  if negb (val3 =? act_val) then mret (Returned (- EAGAIN) curr_time)
  else
    n ← wake_many (Z.to_nat val) (dequeueWaiter a FUTEX_BITSET_MATCH_ANY curr_time);
    b ← findFutexByUaddr uaddr2 thread_id;
    l ← futex a;
    requeue_loop (length l) a b;;
    mret (Returned n curr_time).

Inductive futex_cmd := FUTEX_WAIT | FUTEX_WAIT_BITSET | FUTEX_WAKE | FUTEX_WAKE_BITSET | FUTEX_WAKE_OP | FUTEX_CMP_REQUEUE.
#[global] Instance futex_cmd_eq_dec : EqDecision futex_cmd.
Proof. solve_decision. Defined.
(** The private flag and the clock flag are masked out. *)
Definition decode_cmd (op : Z) : res futex_cmd :=
  let cmd := Z.land (Z.land op (Z.lnot (Z.lor 128 256))) (Z.lnot 128) in
  if cmd =? 0 then Ok FUTEX_WAIT else if cmd =? 9 then Ok FUTEX_WAIT_BITSET
  else if cmd =? 1 then Ok FUTEX_WAKE else if cmd =? 10 then Ok FUTEX_WAKE_BITSET
  else if cmd =? 5 then Ok FUTEX_WAKE_OP else if cmd =? 4 then Ok FUTEX_CMP_REQUEUE
  else Err LogError.
Record futex_args_t := mkArgs { uaddr : Z; op : Z; val : Z; timeout : option Z; val2 : Z; uaddr2 : Z; val3 : Z }.

(** The values that the call reads from the simulated memory are arguments: [act_val] and
    [act_val2] of the two futexes, and the timeout as a time. *)
Definition handleFutexCall (thread_id : nat) (args : futex_args_t) (act_val act_val2 curr_time : Z) : K futex_result :=
  th ← getThreadFromID thread_id;
  kassert (bool_decide (is_Some (m_core th))) LogError;;
  cmd ← klift (decode_cmd (op args));
  let timeout_time := match timeout args with
    | Some t => if bool_decide (cmd = FUTEX_WAIT_BITSET) then t else curr_time +64 t
    | None => MaxTime
    end in
  match cmd with
  | FUTEX_WAIT => futexWait thread_id (uaddr args) (val args) act_val FUTEX_BITSET_MATCH_ANY curr_time timeout_time
  | FUTEX_WAIT_BITSET => futexWait thread_id (uaddr args) (val args) act_val (val3 args) curr_time timeout_time
  | FUTEX_WAKE | FUTEX_WAKE_BITSET =>
      '(n, e) ← futexWake thread_id (uaddr args) (val args)
                  (if bool_decide (cmd = FUTEX_WAIT_BITSET) then val3 args else FUTEX_BITSET_MATCH_ANY) curr_time;
      mret (Returned n e)
  | FUTEX_WAKE_OP => futexWakeOp thread_id (uaddr args) (uaddr2 args) (val args) (val2 args) (val3 args) act_val2 curr_time
  | FUTEX_CMP_REQUEUE =>
      kassert (negb (uaddr args =? uaddr2 args)) LogError;;
      futexCmpRequeue thread_id (uaddr args) (val args) (uaddr2 args) (val3 args) act_val curr_time
  end.

End syscalls.
