(* ===== verification/ThreadProps.v ===== *)
(** * The scheduler and the thread manager

    The calculus of the monad of [Threads], what the hooks of the barrier leave unchanged, the
    invariant that ties the scheduler to the threads and cores, and its preservation by
    rescheduling and by every operation of the thread manager. *)

From stdpp Require Import base tactics list numbers gmap sets.
From Stdlib Require Import ZArith Lia.
From S2P Require Import Prelude Utils Timing Threads.
Local Open Scope Z_scope.
Local Open Scope mach_scope.

(** ** Computations that return *)

Definition wp {A} (m : K A) (Q : A -> Sys -> Prop) (s : Sys) : Prop :=
  match m s with Ok (a, s') => Q a s' | Err _ => False end.

Section calculus.
Context {A B : Type}.
Implicit Types (m : K A) (Q : A -> Sys -> Prop) (s : Sys).

Lemma kwp_ret (a : A) Q s : Q a s -> wp (mret a) Q s.
Proof. done. Qed.
Lemma kwp_bind m (k : A -> K B) (Q : B -> Sys -> Prop) s : wp m (fun a => wp (k a) Q) s -> wp (m ≫= k) Q s.
Proof. unfold wp, mbind, K_bind. by destruct (m s) as [[a s']|]. Qed.
Lemma wp_bind_inv m (k : A -> K B) (Q : B -> Sys -> Prop) s : wp (m ≫= k) Q s -> wp m (fun a => wp (k a) Q) s.
Proof. unfold wp, mbind, K_bind. by destruct (m s) as [[a s']|]. Qed.
Lemma wp_get (f : Sys -> A) Q s : Q (f s) s -> wp (kget f) Q s.
Proof. done. Qed.
Lemma kwp_lift (r : res A) a Q s : r = Ok a -> Q a s -> wp (klift r) Q s.
Proof. by intros ->. Qed.
Lemma kwp_mono m Q (Q' : A -> Sys -> Prop) s : wp m Q s -> (forall a s', Q a s' -> Q' a s') -> wp m Q' s.
Proof. unfold wp. destruct (m s) as [[a s']|]; auto. Qed.
Lemma wp_Ok m Q s : wp m Q s -> exists a s', m s = Ok (a, s') /\ Q a s'.
Proof. unfold wp. destruct (m s) as [[a s']|]; [|done]. eauto. Qed.
End calculus.

Lemma wp_elem {A} (get : Sys -> list A) i x (Q : A -> Sys -> Prop) s : get s !! i = Some x -> Q x s -> wp (elem get i) Q s.
Proof. intros H HQ. apply kwp_bind, wp_get. eapply kwp_lift; [by apply rd_Ok|done]. Qed.
Lemma wp_upd (f : Sys -> Sys) (Q : unit -> Sys -> Prop) s : Q tt (f s) -> wp (kupd f) Q s.
Proof. done. Qed.
Lemma wp_assert b e (Q : unit -> Sys -> Prop) s : b = true -> Q tt s -> wp (kassert b e) Q s.
Proof. by intros ->. Qed.
Lemma wp_when (b : bool) m (Q : unit -> Sys -> Prop) s : (b = true -> wp m Q s) -> (b = false -> Q tt s) -> wp (kwhen b m) Q s.
Proof. destruct b; intros H1 H2; [by apply H1|by apply H2]. Qed.
Lemma kwp_modify {A} (get : Sys -> list A) set i f x (Q : unit -> Sys -> Prop) s :
  get s !! i = Some x -> Q tt (set (<[i := f x]> (get s)) s) -> wp (modify get set i f) Q s.
Proof. intros H HQ. apply kwp_bind, wp_get, kwp_bind. eapply kwp_lift; [by apply rd_Ok|]. by apply wp_upd. Qed.
(** A loop keeps an invariant of the elements that are left. *)
Lemma wp_for {X} (I : list X -> Sys -> Prop) (f : X -> K unit) l s :
  I l s -> (forall x l s, I (x :: l) s -> wp (f x) (fun _ => I l) s) -> wp (kfor f l) (fun _ => I []) s.
Proof.
  intros HI Hf. revert s HI. induction l as [|x l IH]; intros s HI; cbn [kfor]; [done|].
  apply kwp_bind. eapply kwp_mono; [by apply Hf|]. auto.
Qed.
(** A search whose test changes nothing. *)
Lemma wp_find {X} (p : X -> K bool) (q : X -> bool) l (Q : option X -> Sys -> Prop) s :
  (forall x, x ∈ l -> p x s = Ok (q x, s)) -> Q (list_find (fun x => q x = true) l ≫= fun y => Some y.2) s -> wp (kfind p l) Q s.
Proof.
  revert Q. induction l as [|x l IH]; intros Q Hp HQ; cbn [kfind]; [done|].
  apply kwp_bind. unfold wp at 1. rewrite Hp by left. cbn [list_find] in HQ. destruct (decide (q x = true)) as [E|E].
  - rewrite E. cbn in HQ. done.
  - destruct (q x); [done|]. apply IH; [intros y Hy; apply Hp; by right|].
    destruct (list_find _ l) as [[n y]|]; exact HQ.
Qed.

Lemma alter_known {A} (f : A -> A) (l : list A) i x : l !! i = Some x -> alter f i l = <[i := f x]> l.
Proof. revert i. induction l as [|y l IH]; intros [|i]; cbn; try done; [by intros [= ->]|]. intros H. f_equal. by apply IH. Qed.

(** One step of a computation. *)
Ltac step :=
  lazymatch goal with
  | |- wp (_ ≫= _) _ _ => apply kwp_bind
  | |- wp (mret _) _ _ => apply kwp_ret
  | |- wp (kget _) _ _ => apply wp_get
  | |- wp (kupd _) _ _ => apply wp_upd
  | |- wp (elem _ _) _ _ => eapply wp_elem
  | |- wp (modify _ _ _ _) _ _ => eapply kwp_modify
  end.

(** ** What the hooks of the barrier change *)

(** The core whose thread has entered the barrier and does not wait yet, because it runs the
    release; the number of host threads that may run at a time; and the number of cores. *)
Class Setting := { entering : option nat; host_cores : Z; core_count : nat }.

Section invariant.
Context {who : Setting}.

(** The cores at the end of the list of releases are signalled; a thread that moves is due at
    time 0; all else stays. *)
Definition signalled (rel : list nat) (l : list nat) : list nat := foldr (alter pred) l rel.
Record bar_frame (b b' : Barrier) : Prop := {
  bf_interval : m_barrier_interval b' = m_barrier_interval b;
  bf_next : m_next_barrier_time b' = m_next_barrier_time b;
  bf_acquired : m_barrier_acquire_list b' = m_barrier_acquire_list b;
  bf_parked : m_core_parked b' = m_core_parked b;
  bf_groups : m_core_group b' = m_core_group b;
  bf_threads : m_core_thread b' = m_core_thread b;
  bf_global : m_global_time b' = m_global_time b;
  bf_fastforward : m_fastforward b' = m_fastforward b;
  bf_disable : m_disable b' = m_disable b;
  bf_generator : generator b' = generator b;
  bf_clocks : length (m_local_clock_list b') = length (m_local_clock_list b);
  bf_clock c : m_local_clock_list b' !! c = m_local_clock_list b !! c \/
               m_barrier_acquire_list b !! c = Some true /\ m_local_clock_list b' !! c = Some 0;
  bf_release : exists rel, m_to_release b = m_to_release b' ++ rel /\ core_waits b' = signalled rel (core_waits b)
}.

#[global] Instance bar_frame_refl : Reflexive bar_frame.
Proof. intros b. split; try done; [auto|]. exists []. by rewrite app_nil_r. Qed.
#[global] Instance bar_frame_trans : Transitive bar_frame.
Proof.
  intros x y z [] []. split; try congruence.
  - intros c. destruct (bf_clock1 c) as [H|[H H']].
    + rewrite H. apply bf_clock0.
    + right. split; [congruence|done].
  - destruct bf_release0 as (r1 & E1 & W1), bf_release1 as (r2 & E2 & W2). exists (r2 ++ r1). split.
    + by rewrite E1, E2, app_assoc.
    + rewrite W2, W1. unfold signalled. by rewrite foldr_app.
Qed.

Lemma signalled_length rel l : length (signalled rel l) = length l.
Proof. induction rel; cbn; [done|]. by rewrite length_alter. Qed.
Lemma signalled_lookup rel l c : signalled rel l !! c = (fun n => n - count_occ Nat.eq_dec rel c)%nat <$> l !! c.
Proof.
  induction rel as [|x rel IH]; cbn [signalled foldr count_occ]; [destruct (l !! c); cbn; [|done]; by rewrite Nat.sub_0_r|].
  fold (signalled rel l). destruct (Nat.eq_dec x c) as [->|Hne].
  - rewrite list_lookup_alter_eq, IH. destruct (l !! c); cbn; [f_equal; lia|done].
  - rewrite list_lookup_alter_ne by done. exact IH.
Qed.

(** The host threads that wait for the condition variable of a core: the one that entered the
    barrier there, and those that are about to be released. *)
Definition inside (b : Barrier) (c : nat) : nat := if decide (m_barrier_acquire_list b !! c = Some true) then 1 else 0.
Definition queued (b : Barrier) (c : nat) : nat :=
  (inside b c + count_occ Nat.eq_dec (m_to_release b) c - if decide (entering = Some c) then 1 else 0)%nat.

(** The lists of the barrier have an element per core, and nobody waits who is not known. In
    detailed simulation a core whose clock has passed the next barrier is in the barrier. *)
Record bar_wf (n : nat) (b : Barrier) : Prop := {
  bw_clocks : length (m_local_clock_list b) = n;
  bw_acquired : length (m_barrier_acquire_list b) = n;
  bw_parked : length (m_core_parked b) = n;
  bw_waits : length (core_waits b) = n;
  bw_groups : length (m_core_group b) = n;
  bw_threads : length (m_core_thread b) = n;
  bw_release : Forall (fun c => (c < n)%nat) (m_to_release b);
  bw_queue c : (c < n)%nat -> core_waits b !! c = Some (queued b c);
  bw_entering c : entering = Some c -> m_barrier_acquire_list b !! c = Some true;
  bw_enabled : m_disable b = false;
  bw_detailed : m_fastforward b = false;
  bw_interval : 0 < m_barrier_interval b;
  bw_next : 0 < m_next_barrier_time b;
  bw_clock c t : m_local_clock_list b !! c = Some t ->
    0 <= t /\ (m_next_barrier_time b <= t -> m_barrier_acquire_list b !! c = Some true /\ t + m_barrier_interval b < 2 ^ 64);
  bw_known c : m_barrier_acquire_list b !! c = Some true -> exists t, m_core_thread b !! c = Some (Some t)
}.
Lemma bar_frame_wf n b b' : bar_frame b b' -> bar_wf n b -> bar_wf n b'.
Proof.
  intros [] []. destruct bf_release0 as (rel & E & W).
  split; rewrite ?bf_clocks0, ?bf_acquired0, ?bf_parked0, ?bf_groups0, ?bf_threads0, ?W, ?signalled_length; try done.
  - rewrite E in bw_release0. by apply Forall_app in bw_release0 as [? _].
  - intros c Hc. rewrite signalled_lookup, bw_queue0 by done. cbn. f_equal. unfold queued, inside. rewrite bf_acquired0, E, count_occ_app.
    destruct (decide (entering = Some c)) as [He|]; [|lia]. apply bw_entering0 in He. rewrite decide_True by done. lia.
  - congruence.
  - congruence.
  - by rewrite bf_interval0.
  - by rewrite bf_next0.
  - intros c t Ht. rewrite bf_next0, bf_interval0. destruct (bf_clock0 c) as [Hc|[Ha Hc]].
    + apply (bw_clock0 c). by rewrite <- Hc.
    + rewrite Hc in Ht. injection Ht as <-. split; [lia|]. lia.
Qed.

Lemma bar_frame_nil b b' : bar_frame b b' -> m_to_release b = [] -> m_to_release b' = [].
Proof. intros H E. destruct (bf_release _ _ H) as (rel & E' & _). rewrite E in E'. by destruct (m_to_release b'). Qed.

Lemma release_back_ok back n k s (Q : list nat -> Sys -> Prop) :
  Forall (fun c => (c < k)%nat) back -> length (core_waits (barrier s)) = k ->
  (forall rel rest, back = rel ++ rest ->
     Q rest (on_barrier (fun b => set_core_waits (signalled (rev rel) (core_waits b)) b) s)) ->
  wp (release_back back n) Q s.
Proof.
  revert n s. induction back as [|c back IH]; intros n s Hb Hk HQ; cbn [release_back].
  - specialize (HQ [] [] eq_refl). destruct s as [? ? ? ? ? [] ? ? ?]. apply HQ.
  - destruct (n =? 0); [specialize (HQ [] (c :: back) eq_refl); destruct s as [? ? ? ? ? [] ? ? ?]; apply HQ|].
    apply Forall_cons in Hb as [Hc Hb]. destruct (lookup_lt_is_Some_2 (core_waits (barrier s)) c) as [x Hx]; [lia|].
    step. unfold cond_signal. step; [exact Hx|]. rewrite <- (alter_known _ _ _ _ Hx). apply IH; [done|cbn; by rewrite length_alter|].
    intros rel rest E. specialize (HQ (c :: rel) rest). rewrite E in HQ. specialize (HQ eq_refl).
    cbn [rev] in HQ. destruct s as [? ? ? ? ? [] ? ? ?]. cbn in *. unfold on_barrier, signalled in *. cbn in *.
    rewrite foldr_app in HQ. exact HQ.
Qed.

(** A computation that changes only the barrier, within its frame. *)
Definition hooks {A} (m : K A) (s : Sys) : Prop :=
  wp m (fun _ s' => exists b', s' = set_barrier b' s /\ bar_frame (barrier s) b') s.

Lemma set_barrier_id s : set_barrier (barrier s) s = s.
Proof. by destruct s. Qed.

(** Some cores at the end of the list are signalled. *)
Definition let_go (rest rel : list nat) (b : Barrier) : Barrier := set_to_release rest (set_core_waits (signalled rel (core_waits b)) b).
Lemma doRelease_exact n s : bar_wf (num_cores s) (barrier s) ->
  wp (doRelease n) (fun _ s' => exists rest rel, m_to_release (barrier s) = rest ++ rel /\ s' = on_barrier (let_go rest rel) s) s.
Proof.
  intros Hw. unfold doRelease. step. step. step. eapply release_back_ok.
  - apply Forall_rev. apply (bw_release _ _ Hw).
  - apply (bw_waits _ _ Hw).
  - intros rel rest E. step. exists (rev rest), (rev rel). apply (f_equal (@rev nat)) in E. by rewrite rev_involutive, rev_app_distr in E.
Qed.
Lemma doRelease_hooks n s : bar_wf (num_cores s) (barrier s) -> hooks (doRelease n) s.
Proof.
  intros Hw. eapply kwp_mono; [by apply doRelease_exact|]. intros _ s' (rest & rel & E & ->). eexists. split; [done|].
  split; cbn; try done; [auto|]. by exists rel.
Qed.

Lemma releaseThread_hooks t s : bar_wf (num_cores s) (barrier s) -> hooks (releaseThread t) s.
Proof.
  intros Hw. unfold hooks, releaseThread. step. step. step.
  eapply kwp_mono; [eapply (wp_for (fun ids s' => Forall (fun c => (c < num_cores s)%nat) ids /\
    exists b', s' = set_barrier b' s /\ bar_frame (barrier s) b'))|].
  - split; [apply Forall_seq; unfold num_cores; lia|]. exists (barrier s). by rewrite set_barrier_id.
  - intros c ids s' [[Hc Hids]%Forall_cons (b' & -> & Hb)]. pose proof (bar_frame_wf _ _ _ Hb Hw) as Hw'.
    destruct (lookup_lt_is_Some_2 (m_barrier_acquire_list b') c) as [a Ha]; [by rewrite (bw_acquired _ _ Hw')|].
    destruct (lookup_lt_is_Some_2 (m_core_thread b') c) as [o Ho]; [by rewrite (bw_threads _ _ Hw')|].
    destruct (lookup_lt_is_Some_2 (m_local_clock_list b') c) as [x Hx]; [by rewrite (bw_clocks _ _ Hw')|].
    step. unfold getAcquired. step; [exact Ha|]. step. unfold getBarrierThread. step; [exact Ho|].
    apply wp_when.
    + intros [Ha' _]%andb_true_iff. subst a. unfold setClock. step; [exact Hx|]. split; [done|]. eexists. split; [done|].
      etransitivity; [exact Hb|]. destruct b'. cbn in *. split; cbn; try done.
      * by rewrite length_insert.
      * intros c'. destruct (decide (c = c')) as [<-|]; [|left; by rewrite list_lookup_insert_ne].
        right. split; [done|]. apply list_lookup_insert_eq. by apply lookup_lt_Some in Hx.
      * exists []. by rewrite app_nil_r.
    + intros _. split; [done|]. by exists b'.
  - intros _ s' [_ (b' & -> & Hb)]. eapply kwp_mono; [apply doRelease_hooks; by eapply bar_frame_wf|].
    intros _ s'' (b'' & -> & Hb'). exists b''. split; [done|]. by etransitivity.
Qed.

(** ** The placement of threads on cores *)

(** Threads and cores point at each other as the assignment [g] says, and a core without a
    thread is idle. *)
Record placed (g : nat -> option nat) (s : Sys) : Prop := {
  p_thread t th : threads s !! t = Some th -> m_core th = g t;
  p_core c co t : cores s !! c = Some co -> m_thread co = Some t <-> (t < length (threads s))%nat /\ g t = Some c;
  p_range t c : (t < length (threads s))%nat -> g t = Some c -> (c < num_cores s)%nat;
  p_idle c co : cores s !! c = Some co -> m_thread co = None -> m_core_state co = IDLE
}.
Definition without (t : nat) (g : nat -> option nat) (x : nat) : option nat := if decide (x = t) then None else g x.

Lemma placed_ext g g' s : (forall t, g t = g' t) -> placed g s -> placed g' s.
Proof.
  intros H []. split; [intros; rewrite <- H; eauto|intros; rewrite <- H; eauto|intros t c Ht; rewrite <- H; eauto|done].
Qed.

Lemma wp_thread t th (Q : Thread -> Sys -> Prop) s : threads s !! t = Some th -> Q th s -> wp (getThreadFromID t) Q s.
Proof.
  intros H HQ. unfold getThreadFromID. step. step. step. apply wp_assert; [|step; [exact H|done]].
  apply Nat.ltb_lt. by apply lookup_lt_Some in H.
Qed.

(** Threads and cores change, and the number of both and the threads that wait stay. *)
Record moved (s s' : Sys) : Prop := {
  mv_eq : s' = set_barrier (barrier s') (set_threads (threads s') (set_cores (cores s') s));
  mv_cores : num_cores s' = num_cores s;
  mv_waits : waits <$> threads s' = waits <$> threads s;
  mv_barrier : bar_frame (barrier s) (barrier s')
}.
Lemma mv_threads s s' : moved s s' -> length (threads s') = length (threads s).
Proof. intros H. rewrite <- (length_fmap waits (threads s')), (mv_waits _ _ H). by rewrite length_fmap. Qed.

Lemma setCore_away g t th s :
  placed g s -> threads s !! t = Some th ->
  wp (match m_core th with Some c => changeCore c (setState IDLE) | None => mret tt end;; setCore t None)
    (fun _ s' => moved s s' /\ barrier s' = barrier s /\ placed (without t g) s') s.
Proof.
  intros Hp Hth. pose proof (p_thread _ _ Hp _ _ Hth) as Hc. pose proof (lookup_lt_Some _ _ _ Hth) as Ht.
  destruct (m_core th) as [c|] eqn:Ec.
  - destruct (lookup_lt_is_Some_2 (cores s) c) as [co Hco]; [by eapply p_range|].
    step. unfold changeCore. step; [exact Hco|]. unfold setCore. step. eapply wp_thread; [exact Hth|]. rewrite Ec. step. unfold changeCore. step.
    { apply list_lookup_insert_eq. by apply lookup_lt_Some in Hco. }
    step. unfold changeThread. step; [exact Hth|]. step. split; [|split; [done|]].
    + split; cbn; [done|unfold num_cores; cbn; by rewrite !length_insert| |done].
      rewrite list_fmap_insert. apply list_insert_id. by rewrite list_lookup_fmap, Hth.
    + split; cbn.
      * intros x y. destruct (decide (x = t)) as [->|Hne].
        { rewrite list_lookup_insert_eq by done. intros [= <-]. cbn. unfold without. by rewrite decide_True. }
        rewrite list_lookup_insert_ne by done. intros Hy. unfold without. rewrite decide_False by done. by eapply p_thread.
      * intros c' co' x. rewrite length_insert. rewrite list_insert_insert_eq. destruct (decide (c = c')) as [<-|Hne].
        { rewrite list_lookup_insert_eq by (by apply lookup_lt_Some in Hco). intros [= <-]. cbn. split; [done|]. unfold without.
          intros [Hx Hg]. case_decide as Hxt; [done|]. exfalso.
          assert (m_thread co = Some x) by (eapply p_core; eauto). assert (m_thread co = Some t) by (eapply p_core; eauto). congruence. }
        rewrite list_lookup_insert_ne by done. intros Hco'. rewrite (p_core _ _ Hp _ _ _ Hco'). unfold without. case_decide as Hxt; [|done].
        subst x. split; [intros [_ E]; congruence|intros [_ ?]; done].
      * intros x c'. rewrite length_insert. unfold without, num_cores. cbn. rewrite !length_insert. case_decide; [done|]. intros. by eapply p_range.
      * intros c' co'. rewrite list_insert_insert_eq. destruct (decide (c = c')) as [<-|Hne].
        { rewrite list_lookup_insert_eq by (by apply lookup_lt_Some in Hco). by intros [= <-]. }
        rewrite list_lookup_insert_ne by done. by eapply p_idle.
  - step. step. unfold setCore. step. eapply wp_thread; [exact Hth|]. rewrite Ec. step. step. step. unfold changeThread. step; [exact Hth|]. step.
    assert (<[t := with_core None th]> (threads s) = threads s) as E.
    { apply list_insert_id. rewrite Hth. f_equal. destruct th. cbn in *. by subst. }
    split; [|split; [done|]].
    + split; cbn; [done|done|by rewrite E|done].
    + rewrite E. assert (set_threads (threads s) s = s) as -> by by destruct s. eapply placed_ext; [|exact Hp].
      intros x. unfold without. by case_decide; subst.
Qed.

Lemma moveThread_away R g t time s :
  placed g s -> bar_wf (num_cores s) (barrier s) -> (t < length (threads s))%nat ->
  wp (moveThread_with R t None time) (fun _ s' => moved s s' /\ placed (without t g) s') s.
Proof.
  intros Hp Hw Ht. destruct (lookup_lt_is_Some_2 _ _ Ht) as [th Hth]. unfold moveThread_with. step. eapply wp_thread; [exact Hth|].
  step. eapply kwp_mono; [exact (wp_bind_inv _ _ _ _ (setCore_away g t th s Hp Hth))|]. intros u s1 H1. step. eapply kwp_mono; [exact H1|].
  intros _ s2 (Hm & Hb & Hp2). cbn beta. eapply kwp_mono.
  - apply releaseThread_hooks. rewrite Hb, (mv_cores _ _ Hm). exact Hw.
  - intros _ s3 (b' & -> & Hf). cbn beta. rewrite Hb in Hf. split.
    + destruct Hm. split; cbn; try done. by rewrite mv_eq0.
    + destruct Hp2. split; cbn; done.
Qed.

(** ** The invariant of scheduling *)

Definition infos (s : Sys) : list ThreadInfo := m_thread_info (sched s).
Definition running (s : Sys) : list (option nat) := m_core_thread_running (sched s).
Definition runnable (s : Sys) : list bool := m_threads_runnable (sched s).
(** The core that the scheduler gives a thread, and the cores that it may be given. *)
Definition core_of (s : Sys) (t : nat) : option nat := infos s !! t ≫= m_core_running.
Definition mask_of (i : ThreadInfo) : bool * list bool := (m_has_affinity i, m_core_affinity i).
Definition affinity (s : Sys) (t : nat) : option (bool * list bool) := mask_of <$> infos s !! t.
Definition allowed (s : Sys) (t c : nat) : Prop := affinity s t ≫= (fun a => a.2 !! c) = Some true.
Definition can_run (s : Sys) (t : nat) : Prop := runnable s !! t = Some true.
Definition has_status (s : Sys) (t : nat) (P : ThreadState -> Prop) : Prop := exists st, thread_state s !! t = Some st /\ P st.
(** The thread stalls because it has no core. *)
Definition lacks_core (st : ThreadState) : Prop := status st = STALLED /\ stalled_reason st = Some STALL_UNSCHEDULED.
(** A thread that is scheduled, or will be: it runs, or stalls for a core. *)
Definition ready (s : Sys) (t : nat) : Prop := has_status s t (fun st => status st = RUNNING \/ lacks_core st).
(** Threads of [F] are not on the core that the scheduler gives them. *)
Definition placement (F : gset nat) (s : Sys) (t : nat) : option nat := if decide (t ∈ F) then None else core_of s t.

(** The threads of [F] have been given a core that they have not moved to yet, or have left
    their core and will not run again. *)
Record inv (F : gset nat) (s : Sys) : Prop := {
  i_running : length (running s) = num_cores s;
  i_quantum : length (m_quantum_left (sched s)) = num_cores s;
  i_states : length (thread_state s) = length (threads s);
  i_infos : (length (threads s) <= length (infos s))%nat;
  i_runnable : (length (runnable s) <= length (infos s))%nat;
  i_affinity t i : infos s !! t = Some i -> length (m_core_affinity i) = num_cores s;
  i_assigned c t : running s !! c = Some (Some t) <-> core_of s t = Some c;
  i_created t c : core_of s t = Some c -> (t < length (threads s))%nat;
  i_placed : placed (placement F s) s;
  i_flying t : t ∈ F -> can_run s t -> is_Some (core_of s t);
  i_started t : can_run s t -> (t < length (threads s))%nat;
  i_status t : can_run s t -> core_of s t = None -> ready s t;
  i_barrier : bar_wf (num_cores s) (barrier s);
  i_host : num_host_cores s = host_cores;
  i_count : num_cores s = core_count;
  i_all : Z.of_nat (num_cores s) <= host_cores -> m_to_release (barrier s) = [];
  i_dynamic mask : m_policy (sched s) <> Static mask
}.

(** What rescheduling leaves as it is. All threads but those of [X] keep the cores they have. *)
Record frame (X : gset nat) (s s' : Sys) : Prop := {
  fr_cores : num_cores s' = num_cores s;
  fr_threads : length (threads s') = length (threads s);
  fr_infos : length (infos s') = length (infos s);
  fr_affinity t : affinity s' t = affinity s t;
  fr_runnable : runnable s' = runnable s;
  fr_policy : m_policy (sched s') = m_policy (sched s);
  fr_syscalls : syscalls s' = syscalls s;
  fr_state t st : thread_state s !! t = Some st ->
    has_status s' t (fun st' => st' = st \/ lacks_core st /\ st' = set_status RUNNING st);
  fr_waits t th' : threads s' !! t = Some th' -> waits th' = true ->
    (exists th, threads s !! t = Some th /\ waits th = true) /\ thread_state s' !! t = thread_state s !! t;
  fr_keeps t c : t ∉ X -> core_of s t = Some c -> core_of s' t = Some c;
  fr_off t : ~ can_run s t -> core_of s t = None -> core_of s' t = None;
  fr_barrier : bar_frame (barrier s) (barrier s')
}.
#[global] Instance frame_refl F : Reflexive (frame F).
Proof. intros s. split; try done; [intros; eexists; eauto|eauto]. Qed.
#[global] Instance frame_trans F : Transitive (frame F).
Proof.
  intros x y z Hxy Hyz. split.
  - by rewrite (fr_cores _ _ _ Hyz), (fr_cores _ _ _ Hxy).
  - by rewrite (fr_threads _ _ _ Hyz), (fr_threads _ _ _ Hxy).
  - by rewrite (fr_infos _ _ _ Hyz), (fr_infos _ _ _ Hxy).
  - intros t. by rewrite (fr_affinity _ _ _ Hyz), (fr_affinity _ _ _ Hxy).
  - by rewrite (fr_runnable _ _ _ Hyz), (fr_runnable _ _ _ Hxy).
  - by rewrite (fr_policy _ _ _ Hyz), (fr_policy _ _ _ Hxy).
  - by rewrite (fr_syscalls _ _ _ Hyz), (fr_syscalls _ _ _ Hxy).
  - intros t st Hst. destruct (fr_state _ _ _ Hxy _ _ Hst) as (st1 & H1 & [->|[Hl ->]]).
    + by apply (fr_state _ _ _ Hyz).
    + destruct (fr_state _ _ _ Hyz _ _ H1) as (st2 & H2 & [->|[[Hs _] _]]); [|done]. exists (set_status RUNNING st). auto.
  - intros t th' Ht Hw. destruct (fr_waits _ _ _ Hyz _ _ Ht Hw) as [(th & Hth & Hw1) E]. rewrite E. by eapply fr_waits.
  - intros t c Ht Hc. apply (fr_keeps _ _ _ Hyz); [done|]. by apply (fr_keeps _ _ _ Hxy).
  - intros t Ht Hc. apply (fr_off _ _ _ Hyz); [|by apply (fr_off _ _ _ Hxy)]. unfold can_run. by rewrite (fr_runnable _ _ _ Hxy).
  - by rewrite (fr_barrier _ _ _ Hxy), (fr_barrier _ _ _ Hyz).
Qed.
Lemma frame_mono X X' s s' : X ⊆ X' -> frame X s s' -> frame X' s s'.
Proof. intros H []. split; auto. Qed.
Lemma frame_allowed F s s' t c : frame F s s' -> allowed s' t c <-> allowed s t c.
Proof. intros H. unfold allowed. by rewrite (fr_affinity _ _ _ H). Qed.
Lemma frame_can_run F s s' t : frame F s s' -> can_run s' t <-> can_run s t.
Proof. intros H. unfold can_run. by rewrite (fr_runnable _ _ _ H). Qed.

(** Cores whose thread is not known. *)
Definition is_free (o : option nat) : Prop := o = None.
#[global] Instance is_free_dec o : Decision (is_free o).
Proof. unfold is_free. apply _. Defined.
Definition free_cores (s : Sys) : nat := length (filter is_free (running s)).

Definition thread_set (o : option nat) : gset nat := match o with Some t => {[t]} | None => ∅ end.
Lemma elem_thread_set t o : t ∈ thread_set o <-> o = Some t.
Proof. destruct o as [x|]; cbn; [rewrite elem_of_singleton; naive_solver|set_solver]. Qed.

(** The assignment of the scheduler after a switch of core [c]. *)
Definition switched (c : nat) (old new : option nat) (s : Sys) (t : nat) : option nat :=
  if decide (new = Some t) then Some c else if decide (old = Some t) then None else core_of s t.
(** The state in which the threads of a switch are assigned, the old one is off the core, and
    the new one is not on it yet. *)
Record switching (c : nat) (old new : option nat) (s s' : Sys) : Prop := {
  sw_running : running s' = <[c := new]> (running s);
  sw_core_of t : core_of s' t = switched c old new s t;
  sw_infos : length (infos s') = length (infos s);
  sw_affinity t : affinity s' t = affinity s t;
  sw_runnable : runnable s' = runnable s;
  sw_policy : m_policy (sched s') = m_policy (sched s);
  sw_quantum : length (m_quantum_left (sched s')) = length (m_quantum_left (sched s));
  sw_cores : num_cores s' = num_cores s;
  sw_waits : waits <$> threads s' = waits <$> threads s;
  sw_states : thread_state s' = thread_state s;
  sw_syscalls : syscalls s' = syscalls s;
  sw_barrier : bar_frame (barrier s) (barrier s');
  sw_host : num_host_cores s' = num_host_cores s
}.
Lemma sw_threads c old new s s' : switching c old new s s' -> length (threads s') = length (threads s).
Proof. intros H. rewrite <- (length_fmap waits (threads s')), (sw_waits _ _ _ _ _ H). by rewrite length_fmap. Qed.

(** A thread that may be scheduled on a core that it is not on. *)
Record schedulable (s : Sys) (t : nat) : Prop := { sd_run : can_run s t; sd_core : core_of s t = None }.

(** The thread of the core may be taken off it: it does not run any more, or is on the core
    and ready. *)
Definition settles (F : gset nat) (old : option nat) (s : Sys) : Prop :=
  forall t, old = Some t -> can_run s t -> (t ∉ F) /\ ready s t.

Lemma inv_switch F c old new s s' :
  inv F s -> running s !! c = Some old -> switching c old new s s' ->
  (forall t, new = Some t -> (t < length (threads s))%nat /\ core_of s t = None) ->
  settles F old s ->
  placed (match old with Some t => without t (placement F s) | None => placement F s end) s' ->
  inv (F ∪ thread_set new) s'.
Proof.
  intros Hi Hold Hs Hnew HF Hp. pose proof (sw_threads _ _ _ _ _ Hs) as Ht.
  assert (Hc : (c < length (running s))%nat) by by apply lookup_lt_Some in Hold.
  assert (Hown : forall t, old = Some t <-> core_of s t = Some c).
  { intros t. rewrite <- (i_assigned _ _ Hi). rewrite Hold. split; [by intros ->|by intros [= ->]]. }
  split.
  - by rewrite (sw_running _ _ _ _ _ Hs), length_insert, (sw_cores _ _ _ _ _ Hs), (i_running _ _ Hi).
  - by rewrite (sw_quantum _ _ _ _ _ Hs), (sw_cores _ _ _ _ _ Hs), (i_quantum _ _ Hi).
  - by rewrite (sw_states _ _ _ _ _ Hs), Ht, (i_states _ _ Hi).
  - rewrite (sw_infos _ _ _ _ _ Hs), Ht. apply (i_infos _ _ Hi).
  - rewrite (sw_infos _ _ _ _ _ Hs), (sw_runnable _ _ _ _ _ Hs). apply (i_runnable _ _ Hi).
  - intros t i Hti. rewrite (sw_cores _ _ _ _ _ Hs). pose proof (sw_affinity _ _ _ _ _ Hs t) as E. unfold affinity in E. rewrite Hti in E.
    destruct (infos s !! t) as [j|] eqn:Ej; [|done]. injection E as _ E. rewrite E. by apply (i_affinity _ _ Hi t).
  - intros c' t. rewrite (sw_running _ _ _ _ _ Hs), (sw_core_of _ _ _ _ _ Hs). unfold switched. destruct (decide (c' = c)) as [->|Hne].
    + rewrite list_lookup_insert_eq by done. case_decide as E1; [naive_solver|]. case_decide as E2; [naive_solver|].
      rewrite <- Hown. naive_solver.
    + rewrite list_lookup_insert_ne by done. rewrite (i_assigned _ _ Hi). case_decide as E1.
      { destruct (Hnew _ E1). split; congruence. }
      case_decide as E2; [|done]. apply Hown in E2. split; congruence.
  - intros t c'. rewrite (sw_core_of _ _ _ _ _ Hs), Ht. unfold switched. case_decide as E1.
    + intros _. by destruct (Hnew _ E1).
    + case_decide; [done|]. apply (i_created _ _ Hi).
  - eapply placed_ext; [|exact Hp]. intros t.
    change (placement (F ∪ thread_set new) s' t) with (if decide (t ∈ F ∪ thread_set new) then None else core_of s' t).
    rewrite (sw_core_of _ _ _ _ _ Hs). unfold switched.
    assert (E : match old with Some t => without t (placement F s) | None => placement F s end t =
                if decide (old = Some t) then None else placement F s t).
    { destruct old as [x|]; [|done]. unfold without. do 2 case_decide; congruence. }
    rewrite E. unfold placement. destruct (decide (t ∈ F ∪ thread_set new)) as [Hin|Hin]; rewrite elem_of_union, elem_thread_set in Hin.
    + case_decide; [done|]. destruct (decide (t ∈ F)); [done|]. destruct Hin as [|Hin]; [done|]. by destruct (Hnew _ Hin).
    + rewrite (decide_False (P := new = _)) by tauto. rewrite (decide_False (P := t ∈ F)) by tauto. done.
  - intros t Ht' Hr. rewrite (sw_core_of _ _ _ _ _ Hs). unfold can_run in Hr. rewrite (sw_runnable _ _ _ _ _ Hs) in Hr. unfold switched.
    case_decide as E1; [done|]. case_decide as E2.
    + apply elem_of_union in Ht' as [Hf|Hf]; [by destruct (HF _ E2 Hr)|]. by rewrite elem_thread_set in Hf.
    + apply (i_flying _ _ Hi); [|done]. apply elem_of_union in Ht' as [Hf|Hf]; [done|]. by rewrite elem_thread_set in Hf.
  - intros t. unfold can_run. rewrite (sw_runnable _ _ _ _ _ Hs), Ht. apply (i_started _ _ Hi).
  - intros t. unfold can_run, ready, has_status. rewrite (sw_runnable _ _ _ _ _ Hs), (sw_states _ _ _ _ _ Hs), (sw_core_of _ _ _ _ _ Hs).
    unfold switched. case_decide as E1; [done|]. case_decide as E2; [|apply (i_status _ _ Hi)]. intros Hr _. by apply (HF t).
  - rewrite (sw_cores _ _ _ _ _ Hs). eapply bar_frame_wf; [by eapply sw_barrier|]. apply (i_barrier _ _ Hi).
  - rewrite (sw_host _ _ _ _ _ Hs). apply (i_host _ _ Hi).
  - rewrite (sw_cores _ _ _ _ _ Hs). apply (i_count _ _ Hi).
  - rewrite (sw_cores _ _ _ _ _ Hs). intros Hle. eapply bar_frame_nil; [by eapply sw_barrier|]. by apply (i_all _ _ Hi).
  - intros mask. rewrite (sw_policy _ _ _ _ _ Hs). apply (i_dynamic _ _ Hi).
Qed.

Definition onto (t c : nat) (g : nat -> option nat) (x : nat) : option nat := if decide (x = t) then Some c else g x.
Lemma setCore_onto g t c s :
  placed g s -> (t < length (threads s))%nat -> g t = None -> (c < num_cores s)%nat ->
  (forall x, (x < length (threads s))%nat -> g x <> Some c) ->
  wp (setCore t (Some c)) (fun _ s' => moved s s' /\ barrier s' = barrier s /\ placed (onto t c g) s') s.
Proof.
  intros Hp Ht Hg Hc Hfree. destruct (lookup_lt_is_Some_2 _ _ Ht) as [th Hth]. destruct (lookup_lt_is_Some_2 (cores s) c Hc) as [co Hco].
  assert (Hn : m_thread co = None).
  { destruct (m_thread co) as [x|] eqn:E; [|done]. apply (p_core _ _ Hp _ _ _ Hco) in E as [? ?]. by destruct (Hfree x). }
  unfold setCore. step. eapply wp_thread; [exact Hth|]. rewrite (p_thread _ _ Hp _ _ Hth), Hg. step. step. step. unfold changeThread.
  step; [exact Hth|]. step. unfold getCore. step; [exact Hco|]. step. apply wp_assert; [by rewrite bool_decide_eq_true|].
  unfold changeCore. step; [exact Hco|]. cbn. split; [|split; [done|]].
  - split; cbn; [done|unfold num_cores; cbn; by rewrite length_insert| |done].
    rewrite list_fmap_insert. apply list_insert_id. by rewrite list_lookup_fmap, Hth.
  - split; cbn.
    + intros x y. unfold onto. destruct (decide (x = t)) as [->|Hne].
      * rewrite list_lookup_insert_eq by done. by intros [= <-].
      * rewrite list_lookup_insert_ne by done. by eapply p_thread.
    + intros c' co' x. rewrite length_insert. unfold onto. destruct (decide (c' = c)) as [->|Hne].
      * rewrite list_lookup_insert_eq by done. intros [= <-]. cbn. case_decide as E; [subst; naive_solver|].
        split; [naive_solver|]. intros [Hx Hgx]. by destruct (Hfree x).
      * rewrite list_lookup_insert_ne by done. intros Hco'. rewrite (p_core _ _ Hp _ _ _ Hco'). case_decide; [subst|done].
        rewrite Hg. naive_solver.
    + intros x c'. rewrite length_insert. unfold onto, num_cores. cbn. rewrite length_insert. case_decide; [by intros _ [= <-]|].
      intros. by eapply p_range.
    + intros c' co'. destruct (decide (c' = c)) as [->|Hne].
      * rewrite list_lookup_insert_eq by done. by intros [= <-].
      * rewrite list_lookup_insert_ne by done. by eapply p_idle.
Qed.

Lemma setState_placed g c x s :
  placed g s -> (exists t, (t < length (threads s))%nat /\ g t = Some c) ->
  wp (changeCore c (setState x)) (fun _ s' => moved s s' /\ barrier s' = barrier s /\ placed g s') s.
Proof.
  intros Hp (t & Ht & Hg). destruct (lookup_lt_is_Some_2 (cores s) c) as [co Hco]; [by eapply p_range|].
  assert (Hn : m_thread co = Some t) by by apply (p_core _ _ Hp _ _ _ Hco).
  unfold changeCore. step; [exact Hco|]. split; [|split; [done|]].
  - split; cbn; [by destruct s|unfold num_cores; cbn; by rewrite length_insert|done|done].
  - pose proof (lookup_lt_Some _ _ _ Hco). split; cbn.
    + apply (p_thread _ _ Hp).
    + intros c' co' y. destruct (decide (c' = c)) as [->|Hne].
      * rewrite list_lookup_insert_eq by done. intros [= <-]. cbn. by apply (p_core _ _ Hp).
      * rewrite list_lookup_insert_ne by done. apply (p_core _ _ Hp).
    + intros y c' Hy. unfold num_cores. cbn. rewrite length_insert. by apply (p_range _ _ Hp).
    + intros c' co'. destruct (decide (c' = c)) as [->|Hne].
      * rewrite list_lookup_insert_eq by done. intros [= <-]. cbn. by rewrite Hn.
      * rewrite list_lookup_insert_ne by done. apply (p_idle _ _ Hp).
Qed.

(** Moves of threads keep the scheduler's part of the invariant. *)
Lemma inv_moved F F' s s' :
  inv F s -> moved s s' -> placed (placement F' s) s' -> (forall t, t ∈ F' -> can_run s t -> is_Some (core_of s t)) -> inv F' s'.
Proof.
  intros Hi Hm Hp HF. pose proof (mv_threads _ _ Hm) as Ht. pose proof (mv_cores _ _ Hm) as Hc. pose proof (mv_barrier _ _ Hm) as Hb.
  destruct Hm as [E _ Hw _]. revert Ht Hc Hb Hp. rewrite E. cbn. intros Ht Hc Hb Hp. destruct Hi. split; cbn; try done.
  - by rewrite Hc.
  - by rewrite Hc.
  - by rewrite Ht.
  - by rewrite Ht.
  - by rewrite Hc.
  - by rewrite Ht.
  - by rewrite Ht.
  - rewrite Hc. by eapply bar_frame_wf.
  - by rewrite Hc.
  - rewrite Hc. intros Hle. eapply bar_frame_nil; [exact Hb|]. by apply i_all0.
Qed.
Lemma moved_frame F s s' : moved s s' -> frame F s s'.
Proof.
  intros Hm. pose proof (mv_threads _ _ Hm) as Ht. destruct Hm as [E Hc Hw Hb]. split; try done; try (by rewrite E).
  - intros t st Hst. rewrite E. exists st. auto.
  - intros t th' Hth Hw'. rewrite E. split; [|done]. apply (f_equal (.!! t)) in Hw. rewrite !list_lookup_fmap, Hth in Hw. cbn in Hw.
    destruct (threads s !! t) as [th|]; [|done]. exists th. split; [done|]. cbn in Hw. congruence.
Qed.
#[global] Instance moved_trans : Transitive moved.
Proof.
  intros x y z Hxy Hyz. split.
  - rewrite (mv_eq _ _ Hyz). rewrite (mv_eq _ _ Hxy). done.
  - by rewrite (mv_cores _ _ Hyz), (mv_cores _ _ Hxy).
  - by rewrite (mv_waits _ _ Hyz), (mv_waits _ _ Hxy).
  - by rewrite (mv_barrier _ _ Hxy), (mv_barrier _ _ Hyz).
Qed.

(** ** Work conservation *)

Definition waiting (s : Sys) (t c : nat) : Prop := can_run s t /\ core_of s t = None /\ allowed s t c.
(** No core but those of [X] is free while a thread waits for it. *)
Definition conserving (X : gset nat) (s : Sys) : Prop :=
  forall t c, waiting s t c -> c ∉ X -> exists t', running s !! c = Some (Some t').
Definition is_pinned (p : Policy) : Prop := match p with Pinned _ _ _ => True | _ => False end.
(** With the pinned scheduler, every thread has one core that it may use, and uses no other. *)
Record pinned (s : Sys) : Prop := {
  pn_one t c c' : allowed s t c -> allowed s t c' -> c = c';
  pn_core t c : core_of s t = Some c -> allowed s t c;
  pn_policy : is_pinned (m_policy (sched s))
}.
Definition keeps_busy (X : gset nat) (s s' : Sys) : Prop :=
  pinned s -> conserving X s -> pinned s' /\ conserving ∅ s'.
Lemma keeps_busy_sched s s' : sched s' = sched s -> keeps_busy ∅ s s'.
Proof.
  intros E Hp Hc. split.
  - destruct Hp. unfold core_of, allowed, affinity, infos in *. split; unfold core_of, allowed, affinity, infos; by rewrite E.
  - intros t c. unfold waiting, can_run, core_of, allowed, affinity, infos, running, runnable. rewrite E. apply Hc.
Qed.
Lemma keeps_busy_trans X s s' s'' : keeps_busy X s s' -> keeps_busy ∅ s' s'' -> keeps_busy X s s''.
Proof. intros H1 H2 Hp Hc. destruct (H1 Hp Hc). by apply H2. Qed.

(** ** Threads that resume *)

Lemma wp_findFree F t s (Q : option nat -> Sys -> Prop) :
  inv F s -> (t < length (infos s))%nat ->
  (forall o, match o with
             | Some c => running s !! c = Some None /\ allowed s t c
             | None => forall c, allowed s t c -> exists t', running s !! c = Some (Some t')
             end -> Q o s) ->
  wp (findFreeCoreForThread t) Q s.
Proof.
  intros Hi Ht HQ. destruct (lookup_lt_is_Some_2 _ _ Ht) as [i Hti]. unfold findFreeCoreForThread. step. step.
  assert (Ha : length (m_core_affinity i) = num_cores s) by by eapply i_affinity.
  set (q := fun c => match m_core_affinity i !! c, running s !! c with Some true, Some None => true | _, _ => false end).
  eapply (wp_find _ q).
  - intros c [_ Hc]%elem_of_seq. cbn in Hc. destruct (lookup_lt_is_Some_2 (m_core_affinity i) c) as [a Hac]; [by rewrite Ha|].
    destruct (lookup_lt_is_Some_2 (running s) c) as [o Ho]; [by rewrite (i_running _ _ Hi)|].
    unfold q. rewrite Hac, Ho. unfold getInfo, elem, kget, klift, mbind, K_bind, rd, hasAffinity. fold (infos s). rewrite Hti. unfold rd. rewrite Hac.
    destruct a; [|done]. unfold getCoreThread, elem, kget, klift, mbind, K_bind, rd. fold (running s). rewrite Ho. by destruct o.
  - apply HQ. destruct (list_find (fun x => q x = true) (core_ids s)) as [[n c]|] eqn:E; cbn.
    + apply list_find_Some in E as (_ & Hq & _). unfold q in Hq. unfold allowed, affinity. rewrite Hti. cbn.
      destruct (m_core_affinity i !! c) as [[]|]; try done. by destruct (running s !! c) as [[]|].
    + apply list_find_None in E. rewrite Forall_forall in E. intros c Hc. unfold allowed, affinity in Hc. rewrite Hti in Hc. cbn in Hc.
      assert (c ∈ core_ids s) as Hin.
      { apply elem_of_seq. split; [lia|]. cbn. fold (num_cores s). rewrite <- Ha. by apply lookup_lt_Some in Hc. }
      specialize (E c Hin). unfold q in E. rewrite Hc in E.
      destruct (lookup_lt_is_Some_2 (running s) c) as [o Ho]; [rewrite (i_running _ _ Hi); apply elem_of_seq in Hin; cbn in Hin; unfold num_cores; lia|].
      rewrite Ho in E. destruct o; [eauto|done].
Qed.

(** What a rescheduling of a free core is expected to do, when [n] cores are free. *)
Definition reschedules (R : Z -> nat -> K unit) (n : nat) : Prop :=
  forall F time c s, inv F s -> running s !! c = Some None -> (free_cores s <= n)%nat ->
    wp (R time c) (fun _ s' => inv F s' /\ frame ∅ s s' /\ keeps_busy {[c]} s s') s.

(** The states of threads change, and the threads that start to run are signalled. *)
Lemma inv_signal F t th st time msg s :
  inv F s -> threads s !! t = Some th -> thread_state s !! t = Some st ->
  let s' := set_tstates (<[t := set_status RUNNING st]> (thread_state s)) (set_threads (<[t := signal time msg th]> (threads s)) s) in
  inv F s'.
Proof.
  intros Hi Hth Hst s'. pose proof (lookup_lt_Some _ _ _ Hth). pose proof (lookup_lt_Some _ _ _ Hst).
  destruct Hi. split; cbn; rewrite ?length_insert; try done.
  - destruct i_placed0. split; cbn; rewrite ?length_insert; try done.
    intros x y. destruct (decide (x = t)) as [->|Hne].
    + rewrite list_lookup_insert_eq by done. intros [= <-]. by apply p_thread0 in Hth.
    + rewrite list_lookup_insert_ne by done. apply p_thread0.
  - intros x Hx Hn. unfold ready, has_status. cbn. destruct (decide (x = t)) as [->|Hne].
    + rewrite list_lookup_insert_eq by done. eexists. split; [done|]. by left.
    + rewrite list_lookup_insert_ne by done. by apply i_status0.
Qed.
Lemma frame_signal F t th st time msg s :
  threads s !! t = Some th -> thread_state s !! t = Some st -> lacks_core st ->
  let s' := set_tstates (<[t := set_status RUNNING st]> (thread_state s)) (set_threads (<[t := signal time msg th]> (threads s)) s) in
  frame F s s'.
Proof.
  intros Hth Hst Hl s'. pose proof (lookup_lt_Some _ _ _ Hth). pose proof (lookup_lt_Some _ _ _ Hst).
  split; cbn; rewrite ?length_insert; try done.
  - intros x y Hy. unfold has_status. cbn. destruct (decide (x = t)) as [->|Hne].
    + rewrite list_lookup_insert_eq by done. eexists. split; [done|]. right. rewrite Hst in Hy. injection Hy as <-. done.
    + rewrite list_lookup_insert_ne by done. eauto.
  - intros x y. destruct (decide (x = t)) as [->|Hne].
    + rewrite list_lookup_insert_eq by done. by intros [= <-].
    + rewrite !list_lookup_insert_ne by done. eauto.
Qed.

Lemma wp_dynamic F m (Q : unit -> Sys -> Prop) s : inv F s -> wp m Q s -> wp (dynamic m) Q s.
Proof.
  intros Hi H. unfold dynamic. step. step. destruct (m_policy (sched s)) eqn:E; try done. by destruct (i_dynamic _ _ Hi core_mask).
Qed.


(** The state in which a thread has been resumed and nobody has been rescheduled yet. *)
Definition resumed (t : nat) (time : Z) (msg : bool) (s : Sys) : Sys :=
  on_sched (fun x => set_runnable (<[t := true]> (m_threads_runnable x)) x)
    (set_tstates (alter (set_status RUNNING) t (thread_state s)) (set_threads (alter (signal time msg) t (threads s)) s)).

Lemma inv_runnable F t b s :
  inv F s -> (t ∈ F -> is_Some (core_of s t)) ->
  (b = true -> ready s t) ->
  inv F (on_sched (fun x => set_runnable (<[t := b]> (m_threads_runnable x)) x) s).
Proof.
  intros Hi HF Hst. assert (Hr : forall x, (<[t := b]> (m_threads_runnable (sched s)) : list bool) !! x = Some true ->
    (x = t /\ b = true) \/ can_run s x).
  { intros x Hx. destruct (decide (x = t)) as [->|Hne]; [|right; by rewrite list_lookup_insert_ne in Hx].
    apply list_lookup_insert_Some in Hx as [(_ & -> & _)|[? _]]; [auto|done]. }
  destruct Hi. split; cbn; try done.
  - unfold runnable in *. cbn. by rewrite length_insert.
  - destruct i_placed0. by split.
  - intros x Hx [[-> _]|Hc]%Hr; eauto.
  - intros x [[-> Hb]|Hc]%Hr; [|by apply i_started0].
    destruct (Hst Hb) as (st & E & _). rewrite <- i_states0. by apply lookup_lt_Some in E.
  - intros x [[-> Hb]|Hc]%Hr Hn; [apply (Hst Hb)|by apply i_status0].
Qed.

Lemma resume_ok R n F t time msg s :
  reschedules R n -> inv F s -> (t < length (threads s))%nat -> (t < length (runnable s))%nat -> (free_cores s <= n)%nat ->
  (t ∈ F -> is_Some (core_of s t)) ->
  wp (resumeThread_with R t time msg) (fun _ s' => inv F s' /\ frame ∅ (resumed t time msg s) s' /\
    (pinned s -> (forall t' c, t' <> t -> waiting s t' c -> exists x, running s !! c = Some (Some x)) -> pinned s' /\ conserving ∅ s')) s.
Proof.
  intros HR Hi Ht Hr Hn HF. destruct (lookup_lt_is_Some_2 _ _ Ht) as [th Hth].
  destruct (lookup_lt_is_Some_2 (thread_state s) t) as [st Hst]; [by rewrite (i_states _ _ Hi)|].
  destruct (lookup_lt_is_Some_2 _ _ Hr) as [r Hrt].
  unfold resumeThread_with. step. eapply wp_thread; [exact Hth|]. step. unfold changeThread. step; [exact Hth|].
  unfold resumeThread_async_with. step. unfold changeTState. step; [exact Hst|].
  pose proof (inv_signal F t th st time msg s Hi Hth Hst) as Hi1. cbn in Hi1. eapply wp_dynamic; [exact Hi1|].
  unfold threadResume_with. step. unfold setRunnable. step; [exact Hrt|].
  assert (Hi2 : inv F (resumed t time msg s)).
  { unfold resumed. rewrite (alter_known _ _ _ _ Hth), (alter_known _ _ _ _ Hst). eapply inv_runnable; [exact Hi1|done|].
    intros _. eexists. split; [apply list_lookup_insert_eq; by apply lookup_lt_Some in Hst|]. by left. }
  match goal with |- wp _ _ ?x => assert (x = resumed t time msg s) as -> end.
  { unfold resumed. by rewrite (alter_known _ _ _ _ Hth), (alter_known _ _ _ _ Hst). }
  step. eapply wp_findFree; [exact Hi2|cbn; pose proof (i_infos _ _ Hi); unfold infos in *; cbn; lia|].
  assert (HW : pinned s -> pinned (resumed t time msg s)).
  { intros []. by split. }
  assert (Hwait : forall t' c, waiting (resumed t time msg s) t' c -> t' = t \/ waiting s t' c).
  { intros t' c (H1 & H2 & H3). destruct (decide (t' = t)) as [->|Hne]; [by left|right]. split; [|by split].
    unfold can_run, runnable in *. cbn in H1. by rewrite list_lookup_insert_ne in H1. }
  intros [c|] Ho.
  - destruct Ho as [Hc Ha]. eapply kwp_mono; [by apply HR|]. intros _ s' (H1 & H2 & H3). split_and!; [done|done|].
    intros Hp Hw. apply H3; [by apply HW|]. intros t' c' Hw' Hne. apply Hwait in Hw' as Hw''. destruct Hw'' as [->|Hw''].
    + destruct Hne. apply elem_of_singleton. destruct Hw' as (_ & _ & Ha'). eapply (pn_one _ (HW Hp)); eauto.
    + destruct (decide (t' = t)) as [->|]; [|by apply (Hw t')].
      destruct Hne. apply elem_of_singleton. destruct Hw' as (_ & _ & Ha'). eapply (pn_one _ (HW Hp)); eauto.
  - step. split_and!; [done|done|]. intros Hp Hw. split; [by apply HW|]. intros t' c' Hw' _. apply Hwait in Hw' as Hw''.
    destruct (decide (t' = t)) as [->|]; [destruct Hw' as (_ & _ & Ha'); by apply Ho|].
    destruct Hw'' as [->|Hw'']; [done|]. by apply (Hw t').
Qed.

Lemma frame_resumed F t time msg th st s :
  threads s !! t = Some th -> thread_state s !! t = Some st -> lacks_core st -> can_run s t ->
  frame F s (resumed t time msg s) /\ sched (resumed t time msg s) = sched s.
Proof.
  intros Hth Hst Hl Hr. assert (E : sched (resumed t time msg s) = sched s).
  { unfold can_run, runnable in Hr. cbn. rewrite (list_insert_id _ _ _ Hr). by destruct (sched s). }
  split; [|done]. etransitivity; [by apply (frame_signal F t th st time msg)|].
  assert (resumed t time msg s = set_tstates (<[t:=set_status RUNNING st]> (thread_state s)) (set_threads (<[t:=signal time msg th]> (threads s)) s)) as ->;
    [|done].
  unfold resumed. rewrite (alter_known _ _ _ _ Hth), (alter_known _ _ _ _ Hst). unfold on_sched, set_sched. cbn.
  cbn in E. rewrite E. by destruct s.
Qed.

Lemma has_status_frame F s s' t : frame F s s' -> has_status s t (fun st => status st = RUNNING) -> has_status s' t (fun st => status st = RUNNING).
Proof. intros Hf (st & Hst & E). destruct (fr_state _ _ _ Hf _ _ Hst) as (st' & Hst' & [->|[_ ->]]); by eexists. Qed.

Lemma keeps_busy_moved s s' : moved s s' -> keeps_busy ∅ s s'.
Proof. intros H. apply keeps_busy_sched. by rewrite (mv_eq _ _ H). Qed.

(** A thread takes the core it has been given. *)
Lemma take_core F t c s :
  inv (F ∪ {[t]}) s -> t ∉ F -> core_of s t = Some c -> has_status s t (fun st => status st = RUNNING) ->
  wp (setCore t (Some c);; st ← getTState t; kwhen (negb (bool_decide (status st = STALLED))) (changeCore c (setState RUNNING));;
      releaseThread t) (fun _ s' => inv F s' /\ moved s s') s.
Proof.
  intros Hi Ht Hc (st & Hst & Hrun). pose proof (i_created _ _ Hi _ _ Hc) as Hlt. pose proof (i_placed _ _ Hi) as Hp.
  assert (Hcc : (c < num_cores s)%nat). { rewrite <- (i_running _ _ Hi). apply (i_assigned _ _ Hi) in Hc. by apply lookup_lt_Some in Hc. }
  step. eapply kwp_mono; [eapply (setCore_onto (placement (F ∪ {[t]}) s)); try done|].
  { unfold placement. rewrite decide_True by set_solver. done. }
  { intros x Hx. unfold placement. case_decide as E; [done|]. intros Hxc. apply (i_assigned _ _ Hi) in Hxc, Hc. rewrite Hc in Hxc.
    injection Hxc as ->. set_solver. }
  intros _ s1 (Hm1 & Hb1 & Hp1). assert (Hst1 : thread_state s1 !! t = Some st) by by rewrite (mv_eq _ _ Hm1).
  step. unfold getTState. step; [exact Hst1|]. step. rewrite Hrun. cbn [bool_decide decide decide_rel State_eq_dec negb kwhen].
  eapply kwp_mono; [eapply setState_placed; [exact Hp1|exists t; rewrite (mv_threads _ _ Hm1); unfold onto; by rewrite decide_True]|].
  intros _ s2 (Hm2 & Hb2 & Hp2). pose proof (transitivity Hm1 Hm2 : moved s s2) as Hm.
  eapply kwp_mono; [apply releaseThread_hooks; rewrite Hb2, Hb1, (mv_cores _ _ Hm); apply (i_barrier _ _ Hi)|].
  intros _ s3 (b' & -> & Hf). cbn beta.
  assert (Hm3 : moved s (set_barrier b' s2)).
  { rewrite Hb2, Hb1 in Hf. destruct Hm. split; cbn; try done. by rewrite mv_eq0. }
  split; [|done]. eapply inv_moved; [exact Hi|done| |].
  - assert (placed (onto t c (placement (F ∪ {[t]}) s)) (set_barrier b' s2)) as Hp3 by (destruct Hp2; split; done).
    eapply placed_ext; [|exact Hp3]. intros x. unfold onto, placement. case_decide as E.
    + subst x. by rewrite decide_False.
    + destruct (decide (x ∈ F)); [rewrite decide_True by set_solver|rewrite decide_False by set_solver]; done.
  - intros x Hx. apply (i_flying _ _ Hi). set_solver.
Qed.

Lemma move_onto R n F t c time s :
  reschedules R n -> inv (F ∪ {[t]}) s -> t ∉ F -> core_of s t = Some c -> can_run s t -> ready s t -> (free_cores s <= n)%nat ->
  wp (moveThread_with R t (Some c) time) (fun _ s' => inv F s' /\ frame ∅ s s' /\ keeps_busy ∅ s s') s.
Proof.
  intros HR Hi Ht Hc Hrun (st & Hst & Hs) Hn. pose proof (i_created _ _ Hi _ _ Hc) as Hlt. destruct (lookup_lt_is_Some_2 _ _ Hlt) as [th Hth].
  assert (Hnone : m_core th = None).
  { rewrite (p_thread _ _ (i_placed _ _ Hi) _ _ Hth). unfold placement. by rewrite decide_True by set_solver. }
  unfold moveThread_with. step. eapply wp_thread; [exact Hth|]. rewrite Hnone. step. step. step. step. unfold getTState. step; [exact Hst|]. step.
  assert (Hend : forall s2, inv (F ∪ {[t]}) s2 -> frame ∅ s s2 -> keeps_busy ∅ s s2 -> has_status s2 t (fun st => status st = RUNNING) ->
    wp (setCore t (Some c);; st ← getTState t; kwhen (negb (bool_decide (status st = STALLED))) (changeCore c (setState RUNNING)))
      (fun _ => wp (releaseThread t) (fun _ s' => inv F s' /\ frame ∅ s s' /\ keeps_busy ∅ s s')) s2).
  { intros s2 Hi2 Hf2 Hk2 Hr2. assert (Hc2 : core_of s2 t = Some c) by (apply (fr_keeps _ _ _ Hf2); [set_solver|done]).
    pose proof (take_core F t c s2 Hi2 Ht Hc2 Hr2) as H. apply kwp_bind. apply wp_bind_inv in H. eapply kwp_mono; [exact H|].
    intros u s3 H3. apply kwp_bind. apply wp_bind_inv in H3. eapply kwp_mono; [exact H3|]. intros st' s4 H4. apply wp_bind_inv in H4.
    eapply kwp_mono; [exact H4|]. intros u' s5 H5. eapply kwp_mono; [exact H5|]. intros u'' s6 [H6 H7]. split_and!; [done| |].
    - etransitivity; [exact Hf2|by apply moved_frame].
    - eapply keeps_busy_trans; [exact Hk2|by apply keeps_busy_moved]. }
  apply wp_when.
  - intros [[_ Hs1]%andb_true_iff Hs2]%andb_true_iff. rewrite bool_decide_eq_true in Hs1, Hs2.
    destruct (frame_resumed ∅ t time false th st s Hth Hst (conj Hs1 Hs2) Hrun) as [Hf1 Esch].
    eapply kwp_mono; [eapply (resume_ok R n (F ∪ {[t]})); [done|done|done|by apply lookup_lt_Some in Hrun|done|by rewrite Hc]|].
    intros _ s2 (Hi2 & Hf2 & Hk2). apply Hend; [done|by etransitivity| |].
    + intros Hp Hw. apply Hk2; [done|]. intros t' c' _ Hw'. apply (Hw t' c'); [done|set_solver].
    + eapply has_status_frame; [exact Hf2|]. unfold resumed, has_status. cbn. rewrite (alter_known _ _ _ _ Hst).
      eexists. split; [apply list_lookup_insert_eq; by apply lookup_lt_Some in Hst|done].
  - intros Hb. apply Hend; [done|done|by apply keeps_busy_sched|]. exists st. split; [done|]. destruct Hs as [|[Hs1 Hs2]]; [done|].
    rewrite Hs1, Hs2 in Hb. done.
Qed.

(** ** The choice of a thread *)

Definition info_score (time : Z) (s : Sys) (t : nat) : Z := default 0 (score time <$> infos s !! t).
Definition may_take (s : Sys) (c t : nat) : Prop :=
  can_run s t /\ allowed s t c /\ (core_of s t = None \/ core_of s t = Some c).

Lemma getPS_range t : 0 <= getPS (u64 t) < 2 ^ 62.
Proof.
  unfold getPS, PS_1. pose proof (wrap_range' 64 t ltac:(lia)) as H. split; [apply Z.div_pos; lia|]. apply Z.div_lt_upper_bound; lia.
Qed.
(** Scores do not wrap. *)
Lemma score_exact time i :
  score time i = (if isRunning i then getPS (u64 (m_last_scheduled_in i)) - getPS (u64 time)
                  else getPS (u64 time) - getPS (u64 (m_last_scheduled_out i))) /\ - 2 ^ 63 < score time i.
Proof.
  unfold score. pose proof (getPS_range time). pose proof (getPS_range (m_last_scheduled_in i)). pose proof (getPS_range (m_last_scheduled_out i)).
  destruct (isRunning i); rewrite swrap_small by lia; lia.
Qed.

Lemma eligible_spec F s c t :
  inv F s -> (c < num_cores s)%nat -> (t < length (runnable s))%nat ->
  exists b : bool, eligible c t (sched s) = Ok b /\ (b = true <-> may_take s c t).
Proof.
  intros Hi Hc Ht. destruct (lookup_lt_is_Some_2 _ _ Ht) as [r Hr]. pose proof (i_runnable _ _ Hi).
  destruct (lookup_lt_is_Some_2 (infos s) t) as [i Hti]; [lia|].
  assert (Ha : length (m_core_affinity i) = num_cores s) by by eapply i_affinity.
  destruct (lookup_lt_is_Some_2 (m_core_affinity i) c) as [a Hac]; [by rewrite Ha|].
  unfold eligible, may_take, can_run, allowed, affinity, core_of, hasAffinity, rd. fold (infos s). rewrite Hti. cbn. rewrite Hac. cbn.
  destruct a; [|exists false; split; [done|]; naive_solver]. fold (runnable s). rewrite Hr. cbn. eexists. split; [done|].
  unfold isRunning. destruct (m_core_running i) as [x|]; cbn.
  - rewrite andb_true_iff, bool_decide_eq_true. naive_solver.
  - rewrite andb_true_r. naive_solver.
Qed.

(** The scheduler takes the first thread with the highest score, and none only if there is none. *)
Lemma pick_spec F s c time :
  inv F s -> (c < num_cores s)%nat ->
  exists o, pick_thread time c (sched s) = Ok o /\
    match o with
    | Some t => may_take s c t /\ forall t', may_take s c t' -> info_score time s t' <= info_score time s t /\ ((t' < t)%nat -> info_score time s t' < info_score time s t)
    | None => forall t, ~ may_take s c t
    end.
Proof.
  intros Hi Hc.
  set (I := fun (n : nat) (acc : option nat * Z) =>
    match acc.1 with
    | Some t => (t < n)%nat /\ may_take s c t /\ acc.2 = info_score time s t /\ forall t', (t' < n)%nat -> may_take s c t' -> info_score time s t' <= acc.2 /\ ((t' < t)%nat -> info_score time s t' < acc.2)
    | None => acc.2 = - 2 ^ 63 /\ forall t', (t' < n)%nat -> ~ may_take s c t'
    end).
  destruct (fold_loop_inv I (pick_step time c (sched s)) (length (runnable s)) (None, - 2 ^ 63)) as (r & E & Hr).
  - split; [done|]. lia.
  - intros t acc Ht HI. destruct (eligible_spec F s c t Hi Hc Ht) as (b & Eb & Hb). unfold pick_step. rewrite Eb. cbn [mbind res_bind].
    destruct b.
    + assert (Hm : may_take s c t) by by apply Hb. pose proof (i_runnable _ _ Hi) as Hir.
      destruct (lookup_lt_is_Some_2 (infos s) t) as [i Hti]; [lia|].
      assert (rd (m_thread_info (sched s)) t = Ok i) as -> by by apply rd_Ok. cbn [mbind res_bind]. eexists. split; [done|].
      assert (Es : info_score time s t = score time i) by (unfold info_score; by rewrite Hti).
      pose proof (proj2 (score_exact time i)) as Hsc. destruct (Z.ltb_spec acc.2 (score time i)) as [Hlt|Hlt]; unfold I in *; cbn.
      * split_and!; [lia|done|done|]. intros t' Ht' Hm'. destruct (decide (t' = t)) as [->|]; [lia|].
        destruct acc.1 as [x|]; [destruct HI as (_ & _ & _ & HI)|destruct HI as (_ & HI)].
        -- specialize (HI t' ltac:(lia) Hm'). lia.
        -- by destruct (HI t' ltac:(lia)).
      * destruct acc.1 as [x|]; [|lia]. destruct HI as (H0 & H1 & H2 & H3). split_and!; [lia|done|done|].
        intros t' Ht' Hm'. destruct (decide (t' = t)) as [->|]; [lia|]. apply H3; [lia|done].
    + eexists. split; [done|]. assert (Hm : ~ may_take s c t) by (rewrite <- Hb; done). unfold I in *. destruct acc.1.
      * destruct HI as (H0 & H1 & H2 & H3). split_and!; [lia|done|done|]. intros t' Ht' Hm'. destruct (decide (t' = t)) as [->|]; [done|].
        apply H3; [lia|done].
      * destruct HI as (H1 & H2). split; [done|]. intros t' Ht'. destruct (decide (t' = t)) as [->|]; [done|]. apply H2. lia.
  - exists r.1. unfold pick_thread. fold (runnable s). rewrite E. split; [done|]. unfold I in Hr.
    assert (Hlt : forall t', may_take s c t' -> (t' < length (runnable s))%nat) by (intros t' [H _]; by apply lookup_lt_Some in H).
    destruct r.1 as [t|].
    + destruct Hr as (_ & H1 & H2 & H3). split; [done|]. intros t' Hm'. rewrite <- H2. auto.
    + destruct Hr as (_ & H). intros t Hm. apply (H t); auto.
Qed.

(** When a thread left its last core, and when it came to the one it is on, in picoseconds. *)
Definition left_core (i : ThreadInfo) : Z := getPS (u64 (m_last_scheduled_out i)).
Definition came_to_core (i : ThreadInfo) : Z := getPS (u64 (m_last_scheduled_in i)).
(** Which of two threads a core takes: of two that wait the one that left its core first; one
    that waits before the one that is on the core if the latter has run for longer than it is
    until the former left its core, which is in the past as a rule; the first created if these
    are equal. *)
Definition taken_before (now : Z) (x y : nat * ThreadInfo) : Prop :=
  let before a b := a < b \/ a = b /\ (x.1 < y.1)%nat in
  match m_core_running x.2, m_core_running y.2 with
  | None, None => before (left_core x.2) (left_core y.2)
  | None, Some _ => before (left_core x.2 - now) (now - came_to_core y.2)
  | Some _, None => before (now - came_to_core x.2) (left_core y.2 - now)
  | Some _, Some _ => False
  end.
Lemma score_order F s c time t t' i i' :
  inv F s -> may_take s c t -> may_take s c t' -> t' <> t -> infos s !! t = Some i -> infos s !! t' = Some i' ->
  info_score time s t' <= info_score time s t /\ ((t' < t)%nat -> info_score time s t' < info_score time s t) ->
  taken_before (getPS (u64 time)) (t, i) (t', i').
Proof.
  intros Hi (_ & _ & Hc) (_ & _ & Hc') Hne Hti Hti'. unfold info_score, taken_before, left_core, came_to_core. rewrite Hti, Hti'. cbn [from_option fmap option_fmap option_map default fst snd].
  rewrite !(proj1 (score_exact _ _)). unfold core_of in Hc, Hc'. rewrite Hti in Hc. rewrite Hti' in Hc'. cbn in Hc, Hc'. unfold isRunning.
  destruct (m_core_running i) as [x|] eqn:Ex, (m_core_running i') as [y|] eqn:Ey; cbn; try lia. intros _. apply Hne.
  destruct Hc as [|[= ->]], Hc' as [|[= ->]]; try done.
  assert (E1 : core_of s t = Some c) by (unfold core_of; by rewrite Hti). assert (E2 : core_of s t' = Some c) by (unfold core_of; by rewrite Hti').
  apply (i_assigned _ _ Hi) in E1, E2. congruence.
Qed.

(** ** Rescheduling *)

Lemma free_insert l c o t : l !! c = Some o ->
  (length (filter is_free (<[c := Some t]> l)) + (if decide (is_free o) then 1 else 0) = length (filter is_free l))%nat.
Proof.
  revert c. induction l as [|x l IH]; intros [|c] H; cbn in H; try done.
  - injection H as ->. cbn [insert list_insert]. rewrite !filter_cons. rewrite (decide_False (P := is_free (Some t))) by done.
    destruct (decide (is_free o)); cbn; lia.
  - change (<[S c := Some t]> (x :: l)) with (x :: <[c := Some t]> l). rewrite !filter_cons. specialize (IH _ H).
    destruct (decide (is_free x)); cbn [length]; lia.
Qed.

(** Changing what the scheduler keeps of one thread. *)
Definition with_info (t : nat) (i : ThreadInfo) (s : Sys) : Sys := on_sched (set_infos (<[t := i]> (infos s))) s.
Lemma wp_changeInfo t f i (Q : unit -> Sys -> Prop) s : infos s !! t = Some i -> Q tt (with_info t (f i) s) -> wp (changeInfo t f) Q s.
Proof. intros H HQ. unfold changeInfo. step; [exact H|exact HQ]. Qed.
Lemma with_info_core t i s x : (t < length (infos s))%nat -> core_of (with_info t i s) x = if decide (x = t) then m_core_running i else core_of s x.
Proof.
  intros Ht. unfold core_of, with_info, infos. cbn. case_decide as E; [subst x; by rewrite list_lookup_insert_eq|].
  by rewrite list_lookup_insert_ne.
Qed.
Lemma with_info_affinity t i j s x : infos s !! t = Some j -> mask_of i = mask_of j -> affinity (with_info t i s) x = affinity s x.
Proof.
  intros Ht E. unfold affinity, with_info, infos in *. cbn. destruct (decide (x = t)) as [->|]; [|by rewrite list_lookup_insert_ne].
  rewrite list_lookup_insert_eq by (by apply lookup_lt_Some in Ht). rewrite Ht. cbn. by rewrite E.
Qed.
Lemma with_info_length t i s : length (infos (with_info t i s)) = length (infos s).
Proof. unfold with_info, infos. cbn. by rewrite length_insert. Qed.
Lemma with_info_lookup t i s : (t < length (infos s))%nat -> infos (with_info t i s) !! t = Some i.
Proof. intros H. unfold with_info, infos in *. cbn. by rewrite list_lookup_insert_eq. Qed.
Lemma placed_sched g f s : placed g s -> placed g (on_sched f s).
Proof. intros []. by split. Qed.
Lemma switching_busy F c old new s s' :
  inv F s -> running s !! c = Some old -> switching c old new s s' -> (forall t, new = Some t -> may_take s c t) ->
  (new = None -> forall t, ~ may_take s c t) -> keeps_busy {[c]} s s'.
Proof.
  intros Hi Hold Hs Hnew Hnone Hp Hw. assert (Hc : (c < length (running s))%nat) by by apply lookup_lt_Some in Hold.
  assert (Hal : forall t x, allowed s' t x <-> allowed s t x) by (intros t x; unfold allowed; by rewrite (sw_affinity _ _ _ _ _ Hs)).
  assert (Hr : forall t, can_run s' t <-> can_run s t) by (intros t; unfold can_run; by rewrite (sw_runnable _ _ _ _ _ Hs)).
  split; [split|].
  - intros t c1 c2. rewrite !Hal. apply (pn_one _ Hp).
  - intros t x. rewrite (sw_core_of _ _ _ _ _ Hs), Hal. unfold switched. case_decide as E1; [intros [= <-]; by apply Hnew|].
    case_decide; [done|]. apply (pn_core _ Hp).
  - rewrite (sw_policy _ _ _ _ _ Hs). apply (pn_policy _ Hp).
  - intros t x (H1 & H2 & H3) _. rewrite Hr in H1. rewrite Hal in H3. rewrite (sw_core_of _ _ _ _ _ Hs) in H2. rewrite (sw_running _ _ _ _ _ Hs).
    unfold switched in H2. case_decide as E1; [done|].
    assert (Hx : x <> c -> exists t', running s !! x = Some (Some t')).
    { intros Hx. case_decide as E2; [|apply (Hw t); [done|set_solver]]. subst old. apply (i_assigned _ _ Hi) in Hold.
      destruct Hx. eapply (pn_one _ Hp); [exact H3|]. by apply (pn_core _ Hp). }
    destruct (decide (x = c)) as [->|Hne]; [|rewrite list_lookup_insert_ne by done; auto].
    rewrite list_lookup_insert_eq by done. destruct new as [t'|]; [eauto|]. exfalso. apply (Hnone eq_refl t). split; [done|]. split; [done|].
    case_decide as E2; [|by left]. right. subst old. by apply (i_assigned _ _ Hi).
Qed.
Lemma switching_frame c old new s s' :
  switching c old new s s' -> (forall t, new = Some t -> schedulable s t) -> frame (thread_set old) s s'.
Proof.
  intros Hs Hn. split; try by destruct Hs.
  - by eapply sw_threads.
  - intros t st Hst. exists st. rewrite (sw_states _ _ _ _ _ Hs). auto.
  - intros t th' Hth Hw. rewrite (sw_states _ _ _ _ _ Hs). split; [|done]. pose proof (sw_waits _ _ _ _ _ Hs) as E.
    apply (f_equal (.!! t)) in E. rewrite !list_lookup_fmap, Hth in E. destruct (threads s !! t) as [th|]; [|done]. exists th. split; [done|].
    cbn in E. congruence.
  - intros t x Ho Hx. rewrite elem_thread_set in Ho. rewrite (sw_core_of _ _ _ _ _ Hs). unfold switched.
    rewrite (decide_False (P := old = _)) by done. rewrite decide_False; [done|]. intros E. destruct (Hn _ E). congruence.
  - intros t Hr Hx. rewrite (sw_core_of _ _ _ _ _ Hs). unfold switched. case_decide as E; [by destruct (Hn _ E)|]. by case_decide.
Qed.

(** The scheduler's lists and the placement of threads change; the rest stays. *)
Record changed (r : list (option nat)) (g : nat -> option nat) (s s' : Sys) : Prop := {
  ch_running : running s' = r;
  ch_core_of t : core_of s' t = g t;
  ch_infos : length (infos s') = length (infos s);
  ch_affinity t : affinity s' t = affinity s t;
  ch_runnable : runnable s' = runnable s;
  ch_policy : m_policy (sched s') = m_policy (sched s);
  ch_quantum : length (m_quantum_left (sched s')) = length (m_quantum_left (sched s));
  ch_cores : num_cores s' = num_cores s;
  ch_waits : waits <$> threads s' = waits <$> threads s;
  ch_states : thread_state s' = thread_state s;
  ch_syscalls : syscalls s' = syscalls s;
  ch_barrier : bar_frame (barrier s) (barrier s');
  ch_host : num_host_cores s' = num_host_cores s
}.
Lemma changed_refl s : changed (running s) (core_of s) s s.
Proof. by split. Qed.
Lemma changed_info r g s s1 t i j : changed r g s s1 -> infos s1 !! t = Some j -> mask_of i = mask_of j ->
  changed r (fun x => if decide (x = t) then m_core_running i else g x) s (with_info t i s1).
Proof.
  intros [] Ht E. split; try done.
  - intros x. rewrite with_info_core by (by apply lookup_lt_Some in Ht). case_decide; auto.
  - by rewrite with_info_length.
  - intros x. by rewrite (with_info_affinity _ _ _ _ _ Ht E).
Qed.
Lemma changed_moved r g s s1 s2 : changed r g s s1 -> moved s1 s2 -> changed r g s s2.
Proof.
  intros [] Hm. pose proof (mv_cores _ _ Hm). pose proof (mv_waits _ _ Hm). pose proof (mv_barrier _ _ Hm).
  pose proof (mv_eq _ _ Hm) as E. split; try (rewrite E; cbn; done).
  - by etransitivity.
  - by etransitivity.
  - by etransitivity.
Qed.
Lemma changed_running c o r g s s1 : changed r g s s1 -> changed (<[c := o]> r) g s (on_sched (set_core_running (<[c := o]> (running s1))) s1).
Proof. intros []. split; cbn; try done. unfold running. cbn. fold (running s1). by rewrite ch_running0. Qed.
Lemma changed_switching c old new g s s' :
  changed (<[c := new]> (running s)) g s s' -> (forall t, g t = switched c old new s t) -> switching c old new s s'.
Proof. intros [] E. split; try done. intros t. by rewrite <- E. Qed.

(** The thread that leaves the core. *)
Lemma displace R F c old time s :
  inv F s -> running s !! c = Some old ->
  wp (match old with
      | Some t =>
          changeInfo t (setCoreRunning None);;
          changeInfo t (setLastScheduledOut (time +64 SubsecondTime_PS (Z.of_nat c)));;
          moveThread_with R t None time
      | None => mret tt
      end) (fun _ s' => changed (running s) (fun x => if decide (old = Some x) then None else core_of s x) s s' /\
        placed (match old with Some t => without t (placement F s) | None => placement F s end) s') s.
Proof.
  intros Hi Hold. destruct old as [t|]; [|step; split; [apply changed_refl|apply (i_placed _ _ Hi)]].
  pose proof (proj1 (i_assigned _ _ Hi c t) Hold) as Hc. pose proof (i_created _ _ Hi _ _ Hc) as Ht.
  destruct (lookup_lt_is_Some_2 (infos s) t) as [i Hti]; [pose proof (i_infos _ _ Hi); lia|].
  pose proof (lookup_lt_Some _ _ _ Hti) as Hlt.
  step. eapply wp_changeInfo; [exact Hti|]. pose proof (changed_info _ _ _ _ t (setCoreRunning None i) _ (changed_refl s) Hti eq_refl) as H1.
  pose proof (with_info_lookup t (setCoreRunning None i) s Hlt) as L1.
  step. eapply wp_changeInfo; [exact L1|].
  pose proof (changed_info _ _ _ _ t (setLastScheduledOut (time +64 SubsecondTime_PS (Z.of_nat c)) (setCoreRunning None i)) _ H1 L1 eq_refl) as H2.
  eapply kwp_mono; [apply (moveThread_away R (placement F s))|].
  - apply placed_sched, placed_sched. apply (i_placed _ _ Hi).
  - apply (i_barrier _ _ Hi).
  - exact Ht.
  - intros _ s' [Hm Hp]. split; [|exact Hp]. pose proof (changed_moved _ _ _ _ _ H2 Hm) as []. split; try done.
    intros x. rewrite ch_core_of0. cbn. destruct (decide (x = t)) as [->|]; [by rewrite decide_True|]. by rewrite decide_False by congruence.
Qed.

Lemma switch_ok R n F time c old new s :
  reschedules R n -> inv F s -> running s !! c = Some old -> old <> new ->
  (forall t, new = Some t -> may_take s c t) -> (new = None -> forall t, ~ may_take s c t) ->
  settles F old s ->
  (if decide (old = None) then free_cores s <= S n else free_cores s <= n)%nat ->
  wp (switch_with R time c old new) (fun _ s' => inv F s' /\ frame (thread_set old) s s' /\ keeps_busy {[c]} s s' /\
    forall t, old = Some t -> ~ can_run s t -> core_of s' t = None) s.
Proof.
  intros HR Hi Hold Hne Hnew Hnone HF Hn. unfold switch_with. step. eapply kwp_mono; [by eapply displace|]. intros _ s1 [H1 Hp1].
  assert (Hc : (c < length (running s))%nat) by by apply lookup_lt_Some in Hold.
  step. unfold setCoreThread. step.
  { change (m_core_thread_running (sched s1)) with (running s1). rewrite (ch_running _ _ _ _ H1). exact Hold. }
  pose proof (changed_running c new _ _ _ _ H1) as H2. unfold running in H2 at 2.
  assert (Hsd : forall t, new = Some t -> schedulable s t).
  { intros t E. destruct (Hnew _ E) as (Hr & _ & [Hco|Hco]); [by split|]. apply (i_assigned _ _ Hi) in Hco. congruence. }
  assert (HnF : forall t, new = Some t -> t ∉ F).
  { intros t E Hin. destruct (Hsd _ E) as [Hr Hco]. destruct (i_flying _ _ Hi _ Hin Hr) as [x Hx]. congruence. }
  destruct new as [t|].
  - destruct (Hsd t eq_refl) as [Hr Hco]. pose proof (i_started _ _ Hi _ Hr) as Ht.
    assert (Hto : old <> Some t) by done.
    match goal with |- wp _ _ ?x => set (s2 := x) in * end.
    destruct (lookup_lt_is_Some_2 (infos s2) t) as [i Hti].
    { rewrite (ch_infos _ _ _ _ H2). pose proof (i_infos _ _ Hi). lia. }
    assert (Hi2 : m_core_running i = None).
    { pose proof (ch_core_of _ _ _ _ H2 t) as E. cbn beta in E. rewrite decide_False in E by done. rewrite Hco in E. unfold core_of in E. by rewrite Hti in E. }
    step. unfold getInfo. step; [exact Hti|]. rewrite Hi2. step. step.
    step. eapply wp_changeInfo; [exact Hti|]. pose proof (changed_info _ _ _ _ t (setCoreRunning (Some c) i) _ H2 Hti eq_refl) as H3.
    pose proof (lookup_lt_Some _ _ _ Hti) as Hlt. pose proof (with_info_lookup t (setCoreRunning (Some c) i) s2 Hlt) as L3.
    step. eapply wp_changeInfo; [exact L3|].
    pose proof (changed_info _ _ _ _ t (setLastScheduledIn time (setCoreRunning (Some c) i)) _ H3 L3 eq_refl) as H4.
    match goal with |- wp _ _ ?x => set (s4 := x) in * end.
    assert (Hs4 : switching c old (Some t) s s4).
    { eapply changed_switching; [exact H4|]. intros x. cbn. unfold switched. destruct (decide (x = t)) as [->|]; [by rewrite decide_True|].
      rewrite (decide_False (P := Some t = Some x)) by congruence. done. }
    assert (Hi4 : inv (F ∪ {[t]}) s4).
    { eapply (inv_switch F c old (Some t)); try done; [by intros x [= <-]|by apply placed_sched, placed_sched, placed_sched]. }
    eapply kwp_mono; [eapply (move_onto R n F); [done|done|by apply HnF| | | |]|].
    + rewrite (sw_core_of _ _ _ _ _ Hs4). unfold switched. by rewrite decide_True.
    + unfold can_run. rewrite (sw_runnable _ _ _ _ _ Hs4). exact Hr.
    + unfold ready, has_status. rewrite (sw_states _ _ _ _ _ Hs4). by apply (i_status _ _ Hi).
    + unfold free_cores in *. rewrite (sw_running _ _ _ _ _ Hs4). pose proof (free_insert _ _ _ t Hold) as Hfi.
      destruct (decide (is_free old)), (decide (old = None)); unfold is_free in *; try done; lia.
    + intros _ s5 (H5 & H6 & H7). split_and!; [done| | |].
      * etransitivity; [by eapply switching_frame|]. eapply frame_mono; [|exact H6]. set_solver.
      * eapply keeps_busy_trans; [|exact H7]. by eapply switching_busy.
      * intros x -> Hx. apply (fr_off _ _ _ H6); [unfold can_run; by rewrite (sw_runnable _ _ _ _ _ Hs4)|].
        rewrite (sw_core_of _ _ _ _ _ Hs4). unfold switched. rewrite decide_False by congruence. by rewrite decide_True.
  - step. match goal with |- inv _ ?x /\ _ => set (s2 := x) in * end.
    assert (Hs2 : switching c old None s s2).
    { eapply changed_switching; [exact H2|]. intros x. done. }
    split_and!.
    + replace F with (F ∪ thread_set None) by (cbn; set_solver). eapply inv_switch; try done. by apply placed_sched.
    + by eapply switching_frame.
    + by eapply switching_busy.
    + intros x -> _. rewrite (sw_core_of _ _ _ _ _ Hs2). unfold switched. by rewrite decide_False, decide_True.
Qed.

Lemma quantum_keeps F G c q s0 s X :
  inv F s -> frame G s0 s -> keeps_busy X s0 s -> (c < num_cores s)%nat ->
  wp (setQuantumLeft c q) (fun _ s' => inv F s' /\ frame G s0 s' /\ keeps_busy X s0 s' /\ forall t, core_of s' t = core_of s t) s.
Proof.
  intros Hi Hf Hk Hc. destruct (lookup_lt_is_Some_2 (m_quantum_left (sched s)) c) as [x Hx]; [by rewrite (i_quantum _ _ Hi)|].
  unfold setQuantumLeft. step; [exact Hx|]. split_and!.
  - destruct Hi. split; try done; [cbn; by rewrite length_insert|]. exact (placed_sched _ _ _ i_placed0).
  - by destruct Hf.
  - eapply keeps_busy_trans; [exact Hk|]. intros [] Hw. by split.
  - done.
Qed.

(** A thread that cannot run any more is taken off its core. *)
Definition leaves (old : option nat) (s s' : Sys) : Prop :=
  forall t, old = Some t -> ~ can_run s t -> has_status s t (fun st => status st <> INITIALIZING) -> core_of s' t = None.

Lemma reschedule_with_ok R n F time c old s :
  reschedules R n -> inv F s -> running s !! c = Some old ->
  settles F old s ->
  (if decide (old = None) then free_cores s <= S n else free_cores s <= n)%nat ->
  wp (reschedule_with R time c) (fun _ s' => inv F s' /\ frame (thread_set old) s s' /\ keeps_busy {[c]} s s' /\ leaves old s s') s.
Proof.
  intros HR Hi Hold HF Hn. assert (Hc : (c < num_cores s)%nat) by (rewrite <- (i_running _ _ Hi); by apply lookup_lt_Some in Hold).
  unfold reschedule_with. step. unfold getCoreThread. step; [exact Hold|]. step.
  apply (kwp_mono _ (fun b s' => s' = s /\ (b = true -> exists t, old = Some t /\ has_status s t (fun st => status st = INITIALIZING)))).
  { destruct old as [t|]; [|step; done]. pose proof (proj1 (i_assigned _ _ Hi c t) Hold) as Hco. apply (i_created _ _ Hi) in Hco.
    destruct (lookup_lt_is_Some_2 (thread_state s) t) as [st Hst]; [by rewrite (i_states _ _ Hi)|].
    step. unfold getTState. step; [exact Hst|]. step. split; [done|]. intros E%bool_decide_eq_true. exists t. split; [done|]. by eexists. }
  intros b s' [-> Hb]. destruct b.
  { destruct (Hb eq_refl) as (t0 & -> & (st0 & Hst0 & E0)). step. split_and!; [done|done| |].
    - intros Hp Hw. split; [done|]. intros t x Hx _. destruct (decide (x = c)) as [->|]; [eauto|]. apply (Hw t); [done|set_solver].
    - intros t [= <-] _ (st & Hst & Hne). congruence. }
  step. step. destruct (pick_spec F s c time Hi Hc) as (new & E & Hnew). step. eapply kwp_lift; [exact E|]. step.
  apply (kwp_mono _ (fun _ s' => inv F s' /\ frame (thread_set old) s s' /\ keeps_busy {[c]} s s' /\ leaves old s s')).
  - apply wp_when.
    + intros Hne. apply negb_true_iff in Hne. rewrite bool_decide_eq_false in Hne. eapply kwp_mono; [eapply switch_ok; try done|].
      * intros t ->. apply Hnew.
      * by intros ->.
      * intros _ s' (H1 & H2 & H3 & H4). split_and!; [done|done|done|]. intros t Ht Hr _. by apply H4.
    + intros Heq. apply negb_false_iff in Heq. rewrite bool_decide_eq_true in Heq. subst new. split_and!; [done|done| |].
      * intros Hp Hw. split; [done|]. intros t x Hx _. destruct (decide (x = c)) as [->|]; [|apply (Hw t); [done|set_solver]].
        destruct old as [t'|]; [eauto|]. destruct Hx as (Hx1 & Hx2 & Hx3). destruct (Hnew t). split_and!; auto.
      * intros t -> Hr _. by destruct Hnew as [[] _].
  - intros _ s2 (H1 & H2 & H3 & H4). step. step. eapply kwp_mono; [eapply quantum_keeps; try done; by rewrite (fr_cores _ _ _ H2)|].
    intros _ s3 (H5 & H6 & H7 & H8). split_and!; [done|done|done|]. intros t Ht Hr Hst. rewrite H8. by apply H4.
Qed.

Lemma free_positive s c : running s !! c = Some None -> (0 < free_cores s)%nat.
Proof.
  intros H. unfold free_cores. pose proof (free_insert _ _ _ 0%nat H) as E. rewrite decide_True in E by done. lia.
Qed.
Lemma free_bound s : (free_cores s <= length (running s))%nat.
Proof. unfold free_cores. apply length_filter. Qed.

(** The recursion needs no more levels than there are free cores. *)
Lemma loop_reschedules n : reschedules (reschedule_loop n) n.
Proof.
  induction n as [|n IH]; intros F time c s Hi Hc Hn; [pose proof (free_positive _ _ Hc); lia|]. cbn [reschedule_loop].
  eapply kwp_mono; [eapply (reschedule_with_ok _ n); [exact IH|exact Hi|exact Hc|done|by rewrite decide_True]|].
  intros _ s' (H1 & H2 & H3 & _). split_and!; [done| |done]. eapply frame_mono; [|exact H2]. cbn. set_solver.
Qed.

Lemma reschedule_ok F time c old s :
  inv F s -> running s !! c = Some old -> settles F old s ->
  wp (reschedule time c) (fun _ s' => inv F s' /\ frame (thread_set old) s s' /\ keeps_busy {[c]} s s' /\ leaves old s s') s.
Proof.
  intros Hi Hold HF. unfold reschedule. step. step. cbn [reschedule_loop]. eapply reschedule_with_ok; [apply loop_reschedules|done..|].
  pose proof (free_bound s). rewrite (i_running _ _ Hi) in *. case_decide; lia.
Qed.
Lemma reschedule_free s : reschedules reschedule (num_cores s).
Proof.
  intros F time c s' Hi Hc _. eapply kwp_mono; [eapply reschedule_ok; [exact Hi|exact Hc|done]|].
  intros _ s2 (H1 & H2 & H3 & _). split_and!; [done| |done]. eapply frame_mono; [|exact H2]. cbn. set_solver.
Qed.
End invariant.
