(* ===== verification/ThreadOps.v ===== *)
(** * The operations of threads

    Every operation of the thread manager and of the pinned and roaming schedulers keeps the
    invariant of the system, and the scheduler without changes of affinity never leaves a core
    free that a thread waits for. *)

From stdpp Require Import base tactics list numbers gmap sets.
From Stdlib Require Import ZArith Lia.
From S2P Require Import Prelude Utils Timing Threads ThreadProps.
Local Open Scope Z_scope.
Local Open Scope mach_scope.

Section operations.
Context {who : Setting}.

(** ** The invariant between operations *)

(** The configuration of a scheduler finds a core for a new thread. *)
Definition policy_ok (n : nat) (p : Policy) : Prop :=
  match p with
  | Pinned il mask next =>
      length mask = n /\ mask !! next = Some true /\
      forall run c, length run = n -> mask !! c = Some true ->
        exists d e, getFreeCore il mask run c = Ok d /\ (d < n)%nat /\ getNextCore il mask d = Ok e /\ mask !! e = Some true
  | Roaming mask => length mask = n
  | _ => False
  end.
Definition started (s : Sys) (t : nat) : Prop := (t < length (threads s))%nat /\ (t < length (runnable s))%nat.
Definition all_waiters (y : SyscallServer) : list Waiter := m_sleeping y ++ mjoin (map_to_list (m_futexes y)).*2.

(** The threads of [E] are about to leave their cores for good. *)
Record leaving (E : gset nat) (s : Sys) : Prop := {
  ok_inv : inv ∅ s;
  ok_ready t : t ∉ E -> can_run s t -> ready s t;
  ok_sizes : exists a b, length (infos s) = (16 * a)%nat /\ length (runnable s) = (16 * b)%nat;
  ok_fresh t i : (length (threads s) <= t)%nat -> infos s !! t = Some i -> m_has_affinity i = false;
  ok_policy : policy_ok (num_cores s) (m_policy (sched s));
  ok_waiters w : w ∈ all_waiters (syscalls s) -> started s (w_thread_id w);
  ok_waiter t st w : thread_state s !! t = Some st -> waiter st = Some w -> started s w
}.
Definition sys_ok : Sys -> Prop := leaving ∅.
(** The operation completes, keeps the invariant, and keeps the cores busy. *)
Definition sound (X : gset nat) (m : K unit) (s : Sys) : Prop := wp m (fun _ s' => sys_ok s' /\ keeps_busy X s s') s.

Lemma frame_started G s s' t : frame G s s' -> started s t -> started s' t.
Proof. intros Hf [H1 H2]. split; [by rewrite (fr_threads _ _ _ Hf)|by rewrite (fr_runnable _ _ _ Hf)]. Qed.
Lemma frame_ready G s s' t : frame G s s' -> ready s t -> ready s' t.
Proof. intros Hf (st & Hst & H). destruct (fr_state _ _ _ Hf _ _ Hst) as (st' & Hst' & [->|[_ ->]]); eexists; eauto. Qed.

(** The part of the invariant that does not depend on the placement of threads. *)
Record base (D : gset nat) (s : Sys) : Prop := {
  bs_ready t : t ∉ D -> can_run s t -> ready s t;
  bs_sizes : exists a b, length (infos s) = (16 * a)%nat /\ length (runnable s) = (16 * b)%nat;
  bs_fresh t i : (length (threads s) <= t)%nat -> infos s !! t = Some i -> m_has_affinity i = false;
  bs_policy : policy_ok (num_cores s) (m_policy (sched s));
  bs_waiters w : w ∈ all_waiters (syscalls s) -> started s (w_thread_id w);
  bs_waiter t st w : thread_state s !! t = Some st -> waiter st = Some w -> started s w;
  bs_states : length (thread_state s) = length (threads s)
}.
Lemma leaving_base D s : leaving D s <-> inv ∅ s /\ base D s.
Proof.
  split; [intros [Hi]|intros [Hi []]]; [split; [done|]|]; split; try done. apply (i_states _ _ Hi).
Qed.

Lemma frame_base D G s s' : base D s -> length (thread_state s') = length (threads s') -> frame G s s' -> base D s'.
Proof.
  intros Hs Hl Hf. split.
  - intros t Ht. rewrite (frame_can_run _ _ _ _ Hf). intros H. eapply frame_ready; [done|]. by eapply bs_ready.
  - rewrite (fr_infos _ _ _ Hf), (fr_runnable _ _ _ Hf). by eapply bs_sizes.
  - intros t i. rewrite (fr_threads _ _ _ Hf). intros Ht Hti. pose proof (fr_affinity _ _ _ Hf t) as E. unfold affinity in E. rewrite Hti in E.
    destruct (infos s !! t) as [j|] eqn:Ej; [|done]. injection E as E _. rewrite E. by eapply bs_fresh.
  - rewrite (fr_cores _ _ _ Hf), (fr_policy _ _ _ Hf). by eapply bs_policy.
  - intros w. rewrite (fr_syscalls _ _ _ Hf). intros Hw. eapply frame_started; [done|]. by eapply bs_waiters.
  - intros t st' w Hst' Hw. destruct (lookup_lt_is_Some_2 (thread_state s) t) as [st Hst].
    { rewrite (bs_states _ _ Hs), <- (fr_threads _ _ _ Hf), <- Hl. by apply lookup_lt_Some in Hst'. }
    destruct (fr_state _ _ _ Hf _ _ Hst) as (x & Hx & H). rewrite Hst' in Hx. injection Hx as <-.
    eapply frame_started; [done|]. eapply bs_waiter; [done|exact Hst|]. destruct H as [->|[_ ->]]; exact Hw.
  - done.
Qed.
Lemma frame_ok D G s s' : leaving D s -> inv ∅ s' -> frame G s s' -> leaving D s'.
Proof.
  rewrite !leaving_base. intros [_ Hb] Hi Hf. split; [done|]. eapply frame_base; [done|apply (i_states _ _ Hi)|done].
Qed.
Lemma base_off D t s : base D s -> base (D ∖ {[t]}) (on_sched (fun x => set_runnable (<[t := false]> (m_threads_runnable x)) x) s).
Proof.
  intros Hs. set (s' := on_sched _ s).
  assert (Hr : forall x, can_run s' x -> can_run s x /\ x <> t).
  { intros x Hx. unfold can_run, runnable in Hx. cbn in Hx. apply list_lookup_insert_Some in Hx as [(_ & ? & _)|[? Hx]]; [done|]. by split. }
  assert (Hst : forall x, started s x -> started s' x).
  { intros x [H1 H2]. split; [done|]. unfold runnable. cbn. by rewrite length_insert. }
  destruct Hs. split; try done.
  - intros x HE [Hx Hne]%Hr. apply bs_ready0; [set_solver|done].
  - destruct bs_sizes0 as (a & b & E1 & E2). exists a, b. split; [done|]. unfold runnable. cbn. by rewrite length_insert.
  - intros w Hw. by apply Hst, bs_waiters0.
  - intros x st w Hx Hw. eapply Hst, bs_waiter0; eauto.
Qed.

Lemma ok_reschedule c time s : sys_ok s -> (c < num_cores s)%nat ->
  wp (reschedule time c) (fun _ s' => sys_ok s' /\ keeps_busy {[c]} s s' /\ exists G, frame G s s') s.
Proof.
  intros Hs Hc. pose proof (ok_inv _ _ Hs) as Hi. destruct (lookup_lt_is_Some_2 (running s) c) as [old Hold]; [by rewrite (i_running _ _ Hi)|].
  eapply kwp_mono; [eapply (reschedule_ok ∅); [done|exact Hold|]|].
  - intros t _ Hr. split; [set_solver|]. by eapply ok_ready.
  - intros _ s' (H1 & H2 & H3 & _). split_and!; [by eapply frame_ok|done|eauto].
Qed.
Lemma keeps_busy_weaken X Y s s' : Y ⊆ X -> keeps_busy X s s' -> keeps_busy Y s s'.
Proof. intros HX H Hp Hw. apply H; [done|]. intros t c Hw' Hc. apply (Hw t); [done|set_solver]. Qed.
Lemma ok_reschedule_if o time s : sys_ok s -> (forall c, o = Some c -> (c < num_cores s)%nat) ->
  wp (match o with Some c => reschedule time c | None => mret tt end)
    (fun _ s' => sys_ok s' /\ keeps_busy (match o with Some c => {[c]} | None => ∅ end) s s') s.
Proof.
  intros Hs Hc. destruct o as [c|].
  - eapply kwp_mono; [apply ok_reschedule; auto|]. intros _ s' (H1 & H2 & _). done.
  - step. split; [done|]. by apply keeps_busy_sched.
Qed.

(** ** Resuming a thread *)

Lemma ok_resumed E t time msg s : leaving E s -> started s t -> leaving E (resumed t time msg s).
Proof.
  intros Hs [Ht Hr]. pose proof (ok_inv _ _ Hs) as Hi. destruct (lookup_lt_is_Some_2 _ _ Ht) as [th Hth].
  destruct (lookup_lt_is_Some_2 (thread_state s) t) as [st Hst]; [by rewrite (i_states _ _ Hi)|].
  pose proof (lookup_lt_Some _ _ _ Hst) as Hlt.
  assert (Hstart : forall x, started s x -> started (resumed t time msg s) x).
  { intros x [H1 H2]. split; cbn; unfold runnable; cbn; by rewrite ?length_alter, ?length_insert. }
  assert (Hready : ready (resumed t time msg s) t).
  { exists (set_status RUNNING st). split; [cbn; by rewrite list_lookup_alter_eq, Hst|by left]. }
  split.
  - unfold resumed. rewrite (alter_known _ _ _ _ Hth), (alter_known _ _ _ _ Hst). eapply inv_runnable.
    + exact (inv_signal ∅ t th st time msg s Hi Hth Hst).
    + by intros ?%elem_of_empty.
    + intros _. eexists. split; [by apply list_lookup_insert_eq|]. by left.
  - intros x HE Hx. destruct (decide (x = t)) as [->|Hne]; [done|]. unfold can_run, runnable in Hx. cbn in Hx. rewrite list_lookup_insert_ne in Hx by done.
    destruct (ok_ready _ _ Hs _ HE Hx) as (y & Hy & H). exists y. split; [|done]. cbn. by rewrite list_lookup_alter_ne.
  - destruct (ok_sizes _ _ Hs) as (a & b & E1 & E2). exists a, b. split; [done|]. unfold runnable. cbn. by rewrite length_insert.
  - intros x i Hx. apply (ok_fresh _ _ Hs). cbn in Hx. by rewrite length_alter in Hx.
  - exact (ok_policy _ _ Hs).
  - intros w Hw. apply Hstart. by apply (ok_waiters _ _ Hs).
  - intros x st' w Hx Hw. apply Hstart. cbn in Hx. destruct (decide (x = t)) as [->|Hne].
    + rewrite list_lookup_alter_eq, Hst in Hx. injection Hx as <-. by eapply (ok_waiter _ _ Hs).
    + rewrite list_lookup_alter_ne in Hx by done. by eapply (ok_waiter _ _ Hs).
Qed.

Lemma ok_resume E t time msg s : leaving E s -> started s t ->
  wp (resumeThread t time msg) (fun _ s' => leaving E s' /\ frame ∅ (resumed t time msg s) s' /\ keeps_busy ∅ s s') s.
Proof.
  intros Hs Ht. pose proof (ok_inv _ _ Hs) as Hi. destruct Ht as [Ht Hr]. pose proof (free_bound s) as Hb. rewrite (i_running _ _ Hi) in Hb.
  eapply kwp_mono; [eapply (resume_ok reschedule (num_cores s) ∅); [apply reschedule_free|done|done|done|done|by intros ?%elem_of_empty]|].
  intros _ s' (H1 & H2 & H3). split_and!; [|done|].
  - eapply frame_ok; [by apply (ok_resumed E t time msg)|done|exact H2].
  - intros Hp Hw. apply H3; [done|]. intros t' c _ Hwt. apply (Hw t'); [done|set_solver].
Qed.

(** ** Changes of the state of a thread *)

Definition with_tstate (t : nat) (st : ThreadState) (s : Sys) : Sys := set_tstates (<[t := st]> (thread_state s)) s.
Definition with_runnable (t : nat) (b : bool) (s : Sys) : Sys := on_sched (fun x => set_runnable (<[t := b]> (m_threads_runnable x)) x) s.

Lemma inv_tstate F t st s :
  inv F s -> (can_run s t -> core_of s t = None -> status st = RUNNING \/ lacks_core st) -> inv F (with_tstate t st s).
Proof.
  intros Hi H. destruct Hi. split; try done.
  - cbn. by rewrite length_insert.
  - destruct i_placed. by split.
  - intros x Hx Hn. unfold ready, has_status. cbn. destruct (decide (x = t)) as [->|Hne].
    + rewrite list_lookup_insert_eq; [eauto|]. rewrite i_states. by apply i_started.
    + rewrite list_lookup_insert_ne by done. by apply i_status.
Qed.
Lemma ok_tstate E t st s :
  leaving E s -> (can_run s t -> core_of s t = None \/ (t ∉ E) -> status st = RUNNING \/ lacks_core st) -> (forall w, waiter st = Some w -> started s w) ->
  leaving E (with_tstate t st s).
Proof.
  intros Hs H Hw. pose proof (ok_inv _ _ Hs) as Hi. split; try by apply Hs.
  - apply inv_tstate; auto.
  - intros x HE Hx. unfold ready, has_status. cbn. destruct (decide (x = t)) as [->|Hne].
    + rewrite list_lookup_insert_eq; [eauto|]. rewrite (i_states _ _ Hi). by apply (i_started _ _ Hi).
    + rewrite list_lookup_insert_ne by done. by apply (ok_ready _ _ Hs).
  - intros x st' w Hx Hw'. cbn in Hx. apply list_lookup_insert_Some in Hx as [(-> & <- & _)|[_ Hx]].
    + by apply Hw.
    + by eapply (ok_waiter _ _ Hs).
Qed.
Lemma ok_off t s : sys_ok s -> sys_ok (with_runnable t false s) /\ keeps_busy ∅ s (with_runnable t false s) /\ ~ can_run (with_runnable t false s) t.
Proof.
  intros [Hi Hb]%leaving_base.
  assert (Hr : forall x, can_run (with_runnable t false s) x -> can_run s x /\ x <> t).
  { intros x Hx. unfold can_run, runnable in Hx. cbn in Hx. apply list_lookup_insert_Some in Hx as [(_ & ? & _)|[? Hx]]; [done|]. by split. }
  split_and!.
  - apply leaving_base. split; [apply inv_runnable; [done|by intros ?%elem_of_empty|done]|].
    apply (base_off _ t) in Hb. replace (∅ ∖ {[t]} : gset nat) with (∅ : gset nat) in Hb by set_solver. done.
  - intros Hp Hw. split; [by destruct Hp|]. intros x c (Hx & H1 & H2) _. apply Hr in Hx as [Hx _]. apply (Hw x); [by split_and!|set_solver].
  - by intros [_ ?]%Hr.
Qed.

Lemma keeps_busy_chain X s s' s'' : keeps_busy ∅ s s' -> keeps_busy X s' s'' -> keeps_busy ∅ s s''.
Proof. intros H1 H2 Hp Hw. destruct (H1 Hp Hw) as [Hp' Hw']. apply H2; [done|]. intros t c Hwt _. apply (Hw' t); [done|set_solver]. Qed.

Lemma ok_release t s : sys_ok s -> sound ∅ (releaseThread t) s.
Proof.
  intros Hs. eapply kwp_mono; [apply releaseThread_hooks, (i_barrier _ _ (ok_inv _ _ Hs))|]. intros _ s' (b & -> & Hb).
  split; [|by apply keeps_busy_sched]. assert (Hm : moved s (set_barrier b s)) by (split; try done; by destruct s).
  eapply (frame_ok _ ∅); [done| |by apply moved_frame]. eapply inv_moved; [by eapply ok_inv|done| |].
  - destruct (i_placed _ _ (ok_inv _ _ Hs)). by split.
  - intros x Hx. by apply elem_of_empty in Hx.
Qed.

Lemma not_big F s t (Q : bool -> Sys -> Prop) : inv F s -> policy_ok (num_cores s) (m_policy (sched s)) -> Q false s -> wp (is_big t) Q s.
Proof. intros Hi Hp HQ. unfold is_big. step. step. step. by destruct (m_policy (sched s)). Qed.

Lemma ok_give_up t time s : sys_ok s -> (t < length (infos s))%nat -> sound ∅ (give_up_core t time) s.
Proof.
  intros Hs Ht. pose proof (ok_inv _ _ Hs) as Hi. destruct (lookup_lt_is_Some_2 _ _ Ht) as [i Hti]. unfold sound, give_up_core. step. unfold getInfo.
  step; [exact Hti|]. eapply kwp_mono; [apply ok_reschedule_if; [done|]|].
  - intros c Hc. assert (core_of s t = Some c) as Hco by (unfold core_of; by rewrite Hti). apply (i_assigned _ _ Hi) in Hco.
    rewrite <- (i_running _ _ Hi). by apply lookup_lt_Some in Hco.
  - intros _ s' (H1 & H3). split; [done|]. eapply keeps_busy_weaken; [|exact H3]. set_solver.
Qed.

(** A thread that stalls leaves its core; one that has no core stays runnable. *)
Lemma ok_stall t r time s : sys_ok s -> started s t -> sound ∅ (stall_thread t r time) s.
Proof.
  intros Hs [Ht Hr]. pose proof (ok_inv _ _ Hs) as Hi. destruct (lookup_lt_is_Some_2 (thread_state s) t) as [st Hst]; [by rewrite (i_states _ _ Hi)|].
  destruct (lookup_lt_is_Some_2 _ _ Hr) as [b Hb]. pose proof (i_infos _ _ Hi) as Hinf.
  unfold sound, stall_thread. step. unfold changeTState. step; [exact Hst|]. step.
  apply (kwp_mono _ (fun _ s' => sys_ok s' /\ keeps_busy ∅ s s')).
  - unfold threadStall, dynamic. step. step. destruct (decide (r = STALL_UNSCHEDULED)) as [->|Hne].
    + rewrite bool_decide_eq_true_2 by done. cbn [negb kwhen].
      assert (sys_ok (with_tstate t (set_stall STALL_UNSCHEDULED st) s)).
      { apply ok_tstate; [done|intros _ _; right; by split|]. intros w Hw. by eapply (ok_waiter _ _ Hs). }
      destruct (m_policy _); step; (split; [done|by apply keeps_busy_sched]).
    + rewrite bool_decide_eq_false_2 by done. cbn [negb kwhen]. cbn [sched set_tstates]. pose proof (ok_policy _ _ Hs) as Hp.
      destruct (ok_off t s Hs) as (H1 & H2 & H3).
      set (s2 := with_tstate t (set_stall r st) (with_runnable t false s)).
      assert (Hs2 : sys_ok s2).
      { apply ok_tstate; [done|done|]. intros w Hw. eapply (ok_waiter _ _ H1 t st); done. }
      assert (Hk2 : keeps_busy ∅ s s2) by (eapply keeps_busy_trans; [exact H2|by apply keeps_busy_sched]).
      assert (Hgo : wp (setRunnable t false;; big ← is_big t; kwhen big (pickBigThread;; moveTo false t);; give_up_core t time)
        (fun _ s' => sys_ok s' /\ keeps_busy ∅ s s') (with_tstate t (set_stall r st) s)).
      { step. unfold setRunnable. step; [exact Hb|]. change (wp (big ← is_big t; kwhen big (pickBigThread;; moveTo false t);; give_up_core t time)
          (fun _ s' => sys_ok s' /\ keeps_busy ∅ s s') s2).
        step. eapply not_big; [by eapply ok_inv|exact (ok_policy _ _ Hs2)|]. cbn [kwhen]. step. step.
        eapply kwp_mono; [apply ok_give_up; [done|]|].
        - unfold s2, infos in *. cbn. lia.
        - intros _ s' [H4 H5]. split; [done|]. by eapply keeps_busy_trans. }
      destruct (m_policy (sched s)); try done; exact Hgo.
  - intros _ s' [H1 H2]. eapply kwp_mono; [by apply ok_release|]. intros _ s'' [H3 H4]. split; [done|]. by eapply keeps_busy_trans.
Qed.

(** ** Wake-ups *)

Definition initialized (s : Sys) (t : nat) : Prop := has_status s t (fun st => status st <> INITIALIZING).
Definition awake (s : Sys) (t : nat) : Prop := has_status s t (fun st => status st = RUNNING).
(** Threads are resumed: no thread loses its core. *)
Record calm (E : gset nat) (s s' : Sys) : Prop := {
  cm_ok : leaving E s';
  cm_busy : keeps_busy ∅ s s';
  cm_core t c : core_of s t = Some c -> core_of s' t = Some c;
  cm_cores : num_cores s' = num_cores s;
  cm_threads : length (threads s') = length (threads s);
  cm_runnable : length (runnable s') = length (runnable s);
  cm_infos : length (infos s') = length (infos s);
  cm_init t : initialized s t -> initialized s' t;
  cm_awake t : awake s t -> awake s' t;
  cm_barrier : bar_frame (barrier s) (barrier s')
}.
#[global] Instance calm_trans E : Transitive (calm E).
Proof.
  intros x y z [] []. split; try congruence; auto; [by eapply keeps_busy_trans|by etransitivity].
Qed.
Lemma calm_started E s s' t : calm E s s' -> started s t -> started s' t.
Proof. intros [] [H1 H2]. split; congruence. Qed.
Lemma calm_sched E s s' : leaving E s' -> sched s' = sched s -> num_cores s' = num_cores s -> length (threads s') = length (threads s) ->
  (forall t, initialized s t -> initialized s' t) -> (forall t, awake s t -> awake s' t) -> bar_frame (barrier s) (barrier s') -> calm E s s'.
Proof.
  intros H Es Ec Et Hin Haw Hbar. split; try done; [by apply keeps_busy_sched|..]; unfold core_of, runnable, infos; by rewrite Es.
Qed.

Lemma frame_awake G s s' t : frame G s s' -> awake s t -> awake s' t.
Proof. intros H (st & Hst & E). destruct (fr_state _ _ _ H _ _ Hst) as (st' & Hst' & [->|[_ ->]]); by eexists. Qed.
Lemma awake_resumed t time msg s x : awake s x -> awake (resumed t time msg s) x.
Proof.
  intros (st & Hst & E). unfold awake, has_status. cbn.
  destruct (decide (x = t)) as [->|]; [rewrite list_lookup_alter_eq, Hst|rewrite list_lookup_alter_ne by done]; eauto.
Qed.
Lemma calm_resume E t time msg s : leaving E s -> started s t -> wp (resumeThread t time msg) (fun _ => calm E s) s.
Proof.
  intros Hs Ht. eapply kwp_mono; [by apply ok_resume|]. intros _ s' (H1 & H2 & H3). split; try done.
  - intros x c Hx. apply (fr_keeps _ _ _ H2); [set_solver|done].
  - by rewrite (fr_cores _ _ _ H2).
  - rewrite (fr_threads _ _ _ H2). cbn. by rewrite length_alter.
  - rewrite (fr_runnable _ _ _ H2). unfold runnable. cbn. by rewrite length_insert.
  - by rewrite (fr_infos _ _ _ H2).
  - intros x (st & Hst & Hne). unfold initialized, has_status.
    assert (exists st1, thread_state (resumed t time msg s) !! x = Some st1 /\ status st1 <> INITIALIZING) as (st1 & Hst1 & Hne1).
    { cbn. destruct (decide (x = t)) as [->|]; [rewrite list_lookup_alter_eq, Hst|rewrite list_lookup_alter_ne by done]; eauto. }
    destruct (fr_state _ _ _ H2 _ _ Hst1) as (st2 & Hst2 & [->|[_ ->]]); by eexists.
  - intros x Hx. eapply frame_awake; [exact H2|]. by apply awake_resumed.
  - apply (fr_barrier _ _ _ H2).
Qed.

(** The queues of waiters change. *)
Definition with_syscalls (y : SyscallServer) (s : Sys) : Sys := on_syscalls (fun _ => y) s.
Lemma calm_syscalls E y s : leaving E s -> (forall w, w ∈ all_waiters y -> started s (w_thread_id w)) -> calm E s (with_syscalls y s).
Proof.
  intros Hs Hw. apply calm_sched; try done. pose proof (ok_inv _ _ Hs) as Hi. split; try by apply Hs.
  - destruct Hi. split; try done. destruct i_placed. by split.
  - done.
Qed.
Lemma elem_all_waiters y w : w ∈ all_waiters y <-> w ∈ m_sleeping y \/ exists a l, m_futexes y !! a = Some l /\ w ∈ l.
Proof.
  unfold all_waiters. rewrite elem_of_app, list_elem_of_join. split; (intros [H|H]; [by left|right]).
  - destruct H as (l & Hw & Hl). apply list_elem_of_fmap in Hl as ([a l'] & -> & Hl). apply elem_of_map_to_list in Hl. eauto.
  - destruct H as (a & l & Ha & Hw). exists l. split; [done|]. apply list_elem_of_fmap. exists (a, l). split; [done|]. by apply elem_of_map_to_list.
Qed.
Lemma futex_waiters (y : SyscallServer) a l :
  (forall w, w ∈ l -> w ∈ all_waiters y) -> forall w, w ∈ all_waiters (set_futexes (<[a := l]> (m_futexes y)) y) -> w ∈ all_waiters y.
Proof.
  intros Hl w. rewrite elem_all_waiters. intros [H|(a' & l' & Ha & Hw)]; [apply elem_all_waiters; by left|]. cbn in Ha.
  destruct (decide (a' = a)) as [->|]; [rewrite lookup_insert_eq in Ha; injection Ha as <-; by apply Hl|].
  rewrite lookup_insert_ne in Ha by done. apply elem_all_waiters. right. eauto.
Qed.
Lemma futex_elem (y : SyscallServer) a w : w ∈ default [] (m_futexes y !! a) -> w ∈ all_waiters y.
Proof. destruct (m_futexes y !! a) as [l|] eqn:E; cbn; [|by intros ?%not_elem_of_nil]. intros Hw. apply elem_all_waiters. right. eauto. Qed.
Lemma take_first_elem p l w rest : take_first p l = Some (w, rest) -> w ∈ l /\ p w = true /\ forall x, x ∈ rest -> x ∈ l.
Proof.
  revert rest. induction l as [|y l IH]; intros rest H; cbn in H; [done|]. destruct (p y) eqn:Ep.
  - injection H as <- <-. split_and!; [left|done|intros; by right].
  - destruct (take_first p l) as [[w' r]|] eqn:E; [|done]. cbn in H. injection H as <- <-. destruct (IH r eq_refl) as (H1 & H2 & H3).
    split_and!; [by right|done|]. intros x [->|Hx]%elem_of_cons; [left|right; auto].
Qed.

(** A waiter of a futex is taken off its queue and resumed. *)
Lemma calm_wake E a p time msg s :
  leaving E s -> forall w rest, take_first p (default [] (m_futexes (syscalls s) !! a)) = Some (w, rest) ->
  wp (put_futex a rest;; resumeThread (w_thread_id w) time msg) (fun _ => calm E s) s.
Proof.
  intros Hs w rest Hw. apply take_first_elem in Hw as (H1 & _ & H2). step. unfold put_futex. step.
  set (y := set_futexes (<[a := rest]> (m_futexes (syscalls s))) (syscalls s)).
  assert (Hc : calm E s (with_syscalls y s)).
  { apply calm_syscalls; [done|]. intros x Hx. apply (ok_waiters _ _ Hs). eapply futex_waiters; [|exact Hx]. intros z Hz. eapply futex_elem. eauto. }
  eapply kwp_mono; [apply (calm_resume E); [apply Hc|]|].
  - apply (calm_started _ _ _ _ Hc). apply (ok_waiters _ _ Hs). by eapply futex_elem.
  - intros u s' H. by etransitivity.
Qed.
Lemma calm_refl E s : leaving E s -> calm E s s.
Proof. intros H. by apply calm_sched. Qed.

Lemma calm_dequeue E a mask time s : leaving E s -> wp (dequeueWaiter a mask time) (fun _ => calm E s) s.
Proof.
  intros Hs. unfold dequeueWaiter, futex. step. step. step. step. destruct (take_first _ _) as [[w rest]|] eqn:Ew; [|step; by apply calm_refl].
  pose proof (calm_wake E a _ time true s Hs w rest Ew) as H. apply wp_bind_inv in H. step. eapply kwp_mono; [exact H|]. intros u s1 H1.
  step. eapply kwp_mono; [exact H1|]. intros u2 s2 H2. by step.
Qed.
Lemma calm_timedOut E time a s : leaving E s -> wp (wakeTimedOut time a) (fun _ => calm E s) s.
Proof.
  intros Hs. unfold wakeTimedOut, futex. step. step. step. step. destruct (take_first _ _) as [[w rest]|] eqn:Ew; [|step; by apply calm_refl].
  exact (calm_wake E a _ time false s Hs w rest Ew).
Qed.
Lemma calm_periodic E traverse time s : leaving E s -> wp (futexPeriodic traverse time) (fun _ => calm E s) s.
Proof.
  intros Hs. unfold futexPeriodic. step. step. step. apply (kwp_mono _ (fun _ => calm E s)).
  - destruct (take_first _ _) as [[w rest]|] eqn:Ew; [|step; by apply calm_refl]. apply take_first_elem in Ew as (H1 & _ & H2).
    step. step. assert (Hc : calm E s (with_syscalls (set_sleeping rest (syscalls s)) s)).
    { apply calm_syscalls; [done|]. intros x Hx. apply (ok_waiters _ _ Hs). apply elem_all_waiters. apply elem_all_waiters in Hx as [Hx|Hx]; [left|by right].
      by apply H2. }
    eapply kwp_mono; [apply (calm_resume E); [apply Hc|]|].
    + apply (calm_started _ _ _ _ Hc), (ok_waiters _ _ Hs), elem_all_waiters. by left.
    + intros u s' H. by etransitivity.
  - intros u1 s1 H1. step. step. eapply kwp_mono; [apply (wp_for (fun _ => calm E s)); [exact H1|]|done].
    intros a l s2 H2. eapply kwp_mono; [apply (calm_timedOut E), H2|]. intros u3 s3 H3. by etransitivity.
Qed.

(** ** Exit *)

Lemma wp_cost E t c cond s (Q : Z -> Sys -> Prop) :
  leaving E s -> core_of s t = Some c -> (forall z, Q z s) -> wp (applyRescheduleCost t cond) Q s.
Proof.
  intros Hs Hc HQ. pose proof (ok_inv _ _ Hs) as Hi. unfold applyRescheduleCost. destruct cond; [|step; apply HQ].
  pose proof (i_created _ _ Hi _ _ Hc) as Ht. destruct (lookup_lt_is_Some_2 _ _ Ht) as [th Hth].
  assert (m_core th = Some c) as Em by (rewrite (p_thread _ _ (i_placed _ _ Hi) _ _ Hth); unfold placement; by rewrite decide_False by set_solver).
  destruct (lookup_lt_is_Some_2 (cores s) c) as [co Hco].
  { fold (num_cores s). rewrite <- (i_running _ _ Hi). apply (i_assigned _ _ Hi) in Hc. by apply lookup_lt_Some in Hc. }
  step. eapply wp_thread; [exact Hth|]. rewrite Em. step. eapply kwp_lift; [done|]. step. unfold getCore. step; [exact Hco|]. step. step. step. apply HQ.
Qed.
Lemma calm_find E va2pa uaddr t s : leaving E s -> (t < length (threads s))%nat ->
  wp (findFutexByUaddr va2pa uaddr t) (fun _ => calm E s) s.
Proof.
  intros Hs Ht. destruct (lookup_lt_is_Some_2 _ _ Ht) as [th Hth]. unfold findFutexByUaddr, futex, put_futex. step. eapply wp_thread; [exact Hth|].
  step. step. step. step. step. step. step. apply calm_syscalls; [done|]. intros w Hw. apply (ok_waiters _ _ Hs). eapply futex_waiters; [|exact Hw].
  apply futex_elem.
Qed.
Lemma calm_wake_many E t c n a mask time s : leaving E s -> core_of s t = Some c ->
  wp (wake_many n (wakeFutexOne a t mask time)) (fun _ => calm E s) s.
Proof.
  revert s. induction n as [|n IH]; intros s Hs Hc; cbn [wake_many]; [step; by apply calm_refl|].
  step. unfold wakeFutexOne. step. eapply wp_cost; [done|exact Hc|]. intros z. eapply kwp_mono; [by apply (calm_dequeue E)|].
  intros [w|] s1 H1; [|by step]. step. eapply kwp_mono; [apply IH; [apply H1|by apply (cm_core _ _ _ H1)]|]. intros k s2 H2. step. by etransitivity.
Qed.
Lemma calm_futexWake E va2pa t c uaddr n mask time s : leaving E s -> core_of s t = Some c ->
  wp (futexWake va2pa t uaddr n mask time) (fun _ => calm E s) s.
Proof.
  intros Hs Hc. pose proof (i_created _ _ (ok_inv _ _ Hs) _ _ Hc) as Ht. unfold futexWake. step. eapply kwp_mono; [by apply (calm_find E)|].
  intros a s1 H1. step. eapply kwp_mono; [eapply (calm_wake_many E); [apply H1|by apply (cm_core _ _ _ H1)]|]. intros k s2 H2. step.
  pose proof (transitivity (H1 : calm E s s1) (H2 : calm E s1 s2)) as H. eapply wp_cost; [apply H|by apply (cm_core _ _ _ H)|]. intros z. by step.
Qed.
Lemma calm_waiter E t time s : leaving E s -> (t < length (threads s))%nat -> (forall st, thread_state s !! t = Some st -> status st = IDLE -> t ∈ E) ->
  has_status s t (fun st => status st = IDLE) -> is_Some (core_of s t) ->
  wp (wakeUpWaiter t time) (fun _ => calm E s) s.
Proof.
  intros Hs Ht HE (st & Hst & Eid) [c Hc]. unfold wakeUpWaiter. step. unfold getTState. step; [exact Hst|].
  destruct (waiter st) as [w|] eqn:Ew; [|step; by apply calm_refl]. step.
  eapply kwp_mono; [apply (calm_resume E); [done|by eapply (ok_waiter _ _ Hs)]|]. intros u s1 H1.
  destruct (lookup_lt_is_Some_2 (thread_state s1) t) as [st1 Hst1].
  { rewrite (i_states _ _ (ok_inv _ _ (cm_ok _ _ _ H1))). by rewrite (cm_threads _ _ _ H1). }
  unfold changeTState. step; [exact Hst1|]. etransitivity; [exact H1|]. apply calm_sched; try done.
  - apply ok_tstate; [apply H1| |done].
    intros _ [Hn|Hn]; [apply (cm_core _ _ _ H1) in Hc; congruence|]. destruct Hn. by eapply HE.
  - intros x (y & Hy & Hne). unfold initialized, has_status. cbn. destruct (decide (x = t)) as [->|]; [|rewrite list_lookup_insert_ne by done; eauto].
    rewrite list_lookup_insert_eq by (by apply lookup_lt_Some in Hy). eexists. split; [done|]. cbn. congruence.
  - intros x (y & Hy & Ey). unfold awake, has_status. cbn. destruct (decide (x = t)) as [->|]; [|rewrite list_lookup_insert_ne by done; eauto].
    rewrite list_lookup_insert_eq by (by apply lookup_lt_Some in Hy). eexists. split; [done|]. cbn. congruence.
Qed.
Lemma calm_emit E e s : leaving E s -> calm E s (set_effects (effects s ++ [e]) s).
Proof.
  intros Hs. apply calm_sched; try done. pose proof (ok_inv _ _ Hs) as Hi. split; try by apply Hs.
  destruct Hi. split; try done. destruct i_placed. by split.
Qed.

(** The hooks of an exit: the thread has left its core [c] and is taken off it. *)
Lemma exit_hooks t c time s :
  inv {[t]} s -> (forall x, x <> t -> can_run s x -> ready s x) -> (t < length (runnable s))%nat -> (t < length (infos s))%nat ->
  core_of s t = Some c -> has_status s t (fun st => status st <> INITIALIZING) -> policy_ok (num_cores s) (m_policy (sched s)) ->
  wp (threadExit t time) (fun _ s' => inv ∅ s' /\ frame {[t]} (with_runnable t false s) s' /\ keeps_busy ∅ s s') s.
Proof.
  intros Hi Hr Ht Hinf Hc Hst Hp. unfold threadExit. eapply wp_dynamic; [exact Hi|].
  destruct (lookup_lt_is_Some_2 _ _ Ht) as [b Hb]. step. unfold setRunnable. step; [exact Hb|].
  assert (Hi1 : inv {[t]} (with_runnable t false s)).
  { apply inv_runnable; [done|by rewrite Hc|done]. }
  assert (Hoff : ~ can_run (with_runnable t false s) t).
  { unfold can_run, runnable. cbn. by rewrite list_lookup_insert_eq. }
  match goal with |- wp _ _ ?x => change x with (with_runnable t false s) end. set (s1 := with_runnable t false s) in *.
  step. eapply not_big; [exact Hi1|exact Hp|]. cbn [kwhen]. step. step. unfold give_up_core. step.
  destruct (lookup_lt_is_Some_2 (infos s1) t) as [i Hti]; [done|]. unfold getInfo. step; [exact Hti|].
  assert (m_core_running i = Some c) as ->. { change (core_of s1 t = Some c) in Hc. unfold core_of in Hc. by rewrite Hti in Hc. }
  assert (Hrun : running s1 !! c = Some (Some t)) by by apply (i_assigned _ _ Hi1).
  eapply kwp_mono; [eapply (reschedule_ok {[t]}); [exact Hi1|exact Hrun|]|].
  - intros x [= <-] Hx. by destruct Hoff.
  - intros _ s2 (H1 & H2 & H3 & H4). assert (Hnone : core_of s2 t = None) by (apply (H4 t); done). split_and!.
    + destruct H1. split; try done. eapply placed_ext; [|exact i_placed]. intros x. unfold placement.
      rewrite (decide_False (P := x ∈ ∅)) by set_solver. case_decide as E; [|done]. apply elem_of_singleton in E as ->. done.
    + eapply frame_mono; [|exact H2]. done.
    + assert (keeps_busy ∅ s s1) as Hk.
      { intros Hpn Hw. split; [by destruct Hpn|]. intros x y (Hx & H5 & H6) _. apply (Hw x); [|set_solver]. split_and!; [|done|done].
        unfold can_run, runnable in *. cbn in Hx. apply list_lookup_insert_Some in Hx as [(_ & ? & _)|[_ Hx]]; done. }
      eapply keeps_busy_chain; [exact Hk|]. eapply keeps_busy_weaken; [|exact H3]. set_solver.
Qed.

Lemma leaving_mono E E' s : E ⊆ E' -> leaving E s -> leaving E' s.
Proof. intros H []. split; try done. intros t Ht. apply ok_ready0. set_solver. Qed.

(** A running thread exits: it wakes the thread that joins it, and gives its core up. *)
Lemma ok_exit va2pa t c s :
  sys_ok s -> started s t -> core_of s t = Some c -> has_status s t (fun st => status st = RUNNING) -> sound ∅ (exit_thread va2pa t) s.
Proof.
  intros Hs [Ht Hr] Hc (st & Hst & Hrun). pose proof (ok_inv _ _ Hs) as Hi. destruct (lookup_lt_is_Some_2 _ _ Ht) as [th Hth].
  assert (m_core th = Some c) as Em by (rewrite (p_thread _ _ (i_placed _ _ Hi) _ _ Hth); unfold placement; by rewrite decide_False by set_solver).
  destruct (lookup_lt_is_Some_2 (cores s) c) as [co Hco].
  { fold (num_cores s). rewrite <- (i_running _ _ Hi). apply (i_assigned _ _ Hi) in Hc. by apply lookup_lt_Some in Hc. }
  unfold sound, exit_thread. step. step. step. apply wp_assert; [apply Nat.ltb_lt; by rewrite (i_states _ _ Hi)|].
  step. eapply wp_thread; [exact Hth|]. rewrite Em. step. step. step. unfold getCore. step; [exact Hco|]. step. unfold getTState. step; [exact Hst|].
  step. apply wp_assert; [by rewrite bool_decide_eq_true|]. step. unfold changeTState. step; [exact Hst|].
  set (s1 := with_tstate t (set_status IDLE st) s). match goal with |- wp _ _ ?x => change x with s1 end.
  assert (H1 : leaving {[t]} s1).
  { apply ok_tstate; [eapply leaving_mono, Hs; set_solver| |intros w Hw; by eapply (ok_waiter _ _ Hs)].
    intros _ [Hn|Hn]; [congruence|set_solver]. }
  assert (Hst1 : thread_state s1 !! t = Some (set_status IDLE st)) by (apply list_lookup_insert_eq; by apply lookup_lt_Some in Hst).
  step. eapply kwp_mono; [apply (calm_waiter {[t]}); [done|done|set_solver|by eexists|by exists c]|]. intros u s2 H2. step.
  apply (kwp_mono _ (fun _ => calm {[t]} s1)).
  { apply wp_when; [|done]. intros _. unfold emit. step. step. step. pose proof (calm_emit {[t]} (WriteMemory c (tid_ptr th) 0) s2 (cm_ok _ _ _ H2)) as H3.
    eapply kwp_mono; [apply (calm_futexWake {[t]} va2pa t c); [apply H3|by apply (cm_core _ _ _ H3), (cm_core _ _ _ H2)]|].
    intros k s4 H4. step. etransitivity; [exact H2|]. by etransitivity. }
  intros _ s3 H3. pose proof (cm_ok _ _ _ H3) as Ho3. pose proof (ok_inv _ _ Ho3) as Hi3.
  assert (Hc3 : core_of s3 t = Some c) by by apply (cm_core _ _ _ H3).
  destruct (lookup_lt_is_Some_2 (threads s3) t) as [th3 Hth3]; [by rewrite (cm_threads _ _ _ H3)|].
  pose proof (p_thread _ _ (i_placed _ _ Hi3) _ _ Hth3) as Em3. unfold placement in Em3. rewrite decide_False in Em3 by set_solver. rewrite Hc3 in Em3.
  pose proof (setCore_away (placement ∅ s3) t th3 s3 (i_placed _ _ Hi3) Hth3) as Haway. rewrite Em3 in Haway.
  step. apply wp_bind_inv in Haway. eapply kwp_mono; [exact Haway|]. intros u4 s4 H4. step. eapply kwp_mono; [exact H4|].
  intros _ s5 (Hm & Hb & Hp). assert (Hs5 : sched s5 = sched s3) by by rewrite (mv_eq _ _ Hm).
  assert (Hi5 : inv {[t]} s5).
  { eapply inv_moved; [exact Hi3|done| |].
    - eapply placed_ext; [|exact Hp]. intros x. unfold without, placement. rewrite (decide_False (P := x ∈ ∅)) by set_solver.
      destruct (decide (x = t)); [rewrite decide_True by set_solver|rewrite decide_False by set_solver]; done.
    - intros x ->%elem_of_singleton _. by exists c. }
  pose proof (moved_frame ∅ _ _ Hm) as Hf5.
  step. eapply kwp_mono; [apply (exit_hooks t c); [done| | | | | |]|].
  - intros x Hx Hxr. eapply frame_ready; [exact Hf5|]. apply (ok_ready _ _ Ho3); [set_solver|]. by apply (frame_can_run _ _ _ _ Hf5).
  - rewrite (fr_runnable _ _ _ Hf5), (cm_runnable _ _ _ H3). exact Hr.
  - rewrite (fr_infos _ _ _ Hf5), (cm_infos _ _ _ H3). pose proof (i_infos _ _ Hi). unfold s1, infos in *. cbn. lia.
  - apply (fr_keeps _ _ _ Hf5); [set_solver|done].
  - destruct (cm_init _ _ _ H3 t) as (y & Hy & Hne); [by eexists|]. exists y. split; [|done]. by rewrite (mv_eq _ _ Hm).
  - rewrite (fr_cores _ _ _ Hf5), (fr_policy _ _ _ Hf5). exact (ok_policy _ _ Ho3).
  - intros _ s6 (H6 & H7 & H8). eapply kwp_mono; [apply ok_release|].
    + apply leaving_base. split; [done|]. apply leaving_base in Ho3 as [_ Hb3].
      eapply frame_base; [|apply (i_states _ _ H6)|exact H7].
      replace (∅ : gset nat) with ({[t]} ∖ {[t]} : gset nat) by set_solver. apply base_off.
      eapply frame_base; [exact Hb3|apply (i_states _ _ Hi5)|exact Hf5].
    + intros _ s7 [H9 H10]. split; [done|]. apply (keeps_busy_trans _ _ s1); [by apply keeps_busy_sched|].
      apply (keeps_busy_trans _ _ s3); [apply H3|]. apply (keeps_busy_trans _ _ s5); [by apply keeps_busy_sched|].
      by eapply keeps_busy_trans.
Qed.

(** ** Creation *)

Definition grown_infos (s : Sys) : list ThreadInfo :=
  if (length (infos s) <=? length (threads s))%nat
  then resize_to (length (infos s) + 16) (ThreadInfo_new (num_cores s)) (infos s) else infos s.
Definition initializing : ThreadState := set_status INITIALIZING ThreadState_new.
(** A thread has been added that has no core and no affinity yet. *)
Definition created (app : Z) (s : Sys) : Sys :=
  on_sched (set_infos (grown_infos s)) (set_tstates (thread_state s ++ [initializing]) (set_threads (threads s ++ [Thread_new app]) s)).

Lemma resize_lookup {A} (l : list A) k x i y : resize_to (length l + k) x l !! i = Some y ->
  l !! i = Some y \/ (length l <= i)%nat /\ y = x.
Proof.
  unfold resize_to. rewrite take_ge by lia. rewrite lookup_app. destruct (l !! i) eqn:E; [by left|]. intros [-> _]%lookup_replicate.
  right. split; [|done]. by apply lookup_ge_None in E.
Qed.
Lemma grown_lookup s i y : grown_infos s !! i = Some y -> infos s !! i = Some y \/ (length (infos s) <= i)%nat /\ y = ThreadInfo_new (num_cores s).
Proof. unfold grown_infos. destruct (_ <=? _)%nat; [apply resize_lookup|by left]. Qed.
Lemma grown_old s i y : infos s !! i = Some y -> grown_infos s !! i = Some y.
Proof.
  intros H. unfold grown_infos. destruct (_ <=? _)%nat; [|done]. unfold resize_to. rewrite take_ge by lia. by apply lookup_app_l_Some.
Qed.
Lemma grown_length s : exists a, length (grown_infos s) = (length (infos s) + 16 * a)%nat /\
  ((length (threads s) <= length (infos s)) -> length (threads s) < length (grown_infos s))%nat.
Proof.
  unfold grown_infos. destruct (Nat.leb_spec (length (infos s)) (length (threads s))).
  - exists 1%nat. unfold resize_to. rewrite length_app, length_take, length_replicate. lia.
  - exists 0%nat. lia.
Qed.
Lemma created_core app s t : core_of (created app s) t = core_of s t.
Proof.
  unfold core_of. change (infos (created app s)) with (grown_infos s). destruct (infos s !! t) as [i|] eqn:E; [by rewrite (grown_old _ _ _ E)|].
  destruct (grown_infos s !! t) as [j|] eqn:Ej; [|done]. apply grown_lookup in Ej as [?|[_ ->]]; [congruence|done].
Qed.

Lemma created_busy app s : keeps_busy ∅ s (created app s).
Proof.
  intros Hp Hw. assert (Hal : forall t c, allowed (created app s) t c <-> allowed s t c).
  { intros t c. unfold allowed, affinity. change (infos (created app s)) with (grown_infos s).
    destruct (infos s !! t) as [i|] eqn:E; [by rewrite (grown_old _ _ _ E)|]. destruct (grown_infos s !! t) as [j|] eqn:Ej; [|done].
    apply grown_lookup in Ej as [?|[_ ->]]; [congruence|]. cbn. split; [|done]. intros H. by apply lookup_replicate in H as [? _]. }
  split; [split|].
  + intros t c c'. rewrite !Hal. apply (pn_one _ Hp).
  + intros t c. rewrite created_core, Hal. apply (pn_core _ Hp).
  + apply (pn_policy _ Hp).
  + intros t c (H1 & H2 & H3). rewrite created_core in H2. rewrite Hal in H3. by apply (Hw t).
Qed.
Lemma ok_created app s : sys_ok s -> sys_ok (created app s).
Proof.
  intros [Hi Hb]%leaving_base. pose proof (i_infos _ _ Hi) as Hlen. destruct (grown_length s) as (a & Hg & Hg').
  assert (Hr : forall t, can_run (created app s) t <-> can_run s t) by done.
  assert (Hst : forall t, ready s t -> ready (created app s) t).
  { intros t (st & H & H'). exists st. split; [|done]. cbn. by apply lookup_app_l_Some. }
  assert (Hstart : forall t, started s t -> started (created app s) t).
  { intros t [H1 H2]. split; [|done]. cbn. rewrite length_app. cbn. lia. }
  apply leaving_base. split.
    + destruct Hi. split; try done.
      * cbn. rewrite !length_app. cbn. lia.
      * change (infos (created app s)) with (grown_infos s). cbn. rewrite length_app. cbn. specialize (Hg' Hlen). lia.
      * change (infos (created app s)) with (grown_infos s). change (runnable (created app s)) with (runnable s). lia.
      * intros t i. change (infos (created app s)) with (grown_infos s). intros [H|[_ ->]]%grown_lookup; [by eapply i_affinity|].
        cbn. by rewrite length_replicate.
      * intros c t. rewrite created_core. apply i_assigned.
      * intros t c. rewrite created_core. intros H%i_created. cbn. rewrite length_app. cbn. lia.
      * assert (Hpl : forall t, placement ∅ (created app s) t = placement ∅ s t) by (intros t; unfold placement; by rewrite created_core).
        assert (Hnew : placement ∅ s (length (threads s)) = None).
        { unfold placement. case_decide; [done|]. destruct (core_of s (length (threads s))) eqn:E; [|done]. apply i_created in E. lia. }
        destruct i_placed. split; cbn.
        -- intros t th Hth. rewrite Hpl. apply lookup_app_Some in Hth as [Hth|[Hge Hth]]; [by apply p_thread|].
           apply list_lookup_singleton_Some in Hth as [Hz <-]. assert (t = length (threads s)) as -> by lia. by rewrite Hnew.
        -- intros c co t Hco. rewrite length_app, Hpl, (p_core _ _ t Hco). cbn. split; intros [H1 H2]; (split; [|done]); [lia|].
           destruct (decide (t = length (threads s))) as [->|]; [congruence|lia].
        -- intros t c. rewrite length_app, Hpl. cbn. intros H1 H2. apply (p_range t); [|done].
           destruct (decide (t = length (threads s))) as [->|]; [congruence|lia].
        -- done.
      * intros t Ht. cbn. rewrite length_app. cbn. assert (t < length (threads s))%nat by by apply i_started. lia.
      * intros t Ht Hn. apply Hst. rewrite created_core in Hn. by apply i_status.
    + destruct Hb. split; try done.
      * intros t Ht Hx. apply Hst. by apply bs_ready0.
      * destruct bs_sizes0 as (x & y & E1 & E2). exists (x + a)%nat, y. change (infos (created app s)) with (grown_infos s).
        change (runnable (created app s)) with (runnable s). lia.
      * intros t i Ht. change (infos (created app s)) with (grown_infos s). cbn in Ht. rewrite length_app in Ht. cbn in Ht.
        intros [H|[_ ->]]%grown_lookup; [|done]. eapply bs_fresh0; [|exact H]. lia.
      * intros w Hw. by apply Hstart, bs_waiters0.
      * intros t st w Hx Hw. apply Hstart. cbn in Hx. apply lookup_app_Some in Hx as [Hx|[_ Hx]]; [by eapply bs_waiter0|].
        apply list_lookup_singleton_Some in Hx as [_ <-]. done.
      * cbn. rewrite !length_app. cbn. lia.
Qed.

(** The affinity of a thread is replaced. *)
Lemma inv_mask F t i j s : inv F s -> infos s !! t = Some i -> m_core_running j = m_core_running i -> length (m_core_affinity j) = num_cores s ->
  inv F (with_info t j s) /\ forall x, core_of (with_info t j s) x = core_of s x.
Proof.
  intros Hi Ht Er El. pose proof (lookup_lt_Some _ _ _ Ht) as Hlt.
  assert (Hc : forall x, core_of (with_info t j s) x = core_of s x).
  { intros x. rewrite with_info_core by done. case_decide as E; [|done]. subst x. unfold core_of. by rewrite Ht, Er. }
  split; [|done]. destruct Hi. split; try done.
  - by rewrite with_info_length.
  - by rewrite with_info_length.
  - intros x y Hy. unfold with_info, infos in Hy. cbn in Hy. apply list_lookup_insert_Some in Hy as [(_ & <- & _)|[_ Hy]]; [done|]. by eapply i_affinity.
  - intros c x. rewrite Hc. apply i_assigned.
  - intros x c. rewrite Hc. apply i_created.
  - apply placed_sched. eapply placed_ext; [|exact i_placed]. intros x. unfold placement. by rewrite Hc.
  - intros x Hx. rewrite Hc. by apply i_flying.
  - intros x Hx. rewrite Hc. by apply i_status.
Qed.
Lemma base_mask D t j s : base D s -> (t < length (threads s))%nat -> base D (with_info t j s).
Proof.
  intros [] Ht. split; try done.
  - by rewrite with_info_length.
  - intros x y Hx Hy. unfold with_info, infos in Hy. cbn in Hy. apply list_lookup_insert_Some in Hy as [(<- & _)|[_ Hy]]; [cbn in Hx; lia|].
    by eapply bs_fresh0.
Qed.

(** Only the affinity of thread [t] and the state of the policy change. *)
Record masked (t : nat) (s s' : Sys) : Prop := {
  mk_ok : sys_ok s';
  mk_core x : core_of s' x = core_of s x;
  mk_running : running s' = running s;
  mk_runnable : runnable s' = runnable s;
  mk_affinity x : x <> t -> affinity s' x = affinity s x;
  mk_threads : threads s' = threads s;
  mk_cores : cores s' = cores s;
  mk_infos : length (infos s') = length (infos s)
}.
#[global] Instance masked_trans t : Transitive (masked t).
Proof.
  intros x y z [] []. split; try done; try congruence.
  intros u Hu. rewrite mk_affinity1 by done. by apply mk_affinity0.
Qed.
Lemma masked_refl t s : sys_ok s -> masked t s s.
Proof. by split. Qed.
Lemma masked_info t i j s : sys_ok s -> infos s !! t = Some i -> (t < length (threads s))%nat ->
  m_core_running j = m_core_running i -> length (m_core_affinity j) = num_cores s -> masked t s (with_info t j s).
Proof.
  intros [Hi Hb]%leaving_base Hti Ht Er El. destruct (inv_mask ∅ t i j s Hi Hti Er El) as [H1 H2]. split; try done.
  - apply leaving_base. split; [done|]. by apply base_mask.
  - intros x Hx. unfold affinity, with_info, infos. cbn. by rewrite list_lookup_insert_ne.
  - by rewrite with_info_length.
Qed.
Lemma masked_policy t p s : sys_ok s -> policy_ok (num_cores s) p -> masked t s (on_sched (set_policy p) s).
Proof.
  intros [Hi Hb]%leaving_base Hp. split; try done. apply leaving_base. split.
  - destruct Hi. split; try done; [destruct i_placed; by split|]. cbn. intros m ->. done.
  - destruct Hb. by split.
Qed.
Lemma masked_add t c i s : sys_ok s -> infos s !! t = Some i -> (t < length (threads s))%nat -> (c < num_cores s)%nat ->
  wp (i ← getInfo t; j ← klift (addAffinity c i); changeInfo t (fun _ => j)) (fun _ => masked t s) s.
Proof.
  intros Hs Hti Ht Hc. pose proof (i_affinity _ _ (ok_inv _ _ Hs) _ _ Hti) as Hl. step. unfold getInfo. step; [exact Hti|]. step. eapply kwp_lift.
  - unfold addAffinity. rewrite wr_lt by lia. done.
  - eapply wp_changeInfo; [exact Hti|]. eapply masked_info; try done. cbn. by rewrite length_insert.
Qed.

Lemma initial_affinity t s : sys_ok s -> (t < length (threads s))%nat -> core_of s t = None ->
  wp (threadSetInitialAffinity t) (fun _ s' => masked t s s' /\
    (is_pinned (m_policy (sched s)) -> is_pinned (m_policy (sched s')) /\ forall c c', allowed s' t c -> allowed s' t c' -> c = c')) s.
Proof.
  intros Hs Ht Hn. pose proof (ok_inv _ _ Hs) as Hi. pose proof (ok_policy _ _ Hs) as Hp.
  destruct (lookup_lt_is_Some_2 (infos s) t) as [i Hti]; [pose proof (i_infos _ _ Hi); lia|].
  pose proof (i_affinity _ _ Hi _ _ Hti) as Hl. unfold threadSetInitialAffinity. step. step.
  destruct (m_policy (sched s)) as [|il mask next|mask|] eqn:Ep; try done; cbn in Hp.
  - destruct Hp as (Hm & Hnext & Hfind). destruct (Hfind (running s) next) as (d & e & E1 & Hd & E2 & He); [by apply (i_running _ _ Hi)|done|].
    step. step. step. eapply kwp_lift; [exact E1|]. step. eapply kwp_lift; [exact E2|]. step. step.
    pose proof (masked_policy t (Pinned il mask e) s Hs) as H1. specialize (H1 ltac:(cbn; split_and!; done)).
    set (s1 := on_sched (set_policy (Pinned il mask e)) s) in *. pose proof (mk_ok _ _ _ H1) as Hs1.
    step. unfold getInfo. step; [exact Hti|]. step. eapply kwp_lift.
    + unfold setAffinitySingle, addAffinity. rewrite wr_lt; [done|]. cbn. rewrite length_fmap. lia.
    + eapply wp_changeInfo; [exact Hti|]. split.
      * etransitivity; [exact H1|]. eapply (masked_info t i); try done. cbn. by rewrite length_insert, length_fmap.
      * intros _. split; [done|]. intros c c'. unfold allowed, affinity, with_info, infos. cbn.
        rewrite list_lookup_insert_eq by (by apply lookup_lt_Some in Hti). cbn.
        intros [(<- & _)|[_ Hx]]%list_lookup_insert_Some [(<- & _)|[_ Hy]]%list_lookup_insert_Some; try done;
          rewrite list_lookup_fmap in *; (try by destruct (m_core_affinity i !! c)); by destruct (m_core_affinity i !! c').
  - step. eapply wp_changeInfo; [exact Hti|]. pose proof (masked_info t i (clearAffinity i) s Hs Hti Ht eq_refl) as H1.
    specialize (H1 ltac:(cbn; by rewrite length_fmap)). step. step.
    eapply kwp_mono; [apply (wp_for (fun ids s' => masked t s s' /\ Forall (fun c => (c < num_cores s)%nat) ids))|].
    + split; [exact H1|]. apply Forall_seq. cbn. unfold num_cores. lia.
    + intros c ids s' [Hk [Hc Hids]%Forall_cons]. destruct (lookup_lt_is_Some_2 mask c) as [b Hb]; [lia|]. step. eapply kwp_lift; [by apply rd_Ok|].
      apply wp_when; [|by intros _]. intros _. destruct (lookup_lt_is_Some_2 (infos s') t) as [i' Hti'].
      { rewrite (mk_infos _ _ _ Hk). by apply lookup_lt_Some in Hti. }
      eapply kwp_mono; [eapply (masked_add t c i'); [apply Hk|done|by rewrite (mk_threads _ _ _ Hk)|unfold num_cores; by rewrite (mk_cores _ _ _ Hk)]|].
      intros u s2 H2. split; [by etransitivity|done].
    + intros _ s' [Hk _]. done.
Qed.

Lemma base_switching D c old new s s' : base D s -> switching c old new s s' -> base D s'.
Proof.
  intros [] Hs. pose proof (sw_threads _ _ _ _ _ Hs) as Ht.
  assert (Hstart : forall t, started s t -> started s' t) by (intros t; unfold started; by rewrite Ht, (sw_runnable _ _ _ _ _ Hs)).
  split.
  - intros t HD. unfold can_run, ready, has_status. rewrite (sw_runnable _ _ _ _ _ Hs), (sw_states _ _ _ _ _ Hs). by apply bs_ready0.
  - rewrite (sw_infos _ _ _ _ _ Hs), (sw_runnable _ _ _ _ _ Hs). done.
  - intros t i. rewrite Ht. intros Hge Hti. pose proof (sw_affinity _ _ _ _ _ Hs t) as E. unfold affinity in E. rewrite Hti in E.
    destruct (infos s !! t) as [j|] eqn:Ej; [|done]. injection E as E _. rewrite E. by eapply bs_fresh0.
  - by rewrite (sw_cores _ _ _ _ _ Hs), (sw_policy _ _ _ _ _ Hs).
  - intros w. rewrite (sw_syscalls _ _ _ _ _ Hs). intros Hw. by apply Hstart, bs_waiters0.
  - intros t st w. rewrite (sw_states _ _ _ _ _ Hs). intros Hx Hw. by eapply Hstart, bs_waiter0.
  - by rewrite (sw_states _ _ _ _ _ Hs), Ht.
Qed.

(** The scheduler gives a new thread a free core. *)
Lemma assign_new t c s :
  sys_ok s -> (t < length (threads s))%nat -> core_of s t = None -> ~ can_run s t -> running s !! c = Some None -> allowed s t c ->
  wp (changeInfo t (setCoreRunning (Some c));; setCoreThread c (Some t);; q ← kget (fun s => m_quantum (sched s)); setQuantumLeft c (fun _ => q))
    (fun _ s' => inv {[t]} s' /\ base ∅ s' /\ core_of s' t = Some c /\ keeps_busy ∅ s s' /\ threads s' = threads s /\ cores s' = cores s) s.
Proof.
  intros [Hi Hb]%leaving_base Ht Hn Hoff Hc Ha. destruct (lookup_lt_is_Some_2 (infos s) t) as [i Hti]; [pose proof (i_infos _ _ Hi); lia|].
  assert (Hlt : (c < length (running s))%nat) by by apply lookup_lt_Some in Hc.
  destruct (lookup_lt_is_Some_2 (m_quantum_left (sched s)) c) as [q Hq]; [rewrite (i_quantum _ _ Hi), <- (i_running _ _ Hi); lia|].
  step. eapply wp_changeInfo; [exact Hti|]. pose proof (changed_info _ _ _ _ t (setCoreRunning (Some c) i) _ (changed_refl s) Hti eq_refl) as H1.
  step. unfold setCoreThread. step; [exact Hc|]. pose proof (changed_running c (Some t) _ _ _ _ H1) as H2. step. step.
  unfold setQuantumLeft. step; [exact Hq|].
  match goal with |- inv _ ?x /\ _ => set (s' := x) end.
  assert (Hs' : switching c None (Some t) s s').
  { eapply changed_switching; [|].
    - instantiate (1 := fun x => if decide (x = t) then Some c else core_of s x). destruct H2. split; try done. cbn. by rewrite length_insert.
    - intros x. unfold switched. destruct (decide (x = t)) as [->|]; [by rewrite decide_True|]. by rewrite decide_False by congruence. }
  split_and!; try done.
  - replace ({[t]} : gset nat) with (∅ ∪ thread_set (Some t)) by (cbn; set_solver). eapply (inv_switch ∅ c None); try done.
    + by intros x [= <-].
    + apply placed_sched, placed_sched, placed_sched. apply (i_placed _ _ Hi).
  - by eapply base_switching.
  - rewrite (sw_core_of _ _ _ _ _ Hs'). unfold switched. by rewrite decide_True.
  - intros Hp Hw. assert (Hal : forall x y, allowed s' x y <-> allowed s x y) by (intros x y; unfold allowed; by rewrite (sw_affinity _ _ _ _ _ Hs')).
    split; [split|].
    + intros x y z. rewrite !Hal. apply (pn_one _ Hp).
    + intros x y. rewrite (sw_core_of _ _ _ _ _ Hs'), Hal. unfold switched. case_decide as E; [by injection E as <-; intros [= <-]|].
      case_decide; [done|]. apply (pn_core _ Hp).
    + rewrite (sw_policy _ _ _ _ _ Hs'). apply (pn_policy _ Hp).
    + intros x y (Hx1 & Hx2 & Hx3) _. rewrite (sw_core_of _ _ _ _ _ Hs') in Hx2. rewrite Hal in Hx3. unfold switched in Hx2.
      case_decide as E; [done|]. case_decide; [done|]. rewrite (sw_running _ _ _ _ _ Hs'). destruct (decide (y = c)) as [->|Hne].
      * rewrite list_lookup_insert_eq by done. eauto.
      * rewrite list_lookup_insert_ne by done. apply (Hw x); [|set_solver]. split_and!; try done.
Qed.

(** A new thread takes the core that it has been given. *)
Lemma start_on t c s : inv {[t]} s -> base ∅ s -> core_of s t = Some c ->
  wp (setCore t (Some c);; changeCore c (setState INITIALIZING))
    (fun _ s' => sys_ok s' /\ keeps_busy ∅ s s' /\ length (threads s') = length (threads s)) s.
Proof.
  intros Hi Hb Hc. pose proof (i_created _ _ Hi _ _ Hc) as Ht.
  assert (Hcc : (c < num_cores s)%nat). { rewrite <- (i_running _ _ Hi). apply (i_assigned _ _ Hi) in Hc. by apply lookup_lt_Some in Hc. }
  step. eapply kwp_mono; [eapply (setCore_onto (placement {[t]} s)); [apply (i_placed _ _ Hi)|done| |done|]|].
  { unfold placement. by rewrite decide_True by set_solver. }
  { intros x Hx. unfold placement. case_decide as E; [done|]. intros Hxc. apply (i_assigned _ _ Hi) in Hxc, Hc. rewrite Hc in Hxc.
    injection Hxc as ->. set_solver. }
  intros _ s1 (Hm1 & _ & Hp1). eapply kwp_mono; [eapply setState_placed; [exact Hp1|exists t; rewrite (mv_threads _ _ Hm1); unfold onto; by rewrite decide_True]|].
  intros _ s2 (Hm2 & _ & Hp2). pose proof (transitivity Hm1 Hm2 : moved s s2) as Hm.
  split_and!; [|by apply keeps_busy_moved|by apply mv_threads].
  assert (Hi2 : inv ∅ s2).
  { eapply inv_moved; [exact Hi|done| |by intros x ?%elem_of_empty]. eapply placed_ext; [|exact Hp2]. intros x. unfold onto, placement.
    rewrite (decide_False (P := x ∈ ∅)) by set_solver. case_decide as E; [by subst x|]. by rewrite decide_False by set_solver. }
  apply leaving_base. split; [done|]. eapply frame_base; [exact Hb|apply (i_states _ _ Hi2)|by apply (moved_frame ∅)].
Qed.

(** A new thread gets a core if one that it may use is free. *)
Record creatable (app : Z) (s : Sys) : Prop := {
  cr_ok : sys_ok (created app s);
  cr_states : length (thread_state s) = length (threads s);
  cr_core : core_of s (length (threads s)) = None;
  cr_off : ~ can_run s (length (threads s));
  cr_fresh i : infos s !! length (threads s) = Some i -> m_has_affinity i = false
}.
Lemma ok_creatable app s : sys_ok s -> creatable app s.
Proof.
  intros Hs. pose proof (ok_inv _ _ Hs) as Hi. split.
  - by apply ok_created.
  - apply (i_states _ _ Hi).
  - destruct (core_of s (length (threads s))) eqn:E; [|done]. apply (i_created _ _ Hi) in E. lia.
  - intros Hx%(i_started _ _ Hi). lia.
  - intros i. by apply (ok_fresh _ _ Hs).
Qed.
Lemma ok_create app s : creatable app s -> wp (createThread_unlocked app) (fun t s' => t = length (threads s) /\ sys_ok s' /\ keeps_busy ∅ s s' /\
  length (threads s') = S (length (threads s))) s.
Proof.
  intros Hcr. pose proof (cr_ok _ _ Hcr) as Hs2. pose proof (created_busy app s) as Hk2. pose proof (ok_inv _ _ Hs2) as Hi2.
  pose proof (cr_states _ _ Hcr) as Hlens.
  set (t := length (threads s)) in *. set (s2 := created app s) in *.
  assert (Ht : (t < length (threads s2))%nat) by (cbn; rewrite length_app; cbn; lia).
  assert (Hn : core_of s2 t = None).
  { unfold s2. rewrite created_core. apply (cr_core _ _ Hcr). }
  assert (Hoff : ~ can_run s2 t) by apply (cr_off _ _ Hcr).
  destruct (lookup_lt_is_Some_2 (infos s2) t) as [i Hti]; [pose proof (i_infos _ _ Hi2); lia|].
  assert (Hfresh : m_has_affinity i = false).
  { apply grown_lookup in Hti as [Hti|[_ ->]]; [|done]. by apply (cr_fresh _ _ Hcr). }
  unfold createThread_unlocked. step. step. step. step. step. unfold changeTState. step.
  { cbn. rewrite lookup_app_r by (rewrite Hlens; lia). fold t. rewrite Hlens. fold t. by rewrite Nat.sub_diag. }
  step. match goal with |- wp (threadCreate ?n) ?Q ?x => assert (Hgo : wp (base_threadCreate t) Q x) end.
  2:{ unfold threadCreate. step. step. cbn. pose proof (ok_policy _ _ Hs2) as Hp. cbn in Hp. destruct (m_policy (sched s)); done. }
  match goal with |- wp _ _ ?x => set (s1 := x) end.
  assert (E1 : thread_state s1 = thread_state s ++ [initializing]).
  { cbn. rewrite insert_app_r_alt by (rewrite Hlens; lia). rewrite Hlens, Nat.sub_diag. done. }
  unfold base_threadCreate. step. step. step. apply (kwp_mono _ (fun _ s' => s' = s2)).
  { assert (Es1 : s1 = set_tstates (thread_state s ++ [initializing]) (set_threads (threads s ++ [Thread_new app]) s)).
    { unfold s1 in *. cbn in E1. unfold set_tstates. cbn. by rewrite E1. }
    rewrite Es1. unfold s2, created, grown_infos. cbn. fold (infos s). fold t. apply wp_when; intros Hlen; rewrite Hlen.
    - unfold grow_infos. step. step. step. done.
    - destruct s as [? ? ? ? [] ? ? ? ?]. done. }
  intros _ s' ->. step. unfold getInfo. step; [exact Hti|]. rewrite Hfresh. cbn [negb kwhen]. step. eapply kwp_mono; [by apply initial_affinity|].
  intros _ s3 [H3 H3']. pose proof (mk_ok _ _ _ H3) as Hs3. pose proof (ok_inv _ _ Hs3) as Hi3.
  assert (Ht3 : (t < length (threads s3))%nat) by by rewrite (mk_threads _ _ _ H3).
  assert (Hn3 : core_of s3 t = None) by by rewrite (mk_core _ _ _ H3).
  assert (Hoff3 : ~ can_run s3 t) by (unfold can_run; by rewrite (mk_runnable _ _ _ H3)).
  assert (Hk3 : keeps_busy ∅ s2 s3).
  { intros Hp Hw. destruct (H3' (pn_policy _ Hp)) as [Hpp Hone].
    assert (Hal : forall x y, x <> t -> allowed s3 x y <-> allowed s2 x y) by (intros x y Hx; unfold allowed; by rewrite (mk_affinity _ _ _ H3)).
    split; [split|].
    - intros x y z. destruct (decide (x = t)) as [->|Hx]; [apply Hone|]. rewrite !Hal by done. apply (pn_one _ Hp).
    - intros x y. rewrite (mk_core _ _ _ H3). intros Hx. apply Hal; [|by apply (pn_core _ Hp)]. intros ->. congruence.
    - done.
    - intros x y (Hx1 & Hx2 & Hx3) _. rewrite (mk_core _ _ _ H3) in Hx2. rewrite (mk_running _ _ _ H3).
      destruct (decide (x = t)) as [->|Hx]; [done|]. rewrite Hal in Hx3 by done. apply (Hw x); [|set_solver].
      split_and!; try done. unfold can_run in *. by rewrite (mk_runnable _ _ _ H3) in Hx1. }
  step. eapply wp_findFree; [exact Hi3|rewrite (mk_infos _ _ _ H3); by apply lookup_lt_Some in Hti|].
  assert (Hlen : length (threads s3) = S t) by (rewrite (mk_threads _ _ _ H3); cbn; rewrite length_app; cbn; lia).
  intros [c|] Ho.
  - destruct Ho as [Hc Ha]. pose proof (assign_new t c s3 Hs3 Ht3 Hn3 Hoff3 Hc Ha) as Has. apply wp_bind_inv in Has.
    step. eapply kwp_mono; [exact Has|]. intros u s4 H4. step. eapply kwp_mono; [exact H4|]. intros _ s5 (H5 & H6 & H7 & H8 & H9 & H10).
    step. step. eapply kwp_mono; [by apply start_on|]. intros _ s6 (H11 & H12 & H13). step. split_and!; [done|done| |].
    + eapply keeps_busy_trans; [exact Hk2|]. eapply keeps_busy_trans; [exact Hk3|]. by eapply keeps_busy_trans.
    + rewrite H13, H9. exact Hlen.
  - destruct (lookup_lt_is_Some_2 (infos s3) t) as [j Htj]; [rewrite (mk_infos _ _ _ H3); by apply lookup_lt_Some in Hti|].
    step. eapply wp_changeInfo; [exact Htj|]. step. step. step. step. step. step.
    assert (Hj : m_core_running j = None) by (unfold core_of in Hn3; by rewrite Htj in Hn3).
    pose proof (masked_info t j (setCoreRunning None j) s3 Hs3 Htj Ht3 (eq_sym Hj) (i_affinity _ _ Hi3 _ _ Htj)) as H4.
    split_and!; [done|apply H4| |done]. eapply keeps_busy_trans; [exact Hk2|]. eapply keeps_busy_trans; [exact Hk3|].
    intros Hp Hw. assert (Hal : forall x y, allowed (with_info t (setCoreRunning None j) s3) x y <-> allowed s3 x y).
    { intros x y. unfold allowed. by rewrite (with_info_affinity _ _ _ _ _ Htj). }
    split; [split|].
    + intros x y z. rewrite !Hal. apply (pn_one _ Hp).
    + intros x y. rewrite (mk_core _ _ _ H4), Hal. apply (pn_core _ Hp).
    + apply (pn_policy _ Hp).
    + intros x y (Hx1 & Hx2 & Hx3) _. rewrite (mk_core _ _ _ H4) in Hx2. rewrite Hal in Hx3. apply (Hw x); [done|set_solver].
Qed.

(** ** Start *)

Lemma ok_thread w th th' s : sys_ok s -> threads s !! w = Some th -> m_core th' = m_core th -> sys_ok (set_threads (<[w := th']> (threads s)) s).
Proof.
  intros [Hi Hb]%leaving_base Hw Em. apply leaving_base. split.
  - destruct Hi. split; try done; cbn; rewrite ?length_insert; try done.
    destruct i_placed. split; cbn; rewrite ?length_insert; try done. intros x y Hx.
    apply list_lookup_insert_Some in Hx as [(<- & <- & _)|[_ Hx]]; [rewrite Em; by apply p_thread|by apply p_thread].
  - destruct Hb. split; try done; cbn; rewrite ?length_insert; try done.
    + intros x Hx. destruct (bs_waiters0 x Hx). split; [cbn; by rewrite length_insert|done].
    + intros x st y Hx Hy. destruct (bs_waiter0 x st y Hx Hy). split; [cbn; by rewrite length_insert|done].
Qed.

Definition grown_runnable (t : nat) (l : list bool) : list bool := if (length l <=? t)%nat then l ++ replicate 16 false else l.
Lemma grown_can_run t l x : grown_runnable t l !! x = Some true <-> l !! x = Some true.
Proof.
  unfold grown_runnable. destruct (_ <=? _)%nat; [|done]. split; [|by apply lookup_app_l_Some].
  intros [H|[_ [? _]%lookup_replicate]]%lookup_app_Some; done.
Qed.
Lemma ok_grown t s : sys_ok s -> (t < length (threads s))%nat ->
  sys_ok (on_sched (fun x => set_runnable (grown_runnable t (m_threads_runnable x)) x) s).
Proof.
  intros [Hi Hb]%leaving_base Ht. set (s' := on_sched _ s).
  assert (Hr : forall x, can_run s' x <-> can_run s x) by (intros x; apply grown_can_run).
  assert (Hl : exists k, length (runnable s') = (length (runnable s) + 16 * k)%nat /\ (k = 0 \/ k = 1 /\ length (runnable s) <= t)%nat).
  { unfold runnable, s'. cbn. unfold grown_runnable. destruct (Nat.leb_spec (length (m_threads_runnable (sched s))) t).
    - exists 1%nat. rewrite length_app, length_replicate. lia.
    - exists 0%nat. lia. }
  destruct Hl as (k & Hl & Hk). assert (Hstart : forall x, started s x -> started s' x) by (intros x [H1 H2]; split; [done|lia]).
  apply leaving_base. split.
  - destruct (bs_sizes _ _ Hb) as (a & b & E1 & E2). destruct Hi. split; try done.
    + change (infos s') with (infos s). lia.
    + exact (placed_sched _ _ _ i_placed).
    + intros x. rewrite Hr. apply i_started.
    + intros x. rewrite Hr. apply i_status.
  - destruct Hb. split; try done.
    + intros x Hx. rewrite Hr. by apply bs_ready0.
    + destruct bs_sizes0 as (a & b & E1 & E2). exists a, (b + k)%nat. change (infos s') with (infos s). lia.
    + intros w Hw. by apply Hstart, bs_waiters0.
    + intros x st w Hx Hw. by eapply Hstart, bs_waiter0.
Qed.

(** A thread that becomes runnable takes a free core that it may use. *)
Lemma ok_on t time s : sys_ok s -> started s t -> ready s t ->
  wp (setRunnable t true;; free ← findFreeCoreForThread t; match free with Some c => reschedule time c | None => mret tt end)
    (fun _ s' => sys_ok s' /\ keeps_busy ∅ s s' /\ length (threads s') = length (threads s)) s.
Proof.
  intros Hs [Ht Hr] Hready. pose proof (ok_inv _ _ Hs) as Hi. destruct (lookup_lt_is_Some_2 _ _ Hr) as [b Hb].
  step. unfold setRunnable. step; [exact Hb|]. match goal with |- wp _ _ ?x => change x with (with_runnable t true s) end.
  set (s1 := with_runnable t true s).
  assert (Hs1 : sys_ok s1).
  { apply leaving_base in Hs as [_ Hbs]. apply leaving_base. split; [apply inv_runnable; [done|by intros ?%elem_of_empty|done]|].
    assert (Hstart : forall x, started s x -> started s1 x) by (intros x [H1 H2]; split; [done|]; unfold runnable; cbn; by rewrite length_insert).
    destruct Hbs. split; try done.
    - intros x HE Hx. destruct (decide (x = t)) as [->|Hne]; [done|]. apply bs_ready0; [done|]. unfold can_run, runnable in Hx. cbn in Hx.
      by rewrite list_lookup_insert_ne in Hx.
    - destruct bs_sizes0 as (a & c & E1 & E2). exists a, c. split; [done|]. unfold runnable. cbn. by rewrite length_insert.
    - intros w Hw. by apply Hstart, bs_waiters0.
    - intros x st w Hx Hw. by eapply Hstart, bs_waiter0. }
  assert (Hp1 : pinned s -> pinned s1) by (intros []; by split).
  assert (Hw1 : forall x c, waiting s1 x c -> x <> t -> waiting s x c).
  { intros x c (H1 & H2 & H3) Hne. split; [|done]. unfold can_run, runnable in *. cbn in H1. by rewrite list_lookup_insert_ne in H1. }
  step. eapply wp_findFree; [by eapply ok_inv|pose proof (i_infos _ _ Hi); unfold s1, infos in *; cbn; lia|].
  intros [c|] Ho.
  - destruct Ho as [Hc Ha]. eapply kwp_mono; [eapply (reschedule_ok ∅); [by eapply ok_inv|exact Hc|done]|].
    intros _ s2 (H1 & H2 & H3 & _). split_and!; [by eapply frame_ok| |by rewrite (fr_threads _ _ _ H2)].
    intros Hp Hw. apply H3; [by apply Hp1|]. intros x y Hxy Hy. destruct (decide (x = t)) as [->|Hne].
    + destruct Hy. apply elem_of_singleton. destruct Hxy as (_ & _ & Hxy). by eapply (pn_one _ Hp).
    + apply (Hw x); [by apply Hw1|set_solver].
  - step. split_and!; [done| |done]. intros Hp Hw. split; [by apply Hp1|]. intros x y Hxy _. destruct (decide (x = t)) as [->|Hne].
    + apply Ho. apply Hxy.
    + apply (Hw x); [by apply Hw1|set_solver].
Qed.

Lemma wp_busy {A} (m : K A) s0 s : keeps_busy ∅ s0 s -> wp m (fun _ s' => sys_ok s' /\ keeps_busy ∅ s s') s ->
  wp m (fun _ s' => sys_ok s' /\ keeps_busy ∅ s0 s') s.
Proof. intros Hk H. eapply kwp_mono; [exact H|]. intros _ s' [H1 H2]. split; [done|]. by eapply keeps_busy_trans. Qed.

Lemma set_core_state c x s : sys_ok s -> (exists t, core_of s t = Some c) -> sound ∅ (changeCore c (setState x)) s.
Proof.
  intros Hs [t Ht]. pose proof (ok_inv _ _ Hs) as Hi. eapply kwp_mono; [eapply setState_placed; [apply (i_placed _ _ Hi)|]|].
  - exists t. split; [by eapply (i_created _ _ Hi)|]. unfold placement. by rewrite decide_False by set_solver.
  - intros _ s' (Hm & _ & Hp). split; [|by apply keeps_busy_moved]. eapply (frame_ok _ ∅); [done| |by apply moved_frame].
    eapply inv_moved; [done|done|done|by intros y ?%elem_of_empty].
Qed.
Lemma core_in_range F s t c : inv F s -> core_of s t = Some c -> (c < num_cores s)%nat.
Proof. intros Hi H. rewrite <- (i_running _ _ Hi). apply (i_assigned _ _ Hi) in H. by apply lookup_lt_Some in H. Qed.
Lemma thread_core t th s : sys_ok s -> threads s !! t = Some th -> m_core th = core_of s t.
Proof.
  intros Hs Hth. rewrite (p_thread _ _ (i_placed _ _ (ok_inv _ _ Hs)) _ _ Hth). unfold placement. by rewrite decide_False by set_solver.
Qed.

(** The thread that waited for the start is signalled. *)
Lemma ok_signal_waiter t time s : sys_ok s -> (t < length (threads s))%nat ->
  sound ∅ (st ← getTState t;
    match waiter st with
    | Some w => getThreadFromID w;; changeThread w (signal time false);; changeTState t (set_waiter None)
    | None => mret tt
    end) s.
Proof.
  intros Hs Ht. pose proof (ok_inv _ _ Hs) as Hi. destruct (lookup_lt_is_Some_2 (thread_state s) t) as [st Hst]; [by rewrite (i_states _ _ Hi)|].
  unfold sound. step. unfold getTState. step; [exact Hst|]. destruct (waiter st) as [w|] eqn:Ew; [|step; split; [done|by apply keeps_busy_sched]].
  destruct (ok_waiter _ _ Hs _ _ _ Hst Ew) as [Hw _]. destruct (lookup_lt_is_Some_2 _ _ Hw) as [th Hth].
  step. eapply wp_thread; [exact Hth|]. step. unfold changeThread. step; [exact Hth|]. unfold changeTState. step; [exact Hst|].
  split; [|by apply keeps_busy_sched]. apply (ok_tstate ∅ t (set_waiter None st)); [by eapply ok_thread| |done].
  intros Hr _. destruct (ok_ready _ _ Hs t) as (st' & Hst' & H); [set_solver|done|]. rewrite Hst in Hst'. injection Hst' as <-. exact H.
Qed.

(** A thread that has been created starts to run, on a core if there is one for it. *)
Lemma ok_start t time s : sys_ok s -> (t < length (threads s))%nat -> (t < length (runnable s) + 16)%nat -> sound ∅ (onThreadStart t time) s.
Proof.
  intros Hs Ht Hlt. pose proof (ok_inv _ _ Hs) as Hi. destruct (lookup_lt_is_Some_2 _ _ Ht) as [th Hth].
  destruct (lookup_lt_is_Some_2 (thread_state s) t) as [st Hst]; [by rewrite (i_states _ _ Hi)|].
  unfold sound, onThreadStart. step. eapply wp_thread; [exact Hth|]. step. unfold changeTState at 1. step; [exact Hst|].
  assert (Hs1 : sys_ok (with_tstate t (set_status RUNNING st) s)).
  { apply ok_tstate; [done|by left|]. intros w Hw. by eapply (ok_waiter _ _ Hs). }
  match goal with |- wp _ _ ?x => change x with (with_tstate t (set_status RUNNING st) s) end. set (s1 := with_tstate t _ s) in *.
  assert (Hst1 : ready s1 t). { eexists. split; [apply list_lookup_insert_eq; by apply lookup_lt_Some in Hst|by left]. }
  step. apply (kwp_mono _ (fun _ s' => sys_ok s' /\ keeps_busy ∅ s s' /\ length (threads s') = length (threads s))).
  { unfold threadStart. eapply wp_dynamic; [by eapply ok_inv|]. step. step. step. pose proof (ok_grown t s1 Hs1 Ht) as Hs2.
    set (s2 := on_sched _ s1) in Hs2. apply (kwp_mono _ (fun _ s' => s' = s2)).
    { unfold s2, grown_runnable. apply wp_when; intros E.
      - step. unfold on_sched. by rewrite E.
      - unfold on_sched. rewrite E. by destruct s as [? ? ? ? [] ? ? ? ?]. }
    intros _ s' ->. eapply kwp_mono; [apply ok_on; [done| |done]|].
    - split; [done|]. unfold runnable, s2. cbn. unfold grown_runnable. destruct (Nat.leb_spec (length (m_threads_runnable (sched s))) t); [|done].
      rewrite length_app, length_replicate. exact Hlt.
    - intros _ s3 (H1 & H2 & H3). split_and!; [done| |done]. eapply keeps_busy_trans; [|exact H2].
      intros Hp Hw. split; [by destruct Hp|]. intros x c (Hx1 & Hx2 & Hx3). apply (Hw x). split; [|done]. by apply (grown_can_run t). }
  intros _ s3 (Hs3 & Hk3 & Hl3). destruct (lookup_lt_is_Some_2 (threads s3) t) as [th3 Hth3]; [by rewrite Hl3|].
  pose proof (thread_core t th3 s3 Hs3 Hth3) as Ec. pose proof (ok_inv _ _ Hs3) as Hi3.
  destruct (lookup_lt_is_Some_2 (thread_state s3) t) as [st3 Hst3]; [by rewrite (i_states _ _ Hi3), Hl3|].
  step. eapply wp_thread; [exact Hth3|]. step.
  apply (kwp_mono _ (fun _ s' => sys_ok s' /\ keeps_busy ∅ s s' /\ length (threads s') = length (threads s))).
  - rewrite Ec. destruct (core_of s3 t) as [c|] eqn:Hc.
    + step. eapply kwp_mono; [eapply setState_placed; [apply (i_placed _ _ Hi3)|exists t; split; [by rewrite Hl3|]; unfold placement; by rewrite decide_False by set_solver]|].
      intros _ s4 (Hm & _ & Hp). assert (Hs4 : sys_ok s4).
      { eapply (frame_ok _ ∅); [done| |by apply moved_frame]. eapply inv_moved; [done|done|done|by intros y ?%elem_of_empty]. }
      destruct (lookup_lt_is_Some_2 (cores s4) c) as [co Hco].
      { fold (num_cores s4). rewrite (mv_cores _ _ Hm). by eapply core_in_range. }
      step. unfold getCore. step; [exact Hco|]. step. unfold emit. step. step. unfold changeTState. step; [by rewrite (mv_eq _ _ Hm)|].
      set (e := QueueSpawn c _). pose proof (cm_ok _ _ _ (calm_emit ∅ e s4 Hs4)) as Hs5. set (s5 := set_effects _ s4) in *.
      assert (Hs6 : sys_ok (with_tstate t (set_status RUNNING st3) s5)).
      { apply ok_tstate; [done|by left|]. intros w Hw. eapply (ok_waiter _ _ Hs5 t st3); [change (thread_state s4 !! t = Some st3); by rewrite (mv_eq _ _ Hm)|done]. }
      match goal with |- wp _ _ ?x => change x with (with_tstate t (set_status RUNNING st3) s5) end.
      step. eapply kwp_mono; [apply releaseThread_hooks, (i_barrier _ _ (ok_inv _ _ Hs6))|]. intros _ s7 (b & -> & Hb). step.
      assert (Hm7 : moved (with_tstate t (set_status RUNNING st3) s5) (set_barrier b (with_tstate t (set_status RUNNING st3) s5))) by (split; try done).
      split_and!.
      * eapply (frame_ok _ ∅); [exact Hs6| |by apply moved_frame]. eapply inv_moved; [by eapply ok_inv|done| |by intros x ?%elem_of_empty].
        destruct (i_placed _ _ (ok_inv _ _ Hs6)). by split.
      * eapply keeps_busy_trans; [exact Hk3|]. apply keeps_busy_sched. cbn. by rewrite (mv_eq _ _ Hm).
      * cbn. by rewrite (mv_threads _ _ Hm), Hl3.
    + step. unfold changeTState. step; [exact Hst3|]. step. split_and!; [|eapply keeps_busy_trans; [exact Hk3|by apply keeps_busy_sched]|done].
      apply (ok_tstate ∅ t (set_stall STALL_UNSCHEDULED st3)); [done|intros _ _; right; by split|]. intros w Hw. by eapply (ok_waiter _ _ Hs3).
  - intros time' s4 (H1 & H2 & H3). apply wp_busy; [done|]. apply ok_signal_waiter; [done|by rewrite H3].
Qed.
End operations.
