(* ===== verification/ThreadPolicy.v ===== *)
(** * Runs of the thread manager

    The remaining operations of the scheduler (yields, changes of affinity, the hook of the
    barrier), the release of the barrier, and what holds of every run of the system: no
    operation fails, the scheduler, the threads and the cores agree, and the pinned scheduler
    leaves no core free that a thread waits for. *)

From stdpp Require Import base tactics list numbers gmap sets.
From Stdlib Require Import ZArith Lia.
From S2P Require Import Prelude Utils Timing Threads ThreadProps ThreadOps.
Local Open Scope Z_scope.
Local Open Scope mach_scope.

Section operations.
Context {who : Setting}.

(** ** Rescheduling all cores *)

(** Threads have been scheduled anew, and nothing else has happened. *)
Record settled (s s' : Sys) : Prop := {
  st_ok : sys_ok s';
  st_busy : keeps_busy ∅ s s';
  st_frame : exists G, frame G s s'
}.
#[global] Instance settled_trans : Transitive settled.
Proof.
  intros x y z [_ H1 [G1 F1]] [H2 H3 [G2 F2]]. split; [done|by eapply keeps_busy_trans|]. exists (G1 ∪ G2).
  transitivity y; (eapply frame_mono; [|eassumption]); set_solver.
Qed.
Lemma settled_refl s : sys_ok s -> settled s s.
Proof. intros H. split; [done|by apply keeps_busy_sched|by exists ∅]. Qed.
Lemma settled_cores s s' : settled s s' -> num_cores s' = num_cores s.
Proof. intros [_ _ [G H]]. apply (fr_cores _ _ _ H). Qed.

Lemma settled_quantum c q s : sys_ok s -> (c < num_cores s)%nat -> wp (setQuantumLeft c q) (fun _ => settled s) s.
Proof.
  intros Hs Hc. eapply kwp_mono; [eapply (quantum_keeps ∅ ∅ c q s s ∅); [by eapply ok_inv|done|by apply keeps_busy_sched|done]|].
  intros _ s' (H1 & H2 & H3 & _). split; [by eapply frame_ok|done|by exists ∅].
Qed.
Lemma settled_reschedule time c s : sys_ok s -> (c < num_cores s)%nat -> wp (reschedule time c) (fun _ => settled s) s.
Proof.
  intros Hs Hc. eapply kwp_mono; [by apply ok_reschedule|]. intros _ s' (H1 & H2 & H3). split; [done| |done].
  eapply keeps_busy_weaken; [|exact H2]. set_solver.
Qed.
(** One settled step after another. *)
Lemma settled_bind {A B} (m : K A) (k : A -> K B) s :
  wp m (fun _ => settled s) s -> (forall a s', settled s s' -> wp (k a) (fun _ => settled s') s') -> wp (m ≫= k) (fun _ => settled s) s.
Proof.
  intros Hm Hk. step. eapply kwp_mono; [exact Hm|]. intros a s' H. eapply kwp_mono; [by apply Hk|]. intros b s2 H2. exact (transitivity H H2).
Qed.

Lemma settled_free time t s : sys_ok s -> (t < length (infos s))%nat ->
  wp (free ← findFreeCoreForThread t; match free with Some c => reschedule time c | None => mret tt end) (fun _ => settled s) s.
Proof.
  intros Hs Ht. pose proof (ok_inv _ _ Hs) as Hi. step. eapply wp_findFree; [done|done|]. intros [c|] Ho; [|step; by apply settled_refl].
  destruct Ho as [Hc _]. apply settled_reschedule; [done|]. rewrite <- (i_running _ _ Hi). by apply lookup_lt_Some in Hc.
Qed.

(** A thread that yields. *)
Lemma settled_yield t s : sys_ok s -> (t < length (infos s))%nat -> wp (base_threadYield t) (fun _ => settled s) s.
Proof.
  intros Hs Ht. pose proof (ok_inv _ _ Hs) as Hi. destruct (lookup_lt_is_Some_2 _ _ Ht) as [i Hti].
  unfold base_threadYield. step. unfold getInfo. step; [exact Hti|]. destruct (m_core_running i) as [c|] eqn:Ec; [|step; by apply settled_refl].
  assert (Hco : core_of s t = Some c) by (unfold core_of; by rewrite Hti). pose proof (core_in_range _ _ _ _ Hi Hco) as Hc.
  destruct (lookup_lt_is_Some_2 (cores s) c) as [co Hcoc]; [done|]. step. unfold getCore. step; [exact Hcoc|].
  apply settled_bind; [by apply settled_quantum|]. intros _ s1 H1. pose proof (settled_cores _ _ H1) as E1.
  apply settled_bind; [apply settled_reschedule; [apply H1|by rewrite E1]|]. intros _ s2 H2. pose proof (settled_cores _ _ H2) as E2.
  pose proof (st_ok _ _ H2) as Hs2. destruct (transitivity H1 H2 : settled s s2) as [_ _ [G HG]].
  assert (Ht2 : (t < length (infos s2))%nat) by by rewrite (fr_infos _ _ _ HG).
  destruct (lookup_lt_is_Some_2 _ _ Ht2) as [j Htj]. pose proof (i_affinity _ _ (ok_inv _ _ Hs2) _ _ Htj) as El.
  destruct (lookup_lt_is_Some_2 (m_core_affinity j) c) as [a Ha]; [by rewrite El, E2, E1|].
  step. step; [exact Htj|]. step. eapply kwp_lift; [by apply rd_Ok|]. apply wp_when; intros _; [|by apply settled_refl].
  by apply settled_free.
Qed.

(** The scheduler's part of a barrier. *)
Lemma settled_base_periodic time s : sys_ok s -> wp (base_periodic time) (fun _ => settled s) s.
Proof.
  intros Hs. unfold base_periodic. step. step. step. step. step.
  eapply kwp_mono; [apply (wp_for (fun ids s' => settled s s' /\ Forall (fun c => (c < num_cores s)%nat) ids))|].
  - split; [by apply settled_refl|]. apply Forall_seq. cbn. unfold num_cores. lia.
  - intros c ids s1 [H1 [Hc Hids]%Forall_cons]. pose proof (st_ok _ _ H1) as Hs1. pose proof (ok_inv _ _ Hs1) as Hi1.
    rewrite <- (settled_cores _ _ H1) in Hc.
    destruct (lookup_lt_is_Some_2 (m_quantum_left (sched s1)) c) as [q Hq]; [by rewrite (i_quantum _ _ Hi1)|].
    destruct (lookup_lt_is_Some_2 (running s1) c) as [o Ho]; [by rewrite (i_running _ _ Hi1)|].
    step. step; [exact Hq|]. step. unfold getCoreThread. step; [exact Ho|].
    assert (Hgo : forall m : K unit, wp m (fun _ => settled s1) s1 -> wp m (fun _ s' => settled s s' /\ Forall (fun c => (c < num_cores s)%nat) ids) s1).
    { intros m Hm. eapply kwp_mono; [exact Hm|]. intros u s2 H2. split; [exact (transitivity H1 H2)|done]. }
    destruct (_ || _); apply Hgo; [by apply settled_reschedule|by apply settled_quantum].
  - intros _ s1 [H1 _]. step. etransitivity; [exact H1|]. destruct H1 as [H _ _].
    assert (Hf : frame ∅ s1 (on_sched (set_periodic time) s1)) by by destruct (frame_refl ∅ s1).
    split; [|intros [] Hw; by split|by exists ∅].
    eapply frame_ok; [exact H| |exact Hf]. destruct (ok_inv _ _ H). split; try done. exact (placed_sched _ _ _ i_placed).
Qed.
Lemma settled_periodic time s : sys_ok s -> wp (periodic time) (fun _ => settled s) s.
Proof.
  intros Hs. unfold periodic. eapply wp_dynamic; [by eapply ok_inv|]. pose proof (ok_policy _ _ Hs) as Hp. unfold reshuffle. step. step. step.
  destruct (m_policy (sched s)) eqn:E; try done; step; by apply settled_base_periodic.
Qed.

(** ** Changes of affinity *)

(** The cores of a mask exist. *)
Definition mask_fits (n : nat) (mask : option (list bool)) : Prop :=
  forall l cpu, mask = Some l -> cpu_isset cpu l = true -> (cpu < n)%nat.

Lemma masked_cores t s s' : masked t s s' -> num_cores s' = num_cores s.
Proof. intros H. unfold num_cores. by rewrite (mk_cores _ _ _ H). Qed.
Lemma masked_bind {A B} t (m : K A) (k : A -> K B) s :
  wp m (fun _ => masked t s) s -> (forall a s', masked t s s' -> wp (k a) (fun _ => masked t s') s') -> wp (m ≫= k) (fun _ => masked t s) s.
Proof.
  intros Hm Hk. step. eapply kwp_mono; [exact Hm|]. intros a s' H. eapply kwp_mono; [by apply Hk|]. intros b s2 H2. exact (transitivity H H2).
Qed.
Lemma masked_change t f s : sys_ok s -> (t < length (threads s))%nat ->
  (forall i, m_core_running (f i) = m_core_running i /\ length (m_core_affinity (f i)) = length (m_core_affinity i)) ->
  wp (changeInfo t f) (fun _ => masked t s) s.
Proof.
  intros Hs Ht Hf. pose proof (ok_inv _ _ Hs) as Hi.
  destruct (lookup_lt_is_Some_2 (infos s) t) as [i Hti]; [pose proof (i_infos _ _ Hi); lia|].
  eapply wp_changeInfo; [exact Hti|]. destruct (Hf i) as [E1 E2]. eapply masked_info; try done. rewrite E2. by eapply i_affinity.
Qed.
Lemma masked_adds t (p : nat -> bool) (b : nat -> K unit) l s :
  sys_ok s -> (t < length (threads s))%nat -> (forall c, c ∈ l -> p c = true -> (c < num_cores s)%nat) ->
  (forall c s', p c = true -> (c < num_cores s)%nat -> num_cores s' = num_cores s -> wp (b c) (fun _ s2 => s2 = s') s') ->
  wp (kfor (fun c => kwhen (p c) (b c;; i ← getInfo t; j ← klift (addAffinity c i); changeInfo t (fun _ => j))) l) (fun _ => masked t s) s.
Proof.
  intros Hs Ht Hl Hb. eapply kwp_mono; [apply (wp_for (fun ids s' => masked t s s' /\ forall c, c ∈ ids -> p c = true -> (c < num_cores s)%nat))|].
  - split; [by apply masked_refl|done].
  - intros c ids s1 [H1 Hids]. assert (Hrest : forall c, c ∈ ids -> p c = true -> (c < num_cores s)%nat) by (intros c' Hc'; apply Hids; by right).
    apply wp_when; [|done]. intros Hp. assert (Hc : (c < num_cores s)%nat) by (apply Hids; [left|done]). pose proof (masked_cores _ _ _ H1) as Ec.
    step. eapply kwp_mono; [by apply Hb|]. intros u s2 ->. pose proof (mk_ok _ _ _ H1) as Hs1. pose proof (ok_inv _ _ Hs1) as Hi1.
    rewrite <- (mk_threads _ _ _ H1) in Ht. destruct (lookup_lt_is_Some_2 (infos s1) t) as [i Hti]; [pose proof (i_infos _ _ Hi1); lia|].
    eapply kwp_mono; [eapply masked_add; [done|exact Hti|done|by rewrite Ec]|]. intros v s3 H3. split; [exact (transitivity H1 H3)|done].
  - by intros u s' [H _].
Qed.

Lemma masked_set_affinity t mask s : sys_ok s -> (t < length (threads s))%nat -> mask_fits (num_cores s) mask ->
  wp (set_affinity t mask) (fun _ => masked t s) s.
Proof.
  intros Hs Ht Hm. unfold set_affinity. apply masked_bind; [by apply masked_change|]. intros u s1 H1. pose proof (mk_ok _ _ _ H1) as Hs1.
  rewrite <- (mk_threads _ _ _ H1) in Ht. rewrite <- (masked_cores _ _ _ H1) in Hm. destruct mask as [l|].
  - apply masked_bind; [apply masked_change; [done|done|]; intros i; cbn; by rewrite length_fmap|]. intros v s2 H2.
    pose proof (masked_cores _ _ _ H2) as E2. step. step. apply masked_adds; [apply H2|by rewrite (mk_threads _ _ _ H2)|..].
    + intros c _ Hc. rewrite E2. by eapply Hm.
    + intros c s3 _ Hc _. apply wp_assert; [by apply Nat.ltb_lt|done].
  - step. step. refine (masked_adds t (fun _ => true) (fun _ => mret tt) (core_ids s1) s1 Hs1 Ht _ _); [|done].
    intros c [_ Hc]%elem_of_seq _. exact Hc.
Qed.

(** A thread whose affinity changes is scheduled anew when it must be. *)
Lemma ok_affinity caller t mask s : sys_ok s -> started s t -> mask_fits (num_cores s) mask ->
  wp (threadSetAffinity caller t mask) (fun _ => sys_ok) s.
Proof.
  intros Hs [Ht Hr] Hm. pose proof (ok_inv _ _ Hs) as Hi. pose proof (i_infos _ _ Hi) as Hinf. unfold threadSetAffinity.
  eapply wp_dynamic; [done|]. unfold base_threadSetAffinity. step. step. step. apply wp_when; [intros H%Nat.leb_le; unfold infos in *; lia|]. intros _.
  step. eapply kwp_mono; [by apply masked_set_affinity|]. intros u s1 H1. pose proof (mk_ok _ _ _ H1) as Hs1. pose proof (ok_inv _ _ Hs1) as Hi1.
  rewrite <- (mk_threads _ _ _ H1) in Ht. rewrite <- (mk_runnable _ _ _ H1) in Hr. rewrite <- (mk_infos _ _ _ H1) in Hinf. step. step.
  destruct (Nat.leb_spec (length (threads s1)) t); [lia|]. assert (Hti : (t < length (infos s1))%nat) by (pose proof (i_infos _ _ Hi1); lia).
  assert (Hgo : forall m : K unit, wp m (fun _ => settled s1) s1 -> wp m (fun _ => sys_ok) s1).
  { intros m Hw. eapply kwp_mono; [exact Hw|]. intros v s2 H2. exact (st_ok _ _ H2). }
  case_bool_decide; [by apply Hgo, settled_yield|]. destruct (lookup_lt_is_Some_2 _ _ Hti) as [i Hi']. step. unfold getInfo. step; [exact Hi'|].
  pose proof (i_affinity _ _ Hi1 _ _ Hi') as El.
  assert (Hcore : forall c, m_core_running i = Some c -> (c < num_cores s1)%nat).
  { intros c Hc. eapply (core_in_range ∅ s1 t); [done|]. unfold core_of. by rewrite Hi'. }
  step. apply (kwp_mono _ (fun b s2 => s2 = s1)).
  { destruct (m_core_running i) as [c|]; [|by step]. destruct (lookup_lt_is_Some_2 (m_core_affinity i) c) as [a Ha]; [rewrite El; by apply Hcore|].
    step. eapply kwp_lift; [by apply rd_Ok|]. by step. }
  intros b s2 ->. destruct b.
  - destruct (m_core_running i) as [c|]; [|by step]. apply Hgo, settled_quantum; [done|by apply Hcore].
  - destruct (lookup_lt_is_Some_2 _ _ Hr) as [r Hrt]. step. step; [exact Hrt|]. apply wp_when; [|done]. intros _.
    step. eapply wp_findFree; [done|done|]. intros [c|] Ho; [|by step]. destruct Ho as [Hc _]. apply lookup_lt_Some in Hc. rewrite (i_running _ _ Hi1) in Hc.
    destruct (lookup_lt_is_Some_2 (cores s1) c Hc) as [co Hco]. step. unfold getCore. step; [exact Hco|]. step. step. by apply Hgo, settled_reschedule.
Qed.
End operations.
