(* ===== verification/ThreadBarrier.v ===== *)
(** * The barrier of the clocks

    The release of the barrier returns, lets go exactly the cores whose clock the new barrier
    time has passed, and loses no wake-up; with sleeping threads it advances the time until
    one of them wakes up. *)

From stdpp Require Import base tactics list numbers gmap sets.
From Stdlib Require Import ZArith Lia.
From S2P Require Import Prelude Utils Timing Threads ThreadProps ThreadOps ThreadPolicy.
Local Open Scope Z_scope.
Local Open Scope mach_scope.

Section barrier.
Context {who : Setting}.
Context (traverse : gmap Z (list Waiter) -> list Z) (shuffle : Z -> list nat -> list nat * Z).

(** ** The hooks of a barrier *)

(** The hooks wake and schedule threads. *)
Record ticks (s s' : Sys) : Prop := {
  tk_ok : sys_ok s';
  tk_busy : keeps_busy ∅ s s';
  tk_cores : num_cores s' = num_cores s;
  tk_threads : length (threads s') = length (threads s);
  tk_runnable : length (runnable s') = length (runnable s);
  tk_awake t : awake s t -> awake s' t;
  tk_barrier : bar_frame (barrier s) (barrier s')
}.
#[global] Instance ticks_trans : Transitive ticks.
Proof. intros x y z [] []. split; try congruence; eauto; [by eapply keeps_busy_trans|by etransitivity]. Qed.
Lemma ticks_refl s : sys_ok s -> ticks s s.
Proof. by split. Qed.
Lemma calm_ticks s s' : calm ∅ s s' -> ticks s s'.
Proof. intros []. by split. Qed.
Lemma settled_ticks s s' : settled s s' -> ticks s s'.
Proof.
  intros [H1 H2 [G H3]]. split; try done; [apply H3|apply H3|by rewrite (fr_runnable _ _ _ H3)|intros t; by eapply frame_awake|apply H3].
Qed.

Lemma hook_ticks time s : sys_ok s -> wp (hook_periodic traverse time) (fun _ => ticks s) s.
Proof.
  intros Hs. unfold hook_periodic. step. eapply kwp_mono; [by apply (calm_periodic ∅)|]. intros u s1 H1.
  eapply kwp_mono; [apply settled_periodic, H1|]. intros v s2 H2. transitivity s1; [by apply calm_ticks|by apply settled_ticks].
Qed.

(** Some thread runs. *)
Definition someone (s : Sys) : Prop := exists t, awake s t.
Lemma ticks_someone s s' : ticks s s' -> someone s -> someone s'.
Proof. intros H [t Ht]. exists t. by apply (tk_awake _ _ H). Qed.

Lemma resume_wakes t time msg s : sys_ok s -> started s t ->
  wp (resumeThread t time msg) (fun _ s' => sys_ok s' /\ awake s' t /\ syscalls s' = syscalls s) s.
Proof.
  intros Hs Ht. eapply kwp_mono; [by apply (ok_resume ∅)|]. intros _ s' (H1 & H2 & H3). split_and!; [done| |by rewrite (fr_syscalls _ _ _ H2)].
  destruct (lookup_lt_is_Some_2 (thread_state s) t) as [st Hst]; [rewrite (i_states _ _ (ok_inv _ _ Hs)); apply Ht|].
  eapply frame_awake; [exact H2|]. unfold awake, has_status. cbn. rewrite list_lookup_alter_eq, Hst. by eexists.
Qed.
Lemma take_first_finds p l w : w ∈ l -> p w = true -> exists x rest, take_first p l = Some (x, rest).
Proof.
  induction l as [|y l IH]; [by intros ?%not_elem_of_nil|]. intros Hw Hp. cbn. destruct (p y) eqn:Ey; [eauto|].
  apply elem_of_cons in Hw as [->|Hw]; [congruence|]. destruct (IH Hw Hp) as (x & rest & ->). cbn. eauto.
Qed.

(** The queue of another futex stays. *)
Lemma timedOut_wakes time a s : sys_ok s ->
  wp (wakeTimedOut time a) (fun _ s' => sys_ok s' /\ (someone s' \/ syscalls s' = syscalls s /\
    forall w, w ∈ default [] (m_futexes (syscalls s) !! a) -> timed_out time w = false)) s.
Proof.
  intros Hs. unfold wakeTimedOut, futex. step. step. step. step. destruct (take_first _ _) as [[w rest]|] eqn:Ew.
  - pose proof (take_first_elem _ _ _ _ Ew) as (H1 & _ & H2). step. unfold put_futex. step.
    set (y := set_futexes (<[a := rest]> (m_futexes (syscalls s))) (syscalls s)).
    assert (Hc : calm ∅ s (with_syscalls y s)).
    { apply calm_syscalls; [done|]. intros x Hx. apply (ok_waiters _ _ Hs). eapply futex_waiters; [|exact Hx]. intros z Hz. eapply futex_elem. eauto. }
    eapply kwp_mono; [apply (resume_wakes (w_thread_id w)); [apply Hc|]|].
    + apply (calm_started _ _ _ _ Hc). apply (ok_waiters _ _ Hs). by eapply futex_elem.
    + intros u s' (H3 & H4 & _). split; [done|]. left. by eexists.
  - step. split; [done|]. right. split; [done|]. intros w Hw. destruct (timed_out time w) eqn:E; [|done].
    destruct (take_first_finds _ _ _ Hw E) as (x & rest & E'). congruence.
Qed.

(** A thread whose timeout has passed wakes up, if the traversal of the futexes is complete;
    else nothing happens. *)
Definition complete : Prop := forall f a, is_Some (f !! a) -> a ∈ traverse f.
Definition none_due (time : Z) (l : list Waiter) : Prop := forall w, w ∈ l -> timed_out time w = false.
Definition idle_until (time : Z) (s s' : Sys) : Prop :=
  syscalls s' = syscalls s /\ (complete -> none_due time (all_waiters (syscalls s))).

Lemma sleeping_wakes time s : sys_ok s ->
  wp (match take_first (timed_out time) (m_sleeping (syscalls s)) with
      | Some (w, rest) => kupd (on_syscalls (set_sleeping rest));; resumeThread (w_thread_id w) time false
      | None => mret tt
      end) (fun _ s' => sys_ok s' /\ (someone s' \/ syscalls s' = syscalls s /\ none_due time (m_sleeping (syscalls s)))) s.
Proof.
  intros Hs. destruct (take_first _ _) as [[x rest]|] eqn:Ex.
  - apply take_first_elem in Ex as (H1 & _ & H2). step. step.
    assert (Hcm : calm ∅ s (with_syscalls (set_sleeping rest (syscalls s)) s)).
    { apply calm_syscalls; [done|]. intros z Hz. apply (ok_waiters _ _ Hs). apply elem_all_waiters. apply elem_all_waiters in Hz as [Hz|Hz]; [left|by right].
      by apply H2. }
    eapply kwp_mono; [apply (resume_wakes (w_thread_id x)); [apply Hcm|]|].
    + apply (calm_started _ _ _ _ Hcm), (ok_waiters _ _ Hs), elem_all_waiters. by left.
    + intros u s' (H3 & H4 & _). split; [done|]. left. by eexists.
  - step. split; [done|]. right. split; [done|]. intros w Hw. destruct (timed_out time w) eqn:E; [|done].
    destruct (take_first_finds _ _ _ Hw E) as (x & rest & E'). congruence.
Qed.
Lemma periodic_wakes time s : sys_ok s ->
  wp (futexPeriodic traverse time) (fun _ s' => sys_ok s' /\ (someone s' \/ idle_until time s s')) s.
Proof.
  intros Hs. unfold futexPeriodic. step. step. step. eapply kwp_mono; [by apply sleeping_wakes|]. intros u s1 [Hs1 H1]. step. step.
  set (f := m_futexes (syscalls s)).
  eapply kwp_mono; [apply (wp_for (fun l s' => sys_ok s' /\ (someone s' \/ syscalls s' = syscalls s /\ none_due time (m_sleeping (syscalls s)) /\
    forall a, a ∈ traverse f -> a ∈ l \/ none_due time (default [] (f !! a)))))|].
  - split; [done|]. destruct H1 as [H1|[Es Hns]]; [by left|]. right. split_and!; [done|done|]. rewrite Es. auto.
  - intros a l s2 [Hs2 [H2|(Es & Hn & Hall)]].
    + eapply kwp_mono; [by apply (calm_timedOut ∅)|]. intros v s3 H3. split; [apply H3|]. left. exact (ticks_someone _ _ (calm_ticks _ _ H3) H2).
    + eapply kwp_mono; [by apply timedOut_wakes|]. intros v s3 [Hs3 [H3|[Es3 H3]]]; (split; [done|]); [by left|]. right. split_and!; [congruence|done|].
      intros b Hb. rewrite Es in H3. destruct (Hall b Hb) as [[->|Hin]%elem_of_cons|Hin]; auto.
  - intros v s2 [Hs2 [H2|(Es & Hn & Hall)]]; (split; [done|]); [by left|]. right. split; [done|]. intros Hc w Hw.
    apply elem_all_waiters in Hw as [Hw|(a & q & Ha & Hq)]; [by apply Hn|].
    destruct (Hall a) as [?%not_elem_of_nil|H]; [apply Hc; by eexists|done|]. unfold f in H. rewrite Ha in H. by apply H.
Qed.
Lemma wp_and {A} (m : K A) (P Q : A -> Sys -> Prop) s : wp m P s -> wp m Q s -> wp m (fun a s' => P a s' /\ Q a s') s.
Proof. unfold wp. by destruct (m s) as [[a s']|]. Qed.
Lemma hook_wakes time s : sys_ok s ->
  wp (hook_periodic traverse time) (fun _ s' => ticks s s' /\ (someone s' \/ idle_until time s s')) s.
Proof.
  intros Hs. apply wp_and; [by apply hook_ticks|]. unfold hook_periodic. step. eapply kwp_mono; [by apply periodic_wakes|]. intros u s1 [Hs1 H1].
  eapply kwp_mono; [by apply settled_periodic|]. intros v s2 H2. destruct H1 as [H1|[E H1]].
  - left. exact (ticks_someone _ _ (settled_ticks _ _ H2) H1).
  - right. split; [|done]. destruct H2 as [_ _ [G HG]]. by rewrite (fr_syscalls _ _ _ HG).
Qed.

(** ** One pass of the release *)

(** The clock of a core in the barrier is before the next barrier. *)
Definition is_due (b : Barrier) (c : nat) : bool :=
  match m_local_clock_list b !! c, m_barrier_acquire_list b !! c with
  | Some t, Some true => t <? m_next_barrier_time b
  | _, _ => false
  end.
Definition other_thread (caller : option nat) (b : Barrier) (c : nat) : bool := negb (bool_decide (m_core_thread b !! c = Some caller)).
Definition cleared (due : list nat) (l : list bool) : list bool := foldr (fun c l => <[c := false]> l) l due.
Definition passed (caller : option nat) (due : list nat) (b : Barrier) : Barrier :=
  set_to_release (m_to_release b ++ List.filter (other_thread caller b) due) (set_acquired (cleared due (m_barrier_acquire_list b)) b).

Lemma cleared_length due l : length (cleared due l) = length l.
Proof. induction due; cbn; [done|]. by rewrite length_insert. Qed.
Lemma cleared_insert c due l : cleared due (<[c := false]> l) = <[c := false]> (cleared due l).
Proof.
  induction due as [|x due IH]; cbn [cleared foldr]; [done|]. fold (cleared due (<[c := false]> l)) (cleared due l). rewrite IH. destruct (decide (x = c)) as [->|]; [done|]. by apply list_insert_insert_ne.
Qed.
Lemma cleared_lookup due l c : cleared due l !! c = (fun b => if decide (c ∈ due) then false else b) <$> l !! c.
Proof.
  induction due as [|x due IH]; cbn [cleared foldr].
  - destruct (l !! c); cbn; [|done]. by rewrite decide_False by apply not_elem_of_nil.
  - fold (cleared due l). destruct (decide (x = c)) as [->|Hne].
    + destruct (l !! c) eqn:E; cbn.
      * rewrite decide_True by left. apply list_lookup_insert_eq. rewrite cleared_length. by apply lookup_lt_Some in E.
      * apply lookup_ge_None_2. rewrite length_insert, cleared_length. by apply lookup_ge_None in E.
    + rewrite list_lookup_insert_ne, IH by done. destruct (l !! c); cbn; [|done]. f_equal.
      destruct (decide (c ∈ due)); destruct (decide (c ∈ x :: due)) as [E|E]; try done.
      * exfalso. apply E. by right.
      * apply elem_of_cons in E as [->|]; done.
Qed.

Lemma filter_same (p q : nat -> bool) l : (forall c, c ∈ l -> p c = q c) -> List.filter p l = List.filter q l.
Proof.
  induction l as [|x l IH]; intros H; cbn; [done|]. rewrite (H x) by left. rewrite IH; [done|]. intros c Hc. apply H. by right.
Qed.

Lemma pass_ok caller ids acc s n :
  NoDup ids -> Forall (fun c => (c < n)%nat) ids -> length (m_local_clock_list (barrier s)) = n ->
  length (m_barrier_acquire_list (barrier s)) = n -> length (m_core_thread (barrier s)) = n ->
  wp (release_pass caller ids acc) (fun r s' =>
    let due := List.filter (is_due (barrier s)) ids in
    r = (acc.1 || existsb (is_due (barrier s)) ids, acc.2 && forallb (other_thread caller (barrier s)) due) /\
    exists es, s' = set_effects es (set_barrier (passed caller due (barrier s)) s)) s.
Proof.
  revert acc s. induction ids as [|c ids IH]; intros acc s Hnd Hids Hc Ha Ht; cbn [release_pass].
  - step. cbn. rewrite orb_false_r, andb_true_r. split; [by destruct acc|]. exists (effects s). destruct s as [? ? ? ? ? [] ? ? ?].
    unfold passed. cbn. by rewrite app_nil_r.
  - apply NoDup_cons in Hnd as [Hni Hnd]. apply Forall_cons in Hids as [Hcn Hids].
    destruct (lookup_lt_is_Some_2 (m_local_clock_list (barrier s)) c) as [t Et]; [by rewrite Hc|].
    destruct (lookup_lt_is_Some_2 (m_barrier_acquire_list (barrier s)) c) as [a Ea]; [by rewrite Ha|].
    destruct (lookup_lt_is_Some_2 (m_core_thread (barrier s)) c) as [o Eo]; [by rewrite Ht|].
    step. unfold getClock. step; [exact Et|]. step. step. step. unfold getAcquired. step; [exact Ea|].
    assert (Ed : is_due (barrier s) c = (t <? m_next_barrier_time (barrier s)) && a) by (unfold is_due; rewrite Et, Ea; by destruct a, (t <? _)).
    rewrite <- Ed. cbn [List.filter existsb]. destruct (is_due (barrier s) c); cbn [orb]; [|by apply IH].
    step. unfold setAcquired. step; [exact Ea|]. step. unfold getBarrierThread. step; [exact Eo|].
    assert (Hsame : forall b, m_local_clock_list b = m_local_clock_list (barrier s) -> m_next_barrier_time b = m_next_barrier_time (barrier s) ->
      m_barrier_acquire_list b = <[c := false]> (m_barrier_acquire_list (barrier s)) ->
      List.filter (is_due b) ids = List.filter (is_due (barrier s)) ids).
    { intros b E1 E2 E3. apply filter_same. intros x Hx. unfold is_due. rewrite E1, E2, E3, list_lookup_insert_ne by (intros ->; done). done. }
    case_bool_decide as Eq; subst.
    + eapply kwp_mono; [apply (IH (true, false)); try done; cbn; by rewrite ?length_insert|]. intros r s' [-> [es ->]]. cbn beta zeta.
      erewrite !Hsame by done. assert (Eo' : other_thread caller (barrier s) c = false) by (unfold other_thread; by rewrite Eo, bool_decide_eq_true_2).
      split; [cbn; rewrite Eo'; by rewrite orb_true_r, andb_false_r|].
      exists es. unfold passed. cbn. rewrite Eo'. cbn. by rewrite cleared_insert.
    + step. unfold emit. step. step. step. eapply kwp_mono; [apply (IH (true, acc.2)); try done; cbn; by rewrite ?length_insert|].
      intros r s' [-> [es ->]]. cbn beta zeta. erewrite !Hsame by done.
      assert (Eo' : other_thread caller (barrier s) c = true) by (unfold other_thread; rewrite Eo, bool_decide_eq_false_2; [done|congruence]).
      split; [cbn; rewrite Eo'; by rewrite orb_true_r|].
      exists es. unfold passed. cbn. rewrite Eo'. cbn. rewrite cleared_insert, <- app_assoc. done.
Qed.

(** ** The barrier after a pass *)

Lemma wf_global n x b : bar_wf n b -> bar_wf n (set_global x b).
Proof. intros []. by split. Qed.
Lemma wf_next n x b : bar_wf n b -> m_next_barrier_time b <= x -> bar_wf n (set_next x b).
Proof.
  intros [] Hx. split; try done; [cbn; lia|]. cbn. intros c t Ht. destruct (bw_clock c t Ht) as [H1 H2]. split; [done|]. intros H. apply H2. lia.
Qed.
Definition due_cores (n : nat) (b : Barrier) : list nat := List.filter (is_due b) (seq 0 n).
Lemma elem_due n b c : bar_wf n b -> c ∈ due_cores n b <-> is_due b c = true.
Proof.
  intros Hw. unfold due_cores. rewrite list_elem_of_In, filter_In, <- list_elem_of_In, elem_of_seq. split; [tauto|]. intros H. split; [|done].
  unfold is_due in H. destruct (m_local_clock_list b !! c) eqn:E; [|done]. apply lookup_lt_Some in E. rewrite (bw_clocks _ _ Hw) in E. lia.
Qed.
Lemma due_acquired b c : is_due b c = true -> m_barrier_acquire_list b !! c = Some true.
Proof. unfold is_due. destruct (m_local_clock_list b !! c), (m_barrier_acquire_list b !! c) as [[]|]; done. Qed.
Lemma not_due b c t : m_local_clock_list b !! c = Some t -> m_barrier_acquire_list b !! c = Some true ->
  is_due b c = false <-> m_next_barrier_time b <= t.
Proof. unfold is_due. intros -> ->. apply Z.ltb_ge. Qed.

(** The caller is the thread that has entered, or nobody. *)
Definition called_by (caller : option nat) (b : Barrier) : Prop := forall c, m_barrier_acquire_list b !! c = Some true ->
  (m_core_thread b !! c = Some caller <-> entering = Some c).
(** Who has entered after a pass that releases [due]. *)
Definition staying (wait : bool) : Setting := {| entering := if wait then entering else None; host_cores := host_cores; core_count := core_count |}.

Lemma count_filter (p : nat -> bool) l c : NoDup l ->
  count_occ Nat.eq_dec (List.filter p l) c = if decide (c ∈ l) then (if p c then 1 else 0)%nat else 0%nat.
Proof.
  intros Hnd. induction Hnd as [|x l Hx Hnd IH]; cbn [List.filter]; [by rewrite decide_False by apply not_elem_of_nil|].
  destruct (decide (c = x)) as [->|Hne].
  - rewrite (decide_True (P := x ∈ x :: l)) by left. rewrite (decide_False (P := x ∈ l)) in IH by done.
    destruct (p x); cbn [count_occ]; [|done]. destruct (Nat.eq_dec x x); [by rewrite IH|done].
  - assert (c ∈ x :: l <-> c ∈ l) as E by (rewrite elem_of_cons; tauto). rewrite (decide_ext _ _ _ _ E), <- IH.
    destruct (p x); cbn [count_occ]; [|done]. by destruct (Nat.eq_dec x c).
Qed.

Lemma passed_wf caller n b :
  bar_wf n b -> called_by caller b ->
  let due := due_cores n b in
  bar_wf (who := staying (forallb (other_thread caller b) due)) n (passed caller due b).
Proof.
  intros Hw Hc due. assert (Hel : forall c, c ∈ due <-> is_due b c = true) by (intros c; by apply elem_due).
  assert (Hnd : NoDup due) by (apply NoDup_ListNoDup, List.NoDup_filter, NoDup_ListNoDup, NoDup_seq).
  assert (Hstay : forall c, entering = Some c -> forallb (other_thread caller b) due = negb (is_due b c)).
  { intros c He. destruct (is_due b c) eqn:Hd; cbn.
    - apply not_true_iff_false. rewrite forallb_forall. intros Hall. specialize (Hall c). rewrite <- list_elem_of_In, Hel in Hall. specialize (Hall Hd).
      unfold other_thread in Hall. rewrite (proj2 (Hc c (due_acquired _ _ Hd)) He), bool_decide_eq_true_2 in Hall; done.
    - apply forallb_forall. intros x Hx. rewrite <- list_elem_of_In, Hel in Hx. unfold other_thread. rewrite bool_decide_eq_false_2; [done|].
      rewrite (Hc x (due_acquired _ _ Hx)). congruence. }
  assert (Hacq : forall c, cleared due (m_barrier_acquire_list b) !! c = Some true <-> m_barrier_acquire_list b !! c = Some true /\ is_due b c = false).
  { intros c. rewrite cleared_lookup. destruct (decide (c ∈ due)) as [Hd|Hd]; rewrite Hel in Hd.
    - rewrite Hd. destruct (m_barrier_acquire_list b !! c); split; naive_solver.
    - apply not_true_is_false in Hd. rewrite Hd. destruct (m_barrier_acquire_list b !! c); cbn; naive_solver. }
  destruct Hw. split; cbn; try done.
  - by rewrite cleared_length.
  - apply Forall_app. split; [done|]. apply Forall_forall. intros c Hx. rewrite list_elem_of_In, filter_In, <- list_elem_of_In in Hx. destruct Hx as [Hx _].
    unfold due, due_cores in Hx. rewrite list_elem_of_In, filter_In, <- list_elem_of_In, elem_of_seq in Hx. lia.
  - intros c Hcn. rewrite bw_queue by done. f_equal. unfold queued, inside. cbn. rewrite count_occ_app, (count_filter _ _ _ Hnd).
    rewrite (decide_ext _ _ _ _ (Hacq c)). rewrite (decide_ext _ _ _ _ (Hel c)).
    destruct (decide (m_barrier_acquire_list b !! c = Some true)) as [Ha|Ha].
    + specialize (Hc c Ha). specialize (Hstay c). unfold other_thread at 1. destruct (decide (entering = Some c)) as [He|He].
      * rewrite (proj2 Hc He), bool_decide_eq_true_2 by done. rewrite (Hstay He). destruct (is_due b c); cbn.
        -- rewrite (decide_True (P := true = true)) by done. rewrite decide_False by naive_solver. rewrite decide_False by done. lia.
        -- rewrite (decide_False (P := false = true)) by done. rewrite decide_True by done. rewrite decide_True by done. lia.
      * rewrite bool_decide_eq_false_2 by tauto. destruct (decide ((if forallb _ _ then _ else _) = _)) as [Hx|_]; [by destruct (forallb _ _)|].
        destruct (is_due b c); cbn.
        -- rewrite (decide_True (P := true = true)) by done. rewrite decide_False by naive_solver. lia.
        -- rewrite (decide_False (P := false = true)) by done. rewrite decide_True by done. lia.
    + rewrite (decide_False (P := _ /\ _)) by tauto. destruct (is_due b c) eqn:Hd; [by apply due_acquired in Hd|].
      rewrite (decide_False (P := false = true)) by done. destruct (decide (entering = Some c)) as [He|He]; [by apply bw_entering in He|].
      destruct (decide ((if forallb _ _ then _ else _) = _)) as [Hx|_]; [by destruct (forallb _ _)|]. lia.
  - intros c He. apply Hacq. destruct (forallb _ _) eqn:Ef; [|done]. specialize (Hstay c He). try rewrite Ef in Hstay. symmetry in Hstay. apply negb_true_iff in Hstay. auto.
  - intros c t Ht. destruct (bw_clock c t Ht) as [H1 H2]. split; [done|]. intros H. destruct (H2 H) as [Ha Hb]. split; [|done].
    apply Hacq. split; [done|]. by eapply not_due.
  - intros c [Ha _]%Hacq. by apply bw_known.
Qed.

(** ** The loop of the release *)

Lemma ok_barrier (w : Setting) b es s : sys_ok (who := who) s -> @host_cores w = @host_cores who -> @core_count w = @core_count who -> bar_wf (who := w) (num_cores s) b ->
  (Z.of_nat (num_cores s) <= @host_cores who -> m_to_release b = []) -> sys_ok (who := w) (set_effects es (set_barrier b s)).
Proof.
  intros Hs Eh Ec Hw Hall. pose proof (ok_inv _ _ Hs) as Hi. split; try by apply Hs.
  destruct Hi. split; try done; try by rewrite ?Eh, ?Ec. destruct i_placed; by split.
Qed.
Lemma set_effects_id s : set_effects (effects s) s = s.
Proof. by destruct s. Qed.

(** What stays the same while the time of the barrier advances. *)
Record same_setup (b b' : Barrier) : Prop := {
  ss_interval : m_barrier_interval b' = m_barrier_interval b;
  ss_groups : m_core_group b' = m_core_group b;
  ss_threads : m_core_thread b' = m_core_thread b;
  ss_parked : m_core_parked b' = m_core_parked b;
  ss_clock c : m_local_clock_list b' !! c = m_local_clock_list b !! c \/
               m_barrier_acquire_list b !! c = Some true /\ m_local_clock_list b' !! c = Some 0
}.
Record advanced (s s' : Sys) : Prop := {
  ad_ok : sys_ok s';
  ad_busy : keeps_busy ∅ s s';
  ad_cores : num_cores s' = num_cores s;
  ad_threads : length (threads s') = length (threads s);
  ad_runnable : length (runnable s') = length (runnable s);
  ad_awake t : awake s t -> awake s' t;
  ad_setup : same_setup (barrier s) (barrier s');
  ad_acquired : m_barrier_acquire_list (barrier s') = m_barrier_acquire_list (barrier s);
  ad_release : m_to_release (barrier s) = [] -> m_to_release (barrier s') = [];
  ad_next : exists k, m_next_barrier_time (barrier s') = m_next_barrier_time (barrier s) + Z.of_nat k * m_barrier_interval (barrier s)
}.

Lemma advanced_refl s : sys_ok s -> advanced s s.
Proof. intros H. split; try done; [split; auto|]. exists 0%nat. lia. Qed.
#[global] Instance advanced_trans : Transitive advanced.
Proof.
  intros x y z [] []. split; try congruence; eauto.
  - by eapply keeps_busy_trans.
  - destruct ad_setup0, ad_setup1. split; try congruence. intros c. destruct (ss_clock1 c) as [->|[H1 H2]]; [apply ss_clock0|].
    right. split; [congruence|done].
  - destruct ad_next0 as [j E1], ad_next1 as [k E2]. exists (j + k)%nat. rewrite E2, E1, (ss_interval _ _ ad_setup0). lia.
Qed.
Lemma ticks_advanced s s' : ticks s s' -> advanced s s'.
Proof.
  intros []. pose proof (bar_frame_nil _ _ tk_barrier0). destruct tk_barrier0. split; try done; try by split. exists 0%nat. rewrite bf_next. lia.
Qed.
Lemma advanced_barrier b s : sys_ok s -> bar_wf (num_cores s) b -> same_setup (barrier s) b -> m_barrier_acquire_list b = m_barrier_acquire_list (barrier s) ->
  m_to_release b = m_to_release (barrier s) ->
  (exists k, m_next_barrier_time b = m_next_barrier_time (barrier s) + Z.of_nat k * m_barrier_interval (barrier s)) -> advanced s (set_barrier b s).
Proof.
  intros Hs Hw Hb Ha Hr Hn. split; try done; try (cbn; congruence); [|by apply keeps_busy_sched].
  pose proof (ok_barrier who b (effects s) s Hs eq_refl eq_refl Hw) as H. rewrite <- (set_effects_id (set_barrier b s)). apply H.
  rewrite Hr. apply (i_all _ _ (ok_inv _ _ Hs)).
Qed.

Lemma advanced_effects es s : sys_ok s -> advanced s (set_effects es s).
Proof.
  intros Hs. split; try done; [|by apply keeps_busy_sched|by split; auto|exists 0%nat; cbn; lia].
  pose proof (ok_barrier who (barrier s) es s Hs eq_refl eq_refl (i_barrier _ _ (ok_inv _ _ Hs)) (i_all _ _ (ok_inv _ _ Hs))) as H. by destruct s.
Qed.

(** Some thread runs, or will start. *)
Definition active (s : Sys) : Prop := exists t, has_status s t (fun st => status st = RUNNING \/ status st = INITIALIZING).
Lemma someone_active s : someone s -> active s.
Proof. intros [t (st & Hst & H)]. exists t, st. auto. Qed.
Lemma wp_anyRunning s (Q : bool -> Sys -> Prop) : sys_ok s ->
  (forall r, (r = true -> active s) -> (r = false -> ~ active s) -> Q r s) -> wp anyThreadRunning Q s.
Proof.
  intros Hs HQ. pose proof (i_states _ _ (ok_inv _ _ Hs)) as Hl. unfold anyThreadRunning. step. step. step.
  set (q := fun t => match thread_state s !! t with Some st => bool_decide (status st = RUNNING) || bool_decide (status st = INITIALIZING) | None => false end).
  eapply (wp_find _ q).
  - intros t [_ Ht]%elem_of_seq. cbn in Ht. destruct (lookup_lt_is_Some_2 (thread_state s) t) as [st Hst]; [lia|].
    unfold q, isThreadRunning, isThreadInitializing, getTState, elem, kget, klift, mbind, K_bind, rd. rewrite Hst. cbn.
    case_bool_decide; cbn; [done|]. unfold K_bind, rd. rewrite Hst. done.
  - step. apply HQ.
    + intros E%bool_decide_eq_true. destruct (list_find _ _) as [[n t]|] eqn:Ef; [|by destruct E]. apply list_find_Some in Ef as (_ & Hq & _).
      unfold q in Hq. destruct (thread_state s !! t) as [st|] eqn:Est; [|done]. exists t, st. split; [done|].
      apply orb_true_iff in Hq as [?%bool_decide_eq_true|?%bool_decide_eq_true]; auto.
    + intros E%bool_decide_eq_false [t (st & Hst & Hr)]. destruct (list_find _ _) as [[n x]|] eqn:Ef; [by destruct E|]. apply list_find_None in Ef.
      rewrite Forall_forall in Ef. apply (Ef t); [|unfold q; rewrite Hst; destruct Hr as [-> | ->]; done].
      apply elem_of_seq. cbn. split; [lia|]. rewrite <- Hl. by apply lookup_lt_Some in Hst.
Qed.

Lemma next_timeout_acc l acc : acc < MaxTime -> next_timeout l acc < MaxTime.
Proof.
  unfold next_timeout. revert acc. induction l as [|w l IH]; intros acc H; cbn [fold_left]; [done|]. apply IH. by destruct (Z.ltb_spec (w_timeout w) MaxTime).
Qed.
Lemma next_timeout_some l acc w : w ∈ l -> w_timeout w < MaxTime -> next_timeout l acc < MaxTime.
Proof.
  unfold next_timeout. revert acc. induction l as [|x l IH]; intros acc Hw Ht; [by apply not_elem_of_nil in Hw|]. cbn [fold_left].
  apply elem_of_cons in Hw as [->|Hw]; [|by apply IH]. apply next_timeout_acc. destruct (Z.ltb_spec (w_timeout x) MaxTime); lia.
Qed.
Lemma fold_min_le (f : Z -> Z) l acc : fold_left (fun next a => Z.min next (f a)) l acc <= acc /\
  forall a, a ∈ l -> fold_left (fun next a => Z.min next (f a)) l acc <= f a.
Proof.
  revert acc. induction l as [|x l IH]; intros acc; cbn; [split; [lia|by intros ? ?%not_elem_of_nil]|].
  destruct (IH (Z.min acc (f x))) as [H1 H2]. split; [lia|]. intros a [->|Ha]%elem_of_cons; [lia|auto].
Qed.
(** A finite timeout is found. *)
Lemma wp_nextTimeout w s (Q : Z -> Sys -> Prop) : complete -> w ∈ all_waiters (syscalls s) -> w_timeout w < MaxTime ->
  (forall t, t < MaxTime -> Q t s) -> wp (getNextTimeout traverse) Q s.
Proof.
  intros Hc Hw Ht HQ. unfold getNextTimeout. step. step. step. step. step. apply HQ.
  set (f := m_futexes (syscalls s)). set (g := fun a => next_timeout (default [] (f !! a)) MaxTime).
  destruct (fold_min_le g (traverse f) (next_timeout (m_sleeping (syscalls s)) MaxTime)) as [H1 H2].
  apply elem_all_waiters in Hw as [Hw|(a & q & Ha & Hq)].
  - eapply Z.le_lt_trans; [exact H1|]. by eapply next_timeout_some.
  - eapply Z.le_lt_trans; [apply (H2 a), Hc; by eexists|]. unfold g, f. rewrite Ha. by eapply next_timeout_some.
Qed.

(** By time [D] a core in the barrier is due, or, when the barrier advances for the sleeping
    threads, one of them is. *)
Definition deadline (advancing : bool) (D : Z) (s : Sys) : Prop :=
  if advancing then complete /\ D < MaxTime /\ exists w, w ∈ all_waiters (syscalls s) /\ w_timeout w <= D
  else m_next_barrier_time (barrier s) <= D /\
       exists c t, m_barrier_acquire_list (barrier s) !! c = Some true /\ m_local_clock_list (barrier s) !! c = Some t /\ t <= D.

(** The pass that ends the loop starts in a state whose time has advanced. *)
Record last_pass (caller : option nat) (s s1 : Sys) : Prop := {
  lp_advanced : advanced s s1;
  lp_next : m_next_barrier_time (barrier s) + m_barrier_interval (barrier s) <= m_next_barrier_time (barrier s1);
  lp_global : m_global_time (barrier s1) = m_next_barrier_time (barrier s1) - m_barrier_interval (barrier s1);
  lp_called : called_by caller (barrier s1);
  lp_due : existsb (is_due (barrier s1)) (seq 0 (num_cores s)) = true
}.
Definition outcome (caller : option nat) (advancing : bool) (s : Sys) (r : option bool) (s' : Sys) : Prop :=
  match r with
  | None => advancing = true /\ advanced s s' /\ active s'
  | Some wait => exists s1 es, let due := due_cores (num_cores s) (barrier s1) in
      last_pass caller s s1 /\ wait = forallb (other_thread caller (barrier s1)) due /\
      (advancing = true -> syscalls s1 = syscalls s) /\
      s' = set_effects es (set_barrier (passed caller due (barrier s1)) s1)
  end.

Lemma advanced_called caller s s' : advanced s s' -> called_by caller (barrier s) -> called_by caller (barrier s').
Proof. intros H Hc c. rewrite (ad_acquired _ _ H), (ss_threads _ _ (ad_setup _ _ H)). apply Hc. Qed.

(** The hooks at the time of the barrier: a sleeping thread whose time has come stops the loop. *)
Lemma loop_hooks advancing D s :
  sys_ok s -> deadline advancing D s ->
  wp (next ← kget (fun s => m_next_barrier_time (barrier s));
      kupd (on_barrier (set_global next));;
      hook_periodic traverse next;;
      if advancing then
        r ← anyThreadRunning;
        if r : bool then mret true
        else t ← getNextTimeout traverse; kassert (t <? MaxTime) LogError;; mret false
      else mret false)
    (fun stop s' => advanced s s' /\ m_next_barrier_time (barrier s') = m_next_barrier_time (barrier s) /\
      m_global_time (barrier s') = m_next_barrier_time (barrier s) /\
      (if stop : bool then advancing = true /\ active s'
       else advancing = true -> syscalls s' = syscalls s /\ m_next_barrier_time (barrier s) < D)) s.
Proof.
  intros Hs HD. pose proof (i_barrier _ _ (ok_inv _ _ Hs)) as Hw. set (n := m_next_barrier_time (barrier s)).
  assert (H1 : advanced s (on_barrier (set_global n) s)).
  { apply advanced_barrier; try done; [by apply wf_global|by split; auto|]. exists 0%nat. cbn. lia. }
  step. step. fold n. step. step. step. eapply kwp_mono; [apply hook_wakes, H1|]. intros _ s2 [H2 H3].
  pose proof (transitivity H1 (ticks_advanced _ _ H2)) as H. pose proof (bf_global _ _ (tk_barrier _ _ H2)) as Eg. pose proof (bf_next _ _ (tk_barrier _ _ H2)) as En.
  destruct advancing; [|step; split_and!; done]. destruct HD as (Hc & HDm & w & Hwin & Hwt).
  step. apply wp_anyRunning; [apply H2|]. intros r Hr1 Hr2. destruct r; [step; split_and!; try done; auto|].
  destruct H3 as [H3|[Es H3]]; [by destruct (Hr2 eq_refl (someone_active _ H3))|]. cbn in Es. specialize (H3 Hc w Hwin). apply Z.leb_gt in H3.
  step. eapply wp_nextTimeout; [done|by rewrite Es|lia|]. intros t Ht. step. apply wp_assert; [by apply Z.ltb_lt|]. step.
  split_and!; try done. intros _. split; [done|]. lia.
Qed.

Lemma outcome_trans caller advancing s s1 r s2 : advanced s s1 -> (advancing = true -> syscalls s1 = syscalls s) -> outcome caller advancing s1 r s2 -> outcome caller advancing s r s2.
Proof.
  intros H1 Hy. destruct r as [wait|]; cbn.
  - intros (s3 & es & [L1 L2 L3 L4 L5] & H2 & Hy2 & H3). exists s3, es. assert (advancing = true -> syscalls s3 = syscalls s) by (intros E; by rewrite Hy2, Hy). rewrite (ad_cores _ _ H1) in *. split_and!; try done. split; try done; [by etransitivity|].
    destruct (ad_next _ _ H1) as [k E]. rewrite (ss_interval _ _ (ad_setup _ _ H1)), E in L2.
    pose proof (bw_interval _ _ (i_barrier _ _ (ok_inv _ _ (ad_ok _ _ L1)))) as Hp.
    rewrite (ss_interval _ _ (ad_setup _ _ L1)), (ss_interval _ _ (ad_setup _ _ H1)) in Hp. nia.
  - intros (E & H2 & H3). split_and!; [done|by etransitivity|done].
Qed.
Lemma passed_nil caller b : passed caller [] b = b.
Proof. destruct b. unfold passed. cbn. by rewrite app_nil_r. Qed.
Lemma none_filtered (p : nat -> bool) l : existsb p l = false -> List.filter p l = [].
Proof. induction l as [|x l IH]; cbn; [done|]. destruct (p x); [done|]. exact IH. Qed.

(** The pass of a round of the loop; [R] is what follows when no core is due. *)
Lemma round_pass (R : K (option bool)) caller advancing D s s2 :
  advanced s s2 -> called_by caller (barrier s) -> deadline advancing D s -> D + m_barrier_interval (barrier s) < 2 ^ 64 ->
  m_next_barrier_time (barrier s2) = m_next_barrier_time (barrier s) -> m_global_time (barrier s2) = m_next_barrier_time (barrier s) ->
  (advancing = true -> syscalls s2 = syscalls s /\ m_next_barrier_time (barrier s) < D) ->
  (forall s', advanced s s' -> m_next_barrier_time (barrier s') = m_next_barrier_time (barrier s) + m_barrier_interval (barrier s) ->
     deadline advancing D s' -> m_next_barrier_time (barrier s) < D -> wp R (outcome caller advancing s') s') ->
  wp (kupd (on_barrier (fun b => set_next (m_next_barrier_time b +64 m_barrier_interval b) b));;
      ids ← kget core_ids;
      r ← release_pass caller ids (false, true);
      if r.1 : bool then mret (Some r.2) else R)
    (outcome caller advancing s) s2.
Proof.
  intros H2 Hc HD Hov En Eg Hadv HR. pose proof (ad_setup _ _ H2) as Hst. pose proof (ss_interval _ _ Hst) as Ei.
  pose proof (ad_ok _ _ H2) as Hs2. pose proof (i_barrier _ _ (ok_inv _ _ Hs2)) as Hw2. pose proof (bw_interval _ _ Hw2) as Hi0. pose proof (bw_next _ _ Hw2) as Hn0.
  set (i := m_barrier_interval (barrier s)) in *. set (n := m_next_barrier_time (barrier s)) in *. rewrite Ei in Hi0. rewrite En in Hn0.
  assert (Hsmall : n + i < 2 ^ 64).
  { destruct advancing; [destruct (Hadv eq_refl); lia|]. destruct HD as [HD _]. fold n in HD. lia. }
  step. step. set (b3 := set_next (n + i) (barrier s2)).
  match goal with |- wp _ _ ?x => assert (x = set_barrier b3 s2) as -> end.
  { unfold on_barrier, b3. cbn beta. rewrite En, Ei. rewrite wrap_small by (unfold in_range; lia). done. }
  assert (Hw3 : bar_wf (num_cores s2) b3) by (apply wf_next; [done|lia]).
  assert (H3 : advanced s2 (set_barrier b3 s2)).
  { apply advanced_barrier; try done; [by split; auto|]. exists 1%nat. unfold b3. cbn. rewrite En, Ei. lia. }
  pose proof (transitivity H2 H3) as H. pose proof (advanced_called _ _ _ H Hc) as Hc3. set (s3 := set_barrier b3 s2) in *.
  step. step. step. eapply kwp_mono; [apply (pass_ok caller _ _ s3 (num_cores s3))|].
  - apply NoDup_seq.
  - apply Forall_seq. unfold num_cores. cbn. lia.
  - apply (bw_clocks _ _ Hw3).
  - apply (bw_acquired _ _ Hw3).
  - apply (bw_threads _ _ Hw3).
  - intros r s4 [-> [es ->]]. cbn [fst snd orb andb]. change (core_ids s3) with (seq 0 (num_cores s2)). rewrite (ad_cores _ _ H2).
    destruct (existsb _ _) eqn:Ed.
    + step. exists s3, es. cbn zeta. split_and!; try done; [|intros E; by destruct (Hadv E)]. split; try done; unfold s3, b3; cbn; lia.
    + rewrite (none_filtered _ _ Ed), passed_nil. assert (set_effects es (set_barrier (barrier s3) s3) = set_effects es s3) as -> by done.
      pose proof (transitivity H (advanced_effects es s3 (ad_ok _ _ H3))) as H4. set (s4 := set_effects es s3) in *.
      assert (Hnd : forall c t, m_barrier_acquire_list (barrier s) !! c = Some true -> m_local_clock_list (barrier s) !! c = Some t ->
        m_local_clock_list (barrier s4) !! c = Some t /\ n + i <= t).
      { intros c t Ha Ht. assert (Ha3 : m_barrier_acquire_list b3 !! c = Some true) by (unfold b3; cbn; by rewrite (ad_acquired _ _ H2)).
        destruct (is_due b3 c) eqn:Hd.
        - exfalso. rewrite <- not_true_iff_false, existsb_exists in Ed. apply Ed. exists c. split; [|done]. apply list_elem_of_In, elem_of_seq.
          apply lookup_lt_Some in Ht. rewrite <- (ad_cores _ _ H2). rewrite <- (bw_acquired _ _ Hw3). apply lookup_lt_Some in Ha3. lia.
        - destruct (ss_clock _ _ Hst c) as [E|[_ E]]; [rewrite Ht in E|]; pose proof (proj1 (not_due b3 c _ E Ha3) Hd) as Hle; cbn in Hle; [done|lia]. }
      assert (Hlt : n < D).
      { destruct advancing; [by destruct (Hadv eq_refl)|]. destruct HD as (_ & c & t & Ha & Ht & HtD). destruct (Hnd c t Ha Ht). lia. }
      eapply kwp_mono; [apply HR; try done|intros r s5; apply outcome_trans; [done|intros E; by destruct (Hadv E)]].
      destruct advancing.
      * destruct HD as (H5 & H6 & w & H7 & H8). split_and!; [done|done|]. exists w. split; [|done]. unfold s4, s3. cbn. by rewrite (proj1 (Hadv eq_refl)).
      * destruct HD as (_ & c & t & Ha & Ht & HtD). destruct (Hnd c t Ha Ht) as [H5 H6]. split; [unfold s4, s3, b3; cbn; lia|].
        exists c, t. split_and!; [by rewrite (ad_acquired _ _ H4)|done|done].
Qed.

(** The loop ends by the deadline. *)
Lemma loop_ok fuel caller advancing D s :
  sys_ok s -> called_by caller (barrier s) -> deadline advancing D s -> D + m_barrier_interval (barrier s) < 2 ^ 64 ->
  D <= m_next_barrier_time (barrier s) + Z.of_nat fuel * m_barrier_interval (barrier s) ->
  wp (release_loop traverse (S fuel) caller advancing) (outcome caller advancing s) s.
Proof.
  revert s. induction fuel as [|fuel IH]; intros s Hs Hc HD Hov Hfuel.
  all: cbn [release_loop]; pose proof (loop_hooks advancing D s Hs HD) as H.
  all: apply wp_bind_inv in H; step; eapply kwp_mono; [exact H|clear H]; intros next s0 H.
  all: apply wp_bind_inv in H; step; eapply kwp_mono; [exact H|clear H]; intros u s1 H.
  all: apply wp_bind_inv in H; step; eapply kwp_mono; [exact H|clear H]; intros v s2 H.
  all: step; eapply kwp_mono; [exact H|clear H]; intros stop s3 (H1 & H2 & H3 & H4).
  all: step; step; rewrite (bw_enabled _ _ (i_barrier _ _ (ok_inv _ _ (ad_ok _ _ H1)))).
  all: destruct stop; cbn [orb]; [step; destruct H4; by split_and!|].
  all: eapply round_pass; [done|done|exact HD|done|done|done|done|].
  - intros s' _ _ _ Hlt. lia.
  - intros s' H5 H6 H7 _. pose proof (ss_interval _ _ (ad_setup _ _ H5)) as Ei. apply IH; [apply H5|by eapply advanced_called|done|by rewrite Ei|].
    rewrite Ei, H6. lia.
Qed.

(** ** The release *)

Lemma release_back_all back n s : Z.of_nat (length back) <= n -> wp (release_back back n) (fun rest _ => rest = []) s \/ exists e, release_back back n s = Err e.
Proof.
  revert n s. induction back as [|c back IH]; intros n s Hn; cbn [release_back]; [by left|].
  destruct (Z.eqb_spec n 0); [cbn in Hn; lia|]. unfold wp, mbind, K_bind. destruct (cond_signal c s) as [[u s']|e]; [|right; eauto].
  apply IH. cbn in Hn. lia.
Qed.
Lemma doRelease_all (w : Setting) n s : bar_wf (who := w) (num_cores s) (barrier s) -> Z.of_nat (length (m_to_release (barrier s))) <= n ->
  wp (doRelease n) (fun _ s' => m_to_release (barrier s') = []) s.
Proof.
  intros Hw Hn. pose proof (doRelease_hooks (who := w) n s Hw) as H. unfold hooks, doRelease in *. apply wp_bind_inv in H. step. step. unfold kget, wp at 1 in H. step.
  destruct (release_back_all (rev (m_to_release (barrier s))) n s) as [Hr|[e Hr]]; [by rewrite length_rev| |].
  - eapply kwp_mono; [exact Hr|]. by intros rest s' ->.
  - apply wp_bind_inv in H. unfold wp in H. by rewrite Hr in H.
Qed.
Lemma wf_shuffled (w : Setting) n l g b : bar_wf (who := w) n b -> l ≡ₚ m_to_release b -> bar_wf (who := w) n (set_generator g (set_to_release l b)).
Proof.
  intros [] Hl. split; try done; cbn.
  - by rewrite Hl.
  - intros c Hc. rewrite bw_queue by done. unfold queued. cbn. do 3 f_equal. symmetry. by apply Permutation_count_occ.
Qed.

(** What the release of the barrier does. *)
Record released (caller : option nat) (s : Sys) (wait : bool) (s' : Sys) : Prop := {
  rd_ok : sys_ok (who := staying wait) s';
  rd_busy : keeps_busy ∅ s s';
  rd_cores : num_cores s' = num_cores s;
  rd_threads : length (threads s') = length (threads s);
  rd_runnable : length (runnable s') = length (runnable s);
  rd_setup : same_setup (barrier s) (barrier s');
  rd_next : exists k, m_next_barrier_time (barrier s') = m_next_barrier_time (barrier s) + (Z.of_nat k + 1) * m_barrier_interval (barrier s);
  rd_global : m_global_time (barrier s') = m_next_barrier_time (barrier s') - m_barrier_interval (barrier s);
  rd_inside c : m_barrier_acquire_list (barrier s') !! c = Some true <->
    m_barrier_acquire_list (barrier s) !! c = Some true /\
    exists t, m_local_clock_list (barrier s') !! c = Some t /\ m_next_barrier_time (barrier s') <= t;
  rd_some : exists c, m_barrier_acquire_list (barrier s) !! c = Some true /\ m_barrier_acquire_list (barrier s') !! c = Some false;
  rd_wait : wait = true <-> forall c, entering = Some c -> m_barrier_acquire_list (barrier s') !! c = Some true
}.

Lemma cleared_inside n b c : bar_wf n b ->
  cleared (due_cores n b) (m_barrier_acquire_list b) !! c = Some true <->
  m_barrier_acquire_list b !! c = Some true /\ exists t, m_local_clock_list b !! c = Some t /\ m_next_barrier_time b <= t.
Proof.
  intros Hw. rewrite cleared_lookup. destruct (m_barrier_acquire_list b !! c) as [a|] eqn:Ea; cbn; [|split; [done|by intros [? _]]].
  pose proof (lookup_lt_Some _ _ _ Ea) as Hc. rewrite (bw_acquired _ _ Hw), <- (bw_clocks _ _ Hw) in Hc. destruct (lookup_lt_is_Some_2 _ _ Hc) as [t Ht].
  rewrite (decide_ext _ _ _ _ (elem_due n b c Hw)). destruct a; [|case_decide; split; naive_solver].
  destruct (is_due b c) eqn:Hd.
  - rewrite decide_True by done. split; [done|]. intros (_ & t' & Ht' & Hle). apply (not_due b c t') in Hle; [congruence|done|done].
  - rewrite decide_False by done. split; [|done]. intros _. split; [done|]. exists t. split; [done|]. by apply (not_due b c t).
Qed.
Lemma waits_inside caller n b : bar_wf n b -> called_by caller b ->
  forallb (other_thread caller b) (due_cores n b) = true <->
  forall c, entering = Some c -> cleared (due_cores n b) (m_barrier_acquire_list b) !! c = Some true.
Proof.
  intros Hw Hc. rewrite forallb_forall. split.
  - intros H c He. pose proof (bw_entering _ _ Hw c He) as Ha. rewrite cleared_lookup, Ha. cbn. case_decide as Hd; [|done].
    apply list_elem_of_In, H in Hd. unfold other_thread in Hd. rewrite bool_decide_eq_true_2 in Hd; [done|]. by apply Hc.
  - intros H c Hd%list_elem_of_In. unfold other_thread. rewrite bool_decide_eq_false_2; [done|]. intros Ht.
    pose proof (due_acquired _ _ (proj1 (elem_due n b c Hw) Hd)) as Ha. apply (Hc c Ha) in Ht. specialize (H c Ht). rewrite cleared_lookup, Ha in H. cbn in H.
    by rewrite decide_True in H.
Qed.

Context (permutes : forall g l, (shuffle g l).1 ≡ₚ l).

(** The released cores are signalled, as many as may run. *)
Lemma finish_ok caller s s1 es wait :
  let due := due_cores (num_cores s) (barrier s1) in
  last_pass caller s s1 -> m_to_release (barrier s1) = [] -> wait = forallb (other_thread caller (barrier s1)) due ->
  wp (kupd (on_barrier (fun b => let '(l, g) := shuffle (generator b) (m_to_release b) in set_generator g (set_to_release l b)));;
      ff ← kget (fun s => m_fastforward (barrier s));
      host ← kget num_host_cores;
      doRelease (if ff : bool then -1 else host);;
      mret wait) (fun w s' => w = wait /\ released caller s wait s' /\ syscalls s' = syscalls s1)
    (set_effects es (set_barrier (passed caller due (barrier s1)) s1)).
Proof.
  intros due [H1 H2 H3 H4 H5] Hnil Ewait. pose proof (ad_ok _ _ H1) as Hs1. pose proof (ok_inv _ _ Hs1) as Hi1. pose proof (i_barrier _ _ Hi1) as Hw1.
  pose proof (ad_cores _ _ H1) as En. rewrite En in Hw1. set (b1 := barrier s1) in *.
  pose proof (passed_wf caller (num_cores s) b1 Hw1 H4) as Hw2. cbv zeta in Hw2. fold due in Hw2. rewrite <- Ewait in Hw2.
  set (b2 := passed caller due b1) in *. step. step. cbn [barrier set_effects set_barrier on_barrier].
  destruct (shuffle (generator b2) (m_to_release b2)) as [l g] eqn:Esh. pose proof (permutes (generator b2) (m_to_release b2)) as Hperm. rewrite Esh in Hperm. cbn in Hperm.
  pose proof (wf_shuffled (staying wait) _ l g b2 Hw2 Hperm) as Hw3. set (b3 := set_generator g (set_to_release l b2)) in *.
  match goal with |- wp _ _ ?x => set (s3 := x) end. assert (E3 : s3 = set_effects es (set_barrier b3 s1)) by (unfold s3, on_barrier; cbn [barrier set_effects set_barrier]; by rewrite Esh).
  assert (Hw3' : bar_wf (who := staying wait) (num_cores s3) (barrier s3)) by (rewrite E3; unfold num_cores; cbn; fold (num_cores s1); by rewrite En).
  step. step. rewrite (bw_detailed _ _ Hw3'). step. step. step.
  assert (Hh : num_host_cores s3 = host_cores) by (rewrite E3; apply (i_host _ _ Hi1)). rewrite Hh.
  eapply kwp_mono; [apply wp_and; [by apply (doRelease_exact (who := staying wait))|]|].
  { instantiate (1 := fun _ s' => Z.of_nat (num_cores s) <= host_cores -> m_to_release (barrier s') = []).
    destruct (Z.le_gt_cases (Z.of_nat (num_cores s)) host_cores) as [Hle|Hgt].
    - eapply kwp_mono; [apply (doRelease_all (staying wait)); [done|]|by intros u s4 H _]. rewrite E3. cbn.
      rewrite (Permutation_length Hperm). cbn. rewrite Hnil. cbn. transitivity (Z.of_nat (num_cores s)); [|done]. apply inj_le.
      etransitivity; [apply filter_length_le|]. unfold due, due_cores. etransitivity; [apply filter_length_le|]. by rewrite length_seq.
    - eapply kwp_mono; [by apply (doRelease_hooks (who := staying wait))|]. intros u s4 _. lia. }
  intros u s4 [(rest & rel & Erel & ->) Hall]. step. split; [done|]. rewrite E3 in *. cbn in Erel, Hall.
  set (b4 := let_go rest rel b3). assert (Hb4 : bar_frame b3 b4) by (split; cbn; try done; [auto|]; by exists rel).
  pose proof (bar_frame_wf (who := staying wait) _ _ _ Hb4 Hw3) as Hw4.
  assert (Hok : sys_ok (who := staying wait) (set_effects es (set_barrier b4 s1))).
  { apply (ok_barrier (staying wait) b4 es s1 Hs1 eq_refl eq_refl); rewrite En; [exact Hw4|exact Hall]. }
  destruct (ad_next _ _ H1) as [k Ek]. pose proof (ad_setup _ _ H1) as [Q1 Q2 Q3 Q4 Q5]. pose proof (bw_interval _ _ Hw1) as Hp. fold b1 in Q1. rewrite Q1 in Hp.
  split; [|done]. split; cbn.
  - exact Hok.
  - eapply keeps_busy_trans; [apply (ad_busy _ _ H1)|by apply keeps_busy_sched].
  - apply (ad_cores _ _ H1).
  - apply (ad_threads _ _ H1).
  - apply (ad_runnable _ _ H1).
  - by split.
  - exists (k - 1)%nat. fold b1 in Ek. rewrite Ek in *. assert (k <> 0)%nat by (intros ->; lia). nia.
  - fold b1. by rewrite H3, Q1.
  - intros c. fold b1. rewrite <- (ad_acquired _ _ H1). fold b1. by apply cleared_inside.
  - apply existsb_exists in H5 as (c & _ & Hd). exists c. pose proof (due_acquired _ _ Hd) as Ha. rewrite <- (ad_acquired _ _ H1). split; [done|].
    fold b1. rewrite cleared_lookup, Ha. cbn. rewrite decide_True; [done|]. by apply elem_due.
  - rewrite Ewait. fold b1. by apply waits_inside.
Qed.

Lemma max_awaited (l : list Z) D : D ∈ l -> D < MaxTime -> D <= foldr Z.max 0 (filter (fun t => t < MaxTime) l).
Proof.
  intros HD Hm. induction l as [|x l IH]; [by apply not_elem_of_nil in HD|]. rewrite filter_cons. apply elem_of_cons in HD as [<-|HD].
  - rewrite decide_True by done. cbn. lia.
  - case_decide; cbn; specialize (IH HD); lia.
Qed.
(** The fuel of the loop is enough for every time that is waited for. *)
Lemma release_fuel_enough D s : 0 < m_barrier_interval (barrier s) -> D ∈ awaited_times s -> D < MaxTime ->
  exists k, release_fuel s = S k /\ D <= m_next_barrier_time (barrier s) + Z.of_nat k * m_barrier_interval (barrier s).
Proof.
  intros Hi HD Hm. eexists. split; [unfold release_fuel; done|]. pose proof (max_awaited _ _ HD Hm) as Hle.
  set (last := foldr _ _ _) in *. set (i := m_barrier_interval _) in *. set (n := m_next_barrier_time _) in *.
  pose proof (Z.mul_succ_div_gt (last - n) i Hi). rewrite Nat2Z.inj_succ. destruct (Z.le_gt_cases 0 ((last - n) / i)); [rewrite Z2Nat.id by done|]; nia.
Qed.
Lemma waiter_awaited w s : w ∈ all_waiters (syscalls s) -> w_timeout w ∈ awaited_times s.
Proof.
  unfold all_waiters, awaited_times. rewrite !elem_of_app. intros [H|H]; right; [left|right]; by apply list_elem_of_fmap_2.
Qed.

(** The release of the barrier returns: it lets the due cores go, or, when it advances for
    the sleeping threads, it stops because one of them is awake. *)
Lemma release_ok caller advancing D s :
  sys_ok s -> m_to_release (barrier s) = [] -> called_by caller (barrier s) -> deadline advancing D s ->
  D ∈ awaited_times s -> D + m_barrier_interval (barrier s) < 2 ^ 64 ->
  wp (barrierRelease traverse shuffle caller advancing) (fun wait s' =>
    released caller s wait s' /\ (advancing = true -> syscalls s' = syscalls s) \/ advancing = true /\ wait = false /\ advanced s s' /\ active s') s.
Proof.
  intros Hs Hnil Hc HD Hin Hov. pose proof (i_barrier _ _ (ok_inv _ _ Hs)) as Hw. pose proof (bw_interval _ _ Hw) as Hp.
  unfold barrierRelease. step. step. rewrite Hnil. step. apply wp_assert; [done|]. step. step. rewrite (bw_detailed _ _ Hw). cbn [kwhen]. step. step. step. step.
  destruct (release_fuel_enough D s) as (k & -> & Hk); [done|done|unfold MaxTime; lia|].
  step. eapply kwp_mono; [by eapply loop_ok|]. intros [wait|] s'; cbn [outcome].
  - intros (s1 & es & H1 & H2 & Hy & ->). eapply kwp_mono; [eapply finish_ok; try done|].
    + apply (ad_release _ _ (lp_advanced _ _ _ H1)), Hnil.
    + intros w s' (-> & H & E). left. split; [done|]. intros Ha. by rewrite E, Hy.
  - intros (H1 & H2 & H3). step. right. by split_and!.
Qed.
End barrier.
