(* ===== verification/ThreadPinned.v ===== *)
(** * The search of the pinned scheduler

    The pinned scheduler hands out cores in strides of [interleaving]. The order in which it
    visits the cores is a permutation of them when the stride is not longer than the number of
    cores, so both of its searches return to where they started, and end. *)

From stdpp Require Import base tactics list numbers.
From Stdlib Require Import ZArith Lia ListDec.
From S2P Require Import Prelude Utils Timing Threads ThreadProps ThreadOps.
Local Open Scope Z_scope.
Local Open Scope mach_scope.

(** ** Orbits of a permutation *)

Section orbit.
Context (n : nat) (f : nat -> nat).
Context (f_range : forall c, (c < n -> f c < n)%nat) (f_inj : forall c d, (c < n -> d < n -> f c = f d -> c = d)%nat).

Lemma iter_range k c : (c < n)%nat -> (Nat.iter k f c < n)%nat.
Proof. intros Hc. induction k; cbn; auto. Qed.
Lemma iter_cancel i k c : (c < n)%nat -> Nat.iter i f c = Nat.iter (i + k) f c -> Nat.iter k f c = c.
Proof.
  intros Hc. induction i as [|i IH]; cbn; [done|]. intros H. apply IH. apply f_inj; [by apply iter_range..|done].
Qed.
(** Every point comes back to itself, after at most [n] steps. *)
Lemma orbit c : (c < n)%nat -> exists k, (0 < k <= n)%nat /\ Nat.iter k f c = c.
Proof.
  intros Hc. set (l := (fun i => Nat.iter i f c) <$> seq 0 (S n)).
  assert (Hd : ~ List.NoDup l).
  { intros Hnd. pose proof (NoDup_incl_length Hnd (l' := seq 0 n)) as H. unfold l in H. rewrite length_fmap, !length_seq in H.
    assert (S n <= n)%nat; [|lia]. apply H. intros x Hx%list_elem_of_In. apply list_elem_of_fmap in Hx as (i & -> & _).
    apply in_seq. cbn. split; [lia|by apply iter_range]. }
  apply not_NoDup in Hd as (a & l1 & l2 & l3 & E); [|intros x y; unfold Decidable.decidable; lia]. set (i := length l1). set (j := (i + S (length l2))%nat).
  assert (Hi : l !! i = Some a) by (unfold i; rewrite E, lookup_app_r, Nat.sub_diag by lia; done).
  assert (Hj : l !! j = Some a).
  { unfold j, i. rewrite E, lookup_app_r by lia. replace (length l1 + S (length l2) - length l1)%nat with (S (length l2)) by lia.
    change ((a :: l2 ++ a :: l3) !! S (length l2)) with ((l2 ++ a :: l3) !! length l2).
    rewrite lookup_app_r, Nat.sub_diag by lia. done. }
  unfold l in Hi, Hj. rewrite list_lookup_fmap in Hi, Hj.
  destruct (seq 0 (S n) !! i) as [x|] eqn:Ex; [|done]. destruct (seq 0 (S n) !! j) as [y|] eqn:Ey; [|done]. cbn in Hi, Hj.
  apply lookup_seq in Ex as [-> Hin], Ey as [-> Hjn]. exists (S (length l2)). split; [unfold j in Hjn; lia|].
  apply (iter_cancel i); [done|]. injection Hi as Hi. injection Hj as Hj. cbn in *. rewrite Hi. exact (eq_sym Hj).
Qed.
End orbit.

(** ** The order of the cores *)

(** The core after core [c], for [n] cores and a stride of [il]. *)
Definition stride_next (n il c : nat) : nat := if (c + il <? n)%nat then (c + il)%nat else ((c + il - n + 1) mod il)%nat.

Section stride.
Context (n il : nat) (il_range : (0 < il <= n)%nat).

Lemma stride_range c : (c < n -> stride_next n il c < n)%nat.
Proof.
  unfold stride_next. intros Hc. destruct (Nat.ltb_spec (c + il) n); [done|]. pose proof (Nat.mod_upper_bound (c + il - n + 1) il). lia.
Qed.
Lemma mod_succ r : (r < il -> ((r + 1) mod il = if (r + 1 =? il) then 0 else r + 1))%nat.
Proof.
  intros Hr. destruct (Nat.eqb_spec (r + 1) il) as [->|]; [apply Nat.Div0.mod_same|]. apply Nat.mod_small. lia.
Qed.
Lemma stride_inj c d : (c < n -> d < n -> stride_next n il c = stride_next n il d -> c = d)%nat.
Proof.
  unfold stride_next. intros Hc Hd.
  destruct (Nat.ltb_spec (c + il) n) as [H1|H1], (Nat.ltb_spec (d + il) n) as [H2|H2]; [lia|..].
  - rewrite (mod_succ (d + il - n)) by lia. destruct (Nat.eqb_spec (d + il - n + 1) il); lia.
  - rewrite (mod_succ (c + il - n)) by lia. destruct (Nat.eqb_spec (c + il - n + 1) il); lia.
  - rewrite !mod_succ by lia. destruct (Nat.eqb_spec (c + il - n + 1) il), (Nat.eqb_spec (d + il - n + 1) il); lia.
Qed.
Lemma next_core_stride c : (c < n)%nat -> next_core (Z.of_nat n) (Z.of_nat il) (Z.of_nat c) = Ok (Z.of_nat (stride_next n il c)).
Proof.
  intros Hc. unfold next_core, stride_next. destruct (Nat.ltb_spec (c + il) n) as [H|H].
  - destruct (Z.leb_spec (Z.of_nat n) (Z.of_nat c + Z.of_nat il)); [lia|]. by rewrite Nat2Z.inj_add.
  - destruct (Z.leb_spec (Z.of_nat n) (Z.of_nat c + Z.of_nat il)); [|lia]. destruct (Z.eqb_spec (Z.of_nat il) 0); [lia|]. cbn [negb check mbind res_bind].
    rewrite <- Nat2Z.inj_add, (Z.rem_mod_nonneg (Z.of_nat (c + il))) by lia.
    replace (Z.of_nat (c + il) mod Z.of_nat n) with (Z.of_nat (c + il - n)).
    + rewrite Z.rem_mod_nonneg by lia. by rewrite Nat2Z.inj_mod, Nat2Z.inj_add.
    + rewrite Nat2Z.inj_sub by lia. apply (Z.mod_unique _ _ 1); lia.
Qed.
End stride.

(** ** The searches *)

Section search.
Context (n il : nat) (il_range : (0 < il <= n)%nat) (mask : list bool) (mask_len : length mask = n).
Abbreviation next := (stride_next n il).
Abbreviation usable c := (mask !! c = Some true).

Lemma usable_range c : usable c -> (c < n)%nat.
Proof. intros H%lookup_lt_Some. by rewrite mask_len in H. Qed.
Lemma next_shift k c : Nat.iter k next (next c) = Nat.iter (S k) next c.
Proof. induction k; cbn; [done|]. by f_equal. Qed.

(** The search ends at the first usable core after [c], if there is one within [j] steps. *)
Lemma next_loop fuel : forall c j, (c < n)%nat -> (1 <= j <= fuel)%nat -> usable (Nat.iter j next c) ->
  exists i, (1 <= i <= j)%nat /\ usable (Nat.iter i next c) /\
    getNextCore_loop fuel (Z.of_nat n) (Z.of_nat il) mask (Z.of_nat c) = Ok (Z.of_nat (Nat.iter i next c)).
Proof.
  induction fuel as [|fuel IH]; intros c j Hc Hj Hu; [lia|]. cbn [getNextCore_loop]. rewrite next_core_stride by done. cbn [mbind res_bind].
  pose proof (stride_range n il il_range c Hc) as Hd. destruct (lookup_lt_is_Some_2 mask (next c)) as [b Hb]; [by rewrite mask_len|].
  rewrite (proj2 (Z.leb_le 0 (Z.of_nat (next c)))) by lia. cbn [check mbind res_bind]. rewrite Nat2Z.id, (proj2 (rd_Ok _ _ _) Hb). cbn [mbind res_bind].
  destruct b; [exists 1%nat; split_and!; [lia|lia|done|done]|].
  destruct j as [|[|j]]; [lia|cbn in Hu; congruence|]. destruct (IH (next c) (S j)) as (i & Hi & Hui & E); [done|lia|by rewrite next_shift|].
  rewrite next_shift in Hui, E. exists (S i). split_and!; [lia|lia|done|done].
Qed.
Lemma getNext_ok c j : (c < n)%nat -> (1 <= j <= n)%nat -> usable (Nat.iter j next c) ->
  exists i, (1 <= i <= j)%nat /\ usable (Nat.iter i next c) /\ getNextCore (Z.of_nat il) mask c = Ok (Nat.iter i next c).
Proof.
  intros Hc Hj Hu. destruct (next_loop (S (length mask)) c j) as (i & Hi & Hui & E); [done|rewrite mask_len; lia|done|].
  exists i. split_and!; [lia..|done|]. unfold getNextCore. rewrite mask_len in *. rewrite E. cbn. by rewrite Nat2Z.id.
Qed.
(** From a usable core, the next usable core is found. *)
Lemma getNext_total c : usable c -> exists e, getNextCore (Z.of_nat il) mask c = Ok e /\ usable e.
Proof.
  intros Hu. pose proof (usable_range c Hu) as Hc.
  destruct (orbit n next (stride_range n il il_range) (stride_inj n il il_range) c Hc) as (k & Hk & E).
  destruct (getNext_ok c k) as (i & _ & Hi & Ei); [done|lia|by rewrite E|]. eauto.
Qed.

Lemma free_loop run first k fuel : length run = n -> usable first -> (0 < k <= n)%nat -> Nat.iter k next first = first ->
  forall m, (m < k)%nat -> (k - m <= fuel)%nat ->
  exists d, getFreeCore_loop fuel (Z.of_nat il) mask run first (Nat.iter m next first) = Ok d /\ usable d.
Proof.
  intros Hrun Hu Hk Hper. pose proof (usable_range first Hu) as Hf. induction fuel as [|fuel IH]; intros m Hm Hfuel; [lia|].
  cbn [getFreeCore_loop]. set (cur := Nat.iter m next first).
  assert (Hcur : (cur < n)%nat) by (apply iter_range; [by apply stride_range|done]).
  destruct (lookup_lt_is_Some_2 run cur) as [r Hr]; [by rewrite Hrun|]. destruct (lookup_lt_is_Some_2 mask cur) as [b Hb]; [by rewrite mask_len|].
  rewrite (proj2 (rd_Ok _ _ _) Hr). cbn [mbind res_bind]. rewrite (proj2 (rd_Ok _ _ _) Hb). cbn [mbind res_bind].
  destruct (bool_decide (r = None) && b) eqn:Eb.
  { apply andb_true_iff in Eb as [_ ->]. eauto. }
  destruct (getNext_ok cur (k - m)) as (i & Hi & Hui & E); [done|lia| |].
  { unfold cur. rewrite <- Nat.iter_add. replace (k - m + m)%nat with k by lia. by rewrite Hper. }
  rewrite E. cbn [mbind res_bind]. unfold cur in *. rewrite <- Nat.iter_add in *. destruct (Nat.eqb_spec (Nat.iter (i + m) next first) first) as [Eq|Hne]; [eauto|].
  apply IH; [|lia]. destruct (decide (i + m = k)%nat) as [Ek|]; [|lia]. rewrite Ek in Hne. done.
Qed.
Lemma getFree_total run first : length run = n -> usable first -> exists d, getFreeCore (Z.of_nat il) mask run first = Ok d /\ usable d.
Proof.
  intros Hrun Hu. destruct (orbit n next (stride_range n il il_range) (stride_inj n il il_range) first (usable_range _ Hu)) as (k & Hk & E).
  destruct (free_loop run first k (S (length mask)) Hrun Hu Hk E 0) as (d & Ed & Hd); [lia|rewrite mask_len; lia|]. eauto.
Qed.

(** The pinned scheduler finds a core for every thread. *)
Lemma pinned_policy_ok first : usable first -> policy_ok n (Pinned (Z.of_nat il) mask first).
Proof.
  intros Hu. split_and!; [done|done|]. intros run c Hrun Hc. destruct (getFree_total run c Hrun Hc) as (d & Ed & Hd).
  destruct (getNext_total d Hd) as (e & Ee & He). exists d, e. split_and!; [done|by apply usable_range|done|done].
Qed.
End search.
