(* ===== verification/ThreadRuns.v ===== *)
(** * Runs of the system of threads

    Cores enter the barrier; threads are created, start, stall, resume, exit, yield and change
    their affinity, in any order. No such run fails, the scheduler, the threads, the cores and
    the barrier agree after each operation, and the pinned scheduler leaves no core free that
    a thread waits for. *)

From stdpp Require Import base tactics list numbers gmap sets.
From Stdlib Require Import ZArith Lia.
From S2P Require Import Prelude Utils Timing Threads ThreadProps ThreadOps ThreadPolicy ThreadBarrier.
Local Open Scope Z_scope.
Local Open Scope mach_scope.

(** ** Whether the barrier is reached *)

Section reached.
Context {who : Setting}.

Lemma wp_find_pure {X} (p : X -> K bool) l s : (forall x, x ∈ l -> wp (p x) (fun _ s' => s' = s) s) -> wp (kfind p l) (fun _ s' => s' = s) s.
Proof.
  induction l as [|x l IH]; intros H; cbn [kfind]; [done|]. step. eapply kwp_mono; [apply H; left|]. intros b s' ->. destruct b; [done|].
  apply IH. intros y Hy. apply H. by right.
Qed.
Lemma wp_ownRunning c s : sys_ok s -> (c < num_cores s)%nat -> wp (own_thread_running c) (fun _ s' => s' = s) s.
Proof.
  intros Hs Hc. pose proof (ok_inv _ _ Hs) as Hi. destruct (lookup_lt_is_Some_2 (cores s) c Hc) as [co Hco]. unfold own_thread_running.
  step. unfold getCore. step; [exact Hco|]. case_bool_decide as Er; [|by step]. destruct (m_thread co) as [t|] eqn:Et.
  - apply (p_core _ _ (i_placed _ _ Hi) _ _ t Hco) in Et as [Ht _]. destruct (lookup_lt_is_Some_2 (thread_state s) t) as [st Hst]; [by rewrite (i_states _ _ Hi)|].
    unfold isThreadRunning, getTState. step. step; [exact Hst|]. by step.
  - pose proof (p_idle _ _ (i_placed _ _ Hi) _ _ Hco Et). congruence.
Qed.
Lemma wp_coreRunning c siblings s : sys_ok s -> (c < num_cores s)%nat -> wp (isCoreRunning c siblings) (fun _ s' => s' = s) s.
Proof.
  intros Hs Hc. unfold isCoreRunning. step. eapply kwp_mono; [by apply wp_ownRunning|]. intros r s' ->. destruct r; [by step|]. step. step.
  destruct (siblings && _); [|by step]. step. step. step. eapply kwp_mono; [apply wp_find_pure|intros o s' ->; by step].
  intros x [_ Hx]%elem_of_seq. cbn in Hx. destruct (lookup_lt_is_Some_2 (m_core_group (barrier s)) x) as [g Hg].
  { rewrite (bw_groups _ _ (i_barrier _ _ (ok_inv _ _ Hs))). exact Hx. }
  step. unfold getGroup. step; [exact Hg|]. case_bool_decide; [by apply wp_ownRunning|by step].
Qed.

(** The barrier is reached only when the clock of a core has passed the next barrier. *)
Lemma wp_reached ids acc s : sys_ok s -> Forall (fun c => (c < num_cores s)%nat) ids ->
  wp (reached_loop ids acc) (fun r s' => s' = s /\ (r = true -> acc = true \/
    exists c t, m_local_clock_list (barrier s) !! c = Some t /\ m_next_barrier_time (barrier s) <= t)) s.
Proof.
  intros Hs. pose proof (i_barrier _ _ (ok_inv _ _ Hs)) as Hw. revert acc. induction ids as [|c ids IH]; intros acc Hids; cbn [reached_loop]; [step; auto|].
  apply Forall_cons in Hids as [Hc Hids]. step. step. rewrite (bw_detailed _ _ Hw).
  destruct (lookup_lt_is_Some_2 (m_core_group (barrier s)) c) as [g Hg]; [by rewrite (bw_groups _ _ Hw)|].
  destruct (lookup_lt_is_Some_2 (m_local_clock_list (barrier s)) c) as [t Ht]; [by rewrite (bw_clocks _ _ Hw)|].
  step. unfold getGroup. step; [exact Hg|]. case_bool_decide; [by apply IH|]. step. eapply kwp_mono; [by apply wp_coreRunning|]. intros r s' ->.
  destruct r; [|by apply IH]. step. unfold getClock. step; [exact Ht|]. step. step. destruct (Z.ltb_spec t (m_next_barrier_time (barrier s))); [by step|].
  eapply kwp_mono; [by apply IH|]. intros r s' [-> Hr]. split; [done|]. intros _. right. eauto.
Qed.
Lemma wp_isReached s : sys_ok s ->
  wp isBarrierReached (fun r s' => s' = s /\ (r = true -> exists c t, m_barrier_acquire_list (barrier s) !! c = Some true /\
    m_local_clock_list (barrier s) !! c = Some t /\ m_next_barrier_time (barrier s) <= t /\ t + m_barrier_interval (barrier s) < 2 ^ 64)) s.
Proof.
  intros Hs. unfold isBarrierReached. step. step. eapply kwp_mono; [apply wp_reached; [done|apply Forall_seq; unfold num_cores; cbn; lia]|].
  intros r s' [-> Hr]. split; [done|]. intros E. destruct (Hr E) as [|(c & t & Ht & Hle)]; [done|]. exists c, t.
  destruct (bw_clock _ _ (i_barrier _ _ (ok_inv _ _ Hs)) c t Ht) as [_ H]. destruct (H Hle). by split_and!.
Qed.
End reached.

(** ** Operations of the barrier *)

Section runs.
Context (host : Z) (cores_n : nat).
(** The core that is entering the barrier. *)
Definition at_barrier (o : option nat) : Setting := {| entering := o; host_cores := host; core_count := cores_n |}.
#[local] Instance nobody : Setting := at_barrier None.

Context (traverse : gmap Z (list Waiter) -> list Z) (va2pa : nat -> Z -> Z) (shuffle : Z -> list nat -> list nat * Z).
Context (permutes : forall g l, (shuffle g l).1 ≡ₚ l).

(** The operation completes, keeps the invariant, and keeps the cores busy. *)
Definition keeps_ok {A} (m : K A) (s : Sys) : Prop := wp m (fun _ s' => sys_ok s' /\ keeps_busy ∅ s s') s.

Lemma all_released s : sys_ok s -> Z.of_nat (num_cores s) <= host -> m_to_release (barrier s) = [].
Proof. intros Hs. apply (i_all _ _ (ok_inv _ _ Hs)). Qed.
Lemma called_by_nobody s : sys_ok s -> called_by None (barrier s).
Proof.
  intros Hs c Ha. destruct (bw_known _ _ (i_barrier _ _ (ok_inv _ _ Hs)) c Ha) as [t Ht]. rewrite Ht. split; [congruence|done].
Qed.

Lemma ok_signal s : sys_ok s -> Z.of_nat (num_cores s) <= host -> keeps_ok (barrier_signal traverse shuffle) s.
Proof.
  intros Hs Hh. pose proof (i_barrier _ _ (ok_inv _ _ Hs)) as Hw. unfold keeps_ok, barrier_signal. step. step. rewrite (bw_enabled _ _ Hw). step.
  eapply kwp_mono; [by apply wp_isReached|]. intros r s' [-> Hr]. apply wp_when; [|by intros _; split; [|apply keeps_busy_sched]].
  intros ->. destruct (Hr eq_refl) as (c & t & Ha & Ht & Hn & Hov). step. eapply kwp_mono; [eapply (release_ok _ _ permutes None false t s Hs)|].
  - by apply all_released.
  - by apply called_by_nobody.
  - split; [done|]. exists c, t. by split_and!.
  - apply elem_of_app. left. by eapply list_elem_of_lookup_2.
  - done.
  - intros w s' [[[H1 H2] _]|[? _]]; [|done]. step. split; [|done]. by destruct w.
Qed.

Lemma ok_set_barrier o o' b s : sys_ok (who := at_barrier o) s -> bar_wf (who := at_barrier o') (num_cores s) b ->
  (Z.of_nat (num_cores s) <= host -> m_to_release b = []) -> sys_ok (who := at_barrier o') (set_barrier b s).
Proof.
  intros Hs Hw Hr. rewrite <- (set_effects_id (set_barrier b s)). exact (ok_barrier (who := at_barrier o) (at_barrier o') b _ s Hs eq_refl eq_refl Hw Hr).
Qed.

(** A core enters the barrier, and its host thread then waits there. *)
Definition entered (m : nat) (t : nat) (time : Z) (b : Barrier) : Barrier :=
  set_core_threads (<[m := Some t]> (m_core_thread b)) (set_acquired (<[m := true]> (m_barrier_acquire_list b)) (set_clocks (<[m := time]> (m_local_clock_list b)) b)).
Lemma entered_wf n m t time b : bar_wf n b -> m_barrier_acquire_list b !! m = Some false ->
  m_next_barrier_time b <= time -> time + m_barrier_interval b < 2 ^ 64 -> bar_wf (who := at_barrier (Some m)) n (entered m t time b).
Proof.
  intros Hw Hm Hn Hov. pose proof (lookup_lt_Some _ _ _ Hm) as Hlt. rewrite (bw_acquired _ _ Hw) in Hlt.
  assert (Hcl : forall (l : list (option nat)) x, length l = n -> <[m := x]> l !! m = Some x) by (intros l x E; apply list_lookup_insert_eq; by rewrite E).
  destruct Hw. split; cbn; rewrite ?length_insert; try done.
  - intros c Hc. rewrite bw_queue by done. f_equal. unfold queued, inside. cbn. destruct (decide (m = c)) as [->|Hne].
    + rewrite (list_lookup_insert_eq _ c true) by lia. rewrite Hm. rewrite (decide_False (P := Some false = _)) by done.
      rewrite (decide_True (P := Some true = _)) by done. rewrite (decide_True (P := Some c = _)) by done. rewrite decide_False by done. lia.
    + rewrite list_lookup_insert_ne by done. rewrite (decide_False (P := Some m = _)) by congruence. rewrite (decide_False (P := None = _)) by done. done.
  - intros c [= <-]. apply list_lookup_insert_eq. lia.
  - intros c x. destruct (decide (m = c)) as [->|Hne].
    + rewrite !list_lookup_insert_eq by lia. intros [= <-]. split; [lia|done].
    + rewrite !list_lookup_insert_ne by done. apply bw_clock.
  - intros c. destruct (decide (m = c)) as [->|Hne]; [rewrite Hcl by done; eauto|]. rewrite !list_lookup_insert_ne by done. apply bw_known.
Qed.
Lemma waiting_wf n m x b : bar_wf (who := at_barrier (Some m)) n b -> core_waits b !! m = Some x -> bar_wf n (set_core_waits (<[m := S x]> (core_waits b)) b).
Proof.
  intros Hw Hx. pose proof (bw_entering _ _ Hw m eq_refl) as Ha. pose proof (lookup_lt_Some _ _ _ Hx) as Hlt. rewrite (bw_waits _ _ Hw) in Hlt.
  destruct Hw. split; cbn; rewrite ?length_insert; try done. intros c Hc. destruct (decide (m = c)) as [->|Hne].
  - rewrite list_lookup_insert_eq by lia. rewrite bw_queue in Hx by done. injection Hx as <-. f_equal. unfold queued, inside. cbn.
    rewrite decide_True by done. rewrite (decide_True (P := Some c = _)) by done. rewrite (decide_False (P := None = _)) by done. lia.
  - rewrite list_lookup_insert_ne, bw_queue by done. unfold queued. cbn. rewrite (decide_False (P := Some m = _)) by congruence.
    by rewrite (decide_False (P := None = _)).
Qed.
Lemma ok_wait m s : sys_ok (who := at_barrier (Some m)) s -> wp (cond_wait m;; mret true) (fun _ s' => sys_ok s' /\ sched s' = sched s) s.
Proof.
  intros Hs. pose proof (i_barrier _ _ (ok_inv _ _ Hs)) as Hw. pose proof (bw_entering _ _ Hw m eq_refl) as Ha. apply lookup_lt_Some in Ha.
  rewrite (bw_acquired _ _ Hw), <- (bw_waits _ _ Hw) in Ha. destruct (lookup_lt_is_Some_2 _ _ Ha) as [x Hx].
  step. unfold cond_wait. step; [exact Hx|]. step. split; [|done]. eapply (ok_set_barrier (Some m) None); [done|by apply waiting_wf|].
  apply (i_all _ _ (ok_inv _ _ Hs)).
Qed.

(** The thread of the core is not in the barrier, nor is another one of its group. *)
Record may_enter (c : nat) (time : Z) (s : Sys) : Prop := {
  en_core : exists co t, cores s !! c = Some co /\ m_thread co = Some t /\ (m_core_state co = RUNNING \/ m_core_state co = INITIALIZING) /\
    forall c', m_barrier_acquire_list (barrier s) !! c' = Some true -> m_core_thread (barrier s) !! c' <> Some (Some t);
  en_master g : m_core_group (barrier s) !! c = Some g -> m_barrier_acquire_list (barrier s) !! default c g = Some false;
  en_time : time + m_barrier_interval (barrier s) < 2 ^ 64
}.

Lemma wf_parked n m b : bar_wf n b -> bar_wf n (set_parked (<[m := false]> (m_core_parked b)) b).
Proof. intros []. split; try done. cbn. by rewrite length_insert. Qed.

(** The end of a call: the release if the barrier is reached, and the wait if there is one. *)
Lemma enter_ends c m t s :
  sys_ok (who := at_barrier (Some m)) s -> called_by (who := at_barrier (Some m)) (Some t) (barrier s) -> Z.of_nat (num_cores s) <= host ->
  keeps_ok (r ← isBarrierReached;
      must_wait ← (if r : bool then barrierRelease traverse shuffle (Some t) false else mret true);
      if must_wait : bool then cond_wait m;; mret true
      else emit (BarrierExit c);; mret false) s.
Proof.
  intros Hs Hc Hh. unfold keeps_ok. step. eapply kwp_mono; [by apply (wp_isReached (who := at_barrier (Some m)))|]. intros r s' [-> Hr].
  step. apply (kwp_mono _ (fun (wait : bool) s' => sys_ok (who := at_barrier (if wait then Some m else None)) s' /\ keeps_busy ∅ s s')).
  - destruct r; [|step; split; [done|by apply keeps_busy_sched]]. destruct (Hr eq_refl) as (c' & t' & Ha & Ht & Hn & Hov).
    eapply kwp_mono; [eapply (release_ok (who := at_barrier (Some m)) _ _ permutes (Some t) false t' s Hs)|].
    + by apply (i_all _ _ (ok_inv _ _ Hs)).
    + done.
    + split; [done|]. exists c', t'. by split_and!.
    + apply elem_of_app. left. by eapply list_elem_of_lookup_2.
    + done.
    + intros w s' [[[H1 H2] _]|[? _]]; [|done]. by split.
  - intros [|] s' [H1 H2].
    + eapply kwp_mono; [by apply ok_wait|]. intros _ s2 [H3 H4]. split; [done|]. eapply keeps_busy_trans; [exact H2|by apply keeps_busy_sched].
    + step. unfold emit. step. step. split; [|eapply keeps_busy_trans; [exact H2|by apply keeps_busy_sched]].
      exact (cm_ok _ _ _ (calm_emit ∅ (BarrierExit c) s' H1)).
Qed.

Lemma ok_synchronize c time s : sys_ok s -> Z.of_nat (num_cores s) <= host -> may_enter c time s ->
  keeps_ok (barrier_synchronize traverse shuffle c time) s.
Proof.
  intros Hs Hh [(co & t & Hco & Ht & Hst & Hfree) Hm Hov]. pose proof (i_barrier _ _ (ok_inv _ _ Hs)) as Hw.
  pose proof (lookup_lt_Some _ _ _ Hco) as Hc. fold (num_cores s) in Hc.
  destruct (lookup_lt_is_Some_2 (m_core_group (barrier s)) c) as [g Hg]; [by rewrite (bw_groups _ _ Hw)|]. specialize (Hm g Hg).
  set (m := default c g) in *. pose proof (lookup_lt_Some _ _ _ Hm) as Hmn. rewrite (bw_acquired _ _ Hw) in Hmn.
  destruct (lookup_lt_is_Some_2 (m_core_parked (barrier s)) m) as [pk Hpk]; [by rewrite (bw_parked _ _ Hw)|].
  unfold keeps_ok, barrier_synchronize. step. step. rewrite (bw_enabled _ _ Hw). step. unfold getCore. step; [exact Hco|]. step. step. rewrite (bw_detailed _ _ Hw).
  step. unfold getGroup. step; [exact Hg|]. fold m. step. rewrite Ht. eapply kwp_lift; [done|]. step. apply wp_assert.
  { apply orb_true_iff. rewrite !bool_decide_eq_true. exact Hst. }
  step. unfold getAcquired. step; [exact Hm|]. step. apply wp_assert; [done|]. step. step; [exact Hpk|].
  set (b1 := set_parked (<[m := false]> (m_core_parked (barrier s))) (barrier s)).
  match goal with |- wp _ _ ?x => change x with (set_barrier b1 s) end. pose proof (wf_parked _ m _ Hw) as Hw1. fold b1 in Hw1.
  pose proof (all_released s Hs Hh) as Hnil.
  assert (Hs1 : sys_ok (set_barrier b1 s)) by (apply (ok_set_barrier None None); [done|done|by intros _]).
  step. step. rewrite andb_true_r. cbn [barrier set_barrier]. change (m_next_barrier_time b1) with (m_next_barrier_time (barrier s)).
  destruct (Z.ltb_spec time (m_next_barrier_time (barrier s))); [step; split; [done|by apply keeps_busy_sched]|].
  step. unfold doRelease. step. step. cbn [barrier set_barrier b1 m_to_release set_parked]. rewrite Hnil. cbn [rev release_back]. step. step. step. cbn [rev].
  match goal with |- wp _ _ ?x => assert (x = set_barrier b1 s) as -> end.
  { unfold b1, on_barrier. cbn. destruct (barrier s). cbn in *. by subst. }
  destruct (lookup_lt_is_Some_2 (m_local_clock_list (barrier s)) m) as [x Hx]; [by rewrite (bw_clocks _ _ Hw)|].
  destruct (lookup_lt_is_Some_2 (m_core_thread (barrier s)) m) as [y Hy]; [by rewrite (bw_threads _ _ Hw)|].
  step. unfold emit. step. step. unfold setClock. step; [exact Hx|]. step. unfold setAcquired. step; [exact Hm|]. step. step; [exact Hy|].
  match goal with |- wp _ _ ?z => change z with (set_effects (effects s ++ [BarrierEnter c]) (set_barrier (entered m t time b1) s)) end.
  pose proof (entered_wf _ m t time b1 Hw1 Hm ltac:(done) Hov) as Hw2.
  apply (kwp_mono _ (fun _ s' => sys_ok s' /\ keeps_busy ∅ (set_effects (effects s ++ [BarrierEnter c]) (set_barrier (entered m t time b1) s)) s')).
  - apply enter_ends; [|..].
    + apply (ok_barrier (who := nobody) (at_barrier (Some m))); [done|done|done|done|by intros _].
    + intros c'. cbn. destruct (decide (m = c')) as [<-|Hne].
      * rewrite !list_lookup_insert_eq by (rewrite ?(bw_threads _ _ Hw), ?(bw_acquired _ _ Hw); done). done.
      * rewrite !list_lookup_insert_ne by done. intros Ha. split; [|congruence]. intros E. by destruct (Hfree c' Ha).
    + done.
  - intros r s' [H1 H2]. split; [done|]. eapply keeps_busy_trans; [|exact H2]. by apply keeps_busy_sched.
Qed.

(** ** Events *)

(** The operations of the system, as the front end and the simulated program call them.
    [Execute] is the execution of instructions on a core. The calls that stall a thread are
    three operations: the stall, the loop that moves the time while no thread runs
    ([Advance]), and the wait of its host thread ([Park]). *)
Inductive event :=
| Create (app : Z)
| Start (t : nat) (time : Z)
| Stall (t : nat) (reason : stall_type_t) (time : Z)
| Resume (t : nat) (time : Z) (msg : bool)
| Exit (t : nat)
| Yield (t : nat)
| SetAffinity (caller : option nat) (t : nat) (mask : option (list bool))
| WakeFutex (t : nat) (address n mask time : Z)
| WaitFutex (a : Z) (t : nat) (mask time limit : Z)
| Sleep (t : nat) (wake_time time : Z)
| Synchronize (c : nat) (time : Z)
| Advance
| Park (t : nat)
| Execute (c : nat) (time count : Z).

Definition perform (e : event) : K unit :=
  match e with
  | Create app => createThread_unlocked app;; mret tt
  | Start t time => onThreadStart t time
  | Stall t reason time => stallThread_async traverse shuffle t reason time
  | Resume t time msg => resumeThread t time msg
  | Exit t => onThreadExit traverse va2pa shuffle t
  | Yield t => threadYield t
  | SetAffinity caller t mask => threadSetAffinity caller t mask
  | WakeFutex t address n mask time => futexWake va2pa t address n mask time;; mret tt
  | WaitFutex a t mask time limit =>
      l ← futex a;
      put_futex a (l ++ [mkWaiter t mask limit]);;
      stallThread_async traverse shuffle t STALL_FUTEX time
  | Sleep t wake_time time =>
      kupd (on_syscalls (fun y => set_sleeping (m_sleeping y ++ [mkWaiter t 0 wake_time]) y));;
      stallThread_async traverse shuffle t STALL_SLEEP time
  | Synchronize c time => barrier_synchronize traverse shuffle c time;; mret tt
  | Advance => advance_all traverse shuffle
  | Park t => park t;; mret tt
  | Execute c time count => changeCore c (fun co => mkCore (m_core_state co) (m_thread co) time count)
  end.

(** A sleep or a futex call will time out. *)
Definition awaits (s : Sys) : Prop :=
  complete traverse /\ exists w, w ∈ all_waiters (syscalls s) /\ w_timeout w + m_barrier_interval (barrier s) < 2 ^ 64.
(** When the program may call an operation. Some thread runs, or one will wake up; otherwise the
    code reports a deadlock. A thread that acts has been started; the array of
    runnable threads grows by 16 only; a thread that exits runs on a core. *)
Definition permitted (e : event) (s : Sys) : Prop :=
  match e with
  | Create _ => True
  | Start t _ => (t < length (threads s))%nat /\ (t < length (runnable s) + 16)%nat
  | Stall t _ _ | Resume t _ _ | Yield t | WaitFutex _ t _ _ _ | Sleep t _ _ => started s t
  | Exit t => started s t /\ awake s t /\ is_Some (core_of s t)
  | SetAffinity _ t mask => started s t /\ mask_fits (num_cores s) mask
  | WakeFutex t _ _ _ _ => is_Some (core_of s t)
  | Synchronize c time => may_enter c time s
  | Advance => active s \/ awaits s
  | Park t => (t < length (threads s))%nat
  | Execute c _ _ => (c < num_cores s)%nat
  end.

Context (enough : Z.of_nat cores_n <= host).
Lemma enough_for s : sys_ok s -> Z.of_nat (num_cores s) <= host.
Proof. intros Hs. by rewrite (i_count _ _ (ok_inv _ _ Hs)). Qed.

Lemma sound_then {A} (m : K unit) (k : K A) s : sound ∅ m s -> (forall s', sys_ok s' -> keeps_ok k s') -> keeps_ok (m;; k) s.
Proof.
  intros Hm Hk. unfold keeps_ok. step. eapply kwp_mono; [exact Hm|]. intros u s1 [H1 H2]. eapply kwp_mono; [by apply Hk|].
  intros v s2 [H3 H4]. split; [done|]. by eapply keeps_busy_trans.
Qed.
Lemma calm_then {A B} (m : K A) (k : A -> K B) s : wp m (fun _ => calm ∅ s) s -> (forall a s', calm ∅ s s' -> keeps_ok (k a) s') -> keeps_ok (m ≫= k) s.
Proof.
  intros Hm Hk. unfold keeps_ok. step. eapply kwp_mono; [exact Hm|]. intros a s1 H1. eapply kwp_mono; [by apply Hk|].
  intros v s2 [H3 H4]. split; [done|]. eapply keeps_busy_trans; [apply (cm_busy _ _ _ H1)|done].
Qed.
Lemma ok_stall_async t r time s : sys_ok s -> started s t -> keeps_ok (stallThread_async traverse shuffle t r time) s.
Proof.
  intros Hs Ht. unfold stallThread_async. apply sound_then; [by apply ok_stall|]. intros s' Hs'. apply ok_signal; [done|by apply enough_for].
Qed.
Lemma calm_enqueue t y s : sys_ok s -> started s t -> (forall w, w ∈ all_waiters y -> w ∈ all_waiters (syscalls s) \/ w_thread_id w = t) ->
  calm ∅ s (with_syscalls y s).
Proof. intros Hs Ht Hy. apply calm_syscalls; [done|]. intros w Hw. destruct (Hy w Hw) as [H| ->]; [by apply (ok_waiters _ _ Hs)|done]. Qed.
(** One pass wakes a thread, or releases a core. *)
Definition inside_cores (s : Sys) : gset nat := filter (fun c => m_barrier_acquire_list (barrier s) !! c = Some true) (set_seq 0 (num_cores s)).
Lemma released_fewer w s s' : sys_ok s -> released None s w s' -> inside_cores s' ⊂ inside_cores s.
Proof.
  intros Hs H. split.
  - intros c. unfold inside_cores. rewrite (rd_cores _ _ _ _ H), !elem_of_filter, (rd_inside _ _ _ _ H). by intros [[? _] ?].
  - destruct (rd_some _ _ _ _ H) as (c & H1 & H2). intros Hsub. assert (Hc : c ∈ inside_cores s).
    { apply elem_of_filter. split; [done|]. apply elem_of_set_seq. apply lookup_lt_Some in H1.
      rewrite (bw_acquired _ _ (i_barrier _ _ (ok_inv _ _ Hs))) in H1. lia. }
    apply Hsub, elem_of_filter in Hc as [Hc _]. congruence.
Qed.
Lemma inside_bound s : (size (inside_cores s) <= num_cores s)%nat.
Proof.
  rewrite <- (size_set_seq (C := gset nat) 0 (num_cores s)). apply subseteq_size. intros c. by intros [_ H]%elem_of_filter.
Qed.
Lemma advance_pass s : sys_ok s -> awaits s ->
  wp (advance traverse shuffle) (fun _ s' => sys_ok s' /\ keeps_busy ∅ s s' /\
    (active s' \/ awaits s' /\ (size (inside_cores s') < size (inside_cores s))%nat)) s.
Proof.
  intros Hs (Hc & w & Hw & Hov). pose proof (bw_interval _ _ (i_barrier _ _ (ok_inv _ _ Hs))) as Hp. unfold advance. step.
  eapply kwp_mono; [eapply (release_ok _ _ permutes None true (w_timeout w) s Hs)|].
  - by apply all_released, enough_for.
  - by apply called_by_nobody.
  - split_and!; [done|unfold MaxTime; lia|]. by exists w.
  - by apply waiter_awaited.
  - done.
  - intros r s' [[H1 H2]|(_ & _ & H1 & H2)]; step.
    + split_and!; [pose proof (rd_ok _ _ _ _ H1); by destruct r|apply (rd_busy _ _ _ _ H1)|]. right. split; [|by eapply subset_size, released_fewer].
      split; [done|]. exists w. rewrite H2 by done. by rewrite (ss_interval _ _ (rd_setup _ _ _ _ H1)).
    + split_and!; [apply (ad_ok _ _ H1)|apply (ad_busy _ _ H1)|by left].
Qed.
(** The loop ends with a thread that runs or will start. *)
Lemma advances fuel s : sys_ok s -> active s \/ awaits s /\ (size (inside_cores s) < fuel)%nat ->
  wp (advance_loop traverse shuffle fuel) (fun _ s' => sys_ok s' /\ keeps_busy ∅ s s' /\ active s') s.
Proof.
  revert s. induction fuel as [|fuel IH]; intros s Hs Ha; cbn [advance_loop]; step; apply wp_anyRunning; try done; intros r Hr1 Hr2.
  all: destruct r; [step; split_and!; [done|by apply keeps_busy_sched|auto]|].
  all: destruct Ha as [Ha|[Ha Hf]]; [by destruct (Hr2 eq_refl)|try lia].
  step. eapply kwp_mono; [by apply advance_pass|]. intros u s1 (H1 & H2 & H3). eapply kwp_mono; [apply IH; [done|]|].
  - destruct H3 as [H3|[H3 H4]]; [by left|right]. split; [done|lia].
  - intros v s2 (H4 & H5 & H6). split_and!; [done|by eapply keeps_busy_trans|done].
Qed.
Lemma ok_advance s : sys_ok s -> active s \/ awaits s ->
  wp (advance_all traverse shuffle) (fun _ s' => sys_ok s' /\ keeps_busy ∅ s s' /\ active s') s.
Proof.
  intros Hs Ha. unfold advance_all. step. step. apply advances; [done|]. destruct Ha as [|Ha]; [by left|right]. split; [done|].
  pose proof (inside_bound s). lia.
Qed.
Lemma ok_park t s : sys_ok s -> (t < length (threads s))%nat -> keeps_ok (park t) s.
Proof.
  intros Hs Ht. destruct (lookup_lt_is_Some_2 _ _ Ht) as [th Hth]. pose proof (ok_inv _ _ Hs) as Hi.
  destruct (lookup_lt_is_Some_2 (thread_state s) t) as [st Hst]; [by rewrite (i_states _ _ Hi)|].
  unfold keeps_ok, park, getTState. step. step; [exact Hst|]. step. eapply wp_thread; [exact Hth|].
  case_bool_decide; [step; split; [done|by apply keeps_busy_sched]|]. step. unfold changeThread. step; [exact Hth|]. step.
  split; [by eapply ok_thread|by apply keeps_busy_sched].
Qed.
Lemma ok_execute c time count s : sys_ok s -> (c < num_cores s)%nat -> keeps_ok (perform (Execute c time count)) s.
Proof.
  intros Hs Hc. pose proof (ok_inv _ _ Hs) as Hi. destruct (lookup_lt_is_Some_2 (cores s) c Hc) as [co Hco]. unfold keeps_ok, perform, changeCore.
  step; [exact Hco|]. split; [|by apply keeps_busy_sched]. set (s' := set_cores _ s).
  assert (Hm : moved s s') by (split; try done; unfold num_cores, s'; cbn; by rewrite length_insert).
  eapply (frame_ok ∅ ∅); [done| |by apply moved_frame]. eapply inv_moved; [done|done| |by intros x ?%elem_of_empty].
  destruct (i_placed _ _ Hi). split; cbn; try done.
  - intros x y t. rewrite list_lookup_insert_Some. intros [(<- & <- & _)|[_ Hy]]; cbn; by apply p_core.
  - intros t x Ht Hg. unfold num_cores, s'. cbn. rewrite length_insert. by apply (p_range t).
  - intros x y. rewrite list_lookup_insert_Some. intros [(<- & <- & _)|[_ Hy]]; cbn; by eapply p_idle.
Qed.

Definition changes_affinity (e : event) : Prop := match e with SetAffinity _ _ _ => True | _ => False end.

(** Every operation that is permitted completes. *)
Lemma event_ok e s : sys_ok s -> permitted e s -> wp (perform e) (fun _ s' => sys_ok s' /\ (~ changes_affinity e -> keeps_busy ∅ s s')) s.
Proof.
  intros Hs Hp.
  assert (Hgo : keeps_ok (perform e) s -> wp (perform e) (fun _ s' => sys_ok s' /\ (~ changes_affinity e -> keeps_busy ∅ s s')) s).
  { intros H. eapply kwp_mono; [exact H|]. intros _ s' [H1 H2]. by split. }
  pose proof (ok_inv _ _ Hs) as Hi. destruct e as [app|t time|t r time|t time msg|t|t|caller t mask|t address n mask time|a t mask time limit|t wake_time time|c time| |t|c time count]; cbn [permitted] in Hp; try (lazymatch goal with |- wp (perform (SetAffinity _ _ _)) _ _ => fail | _ => apply Hgo end); cbn [perform].
  - unfold keeps_ok. step. eapply kwp_mono; [by apply ok_create, ok_creatable|]. intros t s' (_ & H1 & H2 & _). by step.
  - destruct Hp. by apply ok_start.
  - by apply ok_stall_async.
  - unfold keeps_ok. eapply kwp_mono; [by apply (ok_resume ∅)|]. intros _ s' (H1 & _ & H2). by split.
  - destruct Hp as (H1 & H2 & [c Hc]). unfold onThreadExit. apply sound_then; [by eapply ok_exit|]. intros s' Hs'. apply ok_signal; [done|by apply enough_for].
  - unfold keeps_ok, threadYield. eapply wp_dynamic; [done|]. eapply kwp_mono; [apply settled_yield; [done|]|].
    + destruct Hp as [Ht _]. pose proof (i_infos _ _ Hi). lia.
    + intros u s' H. split; [apply (st_ok _ _ H)|apply (st_busy _ _ H)].
  - destruct Hp as [Hp1 Hp2]. eapply kwp_mono; [by apply ok_affinity|]. intros u s' H. split; [done|]. intros Hn. by destruct (Hn I).
  - destruct Hp as [c Hc]. unfold keeps_ok. step. eapply kwp_mono; [by eapply (calm_futexWake ∅)|]. intros x s' H. step. split; [apply H|apply (cm_busy _ _ _ H)].
  - unfold keeps_ok, futex, put_futex. do 4 step. do 2 step.
    set (y := set_futexes (<[a := default [] (m_futexes (syscalls s) !! a) ++ [mkWaiter t mask limit]]> (m_futexes (syscalls s))) (syscalls s)).
    match goal with |- wp _ _ ?x => change x with (with_syscalls y s) end. assert (Hc : calm ∅ s (with_syscalls y s)).
    { apply (calm_enqueue t); [done|done|]. intros w Hw. rewrite elem_all_waiters in Hw. destruct Hw as [Hw|(a' & l & Ha & Hw)]; [left; apply elem_all_waiters; by left|].
      cbn in Ha. destruct (decide (a = a')) as [<-|Hne].
      - rewrite lookup_insert_eq in Ha. injection Ha as <-. apply elem_of_app in Hw as [Hw|Hw%list_elem_of_singleton]; [left; by eapply futex_elem|by subst; right].
      - rewrite lookup_insert_ne in Ha by done. left. apply elem_all_waiters. right. eauto. }
    eapply kwp_mono; [apply ok_stall_async; [apply Hc|by apply (calm_started _ _ _ _ Hc)]|]. intros u s' [H1 H2]. split; [done|].
    eapply keeps_busy_trans; [apply (cm_busy _ _ _ Hc)|done].
  - unfold keeps_ok. do 2 step. set (y := set_sleeping (m_sleeping (syscalls s) ++ [mkWaiter t 0 wake_time]) (syscalls s)).
    match goal with |- wp _ _ ?x => change x with (with_syscalls y s) end. assert (Hc : calm ∅ s (with_syscalls y s)).
    { apply (calm_enqueue t); [done|done|]. intros w Hw. rewrite elem_all_waiters in Hw. rewrite elem_all_waiters. destruct Hw as [Hw|Hw]; [|auto].
      cbn in Hw. apply elem_of_app in Hw as [Hw|Hw%list_elem_of_singleton]; [auto|by subst; right]. }
    eapply kwp_mono; [apply ok_stall_async; [apply Hc|by apply (calm_started _ _ _ _ Hc)]|]. intros u s' [H1 H2]. split; [done|].
    eapply keeps_busy_trans; [apply (cm_busy _ _ _ Hc)|done].
  - unfold keeps_ok. step. eapply kwp_mono; [apply ok_synchronize; [done|by apply enough_for|done]|]. intros b s' H. by step.
  - eapply kwp_mono; [by apply ok_advance|]. intros u s' (H1 & H2 & _). by split.
  - unfold keeps_ok. step. eapply kwp_mono; [by apply ok_park|]. intros o s' H. by step.
  - by apply ok_execute.
Qed.

(** ** Reachable states *)

(** The state before the first thread: idle cores, and the scheduler, the barrier and the
    server of system calls as they are constructed. *)
Definition Sys_new (quantum interval cost gen : Z) (policy : Policy) : Sys :=
  mkSys (replicate cores_n (mkCore IDLE None 0 0)) [] [] [] (SchedulerPinnedBase_new cores_n quantum policy)
    (BarrierSyncServer_new cores_n interval gen) (mkSyscall cost [] ∅) host [].

Lemma new_barrier_wf interval gen : 0 < barrier_quantum interval -> bar_wf cores_n (BarrierSyncServer_new cores_n interval gen).
Proof.
  intros Hq. split; cbn; rewrite ?length_replicate; try done.
  - intros c Hc. rewrite lookup_replicate_2 by done. unfold queued, inside. cbn. rewrite lookup_replicate_2 by done. by rewrite decide_False.
  - intros c t [-> _]%lookup_replicate. split; [lia|]. lia.
  - intros c [? _]%lookup_replicate. done.
Qed.
(** The first thread can be created. *)
Lemma first_thread quantum interval cost gen policy app : policy_ok cores_n policy -> 0 < barrier_quantum interval ->
  creatable app (Sys_new quantum interval cost gen policy).
Proof.
  intros Hp Hq. set (s := Sys_new _ _ _ _ _). split; [|done|done|done|by intros i].
  assert (Hr : forall t, ~ can_run (created app s) t) by (intros t; unfold can_run, runnable; cbn; by intros [? _]%(lookup_replicate 16)).
  assert (Hn : forall t, core_of (created app s) t = None) by (intros t; by rewrite created_core).
  assert (Hin : infos (created app s) = replicate 16 (ThreadInfo_new cores_n)) by (unfold infos, created, grown_infos, num_cores; cbn; by rewrite length_replicate).
  apply leaving_base. split.
  - split.
    + unfold running, num_cores. cbn. by rewrite !length_replicate.
    + unfold num_cores. cbn. by rewrite !length_replicate.
    + done.
    + rewrite Hin. cbn. lia.
    + rewrite Hin. done.
    + intros t i. rewrite Hin. intros [-> _]%lookup_replicate. unfold num_cores. cbn. by rewrite !length_replicate.
    + intros c t. rewrite Hn. split; [|done]. unfold running. cbn. by intros [? _]%lookup_replicate.
    + intros t c. by rewrite Hn.
    + unfold placement. split.
      * intros t th. rewrite Hn. cbn. intros [_ <-]%list_lookup_singleton_Some. by case_decide.
      * intros c co t. rewrite Hn. cbn. intros [-> _]%lookup_replicate. cbn. split; [done|]. intros [_ H]. by case_decide.
      * intros t c _. rewrite Hn. by case_decide.
      * cbn. by intros c co [-> _]%lookup_replicate.
    + by intros t _ ?%Hr.
    + by intros t ?%Hr.
    + by intros t ?%Hr.
    + unfold num_cores. cbn. rewrite length_replicate. by apply new_barrier_wf.
    + done.
    + unfold num_cores. cbn. by rewrite length_replicate.
    + done.
    + intros mask. cbn. by intros ->.
  - split; try done.
    + by intros t _ ?%Hr.
    + exists 1%nat, 1%nat. by rewrite Hin.
    + intros t i _. rewrite Hin. by intros [-> _]%lookup_replicate.
    + unfold num_cores. cbn. by rewrite length_replicate.
    + intros w. cbn. unfold all_waiters. cbn. by intros ?%not_elem_of_nil.
    + intros [|t] st w; [|done]. cbn. intros [= <-]. done.
Qed.

(** The states after a first thread and any operations that are permitted and allowed. *)
Inductive reachable (quantum interval cost gen : Z) (policy : Policy) (allow : event -> Prop) : Sys -> Prop :=
| reach_first app s : perform (Create app) (Sys_new quantum interval cost gen policy) = Ok (tt, s) -> reachable quantum interval cost gen policy allow s
| reach_next e s s' : reachable quantum interval cost gen policy allow s -> allow e -> permitted e s -> perform e s = Ok (tt, s') ->
    reachable quantum interval cost gen policy allow s'.

Lemma wp_run {A} (m : K A) Q s a s' : wp m Q s -> m s = Ok (a, s') -> Q a s'.
Proof. unfold wp. intros H E. by rewrite E in H. Qed.

Lemma reachable_ok quantum interval cost gen policy allow s :
  policy_ok cores_n policy -> 0 < barrier_quantum interval -> reachable quantum interval cost gen policy allow s ->
  sys_ok s /\ (is_pinned policy -> (forall e, allow e -> ~ changes_affinity e) -> pinned s /\ conserving ∅ s).
Proof.
  intros Hp Hq H. induction H as [app s E|e s s' _ IH Ha Hpe E].
  - set (s0 := Sys_new _ _ _ _ _) in E. assert (Hw : wp (perform (Create app)) (fun _ s => sys_ok s /\ keeps_busy ∅ s0 s) s0).
    { cbn [perform]. step. eapply kwp_mono; [by apply ok_create, first_thread|]. intros t s' (_ & H1 & H2 & _). by step. }
    destruct (wp_run _ _ _ _ _ Hw E) as [H1 H2]. split; [done|]. intros Hpin _. apply H2; [by split|]. intros t c (Hx & _). unfold can_run, runnable in Hx. cbn in Hx.
    by apply (lookup_replicate 16) in Hx as [? _].
  - destruct IH as [Hs IH]. destruct (wp_run _ _ _ _ _ (event_ok e s Hs Hpe) E) as [H1 H2]. split; [done|]. intros Hpin Hall.
    destruct (IH Hpin Hall) as [H3 H4]. apply H2; auto.
Qed.
End runs.
