(* ===== verification/ThreadSafety.v ===== *)
(** * What holds of every run of the threads

    The theorems about the scheduler, the thread manager and the barrier, over all states that
    the operations of [ThreadRuns] reach from the constructors. *)

From stdpp Require Import base tactics list numbers gmap sets.
From Stdlib Require Import ZArith Lia.
From S2P Require Import Prelude Utils Timing Threads ThreadProps ThreadOps ThreadPolicy ThreadBarrier ThreadPinned ThreadRuns.
Local Open Scope Z_scope.
Local Open Scope mach_scope.

(** ** Configurations *)

(** The configuration of the machine and of the scheduler; the interleaving of the pinned
    scheduler does not exceed the number of cores, and its first core is in the mask. *)
Record config := mkConfig {
  cf_cores : nat; cf_host : Z; cf_quantum : Z; cf_interval : Z; cf_cost : Z; cf_generator : Z; cf_policy : Policy
}.
Definition supported_policy (n : nat) (p : Policy) : Prop :=
  match p with
  | Pinned il mask first => 1 <= il <= Z.of_nat n /\ length mask = n /\ mask !! first = Some true
  | Roaming mask => length mask = n
  | _ => False
  end.
(** At least as many host threads as cores may run at a time. *)
Record supported (cf : config) : Prop := {
  sp_policy : supported_policy (cf_cores cf) (cf_policy cf);
  sp_host : Z.of_nat (cf_cores cf) <= cf_host cf;
  sp_interval : 0 < barrier_quantum (cf_interval cf)
}.
Lemma supported_ok n p : supported_policy n p -> policy_ok n p.
Proof.
  destruct p as [|il mask first|mask|]; try done. intros (Hil & Hl & Hf). rewrite <- (Z2Nat.id il) by lia. apply pinned_policy_ok; [lia|done|done].
Qed.

(** What is not part of the sources: the order of the hash table, the translation of
    addresses, and [std::shuffle], which permutes. *)
Record environment := mkEnv {
  ev_traverse : gmap Z (list Waiter) -> list Z;
  ev_va2pa : nat -> Z -> Z;
  ev_shuffle : Z -> list nat -> list nat * Z
}.
Definition permutes (ev : environment) : Prop := forall g l, (ev_shuffle ev g l).1 ≡ₚ l.

Section system.
Context (ev : environment) (cf : config).
Definition do_event (e : event) : K unit := perform (ev_traverse ev) (ev_va2pa ev) (ev_shuffle ev) e.
Definition may_do (e : event) (s : Sys) : Prop := permitted (ev_traverse ev) e s.
Definition reached (allow : event -> Prop) (s : Sys) : Prop :=
  reachable (cf_host cf) (cf_cores cf) (ev_traverse ev) (ev_va2pa ev) (ev_shuffle ev) (cf_quantum cf) (cf_interval cf) (cf_cost cf) (cf_generator cf)
    (cf_policy cf) allow s.
Definition anything (e : event) : Prop := True.
Definition keeps_affinity (e : event) : Prop := ~ changes_affinity e.

(** The tables of the scheduler, the threads, the cores and the barrier describe one
    assignment of threads to cores. *)
Record agree (s : Sys) : Prop := {
  ag_scheduler c t : running s !! c = Some (Some t) <-> core_of s t = Some c;
  ag_thread t th : threads s !! t = Some th -> m_core th = core_of s t;
  ag_core c co t : cores s !! c = Some co -> m_thread co = Some t <-> core_of s t = Some c;
  ag_idle c co : cores s !! c = Some co -> m_thread co = None -> m_core_state co = IDLE;
  ag_ready t : can_run s t -> ready s t;
  ag_known w : w ∈ all_waiters (syscalls s) -> started s (w_thread_id w);
  ag_barrier c : (c < cf_cores cf)%nat -> core_waits (barrier s) !! c = Some (inside (barrier s) c)
}.

#[local] Instance setting : Setting := nobody (cf_host cf) (cf_cores cf).

Lemma sys_agree s : Z.of_nat (cf_cores cf) <= cf_host cf -> sys_ok s -> agree s.
Proof.
  intros Hh Hs. pose proof (ok_inv _ _ Hs) as Hi. assert (Hpl : forall t, placement ∅ s t = core_of s t).
  { intros t. unfold placement. by rewrite decide_False by set_solver. }
  split.
  - apply (i_assigned _ _ Hi).
  - intros t th. by apply thread_core.
  - intros c co t Hco. rewrite (p_core _ _ (i_placed _ _ Hi) _ _ t Hco), Hpl. split; [by intros [_ ?]|]. intros H. split; [|done]. by eapply (i_created _ _ Hi).
  - apply (p_idle _ _ (i_placed _ _ Hi)).
  - intros t. apply (ok_ready _ _ Hs). set_solver.
  - apply (ok_waiters _ _ Hs).
  - intros c Hc. pose proof (i_count _ _ Hi) as En. cbn in En. rewrite (bw_queue _ _ (i_barrier _ _ Hi)) by by rewrite En. unfold queued.
    rewrite (i_all _ _ Hi) by (rewrite En; exact Hh). cbn. f_equal. rewrite decide_False by done. lia.
Qed.
Lemma reached_ok allow s : supported cf -> permutes ev -> reached allow s ->
  sys_ok s /\ (is_pinned (cf_policy cf) -> (forall e, allow e -> keeps_affinity e) -> pinned s /\ conserving ∅ s).
Proof.
  intros [H1 H2 H3] Hp Hr. eapply reachable_ok; [exact Hp|exact H2|by apply supported_ok|exact H3|exact Hr].
Qed.

(** ** The barrier *)

Definition in_barrier (b : Barrier) (c : nat) : Prop := m_barrier_acquire_list b !! c = Some true.
(** The barrier moves to a later time on its grid. The cores that stay are those that were in
    the barrier and are not due before that time, at least one core leaves, the clocks are
    those of before, or zero for a thread that has moved, and exactly the host threads of the
    cores that stay keep waiting. *)
Record release_spec (s s' : Sys) : Prop := {
  rs_grid : exists k, m_next_barrier_time (barrier s') = m_next_barrier_time (barrier s) + (Z.of_nat k + 1) * m_barrier_interval (barrier s);
  rs_global : m_global_time (barrier s') = m_next_barrier_time (barrier s') - m_barrier_interval (barrier s);
  rs_stay c : in_barrier (barrier s') c <->
    in_barrier (barrier s) c /\ exists t, m_local_clock_list (barrier s') !! c = Some t /\ m_next_barrier_time (barrier s') <= t;
  rs_leave : exists c, in_barrier (barrier s) c /\ ~ in_barrier (barrier s') c;
  rs_clock c : m_local_clock_list (barrier s') !! c = m_local_clock_list (barrier s) !! c \/
    in_barrier (barrier s) c /\ m_local_clock_list (barrier s') !! c = Some 0;
  rs_waits c : (c < cf_cores cf)%nat -> core_waits (barrier s') !! c = Some (inside (barrier s') c)
}.
Lemma released_spec s w s' : Z.of_nat (cf_cores cf) <= cf_host cf -> released None s w s' -> release_spec s s'.
Proof.
  intros Hh H. assert (Hs : sys_ok s') by (pose proof (rd_ok _ _ _ _ H) as Hs; by destruct w). destruct H. split; try done.
  - destruct rd_some as (c & H1 & H2). exists c. split; [done|]. unfold in_barrier. congruence.
  - apply (ss_clock _ _ rd_setup).
  - by apply sys_agree.
Qed.
Lemma reached_released allow s : supported cf -> permutes ev -> reached allow s -> isBarrierReached s = Ok (true, s) ->
  exists w s', barrierRelease (ev_traverse ev) (ev_shuffle ev) None false s = Ok (w, s') /\ released None s w s'.
Proof.
  intros Hsp Hp Hr Hb. destruct (reached_ok allow s Hsp Hp Hr) as [Hs _]. destruct (wp_run _ _ _ _ _ (wp_isReached s Hs) Hb) as [_ H].
  destruct (H eq_refl) as (c & t & Ha & Ht & Hn & Hov). apply wp_Ok.
  eapply kwp_mono; [eapply (release_ok (ev_traverse ev) (ev_shuffle ev) Hp None false t s Hs)|by intros w s' [[? _]|[? _]]].
  - apply (all_released (cf_host cf) (cf_cores cf)); [done|]. rewrite (i_count _ _ (ok_inv _ _ Hs)). apply (sp_host _ Hsp).
  - by eapply called_by_nobody.
  - split; [done|]. exists c, t. by split_and!.
  - apply elem_of_app. left. by eapply list_elem_of_lookup_2.
  - done.
Qed.
Lemma reached_advances allow s w : supported cf -> permutes ev -> reached allow s -> complete (ev_traverse ev) ->
  w ∈ all_waiters (syscalls s) -> w_timeout w + m_barrier_interval (barrier s) < 2 ^ 64 ->
  exists s', advance_all (ev_traverse ev) (ev_shuffle ev) s = Ok (tt, s') /\ active s' /\ agree s'.
Proof.
  intros Hsp Hp Hr Hc Hw Hov. destruct (reached_ok allow s Hsp Hp Hr) as [Hs _]. pose proof (sp_host _ Hsp) as Hh.
  assert (H : awaits (ev_traverse ev) s) by (split; eauto). pose proof (ok_advance _ _ _ (ev_shuffle ev) Hp Hh s Hs (or_intror H)) as Ha.
  destruct (wp_Ok _ _ _ Ha) as ([] & s' & E & H1 & _ & H2). exists s'. split_and!; [done|done|by apply sys_agree].
Qed.
(** A thread is started for which the array of runnable threads does not grow far enough. *)
Lemma run_then {A B} (m : K A) (k : A -> K B) s a s' : m s = Ok (a, s') -> (m ≫= k) s = k a s'.
Proof. intros E. unfold mbind, K_bind. by rewrite E. Qed.
Lemma run_fail {A B} (m : K A) (k : A -> K B) s e : m s = Err e -> (m ≫= k) s = Err e.
Proof. intros E. unfold mbind, K_bind. by rewrite E. Qed.
Lemma late_threadStart t time s : inv ∅ s -> (length (runnable s) + 16 <= t)%nat -> threadStart t time s = Err OutOfBounds.
Proof.
  intros Hi Hlt. unfold threadStart, dynamic. erewrite run_then by done. destruct (m_policy (sched s)) eqn:Ep; [by destruct (i_dynamic _ _ Hi core_mask)|..].
  all: erewrite run_then by done; cbn beta; fold (runnable s); rewrite (proj2 (Nat.leb_le _ _)) by lia; erewrite run_then by done.
  all: apply run_fail; unfold setRunnable, modify; erewrite run_then by done; apply run_fail; unfold klift.
  all: unfold rd; rewrite lookup_ge_None_2; [done|]; cbn; rewrite length_app; unfold runnable in Hlt; cbn; lia.
Qed.
Lemma late_start t time s : sys_ok s -> (t < length (threads s))%nat -> (length (runnable s) + 16 <= t)%nat -> onThreadStart t time s = Err OutOfBounds.
Proof.
  intros Hs Ht Hlt. pose proof (ok_inv _ _ Hs) as Hi. destruct (lookup_lt_is_Some_2 _ _ Ht) as [th Hth].
  destruct (lookup_lt_is_Some_2 (thread_state s) t) as [st Hst]; [by rewrite (i_states _ _ Hi)|].
  assert (Hw : wp (getThreadFromID t) (fun a s' => a = th /\ s' = s) s) by by eapply wp_thread.
  destruct (wp_Ok _ _ _ Hw) as (x & s1 & E & -> & ->). unfold onThreadStart. rewrite (run_then _ _ _ _ _ E).
  set (s1 := set_tstates (<[t := set_status RUNNING st]> (thread_state s)) s).
  assert (E1 : changeTState t (set_status RUNNING) s = Ok (tt, s1)) by (unfold changeTState, modify, kget, klift, kupd, mbind, K_bind, rd; by rewrite Hst).
  rewrite (run_then _ _ _ _ _ E1). apply run_fail, late_threadStart; [|done].
  apply (inv_tstate ∅ t (set_status RUNNING st)); [done|by left].
Qed.
End system.

(** ** The theorems *)

(** C11: with the pinned or the roaming scheduler, in every state that the operations reach from
    the constructors the tables of the scheduler, the threads, the cores and the barrier
    describe one assignment of threads to cores, and every operation that is permitted
    completes (no assertion, no access out of bounds, the recursion and the loops end) and
    keeps that agreement. *)
Theorem threads_run_safely (ev : environment) (cf : config) (allow : event -> Prop) (s : Sys) :
  supported cf -> permutes ev -> reached ev cf allow s ->
  agree cf s /\ forall e, may_do ev e s -> exists s', do_event ev e s = Ok (tt, s') /\ agree cf s'.
Proof.
  intros Hsp Hp Hr. destruct (reached_ok ev cf allow s Hsp Hp Hr) as [Hs _]. pose proof (sp_host _ Hsp) as Hh. split; [by apply sys_agree|].
  intros e He. pose proof (event_ok _ _ (ev_traverse ev) (ev_va2pa ev) (ev_shuffle ev) Hp Hh e s Hs He) as H.
  destruct (wp_Ok _ _ _ H) as ([] & s' & E & Hs' & _). exists s'. split; [done|by apply sys_agree].
Qed.

(** C12: the pinned scheduler is work-conserving: unless affinities are changed, a thread that can
    run and has no core never waits for a core that is free. *)
Theorem pinned_work_conserving (ev : environment) (cf : config) (s : Sys) (t c : nat) :
  supported cf -> permutes ev -> is_pinned (cf_policy cf) -> reached ev cf keeps_affinity s ->
  can_run s t -> core_of s t = None -> allowed s t c -> exists t', running s !! c = Some (Some t').
Proof.
  intros Hsp Hp Hpin Hr Hc Hn Ha. destruct (reached_ok ev cf keeps_affinity s Hsp Hp Hr) as [_ H].
  destruct (H Hpin) as [_ Hw]; [done|]. apply (Hw t); [done|set_solver].
Qed.

(** C13: when the barrier is reached in a reachable state its release returns; the time moves on
    along the grid of the interval until at least one core is due, exactly the cores that are
    due before the new time leave, and exactly the host threads of the other cores in the
    barrier keep waiting, so that no wake-up is lost. *)
Theorem barrier_releases_due (ev : environment) (cf : config) (allow : event -> Prop) (s : Sys) :
  supported cf -> permutes ev -> reached ev cf allow s -> isBarrierReached s = Ok (true, s) ->
  exists w s', barrierRelease (ev_traverse ev) (ev_shuffle ev) None false s = Ok (w, s') /\ release_spec cf s s'.
Proof.
  intros Hsp Hp Hr Hb. destruct (reached_released ev cf allow s Hsp Hp Hr Hb) as (w & s' & E & H). exists w, s'. split; [done|].
  eapply released_spec; [apply (sp_host _ Hsp)|done].
Qed.

(** C14: when a thread sleeps or waits for a futex with a timeout, the loop of a stalling thread
    that advances the barrier while no thread runs ends, and then a thread runs or is about
    to start, and the tables agree. *)
Theorem advance_wakes (ev : environment) (cf : config) (allow : event -> Prop) (s : Sys) (w : Waiter) :
  supported cf -> permutes ev -> reached ev cf allow s -> complete (ev_traverse ev) ->
  w ∈ all_waiters (syscalls s) -> w_timeout w + m_barrier_interval (barrier s) < 2 ^ 64 ->
  exists s', advance_all (ev_traverse ev) (ev_shuffle ev) s = Ok (tt, s') /\ active s' /\ agree cf s'.
Proof. intros Hsp Hp Hr Hc Hw Hov. by apply (reached_advances ev cf allow s w). Qed.

(** C15: on a core the scheduler chooses, among the threads that can run, may use the core and are
    not on another one: of the threads that wait the one that left its core first, of those
    that left at the same time the one created first, and the thread that is on the core only
    if it has run for less time than the others lack until they left theirs; and none only if
    there is no such thread. *)
Theorem longest_waiting_chosen (ev : environment) (cf : config) (allow : event -> Prop) (s : Sys) (c : nat) (time : Z) :
  supported cf -> permutes ev -> reached ev cf allow s -> (c < cf_cores cf)%nat ->
  exists o, pick_thread time c (sched s) = Ok o /\
    match o with
    | Some t => may_take s c t /\
        forall t' i i', may_take s c t' -> t' <> t -> infos s !! t = Some i -> infos s !! t' = Some i' -> taken_before (getPS (u64 time)) (t, i) (t', i')
    | None => forall t, ~ may_take s c t
    end.
Proof.
  intros Hsp Hp Hr Hc. destruct (reached_ok ev cf allow s Hsp Hp Hr) as [Hs _]. pose proof (ok_inv _ _ Hs) as Hi.
  destruct (pick_spec ∅ s c time Hi) as (o & E & Ho); [pose proof (i_count _ _ Hi) as E; cbn in E; by rewrite E|].
  exists o. split; [done|]. destruct o as [t|]; [|done]. destruct Ho as [Hm Ho]. split; [done|]. intros t' i i' Hm' Hne Hti Hti'.
  eapply score_order; [exact Hi|exact Hm|exact Hm'|done|done|done|by apply Ho].
Qed.

(** C16: a thread that starts before the array of runnable threads has reached its index less 16 is
    written past the end of the array. *)
Theorem late_start_out_of_bounds (ev : environment) (cf : config) (allow : event -> Prop) (s : Sys) (t : nat) (time : Z) :
  supported cf -> permutes ev -> reached ev cf allow s -> (length (runnable s) + 16 <= t < length (threads s))%nat ->
  do_event ev (Start t time) s = Err OutOfBounds.
Proof.
  intros Hsp Hp Hr Ht. destruct (reached_ok ev cf allow s Hsp Hp Hr) as [Hs _]. eapply (late_start cf); [done|lia|lia].
Qed.

(** FUTEX_WAKE_BITSET ignores its mask: it wakes the waiters that FUTEX_WAKE wakes. *)
Lemma wake_bitset_ignores_mask (ev : environment) (t : nat) (args : futex_args_t) (mask act_val act_val2 time : Z) (s : Sys) :
  let call o m := handleFutexCall (ev_traverse ev) (ev_va2pa ev) (ev_shuffle ev) t
    (mkArgs (uaddr args) o (val args) (timeout args) (val2 args) (uaddr2 args) m) act_val act_val2 time s in
  call 10 mask = call 1 (val3 args).
Proof. reflexivity. Qed.

(** ** Permissions that can be computed *)

Definition startedb (s : Sys) (t : nat) : bool := (t <? length (threads s))%nat && (t <? length (runnable s))%nat.
Definition may_enterb (c : nat) (time : Z) (s : Sys) : bool :=
  match cores s !! c with
  | Some co =>
      match m_thread co, m_core_group (barrier s) !! c with
      | Some t, Some g =>
          (bool_decide (m_core_state co = RUNNING) || bool_decide (m_core_state co = INITIALIZING)) &&
          forallb (fun p => negb (p.1 && bool_decide (p.2 = Some t))) (zip (m_barrier_acquire_list (barrier s)) (m_core_thread (barrier s))) &&
          bool_decide (m_barrier_acquire_list (barrier s) !! default c g = Some false) &&
          (time + m_barrier_interval (barrier s) <? 2 ^ 64)
      | _, _ => false
      end
  | None => false
  end.
(** All operations but [Advance]. *)
Definition permittedb (e : event) (s : Sys) : bool :=
  match e with
  | Create _ => true
  | Start t _ => (t <? length (threads s))%nat && (t <? length (runnable s) + 16)%nat
  | Stall t _ _ | Resume t _ _ | Yield t | WaitFutex _ t _ _ _ | Sleep t _ _ => startedb s t
  | Exit t => startedb s t && bool_decide (status <$> thread_state s !! t = Some RUNNING) && bool_decide (is_Some (core_of s t))
  | SetAffinity _ t mask =>
      startedb s t && match mask with Some l => forallb (fun cpu => (cpu <? num_cores s)%nat || negb (cpu_isset cpu l)) (seq 0 (length l)) | None => true end
  | WakeFutex t _ _ _ _ => bool_decide (is_Some (core_of s t))
  | Synchronize c time => may_enterb c time s
  | Advance => false
  | Park t => (t <? length (threads s))%nat
  | Execute c _ _ => (c <? num_cores s)%nat
  end.

Lemma startedb_ok s t : startedb s t = true -> started s t.
Proof. unfold startedb. rewrite andb_true_iff, !Nat.ltb_lt. done. Qed.
Lemma may_enterb_ok c time s : may_enterb c time s = true -> may_enter c time s.
Proof.
  unfold may_enterb. destruct (cores s !! c) as [co|] eqn:Eco; [|done]. destruct (m_thread co) as [t|] eqn:Et; [|done].
  destruct (m_core_group (barrier s) !! c) as [g|] eqn:Eg; [|done]. rewrite !andb_true_iff, forallb_forall, orb_true_iff, !bool_decide_eq_true, Z.ltb_lt.
  intros [[[Hst Hall] Hm] Hov]. split.
  - exists co, t. split_and!; [done|done|done|]. intros c' Ha Ht. specialize (Hall (true, Some t)). cbn in Hall. rewrite bool_decide_eq_true_2 in Hall by done.
    discriminate Hall. apply list_elem_of_In, list_elem_of_lookup. exists c'. apply lookup_zip_with_Some. by exists true, (Some t).
  - intros g'. rewrite Eg. by intros [= <-].
  - done.
Qed.
Lemma permittedb_ok traverse e s : permittedb e s = true -> permitted traverse e s.
Proof.
  destruct e as [app|t time|t r time|t time msg|t|t|caller t mask|t address n mask time|a t mask time limit|t wake_time time|c time| |t|c time count]; cbn [permitted permittedb];
    try apply startedb_ok; try done.
  - rewrite andb_true_iff, !Nat.ltb_lt. done.
  - rewrite !andb_true_iff, !bool_decide_eq_true. intros [[H1 H2] H3]. split_and!; [by apply startedb_ok| |done].
    destruct (thread_state s !! t) as [st|] eqn:E; [|done]. exists st. split; [done|]. by injection H2.
  - rewrite andb_true_iff. intros [H1 H2]. split; [by apply startedb_ok|]. intros l cpu -> Hc. rewrite forallb_forall in H2.
    specialize (H2 cpu). rewrite Hc, orb_false_r, Nat.ltb_lt in H2. apply H2, in_seq. split; [lia|]. cbn. unfold cpu_isset in Hc.
    destruct (l !! cpu) eqn:E; [by apply lookup_lt_Some in E|done].
  - by rewrite bool_decide_eq_true.
  - apply may_enterb_ok.
  - by rewrite Nat.ltb_lt.
  - by rewrite Nat.ltb_lt.
Qed.
(** The state after operations that are permitted. *)
Fixpoint after (ev : environment) (es : list event) (s : Sys) : option Sys :=
  match es with
  | [] => Some s
  | e :: es => if permittedb e s then match do_event ev e s with Ok (_, s) => after ev es s | Err _ => None end else None
  end.
Lemma reached_after ev cf allow es s s' : reached ev cf allow s -> Forall allow es -> after ev es s = Some s' -> reached ev cf allow s'.
Proof.
  intros Hr Ha. revert s Hr. induction Ha as [|e es He _ IH]; intros s Hr; cbn [after]; [by intros [= <-]|].
  destruct (permittedb e s) eqn:Ep; [|done]. destruct (do_event ev e s) as [[[] s1]|] eqn:E; [|done]. apply IH.
  eapply reach_next; [exact Hr|exact He|by apply permittedb_ok|exact E].
Qed.

(** ** A machine *)

(** Two cores, the pinned scheduler, and an environment that keeps all orders. *)
Definition plain_env : environment := mkEnv (fun f => (map_to_list f).*1) (fun _ a => a) (fun g l => (l, g)).
Definition two_cores : config := mkConfig 2 2 1000 100 0 0 (Pinned 1 [true; true] 0).
Lemma plain_permutes : permutes plain_env.
Proof. intros g l. reflexivity. Qed.
Lemma plain_complete : complete (ev_traverse plain_env).
Proof. intros f a [l H]. apply list_elem_of_fmap. exists (a, l). split; [done|]. by apply elem_of_map_to_list. Qed.
Lemma two_cores_supported : supported two_cores.
Proof. split; [split_and!; [lia|cbn; lia|done|done]|cbn; lia|done]. Qed.

Definition new_system : Sys := Sys_new 2 2 1000 100 0 0 (Pinned 1 [true; true] 0).
Definition one_thread : Sys := Eval vm_compute in match do_event plain_env (Create 0) new_system with Ok (_, s) => s | Err _ => new_system end.
Lemma one_thread_reached allow : reached plain_env two_cores allow one_thread.
Proof. eapply (reach_first _ _ _ _ _ _ _ _ _ _ _ 0). vm_compute. reflexivity. Qed.

(** Three threads on two cores. *)
Definition three_started : list event := [Start 0 0; Create 0; Start 1 0; Create 0; Start 2 0].
Definition three_threads : Sys := Eval vm_compute in default one_thread (after plain_env three_started one_thread).
Lemma three_threads_reached : reached plain_env two_cores keeps_affinity three_threads.
Proof. apply (reached_after _ _ _ three_started one_thread); [apply one_thread_reached|repeat constructor; by intros []|vm_compute; reflexivity]. Qed.

(** Core 0 is in the barrier when the thread of core 1 leaves its core. *)
Definition barrier_events : list event := [Execute 0 250000000 1000; Synchronize 0 250000000; SetAffinity (Some 1%nat) 1 (Some [true; false])].
Definition at_the_barrier : Sys := Eval vm_compute in default three_threads (after plain_env barrier_events three_threads).
Lemma three_threads_anyhow : reached plain_env two_cores anything three_threads.
Proof. apply (reached_after _ _ _ three_started one_thread); [apply one_thread_reached|by repeat constructor|vm_compute; reflexivity]. Qed.
Lemma at_the_barrier_reached : reached plain_env two_cores anything at_the_barrier.
Proof. apply (reached_after _ _ _ barrier_events three_threads); [apply three_threads_anyhow|by repeat constructor|vm_compute; reflexivity]. Qed.

(** All threads sleep. *)
Definition sleep_events : list event := [Sleep 0 5000000000 10; Sleep 1 7000000000 20; Sleep 2 9000000000 30].
Definition all_asleep : Sys := Eval vm_compute in default three_threads (after plain_env sleep_events three_threads).
Lemma all_asleep_reached : reached plain_env two_cores anything all_asleep.
Proof. apply (reached_after _ _ _ sleep_events three_threads); [apply three_threads_anyhow|by repeat constructor|vm_compute; reflexivity]. Qed.

(** Many threads are created before the first one starts. *)
Definition many_events : list event := replicate 32 (Create 0).
Definition many_threads : Sys := Eval vm_compute in default one_thread (after plain_env many_events one_thread).
Lemma many_threads_reached : reached plain_env two_cores anything many_threads.
Proof. apply (reached_after _ _ _ many_events one_thread); [apply one_thread_reached|by repeat constructor|vm_compute; reflexivity]. Qed.

(** ** Witnesses *)

Lemma threads_run_safely_witness :
  agree two_cores three_threads /\ exists s', do_event plain_env (Stall 0 STALL_FUTEX 5) three_threads = Ok (tt, s') /\ agree two_cores s'.
Proof.
  destruct (threads_run_safely plain_env two_cores keeps_affinity three_threads two_cores_supported plain_permutes three_threads_reached) as [H1 H2].
  split; [exact H1|]. apply H2. apply permittedb_ok. vm_compute. reflexivity.
Defined.
Lemma pinned_work_conserving_witness :
  can_run three_threads 2 /\ core_of three_threads 2 = None /\ exists t', running three_threads !! 0%nat = Some (Some t').
Proof.
  split; [vm_compute; reflexivity|]. split; [vm_compute; reflexivity|].
  apply (pinned_work_conserving plain_env two_cores three_threads 2 0 two_cores_supported plain_permutes I three_threads_reached); vm_compute; reflexivity.
Defined.
Lemma barrier_releases_due_witness :
  exists w s', barrierRelease (ev_traverse plain_env) (ev_shuffle plain_env) None false at_the_barrier = Ok (w, s') /\ release_spec two_cores at_the_barrier s'.
Proof.
  apply (barrier_releases_due plain_env two_cores anything at_the_barrier two_cores_supported plain_permutes at_the_barrier_reached).
  vm_compute. reflexivity.
Defined.
Lemma advance_wakes_witness :
  exists s', advance_all (ev_traverse plain_env) (ev_shuffle plain_env) all_asleep = Ok (tt, s') /\ active s' /\ agree two_cores s'.
Proof.
  apply (advance_wakes plain_env two_cores anything all_asleep (mkWaiter 0 0 5000000000) two_cores_supported plain_permutes all_asleep_reached plain_complete).
  - vm_compute. constructor.
  - vm_compute. reflexivity.
Defined.
Lemma longest_waiting_chosen_witness :
  exists o, pick_thread 50 0 (sched three_threads) = Ok o /\
    match o with
    | Some t => may_take three_threads 0 t /\
        forall t' i i', may_take three_threads 0 t' -> t' <> t -> infos three_threads !! t = Some i -> infos three_threads !! t' = Some i' ->
          taken_before (getPS (u64 50)) (t, i) (t', i')
    | None => forall t, ~ may_take three_threads 0 t
    end.
Proof.
  apply (longest_waiting_chosen plain_env two_cores keeps_affinity three_threads 0 50 two_cores_supported plain_permutes three_threads_reached).
  vm_compute. lia.
Defined.
Lemma late_start_out_of_bounds_witness : do_event plain_env (Start 32 0) many_threads = Err OutOfBounds.
Proof.
  apply (late_start_out_of_bounds plain_env two_cores anything many_threads 32 0 two_cores_supported plain_permutes many_threads_reached).
  vm_compute. lia.
Defined.
