(* ===== verification/SiftFormat.v ===== *)
(** * The format of SIFT traces

    The records of [sift/sift_format.h], in which a running program reports its instructions,
    system calls and other events to the simulator, as bytes; and the state and error monad in
    which the two ends of a connection are modelled. *)

From stdpp Require Import base tactics list numbers.
From Stdlib Require Import ZArith Lia.
From S2P Require Import Prelude.
Local Open Scope Z_scope.

(** ** Bytes *)

(** The [n] bytes of a value, the least significant first, and the value of bytes. *)
Fixpoint le (n : nat) (v : Z) : list Z :=
  match n with O => [] | S n => v `mod` 256 :: le n (v / 256) end.
Fixpoint of_le (l : list Z) : Z :=
  match l with [] => 0 | b :: l => b + 256 * of_le l end.
Definition is_byte (b : Z) : Prop := 0 <= b < 256.
Definition bit (b : bool) : Z := if b then 1 else 0.
(** A field of [w] bits that starts at bit [i]. *)
Definition field (v i w : Z) : Z := Z.land (Z.shiftr v i) (2 ^ w - 1).
Definition flag (v i : Z) : bool := Z.testbit v i.

(** ** Constants *)

Definition MagicNumber : Z := 0x54464953.
Definition PAGE_SIZE_SIFT : Z := 4096.
Definition ICACHE_SIZE : Z := 0x1000.
Definition ICACHE_OFFSET_MASK : Z := ICACHE_SIZE - 1.
Definition ICACHE_PAGE_MASK : Z := 2 ^ 64 - 1 - ICACHE_OFFSET_MASK.
Definition MAX_DYNAMIC_ADDRESSES : Z := 2.

Definition CompressionZlib : Z := 1.
Definition ArchIA32 : Z := 2.
Definition IcacheVariable : Z := 4.
Definition PhysicalAddress : Z := 8.

Definition RecOtherIcache : Z := 0.
Definition RecOtherOutput : Z := 1.
Definition RecOtherSyscallRequest : Z := 2.
Definition RecOtherSyscallResponse : Z := 3.
Definition RecOtherNewThread : Z := 4.
Definition RecOtherNewThreadResponse : Z := 5.
Definition RecOtherMemoryRequest : Z := 6.
Definition RecOtherMemoryResponse : Z := 7.
Definition RecOtherJoin : Z := 8.
Definition RecOtherJoinResponse : Z := 9.
Definition RecOtherIcacheVariable : Z := 11.
Definition RecOtherSync : Z := 12.
Definition RecOtherSyncResponse : Z := 13.
Definition RecOtherLogical2Physical : Z := 14.
Definition RecOtherMagicInstruction : Z := 15.
Definition RecOtherMagicInstructionResponse : Z := 16.
Definition RecOtherRoutineChange : Z := 17.
Definition RecOtherRoutineAnnounce : Z := 18.
Definition RecOtherEmu : Z := 19.
Definition RecOtherEmuResponse : Z := 20.
Definition RecOtherFork : Z := 21.
Definition RecOtherForkResponse : Z := 22.
Definition RecOtherInstructionCount : Z := 23.
Definition RecOtherCacheOnly : Z := 24.
Definition RecOtherISAChange : Z := 25.
Definition RecOtherShutdown : Z := 26.
Definition RecOtherEnd : Z := 255.

Definition ModeUnknown : Z := 0.
Definition MemRead : Z := 1.
Definition MemWrite : Z := 2.

(** The sizes of the unions of requests and replies of emulated instructions. *)
Definition sizeof_EmuRequest : nat := 8.
Definition sizeof_EmuReply : nat := 48.

(** ** Records *)

Definition Header (options : Z) : list Z := le 4 MagicNumber ++ le 4 0 ++ le 8 options.

(** The small encoding of an instruction: bits 0-3 are the size, 4-5 the number of
    addresses, 6 and 7 the branch and its direction. *)
Definition Instruction_rec (size num_addresses : Z) (is_branch taken : bool) : list Z :=
  [u8 (size `mod` 16 + 16 * (num_addresses `mod` 4) + 64 * bit is_branch + 128 * bit taken)].
(** The full encoding, whose first four bits are zero. *)
Definition InstructionExt_rec (size num_addresses : Z) (is_branch taken is_predicate executed : bool) (addr : Z) : list Z :=
  [16 * (size `mod` 16);
   num_addresses `mod` 4 + 4 * bit is_branch + 8 * bit taken + 16 * bit is_predicate + 32 * bit executed] ++ le 8 addr.
(** All other records start with a zero byte, their type and their size. *)
Definition Other (type size : Z) : list Z := 0 :: u8 type :: le 4 size.
Record OtherRec := mkOther { other_zero : Z; other_type : Z; other_size : Z }.
Definition parse_other (l : list Z) : OtherRec :=
  mkOther (nth 0 l 0) (nth 1 l 0) (of_le (drop 2 l)).

(** ** The monad of state and faults *)

Definition Proc (S A : Type) : Type := S -> res (A * S).
Section proc.
Context {S : Type}.
#[global] Instance proc_ret : MRet (Proc S) := fun A a s => Ok (a, s).
#[global] Instance proc_bind : MBind (Proc S) := fun A B k m s =>
  match m s with Ok (a, s') => k a s' | Err f => Err f end.
Definition fails {A} (f : fault) : Proc S A := fun _ => Err f.
Definition gets {A} (f : S -> A) : Proc S A := fun s => Ok (f s, s).
Definition update (f : S -> S) : Proc S unit := fun s => Ok (tt, f s).
Definition lift {A} (r : res A) : Proc S A := fun s => match r with Ok a => Ok (a, s) | Err f => Err f end.
Definition assert (b : bool) : Proc S unit := lift (check b AssertFailed).
Definition when (b : bool) (m : Proc S unit) : Proc S unit := if b then m else mret tt.
Fixpoint each {X} (f : X -> Proc S unit) (l : list X) : Proc S unit :=
  match l with [] => mret tt | x :: l => f x;; each f l end.
End proc.

(** ** Lemmas *)

Lemma length_le n v : length (le n v) = n.
Proof. revert v. induction n as [|n IH]; intros v; cbn; [done|]. by rewrite IH. Qed.
Lemma le_bytes n v : Forall is_byte (le n v).
Proof. revert v. induction n as [|n IH]; intros v; cbn; constructor; [|apply IH]. apply Z.mod_pos_bound. lia. Qed.
Lemma of_le_le n v : 0 <= v < 2 ^ (8 * Z.of_nat n) -> of_le (le n v) = v.
Proof.
  revert v. induction n as [|n IH]; intros v Hv; cbn [le of_le]; [cbn in Hv; lia|].
  replace (8 * Z.of_nat (S n)) with (8 + 8 * Z.of_nat n) in Hv by lia. rewrite Z.pow_add_r in Hv by lia. change (2 ^ 8) with 256 in Hv.
  rewrite IH; [pose proof (Z.div_mod v 256); lia|]. split; [apply Z.div_pos; lia|]. apply Z.div_lt_upper_bound; lia.
Qed.
Lemma of_le_range l : Forall is_byte l -> 0 <= of_le l < 2 ^ (8 * Z.of_nat (length l)).
Proof.
  induction 1 as [|b l Hb _ IH]; cbn [of_le length]; [done|]. unfold is_byte in Hb.
  replace (8 * Z.of_nat (S (length l))) with (8 + 8 * Z.of_nat (length l)) by lia. rewrite Z.pow_add_r by lia. change (2 ^ 8) with 256. lia.
Qed.
Lemma length_Other t n : length (Other t n) = 6%nat.
Proof. done. Qed.
(** The header of a record is read back. *)
Lemma parse_Other t n : 0 <= t < 256 -> 0 <= n < 2 ^ 32 -> parse_other (Other t n) = mkOther 0 t n.
Proof.
  intros Ht Hn. unfold parse_other, Other, wrap. change (nth 0 (0 :: _) 0) with 0. change (nth 1 (0 :: ?x :: _) 0) with x.
  change (drop 2 (0 :: ?x :: ?l)) with l. rewrite of_le_le by done. rewrite Z.mod_small by (change (2 ^ 8) with 256; lia). done.
Qed.

Section proc_lemmas.
Context {S : Type}.
Lemma bind_ok {A B} (m : Proc S A) (k : A -> Proc S B) s a s' : m s = Ok (a, s') -> (m ≫= k) s = k a s'.
Proof. intros E. unfold mbind, proc_bind. by rewrite E. Qed.
Lemma bind_err {A B} (m : Proc S A) (k : A -> Proc S B) s f : m s = Err f -> (m ≫= k) s = Err f.
Proof. intros E. unfold mbind, proc_bind. by rewrite E. Qed.
Lemma bind_assoc {A B C} (m : Proc S A) (k : A -> Proc S B) (h : B -> Proc S C) s : ((m ≫= k) ≫= h) s = (m ≫= fun a => k a ≫= h) s.
Proof. unfold mbind, proc_bind. by destruct (m s) as [[a s']|]. Qed.
Lemma bind_ext {A B} (m : Proc S A) (k k' : A -> Proc S B) s : (forall a s', k a s' = k' a s') -> (m ≫= k) s = (m ≫= k') s.
Proof. intros E. unfold mbind, proc_bind. by destruct (m s) as [[a s']|]. Qed.
Lemma bind_gets {A B} (f : S -> A) (k : A -> Proc S B) s : (gets f ≫= k) s = k (f s) s.
Proof. done. Qed.
Lemma bind_update {B} (f : S -> S) (k : unit -> Proc S B) s : (update f ≫= k) s = k tt (f s).
Proof. done. Qed.
Lemma bind_ret {A B} (a : A) (k : A -> Proc S B) s : ((mret a : Proc S A) ≫= k) s = k a s.
Proof. done. Qed.
Lemma bind_assert {B} b (k : unit -> Proc S B) s : b = true -> (assert b ≫= k) s = k tt s.
Proof. by intros ->. Qed.
End proc_lemmas.
