(* ===== verification/SiftWriter.v ===== *)
(** * The writer of SIFT traces

    [sift/sift_writer.cc]: the end of a connection that runs in the traced program. It writes
    records to a stream and, for the requests that the simulator answers, reads the answer
    from a second stream; while it waits for an answer it serves the simulator's accesses to
    the memory of the program. *)

From stdpp Require Import base tactics list numbers gmap.
From Stdlib Require Import ZArith Lia.
From S2P Require Import Prelude SiftFormat.
Local Open Scope Z_scope.
Local Open Scope mach_scope.

Module W.
Section writer.
(** The memory of the program and the callback that accesses it: lock, operation, address and
    buffer give the new buffer. The code at an address, and the entries of
    [/proc/self/pagemap]. *)
Context {M : Type} (accessMemory : Z -> Z -> Z -> list Z -> M -> list Z * M).
Context (getCode : Z -> nat -> list Z) (pagemap : Z -> option Z).

(** [output] tells whether there is an output stream, [written] what was written to it;
    [response] holds the bytes of the answers
    that have not been read. The callback for the memory is not initialised by the
    constructor. *)
Record Writer := mkWriter {
  output : bool;
  written : list Z;
  response : list Z;
  has_response_file : bool;
  memory_func : bool;
  memory : M;
  ninstrs : Z;
  hsize : list Z;
  haddr : list Z;
  nbranch : Z;
  npredicate : Z;
  ninstrsmall : Z;
  ninstrext : Z;
  last_address : Z;
  icache : gset Z;
  m_va2pa : gset Z;
  m_requires_icache_per_insn : bool;
  m_send_va2pa_mapping : bool
}.
Definition set_output x w := mkWriter x (written w) (response w) (has_response_file w) (memory_func w) (memory w) (ninstrs w) (hsize w) (haddr w) (nbranch w) (npredicate w) (ninstrsmall w) (ninstrext w) (last_address w) (icache w) (m_va2pa w) (m_requires_icache_per_insn w) (m_send_va2pa_mapping w).
Definition set_written x w := mkWriter (output w) x (response w) (has_response_file w) (memory_func w) (memory w) (ninstrs w) (hsize w) (haddr w) (nbranch w) (npredicate w) (ninstrsmall w) (ninstrext w) (last_address w) (icache w) (m_va2pa w) (m_requires_icache_per_insn w) (m_send_va2pa_mapping w).
Definition set_response x w := mkWriter (output w) (written w) x (has_response_file w) (memory_func w) (memory w) (ninstrs w) (hsize w) (haddr w) (nbranch w) (npredicate w) (ninstrsmall w) (ninstrext w) (last_address w) (icache w) (m_va2pa w) (m_requires_icache_per_insn w) (m_send_va2pa_mapping w).
Definition set_memory x w := mkWriter (output w) (written w) (response w) (has_response_file w) (memory_func w) x (ninstrs w) (hsize w) (haddr w) (nbranch w) (npredicate w) (ninstrsmall w) (ninstrext w) (last_address w) (icache w) (m_va2pa w) (m_requires_icache_per_insn w) (m_send_va2pa_mapping w).
Definition set_icache x w := mkWriter (output w) (written w) (response w) (has_response_file w) (memory_func w) (memory w) (ninstrs w) (hsize w) (haddr w) (nbranch w) (npredicate w) (ninstrsmall w) (ninstrext w) (last_address w) x (m_va2pa w) (m_requires_icache_per_insn w) (m_send_va2pa_mapping w).
Definition set_va2pa x w := mkWriter (output w) (written w) (response w) (has_response_file w) (memory_func w) (memory w) (ninstrs w) (hsize w) (haddr w) (nbranch w) (npredicate w) (ninstrsmall w) (ninstrext w) (last_address w) (icache w) x (m_requires_icache_per_insn w) (m_send_va2pa_mapping w).
Definition set_last_address x w := mkWriter (output w) (written w) (response w) (has_response_file w) (memory_func w) (memory w) (ninstrs w) (hsize w) (haddr w) (nbranch w) (npredicate w) (ninstrsmall w) (ninstrext w) x (icache w) (m_va2pa w) (m_requires_icache_per_insn w) (m_send_va2pa_mapping w).
Definition count_small w := mkWriter (output w) (written w) (response w) (has_response_file w) (memory_func w) (memory w) (ninstrs w) (hsize w) (haddr w) (nbranch w) (npredicate w) (ninstrsmall w +64 1) (ninstrext w) (last_address w) (icache w) (m_va2pa w) (m_requires_icache_per_insn w) (m_send_va2pa_mapping w).
Definition count_ext w := mkWriter (output w) (written w) (response w) (has_response_file w) (memory_func w) (memory w) (ninstrs w) (hsize w) (haddr w) (nbranch w) (npredicate w) (ninstrsmall w) (ninstrext w +64 1) (last_address w) (icache w) (m_va2pa w) (m_requires_icache_per_insn w) (m_send_va2pa_mapping w).
(** The counters of an instruction. *)
Definition count_instruction (size num_addresses : nat) (is_branch is_predicate : bool) w :=
  mkWriter (output w) (written w) (response w) (has_response_file w) (memory_func w) (memory w) (ninstrs w +64 1)
    (alter (fun n => n +64 1) size (hsize w)) (alter (fun n => n +64 1) num_addresses (haddr w))
    (if is_branch then nbranch w +64 1 else nbranch w) (if is_predicate then npredicate w +64 1 else npredicate w)
    (ninstrsmall w) (ninstrext w) (last_address w) (icache w) (m_va2pa w) (m_requires_icache_per_insn w) (m_send_va2pa_mapping w).
Definition set_memory_func w := mkWriter (output w) (written w) (response w) (has_response_file w) true (memory w) (ninstrs w) (hsize w) (haddr w) (nbranch w) (npredicate w) (ninstrsmall w) (ninstrext w) (last_address w) (icache w) (m_va2pa w) (m_requires_icache_per_insn w) (m_send_va2pa_mapping w).

Definition options (useCompression arch32 requires_icache_per_insn send_va2pa : bool) : Z :=
  Z.lor (if useCompression then CompressionZlib else 0)
    (Z.lor (if arch32 then ArchIA32 else 0) (Z.lor (if requires_icache_per_insn then IcacheVariable else 0) (if send_va2pa then PhysicalAddress else 0))).
(** The constructor writes the header. What follows it passes through zlib when the trace is
    compressed. [is_open] tells whether the file could be opened, [answers] what the peer
    sends. *)
Definition Writer_new (is_open useCompression has_response arch32 requires_icache_per_insn send_va2pa : bool) (answers : list Z) (m : M) : Writer :=
  mkWriter is_open (if is_open then Header (options useCompression arch32 requires_icache_per_insn send_va2pa) else [])
    answers has_response false m 0 (replicate 16 0) (replicate 3 0) 0 0 0 0 0 ∅ ∅ requires_icache_per_insn send_va2pa.
Definition setHandleAccessMemoryFunc : Proc Writer unit := update set_memory_func.

(** [output->write]; a null stream is not written to. *)
Definition write (l : list Z) : Proc Writer unit :=
  o ← gets output;
  if o : bool then update (fun w => set_written (written w ++ l) w) else fails NullDeref.
Definition write_other (type size : Z) : Proc Writer unit := write (Other type size).

(** [cvifstream::read] at the end of the stream leaves the buffer as it was, and
    [cvifstream::fail] is false once the stream is open: what is not read is indeterminate. *)
Definition read (n : nat) : Proc Writer (list Z) :=
  r ← gets response;
  if (n <=? length r)%nat then update (set_response (drop n r));; mret (take n r) else fails Indeterminate.
Definition read_value (n : nat) : Proc Writer Z := l ← read n; mret (of_le l).
Definition read_other : Proc Writer OtherRec := l ← read 6; mret (parse_other l).
Definition initResponse : Proc Writer unit := b ← gets has_response_file; assert b.
Definition frontEndStop {A} : Proc Writer A := fails Exits.

Definition End : Proc Writer unit :=
  o ← gets output;
  if o : bool then write_other RecOtherEnd 0;; update (set_output false) else mret tt.

(** [va2pa_lookup] takes and returns the number of a page. *)
Definition va2pa_lookup (vp : Z) : res Z :=
  if (0xffffffffff600 <=? vp) && (vp <? 0xfffffffffffff) then Ok vp
  else
    match pagemap vp with
    | None => Ok vp
    | Some pp =>
        let pfn := Z.land pp (2 ^ 54 - 1) in
        if negb (Z.testbit pp 63) then Ok vp
        else _ ← check (negb (pfn =? 0)) AssertFailed; Ok pfn
    end.
Definition send_va2pa (va : Z) : Proc Writer unit :=
  o ← gets output;
  b ← gets m_send_va2pa_mapping;
  if o && b : bool then
    let vp := va / PAGE_SIZE_SIFT in
    sent ← gets (fun w => bool_decide (vp ∈ m_va2pa w));
    if sent : bool then mret tt
    else
      pp ← lift (va2pa_lookup vp);
      if pp =? 0 then mret tt
      else
        write_other RecOtherLogical2Physical 16;;
        write (le 8 vp);;
        write (le 8 pp);;
        update (fun w => set_va2pa ({[vp]} ∪ m_va2pa w) w)
  else mret tt.

(** The code of one instruction. *)
Definition send_code_variable (addr : Z) (size : nat) : Proc Writer unit :=
  sent ← gets (fun w => bool_decide (addr ∈ icache w));
  if sent : bool then mret tt
  else
    write_other RecOtherIcacheVariable (8 + Z.of_nat size);;
    write (le 8 addr);;
    write (getCode addr size);;
    update (fun w => set_icache ({[addr]} ∪ icache w) w).
Definition send_page (base_addr : Z) : Proc Writer unit :=
  sent ← gets (fun w => bool_decide (base_addr ∈ icache w));
  if sent : bool then mret tt
  else
    write_other RecOtherIcache (8 + ICACHE_SIZE);;
    write (le 8 base_addr);;
    write (getCode base_addr (Z.to_nat ICACHE_SIZE));;
    update (fun w => set_icache ({[base_addr]} ∪ icache w) w).
(** An instruction of at most 15 bytes touches two pages; the loop goes on beyond the second one
    only when the last page of the address space is among them, and then for ever. *)
Fixpoint send_pages (fuel : nat) (base_addr last : Z) : Proc Writer unit :=
  if last <? base_addr then mret tt
  else
    match fuel with
    | O => fails Hangs
    | S fuel => send_page base_addr;; send_pages fuel (base_addr +64 ICACHE_SIZE) last
    end.
Definition send_code (addr : Z) (size : nat) : Proc Writer unit :=
  send_pages 2 (Z.land addr ICACHE_PAGE_MASK) (Z.land (addr +64 Z.of_nat size -64 1) ICACHE_PAGE_MASK).

Definition Instruction (addr : Z) (size : nat) (addresses : list Z) (is_branch taken is_predicate executed : bool) : Proc Writer unit :=
  let num_addresses := length addresses in
  assert (size <? 16)%nat;;
  assert (num_addresses <=? Z.to_nat MAX_DYNAMIC_ADDRESSES)%nat;;
  o ← gets output;
  if negb o then mret tt
  else
    per_insn ← gets m_requires_icache_per_insn;
    (if per_insn : bool then send_code_variable addr size else send_code addr size);;
    send_va2pa addr;;
    each send_va2pa addresses;;
    last ← gets last_address;
    (if (addr =? last) && negb is_predicate then
       write (Instruction_rec (Z.of_nat size) (Z.of_nat num_addresses) is_branch taken);;
       update count_small
     else
       write (InstructionExt_rec (Z.of_nat size) (Z.of_nat num_addresses) is_branch taken is_predicate executed addr);;
       update (set_last_address addr);;
       update count_ext);;
    each (fun a => write (le 8 a)) addresses;;
    update (fun w => set_last_address (last_address w +64 Z.of_nat size) w);;
    update (count_instruction size num_addresses is_branch is_predicate).

(** ** Accesses to the memory of the program *)

(** A request of the simulator: address, size, lock and type, and the data of a write. *)
Definition handleMemoryRequest (respRec : OtherRec) : Proc Writer unit :=
  o ← gets output;
  if negb o then mret tt
  else if other_size respRec <? 20 then mret tt
  else
    addr ← read_value 8;
    size ← read_value 4;
    lock ← read_value 4;
    type ← read_value 4;
    let payload_size := other_size respRec - 20 in
    func ← gets memory_func;
    if negb func then fails Indeterminate
    else if type =? MemRead then
      if negb (payload_size =? 0) then mret tt
      else if size <=? 0 then mret tt
      else
        m ← gets memory;
        let '(read_data, m) := accessMemory lock type addr (replicate (Z.to_nat size) 0) m in
        update (set_memory m);;
        write_other RecOtherMemoryResponse (u32 (12 + size));;
        write (le 8 addr);;
        write (le 4 type);;
        write read_data
    else if type =? MemWrite then
      if payload_size <=? 0 then mret tt
      else if negb (payload_size =? size) then mret tt
      else
        payload ← read (Z.to_nat payload_size);
        m ← gets memory;
        let '(_, m) := accessMemory lock type addr payload m in
        update (set_memory m);;
        write_other RecOtherMemoryResponse 12;;
        write (le 8 addr);;
        write (le 4 type)
    else mret tt.

(** ** Requests

    [await] is the loop that waits for an answer: [accept] is the case of the expected type,
    [serves] tells whether requests for memory are served, and [other] is the default case,
    [None] when the next record is read. Every round reads a record, so there are at most as
    many as there are bytes to read. *)
Fixpoint await {A} (fuel : nat) (on_bad : Proc Writer A) (serves : bool) (expected : Z) (accept : OtherRec -> Proc Writer A)
    (other : option (Proc Writer A)) : Proc Writer A :=
  match fuel with
  | O => fails Indeterminate
  | S fuel =>
      respRec ← read_other;
      if negb (other_zero respRec =? 0) then on_bad
      else if other_type respRec =? expected then accept respRec
      else if serves && (other_type respRec =? RecOtherMemoryRequest) then
        handleMemoryRequest respRec;; await fuel on_bad serves expected accept other
      else if other_type respRec =? RecOtherShutdown then frontEndStop
      else match other with
           | Some m => m
           | None => await fuel on_bad serves expected accept other
           end
  end.
Definition awaiting {A} (on_bad : Proc Writer A) (serves : bool) (expected : Z) (accept : OtherRec -> Proc Writer A) (other : option (Proc Writer A)) : Proc Writer A :=
  initResponse;; n ← gets (fun w => length (response w)); await (S n) on_bad serves expected accept other.
(** The answer is a value of [n] bytes. *)
Definition answer (n : nat) (bad : Z) (respRec : OtherRec) : Proc Writer Z :=
  if negb (other_size respRec =? Z.of_nat n) then mret bad else read_value n.

Definition InstructionCount (icount : Z) : Proc Writer Z :=
  o ← gets output;
  if negb o then mret ModeUnknown
  else
    write_other RecOtherInstructionCount 4;;
    write (le 4 icount);;
    awaiting (mret ModeUnknown) false RecOtherSyncResponse (answer 4 ModeUnknown) (Some (mret ModeUnknown)).

Definition CacheOnly (icount type eip address : Z) : Proc Writer unit :=
  o ← gets output;
  if negb o then mret tt
  else
    send_va2pa eip;;
    send_va2pa address;;
    write_other RecOtherCacheOnly 18;;
    write (le 1 icount);;
    write (le 1 type);;
    write (le 8 eip);;
    write (le 8 address).

Definition Output (fd : Z) (data : list Z) : Proc Writer unit :=
  o ← gets output;
  if negb o then mret tt
  else
    write_other RecOtherOutput (u32 (1 + Z.of_nat (length data)));;
    write (le 1 fd);;
    write data.

(** Results of type [int32_t] are kept as their 32 bits; -1 is [u32 (-1)]. *)
Definition minus_one : Z := u32 (-1).
Definition NewThread : Proc Writer Z :=
  o ← gets output;
  if negb o then mret minus_one
  else
    write_other RecOtherNewThread 0;;
    awaiting (mret minus_one) false RecOtherNewThreadResponse (answer 4 minus_one) (Some (mret minus_one)).

(** The arguments of a system call are 64-bit words. The read that brings the page of the argument
    into memory has no effect on the connection. *)
Definition SYS_write : Z := 1.
Definition SYS_futex : Z := 202.
Definition argument (data : list Z) (i : nat) : Proc Writer Z :=
  if (8 * (i + 1) <=? length data)%nat then mret (of_le (take 8 (drop (8 * i) data))) else fails OutOfBounds.
Definition send_argument (syscall_number : Z) (data : list Z) : Proc Writer unit :=
  if syscall_number =? SYS_futex then a ← argument data 0; send_va2pa a
  else if syscall_number =? SYS_write then a ← argument data 1; send_va2pa a
  else mret tt.
Definition Syscall (syscall_number : Z) (data : list Z) : Proc Writer Z :=
  o ← gets output;
  if negb o then mret 1
  else
    send_argument syscall_number data;;
    write_other RecOtherSyscallRequest (u32 (2 + Z.of_nat (length data)));;
    write (le 2 syscall_number);;
    write data;;
    awaiting (mret 1) true RecOtherSyscallResponse (answer 8 1) None.

Definition Join (thread : Z) : Proc Writer Z :=
  o ← gets output;
  if negb o then mret minus_one
  else
    write_other RecOtherJoin 4;;
    write (le 4 thread);;
    awaiting (mret minus_one) false RecOtherJoinResponse (answer 4 minus_one) (Some (mret minus_one)).

Definition Sync : Proc Writer Z :=
  o ← gets output;
  if negb o then mret ModeUnknown
  else
    write_other RecOtherSync 0;;
    awaiting (mret ModeUnknown) true RecOtherSyncResponse (answer 4 ModeUnknown) (Some (mret ModeUnknown)).

Definition Fork : Proc Writer Z :=
  o ← gets output;
  if negb o then mret minus_one
  else
    write_other RecOtherFork 0;;
    awaiting (mret minus_one) false RecOtherForkResponse (answer 4 minus_one) (Some (mret minus_one)).

Definition Magic (a b c : Z) : Proc Writer Z :=
  o ← gets output;
  if negb o then mret 1
  else
    write_other RecOtherMagicInstruction 24;;
    write (le 8 a);;
    write (le 8 b);;
    write (le 8 c);;
    awaiting (fails AssertFailed) true RecOtherMagicInstructionResponse
      (fun respRec => assert (other_size respRec =? 8);; read_value 8) (Some (fails AssertFailed)).

(** The reply overwrites the first bytes of [res]; a size of zero wraps around. *)
Definition Emulate (type : Z) (req res : list Z) : Proc Writer (bool * list Z) :=
  o ← gets output;
  if negb o then mret (false, res)
  else
    write_other RecOtherEmu (2 + Z.of_nat sizeof_EmuRequest);;
    write (le 2 type);;
    write req;;
    awaiting (fails AssertFailed) true RecOtherEmuResponse
      (fun respRec =>
         assert (other_size respRec <=? 1 + Z.of_nat sizeof_EmuReply);;
         result ← read_value 1;
         reply ← (if other_size respRec =? 0 then fails OutOfBounds else read (Z.to_nat (other_size respRec - 1)));
         mret (negb (result =? 0), reply ++ drop (length reply) res))
      (Some (mret (false, res))).

Definition RoutineChange (event eip esp callEip : Z) : Proc Writer unit :=
  o ← gets output;
  if negb o then mret tt
  else
    write_other RecOtherRoutineChange 25;;
    write (le 1 event);;
    write (le 8 eip);;
    write (le 8 esp);;
    write (le 8 callEip).

(** The names are C strings; their lengths, with the final zero, are cut to 16 bits. *)
Definition string_length (name : list Z) : Z := u16 (Z.of_nat (length name) + 1).
Definition string_bytes (name : list Z) : list Z := take (Z.to_nat (string_length name)) (name ++ [0]).
Definition RoutineAnnounce (eip : Z) (name imgname : list Z) (offset line column : Z) (filename : list Z) : Proc Writer unit :=
  o ← gets output;
  if negb o then mret tt
  else
    write_other RecOtherRoutineAnnounce (8 + 2 + string_length name + 2 + string_length imgname + 8 + 4 + 4 + 2 + string_length filename);;
    write (le 8 eip);;
    write (le 2 (string_length name));;
    write (string_bytes name);;
    write (le 2 (string_length imgname));;
    write (string_bytes imgname);;
    write (le 8 offset);;
    write (le 4 line);;
    write (le 4 column);;
    write (le 2 (string_length filename));;
    write (string_bytes filename).

Definition ISAChange (new_isa : Z) : Proc Writer unit :=
  o ← gets output;
  if negb o then mret tt
  else write_other RecOtherISAChange 4;; write (le 4 new_isa).
End writer.
Arguments Writer : clear implicits.
End W.
