(* ===== verification/SiftReader.v ===== *)
(** * The reader of SIFT traces

    [sift/sift_reader.cc]: the end of a connection that runs in the simulator. It reads the
    records of a stream, calls the handlers that the front end has registered, sends their
    answers on a second stream, and returns the instructions. It also reads traces of the
    ChampSim simulator. *)

From stdpp Require Import base tactics list numbers gmap strings.
From Stdlib Require Import ZArith Lia.
From S2P Require Import Prelude SiftFormat.
Local Open Scope Z_scope.
Local Open Scope mach_scope.

(** ** Streams *)

(** The bytes that are left, and the state of a [std::ifstream]; [inflates] when the bytes come
    from zlib, whose wrapper [izstream] fails as soon as it is read beyond its end. *)
Record Stream := mkStream { bytes : list Z; eof : bool; failed : bool; inflates : bool }.
Definition set_failed (st : Stream) : Stream := mkStream (bytes st) (eof st) true (inflates st).
(** A first [peek] at the end of a file returns -1 without failing. *)
Definition stream_peek (st : Stream) : Z * Stream :=
  if failed st || eof st then (255, set_failed st)
  else match bytes st with
       | b :: _ => (b, st)
       | [] => (255, mkStream [] true (inflates st) (inflates st))
       end.
(** What cannot be read stays indeterminate. *)
Definition stream_read (n : nat) (st : Stream) : list (option Z) * Stream :=
  if failed st || eof st then (replicate n None, set_failed st)
  else if (n <=? length (bytes st))%nat then (Some <$> take n (bytes st), mkStream (drop n (bytes st)) false false (inflates st))
  else ((Some <$> bytes st) ++ replicate (n - length (bytes st)) None, mkStream [] true true (inflates st)).
Definition known {A} (l : list (option A)) : res (list A) :=
  match mapM id l with Some l => Ok l | None => Err Indeterminate end.

(** ** Instructions *)

Inductive TraceFormat := Auto | Sift | ChampSim.
#[global] Instance format_eq_dec : EqDecision TraceFormat.
Proof. solve_decision. Defined.

Record StaticInstruction := mkStatic { s_addr : Z; s_size : Z; s_data : list (option Z); s_next : option nat }.
Definition set_next (x : option nat) (s : StaticInstruction) : StaticInstruction := mkStatic (s_addr s) (s_size s) (s_data s) x.

(** The arrays of addresses and registers are lists of their valid elements. *)
Record Instruction := mkInst {
  sinst : option nat;
  addresses : list Z;
  is_branch : bool;
  taken : bool;
  is_predicate : bool;
  executed : bool;
  isa : Z;
  is_champsim : bool;
  src_addresses : list Z;
  dest_addresses : list Z;
  src_registers : list Z;
  dest_registers : list Z
}.
Definition clear_champsim (i : Instruction) : Instruction :=
  mkInst (sinst i) (addresses i) (is_branch i) (taken i) (is_predicate i) (executed i) (isa i) false [] [] [] [].

(** ** Handlers *)

(** The handlers of system calls, magic instructions and emulated instructions may access the
    memory of the program: lock, operation, address and buffer give a success and the buffer. *)
Inductive prog (A : Type) : Type :=
| Return (a : A)
| Access (lock op addr : Z) (data : list Z) (k : bool -> list Z -> prog A).
Arguments Return {_} _.
Arguments Access {_} _ _ _ _ _.

Inductive compression := Gzip | Lzma | Bzip2.

Section reader.
Context {H : Type}.
(** A handler that is not registered is [None]. *)
Record Handlers := mkHandlers {
  handleInstructionCountFunc : option (Z -> H -> H * Z);
  handleCacheOnlyFunc : option (Z -> Z -> Z -> Z -> H -> H);
  handleOutputFunc : option (Z -> list Z -> H -> H);
  handleSyscallFunc : option (Z -> list Z -> H -> prog (H * Z));
  handleNewThreadFunc : option (H -> H * Z);
  handleForkFunc : option (H -> H * Z);
  handleJoinFunc : option (Z -> H -> H * Z);
  handleMagicFunc : option (Z -> Z -> Z -> H -> prog (H * Z));
  handleEmuFunc : option (Z -> list Z -> list Z -> H -> prog (H * (bool * list Z)));
  handleRoutineChangeFunc : option (Z -> Z -> Z -> Z -> H -> H);
  handleRoutineAnnounceFunc : option (Z -> list Z -> list Z -> Z -> Z -> Z -> list Z -> H -> H)
}.
Context (handlers : Handlers).
(** The decompression libraries, and whether the one for lzma was there at build time. *)
Context (inflate : list Z -> list Z) (decompress : compression -> list Z -> list Z) (has_lzma : bool).

(** [file] is what the file with the name [filename] holds, or [None] if it cannot be opened.
    Its bytes move to the stream that is opened on it, and [initStream] is not called again
    once there is one. [response] is what has been sent. Static instructions are referred to
    by their place in [sinsts]; a page of code may be known in part. *)
Record Reader := mkReader {
  input : option Stream;
  file : option (list Z);
  filename : string;
  response : list Z;
  has_response_file : bool;
  client : H;
  last_address : Z;
  icache : gmap Z (list (option Z));
  sinsts : list StaticInstruction;
  scache : gmap Z nat;
  vcache : gmap Z Z;
  m_trace_has_pa : bool;
  m_seen_end : bool;
  m_last_sinst : option nat;
  m_isa : Z;
  m_format : TraceFormat;
  m_champsim_stream : option (list Z)
}.
Definition set_input x r := mkReader x (file r) (filename r) (response r) (has_response_file r) (client r) (last_address r) (icache r) (sinsts r) (scache r) (vcache r) (m_trace_has_pa r) (m_seen_end r) (m_last_sinst r) (m_isa r) (m_format r) (m_champsim_stream r).
Definition set_file x r := mkReader (input r) x (filename r) (response r) (has_response_file r) (client r) (last_address r) (icache r) (sinsts r) (scache r) (vcache r) (m_trace_has_pa r) (m_seen_end r) (m_last_sinst r) (m_isa r) (m_format r) (m_champsim_stream r).
Definition set_response x r := mkReader (input r) (file r) (filename r) x (has_response_file r) (client r) (last_address r) (icache r) (sinsts r) (scache r) (vcache r) (m_trace_has_pa r) (m_seen_end r) (m_last_sinst r) (m_isa r) (m_format r) (m_champsim_stream r).
Definition set_client x r := mkReader (input r) (file r) (filename r) (response r) (has_response_file r) x (last_address r) (icache r) (sinsts r) (scache r) (vcache r) (m_trace_has_pa r) (m_seen_end r) (m_last_sinst r) (m_isa r) (m_format r) (m_champsim_stream r).
Definition set_last_address x r := mkReader (input r) (file r) (filename r) (response r) (has_response_file r) (client r) x (icache r) (sinsts r) (scache r) (vcache r) (m_trace_has_pa r) (m_seen_end r) (m_last_sinst r) (m_isa r) (m_format r) (m_champsim_stream r).
Definition set_icache x r := mkReader (input r) (file r) (filename r) (response r) (has_response_file r) (client r) (last_address r) x (sinsts r) (scache r) (vcache r) (m_trace_has_pa r) (m_seen_end r) (m_last_sinst r) (m_isa r) (m_format r) (m_champsim_stream r).
Definition set_sinsts x r := mkReader (input r) (file r) (filename r) (response r) (has_response_file r) (client r) (last_address r) (icache r) x (scache r) (vcache r) (m_trace_has_pa r) (m_seen_end r) (m_last_sinst r) (m_isa r) (m_format r) (m_champsim_stream r).
Definition set_scache x r := mkReader (input r) (file r) (filename r) (response r) (has_response_file r) (client r) (last_address r) (icache r) (sinsts r) x (vcache r) (m_trace_has_pa r) (m_seen_end r) (m_last_sinst r) (m_isa r) (m_format r) (m_champsim_stream r).
Definition set_vcache x r := mkReader (input r) (file r) (filename r) (response r) (has_response_file r) (client r) (last_address r) (icache r) (sinsts r) (scache r) x (m_trace_has_pa r) (m_seen_end r) (m_last_sinst r) (m_isa r) (m_format r) (m_champsim_stream r).
Definition set_trace_has_pa x r := mkReader (input r) (file r) (filename r) (response r) (has_response_file r) (client r) (last_address r) (icache r) (sinsts r) (scache r) (vcache r) x (m_seen_end r) (m_last_sinst r) (m_isa r) (m_format r) (m_champsim_stream r).
Definition set_seen_end x r := mkReader (input r) (file r) (filename r) (response r) (has_response_file r) (client r) (last_address r) (icache r) (sinsts r) (scache r) (vcache r) (m_trace_has_pa r) x (m_last_sinst r) (m_isa r) (m_format r) (m_champsim_stream r).
Definition set_last_sinst x r := mkReader (input r) (file r) (filename r) (response r) (has_response_file r) (client r) (last_address r) (icache r) (sinsts r) (scache r) (vcache r) (m_trace_has_pa r) (m_seen_end r) x (m_isa r) (m_format r) (m_champsim_stream r).
Definition set_isa x r := mkReader (input r) (file r) (filename r) (response r) (has_response_file r) (client r) (last_address r) (icache r) (sinsts r) (scache r) (vcache r) (m_trace_has_pa r) (m_seen_end r) (m_last_sinst r) x (m_format r) (m_champsim_stream r).
Definition set_format x r := mkReader (input r) (file r) (filename r) (response r) (has_response_file r) (client r) (last_address r) (icache r) (sinsts r) (scache r) (vcache r) (m_trace_has_pa r) (m_seen_end r) (m_last_sinst r) (m_isa r) x (m_champsim_stream r).
Definition set_champsim_stream x r := mkReader (input r) (file r) (filename r) (response r) (has_response_file r) (client r) (last_address r) (icache r) (sinsts r) (scache r) (vcache r) (m_trace_has_pa r) (m_seen_end r) (m_last_sinst r) (m_isa r) (m_format r) x.
Definition Reader_new (file : option (list Z)) (name : string) (has_response : bool) (format : TraceFormat) (h : H) : Reader :=
  mkReader None file name [] has_response h 0 ∅ [] ∅ ∅ false false None 0 format None.

Abbreviation R := (Proc Reader).

(** ** Opening the trace *)

Definition ends_with (suffix s : string) : bool :=
  (String.length suffix <=? String.length s)%nat &&
  String.eqb (String.substring (String.length s - String.length suffix) (String.length suffix) s) suffix.
Definition champsim_compression (name : string) : option compression :=
  if ends_with ".gz" name then Some Gzip
  else if has_lzma && ends_with ".xz" name then Some Lzma
  else if ends_with ".bz2" name then Some Bzip2 else None.
Definition champsim_stream (name : string) (content : list Z) : list Z :=
  match champsim_compression name with Some c => decompress c content | None => content end.

Definition stream : R Stream := o ← gets input; lift (deref o).
Definition peek : R Z := st ← stream; let '(b, st) := stream_peek st in update (set_input (Some st));; mret b.
Definition fail : R bool := st ← stream; mret (failed st).
Definition read (n : nat) : R (list (option Z)) := st ← stream; let '(l, st) := stream_read n st in update (set_input (Some st));; mret l.
Definition read_known (n : nat) : R (list Z) := l ← read n; lift (known l).
Definition read_value (n : nat) : R Z := l ← read_known n; mret (of_le l).
Definition read_other : R OtherRec := l ← read_known 6; mret (parse_other l).

Definition initStream : R bool :=
  name ← gets filename;
  f ← gets m_format;
  let compressed := bool_decide (is_Some (champsim_compression name)) in
  when (bool_decide (f = Auto) && compressed) (update (set_format ChampSim));;
  o ← gets file;
  match o with
  | None => mret false
  | Some content =>
      if ends_with ".xz" name && negb has_lzma then mret false
      else
        f ← gets m_format;
        update (set_file None);;
        if bool_decide (f = ChampSim) then update (set_champsim_stream (Some (champsim_stream name content)));; mret true
        else
          update (set_input (Some (mkStream content false false false)));;
          hdr ← read 16;
          magic ← lift (known (take 4 hdr));
          if negb (of_le magic =? MagicNumber) then
            if bool_decide (f = Auto) then
              update (set_format ChampSim);;
              update (set_champsim_stream (Some (champsim_stream name content)));; mret true
            else mret false
          else
            update (set_format Sift);;
            l ← lift (known (drop 8 hdr));
            let options := of_le l in
            when (Z.testbit options 0) (st ← stream; update (set_input (Some (mkStream (inflate (bytes st)) false false true))));;
            when (Z.testbit options 3) (update (set_trace_has_pa true));;
            mret (Z.land options (Z.lnot 15) =? 0)
  end.

(** ** Answers *)

Definition initResponse : R bool := gets has_response_file.
Definition send (l : list Z) : R unit := update (fun r => set_response (response r ++ l) r).
Definition sendSyscallResponse (return_code : Z) : R unit :=
  b ← initResponse; if b : bool then send (Other RecOtherSyscallResponse 8);; send (le 8 return_code) else mret tt.
Definition sendEmuResponse (handled : bool) (res : list Z) : R unit :=
  b ← initResponse;
  if b : bool then
    send (Other RecOtherEmuResponse (1 + Z.of_nat sizeof_EmuReply));;
    send (le 1 (bit handled));;
    send res
  else mret tt.
Definition sendSimpleResponse (type : Z) (data : list Z) : R unit :=
  b ← initResponse;
  if b : bool then send (Other type (Z.of_nat (length data)));; when (0 <? length data)%nat (send data) else mret tt.
Definition sendResponseAfterContextSwitch : R unit := sendSimpleResponse RecOtherMagicInstructionResponse (le 8 0).
(** The stream of answers is open once an answer has been sent. *)
Definition frontEndStop : R unit := l ← gets response; when (negb (length l =? 0)%nat) (sendSimpleResponse RecOtherShutdown []).

Definition AccessMemory (lock_signal mem_op d_addr : Z) (data : list Z) : R (bool * list Z) :=
  f ← gets m_format;
  if bool_decide (f = ChampSim) then mret (false, data)
  else
    o ← gets input;
    ok ← (match o with None => initStream | Some _ => mret true end);
    if negb ok then mret (false, data)
    else
      b ← initResponse;
      if negb b then mret (false, data)
      else
        let data_size := Z.of_nat (length data) in
        send (Other RecOtherMemoryRequest (u32 (20 + (if mem_op =? MemWrite then data_size else 0))));;
        send (le 8 d_addr);;
        send (le 4 data_size);;
        send (le 4 lock_signal);;
        send (le 4 mem_op);;
        when (mem_op =? MemWrite) (send data);;
        rec ← read_other;
        if negb (other_type rec =? RecOtherMemoryResponse) then mret (false, data)
        else
          addr ← read_value 8;
          read 4;;
          if negb (addr =? d_addr) then mret (false, data)
          else
            let payload_size := u32 (other_size rec - 12) in
            if mem_op =? MemRead then
              if negb (data_size =? payload_size) then mret (false, data)
              else l ← read_known (length data); mret (true, l)
            else if mem_op =? MemWrite then mret (payload_size =? 0, data)
            else mret (false, data).
Fixpoint run_handler {A} (p : prog A) : R A :=
  match p with
  | Return a => mret a
  | Access lock op addr data k => '(ok, l) ← AccessMemory lock op addr data; run_handler (k ok l)
  end.

(** ** Static instructions *)

(** Every round copies at least one byte. *)
Fixpoint copy_code (fuel : nat) (cache : gmap Z (list (option Z))) (base_addr : Z) (offset size : nat) : res (list (option Z)) :=
  if (size =? 0)%nat then Ok []
  else
    match fuel with
    | O => Err Diverges
    | S fuel =>
        let n := Nat.min size (Z.to_nat ICACHE_SIZE - offset) in
        match cache !! base_addr with
        | None => Err AssertFailed
        | Some page =>
            l ← copy_code fuel cache (base_addr +64 ICACHE_SIZE) 0 (size - n);
            Ok (take n (drop offset page) ++ l)
        end
    end.
Definition staticInfoInstruction (addr size : Z) : R StaticInstruction :=
  cache ← gets icache;
  l ← lift (copy_code (Z.to_nat size) cache (Z.land addr ICACHE_PAGE_MASK) (Z.to_nat (Z.land addr ICACHE_OFFSET_MASK)) (Z.to_nat size));
  lift (check (length l <=? 16)%nat OutOfBounds);;
  mret (mkStatic addr size (l ++ replicate (16 - length l) (Some 0)) None).

Definition static (p : nat) : R StaticInstruction := l ← gets sinsts; lift (rd l p).
Definition new_static (s : StaticInstruction) : R nat :=
  p ← gets (fun r => length (sinsts r));
  update (fun r => set_sinsts (sinsts r ++ [s]) r);;
  update (fun r => set_scache (<[s_addr s := p]> (scache r)) r);; mret p.
(** The successor of the last instruction, if it has the address. *)
Definition predicted (addr : Z) : R (option nat) :=
  o ← gets m_last_sinst;
  match o with
  | None => mret None
  | Some last =>
      l ← static last;
      match s_next l with
      | None => mret None
      | Some p => s ← static p; mret (if s_addr s =? addr then Some p else None)
      end
  end.
Definition remember (p : nat) : R unit :=
  o ← gets m_last_sinst;
  match o with
  | Some last =>
      l ← static last;
      when (bool_decide (s_next l = None)) (update (fun r => set_sinsts (<[last := set_next (Some p) l]> (sinsts r)) r))
  | None => mret tt
  end;;
  update (set_last_sinst (Some p)).
Definition getChampSimStaticInstruction (addr : Z) : R nat :=
  o ← predicted addr;
  c ← gets scache;
  p ← (match o, c !! addr with
       | Some p, _ => mret p
       | None, Some p => mret p
       | None, None => new_static (mkStatic addr 4 (replicate 16 (Some 0)) None)
       end);
  remember p;; mret p.
Definition getStaticInstruction (addr size : Z) : R nat :=
  f ← gets m_format;
  if bool_decide (f = ChampSim) then getChampSimStaticInstruction addr
  else
    o ← predicted addr;
    c ← gets scache;
    p ← (match o, c !! addr with
         | Some p, _ => mret p
         | None, Some p => s ← static p; assert (s_size s =? size);; mret p
         | None, None => s ← staticInfoInstruction addr size; new_static s
         end);
    remember p;; mret p.

(** ** Reading *)

Fixpoint read_code (fuel : nat) (address : Z) (size_left : nat) : R unit :=
  if (size_left =? 0)%nat then mret tt
  else
    match fuel with
    | O => fails Diverges
    | S fuel =>
        let base_addr := Z.land address ICACHE_PAGE_MASK in
        let offset := Z.to_nat (Z.land address ICACHE_OFFSET_MASK) in
        let n := Nat.min size_left (Z.to_nat ICACHE_SIZE - offset) in
        l ← read n;
        update (fun r =>
          let page := default (replicate (Z.to_nat ICACHE_SIZE) None) (icache r !! base_addr) in
          set_icache (<[base_addr := take offset page ++ l ++ drop (offset + n) page]> (icache r)) r);;
        read_code fuel (base_addr +64 ICACHE_SIZE) (size_left - n)
    end.

Definition call (o : option (H -> H)) : R unit :=
  match o with Some f => update (fun r => set_client (f (client r)) r) | None => mret tt end.
Definition call_value (f : H -> H * Z) : R Z :=
  h ← gets client; let '(h, v) := f h in update (set_client h);; mret v.
Definition call_handler {A} (f : H -> prog (H * A)) : R A :=
  h ← gets client; '(h, v) ← run_handler (f h); update (set_client h);; mret v.

(** What follows a record: the loop goes on, or [Read] returns. *)
Inductive next := Continue | Stop (result : bool).

Definition read_record (rec : OtherRec) : R next :=
  let t := other_type rec in
  let n := other_size rec in
  if t =? RecOtherEnd then assert (n =? 0);; update (set_seen_end true);; mret (Stop false)
  else if t =? RecOtherIcache then
    assert (n =? 8 + ICACHE_SIZE);;
    address ← read_value 8;
    l ← read (Z.to_nat ICACHE_SIZE);
    update (fun r => set_icache (<[address := l]> (icache r)) r);; mret Continue
  else if t =? RecOtherIcacheVariable then
    address ← read_value 8;
    if n <? 8 then fails Hangs else read_code (Z.to_nat (n - 8)) address (Z.to_nat (n - 8));; mret Continue
  else if t =? RecOtherLogical2Physical then
    assert (n =? 16);;
    vp ← read_value 8;
    pp ← read_value 8;
    update (fun r => set_vcache (<[vp := pp]> (vcache r)) r);; mret Continue
  else if t =? RecOtherInstructionCount then
    assert (n =? 4);;
    icount ← read_value 4;
    mode ← match handleInstructionCountFunc handlers with Some f => call_value (f icount) | None => mret ModeUnknown end;
    sendSimpleResponse RecOtherSyncResponse (le 4 mode);; mret Continue
  else if t =? RecOtherCacheOnly then
    assert (n =? 18);;
    icount ← read_value 1;
    type ← read_value 1;
    eip ← read_value 8;
    address ← read_value 8;
    call ((fun f => f icount type eip address) <$> handleCacheOnlyFunc handlers);; mret Continue
  else if t =? RecOtherOutput then
    assert (1 <? n);;
    fd ← read_value 1;
    l ← read_known (Z.to_nat (n - 1));
    call ((fun f => f fd l) <$> handleOutputFunc handlers);; mret Continue
  else if t =? RecOtherSyscallRequest then
    assert (2 <? n);;
    syscall_number ← read_value 2;
    l ← read_known (Z.to_nat (n - 2));
    match handleSyscallFunc handlers with
    | None => fails AssertFailed
    | Some f => ret ← call_handler (f syscall_number l); sendSyscallResponse ret;; mret Continue
    end
  else if t =? RecOtherNewThread then
    assert (n =? 0);;
    match handleNewThreadFunc handlers with
    | None => fails AssertFailed
    | Some f => ret ← call_value f; sendSimpleResponse RecOtherNewThreadResponse (le 4 ret);; mret Continue
    end
  else if t =? RecOtherJoin then
    assert (n =? 4);;
    thread ← read_value 4;
    match handleJoinFunc handlers with
    | None => fails AssertFailed
    | Some f => ret ← call_value (f thread); sendSimpleResponse RecOtherJoinResponse (le 4 ret);; mret Continue
    end
  else if t =? RecOtherSync then
    assert (n =? 0);;
    mode ← match handleInstructionCountFunc handlers with Some f => call_value (f 0) | None => mret ModeUnknown end;
    sendSimpleResponse RecOtherSyncResponse (le 4 mode);; mret Continue
  else if t =? RecOtherFork then
    assert (n =? 0);;
    match handleForkFunc handlers with
    | None => fails AssertFailed
    | Some f => ret ← call_value f; sendSimpleResponse RecOtherForkResponse (le 4 ret);; mret Continue
    end
  else if t =? RecOtherMagicInstruction then
    assert (n =? 24);;
    a ← read_value 8;
    b ← read_value 8;
    c ← read_value 8;
    result ← match handleMagicFunc handlers with Some f => call_handler (f a b c) | None => mret a end;
    if result =? 42 then mret (Stop true)
    else sendSimpleResponse RecOtherMagicInstructionResponse (le 8 result);; mret Continue
  else if t =? RecOtherEmu then
    assert (n <=? 2 + Z.of_nat sizeof_EmuRequest);;
    type ← read_value 2;
    if n <? 2 then fails OutOfBounds
    else
      req ← read_known (Z.to_nat (n - 2));
      '(result, res) ← match handleEmuFunc handlers with
        | Some f => call_handler (f type req (replicate sizeof_EmuReply 0))
        | None => mret (false, replicate sizeof_EmuReply 0)
        end;
      sendEmuResponse result res;; mret Continue
  else if t =? RecOtherRoutineChange then
    assert (n =? 25);;
    event ← read_value 1;
    eip ← read_value 8;
    esp ← read_value 8;
    callEip ← read_value 8;
    call ((fun f => f event eip esp callEip) <$> handleRoutineChangeFunc handlers);; mret Continue
  else if t =? RecOtherRoutineAnnounce then
    eip ← read_value 8;
    len_name ← read_value 2;
    name ← read_known (Z.to_nat len_name);
    len_imgname ← read_value 2;
    imgname ← read_known (Z.to_nat len_imgname);
    offset ← read_value 8;
    line ← read_value 4;
    column ← read_value 4;
    len_filename ← read_value 2;
    file_name ← read_known (Z.to_nat len_filename);
    call ((fun f => f eip name imgname offset line column file_name) <$> handleRoutineAnnounceFunc handlers);; mret Continue
  else if t =? RecOtherISAChange then
    assert (n =? 4);;
    new_isa ← read_value 4;
    update (set_isa new_isa);; mret Continue
  else read (Z.to_nat n);; mret Continue.

Fixpoint read_values (n : nat) : R (list Z) :=
  match n with O => mret [] | S n => a ← read_value 8; l ← read_values n; mret (a :: l) end.
(** The end of both encodings; the array of addresses has two elements. *)
Definition read_operands (addr size num_addresses : Z) (branch direction predicate executes : bool) : R Instruction :=
  update (fun r => set_last_address (last_address r +64 size) r);;
  lift (check (num_addresses <=? MAX_DYNAMIC_ADDRESSES) OutOfBounds);;
  l ← read_values (Z.to_nat num_addresses);
  p ← getStaticInstruction addr size;
  i ← gets m_isa;
  mret (mkInst (Some p) l branch direction predicate executes i false [] [] [] []).
Definition read_small : R Instruction :=
  v ← read_value 1;
  addr ← gets last_address;
  read_operands addr (field v 0 4) (field v 4 2) (flag v 6) (flag v 7) false true.
Definition read_ext : R Instruction :=
  v ← read_value 1;
  x ← read_value 1;
  addr ← read_value 8;
  update (set_last_address addr);;
  read_operands addr (field v 4 4) (field x 0 2) (flag x 2) (flag x 3) (flag x 4) (flag x 5).

(** Every round that goes on reads a record of six bytes at least. *)
Fixpoint read_loop (fuel : nat) (inst : Instruction) : R (bool * Instruction) :=
  seen_end ← gets m_seen_end;
  if seen_end : bool then mret (true, inst)
  else
    match fuel with
    | O => fails Diverges
    | S fuel =>
        b ← peek;
        f ← fail;
        if f : bool then mret (false, inst)
        else if b =? 0 then
          rec ← read_other;
          x ← read_record rec;
          match x with Continue => read_loop fuel inst | Stop result => mret (result, inst) end
        else if negb (field b 0 4 =? 0) then i ← read_small; mret (true, i)
        else i ← read_ext; mret (true, i)
    end.

(** A record of ChampSim: the address, two flags, registers and memory operands; those that are
    zero are absent. *)
Definition nonzero (l : list Z) : list Z := filter (fun x => x <> 0) l.
Definition words (l : list Z) (n : nat) : list Z := (fun i => of_le (take 8 (drop (8 * i) l))) <$> seq 0 n.
Definition readChampSim (inst : Instruction) : R (bool * Instruction) :=
  o ← gets m_champsim_stream;
  match o with
  | None => mret (false, inst)
  | Some l =>
      update (set_champsim_stream (Some (drop 64 l)));;
      if negb (length (take 64 l) =? 64)%nat then mret (false, inst)
      else
        let dests := nonzero (words (drop 16 l) 2) in
        let srcs := nonzero (words (drop 32 l) 4) in
        i ← gets m_isa;
        p ← getChampSimStaticInstruction (of_le (take 8 l));
        s ← static p;
        update (set_last_address (of_le (take 8 l) +64 s_size s));;
        mret (true, mkInst (Some p) (take (Z.to_nat MAX_DYNAMIC_ADDRESSES) (srcs ++ dests))
                (negb (nth 8 l 0 =? 0)) (negb (nth 9 l 0 =? 0)) false true i true srcs dests
                (nonzero (take 4 (drop 12 l))) (nonzero (take 2 (drop 10 l))))
  end.

Definition Read (inst : Instruction) : R (bool * Instruction) :=
  o ← gets input;
  c ← gets m_champsim_stream;
  ok ← (match o, c with None, None => initStream | _, _ => mret true end);
  if negb ok then mret (false, inst)
  else
    let inst := clear_champsim inst in
    f ← gets m_format;
    if bool_decide (f = ChampSim) then readChampSim inst
    else
      n ← gets (fun r => match input r with Some st => length (bytes st) | None => O end);
      read_loop (S n) inst.

Definition va2pa (va : Z) : R Z :=
  b ← gets m_trace_has_pa;
  if b : bool then
    c ← gets vcache;
    match c !! (va / PAGE_SIZE_SIFT) with
    | None => mret 0
    | Some pp => mret (Z.lor (pp *64 PAGE_SIZE_SIFT) (Z.land va (PAGE_SIZE_SIFT - 1)))
    end
  else mret va.
End reader.
Arguments Handlers : clear implicits.
Arguments Reader : clear implicits.
