(* ===== verification/SiftProps.v ===== *)
(** * What the reader makes of bytes

    The operations of the reader on a stream that starts with known bytes: values, records, the
    code of instructions and the static instructions that are made of it; and the operations
    that leave the stream alone. *)

From stdpp Require Import base tactics list numbers gmap strings.
From Stdlib Require Import ZArith Lia.
From S2P Require Import Prelude SiftFormat SiftReader.
Local Open Scope Z_scope.
Local Open Scope mach_scope.

(** ** Values in bytes *)

Lemma of_le_wrap n v : of_le (le n v) = wrap (8 * Z.of_nat n) v.
Proof.
  unfold wrap. revert v. induction n as [|n IH]; intros v; cbn [le of_le]; [by rewrite Z.mod_1_r|].
  rewrite IH. replace (8 * Z.of_nat (S n)) with (8 + 8 * Z.of_nat n) by lia. rewrite Z.pow_add_r by lia. change (2 ^ 8) with 256.
  rewrite Z.rem_mul_r by lia. lia.
Qed.
Lemma known_some {A} (l : list A) : known (Some <$> l) = Ok l.
Proof. unfold known. assert (mapM id (Some <$> l) = Some l) as ->; [|done]. induction l as [|x l IH]; [done|]. cbn. change (fmap Some l) with (Some <$> l). by rewrite IH. Qed.

(** ** The reader *)

Section reading.
Context {H : Type} (handlers : Handlers H) (inflate : list Z -> list Z) (decompress : compression -> list Z -> list Z) (has_lzma : bool).
Implicit Types (r : Reader H).

(** The reader before the given bytes. *)
Definition feed (l : list Z) r : Reader H := set_input (Some (mkStream l false false false)) r.

Lemma read_run l rest r : read (length l) (feed (l ++ rest) r) = Ok (Some <$> l, feed rest r).
Proof.
  unfold read, stream. erewrite bind_ok by (erewrite bind_ok by done; done). cbn. unfold stream_read. cbn.
  rewrite length_app, (proj2 (Nat.leb_le _ _)) by lia. by rewrite take_app_length, drop_app_length.
Qed.
Lemma read_run_n n l rest r : length l = n -> read n (feed (l ++ rest) r) = Ok (Some <$> l, feed rest r).
Proof. intros <-. apply read_run. Qed.
Lemma read_known_run n l rest r : length l = n -> read_known n (feed (l ++ rest) r) = Ok (l, feed rest r).
Proof. intros <-. unfold read_known. rewrite (bind_ok _ _ _ _ _ (read_run l rest r)). unfold lift. by rewrite known_some. Qed.
Lemma read_value_run n v rest r : read_value n (feed (le n v ++ rest) r) = Ok (wrap (8 * Z.of_nat n) v, feed rest r).
Proof. unfold read_value. rewrite (bind_ok _ _ _ _ _ (read_known_run n _ rest r (length_le n v))). by rewrite <- of_le_wrap. Qed.
Lemma read_byte_run v rest r : read_value 1 (feed (v :: rest) r) = Ok (v, feed rest r).
Proof. unfold read_value. rewrite (bind_ok _ _ _ _ _ (read_known_run 1 [v] rest r eq_refl)). unfold mret, proc_ret. cbn [of_le]. by rewrite Z.mul_0_r, Z.add_0_r. Qed.
Lemma read_other_run t n rest r : 0 <= t < 256 -> 0 <= n < 2 ^ 32 -> read_other (feed (Other t n ++ rest) r) = Ok (mkOther 0 t n, feed rest r).
Proof.
  intros Ht Hn. unfold read_other. rewrite (bind_ok _ _ _ _ _ (read_known_run 6 (Other t n) rest r eq_refl)). by rewrite parse_Other.
Qed.
Lemma peek_run b rest r : peek (feed (b :: rest) r) = Ok (b, feed (b :: rest) r).
Proof. done. Qed.
Lemma fail_run l r : fail (feed l r) = Ok (false, feed l r).
Proof. done. Qed.
Lemma send_run l r : send l r = Ok (tt, set_response (response r ++ l) r).
Proof. done. Qed.

(** *** Records *)

Abbreviation loop := (read_loop handlers inflate decompress has_lzma).
(** The loop of [Read] passes over the bytes, and changes the reader. *)
Definition consumes (B : list Z) r r' : Prop := forall rest fuel inst, (length (B ++ rest) < fuel)%nat ->
  exists fuel', (length rest < fuel')%nat /\ loop fuel inst (feed (B ++ rest) r) = loop fuel' inst (feed rest r').
(** [Read] returns an instruction. *)
Definition yields (B : list Z) r (i : Instruction) r' : Prop := forall rest fuel inst, (length (B ++ rest) < fuel)%nat ->
  loop fuel inst (feed (B ++ rest) r) = Ok ((true, i), feed rest r').

Lemma consumes_nil r : consumes [] r r.
Proof. intros rest fuel inst Hf. exists fuel. by split. Qed.
Lemma consumes_app B1 B2 r1 r2 r3 : consumes B1 r1 r2 -> consumes B2 r2 r3 -> consumes (B1 ++ B2) r1 r3.
Proof.
  intros H1 H2 rest fuel inst Hf. rewrite <- app_assoc in *. destruct (H1 (B2 ++ rest) fuel inst Hf) as (f1 & Hf1 & ->).
  destruct (H2 rest f1 inst Hf1) as (f2 & Hf2 & ->). eauto.
Qed.
Lemma consumes_yields B1 B2 r1 r2 i r3 : consumes B1 r1 r2 -> yields B2 r2 i r3 -> yields (B1 ++ B2) r1 i r3.
Proof.
  intros H1 H2 rest fuel inst Hf. rewrite <- app_assoc in *. destruct (H1 (B2 ++ rest) fuel inst Hf) as (f1 & Hf1 & ->). by apply H2.
Qed.

(** A record that is read as a whole. *)
Lemma consumes_record t n body r r' :
  0 <= t < 256 -> 0 <= n < 2 ^ 32 -> m_seen_end r = false ->
  (forall rest, read_record handlers inflate decompress has_lzma (mkOther 0 t n) (feed (body ++ rest) r) = Ok (Continue, feed rest r')) ->
  consumes (Other t n ++ body) r r'.
Proof.
  intros Ht Hn He Hr rest fuel inst Hf. destruct fuel as [|fuel]; [lia|]. exists fuel. split; [rewrite <- app_assoc, length_app, length_app in Hf; cbn in Hf; lia|].
  cbn [read_loop]. rewrite bind_gets. change (m_seen_end (feed _ r)) with (m_seen_end r). rewrite He. cbv iota.
  change ((Other t n ++ body) ++ rest) with (Other t n ++ (body ++ rest)). rewrite (bind_ok _ _ _ 0 (feed (Other t n ++ body ++ rest) r)) by done.
  erewrite bind_ok by apply fail_run. change (0 =? 0) with true. cbv iota.
  erewrite bind_ok by by apply read_other_run. by erewrite bind_ok by apply Hr.
Qed.
End reading.

(** ** The code of the program *)

(** A page has 4096 bytes. *)
Abbreviation page_bytes := (Z.to_nat ICACHE_SIZE).
Lemma page_bytes_eq : Z.of_nat page_bytes = 4096.
Proof. done. Qed.

Section code.
Context (code : Z -> Z).

(** The reader knows the byte of the code at an address. *)
Definition byte_known (c : gmap Z (list (option Z))) (a : Z) : Prop :=
  exists page, c !! (a - a `mod` 4096) = Some page /\ page !! Z.to_nat (a `mod` 4096) = Some (Some (code a)).
Definition pages_whole (c : gmap Z (list (option Z))) : Prop := map_Forall (fun _ page => length page = page_bytes) c.
Definition code_bytes (a : Z) (n : nat) : list Z := (fun i => code (a + Z.of_nat i)) <$> seq 0 n.

Lemma length_code a n : length (code_bytes a n) = n.
Proof. unfold code_bytes. by rewrite length_fmap, length_seq. Qed.
Lemma lookup_code a n i : (i < n)%nat -> code_bytes a n !! i = Some (code (a + Z.of_nat i)).
Proof. intros Hi. unfold code_bytes. by rewrite list_lookup_fmap, lookup_seq_lt. Qed.
Lemma code_split a n k : (k <= n)%nat -> code_bytes a n = code_bytes a k ++ code_bytes (a + Z.of_nat k) (n - k).
Proof.
  intros Hk. apply list_eq. intros i. destruct (decide (i < n)%nat) as [Hi|Hi].
  - rewrite lookup_code by done. destruct (decide (i < k)%nat).
    + by rewrite lookup_app_l, lookup_code by (rewrite ?length_code; lia).
    + rewrite lookup_app_r, length_code, lookup_code by (rewrite ?length_code; lia). do 2 f_equal. lia.
  - rewrite !lookup_ge_None_2; [done|..]; rewrite ?length_app, ?length_code; lia.
Qed.
(** An address in the page that starts at [base]. *)
Lemma in_page base o : base `mod` 4096 = 0 -> 0 <= o < 4096 -> (base + o) - (base + o) `mod` 4096 = base /\ (base + o) `mod` 4096 = o.
Proof.
  intros Hb Ho. assert (E : (base + o) `mod` 4096 = o) by (rewrite Zplus_mod, Hb, Z.add_0_l, Z.mod_mod, Z.mod_small; lia). lia.
Qed.
Lemma known_in_page c base o : base `mod` 4096 = 0 -> 0 <= o < 4096 ->
  byte_known c (base + o) <-> exists page, c !! base = Some page /\ page !! Z.to_nat o = Some (Some (code (base + o))).
Proof. intros Hb Ho. unfold byte_known. destruct (in_page base o Hb Ho) as [-> ->]. done. Qed.

(** The copy of an instruction out of the pages. *)
Lemma copy_code_ok fuel c base off n :
  (n <= fuel)%nat -> base `mod` 4096 = 0 -> 0 <= base -> (off < page_bytes)%nat -> base + Z.of_nat off + Z.of_nat n <= 2 ^ 64 ->
  (forall i, (i < n)%nat -> byte_known c (base + Z.of_nat off + Z.of_nat i)) ->
  copy_code fuel c base off n = Ok (Some <$> code_bytes (base + Z.of_nat off) n).
Proof.
  pose proof page_bytes_eq as Hpb.
  revert base off n. induction fuel as [|fuel IH]; intros base off n Hn Hb Hpos Hoff Hmax Hk; [by destruct n; [|lia]|].
  cbn [copy_code]. destruct (Nat.eqb_spec n 0) as [->|Hn0]; [done|].  set (k := Nat.min n (page_bytes - off)).
  assert (Hpage : exists page, c !! base = Some page).
  { specialize (Hk 0%nat ltac:(lia)). rewrite Z.add_0_r in Hk. apply known_in_page in Hk as (page & H & _); [eauto|done|lia]. }
  destruct Hpage as [page Hpage]. rewrite Hpage.
  assert (Hcopy : take k (drop off page) = Some <$> code_bytes (base + Z.of_nat off) k).
  { assert (Hcell : forall i, (i < k)%nat -> page !! (off + i)%nat = Some (Some (code (base + Z.of_nat off + Z.of_nat i)))).
    { intros i Hi. specialize (Hk i ltac:(lia)). rewrite <- Z.add_assoc in Hk. apply known_in_page in Hk as (page' & H & H'); [|done|lia].
      rewrite Hpage in H. injection H as <-. rewrite <- Z.add_assoc, <- H'. f_equal. lia. }
    apply list_eq. intros i. rewrite list_lookup_fmap. destruct (decide (i < k)%nat) as [Hi|Hi].
    - by rewrite lookup_take_lt, lookup_drop, lookup_code, Hcell.
    - rewrite lookup_take_ge by lia. by rewrite lookup_ge_None_2 by (rewrite length_code; lia). }
  rewrite Hcopy. destruct (decide (n - k = 0)%nat) as [E|E].
  - rewrite E. assert (copy_code fuel c (base +64 ICACHE_SIZE) 0 0 = Ok []) as -> by by destruct fuel.
    cbn. rewrite app_nil_r. do 3 f_equal. lia.
  - rewrite wrap_small by (unfold in_range, ICACHE_SIZE; lia). rewrite (IH (base + ICACHE_SIZE) 0%nat (n - k)%nat).
    + cbn. rewrite <- fmap_app. rewrite (code_split _ n k) by lia. do 4 f_equal. unfold ICACHE_SIZE. lia.
    + lia.
    + unfold ICACHE_SIZE. rewrite Zplus_mod, Hb. done.
    + unfold ICACHE_SIZE. lia.
    + lia.
    + unfold ICACHE_SIZE. lia.
    + intros i Hi. specialize (Hk (k + i)%nat ltac:(lia)). replace (base + ICACHE_SIZE + Z.of_nat 0 + Z.of_nat i) with (base + Z.of_nat off + Z.of_nat (k + i)); [done|].
      unfold ICACHE_SIZE. lia.
Qed.

(** Bytes that are stored in a page, or a whole page, are known, and so is what was known. *)
Definition learns (c c' : gmap Z (list (option Z))) (a : Z) (n : nat) : Prop :=
  pages_whole c' /\ (forall x, byte_known c x -> byte_known c' x) /\ (forall i, (i < n)%nat -> byte_known c' (a + Z.of_nat i)).
Lemma store_learns c base off n : pages_whole c -> base `mod` 4096 = 0 -> (off + n <= page_bytes)%nat ->
  let page := default (replicate page_bytes None) (c !! base) in
  learns c (<[base := take off page ++ (Some <$> code_bytes (base + Z.of_nat off) n) ++ drop (off + n) page]> c) (base + Z.of_nat off) n.
Proof.
  pose proof page_bytes_eq as Hpb. intros Hw Hb Hn page. assert (Hl : length page = page_bytes).
  { unfold page. destruct (c !! base) as [p|] eqn:E; cbn [default from_option]; [by apply (Hw base)|apply length_replicate]. }
  set (new := take off page ++ _ ++ _). assert (Hnew : length new = page_bytes).
  { unfold new. rewrite !length_app, length_fmap, length_code, length_take, length_drop. lia. }
  assert (Hin : forall i, (i < n)%nat -> new !! (off + i)%nat = Some (Some (code (base + Z.of_nat off + Z.of_nat i)))).
  { intros i Hi. unfold new. rewrite lookup_app_r, length_take by (rewrite length_take; lia). rewrite lookup_app_l by (rewrite length_fmap, length_code; lia).
    rewrite list_lookup_fmap, lookup_code by lia. cbn. do 4 f_equal. lia. }
  split_and!.
  - apply map_Forall_insert_2; done.
  - intros x (p & Hp & Hx). unfold byte_known. destruct (decide (base = x - x `mod` 4096)) as [E|E].
    + rewrite <- E, lookup_insert_eq. exists new. split; [done|]. rewrite <- E in Hp.
      set (o := Z.to_nat (x `mod` 4096)) in *. pose proof (Z.mod_pos_bound x 4096 ltac:(lia)) as Ho.
      assert (Hp' : page = p) by (unfold page; by rewrite Hp).
      destruct (decide (o < off)%nat); [|destruct (decide (o < off + n)%nat)].
      * unfold new. rewrite lookup_app_l by (rewrite length_take; lia). rewrite lookup_take_lt by done. by rewrite Hp'.
      * replace o with (off + (o - off))%nat by lia. rewrite Hin by lia. do 3 f_equal. lia.
      * unfold new. rewrite lookup_app_r, lookup_app_r; rewrite ?length_fmap, ?length_code, ?length_take; [|lia|lia].
        rewrite lookup_drop, <- Hx, <- Hp'. f_equal. lia.
    + exists p. by rewrite lookup_insert_ne.
  - intros i Hi. rewrite <- Z.add_assoc. apply known_in_page; [done|lia|]. exists new. rewrite lookup_insert_eq. split; [done|].
    rewrite Z.add_assoc, <- (Hin i Hi). f_equal. lia.
Qed.
Lemma page_learns c base : pages_whole c -> base `mod` 4096 = 0 -> learns c (<[base := Some <$> code_bytes base page_bytes]> c) base page_bytes.
Proof.
  pose proof page_bytes_eq as Hpb. intros Hw Hb. pose proof (store_learns c base 0 page_bytes Hw Hb ltac:(lia)) as H. cbv zeta in H. change (Z.of_nat 0) with 0 in H. rewrite Z.add_0_r in H.
  set (page := default _ _) in H. assert (Hl : length page = page_bytes).
  { unfold page. destruct (c !! base) as [p|] eqn:E; cbn [default from_option]; [by apply (Hw base)|apply length_replicate]. }
  rewrite take_0, drop_ge in H by lia. by rewrite app_nil_l, app_nil_r in H.
Qed.
Lemma learns_trans c c1 c2 a n k : (k <= n)%nat -> learns c c1 a k -> learns c1 c2 (a + Z.of_nat k) (n - k) -> learns c c2 a n.
Proof.
  intros Hk (H1 & H2 & H3) (H4 & H5 & H6). split_and!; [done|auto|]. intros i Hi. destruct (decide (i < k)%nat); [by apply H5, H3|].
  replace (a + Z.of_nat i) with (a + Z.of_nat k + Z.of_nat (i - k)) by lia. apply H6. lia.
Qed.
End code.

Section instructions.
Context {H : Type} (code : Z -> Z) (isize : Z -> nat).
Implicit Types (r : Reader H).

(** The bytes of an instruction are stored over at most two pages. *)
Lemma read_code_ok fuel addr n r :
  (n <= fuel)%nat -> 0 <= addr -> addr + Z.of_nat n <= 2 ^ 64 -> pages_whole (icache r) ->
  exists c, (forall rest, read_code fuel addr n (feed (code_bytes code addr n ++ rest) r) = Ok (tt, feed rest (set_icache c r))) /\ learns code (icache r) c addr n.
Proof.
  pose proof page_bytes_eq as Hpb. revert addr n r. induction fuel as [|fuel IH]; intros addr n r Hn Hpos Hmax Hw.
  { assert (n = 0%nat) as -> by lia. exists (icache r). split; [by destruct r|]. split_and!; [done|done|lia]. }
  cbn [read_code]. destruct (Nat.eqb_spec n 0) as [->|Hn0].
  { exists (icache r). split; [by destruct r|]. split_and!; [done|done|lia]. }
  assert (Hr : in_range 64 addr) by (unfold in_range; lia). change ICACHE_PAGE_MASK with (2 ^ 64 - 4096). change ICACHE_OFFSET_MASK with (2 ^ 12 - 1).
  rewrite page_mask by done. rewrite land_pow2_pred by lia. change (2 ^ 12) with 4096.
  pose proof (Z.mod_pos_bound addr 4096 ltac:(lia)) as Ho. set (off := Z.to_nat (addr `mod` 4096)). set (base := addr - addr `mod` 4096).
  assert (Hb : base `mod` 4096 = 0) by (unfold base; rewrite Zminus_mod_idemp_r, Z.sub_diag; done).
  set (k := Nat.min n (page_bytes - off)).
  set (r1 := set_icache (<[base := take off (default (replicate page_bytes None) (icache r !! base)) ++ (Some <$> code_bytes code addr k) ++
    drop (off + k) (default (replicate page_bytes None) (icache r !! base))]> (icache r)) r).
  assert (H1 : learns code (icache r) (icache r1) addr k).
  { unfold r1. cbn [icache set_icache]. pose proof (store_learns code (icache r) base off k Hw Hb ltac:(lia)) as HL. cbv zeta in HL.
    replace (base + Z.of_nat off) with addr in HL by lia. exact HL. }
  assert (Hstep : forall c, (forall rest, read_code fuel (base +64 ICACHE_SIZE) (n - k) (feed (code_bytes code (addr + Z.of_nat k) (n - k) ++ rest) r1) = Ok (tt, feed rest (set_icache c r1))) ->
    learns code (icache r1) c (addr + Z.of_nat k) (n - k) -> exists c, (forall rest, (l ← read k;
      update (fun r => set_icache (<[base := take off (default (replicate page_bytes None) (icache r !! base)) ++ l ++ drop (off + k) (default (replicate page_bytes None) (icache r !! base))]> (icache r)) r);;
      read_code fuel (base +64 ICACHE_SIZE) (n - k)) (feed (code_bytes code addr n ++ rest) r) = Ok (tt, feed rest (set_icache c r))) /\ learns code (icache r) c addr n).
  { intros c Ec Hc. exists c. split; [|eapply (learns_trans _ _ (icache r1) _ _ _ k); [lia|done|done]]. intros rest. rewrite (code_split code addr n k), <- app_assoc by lia.
    rewrite (bind_ok _ _ _ _ _ (read_run_n k _ _ r (length_code code addr k))), bind_update. exact (Ec rest). }
  destruct (decide (n - k = 0)%nat) as [E|E].
  - apply (Hstep (icache r1)); rewrite E; [by destruct fuel|]. split_and!; [apply H1|done|lia].
  - assert (Ew : base +64 ICACHE_SIZE = addr + Z.of_nat k) by (unfold ICACHE_SIZE; rewrite wrap_small by (unfold in_range; lia); lia).
    destruct (IH (addr + Z.of_nat k) (n - k)%nat r1) as (c & Ec & Hc); [lia|lia|lia|apply H1|]. apply (Hstep c); [by rewrite Ew|done].
Qed.

(** ** Static instructions *)

Record good (s : StaticInstruction) : Prop := {
  gd_size : s_size s = Z.of_nat (isize (s_addr s));
  gd_data : s_data s = (Some <$> code_bytes code (s_addr s) (isize (s_addr s))) ++ replicate (16 - isize (s_addr s)) (Some 0)
}.
Record statics_ok r : Prop := {
  so_good p s : sinsts r !! p = Some s -> good s /\ forall q, s_next s = Some q -> (q < length (sinsts r))%nat;
  so_cache a p : scache r !! a = Some p -> exists s, sinsts r !! p = Some s /\ s_addr s = a;
  so_last p : m_last_sinst r = Some p -> (p < length (sinsts r))%nat
}.
Lemma statics_eq r r' : sinsts r' = sinsts r -> scache r' = scache r -> m_last_sinst r' = m_last_sinst r -> statics_ok r -> statics_ok r'.
Proof. intros E1 E2 E3 []. split; rewrite ?E1, ?E2, ?E3; done. Qed.
(** What the search for a static instruction may change. *)
Definition with_statics (l : list StaticInstruction) (c : gmap Z nat) (p : option nat) r : Reader H :=
  set_last_sinst p (set_scache c (set_sinsts l r)).

Lemma static_run p s r : sinsts r !! p = Some s -> static p r = Ok (s, r).
Proof. intros Hp. unfold static. rewrite bind_gets. unfold lift, rd. by rewrite Hp. Qed.
Lemma predicted_ok addr r : statics_ok r ->
  exists o, predicted addr r = Ok (o, r) /\ forall p, o = Some p -> exists s, sinsts r !! p = Some s /\ s_addr s = addr.
Proof.
  intros [Hg Hc Hl]. unfold predicted. rewrite bind_gets. destruct (m_last_sinst r) as [last|] eqn:El; [|by exists None].
  destruct (lookup_lt_is_Some_2 _ _ (Hl last eq_refl)) as [l Hlast]. rewrite (bind_ok _ _ _ _ _ (static_run _ _ _ Hlast)).
  destruct (s_next l) as [p|] eqn:En; [|by exists None]. destruct (Hg _ _ Hlast) as [_ Hn]. destruct (lookup_lt_is_Some_2 _ _ (Hn p En)) as [s Hs].
  rewrite (bind_ok _ _ _ _ _ (static_run _ _ _ Hs)). destruct (Z.eqb_spec (s_addr s) addr) as [E|E]; [|by exists None].
  exists (Some p). split; [done|]. intros q [= <-]. eauto.
Qed.
Lemma remember_ok p s r : statics_ok r -> sinsts r !! p = Some s ->
  exists l, remember p r = Ok (tt, with_statics l (scache r) (Some p) r) /\ statics_ok (with_statics l (scache r) (Some p) r) /\
    exists s', l !! p = Some s' /\ s_addr s' = s_addr s /\ good s'.
Proof.
  intros [Hg Hc Hl] Hp. unfold remember. rewrite bind_gets. pose proof (lookup_lt_Some _ _ _ Hp) as Hlt.
  assert (Hskip : forall m : Proc (Reader H) unit, m r = Ok (tt, r) -> exists l, (m ≫= fun _ => update (set_last_sinst (Some p))) r = Ok (tt, with_statics l (scache r) (Some p) r) /\
    statics_ok (with_statics l (scache r) (Some p) r) /\ exists s', l !! p = Some s' /\ s_addr s' = s_addr s /\ good s').
  { intros m Em. exists (sinsts r). rewrite (bind_ok _ _ _ _ _ Em). split; [by destruct r|]. split; [|exists s; split_and!; [done|done|by apply (Hg p)]].
    split; [exact Hg|exact Hc|]. intros q [= <-]. exact Hlt. }
  destruct (m_last_sinst r) as [last|] eqn:El; [|by apply Hskip].
  destruct (lookup_lt_is_Some_2 _ _ (Hl last eq_refl)) as [x Hx]. destruct (bool_decide (s_next x = None)) eqn:En.
  2: { apply Hskip. rewrite (bind_ok _ _ _ _ _ (static_run _ _ _ Hx)). by rewrite En. }
  rewrite bind_assoc, (bind_ok _ _ _ _ _ (static_run _ _ _ Hx)), En. exists (<[last := set_next (Some p) x]> (sinsts r)). split; [done|].
  assert (Hgood : forall q y, <[last := set_next (Some p) x]> (sinsts r) !! q = Some y -> exists y0, sinsts r !! q = Some y0 /\ s_addr y0 = s_addr y /\ good y /\
    forall n, s_next y = Some n -> (n < length (sinsts r))%nat).
  { intros q y [(<- & <- & _)|[_ Hq]]%list_lookup_insert_Some.
    - exists x. destruct (Hg _ _ Hx) as [[G1 G2] _]. split_and!; [done|done|by split|by intros n [= <-]].
    - exists y. destruct (Hg _ _ Hq). by split_and!. }
  split.
  - split; cbn.
    + intros q y Hq. destruct (Hgood _ _ Hq) as (y0 & _ & _ & G & N). rewrite length_insert. by split.
    + intros a q Hq. destruct (Hc _ _ Hq) as (y & Hy & Ea). destruct (decide (q = last)) as [->|Hne].
      * exists (set_next (Some p) x). rewrite list_lookup_insert_eq by by apply lookup_lt_Some in Hx. split; [done|]. rewrite Hx in Hy. by injection Hy as <-.
      * exists y. by rewrite list_lookup_insert_ne.
    + intros q [= <-]. by rewrite length_insert.
  - destruct (lookup_lt_is_Some_2 (<[last := set_next (Some p) x]> (sinsts r)) p) as [s' Hs']; [by rewrite length_insert|].
    destruct (Hgood _ _ Hs') as (y0 & Hy & Ea & G & _). exists s'. rewrite Hp in Hy. injection Hy as ->. by split_and!.
Qed.
Lemma new_static_ok s r : statics_ok r -> good s -> s_next s = None ->
  let r' := set_scache (<[s_addr s := length (sinsts r)]> (scache r)) (set_sinsts (sinsts r ++ [s]) r) in
  new_static s r = Ok (length (sinsts r), r') /\ statics_ok r' /\ sinsts r' !! length (sinsts r) = Some s.
Proof.
  intros [Hg Hc Hl] Hs Hn r'. split; [done|]. assert (Hlast : sinsts r' !! length (sinsts r) = Some s) by by apply list_lookup_middle.
  split; [|done]. split; cbn; rewrite ?length_app; cbn.
  - intros p y [Hp|(Hle & Hp)]%lookup_app_Some.
    + destruct (Hg _ _ Hp) as [G N]. split; [done|]. intros q Hq. specialize (N q Hq). lia.
    + apply list_lookup_singleton_Some in Hp as [_ <-]. split; [done|]. intros q. by rewrite Hn.
  - intros a p. destruct (decide (a = s_addr s)) as [->|Hne].
    + rewrite lookup_insert_eq. intros [= <-]. by exists s.
    + rewrite lookup_insert_ne by done. intros Hp. destruct (Hc _ _ Hp) as (y & Hy & Ea). exists y. split; [|done]. by apply lookup_app_l_Some.
  - intros p Hp. specialize (Hl p Hp). lia.
Qed.

(** The instruction at an address whose code is known. *)
Lemma getStatic_ok addr r :
  m_format r = Sift -> statics_ok r -> 0 <= addr -> (0 < isize addr < 16)%nat -> addr + Z.of_nat (isize addr) <= 2 ^ 64 ->
  (forall i, (i < isize addr)%nat -> byte_known code (icache r) (addr + Z.of_nat i)) ->
  exists p l c s, getStaticInstruction addr (Z.of_nat (isize addr)) r = Ok (p, with_statics l c (Some p) r) /\ statics_ok (with_statics l c (Some p) r) /\
    l !! p = Some s /\ s_addr s = addr /\ good s.
Proof.
  pose proof page_bytes_eq as Hpb. intros Hf Hs Hpos Hsz Hmax Hk. unfold getStaticInstruction. rewrite bind_gets, Hf. cbv beta. rewrite bool_decide_eq_false_2 by done.
  destruct (predicted_ok addr r Hs) as (o & Eo & Ho). rewrite (bind_ok _ _ _ _ _ Eo), bind_gets.
  assert (Hend : forall p s, sinsts r !! p = Some s -> s_addr s = addr ->
    exists l c s', (remember p ≫= fun _ => mret p) r = Ok (p, with_statics l c (Some p) r) /\ statics_ok (with_statics l c (Some p) r) /\ l !! p = Some s' /\ s_addr s' = addr /\ good s').
  { intros p s Hp Ea. destruct (remember_ok p s r Hs Hp) as (l & E & Hok & s' & H1 & H2 & H3). exists l, (scache r), s'. rewrite (bind_ok _ _ _ _ _ E).
    split_and!; [done|done|done|congruence|done]. }
  destruct o as [p|].
  { destruct (Ho p eq_refl) as (s & Hp & Ea). rewrite bind_ret. exists p. by apply (Hend p s). }
  destruct (scache r !! addr) as [p|] eqn:Ec.
  { destruct (so_cache _ Hs _ _ Ec) as (s & Hp & Ea). rewrite bind_assoc, (bind_ok _ _ _ _ _ (static_run _ _ _ Hp)), bind_assoc.
    rewrite bind_assert, bind_ret; [exists p; by apply (Hend p s)|]. apply Z.eqb_eq. rewrite (gd_size s); [by rewrite Ea|]. by apply (so_good _ Hs p). }
  set (s := mkStatic addr (Z.of_nat (isize addr)) ((Some <$> code_bytes code addr (isize addr)) ++ replicate (16 - isize addr) (Some 0)) None).
  assert (Es : staticInfoInstruction addr (Z.of_nat (isize addr)) r = Ok (s, r)).
  { unfold staticInfoInstruction. rewrite bind_gets. assert (Hr : in_range 64 addr) by (unfold in_range; lia). change ICACHE_PAGE_MASK with (2 ^ 64 - 4096). change ICACHE_OFFSET_MASK with (2 ^ 12 - 1).
    rewrite page_mask by done. rewrite land_pow2_pred by lia. change (2 ^ 12) with 4096.
    pose proof (Z.mod_pos_bound addr 4096 ltac:(lia)) as Hmod. rewrite Nat2Z.id.
    assert (Ec' : copy_code (isize addr) (icache r) (addr - addr `mod` 4096) (Z.to_nat (addr `mod` 4096)) (isize addr) = Ok (Some <$> code_bytes code addr (isize addr))).
    { assert (Ea : addr - addr `mod` 4096 + Z.of_nat (Z.to_nat (addr `mod` 4096)) = addr) by lia.
      pose proof (copy_code_ok code (isize addr) (icache r) (addr - addr `mod` 4096) (Z.to_nat (addr `mod` 4096)) (isize addr)) as HC. rewrite Ea in HC.
      pose proof (Z.mod_le addr 4096 ltac:(lia) ltac:(lia)). apply HC; [lia|by rewrite Zminus_mod_idemp_r, Z.sub_diag|lia|lia|lia|done]. }
    rewrite Ec'. erewrite bind_ok by done. rewrite length_fmap, length_code. rewrite (proj2 (Nat.leb_le (isize addr) 16)) by lia. done. }
  destruct (new_static_ok s r Hs) as (E1 & Hs1 & Hp1); [by split|done|]. rewrite bind_assoc, (bind_ok _ _ _ _ _ Es), (bind_ok _ _ _ _ _ E1).
  destruct (remember_ok _ s _ Hs1 Hp1) as (l & E & Hok & s' & H1 & H2 & H3). rewrite (bind_ok _ _ _ _ _ E).
  exists (length (sinsts r)), l, (<[addr := length (sinsts r)]> (scache r)), s'. by split_and!.
Qed.
End instructions.

(** ** Operations that do not use the stream *)

Section framed.
Context {H : Type}.
Implicit Types (r : Reader H).
Definition framed {A} (m : Proc (Reader H) A) : Prop := forall st r,
  m (set_input st r) = match m r with Ok (a, r') => Ok (a, set_input st r') | Err f => Err f end.
Lemma framed_bind {A B} (m : Proc (Reader H) A) (k : A -> Proc (Reader H) B) : framed m -> (forall a, framed (k a)) -> framed (m ≫= k).
Proof. intros Hm Hk st r. unfold mbind, proc_bind. rewrite Hm. destruct (m r) as [[a r']|]; [apply Hk|done]. Qed.
Lemma framed_gets {A} (f : Reader H -> A) : (forall st r, f (set_input st r) = f r) -> framed (gets f).
Proof. intros Hf st r. unfold gets. by rewrite Hf. Qed.
Lemma framed_update (f : Reader H -> Reader H) : (forall st r, f (set_input st r) = set_input st (f r)) -> framed (update f).
Proof. intros Hf st r. unfold update. by rewrite Hf. Qed.
Lemma framed_ret {A} (a : A) : framed (mret a).
Proof. done. Qed.
Lemma framed_lift {A} (x : res A) : framed (lift x).
Proof. intros st r. unfold lift. by destruct x. Qed.
Lemma framed_getStatic addr size : framed (getStaticInstruction addr size).
Proof.
  unfold getStaticInstruction, getChampSimStaticInstruction, predicted, remember, new_static, staticInfoInstruction, static, assert, when.
  repeat first [apply framed_bind; [|intros ?] | apply framed_gets; done | apply framed_update; done | apply framed_ret | apply framed_lift
    | match goal with |- framed (if ?b then _ else _) => destruct b | |- framed (match ?x with _ => _ end) => destruct x end].
Qed.
Lemma framed_run {A} (m : Proc (Reader H) A) st r a r' : framed m -> m r = Ok (a, r') -> m (set_input st r) = Ok (a, set_input st r').
Proof. intros Hm E. by rewrite Hm, E. Qed.
End framed.
