(* ===== verification/SiftSpec.v ===== *)
(** * Direct calls

    The specification of a SIFT connection: the program calls the handlers of the simulator and
    the simulator accesses the memory of the program, without anything in between; and what a
    connection can carry. *)

From stdpp Require Import base tactics list numbers gmap strings.
From Stdlib Require Import ZArith Lia.
From S2P Require Import Prelude SiftFormat SiftWriter SiftReader.
From S2P Require Import SiftProps.
Local Open Scope Z_scope.
Local Open Scope mach_scope.

(** ** Requests *)

(** The operations of the writer, and what they return. *)
Inductive request :=
| RInstruction (addr : Z) (size : nat) (addrs : list Z) (branch direction predicate executes : bool)
| RInstructionCount (icount : Z)
| RCacheOnly (icount type eip address : Z)
| ROutput (fd : Z) (data : list Z)
| RNewThread
| RSyscall (number : Z) (data : list Z)
| RJoin (thread : Z)
| RSync
| RFork
| RMagic (a b c : Z)
| REmulate (type : Z) (req res : list Z)
| RRoutineChange (event eip esp callEip : Z)
| RRoutineAnnounce (eip : Z) (name imgname : list Z) (offset line column : Z) (filename : list Z)
| RISAChange (new_isa : Z).
Inductive outcome := Done | Value (v : Z) | Emulated (handled : bool) (reply : list Z).

(** An instruction as the simulator sees it: its address and code, its operands, and the
    physical addresses of all of these. *)
Record seen := mkSeen {
  seen_addr : Z; seen_code : list Z; seen_operands : list Z; seen_branch : bool; seen_taken : bool;
  seen_predicate : bool; seen_executed : bool; seen_isa : Z; seen_physical : list Z
}.

Section direct.
Context {M H : Type} (accessMemory : Z -> Z -> Z -> list Z -> M -> list Z * M) (pagemap : Z -> option Z) (code : Z -> Z).
Context (handlers : Handlers H) (consume : seen -> H -> H) (sends : bool).

Record Direct := mkDirect { d_client : H; d_memory : M; d_isa : Z }.

(** A handler whose accesses go to the memory directly. *)
Definition access (lock op addr : Z) (data : list Z) (m : M) : list Z * M :=
  if op =? MemRead then accessMemory lock op addr (replicate (length data) 0) m
  else (data, (accessMemory lock op addr data m).2).
Fixpoint run_direct {A} (p : prog A) (m : M) : A * M :=
  match p with
  | Return a => (a, m)
  | Access lock op addr data k => let '(l, m) := access lock op addr data m in run_direct (k true l) m
  end.
Definition physical (va : Z) : Z :=
  if sends then
    match W.va2pa_lookup pagemap (va / 4096) with
    | Ok pp => if pp =? 0 then 0 else Z.lor (pp *64 4096) (Z.land va 4095)
    | Err _ => 0
    end
  else va.

Definition on_client (f : H -> H) (d : Direct) : Direct := mkDirect (f (d_client d)) (d_memory d) (d_isa d).
(** A handler that may be missing, and one that returns a value of [w] bits. *)
Definition notify (o : option (H -> H)) (d : Direct) : Direct * outcome :=
  (match o with Some f => on_client f d | None => d end, Done).
Definition ask (w : Z) (f : H -> H * Z) (d : Direct) : Direct * outcome :=
  let '(h, v) := f (d_client d) in (mkDirect h (d_memory d) (d_isa d), Value (wrap w v)).
Definition consult {A} (f : H -> prog (H * A)) (d : Direct) : Direct * A :=
  let '((h, v), m) := run_direct (f (d_client d)) (d_memory d) in (mkDirect h m (d_isa d), v).

Definition direct (q : request) (d : Direct) : Direct * outcome :=
  match q with
  | RInstruction addr size addrs branch direction predicate executes =>
      (on_client (consume (mkSeen addr (code_bytes code addr size) addrs branch direction predicate executes (d_isa d) (physical <$> (addr :: addrs)))) d, Done)
  | RInstructionCount icount =>
      match handleInstructionCountFunc handlers with Some f => ask 32 (f (u32 icount)) d | None => (d, Value ModeUnknown) end
  | RCacheOnly icount type eip address => notify ((fun f => f (u8 icount) (u8 type) (u64 eip) (u64 address)) <$> handleCacheOnlyFunc handlers) d
  | ROutput fd data => notify ((fun f => f (u8 fd) data) <$> handleOutputFunc handlers) d
  | RNewThread => match handleNewThreadFunc handlers with Some f => ask 32 f d | None => (d, Done) end
  | RSyscall number data =>
      match handleSyscallFunc handlers with
      | Some f => let '(d, v) := consult (f (u16 number) data) d in (d, Value (u64 v))
      | None => (d, Done)
      end
  | RJoin thread => match handleJoinFunc handlers with Some f => ask 32 (f (u32 thread)) d | None => (d, Done) end
  | RSync => match handleInstructionCountFunc handlers with Some f => ask 32 (f 0) d | None => (d, Value ModeUnknown) end
  | RFork => match handleForkFunc handlers with Some f => ask 32 f d | None => (d, Done) end
  | RMagic a b c =>
      match handleMagicFunc handlers with
      | Some f => let '(d, v) := consult (f (u64 a) (u64 b) (u64 c)) d in (d, Value (u64 v))
      | None => (d, Value (u64 a))
      end
  | REmulate type req res =>
      match handleEmuFunc handlers with
      | Some f => let '(d, (b, l)) := consult (f (u16 type) req (replicate sizeof_EmuReply 0)) d in (d, Emulated b l)
      | None => (d, Emulated false (replicate sizeof_EmuReply 0))
      end
  | RRoutineChange event eip esp callEip => notify ((fun f => f (u8 event) (u64 eip) (u64 esp) (u64 callEip)) <$> handleRoutineChangeFunc handlers) d
  | RRoutineAnnounce eip name imgname offset line column filename =>
      notify ((fun f => f (u64 eip) (W.string_bytes name) (W.string_bytes imgname) (u64 offset) (u32 line) (u32 column) (W.string_bytes filename))
                <$> handleRoutineAnnounceFunc handlers) d
  | RISAChange new_isa => (mkDirect (d_client d) (d_memory d) (u32 new_isa), Done)
  end.

(** ** What the connection carries *)

(** Accesses that the writer answers: reads and writes of at least one byte. *)
Fixpoint polite {A} (p : prog A) : Prop :=
  match p with
  | Return _ => True
  | Access lock op addr data k =>
      in_range 32 lock /\ (op = MemRead \/ op = MemWrite) /\ in_range 64 addr /\ 0 < Z.of_nat (length data) < 2 ^ 32 - 20 /\
      forall b l, polite (k b l)
  end.
Context (isize : Z -> nat).
(** An instruction has one to fifteen bytes, always as many at an address, is not in the last
    page of the address space, has two operands at most, and is executed if it is not
    predicated. Data is not empty, the arguments of a system call are there, and a magic
    instruction is not answered with 42, on which the reader does not reply. *)
Definition carried (q : request) (d : Direct) : Prop :=
  match q with
  | RInstruction addr size addrs _ _ predicate executes =>
      size = isize addr /\ (0 < size < 16)%nat /\ 0 <= addr /\ addr + Z.of_nat size <= 2 ^ 64 - 4096 /\
      (length addrs <= 2)%nat /\ Forall (in_range 64) addrs /\ (predicate = false -> executes = true)
  | RCacheOnly _ _ eip address => in_range 64 eip /\ in_range 64 address
  | ROutput _ data => 0 < Z.of_nat (length data) < 2 ^ 32 - 1
  | RNewThread => is_Some (handleNewThreadFunc handlers)
  | RSyscall number data =>
      0 < Z.of_nat (length data) < 2 ^ 32 - 2 /\ Forall is_byte data /\
      (number = W.SYS_futex -> 8 <= length data)%nat /\ (number = W.SYS_write -> 16 <= length data)%nat /\
      exists f, handleSyscallFunc handlers = Some f /\ polite (f (u16 number) data (d_client d))
  | RJoin _ => is_Some (handleJoinFunc handlers)
  | RFork => is_Some (handleForkFunc handlers)
  | RMagic a b c =>
      match handleMagicFunc handlers with
      | Some f => polite (f (u64 a) (u64 b) (u64 c) (d_client d)) /\ (consult (f (u64 a) (u64 b) (u64 c)) d).2 <> 42
      | None => u64 a <> 42
      end
  | REmulate type req res =>
      length req = sizeof_EmuRequest /\ length res = sizeof_EmuReply /\
      match handleEmuFunc handlers with
      | Some f => polite (f (u16 type) req (replicate sizeof_EmuReply 0) (d_client d)) /\
                  length (consult (f (u16 type) req (replicate sizeof_EmuReply 0)) d).2.2 = sizeof_EmuReply
      | None => True
      end
  | _ => True
  end.
End direct.
