(* ===== verification/SiftLink.v ===== *)
(** * The connection implements the direct calls

    The relation [linked] ties the state of the writer to that of the reader. Every operation of
    the writer, together with what the reader makes of its bytes, implements the direct call
    and keeps the relation; and so do sessions of many requests. *)

From stdpp Require Import base tactics list numbers gmap strings.
From Stdlib Require Import ZArith Lia.
From S2P Require Import Prelude SiftFormat SiftWriter SiftReader.
From S2P Require Import SiftProps SiftSpec.
Local Open Scope Z_scope.
Local Open Scope mach_scope.

(** ** The encodings of instructions *)

(** The fields of both encodings are read back; there are few values of each. *)
Lemma all_below (P : Z -> bool) (n : nat) x : forallb (fun i => P (Z.of_nat i)) (seq 0 n) = true -> 0 <= x < Z.of_nat n -> P x = true.
Proof. rewrite forallb_forall. intros HP Hx. rewrite <- (Z2Nat.id x) by lia. apply HP, in_seq. lia. Qed.

Definition small_value (n k : Z) (b t : bool) : Z := u8 (n `mod` 16 + 16 * (k `mod` 4) + 64 * bit b + 128 * bit t).
Definition small_ok (b t : bool) (k n : Z) : bool := let v := small_value n k b t in
  (field v 0 4 =? n) && (field v 4 2 =? k) && bool_decide (flag v 6 = b) && bool_decide (flag v 7 = t).
Lemma small_decodes n k b t : 0 <= n < 16 -> 0 <= k < 4 -> let v := small_value n k b t in
  field v 0 4 = n /\ field v 4 2 = k /\ flag v 6 = b /\ flag v 7 = t.
Proof.
  intros Hn Hk. assert (HP : small_ok b t k n = true).
  { apply (all_below (small_ok b t k) 16); [|lia]. apply (all_below (fun k => forallb (fun i => small_ok b t k (Z.of_nat i)) (seq 0 16)) 4); [|lia].
    destruct b, t; vm_compute; reflexivity. }
  unfold small_ok in HP. cbv zeta in *. rewrite !andb_true_iff, !Z.eqb_eq, !bool_decide_eq_true in HP. destruct HP as [[[H1 H2] H3] H4]. by split_and!.
Qed.
Definition ext_value (k : Z) (b t p e : bool) : Z := k `mod` 4 + 4 * bit b + 8 * bit t + 16 * bit p + 32 * bit e.
Definition ext_ok (b t p e : bool) (k : Z) : bool := let v := ext_value k b t p e in
  (field v 0 2 =? k) && bool_decide (flag v 2 = b) && bool_decide (flag v 3 = t) && bool_decide (flag v 4 = p) && bool_decide (flag v 5 = e).
Lemma ext_decodes k b t p e : 0 <= k < 4 -> let v := ext_value k b t p e in
  field v 0 2 = k /\ flag v 2 = b /\ flag v 3 = t /\ flag v 4 = p /\ flag v 5 = e.
Proof.
  intros Hk. assert (HP : ext_ok b t p e k = true) by (apply (all_below (ext_ok b t p e) 4); [destruct b, t, p, e; vm_compute; reflexivity|lia]).
  unfold ext_ok in HP. cbv zeta in *. rewrite !andb_true_iff, !Z.eqb_eq, !bool_decide_eq_true in HP. destruct HP as [[[[H1 H2] H3] H4] H5]. by split_and!.
Qed.
Definition ext_size_ok (n : Z) : bool := (field (16 * (n `mod` 16)) 0 4 =? 0) && (field (16 * (n `mod` 16)) 4 4 =? n).
Lemma ext_size n : 0 <= n < 16 -> field (16 * (n `mod` 16)) 0 4 = 0 /\ field (16 * (n `mod` 16)) 4 4 = n.
Proof.
  intros Hn. assert (HP : ext_size_ok n = true) by (apply (all_below ext_size_ok 16); [vm_compute; reflexivity|lia]).
  unfold ext_size_ok in HP. by rewrite andb_true_iff, !Z.eqb_eq in HP.
Qed.

(** ** The joined ends *)

(** The case of [read_record] for a type that is known. *)
Ltac pick_case :=
  lazymatch goal with
  | |- ?f (mkOther 0 ?t ?n) ?s = _ =>
      let body := fresh in let E := fresh in
      let T := type of (f (mkOther 0 t n)) in evar (body : Z -> T);
      assert (E : forall x, f (mkOther 0 t x) = body x) by
        (intros x; unfold read_record; cbn [other_type other_size]; cbv zeta;
         repeat match goal with
         | |- (if ?a =? ?b then _ else _) = _ => let v := eval vm_compute in (a =? b) in change (a =? b) with v; cbv iota
         end; subst body; reflexivity);
      rewrite E; subst body; clear E; cbv beta
  end.

Section link.
Context {M H : Type} (accessMemory : Z -> Z -> Z -> list Z -> M -> list Z * M) (getCode : Z -> nat -> list Z) (pagemap : Z -> option Z) (code : Z -> Z).
Context (handlers : Handlers H) (inflate : list Z -> list Z) (decompress : compression -> list Z -> list Z) (has_lzma : bool).
Context (isize : Z -> nat).
Context (reads_code : forall a n, getCode a n = code_bytes code a n).
(** A buffer keeps its length. *)
Context (access_length : forall lock op addr l m, length (accessMemory lock op addr l m).1 = length l).
(** A page that is present has a frame. *)
Context (has_frames : forall vp, exists pp, W.va2pa_lookup pagemap vp = Ok pp).
Implicit Types (w : W.Writer M) (r : Reader H).

Abbreviation eats := (consumes handlers inflate decompress has_lzma).
Abbreviation record := (read_record handlers inflate decompress has_lzma).

(** How much code is known when the writer has marked an address as sent. *)
Definition span w (a : Z) : nat := if W.m_requires_icache_per_insn w then isize a else page_bytes.
Record linked w r : Prop := {
  lk_output : W.output w = true;
  lk_func : W.memory_func w = true;
  lk_answers : W.has_response_file w = true;
  lk_sends : has_response_file r = true;
  lk_format : m_format r = Sift;
  lk_end : m_seen_end r = false;
  lk_last : last_address r = W.last_address w;
  lk_pa : m_trace_has_pa r = W.m_send_va2pa_mapping w;
  lk_sent vp : vp ∈ W.m_va2pa w -> is_Some (vcache r !! vp);
  lk_vcache vp pp : vcache r !! vp = Some pp -> W.va2pa_lookup pagemap vp = Ok pp /\ pp <> 0;
  lk_pages : pages_whole (icache r);
  lk_code a i : a ∈ W.icache w -> (i < span w a)%nat -> byte_known code (icache r) (a + Z.of_nat i);
  lk_statics : statics_ok code isize r
}.

(** An operation of the writer and what the reader does with its bytes: the answers that the
    writer reads are those that the reader sends, whatever follows them. *)
Definition exchange {A} (m : Proc (W.Writer M) A) (a : A) w w' r r' : Prop := exists sent answered,
  (forall tail, m (W.set_response (answered ++ tail) w) = Ok (a, W.set_response tail w')) /\
  W.written w' = W.written w ++ sent /\ eats sent r r' /\ response r' = response r ++ answered.

Lemma exchange_bind {A B} (m : Proc (W.Writer M) A) (k : A -> Proc (W.Writer M) B) a b w w1 w2 r r1 r2 :
  exchange m a w w1 r r1 -> exchange (k a) b w1 w2 r1 r2 -> exchange (m ≫= k) b w w2 r r2.
Proof.
  intros (s1 & a1 & E1 & W1 & C1 & R1) (s2 & a2 & E2 & W2 & C2 & R2). exists (s1 ++ s2), (a1 ++ a2). split_and!.
  - intros tail. rewrite <- app_assoc, (bind_ok _ _ _ _ _ (E1 _)). apply E2.
  - by rewrite W2, W1, app_assoc.
  - by eapply consumes_app.
  - by rewrite R2, R1, app_assoc.
Qed.
Lemma exchange_refl {A} (m : Proc (W.Writer M) A) a w r : (forall tail, m (W.set_response tail w) = Ok (a, W.set_response tail w)) -> exchange m a w w r r.
Proof. intros Em. exists [], []. split_and!; [exact Em|by rewrite app_nil_r|by apply consumes_nil|by rewrite app_nil_r]. Qed.
Lemma exchange_gets {A B} (f : W.Writer M -> A) (k : A -> Proc (W.Writer M) B) b w w' r r' :
  (forall tail, f (W.set_response tail w) = f w) -> exchange (k (f w)) b w w' r r' -> exchange (gets f ≫= k) b w w' r r'.
Proof. intros Hf. apply exchange_bind. apply exchange_refl. intros tail. unfold gets. by rewrite Hf. Qed.

(** *** The writer *)

Lemma write_run l w : W.output w = true -> W.write l w = Ok (tt, W.set_written (W.written w ++ l) w).
Proof. intros Ho. unfold W.write. rewrite bind_gets, Ho. done. Qed.
Lemma write_first {A} l (k : unit -> Proc (W.Writer M) A) w : W.output w = true -> (W.write l ≫= k) w = k tt (W.set_written (W.written w ++ l) w).
Proof. intros Ho. by rewrite (bind_ok _ _ _ _ _ (write_run l w Ho)). Qed.
Lemma write_next {A} l (k : unit -> Proc (W.Writer M) A) out w : W.output w = true -> (W.write l ≫= k) (W.set_written out w) = k tt (W.set_written (out ++ l) w).
Proof. intros Ho. apply (write_first l k (W.set_written out w)), Ho. Qed.
Lemma write_last l out w : W.output w = true -> W.write l (W.set_written out w) = Ok (tt, W.set_written (out ++ l) w).
Proof. intros Ho. apply (write_run l (W.set_written out w)), Ho. Qed.
Lemma wread_run n l tail w : length l = n -> W.read n (W.set_response (l ++ tail) w) = Ok (l, W.set_response tail w).
Proof.
  intros <-. unfold W.read. rewrite bind_gets. cbn [W.response W.set_response]. rewrite length_app, (proj2 (Nat.leb_le _ _)) by lia.
  by rewrite take_app_length, drop_app_length.
Qed.
Lemma wread_value_run n v tail w : W.read_value n (W.set_response (le n v ++ tail) w) = Ok (wrap (8 * Z.of_nat n) v, W.set_response tail w).
Proof. unfold W.read_value. rewrite (bind_ok _ _ _ _ _ (wread_run n _ tail w (length_le n v))). by rewrite <- of_le_wrap. Qed.
Lemma wread_other_run t n tail w : 0 <= t < 256 -> 0 <= n < 2 ^ 32 -> W.read_other (W.set_response (Other t n ++ tail) w) = Ok (mkOther 0 t n, W.set_response tail w).
Proof. intros Ht Hn. unfold W.read_other. rewrite (bind_ok _ _ _ _ _ (wread_run 6 (Other t n) tail w eq_refl)). by rewrite parse_Other. Qed.

(** An operation writes one record, and the reader reads it. *)
Lemma exchange_record {A} (m : Proc (W.Writer M) A) a t n body w r r' :
  W.output w = true -> (forall w, W.output w = true -> m w = Ok (a, W.set_written (W.written w ++ Other t n ++ body) w)) ->
  0 <= t < 256 -> 0 <= n < 2 ^ 32 -> m_seen_end r = false ->
  (forall rest, record (mkOther 0 t n) (feed (body ++ rest) r) = Ok (Continue, feed rest r')) -> response r' = response r ->
  exchange m a w (W.set_written (W.written w ++ Other t n ++ body) w) r r'.
Proof.
  intros Ho Em Ht Hn He Hr Hresp. exists (Other t n ++ body), []. split_and!.
  - intros tail. by rewrite Em.
  - done.
  - by apply consumes_record.
  - by rewrite Hresp, app_nil_r.
Qed.

(** *** Addresses *)

(** What an exchange that precedes an instruction leaves as it was. *)
Record stays w w' r r' : Prop := {
  st_memory : W.memory w' = W.memory w;
  st_last : W.last_address w' = W.last_address w;
  st_requires : W.m_requires_icache_per_insn w' = W.m_requires_icache_per_insn w;
  st_sends : W.m_send_va2pa_mapping w' = W.m_send_va2pa_mapping w;
  st_client : client r' = client r;
  st_isa : m_isa r' = m_isa r;
  st_known a : byte_known code (icache r) a -> byte_known code (icache r') a;
  st_vcache vp pp : vcache r !! vp = Some pp -> vcache r' !! vp = Some pp
}.
Lemma stays_refl w r : stays w w r r.
Proof. by split. Qed.
Lemma stays_trans w w1 w2 r r1 r2 : stays w w1 r r1 -> stays w1 w2 r1 r2 -> stays w w2 r r2.
Proof. intros [] []. split; try congruence; eauto. Qed.

(** The translation of an address was sent, or there is none. *)
Definition translated w r (va : Z) : Prop :=
  W.m_send_va2pa_mapping w = true -> exists pp, W.va2pa_lookup pagemap (va / 4096) = Ok pp /\ (pp = 0 \/ vcache r !! (va / 4096) = Some pp).
Lemma stays_translated w w' r r' va : stays w w' r r' -> translated w r va -> translated w' r' va.
Proof. intros Hs Ht Hm. rewrite (st_sends _ _ _ _ Hs) in Hm. destruct (Ht Hm) as (pp & E & [Hp|Hp]); exists pp; split; auto. right. by apply (st_vcache _ _ _ _ Hs). Qed.
Lemma va2pa_run w r va : linked w r -> translated w r va -> va2pa va r = Ok (physical pagemap (W.m_send_va2pa_mapping w) va, r).
Proof.
  intros Hl Ht. unfold va2pa, physical. rewrite bind_gets, (lk_pa _ _ Hl). unfold translated in Ht. destruct (W.m_send_va2pa_mapping w); [|done]. rewrite bind_gets. unfold PAGE_SIZE_SIFT.
  destruct (Ht eq_refl) as (pp & E & [->|Hp]); rewrite E.
  - destruct (vcache r !! (va / 4096)) as [pp|] eqn:Ev; [|done]. apply (lk_vcache _ _ Hl) in Ev as [E' Hn]. rewrite E in E'. congruence.
  - rewrite Hp. apply (lk_vcache _ _ Hl) in Hp as [_ Hn]. by rewrite (proj2 (Z.eqb_neq pp 0)).
Qed.
Lemma lookup_range vp pp : in_range 64 vp -> W.va2pa_lookup pagemap vp = Ok pp -> in_range 64 pp.
Proof.
  intros Hv. unfold W.va2pa_lookup. destruct (_ && _); [by intros [= <-]|]. destruct (pagemap vp) as [e|]; [|by intros [= <-]].
  destruct (negb _); [by intros [= <-]|]. destruct (Z.land e (2 ^ 54 - 1) =? 0); [done|]. cbn. intros [= <-].
  pose proof (land_ones_range 54 e ltac:(lia)) as Hr. eapply (in_range_mono 54); [lia|exact Hr].
Qed.

Lemma exchange_va2pa va w r : linked w r -> in_range 64 va ->
  exists w' r', exchange (W.send_va2pa pagemap va) tt w w' r r' /\ linked w' r' /\ stays w w' r r' /\ translated w' r' va.
Proof.
  intros Hl Hva. pose proof (lk_output _ _ Hl) as Ho. set (vp := va / 4096). destruct (has_frames vp) as [pp Epp].
  assert (Hvp : in_range 64 vp) by (unfold in_range, vp in *; split; [apply Z.div_pos; lia|apply Z.div_lt_upper_bound; lia]).
  assert (Hskip : (forall tail, W.send_va2pa pagemap va (W.set_response tail w) = Ok (tt, W.set_response tail w)) -> translated w r va ->
    exists w' r', exchange (W.send_va2pa pagemap va) tt w w' r r' /\ linked w' r' /\ stays w w' r r' /\ translated w' r' va).
  { intros Em Ht. exists w, r. split_and!; [by apply exchange_refl|done|by apply stays_refl|done]. }
  destruct (W.m_send_va2pa_mapping w) eqn:Es.
  2: { apply Hskip; [|unfold translated; by rewrite Es]. intros tail. unfold W.send_va2pa. rewrite !bind_gets. cbn. by rewrite Es, andb_false_r. }
  assert (Hstart : forall tail, W.send_va2pa pagemap va (W.set_response tail w) =
    (if bool_decide (vp ∈ W.m_va2pa w) then mret tt
     else pp ← lift (W.va2pa_lookup pagemap vp);
       if pp =? 0 then mret tt
       else W.write_other RecOtherLogical2Physical 16;; W.write (le 8 vp);; W.write (le 8 pp);; update (fun w => W.set_va2pa ({[vp]} ∪ W.m_va2pa w) w)) (W.set_response tail w)).
  { intros tail. unfold W.send_va2pa. rewrite !bind_gets. cbn [W.output W.m_send_va2pa_mapping W.set_response]. by rewrite Ho, Es. }
  destruct (bool_decide (vp ∈ W.m_va2pa w)) eqn:Ev.
  { apply Hskip; [intros tail; by rewrite Hstart|]. intros _. exists pp. split; [done|]. right. apply bool_decide_eq_true in Ev.
    destruct (lk_sent _ _ Hl vp Ev) as [pp' Hp]. destruct (lk_vcache _ _ Hl _ _ Hp) as [E _]. unfold vp in *. congruence. }
  destruct (Z.eqb_spec pp 0) as [->|Hpp].
  { apply Hskip; [intros tail; rewrite Hstart; unfold lift; rewrite Epp; done|]. intros _. exists 0. auto. }
  pose proof (lookup_range vp pp Hvp Epp) as Hrp.
  set (body := le 8 vp ++ le 8 pp). set (w1 := W.set_written (W.written w ++ Other RecOtherLogical2Physical 16 ++ body) w).
  set (r1 := set_vcache (<[vp := pp]> (vcache r)) r). exists (W.set_va2pa ({[vp]} ∪ W.m_va2pa w) w1), r1. split_and!.
  - exists (Other RecOtherLogical2Physical 16 ++ body), []. split_and!; [|done| |by rewrite app_nil_r].
    + intros tail. rewrite Hstart. unfold lift. rewrite Epp. erewrite bind_ok by done. rewrite (proj2 (Z.eqb_neq pp 0)) by done. unfold W.write_other.
      rewrite write_first, !write_next by done. rewrite <- !app_assoc. done.
    + apply consumes_record; [done|done|apply (lk_end _ _ Hl)|]. intros rest. unfold body. rewrite <- app_assoc.
      pick_case. rewrite bind_assert by done. erewrite bind_ok by apply read_value_run. erewrite bind_ok by apply read_value_run.
      rewrite !wrap_small by done. done.
  - destruct Hl. split; try done; cbn.
    + intros x [->%elem_of_singleton|Hx]%elem_of_union; [by rewrite lookup_insert_eq|]. destruct (decide (x = vp)) as [->|Hne]; [by rewrite lookup_insert_eq|].
      rewrite lookup_insert_ne by done. auto.
    + intros x y. destruct (decide (x = vp)) as [->|Hne]; [rewrite lookup_insert_eq; by intros [= <-]|]. rewrite lookup_insert_ne by done. auto.
    + by apply (statics_eq _ _ r).
  - split; try done. intros x y Hx. cbn. destruct (decide (x = vp)) as [->|Hne]; [|by rewrite lookup_insert_ne].
    rewrite lookup_insert_eq. apply (lk_vcache _ _ Hl) in Hx as [Hx _]. congruence.
  - intros _. exists pp. split; [done|]. right. apply lookup_insert_eq.
Qed.

(** *** Code *)

(** The code that starts at [a] is marked as sent, and the reader has learnt it. *)
Lemma learns_linked a c out w r : linked w r -> learns code (icache r) c a (span w a) ->
  let w' := W.set_icache ({[a]} ∪ W.icache w) (W.set_written out w) in let r' := set_icache c r in
  linked w' r' /\ stays w w' r r' /\ a ∈ W.icache w'.
Proof.
  intros Hl (L1 & L2 & L3) w' r'. split; [|split; [by split|cbn; set_solver]]. destruct Hl. split; try done; cbn.
  - intros x i [->%elem_of_singleton|Hx]%elem_of_union Hi; [by apply L3|]. by apply L2, lk_code0.
  - by apply (statics_eq _ _ r).
Qed.
(** The code [l] at [a] is sent, unless it was sent before. *)
Lemma exchange_code a t n l c w r : linked w r -> learns code (icache r) c a (span w a) -> 0 <= t < 256 -> 0 <= n < 2 ^ 32 ->
  (forall rest, record (mkOther 0 t n) (feed ((le 8 a ++ l) ++ rest) r) = Ok (Continue, feed rest (set_icache c r))) ->
  exists w' r', exchange (sent ← gets (fun w => bool_decide (a ∈ W.icache w));
      if sent : bool then mret tt
      else W.write_other t n;; W.write (le 8 a);; W.write l;; update (fun w => W.set_icache ({[a]} ∪ W.icache w) w)) tt w w' r r' /\
    linked w' r' /\ stays w w' r r' /\ a ∈ W.icache w'.
Proof.
  intros Hl HL Ht Hn Hr. pose proof (lk_output _ _ Hl) as Ho. destruct (bool_decide (a ∈ W.icache w)) eqn:Ei.
  { exists w, r. split_and!; [|done|by apply stays_refl|by apply bool_decide_eq_true in Ei]. apply exchange_refl. intros tail. rewrite bind_gets. cbv beta.
    change (W.icache (W.set_response tail w)) with (W.icache w). by rewrite Ei. }
  destruct (learns_linked a c (W.written w ++ Other t n ++ le 8 a ++ l) w r Hl HL) as (Hl' & Hs' & Hin).
  eexists _, _. split_and!; [|exact Hl'|exact Hs'|exact Hin]. exists (Other t n ++ le 8 a ++ l), []. split_and!; [|done| |by rewrite app_nil_r].
  - intros tail. rewrite bind_gets. cbv beta. change (W.icache (W.set_response ([] ++ tail) w)) with (W.icache w). rewrite Ei. unfold W.write_other.
    rewrite write_first, !write_next by done. by rewrite <- !app_assoc.
  - apply consumes_record; [done|done|apply (lk_end _ _ Hl)|exact Hr].
Qed.

Lemma exchange_page base w r : linked w r -> W.m_requires_icache_per_insn w = false -> base `mod` 4096 = 0 -> in_range 64 base ->
  exists w' r', exchange (W.send_page getCode base) tt w w' r r' /\ linked w' r' /\ stays w w' r r' /\ base ∈ W.icache w'.
Proof.
  intros Hl Hm Hb Hr. unfold W.send_page. rewrite reads_code. pose proof (length_code code base (Z.to_nat ICACHE_SIZE)) as Hlen.
  pose proof (page_learns code (icache r) base (lk_pages _ _ Hl) Hb) as HL.
  set (l := code_bytes code base page_bytes) in *. clearbody l.
  eapply exchange_code; [done|unfold span; rewrite Hm; exact HL|done|done|]. intros rest. rewrite <- app_assoc.
  pick_case. rewrite bind_assert by done. erewrite bind_ok by apply read_value_run. rewrite wrap_small by done.
  by rewrite (bind_ok _ _ _ _ _ (read_run_n _ _ rest r Hlen)).
Qed.
Lemma exchange_variable addr w r : linked w r -> W.m_requires_icache_per_insn w = true -> 0 <= addr -> (0 < isize addr < 16)%nat ->
  addr + Z.of_nat (isize addr) <= 2 ^ 64 ->
  exists w' r', exchange (W.send_code_variable getCode addr (isize addr)) tt w w' r r' /\ linked w' r' /\ stays w w' r r' /\ addr ∈ W.icache w'.
Proof.
  intros Hl Hm Hpos Hsz Hmax. unfold W.send_code_variable. rewrite reads_code. set (n := isize addr) in *.
  destruct (read_code_ok code n addr n r) as (c & Ec & HL); [lia|done|done|apply (lk_pages _ _ Hl)|].
  eapply exchange_code; [done|unfold span; rewrite Hm; exact HL|done|lia|]. intros rest. rewrite <- app_assoc.
  pick_case. erewrite bind_ok by apply read_value_run. rewrite wrap_small by (unfold in_range; lia).
  rewrite (proj2 (Z.ltb_ge (8 + Z.of_nat n) 8)) by lia. replace (Z.to_nat (8 + Z.of_nat n - 8)) with n by lia. by rewrite (bind_ok _ _ _ _ _ (Ec rest)).
Qed.

Lemma page_aligned a : (a - a `mod` 4096) `mod` 4096 = 0.
Proof. by rewrite Zminus_mod_idemp_r, Z.sub_diag. Qed.
(** All pages of an instruction are sent. *)
Lemma exchange_pages addr n w r : linked w r -> W.m_requires_icache_per_insn w = false -> 0 <= addr -> (0 < n < 16)%nat -> addr + Z.of_nat n <= 2 ^ 64 - 4096 ->
  exists w' r', exchange (W.send_code getCode addr n) tt w w' r r' /\ linked w' r' /\ stays w w' r r' /\
    forall i, (i < n)%nat -> byte_known code (icache r') (addr + Z.of_nat i).
Proof.
  intros Hl Hm Hpos Hn Hmax. pose proof (Z.mod_pos_bound addr 4096 ltac:(lia)) as Hmod. pose proof (Z.mod_le addr 4096 ltac:(lia) ltac:(lia)) as Hle.
  unfold W.send_code. change ICACHE_PAGE_MASK with (2 ^ 64 - 4096). rewrite (wrap_small 64 (addr + Z.of_nat n)), (wrap_small 64 (addr + Z.of_nat n - 1)) by (unfold in_range; lia).
  rewrite !page_mask by (unfold in_range; lia). set (base := addr - addr `mod` 4096) in *. set (last := addr + Z.of_nat n - 1 - (addr + Z.of_nat n - 1) `mod` 4096).
  pose proof (page_aligned addr) as Hb. fold base in Hb. pose proof page_bytes_eq as Hpb.
  destruct (exchange_page base w r Hl Hm Hb) as (w1 & r1 & X1 & L1 & S1 & I1); [unfold in_range; lia|].
  assert (Hm1 : W.m_requires_icache_per_insn w1 = false) by (by rewrite (st_requires _ _ _ _ S1)).
  assert (K1 : forall o, 0 <= o < 4096 -> byte_known code (icache r1) (base + o)).
  { intros o Ho. rewrite <- (Z2Nat.id o) by lia. apply (lk_code _ _ L1); [done|]. unfold span. rewrite Hm1. lia. }
  cbn [W.send_pages]. assert (Hlast : last = base \/ last = base + 4096 /\ 4096 <= addr `mod` 4096 + Z.of_nat n).
  { unfold last, base. pose proof (Z.div_mod addr 4096 ltac:(lia)). pose proof (Z.div_mod (addr + Z.of_nat n - 1) 4096 ltac:(lia)).
    pose proof (Z.mod_pos_bound (addr + Z.of_nat n - 1) 4096 ltac:(lia)). lia. }
  assert (Hend : last <= addr + Z.of_nat n - 1) by (unfold last; pose proof (Z.mod_pos_bound (addr + Z.of_nat n - 1) 4096 ltac:(lia)); lia).
  assert (Hmod0 : 0 <= base) by (unfold base; lia). unfold ICACHE_SIZE. rewrite (wrap_small 64 (base + 4096)) by (unfold in_range; lia).
  rewrite (proj2 (Z.ltb_ge last base)) by lia. destruct Hlast as [E|[E Hcross]].
  - exists w1, r1. split_and!; [|done|done|].
    + eapply exchange_bind; [exact X1|]. rewrite (proj2 (Z.ltb_lt last (base + 4096))) by lia. by apply exchange_refl.
    + intros i Hi. replace (addr + Z.of_nat i) with (base + (addr `mod` 4096 + Z.of_nat i)) by (unfold base; lia). apply K1.
      pose proof (Z.mod_pos_bound (addr + Z.of_nat n - 1) 4096 ltac:(lia)). unfold last, base in E. lia.
  - destruct (exchange_page (base + 4096) w1 r1 L1 Hm1) as (w2 & r2 & X2 & L2 & S2 & I2); [rewrite Zplus_mod, Hb; done|unfold in_range; lia|].
    exists w2, r2. split_and!; [|done|by eapply stays_trans|].
    + eapply exchange_bind; [exact X1|]. rewrite (proj2 (Z.ltb_ge last (base + 4096))) by lia. eapply exchange_bind; [exact X2|].
      rewrite (wrap_small 64 (base + 4096 + 4096)), (proj2 (Z.ltb_lt last (base + 4096 + 4096))) by (unfold in_range; lia). by apply exchange_refl.
    + intros i Hi. destruct (decide (addr `mod` 4096 + Z.of_nat i < 4096)).
      * apply (st_known _ _ _ _ S2). replace (addr + Z.of_nat i) with (base + (addr `mod` 4096 + Z.of_nat i)) by (unfold base; lia). apply K1. lia.
      * replace (addr + Z.of_nat i) with (base + 4096 + Z.of_nat (Z.to_nat (addr `mod` 4096 + Z.of_nat i - 4096))) by (unfold base; lia).
        apply (lk_code _ _ L2); [done|]. unfold span. rewrite (st_requires _ _ _ _ S2), Hm1. lia.
Qed.

Lemma exchange_addresses l w r : linked w r -> Forall (in_range 64) l ->
  exists w' r', exchange (each (W.send_va2pa pagemap) l) tt w w' r r' /\ linked w' r' /\ stays w w' r r' /\ Forall (translated w' r') l.
Proof.
  intros Hl Hf. revert w r Hl. induction Hf as [|a l Ha _ IH]; intros w r Hl; cbn [each].
  { exists w, r. split_and!; [by apply exchange_refl|done|by apply stays_refl|done]. }
  destruct (exchange_va2pa a w r Hl Ha) as (w1 & r1 & X1 & L1 & S1 & T1). destruct (IH w1 r1 L1) as (w2 & r2 & X2 & L2 & S2 & T2).
  exists w2, r2. split_and!; [by eapply exchange_bind|done|by eapply stays_trans|]. constructor; [by eapply stays_translated|done].
Qed.

(** *** Instructions *)

Definition operand_bytes (l : list Z) : list Z := mjoin (le 8 <$> l).
Lemma read_values_run l rest r : Forall (in_range 64) l -> read_values (length l) (feed (operand_bytes l ++ rest) r) = Ok (l, feed rest r).
Proof.
  intros Hf. revert rest. induction Hf as [|a l Ha _ IH]; intros rest; [done|]. cbn [length read_values]. unfold operand_bytes. cbn [fmap list_fmap mjoin list_join].
  rewrite <- app_assoc. rewrite (bind_ok _ _ _ _ _ (read_value_run 8 a _ r)), (bind_ok _ _ _ _ _ (IH rest)). by rewrite wrap_small.
Qed.
Lemma each_write_run l out w : W.output w = true -> each (fun a => W.write (le 8 a)) l (W.set_written out w) = Ok (tt, W.set_written (out ++ operand_bytes l) w).
Proof.
  intros Ho. revert out. induction l as [|a l IH]; intros out; cbn [each]; [by rewrite app_nil_r|]. rewrite write_next, IH by done.
  unfold operand_bytes. cbn [fmap list_fmap mjoin list_join]. by rewrite app_assoc.
Qed.

(** The reader's end of an instruction. *)
Lemma operands_ok addr addrs b t p e r :
  m_format r = Sift -> statics_ok code isize r -> 0 <= addr -> (0 < isize addr < 16)%nat -> addr + Z.of_nat (isize addr) <= 2 ^ 64 ->
  (forall i, (i < isize addr)%nat -> byte_known code (icache r) (addr + Z.of_nat i)) -> (length addrs <= 2)%nat -> Forall (in_range 64) addrs ->
  let r0 := set_last_address (last_address r +64 Z.of_nat (isize addr)) r in
  exists q l c s, (forall rest, read_operands addr (Z.of_nat (isize addr)) (Z.of_nat (length addrs)) b t p e (feed (operand_bytes addrs ++ rest) r) =
      Ok (mkInst (Some q) addrs b t p e (m_isa r) false [] [] [] [], feed rest (with_statics l c (Some q) r0))) /\
    statics_ok code isize (with_statics l c (Some q) r0) /\ l !! q = Some s /\ s_addr s = addr /\ good code isize s.
Proof.
  intros Hf Hs Hpos Hsz Hmax Hk Hlen Hr r0. destruct (getStatic_ok code isize addr r0) as (q & l & c & s & E & Hs' & H1 & H2 & H3); try done.
  { by apply (statics_eq _ _ r). }
  exists q, l, c, s. split; [|done]. intros rest. unfold read_operands. rewrite bind_update.
  change (set_last_address _ (feed (operand_bytes addrs ++ rest) r)) with (feed (operand_bytes addrs ++ rest) r0).
  rewrite (proj2 (Z.leb_le (Z.of_nat (length addrs)) MAX_DYNAMIC_ADDRESSES)) by (unfold MAX_DYNAMIC_ADDRESSES; lia). erewrite bind_ok by done.
  rewrite Nat2Z.id, (bind_ok _ _ _ _ _ (read_values_run addrs rest r0 Hr)).
  rewrite (bind_ok _ _ _ _ _ (framed_run _ (Some (mkStream rest false false false)) _ _ _ (framed_getStatic addr _) E)). done.
Qed.

(** The state of the reader in which the code of an instruction is known. *)
Record fetched (addr : Z) r : Prop := {
  ft_end : m_seen_end r = false;
  ft_format : m_format r = Sift;
  ft_statics : statics_ok code isize r;
  ft_pos : 0 <= addr;
  ft_size : (0 < isize addr < 16)%nat;
  ft_max : addr + Z.of_nat (isize addr) <= 2 ^ 64;
  ft_known i : (i < isize addr)%nat -> byte_known code (icache r) (addr + Z.of_nat i)
}.
(** What reading an instruction gives, and what it changes. *)
Definition executed_as (addr : Z) (addrs : list Z) (b t p e : bool) r (i : Instruction) r' : Prop :=
  exists q l c s, i = mkInst (Some q) addrs b t p e (m_isa r) false [] [] [] [] /\ r' = with_statics l c (Some q) (set_last_address (addr +64 Z.of_nat (isize addr)) r) /\
    statics_ok code isize r' /\ l !! q = Some s /\ s_addr s = addr /\ good code isize s.
Abbreviation gives := (yields handlers inflate decompress has_lzma).

(** One round of the loop that meets an instruction. *)
Lemma gives_loop v B r i r' (m : Proc (Reader H) Instruction) : m_seen_end r = false -> v <> 0 -> m = (if negb (field v 0 4 =? 0) then read_small else read_ext) ->
  (forall rest, m (feed (v :: B ++ rest) r) = Ok (i, feed rest r')) -> gives (v :: B) r i r'.
Proof.
  intros He Hv -> Hm rest fuel inst Hf. destruct fuel as [|fuel]; [lia|]. cbn [read_loop]. rewrite bind_gets. change (m_seen_end (feed _ r)) with (m_seen_end r).
  rewrite He. cbv iota. change ((v :: B) ++ rest) with (v :: B ++ rest). rewrite (bind_ok _ _ _ _ _ (peek_run v (B ++ rest) r)), (bind_ok _ _ _ _ _ (fail_run _ r)).
  rewrite (proj2 (Z.eqb_neq v 0)) by done. destruct (negb (field v 0 4 =? 0)); by rewrite (bind_ok _ _ _ _ _ (Hm rest)).
Qed.
Lemma gives_small addr addrs b t r : fetched addr r -> last_address r = addr -> (length addrs <= 2)%nat -> Forall (in_range 64) addrs ->
  exists i r', gives (Instruction_rec (Z.of_nat (isize addr)) (Z.of_nat (length addrs)) b t ++ operand_bytes addrs) r i r' /\ executed_as addr addrs b t false true r i r'.
Proof.
  intros [] Hlast Hlen Hr. destruct (operands_ok addr addrs b t false true r) as (q & l & c & s & E & Hs & H1 & H2 & H3); try done.
  destruct (small_decodes (Z.of_nat (isize addr)) (Z.of_nat (length addrs)) b t) as (D1 & D2 & D3 & D4); [lia|lia|].
  rewrite Hlast in *. eexists _, _. split; [|exists q, l, c, s; split_and!; done].
  eapply (gives_loop (small_value _ _ _ _) _ _ _ _ read_small); [done| |by rewrite D1, (proj2 (Z.eqb_neq _ 0)) by lia|].
  { intros E0. rewrite E0 in D1. change (field 0 0 4) with 0 in D1. lia. }
  intros rest. unfold read_small. rewrite (bind_ok _ _ _ _ _ (read_byte_run _ _ r)), bind_gets. change (last_address (feed _ r)) with (last_address r).
  rewrite D1, D2, D3, D4, Hlast. apply E.
Qed.
Lemma gives_ext addr addrs b t p e r : fetched addr r -> (length addrs <= 2)%nat -> Forall (in_range 64) addrs ->
  exists i r', gives (InstructionExt_rec (Z.of_nat (isize addr)) (Z.of_nat (length addrs)) b t p e addr ++ operand_bytes addrs) r i r' /\ executed_as addr addrs b t p e r i r'.
Proof.
  intros [] Hlen Hr. set (r0 := set_last_address addr r).
  destruct (operands_ok addr addrs b t p e r0) as (q & l & c & s & E & Hs & H1 & H2 & H3); try done; [by apply (statics_eq _ _ r)|].
  destruct (ext_decodes (Z.of_nat (length addrs)) b t p e) as (D1 & D2 & D3 & D4 & D5); [lia|]. destruct (ext_size (Z.of_nat (isize addr))) as [F1 F2]; [lia|].
  eexists _, _. split; [|exists q, l, c, s; split_and!; done].
  eapply (gives_loop (16 * (Z.of_nat (isize addr) `mod` 16)) _ _ _ _ read_ext); [done| |by rewrite F1|].
  { intros E0. rewrite E0 in F2. change (field 0 4 4) with 0 in F2. lia. }
  intros rest. unfold read_ext. rewrite (bind_ok _ _ _ _ _ (read_byte_run _ _ r)). cbn [app]. rewrite (bind_ok _ _ _ _ _ (read_byte_run _ _ r)), <- app_assoc.
  rewrite (bind_ok _ _ _ _ _ (read_value_run 8 addr _ r)), bind_update, wrap_small by (unfold in_range; change (8 * Z.of_nat 8) with 64; lia).
  fold (ext_value (Z.of_nat (length addrs)) b t p e). rewrite D1, D2, D3, D4, D5, F2. exact (E rest).
Qed.

(** What precedes the record of an instruction: its code and the translations. *)
Definition before_record (addr : Z) (addrs : list Z) : Proc (W.Writer M) unit :=
  per_insn ← gets W.m_requires_icache_per_insn;
  (if per_insn : bool then W.send_code_variable getCode addr (isize addr) else W.send_code getCode addr (isize addr));;
  W.send_va2pa pagemap addr;;
  each (W.send_va2pa pagemap) addrs.
Lemma exchange_before addr addrs w r : linked w r -> 0 <= addr -> (0 < isize addr < 16)%nat -> addr + Z.of_nat (isize addr) <= 2 ^ 64 - 4096 -> Forall (in_range 64) addrs ->
  exists w' r', exchange (before_record addr addrs) tt w w' r r' /\ linked w' r' /\ stays w w' r r' /\ fetched addr r' /\ Forall (translated w' r') (addr :: addrs).
Proof.
  intros Hl Hpos Hsz Hmax Hr.
  assert (Hcode : exists w' r', exchange (per_insn ← gets W.m_requires_icache_per_insn;
      if per_insn : bool then W.send_code_variable getCode addr (isize addr) else W.send_code getCode addr (isize addr)) tt w w' r r' /\ linked w' r' /\ stays w w' r r' /\
    forall i, (i < isize addr)%nat -> byte_known code (icache r') (addr + Z.of_nat i)).
  { destruct (W.m_requires_icache_per_insn w) eqn:Em.
    - destruct (exchange_variable addr w r) as (w1 & r1 & X & L & S & I); [done|done|done|done|lia|]. exists w1, r1. split_and!; [|done|done|].
      + apply exchange_gets; [done|]. by rewrite Em.
      + intros i Hi. apply (lk_code _ _ L); [done|]. unfold span. by rewrite (st_requires _ _ _ _ S), Em.
    - destruct (exchange_pages addr (isize addr) w r) as (w1 & r1 & X & L & S & K); [done|done|done|done|lia|]. exists w1, r1. split_and!; [|done|done|done].
      apply exchange_gets; [done|]. by rewrite Em. }
  destruct Hcode as (w1 & r1 & X1 & L1 & S1 & K1). destruct (exchange_va2pa addr w1 r1 L1) as (w2 & r2 & X2 & L2 & S2 & T2); [unfold in_range; lia|].
  destruct (exchange_addresses addrs w2 r2 L2 Hr) as (w3 & r3 & X3 & L3 & S3 & T3). exists w3, r3. split_and!; [|done| | |].
  - destruct (exchange_bind _ (fun _ : unit => W.send_va2pa pagemap addr;; each (W.send_va2pa pagemap) addrs) _ tt _ _ w3 _ _ r3 X1) as (sent & ans & E & Hw & Hc & Hresp).
    { by eapply exchange_bind. }
    exists sent, ans. split_and!; [|done|done|done]. intros tail. rewrite <- (E tail). unfold before_record. by rewrite bind_assoc.
  - eapply stays_trans; [exact S1|]. by eapply stays_trans.
  - destruct L3. split; try done; [lia|]. intros i Hi. apply (st_known _ _ _ _ S3), (st_known _ _ _ _ S2), K1, Hi.
  - constructor; [by eapply stays_translated|done].
Qed.

Lemma executed_linked addr addrs b t p e w w' r i r' : linked w r -> executed_as addr addrs b t p e r i r' ->
  W.output w' = W.output w -> W.memory_func w' = W.memory_func w -> W.has_response_file w' = W.has_response_file w -> W.last_address w' = addr +64 Z.of_nat (isize addr) ->
  W.m_send_va2pa_mapping w' = W.m_send_va2pa_mapping w -> W.m_va2pa w' = W.m_va2pa w -> W.icache w' = W.icache w ->
  W.m_requires_icache_per_insn w' = W.m_requires_icache_per_insn w -> linked w' r'.
Proof.
  intros [] (q & l & c & s & _ & -> & Hs & _) E1 E2 E3 E4 E5 E6 E7 E8. split; rewrite ?E1, ?E2, ?E3, ?E4, ?E5, ?E6, ?E7; try done.
  unfold span. rewrite E8. exact lk_code0.
Qed.

(** An operation of the writer whose bytes end with an instruction. *)
Definition delivers {A} (m : Proc (W.Writer M) A) (a : A) w w' r (i : Instruction) r' : Prop := exists sent answered,
  (forall tail, m (W.set_response (answered ++ tail) w) = Ok (a, W.set_response tail w')) /\
  W.written w' = W.written w ++ sent /\ gives sent r i r' /\ response r' = response r ++ answered.
Lemma exchange_delivers {A B} (m : Proc (W.Writer M) A) (k : A -> Proc (W.Writer M) B) a b w w1 w2 r r1 i r2 :
  exchange m a w w1 r r1 -> delivers (k a) b w1 w2 r1 i r2 -> delivers (m ≫= k) b w w2 r i r2.
Proof.
  intros (s1 & a1 & E1 & W1 & C1 & R1) (s2 & a2 & E2 & W2 & C2 & R2). exists (s1 ++ s2), (a1 ++ a2). split_and!.
  - intros tail. rewrite <- app_assoc, (bind_ok _ _ _ _ _ (E1 _)). apply E2.
  - by rewrite W2, W1, app_assoc.
  - by eapply consumes_yields.
  - by rewrite R2, R1, app_assoc.
Qed.

(** The record itself. *)
Definition the_record (addr : Z) (addrs : list Z) (b t p e : bool) : Proc (W.Writer M) unit :=
  last ← gets W.last_address;
  (if (addr =? last) && negb p then
     W.write (Instruction_rec (Z.of_nat (isize addr)) (Z.of_nat (length addrs)) b t);; update W.count_small
   else
     W.write (InstructionExt_rec (Z.of_nat (isize addr)) (Z.of_nat (length addrs)) b t p e addr);; update (W.set_last_address addr);; update W.count_ext);;
  each (fun a => W.write (le 8 a)) addrs;;
  update (fun w => W.set_last_address (W.last_address w +64 Z.of_nat (isize addr)) w);;
  update (W.count_instruction (isize addr) (length addrs) b p).
Lemma instruction_parts addr addrs b t p e w : W.output w = true -> (isize addr < 16)%nat -> (length addrs <= 2)%nat ->
  W.Instruction getCode pagemap addr (isize addr) addrs b t p e w = (before_record addr addrs;; the_record addr addrs b t p e) w.
Proof.
  intros Ho Hsz Hlen. unfold W.Instruction. rewrite (bind_assert (isize addr <? 16)%nat) by by apply Nat.ltb_lt.
  rewrite (bind_assert (length addrs <=? _)%nat) by (apply Nat.leb_le; change (Z.to_nat MAX_DYNAMIC_ADDRESSES) with 2%nat; lia). rewrite bind_gets, Ho.
  unfold before_record. rewrite bind_assoc, !bind_gets. cbn [negb]. rewrite bind_gets, bind_assoc.
  apply bind_ext. intros _ w1. rewrite bind_assoc. done.
Qed.
(** The record is written as the reader reads it. *)
Lemma delivers_record addr addrs b t p e w r : linked w r -> fetched addr r -> (length addrs <= 2)%nat -> Forall (in_range 64) addrs -> (p = false -> e = true) ->
  exists w' i r', delivers (the_record addr addrs b t p e) tt w w' r i r' /\ linked w' r' /\ executed_as addr addrs b t p e r i r' /\
    W.memory w' = W.memory w /\ W.m_send_va2pa_mapping w' = W.m_send_va2pa_mapping w.
Proof.
  intros Hl Hf Hlen Hr Hpe. pose proof (lk_output _ _ Hl) as Ho.
  assert (Hend : forall rec w1 i r', gives (rec ++ operand_bytes addrs) r i r' -> executed_as addr addrs b t p e r i r' -> W.written w1 = W.written w ++ rec ->
    W.output w1 = W.output w -> W.memory_func w1 = W.memory_func w -> W.has_response_file w1 = W.has_response_file w -> W.last_address w1 = addr ->
    W.m_send_va2pa_mapping w1 = W.m_send_va2pa_mapping w -> W.m_va2pa w1 = W.m_va2pa w -> W.icache w1 = W.icache w -> W.memory w1 = W.memory w ->
    W.m_requires_icache_per_insn w1 = W.m_requires_icache_per_insn w ->
    (forall tail, the_record addr addrs b t p e (W.set_response tail w) = (each (fun a => W.write (le 8 a)) addrs;;
       update (fun w => W.set_last_address (W.last_address w +64 Z.of_nat (isize addr)) w);;
       update (W.count_instruction (isize addr) (length addrs) b p)) (W.set_written (W.written w1) (W.set_response tail w1))) ->
    exists w' i r', delivers (the_record addr addrs b t p e) tt w w' r i r' /\ linked w' r' /\ executed_as addr addrs b t p e r i r' /\
      W.memory w' = W.memory w /\ W.m_send_va2pa_mapping w' = W.m_send_va2pa_mapping w).
  { intros rec w1 i r' Hg Hx Hw E1 E2 E3 E4 E5 E6 E7 E8 E9 Em.
    set (w2 := W.count_instruction (isize addr) (length addrs) b p (W.set_last_address (addr +64 Z.of_nat (isize addr)) (W.set_written (W.written w1 ++ operand_bytes addrs) w1))).
    exists w2, i, r'. split_and!; [|by eapply executed_linked|done|done|done]. exists (rec ++ operand_bytes addrs), []. split_and!.
    - intros tail. cbn [app]. rewrite Em. rewrite (bind_ok _ _ _ _ _ (each_write_run addrs (W.written w1) (W.set_response tail w1) ltac:(by rewrite <- E1 in Ho))).
      rewrite bind_update. unfold update, w2. rewrite <- E4. done.
    - unfold w2. cbn. by rewrite Hw, app_assoc.
    - done.
    - destruct Hx as (q & l & c & s & _ & -> & _). by rewrite app_nil_r. }
  destruct ((addr =? W.last_address w) && negb p) eqn:Ec.
  - apply andb_true_iff in Ec as [El%Z.eqb_eq Ep%negb_true_iff]. subst p. rewrite (Hpe eq_refl) in *.
    destruct (gives_small addr addrs b t r Hf) as (i & r' & Hg & Hx); [by rewrite (lk_last _ _ Hl)|done|done|].
    eapply (Hend _ (W.count_small (W.set_written (W.written w ++ _) w)) i r' Hg Hx); try done. intros tail. unfold the_record. rewrite bind_gets.
    change (W.last_address (W.set_response tail w)) with (W.last_address w). rewrite (proj2 (Z.eqb_eq addr _)) by done. cbn [andb negb]. rewrite bind_assoc, write_first by done. done.
  - destruct (gives_ext addr addrs b t p e r Hf) as (i & r' & Hg & Hx); [done|done|].
    eapply (Hend _ (W.count_ext (W.set_last_address addr (W.set_written (W.written w ++ _) w))) i r' Hg Hx); try done. intros tail. unfold the_record. rewrite bind_gets.
    change (W.last_address (W.set_response tail w)) with (W.last_address w). rewrite Ec. rewrite bind_assoc, write_first by done. done.
Qed.
(** An instruction is written, and read by the reader. *)
Lemma instruction_carried addr addrs b t p e w r :
  linked w r -> 0 <= addr -> (0 < isize addr < 16)%nat -> addr + Z.of_nat (isize addr) <= 2 ^ 64 - 4096 ->
  (length addrs <= 2)%nat -> Forall (in_range 64) addrs -> (p = false -> e = true) ->
  exists w' i r' r1, delivers (W.Instruction getCode pagemap addr (isize addr) addrs b t p e) tt w w' r i r' /\ linked w' r' /\
    client r1 = client r /\ m_isa r1 = m_isa r /\ executed_as addr addrs b t p e r1 i r' /\
    W.memory w' = W.memory w /\ W.m_send_va2pa_mapping w' = W.m_send_va2pa_mapping w /\ Forall (translated w' r') (addr :: addrs).
Proof.
  intros Hl Hpos Hsz Hmax Hlen Hr Hpe. destruct (exchange_before addr addrs w r Hl Hpos Hsz Hmax Hr) as (w1 & r1 & X1 & L1 & S1 & F1 & T1).
  destruct (delivers_record addr addrs b t p e w1 r1 L1 F1 Hlen Hr Hpe) as (w2 & i & r2 & D2 & L2 & Hx & Em & Es).
  destruct (exchange_delivers _ (fun _ => the_record addr addrs b t p e) _ _ _ _ _ _ _ _ _ X1 D2) as (sent & ans & E & Hw & Hg & Hresp).
  exists w2, i, r2, r1. split_and!; try done.
  - exists sent, ans. split_and!; [|done|done|done]. intros tail. rewrite instruction_parts; [apply E|apply (lk_output _ _ Hl)|lia|done].
  - apply (st_client _ _ _ _ S1).
  - apply (st_isa _ _ _ _ S1).
  - by rewrite Em, (st_memory _ _ _ _ S1).
  - by rewrite Es, (st_sends _ _ _ _ S1).
  - destruct Hx as (q & l & c & s & _ & -> & _). eapply Forall_impl; [exact T1|]. intros a Ha. unfold translated in *. by rewrite Es.
Qed.

(** *** Accesses to memory *)

Definition request_bytes (lock op addr : Z) (data : list Z) : list Z :=
  le 8 addr ++ le 4 (Z.of_nat (length data)) ++ le 4 lock ++ le 4 op ++ (if op =? MemWrite then data else []).
Definition request_size (op : Z) (data : list Z) : Z := 20 + (if op =? MemWrite then Z.of_nat (length data) else 0).
Definition reply_size (op : Z) (data : list Z) : Z := 12 + (if op =? MemRead then Z.of_nat (length data) else 0).
Definition reply_bytes (op addr : Z) (l : list Z) : list Z := le 8 addr ++ le 4 op ++ (if op =? MemRead then l else []).

(** The writer serves a request. *)
Lemma writer_serves lock op addr data tail w : W.output w = true -> W.memory_func w = true ->
  in_range 32 lock -> op = MemRead \/ op = MemWrite -> in_range 64 addr -> 0 < Z.of_nat (length data) < 2 ^ 32 - 20 ->
  let '(l, m) := access accessMemory lock op addr data (W.memory w) in
  W.handleMemoryRequest accessMemory (mkOther 0 RecOtherMemoryRequest (request_size op data)) (W.set_response (request_bytes lock op addr data ++ tail) w) =
    Ok (tt, W.set_response tail (W.set_memory m (W.set_written (W.written w ++ Other RecOtherMemoryResponse (reply_size op data) ++ reply_bytes op addr l) w))).
Proof.
  intros Ho Hf Hlock Hop Haddr Hlen. unfold access. unfold W.handleMemoryRequest, request_bytes. rewrite bind_gets. cbn [W.output W.set_response other_size]. rewrite Ho. cbn [negb].
  assert (Hsz : 20 <= request_size op data) by (unfold request_size; destruct (_ =? _); lia). rewrite (proj2 (Z.ltb_ge _ 20)) by done. rewrite <- !app_assoc.
  rewrite (bind_ok _ _ _ _ _ (wread_value_run 8 addr _ w)), (bind_ok _ _ _ _ _ (wread_value_run 4 _ _ w)), (bind_ok _ _ _ _ _ (wread_value_run 4 lock _ w)), (bind_ok _ _ _ _ _ (wread_value_run 4 op _ w)).
  change (8 * Z.of_nat 8) with 64. change (8 * Z.of_nat 4) with 32. rewrite (wrap_small 64 addr), (wrap_small 32 (Z.of_nat (length data))), (wrap_small 32 lock) by (unfold in_range in *; lia).
  rewrite bind_gets. cbn [W.memory_func W.set_response]. rewrite Hf. cbn [negb]. destruct Hop as [-> | ->].
  - change (u32 MemRead) with MemRead. change (MemRead =? MemRead) with true. cbv iota. change (request_size MemRead data - 20 =? 0) with true. cbn [negb].
    rewrite (proj2 (Z.leb_gt (Z.of_nat (length data)) 0)) by lia. rewrite bind_gets, Nat2Z.id. cbn [W.memory W.set_response].
    destruct (accessMemory lock MemRead addr (replicate (length data) 0) (W.memory w)) as [l m] eqn:Ea.
    rewrite bind_update. unfold W.write_other. rewrite (wrap_small 32) by (unfold in_range; lia).
    rewrite write_first, !write_next, write_last by done. unfold reply_bytes, reply_size. change (MemRead =? MemRead) with true. cbv iota.
    rewrite <- !app_assoc. done.
  - change (u32 MemWrite) with MemWrite. change (MemWrite =? MemRead) with false. change (MemWrite =? MemWrite) with true. cbv iota.
    unfold request_size. change (MemWrite =? MemWrite) with true. cbv iota. replace (20 + Z.of_nat (length data) - 20) with (Z.of_nat (length data)) by lia.
    rewrite (proj2 (Z.leb_gt (Z.of_nat (length data)) 0)) by lia. rewrite Z.eqb_refl. cbn [negb]. rewrite Nat2Z.id.
    rewrite (bind_ok _ _ _ _ _ (wread_run _ data tail w eq_refl)), bind_gets. cbn [W.memory W.set_response].
    destruct (accessMemory lock MemWrite addr data (W.memory w)) as [l m] eqn:Ea. cbn [snd].
    rewrite bind_update. unfold W.write_other. rewrite write_first, !write_next, write_last by done. unfold reply_bytes, reply_size. change (MemWrite =? MemRead) with false. cbv iota.
    rewrite app_nil_r, <- !app_assoc. done.
Qed.

(** The reader sends a request and reads the reply. *)
Lemma reader_accesses lock op addr data l rest r : m_format r = Sift -> has_response_file r = true ->
  op = MemRead \/ op = MemWrite -> in_range 64 addr -> 0 < Z.of_nat (length data) < 2 ^ 32 - 20 -> length l = length data -> (op = MemWrite -> l = data) ->
  AccessMemory inflate decompress has_lzma lock op addr data (feed ((Other RecOtherMemoryResponse (reply_size op data) ++ reply_bytes op addr l) ++ rest) r) =
    Ok ((true, l), feed rest (set_response (response r ++ Other RecOtherMemoryRequest (request_size op data) ++ request_bytes lock op addr data) r)).
Proof.
  intros Hf Hs Hop Haddr Hlen Hl Hw. unfold AccessMemory. rewrite bind_gets. change (m_format (feed _ r)) with (m_format r). rewrite Hf, bool_decide_eq_false_2 by done.
  rewrite bind_gets. cbn [input feed set_input]. rewrite bind_ret. cbn [negb]. unfold initResponse. rewrite bind_gets. change (has_response_file (feed _ r)) with (has_response_file r).
  rewrite Hs. cbn [negb]. cbv zeta. rewrite (wrap_small 32) by (unfold in_range; destruct (op =? MemWrite); lia). fold (request_size op data).
  set (B := (Other _ _ ++ _) ++ rest). do 5 (rewrite (bind_ok _ _ _ _ _ (send_run _ _))).
  set (q := response r ++ Other RecOtherMemoryRequest (request_size op data) ++ request_bytes lock op addr data).
  assert (Hreq : exists r1, r1 = set_response q r /\ forall (k : unit -> Proc (Reader H) (bool * list Z)),
    (when (op =? MemWrite) (send data) ≫= k) (set_response ((((((response r ++ Other RecOtherMemoryRequest (request_size op data)) ++ le 8 addr) ++ le 4 (Z.of_nat (length data))) ++ le 4 lock) ++ le 4 op)) (feed B r)) =
    k tt (feed B r1)).
  { exists (set_response q r). split; [done|]. intros k. unfold q, request_bytes. destruct (op =? MemWrite); cbn [when].
    - rewrite (bind_ok _ _ _ _ _ (send_run _ _)). cbn [response set_response]. rewrite <- !app_assoc. done.
    - rewrite bind_ret, app_nil_r, <- !app_assoc. done. }
  destruct Hreq as (r1 & Er1 & Hreq). etransitivity; [apply Hreq|]. unfold B. rewrite <- !app_assoc.
  assert (Hrs : 0 <= reply_size op data < 2 ^ 32) by (unfold reply_size; destruct (op =? MemRead); lia).
  rewrite (bind_ok _ _ _ _ _ (read_other_run RecOtherMemoryResponse (reply_size op data) _ r1 ltac:(done) Hrs)). cbn [other_type other_size]. rewrite Z.eqb_refl. cbn [negb].
  unfold reply_bytes. rewrite <- !app_assoc. rewrite (bind_ok _ _ _ _ _ (read_value_run 8 addr _ r1)), (bind_ok _ _ _ _ _ (read_run_n 4 (le 4 op) _ r1 (length_le 4 op))).
  rewrite wrap_small, Z.eqb_refl by done. cbn [negb]. subst r1. destruct Hop as [-> | ->].
  - change (MemRead =? MemRead) with true. cbv iota. unfold reply_size. change (MemRead =? MemRead) with true. cbv iota.
    replace (12 + Z.of_nat (length data) - 12) with (Z.of_nat (length data)) by lia. rewrite wrap_small, Z.eqb_refl by (unfold in_range; lia). cbn [negb].
    by rewrite (bind_ok _ _ _ _ _ (read_known_run (length data) l rest _ Hl)).
  - rewrite Hw by done. done.
Qed.

Lemma await_request {A} (fuel : nat) (bad : Proc (W.Writer M) A) expected accept other lock op addr data tail w : W.output w = true -> W.memory_func w = true ->
  in_range 32 lock -> op = MemRead \/ op = MemWrite -> in_range 64 addr -> 0 < Z.of_nat (length data) < 2 ^ 32 - 20 -> expected <> RecOtherMemoryRequest ->
  let '(l, m) := access accessMemory lock op addr data (W.memory w) in
  W.await accessMemory (S fuel) bad true expected accept other (W.set_response ((Other RecOtherMemoryRequest (request_size op data) ++ request_bytes lock op addr data) ++ tail) w) =
  W.await accessMemory fuel bad true expected accept other (W.set_response tail (W.set_memory m (W.set_written (W.written w ++ Other RecOtherMemoryResponse (reply_size op data) ++ reply_bytes op addr l) w))).
Proof.
  intros Ho Hf Hlock Hop Haddr Hlen Hne. pose proof (writer_serves lock op addr data tail w Ho Hf Hlock Hop Haddr Hlen) as Hs.
  destruct (access accessMemory lock op addr data (W.memory w)) as [l m]. cbn [W.await].
  assert (Hrs : 0 <= request_size op data < 2 ^ 32) by (unfold request_size; destruct (_ =? _); lia). rewrite <- app_assoc.
  rewrite (bind_ok _ _ _ _ _ (wread_other_run RecOtherMemoryRequest (request_size op data) _ w ltac:(done) Hrs)). cbn [other_zero other_type].
  rewrite (proj2 (Z.eqb_neq RecOtherMemoryRequest expected)) by done. change (negb (0 =? 0)) with false. change (true && (RecOtherMemoryRequest =? RecOtherMemoryRequest)) with true. cbv iota.
  by rewrite (bind_ok _ _ _ _ _ Hs).
Qed.

(** A handler runs as if it accessed the memory itself. *)
Lemma handler_served {A} (p : prog A) w r : polite p -> W.output w = true -> W.memory_func w = true -> m_format r = Sift -> has_response_file r = true ->
  exists sent answered,
    (forall rest, run_handler inflate decompress has_lzma p (feed (sent ++ rest) r) =
       Ok ((run_direct accessMemory p (W.memory w)).1, feed rest (set_response (response r ++ answered) r))) /\
    forall B fuel (bad : Proc (W.Writer M) B) expected accept other tail, expected <> RecOtherMemoryRequest -> (length (answered ++ tail) < fuel)%nat ->
      exists fuel', (length tail < fuel')%nat /\
        W.await accessMemory fuel bad true expected accept other (W.set_response (answered ++ tail) w) =
        W.await accessMemory fuel' bad true expected accept other
          (W.set_response tail (W.set_memory (run_direct accessMemory p (W.memory w)).2 (W.set_written (W.written w ++ sent) w))).
Proof.
  revert w r. induction p as [a|lock op addr data k IH]; intros w r Hp Ho Hf Hfmt Hr.
  { exists [], []. split; [intros rest; cbn; rewrite app_nil_r; by destruct r|]. intros B fuel bad expected accept other tail _ Hfuel. exists fuel. split; [done|].
    cbn. rewrite app_nil_r. by destruct w. }
  cbn [polite] in Hp. destruct Hp as (Hlock & Hop & Haddr & Hlen & Hk).
  cbn [run_direct]. destruct (access accessMemory lock op addr data (W.memory w)) as [l m] eqn:Ea.
  set (reply := Other RecOtherMemoryResponse (reply_size op data) ++ reply_bytes op addr l). set (req := Other RecOtherMemoryRequest (request_size op data) ++ request_bytes lock op addr data).
  set (w1 := W.set_memory m (W.set_written (W.written w ++ reply) w)). set (r1 := set_response (response r ++ req) r).
  assert (Hl : length l = length data /\ (op = MemWrite -> l = data)).
  { unfold access in Ea. destruct Hop as [-> | ->].
    - change (MemRead =? MemRead) with true in Ea. cbv iota in Ea. split; [|done]. pose proof (access_length lock MemRead addr (replicate (length data) 0) (W.memory w)) as E.
      rewrite Ea, length_replicate in E. exact E.
    - change (MemWrite =? MemRead) with false in Ea. cbv iota in Ea. by injection Ea as <- <-. }
  destruct (IH true l w1 r1) as (sent & answered & E1 & E2); [apply Hk|done|done|done|done|].
  exists (reply ++ sent), (req ++ answered). split.
  - intros rest. cbn [run_handler]. rewrite <- app_assoc. rewrite (bind_ok _ _ _ _ _ (reader_accesses lock op addr data l _ r Hfmt Hr Hop Haddr Hlen (proj1 Hl) (proj2 Hl))).
    fold req r1. cbv beta iota. rewrite (E1 rest). unfold r1. cbn [response set_response]. by rewrite <- app_assoc.
  - intros B fuel bad expected accept other tail Hne Hfuel. destruct fuel as [|fuel]; [lia|]. rewrite <- app_assoc in *. rewrite length_app in Hfuel.
    pose proof (await_request fuel bad expected accept other lock op addr data (answered ++ tail) w Ho Hf Hlock Hop Haddr Hlen Hne) as Ew. rewrite Ea in Ew.
    fold req reply w1 in Ew. rewrite Ew. destruct (E2 B fuel bad expected accept other tail Hne) as (fuel' & Hf' & E'); [unfold req in Hfuel; rewrite length_app, length_Other in Hfuel; lia|].
    exists fuel'. split; [done|]. rewrite E'. unfold w1. cbn [W.memory W.set_memory W.written W.set_written]. by rewrite app_assoc.
Qed.

(** *** Calls *)

Record matches (d : Direct) w r : Prop := { mt_client : client r = d_client d; mt_memory : W.memory w = d_memory d; mt_isa : m_isa r = d_isa d }.
(** An operation of the writer has the effect and the result of a direct call. *)
Definition implements {A} (m : Proc (W.Writer M) A) (a : A) (d' : Direct) w r : Prop := exists w' r',
  exchange m a w w' r r' /\ linked w' r' /\ matches d' w' r' /\ W.m_send_va2pa_mapping w' = W.m_send_va2pa_mapping w.

Lemma linked_io m out x h i w r : linked w r -> linked (W.set_memory m (W.set_written out w)) (set_isa i (set_response x (set_client h r))).
Proof. intros []. split; try done. by apply (statics_eq _ _ r). Qed.
Lemma linked_written out w r : linked w r -> linked (W.set_written out w) r.
Proof. intros []. by split. Qed.
Lemma linked_reader x h i w r : linked w r -> linked w (set_isa i (set_response x (set_client h r))).
Proof. intros []. split; try done. by apply (statics_eq _ _ r). Qed.

Lemma call_run (o : option (H -> H)) r : call o r = Ok (tt, set_client (match o with Some f => f (client r) | None => client r end) r).
Proof. destruct o; [done|]. cbn. by destruct r. Qed.

(** A record without an answer. *)
Lemma implements_notice (o : option (H -> H)) (m : Proc (W.Writer M) unit) t n body d w r : linked w r -> matches d w r ->
  (forall w, W.output w = true -> m w = Ok (tt, W.set_written (W.written w ++ Other t n ++ body) w)) -> 0 <= t < 256 -> 0 <= n < 2 ^ 32 ->
  (forall rest, record (mkOther 0 t n) (feed (body ++ rest) r) = (call o;; mret Continue) (feed rest r)) ->
  implements m tt (notify o d).1 w r.
Proof.
  intros Hl [E1 E2 E3] Hm Ht Hn Hr. set (h := match o with Some f => f (client r) | None => client r end).
  exists (W.set_written (W.written w ++ Other t n ++ body) w), (set_client h r). split_and!.
  - apply exchange_record; try done; [apply (lk_output _ _ Hl)|apply (lk_end _ _ Hl)|]. intros rest. by rewrite Hr, (bind_ok _ _ _ _ _ (call_run o (feed rest r))).
  - destruct Hl. split; try done. by apply (statics_eq _ _ r).
  - unfold notify, h. destruct o; split; cbn; congruence.
  - done.
Qed.

(** The answer ends the wait. *)
Lemma await_answer {A} fuel (bad : Proc (W.Writer M) A) serves expected accept other k l w : 0 <= expected < 256 -> 0 <= k < 2 ^ 32 -> (0 < fuel)%nat ->
  W.await accessMemory fuel bad serves expected accept other (W.set_response (Other expected k ++ l) w) = accept (mkOther 0 expected k) (W.set_response l w).
Proof.
  intros He Hk Hf. destruct fuel as [|fuel]; [lia|]. cbn [W.await]. rewrite (bind_ok _ _ _ _ _ (wread_other_run expected k l w He Hk)).
  cbn [other_zero other_type]. change (negb (0 =? 0)) with false. by rewrite Z.eqb_refl.
Qed.
Lemma answer_run k v bad expected tail w : W.answer k bad (mkOther 0 expected (Z.of_nat k)) (W.set_response (le k v ++ tail) w) = Ok (wrap (8 * Z.of_nat k) v, W.set_response tail w).
Proof. unfold W.answer. cbn [other_size]. rewrite Z.eqb_refl. cbn [negb]. apply wread_value_run. Qed.

(** A request, the accesses that its handler makes, and the answer [final]. *)
Lemma exchange_awaiting {A} (m : Proc (W.Writer M) A) bad serves expected accept other t n body sent answered final a w w' r r' :
  linked w r ->
  (forall w, W.output w = true -> m w = W.awaiting accessMemory bad serves expected accept other (W.set_written (W.written w ++ Other t n ++ body) w)) ->
  0 <= t < 256 -> 0 <= n < 2 ^ 32 ->
  (forall rest, record (mkOther 0 t n) (feed ((body ++ sent) ++ rest) r) = Ok (Continue, feed rest r')) -> response r' = response r ++ answered ++ final ->
  (forall fuel tail, (length (answered ++ final ++ tail) < fuel)%nat ->
     W.await accessMemory fuel bad serves expected accept other (W.set_response (answered ++ final ++ tail) (W.set_written (W.written w ++ Other t n ++ body) w)) =
     Ok (a, W.set_response tail w')) ->
  W.written w' = W.written w ++ (Other t n ++ body) ++ sent -> exchange m a w w' r r'.
Proof.
  intros Hl Hm Ht Hn Hr Hresp Ha Hw. exists ((Other t n ++ body) ++ sent), (answered ++ final). split_and!; [|done| |done].
  - intros tail. rewrite Hm by apply (lk_output _ _ Hl). unfold W.awaiting, W.initResponse. rewrite bind_assoc, bind_gets. cbn [W.has_response_file W.set_written W.set_response].
    rewrite (lk_answers _ _ Hl), bind_assert, bind_gets, <- app_assoc by done. apply (Ha _ tail). cbn [W.response W.set_written W.set_response]. lia.
  - rewrite <- app_assoc. apply consumes_record; [done|done|apply (lk_end _ _ Hl)|done].
Qed.

(** A request that is answered with a value of four bytes. *)
Lemma implements_value (m : Proc (W.Writer M) Z) bad serves expected bad0 other t n body v h d w r : linked w r -> matches d w r ->
  (forall w, W.output w = true -> m w = W.awaiting accessMemory bad serves expected (W.answer 4 bad0) other (W.set_written (W.written w ++ Other t n ++ body) w)) ->
  0 <= t < 256 -> 0 <= n < 2 ^ 32 -> 0 <= expected < 256 ->
  (forall rest, record (mkOther 0 t n) (feed (body ++ rest) r) = (sendSimpleResponse expected (le 4 v);; mret Continue) (feed rest (set_client h r))) ->
  implements m (u32 v) (mkDirect h (d_memory d) (d_isa d)) w r.
Proof.
  intros Hl [E1 E2 E3] Hm Ht Hn He Hr. set (final := Other expected 4 ++ le 4 v). set (w' := W.set_written (W.written w ++ Other t n ++ body) w).
  set (r' := set_response (response r ++ final) (set_client h r)). exists w', r'. split_and!.
  - apply (exchange_awaiting m bad serves expected (W.answer 4 bad0) other t n body [] [] final); try done.
    + intros rest. rewrite app_nil_r, Hr. unfold sendSimpleResponse, initResponse. rewrite bind_assoc, bind_gets. change (has_response_file (feed _ (set_client h r))) with (has_response_file r).
      rewrite (lk_sends _ _ Hl), bind_assoc. rewrite (bind_ok _ _ _ _ _ (send_run _ _)). rewrite length_le. cbn [Nat.ltb Nat.leb when]. rewrite (bind_ok _ _ _ _ _ (send_run _ _)).
      cbn [response set_response]. unfold r', final. rewrite <- app_assoc. done.
    + intros fuel tail Hf. unfold final. cbn [app]. rewrite <- app_assoc. rewrite await_answer by (done || lia). apply (answer_run 4).
    + unfold w'. cbn. by rewrite app_nil_r.
  - apply linked_written. destruct Hl. split; try done. by apply (statics_eq _ _ r).
  - by split.
  - done.
Qed.

(** A request whose handler may access the memory. *)
Lemma implements_handler {A B} (f : H -> prog (H * A)) (m : Proc (W.Writer M) B) bad expected accept other t n body k (final : list Z) (out : B) (finish : A -> Proc (Reader H) next) d w r :
  linked w r -> matches d w r ->
  (forall w, W.output w = true -> m w = W.awaiting accessMemory bad true expected accept other (W.set_written (W.written w ++ Other t n ++ body) w)) ->
  0 <= t < 256 -> 0 <= n < 2 ^ 32 -> 0 <= expected < 256 -> 0 <= k < 2 ^ 32 -> expected <> RecOtherMemoryRequest -> polite (f (d_client d)) ->
  (forall rest, record (mkOther 0 t n) (feed (body ++ rest) r) = (v ← call_handler inflate decompress has_lzma f; finish v) (feed rest r)) ->
  (forall rest r, has_response_file r = true ->
     finish (consult accessMemory f d).2 (feed rest r) = Ok (Continue, feed rest (set_response (response r ++ Other expected k ++ final) r))) ->
  (forall tail w, accept (mkOther 0 expected k) (W.set_response (final ++ tail) w) = Ok (out, W.set_response tail w)) ->
  implements m out (consult accessMemory f d).1 w r.
Proof.
  intros Hl [E1 E2 E3] Hm Ht Hn He Hk Hne Hp Hr Hfin Hacc. set (w0 := W.set_written (W.written w ++ Other t n ++ body) w).
  destruct (handler_served (f (client r)) w0 r) as (sent & answered & S1 & S2); [by rewrite E1|apply (lk_output _ _ Hl)|apply (lk_func _ _ Hl)|apply (lk_format _ _ Hl)|apply (lk_sends _ _ Hl)|].
  change (W.memory w0) with (W.memory w) in *. unfold consult in *. rewrite E1, E2 in *. destruct (run_direct accessMemory (f (d_client d)) (d_memory d)) as [[h v] mem]. cbn [fst snd] in *.
  set (w' := W.set_memory mem (W.set_written (W.written w0 ++ sent) w0)). set (r' := set_response (response r ++ answered ++ Other expected k ++ final) (set_client h r)).
  exists w', r'. split_and!.
  - eapply (exchange_awaiting m bad true expected accept other t n body sent answered (Other expected k ++ final)); try done.
    + intros rest. rewrite <- app_assoc, Hr. unfold call_handler. rewrite bind_assoc, bind_gets. change (client (feed _ r)) with (client r). rewrite E1, bind_assoc, (bind_ok _ _ _ _ _ (S1 rest)).
      cbv beta iota. rewrite bind_assoc, bind_update, bind_ret. change (set_client h (feed rest (set_response (response r ++ answered) r))) with (feed rest (set_client h (set_response (response r ++ answered) r))). rewrite (Hfin rest (set_client h (set_response (response r ++ answered) r))) by apply (lk_sends _ _ Hl).
      unfold r'. cbn [response set_response set_client]. rewrite <- app_assoc. done.
    + intros fuel tail Hf. destruct (S2 B fuel bad expected accept other ((Other expected k ++ final) ++ tail) Hne) as (fuel' & Hf' & Ew); [by rewrite <- app_assoc|].
      rewrite <- app_assoc in Ew, Hf'. rewrite <- app_assoc. etransitivity; [exact Ew|]. rewrite await_answer by (done || lia). apply Hacc.
    + unfold w', w0. cbn. by rewrite <- app_assoc.
  - apply (linked_io mem (W.written w0 ++ sent) (response r ++ answered ++ Other expected k ++ final) h (m_isa r) w r) in Hl. by destruct r.
  - by split.
  - done.
Qed.

(** ** Every request *)

Definition perform (q : request) : Proc (W.Writer M) outcome :=
  match q with
  | RInstruction addr size addrs branch direction predicate executes => W.Instruction getCode pagemap addr size addrs branch direction predicate executes;; mret Done
  | RInstructionCount icount => v ← W.InstructionCount accessMemory icount; mret (Value v)
  | RCacheOnly icount type eip address => W.CacheOnly pagemap icount type eip address;; mret Done
  | ROutput fd data => W.Output fd data;; mret Done
  | RNewThread => v ← W.NewThread accessMemory; mret (Value v)
  | RSyscall number data => v ← W.Syscall accessMemory pagemap number data; mret (Value v)
  | RJoin thread => v ← W.Join accessMemory thread; mret (Value v)
  | RSync => v ← W.Sync accessMemory; mret (Value v)
  | RFork => v ← W.Fork accessMemory; mret (Value v)
  | RMagic a b c => v ← W.Magic accessMemory a b c; mret (Value v)
  | REmulate type req res => '(b, l) ← W.Emulate accessMemory type req res; mret (Emulated b l)
  | RRoutineChange event eip esp callEip => W.RoutineChange event eip esp callEip;; mret Done
  | RRoutineAnnounce eip name imgname offset line column filename => W.RoutineAnnounce eip name imgname offset line column filename;; mret Done
  | RISAChange new_isa => W.ISAChange new_isa;; mret Done
  end.
Definition is_instruction (q : request) : bool := match q with RInstruction _ _ _ _ _ _ _ => true | _ => false end.

Lemma implements_map {A B} (m : Proc (W.Writer M) A) (g : A -> B) a d' w r : implements m a d' w r -> implements (x ← m; mret (g x)) (g a) d' w r.
Proof. intros (w' & r' & X & L & Mt & S). exists w', r'. split_and!; try done. eapply exchange_bind; [exact X|]. by apply exchange_refl. Qed.
Lemma implements_then {A B} (m : Proc (W.Writer M) A) (k : A -> Proc (W.Writer M) B) a b d' w r : implements m a d' w r -> k a = mret b -> implements (m ≫= k) b d' w r.
Proof. intros (w' & r' & X & L & Mt & S) Ek. exists w', r'. split_and!; try done. eapply exchange_bind; [exact X|]. rewrite Ek. by apply exchange_refl. Qed.
Lemma implements_after {A B} (m : Proc (W.Writer M) A) (k : A -> Proc (W.Writer M) B) a b d' w w1 r r1 :
  exchange m a w w1 r r1 -> W.m_send_va2pa_mapping w1 = W.m_send_va2pa_mapping w -> implements (k a) b d' w1 r1 -> implements (m ≫= k) b d' w r.
Proof. intros X1 S1 (w' & r' & X & L & Mt & S). exists w', r'. split_and!; try done; [by eapply exchange_bind|congruence]. Qed.
Lemma stays_matches d w w' r r' : stays w w' r r' -> matches d w r -> matches d w' r'.
Proof. intros [] []. split; congruence. Qed.

(** The bytes that an operation writes, and how the reader takes them. *)
Ltac writes := intros ? Hw; rewrite bind_gets, Hw; cbn [negb]; unfold W.write_other;
  rewrite write_first by done; rewrite ?write_next by done; rewrite ?write_last by done; rewrite <- ?app_assoc; reflexivity.
Ltac reads := intros rest; rewrite <- ?app_assoc; pick_case; rewrite ?bind_assert by (done || lia);
  repeat (erewrite bind_ok by apply read_value_run).

Context (consume : seen -> H -> H) (sends : bool).
Abbreviation calls := (direct accessMemory pagemap code handlers consume sends).
Definition request_ok (q : request) : Prop := forall d w r, linked w r -> matches d w r -> carried accessMemory handlers isize q d ->
  implements (perform q) (calls q d).2 (calls q d).1 w r.

Lemma routine_change_ok event eip esp callEip : request_ok (RRoutineChange event eip esp callEip).
Proof.
  intros d w r Hl Hm _. apply (implements_map _ (fun _ => Done) tt). apply (implements_notice _ _ RecOtherRoutineChange 25 (le 1 event ++ le 8 eip ++ le 8 esp ++ le 8 callEip)); try done.
  - unfold W.RoutineChange. writes.
  - reads. done.
Qed.
Lemma string_size name : 0 <= W.string_length name < 2 ^ 16 /\ length (W.string_bytes name) = Z.to_nat (W.string_length name).
Proof.
  pose proof (wrap_range' 16 (Z.of_nat (length name) + 1) ltac:(lia)) as Hr. fold (W.string_length name) in Hr. split; [done|].
  unfold W.string_bytes. rewrite length_take, length_app. cbn. assert (W.string_length name <= Z.of_nat (length name) + 1) by (apply Z.mod_le; lia). lia.
Qed.
Lemma routine_announce_ok eip name imgname offset line column filename : request_ok (RRoutineAnnounce eip name imgname offset line column filename).
Proof.
  intros d w r Hl Hm _. apply (implements_map _ (fun _ => Done) tt). destruct (string_size name) as [N1 N2], (string_size imgname) as [I1 I2], (string_size filename) as [F1 F2].
  apply (implements_notice _ _ RecOtherRoutineAnnounce (8 + 2 + W.string_length name + 2 + W.string_length imgname + 8 + 4 + 4 + 2 + W.string_length filename)
    (le 8 eip ++ le 2 (W.string_length name) ++ W.string_bytes name ++ le 2 (W.string_length imgname) ++ W.string_bytes imgname ++ le 8 offset ++ le 4 line ++ le 4 column ++
     le 2 (W.string_length filename) ++ W.string_bytes filename)); try done; [|lia|].
  - unfold W.RoutineAnnounce. writes.
  - assert (Hread : forall x rest, read_known (Z.to_nat (wrap (8 * Z.of_nat 2) (W.string_length x))) (feed (W.string_bytes x ++ rest) r) = Ok (W.string_bytes x, feed rest r)).
    { intros x rest. destruct (string_size x) as [X1 X2]. apply read_known_run. by rewrite wrap_small. }
    reads. erewrite bind_ok by apply Hread. erewrite bind_ok by apply read_value_run. erewrite bind_ok by apply Hread. do 4 (erewrite bind_ok by apply read_value_run).
    erewrite bind_ok by apply Hread. done.
Qed.
Lemma isa_change_ok new_isa : request_ok (RISAChange new_isa).
Proof.
  intros d w r Hl [E1 E2 E3] _. apply (implements_map _ (fun _ => Done) tt). exists (W.set_written (W.written w ++ Other RecOtherISAChange 4 ++ le 4 new_isa) w), (set_isa (u32 new_isa) r). split_and!.
  - apply exchange_record; try done; [apply (lk_output _ _ Hl)| |apply (lk_end _ _ Hl)|].
    + unfold W.ISAChange. writes.
    + reads. done.
  - destruct Hl. split; try done. by apply (statics_eq _ _ r).
  - by split.
  - done.
Qed.
Lemma output_ok fd data : request_ok (ROutput fd data).
Proof.
  intros d w r Hl Hm Hlen. cbn [carried] in Hlen. apply (implements_map _ (fun _ => Done) tt). assert (Hn : u32 (1 + Z.of_nat (length data)) = 1 + Z.of_nat (length data)) by (apply wrap_small; unfold in_range; lia).
  apply (implements_notice _ _ RecOtherOutput (u32 (1 + Z.of_nat (length data))) (le 1 fd ++ data)); try done; [|rewrite Hn; lia|].
  - unfold W.Output. writes.
  - rewrite Hn. reads. replace (Z.to_nat (1 + Z.of_nat (length data) - 1)) with (length data) by lia.
    by erewrite bind_ok by by apply read_known_run.
Qed.
Lemma cache_only_ok icount type eip address : request_ok (RCacheOnly icount type eip address).
Proof.
  intros d w r Hl Hm [He Ha]. apply (implements_map _ (fun _ => Done) tt). unfold W.CacheOnly.
  destruct (exchange_va2pa eip w r Hl He) as (w1 & r1 & X1 & L1 & S1 & _). destruct (exchange_va2pa address w1 r1 L1 Ha) as (w2 & r2 & X2 & L2 & S2 & _).
  eapply (implements_after (gets W.output) _ (W.output w)); [by apply exchange_refl|done|]. rewrite (lk_output _ _ Hl). cbn [negb].
  eapply implements_after; [exact X1|apply (st_sends _ _ _ _ S1)|]. eapply implements_after; [exact X2|apply (st_sends _ _ _ _ S2)|].
  assert (Hm2 : matches d w2 r2) by (eapply stays_matches; [exact S2|]; by eapply stays_matches).
  apply (implements_notice _ _ RecOtherCacheOnly 18 (le 1 icount ++ le 1 type ++ le 8 eip ++ le 8 address)); try done.
  - intros w0 Hw. unfold W.write_other. rewrite write_first, !write_next, write_last by done. by rewrite <- !app_assoc.
  - reads. done.
Qed.

(** Requests that are answered with a value. *)
Lemma call_value_run (f : H -> H * Z) r : call_value f r = Ok ((f (client r)).2, set_client (f (client r)).1 r).
Proof. unfold call_value. rewrite bind_gets. by destruct (f (client r)). Qed.
Lemma ask_matches d w r (f : H -> H * Z) : matches d w r ->
  ask 32 f d = (mkDirect (f (client r)).1 (d_memory d) (d_isa d), Value (u32 (f (client r)).2)).
Proof. intros [E1 E2 E3]. unfold ask. rewrite E1. by destruct (f (d_client d)). Qed.
Lemma set_client_same r : set_client (client r) r = r.
Proof. by destruct r. Qed.
Lemma matches_same d w r : matches d w r -> d = mkDirect (client r) (d_memory d) (d_isa d).
Proof. intros [E1 E2 E3]. rewrite E1. by destruct d. Qed.

Ltac asks := unfold W.InstructionCount, W.NewThread, W.Join, W.Sync, W.Fork; intros ? Hw; rewrite bind_gets, Hw; cbn [negb]; unfold W.write_other;
  rewrite write_first by done; rewrite ?write_next by done; rewrite ?app_nil_r, <- ?app_assoc; reflexivity.

Lemma instruction_count_ok icount : request_ok (RInstructionCount icount).
Proof.
  intros d w r Hl Hm _. cbn [direct perform]. destruct (handleInstructionCountFunc handlers) as [f|] eqn:Ef.
  - rewrite (ask_matches d w r _ Hm). apply (implements_map _ Value). eapply (implements_value _ _ false _ _ _ RecOtherInstructionCount 4 (le 4 icount)); [done|done|asks|done|done|done|].
    reads. rewrite Ef. by erewrite bind_ok by apply call_value_run.
  - rewrite (matches_same d w r Hm). cbn [fst snd d_memory d_isa]. apply (implements_map _ Value).
    eapply (implements_value _ _ false _ _ _ RecOtherInstructionCount 4 (le 4 icount) ModeUnknown); [done|done|asks|done|done|done|]. reads. by rewrite Ef, bind_ret, set_client_same.
Qed.
Lemma sync_ok : request_ok RSync.
Proof.
  intros d w r Hl Hm _. cbn [direct perform]. destruct (handleInstructionCountFunc handlers) as [f|] eqn:Ef.
  - rewrite (ask_matches d w r _ Hm). apply (implements_map _ Value). eapply (implements_value _ _ true _ _ _ RecOtherSync 0 []); [done|done|asks|done|done|done|].
    reads. rewrite Ef. by erewrite bind_ok by apply call_value_run.
  - rewrite (matches_same d w r Hm). cbn [fst snd d_memory d_isa]. apply (implements_map _ Value).
    eapply (implements_value _ _ true _ _ _ RecOtherSync 0 [] ModeUnknown); [done|done|asks|done|done|done|]. reads. by rewrite Ef, bind_ret, set_client_same.
Qed.
Lemma new_thread_ok : request_ok RNewThread.
Proof.
  intros d w r Hl Hm [f Ef]. cbn [direct perform]. rewrite Ef, (ask_matches d w r _ Hm). apply (implements_map _ Value).
  eapply (implements_value _ _ false _ _ _ RecOtherNewThread 0 []); [done|done|asks|done|done|done|]. reads. rewrite Ef. by erewrite bind_ok by apply call_value_run.
Qed.
Lemma fork_ok : request_ok RFork.
Proof.
  intros d w r Hl Hm [f Ef]. cbn [direct perform]. rewrite Ef, (ask_matches d w r _ Hm). apply (implements_map _ Value).
  eapply (implements_value _ _ false _ _ _ RecOtherFork 0 []); [done|done|asks|done|done|done|]. reads. rewrite Ef. by erewrite bind_ok by apply call_value_run.
Qed.
Lemma join_ok thread : request_ok (RJoin thread).
Proof.
  intros d w r Hl Hm [f Ef]. cbn [direct perform]. rewrite Ef, (ask_matches d w r _ Hm). apply (implements_map _ Value).
  eapply (implements_value _ _ false _ _ _ RecOtherJoin 4 (le 4 thread)); [done|done|asks|done|done|done|]. reads. rewrite Ef. by erewrite bind_ok by apply call_value_run.
Qed.

(** Requests whose handlers access the memory. *)
Lemma exchange_argument number data w r : linked w r -> Forall is_byte data -> (number = W.SYS_futex -> 8 <= length data)%nat -> (number = W.SYS_write -> 16 <= length data)%nat ->
  exists w' r', exchange (W.send_argument pagemap number data) tt w w' r r' /\ linked w' r' /\ stays w w' r r'.
Proof.
  intros Hl Hb H1 H2. assert (Harg : forall i, (8 * (i + 1) <= length data)%nat -> exists w' r',
    exchange (a ← W.argument data i; W.send_va2pa pagemap a) tt w w' r r' /\ linked w' r' /\ stays w w' r r').
  { intros i Hi. set (a := of_le (take 8 (drop (8 * i) data))). destruct (exchange_va2pa a w r Hl) as (w1 & r1 & X & L & S & _).
    { unfold in_range, a. pose proof (of_le_range (take 8 (drop (8 * i) data))) as Hr. rewrite length_take, length_drop in Hr.
      replace (Nat.min 8 (length data - 8 * i)) with 8%nat in Hr by lia. apply Hr. by apply Forall_take, Forall_drop. }
    exists w1, r1. split_and!; [|done|done]. eapply exchange_bind; [|exact X]. apply exchange_refl. intros tail. unfold W.argument. by rewrite (proj2 (Nat.leb_le _ _)) by lia. }
  unfold W.send_argument. destruct (Z.eqb_spec number W.SYS_futex) as [E|_]; [apply Harg; specialize (H1 E); lia|].
  destruct (Z.eqb_spec number W.SYS_write) as [E|_]; [apply Harg; specialize (H2 E); lia|]. exists w, r. split_and!; [by apply exchange_refl|done|by apply stays_refl].
Qed.
Lemma syscall_ok number data : request_ok (RSyscall number data).
Proof.
  intros d w r Hl Hm (Hlen & Hb & H1 & H2 & f & Ef & Hp). cbn [direct perform]. rewrite Ef. destruct (exchange_argument number data w r Hl Hb H1 H2) as (w1 & r1 & X1 & L1 & S1).
  assert (Hn : u32 (2 + Z.of_nat (length data)) = 2 + Z.of_nat (length data)) by (apply wrap_small; unfold in_range; lia).
  destruct (consult accessMemory (f (u16 number) data) d) as [d' v] eqn:Ec. cbn [fst snd]. apply (implements_map _ Value). unfold W.Syscall.
  eapply (implements_after (gets W.output) _ (W.output w)); [by apply exchange_refl|done|]. rewrite (lk_output _ _ Hl). cbn [negb].
  eapply implements_after; [exact X1|apply (st_sends _ _ _ _ S1)|]. replace d' with (consult accessMemory (f (u16 number) data) d).1 by by rewrite Ec.
  apply (implements_handler _ _ (mret 1) RecOtherSyscallResponse (W.answer 8 1) None RecOtherSyscallRequest (u32 (2 + Z.of_nat (length data))) (le 2 number ++ data) 8 (le 8 v) (u64 v)
    (fun ret => sendSyscallResponse ret;; mret Continue)); try done.
  - by eapply stays_matches.
  - intros w0 Hw. unfold W.write_other. rewrite write_first, !write_next by done. by rewrite <- !app_assoc.
  - rewrite Hn. lia.
  - rewrite Hn. reads. replace (Z.to_nat (2 + Z.of_nat (length data) - 2)) with (length data) by lia. erewrite bind_ok by by apply read_known_run. rewrite Ef. done.
  - intros rest r0 Hs. rewrite Ec. cbn [snd]. unfold sendSyscallResponse, initResponse. rewrite bind_assoc, bind_gets. change (has_response_file (feed rest r0)) with (has_response_file r0).
    rewrite Hs, bind_assoc, (bind_ok _ _ _ _ _ (send_run _ _)), (bind_ok _ _ _ _ _ (send_run _ _)). cbn [response set_response]. rewrite <- app_assoc. done.
  - intros tail w0. apply (answer_run 8).
Qed.
Lemma simple_response_run t l rest r0 : has_response_file r0 = true -> (0 < length l)%nat ->
  (sendSimpleResponse t l;; mret Continue) (feed rest r0) = Ok (Continue, feed rest (set_response (response r0 ++ Other t (Z.of_nat (length l)) ++ l) r0)).
Proof.
  intros Hs Hl. unfold sendSimpleResponse, initResponse. rewrite bind_assoc, bind_gets. change (has_response_file (feed rest r0)) with (has_response_file r0).
  rewrite Hs, bind_assoc, (bind_ok _ _ _ _ _ (send_run _ _)), (proj2 (Nat.ltb_lt 0 (length l))) by done. cbn [when]. rewrite (bind_ok _ _ _ _ _ (send_run _ _)).
  cbn [response set_response]. rewrite <- app_assoc. done.
Qed.
(** A handler that is missing is one that does nothing. *)
Lemma call_return {A} (v : A) r : call_handler inflate decompress has_lzma (fun h => Return (h, v)) r = Ok (v, r).
Proof. unfold call_handler. rewrite bind_gets. cbn [run_handler]. rewrite bind_ret. cbv beta iota. rewrite bind_update, set_client_same. done. Qed.

Definition magic_finish (result : Z) : Proc (Reader H) next :=
  if result =? 42 then mret (Stop true) else sendSimpleResponse RecOtherMagicInstructionResponse (le 8 result);; mret Continue.
Lemma magic_handler a b c f d w r : linked w r -> matches d w r -> polite (f (d_client d)) -> (consult accessMemory f d).2 <> 42 ->
  (forall rest, record (mkOther 0 RecOtherMagicInstruction 24) (feed ((le 8 a ++ le 8 b ++ le 8 c) ++ rest) r) =
     (v ← call_handler inflate decompress has_lzma f; magic_finish v) (feed rest r)) ->
  implements (W.Magic accessMemory a b c) (u64 (consult accessMemory f d).2) (consult accessMemory f d).1 w r.
Proof.
  intros Hl Hm Hp H42 Hr. eapply (implements_handler _ _ _ RecOtherMagicInstructionResponse _ _ RecOtherMagicInstruction 24 (le 8 a ++ le 8 b ++ le 8 c) 8 (le 8 (consult accessMemory f d).2) _ magic_finish);
    [done|done| |done|done|done|done|done|done|exact Hr| |].
  - intros w0 Hw. unfold W.Magic. rewrite bind_gets, Hw. cbn [negb]. unfold W.write_other. rewrite write_first, !write_next by done. rewrite <- !app_assoc. reflexivity.
  - intros rest r0 Hs. unfold magic_finish. rewrite (proj2 (Z.eqb_neq _ 42)) by done. rewrite simple_response_run; [by rewrite length_le|done|rewrite length_le; lia].
  - intros tail w0. cbn [other_size]. rewrite bind_assert by done. apply (wread_value_run 8).
Qed.
Lemma magic_ok a b c : request_ok (RMagic a b c).
Proof.
  intros d w r Hl Hm Hc. cbn [direct perform carried] in *. destruct (handleMagicFunc handlers) as [f|] eqn:Ef.
  - destruct Hc as [Hp H42]. pose proof (magic_handler a b c (f (u64 a) (u64 b) (u64 c)) d w r Hl Hm Hp H42) as Hi.
    destruct (consult accessMemory (f (u64 a) (u64 b) (u64 c)) d) as [d' v]. cbn [fst snd] in *. apply (implements_map _ Value). apply Hi. reads. by rewrite Ef.
  - pose proof (magic_handler a b c (fun h => Return (h, u64 a)) d w r Hl Hm I Hc) as Hi. cbn [fst snd]. apply (implements_map _ Value). unfold consult in Hi. cbn [run_direct fst snd] in Hi.
    rewrite (wrap_small 64 (u64 a)) in Hi by (apply wrap_range; lia). replace (mkDirect (d_client d) (d_memory d) (d_isa d)) with d in Hi by by destruct d.
    apply Hi. reads. rewrite Ef, bind_ret. by rewrite (bind_ok _ _ _ _ _ (call_return (u64 a) (feed rest r))).
Qed.

Definition emu_finish (x : bool * list Z) : Proc (Reader H) next := let '(result, reply) := x in sendEmuResponse result reply;; mret Continue.
Lemma emulate_handler type req res0 f d w r : linked w r -> matches d w r -> length req = sizeof_EmuRequest -> length res0 = sizeof_EmuReply -> polite (f (d_client d)) ->
  length (consult accessMemory f d).2.2 = sizeof_EmuReply ->
  (forall rest, record (mkOther 0 RecOtherEmu 10) (feed ((le 2 type ++ req) ++ rest) r) = (x ← call_handler inflate decompress has_lzma f; emu_finish x) (feed rest r)) ->
  implements (W.Emulate accessMemory type req res0) (consult accessMemory f d).2 (consult accessMemory f d).1 w r.
Proof.
  intros Hl Hm Hreq Hres Hp Hlen Hr. destruct (consult accessMemory f d).2 as [b reply] eqn:Ec. cbn [snd] in Hlen.
  eapply (implements_handler _ _ _ RecOtherEmuResponse _ _ RecOtherEmu 10 (le 2 type ++ req) 49 (le 1 (bit b) ++ reply) _ emu_finish); [done|done| |done|done|done|done|done|done|exact Hr| |].
  - intros w0 Hw. unfold W.Emulate. rewrite bind_gets, Hw. cbn [negb]. unfold W.write_other. rewrite write_first, !write_next by done. rewrite <- !app_assoc. reflexivity.
  - intros rest r0 Hs. rewrite Ec. unfold emu_finish, sendEmuResponse, initResponse. rewrite bind_assoc, bind_gets. change (has_response_file (feed rest r0)) with (has_response_file r0).
    rewrite Hs, !bind_assoc, (bind_ok _ _ _ _ _ (send_run _ _)), bind_assoc, !(bind_ok _ _ _ _ _ (send_run _ _)). cbn [response set_response]. rewrite <- !app_assoc. done.
  - intros tail w0. cbn [other_size]. rewrite bind_assert by done. rewrite <- app_assoc, (bind_ok _ _ _ _ _ (wread_value_run 1 (bit b) _ w0)).
    change (49 =? 0) with false. cbv iota. change (Z.to_nat (49 - 1)) with sizeof_EmuReply. rewrite (bind_ok _ _ _ _ _ (wread_run _ reply tail w0 Hlen)).
    unfold mret, proc_ret. rewrite Hlen, drop_ge, app_nil_r by lia. by destruct b.
Qed.
Lemma emulate_ok type req res0 : request_ok (REmulate type req res0).
Proof.
  intros d w r Hl Hm (Hreq & Hres & Hc). cbn [direct perform]. set (z := replicate sizeof_EmuReply 0) in *.
  assert (Hread : forall k rest, (n ← read_known (Z.to_nat (10 - 2)); k n) (feed (req ++ rest) r) = (k req : Proc (Reader H) next) (feed rest r)).
  { intros k rest. by rewrite (bind_ok _ _ _ _ _ (read_known_run _ req rest r Hreq)). }
  destruct (handleEmuFunc handlers) as [f|] eqn:Ef.
  - destruct Hc as [Hp Hlen]. pose proof (emulate_handler type req res0 (f (u16 type) req z) d w r Hl Hm Hreq Hres Hp Hlen) as Hi.
    destruct (consult accessMemory (f (u16 type) req z) d) as [d' [b l]]. cbn [fst snd] in *. eapply implements_then; [apply Hi|done].
    reads. change (10 <? 2) with false. cbv iota. rewrite Hread, Ef. apply bind_ext. by intros [x y] s.
  - pose proof (emulate_handler type req res0 (fun h => Return (h, (false, z))) d w r Hl Hm Hreq Hres I) as Hi. unfold consult in Hi. cbn [run_direct fst snd] in *.
    replace (mkDirect (d_client d) (d_memory d) (d_isa d)) with d in Hi by by destruct d. eapply implements_then; [apply Hi|done]; [done|].
    reads. change (10 <? 2) with false. cbv iota. rewrite Hread, Ef, bind_ret. by rewrite (bind_ok _ _ _ _ _ (call_return (false, z) (feed rest r))).
Qed.

(** Every request but an instruction. *)
Lemma every_request_ok q : is_instruction q = false -> request_ok q.
Proof.
  destruct q; intros E; try done.
  - apply instruction_count_ok.
  - apply cache_only_ok.
  - apply output_ok.
  - apply new_thread_ok.
  - apply syscall_ok.
  - apply join_ok.
  - apply sync_ok.
  - apply fork_ok.
  - apply magic_ok.
  - apply emulate_ok.
  - apply routine_change_ok.
  - apply routine_announce_ok.
  - apply isa_change_ok.
Qed.

(** ** Sessions *)

Fixpoint perform_all (qs : list request) : Proc (W.Writer M) (list outcome) :=
  match qs with [] => mret [] | q :: qs => o ← perform q; os ← perform_all qs; mret (o :: os) end.
Fixpoint direct_all (qs : list request) (d : Direct) : Direct * list outcome :=
  match qs with
  | [] => (d, [])
  | q :: qs => let '(d, o) := calls q d in let '(d, os) := direct_all qs d in (d, o :: os)
  end.
Fixpoint carried_all (qs : list request) (d : Direct) : Prop :=
  match qs with [] => True | q :: qs => carried accessMemory handlers isize q d /\ carried_all qs (calls q d).1 end.

(** What the simulator looks at in an instruction that it has read. *)
Fixpoint translate (l : list Z) : Proc (Reader H) (list Z) :=
  match l with [] => mret [] | a :: l => p ← va2pa a; ps ← translate l; mret (p :: ps) end.
Definition observe (i : Instruction) : Proc (Reader H) seen :=
  p ← lift (deref (sinst i));
  s ← static p;
  data ← lift (known (take (Z.to_nat (s_size s)) (s_data s)));
  ps ← translate (s_addr s :: addresses i);
  mret (mkSeen (s_addr s) data (addresses i) (is_branch i) (taken i) (is_predicate i) (executed i) (isa i) ps).
(** The front end reads instructions until there are no more. *)
Fixpoint serve (n : nat) (inst : Instruction) : Proc (Reader H) unit :=
  match n with
  | O => fails Diverges
  | S n =>
      '(more, i) ← Read handlers inflate decompress has_lzma inst;
      if more : bool then x ← observe i; update (fun r => set_client (consume x (client r)) r);; serve n i else mret tt
  end.
Definition after_read (n : nat) (x : bool * Instruction) : Proc (Reader H) unit :=
  if x.1 then y ← observe x.2; update (fun r => set_client (consume y (client r)) r);; serve n x.2 else mret tt.
Abbreviation loop := (read_loop handlers inflate decompress has_lzma).

Lemma serve_feed n l inst r : m_format r = Sift -> serve (S n) inst (feed l r) = (loop (S (length l)) (clear_champsim inst) ≫= after_read n) (feed l r).
Proof.
  intros Hf. cbn [serve]. unfold Read. rewrite !bind_assoc, bind_gets. cbn [input feed set_input]. rewrite bind_assoc, bind_gets, bind_assoc, bind_ret. cbn [negb].
  rewrite bind_assoc, bind_gets. change (m_format (feed l r)) with (m_format r). rewrite Hf. cbv beta. rewrite bool_decide_eq_false_2 by done. rewrite bind_assoc, bind_gets.
  apply bind_ext. by intros [more i] r'.
Qed.
Lemma framed_va2pa a : framed (H := H) (va2pa a).
Proof.
  unfold va2pa. apply framed_bind; [by apply framed_gets|]. intros [|]; [|apply framed_ret]. apply framed_bind; [by apply framed_gets|]. intros c. by destruct (c !! _).
Qed.
Lemma translate_run l w rest r : linked w r -> Forall (translated w r) l -> translate l (feed rest r) = Ok (physical pagemap (W.m_send_va2pa_mapping w) <$> l, feed rest r).
Proof.
  intros Hl Hf. induction Hf as [|a l Ha _ IH]; [done|]. cbn [translate]. rewrite (bind_ok _ _ _ _ _ (framed_run _ (Some (mkStream rest false false false)) _ _ _ (framed_va2pa a) (va2pa_run w r a Hl Ha))).
  change (set_input (Some (mkStream rest false false false)) r) with (feed rest r). by rewrite (bind_ok _ _ _ _ _ IH).
Qed.
Lemma observe_run addr addrs b t p e w r i r' rest : linked w r' -> executed_as addr addrs b t p e r i r' -> Forall (translated w r') (addr :: addrs) ->
  observe i (feed rest r') =
    Ok (mkSeen addr (code_bytes code addr (isize addr)) addrs b t p e (m_isa r) (physical pagemap (W.m_send_va2pa_mapping w) <$> (addr :: addrs)), feed rest r').
Proof.
  intros Hl (q & l & c & s & -> & Er & Hs & Hq & Ea & [G1 G2]) Ht. unfold observe. cbn [sinst addresses is_branch taken is_predicate executed isa]. erewrite bind_ok by done.
  assert (Hq' : sinsts (feed rest r') !! q = Some s) by (subst r'; exact Hq). rewrite (bind_ok _ _ _ _ _ (static_run q s (feed rest r') Hq')).
  rewrite G1, G2, Ea, Nat2Z.id, take_app_length' by (by rewrite length_fmap, length_code). unfold lift. rewrite known_some. erewrite bind_ok by done.
  by rewrite (bind_ok _ _ _ _ _ (translate_run (addr :: addrs) w rest r' Hl Ht)).
Qed.

(** The trace ends. *)
Lemma loop_end fuel inst r : m_seen_end r = false -> (0 < fuel)%nat -> loop fuel inst (feed (Other RecOtherEnd 0) r) = Ok ((false, inst), feed [] (set_seen_end true r)).
Proof.
  intros He Hf. destruct fuel as [|fuel]; [lia|]. cbn [read_loop]. rewrite bind_gets. change (m_seen_end (feed _ r)) with (m_seen_end r). rewrite He. cbv iota.
  rewrite (bind_ok _ _ _ 0 (feed (Other RecOtherEnd 0) r)) by done. erewrite bind_ok by apply fail_run. change (0 =? 0) with true. cbv iota.
  pose proof (read_other_run RecOtherEnd 0 [] r ltac:(done) ltac:(done)) as E. rewrite app_nil_r in E. rewrite (bind_ok _ _ _ _ _ E). done.
Qed.
Lemma matches_client d w r f : matches d w r -> matches (on_client f d) w (set_client (f (client r)) r).
Proof. intros [E1 E2 E3]. split; cbn; congruence. Qed.
Lemma linked_client h w r : linked w r -> linked w (set_client h r).
Proof. intros []. split; try done. by apply (statics_eq _ _ r). Qed.

(** What is sent for a list of requests, and what the two ends make of it. *)
Definition session (qs : list request) (d : Direct) w r : Prop := exists sent answered w',
  (forall tail, perform_all qs (W.set_response (answered ++ tail) w) = Ok ((direct_all qs d).2, W.set_response tail w')) /\
  W.written w' = W.written w ++ sent /\ W.output w' = true /\ W.memory w' = d_memory (direct_all qs d).1 /\
  forall n fuel inst, (length (sent ++ Other RecOtherEnd 0) < fuel)%nat -> (length qs <= n)%nat ->
    exists r', (loop fuel inst ≫= after_read n) (feed (sent ++ Other RecOtherEnd 0) r) = Ok (tt, r') /\
      client r' = d_client (direct_all qs d).1 /\ response r' = response r ++ answered.
Lemma session_call q qs d w r : is_instruction q = false -> linked w r -> matches d w r -> carried accessMemory handlers isize q d -> W.m_send_va2pa_mapping w = sends ->
  (forall w r, linked w r -> matches (calls q d).1 w r -> W.m_send_va2pa_mapping w = sends -> session qs (calls q d).1 w r) -> session (q :: qs) d w r.
Proof.
  intros Hi Hl Hm Hc Hs IH. destruct (every_request_ok q Hi d w r Hl Hm Hc) as (w1 & r1 & (s1 & a1 & E1 & W1 & C1 & R1) & L1 & M1 & S1).
  destruct (IH w1 r1 L1 M1) as (s2 & a2 & w2 & E2 & W2 & O2 & Me2 & Hr2); [congruence|]. exists (s1 ++ s2), (a1 ++ a2), w2. unfold session. cbn [direct_all perform_all].
  destruct (calls q d) as [d1 o] eqn:Ec. cbn [fst snd] in *. destruct (direct_all qs d1) as [d2 os]. cbn [fst snd] in *. split_and!; try done.
  - intros tail. rewrite <- app_assoc, (bind_ok _ _ _ _ _ (E1 _)). by rewrite (bind_ok _ _ _ _ _ (E2 tail)).
  - by rewrite W2, W1, app_assoc.
  - intros n fuel inst Hf Hn. rewrite <- app_assoc in *. destruct (C1 (s2 ++ Other RecOtherEnd 0) fuel inst Hf) as (f1 & Hf1 & E). cbn in Hn.
    destruct (Hr2 n f1 inst Hf1 ltac:(lia)) as (r' & E' & Hc' & Hr'). exists r'. split_and!; [|done|by rewrite Hr', R1, app_assoc].
    rewrite <- E'. unfold mbind, proc_bind. by rewrite E.
Qed.
Lemma session_instruction addr size addrs b t p e qs d w r : let q := RInstruction addr size addrs b t p e in
  linked w r -> matches d w r -> carried accessMemory handlers isize q d -> W.m_send_va2pa_mapping w = sends ->
  (forall w r, linked w r -> matches (calls q d).1 w r -> W.m_send_va2pa_mapping w = sends -> session qs (calls q d).1 w r) -> session (q :: qs) d w r.
Proof.
  intros q Hl Hm (-> & Hsz & Hpos & Hmax & Hlen & Hr & Hpe) Hs IH.
  destruct (instruction_carried addr addrs b t p e w r Hl Hpos Hsz Hmax Hlen Hr Hpe) as (w1 & i & r1 & r0 & (s1 & a1 & E1 & W1 & G1 & R1) & L1 & Ec & Ei & Hx & Em & Es & Ht).
  set (x := mkSeen addr (code_bytes code addr (isize addr)) addrs b t p e (d_isa d) (physical pagemap sends <$> (addr :: addrs))).
  assert (Hc1 : client r1 = client r) by (destruct Hx as (q0 & l & c & s & _ & -> & _); exact Ec).
  assert (Hi1 : m_isa r1 = m_isa r) by (destruct Hx as (q0 & l & c & s & _ & -> & _); exact Ei). destruct Hm as [M1 M2 M3].
  set (r2 := set_client (consume x (client r1)) r1).
  assert (Hm2 : matches (on_client (consume x) d) w1 r2) by (split; cbn [client set_client on_client d_client d_memory d_isa r2 W.memory m_isa]; congruence).
  destruct (IH w1 r2) as (s2 & a2 & w2 & E2 & W2 & O2 & Me2 & Hr2); [by apply linked_client|exact Hm2|congruence|].
  exists (s1 ++ s2), (a1 ++ a2), w2. unfold q, session in *. cbn [direct_all perform_all perform direct fst snd] in *. fold x in E2, Me2, Hr2. fold x.
  destruct (direct_all qs (on_client (consume x) d)) as [d2 os]. cbn [fst snd] in *. split_and!; try done.
  - intros tail. rewrite <- app_assoc, bind_assoc, (bind_ok _ _ _ _ _ (E1 _)), bind_ret. by rewrite (bind_ok _ _ _ _ _ (E2 tail)).
  - by rewrite W2, W1, app_assoc.
  - intros n fuel inst Hf Hn. cbn in Hn. destruct n as [|n]; [lia|]. rewrite <- app_assoc in *. rewrite (bind_ok _ _ _ _ _ (G1 _ fuel inst Hf)). unfold after_read at 1. cbn [fst snd].
    rewrite (bind_ok _ _ _ _ _ (observe_run addr addrs b t p e w1 r0 i r1 _ L1 Hx Ht)), bind_update, Es, Hs, Ei, M3. fold x.
    change (set_client (consume x (client (feed (s2 ++ Other RecOtherEnd 0) r1))) (feed (s2 ++ Other RecOtherEnd 0) r1)) with (feed (s2 ++ Other RecOtherEnd 0) r2).
    rewrite serve_feed by apply (lk_format _ _ L1). destruct (Hr2 n (S (length (s2 ++ Other RecOtherEnd 0))) (clear_champsim i)) as (r' & E' & Hc' & Hr'); [lia|lia|].
    exists r'. split_and!; [done|done|]. rewrite Hr'. unfold r2. cbn [response set_client]. by rewrite R1, app_assoc.
Qed.
Lemma session_ok qs d w r : linked w r -> matches d w r -> carried_all qs d -> W.m_send_va2pa_mapping w = sends -> session qs d w r.
Proof.
  revert d w r. induction qs as [|q qs IH]; intros d w r Hl Hm Hc Hs.
  { exists [], [], w. split_and!; [done|by rewrite app_nil_r|apply (lk_output _ _ Hl)|apply (mt_memory _ _ _ Hm)|]. intros n fuel inst Hf Hn. cbn [app] in *.
    exists (feed [] (set_seen_end true r)). rewrite (bind_ok _ _ _ _ _ (loop_end fuel inst r (lk_end _ _ Hl) ltac:(lia))). split_and!; [done|apply (mt_client _ _ _ Hm)|by rewrite app_nil_r]. }
  destruct Hc as [Hc Hcs]. destruct (is_instruction q) eqn:Ei.
  - destruct q; try done. apply session_instruction; auto.
  - apply session_call; auto.
Qed.
End link.
