(* ===== verification/SiftConnection.v ===== *)
(** * The connection of a traced program to the simulator

    A whole session over a SIFT connection: the writer is created, the program makes its
    requests and the trace is ended; the reader opens what was written and the front end reads
    until there are no more instructions. The outcomes, the memory of the program and the state
    of the simulator are those of the direct calls. *)

From stdpp Require Import base tactics list numbers gmap strings.
From Stdlib Require Import ZArith Lia.
From S2P Require Import Prelude SiftFormat SiftWriter SiftReader.
From S2P Require Import SiftProps SiftSpec SiftLink.
Local Open Scope Z_scope.
Local Open Scope mach_scope.

(** The name and the format with which a trace is opened as a SIFT trace. *)
Definition opens_sift (has_lzma : bool) (name : string) (fmt : TraceFormat) : bool :=
  negb (ends_with ".xz" name && negb has_lzma) &&
  match fmt with
  | Auto => bool_decide (champsim_compression has_lzma name = None)
  | Sift => true
  | ChampSim => false
  end.

Section connection.
Context {M H : Type} (accessMemory : Z -> Z -> Z -> list Z -> M -> list Z * M) (getCode : Z -> nat -> list Z) (pagemap : Z -> option Z) (code : Z -> Z).
Context (handlers : Handlers H) (inflate : list Z -> list Z) (decompress : compression -> list Z -> list Z) (has_lzma : bool).
Context (isize : Z -> nat) (consume : seen -> H -> H).

(** The reader when the stream is open. *)
Definition opened (sends : bool) (name : string) (h : H) : Reader H :=
  mkReader None None name [] true h 0 ∅ [] ∅ ∅ sends false None 0 Sift None.
Lemma initStream_run sends arch32 per_insn l name fmt h : opens_sift has_lzma name fmt = true ->
  initStream inflate decompress has_lzma (Reader_new (Some (Header (W.options false arch32 per_insn sends) ++ l)) name true fmt h) = Ok (true, feed l (opened sends name h)).
Proof.
  intros Ho. apply andb_true_iff in Ho as [Hx Hf]. unfold initStream. rewrite !bind_gets. cbn [filename m_format Reader_new].
  assert (Hw : bool_decide (fmt = Auto) && bool_decide (is_Some (champsim_compression has_lzma name)) = false).
  { destruct fmt; [|done..]. apply bool_decide_eq_true in Hf. by rewrite Hf. }
  rewrite (bind_ok _ _ _ tt (Reader_new (Some (Header (W.options false arch32 per_insn sends) ++ l)) name true fmt h)) by (rewrite Hw; done).
  rewrite bind_gets. cbn [file Reader_new]. apply negb_true_iff in Hx. rewrite Hx, bind_gets, bind_update. cbn [m_format Reader_new].
  destruct fmt; [| |done]; destruct arch32, per_insn, sends; vm_compute; reflexivity.
Qed.
Lemma serve_open n inst sends arch32 per_insn l name fmt h : opens_sift has_lzma name fmt = true ->
  serve handlers inflate decompress has_lzma consume (S n) inst (Reader_new (Some (Header (W.options false arch32 per_insn sends) ++ l)) name true fmt h) =
    (read_loop handlers inflate decompress has_lzma (S (length l)) (clear_champsim inst) ≫= after_read handlers inflate decompress has_lzma consume n) (feed l (opened sends name h)).
Proof.
  intros Ho. cbn [serve]. unfold Read. rewrite !bind_assoc, bind_gets, bind_assoc, bind_gets, bind_assoc. cbn [input m_champsim_stream Reader_new].
  rewrite (bind_ok _ _ _ _ _ (initStream_run sends arch32 per_insn l name fmt h Ho)). cbn [negb]. rewrite bind_assoc, bind_gets. cbn [m_format feed set_input opened].
  rewrite bool_decide_eq_false_2 by done. rewrite bind_assoc, bind_gets. apply bind_ext. by intros [more i] r'.
Qed.

(** The writer as the program uses it. *)
Context (sends : bool).
Definition connected (arch32 per_insn : bool) (answers : list Z) (m : M) : W.Writer M :=
  W.set_memory_func (W.Writer_new true false true arch32 per_insn sends answers m).
Definition traced (qs : list request) : Proc (W.Writer M) (list outcome) :=
  os ← perform_all accessMemory getCode pagemap qs; W.End;; mret os.

Lemma linked_start arch32 per_insn m name h : linked pagemap code isize (connected arch32 per_insn [] m) (opened sends name h).
Proof.
  split; done.
Qed.

Context (reads_code : forall a n, getCode a n = code_bytes code a n).
Context (access_length : forall lock op addr l m, length (accessMemory lock op addr l m).1 = length l).
Context (has_frames : forall vp, exists pp, W.va2pa_lookup pagemap vp = Ok pp).
(** C10: A session over a SIFT connection is as if the program called the handlers of the simulator
    itself and the simulator accessed the memory of the program itself: for requests of all
    fourteen kinds the writer returns the outcomes of the direct calls and ends with their
    memory, the reader opens the bytes that were written, calls the handlers with the same
    arguments, returns the same instructions with their code, operands and physical addresses,
    and ends in the same state of the simulator; and the answers that the writer has read, all
    of them, are those that the reader has sent. *)
Theorem connection_transparent qs arch32 per_insn name fmt h m inst :
  opens_sift has_lzma name fmt = true -> carried_all accessMemory pagemap code handlers isize consume sends qs (mkDirect h m 0) ->
  let '(d, outcomes) := direct_all accessMemory pagemap code handlers consume sends qs (mkDirect h m 0) in
  exists trace answers w r,
    traced qs (connected arch32 per_insn answers m) = Ok (outcomes, w) /\
    W.written w = trace /\ W.response w = [] /\ W.memory w = d_memory d /\
    serve handlers inflate decompress has_lzma consume (S (length qs)) inst (Reader_new (Some trace) name true fmt h) = Ok (tt, r) /\
    response r = answers /\ client r = d_client d.
Proof.
  intros Ho Hc. set (w0 := connected arch32 per_insn [] m). set (r0 := opened sends name h).
  destruct (session_ok accessMemory getCode pagemap code handlers inflate decompress has_lzma isize reads_code access_length has_frames consume sends qs (mkDirect h m 0) w0 r0)
    as (sent & answered & w & E & Ew & Eo & Em & Er); [apply linked_start|by split|done|done|].
  destruct (direct_all _ _ _ _ _ _ qs _) as [d os]. cbn [fst snd] in *.
  destruct (Er (length qs) (S (length (sent ++ Other RecOtherEnd 0))) (clear_champsim inst)) as (r & Es & Hcl & Hr); [lia|lia|].
  exists (W.written w ++ Other RecOtherEnd 0), answered. exists (W.set_output false (W.set_written (W.written w ++ Other RecOtherEnd 0) (W.set_response [] w))), r.
  split_and!; try done.
  - unfold traced. specialize (E []). rewrite app_nil_r in E. change (connected arch32 per_insn answered m) with (W.set_response answered w0).
    rewrite (bind_ok _ _ _ _ _ E). unfold W.End. rewrite bind_assoc, bind_gets. cbn [W.output W.set_response]. rewrite Eo, bind_assoc.
    unfold W.write_other. by erewrite bind_ok by (apply write_run; exact Eo).
  - rewrite Ew, <- app_assoc. change (W.written w0) with (Header (W.options false arch32 per_insn sends)). by rewrite serve_open.
Qed.

(** ** The end of a trace *)

Lemma Read_feed st inst r : m_format r = Sift -> m_seen_end r = false ->
  Read handlers inflate decompress has_lzma inst (set_input (Some st) r) = read_loop handlers inflate decompress has_lzma (S (length (bytes st))) (clear_champsim inst) (set_input (Some st) r).
Proof.
  intros Hf He. unfold Read. rewrite !bind_gets. cbn [input set_input]. rewrite bind_ret. cbn [negb]. rewrite bind_gets.
  change (m_format (set_input (Some st) r)) with (m_format r). by rewrite Hf, bool_decide_eq_false_2, bind_gets.
Qed.
(** At the record that ends a trace the reader returns that there are no more instructions; but
    asked again it returns that there is one, the one it is given. When the record is missing
    it reads indeterminate bytes as an instruction, unless the trace is compressed. *)
Theorem trace_end_handled inst r : m_format r = Sift -> m_seen_end r = false ->
  let reads := Read handlers inflate decompress has_lzma in
  let ended := feed [] (set_seen_end true r) in
  reads inst (feed (Other RecOtherEnd 0) r) = Ok ((false, clear_champsim inst), ended) /\
  reads inst ended = Ok ((true, clear_champsim inst), ended) /\
  reads inst (feed [] r) = Err Indeterminate /\
  exists r', reads inst (set_input (Some (mkStream [] false false true)) r) = Ok ((false, clear_champsim inst), r').
Proof.
  intros Hf He reads ended. split_and!.
  - unfold reads, feed at 1. rewrite Read_feed by done. apply (loop_end handlers inflate decompress has_lzma); [done|lia].
  - unfold reads, ended, feed, Read. rewrite !bind_gets. cbn [input set_input]. rewrite bind_ret. cbn [negb]. rewrite bind_gets.
    change (m_format (set_input _ _)) with (m_format r). rewrite Hf, bool_decide_eq_false_2 by done. done.
  - unfold reads, feed. rewrite Read_feed by done. cbn [read_loop]. rewrite bind_gets. change (m_seen_end (set_input _ _)) with (m_seen_end r). by rewrite He.
  - eexists. unfold reads. rewrite Read_feed by done. cbn [read_loop]. rewrite bind_gets. change (m_seen_end (set_input _ _)) with (m_seen_end r). by rewrite He.
Qed.
End connection.

(** A program with a page of memory whose simulator reads the arguments of its system calls, and
    keeps what it is told. *)
Module ConnectionExample.
Definition access_bytes (lock op addr : Z) (data : list Z) (m : list Z) : list Z * list Z :=
  let a := Z.to_nat addr in
  if op =? MemRead then ((fun i => nth (a + i) m 0) <$> seq 0 (length data), m) else (data, take a m ++ data ++ drop (a + length data) m).
Definition code (a : Z) : Z := a `mod` 256.
Definition mapped (vp : Z) : option Z := Some (2 ^ 63 + 5).
Definition syscall (number : Z) (data : list Z) (h : list Z) : prog (list Z * Z) :=
  Access 0 MemRead (nth 0 data 0) [0; 0] (fun _ l => Access 0 MemWrite 8 [7; number] (fun _ _ => Return (h ++ l, 11))).
Definition handlers : Handlers (list Z) :=
  mkHandlers (Some (fun n h => (h ++ [n], 2))) None (Some (fun fd l h => h ++ fd :: l)) (Some syscall) (Some (fun h => (h, 1))) None None None None None None.
Definition consume (x : seen) (h : list Z) : list Z := h ++ seen_addr x :: seen_code x ++ seen_physical x.
Definition start : Instruction := mkInst None [] false false false false 0 false [] [] [] [].
Definition requests : list request :=
  [RInstruction 4094 4 [8192] false false false true; RSyscall 60 [4; 0; 0]; RInstruction 4098 4 [] true true false true;
   ROutput 1 [72; 105]; RMagic 1 2 3; RInstruction 4094 4 [] false false true false; RSync; RNewThread].
End ConnectionExample.
Lemma connection_transparent_witness :
  let '(d, outcomes) := direct_all ConnectionExample.access_bytes ConnectionExample.mapped ConnectionExample.code ConnectionExample.handlers ConnectionExample.consume true
    ConnectionExample.requests (mkDirect [] (Z.of_nat <$> seq 0 16) 0) in
  exists trace answers w r,
    traced ConnectionExample.access_bytes (code_bytes ConnectionExample.code) ConnectionExample.mapped ConnectionExample.requests
      (connected true false false answers (Z.of_nat <$> seq 0 16)) = Ok (outcomes, w) /\
    W.written w = trace /\ W.response w = [] /\ W.memory w = d_memory d /\
    serve ConnectionExample.handlers id (fun _ l => l) false ConnectionExample.consume 9 ConnectionExample.start (Reader_new (Some trace) "trace.sift" true Auto []) = Ok (tt, r) /\
    response r = answers /\ client r = d_client d.
Proof.
  apply (connection_transparent ConnectionExample.access_bytes (code_bytes ConnectionExample.code) ConnectionExample.mapped ConnectionExample.code ConnectionExample.handlers
    id (fun _ l => l) false (fun _ => 4%nat) ConnectionExample.consume true).
  - done.
  - intros lock op addr l m. unfold ConnectionExample.access_bytes. destruct (op =? MemRead); [|done]. cbn. by rewrite length_fmap, length_seq.
  - intros vp. unfold W.va2pa_lookup, ConnectionExample.mapped. destruct (_ && _); by eexists.
  - vm_compute. reflexivity.
  - cbn -[Z.lt Z.le Z.pow]. unfold in_range. repeat match goal with |- _ /\ _ => split | |- True => exact I | |- Forall _ _ => constructor end; try lia; try done.
    all: try (intros; discriminate).
    exists ConnectionExample.syscall. split; [done|]. cbn -[Z.lt Z.le Z.pow]. unfold in_range. split_and!; try lia; try done. intros _ _. split_and!; try lia; done.
Defined.
Lemma trace_end_handled_witness :
  let r := set_format Sift (Reader_new None "trace.sift" false Auto ([] : list Z)) in
  let reads := Read ConnectionExample.handlers id (fun _ l => l) false in
  let ended := feed [] (set_seen_end true r) in
  reads ConnectionExample.start (feed (Other RecOtherEnd 0) r) = Ok ((false, clear_champsim ConnectionExample.start), ended) /\
  reads ConnectionExample.start ended = Ok ((true, clear_champsim ConnectionExample.start), ended) /\
  reads ConnectionExample.start (feed [] r) = Err Indeterminate /\
  exists r', reads ConnectionExample.start (set_input (Some (mkStream [] false false true)) r) = Ok ((false, clear_champsim ConnectionExample.start), r').
Proof. apply (trace_end_handled ConnectionExample.handlers id (fun _ l => l) false); reflexivity. Defined.
