(* ===== verification/SiftChampSim.v ===== *)
(** * Traces of the ChampSim simulator

    A file of ChampSim records, compressed or not, is read record by record: every instruction
    has the address, the branch, the registers and the operands of its record, and instructions
    with the same address have the same static instruction. *)

From stdpp Require Import base tactics list numbers gmap strings.
From Stdlib Require Import ZArith Lia.
From S2P Require Import Prelude SiftFormat SiftReader.
From S2P Require Import SiftProps.
Local Open Scope Z_scope.
Local Open Scope mach_scope.

(** ** Records *)

(** [struct input_instr], whose 64 bytes have no padding. *)
Record input_instr := mkInput {
  ip : Z; in_branch : Z; branch_taken : Z;
  destination_registers : list Z; source_registers : list Z;
  destination_memory : list Z; source_memory : list Z
}.
Definition input_bytes (c : input_instr) : list Z :=
  le 8 (ip c) ++ [in_branch c; branch_taken c] ++ destination_registers c ++ source_registers c ++
  concat (le 8 <$> destination_memory c) ++ concat (le 8 <$> source_memory c).
Record input_ok (c : input_instr) : Prop := {
  io_ip : in_range 64 (ip c);
  io_dest_regs : length (destination_registers c) = 2%nat;
  io_src_regs : length (source_registers c) = 4%nat;
  io_dest : length (destination_memory c) = 2%nat /\ Forall (in_range 64) (destination_memory c);
  io_src : length (source_memory c) = 4%nat /\ Forall (in_range 64) (source_memory c)
}.
(** What an instruction says of its record. *)
Record decoded (c : input_instr) (i : Instruction) : Prop := {
  dc_branch : is_branch i = negb (in_branch c =? 0);
  dc_taken : taken i = negb (branch_taken c =? 0);
  dc_src : src_addresses i = nonzero (source_memory c);
  dc_dest : dest_addresses i = nonzero (destination_memory c);
  dc_src_regs : src_registers i = nonzero (source_registers c);
  dc_dest_regs : dest_registers i = nonzero (destination_registers c);
  dc_addresses : addresses i = take 2 (nonzero (source_memory c) ++ nonzero (destination_memory c));
  dc_executed : is_predicate i = false /\ executed i = true /\ is_champsim i = true
}.

Lemma length_words l : length (concat (le 8 <$> l)) = (8 * length l)%nat.
Proof. induction l as [|a l IH]; [done|]. cbn [fmap list_fmap concat length]. rewrite length_app, length_le. change (list_fmap _ _ (le 8) l) with (le 8 <$> l). lia. Qed.
Lemma words_S l n : words l (S n) = of_le (take 8 l) :: words (drop 8 l) n.
Proof.
  unfold words. rewrite <- cons_seq, <- fmap_S_seq. cbn [fmap list_fmap]. f_equal. rewrite <- list_fmap_compose. apply list_fmap_ext.
  intros i x _. cbn beta. unfold compose. rewrite drop_drop. by replace (8 * S x)%nat with (8 + 8 * x)%nat by lia.
Qed.
Lemma words_run n l rest : length l = n -> Forall (in_range 64) l -> words (concat (le 8 <$> l) ++ rest) n = l.
Proof.
  intros <-.
  induction 1 as [|a l Ha _ IH]; [done|]. cbn [length]. rewrite words_S. cbn [fmap list_fmap concat]. rewrite <- app_assoc.
  rewrite take_app_length', drop_app_length' by by rewrite length_le. rewrite of_le_le by done. by f_equal.
Qed.
Lemma length_input c : input_ok c -> length (input_bytes c) = 64%nat.
Proof. intros [_ H1 H2 [H3 _] [H4 _]]. unfold input_bytes. rewrite !length_app, !length_words, length_le. cbn [length]. lia. Qed.

(** ** Static instructions *)

Section champsim.
Context {H : Type} (handlers : Handlers H) (inflate : list Z -> list Z) (decompress : compression -> list Z -> list Z) (has_lzma : bool).
Implicit Types (r : Reader H).

(** Instructions of four zero bytes. *)
Abbreviation statics := (statics_ok (fun _ => 0) (fun _ => 4%nat)).
Definition shared r : Prop := forall p a, (s_addr <$> sinsts r) !! p = Some a -> scache r !! a = Some p.

Lemma remember_addresses p r r' : remember p r = Ok (tt, r') -> s_addr <$> sinsts r' = s_addr <$> sinsts r /\ scache r' = scache r.
Proof.
  unfold remember. rewrite bind_gets. destruct (m_last_sinst r) as [last|]; [|by intros [= <-]]. unfold static. rewrite !bind_assoc, bind_gets.
  unfold lift, rd. destruct (sinsts r !! last) as [x|] eqn:Ex; [|done]. erewrite bind_ok by done. unfold when. destruct (bool_decide _); [|by intros [= <-]].
  rewrite bind_update. intros [= <-]. cbn. split; [|done]. rewrite list_fmap_insert. apply list_insert_id. by rewrite list_lookup_fmap, Ex.
Qed.
Lemma getChampSim_ok addr r : statics r -> shared r ->
  exists p l c s, getChampSimStaticInstruction addr r = Ok (p, with_statics l c (Some p) r) /\ statics (with_statics l c (Some p) r) /\ shared (with_statics l c (Some p) r) /\
    c !! addr = Some p /\ scache r ⊆ c /\ l !! p = Some s /\ s_addr s = addr /\ s_size s = 4.
Proof.
  intros Hs Hsh. unfold getChampSimStaticInstruction. destruct (predicted_ok _ _ addr r Hs) as (o & Eo & Ho). rewrite (bind_ok _ _ _ _ _ Eo), bind_gets.
  assert (Hend : forall r1 p s, (exists l0 c0, r1 = with_statics l0 c0 (m_last_sinst r) r) -> statics r1 -> shared r1 -> scache r ⊆ scache r1 -> sinsts r1 !! p = Some s -> s_addr s = addr ->
    exists l c s, (remember p ≫= fun _ => mret p) r1 = Ok (p, with_statics l c (Some p) r) /\ statics (with_statics l c (Some p) r) /\ shared (with_statics l c (Some p) r) /\
      c !! addr = Some p /\ scache r ⊆ c /\ l !! p = Some s /\ s_addr s = addr /\ s_size s = 4).
  { intros r1 p s (l0 & c0 & ->) H1 H2 H3 Hp Ea. destruct (remember_ok _ _ p s _ H1 Hp) as (l & E & Hok & s' & Hs' & Ea' & [G _]). pose proof (remember_addresses _ _ _ E) as [Hl Hc].
    exists l, c0, s'. rewrite (bind_ok _ _ _ _ _ E). split_and!; try done.
    - intros q a Hq. apply H2. rewrite <- Hl. exact Hq.
    - apply H2. by rewrite list_lookup_fmap, Hp, <- Ea.
    - congruence. }
  assert (Hr : exists l0 c0, r = with_statics l0 c0 (m_last_sinst r) r) by (exists (sinsts r), (scache r); by destruct r).
  destruct o as [p|].
  { destruct (Ho p eq_refl) as (s & Hp & Ea). rewrite bind_ret. exists p. by apply (Hend r p s). }
  destruct (scache r !! addr) as [p|] eqn:Ec.
  { destruct (so_cache _ _ _ Hs _ _ Ec) as (s & Hp & Ea). rewrite bind_ret. exists p. by apply (Hend r p s). }
  set (s := mkStatic addr 4 (replicate 16 (Some 0)) None). destruct (new_static_ok (fun _ => 0) (fun _ => 4%nat) s r Hs) as (E1 & Hs1 & Hp1); [by split|done|].
  rewrite (bind_ok _ _ _ _ _ E1). exists (length (sinsts r)). apply (Hend _ _ s); try done.
  - exists (sinsts r ++ [s]), (<[addr := length (sinsts r)]> (scache r)). by destruct r.
  - intros q a. cbn. rewrite fmap_app. intros [Hq|(Hle & Hq)]%lookup_app_Some.
    + rewrite lookup_insert_ne; [by apply Hsh|]. intros ->. apply Hsh in Hq. congruence.
    + rewrite length_fmap in *. apply list_lookup_singleton_Some in Hq as [Hq <-]. rewrite lookup_insert_eq. f_equal. lia.
  - by apply insert_subseteq.
Qed.

(** ** Reading *)

(** The reader in front of a ChampSim stream. *)
Record reading (l : list Z) r : Prop := {
  rg_format : m_format r = ChampSim;
  rg_stream : m_champsim_stream r = Some l;
  rg_statics : statics r;
  rg_shared : shared r
}.
Lemma Read_champsim l inst r : reading l r -> Read handlers inflate decompress has_lzma inst r = readChampSim (clear_champsim inst) r.
Proof.
  intros [Hf Hst _ _]. unfold Read. rewrite !bind_gets, Hst. rewrite (bind_ok _ _ _ true r) by by destruct (input r). cbn [negb].
  rewrite bind_gets, Hf. by rewrite bool_decide_eq_true_2.
Qed.
Lemma input_fields c rest : input_ok c -> let l := input_bytes c ++ rest in
  of_le (take 8 l) = ip c /\ nth 8 l 0 = in_branch c /\ nth 9 l 0 = branch_taken c /\ take 2 (drop 10 l) = destination_registers c /\
  take 4 (drop 12 l) = source_registers c /\ words (drop 16 l) 2 = destination_memory c /\ words (drop 32 l) 4 = source_memory c.
Proof.
  destruct c as [a b t dr sr dm sm]. intros [Hi H1 H2 [H3 Hd] [H4 Hs]] l. cbn [ip in_branch branch_taken destination_registers source_registers destination_memory source_memory] in *.
  destruct dr as [|d1 [|d2 [|? ?]]]; try done. destruct sr as [|s1 [|s2 [|s3 [|s4 [|? ?]]]]]; try done.
  assert (El : forall n (x y : list Z), length x = n -> drop n (x ++ y) = y) by (intros n x y <-; apply drop_app_length).
  assert (Ed : drop 16 l = concat (le 8 <$> dm) ++ concat (le 8 <$> sm) ++ rest) by (unfold l, input_bytes; rewrite <- !app_assoc; reflexivity).
  split_and!; try done.
  - unfold l, input_bytes. rewrite <- app_assoc, take_app_length' by by rewrite length_le. by apply of_le_le.
  - rewrite Ed. by apply words_run.
  - change 32%nat with (16 + 16)%nat. rewrite <- drop_drop, Ed, El by (rewrite length_words; lia). by apply words_run.
Qed.
Lemma readChampSim_run c rest inst r : input_ok c -> reading (input_bytes c ++ rest) r ->
  exists i p s r', readChampSim inst r = Ok ((true, i), r') /\ decoded c i /\ reading rest r' /\ scache r ⊆ scache r' /\
    sinst i = Some p /\ scache r' !! ip c = Some p /\ sinsts r' !! p = Some s /\ s_addr s = ip c.
Proof.
  intros Hc [Hf Hst Hs Hsh]. pose proof (length_input c Hc) as E64. destruct (input_fields c rest Hc) as (F1 & F2 & F3 & F4 & F5 & F6 & F7).
  unfold readChampSim. rewrite bind_gets, Hst, bind_update. rewrite (take_app_length' (input_bytes c) rest 64 (eq_sym E64)), E64. cbn [Nat.eqb negb]. rewrite bind_gets, F1.
  set (r1 := set_champsim_stream (Some (drop 64 (input_bytes c ++ rest))) r).
  assert (Hs1 : statics r1) by by apply (statics_eq _ _ r).
  destruct (getChampSim_ok (ip c) r1 Hs1 Hsh) as (p & l & m & s & E & Hok & Hsh' & Hp & Hsub & Hl & Ea & Es).
  rewrite (bind_ok _ _ _ _ _ E), (bind_ok _ _ _ _ _ (static_run p s (with_statics l m (Some p) r1) Hl)), bind_update, F2, F3, F4, F5, F6, F7.
  do 2 eexists. exists s. eexists. split; [done|]. split; [by split|]. split; [|by split_and!].
  split; [done| |by apply (statics_eq _ _ (with_statics l m (Some p) r1))|done]. cbn [m_champsim_stream set_last_address with_statics set_last_sinst set_scache set_sinsts set_champsim_stream r1]. by rewrite drop_app_length'.
Qed.
Lemma readChampSim_end tail inst r : (length tail < 64)%nat -> reading tail r -> exists r', readChampSim inst r = Ok ((false, inst), r') /\ scache r' = scache r /\ statics r'.
Proof.
  intros Ht [_ Hst Hs _]. unfold readChampSim. rewrite bind_gets, Hst, bind_update, take_ge by lia. rewrite (proj2 (Nat.eqb_neq _ _)) by lia. eexists. split_and!; [done|done|by apply (statics_eq _ _ r)].
Qed.

(** The addresses and the instructions that are read until there are no more. *)
Fixpoint read_all (n : nat) (inst : Instruction) : Proc (Reader H) (list (Z * Instruction)) :=
  match n with
  | O => fails Diverges
  | S n =>
      '(more, i) ← Read handlers inflate decompress has_lzma inst;
      if more : bool then p ← lift (deref (sinst i)); s ← static p; l ← read_all n i; mret ((s_addr s, i) :: l) else mret []
  end.
Definition names r (x : Z * Instruction) : Prop := exists p, sinst x.2 = Some p /\ scache r !! x.1 = Some p.
Lemma read_all_run cs tail inst r : Forall input_ok cs -> (length tail < 64)%nat -> reading (concat (input_bytes <$> cs) ++ tail) r ->
  exists l r', read_all (S (length cs)) inst r = Ok (l, r') /\ Forall2 (fun c x => x.1 = ip c /\ decoded c x.2) cs l /\
    scache r ⊆ scache r' /\ Forall (names r') l /\ statics r'.
Proof.
  intros Hcs Ht. revert inst r. induction Hcs as [|c cs Hc _ IH]; intros inst r Hr; cbn [length]; cbn [read_all].
  - destruct (readChampSim_end tail (clear_champsim inst) r Ht Hr) as (r' & E & Ec & Hs). erewrite bind_ok by (rewrite (Read_champsim _ inst r Hr); exact E).
    exists [], r'. rewrite Ec. split_and!; [done|constructor|done|constructor|done].
  - cbn [fmap list_fmap concat] in Hr. rewrite <- app_assoc in Hr.
    destruct (readChampSim_run c _ (clear_champsim inst) r Hc Hr) as (i & p & s & r1 & E & Hd & Hr1 & Hsub & Hp & Hc1 & Hl & Ea).
    destruct (IH i r1 Hr1) as (l & r' & E' & Hf & Hsub' & Hn & Hs). erewrite bind_ok by (rewrite (Read_champsim _ inst r Hr); exact E). cbv beta iota.
    rewrite Hp. erewrite bind_ok by done. rewrite (bind_ok _ _ _ _ _ (static_run p s r1 Hl)).
    exists ((s_addr s, i) :: l), r'. rewrite (bind_ok _ _ _ _ _ E'). split_and!; [done|by constructor|by transitivity (scache r1)|constructor; [|done]|done].
    exists p. split; [done|]. cbn [fst]. rewrite Ea. by eapply lookup_weaken.
Qed.

(** ** Opening *)

(** The format is given, told by the name of a compressed file, or assumed when the file does
    not start with the magic number. *)
Definition opens_champsim (name : string) (fmt : TraceFormat) (content : list Z) : bool :=
  negb (ends_with ".xz" name && negb has_lzma) &&
  match fmt with
  | ChampSim => true
  | Auto => bool_decide (is_Some (champsim_compression has_lzma name)) || ((4 <=? length content)%nat && negb (of_le (take 4 content) =? MagicNumber))
  | Sift => false
  end.
Lemma statics_new r : sinsts r = [] -> scache r = ∅ -> m_last_sinst r = None -> statics r /\ shared r.
Proof.
  intros E1 E2 E3. split; [split; rewrite ?E1, ?E2, ?E3; [done| |done]|].
  - intros a p. by rewrite lookup_empty.
  - intros p a. by rewrite E1.
Qed.
Lemma header_known (l : list Z) st : (4 <= length l)%nat -> bytes st = l -> eof st = false -> failed st = false -> known (take 4 (stream_read 16 st).1) = Ok (take 4 l).
Proof.
  intros Hl <- He Hf. unfold stream_read. rewrite He, Hf. cbn [orb]. destruct (16 <=? length (bytes st))%nat; cbn [fst].
  - rewrite <- fmap_take, take_take. apply known_some.
  - rewrite take_app_le, <- fmap_take by (rewrite length_fmap; lia). apply known_some.
Qed.
Lemma initStream_champsim name fmt content resp h : opens_champsim name fmt content = true ->
  exists r, initStream inflate decompress has_lzma (Reader_new (Some content) name resp fmt h) = Ok (true, r) /\ reading (champsim_stream decompress has_lzma name content) r /\ scache r = ∅.
Proof.
  intros [Hx Hf]%andb_true_iff. apply negb_true_iff in Hx. unfold initStream. rewrite !bind_gets. cbn [filename m_format Reader_new].
  set (c := champsim_compression has_lzma name) in *. assert (Hdone : forall r, m_format r = ChampSim -> m_champsim_stream r = Some (champsim_stream decompress has_lzma name content) ->
    sinsts r = [] -> scache r = ∅ -> m_last_sinst r = None -> reading (champsim_stream decompress has_lzma name content) r /\ scache r = ∅).
  { intros r E1 E2 E3 E4 E5. destruct (statics_new r E3 E4 E5). by split. }
  set (r0 := Reader_new (Some content) name resp fmt h). destruct (bool_decide (fmt = Auto) && bool_decide (is_Some c)) eqn:Ea.
  { rewrite (bind_ok _ _ _ tt (set_format ChampSim r0)) by done. rewrite bind_gets. cbn [file set_format r0 Reader_new]. rewrite Hx, bind_gets, bind_update. cbn [m_format set_format].
    rewrite bool_decide_eq_true_2 by done. eexists. split; [done|]. by apply Hdone. }
  rewrite (bind_ok _ _ _ tt r0) by done. rewrite bind_gets. cbn [file r0 Reader_new]. rewrite Hx, bind_gets, bind_update. cbn [m_format r0 Reader_new].
  destruct fmt; [|done|rewrite bool_decide_eq_true_2 by done; eexists; split; [done|]; by apply Hdone].
  rewrite bool_decide_eq_false_2 by done. rewrite bool_decide_eq_true_2 in Ea by done. cbn [andb] in Ea. rewrite Ea in Hf. cbn [orb] in Hf. apply andb_true_iff in Hf as [Hl Hm].
  apply Nat.leb_le in Hl. rewrite bind_update. unfold read, stream. rewrite !bind_assoc, bind_gets. cbn [input set_input]. erewrite bind_ok by done.
  pose proof (header_known content (mkStream content false false false) Hl eq_refl eq_refl eq_refl) as Hk. destruct (stream_read 16 _) as [hdr st]. cbn [fst] in Hk.
  rewrite bind_assoc, bind_update, bind_ret, Hk. erewrite bind_ok by done. rewrite Hm. rewrite bool_decide_eq_true_2 by done. eexists. split; [done|]. by apply Hdone.
Qed.
Lemma read_all_open n inst r0 r l : input r0 = None -> m_champsim_stream r0 = None -> initStream inflate decompress has_lzma r0 = Ok (true, r) -> reading l r ->
  read_all (S n) inst r0 = read_all (S n) inst r.
Proof.
  intros E1 E2 E Hr. cbn [read_all]. unfold mbind at 1 5, proc_bind at 1 5.
  assert (ER : Read handlers inflate decompress has_lzma inst r0 = Read handlers inflate decompress has_lzma inst r); [|by rewrite ER].
  rewrite (Read_champsim _ inst r Hr). unfold Read. rewrite !bind_gets, E1, E2, (bind_ok _ _ _ _ _ E). cbn [negb]. rewrite bind_gets, (rg_format _ _ Hr). by rewrite bool_decide_eq_true_2.
Qed.

(** C37: A ChampSim trace is read record by record: from a file whose format is given, told by its
    name or not that of SIFT, every record gives one instruction with its address, branch,
    registers and operands, a rest that is shorter than a record ends the trace, and
    instructions share a static instruction exactly when they have the same address. *)
Theorem champsim_trace_read cs tail content name resp fmt h inst :
  Forall input_ok cs -> (length tail < 64)%nat -> opens_champsim name fmt content = true ->
  champsim_stream decompress has_lzma name content = concat (input_bytes <$> cs) ++ tail ->
  exists l r, read_all (S (length cs)) inst (Reader_new (Some content) name resp fmt h) = Ok (l, r) /\
    Forall2 (fun c x => x.1 = ip c /\ decoded c x.2) cs l /\
    forall x y, x ∈ l -> y ∈ l -> sinst x.2 = sinst y.2 <-> x.1 = y.1.
Proof.
  intros Hcs Ht Ho Hst. destruct (initStream_champsim name fmt content resp h Ho) as (r0 & E & Hr & _). rewrite Hst in Hr.
  destruct (read_all_run cs tail inst r0 Hcs Ht Hr) as (l & r & El & Hf & _ & Hn & Hs). exists l, r. split_and!; [by rewrite (read_all_open _ _ (Reader_new (Some content) name resp fmt h) r0 _ eq_refl eq_refl E Hr)|done|].
  rewrite Forall_forall in Hn. intros x y (p & Hp & Hx)%Hn (q & Hq & Hy)%Hn. rewrite Hp, Hq. split; [|intros Exy; rewrite Exy in Hx; congruence].
  intros [= ->]. destruct (so_cache _ _ _ Hs _ _ Hx) as (s & H1 & <-), (so_cache _ _ _ Hs _ _ Hy) as (s' & H2 & <-). congruence.
Qed.
End champsim.

(** Two records and a part of a third, in a file without a telling name. *)
Module ChampSimExample.
Definition none : Handlers unit := mkHandlers None None None None None None None None None None None.
Definition load : input_instr := mkInput 4096 0 0 [1; 0] [2; 3; 0; 0] [0; 0] [64; 0; 128; 192].
Definition jump : input_instr := mkInput 4100 1 1 [0; 0] [0; 0; 0; 0] [256; 0] [0; 0; 0; 0].
Definition content : list Z := input_bytes load ++ input_bytes jump ++ input_bytes load ++ [1; 2; 3].
Definition start : Instruction := mkInst None [] false false false false 0 false [] [] [] [].
End ChampSimExample.
Import ChampSimExample.
Lemma champsim_trace_read_witness :
  exists l r, read_all none id (fun _ l => l) true 4 start (Reader_new (Some content) "trace" false Auto tt) = Ok (l, r) /\
    Forall2 (fun c x => x.1 = ip c /\ decoded c x.2) [load; jump; load] l /\
    forall x y, x ∈ l -> y ∈ l -> sinst x.2 = sinst y.2 <-> x.1 = y.1.
Proof.
  apply (champsim_trace_read none id (fun _ l => l) true [load; jump; load] [1; 2; 3]); [|cbn; lia|vm_compute; reflexivity|vm_compute; reflexivity].
  repeat constructor; vm_compute; congruence.
Defined.
